(* ===== verification/_CoqProject ===== *)
-Q . S2P
Prelude.v
Utf8.v
AsciiBitmap.v
UnicodeData.v
RuneClass.v
Categories.v
RegexSyntax.v
PostfixBuilder.v
RegexSpec.v
ParserFacts.v
PatternSyntax.v
PatternParse.v
Nfa.v
NfaPaths.v
Exploration.v
Closure.v
ClosureCache.v
MatchContext.v
Simulate.v
Capture.v
Engine.v
EngineFacts.v
CaptureSpec.v
RegexCorrect.v
ConstructionTheorems.v
RegexTheorems.v
PatternTheorems.v
Token.v
Source.v
Xoroshiro.v
Ast.v
AstFacts.v
Wellformed.v
WfOps.v
WfTheorems.v
WfBuild.v
AstInvariant.v
NodeWorker.v
DefaultMap.v
TRegex.v
TRegexFacts.v
TokenLayer.v
TokenLayerFacts.v
FastPattern.v
Rewrite.v
RewriteFacts.v
RewriteTheorems.v
Pass.v
PassFacts.v
PassTheorems.v
Cursor.v
Parse.v
MakeFacts.v
ParseFacts.v
JsonParse.v
ParseSamples.v
Dump.v
Passes.v
Reader.v
JsonText.v
JsonWriter.v
Stod.v
JsonDoc.v
CloneFacts.v
JsonValue.v
JsonSpec.v
JsonEdits.v
JsonBuild.v
JsonCompare.v
JsonDecode.v
JsonTheorems.v
JsonReader.v
RefCount.v
Writer.v
JsonFile.v
Gen.v
GenFacts.v
Fuzzer.v
Checker.v
CheckerFacts.v
