(* ===== verification/Prelude.v ===== *)
(** * Trieste, verified

    Trieste is a C++20 header library for building multi-pass term rewriters.
    This development models and verifies six of its layers: the text layer every
    program runs its input through ([include/trieste/utf8.h], [unicode_data.h] and the
    regular expressions of [regex_engine.h]); the tree ([token.h], [source.h], [ast.h], the
    counted pointers of [intrusive_ptr.h]) with its well-formedness and the generator of random
    trees ([wf.h]); the tokenizer that builds a first tree from text
    ([regex.h], [parse.h], with the tokens of [parsers/json/parse.cc] as its client); and the
    rewriting of trees ([rewrite.h], [pass.h], [defaultmap.h]) and the sequences of passes a
    reader, rewriter or writer runs ([passes.h], [reader.h], [rewriter.h], [writer.h]); the tools
    that test such sequences ([fuzzer.h], [checker.h]); and the JSON documents of
    [parsers/json], a client of all of it: the reader's passes, pointers, patches, equality,
    printing.  [nodeworker.h] and [xoroshiro.h] stand beside them.

    ** The parts and how they interact

    A pattern of text is parsed by [regexp_to_postfix_runes], a shunting-yard parser whose
    state is [struct PostfixBuilder], into postfix tokens and a table of rune classes.
    [postfix_to_nfa] turns the tokens into a Thompson automaton.  The constructor of
    [RegexEngine] then looks for anchors ([detect_conditional_states]), caches the
    epsilon closure of every state under every combination of anchor flags
    ([precompute_epsilon_closures]), fills the ASCII bitmaps of the states
    ([finalize_states]) and summarises the first characters of matches
    ([compute_first_char_info]).  [find_prefix], [match] and [search] simulate the
    automaton over the decoded input, with or without captures, on the scratch state of
    a [MatchContext] that callers reuse from one call, and one engine, to the next.

    A [TRegex] wraps an engine: it matches a view, reads captures into typed arguments and
    rewrites text.  [TRegexSet] joins many patterns into one dispatch on the first byte of the
    input and [TRegexIterator] consumes a source with it.  [Parse::parse_source] lets the
    iterator try the rules of the current mode; the effect of the rule that matches builds
    the tree at the cursor of a [Make] ([add], [seq], [push], [pop], [term]), and [done]
    closes what is open.

    A tree is made of [NodeDef]s, each with a [Token], a [Location] in a [Source], a parent
    pointer, flags and children; some carry a symbol table.  A [Wellformed] specification
    gives each token a shape; [build_st] fills the symbol tables and [check] compares a tree
    with the shapes.  A [PassDef] holds rules, each a [Pattern] and an effect.  A pattern is a
    chain of nodes that match a range of children and capture ranges in the frames of a
    [Match]; its [FastPattern] says under which parents and at which first tokens it can
    match, and [compile_rules] enters the rule in a table of [DefaultMap]s by them.  [run]
    sweeps the tree with [traverse], tries the rules of the table at every child, replaces
    what matched by what the effect builds, lifts [Lift] nodes, and repeats until a sweep
    changes nothing.

    A [Process] runs a sequence of passes: before the first and after each it builds the symbol
    tables, collects the errors and checks the tree against the specification of the pass that
    just ran, and it stops at the first tree that is refused.  A [Reader] parses a source, or
    reads the dump of an intermediate pass with [build_ast], and runs its passes; the JSON
    reader has two, [groups] and [structure].  A [Writer] runs its passes and then writes the files of
    the tree they leave to a destination.

    [Wellformed::gen] makes a tree of a specification: from the root down it chooses types at
    random, by their distance to a leaf below the wanted depth, and binds the names of what it
    makes.  A [Node] is an [intrusive_ptr], which counts the pointers to its node and frees it
    with the last one.

    A [Fuzzer] runs each pass of a sequence on generated trees, or on the trees that the pass before
    left, and checks what comes out against the specification of the pass.  A [Checker] turns the
    patterns of a pass into trees ([reify]), runs two passes of rules over them that find mistakes,
    and compares every pattern with the later ones: [includes_prefix] asks whether it matches
    wherever they do.

    A JSON document is a tree of [Object]s, whose [Member]s stand in the symbol table of the
    object under their keys, [Array]s and leaves whose text is their location.
    [pointer::Operation] walks a document by a JSON pointer, reads objects through their tables
    and inserts, replaces or removes what it finds in place; [patch] runs the operations of a
    JSON patch on a copy, and lets [build_st] fill the tables again after each; [equal] and
    [to_string] walk two documents and one.

    ** The files

    - [Utf8] (utf8.h): [write_rune], [utf8_to_rune] with its escapes,
      [utf8_to_runestring], [sanitize_utf8], [escape_unicode], [unescape_hexunicode],
      the encoding detectors, the UTF-16 and UTF-32 readers and [read_to_end] on the
      file's bytes ([read_contents]).
    - [UnicodeData] (unicode_data.h): the 36 tables, their bitmaps and
      [find_category]; [Categories]: what they promise.
    - [AsciiBitmap], [RuneClass]: [struct RuneClass].
    - [RegexSyntax]: labels, limits, error codes, [decode_rune].
    - [PostfixBuilder]: the parser, one definition per method and handler;
      [ParserFacts]: its invariant and its termination.
    - [RegexSpec]: the specification.  [re] is the tree of a pattern, [re_match] what
      it matches, [re_capture] what it captures.
    - [PatternSyntax], [PatternParse]: how a tree is written as a pattern, that the
      parser reads it back, and what [{n,m}] expands to.
    - [Nfa]: [create_state], [patch], [build_quantifier], [postfix_to_nfa];
      [NfaPaths]: the runs of an automaton are the matches of its tree.
    - [Exploration]: stamps and graph exploration; [Closure], [ClosureCache]: the
      engine's fields, the closures and their cache.
    - [MatchContext]: the input as the specification sees it, and the scratch state; [Simulate]: matching without captures; [Capture]: matching with captures.
    - [Engine]: constructor, [match], [find_prefix], [search], [first_char_info];
      [EngineFacts]: what the constructor promises its callers ([engine_ready]);
      [CaptureSpec], [RegexCorrect]: the facts behind the
      properties.
    - [ConstructionTheorems], [RegexTheorems], [PatternTheorems]: the
      properties of the text layer, each with an instance at a concrete pattern; those of
      [Utf8], [RuneClass] and [Categories] close their files.
    - [Token] (token.h): definitions, flags, the registry, the built-in tokens.
    - [Source] (source.h): lines and columns, locations, the excerpt under an error.
    - [Xoroshiro] (xoroshiro.h): the random number generators.
    - [Ast] (ast.h): the store of nodes and the methods of [NodeDef]; [AstFacts]: the tree
      under a node, and [traverse] as a recursive visit; [AstInvariant]: the tree invariant.
    - [Wellformed] (wf.h): choices, sequences, fields, [check], [build_st]; [WfOps]: the
      operators, the contexts and [node / field]; [WfTheorems]: [check] decides the inductive
      specification; [WfBuild]: what [build_st] binds passes the check.
    - [Gen] (wf.h, gen.h): the generator of random trees; [GenFacts]: its trees pass the check.
    - [RefCount] (intrusive_ptr.h): counts, handles and the deletion of what nothing holds.
    - [NodeWorker] (nodeworker.h): the worklist and its example, which resolves every node.
    - [TRegex] (regex.h): [TRegex] with its typed captures and [GlobalReplace];
      [TRegexFacts]: what they return.  [TokenLayer]: [TRegexMatch], [TRegexIterator] and
      [TRegexSet]; [TokenLayerFacts]: the dispatch finds the first rule that matches.
    - [Cursor]: the path from the cursor of a [Make] up to its root; [Parse] (parse.h):
      [Make], rules, [parse_source] and the ways in; [MakeFacts]: every operation of [Make]
      keeps the tree and the cursor; [ParseFacts]: [parse_source] follows the step relation of
      its rules; [JsonParse] (parsers/json/parse.cc): the JSON tokenizer, which is total;
      [ParseSamples]: where [Make] and [parse_source] go wrong.
    - [DefaultMap] (defaultmap.h), [FastPattern], [Rewrite] (rewrite.h); [RewriteFacts]: the reference a match refines; [RewriteTheorems]: captures,
      the soundness of the index, termination of matching.
    - [Pass] (pass.h): [compile_rules], [match_children], [apply], [lift], [run];
      [PassFacts]: what the index holds; [PassTheorems]: it is exact, and a run ends in a
      normal form.
    - [Dump] (ast.h, regex.h): the text of a tree and [build_ast]; [Passes] (passes.h,
      rewriter.h): the process, and that it accepts what its passes do ([chain]); [Reader]
      (reader.h); [JsonReader] (parsers/json/reader.cc): the two passes as rules of [Rewrite];
      [Writer] (writer.h): destinations and the loop over the files; [JsonFile]
      (parsers/json/writer.cc): the writer of documents, and where destinations go wrong.
    - [Fuzzer] (fuzzer.h): the settings, the search for fresh trees, runs, statistics and [test],
      and the log of trials its answer stands for.
    - [Checker] (checker.h, with [reify] of rewrite.h and [pattern_wf] of wf.h): reified patterns,
      multiplicities, [includes_prefix], the rules and [check]; [CheckerFacts]: matching by
      positions, what [includes_prefix] checks as a relation on patterns ([incl]), the tree that
      [reify] builds ([shows]), and that a pattern reported as unreachable is hidden.
    - [JsonText] (json.cc): [escape], [escape_unicode], [unescape] and their round trips;
      [JsonWriter] (writer.cc, with [wf] of json.h): [write_value], [to_string]; [Stod]:
      what [std::stod] reads; [JsonDoc] (json.cc): equality, pointers, the actions, [select],
      [patch].
    - [JsonValue]: the values documents stand for, and the trees ([jdoc]) that hold them in a
      store; [JsonSpec]: how the text of a pointer is read, RFC 6901 and RFC 6902 on values, and
      places in a document; [CloneFacts], [JsonEdits]: what the actions do to a tree
      and its store; [JsonBuild]: [build_st] makes every table find its members, and operations run;
      [JsonCompare]: printing and comparing; [JsonDecode]: the operations of a patch, one, many,
      and read from a document, and RFC 6902 one operation after the other ([rfc_patch], on the strings that
      the texts denote, [meaning]); [JsonTheorems]: the
      properties, and where patches, pointers and comparisons depart from the RFCs.

    ** How state and operations are modelled

    Bytes, runes, labels and [uint32_t]/[size_t] numbers that can wrap are [Z], with the
    wrap-around written out ([u8] to [u64]); positions and indices are [nat], a missing
    one ([npos], a null pointer) is [None].  A method that changes its object takes and
    returns it; a parser method with a reference to [pos] returns the position too.
    States live in a vector that never reallocates, so a [State] pointer is an index and
    a pointer to a [next] field is a [Slot].  Errors are the code's error codes; elsewhere
    an [outcome] separates a return from an exception and from undefined behaviour or a loop
    that does not end.  The address of an engine, which [bind_engine] compares, is an
    argument.

    The rules of a parser share the user's state and the cursor: an effect takes and returns
    both.  The paths and files [parse_directory] meets are an abstract record of operations.

    Nodes are shared and mutated, so a [Node] is an address and the store is a finite map
    from addresses to [NodeDef]s that the methods take and return; iterators into a child
    list are indices, and a [NodeRange] is a node with two of them, read in the store it is
    used in.  [RefCount] models the counts beside that, on objects whose members are pointers, by
    one thread; elsewhere a node lives as long as it is reached.  The file system and the console
    of a writer are an abstract record.  A [Token] is the definition it points to, which is unique.  Patterns are values:
    the only mutation, [set_continuation], is of a fresh copy.  The user's functions (actions,
    effects, pre and post functions, the [Work] of a worker) are arguments.

    A document is proved about through the tree [jdoc] it holds in the store, every node once,
    and the value of that tree.  The addresses of sources made from strings are one argument
    ([id]): nothing compares them.  [assert] and the log are compiled out; [std::sort] is an
    insertion sort; [isdigit] of a negative [char] is false; a number is the double its text
    is rounded to.

    ** What the theorems show

    - Matching of text: [find_prefix] returns the longest match of the tree
      ([find_prefix_longest]); the capturing call reports captures of such a match
      ([find_prefix_captures_correct], [captures_well_formed], [capturing_agrees]);
      [match] and, while the arena of the captures suffices ([frames_suffice]), [search] follow
      ([full_match_correct], [search_leftmost]); a reused
      context leaks nothing ([context_reuse]).
    - Patterns of text: every tree can be written so that the parser reads that tree back
      ([parse_print_roundtrip]); the engine of the text matches the tree
      ([written_pattern_longest]); [{n,m}] means what it says ([repetition_correct]).
    - Construction: the automaton and the closure cache refine the tree
      ([thompson_correct], [epsilon_closure_cached_correct]); the parser keeps its limits,
      stops and reports its failures ([parse_result_well_formed], [parser_terminates],
      [parse_failure_reported]); [new_engine_cases] lists the outcomes.
    - JSON documents: [select] follows RFC 6901 ([select_correct], [pointer_round_trip]) and
      [patch] RFC 6902 ([patch_correct]) on texts without escapes ([plain]) where [safe_path] and
      [rfc_safe] hold, which exclude the cases at the end of [JsonTheorems]; [equal] decides equality of values ([equal_correct]);
      [to_string] writes the text of the value ([to_string_correct]); texts are escaped and
      read back ([escape_round_trip], [escape_unicode_round_trip]).
    - Classes and text: [finalize_correct], [complement_correct], [find_category_class],
      [categories_partition], the UTF-8 round trips and the UTF-16 reader.
    - The tokenizer: the first-byte dispatch finds the first rule that matches
      what is left of the source, overlong encodings apart
      ([consume_first_match_correct]); [parse_source] takes the steps its rules specify and
      leaves a tree ([parse_source_correct]); the JSON tokenizer returns a tree on every
      source ([json_parse_total]); numbers of captures are read exactly or refused
      ([parse_integral_exact], [full_match_args_correct]); [GlobalReplace] replaces every match,
      while the arena suffices and the indices of the rewrite are read whole
      ([global_replace_correct]).
    - Trees: the node operations, of nodes that can be attached, keep the tree a tree and the error
      flags complete ([ast_invariant]); [linecol_correct]; [wf_check_correct], [build_st_then_check],
      [wf_operators_agree]; a generated tree passes the check, and where the specification bounds
      its trees one is generated, without bound names and weights ([gen_correct]); counts stay exact, what a variable reaches is
      alive and nothing freed is touched ([refcount_correct]).
    - Rewriting: the frames of [Match] implement captures that backtrack
      ([captures_backtrack]); the index loses no match ([fast_pattern_sound]) and trying the
      indexed rules is trying all ([rule_index_equivalent]); matching returns
      ([pattern_match_returns]); a run that ends has reached a normal form
      ([run_normal_form]); a process runs its passes as long as each leaves a valid tree
      ([process_correct]); a writer writes the files of the tree they leave, of those without
      directories and errors ([write_correct]; [write_files] has what the code does with them).
    - Testing: the answer of the fuzzer is that of a log of trials on conforming trees, one for
      each seed up to its hash ([test_correct]); the multiplicity of a pattern is what its matches
      consume, and a rule that the checker calls unreachable matches only where the earlier one
      does ([unreachable_sound]).
    - Beside them: [worker_resolves_all], [xoroshiro_never_aborts].
    - Where the code parts from its intent or its documents: [repetition_count_wraps],
      [zero_repetition_drops_operand], [strict_standalone_brace], [first_char_overlong],
      [utf16le_bom_only_throws], [read_utf32_undefined], [lift_under_error_forgotten],
      [replace_with_nothing_keeps_parent], [built_but_not_checked],
      [repeated_prerequisite_blocks], [option_keeps_parents], [action_hides_captures],
      [optional_iteration_diverges], [empty_capture_undefined], [rewrite_index_leaves_digits],
      [empty_view_wrong_rule], [invalid_keeps_old_location], [pop_at_root_nulls],
      [previous_of_empty_group], [nested_groups_undefined], [empty_rule_never_ends],
      [brace_in_symbol], [parse_dump_refused], [reset_last_member],
      [refused_tree_returned], and the lemmas of
      [JsonFile.Files], [GenFacts.Sample], [Fuzzer.Sample], [CheckerFacts.Sample] and of the ends of [JsonTheorems]
      and [JsonText].

    ** Bounds and fuel

    Every loop that is not structural takes fuel.  The parser's loops consume a rune a
    turn and have the length of the pattern ([parser_terminates]).  The explorations
    visit a state once and push at most two pointers for it, hence [2 * states + 2]
    ([compute_epsilon_closure_spec], [capturing_loop_ok]).  The simulations and [search]
    consume a rune a turn and have the length of the input ([noncapturing_spec],
    [capturing_spec], [search_loop_ok]).  The properties of these functions say what
    they return, so none of them holds because fuel ran out.  A pattern of at most 176
    tokens always fits the closure cache ([passes_small]); [frames_suffice] bounds the
    inputs for which the capture-frame arena is enough.

    The loop of [GlobalReplace] moves on by a rune or a match each turn and has the length of
    the text ([global_replace_correct]); that of [parse_source] has the length of the source
    when no rule matches the empty string, which [parse_source_correct] asks for.

    The walks of [equal], [clone] and [to_string] go down a tree and have the size of the store,
    the loops over pointers and texts their length; the properties say what they return.

    The loop of [write] takes a turn a node; the deletion of objects frees one a turn and has their
    number.  A generated tree is bounded by the rank of its root and the longest sequence
    ([gen_total]); a specification that allows trees of any depth need not be.  The recursion of the
    distances adds a type to its prefix and has the number of shapes ([min_dist_total]).

    The search for a fresh tree takes at most as many turns as retries are left, and the loops of
    the fuzzer go over lists of seeds and passes ([retry_loop_returns]).  The walks over reified
    patterns need twice the size of the patterns, and [includes_prefix] twice that of both
    ([multiplicity_returns], [only_tokens_returns], [loop_answers]); on patterns with predicates it
    may be undefined ([any_end_undefined]).

    A traversal takes two turns a node ([traverse_visit], [cost_nodes]); the walks up the
    parents have the size of the store, which a tree never exhausts; the worker takes at most
    two turns a node ([worker_resolves_all]); an iteration of a pattern that consumes has the
    number of the children ([pattern_match_returns]).  A pass need not end, and then [run]
    does not return for any fuel: [run_normal_form] is about the runs that do.

    ** What is not modelled

    The match statistics (compiled out by default) and the reading of files are left out, and so
    are captures read as floating-point numbers and [json::value] of a [double].  Of the fuzzer,
    [debug_entropy] and what is logged of the statistics are left out, and [Parse::generators] is a
    parameter.  A generator of locations ([GenNodeLocationF]) reads the store and does not change it:
    one that names with [ast::fresh], which counts in the table of the [Top], is not covered.  What the checker logs is a list of complaints; that its two passes leave a correct
    pattern alone is not proved, so [unreachable_sound] is about patterns as they are reified.  The
    YAML reader and writer, as large as the rest of the parsers together, are clients that add rules
    and no mechanism: they are not modelled.  The driver, the logging, the command-line tools and
    the samples are glue. *)
From Stdlib Require Export ZArith Lia Ascii.

From stdpp Require Export base list list_numbers numbers option strings sorting relations.
Export list_basics.list list_relations.list list_monad.list list_misc.list list_numbers.list list_tactics.list.
Open Scope Z_scope.

(** Unsigned machine integers are [Z] values; the conversions below are the
    wrap-around of the C++ unsigned types. *)
Definition u8 (z : Z) : Z := z mod 2 ^ 8.
Definition u16 (z : Z) : Z := z mod 2 ^ 16.
Definition u32 (z : Z) : Z := z mod 2 ^ 32.
Definition u64 (z : Z) : Z := z mod 2 ^ 64.

Lemma u8_id z : 0 <= z < 256 -> u8 z = z.
Proof. intros. unfold u8. apply Z.mod_small. lia. Qed.
Lemma u16_id z : 0 <= z < 65536 -> u16 z = z.
Proof. intros. unfold u16. apply Z.mod_small. lia. Qed.
Lemma u32_id z : 0 <= z < 4294967296 -> u32 z = z.
Proof. intros. unfold u32. apply Z.mod_small. lia. Qed.
Lemma u64_id z : 0 <= z < 18446744073709551616 -> u64 z = z.
Proof. intros. unfold u64. apply Z.mod_small. lia. Qed.


(** * Outcomes *)

(** A call returns, throws a C++ exception, or reaches undefined behaviour. *)
Inductive outcome (A : Type) :=
  | Returns (a : A)
  | Throws
  | Undefined.
Arguments Returns {A} a.
Arguments Throws {A}.
Arguments Undefined {A}.

#[export] Instance outcome_ret : MRet outcome := fun A a => Returns a.
#[export] Instance outcome_bind : MBind outcome := fun A B f m =>
  match m with Returns a => f a | Throws => Throws | Undefined => Undefined end.
#[export] Instance outcome_fmap : FMap outcome := fun A B f m =>
  match m with Returns a => Returns (f a) | Throws => Throws | Undefined => Undefined end.

Lemma outcome_bind_returns {A B} (m : outcome A) (f : A -> outcome B) b :
  (m ≫= f) = Returns b <-> exists a, m = Returns a /\ f a = Returns b.
Proof. split; [destruct m; simpl; [eauto|done..] | by intros (a & -> & ?)]. Qed.

(** * Bytes *)

Definition is_byte (b : Z) : Prop := 0 <= b < 256.

(** A boolean fact about bytes is checked on the 256 of them. *)
Lemma byte_forall (P : Z -> bool) :
  forallb P (seqZ 0 256) = true -> forall b, is_byte b -> P b = true.
Proof.
  rewrite forallb_forall. intros H b Hb. apply H.
  apply list_elem_of_In, elem_of_seqZ. unfold is_byte in Hb. lia.
Qed.

(** * Bit operations as arithmetic *)

Lemma land_mult_small m x n :
  0 <= n -> m mod 2 ^ n = 0 -> 0 <= x < 2 ^ n -> Z.land m x = 0.
Proof.
  intros Hn Hm Hx. apply Z.bits_inj'. intros i Hi.
  rewrite Z.land_spec, Z.bits_0. destruct (Z.ltb_spec i n).
  - rewrite <-(Z.mod_pow2_bits_low m n i) by lia. by rewrite Hm, Z.bits_0.
  - rewrite <-(Z.mod_small x (2 ^ n)) by lia.
    rewrite Z.mod_pow2_bits_high by lia. apply andb_false_r.
Qed.

(** An [or] of a multiple of [2 ^ n] with an [n]-bit number is a sum. *)
Lemma lor_add m x n :
  0 <= n -> m mod 2 ^ n = 0 -> 0 <= x < 2 ^ n -> Z.lor m x = m + x.
Proof.
  intros. pose proof (Z.add_lor_land m x) as H2.
  rewrite (land_mult_small m x n) in H2 by done. lia.
Qed.

Lemma land_mod x n : 0 <= n -> Z.land x (2 ^ n - 1) = x mod 2 ^ n.
Proof. intros. rewrite <-Z.land_ones by done. f_equal. rewrite Z.ones_equiv. lia. Qed.

Lemma shiftl_lor_add a x n :
  0 <= n -> 0 <= x < 2 ^ n -> Z.lor (Z.shiftl a n) x = a * 2 ^ n + x.
Proof.
  intros. rewrite Z.shiftl_mul_pow2 by done.
  apply lor_add with n; [done | | done]. apply Z.mod_mul. lia.
Qed.

(** Arithmetic with [mod] and [div] by literals. *)
Ltac arith := Z.to_euclidean_division_equations; lia.

(** * Byte strings *)

(** A C++ string literal as its bytes. *)
Fixpoint bytes (s : String.string) : list Z :=
  match s with
  | String.EmptyString => []
  | String.String c s => Z.of_N (Ascii.N_of_ascii c) :: bytes s
  end.

(** [std::string_view::operator==] *)
Fixpoint list_eqb (l1 l2 : list Z) : bool :=
  match l1, l2 with
  | [], [] => true
  | x :: l1, y :: l2 => (x =? y) && list_eqb l1 l2
  | _, _ => false
  end.

Lemma list_eqb_eq l1 l2 : list_eqb l1 l2 = true <-> l1 = l2.
Proof.
  revert l2. induction l1 as [|x l1 IH]; intros [|y l2]; cbn; [done..|].
  rewrite andb_true_iff, IH, Z.eqb_eq. split; [by intros [-> ->]|by intros [= -> ->]].
Qed.

(** * Sorted lists by index *)

Lemma strongly_sorted_lookup {A} (R : A -> A -> Prop) l i j x y :
  StronglySorted R l -> (i < j)%nat -> l !! i = Some x -> l !! j = Some y -> R x y.
Proof.
  intros H. revert i j. induction H as [|a l _ IH Ha]; intros i j Hij Hi Hj; [done|].
  destruct j as [|j]; [lia|]. cbn in Hj. destruct i as [|i]; cbn in Hi.
  - injection Hi as ->. rewrite Forall_forall in Ha. apply Ha. eauto using list_elem_of_lookup_2.
  - eapply IH; [|done..]. lia.
Qed.

Lemma strongly_sorted_impl {A} (R S : A -> A -> Prop) l :
  (forall a b, R a b -> S a b) -> StronglySorted R l -> StronglySorted S l.
Proof. intros HRS. induction 1; constructor; [done|]. eapply Forall_impl; eauto. Qed.

(** A character literal as its code. *)
Definition ord (c : Ascii.ascii) : Z := Z.of_N (Ascii.N_of_ascii c).
Arguments ord c%_char_scope.

(** Replaces the character literals of the goal and the context by numbers. *)
Ltac ords :=
  repeat match goal with
  | |- context [ord ?c] => let v := eval vm_compute in (ord c) in change (ord c) with v in *
  | H : context [ord ?c] |- _ =>
      let v := eval vm_compute in (ord c) in change (ord c) with v in *
  end.

(** Membership in a list of code units, for [switch] groups. *)
Definition one_of (l : list Z) (x : Z) : bool := existsb (Z.eqb x) l.

(** * Boolean quantifiers over lists *)

Lemma forallb_Forall {A} (f : A -> bool) (P : A -> Prop) l :
  (forall x, f x = true <-> P x) -> forallb f l = true <-> Forall P l.
Proof.
  intros Hf. rewrite forallb_forall, Forall_forall.
  split; intros H x Hx; [apply Hf, H, list_elem_of_In, Hx|apply Hf, H, list_elem_of_In, Hx].
Qed.

Lemma existsb_Exists {A} (f : A -> bool) (P : A -> Prop) l :
  (forall x, f x = true <-> P x) -> existsb f l = true <-> Exists P l.
Proof.
  intros Hf. rewrite existsb_exists, Exists_exists.
  split; intros (x & Hx & Ex); exists x; (split; [by apply list_elem_of_In|by apply Hf]).
Qed.

Lemma existsb_elem {A} (f : A -> bool) (P : A -> Prop) l :
  (forall x, f x = true <-> P x) -> existsb f l = true <-> exists x, x ∈ l /\ P x.
Proof. intros Hf. rewrite (existsb_Exists f P) by done. apply Exists_exists. Qed.

Lemma elem_of_concat_map {A B} (f : A -> list B) l x :
  x ∈ concat (f <$> l) <-> exists y, y ∈ l /\ x ∈ f y.
Proof.
  induction l as [|a l IH]; cbn; [split; [by intros ?%elem_of_nil|by intros (y & ?%elem_of_nil & _)]|].
  rewrite elem_of_app, IH. split.
  - intros [H|(y & Hy & H)]; [exists a; split; [left|]; done|exists y; split; [by right|done]].
  - intros (y & [->|Hy]%elem_of_cons & H); [by left|right; by exists y].
Qed.
