(* ===== verification/Utf8.v ===== *)
(** UTF-8 and UTF-16/32 input handling: [include/trieste/utf8.h].

    Strings are lists of bytes, a byte being a [Z] in [0, 256); runes are
    [uint32_t] values.  [outcome] separates a normal return from a thrown
    exception ([std::stoul]) and from undefined behaviour (an index past the
    end of a string). *)

From S2P Require Import Prelude.

(** * Constants *)

Inductive DetectResult := DRNone | BigEndian | LittleEndian.

Definition MaskX : Z := 0xC0.
Definition Mask1 : Z := 0x80.
Definition Mask2 : Z := 0xE0.
Definition Mask3 : Z := 0xF0.
Definition Mask4 : Z := 0xF8.

Definition MarkX : Z := 0x80.
Definition Mark1 : Z := 0x00.
Definition Mark2 : Z := 0xC0.
Definition Mark3 : Z := 0xE0.
Definition Mark4 : Z := 0xF0.

Definition ValueX : Z := 0x3F.
Definition Value1 : Z := 0x7F.
Definition Value2 : Z := 0x1F.
Definition Value3 : Z := 0x0F.
Definition Value4 : Z := 0x07.

Definition Max1 : Z := 0x7F.
Definition Max2 : Z := 0x7FF.
Definition Max3 : Z := 0xFFFF.
Definition Max4 : Z := 0x10FFFF.

Definition ShiftX : Z := 6.

Definition Bad : Z := 0xFFFD.

(** * Writing a rune *)

(** One continuation byte: the low six bits under the [10xxxxxx] mark. *)
Definition cont_byte (value : Z) : Z := u8 (Z.lor (Z.land value ValueX) MarkX).

Definition write_rune3 (value : Z) : list Z :=
  let c2 := cont_byte value in
  let value := Z.shiftr value ShiftX in
  let c1 := cont_byte value in
  let value := Z.shiftr value ShiftX in
  let c0 := u8 (Z.lor Mark3 value) in
  [c0; c1; c2].

(** The bytes [write_rune] puts on the stream; a value above [Max4] takes the
    recursive call on [Bad], which is the three-byte branch. *)
Definition write_rune (value : Z) : list Z :=
  if value <=? Max1 then [u8 (Z.lor Mark1 value)]
  else if value <=? Max2 then
    let c1 := cont_byte value in
    let value := Z.shiftr value ShiftX in
    let c0 := u8 (Z.lor Mark2 value) in
    [c0; c1]
  else if value <=? Max3 then write_rune3 value
  else if value <=? Max4 then
    let c3 := cont_byte value in
    let value := Z.shiftr value ShiftX in
    let c2 := cont_byte value in
    let value := Z.shiftr value ShiftX in
    let c1 := cont_byte value in
    let value := Z.shiftr value ShiftX in
    let c0 := u8 (Z.lor Mark4 value) in
    [c0; c1; c2; c3]
  else write_rune3 Bad.

Definition rune_size (value : Z) : nat :=
  if value <=? Max1 then 1
  else if value <=? Max2 then 2
  else if value <=? Max3 then 3
  else if value <=? Max4 then 4
  else 3.

Definition to_utf8 (value : Z) : list Z := write_rune value.

(** [operator<<] on a rune string. *)
Definition write_runes (runes : list Z) : list Z := flat_map write_rune runes.

(** * Reading a rune *)

Definition is_cont (c : Z) : bool := Z.land c MaskX =? MarkX.

(** The branch of [utf8_to_rune] that decodes raw bytes: the value and the
    number of bytes consumed.  The intermediate values have at most 21 bits, so
    no shift leaves the 32-bit range ([utf8_decode_bounds]). *)
Definition utf8_decode (c0 : Z) (rest : list Z) : Z * nat :=
  if Z.land c0 Mask1 =? Mark1 then (Z.land c0 Value1, 1%nat)
  else if (Z.land c0 Mask2 =? Mark2) && (1 <=? length rest)%nat then
    match rest with
    | c1 :: _ =>
        if is_cont c1 then
          let value := Z.land c0 Value2 in
          let value := Z.lor (Z.shiftl value ShiftX) (Z.land c1 ValueX) in
          (value, 2%nat)
        else (Bad, 1%nat)
    | _ => (Bad, 1%nat)
    end
  else if (Z.land c0 Mask3 =? Mark3) && (2 <=? length rest)%nat then
    match rest with
    | c1 :: c2 :: _ =>
        if is_cont c1 && is_cont c2 then
          let value := Z.land c0 Value3 in
          let value := Z.lor (Z.shiftl value ShiftX) (Z.land c1 ValueX) in
          let value := Z.lor (Z.shiftl value ShiftX) (Z.land c2 ValueX) in
          (value, 3%nat)
        else (Bad, 1%nat)
    | _ => (Bad, 1%nat)
    end
  else if (Z.land c0 Mask4 =? Mark4) && (3 <=? length rest)%nat then
    match rest with
    | c1 :: c2 :: c3 :: _ =>
        if is_cont c1 && is_cont c2 && is_cont c3 then
          let value := Z.land c0 Value4 in
          let value := Z.lor (Z.shiftl value ShiftX) (Z.land c1 ValueX) in
          let value := Z.lor (Z.shiftl value ShiftX) (Z.land c2 ValueX) in
          let value := Z.lor (Z.shiftl value ShiftX) (Z.land c3 ValueX) in
          (value, 4%nat)
        else (Bad, 1%nat)
    | _ => (Bad, 1%nat)
    end
  else (Bad, 1%nat).

(** [std::stoul(s, nullptr, 16)]: leading white space, an optional sign, an
    optional [0x], then the longest run of hexadecimal digits, of which there
    must be one. A [unsigned long] has 64 bits; a minus sign negates in it. *)
Definition hex_digit (c : Z) : option Z :=
  if (48 <=? c) && (c <=? 57) then Some (c - 48)
  else if (97 <=? c) && (c <=? 102) then Some (c - 97 + 10)
  else if (65 <=? c) && (c <=? 70) then Some (c - 65 + 10)
  else None.

Fixpoint hex_run (acc : Z) (s : list Z) : Z :=
  match s with
  | c :: s' =>
      match hex_digit c with Some d => hex_run (acc * 16 + d) s' | None => acc end
  | [] => acc
  end.

Definition is_hex (c : Z) : bool :=
  match hex_digit c with Some _ => true | None => false end.

Definition hex_number (s : list Z) : option Z :=
  match s with c :: _ => if is_hex c then Some (hex_run 0 s) else None | [] => None end.

Definition strip_0x (s : list Z) : list Z :=
  match s with
  | z :: x :: c :: s' =>
      if (z =? 48) && ((x =? 120) || (x =? 88)) && is_hex c then c :: s' else s
  | _ => s
  end.

Definition is_space (c : Z) : bool := (c =? 32) || ((9 <=? c) && (c <=? 13)).

Fixpoint skip_space (s : list Z) : list Z :=
  match s with c :: s' => if is_space c then skip_space s' else s | [] => [] end.

Definition stoul16 (s : list Z) : outcome Z :=
  let '(neg, s) := match skip_space s with
                   | c :: s' => if c =? 45 then (true, s')
                                else if c =? 43 then (false, s') else (false, c :: s')
                   | [] => (false, [])
                   end in
  match hex_number (strip_0x s) with
  | None => Throws
  | Some n =>
      if 2 ^ 64 <=? n then Throws else Returns (if (neg : bool) then u64 (- n) else n)
  end.

(** The value and the consumed prefix. [utf8[0]] on an empty view is undefined
    behaviour; the rune constructor narrows the [unsigned long] to 32 bits. *)
Definition utf8_to_rune (utf8 : list Z) (unescape_unicode : bool) :
    outcome (Z * list Z) :=
  match utf8 with
  | [] => Undefined
  | c0 :: rest =>
      if (c0 =? 92) && unescape_unicode then
        let at1 c := match rest with c1 :: _ => c1 =? c | [] => false end in
        let escape hexlen total :=
          n ← stoul16 (take hexlen (drop 2 utf8)); Returns (u32 n, take total utf8) in
        if (3 <=? length utf8)%nat && at1 120 then escape 2%nat 4%nat
        else if (5 <=? length utf8)%nat && at1 117 then escape 4%nat 6%nat
        else if (9 <=? length utf8)%nat && at1 85 then escape 8%nat 10%nat
        else Returns (c0, take 1 utf8)
      else
        let '(value, n) := utf8_decode c0 rest in Returns (value, take n utf8)
  end.

(** * Whole strings *)

(** The [while (pos < input.size())] loop of [utf8_to_runestring]; every
    iteration consumes a byte, so the length of the input is enough fuel
    ([runestring_fuel]). *)
Fixpoint utf8_to_runestring_loop (fuel : nat) (input : list Z) (unescape : bool) :
    outcome (list Z) :=
  match input, fuel with
  | [], _ => Returns []
  | _, O => Undefined
  | _, S fuel =>
      '(r, s) ← utf8_to_rune input unescape;
      rs ← utf8_to_runestring_loop fuel (drop (length s) input) unescape;
      Returns (r :: rs)
  end.

Definition utf8_to_runestring (input : list Z) (unescape : bool) : outcome (list Z) :=
  utf8_to_runestring_loop (length input) input unescape.

Definition detect_utf8 (contents : list Z) : outcome bool :=
  runes ← utf8_to_runestring contents false;
  Returns (negb (existsb (fun r => r =? Bad) runes)).

Definition sanitize_utf8 (input : list Z) : outcome (list Z) :=
  runes ← utf8_to_runestring input false; Returns (write_runes runes).

Fixpoint unescape_loop (fuel : nat) (input : list Z) : outcome (list Z) :=
  match input, fuel with
  | [], _ => Returns []
  | _, O => Undefined
  | c :: input', S fuel =>
      if c =? 92 then
        '(r, s) ← utf8_to_rune input true;
        os ← unescape_loop fuel (drop (length s) input);
        Returns (write_rune r ++ os)
      else
        os ← unescape_loop fuel input'; Returns (c :: os)
  end.

Definition unescape_hexunicode (input : list Z) : outcome (list Z) :=
  unescape_loop (length input) input.

(** [std::uppercase << std::setfill('0') << std::setw(width) << std::hex]: at
    least [width] digits (eight cover 32 bits). *)
Definition hex_char (d : Z) : Z := if d <? 10 then 48 + d else 65 + (d - 10).

Fixpoint hex_digits (width : nat) (value : Z) : list Z :=
  match width with
  | O => []
  | S w => hex_digits w (value / 16) ++ [hex_char (value mod 16)]
  end.

Fixpoint strip_zeros (width : nat) (s : list Z) : list Z :=
  match s with
  | z :: s' => if (z =? 48) && (width <? length s)%nat then strip_zeros width s' else s
  | [] => []
  end.

Definition put_hex (width : nat) (value : Z) : list Z :=
  strip_zeros width (hex_digits 8 value).

Definition escape_rune (r : Z) : list Z :=
  if 0x7FFF <? r then 92 :: 85 :: put_hex 8 r
  else if 0x7F <? r then 92 :: 117 :: put_hex 4 r
  else [u8 r].

Fixpoint escape_loop (fuel : nat) (input : list Z) : outcome (list Z) :=
  match input, fuel with
  | [], _ => Returns []
  | _, O => Undefined
  | _, S fuel =>
      '(r, s) ← utf8_to_rune input false;
      os ← escape_loop fuel (drop (length s) input);
      Returns (escape_rune r ++ os)
  end.

Definition escape_unicode (input : list Z) : outcome (list Z) :=
  escape_loop (length input) input.

(** * Encoding detection *)

Definition big_endian16 : list Z :=
  [0x002C; 0x0022; 0x0028; 0x0029; 0x005B; 0x005D; 0x007B; 0x007D; 0x003A; 0x003B;
   0x0020; 0x000A].
Definition little_endian16 : list Z :=
  [0x2C00; 0x2200; 0x2800; 0x2900; 0x5B00; 0x5D00; 0x7B00; 0x7D00; 0x3A00; 0x3B00;
   0x2000; 0x0A00].
Definition big_endian32 : list Z :=
  [0x0000002C; 0x00000022; 0x00000028; 0x00000029; 0x0000005B; 0x0000005D; 0x0000007B;
   0x0000007D; 0x0000003A; 0x0000003B; 0x00000020; 0x0000000A].
Definition little_endian32 : list Z :=
  [0x2C000000; 0x22000000; 0x28000000; 0x29000000; 0x5B000000; 0x5D000000; 0x7B000000;
   0x7D000000; 0x3A000000; 0x3B000000; 0x20000000; 0x0A000000].

Definition in_set (l : list Z) (v : Z) : bool := existsb (fun x => v =? x) l.

Definition word16 (b0 b1 : Z) : Z := u16 (Z.lor (Z.shiftl b0 8) b1).
Definition word32 (b0 b1 b2 b3 : Z) : Z :=
  u32 (Z.lor (Z.lor (Z.lor (Z.shiftl b0 24) (Z.shiftl b1 16)) (Z.shiftl b2 8)) b3).

Definition bump (b : bool) (n : nat) : nat := if b then S n else n.

(** The counting loops, over an even number of bytes (resp. a multiple of 4). *)
Fixpoint count16 (contents : list Z) (le be : nat) : nat * nat :=
  match contents with
  | b0 :: b1 :: rest =>
      let value := word16 b0 b1 in
      count16 rest (bump (in_set little_endian16 value) le)
                   (bump (in_set big_endian16 value) be)
  | _ => (le, be)
  end.

Fixpoint count32 (contents : list Z) (le be : nat) : nat * nat :=
  match contents with
  | b0 :: b1 :: b2 :: b3 :: rest =>
      let value := word32 b0 b1 b2 b3 in
      count32 rest (bump (in_set little_endian32 value) le)
                   (bump (in_set big_endian32 value) be)
  | _ => (le, be)
  end.

Definition verdict (counts : nat * nat) : DetectResult :=
  let '(le_counts, be_counts) := counts in
  if (be_counts <? le_counts)%nat then LittleEndian
  else if (le_counts <? be_counts)%nat then BigEndian
  else DRNone.

Definition detect_utf16 (contents : list Z) : DetectResult :=
  if negb (length contents mod 2 =? 0)%nat then DRNone
  else verdict (count16 contents 0 0).

Definition detect_utf32 (contents : list Z) : DetectResult :=
  if negb (length contents mod 4 =? 0)%nat then DRNone
  else verdict (count32 contents 0 0).

(** * UTF-16 and UTF-32 readers

    Each loop reads two (four) bytes a turn with [contents[i + k]].  On a
    [std::string] the index [size()] yields the terminator, 0; a larger one is
    undefined behaviour. *)

Fixpoint read_utf16_be (contents : list Z) : list Z :=
  match contents with
  | b0 :: b1 :: rest => write_rune (Z.lor (Z.shiftl b0 8) b1) ++ read_utf16_be rest
  | [b0] => write_rune (Z.lor (Z.shiftl b0 8) 0)
  | [] => []
  end.

Fixpoint read_utf16_le (contents : list Z) : list Z :=
  match contents with
  | b1 :: b0 :: rest => write_rune (Z.lor (Z.shiftl b0 8) b1) ++ read_utf16_le rest
  | [b1] => write_rune (Z.lor (Z.shiftl 0 8) b1)
  | [] => []
  end.

Fixpoint read_utf32_be (contents : list Z) : outcome (list Z) :=
  match contents with
  | b0 :: b1 :: b2 :: b3 :: rest =>
      os ← read_utf32_be rest; Returns (write_rune (word32 b0 b1 b2 b3) ++ os)
  | [b0; b1; b2] => Returns (write_rune (word32 b0 b1 b2 0))
  | [] => Returns []
  | _ => Undefined
  end.

Fixpoint read_utf32_le (contents : list Z) : outcome (list Z) :=
  match contents with
  | b3 :: b2 :: b1 :: b0 :: rest =>
      os ← read_utf32_le rest; Returns (write_rune (word32 b0 b1 b2 b3) ++ os)
  | [b3; b2; b1] => Returns (write_rune (word32 0 b1 b2 b3))
  | [] => Returns []
  | _ => Undefined
  end.

(** [read_to_end] from the file's bytes on: byte-order marks, then detection. *)
Definition read_contents (contents : list Z) (autodetect : bool) : outcome (list Z) :=
  let bom i := nth i contents 0 in
  let has_bom := (2 <=? length contents)%nat in
  if has_bom && ((bom 0%nat =? 0xEF) && (bom 1%nat =? 0xBB) && (bom 2%nat =? 0xBF))
  then Returns (drop 3 contents)
  else if has_bom && ((bom 0%nat =? 0xFF) && (bom 1%nat =? 0xFE)) then
    if (bom 2%nat =? 0) && (bom 3%nat =? 0) then
      (* [substr(4)] throws when the string is shorter *)
      if (length contents <? 4)%nat then Throws else read_utf32_le (drop 4 contents)
    else Returns (read_utf16_le (drop 2 contents))
  else if has_bom && ((bom 0%nat =? 0) && (bom 1%nat =? 0) && (bom 2%nat =? 0xFE)
                      && (bom 3%nat =? 0xFF))
  then read_utf32_be (drop 4 contents)
  else if has_bom && ((bom 0%nat =? 0xFE) && (bom 1%nat =? 0xFF))
  then Returns (read_utf16_be (drop 2 contents))
  else if negb autodetect then Returns contents
  else
    is_utf8 ← detect_utf8 contents;
    if (is_utf8 : bool) then sanitize_utf8 contents
    else match detect_utf16 contents with
    | BigEndian => Returns (read_utf16_be contents)
    | LittleEndian => Returns (read_utf16_le contents)
    | DRNone =>
        match detect_utf32 contents with
        | BigEndian => read_utf32_be contents
        | LittleEndian => read_utf32_le contents
        | DRNone => sanitize_utf8 contents
        end
    end.

(** * The bit masks as intervals *)

Ltac by_bytes c Hc :=
  refine (_ : _ = true); revert c Hc; apply byte_forall; vm_compute; reflexivity.

Lemma is_cont_spec c : is_byte c -> is_cont c = (128 <=? c) && (c <? 192).
Proof. intros Hc. apply eqb_prop. by_bytes c Hc. Qed.
Lemma mask1_spec c : is_byte c -> (Z.land c Mask1 =? Mark1) = (c <? 128).
Proof. intros Hc. apply eqb_prop. by_bytes c Hc. Qed.
Lemma mask2_spec c : is_byte c -> (Z.land c Mask2 =? Mark2) = (192 <=? c) && (c <? 224).
Proof. intros Hc. apply eqb_prop. by_bytes c Hc. Qed.
Lemma mask3_spec c : is_byte c -> (Z.land c Mask3 =? Mark3) = (224 <=? c) && (c <? 240).
Proof. intros Hc. apply eqb_prop. by_bytes c Hc. Qed.
Lemma mask4_spec c : is_byte c -> (Z.land c Mask4 =? Mark4) = (240 <=? c) && (c <? 248).
Proof. intros Hc. apply eqb_prop. by_bytes c Hc. Qed.

Lemma valueX_mod c : Z.land c ValueX = c mod 64.
Proof. apply (land_mod c 6). lia. Qed.
Lemma value1_mod c : Z.land c Value1 = c mod 128.
Proof. apply (land_mod c 7). lia. Qed.
Lemma value2_mod c : Z.land c Value2 = c mod 32.
Proof. apply (land_mod c 5). lia. Qed.
Lemma value3_mod c : Z.land c Value3 = c mod 16.
Proof. apply (land_mod c 4). lia. Qed.
Lemma value4_mod c : Z.land c Value4 = c mod 8.
Proof. apply (land_mod c 3). lia. Qed.

Lemma push_bits v c : 0 <= v ->
  Z.lor (Z.shiftl v ShiftX) (c mod 64) = v * 64 + c mod 64.
Proof. intros. apply (shiftl_lor_add v (c mod 64) 6); arith. Qed.

Ltac bits_nonneg :=
  repeat first [apply Z.lor_nonneg; split | apply Z.shiftl_nonneg]; arith.

Lemma cont_byte_spec v : cont_byte v = 128 + v mod 64.
Proof.
  unfold cont_byte. rewrite valueX_mod, Z.lor_comm.
  rewrite (lor_add MarkX (v mod 64) 6) by (done || arith). apply u8_id. unfold MarkX. arith.
Qed.

Lemma shift_div v : Z.shiftr v ShiftX = v / 64.
Proof. by rewrite Z.shiftr_div_pow2. Qed.

Lemma lead_byte m v n :
  0 <= n -> m mod 2 ^ n = 0 -> 0 <= v < 2 ^ n -> 0 <= m + v < 256 -> u8 (Z.lor m v) = m + v.
Proof. intros. rewrite (lor_add m v n) by done. by apply u8_id. Qed.

Create Rewrite HintDb utf8.
#[export] Hint Rewrite valueX_mod value1_mod value2_mod value3_mod value4_mod
  cont_byte_spec shift_div : utf8.

(** * The two directions as arithmetic *)

Lemma write_rune_1 v : 0 <= v <= Max1 -> write_rune v = [v].
Proof.
  unfold Max1. intros. unfold write_rune, Max1. rewrite (proj2 (Z.leb_le _ _)) by lia.
  by rewrite (lead_byte Mark1 v 7) by (done || unfold Mark1; lia).
Qed.

Lemma write_rune_2 v : Max1 < v <= Max2 ->
  write_rune v = [192 + v / 64; 128 + v mod 64].
Proof.
  unfold Max1, Max2. intros. unfold write_rune, Max1, Max2.
  rewrite (proj2 (Z.leb_gt _ _)), (proj2 (Z.leb_le _ _)) by lia.
  autorewrite with utf8. by rewrite (lead_byte Mark2 _ 5) by (done || unfold Mark2; arith).
Qed.

Lemma write_rune3_spec v : 0 <= v <= Max3 ->
  write_rune3 v = [224 + v / 64 / 64; 128 + v / 64 mod 64; 128 + v mod 64].
Proof.
  unfold Max3. intros. unfold write_rune3. autorewrite with utf8.
  by rewrite (lead_byte Mark3 _ 4) by (done || unfold Mark3; arith).
Qed.

Lemma write_rune_3 v : Max2 < v <= Max3 ->
  write_rune v = [224 + v / 64 / 64; 128 + v / 64 mod 64; 128 + v mod 64].
Proof.
  unfold Max2. intros. rewrite <-write_rune3_spec by lia. unfold write_rune, Max1, Max2.
  rewrite !(proj2 (Z.leb_gt _ _)), (proj2 (Z.leb_le _ _)) by lia. done.
Qed.

Lemma write_rune_4 v : Max3 < v <= Max4 ->
  write_rune v =
    [240 + v / 64 / 64 / 64; 128 + v / 64 / 64 mod 64; 128 + v / 64 mod 64; 128 + v mod 64].
Proof.
  unfold Max3, Max4. intros. unfold write_rune, Max1, Max2, Max3, Max4.
  rewrite !(proj2 (Z.leb_gt v _)), (proj2 (Z.leb_le _ _)) by lia.
  autorewrite with utf8. by rewrite (lead_byte Mark4 _ 3) by (done || unfold Mark4; arith).
Qed.

Lemma write_rune_bad v : Max4 < v -> write_rune v = write_rune Bad.
Proof.
  unfold Max4. intros. unfold write_rune at 1, Max1, Max2, Max3, Max4.
  by rewrite !(proj2 (Z.leb_gt v _)) by lia.
Qed.

(** Decides the mask tests of [utf8_decode] from the bounds in the context. *)
Ltac decode_tests :=
  unfold utf8_decode;
  rewrite ?mask1_spec, ?mask2_spec, ?mask3_spec, ?mask4_spec, ?is_cont_spec
    by (unfold is_byte; arith);
  repeat match goal with
  | |- context [?a <=? ?b] =>
      first [rewrite (proj2 (Z.leb_le a b)) by arith | rewrite (proj2 (Z.leb_gt a b)) by arith]
  | |- context [?a <? ?b] =>
      first [rewrite (proj2 (Z.ltb_lt a b)) by arith | rewrite (proj2 (Z.ltb_ge a b)) by arith]
  end; cbn -[Z.mul Z.add Z.modulo Z.div].

Lemma decode_1 c0 rest : 0 <= c0 < 128 -> utf8_decode c0 rest = (c0, 1%nat).
Proof. intros. decode_tests. autorewrite with utf8. by rewrite Z.mod_small by lia. Qed.

Lemma decode_2 c0 c1 rest :
  192 <= c0 < 224 -> 128 <= c1 < 192 ->
  utf8_decode c0 (c1 :: rest) = ((c0 - 192) * 64 + (c1 - 128), 2%nat).
Proof.
  intros. decode_tests. autorewrite with utf8. rewrite !push_bits by bits_nonneg. f_equal. arith.
Qed.

Lemma decode_3 c0 c1 c2 rest :
  224 <= c0 < 240 -> 128 <= c1 < 192 -> 128 <= c2 < 192 ->
  utf8_decode c0 (c1 :: c2 :: rest) =
    (((c0 - 224) * 64 + (c1 - 128)) * 64 + (c2 - 128), 3%nat).
Proof.
  intros. decode_tests. autorewrite with utf8. rewrite !push_bits by bits_nonneg. f_equal. arith.
Qed.

Lemma decode_4 c0 c1 c2 c3 rest :
  240 <= c0 < 248 -> 128 <= c1 < 192 -> 128 <= c2 < 192 -> 128 <= c3 < 192 ->
  utf8_decode c0 (c1 :: c2 :: c3 :: rest) =
    ((((c0 - 240) * 64 + (c1 - 128)) * 64 + (c2 - 128)) * 64 + (c3 - 128), 4%nat).
Proof.
  intros. decode_tests. autorewrite with utf8. rewrite !push_bits by bits_nonneg. f_equal. arith.
Qed.

(** The four lengths of a valid rune. *)
Lemma rune_cases v : 0 <= v <= Max4 ->
  0 <= v <= Max1 \/ Max1 < v <= Max2 \/ Max2 < v <= Max3 \/ Max3 < v <= Max4.
Proof. unfold Max1, Max2, Max3, Max4. lia. Qed.

Lemma decode_write v rest : 0 <= v <= Max4 ->
  exists c0 cs, write_rune v = c0 :: cs
    /\ utf8_decode c0 (cs ++ rest) = (v, length (write_rune v)).
Proof.
  intros [?|[?|[?|?]]]%rune_cases; unfold Max1, Max2, Max3, Max4 in *.
  - rewrite write_rune_1 by done. eexists _, _; split; [done|]. by rewrite decode_1 by lia.
  - rewrite write_rune_2 by done. eexists _, _; split; [done|].
    cbn [app]. rewrite decode_2 by arith. cbn [length]. f_equal. arith.
  - rewrite write_rune_3 by done. eexists _, _; split; [done|].
    cbn [app]. rewrite decode_3 by arith. cbn [length]. f_equal. arith.
  - rewrite write_rune_4 by done. eexists _, _; split; [done|].
    cbn [app]. rewrite decode_4 by arith. cbn [length]. f_equal. arith.
Qed.

Lemma write_rune_bytes v : 0 <= v -> Forall is_byte (write_rune v).
Proof.
  intros Hv. destruct (Z.le_gt_cases v Max4) as [Hle|Hgt].
  - destruct (rune_cases v) as [?|[?|[?|?]]]; [lia|..]; unfold Max1, Max2, Max3, Max4 in *;
    rewrite ?write_rune_1, ?write_rune_2, ?write_rune_3, ?write_rune_4 by done;
    repeat constructor; arith.
  - rewrite write_rune_bad by done. repeat constructor; done.
Qed.

Lemma utf8_decode_bounds c0 rest v n :
  utf8_decode c0 rest = (v, n) ->
  0 <= v < 2 ^ 21 /\ (1 <= n <= 4)%nat /\ (n <= S (length rest))%nat.
Proof.
  unfold utf8_decode. autorewrite with utf8.
  destruct rest as [|c1 [|c2 [|c3 rest]]]; cbn [length];
  repeat case_match; intros [= <- <-];
  unfold Bad; (split; [|cbn [length]; lia]);
  autorewrite with utf8; rewrite ?push_bits by bits_nonneg; arith.
Qed.

(** * Whole strings *)

Lemma to_rune_raw c0 rest :
  utf8_to_rune (c0 :: rest) false =
    Returns (fst (utf8_decode c0 rest), take (snd (utf8_decode c0 rest)) (c0 :: rest)).
Proof. unfold utf8_to_rune. rewrite andb_false_r. by destruct (utf8_decode c0 rest). Qed.

Lemma raw_consumed c0 rest :
  length (take (snd (utf8_decode c0 rest)) (c0 :: rest)) = snd (utf8_decode c0 rest).
Proof.
  destruct (utf8_decode c0 rest) as [v n] eqn:E. apply utf8_decode_bounds in E.
  rewrite length_take. cbn [snd length]. lia.
Qed.

Lemma to_rune_write v rest : 0 <= v <= Max4 ->
  utf8_to_rune (write_rune v ++ rest) false = Returns (v, write_rune v).
Proof.
  intros Hv. destruct (decode_write v rest Hv) as (c0 & cs & E & D). rewrite E in *.
  cbn [app]. rewrite to_rune_raw, D. cbn [fst snd].
  by rewrite app_comm_cons, take_app_length.
Qed.

Lemma write_rune_nonempty v : 0 <= v -> write_rune v <> [].
Proof.
  intros. destruct (Z.le_gt_cases v Max4) as [|G].
  - by destruct (decode_write v [] ltac:(done)) as (?&?&->&_).
  - by rewrite write_rune_bad.
Qed.

(** Fuel beyond the length of the input changes nothing. *)
Lemma runestring_fuel fuel input :
  (length input <= fuel)%nat ->
  utf8_to_runestring_loop fuel input false = utf8_to_runestring input false.
Proof.
  unfold utf8_to_runestring.
  assert (forall n f1 f2 l, length l <= n -> n <= f1 -> n <= f2 ->
    utf8_to_runestring_loop f1 l false = utf8_to_runestring_loop f2 l false)%nat as H.
  { induction n as [|n IH]; intros f1 f2 [|c l]; cbn [length]; try lia;
      intros; destruct f1 as [|f1], f2 as [|f2]; try lia; try done.
    cbn [utf8_to_runestring_loop]. rewrite to_rune_raw. cbn. rewrite raw_consumed.
    destruct (utf8_decode c l) as [v k] eqn:E. apply utf8_decode_bounds in E. cbn.
    rewrite (IH f1 f2); [done| |lia|lia]. rewrite length_drop. cbn [length]. lia. }
  intros. by apply H with (length input).
Qed.

(** The defining equation of the decoding loop. *)
Lemma runestring_cons c0 rest :
  utf8_to_runestring (c0 :: rest) false =
    rs ← utf8_to_runestring (drop (snd (utf8_decode c0 rest)) (c0 :: rest)) false;
    Returns (fst (utf8_decode c0 rest) :: rs).
Proof.
  unfold utf8_to_runestring at 1. cbn [length utf8_to_runestring_loop].
  rewrite to_rune_raw. cbn. rewrite raw_consumed.
  destruct (utf8_decode c0 rest) as [v k] eqn:E. apply utf8_decode_bounds in E. cbn.
  rewrite runestring_fuel; [done|]. rewrite length_drop. cbn [length]. lia.
Qed.

Lemma runestring_app v rest : 0 <= v <= Max4 ->
  utf8_to_runestring (write_rune v ++ rest) false =
    rs ← utf8_to_runestring rest false; Returns (v :: rs).
Proof.
  intros Hv. destruct (decode_write v rest Hv) as (c0 & cs & E & D). rewrite E in *.
  cbn [app]. rewrite runestring_cons, D. cbn [fst snd].
  by rewrite app_comm_cons, drop_app_length.
Qed.

Lemma runestring_write vs : Forall (fun v => 0 <= v <= Max4) vs ->
  utf8_to_runestring (write_runes vs) false = Returns vs.
Proof.
  induction 1 as [|v vs Hv _ IH]; [done|]. unfold write_runes in *. cbn [flat_map].
  by rewrite runestring_app, IH by done.
Qed.

(** Decoding raw bytes always returns, with as many runes as bytes at most. *)
Lemma runestring_total input :
  exists rs, utf8_to_runestring input false = Returns rs /\ (length rs <= length input)%nat
    /\ Forall (fun r => 0 <= r < 2 ^ 21) rs.
Proof.
  remember (length input) as n eqn:Hn. assert (length input <= n)%nat as Hle by lia.
  rewrite Hn. clear Hn. revert input Hle.
  induction n as [|n IH]; intros [|c0 rest] Hle; cbn [length] in *; try lia;
    try by exists [].
  rewrite runestring_cons. destruct (utf8_decode c0 rest) as [v k] eqn:E.
  apply utf8_decode_bounds in E. cbn [fst snd].
  destruct (IH (drop k (c0 :: rest))) as (rs & -> & Hl & Hb).
  { rewrite length_drop. cbn [length]. lia. }
  exists (v :: rs). rewrite length_drop in Hl. cbn [length] in *.
  repeat split; [lia|]. constructor; [lia|done].
Qed.

(** * Escaping *)

Lemma length_hex_digits w v : length (hex_digits w v) = w.
Proof. revert v. induction w; intros; cbn; [done|]. rewrite length_app, IHw. cbn. lia. Qed.

Lemma hex_digits_app w1 w2 v :
  0 <= v -> hex_digits (w1 + w2) v = hex_digits w1 (v / 16 ^ Z.of_nat w2) ++ hex_digits w2 v.
Proof.
  revert v. induction w2 as [|w2 IH]; intros v Hv.
  - by rewrite Nat.add_0_r, Z.div_1_r, app_nil_r.
  - rewrite Nat.add_succ_r. cbn [hex_digits]. rewrite IH by arith. rewrite <-app_assoc.
    do 2 f_equal. rewrite Z.div_div by lia. f_equal.
    rewrite Nat2Z.inj_succ, Z.pow_succ_r; lia.
Qed.

Lemma hex_char_facts d : 0 <= d < 16 ->
  hex_digit (hex_char d) = Some d /\ is_space (hex_char d) = false
  /\ hex_char d <> 45 /\ hex_char d <> 43 /\ hex_char d <> 120 /\ hex_char d <> 88.
Proof.
  intros. unfold hex_char, hex_digit, is_space.
  destruct (Z.ltb_spec d 10); repeat split; repeat case_match; try lia; f_equal; lia.
Qed.

Definition plain_hex (s : list Z) : Prop :=
  Forall (fun c => exists d, 0 <= d < 16 /\ c = hex_char d) s.

Lemma plain_hex_digits w v : 0 <= v -> plain_hex (hex_digits w v).
Proof.
  revert v. induction w as [|w IH]; intros; cbn; [constructor|].
  apply Forall_app; split; [apply IH; arith|]. repeat constructor. eexists; split; [|done]. arith.
Qed.

Lemma hex_run_app acc s t :
  plain_hex s -> hex_run acc (s ++ t) = hex_run (hex_run acc s) t.
Proof.
  intros H. revert acc. induction H as [|c s (d & Hd & ->) _ IH]; intros; [done|].
  cbn. destruct (hex_char_facts d Hd) as [-> _]. apply IH.
Qed.

Lemma hex_run_digits w v acc : 0 <= v ->
  hex_run acc (hex_digits w v) = acc * 16 ^ Z.of_nat w + v mod 16 ^ Z.of_nat w.
Proof.
  revert v acc. induction w as [|w IH]; intros v acc Hv.
  - cbn. rewrite Z.mod_1_r. lia.
  - cbn [hex_digits]. rewrite hex_run_app by (apply plain_hex_digits; arith).
    rewrite IH by arith. cbn. destruct (hex_char_facts (v mod 16)) as [-> _]; [arith|].
    rewrite Nat2Z.inj_succ, Z.pow_succ_r by lia.
    rewrite (Z.rem_mul_r v 16 (16 ^ Z.of_nat w)) by lia. ring.
Qed.

Lemma stoul16_plain s : s <> [] -> plain_hex s -> hex_run 0 s < 2 ^ 64 ->
  stoul16 s = Returns (hex_run 0 s).
Proof.
  intros Hne Hp Hlt. unfold stoul16. destruct s as [|c s]; [done|].
  unfold plain_hex in Hp. rewrite Forall_cons in Hp. destruct Hp as [(d & Hd & ->) Hs].
  destruct (hex_char_facts d Hd) as (Hdig & Hsp & ? & ? & ? & ?).
  cbn [skip_space]. rewrite Hsp.
  assert (strip_0x (hex_char d :: s) = hex_char d :: s) as Hstrip.
  { unfold strip_0x. destruct s as [|x [|? ?]]; [done..|].
    rewrite Forall_cons in Hs. destruct Hs as [(d' & Hd' & ->) _].
    destruct (hex_char_facts d' Hd') as (_ & _ & _ & _ & ? & ?).
    replace ((hex_char d' =? 120) || (hex_char d' =? 88)) with false by lia.
    by rewrite andb_false_r. }
  rewrite !(proj2 (Z.eqb_neq _ _)) by done. rewrite Hstrip. unfold hex_number, is_hex. rewrite Hdig.
  by rewrite (proj2 (Z.leb_gt _ _)) by done.
Qed.

Lemma stoul16_digits w v : (0 < w <= 8)%nat -> 0 <= v < 16 ^ Z.of_nat w ->
  stoul16 (hex_digits w v) = Returns v.
Proof.
  intros Hw Hv. assert (hex_run 0 (hex_digits w v) = v) as E.
  { rewrite hex_run_digits by lia. rewrite Z.mod_small; lia. }
  rewrite stoul16_plain, E; [done|..].
  - intros He. apply (f_equal length) in He. rewrite length_hex_digits in He. cbn in He. lia.
  - apply plain_hex_digits. lia.
  - rewrite E. pose proof (Z.pow_le_mono_r 16 (Z.of_nat w) 8). lia.
Qed.

Lemma put_hex_8 v : put_hex 8 v = hex_digits 8 v.
Proof.
  unfold put_hex. pose proof (length_hex_digits 8 v) as H. revert H.
  generalize (hex_digits 8 v). intros [|c l] H; [done|]. cbn [strip_zeros].
  rewrite H. by rewrite andb_false_r.
Qed.

Lemma put_hex_4 v : 0 <= v < 65536 -> put_hex 4 v = hex_digits 4 v.
Proof.
  intros. unfold put_hex. rewrite (hex_digits_app 4 4) by lia.
  change (16 ^ Z.of_nat 4) with 65536. rewrite Z.div_small by lia.
  change (hex_digits 4 0) with [48; 48; 48; 48].
  pose proof (length_hex_digits 4 v) as H'. revert H'.
  generalize (hex_digits 4 v). intros l H'. cbn [app strip_zeros length].
  rewrite H'. cbn. destruct l as [|c l]; [done|]. cbn [strip_zeros]. rewrite H'.
  by rewrite andb_false_r.
Qed.

(** * Sanitizing *)

(** What [write_rune] makes of a decoded value: above [Max4] it writes [Bad]. *)
Definition clip (r : Z) : Z := if r <=? Max4 then r else Bad.

Lemma clip_valid r : 0 <= r -> 0 <= clip r <= Max4.
Proof. intros. unfold clip, Bad, Max4. case_match; lia. Qed.

Lemma clip_clip r : clip (clip r) = clip r.
Proof. unfold clip. destruct (r <=? Max4) eqn:E; by rewrite ?E. Qed.

Lemma write_clip r : write_rune r = write_rune (clip r).
Proof. unfold clip. case_match; [done|]. apply write_rune_bad. lia. Qed.

Lemma write_runes_clip rs : write_runes rs = write_runes (clip <$> rs).
Proof. unfold write_runes. induction rs as [|r rs IH]; [done|]. cbn. by rewrite <-write_clip, IH. Qed.

Lemma write_runes_bytes rs : Forall (fun r => 0 <= r) rs -> Forall is_byte (write_runes rs).
Proof.
  induction 1; [constructor|]. apply Forall_app; split; [by apply write_rune_bytes|done].
Qed.

Lemma rune_size_length v : 0 <= v -> length (write_rune v) = rune_size v.
Proof.
  intros. unfold write_rune, rune_size. by repeat case_match.
Qed.

(** * UTF-16 and UTF-32 units *)

Definition units_be (vs : list Z) : list Z := flat_map (fun v => [v / 256; v mod 256]) vs.
Definition units_le (vs : list Z) : list Z := flat_map (fun v => [v mod 256; v / 256]) vs.

Lemma unit_bytes v : 0 <= v < 65536 -> Z.lor (Z.shiftl (v / 256) 8) (v mod 256) = v.
Proof. intros. rewrite shiftl_lor_add by arith. arith. Qed.

Lemma read_utf16_be_units vs :
  Forall (fun v => 0 <= v < 65536) vs -> read_utf16_be (units_be vs) = write_runes vs.
Proof.
  induction 1 as [|v vs Hv _ IH]; [done|]. unfold units_be, write_runes in *.
  cbn [flat_map app read_utf16_be]. by rewrite unit_bytes, IH.
Qed.

Lemma read_utf16_le_units vs :
  Forall (fun v => 0 <= v < 65536) vs -> read_utf16_le (units_le vs) = write_runes vs.
Proof.
  induction 1 as [|v vs Hv _ IH]; [done|]. unfold units_le, write_runes in *.
  cbn [flat_map app read_utf16_le]. by rewrite unit_bytes, IH.
Qed.

(** Induction four bytes at a time. *)
Lemma list_ind4 {A} (P : list A -> Prop) :
  P [] -> (forall a, P [a]) -> (forall a b, P [a; b]) -> (forall a b c, P [a; b; c]) ->
  (forall a b c d l, P l -> P (a :: b :: c :: d :: l)) -> forall l, P l.
Proof.
  intros H0 H1 H2 H3 H4. fix FIX 1.
  intros [|a [|b [|c [|d l]]]]; [done|apply H1|apply H2|apply H3|apply H4, FIX].
Qed.

Definition torn32 (n : nat) : Prop := (n mod 4 = 1 \/ n mod 4 = 2)%nat.

Lemma torn32_step n : torn32 (4 + n) <-> torn32 n.
Proof. unfold torn32. rewrite (Nat.add_comm 4 n), (Nat.Div0.add_mod n 4), Nat.add_0_r, Nat.Div0.mod_mod. done. Qed.

Lemma read_utf32_torn s :
  (read_utf32_be s = Undefined <-> torn32 (length s))
  /\ (read_utf32_le s = Undefined <-> torn32 (length s)).
Proof.
  induction s as [| | | |a b c d s [IHb IHl]] using list_ind4;
    [unfold torn32; cbn; split; split; first [done | lia | by intros []]..|].
  change (length (a :: b :: c :: d :: s)) with (4 + length s)%nat.
  rewrite torn32_step, <-IHb at 1. rewrite torn32_step, <-IHl. cbn [read_utf32_be read_utf32_le].
  split; [destruct (read_utf32_be s)|destruct (read_utf32_le s)]; cbn; done.
Qed.

(** * Unescaping what was escaped *)

Definition escapable (v : Z) : Prop := 0 <= v <= Max4 /\ v <> 92.

Lemma escape_rune_ascii v : 0 <= v <= Max4 -> Forall (fun c => 0 <= c < 128) (escape_rune v).
Proof.
  unfold Max4. intros. assert (forall w, Forall (fun c => 0 <= c < 128) (hex_digits w v)) as Hh.
  { intros w. eapply Forall_impl; [apply plain_hex_digits; lia|].
    intros c (d & Hd & ->). unfold hex_char. case_match; lia. }
  unfold escape_rune. destruct (Z.ltb_spec 0x7FFF v); [|destruct (Z.ltb_spec 0x7F v)].
  - rewrite put_hex_8. rewrite !Forall_cons. split_and!; [lia..|apply Hh].
  - rewrite put_hex_4 by lia. rewrite !Forall_cons. split_and!; [lia..|apply Hh].
  - rewrite u8_id by lia. rewrite Forall_cons. split; [lia|constructor].
Qed.

(** Reading one escape back: [k] hexadecimal digits after [\\U] or [\\u]. *)
Lemma unescape_U h rest v :
  length h = 8%nat -> stoul16 h = Returns v -> 0 <= v < 2 ^ 32 ->
  utf8_to_rune (92 :: 85 :: h ++ rest) true = Returns (v, 92 :: 85 :: h).
Proof.
  intros Hl Hs Hv. unfold utf8_to_rune.
  replace (drop 2 (92 :: 85 :: h ++ rest)) with (h ++ rest) by done.
  rewrite (take_app_length' h rest 8) by lia. cbn [length]. rewrite length_app, Hl.
  cbn -[take]. rewrite Hs. cbn -[take]. rewrite u32_id by lia. do 2 f_equal.
  rewrite !app_comm_cons. apply take_app_length'. cbn [length]. lia.
Qed.

Lemma unescape_u h rest v :
  length h = 4%nat -> stoul16 h = Returns v -> 0 <= v < 2 ^ 32 ->
  utf8_to_rune (92 :: 117 :: h ++ rest) true = Returns (v, 92 :: 117 :: h).
Proof.
  intros Hl Hs Hv. unfold utf8_to_rune.
  replace (drop 2 (92 :: 117 :: h ++ rest)) with (h ++ rest) by done.
  rewrite (take_app_length' h rest 4) by lia. cbn [length]. rewrite length_app, Hl.
  cbn -[take]. rewrite Hs. cbn -[take]. rewrite u32_id by lia. do 2 f_equal.
  rewrite !app_comm_cons. apply take_app_length'. cbn [length]. lia.
Qed.

Lemma unescape_one v rest :
  escapable v -> 0x7F < v ->
  utf8_to_rune (escape_rune v ++ rest) true = Returns (v, escape_rune v).
Proof.
  unfold escapable, Max4. intros [Hv _] Hlo. unfold escape_rune.
  rewrite (proj2 (Z.ltb_lt 0x7F v)) by done. destruct (Z.ltb_spec 0x7FFF v).
  - rewrite put_hex_8. apply unescape_U; [apply length_hex_digits|apply stoul16_digits; lia|lia].
  - rewrite put_hex_4 by lia.
    apply unescape_u; [apply length_hex_digits|apply stoul16_digits; lia|lia].
Qed.

Lemma unescape_escaped vs fuel :
  Forall escapable vs -> (length (flat_map escape_rune vs) <= fuel)%nat ->
  unescape_loop fuel (flat_map escape_rune vs) = Returns (write_runes vs).
Proof.
  intros H. revert fuel. induction H as [|v vs Hv _ IH]; intros fuel Hf; [by destruct fuel|].
  cbn [flat_map] in *. rewrite length_app in Hf.
  destruct (Z.le_gt_cases v 0x7F) as [Hlo|Hhi].
  - assert (escape_rune v = [v]) as E.
    { unfold escape_rune, escapable in *. by rewrite !(proj2 (Z.ltb_ge _ _)), u8_id by lia. }
    rewrite E in *. destruct fuel as [|fuel]; cbn [length app] in *; [lia|].
    cbn [unescape_loop]. rewrite (proj2 (Z.eqb_neq v 92)) by apply Hv.
    rewrite IH by lia. unfold write_runes, escapable in *. cbn [flat_map].
    by rewrite (write_rune_1 v) by (unfold Max1; lia).
  - pose proof (unescape_one v (flat_map escape_rune vs) Hv Hhi) as E.
    assert (exists t, escape_rune v = 92 :: t) as [t Ht].
    { unfold escape_rune. rewrite (proj2 (Z.ltb_lt 0x7F v)) by lia. case_match; eauto. }
    rewrite Ht in *. destruct fuel as [|fuel]; cbn [length app] in *; [lia|].
    cbn [unescape_loop]. rewrite E. cbn -[drop write_runes].
    change (92 :: t ++ ?x) with ((92 :: t) ++ x). rewrite drop_app_length' by (cbn [length]; lia).
    rewrite IH by lia. done.
Qed.

Lemma escape_written vs fuel :
  Forall escapable vs -> (length (write_runes vs) <= fuel)%nat ->
  escape_loop fuel (write_runes vs) = Returns (flat_map escape_rune vs).
Proof.
  intros H. revert fuel. induction H as [|v vs [Hv _] _ IH]; intros fuel Hf; [by destruct fuel|].
  unfold write_runes in *. cbn [flat_map] in *. rewrite length_app in Hf.
  destruct (decode_write v (flat_map write_rune vs) Hv) as (c0 & cs & E & _).
  pose proof (to_rune_write v (flat_map write_rune vs) Hv) as D. rewrite E in *.
  destruct fuel as [|fuel]; cbn [length app] in *; [lia|]. cbn [escape_loop].
  rewrite D. cbn -[drop]. change (c0 :: cs ++ ?x) with ((c0 :: cs) ++ x).
  rewrite drop_app_length' by (cbn [length]; lia). by rewrite IH by lia.
Qed.

(** * Properties *)

(** C38: decoding what [write_rune] wrote gives the runes back and consumes
    exactly the bytes written, whatever follows; the bytes written are as many
    as [rune::size] announces. *)
Theorem utf8_roundtrip (vs : list Z) (Hvs : Forall (fun v => 0 <= v <= Max4) vs) :
  utf8_to_runestring (write_runes vs) false = Returns vs
  /\ length (write_runes vs) = sum_list (rune_size <$> vs)
  /\ forall v rest, 0 <= v <= Max4 ->
       utf8_to_rune (write_rune v ++ rest) false = Returns (v, write_rune v).
Proof.
  split_and!; [by apply runestring_write| |by intros; apply to_rune_write].
  induction Hvs as [|v vs Hv _ IH]; [done|]. unfold write_runes in *. cbn.
  rewrite length_app, IH, rune_size_length by lia. done.
Qed.

Lemma utf8_roundtrip_witness :
  utf8_to_runestring (write_runes [0x24; 0xE9; 0x20AC; 0x10348]) false
    = Returns [0x24; 0xE9; 0x20AC; 0x10348].
Proof.
  apply (utf8_roundtrip [0x24; 0xE9; 0x20AC; 0x10348]).
  unfold Max4. repeat constructor; lia.
Defined.

(** [sanitize_utf8] returns on every byte string; its output decodes to the
    decoded input with every value above U+10FFFF replaced by U+FFFD, is made of
    bytes, and sanitizing it again changes nothing. *)
Theorem sanitize_utf8_spec (input : list Z) :
  exists rs out,
    utf8_to_runestring input false = Returns rs /\ sanitize_utf8 input = Returns out
    /\ utf8_to_runestring out false = Returns (clip <$> rs)
    /\ sanitize_utf8 out = Returns out /\ Forall is_byte out.
Proof.
  destruct (runestring_total input) as (rs & E & _ & Hb). exists rs, (write_runes rs).
  assert (utf8_to_runestring (write_runes rs) false = Returns (clip <$> rs)) as D.
  { rewrite write_runes_clip. apply runestring_write. apply Forall_fmap.
    eapply Forall_impl; [exact Hb|]. intros r Hr. apply clip_valid. simpl in Hr. lia. }
  unfold sanitize_utf8. rewrite E, D. split_and!; try done.
  - cbn. by rewrite <-write_runes_clip.
  - apply write_runes_bytes. eapply Forall_impl; [exact Hb|]. cbn. lia.
Qed.

(** Escaping a text without backslashes gives plain ASCII, and unescaping
    that gives the text back. *)
Theorem escape_unescape_roundtrip (vs : list Z) (Hvs : Forall escapable vs) :
  exists e, escape_unicode (write_runes vs) = Returns e
    /\ Forall (fun c => 0 <= c < 128) e
    /\ unescape_hexunicode e = Returns (write_runes vs).
Proof.
  exists (flat_map escape_rune vs). split_and!.
  - by apply escape_written.
  - induction Hvs as [|v vs [Hv _] _ IH]; [constructor|].
    apply Forall_app; split; [by apply escape_rune_ascii|done].
  - by apply unescape_escaped.
Qed.

Lemma escape_unescape_roundtrip_witness :
  exists e, escape_unicode (write_runes [0x61; 0xE9; 0x1F600]) = Returns e
    /\ Forall (fun c => 0 <= c < 128) e
    /\ unescape_hexunicode e = Returns (write_runes [0x61; 0xE9; 0x1F600]).
Proof.
  apply (escape_unescape_roundtrip [0x61; 0xE9; 0x1F600]).
  unfold escapable, Max4. repeat constructor; lia.
Defined.

(** Text of 16-bit units behind a byte-order mark is read as the UTF-8
    encoding of those units, in either byte order (the little-endian text must
    not start with U+0000, which makes the mark that of UTF-32). *)
Theorem read_contents_utf16 (v : Z) (vs : list Z) (autodetect : bool)
    (Hv : 0 < v < 65536) (Hvs : Forall (fun v => 0 <= v < 65536) vs) :
  read_contents (0xFE :: 0xFF :: units_be (v :: vs)) autodetect
    = Returns (write_runes (v :: vs))
  /\ read_contents (0xFF :: 0xFE :: units_le (v :: vs)) autodetect
    = Returns (write_runes (v :: vs)).
Proof.
  assert (Forall (fun v => 0 <= v < 65536) (v :: vs)) as H by (constructor; [lia|done]).
  split.
  - trans (Returns (A := list Z) (read_utf16_be (units_be (v :: vs)))); [done|].
    by rewrite read_utf16_be_units.
  - trans (if (v mod 256 =? 0) && (v / 256 =? 0)
           then read_utf32_le (drop 2 (units_le (v :: vs)))
           else Returns (read_utf16_le (units_le (v :: vs)))); [done|].
    replace ((v mod 256 =? 0) && (v / 256 =? 0)) with false by arith.
    by rewrite read_utf16_le_units.
Qed.

Lemma read_contents_utf16_witness :
  read_contents (0xFF :: 0xFE :: units_le [0x68; 0xE9]) false
    = Returns (write_runes [0x68; 0xE9]).
Proof. apply (read_contents_utf16 0x68 [0xE9] false); [lia|repeat constructor; lia]. Defined.

(** A file that is just the UTF-16LE byte-order mark (or the mark and one
    zero byte) makes [read_to_end] throw: the two missing bytes read as zero, the
    mark is taken for UTF-32LE's and [contents.substr(4)] is out of range. *)
Theorem utf16le_bom_only_throws (autodetect : bool) :
  read_contents [0xFF; 0xFE] autodetect = Throws
  /\ read_contents [0xFF; 0xFE; 0] autodetect = Throws.
Proof. done. Qed.

(** The UTF-32 readers index past the end of the string, which is undefined
    behaviour, exactly when the number of bytes is one or two more than a
    multiple of four. *)
Theorem read_utf32_undefined (s : list Z) :
  (read_utf32_be s = Undefined <-> (length s mod 4 = 1 \/ length s mod 4 = 2)%nat)
  /\ (read_utf32_le s = Undefined <-> (length s mod 4 = 1 \/ length s mod 4 = 2)%nat).
Proof. apply read_utf32_torn. Qed.
