(* ===== verification/AsciiBitmap.v ===== *)
(** The 128-bit ASCII bitmaps: two 64-bit words indexed by the upper bit of a
    seven-bit rune.  [unicode_data.h] computes them for the category tables,
    [regex_engine.h] for rune classes, states and first characters, with the
    same word and bit arithmetic, which is shared here. *)

From S2P Require Import Prelude.

Record AsciiBitmap := mkBitmap { word0 : Z; word1 : Z }.

Definition bitmap_zero : AsciiBitmap := mkBitmap 0 0.

(** [bitmap[i]] for an index below 2. *)
Definition bitmap_word (bm : AsciiBitmap) (i : Z) : Z :=
  if i =? 0 then word0 bm else word1 bm.

(** [(bitmap[r >> 6] >> (r & 63)) & 1] *)
Definition bitmap_test (bm : AsciiBitmap) (r : Z) : bool :=
  negb (Z.land (Z.shiftr (bitmap_word bm (Z.shiftr r 6)) (Z.land r 63)) 1 =? 0).

(** [bitmap[r >> 6] |= uint64_t(1) << (r & 63)] *)
Definition bitmap_set (bm : AsciiBitmap) (r : Z) : AsciiBitmap :=
  let bit := u64 (Z.shiftl 1 (Z.land r 63)) in
  if Z.shiftr r 6 =? 0 then mkBitmap (Z.lor (word0 bm) bit) (word1 bm)
  else mkBitmap (word0 bm) (Z.lor (word1 bm) bit).

(** Word-wise [|=]. *)
Definition bitmap_or (a b : AsciiBitmap) : AsciiBitmap :=
  mkBitmap (Z.lor (word0 a) (word0 b)) (Z.lor (word1 a) (word1 b)).

(** [for (r = lo; r <= clamped_hi; r++)] after the [lo >= 128] test. *)
Definition bitmap_add_range (bm : AsciiBitmap) (range : Z * Z) : AsciiBitmap :=
  let '(lo, hi) := range in
  if 128 <=? lo then bm
  else
    let clamped_hi := if hi <? 128 then hi else 127 in
    foldl bitmap_set bm (seqZ lo (clamped_hi + 1 - lo)).

Definition bitmap_of_ranges (ranges : list (Z * Z)) : AsciiBitmap :=
  foldl bitmap_add_range bitmap_zero ranges.

(** Membership in a list of closed ranges. *)
Definition in_range (r : Z) (range : Z * Z) : bool :=
  (range.1 <=? r) && (r <=? range.2).

Definition in_ranges (r : Z) (ranges : list (Z * Z)) : bool := existsb (in_range r) ranges.

(** * Facts *)

Definition ascii (r : Z) : Prop := 0 <= r < 128.

Lemma bitmap_test_testbit bm r :
  ascii r -> bitmap_test bm r = Z.testbit (bitmap_word bm (Z.shiftr r 6)) (Z.land r 63).
Proof.
  intros Hr. unfold bitmap_test.
  set (w := bitmap_word bm _). set (k := Z.land r 63).
  assert (0 <= k) as Hk by (unfold k; apply Z.land_nonneg; lia).
  replace (Z.testbit w k) with (Z.testbit (Z.shiftr w k) 0)
    by (rewrite Z.shiftr_spec by lia; f_equal; lia).
  set (x := Z.shiftr w k). replace (Z.land x 1) with (x mod 2) by (symmetry; apply (land_mod x 1); lia).
  rewrite Z.bit0_eqb. pose proof (Z.mod_pos_bound x 2 eq_refl). lia.
Qed.

Lemma low_bits r : ascii r -> Z.land r 63 = r mod 64 /\ Z.shiftr r 6 = r / 64.
Proof. intros. split; [apply (land_mod r 6); lia|by rewrite Z.shiftr_div_pow2]. Qed.

Lemma word_bit k x : 0 <= k < 64 -> 0 <= x -> Z.testbit (u64 (Z.shiftl 1 k)) x = (x =? k).
Proof.
  intros. rewrite Z.shiftl_1_l, u64_id.
  - rewrite Z.pow2_bits_eqb by lia. lia.
  - split; [lia|]. change 18446744073709551616 with (2 ^ 64). apply Z.pow_lt_mono_r; lia.
Qed.

Lemma bitmap_set_spec bm r x : ascii r -> ascii x ->
  bitmap_test (bitmap_set bm r) x = (x =? r) || bitmap_test bm x.
Proof.
  intros Hr Hx. rewrite !bitmap_test_testbit by done. unfold bitmap_set, bitmap_word.
  destruct (low_bits r Hr) as [-> ->], (low_bits x Hx) as [-> ->]. unfold ascii in *.
  destruct (Z.eqb_spec (r / 64) 0), (Z.eqb_spec (x / 64) 0); cbn [word0 word1];
    rewrite ?Z.lor_spec, ?word_bit by arith.
  2,3: by replace (x =? r) with false by arith.
  all: replace (x =? r) with (x mod 64 =? r mod 64) by arith; apply orb_comm.
Qed.

Lemma bitmap_or_spec a b x : ascii x ->
  bitmap_test (bitmap_or a b) x = bitmap_test a x || bitmap_test b x.
Proof.
  intros Hx. rewrite !bitmap_test_testbit by done. unfold bitmap_or, bitmap_word.
  case_match; cbn [word0 word1]; apply Z.lor_spec.
Qed.

Lemma bitmap_zero_spec x : bitmap_test bitmap_zero x = false.
Proof. unfold bitmap_test, bitmap_word. case_match; cbn [word0 word1 bitmap_zero]; by rewrite Z.shiftr_0_l. Qed.

Lemma foldl_bitmap_set bm l x : Forall ascii l -> ascii x ->
  bitmap_test (foldl bitmap_set bm l) x = existsb (Z.eqb x) l || bitmap_test bm x.
Proof.
  intros Hl Hx. revert bm. induction Hl as [|r l Hr _ IH]; intros bm; [done|].
  cbn. rewrite IH, bitmap_set_spec by done. by destruct (x =? r), (existsb _ l).
Qed.

Lemma bitmap_add_range_spec bm lo hi x : 0 <= lo -> ascii x ->
  bitmap_test (bitmap_add_range bm (lo, hi)) x = in_range x (lo, hi) || bitmap_test bm x.
Proof.
  intros Hlo Hx. unfold bitmap_add_range, in_range, ascii in *. cbn.
  destruct (Z.leb_spec 128 lo); [by replace (lo <=? x) with false by lia|].
  rewrite foldl_bitmap_set; [|apply Forall_seqZ; unfold ascii; case_match; lia|done].
  f_equal. apply eq_true_iff_eq. rewrite existsb_exists, andb_true_iff.
  setoid_rewrite <-list_elem_of_In. setoid_rewrite elem_of_seqZ. split.
  - intros (y & Hy & ?). case_match; lia.
  - intros. exists x. case_match; lia.
Qed.

Definition ranges_nonneg (ranges : list (Z * Z)) : Prop := Forall (fun rg => 0 <= rg.1) ranges.

(** The bitmap of a list of ranges is membership in them. *)
Lemma bitmap_of_ranges_spec ranges x : ranges_nonneg ranges -> ascii x ->
  bitmap_test (bitmap_of_ranges ranges) x = in_ranges x ranges.
Proof.
  intros Hr Hx. unfold bitmap_of_ranges.
  enough (forall bm, bitmap_test (foldl bitmap_add_range bm ranges) x
                     = in_ranges x ranges || bitmap_test bm x) as H.
  { by rewrite H, bitmap_zero_spec, orb_false_r. }
  induction Hr as [|[lo hi] ranges Hlo _ IH]; intros bm; [done|].
  cbn [foldl]. rewrite IH, bitmap_add_range_spec by done. cbn [in_ranges existsb].
  fold (in_ranges x ranges). by destruct (in_range _ _), (in_ranges _ _).
Qed.

Lemma in_ranges_app r l1 l2 : in_ranges r (l1 ++ l2) = in_ranges r l1 || in_ranges r l2.
Proof. apply existsb_app. Qed.

Lemma in_ranges_cons r rg l : in_ranges r (rg :: l) = in_range r rg || in_ranges r l.
Proof. done. Qed.

Lemma in_ranges_snoc r l rg : in_ranges r (l ++ [rg]) = in_ranges r l || in_range r rg.
Proof. rewrite in_ranges_app. f_equal. apply orb_false_r. Qed.

Lemma in_ranges_perm r l1 l2 : l1 ≡ₚ l2 -> in_ranges r l1 = in_ranges r l2.
Proof.
  unfold in_ranges. induction 1 as [|rg l1 l2 _ IH|a b l|]; cbn [existsb];
    [done|by rewrite IH| |congruence].
  rewrite !orb_assoc. f_equal. apply orb_comm.
Qed.

Lemma in_ranges_spec r l : in_ranges r l = true <-> exists rg, rg ∈ l /\ rg.1 <= r <= rg.2.
Proof.
  unfold in_ranges, in_range. rewrite existsb_exists. setoid_rewrite list_elem_of_In.
  setoid_rewrite andb_true_iff. split; intros (rg & Hin & ?); exists rg; (split; [exact Hin|lia]).
Qed.
