(* ===== verification/RuneClass.v ===== *)
(** Character classes: [struct RuneClass] of [include/trieste/regex_engine.h].

    A class is a list of closed ranges with a 128-bit bitmap for the ASCII
    part.  [finalize] sorts and merges the ranges, [contains] searches them,
    [complement] inverts them over the Unicode scalar values. *)

From S2P Require Import Prelude AsciiBitmap.

Definition is_ascii (r : Z) : bool := r <? 128.

Record RuneClass := mkRuneClass {
  ranges : list (Z * Z);
  ascii_bitmap : AsciiBitmap;
}.

Definition empty_class : RuneClass := mkRuneClass [] bitmap_zero.

(** * Operations *)

(** [std::upper_bound] over the first components: halve [len] elements from
    [first] on; the number of elements is enough fuel. *)
Fixpoint upper_bound (fuel : nat) (rs : list (Z * Z)) (first len : nat) (r : Z) : nat :=
  match fuel with
  | O => first
  | S fuel =>
      if (len =? 0)%nat then first
      else
        let half := (len / 2)%nat in
        match rs !! (first + half)%nat with
        | None => first
        | Some range =>
            if r <? range.1 then upper_bound fuel rs first half r
            else upper_bound fuel rs (first + half + 1) (len - half - 1) r
        end
  end.

Definition contains (rc : RuneClass) (r : Z) : bool :=
  if is_ascii r then bitmap_test (ascii_bitmap rc) r
  else
    match upper_bound (length (ranges rc)) (ranges rc) 0 (length (ranges rc)) r with
    | O => false
    | S it =>
        match ranges rc !! it with
        | Some range => (range.1 <=? r) && (r <=? range.2)
        | None => false
        end
    end.

Definition add_range (rc : RuneClass) (lo hi : Z) : RuneClass :=
  mkRuneClass (ranges rc ++ [(lo, hi)]) (ascii_bitmap rc).

Definition merge (rc other : RuneClass) : RuneClass :=
  mkRuneClass (ranges rc ++ ranges other) (ascii_bitmap rc).

Definition rebuild_ascii_bitmap (rc : RuneClass) : RuneClass :=
  mkRuneClass (ranges rc) (foldl bitmap_add_range bitmap_zero (ranges rc)).

(** [std::pair]'s lexicographic order, for [std::sort]. *)
Definition pair_leb (a b : Z * Z) : bool :=
  (a.1 <? b.1) || ((a.1 =? b.1) && (a.2 <=? b.2)).

Definition pair_le (a b : Z * Z) : Prop := pair_leb a b = true.

#[export] Instance pair_le_dec : RelDecision pair_le.
Proof. intros a b. unfold pair_le. apply _. Defined.

(** The merging loop: [back] is [merged.back()]. *)
Fixpoint merge_ranges (back : Z * Z) (rs : list (Z * Z)) : list (Z * Z) :=
  match rs with
  | [] => [back]
  | range :: rs =>
      if range.1 <=? u32 (back.2 + 1)
      then merge_ranges (back.1, Z.max back.2 range.2) rs
      else back :: merge_ranges range rs
  end.

Definition sort_and_merge (rs : list (Z * Z)) : list (Z * Z) :=
  match merge_sort pair_le rs with
  | [] => []
  | range :: rs => merge_ranges range rs
  end.

Definition finalize (rc : RuneClass) : RuneClass :=
  if (length (ranges rc) <=? 1)%nat then rebuild_ascii_bitmap rc
  else rebuild_ascii_bitmap (mkRuneClass (sort_and_merge (ranges rc)) (ascii_bitmap rc)).

Definition add_gap_excluding_surrogates (gap_lo gap_hi : Z) (out : list (Z * Z)) :
    list (Z * Z) :=
  if gap_lo <? 0xD800 then
    if gap_hi <? 0xD800 then out ++ [(gap_lo, gap_hi)]
    else
      let out := out ++ [(gap_lo, 0xD7FF)] in
      if 0xDFFF <? gap_hi then out ++ [(0xE000, gap_hi)] else out
  else if gap_lo <? 0xE000 then out ++ [(0xE000, gap_hi)]
  else out ++ [(gap_lo, gap_hi)].

(** The loop of [complement]: the gap before each range, then the last one. *)
Fixpoint complement_loop (prev : Z) (rs out : list (Z * Z)) : list (Z * Z) :=
  match rs with
  | [] => if prev <=? 0x10FFFF then add_gap_excluding_surrogates prev 0x10FFFF out else out
  | (lo, hi) :: rs =>
      let out := if prev <? lo
                 then add_gap_excluding_surrogates prev (u32 (lo - 1)) out else out in
      complement_loop (u32 (hi + 1)) rs out
  end.

Definition complement (rc : RuneClass) : RuneClass :=
  rebuild_ascii_bitmap (mkRuneClass (complement_loop 0 (ranges rc) []) bitmap_zero).

Definition dot : RuneClass :=
  rebuild_ascii_bitmap (mkRuneClass [(0, 0xD7FF); (0xE000, 0x10FFFF)] bitmap_zero).

(** * Well-formed classes *)

(** The largest value [utf8_to_rune] returns is below this bound; it keeps
    [hi + 1] inside 32 bits. *)
Definition rune_bound : Z := 2 ^ 21.

Definition bounded (rs : list (Z * Z)) : Prop :=
  Forall (fun rg => 0 <= rg.1 < rune_bound /\ 0 <= rg.2 < rune_bound) rs.

(** What [contains] relies on: a range ends before the next ones start. *)
Definition separated (rs : list (Z * Z)) : Prop :=
  StronglySorted (fun a b => a.2 < b.1 /\ a.1 <= b.1) rs.

(** What [finalize] establishes: a rune lies between two consecutive ranges. *)
Definition spread (rs : list (Z * Z)) : Prop :=
  StronglySorted (fun a b => a.2 + 1 < b.1 /\ a.1 <= b.1) rs.

Definition proper (rs : list (Z * Z)) : Prop := Forall (fun rg => rg.1 <= rg.2) rs.

Definition scalar (r : Z) : Prop := 0 <= r <= 0x10FFFF /\ ~ (0xD800 <= r <= 0xDFFF).

(** The bitmap agrees with the ranges. *)
Definition bitmap_ok (rc : RuneClass) : Prop :=
  forall r, ascii r -> bitmap_test (ascii_bitmap rc) r = in_ranges r (ranges rc).

(** A class ready for matching. *)
Record class_ok (rc : RuneClass) : Prop := {
  ok_separated : separated (ranges rc);
  ok_bounded : bounded (ranges rc);
  ok_bitmap : bitmap_ok rc;
}.

(** * Binary search *)

Lemma upper_bound_spec rs r fuel first len :
  separated rs -> (len <= fuel)%nat -> (first + len <= length rs)%nat ->
  (forall i rg, rs !! i = Some rg -> (i < first)%nat -> rg.1 <= r) ->
  (forall i rg, rs !! i = Some rg -> (first + len <= i)%nat -> r < rg.1) ->
  let k := upper_bound fuel rs first len r in
  (k <= length rs)%nat /\ forall i rg, rs !! i = Some rg -> (i < k)%nat <-> rg.1 <= r.
Proof.
  intros Hsep. revert first len.
  induction fuel as [|fuel IH]; intros first len Hf Hlen Hlo Hhi; cbn [upper_bound].
  - split; [lia|]. intros i rg Hi. specialize (Hlo i rg Hi). specialize (Hhi i rg Hi). lia.
  - destruct (Nat.eqb_spec len 0) as [->|Hn].
    { split; [lia|]. intros i rg Hi. specialize (Hlo i rg Hi). specialize (Hhi i rg Hi). lia. }
    assert (len / 2 < len)%nat as Hhalf by (apply Nat.div_lt; lia).
    destruct (rs !! (first + len / 2)%nat) as [range|] eqn:Hmid;
      [|apply lookup_ge_None in Hmid; lia].
    destruct (Z.ltb_spec r range.1) as [Hr|Hr]; apply IH; try lia; intros i rg Hi Hij.
    + by apply (Hlo i).
    + destruct (Nat.eq_dec i (first + len / 2)%nat) as [->|]; [rewrite Hmid in Hi; injection Hi as <-; lia|].
      enough (range.1 <= rg.1) by lia.
      eapply (strongly_sorted_lookup _ _ (first + len / 2)%nat i range rg Hsep); (done || lia).
    + destruct (Nat.eq_dec i (first + len / 2)%nat) as [->|]; [rewrite Hmid in Hi; injection Hi as <-; lia|].
      destruct (Nat.lt_ge_cases i first); [by apply (Hlo i)|].
      enough (rg.1 <= range.1) by lia.
      eapply (strongly_sorted_lookup _ _ i (first + len / 2)%nat rg range Hsep); (done || lia).
    + apply (Hhi i); [done|lia].
Qed.

(** [contains] is membership in the ranges. *)
Lemma contains_spec rc r : class_ok rc -> 0 <= r -> contains rc r = in_ranges r (ranges rc).
Proof.
  intros [Hsep _ Hbm] Hr. unfold contains, is_ascii.
  destruct (Z.ltb_spec r 128); [by apply Hbm; unfold ascii; lia|].
  set (rs := ranges rc) in *.
  destruct (upper_bound_spec rs r (length rs) 0 (length rs)) as [Hk Hub]; try lia; [done| |].
  { intros i rg Hi Hge. apply lookup_lt_Some in Hi. lia. }
  set (k := upper_bound _ _ _ _ _) in *. apply eq_true_iff_eq. rewrite in_ranges_spec.
  destruct k as [|it]; [split; [done|]|].
  - intros (rg & (i & Hi)%list_elem_of_lookup & Hin). apply Hub in Hi. lia.
  - destruct (lookup_lt_is_Some_2 rs it) as [range Hrange]; [lia|]. rewrite Hrange. split.
    + intros. exists range. split; [by eapply list_elem_of_lookup_2|lia].
    + intros (rg & (i & Hi)%list_elem_of_lookup & Hin).
      destruct (Nat.lt_trichotomy i it) as [Hlt|[->|Hgt]].
      * destruct (strongly_sorted_lookup _ _ i it rg range Hsep) as [Hs _]; try done.
        pose proof (proj1 (Hub it range Hrange)). lia.
      * rewrite Hrange in Hi. injection Hi as <-. lia.
      * pose proof (proj2 (Hub i rg Hi)). lia.
Qed.

(** * Sorting and merging *)

#[export] Instance pair_le_total : Total pair_le.
Proof. intros a b. unfold pair_le, pair_leb. lia. Qed.

#[export] Instance pair_le_trans : Transitive pair_le.
Proof. intros a b c. unfold pair_le, pair_leb. lia. Qed.

(** What the loop needs of the ranges it is given. *)
Definition sorted_from (lo : Z) (rs : list (Z * Z)) : Prop :=
  StronglySorted (fun a b => a.1 <= b.1) rs /\ Forall (fun rg => lo <= rg.1) rs.

Lemma sorted_from_cons lo rg rs :
  sorted_from lo (rg :: rs) <-> lo <= rg.1 /\ sorted_from rg.1 rs.
Proof.
  unfold sorted_from. rewrite Forall_cons. split.
  - intros [H1 [H2 H3]]. apply StronglySorted_inv in H1 as [??]. done || by destruct H2.
  - intros (H1 & H2 & H3). split_and!; [by constructor|done|].
    eapply Forall_impl; [exact H3|]. simpl. lia.
Qed.

Lemma next_rune hi : 0 <= hi < rune_bound -> u32 (hi + 1) = hi + 1.
Proof. unfold rune_bound. intros. apply u32_id. lia. Qed.

Lemma merge_ranges_spec back rs :
  bounded (back :: rs) -> sorted_from back.1 rs ->
  bounded (merge_ranges back rs)
  /\ Forall (fun rg => back.1 <= rg.1) (merge_ranges back rs)
  /\ spread (merge_ranges back rs)
  /\ (forall r, in_ranges r (merge_ranges back rs) = in_ranges r (back :: rs)).
Proof.
  unfold bounded, spread. revert back.
  induction rs as [|range rs IH]; intros back Hb Hs; cbn [merge_ranges].
  { split_and!; [done|by repeat constructor|by repeat constructor|done]. }
  rewrite !Forall_cons in Hb. destruct Hb as (Hb1 & Hb2 & Hb3).
  apply sorted_from_cons in Hs as [Hle Hs]. rewrite next_rune by lia.
  destruct (Z.leb_spec range.1 (back.2 + 1)).
  - destruct (IH (back.1, back.2 `max` range.2)) as (I1 & I2 & I3 & I4).
    { rewrite Forall_cons. simpl. split; [lia|done]. }
    { simpl. destruct Hs as [Hs1 Hs2]. split; [done|].
      eapply Forall_impl; [exact Hs2|]. simpl. lia. }
    split_and!; [done..|]. intros r. rewrite I4. unfold in_ranges, in_range.
    cbn [existsb fst snd]. rewrite orb_assoc. f_equal. lia.
  - destruct (IH range) as (I1 & I2 & I3 & I4); [by rewrite Forall_cons|done|].
    split_and!.
    + by rewrite Forall_cons.
    + rewrite Forall_cons. split; [lia|]. eapply Forall_impl; [exact I2|]. simpl. lia.
    + constructor; [done|]. eapply Forall_impl; [exact I2|]. simpl. lia.
    + intros r. unfold in_ranges in *. cbn [existsb]. by rewrite I4.
Qed.

Lemma sort_and_merge_spec rs :
  bounded rs ->
  bounded (sort_and_merge rs) /\ spread (sort_and_merge rs)
  /\ (forall r, in_ranges r (sort_and_merge rs) = in_ranges r rs).
Proof.
  intros Hb. unfold sort_and_merge.
  pose proof (merge_sort_Permutation pair_le rs) as Hp.
  pose proof (StronglySorted_merge_sort pair_le rs) as Hs.
  assert (bounded (merge_sort pair_le rs)) as Hb' by (unfold bounded; by rewrite Hp).
  setoid_rewrite <-(fun r => in_ranges_perm r _ _ Hp).
  destruct (merge_sort pair_le rs) as [|range l]; [split_and!; constructor || done|].
  apply StronglySorted_inv in Hs as [Hs1 Hs2].
  destruct (merge_ranges_spec range l Hb') as (? & _ & ? & ?); [|done].
  split.
  - eapply strongly_sorted_impl; [|exact Hs1]. unfold pair_le, pair_leb. lia.
  - eapply Forall_impl; [exact Hs2|]. unfold pair_le, pair_leb. simpl. lia.
Qed.

Lemma merge_ranges_proper back rs : proper (back :: rs) -> proper (merge_ranges back rs).
Proof.
  unfold proper. revert back. induction rs as [|range rs IH]; intros back H; [done|].
  rewrite !Forall_cons in H. cbn. case_match; [apply IH|rewrite Forall_cons; split; [lia|apply IH]];
    rewrite Forall_cons; simpl; (split; [lia|apply H]).
Qed.

Lemma sort_and_merge_proper rs : proper rs -> proper (sort_and_merge rs).
Proof.
  intros H. unfold sort_and_merge. pose proof (merge_sort_Permutation pair_le rs) as Hp.
  assert (proper (merge_sort pair_le rs)) as Hp' by (unfold proper; by rewrite Hp).
  destruct (merge_sort pair_le rs); [done|]. by apply merge_ranges_proper.
Qed.

Lemma spread_separated rs : spread rs -> separated rs.
Proof. apply strongly_sorted_impl. lia. Qed.

(** * [finalize] *)

Lemma bounded_nonneg rs : bounded rs -> ranges_nonneg rs.
Proof. intros H. eapply Forall_impl; [exact H|]. simpl. lia. Qed.

Lemma rebuild_bitmap_ok rc :
  ranges_nonneg (ranges rc) -> bitmap_ok (rebuild_ascii_bitmap rc).
Proof. intros H r Hr. by apply bitmap_of_ranges_spec. Qed.

Lemma finalize_ranges rc :
  bounded (ranges rc) ->
  bounded (ranges (finalize rc)) /\ spread (ranges (finalize rc))
  /\ (forall r, in_ranges r (ranges (finalize rc)) = in_ranges r (ranges rc)).
Proof.
  intros Hb. unfold finalize. case_match.
  - split_and!; [done| |done]. cbn. destruct (ranges rc) as [|? [|? ?]]; cbn in *; try lia;
      repeat constructor.
  - by apply sort_and_merge_spec.
Qed.

Lemma finalize_ok rc : bounded (ranges rc) -> class_ok (finalize rc).
Proof.
  intros Hb. destruct (finalize_ranges rc Hb) as (H1 & H2 & _).
  split; [by apply spread_separated|done|].
  unfold finalize in *. case_match; apply rebuild_bitmap_ok, bounded_nonneg; done.
Qed.

Lemma finalize_proper rc : proper (ranges rc) -> proper (ranges (finalize rc)).
Proof. intros H. unfold finalize. case_match; [done|]. by apply sort_and_merge_proper. Qed.

(** The upper ends stay below any common bound. *)
Lemma merge_ranges_upper m back rs :
  Forall (fun rg => rg.2 <= m) (back :: rs) -> Forall (fun rg => rg.2 <= m) (merge_ranges back rs).
Proof.
  revert back. induction rs as [|range rs IH]; intros back H; [done|].
  rewrite !Forall_cons in H. cbn. case_match; [apply IH|rewrite Forall_cons; split; [lia|apply IH]];
    rewrite Forall_cons; simpl; (split; [lia|apply H]).
Qed.

Lemma finalize_unicode rc :
  Forall (fun rg => rg.2 <= 0x10FFFF) (ranges rc) ->
  Forall (fun rg => rg.2 <= 0x10FFFF) (ranges (finalize rc)).
Proof.
  intros H. unfold finalize. case_match; [done|]. cbn [ranges rebuild_ascii_bitmap].
  unfold sort_and_merge. pose proof (merge_sort_Permutation pair_le (ranges rc)) as Hp.
  rewrite <-Hp in H. destruct (merge_sort pair_le (ranges rc)); [done|].
  by apply merge_ranges_upper.
Qed.

(** A spread list is already sorted and merged. *)
Lemma merge_ranges_spread back rs :
  bounded (back :: rs) -> spread (back :: rs) -> merge_ranges back rs = back :: rs.
Proof.
  revert back. induction rs as [|range rs IH]; intros back Hb Hs; [done|]. cbn.
  unfold bounded, spread in *. rewrite Forall_cons in Hb.
  destruct Hb as [Hb1 Hb2].
  apply StronglySorted_inv in Hs as [Hs1 Hs2]. rewrite Forall_cons in Hs2.
  rewrite next_rune by lia. rewrite (proj2 (Z.leb_gt _ _)) by lia.
  by rewrite IH.
Qed.

Lemma spread_sorted rs : proper rs -> spread rs -> StronglySorted pair_le rs.
Proof.
  unfold proper. intros Hp Hs. induction Hs as [|rg rs _ IH Hrg]; [constructor|].
  rewrite Forall_cons in Hp. destruct Hp as [Hp Hps]. constructor; [auto|].
  rewrite Forall_forall in *. intros x Hx. specialize (Hrg x Hx).
  unfold pair_le, pair_leb. lia.
Qed.

#[export] Instance pair_le_antisymm : AntiSymm (=) pair_le.
Proof. intros [a b] [c d]. unfold pair_le, pair_leb. cbn. intros. f_equal; lia. Qed.

Lemma sort_and_merge_spread rs :
  bounded rs -> proper rs -> spread rs -> sort_and_merge rs = rs.
Proof.
  intros Hb Hp Hs. unfold sort_and_merge.
  replace (merge_sort pair_le rs) with rs.
  - destruct rs; [done|]. by apply merge_ranges_spread.
  - apply (StronglySorted_unique pair_le);
      [by apply spread_sorted|apply (StronglySorted_merge_sort pair_le)|].
    symmetry. apply merge_sort_Permutation.
Qed.

(** * [complement] *)

(** Splits on the comparisons of [add_gap_excluding_surrogates]. *)
Ltac gap_cases :=
  unfold add_gap_excluding_surrogates;
  repeat match goal with
  | |- context [?a <? ?b] => destruct (Z.ltb_spec a b)
  end.

(** A scalar value of the gap is in one of the ranges pushed for it, and nothing
    else is. *)
Lemma add_gap_spec lo hi out r :
  0 <= lo -> lo <= hi ->
  in_ranges r (add_gap_excluding_surrogates lo hi out) = true
    <-> in_ranges r out = true \/ (lo <= r <= hi /\ ~ (0xD800 <= r <= 0xDFFF)).
Proof.
  intros. gap_cases; rewrite ?in_ranges_snoc; unfold in_range; cbn [fst snd];
    destruct (in_ranges r out); lia.
Qed.

Lemma add_gap_bounded lo hi out :
  0 <= lo -> lo <= hi < rune_bound -> bounded out ->
  bounded (add_gap_excluding_surrogates lo hi out).
Proof.
  intros. unfold bounded, rune_bound in *.
  gap_cases; rewrite ?Forall_app, ?Forall_singleton; cbn [fst snd]; split_and?; (done || lia).
Qed.

(** Everything pushed so far ends before [prev] and starts no later, except for
    the ranges from U+E000 pushed for a gap among the surrogates. *)
Definition ends_before (prev : Z) (out : list (Z * Z)) : Prop :=
  Forall (fun rg => rg.2 < prev /\ (rg.1 <= prev \/ (rg.1 = 0xE000 /\ 0xD800 <= prev))) out.

Lemma ends_before_mono p q out : p <= q -> ends_before p out -> ends_before q out.
Proof. intros Hpq H. eapply Forall_impl; [exact H|]. simpl. lia. Qed.

Lemma separated_snoc out rg :
  separated out -> Forall (fun a => a.2 < rg.1 /\ a.1 <= rg.1) out -> separated (out ++ [rg]).
Proof.
  unfold separated. intros H1 H2. induction H1 as [|a out _ IH Ha]; [repeat constructor|].
  rewrite Forall_cons in H2. destruct H2 as [H2 H3]. cbn. constructor; [by apply IH|].
  rewrite Forall_app, Forall_singleton. done.
Qed.

Lemma add_gap_separated prev hi out :
  0 <= prev -> prev <= hi -> separated out -> ends_before prev out ->
  separated (add_gap_excluding_surrogates prev hi out)
  /\ ends_before (hi + 1) (add_gap_excluding_surrogates prev hi out).
Proof.
  intros Hp Hh Hs Hb.
  assert (ends_before (hi + 1) out) as Hb' by (eapply ends_before_mono; [|done]; lia).
  assert (forall lo hi, prev <= lo -> (prev < 0xE000 \/ lo = prev) ->
      (0xE000 <= lo \/ prev < 0xD800) -> separated (out ++ [(lo, hi)])) as Hout.
  { intros lo hi' ???. apply separated_snoc; [done|].
    eapply Forall_impl; [exact Hb|]. simpl. lia. }
  unfold ends_before in *.
  gap_cases; rewrite ?Forall_app, ?Forall_singleton; cbn [fst snd];
    (split; [|split_and?; (done || lia)]); try (apply Hout; lia).
  apply separated_snoc; [apply Hout; lia|]. rewrite Forall_app, Forall_singleton.
  cbn [fst snd]. split; [|lia]. eapply Forall_impl; [exact Hb|]. simpl. lia.
Qed.

(** The loop invariant of [complement]. *)
Lemma complement_loop_spec prev rs out :
  0 <= prev -> Forall (fun rg => prev <= rg.1) rs -> bounded rs -> proper rs -> spread rs ->
  bounded out -> separated out -> ends_before prev out ->
  let res := complement_loop prev rs out in
  bounded res /\ separated res
  /\ (Forall (fun rg => rg.2 <= 0x10FFFF) rs -> forall r, in_ranges r res = true <->
       in_ranges r out = true \/ (prev <= r /\ scalar r /\ in_ranges r rs = false)).
Proof.
  unfold proper, spread, scalar. revert prev out.
  induction rs as [|[lo hi] rs IH]; intros prev out Hprev Hge Hmax Hp Hs Hbd Hsep Hend;
    cbn [complement_loop].
  { destruct (Z.leb_spec prev 0x10FFFF).
    - destruct (add_gap_separated prev 0x10FFFF out) as [? ?]; try done.
      split_and!; [by apply add_gap_bounded; unfold rune_bound|done|]. intros _ r. rewrite add_gap_spec by lia.
      cbn. intuition lia.
    - split_and!; [done..|]. intros _ r. intuition lia. }
  unfold bounded in Hmax. rewrite Forall_cons in Hge, Hmax, Hp. cbn [fst snd] in *.
  destruct Hge as [Hge1 Hge2], Hmax as [Hmax1 Hmax2], Hp as [Hp1 Hp2].
  apply StronglySorted_inv in Hs as [Hs1 Hs2]. rewrite (next_rune hi) by lia.
  assert (Forall (fun rg => hi + 1 <= rg.1) rs) as Hge'.
  { eapply Forall_impl; [exact Hs2|]. simpl. lia. }
  assert (forall r, in_ranges r rs = true -> hi + 1 < r) as Hlate.
  { intros r (rg & Hin & Hr)%in_ranges_spec. rewrite Forall_forall in Hs2.
    specialize (Hs2 rg Hin). cbn in Hs2. lia. }
  assert (forall r, in_ranges r ((lo, hi) :: rs) = false
                    <-> ~ (lo <= r <= hi) /\ in_ranges r rs = false) as Hcons.
  { intros r. rewrite in_ranges_cons. unfold in_range. cbn [fst snd].
    destruct (in_ranges r rs); lia. }
  setoid_rewrite Hcons. setoid_rewrite Forall_cons. cbn [snd].
  destruct (Z.ltb_spec prev lo).
  - rewrite (u32_id (lo - 1)) by (unfold rune_bound in *; lia).
    destruct (add_gap_separated prev (lo - 1) out) as [H1 H2]; [lia..|done|done|].
    destruct (IH (hi + 1) (add_gap_excluding_surrogates prev (lo - 1) out))
      as (I1 & I2 & I3); try done; [lia|by apply add_gap_bounded; try lia|
      by eapply ends_before_mono; [|exact H2]; lia|].
    split_and!; [done..|]. intros [? ?] r. rewrite I3, add_gap_spec by (done || lia).
    specialize (Hlate r). destruct (in_ranges r rs); intuition lia.
  - destruct (IH (hi + 1) out) as (I1 & I2 & I3); try done;
      [lia|by eapply ends_before_mono; [|exact Hend]; lia|].
    split_and!; [done..|]. intros [? ?] r. rewrite I3 by done.
    specialize (Hlate r). destruct (in_ranges r rs); intuition lia.
Qed.

Lemma complement_ok rc :
  bounded (ranges rc) -> proper (ranges rc) -> spread (ranges rc) ->
  class_ok (complement rc)
  /\ (Forall (fun rg => rg.2 <= 0x10FFFF) (ranges rc) ->
      forall r, in_ranges r (ranges (complement rc)) = true
        <-> 0 <= r /\ scalar r /\ in_ranges r (ranges rc) = false).
Proof.
  intros Hb Hp Hs.
  destruct (complement_loop_spec 0 (ranges rc) []) as (H1 & H2 & H3); try done;
    [|by constructor..|].
  { eapply Forall_impl; [exact Hb|]. simpl. lia. }
  split; [split; [done|done|]|].
  - apply rebuild_bitmap_ok. by apply bounded_nonneg.
  - intros Hu r. cbn [ranges complement rebuild_ascii_bitmap]. rewrite (H3 Hu).
    cbn. intuition done.
Qed.

Lemma dot_ok : class_ok dot.
Proof.
  split.
  - repeat constructor; cbn; lia.
  - repeat constructor; cbn; unfold rune_bound; lia.
  - apply rebuild_bitmap_ok. repeat constructor; cbn; lia.
Qed.

Lemma dot_spec r : in_ranges r (ranges dot) = true <-> scalar r.
Proof. unfold scalar. cbn. unfold in_range. cbn. lia. Qed.

(** * Properties *)

(** After [finalize], whatever was added with [add_range] and [merge],
    [contains] (the ASCII bitmap and the binary search) is membership in the
    ranges that were added; the ranges are sorted and no two of them overlap or
    touch; finalizing again changes nothing. *)
Theorem finalize_correct (rc : RuneClass) (r : Z)
    (Hb : bounded (ranges rc)) (Hp : proper (ranges rc)) (Hr : 0 <= r) :
  contains (finalize rc) r = in_ranges r (ranges rc)
  /\ spread (ranges (finalize rc))
  /\ finalize (finalize rc) = finalize rc.
Proof.
  destruct (finalize_ranges rc Hb) as (H1 & H2 & H3).
  split_and!; [|done|].
  - rewrite contains_spec by (done || by apply finalize_ok). apply H3.
  - pose proof (finalize_proper rc Hp) as Hp'.
    unfold finalize at 1. rewrite sort_and_merge_spread by done.
    unfold finalize. by repeat case_match.
Qed.

Lemma finalize_correct_witness :
  contains (finalize (mkRuneClass [(0x4E00, 0x9FFF); (97, 122); (48, 57); (90, 100)] bitmap_zero))
    0x5000 = true.
Proof.
  apply (finalize_correct
    (mkRuneClass [(0x4E00, 0x9FFF); (97, 122); (48, 57); (90, 100)] bitmap_zero) 0x5000);
    [repeat constructor; cbn; unfold rune_bound; lia|repeat constructor; cbn; lia|lia].
Defined.

(** The complement of a finalized class over the code points contains a rune
    exactly when it is a Unicode scalar value (no surrogate, at most U+10FFFF)
    that the class does not contain. *)
Theorem complement_correct (rc : RuneClass) (r : Z)
    (Hb : bounded (ranges rc)) (Hp : proper (ranges rc))
    (Hu : Forall (fun rg => rg.2 <= 0x10FFFF) (ranges rc)) (Hr : 0 <= r) :
  contains (complement (finalize rc)) r = true
    <-> scalar r /\ contains (finalize rc) r = false.
Proof.
  destruct (finalize_ranges rc Hb) as (H1 & H2 & H3).
  destruct (complement_ok (finalize rc) H1 (finalize_proper rc Hp) H2) as [Hok Hin].
  rewrite !contains_spec by (done || by apply finalize_ok).
  rewrite Hin by by apply finalize_unicode. tauto.
Qed.

Lemma complement_correct_witness :
  contains (complement (finalize (mkRuneClass [(97, 122); (0xD7F0, 0xE010)] bitmap_zero))) 0xE011
    = true.
Proof.
  apply (complement_correct (mkRuneClass [(97, 122); (0xD7F0, 0xE010)] bitmap_zero) 0xE011);
    [repeat constructor; cbn; unfold rune_bound; lia|repeat constructor; cbn; lia
    |repeat constructor; cbn; lia|lia|].
  split; [unfold scalar; lia|vm_compute; reflexivity].
Defined.
