(* ===== verification/Categories.v ===== *)
(** The Unicode category tables checked against the rune classes built from
    them: every table is in the form [finalize] leaves alone, a one-letter
    category is the union of its two-letter ones, and the two-letter ones
    exclude each other. *)

From S2P Require Import Prelude AsciiBitmap UnicodeData RuneClass.

(** * Checking a table *)

(** Sorted, proper, apart from each other and below U+110000. *)
Fixpoint canonical_from (prev : Z) (rs : list (Z * Z)) : bool :=
  match rs with
  | [] => true
  | (lo, hi) :: rs =>
      (prev <? lo) && (lo <=? hi) && (hi <=? 0x10FFFF) && canonical_from (hi + 1) rs
  end.

Definition canonical (rs : list (Z * Z)) : bool := canonical_from (-1) rs.

Lemma canonical_from_spec prev rs :
  canonical_from prev rs = true ->
  proper rs /\ spread rs /\ Forall (fun rg => prev < rg.1 /\ rg.2 <= 0x10FFFF) rs.
Proof.
  unfold proper, spread. revert prev.
  induction rs as [|[lo hi] rs IH]; intros prev H; cbn in H.
  { split_and!; constructor. }
  rewrite !andb_true_iff in H. destruct H as [[[H1 H2] H3] H4].
  destruct (IH _ H4) as (P & S & F). rewrite !Forall_cons. cbn [fst snd]. split_and!;
    [lia|done| |lia|lia|].
  - constructor; [done|]. rewrite Forall_forall in *. intros x Hx. specialize (F x Hx).
    cbn in *. lia.
  - eapply Forall_impl; [exact F|]. simpl. lia.
Qed.

Lemma canonical_spec rs :
  canonical rs = true ->
  proper rs /\ spread rs /\ bounded rs /\ Forall (fun rg => rg.2 <= 0x10FFFF) rs.
Proof.
  intros (P & S & F)%canonical_from_spec. split_and!; [done..| |].
  - unfold bounded, proper, rune_bound in *. rewrite Forall_forall in *.
    intros x Hx. specialize (P x Hx). specialize (F x Hx). simpl in *. lia.
  - eapply Forall_impl; [exact F|]. simpl. lia.
Qed.

(** Without the gap between neighbours. *)
Fixpoint disjoint_from (prev : Z) (rs : list (Z * Z)) : bool :=
  match rs with
  | [] => true
  | (lo, hi) :: rs => (prev <? lo) && (lo <=? hi) && disjoint_from hi rs
  end.

(** How many ranges contain a rune. *)
Fixpoint hits (r : Z) (rs : list (Z * Z)) : nat :=
  match rs with
  | [] => 0
  | rg :: rs => (if in_range r rg then 1 else 0) + hits r rs
  end.

Lemma hits_app r l1 l2 : hits r (l1 ++ l2) = (hits r l1 + hits r l2)%nat.
Proof. induction l1 as [|rg l1 IH]; cbn; [done|]. rewrite IH. lia. Qed.

Lemma hits_perm r l1 l2 : l1 ≡ₚ l2 -> hits r l1 = hits r l2.
Proof. induction 1; cbn; lia. Qed.

Lemma hits_in r rs : in_ranges r rs = true -> (1 <= hits r rs)%nat.
Proof.
  induction rs as [|rg rs IH]; [done|]. rewrite in_ranges_cons. cbn.
  destruct (in_range r rg); cbn; [lia|]. intros H. specialize (IH H). lia.
Qed.

Lemma hits_disjoint r prev rs : disjoint_from prev rs = true ->
  (hits r rs <= 1)%nat /\ (r <= prev -> hits r rs = 0%nat).
Proof.
  revert prev. induction rs as [|[lo hi] rs IH]; intros prev H; cbn in *; [lia|].
  rewrite !andb_true_iff in H. destruct H as [[H1 H2] H3]. destruct (IH _ H3) as [I1 I2].
  unfold in_range. cbn. destruct ((lo <=? r) && (r <=? hi)) eqn:E; [|lia]. rewrite I2; lia.
Qed.

(** * All tables *)

Definition is_leaf (name : list Z) : bool := (length name =? 2)%nat.

Definition leaves : list (list Z * list (Z * Z)) :=
  filter (fun c => is_leaf c.1 = true) categories.

(** The two-letter tables of a one-letter category. *)
Definition leaves_of (name : list Z) : list (list (Z * Z)) :=
  snd <$> filter (fun c => list_eqb (take 1 c.1) name = true) leaves.

Lemma categories_checked : forallb (fun c => canonical c.2) categories = true.
Proof. vm_compute. reflexivity. Qed.

Lemma categories_canonical name rs : (name, rs) ∈ categories -> canonical rs = true.
Proof.
  intros Hin. pose proof categories_checked as H. rewrite forallb_forall in H.
  apply (H (name, rs)). by apply list_elem_of_In.
Qed.

(** The leaf ranges together, sorted. *)
Definition all_leaf_ranges : list (Z * Z) := concat (snd <$> leaves).

Lemma leaves_checked : disjoint_from (-1) (merge_sort pair_le all_leaf_ranges) = true.
Proof. vm_compute. reflexivity. Qed.

Lemma all_leaf_hits r : (hits r all_leaf_ranges <= 1)%nat.
Proof.
  rewrite <-(hits_perm r _ _ (merge_sort_Permutation pair_le all_leaf_ranges)).
  by eapply hits_disjoint, leaves_checked.
Qed.

Lemma hits_concat_two r (ls : list (list (Z * Z))) i j a b :
  (i < j)%nat -> ls !! i = Some a -> ls !! j = Some b ->
  in_ranges r a = true -> in_ranges r b = true -> (2 <= hits r (concat ls))%nat.
Proof.
  revert i j. induction ls as [|l ls IH]; intros i j Hij Hi Hj Ha Hb; [done|].
  destruct j as [|j]; [lia|]. cbn in Hj. cbn [concat]. rewrite hits_app.
  destruct i as [|i]; cbn in Hi.
  - injection Hi as ->. apply hits_in in Ha.
    assert (in_ranges r (concat ls) = true) as Hc.
    { apply list_elem_of_lookup_2 in Hj. apply in_ranges_spec in Hb as (rg & Hrg & ?).
      apply in_ranges_spec. exists rg. split; [|done]. apply list_elem_of_In, in_concat.
      exists b. by rewrite <-!list_elem_of_In. }
    apply hits_in in Hc. lia.
  - enough (2 <= hits r (concat ls))%nat by lia. apply (IH i j); (done || lia).
Qed.

(** * Properties *)

(** Looking a category up by its name gives its table with the count and
    bitmap of that table; the table is sorted without overlaps, and the class
    built from it contains exactly the runes of the table, so that the negated
    class contains exactly the other scalar values. *)
Theorem find_category_class (name : list Z) (rs : list (Z * Z)) (r : Z)
    (Hin : (name, rs) ∈ categories) (Hr : 0 <= r) :
  exists info, find_category name = Some info
    /\ cat_ranges info = rs /\ cat_count info = length rs /\ spread rs
    /\ let rc := finalize (mkRuneClass (cat_ranges info) (cat_bitmap info)) in
       contains rc r = in_ranges r rs
       /\ (contains (complement rc) r = true <-> scalar r /\ in_ranges r rs = false).
Proof.
  assert (find_category name = category rs) as Hf.
  { unfold categories in Hin. repeat (apply elem_of_cons in Hin as [[= -> ->]|Hin]; [reflexivity|]).
    by apply elem_of_nil in Hin. }
  destruct (canonical_spec rs (categories_canonical name rs Hin)) as (P & S & B & U).
  exists (mkCategory rs (length rs) (compute_ascii_bitmap rs)). split_and!; try done.
  cbn zeta. cbn [cat_ranges cat_bitmap]. set (rc := mkRuneClass rs (compute_ascii_bitmap rs)).
  destruct (finalize_ranges rc B) as (H1 & H2 & H3).
  split; [rewrite contains_spec by (done || by apply finalize_ok); apply H3|].
  destruct (complement_ok (finalize rc) H1 (finalize_proper rc P) H2) as [Hok Hc].
  rewrite contains_spec by done. rewrite Hc by by apply finalize_unicode.
  rewrite H3. tauto.
Qed.

Lemma find_category_class_witness :
  exists info, find_category (bytes "Nd") = Some info /\ cat_ranges info = cat_Nd.
Proof.
  destruct (find_category_class (bytes "Nd") cat_Nd 48) as (info & H1 & H2 & _);
    [apply list_elem_of_In; vm_compute; tauto|lia|]. by exists info.
Defined.

(** A one-letter category is the sorted and merged union of its two-letter
    categories, and no rune belongs to two two-letter categories. *)
Theorem categories_partition :
  Forall (fun name => find_category name
      = category (sort_and_merge (concat (leaves_of name))))
    [bytes "L"; bytes "M"; bytes "N"; bytes "P"; bytes "S"; bytes "Z"; bytes "C"]
  /\ forall r i j a b, leaves !! i = Some a -> leaves !! j = Some b ->
       in_ranges r a.2 = true -> in_ranges r b.2 = true -> i = j.
Proof.
  split; [repeat constructor; vm_compute; reflexivity|].
  intros r i j a b Hi Hj Ha Hb. pose proof (all_leaf_hits r).
  destruct (Nat.lt_trichotomy i j) as [Hlt|[->|Hlt]]; [|done|].
  - enough (2 <= hits r all_leaf_ranges)%nat by lia.
    apply (hits_concat_two r _ i j a.2 b.2); try done; by rewrite list_lookup_fmap, ?Hi, ?Hj.
  - enough (2 <= hits r all_leaf_ranges)%nat by lia.
    apply (hits_concat_two r _ j i b.2 a.2); try done; by rewrite list_lookup_fmap, ?Hi, ?Hj.
Qed.
