(* ===== verification/RegexSyntax.v ===== *)
(** The vocabulary of [include/trieste/regex_engine.h]: operator sentinels,
    resource limits, error codes, label predicates and rune decoding. *)

From S2P Require Import Prelude Utf8.

(** * Sentinels *)

Definition Backslash : Z := ord "\".
Definition LParen : Z := ord "(".
Definition RParen : Z := ord ")".
Definition Pipe : Z := ord "|".
Definition Question : Z := ord "?".
Definition Asterisk : Z := ord "*".
Definition Plus : Z := ord "+".
Definition Catenation : Z := 0xAFFF00.
Definition Alternation : Z := 0xAFFF01.
Definition ZeroOrOne : Z := 0xAFFF02.
Definition ZeroOrMore : Z := 0xAFFF03.
Definition OneOrMore : Z := 0xAFFF04.
Definition Split : Z := 0xAFFF05.
Definition WordBoundary : Z := 0xAFFF06.
Definition LazyZeroOrOne : Z := 0xAFFF07.
Definition LazyZeroOrMore : Z := 0xAFFF08.
Definition LazyOneOrMore : Z := 0xAFFF09.
Definition StartAnchor : Z := 0xAFFF0A.
Definition EndAnchor : Z := 0xAFFF0B.
Definition Match : Z := 0xAFFFFF.

Definition CaptureOpen : Z := 0xAFFE00.
Definition CaptureClose : Z := 0xAFFD00.
Definition CaptureGroup : Z := 0xAFFC00.
Definition MaxCaptures : Z := 64.

Definition RuneClassBase : Z := 0xBF0000.
Definition RuneClassMax : Z := 0xBFFFFF.

(** * Limits *)

Definition MaxRepetition : Z := 1000.
Definition MaxPostfixSize : Z := 100000.
Definition MaxStates : Z := 100000.
Definition MaxClosureCacheEntries : Z := 1000000.
Definition MaxGroupNesting : Z := 256.
Definition MaxCaptureFrameEntries : Z := 1000000.

(** * Errors *)

Inductive ErrorCode :=
  | NoError
  | ErrorBadEscape
  | ErrorMissingBracket
  | ErrorMissingParen
  | ErrorUnexpectedParen
  | ErrorTrailingBackslash
  | ErrorRepeatSize
  | ErrorRepeatOp
  | ErrorBadCharClass
  | ErrorBadCharRange
  | ErrorPatternTooLarge
  | ErrorNestingTooDeep
  | ErrorTooManyCaptures
  | ErrorStrictSyntax
  | ErrorStrictGroup
  | ErrorInternalError.

#[export] Instance ErrorCode_eq_dec : EqDecision ErrorCode.
Proof. solve_decision. Defined.

Definition error_code_string (code : ErrorCode) : string :=
  match code with
  | NoError => ""
  | ErrorBadEscape => "invalid escape sequence"
  | ErrorMissingBracket => "missing closing ]"
  | ErrorMissingParen => "missing closing )"
  | ErrorUnexpectedParen => "unexpected )"
  | ErrorTrailingBackslash => "trailing backslash"
  | ErrorRepeatSize => "invalid repetition size"
  | ErrorRepeatOp => "invalid nested repetition"
  | ErrorBadCharClass => "invalid character class"
  | ErrorBadCharRange => "invalid character range"
  | ErrorPatternTooLarge => "pattern too large"
  | ErrorNestingTooDeep => "nesting too deep"
  | ErrorTooManyCaptures => "too many capture groups"
  | ErrorStrictSyntax => "syntax not permitted in strict iregexp mode"
  | ErrorStrictGroup => "groups not permitted in strict iregexp mode"
  | ErrorInternalError => "internal error"
  end.

Definition is_no_error (code : ErrorCode) : bool :=
  match code with NoError => true | _ => false end.

Inductive SyntaxMode := Extended | IregexpStrict.

(** * Labels *)

Definition is_class_ref (label : Z) : bool :=
  (RuneClassBase <=? label) && (label <=? RuneClassMax).

Definition class_ref_index (label : Z) : nat := Z.to_nat (label - RuneClassBase).

Definition is_capture_open (label : Z) : bool :=
  (CaptureOpen <=? label) && (label <? CaptureOpen + MaxCaptures).

Definition is_capture_close (label : Z) : bool :=
  (CaptureClose <=? label) && (label <? CaptureClose + MaxCaptures).

Definition capture_index (label : Z) : nat :=
  if is_capture_open label then Z.to_nat (label - CaptureOpen)
  else Z.to_nat (label - CaptureClose).

Definition is_capture_group (label : Z) : bool :=
  (CaptureGroup <=? label) && (label <? CaptureGroup + MaxCaptures).

Definition is_word_char (r : Z) : bool :=
  ((ord "0" <=? r) && (r <=? ord "9")) || ((ord "A" <=? r) && (r <=? ord "Z"))
  || ((ord "a" <=? r) && (r <=? ord "z")) || (r =? ord "_").

(** * Decoding at an offset *)

(** [utf8_to_rune(s.substr(pos), false)]: the value and the bytes consumed.  The
    callers check [pos < s.size()]; past the end nothing is consumed. *)
Definition rune_at (s : list Z) (pos : nat) : Z * nat :=
  match drop pos s with
  | [] => (0, 0%nat)
  | c0 :: rest => utf8_decode c0 rest
  end.

(** [decode_rune], with its fast path for ASCII. *)
Definition decode_rune (s : list Z) (pos : nat) : Z * nat :=
  match drop pos s with
  | [] => (0, 0%nat)
  | byte :: rest => if byte <? 128 then (byte, 1%nat) else utf8_decode byte rest
  end.

(** [pos < s.size() && s[pos] == c] *)
Definition char_is (s : list Z) (pos : nat) (c : Z) : bool :=
  match s !! pos with Some x => x =? c | None => false end.

Lemma rune_at_bounds s pos : (pos < length s)%nat ->
  let '(v, n) := rune_at s pos in
  0 <= v < 2 ^ 21 /\ (1 <= n <= 4)%nat /\ (pos + n <= length s)%nat.
Proof.
  intros Hpos. unfold rune_at. destruct (drop pos s) as [|c0 rest] eqn:E.
  - apply (f_equal length) in E. rewrite length_drop in E. cbn in E. lia.
  - destruct (utf8_decode c0 rest) as [v n] eqn:D. apply utf8_decode_bounds in D.
    apply (f_equal length) in E. rewrite length_drop in E. cbn in E. lia.
Qed.

(** On bytes the fast path is the general one. *)
Lemma decode_rune_at s pos : Forall is_byte s -> decode_rune s pos = rune_at s pos.
Proof.
  intros Hs. unfold decode_rune, rune_at. destruct (drop pos s) as [|c0 rest] eqn:E; [done|].
  assert (is_byte c0) as Hc.
  { apply (Forall_drop _ pos) in Hs. rewrite E, Forall_cons in Hs. apply Hs. }
  case_match; [|done]. rewrite decode_1; [done|]. unfold is_byte in Hc. lia.
Qed.
