(* ===== verification/PostfixBuilder.v ===== *)
(** The regex parser: [struct PostfixBuilder] and [regexp_to_postfix_runes] of
    [include/trieste/regex_engine.h], a shunting-yard translation of a pattern
    into postfix tokens.

    A method that takes [pattern] and [pos] by reference is a function of the
    builder and the position that returns both; its [bool] comes first.  The
    stacks are lists whose head is [back()]; [postfix] is in order. *)

From S2P Require Import Prelude Utf8 AsciiBitmap UnicodeData RuneClass RegexSyntax.

(** * State *)

Record GroupInfo := mkGroup {
  postfix_index : nat;
  group_need_concat : bool;
  group_capturing : bool;
  capture_id : Z;
}.

Record Builder := mkBuilder {
  postfix : list Z;
  rune_classes : list RuneClass;
  num_captures : Z;
  error_code : ErrorCode;
  error_arg : list Z;
  syntax_mode : SyntaxMode;
  operator_stack : list Z;
  need_concat : bool;
  escaped : bool;
  atom_start : nat;
  need_concat_before_atom : bool;
  atom_is_quantified : bool;
  group_start_stack : list GroupInfo;
}.

Definition new_builder (mode : SyntaxMode) : Builder :=
  mkBuilder [] [] 0 NoError [] mode [] false false 0 false false [].

Definition ok (b : Builder) : bool := is_no_error (error_code b).

(** Field updates. *)
Definition set_postfix (b : Builder) (v : list Z) : Builder :=
  mkBuilder v (rune_classes b) (num_captures b) (error_code b) (error_arg b) (syntax_mode b)
    (operator_stack b) (need_concat b) (escaped b) (atom_start b)
    (need_concat_before_atom b) (atom_is_quantified b) (group_start_stack b).
Definition set_rune_classes (b : Builder) (v : list RuneClass) : Builder :=
  mkBuilder (postfix b) v (num_captures b) (error_code b) (error_arg b) (syntax_mode b)
    (operator_stack b) (need_concat b) (escaped b) (atom_start b)
    (need_concat_before_atom b) (atom_is_quantified b) (group_start_stack b).
Definition set_num_captures (b : Builder) (v : Z) : Builder :=
  mkBuilder (postfix b) (rune_classes b) v (error_code b) (error_arg b) (syntax_mode b)
    (operator_stack b) (need_concat b) (escaped b) (atom_start b)
    (need_concat_before_atom b) (atom_is_quantified b) (group_start_stack b).
Definition set_error_code (b : Builder) (v : ErrorCode) : Builder :=
  mkBuilder (postfix b) (rune_classes b) (num_captures b) v (error_arg b) (syntax_mode b)
    (operator_stack b) (need_concat b) (escaped b) (atom_start b)
    (need_concat_before_atom b) (atom_is_quantified b) (group_start_stack b).
Definition set_operator_stack (b : Builder) (v : list Z) : Builder :=
  mkBuilder (postfix b) (rune_classes b) (num_captures b) (error_code b) (error_arg b)
    (syntax_mode b) v (need_concat b) (escaped b) (atom_start b)
    (need_concat_before_atom b) (atom_is_quantified b) (group_start_stack b).
Definition set_need_concat (b : Builder) (v : bool) : Builder :=
  mkBuilder (postfix b) (rune_classes b) (num_captures b) (error_code b) (error_arg b)
    (syntax_mode b) (operator_stack b) v (escaped b) (atom_start b)
    (need_concat_before_atom b) (atom_is_quantified b) (group_start_stack b).
Definition set_escaped (b : Builder) (v : bool) : Builder :=
  mkBuilder (postfix b) (rune_classes b) (num_captures b) (error_code b) (error_arg b)
    (syntax_mode b) (operator_stack b) (need_concat b) v (atom_start b)
    (need_concat_before_atom b) (atom_is_quantified b) (group_start_stack b).
Definition set_atom (b : Builder) (start : nat) (before quantified : bool) : Builder :=
  mkBuilder (postfix b) (rune_classes b) (num_captures b) (error_code b) (error_arg b)
    (syntax_mode b) (operator_stack b) (need_concat b) (escaped b) start before quantified
    (group_start_stack b).
Definition set_quantified (b : Builder) (v : bool) : Builder :=
  set_atom b (atom_start b) (need_concat_before_atom b) v.
Definition set_group_stack (b : Builder) (v : list GroupInfo) : Builder :=
  mkBuilder (postfix b) (rune_classes b) (num_captures b) (error_code b) (error_arg b)
    (syntax_mode b) (operator_stack b) (need_concat b) (escaped b) (atom_start b)
    (need_concat_before_atom b) (atom_is_quantified b) v.

Definition push_postfix (b : Builder) (token : Z) : Builder :=
  set_postfix b (postfix b ++ [token]).

(** The first error is kept. *)
Definition set_error (b : Builder) (code : ErrorCode) : Builder :=
  if is_no_error (error_code b) then set_error_code b code else b.

(** * Syntax-mode policy *)

Definition is_extended_mode (b : Builder) : bool :=
  match syntax_mode b with Extended => true | IregexpStrict => false end.

Definition allow_standalone_closer_literals := is_extended_mode.
Definition allow_shorthand_escapes := is_extended_mode.
Definition allow_posix_char_classes := is_extended_mode.
Definition allow_word_boundary_escape := is_extended_mode.
Definition allow_lazy_quantifiers := is_extended_mode.
Definition allow_capturing_groups := is_extended_mode.
Definition allow_noncapturing_groups := is_extended_mode.

Definition is_ascii_punctuation (ch : Z) : bool :=
  if (ch <? 0x21) || (0x7E <? ch) then false
  else
    let is_alnum := ((ord "0" <=? ch) && (ch <=? ord "9"))
                    || ((ord "A" <=? ch) && (ch <=? ord "Z"))
                    || ((ord "a" <=? ch) && (ch <=? ord "z")) in
    negb is_alnum.

Definition allow_extended_identity_escape (b : Builder) (ch : Z) : bool :=
  is_extended_mode b && is_ascii_punctuation ch.

(** * Helpers *)

Definition is_ascii_digit_at (pattern : list Z) (pos : nat) : bool :=
  match pattern !! pos with
  | Some c => (ord "0" <=? c) && (c <=? ord "9")
  | None => false
  end.

Definition is_class_escape (ch : Z) : bool :=
  one_of (bytes "nrt()*+-.?[\]^${|}/,") ch.

Definition escape_to_rune (ch : Z) : Z :=
  if ch =? ord "n" then 0x0A
  else if ch =? ord "r" then 0x0D
  else if ch =? ord "t" then 0x09
  else ch.

(** [shorthand_class(ch, rc)] on an empty [rc]; [None] is a [false] return. *)
Definition shorthand_class (ch : Z) : option RuneClass :=
  if ch =? ord "d" then Some (finalize (add_range empty_class (ord "0") (ord "9")))
  else if ch =? ord "s" then
    Some (finalize (add_range (add_range empty_class 0x09 0x0D) (ord " ") (ord " ")))
  else if ch =? ord "w" then
    Some (finalize (add_range (add_range (add_range (add_range empty_class
      (ord "0") (ord "9")) (ord "A") (ord "Z")) (ord "_") (ord "_")) (ord "a") (ord "z")))
  else None.

Definition make_class_ref (b : Builder) (rc : RuneClass) : Z * Builder :=
  let idx := Z.of_nat (length (rune_classes b)) in
  if RuneClassMax - RuneClassBase <? idx then
    (RuneClassBase, set_error b ErrorPatternTooLarge)
  else (RuneClassBase + idx, set_rune_classes b (rune_classes b ++ [rc])).

Fixpoint parse_hex_digits (pattern : list Z) (b : Builder) (pos : nat) (count : nat)
    (out : Z) : option Z * Builder * nat :=
  match count with
  | O => (Some out, b, pos)
  | S count =>
      match pattern !! pos with
      | None => (None, set_error b ErrorBadEscape, pos)
      | Some ch =>
          match hex_digit ch with
          | None => (None, set_error b ErrorBadEscape, pos)
          | Some digit =>
              parse_hex_digits pattern b (pos + 1) count
                (Z.lor (u32 (Z.shiftl out 4)) digit)
          end
      end
  end.

(** How many characters come before one that satisfies [stop]. *)
Fixpoint scan (stop : Z -> bool) (s : list Z) : nat :=
  match s with
  | [] => 0
  | c :: s => if stop c then 0 else S (scan stop s)
  end.

Definition parse_unicode_category (pattern : list Z) (b : Builder) (pos : nat)
    (negate : bool) : Z * Builder * nat :=
  let bad b pos := (RuneClassBase, set_error b ErrorBadCharClass, pos) in
  if negb (char_is pattern pos (ord "{")) then bad b pos
  else
    let pos := (pos + 1)%nat in
    let name_start := pos in
    let skipped := scan (fun c => c =? ord "}") (drop pos pattern) in
    let pos := (pos + skipped)%nat in
    if (length pattern <=? pos)%nat then bad b pos
    else
      let cat_name := take (pos - name_start) (drop name_start pattern) in
      let pos := (pos + 1)%nat in
      if (length cat_name =? 0)%nat || (3 <? length cat_name)%nat then bad b pos
      else
        match find_category cat_name with
        | None => bad b pos
        | Some info =>
            let rc := finalize (mkRuneClass (cat_ranges info) (cat_bitmap info)) in
            let rc := if negate then complement rc else rc in
            let '(ref, b) := make_class_ref b rc in (ref, b, pos)
        end.

(** [rc.add_range] for each of a POSIX class's ranges; [None] for an unknown name. *)
Definition posix_ranges (name : list Z) : option (list (Z * Z)) :=
  let named s := list_eqb name (bytes s) in
  if named "alpha" then Some [(ord "A", ord "Z"); (ord "a", ord "z")]
  else if named "digit" then Some [(ord "0", ord "9")]
  else if named "alnum" then Some [(ord "0", ord "9"); (ord "A", ord "Z"); (ord "a", ord "z")]
  else if named "blank" then Some [(ord " ", ord " "); (0x09, 0x09)]
  else if named "space" then Some [(0x09, 0x0D); (ord " ", ord " ")]
  else if named "xdigit" then Some [(ord "0", ord "9"); (ord "A", ord "F"); (ord "a", ord "f")]
  else if named "upper" then Some [(ord "A", ord "Z")]
  else if named "lower" then Some [(ord "a", ord "z")]
  else if named "print" then Some [(0x20, 0x7E)]
  else if named "graph" then Some [(0x21, 0x7E)]
  else if named "cntrl" then Some [(0x00, 0x1F); (0x7F, 0x7F)]
  else if named "punct" then Some [(0x21, 0x2F); (0x3A, 0x40); (0x5B, 0x60); (0x7B, 0x7E)]
  else if named "ascii" then Some [(0x00, 0x7F)]
  else None.

Definition add_ranges (rc : RuneClass) (rs : list (Z * Z)) : RuneClass :=
  foldl (fun rc rg => add_range rc rg.1 rg.2) rc rs.

Definition parse_posix_class (pattern : list Z) (b : Builder) (pos : nat) (rc : RuneClass) :
    option RuneClass * Builder * nat :=
  let name_start := pos in
  let skipped := scan (fun c => (c =? ord ":") || (c =? ord "]")) (drop pos pattern) in
  let pos := (pos + skipped)%nat in
  if (length pattern <=? pos + 1)%nat || negb (char_is pattern pos (ord ":"))
     || negb (char_is pattern (pos + 1) (ord "]"))
  then (None, set_error b ErrorBadCharClass, pos)
  else
    let name := take (pos - name_start) (drop name_start pattern) in
    let pos := (pos + 2)%nat in
    match posix_ranges name with
    | Some rs => (Some (add_ranges rc rs), b, pos)
    | None => (None, set_error b ErrorBadCharClass, pos)
    end.

(** * Character classes *)

(** What one turn of the class loop reads before the range check: a failure, a
    class merged into [rc] ([continue]), or a single character. *)
Inductive ClassItem :=
  | ItemError
  | ItemMerged (rc : RuneClass)
  | ItemChar (ch : Z).

(** After a backslash, at the escaped rune. *)
Definition class_escape (pattern : list Z) (b : Builder) (pos : nat) (rc : RuneClass) :
    ClassItem * Builder * nat :=
  if (length pattern <=? pos)%nat then (ItemError, set_error b ErrorTrailingBackslash, pos)
  else
    let '(esc_rune, esc_consumed) := rune_at pattern pos in
    let pos := (pos + esc_consumed)%nat in
    if (esc_rune =? ord "p") || (esc_rune =? ord "P") then
      let neg := esc_rune =? ord "P" in
      let '(ref, b, pos) := parse_unicode_category pattern b pos neg in
      if negb (ok b) then (ItemError, b, pos)
      else
        let merged := merge rc (nth (class_ref_index ref) (rune_classes b) empty_class) in
        (ItemMerged merged, b, pos)
    else
      let lower := Z.lor esc_rune 0x20 in
      match shorthand_class lower with
      | Some shorthand =>
          if negb (allow_shorthand_escapes b) then (ItemError, set_error b ErrorBadEscape, pos)
          else
            let shorthand := if negb (esc_rune =? lower) then complement shorthand
                             else shorthand in
            (ItemMerged (merge rc shorthand), b, pos)
      | None =>
          if esc_rune =? ord "x" then
            match parse_hex_digits pattern b pos 2 0 with
            | (None, b, pos) => (ItemError, b, pos)
            | (Some hex_val, b, pos) => (ItemChar hex_val, b, pos)
            end
          else if is_class_escape esc_rune then (ItemChar (escape_to_rune esc_rune), b, pos)
          else if allow_extended_identity_escape b esc_rune then (ItemChar esc_rune, b, pos)
          else (ItemError, set_error b ErrorBadEscape, pos)
      end.

Definition class_item (pattern : list Z) (b : Builder) (pos : nat) (rc : RuneClass) :
    ClassItem * Builder * nat :=
  if char_is pattern pos (ord "[") && char_is pattern (pos + 1) (ord ":") then
    if negb (allow_posix_char_classes b) then (ItemError, set_error b ErrorBadCharClass, pos)
    else
      match parse_posix_class pattern b (pos + 2) rc with
      | (None, b, pos) => (ItemError, b, pos)
      | (Some rc, b, pos) => (ItemMerged rc, b, pos)
      end
  else if char_is pattern pos (ord "\") then class_escape pattern b (pos + 1) rc
  else
    let '(r, consumed) := rune_at pattern pos in (ItemChar r, b, (pos + consumed)%nat).

(** The upper end of a range, after the dash. *)
Definition class_hi (pattern : list Z) (b : Builder) (pos : nat) : option Z * Builder * nat :=
  if char_is pattern pos (ord "\") then
    let pos := (pos + 1)%nat in
    if (length pattern <=? pos)%nat then (None, set_error b ErrorBadEscape, pos)
    else
      let '(esc_rune, esc_consumed) := rune_at pattern pos in
      let pos := (pos + esc_consumed)%nat in
      if esc_rune =? ord "x" then parse_hex_digits pattern b pos 2 0
      else if is_class_escape esc_rune then (Some (escape_to_rune esc_rune), b, pos)
      else if allow_extended_identity_escape b esc_rune then (Some esc_rune, b, pos)
      else (None, set_error b ErrorBadEscape, pos)
  else
    let '(r, consumed) := rune_at pattern pos in (Some r, b, (pos + consumed)%nat).

(** [pos + 1 < size && pattern[pos] == '-' && pattern[pos + 1] != ']'] *)
Definition range_follows (pattern : list Z) (pos : nat) : bool :=
  (pos + 1 <? length pattern)%nat && char_is pattern pos (ord "-")
  && negb (char_is pattern (pos + 1) (ord "]")).

(** Every turn consumes a character, so the length of the pattern is enough fuel. *)
Fixpoint class_loop (fuel : nat) (pattern : list Z) (b : Builder) (pos : nat)
    (rc : RuneClass) : option RuneClass * Builder * nat :=
  match fuel with
  | O => (Some rc, b, pos)
  | S fuel =>
      if (pos <? length pattern)%nat && negb (char_is pattern pos (ord "]")) then
        match class_item pattern b pos rc with
        | (ItemError, b, pos) => (None, b, pos)
        | (ItemMerged rc, b, pos) => class_loop fuel pattern b pos rc
        | (ItemChar ch, b, pos) =>
            if range_follows pattern pos then
              match class_hi pattern b (pos + 1) with
              | (None, b, pos) => (None, b, pos)
              | (Some hi, b, pos) =>
                  if hi <? ch then (None, set_error b ErrorBadCharRange, pos)
                  else class_loop fuel pattern b pos (add_range rc ch hi)
              end
            else class_loop fuel pattern b pos (add_range rc ch ch)
        end
      else (Some rc, b, pos)
  end.

Definition parse_char_class (pattern : list Z) (b : Builder) (pos : nat) :
    Z * Builder * nat :=
  let negated := char_is pattern pos (ord "^") in
  let pos := if negated then (pos + 1)%nat else pos in
  if (length pattern <=? pos)%nat || char_is pattern pos (ord "]") then
    (RuneClassBase, set_error b ErrorMissingBracket, pos)
  else
    match class_loop (length pattern) pattern b pos empty_class with
    | (None, b, pos) => (RuneClassBase, b, pos)
    | (Some rc, b, pos) =>
        if (length pattern <=? pos)%nat then
          (RuneClassBase, set_error b ErrorMissingBracket, pos)
        else
          let pos := (pos + 1)%nat in
          let rc := finalize rc in
          let rc := if negated then complement rc else rc in
          let '(ref, b) := make_class_ref b rc in (ref, b, pos)
    end.

(** * Predicates *)

Definition can_emit_standalone_closer (b : Builder) : bool :=
  negb (need_concat b) && allow_standalone_closer_literals b.

Definition is_literal_brace_after_escape (pattern : list Z) (b : Builder) (pos : nat) : bool :=
  need_concat b && allow_standalone_closer_literals b
  && negb (is_ascii_digit_at pattern pos)
  && (atom_start b <? length (postfix b))%nat
  && (length (postfix b) =? atom_start b + 1)%nat
  && char_is (postfix b) (atom_start b) Backslash.

Definition back_is (stack : list Z) (token : Z) : bool :=
  match stack with top :: _ => top =? token | [] => false end.

Definition has_pending_concat_to_undo (b : Builder) : bool :=
  need_concat_before_atom b && back_is (operator_stack b) Catenation.

Definition lacks_quantifiable_atom (b : Builder) : bool :=
  negb (need_concat b) || atom_is_quantified b.

Definition has_unmatched_close_paren (b : Builder) : bool :=
  match operator_stack b, group_start_stack b with
  | _ :: _, _ :: _ => false
  | _, _ => true
  end.

Definition is_noncapturing_group_prefix (pattern : list Z) (pos : nat) : bool :=
  char_is pattern pos (ord "?") && char_is pattern (pos + 1) (ord ":").

(** * Emitting atoms and operators *)

Definition begin_atom (b : Builder) : Builder :=
  set_atom b (length (postfix b)) (need_concat b) false.

(** Pops operators onto [postfix] until [stop] holds of the top. *)
Fixpoint pop_operators (stop : Z -> bool) (stack postfix : list Z) : list Z * list Z :=
  match stack with
  | [] => ([], postfix)
  | top :: rest =>
      if stop top then (stack, postfix) else pop_operators stop rest (postfix ++ [top])
  end.

Definition drain (stop : Z -> bool) (b : Builder) : Builder :=
  let '(stack, out) := pop_operators stop (operator_stack b) (postfix b) in
  set_operator_stack (set_postfix b out) stack.

Definition push_concat (b : Builder) : Builder :=
  let b := drain (fun top => negb (top =? Catenation)) b in
  set_operator_stack b (Catenation :: operator_stack b).

Definition push_alternation (b : Builder) : Builder :=
  let b := drain (fun top => top =? LParen) b in
  set_operator_stack b (Alternation :: operator_stack b).

Definition emit_atom (b : Builder) (label : Z) : Builder :=
  let b := if need_concat b then push_concat b else b in
  let b := begin_atom b in
  let b := push_postfix b label in
  set_need_concat b true.

(** The lone [begin_atom; push_back; need_concat = true] of the closers. *)
Definition emit_unjoined (b : Builder) (label : Z) : Builder :=
  set_need_concat (push_postfix (begin_atom b) label) true.

Definition parse_quantifier_suffix (greedy_op lazy_op : Z) (pattern : list Z)
    (b : Builder) (pos : nat) : Builder * nat :=
  let lazy := char_is pattern pos (ord "?") in
  if lazy && negb (allow_lazy_quantifiers b) then (set_error b ErrorStrictSyntax, pos)
  else
    let pos := if lazy then (pos + 1)%nat else pos in
    (set_quantified (push_postfix b (if lazy then lazy_op else greedy_op)) true, pos).

(** * Handlers *)

Definition on_escape (rune_value : Z) (pattern : list Z) (b : Builder) (pos : nat) :
    bool * Builder * nat :=
  let b := set_escaped b false in
  if (rune_value =? ord "p") || (rune_value =? ord "P") then
    let negate := rune_value =? ord "P" in
    let '(ref, b, pos) := parse_unicode_category pattern b pos negate in
    if negb (ok b) then (false, b, pos) else (true, emit_atom b ref, pos)
  else
    let lower := Z.lor rune_value 0x20 in
    match shorthand_class lower with
    | Some rc =>
        if negb (allow_shorthand_escapes b) then (false, set_error b ErrorBadEscape, pos)
        else
          let rc := if negb (rune_value =? lower) then complement rc else rc in
          let '(ref, b) := make_class_ref b rc in
          (true, emit_atom b ref, pos)
    | None =>
        if rune_value =? ord "x" then
          match parse_hex_digits pattern b pos 2 0 with
          | (None, b, pos) => (false, b, pos)
          | (Some hex_val, b, pos) => (true, emit_atom b hex_val, pos)
          end
        else if rune_value =? ord "b" then
          if negb (allow_word_boundary_escape b) then (false, set_error b ErrorBadEscape, pos)
          else (true, emit_atom b WordBoundary, pos)
        else if is_class_escape rune_value then
          (true, emit_atom b (escape_to_rune rune_value), pos)
        else if allow_extended_identity_escape b rune_value then
          (true, emit_atom b rune_value, pos)
        else (false, set_error b ErrorBadEscape, pos)
    end.

Definition on_backslash (b : Builder) : Builder := set_escaped b true.

Definition on_dot (b : Builder) : Builder :=
  let '(ref, b) := make_class_ref b dot in emit_atom b ref.

Definition on_char_class (pattern : list Z) (b : Builder) (pos : nat) :
    bool * Builder * nat :=
  let '(ref, b, pos) := parse_char_class pattern b pos in
  if negb (ok b) then (false, b, pos) else (true, emit_atom b ref, pos).

Definition on_start_anchor (b : Builder) : Builder := emit_atom b StartAnchor.
Definition on_end_anchor (b : Builder) : Builder := emit_atom b EndAnchor.

Definition on_close_bracket (b : Builder) : bool * Builder :=
  if can_emit_standalone_closer b then (true, emit_unjoined b (ord "]"))
  else (false, set_error b ErrorStrictSyntax).

Definition on_close_brace (b : Builder) : bool * Builder :=
  if can_emit_standalone_closer b then (true, emit_unjoined b (ord "}"))
  else (false, set_error b ErrorStrictSyntax).

(** [while (is_ascii_digit_at(pattern, pos)) n = n * 10 + (pattern[pos] - '0')],
    in [size_t], over the rest of the pattern: the count and the digits read. *)
Fixpoint parse_count (rest : list Z) (n : Z) : Z * nat :=
  match rest with
  | c :: rest =>
      if (ord "0" <=? c) && (c <=? ord "9") then
        let '(n, k) := parse_count rest (u64 (n * 10 + (c - ord "0"))) in (n, S k)
      else (n, 0%nat)
  | [] => (n, 0%nat)
  end.

Definition parse_count_at (pattern : list Z) (pos : nat) : Z * nat :=
  let '(n, k) := parse_count (drop pos pattern) 0 in (n, (pos + k)%nat).

(** The three expansion loops, as appended tokens: [n] copies of [atom] chained
    with Catenation, then the optional copies. *)
Definition mandatory_copies (atom : list Z) (n : nat) : list Z :=
  flat_map (fun i => atom ++ (if (0 <? i)%nat then [Catenation] else [])) (seq 0 n).

Definition optional_copies (atom : list Z) (n k : nat) : list Z :=
  flat_map (fun i => atom ++ [ZeroOrOne]
                     ++ (if (0 <? n)%nat || (0 <? i)%nat then [Catenation] else [])) (seq 0 k).

(** Everything of [on_open_brace] after [{n,m}] was read and validated. *)
Definition expand_repetition (b : Builder) (n m : Z) (unbounded : bool) : bool * Builder :=
  let start := atom_start b in
  let atom := drop start (postfix b) in
  let b := set_postfix b (take start (postfix b)) in
  let copies := if unbounded then n + 1 else m in
  let expansion := copies * (Z.of_nat (length atom) + 2) in
  if MaxPostfixSize <? Z.of_nat start + expansion then
    (false, set_error b ErrorPatternTooLarge)
  else if (n =? 0) && negb unbounded && (m =? 0) then
    let b := if has_pending_concat_to_undo b
             then set_operator_stack b (tail (operator_stack b)) else b in
    (true, set_quantified (set_need_concat b (need_concat_before_atom b)) true)
  else
    let b := set_postfix b (postfix b ++ mandatory_copies atom (Z.to_nat n)) in
    let b :=
      if unbounded then
        set_postfix b (postfix b ++ atom ++ [ZeroOrMore]
                       ++ (if 0 <? n then [Catenation] else []))
      else if n <? m then
        set_postfix b (postfix b ++ optional_copies atom (Z.to_nat n) (Z.to_nat (m - n)))
      else b in
    if MaxPostfixSize <? Z.of_nat (length (postfix b)) then
      (false, set_error b ErrorPatternTooLarge)
    else (true, set_quantified (set_need_concat b true) true).

Definition on_open_brace (pattern : list Z) (b : Builder) (pos : nat) :
    bool * Builder * nat :=
  if can_emit_standalone_closer b then (true, emit_unjoined b (ord "{"), pos)
  else if is_literal_brace_after_escape pattern b pos then
    (true, emit_unjoined (push_concat b) (ord "{"), pos)
  else if atom_is_quantified b then (false, set_error b ErrorRepeatOp, pos)
  else if negb (is_ascii_digit_at pattern pos) then (false, set_error b ErrorRepeatOp, pos)
  else
    let '(n, pos) := parse_count_at pattern pos in
    let '(m, unbounded, pos) :=
      if char_is pattern pos (ord ",") then
        let pos := (pos + 1)%nat in
        if is_ascii_digit_at pattern pos then
          let '(m, pos) := parse_count_at pattern pos in (m, false, pos)
        else (0, true, pos)
      else (n, false, pos) in
    if negb (char_is pattern pos (ord "}")) then (false, set_error b ErrorRepeatOp, pos)
    else
      let pos := (pos + 1)%nat in
      if (MaxRepetition <? n) || (MaxRepetition <? m) then
        (false, set_error b ErrorRepeatSize, pos)
      else if negb unbounded && (m <? n) then (false, set_error b ErrorRepeatSize, pos)
      else
        let '(r, b) := expand_repetition b n m unbounded in (r, b, pos).

Definition on_open_group (pattern : list Z) (b : Builder) (pos : nat) :
    bool * Builder * nat :=
  let noncapturing := is_noncapturing_group_prefix pattern pos in
  if noncapturing && negb (allow_noncapturing_groups b) then
    (false, set_error b ErrorStrictGroup, pos)
  else
    let pos := if noncapturing then (pos + 2)%nat else pos in
    let capturing := negb noncapturing in
    if capturing && negb (allow_capturing_groups b) then
      (false, set_error b ErrorStrictGroup, pos)
    else
      let b := if need_concat b then push_concat b else b in
      let cap_id := if capturing then num_captures b else 0 in
      let b := if capturing then set_num_captures b (num_captures b + 1) else b in
      if capturing && (MaxCaptures <? num_captures b) then
        (false, set_error b ErrorTooManyCaptures, pos)
      else if MaxGroupNesting <=? Z.of_nat (length (group_start_stack b)) then
        (false, set_error b ErrorNestingTooDeep, pos)
      else
        let gi := mkGroup (length (postfix b)) (need_concat b) capturing cap_id in
        let b := set_group_stack b (gi :: group_start_stack b) in
        let b := set_operator_stack b (LParen :: operator_stack b) in
        (true, set_need_concat b false, pos).

Definition on_close_group (b : Builder) : bool * Builder :=
  let b := drain (fun top => top =? LParen) b in
  if has_unmatched_close_paren b then (false, set_error b ErrorUnexpectedParen)
  else
    match group_start_stack b with
    | [] => (false, b)
    | gi :: groups =>
        let b := set_operator_stack b (tail (operator_stack b)) in
        let b := if group_capturing gi then push_postfix b (CaptureGroup + capture_id gi)
                 else b in
        let b := set_atom b (postfix_index gi) (group_need_concat gi) false in
        let b := set_group_stack b groups in
        (true, set_need_concat b true)
    end.

Definition on_pipe (b : Builder) : Builder := set_need_concat (push_alternation b) false.

(** [on_star], [on_question] and [on_plus] differ in their two operators. *)
Definition on_quantifier (greedy_op lazy_op : Z) (pattern : list Z) (b : Builder)
    (pos : nat) : bool * Builder * nat :=
  if lacks_quantifiable_atom b then (false, set_error b ErrorRepeatOp, pos)
  else
    let '(b, pos) := parse_quantifier_suffix greedy_op lazy_op pattern b pos in
    (ok b, b, pos).

Definition on_star := on_quantifier ZeroOrMore LazyZeroOrMore.
Definition on_question := on_quantifier ZeroOrOne LazyZeroOrOne.
Definition on_plus := on_quantifier OneOrMore LazyOneOrMore.

Definition on_literal (b : Builder) (rune_value : Z) : Builder := emit_atom b rune_value.

(** [PostfixBuilder::finalize]. *)
Definition finish (b : Builder) : bool * Builder :=
  let b := drain (fun top => top =? LParen) b in
  match operator_stack b with
  | _ :: _ => (false, set_error b ErrorMissingParen)
  | [] =>
      if escaped b then (false, set_error b ErrorTrailingBackslash)
      else if MaxPostfixSize <? Z.of_nat (length (postfix b)) then
        (false, set_error b ErrorPatternTooLarge)
      else (true, b)
  end.

(** * [regexp_to_postfix_runes] *)

(** One turn of the main loop, on the rune just decoded. *)
Definition dispatch (rune : Z) (pattern : list Z) (b : Builder) (pos : nat) :
    bool * Builder * nat :=
  if escaped b then on_escape rune pattern b pos
  else if rune =? Backslash then (true, on_backslash b, pos)
  else if rune =? ord "." then (true, on_dot b, pos)
  else if rune =? ord "[" then on_char_class pattern b pos
  else if rune =? ord "^" then (true, on_start_anchor b, pos)
  else if rune =? ord "$" then (true, on_end_anchor b, pos)
  else if rune =? ord "]" then let '(r, b) := on_close_bracket b in (r, b, pos)
  else if rune =? ord "{" then on_open_brace pattern b pos
  else if rune =? ord "}" then let '(r, b) := on_close_brace b in (r, b, pos)
  else if rune =? LParen then on_open_group pattern b pos
  else if rune =? RParen then let '(r, b) := on_close_group b in (r, b, pos)
  else if rune =? Pipe then (true, on_pipe b, pos)
  else if rune =? Asterisk then on_star pattern b pos
  else if rune =? Question then on_question pattern b pos
  else if rune =? Plus then on_plus pattern b pos
  else (true, on_literal b rune, pos).

(** The loop [while (pos < pattern.size())]; each turn moves [pos] on, so the
    length of the pattern is enough fuel ([parse_loop_fuel]). *)
Fixpoint parse_loop (fuel : nat) (pattern : list Z) (b : Builder) (pos : nat) :
    bool * Builder :=
  match fuel with
  | O => (true, b)
  | S fuel =>
      if (pos <? length pattern)%nat then
        let '(rune, consumed) := rune_at pattern pos in
        match dispatch rune pattern b (pos + consumed) with
        | (false, b, _) => (false, b)
        | (true, b, pos) => parse_loop fuel pattern b pos
        end
      else (true, b)
  end.

(** The postfix tokens, classes and number of captures; or the builder's error. *)
Record ParseResult := mkParse {
  parse_postfix : list Z;
  parse_classes : list RuneClass;
  parse_captures : Z;
}.

Definition regexp_to_postfix_runes (pattern : list Z) (mode : SyntaxMode) :
    ErrorCode + ParseResult :=
  match parse_loop (length pattern) pattern (new_builder mode) 0 with
  | (false, b) => inl (error_code b)
  | (true, b) =>
      match finish b with
      | (false, b) => inl (error_code b)
      | (true, b) => inr (mkParse (postfix b) (rune_classes b) (num_captures b))
      end
  end.
