(* ===== verification/RegexSpec.v ===== *)
(** The abstract specification of the regex engine.

    Postfix tokens denote a syntax tree ([re_of_postfix]); a tree relates two
    positions of the decoded input when it matches the runes between them
    ([re_match]).  The engine is specified by this relation alone: [find_prefix]
    returns the end of the longest match that starts at position 0. *)

From S2P Require Import Prelude RegexSyntax.

(** * Syntax trees *)

Inductive QuantifierKind := QZeroOrOne | QZeroOrMore | QOneOrMore.

Inductive re :=
  | Label (l : Z)
  | Cat (r1 r2 : re)
  | Alt (r1 r2 : re)
  | Quant (kind : QuantifierKind) (lazy : bool) (r : re)
  | Group (idx : nat) (r : re).

(** A quantifier token and its laziness. *)
Definition quantifier_token (token : Z) : option (QuantifierKind * bool) :=
  if token =? ZeroOrOne then Some (QZeroOrOne, false)
  else if token =? LazyZeroOrOne then Some (QZeroOrOne, true)
  else if token =? ZeroOrMore then Some (QZeroOrMore, false)
  else if token =? LazyZeroOrMore then Some (QZeroOrMore, true)
  else if token =? OneOrMore then Some (QOneOrMore, false)
  else if token =? LazyOneOrMore then Some (QOneOrMore, true)
  else None.

(** One postfix token on a stack of trees; [None] on a stack underflow. *)
Definition re_token (token : Z) (stack : list re) : option (list re) :=
  if token =? Catenation then
    match stack with r2 :: r1 :: rest => Some (Cat r1 r2 :: rest) | _ => None end
  else if token =? Alternation then
    match stack with r2 :: r1 :: rest => Some (Alt r1 r2 :: rest) | _ => None end
  else
    match quantifier_token token with
    | Some (kind, lazy) =>
        match stack with r :: rest => Some (Quant kind lazy r :: rest) | _ => None end
    | None =>
        if is_capture_group token then
          match stack with
          | r :: rest => Some (Group (Z.to_nat (token - CaptureGroup)) r :: rest)
          | _ => None
          end
        else Some (Label token :: stack)
    end.

Fixpoint re_tokens (tokens : list Z) (stack : list re) : option (list re) :=
  match tokens with
  | [] => Some stack
  | token :: tokens =>
      match re_token token stack with
      | Some stack => re_tokens tokens stack
      | None => None
      end
  end.

Definition re_of_postfix (tokens : list Z) : option re :=
  match re_tokens tokens [] with Some [r] => Some r | _ => None end.

(** * Labels *)

Definition is_conditional (l : Z) : bool :=
  (l =? WordBoundary) || (l =? StartAnchor) || (l =? EndAnchor).

(** States with these labels consume nothing. *)
Definition is_epsilon (l : Z) : bool :=
  (l =? Split) || is_capture_open l || is_capture_close l || is_conditional l.

(** What the parser puts on leaves: a code point, a class or a condition. *)
Definition atom_label (l : Z) : bool :=
  ((0 <=? l) && (l <? 2 ^ 21)) || is_class_ref l || is_conditional l.

Fixpoint re_ok (r : re) : Prop :=
  match r with
  | Label l => atom_label l = true
  | Cat r1 r2 | Alt r1 r2 => re_ok r1 /\ re_ok r2
  | Quant _ _ r => re_ok r
  | Group i r => Z.of_nat i < MaxCaptures /\ re_ok r
  end.

(** * Matching *)

(** The conditions at a position: word boundary, start and end of input. *)
Record Flags := mkFlags { boundary : bool; at_start : bool; at_end : bool }.

Definition flag_of (l : Z) (f : Flags) : bool :=
  if l =? WordBoundary then boundary f
  else if l =? StartAnchor then at_start f
  else at_end f.

Section Matching.
(** Whether a label accepts a rune, the input, and the flags by position. *)
Context (accepts : Z -> Z -> bool) (w : list Z) (flags : nat -> Flags).

Inductive re_match : re -> nat -> nat -> Prop :=
  | match_rune l i r :
      is_epsilon l = false -> w !! i = Some r -> accepts l r = true ->
      re_match (Label l) i (S i)
  | match_condition l i :
      is_conditional l = true -> flag_of l (flags i) = true -> re_match (Label l) i i
  | match_cat r1 r2 i j k : re_match r1 i j -> re_match r2 j k -> re_match (Cat r1 r2) i k
  | match_alt_l r1 r2 i j : re_match r1 i j -> re_match (Alt r1 r2) i j
  | match_alt_r r1 r2 i j : re_match r2 i j -> re_match (Alt r1 r2) i j
  | match_opt_skip lazy r i : re_match (Quant QZeroOrOne lazy r) i i
  | match_opt_take lazy r i j : re_match r i j -> re_match (Quant QZeroOrOne lazy r) i j
  | match_star_nil lazy r i : re_match (Quant QZeroOrMore lazy r) i i
  | match_star_cons lazy r i j k :
      re_match r i j -> re_match (Quant QZeroOrMore lazy r) j k ->
      re_match (Quant QZeroOrMore lazy r) i k
  | match_plus lazy r i j k :
      re_match r i j -> re_match (Quant QZeroOrMore lazy r) j k ->
      re_match (Quant QOneOrMore lazy r) i k
  | match_group idx r i j : re_match r i j -> re_match (Group idx r) i j.

(** The whole pattern; an empty postfix matches the empty string only. *)
Definition pattern_match (pattern : option re) (i j : nat) : Prop :=
  match pattern with Some r => re_match r i j | None => i = j end.

(** [n] is the length of the longest match from position 0. *)
Definition longest_match (pattern : option re) (n : nat) : Prop :=
  pattern_match pattern 0 n /\ forall m, pattern_match pattern 0 m -> (m <= n)%nat.
End Matching.

(** * Captures *)

(** Matching with the spans of the groups: slot [2 * idx] of a frame is where the
    group last started, slot [2 * idx + 1] where it last ended, as byte offsets. *)
Abbreviation Frame := (list (option nat)).

Section Capturing.
Context (accepts : Z -> Z -> bool) (w : list Z) (flags : nat -> Flags) (off : nat -> nat).

Definition open_group (idx i : nat) (c : Frame) : Frame := <[(idx * 2)%nat := Some (off i)]> c.
Definition close_group (idx i : nat) (c : Frame) : Frame :=
  <[(idx * 2 + 1)%nat := Some (off i)]> c.

Inductive re_capture : re -> nat -> nat -> Frame -> Frame -> Prop :=
  | capture_rune l i r c :
      is_epsilon l = false -> w !! i = Some r -> accepts l r = true ->
      re_capture (Label l) i (S i) c c
  | capture_condition l i c :
      is_conditional l = true -> flag_of l (flags i) = true -> re_capture (Label l) i i c c
  | capture_cat r1 r2 i j k c1 c2 c3 :
      re_capture r1 i j c1 c2 -> re_capture r2 j k c2 c3 -> re_capture (Cat r1 r2) i k c1 c3
  | capture_alt_l r1 r2 i j c1 c2 : re_capture r1 i j c1 c2 -> re_capture (Alt r1 r2) i j c1 c2
  | capture_alt_r r1 r2 i j c1 c2 : re_capture r2 i j c1 c2 -> re_capture (Alt r1 r2) i j c1 c2
  | capture_opt_skip lazy r i c : re_capture (Quant QZeroOrOne lazy r) i i c c
  | capture_opt_take lazy r i j c1 c2 :
      re_capture r i j c1 c2 -> re_capture (Quant QZeroOrOne lazy r) i j c1 c2
  | capture_star_nil lazy r i c : re_capture (Quant QZeroOrMore lazy r) i i c c
  | capture_star_cons lazy r i j k c1 c2 c3 :
      re_capture r i j c1 c2 -> re_capture (Quant QZeroOrMore lazy r) j k c2 c3 ->
      re_capture (Quant QZeroOrMore lazy r) i k c1 c3
  | capture_plus lazy r i j k c1 c2 c3 :
      re_capture r i j c1 c2 -> re_capture (Quant QZeroOrMore lazy r) j k c2 c3 ->
      re_capture (Quant QOneOrMore lazy r) i k c1 c3
  | capture_group idx r i j c1 c2 :
      re_capture r i j (open_group idx i c1) c2 ->
      re_capture (Group idx r) i j c1 (close_group idx j c2).

Definition pattern_capture (pattern : option re) (i j : nat) (c1 c2 : Frame) : Prop :=
  match pattern with Some r => re_capture r i j c1 c2 | None => i = j /\ c1 = c2 end.

Lemma capture_match r i j c1 c2 :
  re_capture r i j c1 c2 -> re_match accepts w flags r i j.
Proof. induction 1; eauto using re_match. Qed.

Lemma match_position r i j : re_match accepts w flags r i j -> (i <= j)%nat.
Proof. induction 1; lia. Qed.
End Capturing.

Create HintDb regex.
#[export] Hint Constructors re_match : regex.

(** * Facts about labels *)

Ltac unfold_labels :=
  unfold is_epsilon, is_conditional, is_capture_open, is_capture_close, is_class_ref,
    is_capture_group, Catenation, Alternation, ZeroOrOne, ZeroOrMore, OneOrMore, Split,
    WordBoundary, LazyZeroOrOne, LazyZeroOrMore, LazyOneOrMore, StartAnchor, EndAnchor,
    Match, CaptureOpen, CaptureClose, CaptureGroup, MaxCaptures, RuneClassBase,
    RuneClassMax in *.

Lemma atom_epsilon l : atom_label l = true -> is_epsilon l = is_conditional l.
Proof. unfold atom_label. unfold_labels. lia. Qed.

Lemma atom_not_match l : atom_label l = true -> l <> Match.
Proof. unfold atom_label. unfold_labels. lia. Qed.

Lemma atom_not_operator l : atom_label l = true ->
  l <> Catenation /\ l <> Alternation /\ quantifier_token l = None /\ is_capture_group l = false.
Proof.
  unfold atom_label, quantifier_token. unfold_labels. intros H.
  split_and!; [lia|lia| |lia]. repeat (case_match; [lia|]). done.
Qed.

Lemma epsilon_not_match l : is_epsilon l = true -> l <> Match.
Proof. unfold_labels. lia. Qed.

Lemma match_not_epsilon : is_epsilon Match = false.
Proof. reflexivity. Qed.
