(* ===== verification/ParserFacts.v ===== *)
(** What the parser promises to the construction of the automaton: every class is
    ready for matching, every postfix token is an atom, an operator or a capture
    that exists, and the limits hold. *)
From S2P Require Import Prelude.
From S2P Require Import Utf8.
From S2P Require Import AsciiBitmap.
From S2P Require Import UnicodeData.
From S2P Require Import RuneClass.
From S2P Require Import Categories.
From S2P Require Import RegexSyntax.
From S2P Require Import PostfixBuilder.
From S2P Require Import RegexSpec.

(** * Tokens *)

Definition is_operator (t : Z) : bool :=
  (t =? Catenation) || (t =? Alternation)
  || match quantifier_token t with Some _ => true | None => false end.

Definition token_ok (classes : nat) (captures : Z) (t : Z) : Prop :=
  (atom_label t = true /\ (is_class_ref t = true -> (class_ref_index t < classes)%nat))
  \/ is_operator t = true
  \/ CaptureGroup <= t < CaptureGroup + captures.

Lemma token_ok_mono classes classes' captures captures' t :
  (classes <= classes')%nat -> captures <= captures' ->
  token_ok classes captures t -> token_ok classes' captures' t.
Proof. intros ??[[? H]|[?|?]]; unfold token_ok; [left; split; [done|intros Hr; specialize (H Hr); lia]|tauto|lia]. Qed.

Definition operator_ok (t : Z) : Prop := t = Catenation \/ t = Alternation \/ t = LParen.

Lemma operator_token classes captures t : operator_ok t -> token_ok classes captures t.
Proof. intros [->|[->| ->]]; [right; left|right; left|left]; done. Qed.

Record builder_inv (b : Builder) : Prop := {
  inv_classes : Forall class_ok (rune_classes b);
  inv_postfix : Forall (token_ok (length (rune_classes b)) (num_captures b)) (postfix b);
  inv_operators : Forall operator_ok (operator_stack b);
  inv_groups : Forall (fun g => group_capturing g = true -> 0 <= capture_id g < num_captures b)
                 (group_start_stack b);
  inv_captures : 0 <= num_captures b <= MaxCaptures;
}.

(** A rune of the pattern as a token. *)
Lemma rune_token classes captures r : 0 <= r < 2 ^ 21 -> token_ok classes captures r.
Proof.
  intros H. left. unfold atom_label, is_class_ref, RuneClassBase, RuneClassMax.
  split; [lia|]. intros Hr. exfalso. lia.
Qed.

Lemma token_ok_of_ref classes captures k : (k < classes)%nat -> Z.of_nat k <= RuneClassMax - RuneClassBase ->
  token_ok classes captures (RuneClassBase + Z.of_nat k).
Proof.
  intros Hk Hm. left. unfold atom_label, class_ref_index, is_class_ref, RuneClassBase, RuneClassMax in *.
  split; [lia|]. intros _. lia.
Qed.

(** * Fields that carry no obligation *)

Ltac same_fields := intros []; split; assumption.

Lemma inv_set_error b c : builder_inv b -> builder_inv (set_error b c).
Proof. unfold set_error. destruct (is_no_error _); [same_fields|done]. Qed.
Lemma inv_need_concat b v : builder_inv b -> builder_inv (set_need_concat b v).
Proof. same_fields. Qed.
Lemma inv_escaped b v : builder_inv b -> builder_inv (set_escaped b v).
Proof. same_fields. Qed.
Lemma inv_atom b i v w : builder_inv b -> builder_inv (set_atom b i v w).
Proof. same_fields. Qed.
Lemma inv_quantified b v : builder_inv b -> builder_inv (set_quantified b v).
Proof. same_fields. Qed.

Create HintDb parser.
#[export] Hint Resolve inv_set_error inv_need_concat inv_escaped inv_atom inv_quantified : parser.

Lemma inv_set_postfix b out :
  builder_inv b -> Forall (token_ok (length (rune_classes b)) (num_captures b)) out ->
  builder_inv (set_postfix b out).
Proof. intros []. by split. Qed.

Lemma inv_push_postfix b t :
  builder_inv b -> token_ok (length (rune_classes b)) (num_captures b) t ->
  builder_inv (push_postfix b t).
Proof.
  intros H Ht. apply inv_set_postfix; [done|]. apply Forall_app. split; [apply H|by constructor].
Qed.

Lemma inv_operator_stack b ops : builder_inv b -> Forall operator_ok ops ->
  builder_inv (set_operator_stack b ops).
Proof. intros []. by split. Qed.

Lemma inv_pop_operator b : builder_inv b ->
  builder_inv (set_operator_stack b (tail (operator_stack b))).
Proof.
  intros H. apply inv_operator_stack; [done|]. pose proof (inv_operators _ H) as Hops.
  destruct Hops; [constructor|done].
Qed.

Lemma pop_operators_ok (P : Z -> Prop) stop ops out ops' out' :
  (forall t, operator_ok t -> P t) ->
  pop_operators stop ops out = (ops', out') -> Forall operator_ok ops -> Forall P out ->
  Forall operator_ok ops' /\ Forall P out'.
Proof.
  intros HP. revert out. induction ops as [|t ops IH]; intros out; cbn; [by intros [= <- <-]|].
  rewrite Forall_cons. destruct (stop t); [intros [= <- <-]; rewrite Forall_cons; tauto|].
  intros E [Ht Hops] Hout. apply (IH _ E Hops). apply Forall_app. split; [done|].
  constructor; [by apply HP|constructor].
Qed.

Lemma inv_drain stop b : builder_inv b -> builder_inv (drain stop b).
Proof.
  intros H. unfold drain. destruct (pop_operators _ _ _) as [ops out] eqn:E.
  destruct (pop_operators_ok (token_ok (length (rune_classes b)) (num_captures b)) _ _ _ _ _
    (operator_token _ _) E (inv_operators _ H) (inv_postfix _ H)) as [H1 H2].
  apply inv_operator_stack; [by apply inv_set_postfix|done].
Qed.

Lemma drain_classes stop b : rune_classes (drain stop b) = rune_classes b
  /\ num_captures (drain stop b) = num_captures b
  /\ group_start_stack (drain stop b) = group_start_stack b.
Proof. unfold drain. by destruct (pop_operators _ _ _). Qed.

Lemma inv_push_concat b : builder_inv b -> builder_inv (push_concat b).
Proof.
  intros H. apply inv_operator_stack; [by apply inv_drain|].
  constructor; [by left|]. by apply inv_operators, inv_drain.
Qed.

Lemma inv_push_alternation b : builder_inv b -> builder_inv (push_alternation b).
Proof.
  intros H. apply inv_operator_stack; [by apply inv_drain|].
  constructor; [by right; left|]. by apply inv_operators, inv_drain.
Qed.

Lemma push_concat_classes b : rune_classes (push_concat b) = rune_classes b
  /\ num_captures (push_concat b) = num_captures b
  /\ group_start_stack (push_concat b) = group_start_stack b.
Proof. apply drain_classes. Qed.

#[export] Hint Resolve inv_drain inv_push_concat inv_push_alternation : parser.

Lemma inv_emit_atom b t :
  builder_inv b -> token_ok (length (rune_classes b)) (num_captures b) t ->
  builder_inv (emit_atom b t).
Proof.
  intros H Ht. apply inv_need_concat, inv_push_postfix.
  - apply inv_atom. destruct (need_concat b); auto with parser.
  - cbn. destruct (need_concat b); [|done]. by destruct (push_concat_classes b) as (-> & -> & _).
Qed.

Lemma inv_emit_unjoined b t :
  builder_inv b -> token_ok (length (rune_classes b)) (num_captures b) t ->
  builder_inv (emit_unjoined b t).
Proof. intros H Ht. apply inv_need_concat, inv_push_postfix; [by apply inv_atom|done]. Qed.

(** * Classes *)

Lemma inv_make_class_ref b rc ref b' :
  builder_inv b -> class_ok rc -> make_class_ref b rc = (ref, b') ->
  builder_inv b' /\ token_ok (length (rune_classes b')) (num_captures b') ref
  /\ (ok b' = true -> nth (class_ref_index ref) (rune_classes b') empty_class = rc).
Proof.
  intros H Hrc. unfold make_class_ref.
  destruct (Z.ltb_spec (RuneClassMax - RuneClassBase) (Z.of_nat (length (rune_classes b)))) as [Hf|Hf];
    intros [= <- <-].
  - split_and!; [by apply inv_set_error| |].
    + rewrite <-(Z.add_0_r RuneClassBase). apply (token_ok_of_ref _ _ 0).
      * unfold set_error. destruct (is_no_error _); cbn; unfold RuneClassMax, RuneClassBase in *; lia.
      * unfold RuneClassMax, RuneClassBase. lia.
    + unfold set_error, ok. destruct (is_no_error (error_code b)) eqn:E; cbn; congruence.
  - destruct H as [H1 H2 H3 H4 H5].
    assert (class_ref_index (RuneClassBase + Z.of_nat (length (rune_classes b)))
            = length (rune_classes b)) as Ei by (unfold class_ref_index; lia).
    split_and!.
    + split; cbn; [by apply Forall_app; split; [|constructor]| |done..].
      eapply Forall_impl; [exact H2|]. intros t. apply token_ok_mono; [rewrite length_app; lia|lia].
    + apply token_ok_of_ref; [|done]. cbn. rewrite length_app. cbn. lia.
    + intros _. rewrite Ei. cbn. rewrite nth_middle || rewrite app_nth2 by lia.
      rewrite ?Nat.sub_diag. done.
Qed.

(** Ranges a class may be built from. *)
Definition raw_ok (rc : RuneClass) : Prop := bounded (ranges rc) /\ proper (ranges rc).

Lemma raw_merge rc rc' : raw_ok rc -> raw_ok rc' -> raw_ok (merge rc rc').
Proof. intros [H1 H2] [H3 H4]. split; apply Forall_app; by split. Qed.

Lemma raw_add_range rc lo hi : raw_ok rc -> 0 <= lo -> lo <= hi < rune_bound -> raw_ok (add_range rc lo hi).
Proof.
  intros [H1 H2] Hlo Hhi. split; apply Forall_app; (split; [done|]); constructor; cbn; (lia || constructor).
Qed.

Lemma raw_empty : raw_ok empty_class.
Proof. split; constructor. Qed.

(** The class of a finished list of ranges, negated or not. *)
Lemma finalize_class_ok rc (negate : bool) : raw_ok rc ->
  class_ok (if negate then complement (finalize rc) else finalize rc).
Proof.
  intros [Hb Hp]. destruct (finalize_ranges rc Hb) as (H1 & H2 & _).
  destruct negate; [|by apply finalize_ok].
  apply complement_ok; [done|by apply finalize_proper|done].
Qed.

Definition raw_check (rs : list (Z * Z)) : bool :=
  forallb (fun rg => (0 <=? rg.1) && (rg.1 <=? rg.2) && (rg.2 <? rune_bound)) rs.

Lemma raw_check_ok rc : raw_check (ranges rc) = true -> raw_ok rc.
Proof.
  unfold raw_check, raw_ok, bounded, proper. rewrite forallb_forall. intros H.
  split; apply Forall_forall; intros rg Hrg; apply list_elem_of_In, H in Hrg; lia.
Qed.

(** The named classes, checked once and for all. *)
Definition category_class (rs : list (Z * Z)) (negate : bool) : RuneClass :=
  let rc := finalize (mkRuneClass rs (compute_ascii_bitmap rs)) in
  if negate then complement rc else rc.

Lemma category_classes_checked :
  forallb (fun c => raw_check c.2 && raw_check (ranges (category_class c.2 true))
                    && raw_check (ranges (category_class c.2 false))) categories = true.
Proof. vm_compute. reflexivity. Qed.

Lemma find_category_inv name info : find_category name = Some info ->
  exists n rs, (n, rs) ∈ categories /\ info = mkCategory rs (length rs) (compute_ascii_bitmap rs).
Proof.
  set (goal := exists n rs, _).
  assert (forall n rs k, (n, rs) ∈ categories -> (k = Some info -> goal) ->
    (if list_eqb name n then category rs else k) = Some info -> goal) as Hstep.
  { intros n rs k Hin Hk. destruct (list_eqb name n); [|done]. intros [= <-]. by exists n, rs. }
  unfold find_category.
  repeat (apply Hstep; [unfold categories; repeat (apply elem_of_cons; first [left; reflexivity|right])|]).
  done.
Qed.

Lemma category_raw_ok name info negate : find_category name = Some info ->
  raw_ok (category_class (cat_ranges info) negate) /\ raw_ok (mkRuneClass (cat_ranges info) (cat_bitmap info)).
Proof.
  intros (n & rs & Hin & ->)%find_category_inv. cbn [cat_ranges].
  pose proof category_classes_checked as H. rewrite forallb_forall in H.
  specialize (H (n, rs) (proj1 (list_elem_of_In _ _) Hin)). cbn [snd] in H.
  rewrite !andb_true_iff in H. destruct H as [[H1 H2] H3].
  split; [destruct negate; by apply raw_check_ok|by apply raw_check_ok].
Qed.

(** * Reading escapes and classes *)

(** A reader leaves the builder alone or records an error. *)
Definition errs (b b' : Builder) : Prop := b' = b \/ exists c, b' = set_error b c.

Lemma errs_refl b : errs b b.
Proof. by left. Qed.
Lemma errs_error b c : errs b (set_error b c).
Proof. right. by exists c. Qed.
#[export] Hint Resolve errs_refl errs_error : parser.

Lemma set_error_not_ok b c : c <> NoError -> ok (set_error b c) = false.
Proof.
  intros Hc. unfold set_error, ok. destruct (is_no_error (error_code b)) eqn:E; [|done].
  by destruct c.
Qed.

Lemma errs_inv b b' : errs b b' -> builder_inv b -> builder_inv b'.
Proof. intros [->|[c ->]]; auto with parser. Qed.

Lemma errs_classes b b' : errs b b' ->
  rune_classes b' = rune_classes b /\ num_captures b' = num_captures b.
Proof. intros [->|[c ->]]; [done|]. unfold set_error. by destruct (is_no_error _). Qed.

Lemma hex_digit_bound c d : hex_digit c = Some d -> 0 <= d < 16.
Proof. unfold hex_digit. repeat case_match; intros [= <-]; lia. Qed.

Lemma parse_hex_digits_ok pattern b pos count out r b' pos' :
  parse_hex_digits pattern b pos count out = (r, b', pos') ->
  errs b b' /\ (r = None -> ok b' = false) /\ (forall v, 0 <= out < 2 ^ 8 -> (count <= 2)%nat -> out < 2 ^ (8 - 4 * Z.of_nat count) ->
                r = Some v -> 0 <= v < 2 ^ 8).
Proof.
  revert pos out. induction count as [|count IH]; intros pos out; cbn [parse_hex_digits].
  - intros [= <- <- <-]. split_and!; [apply errs_refl|done|]. by intros v ? _ _ [= <-].
  - assert (forall p, (None, set_error b ErrorBadEscape, p) = (r, b', pos') ->
      errs b b' /\ (r = None -> ok b' = false) /\ r = None) as Hbad.
    { intros p [= <- <- <-]. split_and!; [apply errs_error|intros _; by apply set_error_not_ok|done]. }
    destruct (pattern !! pos) as [ch|]; [|intros (? & ? & ->)%Hbad; by split_and!].
    destruct (hex_digit ch) as [d|] eqn:Ed; [|intros (? & ? & ->)%Hbad; by split_and!].
    intros H. apply IH in H as (He & Hn & Hv). split_and!; [done..|]. intros v Hout Hc Hb Hr.
    apply hex_digit_bound in Ed.
    assert (Z.lor (u32 (Z.shiftl out 4)) d = out * 16 + d) as E.
    { rewrite Z.shiftl_mul_pow2, u32_id by lia. apply lor_add with 4; [lia|arith|lia]. }
    rewrite E in *.
    assert (count = 0%nat \/ count = 1%nat) as [->| ->] by lia.
    + apply (Hv v); [|lia| |done]; change (2 ^ (8 - 4 * Z.of_nat 1)) with 16 in Hb;
        change (2 ^ (8 - 4 * Z.of_nat 0)) with 256; lia.
    + apply (Hv v); [|lia| |done]; change (2 ^ (8 - 4 * Z.of_nat 2)) with 1 in Hb;
        change (2 ^ (8 - 4 * Z.of_nat 1)) with 16; lia.
Qed.

Lemma parse_hex_2 pattern b pos r b' pos' :
  parse_hex_digits pattern b pos 2 0 = (r, b', pos') ->
  errs b b' /\ (r = None -> ok b' = false) /\ forall v, r = Some v -> 0 <= v < 2 ^ 21.
Proof.
  intros (H1 & Hn & H2)%parse_hex_digits_ok. split_and!; [done..|]. intros v Hv.
  specialize (H2 v ltac:(lia) ltac:(lia) ltac:(done) Hv). lia.
Qed.

Lemma parse_unicode_category_ok pattern b pos negate ref b' pos' :
  builder_inv b -> parse_unicode_category pattern b pos negate = (ref, b', pos') ->
  builder_inv b' /\ num_captures b' = num_captures b
  /\ (ok b' = true -> token_ok (length (rune_classes b')) (num_captures b') ref
      /\ raw_ok (nth (class_ref_index ref) (rune_classes b') empty_class)).
Proof.
  intros Hb. unfold parse_unicode_category.
  assert (forall c p, (RuneClassBase, set_error b c, p) = (ref, b', pos') -> c <> NoError ->
    builder_inv b' /\ num_captures b' = num_captures b
    /\ (ok b' = true -> token_ok (length (rune_classes b')) (num_captures b') ref
        /\ raw_ok (nth (class_ref_index ref) (rune_classes b') empty_class))) as Hbad.
  { intros c p [= <- <- <-] Hc. split_and!; [by apply inv_set_error|by apply errs_classes, errs_error|].
    unfold set_error, ok. destruct (is_no_error (error_code b)) eqn:E; cbn; [|congruence].
    by destruct c. }
  destruct (negb _); [intros E; by eapply Hbad|].
  destruct (_ <=? _)%nat; [intros E; by eapply Hbad|].
  destruct (_ || _); [intros E; by eapply Hbad|].
  destruct (find_category _) as [info|] eqn:Hf; [|intros E; by eapply Hbad].
  destruct (category_raw_ok _ _ negate Hf) as [Hraw Hraw0].
  set (rc := if negate then _ else _). assert (class_ok rc) as Hrc.
  { pose proof (finalize_class_ok _ negate Hraw0) as H. unfold rc. by destruct negate. }
  destruct (make_class_ref b rc) as [ref0 b0] eqn:Em. intros [= <- <- <-].
  destruct (inv_make_class_ref b rc ref0 b0 Hb Hrc Em) as (H1 & H2 & H3).
  split_and!; [done| |].
  - unfold make_class_ref in Em. case_match; injection Em as <- <-; [|done].
    by apply errs_classes, errs_error.
  - intros Hok. split; [done|]. rewrite (H3 Hok). unfold rc.
    apply find_category_inv in Hf as (? & ? & _ & ->). exact Hraw.
Qed.

Lemma shorthand_class_ok ch rc : shorthand_class ch = Some rc ->
  class_ok rc /\ raw_ok rc /\ class_ok (complement rc) /\ raw_ok (complement rc).
Proof.
  assert (forall rc0, raw_ok rc0 -> raw_check (ranges (complement (finalize rc0))) = true ->
    class_ok (finalize rc0) /\ raw_ok (finalize rc0) /\ class_ok (complement (finalize rc0))
    /\ raw_ok (complement (finalize rc0))) as H.
  { intros rc0 Hraw Hc. split_and!.
    - exact (finalize_class_ok rc0 false Hraw).
    - destruct Hraw as [Hb Hp]. split; [by apply finalize_ranges|by apply finalize_proper].
    - exact (finalize_class_ok rc0 true Hraw).
    - by apply raw_check_ok. }
  unfold shorthand_class. repeat case_match; intros [= <-];
    (apply H; [apply raw_check_ok|]; vm_compute; reflexivity).
Qed.

Lemma add_ranges_raw rc rs : raw_ok rc -> raw_check rs = true -> raw_ok (add_ranges rc rs).
Proof.
  unfold add_ranges, raw_check. revert rc. induction rs as [|rg rs IH]; intros rc Hrc; cbn; [done|].
  rewrite !andb_true_iff. intros [? ?]. apply IH; [|done]. apply raw_add_range; [done|lia..].
Qed.

Lemma posix_ranges_checked name rs : posix_ranges name = Some rs -> raw_check rs = true.
Proof. unfold posix_ranges. repeat case_match; intros [= <-]; reflexivity. Qed.

Lemma parse_posix_class_ok pattern b pos rc r b' pos' :
  raw_ok rc -> parse_posix_class pattern b pos rc = (r, b', pos') ->
  errs b b' /\ (r = None -> ok b' = false) /\ forall rc', r = Some rc' -> raw_ok rc'.
Proof.
  intros Hrc. unfold parse_posix_class.
  assert (forall p, (None, set_error b ErrorBadCharClass, p) = (r, b', pos') ->
    errs b b' /\ (r = None -> ok b' = false) /\ forall rc', r = Some rc' -> raw_ok rc') as Hbad.
  { intros p [= <- <- <-]. split_and!; [apply errs_error|intros _; by apply set_error_not_ok|done]. }
  destruct (_ || _); [apply Hbad|].
  destruct (posix_ranges _) as [rs|] eqn:E; [|apply Hbad]. intros [= <- <- <-].
  split_and!; [apply errs_refl|done|]. intros rc' [= <-]. apply add_ranges_raw; [done|by eapply posix_ranges_checked].
Qed.

Lemma escape_bounds r : 0 <= r < 2 ^ 21 -> 0 <= escape_to_rune r < 2 ^ 21.
Proof. unfold escape_to_rune. intros. repeat case_match; lia. Qed.

(** [rune_at] yields a rune even past the end. *)
Lemma rune_at_value s pos r n : rune_at s pos = (r, n) -> 0 <= r < 2 ^ 21.
Proof.
  destruct (Nat.lt_ge_cases pos (length s)) as [Hlt|Hge].
  - intros E. pose proof (rune_at_bounds s pos Hlt) as H. rewrite E in H. apply H.
  - unfold rune_at. rewrite drop_ge by done. intros [= <- _]. lia.
Qed.

Definition item_ok (b : Builder) (item : ClassItem) : Prop :=
  match item with
  | ItemError => ok b = false
  | ItemMerged rc => raw_ok rc
  | ItemChar ch => 0 <= ch < 2 ^ 21
  end.

Lemma class_escape_ok pattern b pos rc item b' pos' :
  builder_inv b -> raw_ok rc -> class_escape pattern b pos rc = (item, b', pos') ->
  builder_inv b' /\ num_captures b' = num_captures b /\ item_ok b' item.
Proof.
  intros Hb Hrc. unfold class_escape.
  assert (forall c p, (ItemError, set_error b c, p) = (item, b', pos') -> c <> NoError ->
    builder_inv b' /\ num_captures b' = num_captures b /\ item_ok b' item) as Hbad.
  { intros c p [= <- <- <-] Hc. split_and!;
      [by apply inv_set_error|by apply errs_classes, errs_error|by apply set_error_not_ok]. }
  destruct (_ <=? _)%nat; [intros E; by eapply Hbad|].
  destruct (rune_at pattern pos) as [esc n] eqn:Er. apply rune_at_value in Er.
  destruct (_ || _).
  { destruct (parse_unicode_category _ _ _ _) as [[ref b1] pos1] eqn:Ep.
    destruct (parse_unicode_category_ok _ _ _ _ _ _ _ Hb Ep) as (H1 & H2 & H3).
    destruct (ok b1) eqn:Eok; cbn [negb]; intros [= <- <- <-]; split_and!; try done.
    destruct (H3 eq_refl) as [_ Hraw]. by apply raw_merge. }
  destruct (shorthand_class _) as [sh|] eqn:Es.
  { destruct (shorthand_class_ok _ _ Es) as (_ & Hs & _ & Hc).
    destruct (negb (allow_shorthand_escapes b)); [intros E; by eapply Hbad|].
    intros [= <- <- <-]. split_and!; [done..|]. destruct (negb _); by apply raw_merge. }
  destruct (esc =? ord "x").
  { destruct (parse_hex_digits _ _ _ _ _) as [[[v|] b1] pos1] eqn:Eh;
      apply parse_hex_2 in Eh as (He & Hn & Hv); intros [= <- <- <-];
      (split_and!; [by eapply errs_inv|by apply errs_classes|]); [by apply Hv|by apply Hn]. }
  destruct (is_class_escape esc).
  { intros [= <- <- <-]. split_and!; [done..|]. by apply escape_bounds. }
  destruct (allow_extended_identity_escape b esc); [|intros E; by eapply Hbad].
  by intros [= <- <- <-].
Qed.

Lemma class_item_ok pattern b pos rc item b' pos' :
  builder_inv b -> raw_ok rc -> class_item pattern b pos rc = (item, b', pos') ->
  builder_inv b' /\ num_captures b' = num_captures b /\ item_ok b' item.
Proof.
  intros Hb Hrc. unfold class_item. destruct (_ && _).
  { destruct (negb (allow_posix_char_classes b)).
    { intros [= <- <- <-]. split_and!;
        [by apply inv_set_error|by apply errs_classes, errs_error|by apply set_error_not_ok]. }
    destruct (parse_posix_class _ _ _ _) as [[[rc'|] b1] pos1] eqn:Ep;
      apply parse_posix_class_ok in Ep as (He & Hn & Hr); try done; intros [= <- <- <-];
      (split_and!; [by eapply errs_inv|by apply errs_classes|]); [by apply Hr|by apply Hn]. }
  destruct (char_is pattern pos (ord "\")); [by apply class_escape_ok|].
  destruct (rune_at pattern pos) as [r n] eqn:Er. apply rune_at_value in Er. by intros [= <- <- <-].
Qed.

Lemma class_hi_ok pattern b pos r b' pos' :
  class_hi pattern b pos = (r, b', pos') ->
  errs b b' /\ (r = None -> ok b' = false) /\ forall v, r = Some v -> 0 <= v < 2 ^ 21.
Proof.
  unfold class_hi.
  assert (forall p, (None, set_error b ErrorBadEscape, p) = (r, b', pos') ->
    errs b b' /\ (r = None -> ok b' = false) /\ forall v, r = Some v -> 0 <= v < 2 ^ 21) as Hbad.
  { intros p [= <- <- <-]. split_and!; [apply errs_error|intros _; by apply set_error_not_ok|done]. }
  assert (forall v0 p, 0 <= v0 < 2 ^ 21 -> (Some v0, b, p) = (r, b', pos') ->
    errs b b' /\ (r = None -> ok b' = false) /\ forall v, r = Some v -> 0 <= v < 2 ^ 21) as Hgood.
  { intros v0 p Hv [= <- <- <-]. split_and!; [apply errs_refl|done|]. by intros v [= <-]. }
  destruct (char_is _ _ _).
  - destruct (_ <=? _)%nat; [apply Hbad|].
    destruct (rune_at _ _) as [esc n] eqn:Er. apply rune_at_value in Er.
    destruct (esc =? ord "x"); [apply parse_hex_2|].
    destruct (is_class_escape esc); [by apply Hgood, escape_bounds|].
    destruct (allow_extended_identity_escape b esc); [by apply Hgood|apply Hbad].
  - destruct (rune_at _ _) as [r0 n] eqn:Er. apply rune_at_value in Er. by apply Hgood.
Qed.

Definition loop_ok (b b' : Builder) (r : option RuneClass) : Prop :=
  builder_inv b' /\ num_captures b' = num_captures b
  /\ match r with Some rc => raw_ok rc | None => ok b' = false end.

Lemma class_loop_ok fuel pattern b pos rc r b' pos' :
  builder_inv b -> raw_ok rc -> class_loop fuel pattern b pos rc = (r, b', pos') -> loop_ok b b' r.
Proof.
  unfold loop_ok. revert b pos rc.
  induction fuel as [|fuel IH]; intros b pos rc Hb Hrc; cbn [class_loop]; [by intros [= <- <- <-]|].
  destruct (_ && _); [|by intros [= <- <- <-]].
  destruct (class_item _ _ _ _) as [[item b1] pos1] eqn:Ei.
  destruct (class_item_ok _ _ _ _ _ _ _ Hb Hrc Ei) as (H1 & H2 & H3).
  destruct item as [|rc1|ch]; cbn in H3; [by intros [= <- <- <-]|rewrite <-H2; by apply IH|].
  destruct (range_follows _ _).
  2: { rewrite <-H2. apply IH; [done|]. apply raw_add_range; [done|lia|unfold rune_bound; lia]. }
  destruct (class_hi _ _ _) as [[[hi|] b2] pos2] eqn:Eh; apply class_hi_ok in Eh as (He & Hn & Hv);
    destruct (errs_classes _ _ He) as [_ Ec]; rewrite <-H2, <-Ec;
    pose proof (errs_inv _ _ He H1) as Hb2.
  - specialize (Hv hi eq_refl). destruct (Z.ltb_spec hi ch).
    + intros [= <- <- <-].
      split_and!; [by apply inv_set_error|by apply errs_classes, errs_error|by apply set_error_not_ok].
    + apply IH; [done|]. apply raw_add_range; [done|lia|unfold rune_bound; lia].
  - intros [= <- <- <-]. split_and!; [done..|by apply Hn].
Qed.

Lemma make_class_ref_captures b rc ref b' : make_class_ref b rc = (ref, b') ->
  num_captures b' = num_captures b.
Proof.
  unfold make_class_ref. case_match; intros [= <- <-]; [|done]. by apply errs_classes, errs_error.
Qed.

(** The outcome of a reader of a class: a reference, or an error. *)
Definition ref_ok (b b' : Builder) (ref : Z) : Prop :=
  builder_inv b' /\ num_captures b' = num_captures b
  /\ (ok b' = true -> token_ok (length (rune_classes b')) (num_captures b') ref).

Lemma ref_ok_error b b1 c ref : builder_inv b1 -> num_captures b1 = num_captures b -> c <> NoError ->
  ref_ok b (set_error b1 c) ref.
Proof.
  intros H1 H2 Hc. split_and!; [by apply inv_set_error| |by rewrite set_error_not_ok].
  destruct (errs_classes _ _ (errs_error b1 c)) as [_ ->]. done.
Qed.

Lemma parse_char_class_ok pattern b pos ref b' pos' :
  builder_inv b -> parse_char_class pattern b pos = (ref, b', pos') -> ref_ok b b' ref.
Proof.
  intros Hb. unfold parse_char_class.
  destruct (_ || _); [intros [= <- <- <-]; by apply ref_ok_error|].
  destruct (class_loop _ _ _ _ _) as [[[rc|] b1] pos1] eqn:El;
    destruct (class_loop_ok _ _ _ _ _ _ _ _ Hb raw_empty El) as (H1 & H2 & H3).
  - destruct (_ <=? _)%nat; [intros [= <- <- <-]; by apply ref_ok_error|].
    set (rc1 := if char_is pattern pos (ord "^") then complement (finalize rc) else finalize rc).
    destruct (make_class_ref b1 rc1) as [ref1 b2] eqn:Em. intros [= <- <- <-].
    assert (class_ok rc1) as Hrc.
    { unfold rc1. pose proof (fun ng : bool => finalize_class_ok rc ng H3) as H.
      destruct (char_is _ _ _); [apply (H true)|apply (H false)]. }
    destruct (inv_make_class_ref b1 rc1 ref1 b2 H1 Hrc Em) as (? & ? & _).
    split_and!; [done|by rewrite (make_class_ref_captures _ _ _ _ Em)|done].
  - intros [= <- <- <-]. split_and!; [done..|congruence].
Qed.

(** * Handlers *)

Lemma on_escape_inv rune pattern b pos b' pos' :
  builder_inv b -> 0 <= rune < 2 ^ 21 -> on_escape rune pattern b pos = (true, b', pos') ->
  builder_inv b'.
Proof.
  intros Hb Hr. unfold on_escape. apply (inv_escaped _ false) in Hb.
  set (b0 := set_escaped b false) in *.
  destruct (_ || _).
  { destruct (parse_unicode_category _ _ _ _) as [[ref b1] pos1] eqn:Ep.
    destruct (parse_unicode_category_ok _ _ _ _ _ _ _ Hb Ep) as (H1 & H2 & H3).
    destruct (ok b1) eqn:Eok; [|done]. intros [= <- <-]. apply inv_emit_atom; [done|by apply H3]. }
  destruct (shorthand_class _) as [sh|] eqn:Es.
  { destruct (negb (allow_shorthand_escapes b0)); [done|].
    destruct (shorthand_class_ok _ _ Es) as (Hs & _ & Hc & _).
    set (rc := if negb (rune =? Z.lor rune 0x20) then complement sh else sh). assert (class_ok rc) as Hrc
      by (unfold rc; destruct (negb _); done).
    destruct (make_class_ref b0 rc) as [ref b1] eqn:Em.
    destruct (inv_make_class_ref _ _ _ _ Hb Hrc Em) as (H1 & H2 & _).
    intros [= <- <-]. by apply inv_emit_atom. }
  destruct (rune =? ord "x").
  { destruct (parse_hex_digits _ _ _ _ _) as [[[v|] b1] pos1] eqn:Eh; [|done].
    apply parse_hex_2 in Eh as (He & _ & Hv). intros [= <- <-].
    apply inv_emit_atom; [by eapply errs_inv|by apply rune_token, Hv]. }
  destruct (rune =? ord "b").
  { destruct (negb _); [done|]. intros [= <- <-]. apply inv_emit_atom; [done|by left]. }
  destruct (is_class_escape rune).
  { intros [= <- <-]. apply inv_emit_atom; [done|]. by apply rune_token, escape_bounds. }
  destruct (allow_extended_identity_escape _ _); [|done].
  intros [= <- <-]. apply inv_emit_atom; [done|by apply rune_token].
Qed.

Lemma on_dot_inv b : builder_inv b -> builder_inv (on_dot b).
Proof.
  intros Hb. unfold on_dot. destruct (make_class_ref b dot) as [ref b1] eqn:Em.
  destruct (inv_make_class_ref _ _ _ _ Hb dot_ok Em) as (H1 & H2 & _). by apply inv_emit_atom.
Qed.

Lemma on_char_class_inv pattern b pos b' pos' :
  builder_inv b -> on_char_class pattern b pos = (true, b', pos') -> builder_inv b'.
Proof.
  intros Hb. unfold on_char_class. destruct (parse_char_class _ _ _) as [[ref b1] pos1] eqn:Ep.
  destruct (parse_char_class_ok _ _ _ _ _ _ Hb Ep) as (H1 & _ & H3).
  destruct (ok b1) eqn:Eok; [|done]. intros [= <- <-]. apply inv_emit_atom; [done|by apply H3].
Qed.

Lemma Forall_drop_take {A} (P : A -> Prop) n l : Forall P l -> Forall P (take n l) /\ Forall P (drop n l).
Proof. split; [by apply Forall_take|by apply Forall_drop]. Qed.

Lemma mandatory_copies_ok P atom n : Forall P atom -> P Catenation ->
  Forall P (mandatory_copies atom n).
Proof.
  intros Ha Hc. unfold mandatory_copies. apply Forall_flat_map, Forall_forall. intros i _.
  apply Forall_app. split; [done|]. case_match; repeat constructor; done.
Qed.

Lemma optional_copies_ok P atom n k : Forall P atom -> P Catenation -> P ZeroOrOne ->
  Forall P (optional_copies atom n k).
Proof.
  intros Ha Hc Hz. unfold optional_copies. apply Forall_flat_map, Forall_forall. intros i _.
  apply Forall_app. split; [done|]. constructor; [done|]. case_match; repeat constructor; done.
Qed.

Lemma operator_token_ok classes captures t : is_operator t = true -> token_ok classes captures t.
Proof. by right; left. Qed.

Lemma expand_repetition_inv b n m unbounded b' :
  builder_inv b -> expand_repetition b n m unbounded = (true, b') -> builder_inv b'.
Proof.
  intros Hb. unfold expand_repetition.
  pose proof (Forall_drop_take _ (atom_start b) _ (inv_postfix _ Hb)) as [Htake Hdrop].
  set (P := token_ok (length (rune_classes b)) (num_captures b)) in *.
  assert (P Catenation /\ P ZeroOrOne /\ P ZeroOrMore) as (HC & HZ & HM)
    by (split_and!; by apply operator_token_ok).
  pose proof (inv_set_postfix b _ Hb Htake) as H1.
  set (b1 := set_postfix b (take (atom_start b) (postfix b))) in *.
  set (atom := drop (atom_start b) (postfix b)) in *.
  destruct (_ <? _); [done|]. destruct (_ && _).
  { intros [= <-]. apply inv_quantified, inv_need_concat.
    destruct (has_pending_concat_to_undo b1); [|done]. exact (inv_pop_operator b1 H1). }
  assert (builder_inv (set_postfix b1 (postfix b1 ++ mandatory_copies atom (Z.to_nat n)))) as H2.
  { apply inv_set_postfix; [done|]. apply Forall_app. split; [done|].
    by apply (mandatory_copies_ok P). }
  set (b2 := set_postfix b1 _) in *.
  set (b3 := if unbounded then _ else _).
  assert (builder_inv b3) as H3.
  { unfold b3. destruct unbounded.
    - apply inv_set_postfix; [done|]. apply Forall_app. split; [apply H2|].
      apply Forall_app. split; [exact Hdrop|]. constructor; [exact HM|].
      destruct (0 <? n); [constructor; [exact HC|]|]; constructor.
    - destruct (n <? m); [|done]. apply inv_set_postfix; [done|]. apply Forall_app.
      split; [apply H2|]. by apply (optional_copies_ok P). }
  destruct (MaxPostfixSize <? Z.of_nat (length (postfix b3))); [done|]. intros [= <-]. by apply inv_quantified, inv_need_concat.
Qed.

Lemma ascii_token classes captures c : 0 <= c < 128 -> token_ok classes captures c.
Proof. intros. apply rune_token. lia. Qed.

Lemma on_open_brace_inv pattern b pos b' pos' :
  builder_inv b -> on_open_brace pattern b pos = (true, b', pos') -> builder_inv b'.
Proof.
  intros Hb. unfold on_open_brace.
  destruct (can_emit_standalone_closer b).
  { intros [= <- <-]. apply inv_emit_unjoined; [done|]. apply ascii_token. done. }
  destruct (is_literal_brace_after_escape pattern b pos).
  { intros [= <- <-]. apply inv_emit_unjoined; [by apply inv_push_concat|]. by apply ascii_token. }
  destruct (atom_is_quantified b); [done|]. destruct (negb (is_ascii_digit_at _ _)); [done|].
  destruct (parse_count_at pattern pos) as [n pos1].
  destruct (if char_is pattern pos1 (ord ",") then _ else _) as [[m unbounded] pos2].
  destruct (negb _); [done|]. destruct (_ || _); [done|]. destruct (_ && _); [done|].
  destruct (expand_repetition b n m unbounded) as [r b1] eqn:Ee. intros [= -> <- <-].
  by eapply expand_repetition_inv.
Qed.

Lemma on_open_group_inv pattern b pos b' pos' :
  builder_inv b -> on_open_group pattern b pos = (true, b', pos') -> builder_inv b'.
Proof.
  intros Hb. unfold on_open_group. destruct (_ && _); [done|].
  set (capturing := negb (is_noncapturing_group_prefix pattern pos)).
  destruct (_ && _); [done|].
  assert (builder_inv (if need_concat b then push_concat b else b)) as H0
    by (destruct (need_concat b); auto with parser).
  set (b0 := if need_concat b then push_concat b else b) in *.
  set (b1 := if capturing then set_num_captures b0 (num_captures b0 + 1) else b0).
  destruct (capturing && (MaxCaptures <? num_captures b1)) eqn:Emax; [done|].
  destruct (_ <=? _); [done|]. intros [= <- <-].
  assert (num_captures b0 <= num_captures b1) as Hle by (unfold b1; destruct capturing; cbn; lia).
  destruct H0 as [H1 H2 H3 H4 H5].
  assert (rune_classes b1 = rune_classes b0 /\ postfix b1 = postfix b0
          /\ operator_stack b1 = operator_stack b0 /\ group_start_stack b1 = group_start_stack b0)
    as (E1 & E2 & E3 & E4) by (unfold b1; by destruct capturing).
  split; cbn; rewrite ?E1, ?E2, ?E3, ?E4; try done.
  - eapply Forall_impl; [exact H2|]. intros t. apply token_ok_mono; [done|lia].
  - by constructor; [right; right|].
  - constructor; [cbn; unfold b1; destruct capturing; cbn; lia|].
    eapply Forall_impl; [exact H4|]. simpl. intros g Hg Hc. specialize (Hg Hc). lia.
  - unfold b1 in *. destruct capturing; cbn in *; lia.
Qed.

Lemma on_close_group_inv b b' :
  builder_inv b -> on_close_group b = (true, b') -> builder_inv b'.
Proof.
  intros Hb. unfold on_close_group. apply (inv_drain (fun top => top =? LParen)) in Hb.
  set (b0 := drain _ b) in *. destruct (has_unmatched_close_paren b0); [done|].
  destruct (group_start_stack b0) as [|gi groups] eqn:Eg; [done|]. intros [= <-].
  pose proof (inv_groups _ Hb) as Hg. rewrite Eg, Forall_cons in Hg. destruct Hg as [Hgi Hgroups].
  set (b1 := set_operator_stack b0 (tail (operator_stack b0))).
  assert (builder_inv b1) as H1.
  { by apply inv_pop_operator. }
  set (b2 := if group_capturing gi then _ else b1).
  assert (builder_inv b2 /\ num_captures b2 = num_captures b0) as [H2 E2].
  { unfold b2. destruct (group_capturing gi) eqn:Ec; [|done]. split; [|done].
    apply inv_push_postfix; [done|]. right. right. specialize (Hgi eq_refl). cbn. lia. }
  apply inv_need_concat. destruct H2. split; cbn; try done.
  by rewrite E2.
Qed.

Lemma on_pipe_inv b : builder_inv b -> builder_inv (on_pipe b).
Proof. intros. apply inv_need_concat. auto with parser. Qed.

Lemma on_quantifier_inv greedy lazy pattern b pos b' pos' :
  is_operator greedy = true -> is_operator lazy = true ->
  builder_inv b -> on_quantifier greedy lazy pattern b pos = (true, b', pos') -> builder_inv b'.
Proof.
  intros Hg Hl Hb. unfold on_quantifier, parse_quantifier_suffix.
  destruct (lacks_quantifiable_atom b); [done|]. destruct (_ && _).
  - intros [= E <- <-]. by rewrite set_error_not_ok in E.
  - intros [= _ <- <-]. apply inv_quantified, inv_push_postfix; [done|].
    apply operator_token_ok. by destruct (char_is _ _ _).
Qed.

Lemma dispatch_inv rune pattern b pos b' pos' :
  builder_inv b -> 0 <= rune < 2 ^ 21 -> dispatch rune pattern b pos = (true, b', pos') ->
  builder_inv b'.
Proof.
  intros Hb Hr. unfold dispatch.
  destruct (escaped b); [by eapply on_escape_inv|].
  destruct (rune =? Backslash); [intros [= <- <-]; by apply inv_escaped|].
  destruct (rune =? ord "."); [intros [= <- <-]; by apply on_dot_inv|].
  destruct (rune =? ord "["); [by eapply on_char_class_inv|].
  destruct (rune =? ord "^"); [intros [= <- <-]; apply inv_emit_atom; [done|by left]|].
  destruct (rune =? ord "$"); [intros [= <- <-]; apply inv_emit_atom; [done|by left]|].
  destruct (rune =? ord "]").
  { unfold on_close_bracket. destruct (can_emit_standalone_closer b); [|done].
    intros [= <- <-]. apply inv_emit_unjoined; [done|]. by apply ascii_token. }
  destruct (rune =? ord "{"); [by eapply on_open_brace_inv|].
  destruct (rune =? ord "}").
  { unfold on_close_brace. destruct (can_emit_standalone_closer b); [|done].
    intros [= <- <-]. apply inv_emit_unjoined; [done|]. by apply ascii_token. }
  destruct (rune =? LParen); [by eapply on_open_group_inv|].
  destruct (rune =? RParen).
  { destruct (on_close_group b) as [r b1] eqn:E. intros [= -> <- <-]. by eapply on_close_group_inv. }
  destruct (rune =? Pipe); [intros [= <- <-]; by apply on_pipe_inv|].
  destruct (rune =? Asterisk); [by eapply on_quantifier_inv|].
  destruct (rune =? Question); [by eapply on_quantifier_inv|].
  destruct (rune =? Plus); [by eapply on_quantifier_inv|].
  intros [= <- <-]. apply inv_emit_atom; [done|by apply rune_token].
Qed.

Lemma parse_loop_inv fuel pattern b pos b' :
  builder_inv b -> parse_loop fuel pattern b pos = (true, b') -> builder_inv b'.
Proof.
  revert b pos. induction fuel as [|fuel IH]; intros b pos Hb; cbn [parse_loop]; [by intros [= <-]|].
  destruct (_ <? _)%nat; [|by intros [= <-]].
  destruct (rune_at pattern pos) as [rune n] eqn:Er. apply rune_at_value in Er.
  destruct (dispatch _ _ _ _) as [[[|] b1] pos1] eqn:Ed; [|done].
  apply IH. by eapply dispatch_inv.
Qed.

(** What a successful parse yields. *)
Record parse_wf (pr : ParseResult) : Prop := {
  wf_classes : Forall class_ok (parse_classes pr);
  wf_tokens : Forall (token_ok (length (parse_classes pr)) (parse_captures pr)) (parse_postfix pr);
  wf_captures : 0 <= parse_captures pr <= MaxCaptures;
  wf_size : Z.of_nat (length (parse_postfix pr)) <= MaxPostfixSize;
}.

Lemma new_builder_inv mode : builder_inv (new_builder mode).
Proof. split; cbn; try constructor; unfold MaxCaptures; lia. Qed.

Lemma parse_result_wf pattern mode pr :
  regexp_to_postfix_runes pattern mode = inr pr -> parse_wf pr.
Proof.
  unfold regexp_to_postfix_runes. destruct (parse_loop _ _ _ _) as [[|] b] eqn:El; [|done].
  apply parse_loop_inv in El; [|apply new_builder_inv].
  unfold finish. apply (inv_drain (fun top => top =? LParen)) in El.
  set (b0 := drain _ b) in *. destruct (operator_stack b0); [|done].
  destruct (escaped b0); [done|]. destruct (Z.ltb_spec MaxPostfixSize (Z.of_nat (length (postfix b0))));
    [done|]. intros [= <-]. destruct El. by split.
Qed.

(** * Failures *)

Lemma on_open_brace_error pattern b pos b' pos' :
  on_open_brace pattern b pos = (false, b', pos') -> ok b' = false.
Proof.
  unfold on_open_brace.
  destruct (can_emit_standalone_closer b); [done|].
  destruct (is_literal_brace_after_escape pattern b pos); [done|].
  destruct (atom_is_quantified b); [intros [= <- <-]; by apply set_error_not_ok|].
  destruct (negb (is_ascii_digit_at _ _)); [intros [= <- <-]; by apply set_error_not_ok|].
  destruct (parse_count_at pattern pos) as [n pos1].
  destruct (if char_is pattern pos1 (ord ",") then _ else _) as [[m unbounded] pos2].
  destruct (negb _); [intros [= <- <-]; by apply set_error_not_ok|].
  destruct (_ || _); [intros [= <- <-]; by apply set_error_not_ok|].
  destruct (_ && _); [intros [= <- <-]; by apply set_error_not_ok|].
  destruct (expand_repetition b n m unbounded) as [r b1] eqn:Ee. intros [= -> <- <-].
  revert Ee. unfold expand_repetition.
  destruct (MaxPostfixSize <? _); [intros [= <-]; by apply set_error_not_ok|].
  destruct (_ && _); [done|].
  destruct (MaxPostfixSize <? _); [intros [= <-]; by apply set_error_not_ok|done].
Qed.

Lemma on_escape_error rune pattern b pos b' pos' :
  on_escape rune pattern b pos = (false, b', pos') -> ok b' = false.
Proof.
  unfold on_escape. destruct (_ || _).
  { destruct (parse_unicode_category _ _ _ _) as [[ref b1] pos1]. destruct (ok b1) eqn:E; [done|].
    by intros [= <- <-]. }
  destruct (shorthand_class _).
  { destruct (negb _); [intros [= <- <-]; by apply set_error_not_ok|].
    by destruct (make_class_ref _ _). }
  destruct (rune =? ord "x").
  { destruct (parse_hex_digits _ _ _ _ _) as [[[v|] b1] pos1] eqn:Eh; [done|].
    apply parse_hex_2 in Eh as (_ & Hn & _). intros [= <- <-]. by apply Hn. }
  destruct (rune =? ord "b").
  { destruct (negb _); [intros [= <- <-]; by apply set_error_not_ok|done]. }
  destruct (is_class_escape rune); [done|].
  destruct (allow_extended_identity_escape _ _); [done|].
  intros [= <- <-]. by apply set_error_not_ok.
Qed.

Lemma dispatch_error rune pattern b pos b' pos' :
  dispatch rune pattern b pos = (false, b', pos') -> ok b' = false.
Proof.
  unfold dispatch. destruct (escaped b); [apply on_escape_error|].
  destruct (rune =? Backslash); [done|]. destruct (rune =? ord "."); [done|].
  destruct (rune =? ord "[").
  { unfold on_char_class. destruct (parse_char_class _ _ _) as [[ref b1] pos1].
    destruct (ok b1) eqn:E; [done|]. by intros [= <- <-]. }
  destruct (rune =? ord "^"); [done|]. destruct (rune =? ord "$"); [done|].
  destruct (rune =? ord "]"); 
    [unfold on_close_bracket; destruct (can_emit_standalone_closer b);
     [done|intros [= <- <-]; by apply set_error_not_ok]|].
  destruct (rune =? ord "{"); [apply on_open_brace_error|].
  destruct (rune =? ord "}"); 
    [unfold on_close_brace; destruct (can_emit_standalone_closer b);
     [done|intros [= <- <-]; by apply set_error_not_ok]|].
  destruct (rune =? LParen).
  { unfold on_open_group. destruct (_ && _); [intros [= <- <-]; by apply set_error_not_ok|].
    destruct (_ && _); [intros [= <- <-]; by apply set_error_not_ok|].
    destruct (_ && _); [intros [= <- <-]; by apply set_error_not_ok|].
    destruct (_ <=? _); [intros [= <- <-]; by apply set_error_not_ok|done]. }
  destruct (rune =? RParen).
  { destruct (on_close_group b) as [r b1] eqn:E. intros [= -> <- <-]. revert E.
    unfold on_close_group. destruct (has_unmatched_close_paren _) eqn:Eu.
    - intros [= <-]. by apply set_error_not_ok.
    - unfold has_unmatched_close_paren in Eu. by destruct (operator_stack _), (group_start_stack _). }
  destruct (rune =? Pipe); [done|].
  assert (forall g l, on_quantifier g l pattern b pos = (false, b', pos') -> ok b' = false) as Hq.
  { intros g l. unfold on_quantifier. destruct (lacks_quantifiable_atom b).
    - intros [= <- <-]. by apply set_error_not_ok.
    - destruct (parse_quantifier_suffix _ _ _ _ _) as [b1 pos1]. by intros [= ? <- <-]. }
  destruct (rune =? Asterisk); [apply Hq|]. destruct (rune =? Question); [apply Hq|].
  destruct (rune =? Plus); [apply Hq|done].
Qed.

(** A parse that fails says why. *)
Lemma parse_error pattern mode code :
  regexp_to_postfix_runes pattern mode = inl code -> code <> NoError.
Proof.
  assert (forall b, ok b = false -> error_code b <> NoError) as Hok
    by (intros b; unfold ok; by destruct (error_code b)).
  unfold regexp_to_postfix_runes. destruct (parse_loop _ _ _ _) as [[|] b] eqn:El.
  - unfold finish. set (b0 := drain _ b).
    destruct (operator_stack b0); [|intros [= <-]; by apply Hok, set_error_not_ok].
    destruct (escaped b0); [intros [= <-]; by apply Hok, set_error_not_ok|].
    destruct (_ <? _); [intros [= <-]; by apply Hok, set_error_not_ok|done].
  - intros [= <-]. apply Hok. revert El. generalize (new_builder mode) 0%nat (length pattern).
    intros b0 pos fuel. revert b0 pos.
    induction fuel as [|fuel IH]; intros b0 pos; cbn [parse_loop]; [done|].
    destruct (_ <? _)%nat; [|done]. destruct (rune_at pattern pos) as [rune n].
    destruct (dispatch _ _ _ _) as [[[|] b1] pos1] eqn:Ed; [apply IH|].
    intros [= <-]. by eapply dispatch_error.
Qed.

(** * The parser always moves on: no reader goes back, and every turn of the class
    loop and of the main loop consumes a rune.  So the fuel of the two loops is
    never what stops them. *)

Lemma parse_hex_digits_moves pattern b pos count out r b' pos' :
  parse_hex_digits pattern b pos count out = (r, b', pos') -> (pos <= pos')%nat.
Proof.
  revert pos out. induction count as [|count IH]; intros pos out; cbn [parse_hex_digits].
  - by intros [= _ _ <-].
  - destruct (pattern !! pos) as [ch|]; [|by intros [= _ _ <-]].
    destruct (hex_digit ch); [|by intros [= _ _ <-]]. intros H%IH. lia.
Qed.

Lemma parse_unicode_category_moves pattern b pos negate ref b' pos' :
  parse_unicode_category pattern b pos negate = (ref, b', pos') -> (pos <= pos')%nat.
Proof.
  unfold parse_unicode_category. destruct (negb _); [intros [= _ _ <-]; lia|].
  destruct (_ <=? _)%nat; [intros [= _ _ <-]; lia|]. destruct (_ || _); [intros [= _ _ <-]; lia|].
  destruct (find_category _); [|intros [= _ _ <-]; lia].
  destruct (make_class_ref _ _). intros [= _ _ <-]. lia.
Qed.

Lemma parse_posix_class_moves pattern b pos rc r b' pos' :
  parse_posix_class pattern b pos rc = (r, b', pos') -> (pos <= pos')%nat.
Proof.
  unfold parse_posix_class. destruct (_ || _); [intros [= _ _ <-]; lia|].
  destruct (posix_ranges _); intros [= _ _ <-]; lia.
Qed.

Lemma class_escape_moves pattern b pos rc item b' pos' :
  class_escape pattern b pos rc = (item, b', pos') -> (pos <= pos')%nat.
Proof.
  unfold class_escape. destruct (_ <=? _)%nat; [intros [= _ _ <-]; lia|].
  destruct (rune_at pattern pos) as [r n]. destruct (_ || _).
  { destruct (parse_unicode_category _ _ _ _) as [[ref b1] pos1] eqn:E.
    apply parse_unicode_category_moves in E. destruct (negb _); intros [= _ _ <-]; lia. }
  destruct (shorthand_class _); [destruct (negb _); intros [= _ _ <-]; lia|].
  destruct (r =? ord "x").
  - destruct (parse_hex_digits _ _ _ _ _) as [[[v|] b1] pos1] eqn:E;
      apply parse_hex_digits_moves in E; intros [= _ _ <-]; lia.
  - repeat case_match; intros [= _ _ <-]; lia.
Qed.

Lemma class_item_moves pattern b pos rc item b' pos' :
  (pos < length pattern)%nat -> class_item pattern b pos rc = (item, b', pos') ->
  (pos <= pos')%nat /\ (item <> ItemError -> (pos < pos')%nat).
Proof.
  intros Hpos. unfold class_item. destruct (_ && _).
  { destruct (negb _); [by intros [= <- _ <-]|].
    destruct (parse_posix_class _ _ _ _) as [[[rc'|] b1] pos1] eqn:E;
      apply parse_posix_class_moves in E; intros [= <- _ <-]; lia. }
  destruct (char_is _ _ _); [intros H%class_escape_moves; lia|].
  pose proof (rune_at_bounds _ _ Hpos). destruct (rune_at pattern pos). intros [= <- _ <-]. lia.
Qed.

Lemma class_hi_moves pattern b pos r b' pos' :
  class_hi pattern b pos = (r, b', pos') -> (pos <= pos')%nat.
Proof.
  unfold class_hi. destruct (char_is _ _ _).
  - destruct (_ <=? _)%nat; [intros [= _ _ <-]; lia|]. destruct (rune_at _ _) as [v n].
    destruct (v =? _); [intros H%parse_hex_digits_moves; lia|].
    repeat case_match; intros [= _ _ <-]; lia.
  - destruct (rune_at _ _). intros [= _ _ <-]. lia.
Qed.

Lemma class_loop_moves fuel pattern b pos rc r b' pos' :
  class_loop fuel pattern b pos rc = (r, b', pos') -> (pos <= pos')%nat.
Proof.
  revert b pos rc. induction fuel as [|fuel IH]; intros b pos rc; cbn [class_loop];
    [by intros [= _ _ <-]|].
  destruct (_ && _) eqn:Eg; [|by intros [= _ _ <-]].
  apply andb_true_iff in Eg as [Hpos%Nat.ltb_lt _].
  destruct (class_item _ _ _ _) as [[item b1] pos1] eqn:Ei.
  destruct (class_item_moves _ _ _ _ _ _ _ Hpos Ei) as [Hi _].
  destruct item as [|rc1|ch]; [by intros [= _ _ <-]|intros H%IH; lia|].
  destruct (range_follows _ _); [|intros H%IH; lia].
  destruct (class_hi _ _ _) as [[[hi|] b2] pos2] eqn:Eh; apply class_hi_moves in Eh;
    [|intros [= _ _ <-]; lia].
  destruct (_ <? _); [intros [= _ _ <-]; lia|]. intros H%IH. lia.
Qed.

(** The class loop stops by itself. *)
Lemma class_loop_fuel fuel fuel' pattern b pos rc :
  (length pattern - pos <= fuel)%nat -> (length pattern - pos <= fuel')%nat ->
  class_loop fuel pattern b pos rc = class_loop fuel' pattern b pos rc.
Proof.
  revert fuel' b pos rc. induction fuel as [|fuel IH]; intros [|fuel'] b pos rc H H'; cbn [class_loop];
    [done|rewrite (proj2 (Nat.ltb_ge _ _)) by lia; done..|].
  destruct (_ && _) eqn:Eg; [|done]. apply andb_true_iff in Eg as [Hpos%Nat.ltb_lt _].
  destruct (class_item _ _ _ _) as [[item b1] pos1] eqn:Ei.
  destruct (class_item_moves _ _ _ _ _ _ _ Hpos Ei) as [_ Hi].
  destruct item as [|rc1|ch]; [done|apply IH; specialize (Hi ltac:(done)); lia|].
  specialize (Hi ltac:(done)). destruct (range_follows _ _); [|apply IH; lia].
  destruct (class_hi _ _ _) as [[[hi|] b2] pos2] eqn:Eh; apply class_hi_moves in Eh; [|done].
  destruct (_ <? _); [done|]. apply IH; lia.
Qed.

(** * Handlers *)

Lemma on_char_class_moves pattern b pos r b' pos' :
  on_char_class pattern b pos = (r, b', pos') -> (pos <= pos')%nat.
Proof.
  unfold on_char_class, parse_char_class.
  set (start := if char_is pattern pos (ord "^") then (pos + 1)%nat else pos).
  assert (pos <= start)%nat by (unfold start; case_match; lia).
  destruct (_ || _); [destruct (negb _); intros [= _ _ <-]; lia|].
  destruct (class_loop _ _ _ _ _) as [[[rc|] b1] pos1] eqn:E; apply class_loop_moves in E.
  - destruct (_ <=? _)%nat; [destruct (negb _); intros [= _ _ <-]; lia|].
    destruct (make_class_ref _ _). destruct (negb _); intros [= _ _ <-]; lia.
  - destruct (negb _); intros [= _ _ <-]; lia.
Qed.

Lemma parse_count_at_moves pattern pos n pos' :
  parse_count_at pattern pos = (n, pos') -> (pos <= pos')%nat.
Proof. unfold parse_count_at. destruct (parse_count _ _). intros [= _ <-]. lia. Qed.

Lemma on_escape_moves rune pattern b pos b' pos' :
  on_escape rune pattern b pos = (true, b', pos') -> (pos <= pos')%nat.
Proof.
  unfold on_escape. destruct (_ || _).
  { destruct (parse_unicode_category _ _ _ _) as [[ref b1] pos1] eqn:E.
    apply parse_unicode_category_moves in E. destruct (negb _); intros [= _ <-]; lia. }
  destruct (shorthand_class _).
  { destruct (negb _); [done|]. destruct (make_class_ref _ _). by intros [= _ <-]. }
  destruct (rune =? ord "x").
  { destruct (parse_hex_digits _ _ _ _ _) as [[[v|] b1] pos1] eqn:E; [|done].
    apply parse_hex_digits_moves in E. by intros [= _ <-]. }
  repeat case_match; first [done|by intros [= _ <-]].
Qed.

Lemma on_open_brace_moves pattern b pos b' pos' :
  on_open_brace pattern b pos = (true, b', pos') -> (pos <= pos')%nat.
Proof.
  unfold on_open_brace. destruct (can_emit_standalone_closer b); [by intros [= _ <-]|].
  destruct (is_literal_brace_after_escape _ _ _); [by intros [= _ <-]|].
  destruct (atom_is_quantified b); [done|]. destruct (negb _); [done|].
  destruct (parse_count_at pattern pos) as [n pos1] eqn:E1. apply parse_count_at_moves in E1.
  set (rest := if char_is pattern pos1 (ord ",") then _ else _).
  assert (pos1 <= rest.2)%nat as Hrest.
  { unfold rest. destruct (char_is _ _ _); [|done]. destruct (is_ascii_digit_at _ _); [|cbn; lia].
    destruct (parse_count_at _ _) as [m pos2] eqn:E2. apply parse_count_at_moves in E2. cbn. lia. }
  destruct rest as [[m unbounded] pos2]. cbn in Hrest. destruct (negb _); [done|].
  destruct (_ || _); [done|]. destruct (_ && _); [done|]. destruct (expand_repetition _ _ _ _) as [[] b1];
    [intros [= _ <-]; lia|done].
Qed.

Lemma on_quantifier_moves greedy lazy pattern b pos b' pos' :
  on_quantifier greedy lazy pattern b pos = (true, b', pos') -> (pos <= pos')%nat.
Proof.
  unfold on_quantifier, parse_quantifier_suffix. destruct (lacks_quantifiable_atom b); [done|].
  destruct (_ && _); intros [= _ _ <-]; [done|]. case_match; lia.
Qed.

Lemma on_open_group_moves pattern b pos b' pos' :
  on_open_group pattern b pos = (true, b', pos') -> (pos <= pos')%nat.
Proof.
  unfold on_open_group. set (noncapturing := is_noncapturing_group_prefix pattern pos).
  destruct (_ && _); [done|]. destruct (_ && _); [done|]. destruct (_ && _); [done|].
  destruct (_ <=? _); [done|]. intros [= _ <-]. destruct noncapturing; lia.
Qed.

Lemma dispatch_moves rune pattern b pos b' pos' :
  dispatch rune pattern b pos = (true, b', pos') -> (pos <= pos')%nat.
Proof.
  unfold dispatch. destruct (escaped b); [apply on_escape_moves|].
  destruct (rune =? Backslash); [by intros [= _ <-]|].
  destruct (rune =? ord "."); [by intros [= _ <-]|].
  destruct (rune =? ord "["); [apply on_char_class_moves|].
  destruct (rune =? ord "^"); [by intros [= _ <-]|]. destruct (rune =? ord "$"); [by intros [= _ <-]|].
  destruct (rune =? ord "]"); [destruct (on_close_bracket b); by intros [= _ _ <-]|].
  destruct (rune =? ord "{"); [apply on_open_brace_moves|].
  destruct (rune =? ord "}"); [destruct (on_close_brace b); by intros [= _ _ <-]|].
  destruct (rune =? LParen); [apply on_open_group_moves|].
  destruct (rune =? RParen); [destruct (on_close_group b); by intros [= _ _ <-]|].
  destruct (rune =? Pipe); [by intros [= _ <-]|].
  destruct (rune =? Asterisk); [apply on_quantifier_moves|].
  destruct (rune =? Question); [apply on_quantifier_moves|].
  destruct (rune =? Plus); [apply on_quantifier_moves|]. by intros [= _ <-].
Qed.

(** The main loop stops by itself too. *)
Lemma parse_loop_fuel fuel fuel' pattern b pos :
  (length pattern - pos <= fuel)%nat -> (length pattern - pos <= fuel')%nat ->
  parse_loop fuel pattern b pos = parse_loop fuel' pattern b pos.
Proof.
  revert fuel' b pos. induction fuel as [|fuel IH]; intros [|fuel'] b pos H H'; cbn [parse_loop];
    [done|rewrite (proj2 (Nat.ltb_ge _ _)) by lia; done..|].
  destruct (Nat.ltb_spec pos (length pattern)) as [Hpos|]; [|done].
  pose proof (rune_at_bounds _ _ Hpos). destruct (rune_at pattern pos) as [rune n].
  destruct (dispatch _ _ _ _) as [[[|] b1] pos1] eqn:Ed; [|done]. apply dispatch_moves in Ed.
  apply IH; lia.
Qed.
