(* ===== verification/PatternSyntax.v ===== *)
(** The concrete syntax of patterns: how a tree is written, with the parentheses
    its precedences need, and its postfix form. *)

From S2P Require Import Prelude Utf8 AsciiBitmap RuneClass RegexSyntax RegexSpec PostfixBuilder.

(** * Leaves *)

(** Runes that mean something else without a backslash. *)
Definition special (c : Z) : bool := one_of (bytes "\.[]^${}()|*?+") c.

Definition show_rune (c : Z) : list Z :=
  if special c then [Backslash; c] else write_rune c.

(** The ways to write a class: the dot, the shorthands and their complements, and
    a bracketed list of ranges. *)
Inductive ClassSource :=
  | AnyRune
  | Shorthand (letter : Z) (negated : bool)
  | Ranges (negated : bool) (items : list (Z * Z)).

Definition shorthand_letter (letter : Z) : bool := one_of (bytes "dsw") letter.

Definition show_range (rg : Z * Z) : list Z := show_rune rg.1 ++ [ord "-"] ++ show_rune rg.2.

Definition show_class (src : ClassSource) : list Z :=
  match src with
  | AnyRune => [ord "."]
  | Shorthand letter negated => [Backslash; if negated then letter - 32 else letter]
  | Ranges negated items =>
      [ord "["] ++ (if negated then [ord "^"] else []) ++ flat_map show_range items ++ [ord "]"]
  end.

(** The class a source stands for. *)
Definition class_value (src : ClassSource) : RuneClass :=
  match src with
  | AnyRune => dot
  | Shorthand letter negated =>
      let rc := default empty_class (shorthand_class letter) in
      if negated then complement rc else rc
  | Ranges negated items =>
      let rc := finalize (add_ranges empty_class items) in
      if negated then complement rc else rc
  end.

Definition rune_ok (c : Z) : bool := (0 <=? c) && (c <=? Max4).

Definition range_ok (rg : Z * Z) : bool :=
  rune_ok rg.1 && rune_ok rg.2 && (rg.1 <=? rg.2).

Definition source_ok (src : ClassSource) : bool :=
  match src with
  | AnyRune => true
  | Shorthand letter _ => shorthand_letter letter
  | Ranges _ items => negb (length items =? 0)%nat && forallb range_ok items
  end.

(** * Trees *)

Definition prec (r : re) : nat :=
  match r with Alt _ _ => 0 | Cat _ _ => 1 | Quant _ _ _ => 2 | _ => 3 end.

Definition quantifier_char (kind : QuantifierKind) : Z :=
  match kind with
  | QZeroOrOne => Question
  | QZeroOrMore => Asterisk
  | QOneOrMore => Plus
  end.

Definition quantifier_label (kind : QuantifierKind) (lazy : bool) : Z :=
  match kind, lazy with
  | QZeroOrOne, false => ZeroOrOne
  | QZeroOrOne, true => LazyZeroOrOne
  | QZeroOrMore, false => ZeroOrMore
  | QZeroOrMore, true => LazyZeroOrMore
  | QOneOrMore, false => OneOrMore
  | QOneOrMore, true => LazyOneOrMore
  end.

Definition parens (wrap : bool) (text : list Z) : list Z :=
  if wrap then bytes "(?:" ++ text ++ [RParen] else text.

Section Printing.
Context (sources : list ClassSource).

Definition show_label (l : Z) : list Z :=
  if is_class_ref l then
    match sources !! class_ref_index l with Some src => show_class src | None => [] end
  else if l =? WordBoundary then bytes "\b"
  else if l =? StartAnchor then [ord "^"]
  else if l =? EndAnchor then [ord "$"]
  else show_rune l.

(** The text of a tree where an operand of precedence [level] is wanted. *)
Fixpoint show (level : nat) (r : re) : list Z :=
  parens (prec r <? level)%nat
    match r with
    | Label l => show_label l
    | Cat a b => show 1 a ++ show 2 b
    | Alt a b => show 0 a ++ [Pipe] ++ show 1 b
    | Quant kind lazy a =>
        show 3 a ++ [quantifier_char kind] ++ (if lazy then [Question] else [])
    | Group _ a => [LParen] ++ show 0 a ++ [RParen]
    end.

(** The nesting of parentheses in the text. *)
Fixpoint depth (level : nat) (r : re) : nat :=
  ((if (prec r <? level)%nat then 1 else 0)
   + match r with
     | Label _ => 0
     | Cat a b => Nat.max (depth 1 a) (depth 2 b)
     | Alt a b => Nat.max (depth 0 a) (depth 1 b)
     | Quant _ _ a => depth 3 a
     | Group _ a => S (depth 0 a)
     end)%nat.

(** Groups and classes are numbered in the order of their text; [None] when the
    tree's numbers are others, or a leaf cannot be written. *)
Fixpoint number (r : re) (groups classes : nat) : option (nat * nat) :=
  match r with
  | Label l =>
      if is_class_ref l then
        if (class_ref_index l =? classes)%nat && (classes <? length sources)%nat
        then Some (groups, S classes) else None
      else if rune_ok l || is_conditional l then Some (groups, classes) else None
  | Cat a b | Alt a b =>
      match number a groups classes with
      | Some (groups, classes) => number b groups classes
      | None => None
      end
  | Quant _ _ a => number a groups classes
  | Group idx a => if (idx =? groups)%nat then number a (S groups) classes else None
  end.
End Printing.

(** The postfix form of a tree. *)
Fixpoint post (r : re) : list Z :=
  match r with
  | Label l => [l]
  | Cat a b => post a ++ post b ++ [Catenation]
  | Alt a b => post a ++ post b ++ [Alternation]
  | Quant kind lazy a => post a ++ [quantifier_label kind lazy]
  | Group idx a => post a ++ [CaptureGroup + Z.of_nat idx]
  end.
