(* ===== verification/PatternParse.v ===== *)
(** Reading back what was written: the parser, run on the text of a tree, yields the
    tree's postfix form, its classes and its groups. *)
From S2P Require Import Prelude.
From S2P Require Import Utf8.
From S2P Require Import AsciiBitmap.
From S2P Require Import UnicodeData.
From S2P Require Import RuneClass.
From S2P Require Import RegexSyntax.
From S2P Require Import PostfixBuilder.
From S2P Require Import RegexSpec.
From S2P Require Import ParserFacts.
From S2P Require Import PatternSyntax.

(** * Positions in the pattern *)

Lemma drop_past {A} (l t rest : list A) pos :
  drop pos l = t ++ rest -> drop (pos + length t) l = rest.
Proof. intros H. by rewrite <-drop_drop, H, drop_app_length. Qed.

Lemma drop_past_1 {A} (l rest : list A) x pos :
  drop pos l = x :: rest -> drop (pos + 1) l = rest.
Proof. intros H. exact (drop_past l [x] rest pos H). Qed.

Lemma drop_some_lt {A} (l : list A) x rest pos : drop pos l = x :: rest -> (pos < length l)%nat.
Proof. intros H. apply (f_equal length) in H. rewrite length_drop in H. cbn in H. lia. Qed.

Lemma char_is_drop pattern pos c x rest :
  drop pos pattern = x :: rest -> char_is pattern pos c = (x =? c).
Proof.
  intros H. unfold char_is. rewrite <-(Nat.add_0_r pos), <-lookup_drop, H. done.
Qed.

Lemma char_is_end pattern pos c : drop pos pattern = [] -> char_is pattern pos c = false.
Proof.
  intros H. unfold char_is. rewrite <-(Nat.add_0_r pos), <-lookup_drop, H. done.
Qed.

Lemma rune_at_write pattern pos c rest :
  drop pos pattern = write_rune c ++ rest -> 0 <= c <= Max4 ->
  rune_at pattern pos = (c, length (write_rune c)).
Proof.
  intros H Hc. unfold rune_at. destruct (decode_write c rest Hc) as (c0 & cs & E & D).
  rewrite H, E. cbn [app]. by rewrite D, E.
Qed.

Lemma rune_at_ascii pattern pos c rest :
  drop pos pattern = c :: rest -> 0 <= c < 128 -> rune_at pattern pos = (c, 1%nat).
Proof. intros H Hc. unfold rune_at. rewrite H. by apply decode_1. Qed.

(** * The main loop without its fuel *)

Definition parse_from (pattern : list Z) (b : Builder) (pos : nat) : bool * Builder :=
  parse_loop (length pattern - pos) pattern b pos.

Lemma parse_from_end pattern b pos : drop pos pattern = [] -> parse_from pattern b pos = (true, b).
Proof.
  intros H. apply (f_equal length) in H. rewrite length_drop in H. unfold parse_from. cbn in H. by rewrite H.
Qed.

Lemma parse_from_step pattern b pos c n b' pos' x rest :
  drop pos pattern = x :: rest -> rune_at pattern pos = (c, n) ->
  dispatch c pattern b (pos + n) = (true, b', pos') ->
  parse_from pattern b pos = parse_from pattern b' pos'.
Proof.
  intros H%drop_some_lt Hr Hd. unfold parse_from.
  rewrite (parse_loop_fuel _ (S (length pattern - pos)) pattern b pos) by lia. cbn [parse_loop].
  rewrite (proj2 (Nat.ltb_lt _ _) H), Hr, Hd.
  pose proof (rune_at_bounds _ _ H) as Hn. rewrite Hr in Hn. apply dispatch_moves in Hd.
  apply parse_loop_fuel; lia.
Qed.

Lemma parse_from_ascii pattern b pos c b' pos' rest :
  drop pos pattern = c :: rest -> 0 <= c < 128 ->
  dispatch c pattern b (pos + 1) = (true, b', pos') ->
  parse_from pattern b pos = parse_from pattern b' pos'.
Proof. intros H Hc Hd. eapply parse_from_step; [exact H|by eapply rune_at_ascii|exact Hd]. Qed.

(** * Written runes *)

(** Membership in the codes of a literal, as equations between numbers. *)
Ltac codes_in H :=
  unfold one_of in H;
  let codes := fresh "codes" in
  set (codes := bytes _) in H; vm_compute in codes; subst codes; cbn [existsb] in H.

Lemma special_cases (P : Z -> Prop) c : Forall P (bytes "\.[]^${}()|*?+") -> special c = true -> P c.
Proof.
  intros H Hs. unfold special, one_of in Hs. apply existsb_exists in Hs as (x & Hx & E).
  apply Z.eqb_eq in E as <-. rewrite Forall_forall in H. apply H. by apply list_elem_of_In.
Qed.

Lemma special_ascii c : special c = true -> 0 <= c < 128.
Proof. apply (special_cases (fun c => 0 <= c < 128)). repeat constructor; cbn; lia. Qed.

Lemma rune_ok_bounds c : rune_ok c = true -> 0 <= c <= Max4.
Proof. unfold rune_ok. lia. Qed.

(** The first byte of a rune that needs no backslash needs none. *)
Lemma write_rune_head c : 0 <= c <= Max4 -> special c = false ->
  exists h t, write_rune c = h :: t /\ special h = false.
Proof.
  intros Hc Hs. destruct (Z.le_gt_cases c Max1).
  - rewrite write_rune_1 by lia. by exists c, [].
  - assert (exists h t, write_rune c = h :: t /\ 128 <= h) as (h & t & E & Hh).
    { destruct (rune_cases c Hc) as [?|[?|[?|?]]]; unfold Max1, Max2, Max3, Max4 in *; [lia|..];
        rewrite ?write_rune_2, ?write_rune_3, ?write_rune_4 by (unfold Max1, Max2, Max3, Max4; lia);
        eexists _, _; (split; [done|arith]). }
    exists h, t. split; [done|]. destruct (special h) eqn:Eh; [|done]. apply special_ascii in Eh. lia.
Qed.

Lemma show_rune_head c : rune_ok c = true ->
  exists h t, show_rune c = h :: t /\ (h = Backslash \/ special h = false).
Proof.
  intros Hc%rune_ok_bounds. unfold show_rune. destruct (special c) eqn:Es.
  - exists Backslash, [c]. auto.
  - destruct (write_rune_head c Hc Es) as (h & t & -> & Hh). exists h, t. auto.
Qed.

(** What a first byte of a written rune is not. *)
Lemma head_not h x : h = Backslash \/ special h = false -> special x = true -> x <> Backslash -> (h =? x) = false.
Proof. intros [->|H] Hx Hn; apply Z.eqb_neq; congruence. Qed.

(** * What the parser has read so far *)

(** The fields of the builder that the rest of the pattern depends on. *)
Record Core := mkCore {
  out : list Z;
  ops : list Z;
  joined : bool;
  nesting : list GroupInfo;
  opened : nat;
  used : nat;
}.

Definition join (c : Core) : Core :=
  if joined c then
    let '(s, o) := pop_operators (fun top => negb (top =? Catenation)) (ops c) (out c) in
    mkCore o (Catenation :: s) true (nesting c) (opened c) (used c)
  else c.

Definition emit (c : Core) (l : Z) : Core :=
  mkCore (out (join c) ++ [l]) (ops (join c)) true (nesting c) (opened c) (used c).

Definition use (c : Core) : Core :=
  mkCore (out c) (ops c) (joined c) (nesting c) (opened c) (S (used c)).

Section Parsing.
Context (sources : list ClassSource).
Context (Hroom : Z.of_nat (length sources) <= RuneClassMax - RuneClassBase + 1).
Context (Hsources : forallb source_ok sources = true).

Record has_core (b : Builder) (c : Core) : Prop := {
  core_out : postfix b = out c;
  core_ops : operator_stack b = ops c;
  core_joined : need_concat b = joined c;
  core_nesting : group_start_stack b = nesting c;
  core_opened : num_captures b = Z.of_nat (opened c);
  core_used : rune_classes b = map class_value (take (used c) sources);
  core_error : error_code b = NoError;
  core_mode : syntax_mode b = Extended;
  core_escaped : escaped b = false;
}.

Lemma core_push_concat b c : has_core b c -> joined c = true -> has_core (push_concat b) (join c).
Proof.
  intros [] Hj. unfold push_concat, drain, join. rewrite Hj, <-core_out0, <-core_ops0.
  destruct (pop_operators _ _ _) as [s o]. split; cbn; congruence.
Qed.

Lemma core_join b c : has_core b c -> has_core (if need_concat b then push_concat b else b) (join c).
Proof.
  intros H. rewrite (core_joined _ _ H). destruct (joined c) eqn:E; [by apply core_push_concat|].
  unfold join. by rewrite E.
Qed.

Lemma core_emit b c l : has_core b c ->
  has_core (emit_atom b l) (emit c l) /\ atom_is_quantified (emit_atom b l) = false.
Proof.
  intros H. split; [|done]. pose proof (core_join b c H) as []. unfold emit_atom.
  destruct H. assert (nesting (join c) = nesting c /\ opened (join c) = opened c /\ used (join c) = used c)
    as (E1 & E2 & E3).
  { unfold join. destruct (joined c); [|done]. by destruct (pop_operators _ _ _). }
  split; cbn; congruence.
Qed.

Lemma core_escape b c : has_core b c -> set_escaped (set_escaped b true) false = b.
Proof. intros [_ _ _ _ _ _ _ _ H]. destruct b. cbn in *. by subst. Qed.

Lemma core_class b c src : has_core b c -> sources !! used c = Some src ->
  exists b', make_class_ref b (class_value src) = (RuneClassBase + Z.of_nat (used c), b')
             /\ has_core b' (use c).
Proof.
  intros [] Hs. pose proof (lookup_lt_Some _ _ _ Hs). unfold make_class_ref.
  assert (length (rune_classes b) = used c) as ->.
  { rewrite core_used0, length_map, length_take. lia. }
  rewrite (proj2 (Z.ltb_ge _ _)) by lia. eexists; split; [done|].
  split; cbn; try done. rewrite core_used0, (take_S_r _ _ _ Hs), map_app. done.
Qed.

(** * Leaves *)

(** [text], read at a position, takes the builder to one with core [c']. *)
Definition reads (pattern : list Z) (b : Builder) (pos : nat) (text : list Z) (c' : Core) : Prop :=
  exists b', parse_from pattern b pos = parse_from pattern b' (pos + length text)
             /\ has_core b' c' /\ atom_is_quantified b' = false.

Lemma read_emit pattern b b1 pos text c l :
  has_core b1 c ->
  parse_from pattern b pos = parse_from pattern (emit_atom b1 l) (pos + length text) ->
  reads pattern b pos text (emit c l).
Proof. intros H E. destruct (core_emit b1 c l H). by exists (emit_atom b1 l). Qed.

Lemma dispatch_literal c pattern b pos : special c = false -> escaped b = false ->
  dispatch c pattern b pos = (true, emit_atom b c, pos).
Proof.
  intros Hs He. unfold dispatch. rewrite He. unfold special in Hs. codes_in Hs.
  unfold Backslash, LParen, RParen, Pipe, Asterisk, Question, Plus. ords.
  repeat (rewrite (proj2 (Z.eqb_neq _ _)) by lia). done.
Qed.

Lemma escape_special c pattern b pos : special c = true ->
  on_escape c pattern b pos = (true, emit_atom (set_escaped b false) c, pos).
Proof.
  apply (special_cases (fun c => on_escape c pattern b pos
    = (true, emit_atom (set_escaped b false) c, pos))).
  repeat (apply Forall_cons; split; [reflexivity|]). constructor.
Qed.

(** A backslash and the rune after it, which the handler of escapes turns into [b']. *)
Lemma parse_from_escape pattern b c pos e rest b' :
  has_core b c -> drop pos pattern = Backslash :: e :: rest -> 0 <= e < 128 ->
  on_escape e pattern (set_escaped b true) (pos + 1 + 1) = (true, b', (pos + 1 + 1)%nat) ->
  parse_from pattern b pos = parse_from pattern b' (pos + 2).
Proof.
  intros Hc Hd He E. pose proof (drop_past_1 _ _ _ _ Hd) as Hd1.
  rewrite (parse_from_ascii pattern b pos Backslash (set_escaped b true) (pos + 1) _ Hd ltac:(done)).
  2: { unfold dispatch. by rewrite (core_escaped _ _ Hc). }
  rewrite (parse_from_ascii pattern _ (pos + 1) e b' (pos + 1 + 1) _ Hd1 He); [by rewrite <-Nat.add_assoc|].
  exact E.
Qed.

Lemma read_rune pattern b pos rest c l :
  drop pos pattern = show_rune l ++ rest -> rune_ok l = true -> has_core b c ->
  reads pattern b pos (show_rune l) (emit c l).
Proof.
  intros Hd Hl%rune_ok_bounds Hc. apply (read_emit _ _ b); [done|]. unfold show_rune in *.
  destruct (special l) eqn:Es.
  - eapply parse_from_escape; [exact Hc|exact Hd|by apply special_ascii|].
    rewrite escape_special by done. by rewrite (core_escape b c).
  - destruct (write_rune_head l Hl Es) as (h & t & E & _). pose proof Hd as Hd'. rewrite E in Hd'.
    eapply parse_from_step; [exact Hd'|by eapply rune_at_write|].
    apply dispatch_literal; [done|apply Hc].
Qed.

(** ** Character classes *)

Lemma class_escape_special e pattern b pos rc rest : special e = true ->
  drop pos pattern = e :: rest -> class_escape pattern b pos rc = (ItemChar e, b, (pos + 1)%nat).
Proof.
  intros Hs Hd. unfold class_escape. pose proof (drop_some_lt _ _ _ _ Hd).
  rewrite (proj2 (Nat.leb_gt _ _)), (rune_at_ascii _ _ _ _ Hd) by (done || by apply special_ascii).
  clear Hd. pattern e. apply (special_cases _ e); [|exact Hs]. clear.
  repeat (apply Forall_cons; split; [reflexivity|]). constructor.
Qed.

Lemma class_item_rune pattern b pos rc c rest : rune_ok c = true ->
  drop pos pattern = show_rune c ++ rest ->
  class_item pattern b pos rc = (ItemChar c, b, (pos + length (show_rune c))%nat).
Proof.
  intros Hc%rune_ok_bounds Hd. unfold class_item, show_rune in *. destruct (special c) eqn:Es.
  - pose proof (drop_past_1 _ _ _ _ Hd) as Hd1. rewrite !(char_is_drop _ _ _ _ _ Hd).
    cbn [andb Z.eqb]. change (Backslash =? ord "[") with false. change (Backslash =? ord "\") with true.
    cbn [andb]. rewrite (class_escape_special c _ _ _ _ _ Es Hd1). by rewrite <-Nat.add_assoc.
  - destruct (write_rune_head c Hc Es) as (h & t & E & Hh). pose proof Hd as Hd'. rewrite E in Hd'.
    rewrite !(char_is_drop _ _ _ _ _ Hd').
    assert ((h =? ord "[") = false /\ (h =? ord "\") = false) as [-> ->].
    { split; apply Z.eqb_neq; intros ->; done. }
    cbn [andb]. by rewrite (rune_at_write _ _ _ _ Hd Hc).
Qed.

Lemma class_hi_rune pattern b pos c rest : rune_ok c = true ->
  drop pos pattern = show_rune c ++ rest ->
  class_hi pattern b pos = (Some c, b, (pos + length (show_rune c))%nat).
Proof.
  intros Hc%rune_ok_bounds Hd. unfold class_hi, show_rune in *. destruct (special c) eqn:Es.
  - pose proof (drop_past_1 _ _ _ _ Hd) as Hd1. rewrite (char_is_drop _ _ _ _ _ Hd).
    change (Backslash =? ord "\") with true. cbv iota. cbv zeta.
    pose proof (drop_some_lt _ _ _ _ Hd1).
    rewrite (proj2 (Nat.leb_gt _ _)), (rune_at_ascii _ _ _ _ Hd1) by (done || by apply special_ascii).
    replace (pos + length [Backslash; c])%nat with (pos + 1 + 1)%nat by (cbn; lia).
    clear Hd Hd1. pattern c. apply (special_cases _ c); [|exact Es]. clear.
    repeat (apply Forall_cons; split; [reflexivity|]). constructor.
  - destruct (write_rune_head c Hc Es) as (h & t & E & Hh). pose proof Hd as Hd'. rewrite E in Hd'.
    rewrite !(char_is_drop _ _ _ _ _ Hd').
    assert ((h =? ord "\") = false) as -> by (apply Z.eqb_neq; intros ->; done).
    by rewrite (rune_at_write _ _ _ _ Hd Hc).
Qed.

(** A written range, up to what follows it. *)
Lemma class_turn_range fuel pattern b pos rc rg rest : range_ok rg = true ->
  drop pos pattern = show_range rg ++ rest ->
  class_loop (S fuel) pattern b pos rc
  = class_loop fuel pattern b (pos + length (show_range rg)) (add_range rc rg.1 rg.2).
Proof.
  unfold range_ok, show_range. rewrite !andb_true_iff. intros [[Hlo Hhi] Hle] Hd. rewrite <-app_assoc in Hd.
  destruct (show_rune_head _ Hlo) as (h & t & El & Hh).
  destruct (show_rune_head _ Hhi) as (h' & t' & Eh & Hh').
  assert (drop pos pattern = h :: (t ++ ([ord "-"] ++ show_rune rg.2) ++ rest)) as Hd0
    by (rewrite Hd, El; done).
  cbn [class_loop]. rewrite (proj2 (Nat.ltb_lt _ _) (drop_some_lt _ _ _ _ Hd0)).
  rewrite (char_is_drop _ _ _ _ _ Hd0), (head_not h (ord "]")) by done. cbn [andb negb].
  rewrite (class_item_rune _ _ _ _ _ _ Hlo Hd).
  pose proof (drop_past _ _ _ _ Hd) as Hd1. cbn [app] in Hd1.
  pose proof (drop_past_1 _ _ _ _ Hd1) as Hd2. pose proof Hd2 as Hd3. rewrite Eh in Hd3. cbn [app] in Hd3.
  unfold range_follows. rewrite (proj2 (Nat.ltb_lt _ _) (drop_some_lt _ _ _ _ Hd3)).
  rewrite (char_is_drop _ _ _ _ _ Hd1), (char_is_drop _ _ _ _ _ Hd3), (head_not h' (ord "]")) by done.
  cbn [andb negb]. rewrite Z.eqb_refl, (class_hi_rune _ _ _ _ _ Hhi Hd2).
  rewrite (proj2 (Z.ltb_ge _ _)) by lia. f_equal. rewrite !length_app. cbn [length]. lia.
Qed.

Lemma class_loop_ranges fuel pattern b pos rc items rest : forallb range_ok items = true ->
  (length items <= fuel)%nat ->
  drop pos pattern = flat_map show_range items ++ ord "]" :: rest ->
  class_loop fuel pattern b pos rc
  = (Some (add_ranges rc items), b, (pos + length (flat_map show_range items))%nat).
Proof.
  revert fuel pos rc. induction items as [|rg items IH]; intros fuel pos rc Hok Hf Hd.
  - cbn in Hd |- *. rewrite Nat.add_0_r. destruct fuel as [|fuel]; [done|]. cbn [class_loop].
    rewrite (char_is_drop _ _ _ _ _ Hd), Z.eqb_refl. by rewrite andb_false_r.
  - destruct fuel as [|fuel]; [cbn in Hf; lia|]. cbn [forallb flat_map length] in *.
    rewrite <-app_assoc in Hd. apply andb_true_iff in Hok as [H1 H2].
    rewrite (class_turn_range fuel pattern b pos rc rg _ H1 Hd).
    rewrite (IH fuel _ _ H2 ltac:(lia) (drop_past _ _ _ _ Hd)), length_app. f_equal. lia.
Qed.

Lemma ranges_length items : (length items <= length (flat_map show_range items))%nat.
Proof.
  induction items as [|rg items IH]; [done|]. cbn [flat_map length]. unfold show_range at 1.
  rewrite !length_app. cbn [length]. lia.
Qed.

(** Past the caret. *)
Lemma class_start pattern pos (negated : bool) items rest :
  forallb range_ok items = true -> items <> [] ->
  drop pos pattern = (if negated then [ord "^"] else []) ++ flat_map show_range items ++ rest ->
  let pos1 := (pos + if negated then 1 else 0)%nat in
  char_is pattern pos (ord "^") = negated
  /\ drop pos1 pattern = flat_map show_range items ++ rest
  /\ ((length pattern <=? pos1)%nat || char_is pattern pos1 (ord "]")) = false.
Proof.
  intros Hok Hne Hd pos1. destruct items as [|rg items]; [done|]. cbn [forallb] in Hok.
  apply andb_true_iff in Hok as [Hrg _]. unfold range_ok in Hrg. rewrite !andb_true_iff in Hrg.
  destruct Hrg as [[Hlo _] _]. destruct (show_rune_head _ Hlo) as (h & t & El & Hh).
  assert (exists t', flat_map show_range (rg :: items) ++ rest = h :: t') as [t' Eall].
  { cbn [flat_map]. unfold show_range at 1. rewrite El. cbn [app]. by eexists. }
  assert (drop pos1 pattern = h :: t') as Hd1.
  { unfold pos1. rewrite Eall in Hd. destruct negated; [by apply drop_past_1 in Hd|by rewrite Nat.add_0_r]. }
  split_and!.
  - destruct negated; cbn [app] in Hd.
    + by rewrite (char_is_drop _ _ _ _ _ Hd).
    + rewrite Eall in Hd. by rewrite (char_is_drop _ _ _ _ _ Hd), (head_not h (ord "^")).
  - by rewrite Hd1, Eall.
  - rewrite (proj2 (Nat.leb_gt _ _) (drop_some_lt _ _ _ _ Hd1)).
    by rewrite (char_is_drop _ _ _ _ _ Hd1), (head_not h (ord "]")).
Qed.

Lemma parse_char_class_ranges pattern b pos rest (negated : bool) items :
  source_ok (Ranges negated items) = true ->
  drop (pos + 1) pattern = (if negated then [ord "^"] else []) ++ flat_map show_range items ++ ord "]" :: rest ->
  parse_char_class pattern b (pos + 1)
  = let '(ref, b) := make_class_ref b (class_value (Ranges negated items)) in
    (ref, b, (pos + length (show_class (Ranges negated items)))%nat).
Proof.
  intros [Hne Hitems]%andb_true_iff Hd. assert (items <> []) as Hne' by (by destruct items).
  destruct (class_start _ _ _ _ _ Hitems Hne' Hd) as (En & Hd2 & Estop).
  unfold parse_char_class. rewrite En.
  replace (if negated then (pos + 1 + 1)%nat else (pos + 1)%nat)
    with (pos + 1 + if negated then 1 else 0)%nat by (destruct negated; lia).
  rewrite Estop. set (pos1 := (pos + 1 + _)%nat) in *.
  rewrite (class_loop_ranges (length pattern) pattern b pos1 empty_class items rest Hitems).
  3: { exact Hd2. }
  2: { pose proof (ranges_length items) as Hl. apply (f_equal length) in Hd2.
       rewrite length_drop, !length_app in Hd2. lia. }
  apply drop_past in Hd2. rewrite (proj2 (Nat.leb_gt _ _) (drop_some_lt _ _ _ _ Hd2)).
  cbn [class_value show_class app length]. destruct (make_class_ref _ _) as [ref b1]. f_equal.
  unfold pos1. rewrite !length_app. cbn [length]. destruct negated; cbn [length]; lia.
Qed.

Lemma read_ranges pattern b pos rest c negated items :
  drop pos pattern = show_class (Ranges negated items) ++ rest ->
  source_ok (Ranges negated items) = true -> sources !! used c = Some (Ranges negated items) ->
  has_core b c ->
  reads pattern b pos (show_class (Ranges negated items))
    (emit (use c) (RuneClassBase + Z.of_nat (used c))).
Proof.
  intros Hd Hok Hs Hc. destruct (core_class _ _ _ Hc Hs) as (b1 & Em & Hc1).
  eapply read_emit; [exact Hc1|]. cbn [show_class] in Hd. rewrite <-!app_assoc in Hd. cbn [app] in Hd.
  eapply parse_from_ascii; [exact Hd|done|].
  unfold dispatch. rewrite (core_escaped _ _ Hc).
  change (on_char_class pattern b (pos + 1)
    = (true, emit_atom b1 (RuneClassBase + Z.of_nat (used c)),
       (pos + length (show_class (Ranges negated items)))%nat)).
  unfold on_char_class.
  rewrite (parse_char_class_ranges _ _ _ rest _ _ Hok (drop_past_1 _ _ _ _ Hd)), Em.
  unfold ok. by rewrite (core_error _ _ Hc1).
Qed.

Lemma shorthand_cases (P : Z -> Prop) letter :
  P (ord "d") -> P (ord "s") -> P (ord "w") -> shorthand_letter letter = true -> P letter.
Proof.
  intros Hd Hs Hw H. unfold shorthand_letter in H. codes_in H. ords.
  assert (letter = 100 \/ letter = 115 \/ letter = 119) as [->|[->| ->]] by lia; done.
Qed.

Lemma escape_shorthand letter (negated : bool) pattern b pos :
  shorthand_letter letter = true -> syntax_mode b = Extended ->
  on_escape (if negated then letter - 32 else letter) pattern b pos
  = let '(ref, b') := make_class_ref (set_escaped b false) (class_value (Shorthand letter negated)) in
    (true, emit_atom b' ref, pos).
Proof.
  intros Hl Hm. pattern letter. apply shorthand_cases; [..|exact Hl]; clear letter Hl;
    destruct negated; unfold on_escape, allow_shorthand_escapes, is_extended_mode;
    cbn [set_escaped syntax_mode]; rewrite Hm; reflexivity.
Qed.

Lemma read_shorthand pattern b pos rest c letter negated :
  drop pos pattern = show_class (Shorthand letter negated) ++ rest ->
  source_ok (Shorthand letter negated) = true ->
  sources !! used c = Some (Shorthand letter negated) -> has_core b c ->
  reads pattern b pos (show_class (Shorthand letter negated))
    (emit (use c) (RuneClassBase + Z.of_nat (used c))).
Proof.
  intros Hd Hok Hs Hc. destruct (core_class _ _ _ Hc Hs) as (b1 & Em & Hc1).
  eapply read_emit; [exact Hc1|]. cbn [show_class app] in Hd.
  eapply parse_from_escape; [exact Hc|exact Hd| |].
  - apply (shorthand_cases (fun letter => 0 <= (if negated then letter - 32 else letter) < 128));
      [..|exact Hok]; ords; destruct negated; lia.
  - rewrite escape_shorthand by (done || apply Hc). by rewrite (core_escape _ _ Hc), Em.
Qed.

Lemma read_dot pattern b pos rest c :
  drop pos pattern = show_class AnyRune ++ rest -> sources !! used c = Some AnyRune -> has_core b c ->
  reads pattern b pos (show_class AnyRune) (emit (use c) (RuneClassBase + Z.of_nat (used c))).
Proof.
  intros Hd Hs Hc. destruct (core_class _ _ _ Hc Hs) as (b1 & Em & Hc1).
  eapply read_emit; [exact Hc1|]. eapply parse_from_ascii; [exact Hd|done|].
  unfold dispatch. rewrite (core_escaped _ _ Hc).
  change ((true, on_dot b, (pos + 1)%nat)
    = (true, emit_atom b1 (RuneClassBase + Z.of_nat (used c)), (pos + 1)%nat)).
  unfold on_dot. change dot with (class_value AnyRune). by rewrite Em.
Qed.

(** ** Labels *)

Lemma core_mode_boundary b c : has_core b c -> allow_word_boundary_escape b = true.
Proof. intros H. unfold allow_word_boundary_escape, is_extended_mode. by rewrite (core_mode _ _ H). Qed.

Lemma read_condition pattern b pos rest c l :
  drop pos pattern = show_label sources l ++ rest -> is_conditional l = true -> has_core b c ->
  reads pattern b pos (show_label sources l) (emit c l).
Proof.
  intros Hd Hl Hc. eapply read_emit; [exact Hc|].
  assert (l = WordBoundary \/ l = StartAnchor \/ l = EndAnchor) as [->|[->| ->]]
    by (unfold is_conditional in Hl; lia).
  - eapply parse_from_escape; [exact Hc|exact Hd|done|]. unfold on_escape.
    rewrite (core_escape _ _ Hc), (core_mode_boundary _ _ Hc). done.
  - eapply parse_from_ascii; [exact Hd|done|]. unfold dispatch. by rewrite (core_escaped _ _ Hc).
  - eapply parse_from_ascii; [exact Hd|done|]. unfold dispatch. by rewrite (core_escaped _ _ Hc).
Qed.

Lemma source_ok_lookup k src : sources !! k = Some src -> source_ok src = true.
Proof.
  intros H%list_elem_of_lookup_2%list_elem_of_In. by apply (proj1 (forallb_forall _ _) Hsources).
Qed.

Lemma read_class pattern b pos rest c l src :
  drop pos pattern = show_class src ++ rest -> sources !! used c = Some src ->
  l = RuneClassBase + Z.of_nat (used c) -> has_core b c ->
  reads pattern b pos (show_class src) (emit (use c) l).
Proof.
  intros Hd Hs -> Hc. pose proof (source_ok_lookup _ _ Hs).
  destruct src; [eapply read_dot|eapply read_shorthand|eapply read_ranges]; done.
Qed.

(** Any leaf that has a number. *)
Lemma read_label pattern b pos rest c l groups classes :
  drop pos pattern = show_label sources l ++ rest ->
  number sources (Label l) (opened c) (used c) = Some (groups, classes) -> has_core b c ->
  reads pattern b pos (show_label sources l)
    (mkCore (out (join c) ++ [l]) (ops (join c)) true (nesting c) groups classes).
Proof.
  intros Hd Hn Hc. cbn [number] in Hn. destruct (is_class_ref l) eqn:El.
  - destruct (class_ref_index l =? used c)%nat eqn:Ei; [|done]. apply Nat.eqb_eq in Ei. cbn [andb] in Hn.
    destruct (Nat.ltb_spec (used c) (length sources)) as [Hlt|]; [|done]. injection Hn as <- <-.
    apply lookup_lt_is_Some_2 in Hlt as [src Hs]. unfold show_label in *. rewrite El, Ei, Hs in *.
    pose proof (read_class pattern b pos rest c l src Hd Hs) as H. unfold emit, use, join in *. cbn in H.
    destruct (joined c); [destruct (pop_operators _ _ _)|]; apply H; try done;
      unfold class_ref_index, is_class_ref in *; lia.
  - destruct (is_conditional l) eqn:Ec.
    + rewrite orb_true_r in Hn. injection Hn as <- <-. by apply (read_condition _ _ _ rest).
    + rewrite orb_false_r in Hn. destruct (rune_ok l) eqn:Er; [|done]. injection Hn as <- <-.
      unfold is_conditional in Ec. rewrite !orb_false_iff in Ec. destruct Ec as [[E1 E2] E3].
      unfold show_label in *. rewrite El, E1, E2, E3 in *. by apply (read_rune _ _ _ rest).
Qed.

(** * Operators *)

Lemma pop_pending stop o s res :
  Forall (fun t => stop t = false) o -> (forall t s', s = t :: s' -> stop t = true) ->
  pop_operators stop (o ++ s) res = (s, res ++ o).
Proof.
  intros Ho Hs. revert res. induction Ho as [|t o Ht _ IH]; intros res; cbn [app pop_operators].
  - rewrite app_nil_r. destruct s as [|t s']; [done|]. cbn. by rewrite (Hs t s').
  - by rewrite Ht, IH, <-app_assoc.
Qed.

(** The operators a text of a level may leave on the stack. *)
Definition pending_ok (level : nat) (t : Z) : Prop :=
  match level with
  | 0%nat => t = Catenation \/ t = Alternation
  | 1%nat => t = Catenation
  | _ => False
  end.

(** Where a text of a level may start. *)
Definition start_ok (level : nat) (c : Core) : Prop :=
  match level with
  | 0%nat => joined c = false /\ forall t s, ops c = t :: s -> t = LParen
  | 1%nat => joined c = false /\ forall t s, ops c = t :: s -> t <> Catenation
  | _ => True
  end.

Lemma pending_weaken level level' t : (level' <= level)%nat -> pending_ok level t -> pending_ok level' t.
Proof. destruct level as [|[|]], level' as [|[|]]; cbn; intros; first [lia|tauto]. Qed.

Lemma start_weaken level level' c : (level' <= level)%nat -> start_ok level' c -> start_ok level c.
Proof.
  destruct level as [|[|]], level' as [|[|]]; cbn; intros ? H; first [lia|done|exact H|idtac].
  destruct H as [H1 H2]. split; [done|]. intros t s E. by rewrite (H2 t s E).
Qed.

(** The operators a level leaves pending complete the postfix form. *)
Definition produced (level : nat) (c : Core) (r : re) (groups classes : nat) (c' : Core) : Prop :=
  exists p o, post r = p ++ o /\ Forall (pending_ok level) o
    /\ c' = mkCore (out (join c) ++ p) (o ++ ops (join c)) true (nesting c) groups classes.

Definition parses (level d : nat) (text : list Z) (r : re) : Prop :=
  forall pattern pos rest b c groups classes,
  drop pos pattern = text ++ rest -> (level = 3%nat \/ head rest <> Some Question) -> has_core b c ->
  number sources r (opened c) (used c) = Some (groups, classes) ->
  Z.of_nat groups <= MaxCaptures -> Z.of_nat (length (nesting c) + d) <= MaxGroupNesting ->
  start_ok level c ->
  exists b' c', parse_from pattern b pos = parse_from pattern b' (pos + length text)
    /\ has_core b' c' /\ produced level c r groups classes c'
    /\ (level = 3%nat -> atom_is_quantified b' = false).

Lemma number_mono r groups classes groups' classes' :
  number sources r groups classes = Some (groups', classes') ->
  (groups <= groups')%nat /\ (classes <= classes')%nat.
Proof.
  revert groups classes groups' classes'.
  induction r as [l|r1 IH1 r2 IH2|r1 IH1 r2 IH2|kind lazy r IH|idx r IH];
    intros groups classes groups' classes'; cbn [number].
  - repeat case_match; intros [= <- <-]; lia.
  - destruct (number sources r1 _ _) as [[g k]|] eqn:E; [|done]. apply IH1 in E. intros H%IH2. lia.
  - destruct (number sources r1 _ _) as [[g k]|] eqn:E; [|done]. apply IH1 in E. intros H%IH2. lia.
  - apply IH.
  - destruct (_ =? _)%nat; [|done]. intros H%IH. lia.
Qed.

Lemma produced_weaken level level' c r groups classes c' : (level' <= level)%nat ->
  produced level c r groups classes c' -> produced level' c r groups classes c'.
Proof.
  intros Hl (p & o & E & Ho & ->). exists p, o. split_and!; [done| |done].
  eapply Forall_impl; [exact Ho|]. intros t. by apply pending_weaken.
Qed.

Lemma parses_weaken level level' d text r : (level' <= level)%nat -> level' <> 3%nat ->
  parses level d text r -> parses level' d text r.
Proof.
  intros Hl H3 H pattern pos rest b c groups classes Hd Hq Hc Hn Hg Hdepth Hs.
  destruct (H pattern pos rest b c groups classes) as (b' & c' & E & Hc' & Hp & _); try done.
  { right. by destruct Hq. }
  { by eapply start_weaken. }
  exists b', c'. split_and!; [done|done|by eapply produced_weaken|done].
Qed.

Lemma joined_idle level c : (level <= 1)%nat -> start_ok level c -> join c = c.
Proof. intros Hl Hs. unfold join. destruct level as [|[|]]; [..|lia]; by destruct Hs as [-> _]. Qed.

Lemma parses_label l : parses 3 0 (show_label sources l) (Label l).
Proof.
  intros pattern pos rest b c groups classes Hd _ Hc Hn _ _ _.
  destruct (read_label pattern b pos rest c l groups classes Hd Hn Hc) as (b' & E & Hc' & Hq).
  eexists b', _. split_and!; [done|exact Hc'| |done]. exists [l], []. by rewrite app_nil_l.
Qed.

(** ** Quantifiers *)

Lemma read_quantifier pattern b pos rest c kind (lazy : bool) :
  drop pos pattern = quantifier_char kind :: (if lazy then [Question] else []) ++ rest ->
  head rest <> Some Question -> has_core b c -> joined c = true -> atom_is_quantified b = false ->
  exists b', parse_from pattern b pos = parse_from pattern b' (pos + (1 + if lazy then 1 else 0))
    /\ has_core b' (mkCore (out c ++ [quantifier_label kind lazy]) (ops c) true (nesting c)
                      (opened c) (used c)).
Proof.
  intros Hd Hrest Hc Hj Hq.
  pose (b' := set_quantified (push_postfix b (quantifier_label kind lazy)) true).
  exists b'. split; [|destruct Hc; split; cbn; congruence].
  assert (char_is pattern (pos + 1) Question = lazy) as Hlazy.
  { apply drop_past_1 in Hd. destruct lazy; cbn [app] in Hd.
    - by rewrite (char_is_drop _ _ _ _ _ Hd).
    - destruct rest as [|x rest]; [by apply char_is_end|]. rewrite (char_is_drop _ _ _ _ _ Hd).
      apply Z.eqb_neq. intros ->. done. }
  assert (forall greedy_op lazy_op, quantifier_label kind lazy = (if lazy then lazy_op else greedy_op) ->
    on_quantifier greedy_op lazy_op pattern b (pos + 1)
    = (true, b', (pos + (1 + if lazy then 1 else 0))%nat)) as Hon.
  { intros greedy_op lazy_op E. unfold on_quantifier, lacks_quantifiable_atom, parse_quantifier_suffix.
    rewrite (core_joined _ _ Hc), Hj, Hq. change (ord "?") with Question. rewrite Hlazy.
    unfold allow_lazy_quantifiers, is_extended_mode. rewrite (core_mode _ _ Hc), andb_false_r, <-E.
    fold b'. assert (ok b' = true) as -> by (unfold ok; cbn; by rewrite (core_error _ _ Hc)).
    f_equal. destruct lazy; lia. }
  eapply parse_from_ascii; [exact Hd|by destruct kind|]. unfold dispatch. rewrite (core_escaped _ _ Hc).
  destruct kind; [change (quantifier_char QZeroOrOne) with (ord "?")|..]; apply Hon; by destruct lazy.
Qed.

Lemma pending_none level o : (2 <= level)%nat -> Forall (pending_ok level) o -> o = [].
Proof. intros Hl [|t o' Ht _]; [done|]. destruct level as [|[|]]; [lia..|done]. Qed.

Lemma parses_quant d text kind (lazy : bool) r : parses 3 d text r ->
  parses 2 d (text ++ [quantifier_char kind] ++ if lazy then [Question] else []) (Quant kind lazy r).
Proof.
  intros H pattern pos rest b c groups classes Hd [?|Hrest] Hc Hn Hg Hdepth _; [done|].
  rewrite <-!app_assoc in Hd. cbn [number] in Hn.
  destruct (H pattern pos _ b c groups classes Hd) as (b1 & c1 & E1 & Hc1 & Hp & Hq); try done.
  { by left. }
  destruct Hp as (p & o & Epost & Ho & ->). apply (pending_none 3) in Ho as ->; [|lia].
  rewrite app_nil_r in Epost. subst p. apply drop_past in Hd.
  destruct (read_quantifier pattern b1 _ rest _ kind lazy Hd Hrest Hc1 eq_refl (Hq eq_refl))
    as (b2 & E2 & Hc2).
  eexists b2, _. split_and!; [|exact Hc2| |done].
  - rewrite E1, E2. f_equal. rewrite !length_app. destruct lazy; cbn [length]; lia.
  - exists (post (Quant kind lazy r)), []. rewrite app_nil_r. split_and!; [done|constructor|].
    cbn. by rewrite <-app_assoc.
Qed.

(** The text of a tree that can be written is not read as a lazy mark. *)
Definition starts (text : list Z) (r : re) : Prop :=
  forall groups classes x, number sources r groups classes = Some x ->
  exists h t, text = h :: t /\ h <> Question.

(** ** Concatenation and alternation *)

Lemma parses_cat d1 d2 t1 t2 r1 r2 : parses 1 d1 t1 r1 -> parses 2 d2 t2 r2 ->
  starts t2 r2 -> parses 1 (Nat.max d1 d2) (t1 ++ t2) (Cat r1 r2).
Proof.
  intros H1 H2 Hstart pattern pos rest b c groups classes Hd [?|Hrest] Hc Hn Hg Hdepth Hs; [done|].
  rewrite <-app_assoc in Hd. cbn [number] in Hn.
  destruct (number sources r1 _ _) as [[g k]|] eqn:En1; [|done]. pose proof (number_mono _ _ _ _ _ Hn).
  destruct (Hstart _ _ _ Hn) as (h & t & -> & Hh).
  destruct (H1 pattern pos _ b c g k Hd) as (b1 & c1 & E1 & Hc1 & (p1 & o1 & Ep1 & Ho1 & ->) & _); try done.
  { right. cbn. congruence. } { lia. } { lia. }
  apply drop_past in Hd. destruct Hs as [Hj Htop]. rewrite (joined_idle 1 c) in Hc1 by (done || lia).
  destruct (H2 pattern _ rest b1 _ groups classes Hd (or_intror Hrest) Hc1 Hn Hg)
    as (b2 & c2 & E2 & Hc2 & (p2 & o2 & Ep2 & Ho2 & ->) & _); [cbn [nesting]; lia|done|].
  apply (pending_none 2) in Ho2 as ->; [|lia]. rewrite app_nil_r in Ep2. subst p2.
  unfold join in Hc2. cbn [joined ops out nesting] in Hc2. rewrite pop_pending in Hc2.
  2: { eapply Forall_impl; [exact Ho1|]. by intros x ->. }
  2: { intros x s Ex. apply negb_true_iff, Z.eqb_neq. by eapply Htop. }
  eexists b2, _. split_and!; [|exact Hc2| |done].
  - rewrite E1, E2. f_equal. rewrite !length_app. lia.
  - exists (post r1 ++ post r2), [Catenation]. split_and!; [cbn [post]; by rewrite <-app_assoc|by constructor|].
    rewrite (joined_idle 1 c) by (done || lia). cbn [app ops out]. rewrite Ep1, <-!app_assoc. done.
Qed.

Lemma read_pipe pattern b pos rest c o ops0 :
  drop pos pattern = Pipe :: rest -> has_core b c -> ops c = o ++ ops0 ->
  Forall (pending_ok 0) o -> (forall t s, ops0 = t :: s -> t = LParen) ->
  exists b', parse_from pattern b pos = parse_from pattern b' (pos + 1)
    /\ has_core b' (mkCore (out c ++ o) (Alternation :: ops0) false (nesting c) (opened c) (used c)).
Proof.
  intros Hd Hc Eo Ho Htop. exists (on_pipe b). split.
  - eapply parse_from_ascii; [exact Hd|done|]. unfold dispatch. by rewrite (core_escaped _ _ Hc).
  - destruct Hc. unfold on_pipe, push_alternation, drain. rewrite core_ops0, core_out0, Eo, pop_pending.
    + by split.
    + eapply Forall_impl; [exact Ho|]. by intros x [->| ->].
    + intros x s Ex. by rewrite (Htop x s Ex).
Qed.

Lemma parses_alt d1 d2 t1 t2 r1 r2 : parses 0 d1 t1 r1 -> parses 1 d2 t2 r2 ->
  parses 0 (Nat.max d1 d2) (t1 ++ [Pipe] ++ t2) (Alt r1 r2).
Proof.
  intros H1 H2 pattern pos rest b c groups classes Hd [?|Hrest] Hc Hn Hg Hdepth Hs; [done|].
  rewrite <-!app_assoc in Hd. cbn [number] in Hn.
  destruct (number sources r1 _ _) as [[g k]|] eqn:En1; [|done]. pose proof (number_mono _ _ _ _ _ Hn).
  destruct (H1 pattern pos _ b c g k Hd) as (b1 & c1 & E1 & Hc1 & (p1 & o1 & Ep1 & Ho1 & ->) & _); try done.
  { by right. } { lia. } { lia. }
  apply drop_past in Hd. pose proof Hs as [Hj Htop].
  rewrite (joined_idle 0 c) in Hc1 by (done || lia). cbn [app] in Hd.
  destruct (read_pipe pattern b1 _ _ _ o1 (ops c) Hd Hc1 eq_refl Ho1 Htop) as (b2 & E2 & Hc2).
  cbn [out nesting opened used] in Hc2. apply drop_past_1 in Hd.
  destruct (H2 pattern _ rest b2 _ groups classes Hd (or_intror Hrest) Hc2 Hn Hg)
    as (b3 & c3 & E3 & Hc3 & (p2 & o2 & Ep2 & Ho2 & ->) & _).
  { cbn [nesting]. lia. }
  { split; [done|]. by intros x s [= <- _]. }
  unfold join in Hc3. cbn [joined ops out nesting] in Hc3.
  eexists b3, _. split_and!; [|exact Hc3| |done].
  - rewrite E1, E2, E3. f_equal. rewrite !length_app. cbn [length]. lia.
  - exists (post r1 ++ p2), (o2 ++ [Alternation]). split_and!.
    + cbn [post]. by rewrite Ep2, <-!app_assoc.
    + apply Forall_app. split; [|by repeat constructor; right].
      eapply Forall_impl; [exact Ho2|]. intros x Hx. by left.
    + rewrite (joined_idle 0 c) by (done || lia). cbn [app ops out]. rewrite Ep1, <-!app_assoc. done.
Qed.

(** ** Groups *)

Lemma join_fields c : nesting (join c) = nesting c /\ opened (join c) = opened c /\ used (join c) = used c.
Proof. unfold join. destruct (joined c); [|done]. by destruct (pop_operators _ _ _). Qed.

(** The handler, once it knows which group it is. *)
Lemma open_group_core pattern b c pos (capturing : bool) : has_core b c ->
  is_noncapturing_group_prefix pattern pos = negb capturing ->
  Z.of_nat (opened c + if capturing then 1 else 0) <= MaxCaptures ->
  Z.of_nat (S (length (nesting c))) <= MaxGroupNesting ->
  exists b' info,
    on_open_group pattern b pos = (true, b', (pos + if capturing then 0 else 2)%nat)
    /\ has_core b' (mkCore (out (join c)) (LParen :: ops (join c)) false (info :: nesting c)
                      (opened c + if capturing then 1 else 0) (used c))
    /\ group_capturing info = capturing
    /\ (capturing = true -> capture_id info = Z.of_nat (opened c)).
Proof.
  intros Hc Hprefix Hcap Hdepth. pose proof (core_join b c Hc) as Hj. unfold on_open_group.
  assert (is_extended_mode b = true) as Hm by (unfold is_extended_mode; by rewrite (core_mode _ _ Hc)).
  unfold allow_noncapturing_groups, allow_capturing_groups. rewrite Hm, Hprefix, !andb_false_r, negb_involutive.
  set (bj := if need_concat b then push_concat b else b) in *. destruct (join_fields c) as (F1 & F2 & F3).
  destruct Hj. rewrite F1, F2, F3 in *.
  set (bn := if capturing then set_num_captures bj (num_captures bj + 1) else bj).
  assert (num_captures bn = Z.of_nat (opened c + if capturing then 1 else 0)) as En.
  { unfold bn. destruct capturing; cbn; rewrite core_opened0; lia. }
  assert (capturing && (MaxCaptures <? num_captures bn) = false) as ->.
  { rewrite En. destruct capturing; [|done]. cbn [andb]. by apply Z.ltb_ge. }
  assert (group_start_stack bn = nesting c) as Eg by (unfold bn; by destruct capturing).
  rewrite Eg, (proj2 (Z.leb_gt _ _)) by lia.
  replace (if negb capturing then (pos + 2)%nat else pos) with (pos + if capturing then 0 else 2)%nat
    by (destruct capturing; cbn; lia).
  eexists _, (mkGroup (length (postfix bn)) (need_concat bn) capturing
    (if capturing then num_captures bj else 0)). split_and!; [done| |done|].
  - unfold bn in *. destruct capturing; split; cbn in *; congruence.
  - intros ->. exact core_opened0.
Qed.

(** [(] or [(?:]; [info] is what the parser remembers of the group. *)
Lemma read_open pattern b pos rest c (capturing : bool) :
  drop pos pattern = (if capturing then [LParen] else bytes "(?:") ++ rest ->
  (capturing = true -> head rest <> Some Question) -> has_core b c ->
  Z.of_nat (opened c + if capturing then 1 else 0) <= MaxCaptures ->
  Z.of_nat (S (length (nesting c))) <= MaxGroupNesting ->
  exists b' info,
    parse_from pattern b pos = parse_from pattern b' (pos + if capturing then 1 else 3)
    /\ has_core b' (mkCore (out (join c)) (LParen :: ops (join c)) false (info :: nesting c)
                      (opened c + if capturing then 1 else 0) (used c))
    /\ group_capturing info = capturing
    /\ (capturing = true -> capture_id info = Z.of_nat (opened c)).
Proof.
  intros Hd Hrest Hc Hcap Hdepth.
  assert (drop (pos + 1) pattern = (if capturing then [] else bytes "?:") ++ rest) as Hd1.
  { destruct capturing; by apply drop_past_1 in Hd. }
  assert (is_noncapturing_group_prefix pattern (pos + 1) = negb capturing) as Hprefix.
  { unfold is_noncapturing_group_prefix. destruct capturing; cbn [bytes app] in Hd1.
    - specialize (Hrest eq_refl). destruct rest as [|x rest]; [by rewrite char_is_end|].
      rewrite (char_is_drop _ _ _ _ _ Hd1). rewrite (proj2 (Z.eqb_neq _ _)); [done|]. intros ->. done.
    - by rewrite (char_is_drop _ _ _ _ _ Hd1), (char_is_drop _ _ _ _ _ (drop_past_1 _ _ _ _ Hd1)). }
  destruct (open_group_core pattern b c (pos + 1) capturing Hc Hprefix Hcap Hdepth) as (b' & info & E & H).
  exists b', info. split; [|exact H].
  assert (exists rest', drop pos pattern = LParen :: rest') as [rest' Hd'] by (destruct capturing; eexists; exact Hd).
  eapply parse_from_ascii; [exact Hd'|done|]. unfold dispatch. rewrite (core_escaped _ _ Hc).
  change (on_open_group pattern b (pos + 1) = (true, b', (pos + if capturing then 1 else 3)%nat)).
  rewrite E. f_equal. destruct capturing; lia.
Qed.

Lemma read_close pattern b pos rest c o ops0 info infos :
  drop pos pattern = RParen :: rest -> has_core b c -> ops c = o ++ LParen :: ops0 ->
  Forall (pending_ok 0) o -> nesting c = info :: infos ->
  exists b', parse_from pattern b pos = parse_from pattern b' (pos + 1)
    /\ has_core b' (mkCore (out c ++ o ++ if group_capturing info then [CaptureGroup + capture_id info] else [])
         ops0 true infos (opened c) (used c))
    /\ atom_is_quantified b' = false.
Proof.
  intros Hd Hc Eo Ho Einfo.
  assert (exists b', on_close_group b = (true, b')
    /\ has_core b' (mkCore (out c ++ o ++ if group_capturing info then [CaptureGroup + capture_id info] else [])
         ops0 true infos (opened c) (used c))
    /\ atom_is_quantified b' = false) as (b' & E & H).
  { destruct Hc. unfold on_close_group, drain. rewrite core_ops0, core_out0, Eo, pop_pending.
    - unfold has_unmatched_close_paren. cbn [operator_stack group_start_stack set_operator_stack set_postfix].
      rewrite core_nesting0, Einfo. eexists; split_and!; [done| |done].
      destruct (group_capturing info); split; cbn; try done; rewrite ?app_nil_r, <-?app_assoc; done.
    - eapply Forall_impl; [exact Ho|]. by intros x [->| ->].
    - by intros x s [= <- _]. }
  exists b'. split; [|exact H]. eapply parse_from_ascii; [exact Hd|done|].
  unfold dispatch. rewrite (core_escaped _ _ Hc). cbn [Z.eqb]. by rewrite E.
Qed.

Lemma parses_brackets d text r (capturing : bool) idx : parses 0 d text r -> starts text r ->
  parses 3 (S d) ((if capturing then [LParen] else bytes "(?:") ++ text ++ [RParen])
    (if capturing then Group idx r else r).
Proof.
  intros H Hstart pattern pos rest b c groups classes Hd _ Hc Hn Hg Hdepth _.
  rewrite <-!app_assoc in Hd.
  assert (number sources r (opened c + if capturing then 1 else 0) (used c) = Some (groups, classes)
    /\ (capturing = true -> idx = opened c)) as [Hnr Hidx].
  { destruct capturing; [|by rewrite Nat.add_0_r]. cbn [number] in Hn.
    destruct (Nat.eqb_spec idx (opened c)) as [->|]; [|done]. by rewrite Nat.add_1_r. }
  destruct (Hstart _ _ _ Hnr) as (h & t & -> & Hh). pose proof (number_mono _ _ _ _ _ Hnr) as [Hmono _].
  destruct (read_open pattern b pos _ c capturing Hd) as (b1 & info & E1 & Hc1 & Hinfo & Hid);
    [intros _; cbn; congruence|done|lia|lia|].
  assert (drop (pos + if capturing then 1 else 3)%nat pattern = (h :: t) ++ [RParen] ++ rest) as Hd1.
  { apply drop_past in Hd. by destruct capturing. }
  assert (head ([RParen] ++ rest) <> Some Question) as Hhead by done.
  destruct (H pattern _ _ b1 _ groups classes Hd1 (or_intror Hhead) Hc1 Hnr Hg)
    as (b2 & c2 & E2 & Hc2 & (p & o & Ep & Ho & ->) & _).
  { cbn [nesting length]. lia. }
  { split; [done|]. by intros x s [= <- _]. }
  unfold join in Hc2. cbn [joined ops out nesting] in Hc2. apply drop_past in Hd1.
  destruct (read_close pattern b2 _ rest _ o (ops (join c)) info (nesting c) Hd1 Hc2) as (b3 & E3 & Hc3 & Hq);
    try done.
  cbn [out opened used] in Hc3. rewrite Hinfo in Hc3.
  eexists b3, _. split_and!; [|exact Hc3| |done].
  - rewrite E1, E2, E3. f_equal. rewrite !length_app. cbn [length]. destruct capturing; cbn [length bytes]; lia.
  - exists (post (if capturing then Group idx r else r)), []. rewrite app_nil_r.
    split_and!; [done|constructor|]. cbn [app]. f_equal. rewrite <-app_assoc. f_equal. rewrite app_assoc, <-Ep.
    destruct capturing; [|by rewrite app_nil_r]. cbn [post]. by rewrite Hid, Hidx.
Qed.

(** * Trees *)

Lemma show_label_starts l : starts (show_label sources l) (Label l).
Proof.
  intros groups classes x Hn. cbn [number] in Hn. unfold show_label. destruct (is_class_ref l).
  - destruct (class_ref_index l =? classes)%nat eqn:Ei; [|done]. apply Nat.eqb_eq in Ei as ->.
    destruct (Nat.ltb_spec classes (length sources)) as [Hlt|]; [|done].
    apply lookup_lt_is_Some_2 in Hlt as [src ->].
    destruct src; eexists _, _; (split; [reflexivity|done]).
  - unfold is_conditional in Hn.
    destruct (l =? WordBoundary); [by eexists _, _|]. destruct (l =? StartAnchor); [by eexists _, _|].
    destruct (l =? EndAnchor); [by eexists _, _|]. rewrite orb_false_r in Hn.
    destruct (rune_ok l) eqn:Er; [|done]. destruct (show_rune_head l Er) as (h & t & -> & Hh).
    exists h, t. split; [done|]. destruct Hh as [-> |Hh]; [done|]. by intros ->.
Qed.

Lemma show_level level r : show sources level r = parens (prec r <? level)%nat (show sources 0 r).
Proof. by destruct r. Qed.

Lemma depth_level level r :
  depth level r = ((if (prec r <? level)%nat then 1 else 0) + depth 0 r)%nat.
Proof. by destruct r. Qed.

Lemma parens_starts wrap text r : starts text r -> starts (parens wrap text) r.
Proof. intros H groups classes x Hn. destruct wrap; [by eexists _, _|by eapply H]. Qed.

Lemma app_starts t1 t2 r1 r : starts t1 r1 ->
  (forall groups classes x, number sources r groups classes = Some x ->
    exists groups x, number sources r1 groups classes = Some x) -> starts (t1 ++ t2) r.
Proof.
  intros H Hr groups classes x Hn. destruct (Hr _ _ _ Hn) as (g & y & Hn1).
  destruct (H _ _ _ Hn1) as (h & t & -> & Hh). by exists h, (t ++ t2).
Qed.

Lemma show_starts r level : starts (show sources level r) r.
Proof.
  revert level. induction r as [l|r1 IH1 r2 IH2|r1 IH1 r2 IH2|kind lazy r IH|idx r IH]; intros level;
    rewrite show_level; apply parens_starts; cbn [show parens Nat.ltb Nat.leb prec].
  - apply show_label_starts.
  - eapply app_starts; [apply IH1|]. intros g k x. cbn [number].
    destruct (number sources r1 g k) as [y|] eqn:E; [|done]. by exists g, y.
  - eapply app_starts; [apply IH1|]. intros g k x. cbn [number].
    destruct (number sources r1 g k) as [y|] eqn:E; [|done]. by exists g, y.
  - eapply app_starts; [apply IH|]. intros g k x Hn. by exists g, x.
  - intros g k x _. by eexists _, _.
Qed.

(** From the level of the tree to the one wanted. *)
Lemma parses_level r level : (level <= 3)%nat ->
  parses (prec r) (depth 0 r) (show sources 0 r) r -> parses level (depth level r) (show sources level r) r.
Proof.
  intros Hl H. rewrite show_level, depth_level. assert (prec r <= 3)%nat by (destruct r; cbn; lia).
  destruct (Nat.ltb_spec (prec r) level) as [Hlt|Hge].
  - pose proof (parses_brackets _ _ r false 0
      (parses_weaken _ 0 _ _ _ ltac:(lia) ltac:(done) H) (show_starts r 0)) as Hb.
    destruct (decide (level = 3%nat)) as [->|]; [exact Hb|]. by apply (parses_weaken 3); [lia|..].
  - destruct (decide (level = prec r)) as [->|]; [done|]. by apply (parses_weaken (prec r)); [lia|lia|].
Qed.

Lemma parses_show r level : (level <= 3)%nat ->
  parses level (depth level r) (show sources level r) r.
Proof.
  revert level. induction r as [l|r1 IH1 r2 IH2|r1 IH1 r2 IH2|kind lazy r IH|idx r IH]; intros level Hl;
    apply parses_level; try done; cbn [show parens Nat.ltb Nat.leb prec depth Nat.add].
  - apply parses_label.
  - apply parses_cat; [by apply IH1; lia|by apply IH2; lia|apply show_starts].
  - apply parses_alt; [by apply IH1; lia|by apply IH2; lia].
  - apply parses_quant, IH. lia.
  - apply (parses_brackets _ _ r true); [by apply IH; lia|apply show_starts].
Qed.

(** * The whole pattern *)

Definition empty_core : Core := mkCore [] [] false [] 0 0.

Lemma new_builder_core : has_core (new_builder Extended) empty_core.
Proof. by split. Qed.

Lemma parse_shown r groups :
  number sources r 0 0 = Some (groups, length sources) ->
  Z.of_nat groups <= MaxCaptures -> Z.of_nat (depth 0 r) <= MaxGroupNesting ->
  Z.of_nat (length (post r)) <= MaxPostfixSize ->
  regexp_to_postfix_runes (show sources 0 r) Extended
  = inr (mkParse (post r) (map class_value sources) (Z.of_nat groups)).
Proof.
  intros Hn Hg Hdepth Hsize. set (text := show sources 0 r).
  assert (drop 0 text = text ++ []) as Hd by (by rewrite app_nil_r).
  assert (head (@nil Z) <> Some Question) as Hhead by done.
  destruct (parses_show r 0 ltac:(lia) text 0%nat [] _ _ groups (length sources) Hd (or_intror Hhead)
    new_builder_core Hn Hg) as (b & c & E & Hc & (p & o & Ep & Ho & ->) & _);
    [cbn; lia|split; [done|by intros t s]|].
  unfold regexp_to_postfix_runes.
  assert (parse_loop (length text) text (new_builder Extended) 0 = (true, b)) as ->.
  { unfold parse_from in E at 1. rewrite Nat.sub_0_r in E. rewrite E. apply parse_from_end.
    by apply drop_past in Hd. }
  destruct Hc. unfold finish, drain. cbn in *. rewrite core_ops0, core_out0, pop_pending.
  2: { eapply Forall_impl; [exact Ho|]. by intros x [->| ->]. } 2: { done. }
  cbn [set_operator_stack set_postfix operator_stack escaped postfix]. rewrite core_escaped0, <-Ep.
  rewrite (proj2 (Z.ltb_ge _ _)) by lia.
  cbn. rewrite core_used0, core_opened0, firstn_all. done.
Qed.
End Parsing.

(** ** The postfix form denotes the tree *)

Lemma number_ok sources r groups classes groups' classes' :
  number sources r groups classes = Some (groups', classes') -> Z.of_nat groups' <= MaxCaptures ->
  re_ok r.
Proof.
  revert groups classes groups' classes'.
  induction r as [l|r1 IH1 r2 IH2|r1 IH1 r2 IH2|kind lazy r IH|idx r IH];
    intros groups classes groups' classes'; cbn [number re_ok].
  - unfold atom_label. destruct (is_class_ref l) eqn:E; [by rewrite orb_true_r|].
    destruct (rune_ok l) eqn:Er; cbn [orb].
    + intros _ _. unfold rune_ok, Max4 in Er. lia.
    + destruct (is_conditional l); [by rewrite orb_true_r|done].
  - destruct (number sources r1 _ _) as [[g k]|] eqn:E; [|done]. intros H Hg.
    pose proof (number_mono _ _ _ _ _ _ H). split; [eapply IH1; [exact E|lia]|by eapply IH2].
  - destruct (number sources r1 _ _) as [[g k]|] eqn:E; [|done]. intros H Hg.
    pose proof (number_mono _ _ _ _ _ _ H). split; [eapply IH1; [exact E|lia]|by eapply IH2].
  - apply IH.
  - destruct (Nat.eqb_spec idx groups) as [->|]; [|done]. intros H Hg.
    pose proof (number_mono _ _ _ _ _ _ H). split; [lia|by eapply IH].
Qed.

Lemma re_tokens_post r rest stack : re_ok r ->
  re_tokens (post r ++ rest) stack = re_tokens rest (r :: stack).
Proof.
  revert rest stack. induction r as [l|r1 IH1 r2 IH2|r1 IH1 r2 IH2|kind lazy r IH|idx r IH];
    intros rest stack Hok; cbn [post re_ok] in *; rewrite <-?app_assoc.
  - cbn [app re_tokens]. unfold re_token. destruct (atom_not_operator l Hok) as (H1 & H2 & H3 & H4).
    rewrite (proj2 (Z.eqb_neq _ _) H1), (proj2 (Z.eqb_neq _ _) H2), H3, H4. done.
  - destruct Hok. by rewrite IH1, IH2.
  - destruct Hok. by rewrite IH1, IH2.
  - rewrite IH by done. by destruct kind, lazy.
  - destruct Hok as [Hidx Hok]. rewrite IH by done. cbn [app re_tokens]. unfold re_token.
    assert (is_capture_group (CaptureGroup + Z.of_nat idx) = true) as E
      by (unfold_labels; lia).
    unfold quantifier_token. rewrite E. unfold_labels.
    repeat (rewrite (proj2 (Z.eqb_neq _ _)) by lia). do 3 f_equal. lia.
Qed.

Lemma re_of_post r : re_ok r -> re_of_postfix (post r) = Some r.
Proof.
  intros H. unfold re_of_postfix. pose proof (re_tokens_post r [] [] H) as E.
  rewrite app_nil_r in E. by rewrite E.
Qed.

Lemma post_nonempty r : post r <> [].
Proof. destruct r; cbn [post]; [done|..]; intros H; apply app_eq_nil in H as [_ H];
  try done; by apply app_eq_nil in H as [_ H]. Qed.

(** * Counted repetitions: [{n}], [{n,m}] and [{n,}] are expanded into copies of the
    operand's tokens; the expansion is the postfix form of a tree that matches
    between [n] and [m] matches of the operand in a row. *)

(** * The expansion as a tree *)

(** The operands of the chain of catenations. *)
Definition repeat_items (r : re) (n m : nat) (unbounded : bool) : list re :=
  replicate n r
  ++ (if unbounded then [Quant QZeroOrMore false r] else replicate (m - n) (Quant QZeroOrOne false r)).

Definition chain (x : re) (items : list re) : re := foldl Cat x items.

Definition chain_post (items : list re) : list Z := flat_map (fun x => post x ++ [Catenation]) items.

Lemma post_chain x items : post (chain x items) = post x ++ chain_post items.
Proof.
  unfold chain. revert x. induction items as [|y items IH]; intros x; cbn [foldl chain_post flat_map].
  - by rewrite app_nil_r.
  - rewrite IH. cbn [post]. rewrite <-!app_assoc. done.
Qed.

Definition items_post (items : list re) : list Z :=
  match items with [] => [] | x :: rest => post (chain x rest) end.

Lemma items_post_app l1 l2 :
  items_post (l1 ++ l2) = items_post l1 ++ (match l1 with [] => items_post l2 | _ => chain_post l2 end).
Proof.
  destruct l1 as [|x l1]; [done|]. cbn [app items_post]. rewrite !post_chain. unfold chain_post.
  by rewrite flat_map_app, app_assoc.
Qed.

(** Copies numbered from [i] on, each with its catenation. *)
Lemma copies_chain (x : re) (f : nat -> list Z) i n :
  (forall j, (i <= j)%nat -> f j = post x ++ [Catenation]) ->
  flat_map f (seq i n) = chain_post (replicate n x).
Proof.
  revert i. induction n as [|n IH]; intros i Hf; [done|].
  cbn [seq flat_map replicate chain_post]. rewrite Hf by done. f_equal. apply IH.
  intros j Hj. apply Hf. lia.
Qed.

Lemma copies_items (x : re) (f : nat -> list Z) n :
  f 0%nat = post x -> (forall j, (0 < j)%nat -> f j = post x ++ [Catenation]) ->
  flat_map f (seq 0 n) = items_post (replicate n x).
Proof.
  intros H0 Hf. destruct n as [|n]; [done|]. cbn [seq flat_map replicate items_post].
  by rewrite H0, post_chain, (copies_chain x f 1 n Hf).
Qed.

Lemma mandatory_items r n : mandatory_copies (post r) n = items_post (replicate n r).
Proof.
  apply copies_items; [by rewrite app_nil_r|]. intros j Hj. by rewrite (proj2 (Nat.ltb_lt _ _) Hj).
Qed.

Lemma optional_items r n k :
  optional_copies (post r) n k
  = match n with
    | O => items_post (replicate k (Quant QZeroOrOne false r))
    | _ => chain_post (replicate k (Quant QZeroOrOne false r))
    end.
Proof.
  unfold optional_copies. destruct n as [|n].
  - apply copies_items; [done|]. intros j Hj. rewrite (proj2 (Nat.ltb_lt _ _) Hj). cbn [post orb Nat.ltb Nat.leb].
    by rewrite <-app_assoc.
  - apply copies_chain. intros j _. cbn [post orb Nat.ltb Nat.leb]. by rewrite <-app_assoc.
Qed.

(** The tokens that [on_open_brace] appends. *)
Lemma expansion_items r n m (unbounded : bool) :
  mandatory_copies (post r) n
  ++ (if unbounded then post r ++ [ZeroOrMore] ++ (if (0 <? n)%nat then [Catenation] else [])
      else if (n <? m)%nat then optional_copies (post r) n (m - n) else [])
  = items_post (repeat_items r n m unbounded).
Proof.
  unfold repeat_items. rewrite items_post_app, mandatory_items. f_equal.
  destruct n as [|n]; cbn [replicate]; destruct unbounded.
  - cbn. by rewrite ?app_nil_r.
  - destruct m as [|m]; [done|]. cbn [Nat.ltb Nat.leb]. by rewrite optional_items.
  - cbn. by rewrite app_nil_r, <-app_assoc.
  - destruct (Nat.ltb_spec (S n) m) as [Hlt|Hge].
    + by rewrite optional_items.
    + by replace (m - S n)%nat with 0%nat by lia.
Qed.

(** * What the chain matches *)

Section Matches.
Context (accepts : Z -> Z -> bool) (w : list Z) (flags : nat -> Flags).
Local Abbreviation matches := (re_match accepts w flags).

(** [k] matches of [r] in a row. *)
Fixpoint reps (r : re) (k i j : nat) : Prop :=
  match k with
  | O => i = j
  | S k => exists mid, matches r i mid /\ reps r k mid j
  end.

Fixpoint in_turn (items : list re) (i j : nat) : Prop :=
  match items with
  | [] => i = j
  | x :: items => exists mid, matches x i mid /\ in_turn items mid j
  end.

Lemma match_chain x items i j :
  matches (chain x items) i j <-> exists mid, matches x i mid /\ in_turn items mid j.
Proof.
  unfold chain. revert x i. induction items as [|y items IH]; intros x i; cbn [foldl in_turn].
  - split; [by exists j|]. by intros (mid & H & ->).
  - rewrite IH. split.
    + intros (mid & H & Hin). inversion H; subst. eauto.
    + intros (a & H & b & H' & Hin). exists b. split; [by econstructor|done].
Qed.

Lemma in_turn_app l1 l2 i j :
  in_turn (l1 ++ l2) i j <-> exists mid, in_turn l1 i mid /\ in_turn l2 mid j.
Proof.
  revert i. induction l1 as [|x l1 IH]; intros i; cbn [app in_turn].
  - split; [by exists i|]. by intros (mid & -> & H).
  - setoid_rewrite IH. split; [intros (a & H & b & H1 & H2)|intros (b & (a & H & H1) & H2)]; eauto 6.
Qed.

Lemma in_turn_copies r n i j : in_turn (replicate n r) i j <-> reps r n i j.
Proof.
  revert i. induction n as [|n IH]; intros i; cbn; [done|]. by setoid_rewrite IH.
Qed.

Lemma reps_add r k1 k2 i j :
  reps r (k1 + k2) i j <-> exists mid, reps r k1 i mid /\ reps r k2 mid j.
Proof.
  rewrite <-!in_turn_copies, replicate_add, in_turn_app. by setoid_rewrite in_turn_copies.
Qed.

Lemma match_star_reps r i j : matches (Quant QZeroOrMore false r) i j <-> exists k, reps r k i j.
Proof.
  split.
  - intros H. remember (Quant QZeroOrMore false r) as q eqn:Eq. induction H; simplify_eq.
    + by exists 0%nat.
    + destruct (IHre_match2 eq_refl) as [n Hn]. exists (S n). cbn. eauto.
  - intros [k Hk]. revert i Hk. induction k as [|k IH]; intros i; cbn.
    + intros ->. constructor.
    + intros (mid & H & Hk). econstructor; [exact H|by apply IH].
Qed.

Lemma in_turn_optional r d i j :
  in_turn (replicate d (Quant QZeroOrOne false r)) i j <-> exists k, (k <= d)%nat /\ reps r k i j.
Proof.
  revert i. induction d as [|d IH]; intros i; cbn [replicate in_turn].
  - split; [by exists 0%nat|]. intros (k & Hk & H). by replace k with 0%nat in H by lia.
  - setoid_rewrite IH. split.
    + intros (mid & H & k & Hk & Hr). inversion H; subst; [exists k; split; [lia|done]|].
      exists (S k). split; [lia|]. cbn. eauto.
    + intros ([|k] & Hk & Hr); cbn in Hr.
      * exists i. split; [constructor|]. exists 0%nat. split; [lia|done].
      * destruct Hr as (mid & H & Hr). exists mid. split; [by constructor|]. exists k. split; [lia|done].
Qed.

Lemma in_turn_repeat r n m (unbounded : bool) i j : (unbounded = false -> (n <= m)%nat) ->
  in_turn (repeat_items r n m unbounded) i j
  <-> exists k, (n <= k)%nat /\ (unbounded = true \/ (k <= m)%nat) /\ reps r k i j.
Proof.
  intros Hnm. unfold repeat_items. rewrite in_turn_app. setoid_rewrite in_turn_copies. split.
  - intros (mid & H1 & H2).
    assert (exists k, (unbounded = true \/ (k <= m - n)%nat) /\ reps r k mid j) as (k & Hk & Hr).
    { destruct unbounded.
      - cbn in H2. destruct H2 as (x & H2%match_star_reps & ->). destruct H2 as [k Hk]. exists k. auto.
      - apply in_turn_optional in H2 as (k & ? & ?). exists k. auto. }
    exists (n + k)%nat. split_and!; [lia| |by apply reps_add; eauto].
    destruct unbounded; [by left|right]. destruct Hk as [?|?]; [done|]. specialize (Hnm eq_refl). lia.
  - intros (k & Hn & Hm & Hr). replace k with (n + (k - n))%nat in Hr by lia.
    apply reps_add in Hr as (mid & H1 & H2). exists mid. split; [done|]. destruct unbounded.
    + cbn. exists j. split; [|done]. apply match_star_reps. eauto.
    + apply in_turn_optional. exists (k - n)%nat. split; [destruct Hm; [done|lia]|done].
Qed.
End Matches.

(** * The handler *)

Lemma expand_repetition_appends b n m (unbounded : bool) b' :
  0 <= n -> 0 <= m -> expand_repetition b n m unbounded = (true, b') ->
  (n =? 0) && negb unbounded && (m =? 0) = false ->
  let atom := drop (atom_start b) (postfix b) in
  postfix b' = take (atom_start b) (postfix b)
    ++ mandatory_copies atom (Z.to_nat n)
    ++ (if unbounded then atom ++ [ZeroOrMore] ++ (if (0 <? Z.to_nat n)%nat then [Catenation] else [])
        else if (Z.to_nat n <? Z.to_nat m)%nat
             then optional_copies atom (Z.to_nat n) (Z.to_nat m - Z.to_nat n) else []).
Proof.
  intros Hn Hm. unfold expand_repetition. destruct (_ <? _) eqn:E1 in |- *; [done|].
  intros H Hz. rewrite Hz in H. cbv zeta in H |- *.
  replace (0 <? Z.to_nat n)%nat with (0 <? n) by (destruct (Z.ltb_spec 0 n), (Nat.ltb_spec 0 (Z.to_nat n)); lia).
  replace (Z.to_nat n <? Z.to_nat m)%nat with (n <? m)
    by (destruct (Z.ltb_spec n m), (Nat.ltb_spec (Z.to_nat n) (Z.to_nat m)); lia).
  rewrite <-Z2Nat.inj_sub by done. destruct (_ <? _) eqn:E2 in H; [done|]. injection H as <-.
  cbn [set_quantified set_atom set_need_concat postfix]. destruct unbounded; [|destruct (n <? m)];
    cbn [set_postfix postfix]; by rewrite <-?app_assoc, ?app_nil_r.
Qed.
