(* ===== verification/Nfa.v ===== *)
(** Thompson's construction: [StateDef], [create_state], [Frag], [patch],
    [build_quantifier] and [postfix_to_nfa] of [include/trieste/regex_engine.h].

    States live in one vector that never grows past its reserved capacity, so a
    [State] pointer is an index ([accept_state_] is 0, the first state created)
    and a [State*] pointer to a [next] or [next_alt] field is a [Slot]. *)

From S2P Require Import Prelude AsciiBitmap RegexSyntax RegexSpec.

(** * States *)

Record StateDef := mkState {
  label : Z;
  next : option nat;
  next_alt : option nat;
  closure_index : nat;
  ascii_accept : AsciiBitmap;
  trivial_closure : bool;
}.

Definition set_next (st : StateDef) (t : option nat) : StateDef :=
  mkState (label st) t (next_alt st) (closure_index st) (ascii_accept st) (trivial_closure st).
Definition set_next_alt (st : StateDef) (t : option nat) : StateDef :=
  mkState (label st) (next st) t (closure_index st) (ascii_accept st) (trivial_closure st).

(** The part of the engine the construction writes. *)
Record Nfa := mkNfa {
  owned_states : list StateDef;
  capacity : nat;
  nfa_error : ErrorCode;
}.

Definition set_states (nfa : Nfa) (states : list StateDef) : Nfa :=
  mkNfa states (capacity nfa) (nfa_error nfa).

Definition nfa_set_error (nfa : Nfa) (code : ErrorCode) : Nfa :=
  if is_no_error (nfa_error nfa) then mkNfa (owned_states nfa) (capacity nfa) code else nfa.

Definition accept_state : nat := 0.

Definition create_state (nfa : Nfa) (l : Z) (n n_alt : option nat) : nat * Nfa :=
  let idx := length (owned_states nfa) in
  if (capacity nfa <=? idx)%nat then (accept_state, nfa_set_error nfa ErrorInternalError)
  else
    (idx, set_states nfa (owned_states nfa ++ [mkState l n n_alt idx bitmap_zero false])).

(** * Fragments *)

Inductive Slot := NextOf (s : nat) | NextAltOf (s : nat).

Record Frag := mkFrag {
  start : nat;
  dangling : list Slot;
}.

Definition write_slot (target : option nat) (states : list StateDef) (slot : Slot) :
    list StateDef :=
  match slot with
  | NextOf s => alter (fun st => set_next st target) s states
  | NextAltOf s => alter (fun st => set_next_alt st target) s states
  end.

Definition patch_states (targets : list Slot) (target : option nat)
    (states : list StateDef) : list StateDef :=
  foldl (write_slot target) states targets.

Definition patch (nfa : Nfa) (targets : list Slot) (target : nat) : Nfa :=
  set_states nfa (patch_states targets (Some target) (owned_states nfa)).

(** * Building *)

(** The stack's head is its back; a failure is [None] with the error recorded. *)
Definition build_quantifier (stack : list Frag) (kind : QuantifierKind) (lazy : bool)
    (nfa : Nfa) : option (list Frag) * Nfa :=
  match stack with
  | [] => (None, nfa_set_error nfa ErrorRepeatOp)
  | operand :: stack =>
      let unpatched_branch state := if lazy then NextOf state else NextAltOf state in
      let new_split nfa :=
        if lazy then create_state nfa Split None (Some (start operand))
        else create_state nfa Split (Some (start operand)) None in
      match kind with
      | QZeroOrOne =>
          let '(state, nfa) := new_split nfa in
          (Some (mkFrag state (dangling operand ++ [unpatched_branch state]) :: stack), nfa)
      | QZeroOrMore =>
          let '(state, nfa) := new_split nfa in
          let nfa := patch nfa (dangling operand) state in
          (Some (mkFrag state [unpatched_branch state] :: stack), nfa)
      | QOneOrMore =>
          let '(state, nfa) := new_split nfa in
          let nfa := patch nfa (dangling operand) state in
          (Some (mkFrag (start operand) [unpatched_branch state] :: stack), nfa)
      end
  end.

(** One turn of the loop of [postfix_to_nfa]. *)
Definition nfa_token (token : Z) (stack : list Frag) (nfa : Nfa) :
    option (list Frag) * Nfa :=
  if token =? Catenation then
    match stack with
    | rhs :: lhs :: rest =>
        let nfa := patch nfa (dangling lhs) (start rhs) in
        (Some (mkFrag (start lhs) (dangling rhs) :: rest), nfa)
    | _ => (None, nfa_set_error nfa ErrorInternalError)
    end
  else if token =? Alternation then
    match stack with
    | rhs :: lhs :: rest =>
        let '(state, nfa) := create_state nfa Split (Some (start lhs)) (Some (start rhs)) in
        (Some (mkFrag state (dangling lhs ++ dangling rhs) :: rest), nfa)
    | _ => (None, nfa_set_error nfa ErrorInternalError)
    end
  else
    match quantifier_token token with
    | Some (kind, lazy) =>
        match build_quantifier stack kind lazy nfa with
        | (Some stack, nfa) =>
            if is_no_error (nfa_error nfa) then (Some stack, nfa) else (None, nfa)
        | (None, nfa) => (None, nfa)
        end
    | None =>
        if is_capture_group token then
          match stack with
          | [] => (None, nfa_set_error nfa ErrorInternalError)
          | operand :: rest =>
              let idx := token - CaptureGroup in
              let '(close, nfa) := create_state nfa (CaptureClose + idx) None None in
              let nfa := patch nfa (dangling operand) close in
              let '(open, nfa) :=
                create_state nfa (CaptureOpen + idx) (Some (start operand)) None in
              (Some (mkFrag open [NextOf close] :: rest), nfa)
          end
        else
          let '(state, nfa) := create_state nfa token None None in
          (Some (mkFrag state [NextOf state] :: stack), nfa)
    end.

Fixpoint nfa_tokens (tokens : list Z) (stack : list Frag) (nfa : Nfa) :
    option (list Frag) * Nfa :=
  match tokens with
  | [] => (Some stack, nfa)
  | token :: tokens =>
      match nfa_token token stack nfa with
      | (Some stack, nfa) => nfa_tokens tokens stack nfa
      | (None, nfa) => (None, nfa)
      end
  end.

(** The start state, [accept_state] when something went wrong. *)
Definition postfix_to_nfa (postfix : list Z) (nfa : Nfa) : nat * Nfa :=
  match postfix with
  | [] => (accept_state, nfa)
  | _ =>
      if MaxStates <? Z.of_nat (length postfix) then
        (accept_state, nfa_set_error nfa ErrorPatternTooLarge)
      else
        match nfa_tokens postfix [] nfa with
        | (None, nfa) => (accept_state, nfa)
        | (Some [frag], nfa) => (start frag, patch nfa (dangling frag) accept_state)
        | (Some _, nfa) => (accept_state, nfa_set_error nfa ErrorInternalError)
        end
  end.

(** [owned_states_.reserve(2 * postfix.size() + 1)] and the accept state. *)
Definition initial_nfa (postfix : list Z) : Nfa :=
  snd (create_state (mkNfa [] (2 * length postfix + 1) NoError) Match None None).

(** * Patching, state by state *)

Definition slot_state (slot : Slot) : nat :=
  match slot with NextOf s => s | NextAltOf s => s end.

Definition write_at (i : nat) (target : option nat) (st : StateDef) (slot : Slot) : StateDef :=
  match slot with
  | NextOf s => if (s =? i)%nat then set_next st target else st
  | NextAltOf s => if (s =? i)%nat then set_next_alt st target else st
  end.

Lemma lookup_write_slot target states slot i :
  write_slot target states slot !! i
    = (fun st => write_at i target st slot) <$> states !! i.
Proof.
  destruct slot as [s|s]; cbn; destruct (Nat.eqb_spec s i) as [->|Hne].
  1,3: by rewrite list_lookup_alter_eq.
  all: rewrite list_lookup_alter_ne by done; by destruct (states !! i).
Qed.

Lemma lookup_patch targets target states i :
  patch_states targets target states !! i
    = (fun st => foldl (write_at i target) st targets) <$> states !! i.
Proof.
  revert states. induction targets as [|slot targets IH]; intros states; cbn.
  - by destruct (states !! i).
  - unfold patch_states in *. rewrite IH, lookup_write_slot. by destruct (states !! i).
Qed.

Lemma length_patch targets target states :
  length (patch_states targets target states) = length states.
Proof.
  revert states. induction targets as [|slot targets IH]; intros states; cbn; [done|].
  unfold patch_states in *. rewrite IH. destruct slot; apply length_alter.
Qed.

Definition slots_in (lo hi : nat) (slots : list Slot) : Prop :=
  Forall (fun slot => (lo <= slot_state slot < hi)%nat) slots.

Lemma slots_in_weaken lo hi lo' hi' slots :
  slots_in lo hi slots -> (lo' <= lo)%nat -> (hi <= hi')%nat -> slots_in lo' hi' slots.
Proof. intros H ??. eapply Forall_impl; [exact H|]. simpl. lia. Qed.

Lemma lookup_patch_out lo hi targets target states i :
  slots_in lo hi targets -> ~ (lo <= i < hi)%nat ->
  patch_states targets target states !! i = states !! i.
Proof.
  intros Hs Hi. rewrite lookup_patch.
  enough (forall st, foldl (write_at i target) st targets = st) as H.
  { destruct (states !! i); cbn; [by rewrite H|done]. }
  induction Hs as [|slot targets Hslot _ IH]; intros st; [done|]. cbn.
  replace (write_at i target st slot) with st; [apply IH|].
  destruct slot as [s|s]; cbn in *; destruct (Nat.eqb_spec s i); (done || lia).
Qed.

(** Two state vectors that agree on a range. *)
Definition agree (lo hi : nat) (s1 s2 : list StateDef) : Prop :=
  forall i, (lo <= i < hi)%nat -> s1 !! i = s2 !! i.

Lemma agree_sym lo hi s1 s2 : agree lo hi s1 s2 -> agree lo hi s2 s1.
Proof. intros H i Hi. symmetry. by apply H. Qed.

Lemma agree_trans lo hi s1 s2 s3 : agree lo hi s1 s2 -> agree lo hi s2 s3 -> agree lo hi s1 s3.
Proof. intros H1 H2 i Hi. by rewrite H1, H2. Qed.

Lemma agree_patch targets target lo hi s1 s2 :
  agree lo hi s1 s2 ->
  agree lo hi (patch_states targets target s1) (patch_states targets target s2).
Proof. intros H i Hi. rewrite !lookup_patch. by rewrite H. Qed.

Lemma agree_patch_out lo hi lo' hi' targets target s :
  slots_in lo' hi' targets -> (hi <= lo' \/ hi' <= lo)%nat ->
  agree lo hi (patch_states targets target s) s.
Proof. intros H Hd i Hi. apply (lookup_patch_out lo' hi'); [done|lia]. Qed.

Lemma agree_app lo hi s t : (hi <= length s)%nat -> agree lo hi (s ++ t) s.
Proof. intros H i Hi. apply lookup_app_l. lia. Qed.

(** Patching in two goes. *)
Lemma patch_app l1 l2 target s :
  patch_states (l1 ++ l2) target s = patch_states l2 target (patch_states l1 target s).
Proof. apply foldl_app. Qed.

(** * The shape of the automaton of a tree *)

Definition has (states : list StateDef) (i : nat) (l : Z) (n n_alt : option nat) : Prop :=
  exists st, states !! i = Some st /\ label st = l /\ next st = n /\ next_alt st = n_alt.

Definition has_split (states : list StateDef) (i : nat) (lazy : bool) (body : nat)
    (skip : option nat) : Prop :=
  if lazy then has states i Split skip (Some body) else has states i Split (Some body) skip.

(** [sub_nfa states r lo hi s k]: the states [lo, hi) are an automaton for [r]
    that starts in [s] and leaves to [k]. *)
Fixpoint sub_nfa (states : list StateDef) (r : re) (lo hi s : nat) (k : option nat) : Prop :=
  match r with
  | Label l => s = lo /\ hi = S lo /\ has states s l k None
  | Cat r1 r2 => exists mid s2,
      (lo <= mid <= hi)%nat /\ sub_nfa states r1 lo mid s (Some s2)
      /\ sub_nfa states r2 mid hi s2 k
  | Alt r1 r2 => exists mid s1 s2,
      (lo <= mid <= s)%nat /\ hi = S s /\ has states s Split (Some s1) (Some s2)
      /\ sub_nfa states r1 lo mid s1 k /\ sub_nfa states r2 mid s s2 k
  | Quant QZeroOrOne lazy r => exists body,
      hi = S s /\ has_split states s lazy body k /\ sub_nfa states r lo s body k
  | Quant QZeroOrMore lazy r => exists body,
      hi = S s /\ has_split states s lazy body k /\ sub_nfa states r lo s body (Some s)
  | Quant QOneOrMore lazy r => exists split,
      hi = S split /\ has_split states split lazy s k /\ sub_nfa states r lo split s (Some split)
  | Group idx r => exists close body,
      s = S close /\ hi = S s
      /\ has states close (CaptureClose + Z.of_nat idx) k None
      /\ has states s (CaptureOpen + Z.of_nat idx) (Some body) None
      /\ sub_nfa states r lo close body (Some close)
  end.

Lemma has_agree lo hi s1 s2 i l n a :
  agree lo hi s1 s2 -> (lo <= i < hi)%nat -> has s1 i l n a -> has s2 i l n a.
Proof. intros H Hi (st & ? & ?). exists st. by rewrite <-H. Qed.

Lemma has_split_agree lo hi s1 s2 i lazy body k :
  agree lo hi s1 s2 -> (lo <= i < hi)%nat -> has_split s1 i lazy body k ->
  has_split s2 i lazy body k.
Proof. unfold has_split. intros. case_match; eauto using has_agree. Qed.

Lemma agree_sub lo hi lo' hi' s1 s2 :
  agree lo hi s1 s2 -> (lo <= lo')%nat -> (hi' <= hi)%nat -> agree lo' hi' s1 s2.
Proof. intros H ?? i ?. apply H. lia. Qed.

Lemma sub_nfa_bounds states r lo hi s k : sub_nfa states r lo hi s k -> (lo <= s < hi)%nat.
Proof.
  revert lo hi s k. induction r as [l|r1 IH1 r2 IH2|r1 IH1 r2 IH2|[] lazy r IH|idx r IH];
    intros lo hi s k; cbn.
  - lia.
  - intros (mid & s2 & ? & H1%IH1 & H2%IH2). lia.
  - intros (mid & s1 & s2 & ? & ? & _). lia.
  - intros (body & ? & _ & H%IH). lia.
  - intros (body & ? & _ & H%IH). lia.
  - intros (split & ? & _ & H%IH). lia.
  - intros (close & body & ? & ? & _ & _ & H%IH). lia.
Qed.

(** The shape depends on the range only. *)
Lemma sub_nfa_agree s1 s2 r lo hi s k :
  agree lo hi s1 s2 -> sub_nfa s1 r lo hi s k -> sub_nfa s2 r lo hi s k.
Proof.
  revert lo hi s k. induction r as [l|r1 IH1 r2 IH2|r1 IH1 r2 IH2|[] lazy r IH|idx r IH];
    intros lo hi s k Ha; cbn.
  - intros (-> & -> & H). split_and!; [done..|]. eapply has_agree; [done|lia|done].
  - intros (mid & s2' & ? & H1 & H2). exists mid, s2'. split_and!; [lia|lia| |].
    + eapply IH1; [|done]. eapply agree_sub; (done || lia).
    + eapply IH2; [|done]. eapply agree_sub; (done || lia).
  - intros (mid & s1' & s2' & ? & -> & H & H1 & H2). exists mid, s1', s2'.
    split_and!; [lia|lia|done|eapply has_agree; (done || lia)| |].
    + eapply IH1; [|done]. eapply agree_sub; (done || lia).
    + eapply IH2; [|done]. eapply agree_sub; (done || lia).
  - intros (body & -> & Hs & H). pose proof (sub_nfa_bounds _ _ _ _ _ _ H).
    exists body. split_and!; [done|eapply has_split_agree; (done || lia)|].
    eapply IH; [|done]. eapply agree_sub; (done || lia).
  - intros (body & -> & Hs & H). pose proof (sub_nfa_bounds _ _ _ _ _ _ H).
    exists body. split_and!; [done|eapply has_split_agree; (done || lia)|].
    eapply IH; [|done]. eapply agree_sub; (done || lia).
  - intros (split & -> & Hs & H). pose proof (sub_nfa_bounds _ _ _ _ _ _ H).
    exists split. split_and!; [done|eapply has_split_agree; (done || lia)|].
    eapply IH; [|done]. eapply agree_sub; (done || lia).
  - intros (close & body & -> & -> & Hc & Ho & H). pose proof (sub_nfa_bounds _ _ _ _ _ _ H).
    exists close, body. split_and!; [done|done|eapply has_agree; (done || lia)..|].
    eapply IH; [|done]. eapply agree_sub; (done || lia).
Qed.

(** * Fragments under construction *)

(** A fragment for [r] in the range: whatever its dangling fields are patched
    to, it becomes an automaton that leaves to that state. *)
Definition frag_ok (states : list StateDef) (r : re) (lo hi : nat) (f : Frag) : Prop :=
  slots_in lo hi (dangling f)
  /\ forall k, sub_nfa (patch_states (dangling f) k states) r lo hi (start f) k.

Lemma frag_ok_agree s1 s2 r lo hi f :
  agree lo hi s1 s2 -> frag_ok s1 r lo hi f -> frag_ok s2 r lo hi f.
Proof.
  intros Ha [Hs Hf]. split; [done|]. intros k.
  eapply sub_nfa_agree; [|apply Hf]. by apply agree_patch.
Qed.

(** The stack of fragments tiles [1, hi): each one owns a range above the next. *)
Fixpoint stack_ok (states : list StateDef) (frags : list Frag) (trees : list re) (hi : nat) :
    Prop :=
  match frags, trees with
  | [], [] => hi = 1%nat
  | f :: frags, r :: trees =>
      exists lo, (1 <= lo <= hi)%nat /\ frag_ok states r lo hi f
        /\ stack_ok states frags trees lo
  | _, _ => False
  end.

Lemma stack_ok_agree s1 s2 frags trees hi :
  agree 1 hi s1 s2 -> stack_ok s1 frags trees hi -> stack_ok s2 frags trees hi.
Proof.
  revert trees hi. induction frags as [|f frags IH]; intros [|r trees] hi Ha; cbn; try done.
  intros (lo & ? & Hf & Hs). exists lo. split_and!; [lia..| |].
  - eapply frag_ok_agree; [|done]. eapply agree_sub; (done || lia).
  - eapply IH; [|done]. eapply agree_sub; (done || lia).
Qed.

(** What every step of the construction keeps: the accept state, room for the
    remaining tokens, no error, and the tiling. *)
Record nfa_inv (cap : nat) (nfa : Nfa) (frags : list Frag) (trees : list re) (todo : nat) : Prop := {
  inv_accept : has (owned_states nfa) 0 Match None None;
  inv_room : (length (owned_states nfa) + 2 * todo <= capacity nfa)%nat;
  inv_capacity : capacity nfa = cap;
  inv_error : nfa_error nfa = NoError;
  inv_stack : stack_ok (owned_states nfa) frags trees (length (owned_states nfa));
}.

(** * Each token keeps the invariant *)

Lemma create_state_ok nfa l n a :
  (length (owned_states nfa) < capacity nfa)%nat ->
  create_state nfa l n a =
    (length (owned_states nfa),
     set_states nfa (owned_states nfa
       ++ [mkState l n a (length (owned_states nfa)) bitmap_zero false])).
Proof. intros H. unfold create_state. by rewrite (proj2 (Nat.leb_gt _ _)). Qed.

Lemma has_new states l n a idx :
  has (states ++ [mkState l n a idx bitmap_zero false]) (length states) l n a.
Proof. eexists. split; [by apply list_lookup_middle|done]. Qed.

Lemma has_lt states i l n a : has states i l n a -> (i < length states)%nat.
Proof. intros (st & H & _). by apply lookup_lt_Some in H. Qed.

(** Patching a field of a state sets that field. *)
Lemma has_patch_next states s l n a k :
  has states s l n a -> has (patch_states [NextOf s] k states) s l k a.
Proof.
  intros (st & H & <- & _ & <-). exists (set_next st k).
  rewrite lookup_patch, H. cbn. by rewrite Nat.eqb_refl.
Qed.

Lemma has_patch_alt states s l n a k :
  has states s l n a -> has (patch_states [NextAltOf s] k states) s l n k.
Proof.
  intros (st & H & <- & <- & _). exists (set_next_alt st k).
  rewrite lookup_patch, H. cbn. by rewrite Nat.eqb_refl.
Qed.

Definition branch (lazy : bool) (s : nat) : Slot := if lazy then NextOf s else NextAltOf s.

Lemma branch_state lazy s : slot_state (branch lazy s) = s.
Proof. by destruct lazy. Qed.

Lemma split_patch_branch states s lazy body k :
  has_split states s lazy body None ->
  has_split (patch_states [branch lazy s] k states) s lazy body k.
Proof. unfold has_split, branch. case_match; [apply has_patch_next|apply has_patch_alt]. Qed.

Lemma slots_in_branch lo hi lazy s : (lo <= s < hi)%nat -> slots_in lo hi [branch lazy s].
Proof. intros. unfold slots_in. by rewrite Forall_singleton, branch_state. Qed.

Lemma slots_in_next lo hi s : (lo <= s < hi)%nat -> slots_in lo hi [NextOf s].
Proof. intros. unfold slots_in. by rewrite Forall_singleton. Qed.

(** Closes agreement goals between patched and extended vectors. *)
Lemma agree_patched lo hi lo' hi' targets target s :
  slots_in lo' hi' targets -> (hi <= lo' \/ hi' <= lo)%nat ->
  agree lo hi s (patch_states targets target s).
Proof. intros. by apply agree_sym, (agree_patch_out _ _ lo' hi'). Qed.

Lemma agree_extended lo hi s t : (hi <= length s)%nat -> agree lo hi s (s ++ t).
Proof. intros. by apply agree_sym, agree_app. Qed.

Section Steps.
Context (states : list StateDef).
Implicit Types f : Frag.

Lemma frag_label l idx :
  frag_ok (states ++ [mkState l None None idx bitmap_zero false]) (Label l)
    (length states) (S (length states)) (mkFrag (length states) [NextOf (length states)]).
Proof.
  split; [apply slots_in_next; lia|]. intros k. cbn.
  split_and!; [done..|]. apply has_patch_next with None. apply has_new.
Qed.

Lemma frag_cat r1 r2 lo mid hi f1 f2 :
  (lo <= mid <= hi)%nat -> frag_ok states r1 lo mid f1 -> frag_ok states r2 mid hi f2 ->
  frag_ok (patch_states (dangling f1) (Some (start f2)) states) (Cat r1 r2) lo hi
    (mkFrag (start f1) (dangling f2)).
Proof.
  intros Hm [S1 F1] [S2 F2]. split; [eapply slots_in_weaken; (done || lia)|].
  intros k. exists mid, (start f2). cbn [start dangling]. split_and!; [lia|lia| |].
  - eapply sub_nfa_agree; [|apply F1]. eapply agree_patched; [exact S2|lia].
  - eapply sub_nfa_agree; [|apply F2]. apply agree_patch. eapply agree_patched; [exact S1|lia].
Qed.

Lemma frag_alt r1 r2 lo mid f1 f2 idx :
  (lo <= mid <= length states)%nat ->
  frag_ok states r1 lo mid f1 -> frag_ok states r2 mid (length states) f2 ->
  frag_ok (states ++ [mkState Split (Some (start f1)) (Some (start f2)) idx bitmap_zero false])
    (Alt r1 r2) lo (S (length states))
    (mkFrag (length states) (dangling f1 ++ dangling f2)).
Proof.
  intros Hm [S1 F1] [S2 F2]. split.
  { apply Forall_app; split; eapply slots_in_weaken; (done || lia). }
  intros k. cbn [start dangling]. rewrite patch_app.
  exists mid, (start f1), (start f2). split_and!; [lia|lia|done| | |].
  - eapply (has_agree (length states) (S (length states))); [|lia|apply has_new].
    eapply agree_trans; [eapply agree_patched; [exact S1|lia]|].
    eapply agree_patched; [exact S2|lia].
  - eapply sub_nfa_agree; [|apply F1]. eapply agree_trans.
    + apply agree_patch, agree_extended. lia.
    + eapply agree_patched; [exact S2|lia].
  - eapply sub_nfa_agree; [|apply F2]. apply agree_patch. eapply agree_trans.
    + apply agree_extended. lia.
    + eapply agree_patched; [exact S1|lia].
Qed.

Definition split_state (lazy : bool) (body idx : nat) : StateDef :=
  if lazy then mkState Split None (Some body) idx bitmap_zero false
  else mkState Split (Some body) None idx bitmap_zero false.

Lemma has_split_new lazy body idx :
  has_split (states ++ [split_state lazy body idx]) (length states) lazy body None.
Proof. unfold has_split, split_state. destruct lazy; apply has_new. Qed.

Lemma frag_opt r lo f lazy idx :
  (lo <= length states)%nat -> frag_ok states r lo (length states) f ->
  frag_ok (states ++ [split_state lazy (start f) idx]) (Quant QZeroOrOne lazy r) lo
    (S (length states))
    (mkFrag (length states) (dangling f ++ [branch lazy (length states)])).
Proof.
  intros Hlo [S1 F1]. split.
  { apply Forall_app; split; [eapply slots_in_weaken; (done || lia)|].
    apply slots_in_branch. lia. }
  intros k. cbn [start dangling]. rewrite patch_app. exists (start f).
  split_and!; [done| |].
  - apply split_patch_branch.
    eapply (has_split_agree (length states) (S (length states))); [|lia|apply has_split_new].
    eapply agree_patched; [done|lia].
  - eapply sub_nfa_agree; [|apply F1]. eapply agree_trans.
    + apply agree_patch, agree_extended. lia.
    + eapply (agree_patched _ _ (length states) (S (length states)));
        [apply slots_in_branch|]; lia.
Qed.

(** Both loops patch the body back to the new split state. *)
Lemma frag_loop r lo f lazy idx k :
  (lo <= length states)%nat -> frag_ok states r lo (length states) f ->
  let n := length states in
  let states' := patch_states [branch lazy n] k
    (patch_states (dangling f) (Some n) (states ++ [split_state lazy (start f) idx])) in
  has_split states' n lazy (start f) k /\ sub_nfa states' r lo n (start f) (Some n).
Proof.
  intros Hlo [S1 F1] n states'. split.
  - apply split_patch_branch.
    eapply (has_split_agree n (S n)); [|lia|apply has_split_new].
    eapply agree_patched; [done|lia].
  - eapply sub_nfa_agree; [|apply F1]. eapply agree_trans.
    + apply agree_patch, agree_extended. lia.
    + eapply (agree_patched _ _ n (S n)); [apply slots_in_branch|]; lia.
Qed.

Lemma frag_group r lo f i idx1 idx2 :
  (lo <= length states)%nat -> frag_ok states r lo (length states) f ->
  let n := length states in
  let close := mkState (CaptureClose + Z.of_nat i) None None idx1 bitmap_zero false in
  let open := mkState (CaptureOpen + Z.of_nat i) (Some (start f)) None idx2 bitmap_zero false in
  frag_ok (patch_states (dangling f) (Some n) (states ++ [close]) ++ [open]) (Group i r) lo
    (S (S n)) (mkFrag (S n) [NextOf n]).
Proof.
  intros Hlo [S1 F1] n close open.
  set (mid := patch_states (dangling f) (Some n) (states ++ [close])).
  assert (length mid = S n) as Hmid.
  { unfold mid. rewrite length_patch, length_app. cbn. lia. }
  split; [apply slots_in_next; lia|]. intros k. exists n, (start f). cbn [start dangling].
  split_and!; [done|done| | |].
  - apply has_patch_next with None. eapply (has_agree n (S n)); [|lia|apply has_new].
    eapply agree_trans; [eapply agree_patched; [exact S1|lia]|].
    apply agree_extended. rewrite Hmid. lia.
  - eapply (has_agree (S n) (S (S n))); [|lia|].
    { apply (agree_patched _ _ n (S n)); [apply slots_in_next; lia|lia]. }
    rewrite <-Hmid. apply has_new.
  - eapply sub_nfa_agree; [|apply F1]. eapply agree_trans; [|eapply agree_trans].
    + apply agree_patch, agree_extended. lia.
    + apply agree_extended. rewrite length_patch, length_app. cbn. lia.
    + apply (agree_patched _ _ n (S n)); [apply slots_in_next; lia|lia].
Qed.
End Steps.

(** Pushing states and patching above the accept state keep the rest. *)
Lemma has_accept_app states t l n a : has states 0 l n a -> has (states ++ t) 0 l n a.
Proof.
  intros H. pose proof (has_lt _ _ _ _ _ H). eapply (has_agree 0 1); [|lia|done].
  apply agree_extended. lia.
Qed.

Lemma has_accept_patch lo hi states targets target l n a :
  (1 <= lo)%nat -> slots_in lo hi targets -> has states 0 l n a ->
  has (patch_states targets target states) 0 l n a.
Proof.
  intros Hlo Hs H. eapply (has_agree 0 1); [|lia|done]. eapply agree_patched; [done|lia].
Qed.

Lemma stack_ok_app states t frags trees hi :
  (hi <= length states)%nat -> stack_ok states frags trees hi ->
  stack_ok (states ++ t) frags trees hi.
Proof. intros Hhi. apply stack_ok_agree. by apply agree_extended. Qed.

Lemma stack_ok_patch states targets target frags trees lo hi :
  slots_in lo hi targets -> stack_ok states frags trees lo ->
  stack_ok (patch_states targets target states) frags trees lo.
Proof. intros Hs. apply stack_ok_agree. eapply agree_patched; [done|lia]. Qed.

(** The outcome of a step: the new stack of trees, or an error. *)
Definition step_ok (cap : nat) (res : option (list Frag) * Nfa) (trees : option (list re)) (todo : nat) :
    Prop :=
  match trees with
  | Some trees => exists frags nfa, res = (Some frags, nfa) /\ nfa_inv cap nfa frags trees todo
  | None => exists nfa, res = (None, nfa) /\ nfa_error nfa <> NoError
  end.

Lemma step_error cap nfa code todo :
  nfa_error nfa = NoError -> code <> NoError ->
  step_ok cap (None, nfa_set_error nfa code) None todo.
Proof. intros H ?. eexists; split; [done|]. unfold nfa_set_error. by rewrite H. Qed.

Section Token.
Context (cap : nat) (nfa : Nfa) (todo : nat).
Let n := length (owned_states nfa).

Lemma step_label l frags trees :
  nfa_inv cap nfa frags trees (S todo) ->
  step_ok cap (let '(state, nfa) := create_state nfa l None None in
           (Some (mkFrag state [NextOf state] :: frags), nfa))
    (Some (Label l :: trees)) todo.
Proof.
  intros [Ha Hr Hc He Hs]. rewrite create_state_ok by lia. eexists _, _; split; [done|].
  pose proof (has_lt _ _ _ _ _ Ha).
  split; cbn [owned_states capacity nfa_error set_states]; [by apply has_accept_app| |done|done|].
  - rewrite length_app. cbn. lia.
  - rewrite length_app, Nat.add_1_r. cbn [stack_ok]. exists n.
    split_and!; [lia|lia|apply frag_label|by apply stack_ok_app].
Qed.

Lemma step_cat f1 f2 r1 r2 frags trees :
  nfa_inv cap nfa (f2 :: f1 :: frags) (r2 :: r1 :: trees) (S todo) ->
  step_ok cap (Some (mkFrag (start f1) (dangling f2) :: frags),
           patch nfa (dangling f1) (start f2)) (Some (Cat r1 r2 :: trees)) todo.
Proof.
  intros [Ha Hr Hc He Hs]. cbn [stack_ok] in Hs.
  destruct Hs as (mid & ? & F2 & lo & ? & F1 & Hs). eexists _, _; split; [done|].
  split; cbn [owned_states capacity nfa_error set_states patch]; rewrite ?length_patch.
  - eapply has_accept_patch; [|apply F1|done]. lia.
  - lia.
  - done.
  - done.
  - cbn [stack_ok]. exists lo. split_and!; [lia|lia|apply (frag_cat _ _ _ lo mid); (done || lia)|].
    eapply stack_ok_patch; [apply F1|done].
Qed.

Lemma step_alt f1 f2 r1 r2 frags trees :
  nfa_inv cap nfa (f2 :: f1 :: frags) (r2 :: r1 :: trees) (S todo) ->
  step_ok cap (let '(state, nfa) := create_state nfa Split (Some (start f1)) (Some (start f2)) in
           (Some (mkFrag state (dangling f1 ++ dangling f2) :: frags), nfa))
    (Some (Alt r1 r2 :: trees)) todo.
Proof.
  intros [Ha Hr Hc He Hs]. cbn [stack_ok] in Hs.
  destruct Hs as (mid & ? & F2 & lo & ? & F1 & Hs).
  rewrite create_state_ok by lia. eexists _, _; split; [done|].
  split; cbn [owned_states capacity nfa_error set_states];
    [by apply has_accept_app|rewrite length_app; cbn; lia|done|done|].
  rewrite length_app, Nat.add_1_r. cbn [stack_ok]. exists lo.
  split_and!; [lia|lia|apply (frag_alt _ _ _ lo mid); (done || lia)|apply stack_ok_app; (done || lia)].
Qed.

Lemma step_quantifier kind lazy f r frags trees :
  nfa_inv cap nfa (f :: frags) (r :: trees) (S todo) ->
  step_ok cap (build_quantifier (f :: frags) kind lazy nfa)
    (Some (Quant kind lazy r :: trees)) todo.
Proof.
  intros [Ha Hr Hc He Hs]. cbn [stack_ok] in Hs. destruct Hs as (lo & ? & F & Hs).
  assert ((if lazy then create_state nfa Split None (Some (start f))
           else create_state nfa Split (Some (start f)) None)
          = (n, set_states nfa (owned_states nfa ++ [split_state lazy (start f) n]))) as E.
  { destruct lazy; by rewrite create_state_ok by lia. }
  assert (stack_ok (owned_states nfa ++ [split_state lazy (start f) n]) frags trees lo) as Hs'.
  { apply stack_ok_app; [lia|done]. }
  unfold build_quantifier. rewrite E. fold (branch lazy n).
  destruct kind; eexists _, _; (split; [done|]);
    (split; cbn [owned_states capacity nfa_error set_states patch];
     rewrite ?length_patch, ?length_app, ?Nat.add_1_r; [| |done|done|]); try (cbn; lia);
    try by apply has_accept_app.
  2,4: eapply has_accept_patch; [|apply F|by apply has_accept_app]; lia.
  - exists lo. split_and!; [lia|lia|apply frag_opt; (done || lia)|done].
  - exists lo. split_and!; [lia|lia| |by eapply stack_ok_patch; [apply F|]].
    split; [apply slots_in_branch; lia|]. intros k. cbn [start dangling].
    destruct (frag_loop (owned_states nfa) r lo f lazy n k) as [H1 H2]; [lia|done|].
    by exists (start f).
  - exists lo. split_and!; [lia|lia| |by eapply stack_ok_patch; [apply F|]].
    split; [apply slots_in_branch; lia|]. intros k. cbn [start dangling].
    destruct (frag_loop (owned_states nfa) r lo f lazy n k) as [H1 H2]; [lia|done|].
    by exists n.
Qed.

Lemma step_group i f r frags trees :
  nfa_inv cap nfa (f :: frags) (r :: trees) (S todo) ->
  step_ok cap
    (let '(close, nfa) := create_state nfa (CaptureClose + Z.of_nat i) None None in
     let nfa := patch nfa (dangling f) close in
     let '(open, nfa) := create_state nfa (CaptureOpen + Z.of_nat i) (Some (start f)) None in
     (Some (mkFrag open [NextOf close] :: frags), nfa))
    (Some (Group i r :: trees)) todo.
Proof.
  intros [Ha Hr Hc He Hs]. cbn [stack_ok] in Hs. destruct Hs as (lo & ? & F & Hs).
  rewrite create_state_ok by lia. cbv beta iota zeta. rewrite create_state_ok.
  2: { cbn. rewrite length_patch, length_app. cbn. lia. }
  eexists _, _; split; [done|].
  split; cbn [owned_states capacity nfa_error set_states patch];
    rewrite ?length_app, ?length_patch, ?length_app, ?Nat.add_1_r; [|cbn; lia|done|done|].
  - apply has_accept_app. eapply has_accept_patch; [|apply F|by apply has_accept_app]. lia.
  - exists lo. split_and!; [lia|lia|apply frag_group; (done || lia)|].
    apply stack_ok_app; [rewrite length_patch, length_app; cbn; lia|].
    eapply stack_ok_patch; [apply F|]. apply stack_ok_app; [lia|done].
Qed.
End Token.

Lemma stack_ok_trees states frags trees hi :
  stack_ok states frags trees hi -> length frags = length trees.
Proof.
  revert trees hi. induction frags as [|f frags IH]; intros [|r trees] hi; cbn; try done.
  intros (lo & _ & _ & H). by rewrite (IH _ _ H).
Qed.

(** One token: the construction follows the tree builder. *)
Lemma nfa_token_ok cap token nfa frags trees todo :
  nfa_inv cap nfa frags trees (S todo) ->
  step_ok cap (nfa_token token frags nfa) (re_token token trees) todo.
Proof.
  intros Hinv. pose proof (inv_error _ _ _ _ _ Hinv) as He.
  pose proof (stack_ok_trees _ _ _ _ (inv_stack _ _ _ _ _ Hinv)) as Hlen.
  unfold nfa_token, re_token.
  destruct (token =? Catenation); [|destruct (token =? Alternation);
    [|destruct (quantifier_token token) as [[kind lazy]|];
      [|destruct (is_capture_group token) eqn:Hg]]].
  - destruct frags as [|f2 [|f1 frags]], trees as [|r2 [|r1 trees]]; try done;
      [by apply step_error..|by apply step_cat].
  - destruct frags as [|f2 [|f1 frags]], trees as [|r2 [|r1 trees]]; try done;
      [by apply step_error..|by apply step_alt].
  - destruct frags as [|f frags], trees as [|r trees]; try done; [by apply step_error|].
    destruct (step_quantifier cap nfa todo kind lazy f r frags trees Hinv)
      as (frags' & nfa' & -> & Hinv').
    rewrite (inv_error _ _ _ _ _ Hinv'). by eexists _, _.
  - destruct frags as [|f frags], trees as [|r trees]; try done; [by apply step_error|].
    assert (Z.of_nat (Z.to_nat (token - CaptureGroup)) = token - CaptureGroup) as E.
    { unfold is_capture_group in Hg. lia. }
    pose proof (step_group cap nfa todo (Z.to_nat (token - CaptureGroup)) f r frags trees Hinv) as H.
    rewrite E in H. exact H.
  - by apply step_label.
Qed.

Lemma nfa_tokens_ok cap tokens nfa frags trees :
  nfa_inv cap nfa frags trees (length tokens) ->
  step_ok cap (nfa_tokens tokens frags nfa) (re_tokens tokens trees) 0.
Proof.
  revert nfa frags trees. induction tokens as [|token tokens IH]; intros nfa frags trees Hinv.
  { by eexists _, _. }
  cbn [nfa_tokens re_tokens length] in *. pose proof (nfa_token_ok cap token _ _ _ _ Hinv) as H.
  destruct (re_token token trees) as [trees'|]; cbn [step_ok] in H.
  - destruct H as (frags' & nfa' & -> & Hinv'). by apply IH.
  - destruct H as (nfa' & -> & He). by eexists.
Qed.

Lemma initial_inv postfix : nfa_inv (2 * length postfix + 1) (initial_nfa postfix) [] [] (length postfix).
Proof.
  unfold initial_nfa. rewrite create_state_ok by (cbn; lia). cbn.
  split; cbn; [|lia|done|done|done]. by eexists.
Qed.

(** The construction succeeds on exactly the well-formed postfix sequences, and
    then the states are an automaton for the tree that ends in the accept state. *)
Lemma postfix_to_nfa_ok postfix :
  postfix <> [] -> Z.of_nat (length postfix) <= MaxStates ->
  let '(s, nfa) := postfix_to_nfa postfix (initial_nfa postfix) in
  match re_of_postfix postfix with
  | Some r =>
      nfa_error nfa = NoError
      /\ (length (owned_states nfa) <= 2 * length postfix + 1)%nat
      /\ has (owned_states nfa) 0 Match None None
      /\ sub_nfa (owned_states nfa) r 1 (length (owned_states nfa)) s (Some accept_state)
  | None => s = accept_state /\ nfa_error nfa <> NoError
  end.
Proof.
  intros Hne Hlen. pose proof (nfa_tokens_ok _ postfix _ _ _ (initial_inv postfix)) as H.
  unfold postfix_to_nfa, re_of_postfix. destruct postfix as [|token tokens] eqn:E; [done|].
  rewrite <-E in *. rewrite (proj2 (Z.ltb_ge _ _)) by done.
  destruct (re_tokens postfix []) as [trees|]; cbn [step_ok] in H.
  2: { destruct H as (nfa & -> & ?). done. }
  destruct H as (frags & nfa & -> & [Ha Hr Hc He Hs]).
  pose proof (stack_ok_trees _ _ _ _ Hs) as Hl.
  destruct frags as [|f [|f' frags]], trees as [|r [|r' trees]]; try done.
  - split; [done|]. unfold nfa_set_error. by rewrite He.
  - cbn in Hs. destruct Hs as (lo & ? & [Hs Hf] & ->).
    cbn [owned_states patch set_states nfa_error]. rewrite length_patch.
    split_and!; [done| |by eapply has_accept_patch; [|exact Hs|]; [lia|]|apply Hf].
    lia.
  - split; [done|]. unfold nfa_set_error. by rewrite He.
Qed.

(** * What the construction leaves for later passes *)

(** Every state knows its position, has an empty acceptance bitmap and is not yet
    marked as trivial. *)
Definition fresh (states : list StateDef) : Prop :=
  forall i st, states !! i = Some st ->
  closure_index st = i /\ ascii_accept st = bitmap_zero /\ trivial_closure st = false.

Lemma fresh_create nfa l n n_alt :
  fresh (owned_states nfa) -> fresh (owned_states (create_state nfa l n n_alt).2).
Proof.
  intros H. unfold create_state, nfa_set_error. repeat case_match; try exact H.
  intros i st. cbn. rewrite lookup_app_Some, list_lookup_singleton_Some.
  intros [Hi|(Hlen & Hi & <-)]; [by apply H|]. cbn. split; [lia|done].
Qed.

Lemma write_at_fixed i target targets st :
  closure_index (foldl (write_at i target) st targets) = closure_index st
  /\ ascii_accept (foldl (write_at i target) st targets) = ascii_accept st
  /\ trivial_closure (foldl (write_at i target) st targets) = trivial_closure st.
Proof.
  revert st. induction targets as [|slot targets IH]; intros st; [done|]. cbn [foldl].
  destruct (IH (write_at i target st slot)) as (-> & -> & ->).
  destruct slot as [s|s]; cbn; by destruct (s =? i)%nat.
Qed.

Lemma fresh_patch nfa targets target :
  fresh (owned_states nfa) -> fresh (owned_states (patch nfa targets target)).
Proof.
  intros H i st. cbn. rewrite lookup_patch, fmap_Some. intros (st0 & H0 & ->).
  destruct (write_at_fixed i (Some target) targets st0) as (-> & -> & ->). by apply H.
Qed.

Lemma fresh_create_eq nfa l n n_alt s nfa' :
  create_state nfa l n n_alt = (s, nfa') -> fresh (owned_states nfa) ->
  fresh (owned_states nfa').
Proof. intros E H. pose proof (fresh_create nfa l n n_alt H) as H'. by rewrite E in H'. Qed.

Ltac fresh_cases :=
  repeat case_match; simplify_eq; cbn [snd];
  repeat first
    [ done
    | apply fresh_patch
    | match goal with
      | E : create_state _ _ _ _ = (_, ?nfa) |- fresh (owned_states ?nfa) =>
          eapply fresh_create_eq; [exact E|clear E]
      end ].

Lemma fresh_token token stack nfa :
  fresh (owned_states nfa) -> fresh (owned_states (nfa_token token stack nfa).2).
Proof.
  intros H. unfold nfa_token, build_quantifier, nfa_set_error. fresh_cases.
Qed.

Lemma fresh_tokens tokens stack nfa :
  fresh (owned_states nfa) -> fresh (owned_states (nfa_tokens tokens stack nfa).2).
Proof.
  revert stack nfa. induction tokens as [|token tokens IH]; intros stack nfa H; [done|].
  cbn [nfa_tokens]. pose proof (fresh_token token stack nfa H) as H1.
  destruct (nfa_token token stack nfa) as [[stack'|] nfa']; [by apply IH|done].
Qed.

Lemma postfix_to_nfa_fresh postfix :
  fresh (owned_states (postfix_to_nfa postfix (initial_nfa postfix)).2).
Proof.
  assert (fresh (owned_states (initial_nfa postfix))) as H0.
  { apply fresh_create. by intros [|i] st H. }
  unfold postfix_to_nfa. destruct postfix as [|token tokens] eqn:E; [done|]. rewrite <-E in *.
  pose proof (fresh_tokens postfix [] _ H0) as H. unfold nfa_set_error.
  destruct (nfa_tokens _ _ _) as [[stack|] nfa]; cbn [snd] in H; fresh_cases.
Qed.
