(* ===== verification/NfaPaths.v ===== *)
(** Runs of the automaton, and their agreement with [re_match]: an automaton
    built for a tree can go from its start to the state it leaves to exactly
    between the positions the tree matches.  Runs that record captures agree with
    [re_capture] in the same way. *)

From S2P Require Import Prelude RegexSyntax RegexSpec Nfa.

Section Paths.
Context (states : list StateDef).
Context (accepts : Z -> Z -> bool) (w : list Z) (flags : nat -> Flags) (off : nat -> nat).

(** The states an epsilon state leads to under the given conditions, in the
    order the engine explores them. *)
Definition eps_targets (st : StateDef) (f : Flags) : list (option nat) :=
  if label st =? Split then [next st; next_alt st]
  else if is_capture_open (label st) || is_capture_close (label st) then [next st]
  else if is_conditional (label st) then
    if flag_of (label st) f then [next st] else []
  else [].

(** One step at an input position: an epsilon move, or consuming a rune. *)
Inductive step : nat * nat -> nat * nat -> Prop :=
  | step_eps s i st t :
      states !! s = Some st -> Some t ∈ eps_targets st (flags i) -> step (s, i) (t, i)
  | step_rune s i st r t :
      states !! s = Some st -> is_epsilon (label st) = false ->
      w !! i = Some r -> accepts (label st) r = true -> next st = Some t ->
      step (s, i) (t, S i).

Definition run := rtc step.

(** The same steps with the frame of captures they write. *)
Definition record_capture (l : Z) (i : nat) (c : Frame) : Frame :=
  if is_capture_open l then open_group off (capture_index l) i c
  else if is_capture_close l then close_group off (capture_index l) i c
  else c.

Inductive cstep : nat * nat * Frame -> nat * nat * Frame -> Prop :=
  | cstep_eps s i c st t :
      states !! s = Some st -> Some t ∈ eps_targets st (flags i) ->
      cstep (s, i, c) (t, i, record_capture (label st) i c)
  | cstep_rune s i c st r t :
      states !! s = Some st -> is_epsilon (label st) = false ->
      w !! i = Some r -> accepts (label st) r = true -> next st = Some t ->
      cstep (s, i, c) (t, S i, c).

Lemma step_cstep s i t j c : step (s, i) (t, j) -> exists c', cstep (s, i, c) (t, j, c').
Proof. intros H. inversion H; subst; eexists; by econstructor. Qed.

Lemma run_cstep s i t j c : run (s, i) (t, j) -> exists c', rtc cstep (s, i, c) (t, j, c').
Proof.
  intros H. remember (s, i) as x eqn:Ex. remember (t, j) as y eqn:Ey. revert s i c Ex.
  induction H as [x|x z y Hstep _ IH]; intros s i c ->; [exists c; by rewrite Ey|].
  destruct z as [s' i']. destruct (step_cstep _ _ _ _ c Hstep) as [c1 H1].
  destruct (IH Ey s' i' c1 eq_refl) as [c2 H2]. exists c2. by eapply rtc_l.
Qed.

Lemma cstep_step s i c t j c' : cstep (s, i, c) (t, j, c') -> step (s, i) (t, j).
Proof. intros H. inversion H; subst; by econstructor. Qed.

Lemma crun_run s i c t j c' : rtc cstep (s, i, c) (t, j, c') -> run (s, i) (t, j).
Proof.
  intros H. remember (s, i, c) as x eqn:Ex. remember (t, j, c') as y eqn:Ey. revert s i c Ex.
  induction H as [x|x z y Hstep _ IH]; intros s i c ->; [injection Ey as -> -> ->; constructor|].
  destruct z as [[s' i'] c1]. apply cstep_step in Hstep. eapply rtc_l; [done|]. by eapply IH.
Qed.

(** The accept state does not move on. *)
Hypothesis accept_dead : forall i r, w !! i = Some r -> accepts Match r = false.

Lemma accept_stuck s n a i c : has states s Match n a -> ~ step (s, i) c.
Proof.
  intros (st & Hs & Hl & _) Hstep.
  inversion Hstep as [? ? st' ? Hs' Hin|? ? st' r ? Hs' He ? Hacc]; subst;
    rewrite Hs in Hs'; injection Hs' as <-.
  - unfold eps_targets in Hin. rewrite Hl in Hin. cbn in Hin. by apply elem_of_nil in Hin.
  - rewrite Hl in Hacc. by erewrite accept_dead in Hacc.
Qed.

(** * What each state shape can do *)

Lemma no_capture_label l i c : is_capture_open l = false -> is_capture_close l = false ->
  record_capture l i c = c.
Proof. unfold record_capture. by intros -> ->. Qed.

Lemma step_of_label s i c l k x : atom_label l = true -> has states s l k None ->
  cstep (s, i, c) x ->
  exists t j, k = Some t /\ x = (t, j, c) /\ re_capture accepts w flags off (Label l) i j c c.
Proof.
  intros Hl (st & Hs & <- & <- & _) Hstep. pose proof (atom_epsilon _ Hl) as He.
  assert (is_capture_open (label st) = false /\ is_capture_close (label st) = false) as [Ho Hc].
  { unfold atom_label in Hl. unfold_labels. lia. }
  inversion Hstep as [? ? ? st' t Hs' Hin|? ? ? st' r t Hs' Hne Hr Hacc Hn]; subst;
    rewrite Hs in Hs'; injection Hs' as <-.
  - exists t, i. unfold eps_targets in Hin. rewrite (no_capture_label _ _ _ Ho Hc).
    rewrite Ho, Hc in Hin. cbn [orb] in Hin.
    destruct (label st =? Split) eqn:E1; [unfold atom_label in Hl; unfold_labels; lia|].
    destruct (is_conditional (label st)) eqn:E3; [|by apply elem_of_nil in Hin].
    destruct (flag_of (label st) (flags i)) eqn:E4; [|by apply elem_of_nil in Hin].
    apply list_elem_of_singleton in Hin. split_and!; [done|done|by constructor].
  - exists t, (S i). split_and!; [done..|]. by eapply capture_rune.
Qed.

Lemma label_run s i j l t : atom_label l = true -> has states s l (Some t) None ->
  re_match accepts w flags (Label l) i j -> step (s, i) (t, j).
Proof.
  intros Hl (st & Hs & <- & Hn & _) Hm.
  inversion Hm as [? ? r Hne Hr Hacc|? ? Hc Hf| | | | | | | | |]; subst.
  - by eapply step_rune.
  - eapply step_eps; [done|]. unfold eps_targets. rewrite Hc, Hf, Hn.
    replace (label st =? Split) with false by (unfold_labels; lia).
    replace (is_capture_open (label st) || is_capture_close (label st)) with false
      by (unfold_labels; lia).
    apply list_elem_of_singleton. done.
Qed.

Lemma step_of_split s i c n a x : has states s Split n a -> cstep (s, i, c) x ->
  exists t, x = (t, i, c) /\ (n = Some t \/ a = Some t).
Proof.
  intros (st & Hs & Hl & <- & <-) Hstep.
  inversion Hstep as [? ? ? st' t Hs' Hin|? ? ? st' r t Hs' Hne]; subst;
    rewrite Hs in Hs'; injection Hs' as <-.
  - exists t. rewrite Hl. split; [done|]. unfold eps_targets in Hin. rewrite Hl in Hin.
    cbn in Hin. rewrite !elem_of_cons, elem_of_nil in Hin. intuition congruence.
  - by rewrite Hl in Hne.
Qed.

Lemma split_run s i n a t : has states s Split n a -> n = Some t \/ a = Some t ->
  step (s, i) (t, i).
Proof.
  intros (st & Hs & Hl & <- & <-) Ht. eapply step_eps; [done|].
  unfold eps_targets. rewrite Hl. cbn. rewrite !elem_of_cons. intuition congruence.
Qed.

Lemma step_of_lazy_split s i c lazy body k x :
  has_split states s lazy body k -> cstep (s, i, c) x ->
  exists t, x = (t, i, c) /\ (t = body \/ k = Some t).
Proof.
  unfold has_split. intros H Hs. destruct lazy;
    destruct (step_of_split _ _ _ _ _ _ H Hs) as (t & -> & Ht); exists t; intuition congruence.
Qed.

Lemma lazy_split_run s i lazy body k t : has_split states s lazy body k ->
  t = body \/ k = Some t -> step (s, i) (t, i).
Proof.
  unfold has_split. intros H Ht. destruct lazy; eapply split_run; (done || intuition congruence).
Qed.

Lemma capture_targets l idx f st : label st = l ->
  l = CaptureOpen + idx \/ l = CaptureClose + idx -> 0 <= idx < MaxCaptures ->
  eps_targets st f = [next st] /\ is_epsilon (label st) = true.
Proof.
  intros <- H Hidx. unfold eps_targets.
  replace (label st =? Split) with false by (unfold_labels; lia).
  replace (is_capture_open (label st) || is_capture_close (label st)) with true
    by (unfold_labels; lia).
  split; [done|]. unfold_labels. lia.
Qed.

Lemma record_open idx i c : Z.of_nat idx < MaxCaptures ->
  record_capture (CaptureOpen + Z.of_nat idx) i c = open_group off idx i c.
Proof.
  intros H. unfold record_capture, capture_index.
  replace (is_capture_open _) with true by (unfold_labels; lia). f_equal. lia.
Qed.

Lemma record_close idx i c : Z.of_nat idx < MaxCaptures ->
  record_capture (CaptureClose + Z.of_nat idx) i c = close_group off idx i c.
Proof.
  intros H. unfold record_capture, capture_index.
  replace (is_capture_open _) with false by (unfold_labels; lia).
  replace (is_capture_close _) with true by (unfold_labels; lia). f_equal. lia.
Qed.

Lemma step_of_capture s i c l idx n a x : has states s l n a ->
  l = CaptureOpen + idx \/ l = CaptureClose + idx -> 0 <= idx < MaxCaptures ->
  cstep (s, i, c) x -> exists t, x = (t, i, record_capture l i c) /\ n = Some t.
Proof.
  intros (st & Hs & Hl & <- & _) Hor Hidx Hstep.
  inversion Hstep as [? ? ? st' t Hs' Hin|? ? ? st' r t Hs' Hne]; subst;
    rewrite Hs in Hs'; injection Hs' as <-;
    destruct (capture_targets _ idx (flags i) st eq_refl Hor Hidx) as [E1 E2].
  - rewrite E1 in Hin. apply list_elem_of_singleton in Hin. eauto.
  - by rewrite E2 in Hne.
Qed.

Lemma capture_run s i l idx t a : has states s l (Some t) a ->
  l = CaptureOpen + idx \/ l = CaptureClose + idx -> 0 <= idx < MaxCaptures ->
  step (s, i) (t, i).
Proof.
  intros (st & Hs & Hl & Hn & _) Hor Hidx. subst l. eapply step_eps; [done|].
  destruct (capture_targets _ idx (flags i) st eq_refl Hor Hidx) as [-> _].
  apply list_elem_of_singleton. done.
Qed.

(** * Soundness: leaving the automaton means having matched *)

Lemma leave_start s n i c j c' : s <> 0%nat -> nsteps cstep n (s, i, c) (0%nat, j, c') ->
  exists n' x, n = S n' /\ cstep (s, i, c) x /\ nsteps cstep n' x (0%nat, j, c').
Proof.
  intros Hs Hn. inversion Hn as [|n' x y z Hstep Hn']; subst; [done|]. by exists n', y.
Qed.

(** A run from [s] to the end goes through a match of [r] that leaves to [k]. *)
Definition leaves (r : re) (s : nat) (k : option nat) : Prop :=
  forall n i c j cj, nsteps cstep n (s, i, c) (0%nat, j, cj) ->
  exists t m cm n', k = Some t /\ re_capture accepts w flags off r i m c cm
    /\ nsteps cstep n' (t, m, cm) (0%nat, j, cj) /\ (n' < n)%nat.

(** The loops: from the split state, by induction on the length of the run. *)
Lemma leaves_loop r lazy split body k :
  split <> 0%nat -> has_split states split lazy body k -> leaves r body (Some split) ->
  leaves (Quant QZeroOrMore lazy r) split k.
Proof.
  intros Hne Hsplit Hr n. induction n as [n IH] using lt_wf_ind. intros i c j cj Hn.
  destruct (leave_start _ _ _ _ _ _ Hne Hn) as (n1 & x & -> & Hstep & Hn1).
  destruct (step_of_lazy_split _ _ _ _ _ _ _ Hsplit Hstep) as (t & -> & [->|Hk]).
  - destruct (Hr _ _ _ _ _ Hn1) as (t & m & cm & n2 & [= <-] & Hm & Hn2 & ?).
    destruct (IH n2 ltac:(lia) _ _ _ _ Hn2) as (t & m' & cm' & n3 & Hk & Hm' & Hn3 & ?).
    exists t, m', cm', n3. split_and!; [done|by eapply capture_star_cons|done|lia].
  - exists t, i, c, n1. split_and!; [done|constructor|done|lia].
Qed.

Lemma leaves_label l s k :
  s <> 0%nat -> atom_label l = true -> has states s l k None -> leaves (Label l) s k.
Proof.
  intros Hs Hok Hhas n i c j cj Hn.
  destruct (leave_start _ _ _ _ _ _ Hs Hn) as (n1 & x & -> & Hstep & Hn1).
  destruct (step_of_label _ _ _ _ _ _ Hok Hhas Hstep) as (t & m & Hk & -> & Hm).
  exists t, m, c, n1. split_and!; (done || lia).
Qed.

Lemma leaves_cat r1 r2 s1 s2 k :
  leaves r1 s1 (Some s2) -> leaves r2 s2 k -> leaves (Cat r1 r2) s1 k.
Proof.
  intros H1 H2 n i c j cj Hn. destruct (H1 _ _ _ _ _ Hn) as (t & m & cm & n1 & [= <-] & Hm & Hn1 & ?).
  destruct (H2 _ _ _ _ _ Hn1) as (t & m' & cm' & n2 & ? & ? & ? & ?).
  exists t, m', cm', n2. split_and!; [done|by eapply capture_cat|done|lia].
Qed.

Lemma leaves_alt r1 r2 s s1 s2 k :
  s <> 0%nat -> has states s Split (Some s1) (Some s2) -> leaves r1 s1 k -> leaves r2 s2 k ->
  leaves (Alt r1 r2) s k.
Proof.
  intros Hs Hsplit H1 H2 n i c j cj Hn.
  destruct (leave_start _ _ _ _ _ _ Hs Hn) as (n1 & x & -> & Hstep & Hn1).
  destruct (step_of_split _ _ _ _ _ _ Hsplit Hstep) as (t & -> & [[= <-]|[= <-]]).
  - destruct (H1 _ _ _ _ _ Hn1) as (t & m & cm & n2 & ? & ? & ? & ?).
    exists t, m, cm, n2. split_and!; [done|by apply capture_alt_l|done|lia].
  - destruct (H2 _ _ _ _ _ Hn1) as (t & m & cm & n2 & ? & ? & ? & ?).
    exists t, m, cm, n2. split_and!; [done|by apply capture_alt_r|done|lia].
Qed.

Lemma leaves_opt r lazy s body k :
  s <> 0%nat -> has_split states s lazy body k -> leaves r body k ->
  leaves (Quant QZeroOrOne lazy r) s k.
Proof.
  intros Hs Hsplit Hr n i c j cj Hn.
  destruct (leave_start _ _ _ _ _ _ Hs Hn) as (n1 & x & -> & Hstep & Hn1).
  destruct (step_of_lazy_split _ _ _ _ _ _ _ Hsplit Hstep) as (t & -> & [->|Hk]).
  - destruct (Hr _ _ _ _ _ Hn1) as (t & m & cm & n2 & ? & ? & ? & ?).
    exists t, m, cm, n2. split_and!; [done|by apply capture_opt_take|done|lia].
  - exists t, i, c, n1. split_and!; [done|constructor|done|lia].
Qed.

Lemma leaves_plus r lazy split s k :
  split <> 0%nat -> has_split states split lazy s k -> leaves r s (Some split) ->
  leaves (Quant QOneOrMore lazy r) s k.
Proof.
  intros Hs Hsplit Hr n i c j cj Hn.
  destruct (Hr _ _ _ _ _ Hn) as (t & m & cm & n2 & [= <-] & Hm & Hn2 & ?).
  destruct (leaves_loop r lazy split s k Hs Hsplit Hr _ _ _ _ _ Hn2)
    as (t & m' & cm' & n3 & ? & ? & ? & ?).
  exists t, m', cm', n3. split_and!; [done|by eapply capture_plus|done|lia].
Qed.

Lemma leaves_group r idx open close body k :
  open <> 0%nat -> close <> 0%nat -> Z.of_nat idx < MaxCaptures ->
  has states open (CaptureOpen + Z.of_nat idx) (Some body) None ->
  has states close (CaptureClose + Z.of_nat idx) k None ->
  leaves r body (Some close) -> leaves (Group idx r) open k.
Proof.
  intros Ho Hc Hidx Hopen Hclose Hr n i c j cj Hn.
  destruct (leave_start _ _ _ _ _ _ Ho Hn) as (n1 & x & -> & Hstep & Hn1).
  destruct (step_of_capture _ _ _ _ (Z.of_nat idx) _ _ _ Hopen ltac:(by left) ltac:(lia) Hstep)
    as (t & -> & [= <-]).
  destruct (Hr _ _ _ _ _ Hn1) as (t & m & cm & n2 & [= <-] & Hm & Hn2 & ?).
  destruct (leave_start _ _ _ _ _ _ Hc Hn2) as (n3 & x & -> & Hstep' & Hn3).
  destruct (step_of_capture _ _ _ _ (Z.of_nat idx) _ _ _ Hclose ltac:(by right) ltac:(lia)
    Hstep') as (t & -> & Hk).
  rewrite record_open in Hm by done. rewrite record_close in Hn3 by done.
  exists t, m, (close_group off idx m cm), n3.
  split_and!; [done|by apply capture_group|done|lia].
Qed.

Lemma run_leaves r lo hi s k :
  re_ok r -> (1 <= lo)%nat -> sub_nfa states r lo hi s k -> leaves r s k.
Proof.
  revert lo hi s k. induction r as [l|r1 IH1 r2 IH2|r1 IH1 r2 IH2|kind lazy r IH|idx r IH];
    intros lo hi s k Hok Hlo Hsub;
    pose proof (sub_nfa_bounds _ _ _ _ _ _ Hsub) as Hb; cbn in Hok, Hsub;
    assert (s <> 0%nat) as Hs by lia.
  - destruct Hsub as (-> & -> & Hhas). by apply leaves_label.
  - destruct Hsub as (mid & s2 & ? & H1 & H2), Hok as [Hok1 Hok2].
    eapply leaves_cat; [by eapply IH1|eapply (IH2 mid hi); [done|lia|done]].
  - destruct Hsub as (mid & s1 & s2 & ? & -> & Hsplit & H1 & H2), Hok as [Hok1 Hok2].
    eapply leaves_alt; [done|exact Hsplit|by eapply IH1|eapply (IH2 mid s); [done|lia|done]].
  - destruct kind.
    + destruct Hsub as (body & -> & Hsplit & Hsub). eapply leaves_opt; [done|done|by eapply IH].
    + destruct Hsub as (body & -> & Hsplit & Hsub). eapply leaves_loop; [done|done|by eapply IH].
    + destruct Hsub as (split & -> & Hsplit & Hsub).
      eapply leaves_plus; [|exact Hsplit|by eapply IH].
      pose proof (sub_nfa_bounds _ _ _ _ _ _ Hsub); lia.
  - destruct Hsub as (close & body & -> & -> & Hclose & Hopen & Hsub), Hok as [Hidx Hok].
    eapply (leaves_group r idx _ close body); [done| |done|done|done|by eapply IH].
    pose proof (sub_nfa_bounds _ _ _ _ _ _ Hsub); lia.
Qed.

(** * Completeness: a match is a run *)

Lemma match_runs r i j :
  re_match accepts w flags r i j -> forall lo hi s t,
  re_ok r -> sub_nfa states r lo hi s (Some t) -> run (s, i) (t, j).
Proof.
  unfold run.
  assert (forall lazy r i j, re_match accepts w flags (Quant QZeroOrMore lazy r) i j ->
    forall split body t, has_split states split lazy body (Some t) ->
    (forall i j, re_match accepts w flags r i j -> rtc step (body, i) (split, j)) ->
    rtc step (split, i) (t, j)) as Hloop.
  { intros lazy r' i' j' Hm. remember (Quant QZeroOrMore lazy r') as q eqn:Hq.
    induction Hm as [| | | | | | |? ? i1|? ? i1 j1 k1 H1 _ H2 IH2| |]; simplify_eq.
    - intros split body t Hs _. eapply rtc_once, lazy_split_run; [done|by right].
    - intros split body t Hs Hb. eapply rtc_l; [eapply lazy_split_run; [done|by left]|].
      etrans; [by apply Hb|by eapply IH2]. }
  revert i j. induction r as [l|r1 IH1 r2 IH2|r1 IH1 r2 IH2|kind lazy r IH|idx r IH];
    intros i j Hm lo hi s t Hok Hsub; cbn in Hok, Hsub.
  - destruct Hsub as (-> & -> & Hhas). eapply rtc_once, label_run; done.
  - destruct Hsub as (mid & s2 & ? & H1 & H2), Hok as [Hok1 Hok2].
    inversion Hm; subst. etrans; [by eapply IH1|by eapply IH2].
  - destruct Hsub as (mid & s1 & s2 & ? & -> & Hsplit & H1 & H2), Hok as [Hok1 Hok2].
    inversion Hm; subst.
    + eapply rtc_l; [eapply split_run; [done|by left]|by eapply IH1].
    + eapply rtc_l; [eapply split_run; [done|by right]|by eapply IH2].
  - destruct kind.
    + destruct Hsub as (body & -> & Hsplit & Hsub). inversion Hm; subst.
      * eapply rtc_once, lazy_split_run; [done|by right].
      * eapply rtc_l; [eapply lazy_split_run; [done|by left]|by eapply IH].
    + destruct Hsub as (body & -> & Hsplit & Hsub). eapply Hloop; [done..|]. eauto.
    + destruct Hsub as (split & -> & Hsplit & Hsub). inversion Hm; subst.
      etrans; [by eapply IH|]. eapply Hloop; [done..|]. eauto.
  - destruct Hsub as (close & body & -> & -> & Hclose & Hopen & Hsub), Hok as [Hidx Hok].
    inversion Hm; subst. eapply rtc_l.
    { eapply (capture_run _ _ _ (Z.of_nat idx)); [exact Hopen|by left|lia]. }
    etrans; [by eapply IH|]. apply rtc_once.
    eapply (capture_run _ _ _ (Z.of_nat idx)); [exact Hclose|by right|lia].
Qed.

(** A run to the accept state records the captures of a match. *)
Lemma run_captures r hi s n a i c j c' :
  has states 0 Match n a -> re_ok r -> sub_nfa states r 1 hi s (Some 0%nat) ->
  rtc cstep (s, i, c) (0%nat, j, c') -> re_capture accepts w flags off r i j c c'.
Proof.
  intros Hacc Hok Hsub [m Hm]%rtc_nsteps.
  destruct (run_leaves r 1 hi s _ Hok ltac:(lia) Hsub _ _ _ _ _ Hm)
    as (t & j' & cj & n' & [= <-] & Hmatch & Hn' & _).
  inversion Hn' as [|? ? [[s' i'] c1] ? Hstep]; subst; [done|].
  by apply cstep_step, (accept_stuck _ n a) in Hstep.
Qed.

(** The automaton of a whole tree reaches the accept state exactly at the ends
    of the matches. *)
Lemma runs_iff_match r hi s n a i j :
  has states 0 Match n a -> re_ok r -> sub_nfa states r 1 hi s (Some 0%nat) ->
  run (s, i) (0%nat, j) <-> re_match accepts w flags r i j.
Proof.
  intros Hacc Hok Hsub. split.
  - intros Hrun. destruct (run_cstep _ _ _ _ [] Hrun) as [c Hc].
    eapply capture_match, run_captures; done.
  - intros Hm. by eapply match_runs.
Qed.
End Paths.
