(* ===== verification/Exploration.v ===== *)
(** Exploring the epsilon moves of an automaton.

    [compute_epsilon_closure], [add_state_capturing] and their visited marks
    share one shape: a stack of pending [State] pointers and a vector of epoch
    stamps that says which states were seen.  This file holds the stamps, their
    wrap-around, and the facts about such an exploration that both uses need. *)

From S2P Require Import Prelude RegexSyntax RegexSpec Nfa NfaPaths.

(** * Epoch stamps *)

(** [epoch++]; when it wraps to 0 the stamps are cleared and it restarts at 1. *)
Definition advance_stamp (epoch : Z) (stamps : list Z) : Z * list Z :=
  let epoch := u64 (epoch + 1) in
  if epoch =? 0 then (1, replicate (length stamps) 0) else (epoch, stamps).

Definition stamped (stamps : list Z) (epoch : Z) (s : nat) : bool := nth s stamps 0 =? epoch.

(** No stamp is ahead of the counter, so the next epoch finds nothing stamped. *)
Definition stamps_ok (epoch : Z) (stamps : list Z) : Prop :=
  0 <= epoch < 2 ^ 64 /\ Forall (fun e => 0 <= e <= epoch) stamps.

Lemma nth_Forall {A} (P : A -> Prop) (l : list A) d i : Forall P l -> P d -> P (nth i l d).
Proof.
  intros Hl Hd. rewrite nth_lookup. destruct (l !! i) as [x|] eqn:E; [|done].
  by eapply Forall_lookup_1 in E.
Qed.

Lemma advance_stamp_ok epoch stamps : stamps_ok epoch stamps ->
  let '(epoch', stamps') := advance_stamp epoch stamps in
  stamps_ok epoch' stamps' /\ length stamps' = length stamps /\ 1 <= epoch'
  /\ forall s, stamped stamps' epoch' s = false.
Proof.
  intros [He Hs]. unfold advance_stamp, u64. destruct (Z.eqb_spec ((epoch + 1) mod 2 ^ 64) 0).
  - split_and!; [split; [lia|]; apply Forall_replicate; lia|apply length_replicate|lia|].
    intros s. unfold stamped.
    pose proof (nth_Forall (fun e => e = 0) (replicate (length stamps) 0) 0 s
      ltac:(by apply Forall_replicate) eq_refl). cbv beta in *. lia.
  - assert ((epoch + 1) mod 2 ^ 64 = epoch + 1) as E by arith. rewrite E in *.
    split_and!; [split; [arith|]|done|lia|].
    + eapply Forall_impl; [exact Hs|]. simpl. lia.
    + intros s. unfold stamped.
      pose proof (nth_Forall (fun e => 0 <= e <= epoch) stamps 0 s Hs ltac:(cbv beta; lia)). cbv beta in *. lia.
Qed.

Lemma stamps_ok_insert epoch stamps s : stamps_ok epoch stamps ->
  stamps_ok epoch (<[s := epoch]> stamps).
Proof. intros [? ?]. split; [done|]. apply Forall_insert; [done|]. lia. Qed.

Lemma stamped_insert epoch stamps s t : (s < length stamps)%nat ->
  stamped (<[s := epoch]> stamps) epoch t = (t =? s)%nat || stamped stamps epoch t.
Proof.
  intros Hs. unfold stamped. rewrite !nth_lookup. destruct (Nat.eqb_spec t s) as [->|Hne].
  - rewrite list_lookup_insert_eq by done. cbn. lia.
  - by rewrite list_lookup_insert_ne by done.
Qed.

(** How many states are left to stamp: the measure of an exploration. *)
Definition unstamped (stamps : list Z) (epoch : Z) : nat :=
  length (filter (fun e => e <> epoch) stamps).

Lemma unstamped_le stamps epoch : (unstamped stamps epoch <= length stamps)%nat.
Proof. apply length_filter. Qed.

Lemma unstamped_insert stamps epoch s : (s < length stamps)%nat ->
  stamped stamps epoch s = false ->
  unstamped stamps epoch = S (unstamped (<[s := epoch]> stamps) epoch).
Proof.
  unfold unstamped, stamped. revert s. induction stamps as [|e stamps IH]; intros s Hs Hn;
    cbn in Hs; [lia|].
  destruct s as [|s]; cbn [nth] in Hn.
  - change (<[0%nat:=epoch]> (e :: stamps)) with (epoch :: stamps).
    rewrite filter_cons_True by lia. by rewrite filter_cons_False by lia.
  - change (<[S s:=epoch]> (e :: stamps)) with (e :: <[s:=epoch]> stamps).
    rewrite !filter_cons. destruct (decide (e <> epoch)); cbn; by rewrite (IH s) by (done || lia).
Qed.

(** * Explorations *)

Section Explored.
Context (states : list StateDef) (f : Flags).

Definition eps (s t : nat) : Prop :=
  exists st, states !! s = Some st /\ Some t ∈ eps_targets st f.

Definition exists_state (s : nat) : Prop := is_Some (states !! s).

(** The states some root reaches by epsilon moves. *)
Definition reach (roots : nat -> Prop) (s : nat) : Prop :=
  exists r, roots r /\ rtc eps r s.

(** An exploration from [roots] that has seen the states of [seen] and has the
    pointers of [pending] still to follow. *)
Record explored (roots seen : nat -> Prop) (pending : list (option nat)) : Prop := {
  explored_seen : forall s, seen s -> reach roots s;
  explored_pending : forall t, Some t ∈ pending -> reach roots t;
  explored_roots : forall r, roots r -> exists_state r -> seen r \/ Some r ∈ pending;
  explored_closed : forall s t, seen s -> eps s t -> exists_state t ->
    seen t \/ Some t ∈ pending;
}.

Lemma explored_first (seen : nat -> Prop) root : (forall s, ~ seen s) ->
  explored (eq root) seen [Some root].
Proof.
  intros H. split.
  - by intros s Hs%H.
  - intros t [= ->]%list_elem_of_singleton. exists root. split; [done|constructor].
  - intros r <- _. right. by apply list_elem_of_singleton.
  - by intros s t Hs%H.
Qed.

(** A further pointer to follow. *)
Lemma explored_start roots seen target : explored roots seen [] ->
  explored (fun r => target = Some r \/ roots r) seen [target].
Proof.
  intros [H1 _ H3 H4]. split.
  - intros s Hs. destruct (H1 s Hs) as (r & Hr & ?). exists r. eauto.
  - intros t <-%list_elem_of_singleton. exists t. split; [by left|constructor].
  - intros r [->|Hr] He; [right; by apply list_elem_of_singleton|].
    destruct (H3 r Hr He) as [?|Hin]; [by left|]. by apply elem_of_nil in Hin.
  - intros s t Hs Hst Ht. destruct (H4 s t Hs Hst Ht) as [?|Hin]; [by left|].
    by apply elem_of_nil in Hin.
Qed.

Lemma explored_empty (roots seen : nat -> Prop) :
  (forall s, ~ seen s) -> (forall r, ~ roots r) -> explored roots seen [].
Proof.
  intros Hs Hr. split; [by intros s ?%Hs|by intros t ?%elem_of_nil|by intros r ?%Hr|].
  by intros s t ?%Hs.
Qed.

Lemma explored_roots_iff (roots roots' seen : nat -> Prop) pending :
  (forall r, roots r <-> roots' r) -> explored roots seen pending -> explored roots' seen pending.
Proof.
  intros Heq [H1 H2 H3 H4].
  assert (forall s, reach roots s -> reach roots' s) as Hreach.
  { intros s (r & Hr & ?). exists r. by rewrite <-Heq. }
  split; [eauto|eauto| |done]. intros r Hr. apply H3. by rewrite Heq.
Qed.

(** Popping a null pointer or a state seen before. *)
Lemma explored_skip roots seen p pending :
  explored roots seen (p :: pending) ->
  (forall s, p = Some s -> exists_state s -> seen s) -> explored roots seen pending.
Proof.
  intros [H1 H2 H3 H4] Hp. split; [done| | |].
  - intros t Ht. apply H2. by right.
  - intros r Hr He. destruct (H3 r Hr He) as [?|[<-|?]%elem_of_cons]; eauto.
  - intros s t Hs Hst He. destruct (H4 s t Hs Hst He) as [?|[<-|?]%elem_of_cons]; eauto.
Qed.

(** Visiting a new state. *)
Lemma explored_visit roots (seen seen' : nat -> Prop) s st pending :
  explored roots seen (Some s :: pending) -> states !! s = Some st ->
  (forall x, seen' x <-> x = s \/ seen x) ->
  explored roots seen' (eps_targets st f ++ pending).
Proof.
  intros [H1 H2 H3 H4] Hst Hseen. split.
  - intros x [->|Hx]%Hseen; [|by apply H1]. apply H2. by left.
  - intros t [Ht|Ht]%elem_of_app; [|by apply H2; right].
    destruct (H2 s) as (r & Hr & Hrs); [by left|]. exists r. split; [done|].
    eapply rtc_r; [done|]. by exists st.
  - intros r Hr He. rewrite Hseen, elem_of_app.
    destruct (H3 r Hr He) as [?|[[= ->]|?]%elem_of_cons]; eauto.
  - intros x t Hx%Hseen Hxt He. rewrite Hseen, elem_of_app. destruct Hx as [->|Hx].
    + destruct Hxt as (st' & E & Ht). rewrite Hst in E. injection E as <-. eauto.
    + destruct (H4 x t Hx Hxt He) as [?|[[= ->]|?]%elem_of_cons]; eauto.
Qed.

(** Once nothing is pending, what was seen is what the roots reach. *)
Lemma explored_done roots seen s :
  explored roots seen [] -> exists_state s -> seen s <-> reach roots s.
Proof.
  intros [H1 _ H3 H4] Hs. split; [apply H1|]. intros (r & Hr & Hrs).
  assert (forall x, rtc eps x s -> seen x \/ (roots x) -> seen s) as H; [|eauto].
  intros x Hx. induction Hx as [x|x y z (st & Hst & Hin) Hyz IH]; intros Hor.
  - destruct Hor as [?|Hx]; [done|]. destruct (H3 x Hx Hs) as [?|Hn]; [done|].
    by apply elem_of_nil in Hn.
  - assert (seen x) as Hsx.
    { destruct Hor as [?|Hx]; [done|]. destruct (H3 x Hx ltac:(by eexists)) as [?|Hn]; [done|].
      by apply elem_of_nil in Hn. }
    apply IH; [done..|]. left. assert (exists_state y) as Hy.
    { inversion Hyz as [|? ? ? (st' & Hst' & _)]; subst; [done|by eexists]. }
    destruct (H4 x y Hsx ltac:(by exists st) Hy) as [?|Hn]; [done|].
    by apply elem_of_nil in Hn.
Qed.
End Explored.

(** Two vectors that differ only in the bitmap and the flag that the passes after
    the construction write. *)
Definition same_graph (s1 s2 : list StateDef) : Prop :=
  forall i, (fun st => (label st, next st, next_alt st, closure_index st)) <$> s1 !! i
          = (fun st => (label st, next st, next_alt st, closure_index st)) <$> s2 !! i.

Lemma same_graph_lookup s1 s2 i st : same_graph s1 s2 -> s1 !! i = Some st ->
  exists st', s2 !! i = Some st' /\ label st' = label st /\ next st' = next st
    /\ next_alt st' = next_alt st /\ closure_index st' = closure_index st.
Proof.
  intros H Hi. specialize (H i). rewrite Hi in H. destruct (s2 !! i) as [st'|]; [|done].
  injection H as ????. by exists st'.
Qed.

Lemma same_graph_refl s : same_graph s s.
Proof. by intros i. Qed.
Lemma same_graph_sym s1 s2 : same_graph s1 s2 -> same_graph s2 s1.
Proof. intros H i. by rewrite (H i). Qed.
Lemma same_graph_trans s1 s2 s3 : same_graph s1 s2 -> same_graph s2 s3 -> same_graph s1 s3.
Proof. intros H1 H2 i. by rewrite (H1 i). Qed.

#[export] Instance same_graph_equiv : Equivalence same_graph.
Proof. split; [exact same_graph_refl|exact same_graph_sym|exact same_graph_trans]. Qed.

Lemma same_graph_alter s i (g : StateDef -> StateDef) :
  (forall st, label (g st) = label st /\ next (g st) = next st
              /\ next_alt (g st) = next_alt st /\ closure_index (g st) = closure_index st) ->
  same_graph s (alter g i s).
Proof.
  intros Hg j. destruct (decide (i = j)) as [->|Hne].
  - rewrite list_lookup_alter_eq. destruct (s !! j) as [st|]; [|done]. cbn.
    by destruct (Hg st) as (-> & -> & -> & ->).
  - by rewrite list_lookup_alter_ne by done.
Qed.

Lemma same_graph_length s1 s2 : same_graph s1 s2 -> length s1 = length s2.
Proof.
  intros H. apply Nat.le_antisymm; apply Nat.nlt_ge; intros Hlt.
  - destruct (lookup_lt_is_Some_2 s1 (length s2) Hlt) as [st Hst].
    destruct (same_graph_lookup _ _ _ _ H Hst) as (st' & E & _).
    apply lookup_lt_Some in E. lia.
  - destruct (lookup_lt_is_Some_2 s2 (length s1) Hlt) as [st Hst].
    destruct (same_graph_lookup _ _ _ _ (same_graph_sym _ _ H) Hst) as (st' & E & _).
    apply lookup_lt_Some in E. lia.
Qed.

(** [s] leads to the state [t], which is not an epsilon state. *)
Definition ends_in (states : list StateDef) (f : Flags) (s t : nat) : Prop :=
  rtc (eps states f) s t
  /\ exists st, states !! t = Some st /\ is_epsilon (label st) = false.

#[export] Instance eps_proper : Proper (same_graph ==> eq ==> eq ==> eq ==> iff) eps.
Proof.
  assert (forall s1 s2 f s t, same_graph s1 s2 -> eps s1 f s t -> eps s2 f s t) as H.
  { intros s1 s2 f s t H (st & Hst & Ht).
    destruct (same_graph_lookup _ _ _ _ H Hst) as (st' & E & H1 & H2 & H3 & _).
    exists st'. split; [done|]. unfold eps_targets in *. by rewrite H1, H2, H3. }
  intros s1 s2 Hs f ? <- s ? <- t ? <-. split; apply H; [done|by symmetry].
Qed.

#[export] Instance ends_in_proper : Proper (same_graph ==> eq ==> eq ==> eq ==> iff) ends_in.
Proof.
  assert (forall s1 s2 f s t, same_graph s1 s2 -> ends_in s1 f s t -> ends_in s2 f s t) as H.
  { intros s1 s2 f s t H [Hr (st & Hst & He)]. split.
    - eapply rtc_subrel; [|done]. intros x y. apply eps_proper; done.
    - destruct (same_graph_lookup _ _ _ _ H Hst) as (st' & E & H1 & _).
      exists st'. by rewrite H1. }
  intros s1 s2 Hs f ? <- s ? <- t ? <-. split; apply H; [done|by symmetry].
Qed.
