(* ===== verification/Closure.v ===== *)
(** The compiled engine and its epsilon-closure cache: the fields of
    [class RegexEngine], [detect_conditional_states], [compute_epsilon_closure],
    [precompute_epsilon_closures], [finalize_states] and [epsilon_closure_cached]
    of [include/trieste/regex_engine.h]. *)

From S2P Require Import Prelude AsciiBitmap RuneClass RegexSyntax RegexSpec Nfa NfaPaths.
From S2P Require Import Exploration.

(** * The engine's fields *)

Record FirstCharInfo := mkFirstChar {
  bitmap : AsciiBitmap;
  can_match_empty : bool;
  can_match_nonascii : bool;
}.

Record RegexEngine := mkEngine {
  start_state_ : nat;
  error_code_ : ErrorCode;
  has_conditionals_ : bool;
  num_captures_ : nat;
  state_count_ : nat;
  syntax_mode_ : SyntaxMode;
  owned_states_ : list StateDef;
  rune_classes_ : list RuneClass;
  closure_cache_flat_ : list nat;
  closure_cache_offsets_ : list Z;
  first_char_info_ : FirstCharInfo;
}.

Definition ok (e : RegexEngine) : bool := is_no_error (error_code_ e).

Definition set_error (e : RegexEngine) (code : ErrorCode) : RegexEngine :=
  if is_no_error (error_code_ e) then
    mkEngine (start_state_ e) code (has_conditionals_ e) (num_captures_ e) (state_count_ e)
      (syntax_mode_ e) (owned_states_ e) (rune_classes_ e) (closure_cache_flat_ e)
      (closure_cache_offsets_ e) (first_char_info_ e)
  else e.

Definition set_has_conditionals (e : RegexEngine) (v : bool) : RegexEngine :=
  mkEngine (start_state_ e) (error_code_ e) v (num_captures_ e) (state_count_ e)
    (syntax_mode_ e) (owned_states_ e) (rune_classes_ e) (closure_cache_flat_ e)
    (closure_cache_offsets_ e) (first_char_info_ e).

Definition set_owned_states (e : RegexEngine) (v : list StateDef) : RegexEngine :=
  mkEngine (start_state_ e) (error_code_ e) (has_conditionals_ e) (num_captures_ e)
    (state_count_ e) (syntax_mode_ e) v (rune_classes_ e) (closure_cache_flat_ e)
    (closure_cache_offsets_ e) (first_char_info_ e).

Definition set_state_count (e : RegexEngine) (v : nat) : RegexEngine :=
  mkEngine (start_state_ e) (error_code_ e) (has_conditionals_ e) (num_captures_ e) v
    (syntax_mode_ e) (owned_states_ e) (rune_classes_ e) (closure_cache_flat_ e)
    (closure_cache_offsets_ e) (first_char_info_ e).

Definition set_cache (e : RegexEngine) (flat : list nat) (offsets : list Z) : RegexEngine :=
  mkEngine (start_state_ e) (error_code_ e) (has_conditionals_ e) (num_captures_ e)
    (state_count_ e) (syntax_mode_ e) (owned_states_ e) (rune_classes_ e) flat offsets
    (first_char_info_ e).

Definition set_first_char_info (e : RegexEngine) (v : FirstCharInfo) : RegexEngine :=
  mkEngine (start_state_ e) (error_code_ e) (has_conditionals_ e) (num_captures_ e)
    (state_count_ e) (syntax_mode_ e) (owned_states_ e) (rune_classes_ e)
    (closure_cache_flat_ e) (closure_cache_offsets_ e) v.

(** * Conditional states *)

Definition detect_conditional_states (e : RegexEngine) : RegexEngine :=
  set_has_conditionals e
    (existsb (fun st => (label st =? WordBoundary) || (label st =? StartAnchor)
                        || (label st =? EndAnchor)) (owned_states_ e)).

(** * One closure *)

Record ClosureBuilder := mkClosureBuilder {
  closure : list nat;
  stack : list (option nat);
  seen_epoch : list Z;
  traversal_epoch : Z;
}.

Definition push (b : ClosureBuilder) (p : option nat) : ClosureBuilder :=
  mkClosureBuilder (closure b) (p :: stack b) (seen_epoch b) (traversal_epoch b).
Definition pop (b : ClosureBuilder) : ClosureBuilder :=
  mkClosureBuilder (closure b) (tail (stack b)) (seen_epoch b) (traversal_epoch b).
Definition mark (b : ClosureBuilder) (s : nat) : ClosureBuilder :=
  mkClosureBuilder (closure b) (stack b) (<[s := traversal_epoch b]> (seen_epoch b))
    (traversal_epoch b).
Definition push_closure (b : ClosureBuilder) (s : nat) : ClosureBuilder :=
  mkClosureBuilder (closure b ++ [s]) (stack b) (seen_epoch b) (traversal_epoch b).

Section Visit.
Context (states : list StateDef) (f : Flags).

(** One turn of the loop, on a non-empty stack. *)
Definition closure_turn (p : option nat) (b : ClosureBuilder) : ClosureBuilder :=
  let b := pop b in
  match p with
  | None => b
  | Some s =>
      match states !! s with
      | None => b
      | Some st =>
          if stamped (seen_epoch b) (traversal_epoch b) (closure_index st) then b
          else
            let b := mark b (closure_index st) in
            if label st =? Split then push (push b (next_alt st)) (next st)
            else if is_capture_open (label st) || is_capture_close (label st) then
              push b (next st)
            else if label st =? WordBoundary then
              if boundary f then push b (next st) else b
            else if label st =? StartAnchor then
              if at_start f then push b (next st) else b
            else if label st =? EndAnchor then
              if at_end f then push b (next st) else b
            else push_closure b s
      end
  end.

Fixpoint closure_loop (fuel : nat) (b : ClosureBuilder) : ClosureBuilder :=
  match fuel, stack b with
  | S fuel, p :: _ => closure_loop fuel (closure_turn p b)
  | _, _ => b
  end.

(** Each state is visited once and pushes at most two pointers: the fuel is
    enough to empty the stack ([compute_epsilon_closure_spec]). *)
Definition compute_epsilon_closure (state : option nat) (b : ClosureBuilder) :
    ClosureBuilder :=
  match state with
  | None => mkClosureBuilder [] (stack b) (seen_epoch b) (traversal_epoch b)
  | Some s =>
      let '(epoch, seen) := advance_stamp (traversal_epoch b) (seen_epoch b) in
      closure_loop (2 * length states + 2) (mkClosureBuilder [] [Some s] seen epoch)
  end.
End Visit.

(** * The cache *)

Definition ClosureFlagCombinations : Z := 8.

(** [closure_flags], with [FlagBoundary], [FlagAtStart] and [FlagAtEnd]. *)
Definition closure_flags (f : Flags) : Z :=
  Z.lor (Z.lor (if boundary f then 1 else 0) (if at_start f then 2 else 0))
    (if at_end f then 4 else 0).

Definition flags_of_byte (flags : Z) : Flags :=
  mkFlags (negb (Z.land flags 1 =? 0)) (negb (Z.land flags 2 =? 0))
    (negb (Z.land flags 4 =? 0)).

(** The locals of [precompute_epsilon_closures]. *)
Record Precompute := mkPrecompute {
  builder : ClosureBuilder;
  flat : list nat;
  offsets : list Z;
  total_entries : Z;
  trivial : bool;
}.

(** One turn of the inner loop, for one state and one combination of flags;
    [None] is the return with [ErrorPatternTooLarge]. *)
Definition precompute_slot (states : list StateDef) (num_flag_combos : Z) (s index : nat)
    (flags : Z) (p : Precompute) : option Precompute :=
  let slot := Z.lor (Z.of_nat index * num_flag_combos) flags in
  let offsets := <[Z.to_nat slot := u32 (Z.of_nat (length (flat p)))]> (offsets p) in
  let builder := compute_epsilon_closure states (flags_of_byte flags) (Some s) (builder p) in
  let flat := flat p ++ closure builder in
  let total := total_entries p + Z.of_nat (length (closure builder)) in
  if MaxClosureCacheEntries <? total then None
  else
    let trivial :=
      if trivial p && (negb (length (closure builder) =? 1)%nat
                       || negb (match closure builder with t :: _ => (t =? s)%nat | [] => false end))
      then false else trivial p in
    Some (mkPrecompute builder flat offsets total trivial).

Fixpoint precompute_flags (states : list StateDef) (num_flag_combos : Z) (s index : nat)
    (flags : list Z) (p : Precompute) : option Precompute :=
  match flags with
  | [] => Some p
  | fl :: flags =>
      match precompute_slot states num_flag_combos s index fl p with
      | Some p => precompute_flags states num_flag_combos s index flags p
      | None => None
      end
  end.

Definition set_trivial (v : bool) (st : StateDef) : StateDef :=
  mkState (label st) (next st) (next_alt st) (closure_index st) (ascii_accept st) v.

Definition reset_trivial (p : Precompute) : Precompute :=
  mkPrecompute (builder p) (flat p) (offsets p) (total_entries p) true.

(** The outer loop over the states from number [s] on. *)
Fixpoint precompute_states (num_flag_combos : Z) (todo : list nat) (states : list StateDef)
    (p : Precompute) : option (list StateDef * Precompute) :=
  match todo with
  | [] => Some (states, p)
  | s :: todo =>
      match states !! s with
      | None => Some (states, p)
      | Some st =>
          match precompute_flags states num_flag_combos s (closure_index st)
                  (seqZ 0 num_flag_combos) (reset_trivial p) with
          | None => None
          | Some p =>
              precompute_states num_flag_combos todo (alter (set_trivial (trivial p)) s states) p
          end
      end
  end.

(** When the cache is too large the engine keeps its error and no cache: nothing
    reads the cache of an engine that is not [ok]. *)
Definition precompute_epsilon_closures (e : RegexEngine) : RegexEngine :=
  if negb (ok e) then e
  else
    let state_count := length (owned_states_ e) in
    let num_flag_combos := if has_conditionals_ e then ClosureFlagCombinations else 1 in
    let slot_count := Z.of_nat state_count * num_flag_combos in
    let builder := mkClosureBuilder [] [] (replicate state_count 0) 0 in
    let p := mkPrecompute builder [] (replicate (Z.to_nat slot_count + 1) 0) 0 true in
    match precompute_states num_flag_combos (seq 0 state_count) (owned_states_ e) p with
    | None => set_error e ErrorPatternTooLarge
    | Some (states, p) =>
        set_cache (set_owned_states e states) (flat p)
          (<[Z.to_nat slot_count := u32 (Z.of_nat (length (flat p)))]> (offsets p))
    end.

Definition epsilon_closure_cached (e : RegexEngine) (state : option nat) (f : Flags) : list nat :=
  match state with
  | None => []
  | Some s =>
      match owned_states_ e !! s with
      | None => []
      | Some st =>
          let slot :=
            if has_conditionals_ e then
              Z.to_nat (Z.lor (Z.of_nat (closure_index st) * ClosureFlagCombinations)
                          (closure_flags f))
            else closure_index st in
          let first := nth slot (closure_cache_offsets_ e) 0 in
          let last := nth (slot + 1) (closure_cache_offsets_ e) 0 in
          take (Z.to_nat (last - first)) (drop (Z.to_nat first) (closure_cache_flat_ e))
      end
  end.

(** * Acceptance bitmaps *)

Definition set_accept (bm : AsciiBitmap) (st : StateDef) : StateDef :=
  mkState (label st) (next st) (next_alt st) (closure_index st) bm (trivial_closure st).

Definition finalize_state (classes : list RuneClass) (st : StateDef) : StateDef :=
  if is_class_ref (label st) then
    set_accept (ascii_bitmap (nth (class_ref_index (label st)) classes empty_class)) st
  else if label st <? 128 then set_accept (bitmap_set (ascii_accept st) (label st)) st
  else st.

Definition finalize_states (e : RegexEngine) : RegexEngine :=
  if negb (ok e) then e
  else
    let e := set_state_count e (length (owned_states_ e)) in
    if (state_count_ e =? 0)%nat then e
    else set_owned_states e (map (finalize_state (rune_classes_ e)) (owned_states_ e)).

(** * Closures are what the states lead to *)

Definition indexed (states : list StateDef) : Prop :=
  forall i st, states !! i = Some st -> closure_index st = i.

Section ClosureSpec.
Context (states : list StateDef) (f : Flags) (Hindexed : indexed states).

Definition seen_in (b : ClosureBuilder) (s : nat) : Prop :=
  stamped (seen_epoch b) (traversal_epoch b) s = true.

Definition terminal (s : nat) : Prop :=
  exists st, states !! s = Some st /\ is_epsilon (label st) = false.

Record builder_ok (b : ClosureBuilder) : Prop := {
  builder_length : length (seen_epoch b) = length states;
  builder_stamps : stamps_ok (traversal_epoch b) (seen_epoch b);
}.

Record closure_inv (roots : nat -> Prop) (b : ClosureBuilder) : Prop := {
  closure_builder : builder_ok b;
  closure_explored : explored states f roots (seen_in b) (stack b);
  closure_nodup : NoDup (closure b);
  closure_elements : forall t, t ∈ closure b <-> seen_in b t /\ terminal t;
}.

Lemma eps_targets_terminal st : is_epsilon (label st) = false -> eps_targets st f = [].
Proof.
  intros H. unfold eps_targets.
  destruct (label st =? Split) eqn:E1; [unfold is_epsilon in H; by rewrite E1 in H|].
  destruct (is_capture_open (label st) || is_capture_close (label st)) eqn:E2.
  { unfold_labels. lia. }
  destruct (is_conditional (label st)) eqn:E3; [|done]. unfold_labels. lia.
Qed.

(** Visiting pushes the targets of an epsilon state, or keeps the state. *)
Lemma closure_turn_visit s st b :
  states !! s = Some st -> stamped (seen_epoch b) (traversal_epoch b) s = false ->
  closure_turn states f (Some s) b
  = mkClosureBuilder (if is_epsilon (label st) then closure b else closure b ++ [s])
      (eps_targets st f ++ tail (stack b)) (<[s := traversal_epoch b]> (seen_epoch b))
      (traversal_epoch b).
Proof.
  intros Hst Hs. cbn [closure_turn]. rewrite Hst, (Hindexed _ _ Hst). cbn [seen_epoch pop].
  unfold eps_targets, is_epsilon, is_conditional, flag_of. cbn [traversal_epoch pop].
  rewrite Hs. unfold push, mark, pop, push_closure. cbn [closure stack seen_epoch traversal_epoch].
  destruct (label st =? Split); [done|].
  destruct (is_capture_open (label st)), (is_capture_close (label st)); try done.
  destruct (label st =? WordBoundary); [by destruct (boundary f)|].
  destruct (label st =? StartAnchor); [by destruct (at_start f)|].
  destruct (label st =? EndAnchor); [by destruct (at_end f)|done].
Qed.

Definition closure_measure (b : ClosureBuilder) : nat :=
  length (stack b) + 2 * unstamped (seen_epoch b) (traversal_epoch b).

Lemma eps_targets_length st : (length (eps_targets st f) <= 2)%nat.
Proof. unfold eps_targets. repeat case_match; cbn; lia. Qed.

Lemma closure_turn_ok roots p rest b :
  closure_inv roots b -> stack b = p :: rest ->
  closure_inv roots (closure_turn states f p b)
  /\ (closure_measure (closure_turn states f p b) < closure_measure b)%nat
  /\ traversal_epoch (closure_turn states f p b) = traversal_epoch b.
Proof.
  intros [[Hlen Hst] He Hn Hc] Hstack. rewrite Hstack in He.
  assert ((forall s, p = Some s -> exists_state states s -> seen_in b s) ->
          closure_inv roots (pop b) /\ (closure_measure (pop b) < closure_measure b)%nat
          /\ traversal_epoch (pop b) = traversal_epoch b) as Hskip.
  { intros Hp. unfold pop, closure_measure. rewrite Hstack.
    cbn [stack seen_epoch traversal_epoch tail length].
    split_and!; [|lia|done]. split; cbn; [done| |done|done].
    by eapply explored_skip. }
  destruct p as [s|]; [|by apply Hskip].
  destruct (states !! s) as [st|] eqn:Hs.
  2: { cbn [closure_turn]. rewrite Hs. apply Hskip. intros ? [= <-] [? ?]. congruence. }
  destruct (stamped (seen_epoch b) (traversal_epoch b) s) eqn:Hseen.
  { cbn [closure_turn]. rewrite Hs, (Hindexed _ _ Hs). cbn. rewrite Hseen. apply Hskip.
    by intros ? [= <-] _. }
  assert (s < length (seen_epoch b))%nat as Hlt
    by (rewrite Hlen; by eapply lookup_lt_Some).
  rewrite (closure_turn_visit s st) by done. unfold closure_measure. rewrite Hstack.
  pose proof (unstamped_insert _ _ _ Hlt Hseen). pose proof (eps_targets_length st).
  cbn [stack seen_epoch traversal_epoch tail]. rewrite length_app.
  split_and!; [|cbn [length]; lia|done].
  assert (forall x, stamped (<[s:=traversal_epoch b]> (seen_epoch b)) (traversal_epoch b) x = true
                    <-> x = s \/ seen_in b x) as Hmark.
  { intros x. rewrite stamped_insert by done. unfold seen_in.
    rewrite orb_true_iff, Nat.eqb_eq. done. }
  split; cbn; [split; cbn; [by rewrite length_insert|by apply stamps_ok_insert]| | |].
  - by eapply explored_visit.
  - destruct (is_epsilon (label st)); [done|]. apply NoDup_app; split_and!; [done| |apply NoDup_singleton].
    intros x [Hx _]%Hc Hxs%list_elem_of_singleton; subst x. unfold seen_in in Hx. congruence.
  - intros t. unfold seen_in. cbn. rewrite Hmark. destruct (is_epsilon (label st)) eqn:El.
    + rewrite Hc. split; [by intuition|]. intros [[->|?] Ht]; [|done].
      destruct Ht as (st' & ? & ?). simplify_eq. congruence.
    + rewrite elem_of_app, list_elem_of_singleton, Hc. split; [|by intuition].
      intros [[? ?]| -> ]; [by intuition|]. split; [by left|]. by exists st.
Qed.

Lemma closure_loop_ok roots fuel b :
  closure_inv roots b -> (closure_measure b < fuel)%nat ->
  closure_inv roots (closure_loop states f fuel b) /\ stack (closure_loop states f fuel b) = [].
Proof.
  revert b. induction fuel as [|fuel IH]; intros b Hinv Hm; [lia|]. cbn [closure_loop].
  destruct (stack b) as [|p rest] eqn:E; [done|].
  destruct (closure_turn_ok roots p rest b Hinv E) as (H1 & H2 & _). apply IH; [done|lia].
Qed.

(** The closure of a state holds, once each, the states it leads to; and the
    builder is ready for the next one. *)
Lemma compute_epsilon_closure_spec s b :
  builder_ok b -> exists_state states s ->
  let b' := compute_epsilon_closure states f (Some s) b in
  builder_ok b' /\ NoDup (closure b') /\ (forall t, t ∈ closure b' <-> ends_in states f s t).
Proof.
  intros [Hlen Hst] Hs b'. unfold b', compute_epsilon_closure. clear b'.
  pose proof (advance_stamp_ok _ _ Hst) as Ha.
  destruct (advance_stamp (traversal_epoch b) (seen_epoch b)) as [epoch seen].
  destruct Ha as (Hst' & Hlen' & _ & Hnone).
  destruct (closure_loop_ok (eq s) (2 * length states + 2)
              (mkClosureBuilder [] [Some s] seen epoch)) as [[Hb He Hn Hc] Hempty].
  - split; cbn; [split; [by rewrite <-Hlen|done]| |constructor|].
    + apply explored_first. intros x. unfold seen_in. cbn. by rewrite Hnone.
    + intros t. split; [by intros ?%elem_of_nil|]. intros [Hx _].
      unfold seen_in in Hx. cbn in Hx. by rewrite Hnone in Hx.
  - unfold closure_measure. cbn [stack seen_epoch traversal_epoch length]. pose proof (unstamped_le seen epoch). lia.
  - split_and!; [done|done|]. intros t. rewrite Hc. rewrite Hempty in He. unfold ends_in.
    split.
    + intros [Ht1 Ht2]. split; [|done]. apply (explored_seen _ _ _ _ _ He) in Ht1.
      by destruct Ht1 as (r & <- & Hr).
    + intros [Ht1 Ht2]. split; [|done]. apply (explored_done _ _ _ _ _ He).
      * destruct Ht2 as (st & Hst2 & _). by eexists.
      * by exists s.
Qed.
End ClosureSpec.
