(* ===== verification/ClosureCache.v ===== *)
(** The epsilon-closure cache is right: what [epsilon_closure_cached] returns for
    a state and the conditions of a position is what the state leads to there. *)

From S2P Require Import Prelude AsciiBitmap RuneClass RegexSyntax RegexSpec Nfa NfaPaths.
From S2P Require Import Exploration Closure.

Lemma flags_round_trip f : flags_of_byte (closure_flags f) = f.
Proof. by destruct f as [[] [] []]. Qed.

Lemma closure_flags_bound f : 0 <= closure_flags f < 8.
Proof. by destruct f as [[] [] []]. Qed.

(** [l] lists what [s] leads to, once each. *)
Definition lists_ends (states : list StateDef) (f : Flags) (s : nat) (l : list nat) : Prop :=
  NoDup l /\ forall t, t ∈ l <-> ends_in states f s t.

Lemma lists_ends_graph s1 s2 f s l : same_graph s1 s2 -> lists_ends s1 f s l -> lists_ends s2 f s l.
Proof.
  intros H [Hn Hl]. split; [done|]. intros t. rewrite Hl. by apply ends_in_proper.
Qed.

Section Precompute.
Context (graph : list StateDef) (combos : Z) (Hcombos : combos = 1 \/ combos = 8).
Context (Hindexed : indexed graph).

Definition slot_state (j : nat) : nat := Z.to_nat (Z.of_nat j / combos).
Definition slot_flags (j : nat) : Flags := flags_of_byte (Z.of_nat j mod combos).

(** The first [k] slots are filled: [parts] are their closures. *)
Record cache_inv (k : nat) (p : Precompute) (parts : list (list nat)) : Prop := {
  cache_parts : length parts = k;
  cache_closures : forall j l, parts !! j = Some l ->
    lists_ends graph (slot_flags j) (slot_state j) l;
  cache_flat : flat p = concat parts;
  cache_offsets : forall j, (j < k)%nat ->
    offsets p !! j = Some (Z.of_nat (length (concat (take j parts))));
  cache_total : total_entries p = Z.of_nat (length (flat p));
  cache_max : total_entries p <= MaxClosureCacheEntries;
  cache_length : length (offsets p) = S (length graph * Z.to_nat combos);
  cache_builder : builder_ok graph (builder p);
}.

Lemma slot_number s fl : 0 <= fl < combos ->
  Z.lor (Z.of_nat s * combos) fl = Z.of_nat s * combos + fl.
Proof.
  intros Hfl. destruct Hcombos as [->| ->].
  - replace fl with 0 by lia. rewrite Z.lor_0_r. lia.
  - apply lor_add with 3; [lia| |lia]. change (2 ^ 3) with 8. arith.
Qed.

Lemma slot_decompose s fl : 0 <= fl < combos ->
  let j := Z.to_nat (Z.of_nat s * combos + fl) in
  slot_state j = s /\ slot_flags j = flags_of_byte fl.
Proof.
  intros Hfl j. unfold slot_state, slot_flags, j.
  rewrite Z2Nat.id by (destruct Hcombos as [->| ->]; lia).
  destruct Hcombos as [->| ->]; split; f_equal; arith.
Qed.

(** What [trivial] records: every closure computed so far is the state alone. *)
Definition alone (s : nat) (parts : list (list nat)) : Prop :=
  Forall (fun l => l = [s]) parts.

(** The closure of a slot is right on the automaton as it was before the pass. *)
Lemma slot_closure states s fl p :
  same_graph graph states -> exists_state graph s -> builder_ok graph (builder p) ->
  let b := compute_epsilon_closure states (flags_of_byte fl) (Some s) (builder p) in
  builder_ok graph b /\ lists_ends graph (flags_of_byte fl) s (closure b).
Proof.
  intros Hgraph [st Hst] [Hlen Hstamps].
  destruct (same_graph_lookup _ _ _ _ Hgraph Hst) as (st' & Hst' & _).
  assert (indexed states) as Hindexed'.
  { intros i st1 Hst1. destruct (same_graph_lookup _ _ _ _ (same_graph_sym _ _ Hgraph) Hst1)
      as (st2 & E & _ & _ & _ & <-). by apply Hindexed. }
  rewrite (same_graph_length _ _ Hgraph) in Hlen.
  destruct (compute_epsilon_closure_spec states (flags_of_byte fl) Hindexed' s (builder p)
    (Build_builder_ok _ _ Hlen Hstamps) (ex_intro _ st' Hst')) as ([H1 H2] & H3 & H4).
  split; [split; [by rewrite (same_graph_length _ _ Hgraph)|done]|].
  eapply lists_ends_graph; [by symmetry|by split].
Qed.

Lemma precompute_slot_ok states s fl p parts :
  same_graph graph states -> exists_state graph s -> 0 <= fl < combos ->
  let k := Z.to_nat (Z.of_nat s * combos + fl) in
  cache_inv k p parts -> forall p',
  precompute_slot states combos s s fl p = Some p' ->
  exists l, cache_inv (S k) p' (parts ++ [l]) /\ (trivial p' = true -> trivial p = true /\ l = [s]).
Proof.
  intros Hgraph Hs Hfl k [Hparts Hcl Hflat Hoff Htot Hmax0 Hlen Hb] p' Hp.
  destruct (slot_closure states s fl p Hgraph Hs Hb) as [Hb2 Hends].
  unfold precompute_slot in Hp. rewrite slot_number in Hp by done. fold k in Hp.
  set (b2 := compute_epsilon_closure _ _ _ _) in *. clearbody b2.
  destruct (MaxClosureCacheEntries <? _) eqn:Hmax in Hp; [done|]. injection Hp as <-.
  assert (k < length (offsets p))%nat as Hk.
  { rewrite Hlen. destruct Hs as [st Hst%lookup_lt_Some]. unfold k.
    destruct Hcombos as [->| ->]; lia. }
  exists (closure b2). cbn. split.
  - split; cbn [builder flat offsets total_entries].
    + rewrite length_app, Hparts. cbn. lia.
    + intros j l. rewrite lookup_app_Some, list_lookup_singleton_Some.
      intros [Hj|(? & Hj & <-)]; [by apply Hcl|]. replace j with k by lia.
      destruct (slot_decompose s fl Hfl) as [E1 E2]. fold k in E1, E2. by rewrite E1, E2.
    + rewrite concat_app, Hflat. cbn. by rewrite app_nil_r.
    + intros j Hj. destruct (decide (j = k)) as [->|Hne].
      * rewrite list_lookup_insert_eq by done. f_equal.
        rewrite take_app_le, take_ge, <-Hflat by lia. apply u32_id.
        unfold MaxClosureCacheEntries in *. lia.
      * rewrite list_lookup_insert_ne, Hoff by lia. by rewrite take_app_le by lia.
    + rewrite length_app. lia.
    + lia.
    + by rewrite length_insert.
    + done.
  - destruct (trivial p); [|done]. cbn. intros Ht. split; [done|].
    destruct (closure b2) as [|t [|t' l]]; cbn in Ht; [done| |done].
    destruct (Nat.eqb_spec t s) as [->|]; done.
Qed.

Lemma precompute_flags_ok states s a n p parts :
  same_graph graph states -> exists_state graph s -> 0 <= a -> a + Z.of_nat n = combos ->
  cache_inv (Z.to_nat (Z.of_nat s * combos + a)) p parts -> forall p',
  precompute_flags states combos s s (seqZ a (Z.of_nat n)) p = Some p' ->
  exists ls, cache_inv (Z.to_nat (Z.of_nat (S s) * combos)) p' (parts ++ ls)
    /\ length ls = n /\ (trivial p' = true -> trivial p = true /\ alone s ls).
Proof.
  intros Hgraph Hs. revert a p parts. induction n as [|n IH]; intros a p parts Ha Hn Hinv p'.
  - cbn. intros [= <-]. exists []. rewrite app_nil_r. split_and!; [|done|by split; [|constructor]].
    replace (Z.of_nat (S s) * combos) with (Z.of_nat s * combos + a) by lia. done.
  - rewrite seqZ_cons by lia. cbn [precompute_flags].
    replace (Z.pred (Z.of_nat (S n))) with (Z.of_nat n) by lia.
    destruct (precompute_slot _ _ _ _ _ _) as [p1|] eqn:E; [|done]. intros Hp'.
    destruct (precompute_slot_ok states s a p parts Hgraph Hs ltac:(lia) Hinv p1 E)
      as (l & Hinv1 & Htriv).
    replace (S (Z.to_nat (Z.of_nat s * combos + a)))
      with (Z.to_nat (Z.of_nat s * combos + Z.succ a)) in Hinv1
      by (destruct Hcombos as [->| ->]; lia).
    destruct (IH (Z.succ a) p1 (parts ++ [l]) ltac:(lia) ltac:(lia) Hinv1 p' Hp')
      as (ls & Hinv2 & Hls & Halone).
    exists (l :: ls). rewrite <-app_assoc in Hinv2. split_and!; [done|cbn; lia|].
    intros Ht. destruct (Halone Ht) as [Ht1 Hls1]. destruct (Htriv Ht1) as [Ht0 ->].
    split; [done|]. by constructor.
Qed.

(** The states whose closures are done; [trivial_closure] is only set on states
    that lead to themselves alone. *)
Definition trivial_ok (states : list StateDef) : Prop :=
  forall i st fl, states !! i = Some st -> trivial_closure st = true -> 0 <= fl < combos ->
  lists_ends graph (flags_of_byte fl) i [i].

Definition blank (states : list StateDef) : Prop :=
  forall i st, states !! i = Some st ->
  closure_index st = i /\ ascii_accept st = bitmap_zero.

Record states_inv (s : nat) (states : list StateDef) (p : Precompute)
    (parts : list (list nat)) : Prop := {
  states_graph : same_graph graph states;
  states_cache : cache_inv (Z.to_nat (Z.of_nat s * combos)) p parts;
  states_blank : blank states;
  states_trivial : trivial_ok states;
}.

Lemma alone_trivial s k p parts ls fl :
  cache_inv k p (parts ++ ls) -> length parts = Z.to_nat (Z.of_nat s * combos) ->
  length ls = Z.to_nat combos -> alone s ls -> 0 <= fl < combos ->
  lists_ends graph (flags_of_byte fl) s [s].
Proof.
  intros Hinv Hparts Hls Hal Hfl.
  destruct (lookup_lt_is_Some_2 ls (Z.to_nat fl)) as [l Hl]; [lia|].
  assert (l = [s]) as -> by (by eapply Forall_lookup_1 in Hal).
  pose proof (cache_closures _ _ _ Hinv (Z.to_nat (Z.of_nat s * combos + fl)) [s]) as H.
  destruct (slot_decompose s fl Hfl) as [E1 E2]. rewrite E1, E2 in H. apply H.
  rewrite lookup_app_r by (rewrite Hparts; destruct Hcombos as [->| ->]; lia).
  rewrite <-Hl. f_equal. rewrite Hparts. destruct Hcombos as [->| ->]; lia.
Qed.

Lemma blank_set_trivial s v states : blank states -> blank (alter (set_trivial v) s states).
Proof.
  intros H i st. destruct (decide (s = i)) as [->|Hne].
  - rewrite list_lookup_alter_eq, fmap_Some. intros (st0 & Hst & ->). exact (H i st0 Hst).
  - rewrite list_lookup_alter_ne by done. by apply H.
Qed.

Lemma reset_trivial_ok k p parts : cache_inv k p parts -> cache_inv k (reset_trivial p) parts.
Proof. by intros []. Qed.

(** One state of the outer loop. *)
Lemma precompute_state_ok s st states p parts p1 :
  states_inv s states p parts -> graph !! s = Some st ->
  precompute_flags states combos s s (seqZ 0 combos) (reset_trivial p) = Some p1 ->
  exists ls, states_inv (S s) (alter (set_trivial (trivial p1)) s states) p1 (parts ++ ls).
Proof.
  intros [Hgraph Hcache Hblank Htriv] Hst0 E.
  destruct (same_graph_lookup _ _ _ _ Hgraph Hst0) as (st' & Hst & _).
  replace (seqZ 0 combos) with (seqZ 0 (Z.of_nat (Z.to_nat combos))) in E
    by (f_equal; destruct Hcombos as [->| ->]; lia).
  destruct (precompute_flags_ok states s 0 (Z.to_nat combos) (reset_trivial p) parts Hgraph
    ltac:(by eexists) ltac:(lia) ltac:(destruct Hcombos as [->| ->]; lia)
    ltac:(rewrite Z.add_0_r; by apply reset_trivial_ok) p1 E) as (ls & Hinv1 & Hls & Hal).
  exists ls. split.
  - etrans; [exact Hgraph|]. apply same_graph_alter. by intros.
  - exact Hinv1.
  - by apply blank_set_trivial.
  - intros i st1 fl. destruct (decide (s = i)) as [<-|Hne].
    + rewrite list_lookup_alter_eq, Hst. cbn. intros [= <-] Ht Hfl. cbn in Ht.
      eapply alone_trivial; [exact Hinv1|apply (cache_parts _ _ _ Hcache)|done|by apply Hal|done].
    + rewrite list_lookup_alter_ne by done. apply Htriv.
Qed.

(** The state the loop looks at, and its index. *)
Lemma loop_state s states p parts : states_inv s states p parts -> (s < length graph)%nat ->
  exists st0 st, graph !! s = Some st0 /\ states !! s = Some st /\ closure_index st = s.
Proof.
  intros [Hgraph _ _ _] Hs. destruct (lookup_lt_is_Some_2 graph s Hs) as [st0 Hst0].
  destruct (same_graph_lookup _ _ _ _ Hgraph Hst0) as (st & Hst & _ & _ & _ & Hci).
  exists st0, st. split_and!; [done|done|]. by rewrite Hci, (Hindexed _ _ Hst0).
Qed.

Lemma precompute_states_ok n s states p parts :
  (s + n = length graph)%nat -> states_inv s states p parts -> forall states' p',
  precompute_states combos (seq s n) states p = Some (states', p') ->
  exists parts', states_inv (length graph) states' p' parts'.
Proof.
  revert s states p parts. induction n as [|n IH]; intros s states p parts Hn Hinv states' p'.
  { cbn. intros [= <- <-]. exists parts. by replace (length graph) with s by lia. }
  destruct (loop_state _ _ _ _ Hinv) as (st0 & st & Hst0 & Hst & Hci); [lia|].
  cbn [seq precompute_states]. rewrite Hst, Hci.
  destruct (precompute_flags _ _ _ _ _ _) as [p1|] eqn:E; [|done]. intros Hp'.
  destruct (precompute_state_ok _ _ _ _ _ _ Hinv Hst0 E) as [ls Hinv1].
  eapply (IH (S s)); [lia|exact Hinv1|exact Hp'].
Qed.

(** ** Small automata fit the cache *)

Lemma lists_ends_length f s l : lists_ends graph f s l -> (length l <= length graph)%nat.
Proof.
  intros [Hnodup Hends]. rewrite <-(length_seq (length graph) 0).
  apply submseteq_length, NoDup_submseteq; [done|].
  intros t [_ (st & Hst & _)]%Hends. apply elem_of_seq. apply lookup_lt_Some in Hst. lia.
Qed.

Lemma cache_inv_total k p parts : cache_inv k p parts -> total_entries p <= Z.of_nat (k * length graph).
Proof.
  intros [Hparts Hcl Hflat _ Htot _ _ _]. rewrite Htot, Hflat, <-Hparts. clear Hparts Hflat Htot.
  apply inj_le. assert (Forall (fun l => length l <= length graph)%nat parts) as Hall.
  { apply Forall_lookup. intros j l Hj. by eapply lists_ends_length, Hcl. }
  clear Hcl. induction Hall as [|l parts Hl _ IH]; cbn; [lia|]. rewrite length_app. lia.
Qed.

Definition small : Prop :=
  Z.of_nat (length graph * Z.to_nat combos * length graph) <= MaxClosureCacheEntries.

Lemma precompute_slot_fits states s fl p parts :
  small -> same_graph graph states -> exists_state graph s -> 0 <= fl < combos ->
  cache_inv (Z.to_nat (Z.of_nat s * combos + fl)) p parts ->
  is_Some (precompute_slot states combos s s fl p).
Proof.
  intros Hsmall Hgraph Hs Hfl Hinv. pose proof (cache_inv_total _ _ _ Hinv) as Htot.
  destruct (slot_closure states s fl p Hgraph Hs (cache_builder _ _ _ Hinv)) as [_ Hends].
  apply lists_ends_length in Hends. unfold precompute_slot.
  set (b2 := compute_epsilon_closure _ _ _ _) in *.
  set (k := Z.to_nat (Z.of_nat s * combos + fl)) in *.
  assert (S k * length graph <= length graph * Z.to_nat combos * length graph)%nat as Hle.
  { apply Nat.mul_le_mono_r. destruct Hs as [st Hst%lookup_lt_Some]. unfold k.
    destruct Hcombos as [->| ->]; lia. }
  unfold small in Hsmall. rewrite (proj2 (Z.ltb_ge _ _)) by lia. by eexists.
Qed.

Lemma precompute_flags_fits states s a n p parts :
  small -> same_graph graph states -> exists_state graph s -> 0 <= a -> a + Z.of_nat n = combos ->
  cache_inv (Z.to_nat (Z.of_nat s * combos + a)) p parts ->
  is_Some (precompute_flags states combos s s (seqZ a (Z.of_nat n)) p).
Proof.
  intros Hsmall Hgraph Hs. revert a p parts. induction n as [|n IH]; intros a p parts Ha Hn Hinv.
  - by eexists.
  - rewrite seqZ_cons by lia. cbn [precompute_flags].
    replace (Z.pred (Z.of_nat (S n))) with (Z.of_nat n) by lia.
    destruct (precompute_slot_fits states s a p parts Hsmall Hgraph Hs ltac:(lia) Hinv) as [p1 E].
    rewrite E. destruct (precompute_slot_ok states s a p parts Hgraph Hs ltac:(lia) Hinv p1 E)
      as (l & Hinv1 & _).
    replace (S (Z.to_nat (Z.of_nat s * combos + a)))
      with (Z.to_nat (Z.of_nat s * combos + Z.succ a)) in Hinv1
      by (destruct Hcombos as [->| ->]; lia).
    by apply (IH (Z.succ a) p1 (parts ++ [l])); [lia|lia|].
Qed.

Lemma precompute_states_fits n s states p parts :
  small -> (s + n = length graph)%nat -> states_inv s states p parts ->
  is_Some (precompute_states combos (seq s n) states p).
Proof.
  intros Hsmall. revert s states p parts. induction n as [|n IH]; intros s states p parts Hn Hinv.
  { by eexists. }
  destruct (loop_state _ _ _ _ Hinv) as (st0 & st & Hst0 & Hst & Hci); [lia|].
  cbn [seq precompute_states]. rewrite Hst, Hci.
  destruct (precompute_flags_fits states s 0 (Z.to_nat combos) (reset_trivial p) parts Hsmall
    (states_graph _ _ _ _ Hinv) ltac:(by eexists) ltac:(lia)
    ltac:(destruct Hcombos as [->| ->]; lia)
    ltac:(rewrite Z.add_0_r; apply reset_trivial_ok, Hinv)) as [p1 E].
  replace (Z.of_nat (Z.to_nat combos)) with combos in E by (destruct Hcombos as [->| ->]; lia).
  rewrite E. destruct (precompute_state_ok _ _ _ _ _ _ Hinv Hst0 E) as [ls Hinv1].
  eapply (IH (S s)); [lia|exact Hinv1].
Qed.

Definition initial_precompute : Precompute :=
  mkPrecompute (mkClosureBuilder [] [] (replicate (length graph) 0) 0) []
    (replicate (length graph * Z.to_nat combos + 1) 0) 0 true.

Lemma initial_cache : cache_inv 0 initial_precompute [].
Proof.
  split; cbn; try done.
  - lia.
  - rewrite length_replicate. lia.
  - split; cbn; [apply length_replicate|]. split; [lia|]. apply Forall_replicate. lia.
Qed.
End Precompute.

(** * The engine after the passes *)

(** Without conditional states the flags do not matter. *)
Definition no_conditionals (states : list StateDef) : Prop :=
  forall i st, states !! i = Some st -> is_conditional (label st) = false.

Lemma ends_in_flags states f f' s t :
  no_conditionals states -> ends_in states f s t -> ends_in states f' s t.
Proof.
  intros Hc [Hr Ht]. split; [|done]. eapply rtc_subrel; [|done].
  intros x y (st & Hst & Hin). exists st. split; [done|].
  unfold eps_targets in *. by rewrite (Hc _ _ Hst) in *.
Qed.

Lemma detect_conditional_spec e :
  has_conditionals_ (detect_conditional_states e) = false -> no_conditionals (owned_states_ e).
Proof.
  cbn. intros H i st Hst. apply not_true_iff_false. intros Hc.
  apply not_true_iff_false in H. apply H, existsb_exists. exists st. split; [|done].
  apply list_elem_of_In. eauto using list_elem_of_lookup_2.
Qed.

(** The conditions a position gives an engine: none when it has no use for them. *)
Definition effective (e : RegexEngine) (f : Flags) : Flags :=
  mkFlags (has_conditionals_ e && boundary f) (has_conditionals_ e && at_start f)
    (has_conditionals_ e && at_end f).

Record cache_ok (e : RegexEngine) : Prop := {
  cached_closure : forall s f, exists_state (owned_states_ e) s ->
    lists_ends (owned_states_ e) f s (epsilon_closure_cached e (Some s) (effective e f));
  cached_trivial : forall s st f, owned_states_ e !! s = Some st -> trivial_closure st = true ->
    lists_ends (owned_states_ e) f s [s];
}.

Definition combinations (e : RegexEngine) : Z :=
  if has_conditionals_ e then ClosureFlagCombinations else 1.

Lemma lists_ends_effective e f s l :
  (has_conditionals_ e = false -> no_conditionals (owned_states_ e)) ->
  lists_ends (owned_states_ e) (effective e f) s l -> lists_ends (owned_states_ e) f s l.
Proof.
  intros Hc [Hn Hl]. split; [done|]. intros t. rewrite Hl. unfold effective.
  destruct (has_conditionals_ e); [by destruct f as [[] [] []]|].
  split; apply ends_in_flags; by apply Hc.
Qed.

(** [part] number [j] read back from the flat vector. *)
Lemma concat_part (parts : list (list nat)) j l : parts !! j = Some l ->
  take (length l) (drop (length (concat (take j parts))) (concat parts)) = l
  /\ length (concat (take (S j) parts)) = (length (concat (take j parts)) + length l)%nat.
Proof.
  intros Hj. split.
  - rewrite <-(take_drop_middle parts j l Hj) at 2. rewrite concat_app, drop_app_length.
    cbn. by rewrite take_app_length.
  - erewrite take_S_r by done. rewrite concat_app, length_app. cbn. by rewrite app_nil_r.
Qed.

Lemma cached_lookup graph combos p parts j l :
  combos = 1 \/ combos = 8 ->
  cache_inv graph combos (length graph * Z.to_nat combos) p parts -> parts !! j = Some l ->
  let slots := (length graph * Z.to_nat combos)%nat in
  let offsets := <[slots := u32 (Z.of_nat (length (flat p)))]> (offsets p) in
  let first := nth j offsets 0 in
  let last := nth (j + 1) offsets 0 in
  take (Z.to_nat (last - first)) (drop (Z.to_nat first) (flat p)) = l.
Proof.
  intros Hc [Hparts Hcl Hflat Hoff Htot Hmax Hlen _] Hj slots offs first last.
  destruct (concat_part parts j l Hj) as [Hpart Hnext].
  pose proof (lookup_lt_Some _ _ _ Hj) as Hlt. rewrite Hparts in Hlt. fold slots in Hlt.
  assert (first = Z.of_nat (length (concat (take j parts)))) as E1.
  { unfold first, offs. rewrite nth_lookup, list_lookup_insert_ne, Hoff by (unfold slots in *; lia).
    done. }
  assert (last = Z.of_nat (length (concat (take (S j) parts)))) as E2.
  { unfold last, offs. rewrite nth_lookup, Nat.add_1_r.
    destruct (decide (S j = slots)) as [Heq|Hne].
    - rewrite Heq, list_lookup_insert_eq by (rewrite Hlen; unfold slots; lia). cbn.
      rewrite u32_id, Hflat, take_ge by (unfold MaxClosureCacheEntries in *; unfold slots in *; lia).
      done.
    - rewrite list_lookup_insert_ne, Hoff by (unfold slots in *; lia). done. }
  rewrite E1, E2, Hnext, Hflat. etrans; [|exact Hpart]. f_equal; [lia|]. by rewrite Nat2Z.id.
Qed.

(** ** After the pass *)

Lemma combinations_cases e : combinations e = 1 \/ combinations e = 8.
Proof. unfold combinations. destruct (has_conditionals_ e); [by right|by left]. Qed.

Lemma combinations_slots e n :
  Z.to_nat (Z.of_nat n * combinations e) = (n * Z.to_nat (combinations e))%nat.
Proof. destruct (combinations_cases e) as [->| ->]; lia. Qed.

(** The combination of flags under which a position's closure is stored. *)
Definition stored (e : RegexEngine) (f : Flags) : Z := if has_conditionals_ e then closure_flags f else 0.

Lemma stored_bound e f : 0 <= stored e f < combinations e.
Proof.
  unfold stored, combinations. pose proof (closure_flags_bound f).
  destruct (has_conditionals_ e); [done|lia].
Qed.

Section Cached.
Context (e : RegexEngine) (states : list StateDef) (p : Precompute) (parts : list (list nat)).
Local Abbreviation graph := (owned_states_ e).
Local Abbreviation combos := (combinations e).
Context (Hcond : has_conditionals_ e = false -> no_conditionals graph).
Context (Hinv : states_inv graph combos (length graph) states p parts).

Definition cached_engine : RegexEngine :=
  let slots := (length graph * Z.to_nat combos)%nat in
  set_cache (set_owned_states e states) (flat p)
    (<[slots := u32 (Z.of_nat (length (flat p)))]> (offsets p)).

Lemma cached_conditions : has_conditionals_ cached_engine = false ->
  no_conditionals (owned_states_ cached_engine).
Proof.
  intros H i st Hst. destruct (same_graph_lookup _ _ _ _
    (same_graph_sym _ _ (states_graph _ _ _ _ _ _ Hinv)) Hst) as (st' & E' & <- & _).
  by apply (Hcond H i).
Qed.

Lemma stored_flags f : flags_of_byte (stored e f) = effective cached_engine f.
Proof.
  unfold stored, effective. cbn. destruct (has_conditionals_ e); [|done].
  rewrite flags_round_trip. by destruct f.
Qed.

(** The slot that is read is the one that was written. *)
Lemma cached_slot s st f : states !! s = Some st ->
  exists l, parts !! Z.to_nat (Z.of_nat s * combos + stored e f) = Some l
    /\ epsilon_closure_cached cached_engine (Some s) (effective cached_engine f) = l.
Proof.
  intros Hst. destruct Hinv as [Hgraph Hcache Hblank _]. rewrite combinations_slots in Hcache.
  pose proof (lookup_lt_Some _ _ _ Hst) as Hlt. rewrite <-(same_graph_length _ _ Hgraph) in Hlt.
  pose proof (stored_bound e f) as Hfl. set (j := Z.to_nat (Z.of_nat s * combos + stored e f)).
  destruct (lookup_lt_is_Some_2 parts j) as [l Hl].
  { rewrite (cache_parts _ _ _ _ _ Hcache). unfold j.
    destruct (combinations_cases e) as [Hc|Hc]; rewrite Hc in *; lia. }
  exists l. split; [done|].
  rewrite <-(cached_lookup graph combos p parts j l (combinations_cases e) Hcache Hl).
  unfold epsilon_closure_cached. change (owned_states_ cached_engine) with states. rewrite Hst.
  destruct (Hblank _ _ Hst) as [-> _]. cbn [has_conditionals_ cached_engine set_cache set_owned_states
    closure_cache_offsets_ closure_cache_flat_].
  assert ((if has_conditionals_ e then Z.to_nat (Z.lor (Z.of_nat s * ClosureFlagCombinations)
    (closure_flags (effective cached_engine f))) else s) = j) as ->; [|done].
  unfold j. rewrite <-(slot_number combos (combinations_cases e) s (stored e f) Hfl).
  unfold stored, combinations, effective. cbn. destruct (has_conditionals_ e); cbn.
  - by destruct f.
  - rewrite Z.lor_0_r. lia.
Qed.

Lemma cached_engine_ok : cache_ok cached_engine.
Proof.
  pose proof Hinv as [Hgraph Hcache Hblank Htriv]. split.
  - intros s f [st Hst]. apply lists_ends_effective; [exact cached_conditions|].
    change (owned_states_ cached_engine) with states in *.
    destruct (cached_slot s st f Hst) as (l & Hl & ->).
    pose proof (cache_closures _ _ _ _ _ Hcache _ l Hl) as Hends.
    destruct (slot_decompose combos (combinations_cases e) s (stored e f) (stored_bound e f)) as [Es Ef].
    rewrite Es, Ef, stored_flags in Hends. by eapply lists_ends_graph.
  - intros s st f Hst Ht. apply lists_ends_effective; [exact cached_conditions|].
    eapply lists_ends_graph; [exact Hgraph|]. rewrite <-stored_flags.
    eapply Htriv; [exact Hst|done|apply stored_bound].
Qed.
End Cached.

Lemma initial_states_inv graph combos : fresh graph ->
  states_inv graph combos 0 graph (initial_precompute graph combos) [].
Proof.
  intros Hfresh.
  split; [done|exact (initial_cache graph combos)|intros i st Hst; by apply Hfresh in Hst as (?&?&?)|].
  intros i st fl Hst Ht. apply Hfresh in Hst as (_ & _ & Hst). congruence.
Qed.

Lemma fresh_indexed graph : fresh graph -> indexed graph.
Proof. intros H i st Hst. by apply H. Qed.

(** Precomputing succeeds or reports a pattern that is too large; when it succeeds
    the cache is right. *)
Lemma precompute_ok e :
  ok e = true -> fresh (owned_states_ e) ->
  (has_conditionals_ e = false -> no_conditionals (owned_states_ e)) ->
  let e' := precompute_epsilon_closures e in
  error_code_ e' = ErrorPatternTooLarge \/
  (ok e' = true /\ cache_ok e' /\ same_graph (owned_states_ e) (owned_states_ e')
   /\ blank (owned_states_ e')).
Proof.
  intros Hok Hfresh Hcond. unfold precompute_epsilon_closures. rewrite Hok. cbn [negb].
  fold (combinations e). rewrite combinations_slots.
  destruct (precompute_states _ _ _ _) as [[states p]|] eqn:E.
  2: { left. unfold set_error. unfold ok in Hok. by rewrite Hok. }
  right. destruct (precompute_states_ok _ _ (combinations_cases e) (fresh_indexed _ Hfresh)
    (length (owned_states_ e)) 0 _ _ [] eq_refl (initial_states_inv _ _ Hfresh) states p E)
    as [parts Hinv].
  split_and!; [done|by eapply cached_engine_ok|apply Hinv|apply Hinv].
Qed.

(** An automaton of few enough states is never too large. *)
Lemma precompute_fits e :
  ok e = true -> fresh (owned_states_ e) -> small (owned_states_ e) (combinations e) ->
  ok (precompute_epsilon_closures e) = true.
Proof.
  intros Hok Hfresh Hsmall. unfold precompute_epsilon_closures. rewrite Hok. cbn [negb].
  fold (combinations e). rewrite combinations_slots.
  destruct (precompute_states_fits _ _ (combinations_cases e) (fresh_indexed _ Hfresh)
    (length (owned_states_ e)) 0 _ _ [] Hsmall eq_refl (initial_states_inv _ _ Hfresh)) as [[states p] E].
  unfold initial_precompute in E. by rewrite E.
Qed.
