(* ===== verification/MatchContext.v ===== *)
(** The input of a match and the scratch state of a matcher.

    The input is seen as the specification sees it: the runes the engine
    decodes one after the other, the byte offsets between them, the conditions
    that hold there, and which label accepts which rune. *)
From S2P Require Import Prelude.
From S2P Require Import Utf8.
From S2P Require Import AsciiBitmap.
From S2P Require Import RuneClass.
From S2P Require Import RegexSyntax.
From S2P Require Import RegexSpec.
From S2P Require Import Nfa.
From S2P Require Import NfaPaths.
From S2P Require Import Exploration.

(** * Runes and offsets *)

(** The runes from [pos] on with the bytes each takes. *)
Fixpoint spans_from (fuel : nat) (s : list Z) (pos : nat) : list (Z * nat) :=
  match fuel with
  | O => []
  | S fuel =>
      if (pos <? length s)%nat then
        let '(r, n) := decode_rune s pos in (r, n) :: spans_from fuel s (pos + n)
      else []
  end.

Definition spans (s : list Z) : list (Z * nat) := spans_from (length s) s 0.

Definition runes (s : list Z) : list Z := map fst (spans s).

(** Where rune number [i] starts. *)
Definition offset (s : list Z) (i : nat) : nat := sum_list_with snd (take i (spans s)).

(** * Conditions *)

Section FlagsAt.
Context (s : list Z) (at_start0 prev_is_word : bool).

Definition word_before (i : nat) : bool :=
  match i with
  | O => prev_is_word
  | S i => match runes s !! i with Some r => is_word_char r | None => false end
  end.

Definition word_after (i : nat) : bool :=
  match runes s !! i with Some r => is_word_char r | None => false end.

Definition flags_at (i : nat) : Flags :=
  mkFlags (negb (Bool.eqb (word_before i) (word_after i)))
    ((i =? 0)%nat && at_start0) (length (runes s) <=? i)%nat.
End FlagsAt.

(** * Labels *)

Definition accepts (classes : list RuneClass) (l r : Z) : bool :=
  if is_class_ref l then in_ranges r (ranges (nth (class_ref_index l) classes empty_class))
  else l =? r.

(** * The longest prefix *)

Section Longest.
Context (classes : list RuneClass) (pattern : option re) (s : list Z).
Context (at_start0 prev_is_word : bool).

(** The pattern matches the first [i] runes. *)
Definition matches_prefix (i : nat) : Prop :=
  pattern_match (accepts classes) (runes s) (flags_at s at_start0 prev_is_word) pattern 0 i.

(** [b] is the byte length of the longest prefix that matches, [None] when no
    prefix does. *)
Definition longest_prefix (b : option nat) : Prop :=
  match b with
  | Some n => exists k, n = offset s k /\ matches_prefix k
                        /\ forall m, matches_prefix m -> (m <= k)%nat
  | None => forall m, ~ matches_prefix m
  end.

Lemma longest_prefix_unique b b' : longest_prefix b -> longest_prefix b' -> b = b'.
Proof.
  destruct b as [n|], b' as [n'|]; cbn; [| | |done].
  - intros (k & -> & H1 & H2) (k' & -> & H3 & H4).
    apply H2 in H3. apply H4 in H1. by replace k' with k by lia.
  - intros (k & _ & H & _) Hn. by apply Hn in H.
  - intros Hn (k & _ & H & _). by apply Hn in H.
Qed.
End Longest.

(** * Facts *)

Section Spans.
Context (s : list Z) (Hbytes : Forall is_byte s).

Lemma decode_rune_bounds pos : (pos < length s)%nat ->
  let '(v, n) := decode_rune s pos in
  0 <= v < 2 ^ 21 /\ (1 <= n <= 4)%nat /\ (pos + n <= length s)%nat.
Proof. intros Hpos. rewrite decode_rune_at by done. by apply rune_at_bounds. Qed.

(** More fuel than bytes left changes nothing. *)
Lemma spans_from_fuel fuel fuel' pos :
  (length s - pos <= fuel)%nat -> (length s - pos <= fuel')%nat ->
  spans_from fuel s pos = spans_from fuel' s pos.
Proof.
  revert fuel' pos. induction fuel as [|fuel IH]; intros fuel' pos H H'.
  - destruct fuel'; [done|]. cbn [spans_from]. destruct (Nat.ltb_spec pos (length s)); [lia|done].
  - destruct fuel' as [|fuel']; cbn [spans_from]; destruct (Nat.ltb_spec pos (length s)) as [Hlt|?];
      [lia|done| |done].
    pose proof (decode_rune_bounds pos Hlt) as Hb.
    destruct (decode_rune s pos) as [r n]. f_equal. apply IH; lia.
Qed.

(** [spans_from] unfolded where the engine stands. *)
Definition rest_from (pos : nat) : list (Z * nat) := spans_from (length s) s pos.

Lemma rest_from_end pos : (length s <= pos)%nat -> rest_from pos = [].
Proof.
  intros H. unfold rest_from. destruct (length s) as [|n] eqn:E; [done|].
  cbn [spans_from]. destruct (Nat.ltb_spec pos (length s)); [lia|done].
Qed.

Lemma rest_from_next pos : (pos < length s)%nat ->
  rest_from pos = decode_rune s pos :: rest_from (pos + (decode_rune s pos).2).
Proof.
  intros H. unfold rest_from at 1. pose proof (decode_rune_bounds pos H) as Hb.
  destruct (length s) as [|n] eqn:E; [lia|]. cbn [spans_from]. rewrite E.
  destruct (Nat.ltb_spec pos (S n)); [|lia]. destruct (decode_rune s pos) as [r k]. f_equal.
  cbn [snd]. apply spans_from_fuel; lia.
Qed.

Lemma offset_0 : offset s 0 = 0%nat.
Proof. done. Qed.

(** Offsets are positions of the rest. *)
Lemma rest_from_offset i : (i <= length (spans s))%nat ->
  rest_from (offset s i) = drop i (spans s) /\ (offset s i <= length s)%nat.
Proof.
  induction i as [|i IH]; intros Hi; [split; [done|]; unfold offset; cbn; apply Nat.le_0_l|].
  destruct IH as [IH Hle]; [lia|].
  destruct (lookup_lt_is_Some_2 (spans s) i) as [[r n] Hspan]; [lia|].
  assert (offset s (S i) = offset s i + n)%nat as Eo.
  { unfold offset. erewrite take_S_r by done. rewrite sum_list_with_app. cbn. lia. }
  rewrite (drop_S _ _ _ Hspan) in IH.
  destruct (Nat.lt_ge_cases (offset s i) (length s)) as [Hlt|Hge].
  - rewrite (rest_from_next _ Hlt) in IH. injection IH as E1 E2.
    pose proof (decode_rune_bounds _ Hlt) as Hb. rewrite E1 in *. cbn in *.
    rewrite Eo. split; [done|lia].
  - by rewrite rest_from_end in IH by done.
Qed.

Lemma offset_next i r n : spans s !! i = Some (r, n) -> offset s (S i) = (offset s i + n)%nat.
Proof.
  intros H. unfold offset. erewrite take_S_r by done. rewrite sum_list_with_app. cbn. lia.
Qed.

(** At a position before the end there is a next rune, at the end there is none. *)
Lemma rune_here i : (i <= length (spans s))%nat -> (offset s i < length s)%nat ->
  spans s !! i = Some (decode_rune s (offset s i))
  /\ offset s (S i) = (offset s i + (decode_rune s (offset s i)).2)%nat
  /\ (S i <= length (spans s))%nat.
Proof.
  intros Hi Hlt. destruct (rest_from_offset i Hi) as [Hrest _].
  rewrite rest_from_next in Hrest by done.
  assert (spans s !! i = Some (decode_rune s (offset s i))) as Hspan.
  { rewrite <-(Nat.add_0_r i) at 1. by rewrite <-lookup_drop, <-Hrest. }
  split_and!; [done| |].
  - destruct (decode_rune s (offset s i)) as [r n] eqn:E. by apply (offset_next i r n).
  - apply lookup_lt_Some in Hspan. lia.
Qed.

Lemma rune_end i : (i <= length (spans s))%nat -> (length s <= offset s i)%nat ->
  i = length (spans s).
Proof.
  intros Hi Hge. destruct (rest_from_offset i Hi) as [Hrest _].
  rewrite rest_from_end in Hrest by done. apply (f_equal length) in Hrest.
  rewrite length_drop in Hrest. cbn in Hrest. lia.
Qed.

Lemma length_runes : length (runes s) = length (spans s).
Proof. apply length_map. Qed.

Lemma runes_lookup i : runes s !! i = fst <$> spans s !! i.
Proof. apply list_lookup_fmap. Qed.

Lemma runes_bounds i r : runes s !! i = Some r -> 0 <= r < 2 ^ 21.
Proof.
  rewrite runes_lookup, fmap_Some. intros ([r' n] & Hs & ->).
  pose proof (lookup_lt_Some _ _ _ Hs) as Hlt.
  destruct (Nat.lt_ge_cases (offset s i) (length s)) as [Hlt'|Hge].
  - destruct (rune_here i ltac:(lia) Hlt') as [E _]. rewrite Hs in E.
    pose proof (decode_rune_bounds _ Hlt') as Hb. injection E as E. rewrite <-E in Hb. apply Hb.
  - pose proof (rune_end i ltac:(lia) Hge). lia.
Qed.

(** Offsets grow, and end at the length of the input. *)
Lemma offset_mono i j : (i < j <= length (spans s))%nat -> (offset s i < offset s j)%nat.
Proof.
  intros [Hij Hj]. induction j as [|j IH]; [lia|].
  assert (offset s j < offset s (S j))%nat.
  { destruct (Nat.lt_ge_cases (offset s j) (length s)) as [Hlt|Hge].
    - destruct (rune_here j ltac:(lia) Hlt) as (_ & -> & _).
      pose proof (decode_rune_bounds _ Hlt) as Hb. destruct (decode_rune _ _). cbn. lia.
    - pose proof (rune_end j ltac:(lia) Hge). lia. }
  destruct (decide (i = j)) as [->|]; [done|]. lia.
Qed.

Lemma offset_inj i j : (i <= length (spans s))%nat -> (j <= length (spans s))%nat ->
  offset s i = offset s j -> i = j.
Proof.
  intros Hi Hj E. destruct (Nat.lt_trichotomy i j) as [H|[?|H]]; [|done|].
  - pose proof (offset_mono i j ltac:(lia)). lia.
  - pose proof (offset_mono j i ltac:(lia)). lia.
Qed.

Lemma offset_end : offset s (length (spans s)) = length s.
Proof.
  destruct (rest_from_offset (length (spans s)) ltac:(lia)) as [_ Hle].
  destruct (Nat.lt_ge_cases (offset s (length (spans s))) (length s)) as [Hlt|Hge]; [|lia].
  destruct (rune_here (length (spans s)) ltac:(lia) Hlt) as (_ & _ & ?). lia.
Qed.
End Spans.

(** No decoded rune is the label of the accept state. *)
Lemma accepts_match classes s i r : Forall is_byte s -> runes s !! i = Some r ->
  accepts classes Match r = false.
Proof.
  intros Hs Hr. apply runes_bounds in Hr; [|done]. unfold accepts.
  change (is_class_ref Match) with false. apply Z.eqb_neq. unfold Match. lia.
Qed.

(** * [struct RegexEngine::MatchContext] of [include/trieste/regex_engine.h]: the
    scratch state callers reuse across matches and across engines.

    The vectors of states and threads are cleared by every call before use and
    are locals of the model of a call; what survives from one call to the next
    is here.  The statistics are compiled out by default and change no result. *)

(** A position of the input, or [npos]. *)
Definition npos : option nat := None.

Record MatchContext := mkContext {
  bound_engine : option nat;
  epoch_counter : Z;
  visited_states : list Z;
  visited_bits_ : AsciiBitmap;
  use_bitset_ : bool;
  capture_frames : list (option nat);
  capture_frame_slots : nat;
}.

Definition new_context : MatchContext := mkContext None 0 [] bitmap_zero false [] 0.

Definition BitsetMaxStates : nat := 128.

Definition set_visited (ctx : MatchContext) (epoch : Z) (visited : list Z) : MatchContext :=
  mkContext (bound_engine ctx) epoch visited (visited_bits_ ctx) (use_bitset_ ctx)
    (capture_frames ctx) (capture_frame_slots ctx).
Definition set_bits (ctx : MatchContext) (bits : AsciiBitmap) : MatchContext :=
  mkContext (bound_engine ctx) (epoch_counter ctx) (visited_states ctx) bits (use_bitset_ ctx)
    (capture_frames ctx) (capture_frame_slots ctx).
Definition set_frames (ctx : MatchContext) (frames : list (option nat)) (slots : nat) :
    MatchContext :=
  mkContext (bound_engine ctx) (epoch_counter ctx) (visited_states ctx) (visited_bits_ ctx)
    (use_bitset_ ctx) frames slots.

(** * Binding *)

Definition ensure_visited_capacity (ctx : MatchContext) (state_count : nat) : MatchContext :=
  if (length (visited_states ctx) =? state_count)%nat then ctx
  else set_visited ctx (epoch_counter ctx) (replicate state_count 0).

(** An engine's address is a number. *)
Definition bind_engine (ctx : MatchContext) (engine state_count : nat) : MatchContext :=
  let ctx := mkContext (bound_engine ctx) (epoch_counter ctx) (visited_states ctx)
               (visited_bits_ ctx) (state_count <=? BitsetMaxStates)%nat
               (capture_frames ctx) (capture_frame_slots ctx) in
  if negb (bool_decide (bound_engine ctx = Some engine)) then
    mkContext (Some engine) 0 (replicate state_count 0) (visited_bits_ ctx) (use_bitset_ ctx)
      (capture_frames ctx) (capture_frame_slots ctx)
  else ensure_visited_capacity ctx state_count.

(** * Visited states *)

(** Returns the epoch too: the callers keep it in a variable. *)
Definition advance_epoch (ctx : MatchContext) : Z * MatchContext :=
  let '(epoch, visited) := advance_stamp (epoch_counter ctx) (visited_states ctx) in
  (epoch, set_visited ctx epoch visited).

Definition clear_visited_bitset (ctx : MatchContext) : MatchContext := set_bits ctx bitmap_zero.

Definition bitset_test_and_set (ctx : MatchContext) (state_index : nat) : bool * MatchContext :=
  let index := Z.of_nat state_index in
  if bitmap_test (visited_bits_ ctx) index then (true, ctx)
  else (false, set_bits ctx (bitmap_set (visited_bits_ ctx) index)).

Definition is_visited (ctx : MatchContext) (state_index : nat) (epoch : Z) : bool :=
  stamped (visited_states ctx) epoch state_index.

Definition mark_visited (ctx : MatchContext) (state_index : nat) (epoch : Z) : MatchContext :=
  set_visited ctx (epoch_counter ctx) (<[state_index := epoch]> (visited_states ctx)).

(** [RegexEngine::already_visited] *)
Definition already_visited (closure_index : nat) (epoch : Z) (ctx : MatchContext) :
    bool * MatchContext :=
  if use_bitset_ ctx then bitset_test_and_set ctx closure_index
  else if is_visited ctx closure_index epoch then (true, ctx)
  else (false, mark_visited ctx closure_index epoch).

(** * Capture frames *)

Definition reset_capture_frames (ctx : MatchContext) (cap_slots : nat) : MatchContext :=
  set_frames ctx [] cap_slots.

Definition frames_full (ctx : MatchContext) : bool :=
  MaxCaptureFrameEntries <? Z.of_nat (length (capture_frames ctx) + capture_frame_slots ctx).

Definition allocate_capture_frame (ctx : MatchContext) (fill : option nat) :
    option nat * MatchContext :=
  if frames_full ctx then (npos, ctx)
  else
    (Some (length (capture_frames ctx) / capture_frame_slots ctx)%nat,
     set_frames ctx (capture_frames ctx ++ replicate (capture_frame_slots ctx) fill)
       (capture_frame_slots ctx)).

(** [capture_frame_data(frame)], as a view of the arena. *)
Definition capture_frame_data (ctx : MatchContext) (frame : nat) : list (option nat) :=
  take (capture_frame_slots ctx) (drop (frame * capture_frame_slots ctx) (capture_frames ctx)).

Definition clone_capture_frame (ctx : MatchContext) (frame : nat) : option nat * MatchContext :=
  if frames_full ctx then (npos, ctx)
  else
    (Some (length (capture_frames ctx) / capture_frame_slots ctx)%nat,
     set_frames ctx (capture_frames ctx ++ capture_frame_data ctx frame)
       (capture_frame_slots ctx)).

(** [capture_frame_data(frame)[slot] = pos] *)
Definition write_capture (ctx : MatchContext) (frame slot : nat) (pos : nat) : MatchContext :=
  set_frames ctx (<[(frame * capture_frame_slots ctx + slot)%nat := Some pos]> (capture_frames ctx))
    (capture_frame_slots ctx).

(** * Visited marks do not leak from one call to the next *)

(** What every call leaves, whatever the engine and the input were. *)
Definition context_ok (ctx : MatchContext) : Prop :=
  stamps_ok (epoch_counter ctx) (visited_states ctx).

(** What a call has between [bind_engine] and its end. *)
Record context_for (n : nat) (ctx : MatchContext) : Prop := {
  context_stamps : context_ok ctx;
  context_length : length (visited_states ctx) = n;
  context_bitset : use_bitset_ ctx = (n <=? BitsetMaxStates)%nat;
}.

Lemma new_context_ok : context_ok new_context.
Proof. split; cbn; [lia|constructor]. Qed.

Lemma replicate_stamps epoch n : 0 <= epoch < 2 ^ 64 -> stamps_ok epoch (replicate n 0).
Proof. intros H. split; [done|]. apply Forall_replicate. lia. Qed.

Lemma bind_engine_ok ctx engine n : context_ok ctx -> context_for n (bind_engine ctx engine n).
Proof.
  intros H. unfold bind_engine. cbn [bound_engine]. destruct (negb _).
  - split; cbn; [by apply replicate_stamps|apply length_replicate|done].
  - unfold ensure_visited_capacity. cbn [visited_states].
    destruct (Nat.eqb_spec (length (visited_states ctx)) n); [by split|].
    split; cbn; [apply replicate_stamps, H|apply length_replicate|done].
Qed.

(** Whether a state was seen since the marks were last cleared. *)
Definition visited (ctx : MatchContext) (epoch : Z) (s : nat) : bool :=
  if use_bitset_ ctx then bitmap_test (visited_bits_ ctx) (Z.of_nat s)
  else stamped (visited_states ctx) epoch s.

Lemma context_for_visited n ctx epoch stamps : context_for n ctx ->
  stamps_ok epoch stamps -> length stamps = n -> context_for n (set_visited ctx epoch stamps).
Proof. intros [] ??. by split. Qed.

Lemma context_for_bits n ctx bits : context_for n ctx -> context_for n (set_bits ctx bits).
Proof. intros []. by split. Qed.

Lemma context_for_frames n ctx frames slots :
  context_for n ctx -> context_for n (set_frames ctx frames slots).
Proof. intros []. by split. Qed.

Lemma advance_epoch_ok n ctx : context_for n ctx ->
  let '(epoch, ctx') := advance_epoch ctx in
  context_for n ctx' /\ epoch = epoch_counter ctx' /\ use_bitset_ ctx' = use_bitset_ ctx
  /\ forall s, stamped (visited_states ctx') epoch s = false.
Proof.
  intros Hctx. pose proof (advance_stamp_ok _ _ (context_stamps _ _ Hctx)) as H.
  unfold advance_epoch. destruct (advance_stamp _ _) as [epoch stamps].
  destruct H as (H1 & H2 & _ & H3). split_and!; [|done..].
  apply context_for_visited; [done..|]. rewrite H2. apply (context_length _ _ Hctx).
Qed.

(** Testing a state says whether it was visited and marks it. *)
Lemma already_visited_ok n ctx epoch s :
  context_for n ctx -> (use_bitset_ ctx = false -> epoch = epoch_counter ctx) -> (s < n)%nat ->
  let '(b, ctx') := already_visited s epoch ctx in
  b = visited ctx epoch s /\ context_for n ctx'
  /\ use_bitset_ ctx' = use_bitset_ ctx /\ epoch_counter ctx' = epoch_counter ctx
  /\ forall t, (t < n)%nat -> visited ctx' epoch t = (t =? s)%nat || visited ctx epoch t.
Proof.
  intros Hctx He Hs. unfold already_visited, visited. destruct Hctx as [H1 H2 H3].
  destruct (use_bitset_ ctx) eqn:Eb.
  - unfold bitset_test_and_set. symmetry in H3. apply Nat.leb_le in H3. unfold BitsetMaxStates in H3.
    destruct (bitmap_test _ _) eqn:Et.
    + split_and!; [done|split; [done..|]|done|done|].
      { rewrite Eb. symmetry. by apply Nat.leb_le. }
      intros t Ht. rewrite Eb. destruct (Nat.eqb_spec t s) as [->|]; [done|done].
    + split_and!; [done|split; [done..|]|done|done|].
      { cbn. rewrite Eb. symmetry. by apply Nat.leb_le. }
      intros t Ht. cbn. rewrite Eb, bitmap_set_spec by (unfold ascii; lia). f_equal.
      destruct (Nat.eqb_spec t s); lia.
  - specialize (He eq_refl). unfold is_visited. destruct (stamped _ _ _) eqn:Et.
    + split_and!; [done|split; [done..|congruence]|done|done|].
      intros t Ht. rewrite Eb. destruct (Nat.eqb_spec t s) as [->|]; [done|done].
    + split_and!; [done|split|done|done|].
      * unfold context_ok. cbn. rewrite He. by apply stamps_ok_insert.
      * cbn. by rewrite length_insert.
      * cbn. congruence.
      * intros t Ht. cbn. rewrite Eb. apply stamped_insert. lia.
Qed.
