(* ===== verification/Simulate.v ===== *)
(** Matching without captures: [add_state], [start_list], [step], [is_match] and
    [find_prefix_noncapturing_with_context] of [include/trieste/regex_engine.h],
    and the proof that they find the longest match of the pattern's tree. *)

From S2P Require Import Prelude AsciiBitmap RuneClass RegexSyntax RegexSpec Nfa NfaPaths.
From S2P Require Import Exploration.
From S2P Require Import Closure.
From S2P Require Import ClosureCache.
From S2P Require Import MatchContext.

(** * Lists of states *)

Definition is_match (states : list nat) : bool :=
  existsb (fun s => (s =? accept_state)%nat) states.

Definition visit_terminal (s : nat) (index : nat) (epoch : Z) (sc : list nat * MatchContext) :
    list nat * MatchContext :=
  let '(states, ctx) := sc in
  let '(seen, ctx) := already_visited index epoch ctx in
  if seen then (states, ctx) else (states ++ [s], ctx).

Definition index_of (e : RegexEngine) (s : nat) : nat :=
  match owned_states_ e !! s with Some st => closure_index st | None => 0%nat end.

Definition add_state (e : RegexEngine) (states : list nat) (state : option nat) (epoch : Z)
    (ctx : MatchContext) (f : Flags) : list nat * MatchContext :=
  match state with
  | None => (states, ctx)
  | Some s =>
      match owned_states_ e !! s with
      | None => (states, ctx)
      | Some st =>
          if trivial_closure st then visit_terminal s (closure_index st) epoch (states, ctx)
          else
            foldl (fun sc t => visit_terminal t (index_of e t) epoch sc) (states, ctx)
              (epsilon_closure_cached e (Some s) f)
      end
  end.

(** The marks are cleared in the bitset or by a new epoch. *)
Definition fresh_marks (epoch : Z) (ctx : MatchContext) : Z * MatchContext :=
  if use_bitset_ ctx then (epoch, clear_visited_bitset ctx) else advance_epoch ctx.

Definition start_list (e : RegexEngine) (state : option nat) (epoch : Z) (ctx : MatchContext)
    (f : Flags) : list nat * Z * MatchContext :=
  let '(epoch, ctx) := fresh_marks epoch ctx in
  let '(states, ctx) := add_state e [] state epoch ctx f in (states, epoch, ctx).

(** The acceptance test of [step]: a bit for ASCII, else the class or the literal. *)
Definition state_accepts (e : RegexEngine) (st : StateDef) (rune : Z) : bool :=
  if rune <? 128 then bitmap_test (ascii_accept st) rune
  else if is_class_ref (label st) then
    contains (nth (class_ref_index (label st)) (rune_classes_ e) empty_class) rune
  else label st =? rune.

Definition step_state (e : RegexEngine) (rune epoch : Z) (f : Flags)
    (sc : list nat * MatchContext) (s : nat) : list nat * MatchContext :=
  let '(states, ctx) := sc in
  match owned_states_ e !! s with
  | None => (states, ctx)
  | Some st =>
      if state_accepts e st rune then add_state e states (next st) epoch ctx f else (states, ctx)
  end.

(** [at_start] is false after the first position. *)
Definition step (e : RegexEngine) (current_states : list nat) (rune epoch : Z)
    (ctx : MatchContext) (boundary at_end : bool) : list nat * Z * MatchContext :=
  let '(epoch, ctx) := fresh_marks epoch ctx in
  let '(states, ctx) :=
    foldl (step_state e rune epoch (mkFlags boundary false at_end)) ([], ctx) current_states in
  (states, epoch, ctx).

(** * The search for the longest prefix *)

(** The variables of the loop. *)
Record MatchLoop := mkLoop {
  current_states : list nat;
  epoch : Z;
  context : MatchContext;
  current_rune : Z;
  current_rune_bytes : nat;
  has_current_rune : bool;
  prev_is_word : bool;
  next_is_word : bool;
  pos : nat;
  best : option nat;
}.

Definition match_start (e : RegexEngine) (utf8_str : list Z) (ctx : MatchContext)
    (at_start prev_is_word : bool) : MatchLoop :=
  let empty := (length utf8_str =? 0)%nat in
  let '(rune, bytes) := decode_rune utf8_str 0 in
  let next_is_word := negb empty && has_conditionals_ e && is_word_char rune in
  let boundary := has_conditionals_ e && negb (Bool.eqb prev_is_word next_is_word) in
  let at_end := has_conditionals_ e && empty in
  let '(states, epoch, ctx) :=
    start_list e (Some (start_state_ e)) 0 ctx
      (mkFlags boundary (has_conditionals_ e && at_start) at_end) in
  mkLoop states epoch ctx (if empty then 0 else rune) (if empty then 0%nat else bytes) (negb empty)
    prev_is_word next_is_word 0 (if is_match states then Some 0%nat else npos).

Definition match_turn (e : RegexEngine) (utf8_str : list Z) (l : MatchLoop) : MatchLoop :=
  let rune_value := current_rune l in
  let prev := if has_conditionals_ e then next_is_word l else prev_is_word l in
  let pos := (pos l + current_rune_bytes l)%nat in
  let more := (pos <? length utf8_str)%nat in
  let '(rune, bytes) :=
    if more then decode_rune utf8_str pos else (current_rune l, current_rune_bytes l) in
  let next_word :=
    if has_conditionals_ e then more && is_word_char rune else next_is_word l in
  let boundary := has_conditionals_ e && negb (Bool.eqb prev next_word) in
  let at_end := has_conditionals_ e && (length utf8_str <=? pos)%nat in
  let '(states, epoch, ctx) :=
    step e (current_states l) rune_value (epoch l) (context l) boundary at_end in
  mkLoop states epoch ctx rune bytes more prev next_word pos
    (if is_match states then Some pos else best l).

(** Each turn moves [pos] on by the bytes of a rune; the length of the input is
    enough fuel ([noncapturing_spec]). *)
Fixpoint match_loop (fuel : nat) (e : RegexEngine) (utf8_str : list Z) (l : MatchLoop) :
    MatchLoop :=
  match fuel with
  | O => l
  | S fuel =>
      if has_current_rune l && negb (length (current_states l) =? 0)%nat then
        match_loop fuel e utf8_str (match_turn e utf8_str l)
      else l
  end.

(** [self] is the engine's address. *)
Definition find_prefix_noncapturing_with_context (self : nat) (e : RegexEngine)
    (utf8_str : list Z) (ctx : MatchContext) (at_start prev_is_word : bool) :
    option nat * MatchContext :=
  let ctx := bind_engine ctx self (state_count_ e) in
  if negb (ok e) then (npos, ctx)
  else
    let l := match_loop (length utf8_str) e utf8_str
               (match_start e utf8_str ctx at_start prev_is_word) in
    (best l, context l).

(** * Engines that were built for a pattern *)

Definition pattern_ok (states : list StateDef) (s : nat) (pattern : option re) : Prop :=
  match pattern with
  | Some r => re_ok r /\ sub_nfa states r 1 (length states) s (Some accept_state)
  | None => s = accept_state
  end.

(** What the construction promises to the simulations. *)
Record engine_for (e : RegexEngine) (pattern : option re) : Prop := {
  engine_ok : ok e = true;
  engine_cache : cache_ok e;
  engine_count : state_count_ e = length (owned_states_ e);
  engine_index : indexed (owned_states_ e);
  engine_accept : has (owned_states_ e) 0 Match None None;
  engine_conditions : has_conditionals_ e = false -> no_conditionals (owned_states_ e);
  engine_accepts : forall s st r, owned_states_ e !! s = Some st -> is_epsilon (label st) = false ->
    0 <= r < 2 ^ 21 -> state_accepts e st r = accepts (rune_classes_ e) (label st) r;
  engine_pattern : pattern_ok (owned_states_ e) (start_state_ e) pattern;
}.

(** * Lists as sets *)

(** The list holds, once each, the states marked as visited. *)
Record listed (n : nat) (epoch : Z) (sc : list nat * MatchContext) : Prop := {
  listed_context : context_for n sc.2;
  listed_epoch : use_bitset_ sc.2 = false -> epoch = epoch_counter sc.2;
  listed_nodup : NoDup sc.1;
  listed_marks : forall t, t ∈ sc.1 <-> (t < n)%nat /\ visited sc.2 epoch t = true;
}.

(** [sc'] extends [sc] by the states of [P]. *)
Definition extends (n : nat) (epoch : Z) (P : nat -> Prop) (sc sc' : list nat * MatchContext) :
    Prop :=
  listed n epoch sc' /\ forall t, t ∈ sc'.1 <-> t ∈ sc.1 \/ P t.

Lemma extends_refl n epoch (P : nat -> Prop) sc :
  listed n epoch sc -> (forall t, ~ P t) -> extends n epoch P sc sc.
Proof. intros H Hp. split; [done|]. intros t. specialize (Hp t). tauto. Qed.

Lemma extends_trans n epoch (P Q R : nat -> Prop) a b c :
  extends n epoch P a b -> extends n epoch Q b c -> (forall t, R t <-> P t \/ Q t) ->
  extends n epoch R a c.
Proof.
  intros [_ H1] [H2 H3] HR. split; [done|]. intros t. rewrite H3, H1, HR. tauto.
Qed.

Lemma extends_iff n epoch (P Q : nat -> Prop) a b :
  extends n epoch P a b -> (forall t, P t <-> Q t) -> extends n epoch Q a b.
Proof. intros [H1 H2] HQ. split; [done|]. intros t. by rewrite H2, HQ. Qed.

(** Folding an operation that extends by [P x]. *)
Lemma extends_fold {A} n epoch (P : A -> nat -> Prop) op (l : list A) sc :
  (forall x sc, x ∈ l -> listed n epoch sc -> extends n epoch (P x) sc (op sc x)) ->
  listed n epoch sc ->
  extends n epoch (fun t => exists x, x ∈ l /\ P x t) sc (foldl op sc l).
Proof.
  revert sc. induction l as [|x l IH]; intros sc Hop Hsc; cbn [foldl].
  - apply extends_refl; [done|]. intros t (x & Hx & _). by apply elem_of_nil in Hx.
  - assert (extends n epoch (P x) sc (op sc x)) as H by (apply Hop; [by left|done]).
    eapply extends_trans; [exact H|apply IH; [|apply H]|].
    + intros y sc' Hy. apply Hop. by right.
    + intros t. setoid_rewrite elem_of_cons. split.
      * intros (y & [->|Hy] & Ht); eauto.
      * intros [Ht|(y & Hy & Ht)]; eauto.
Qed.

Lemma visit_terminal_ok n epoch s sc :
  listed n epoch sc -> (s < n)%nat -> extends n epoch (eq s) sc (visit_terminal s s epoch sc).
Proof.
  destruct sc as [l ctx]. intros [H1 H2 H3 H4] Hs. cbn in *.
  pose proof (already_visited_ok n ctx epoch s H1 H2 Hs) as Hv.
  destruct (already_visited s epoch ctx) as [b ctx'].
  destruct Hv as (Hb & Hctx & Hbits & Hcount & Hmarks).
  assert (use_bitset_ ctx' = false -> epoch = epoch_counter ctx') as He
    by (rewrite Hbits, Hcount; done).
  destruct b.
  - assert (s ∈ l) as Hin by (by apply H4).
    split; [|intros t; cbn; intuition congruence]. split; cbn; [done..|].
    intros t. rewrite H4. split; intros [Ht Hv]; (split; [done|]).
    + rewrite Hmarks, Hv by done. apply orb_true_r.
    + rewrite Hmarks in Hv by done. apply orb_true_iff in Hv as [Hv%Nat.eqb_eq|?]; [|done].
      by subst t.
  - assert (~ s ∈ l) as Hnin by (rewrite H4; intros [_ ?]; congruence).
    split; [|intros t; cbn; rewrite elem_of_app, list_elem_of_singleton; intuition congruence].
    split; cbn; [done..| |].
    + apply NoDup_app. split_and!; [done| |apply NoDup_singleton].
      intros x Hx Hxs%list_elem_of_singleton. by subst x.
    + intros t. rewrite elem_of_app, list_elem_of_singleton, H4. split.
      * intros [[Ht Hv]| -> ]; (split; [done|]); rewrite Hmarks by done.
        -- rewrite Hv. apply orb_true_r.
        -- by rewrite Nat.eqb_refl.
      * intros [Ht Hv]. rewrite Hmarks in Hv by done.
        apply orb_true_iff in Hv as [Hv%Nat.eqb_eq|?]; [by right|by left].
Qed.

Lemma index_of_id e s : indexed (owned_states_ e) -> exists_state (owned_states_ e) s ->
  index_of e s = s.
Proof. intros Hi [st Hst]. unfold index_of. rewrite Hst. by apply Hi. Qed.

Lemma ends_in_exists states f s t : ends_in states f s t ->
  exists_state states s /\ exists_state states t.
Proof.
  intros [Hr (st & Ht & _)]. split; [|by eexists].
  inversion Hr as [|? ? ? (st' & Hst' & _)]; subst; by eexists.
Qed.

Section Simulation.
Context (e : RegexEngine) (pattern : option re) (He : engine_for e pattern).
Context (s : list Z) (Hbytes : Forall is_byte s) (at_start0 prev0 : bool).

Local Abbreviation states := (owned_states_ e).
Local Abbreviation acc := (accepts (rune_classes_ e)).
Local Abbreviation flags := (flags_at s at_start0 prev0).
Local Abbreviation run := (NfaPaths.run states acc (runes s) flags).

(** Whether the automaton can be in the state [t] before rune [i]. *)
Definition active (i t : nat) : Prop :=
  run (start_state_ e, 0%nat) (t, i)
  /\ exists st, states !! t = Some st /\ is_epsilon (label st) = false.

(** A run to position [i + 1] consumes a rune at position [i]; what is left is
    epsilon moves. *)
Lemma run_eps x i y : rtc (eps states (flags i)) x y -> run (x, i) (y, i).
Proof.
  induction 1 as [|x y z (st & Hst & Hin) _ IH]; [constructor|].
  eapply rtc_l; [by eapply step_eps|done].
Qed.

Lemma run_position x i y j : run (x, i) (y, j) -> (i <= j)%nat.
Proof.
  intros H. remember (x, i) as c eqn:Ec. remember (y, j) as d eqn:Ed. revert x i Ec.
  induction H as [c|c c' d Hstep _ IH]; intros x i ->; [injection Ed; lia|].
  destruct c' as [x' i']. specialize (IH Ed x' i' eq_refl). inversion Hstep; subst; lia.
Qed.

Lemma run_same x i y : run (x, i) (y, i) -> rtc (eps states (flags i)) x y.
Proof.
  intros H. remember (x, i) as c eqn:Ec. remember (y, i) as d eqn:Ed. revert x Ec.
  induction H as [c|c c' d Hstep Hrest IH]; intros x ->; [injection Ed as ->; constructor|].
  destruct c' as [x' i']. subst d. pose proof (run_position _ _ _ _ Hrest).
  inversion Hstep; subst; [|lia]. eapply rtc_l; [by eexists|]. by apply IH.
Qed.

Lemma run_rune x i y : run (x, 0%nat) (y, S i) ->
  exists u v st r, run (x, 0%nat) (u, i) /\ states !! u = Some st /\ is_epsilon (label st) = false
    /\ runes s !! i = Some r /\ acc (label st) r = true /\ next st = Some v
    /\ rtc (eps states (flags (S i))) v y.
Proof.
  intros H. remember (y, S i) as d eqn:Ed. revert y Ed. pattern d. revert d H.
  apply rtc_ind_r; [done|]. intros c d Hc Hstep IH y ->.
  inversion Hstep; subst.
  - destruct (IH _ eq_refl) as (u & v & st' & r & ? & ? & ? & ? & ? & ? & ?).
    exists u, v, st', r. split_and!; [done..|]. eapply rtc_r; [done|]. by eexists.
  - eexists _, y, _, _. split_and!; [done..|constructor].
Qed.

Lemma active_first t : active 0 t <-> ends_in states (flags 0) (start_state_ e) t.
Proof.
  unfold active, ends_in. split; intros [H ?]; (split; [|done]);
    [by apply run_same|by apply run_eps].
Qed.

Lemma active_next i t :
  active (S i) t <-> exists u v st r, active i u /\ states !! u = Some st
    /\ runes s !! i = Some r /\ acc (label st) r = true /\ next st = Some v
    /\ ends_in states (flags (S i)) v t.
Proof.
  split.
  - intros [H ?]. destruct (run_rune _ _ _ H) as (u & v & st & r & ? & Hu & ? & ? & ? & ? & ?).
    exists u, v, st, r. split_and!; try done. split; [done|by exists st].
  - intros (u & v & st & r & [Hu (st' & Hst' & Hne)] & Hst & Hr & Ha & Hn & [Hv Ht]).
    simplify_eq. split; [|done]. etrans; [exact Hu|].
    eapply rtc_l; [by eapply step_rune|by apply run_eps].
Qed.

(** Being in the accept state is having matched. *)
Lemma active_accept i : active i accept_state <-> pattern_match acc (runes s) flags pattern 0 i.
Proof.
  assert (exists st, states !! accept_state = Some st /\ is_epsilon (label st) = false) as Hterm.
  { destruct (engine_accept _ _ He) as (st & Hst & Hl & _). exists st. by rewrite Hl. }
  assert (forall j r, runes s !! j = Some r -> acc Match r = false) as Hdead
    by (intros j r; by apply accepts_match).
  pose proof (engine_pattern _ _ He) as Hp. destruct pattern as [r|]; cbn [pattern_match pattern_ok] in *.
  - destruct Hp as [Hok Hsub]. rewrite <-(runs_iff_match states _ _ _ (offset s)); [|done|apply He|done|exact Hsub].
    unfold active. intuition.
  - unfold active. rewrite Hp. split.
    + intros [H _]. inversion H as [|? ? ? Hstep]; subst; [done|].
      exfalso. eapply accept_stuck; [exact Hdead|apply He|exact Hstep].
    + intros <-. split; [constructor|done].
Qed.
(** * The operations on lists *)

Local Abbreviation n := (length states).

Lemma add_state_ok f epoch sc v :
  listed n epoch sc ->
  extends n epoch (ends_in states f v) sc
    (add_state e sc.1 (Some v) epoch sc.2 (effective e f)).
Proof.
  intros Hsc. unfold add_state. destruct (states !! v) as [st|] eqn:Hv.
  2: { destruct sc. apply extends_refl; [done|]. intros t [[? ?] _]%ends_in_exists. congruence. }
  rewrite <-surjective_pairing. pose proof (engine_index _ _ He) as Hidx.
  destruct (trivial_closure st) eqn:Ht.
  - rewrite (Hidx _ _ Hv). eapply extends_iff.
    + apply visit_terminal_ok; [done|by eapply lookup_lt_Some].
    + intros t. destruct (cached_trivial e (engine_cache _ _ He) v st f Hv Ht) as [_ H].
      rewrite <-H, list_elem_of_singleton. split; congruence.
  - destruct (cached_closure e (engine_cache _ _ He) v f ltac:(by eexists)) as [_ H].
    eapply extends_iff; [apply (extends_fold n epoch (fun x t => x = t)); [|done]|].
    + intros x sc' Hx Hsc'. apply H in Hx. apply ends_in_exists in Hx as [_ [st' Hx]].
      rewrite index_of_id; [|done|by eexists].
      apply visit_terminal_ok; [done|by eapply lookup_lt_Some].
    + intros t. rewrite <-H. split; [by intros (x & ? & <-)|eauto].
Qed.

Lemma fresh_marks_ok epoch ctx : context_for n ctx ->
  let '(epoch', ctx') := fresh_marks epoch ctx in listed n epoch' ([], ctx').
Proof.
  intros Hctx. unfold fresh_marks. destruct (use_bitset_ ctx) eqn:Hb.
  - split; cbn; [by apply context_for_bits|congruence|constructor|].
    intros t. unfold visited. cbn. rewrite Hb, bitmap_zero_spec.
    split; [by intros ?%elem_of_nil|by intros [_ ?]].
  - pose proof (advance_epoch_ok n ctx Hctx) as H. destruct (advance_epoch ctx) as [epoch' ctx'].
    destruct H as (H1 & H2 & H3 & H4). split; cbn; [done|done|constructor|].
    intros t. unfold visited. rewrite H3, Hb, H4.
    split; [by intros ?%elem_of_nil|by intros [_ ?]].
Qed.

Lemma step_state_ok rune epoch f sc u : 0 <= rune < 2 ^ 21 ->
  (exists st, states !! u = Some st /\ is_epsilon (label st) = false) -> listed n epoch sc ->
  extends n epoch
    (fun t => exists st v, states !! u = Some st /\ acc (label st) rune = true
                           /\ next st = Some v /\ ends_in states f v t)
    sc (step_state e rune epoch (effective e f) sc u).
Proof.
  intros Hr (st & Hst & Hne) Hsc. destruct sc as [l ctx]. unfold step_state. rewrite Hst.
  rewrite (engine_accepts _ _ He u st rune Hst Hne Hr).
  destruct (acc (label st) rune) eqn:Ha.
  - destruct (next st) as [v|] eqn:Hn.
    + eapply extends_iff; [exact (add_state_ok f epoch (l, ctx) v Hsc)|].
      intros t. split; [by exists st, v|]. intros (st' & v' & ? & _ & ? & ?). by simplify_eq.
    + apply extends_refl; [done|]. intros t (st' & v' & ? & _ & ? & _). by simplify_eq.
  - apply extends_refl; [done|]. intros t (st' & v' & ? & ? & _). simplify_eq. congruence.
Qed.

(** * The loop *)

Definition matches (i : nat) : Prop := pattern_match acc (runes s) flags pattern 0 i.

(** [b] is the offset of the last match up to rune [i]. *)
Definition best_upto (i : nat) (b : option nat) : Prop :=
  match b with
  | Some p => exists k, (k <= i)%nat /\ p = offset s k /\ matches k
                        /\ forall m, (m <= i)%nat -> matches m -> (m <= k)%nat
  | None => forall m, (m <= i)%nat -> ~ matches m
  end.

Record loop_inv (i : nat) (l : MatchLoop) : Prop := {
  loop_bound : (i <= length (spans s))%nat;
  loop_pos : pos l = offset s i;
  loop_more : has_current_rune l = (offset s i <? length s)%nat;
  loop_rune : (offset s i < length s)%nat ->
    decode_rune s (offset s i) = (current_rune l, current_rune_bytes l);
  loop_word : has_conditionals_ e = true -> next_is_word l = word_after s i;
  loop_listed : listed n (epoch l) (current_states l, context l);
  loop_active : forall t, t ∈ current_states l <-> active i t;
  loop_best : best_upto i (best l);
}.

Lemma is_match_active l i : (forall t, t ∈ l <-> active i t) -> is_match l = true <-> matches i.
Proof.
  intros H. unfold matches. rewrite <-active_accept. rewrite <-H. unfold is_match.
  rewrite existsb_exists. setoid_rewrite <-list_elem_of_In. split.
  - intros (x & Hx & Heq%Nat.eqb_eq). by subst x.
  - intros Hin. exists accept_state. by split.
Qed.

(** Meeting position [i + 1], whose list is [l]. *)
Lemma best_next l i b :
  (forall t, t ∈ l <-> active (S i) t) -> best_upto i b ->
  best_upto (S i) (if is_match l then Some (offset s (S i)) else b).
Proof.
  intros Hl Hb. pose proof (is_match_active l (S i) Hl) as Hm. destruct (is_match l).
  - exists (S i). split_and!; [done|done|by apply Hm|done].
  - assert (~ matches (S i)) as Hno by (rewrite <-Hm; done). destruct b as [p|]; cbn in *.
    + destruct Hb as (k & Hk & -> & Hmk & Hmax). exists k. split_and!; [lia|done|done|].
      intros m Hle Hmm. destruct (decide (m = S i)) as [->|]; [done|]. apply Hmax; [lia|done].
    + intros m Hle Hmm. destruct (decide (m = S i)) as [->|]; [done|]. by apply (Hb m); [lia|].
Qed.

Lemma best_first l : (forall t, t ∈ l <-> active 0 t) ->
  best_upto 0 (if is_match l then Some 0%nat else npos).
Proof.
  intros Hl. pose proof (is_match_active l 0 Hl) as Hm. destruct (is_match l).
  - exists 0%nat. split_and!; [done|done|by apply Hm|]. lia.
  - intros m Hle Hmm. assert (m = 0%nat) as -> by lia. by apply Hm in Hmm.
Qed.

(** The list of the next position. *)
Lemma step_ok i l epoch ctx rune :
  (forall t, t ∈ l <-> active i t) -> context_for n ctx -> runes s !! i = Some rune ->
  let '(l', epoch', ctx') := step e l rune epoch ctx
    (has_conditionals_ e && boundary (flags (S i))) (has_conditionals_ e && at_end (flags (S i))) in
  listed n epoch' (l', ctx') /\ forall t, t ∈ l' <-> active (S i) t.
Proof.
  intros Hl Hctx Hr. unfold step. pose proof (fresh_marks_ok epoch ctx Hctx) as Hf.
  destruct (fresh_marks epoch ctx) as [epoch' ctx']. pose proof (runes_bounds s Hbytes i rune Hr).
  replace (mkFlags _ false _) with (effective e (flags (S i)))
    by (unfold effective; cbn; by rewrite andb_false_r).
  pose proof (extends_fold n epoch' _ (step_state e rune epoch' (effective e (flags (S i)))) l
    ([], ctx') (fun u sc Hu Hsc => step_state_ok rune epoch' (flags (S i)) sc u H
      (proj2 (proj1 (Hl u) Hu)) Hsc) Hf) as [H1 H2].
  destruct (foldl _ _ _) as [l' ctx'']. split; [done|]. intros t. cbn in H2. rewrite H2, active_next.
  split.
  - intros [?%elem_of_nil|(u & Hu & st & v & ? & ? & ? & ?)]; [done|].
    exists u, v, st, rune. apply Hl in Hu. done.
  - intros (u & v & st & r & Hu & ? & ? & ? & ? & ?). right. simplify_eq.
    exists u. split; [by apply Hl|]. by exists st, v.
Qed.

Lemma start_ok ctx :
  context_for n ctx ->
  let '(l, epoch, ctx') := start_list e (Some (start_state_ e)) 0 ctx (effective e (flags 0)) in
  listed n epoch (l, ctx') /\ forall t, t ∈ l <-> active 0 t.
Proof.
  intros Hctx. unfold start_list. pose proof (fresh_marks_ok 0 ctx Hctx) as Hf.
  destruct (fresh_marks 0 ctx) as [epoch ctx'].
  pose proof (add_state_ok (flags 0) epoch ([], ctx') (start_state_ e) Hf) as [H1 H2].
  cbn [fst snd] in *. destruct (add_state _ _ _ _ _ _) as [l ctx'']. split; [done|].
  intros t. rewrite active_first, H2. cbn. split; [|by right].
  by intros [?%elem_of_nil|?].
Qed.

Lemma word_here i : (i <= length (spans s))%nat ->
  word_after s i
  = (offset s i <? length s)%nat && is_word_char (decode_rune s (offset s i)).1.
Proof.
  intros Hi. unfold word_after. rewrite runes_lookup.
  destruct (Nat.ltb_spec (offset s i) (length s)) as [Hlt|Hge].
  - by destruct (rune_here s Hbytes i Hi Hlt) as (-> & _).
  - rewrite (rune_end s Hbytes i Hi Hge). by rewrite lookup_ge_None_2.
Qed.

Lemma at_end_here i : (i <= length (spans s))%nat ->
  (length (runes s) <=? i)%nat = (length s <=? offset s i)%nat.
Proof.
  intros Hi. rewrite length_runes. apply eq_true_iff_eq. rewrite !Nat.leb_le. split; intros H.
  - replace i with (length (spans s)) by lia. by rewrite offset_end.
  - by rewrite (rune_end s Hbytes i Hi H).
Qed.

Lemma match_start_ok ctx : context_for n ctx ->
  loop_inv 0 (match_start e s ctx at_start0 prev0).
Proof.
  intros Hctx. unfold match_start.
  pose proof (word_here 0 ltac:(lia)) as Hw. rewrite offset_0 in Hw.
  pose proof (at_end_here 0 ltac:(lia)) as Hend. rewrite offset_0 in Hend.
  destruct (decode_rune s 0) as [rune bytes] eqn:Hd. cbn [fst] in Hw.
  assert ((length s =? 0)%nat = negb (0 <? length s)%nat) as Hempty by (destruct s; done).
  rewrite Hempty, negb_involutive.
  replace (mkFlags _ _ _) with (effective e (flags 0)).
  2: { unfold effective. cbn [flags_at boundary at_start at_end word_before]. rewrite Hw, Hend.
       destruct (has_conditionals_ e), (0 <? length s)%nat eqn:E; cbn;
         rewrite ?andb_true_r, ?andb_false_r; f_equal; destruct s; done. }
  pose proof (start_ok ctx Hctx) as Hs.
  destruct (start_list _ _ _ _ _) as [[l epoch'] ctx']. destruct Hs as [Hs1 Hs2].
  split; cbn [pos has_current_rune current_rune current_rune_bytes next_is_word
    current_states epoch context best]; rewrite ?offset_0; try done.
  - lia.
  - intros Hlt. rewrite (proj2 (Nat.ltb_lt _ _) Hlt). done.
  - intros ->. rewrite Hw. by rewrite andb_true_r.
  - by apply best_first.
Qed.

Lemma match_turn_ok i l : loop_inv i l -> has_current_rune l = true ->
  loop_inv (S i) (match_turn e s l).
Proof.
  intros [Hb Hp Hm Hr Hw Hl Ha Hbest] Hcur. rewrite Hm in Hcur. apply Nat.ltb_lt in Hcur.
  destruct (rune_here s Hbytes i Hb Hcur) as (Hspan & Hoff & Hb').
  specialize (Hr Hcur). rewrite Hr in Hspan, Hoff. cbn [snd] in Hoff.
  assert (runes s !! i = Some (current_rune l)) as Hrune by (by rewrite runes_lookup, Hspan).
  unfold match_turn. rewrite Hp, <-Hoff.
  pose proof (word_here (S i) Hb') as Hw'. pose proof (at_end_here (S i) Hb') as Hend.
  assert (has_conditionals_ e = true -> next_is_word l = word_before s prev0 (S i)) as Hprev.
  { intros Hc. rewrite (Hw Hc). done. }
  destruct (if (offset s (S i) <? length s)%nat then _ else _) as [rune bytes] eqn:Hd.
  assert ((offset s (S i) <? length s)%nat && is_word_char rune = word_after s (S i)) as Hword.
  { rewrite Hw'. destruct (offset s (S i) <? length s)%nat; [by rewrite Hd|done]. }
  set (next_word := if has_conditionals_ e then _ else next_is_word l).
  pose proof (step_ok i (current_states l) (epoch l) (context l) (current_rune l) Ha
    (listed_context _ _ _ Hl) Hrune) as Hs.
  replace (has_conditionals_ e && negb (Bool.eqb _ next_word))
    with (has_conditionals_ e && boundary (flags (S i))).
  2: { unfold next_word. cbn [flags_at boundary]. destruct (has_conditionals_ e); [|done].
       by rewrite Hprev, Hword. }
  rewrite <-Hend. cbn [flags_at at_end] in Hs.
  destruct (step _ _ _ _ _ _ _) as [[l' epoch'] ctx']. destruct Hs as [Hs1 Hs2].
  split; cbn [pos has_current_rune current_rune current_rune_bytes next_is_word
    current_states epoch context best]; try done.
  - intros Hlt. rewrite (proj2 (Nat.ltb_lt _ _) Hlt) in Hd. done.
  - intros Hc. unfold next_word. by rewrite Hc.
  - by apply best_next.
Qed.

(** Nothing is active after a position where nothing is, or past the last rune. *)
Lemma inactive_after i : (forall t, ~ active i t) -> forall m t, (i <= m)%nat -> ~ active m t.
Proof.
  intros Hi m. induction m as [|m IH]; intros t Hm.
  - assert (i = 0%nat) as -> by lia. apply Hi.
  - destruct (decide (i = S m)) as [->|]; [apply Hi|].
    rewrite active_next. intros (u & v & st & r & Hu & _). by apply (IH u); [lia|].
Qed.

Lemma inactive_past m t : (length (runes s) < m)%nat -> ~ active m t.
Proof.
  destruct m as [|m]; [lia|]. rewrite active_next. intros Hm (u & v & st & r & _ & _ & Hr & _).
  apply lookup_lt_Some in Hr. lia.
Qed.

(** What the search returns. *)
Definition longest : option nat -> Prop :=
  longest_prefix (rune_classes_ e) pattern s at_start0 prev0.

Lemma best_longest i b : best_upto i b ->
  (forall m, (i < m)%nat -> ~ active m accept_state) -> longest b.
Proof.
  intros Hb Hlate. setoid_rewrite active_accept in Hlate. destruct b as [p|]; cbn in *.
  - destruct Hb as (k & Hk & -> & Hm & Hmax). exists k. split; [done|]. split; [done|].
    intros m Hmm. destruct (Nat.le_gt_cases m i) as [?|Hgt]; [by apply Hmax|].
    by apply Hlate in Hgt.
  - intros m Hmm. destruct (Nat.le_gt_cases m i) as [?|Hgt]; [by apply (Hb m)|].
    by apply Hlate in Hgt.
Qed.

Lemma match_loop_ok fuel i l : loop_inv i l -> (length s - offset s i <= fuel)%nat ->
  longest (best (match_loop fuel e s l)) /\ context_for n (context (match_loop fuel e s l)).
Proof.
  revert i l. induction fuel as [|fuel IH]; intros i l Hinv Hf; cbn [match_loop].
  - split; [|apply (loop_listed _ _ Hinv)]. apply (best_longest i); [apply Hinv|].
    intros m Hm. apply inactive_past. rewrite length_runes.
    rewrite <-(rune_end s Hbytes i (loop_bound _ _ Hinv)) by lia. done.
  - destruct (has_current_rune l) eqn:Hcur; cbn [andb].
    + destruct (Nat.eqb_spec (length (current_states l)) 0) as [Hz|]; cbn [negb].
      * split; [|apply (loop_listed _ _ Hinv)]. apply (best_longest i); [apply Hinv|].
        intros m Hm. apply (inactive_after i); [|lia]. intros t Ht.
        apply (loop_active _ _ Hinv) in Ht. apply nil_length_inv in Hz. rewrite Hz in Ht.
        by apply elem_of_nil in Ht.
      * apply (IH (S i)); [by apply match_turn_ok|].
        pose proof (loop_more _ _ Hinv) as Hm. rewrite Hcur in Hm. symmetry in Hm.
        apply Nat.ltb_lt in Hm.
        destruct (rune_here s Hbytes i (loop_bound _ _ Hinv) Hm) as (_ & _ & ?).
        pose proof (offset_mono s Hbytes i (S i) ltac:(lia)). lia.
    + split; [|apply (loop_listed _ _ Hinv)]. apply (best_longest i); [apply Hinv|].
      intros m Hm. apply inactive_past. rewrite length_runes.
      pose proof (loop_more _ _ Hinv) as Hmore. rewrite Hcur in Hmore. symmetry in Hmore.
      apply Nat.ltb_ge in Hmore.
      by rewrite <-(rune_end s Hbytes i (loop_bound _ _ Hinv) Hmore).
Qed.

Lemma noncapturing_spec self ctx :
  context_ok ctx ->
  let '(b, ctx') := find_prefix_noncapturing_with_context self e s ctx at_start0 prev0 in
  longest b /\ context_ok ctx'.
Proof.
  intros Hctx. unfold find_prefix_noncapturing_with_context.
  rewrite (engine_ok _ _ He). cbn [negb]. rewrite (engine_count _ _ He).
  pose proof (match_start_ok _ (bind_engine_ok ctx self n Hctx)) as Hstart.
  destruct (match_loop_ok (length s) 0 _ Hstart ltac:(lia)) as [H1 H2].
  split; [done|]. apply H2.
Qed.
End Simulation.
