(* ===== verification/Capture.v ===== *)
(** Matching with captures: [add_state_capturing] and [find_prefix_with_context]
    of [include/trieste/regex_engine.h], and the proof that the spans they report
    are those of a match, and the match the longest, unless the frame arena ran
    out. *)

From S2P Require Import Prelude AsciiBitmap RuneClass RegexSyntax RegexSpec Nfa NfaPaths.
From S2P Require Import Exploration.
From S2P Require Import Closure.
From S2P Require Import ClosureCache.
From S2P Require Import MatchContext.
From S2P Require Import Simulate.

(** * One exploration *)

Record Thread := mkThread { state : nat; caps_frame : nat }.

(** The threads found so far, the stack (its head is its back) and the context. *)
Record Traversal := mkTraversal {
  threads : list Thread;
  pending : list (option nat * nat);
  traversal_context : MatchContext;
}.

Definition push_pending (t : Traversal) (p : option nat) (frame : nat) : Traversal :=
  mkTraversal (threads t) ((p, frame) :: pending t) (traversal_context t).

Section AddState.
Context (e : RegexEngine) (pos : nat) (epoch : Z) (f : Flags).

(** A clone of the frame with [slot] set to [pos], and the state after it. *)
Definition push_capture (t : Traversal) (p : option nat) (frame slot : nat) : Traversal :=
  match clone_capture_frame (traversal_context t) frame with
  | (None, ctx) => mkTraversal (threads t) (pending t) ctx
  | (Some next_frame, ctx) =>
      mkTraversal (threads t) ((p, next_frame) :: pending t)
        (write_capture ctx next_frame slot pos)
  end.

Definition capturing_turn (item : option nat * nat) (t : Traversal) : Traversal :=
  let '(p, frame) := item in
  let t := mkTraversal (threads t) (tail (pending t)) (traversal_context t) in
  match p with
  | None => t
  | Some s =>
      match owned_states_ e !! s with
      | None => t
      | Some st =>
          if is_visited (traversal_context t) (closure_index st) epoch then t
          else
            let ctx := mark_visited (traversal_context t) (closure_index st) epoch in
            let t := mkTraversal (threads t) (pending t) ctx in
            if label st =? Split then
              push_pending (push_pending t (next_alt st) frame) (next st) frame
            else if is_capture_open (label st) then
              push_capture t (next st) frame (capture_index (label st) * 2)
            else if is_capture_close (label st) then
              push_capture t (next st) frame (capture_index (label st) * 2 + 1)
            else if label st =? WordBoundary then
              if boundary f then push_pending t (next st) frame else t
            else if label st =? StartAnchor then
              if at_start f then push_pending t (next st) frame else t
            else if label st =? EndAnchor then
              if at_end f then push_pending t (next st) frame else t
            else mkTraversal (threads t ++ [mkThread s frame]) (pending t) ctx
      end
  end.

Fixpoint capturing_loop (fuel : nat) (t : Traversal) : Traversal :=
  match fuel, pending t with
  | S fuel, item :: _ => capturing_loop fuel (capturing_turn item t)
  | _, _ => t
  end.

Definition add_state_capturing (ts : list Thread) (target : option nat) (frame : nat)
    (ctx : MatchContext) : list Thread * MatchContext :=
  let t := capturing_loop (2 * length (owned_states_ e) + 2)
             (mkTraversal ts [(target, frame)] ctx) in
  (threads t, traversal_context t).
End AddState.

(** * The search *)

(** [check_accept]: the first thread in the accept state decides. *)
Fixpoint check_accept (ts : list Thread) (pos : nat) (best : option nat * option nat) :
    option nat * option nat :=
  match ts with
  | [] => best
  | t :: ts =>
      if (state t =? accept_state)%nat then (Some pos, Some (caps_frame t))
      else check_accept ts pos best
  end.

Definition step_thread (e : RegexEngine) (rune : Z) (pos : nat) (epoch : Z) (f : Flags)
    (tc : list Thread * MatchContext) (t : Thread) : list Thread * MatchContext :=
  let '(ts, ctx) := tc in
  match owned_states_ e !! state t with
  | None => (ts, ctx)
  | Some st =>
      if state_accepts e st rune then
        add_state_capturing e pos epoch f ts (next st) (caps_frame t) ctx
      else (ts, ctx)
  end.

(** The variables of the loop. *)
Record CaptureLoop := mkCapLoop {
  current_threads : list Thread;
  cap_context : MatchContext;
  cap_rune : Z;
  cap_rune_bytes : nat;
  cap_has_rune : bool;
  cap_next_is_word : bool;
  cap_pos : nat;
  cap_best : option nat * option nat;
}.

Definition capture_start (e : RegexEngine) (utf8_str : list Z) (frame : nat) (ctx : MatchContext)
    (at_start prev_is_word : bool) : CaptureLoop :=
  let empty := (length utf8_str =? 0)%nat in
  let '(rune, bytes) := decode_rune utf8_str 0 in
  let next_is_word := negb empty && is_word_char rune in
  let '(epoch, ctx) := advance_epoch ctx in
  let '(ts, ctx) :=
    add_state_capturing e 0 epoch
      (mkFlags (negb (Bool.eqb prev_is_word next_is_word)) at_start empty)
      [] (Some (start_state_ e)) frame ctx in
  mkCapLoop ts ctx (if empty then 0 else rune) (if empty then 0%nat else bytes) (negb empty)
    next_is_word 0 (check_accept ts 0 (npos, npos)).

Definition capture_turn (e : RegexEngine) (utf8_str : list Z) (l : CaptureLoop) : CaptureLoop :=
  let rune_value := cap_rune l in
  let prev_is_word := cap_next_is_word l in
  let pos := (cap_pos l + cap_rune_bytes l)%nat in
  let more := (pos <? length utf8_str)%nat in
  let '(rune, bytes) :=
    if more then decode_rune utf8_str pos else (cap_rune l, cap_rune_bytes l) in
  let next_is_word := more && is_word_char rune in
  let '(epoch, ctx) := advance_epoch (cap_context l) in
  let at_end_now := (length utf8_str <=? pos)%nat in
  let f := mkFlags (negb (Bool.eqb prev_is_word next_is_word)) false at_end_now in
  let '(ts, ctx) := foldl (step_thread e rune_value pos epoch f) ([], ctx) (current_threads l) in
  mkCapLoop ts ctx rune bytes more next_is_word pos (check_accept ts pos (cap_best l)).

Fixpoint capture_loop (fuel : nat) (e : RegexEngine) (utf8_str : list Z) (l : CaptureLoop) :
    CaptureLoop :=
  match fuel with
  | O => l
  | S fuel =>
      if cap_has_rune l && negb (length (current_threads l) =? 0)%nat then
        capture_loop fuel e utf8_str (capture_turn e utf8_str l)
      else l
  end.

(** A capture span, start and end. *)
Definition Capture : Type := option nat * option nat.

Definition frame_captures (num_captures : nat) (frame : list (option nat)) : list Capture :=
  map (fun i => (nth (i * 2) frame npos, nth (i * 2 + 1) frame npos)) (seq 0 num_captures).

(** Returns the captures too; an unsuccessful call leaves them empty. *)
Definition find_prefix_with_context (self : nat) (e : RegexEngine) (utf8_str : list Z)
    (ctx : MatchContext) (at_start prev_is_word : bool) :
    option nat * list Capture * MatchContext :=
  let ctx := bind_engine ctx self (state_count_ e) in
  if negb (ok e) || (num_captures_ e =? 0)%nat then
    let '(best, ctx) :=
      find_prefix_noncapturing_with_context self e utf8_str ctx at_start prev_is_word in
    (best, [], ctx)
  else
    let cap_slots := (2 * num_captures_ e)%nat in
    let ctx := reset_capture_frames ctx cap_slots in
    match allocate_capture_frame ctx npos with
    | (None, ctx) => (npos, [], ctx)
    | (Some init_caps_frame, ctx) =>
        let l := capture_loop (length utf8_str) e utf8_str
                   (capture_start e utf8_str init_caps_frame ctx at_start prev_is_word) in
        let ctx := cap_context l in
        match cap_best l with
        | (Some best, Some frame) =>
            (Some best, frame_captures (num_captures_ e) (capture_frame_data ctx frame), ctx)
        | (best, _) => (best, [], ctx)
        end
    end.

(** * The frame arena *)

Section Arena.
Context (slots : nat).

(** The arena is a whole number of frames. *)
Definition arena_ok (ctx : MatchContext) : Prop :=
  capture_frame_slots ctx = slots /\ exists k, length (capture_frames ctx) = (k * slots)%nat.

Definition valid_frame (ctx : MatchContext) (frame : nat) : Prop :=
  ((frame + 1) * slots <= length (capture_frames ctx))%nat.

(** The arena only grows, and what was written stays. *)
Definition grows (ctx ctx' : MatchContext) : Prop :=
  exists more, capture_frames ctx' = capture_frames ctx ++ more.

Lemma grows_refl ctx : grows ctx ctx.
Proof. exists []. by rewrite app_nil_r. Qed.

Lemma grows_trans a b c : grows a b -> grows b c -> grows a c.
Proof. intros [m1 H1] [m2 H2]. exists (m1 ++ m2). by rewrite H2, H1, app_assoc. Qed.

Lemma grows_full ctx ctx' : arena_ok ctx -> arena_ok ctx' -> grows ctx ctx' ->
  frames_full ctx' = false -> frames_full ctx = false.
Proof.
  intros [H1 _] [H2 _] [more H]. unfold frames_full. rewrite H, H1, H2, length_app, !Z.ltb_ge. lia.
Qed.

Lemma grows_valid ctx ctx' frame : grows ctx ctx' -> valid_frame ctx frame ->
  valid_frame ctx' frame.
Proof. intros [more H]. unfold valid_frame. rewrite H, length_app. lia. Qed.

Lemma grows_data ctx ctx' frame : arena_ok ctx -> arena_ok ctx' -> grows ctx ctx' ->
  valid_frame ctx frame -> capture_frame_data ctx' frame = capture_frame_data ctx frame.
Proof.
  intros [H1 _] [H2 _] [more H] Hv. unfold capture_frame_data, valid_frame in *.
  rewrite H1, H2, H, drop_app_le, take_app_le; [done|rewrite length_drop; lia|lia].
Qed.

Lemma frame_length ctx frame : arena_ok ctx -> valid_frame ctx frame ->
  length (capture_frame_data ctx frame) = slots.
Proof.
  intros [H1 _] Hv. unfold capture_frame_data, valid_frame in *.
  rewrite H1, length_take, length_drop. lia.
Qed.

(** A clone with one slot written, in one step. *)
Lemma clone_write ctx frame slot pos :
  (slot < slots)%nat -> arena_ok ctx -> valid_frame ctx frame -> frames_full ctx = false ->
  exists new ctx1, clone_capture_frame ctx frame = (Some new, ctx1) /\
  let ctx' := write_capture ctx1 new slot pos in
  ctx' = set_frames ctx (capture_frames ctx ++ <[slot := Some pos]> (capture_frame_data ctx frame))
           (capture_frame_slots ctx)
  /\ arena_ok ctx' /\ grows ctx ctx' /\ valid_frame ctx' new
  /\ capture_frame_data ctx' new = <[slot := Some pos]> (capture_frame_data ctx frame).
Proof.
  intros Hslot Ha Hv Hfull. pose proof (frame_length ctx frame Ha Hv) as Hlen.
  destruct Ha as [H1 [k Hk]]. unfold clone_capture_frame. rewrite Hfull.
  eexists _, _. split; [done|]. cbv zeta.
  rewrite H1, Hk, Nat.div_mul by lia.
  assert (write_capture (set_frames ctx (capture_frames ctx ++ capture_frame_data ctx frame) slots)
            k slot pos
          = set_frames ctx (capture_frames ctx
              ++ <[slot := Some pos]> (capture_frame_data ctx frame)) slots) as E.
  { unfold write_capture. cbn [set_frames capture_frames capture_frame_slots].
    f_equal. rewrite insert_app_r_alt by lia. do 2 f_equal. lia. }
  rewrite E. split; [done|]. split_and!.
  - split; [done|]. exists (S k). cbn. rewrite length_app, length_insert, Hlen. lia.
  - by eexists.
  - unfold valid_frame. cbn. rewrite length_app, length_insert, Hlen. lia.
  - unfold capture_frame_data at 1. cbn [set_frames capture_frames capture_frame_slots].
    rewrite <-Hk, drop_app_length. apply take_ge. rewrite length_insert, Hlen. lia.
Qed.
End Arena.

(** * One exploration *)

Section Capturing.
Context (e : RegexEngine) (pattern : option re) (He : engine_for e pattern).
Context (s : list Z) (Hbytes : Forall is_byte s) (at_start0 prev0 : bool).
Context (Hnum : (0 < num_captures_ e)%nat).
Context (Hcaps : forall i st, owned_states_ e !! i = Some st ->
  is_capture_open (label st) || is_capture_close (label st) = true ->
  (capture_index (label st) < num_captures_ e)%nat).

Local Abbreviation states := (owned_states_ e).
Local Abbreviation n := (length states).
Local Abbreviation acc := (accepts (rune_classes_ e)).
Local Abbreviation flags := (flags_at s at_start0 prev0).
Local Abbreviation cstep := (NfaPaths.cstep states acc (runes s) flags (offset s)).
Local Abbreviation active := (active e s at_start0 prev0).

Definition slots : nat := 2 * num_captures_ e.
Definition no_captures : Frame := replicate slots None.

Lemma slots_pos : (0 < slots)%nat.
Proof. unfold slots. lia. Qed.

(** The frame holds the captures of a run to the state. *)
Definition sound (i p frame : nat) (ctx : MatchContext) : Prop :=
  valid_frame slots ctx frame
  /\ rtc cstep (start_state_ e, 0%nat, no_captures) (p, i, capture_frame_data ctx frame).

Lemma sound_grows i p frame ctx ctx' :
  arena_ok slots ctx -> arena_ok slots ctx' -> grows ctx ctx' ->
  sound i p frame ctx -> sound i p frame ctx'.
Proof.
  intros H1 H2 Hg [Hv Hr]. split; [exact (grows_valid slots _ _ _ Hg Hv)|].
  by rewrite (grows_data slots ctx ctx').
Qed.

Definition terminal (t : nat) : Prop :=
  exists st, states !! t = Some st /\ is_epsilon (label st) = false.

Record traversal_inv (i : nat) (epoch : Z) (roots : nat -> Prop) (t : Traversal) : Prop := {
  tr_context : context_for n (traversal_context t);
  tr_epoch : epoch = epoch_counter (traversal_context t);
  tr_arena : arena_ok slots (traversal_context t);
  tr_threads : forall x frame, mkThread x frame ∈ threads t ->
    sound i x frame (traversal_context t);
  tr_pending : forall x frame, (Some x, frame) ∈ pending t ->
    sound i x frame (traversal_context t);
  tr_states : forall x, x ∈ map state (threads t) <->
    is_visited (traversal_context t) x epoch = true /\ terminal x;
  tr_explored : frames_full (traversal_context t) = false ->
    explored states (flags i) roots
      (fun x => is_visited (traversal_context t) x epoch = true) (map fst (pending t));
}.

Definition marked (t : Traversal) (x : nat) (epoch : Z) : MatchContext :=
  mark_visited (traversal_context t) x epoch.

(** Visiting a state that is not a capture. *)
Lemma capturing_turn_plain pos epoch f x frame st t :
  states !! x = Some st -> is_visited (traversal_context t) x epoch = false ->
  is_capture_open (label st) || is_capture_close (label st) = false ->
  capturing_turn e pos epoch f (Some x, frame) t
  = mkTraversal
      (if is_epsilon (label st) then threads t else threads t ++ [mkThread x frame])
      (map (fun p => (p, frame)) (eps_targets st f) ++ tail (pending t))
      (marked t x epoch).
Proof.
  intros Hst Hv Hc. cbn [capturing_turn]. rewrite Hst, (engine_index _ _ He _ _ Hst).
  cbn [traversal_context]. rewrite Hv.
  apply orb_false_iff in Hc as [Ho Hc]. rewrite Ho, Hc.
  unfold eps_targets, is_epsilon, is_conditional, flag_of, push_pending, marked. rewrite Ho, Hc.
  cbn [threads pending traversal_context orb].
  destruct (label st =? Split); [done|].
  destruct (label st =? WordBoundary); [by destruct (boundary f)|].
  destruct (label st =? StartAnchor); [by destruct (at_start f)|].
  destruct (label st =? EndAnchor); [by destruct (at_end f)|done].
Qed.

Definition capture_slot (l : Z) : nat :=
  if is_capture_open l then capture_index l * 2 else capture_index l * 2 + 1.

(** Visiting a capture. *)
Lemma capturing_turn_capture pos epoch f x frame st t :
  states !! x = Some st -> is_visited (traversal_context t) x epoch = false ->
  is_capture_open (label st) || is_capture_close (label st) = true ->
  capturing_turn e pos epoch f (Some x, frame) t
  = push_capture pos (mkTraversal (threads t) (tail (pending t)) (marked t x epoch))
      (next st) frame (capture_slot (label st)).
Proof.
  intros Hst Hv Hc. cbn [capturing_turn]. rewrite Hst, (engine_index _ _ He _ _ Hst).
  cbn [traversal_context]. rewrite Hv.
  assert ((label st =? Split) = false) as -> by (unfold_labels; lia). unfold capture_slot.
  destruct (is_capture_open (label st)); [done|]. cbn [orb] in Hc. by rewrite Hc.
Qed.

Lemma marked_ok t x epoch i roots : traversal_inv i epoch roots t -> (x < n)%nat ->
  context_for n (marked t x epoch)
  /\ forall y, is_visited (marked t x epoch) y epoch = true
               <-> y = x \/ is_visited (traversal_context t) y epoch = true.
Proof.
  intros Hinv Hx. pose proof (tr_context _ _ _ _ Hinv) as [H1 H2 H3].
  pose proof (tr_epoch _ _ _ _ Hinv) as Hep. split.
  - split; [|cbn; by rewrite length_insert|done].
    unfold context_ok. cbn. rewrite Hep. by apply stamps_ok_insert.
  - intros y. unfold is_visited. cbn [marked mark_visited set_visited visited_states].
    rewrite stamped_insert by lia. rewrite orb_true_iff, Nat.eqb_eq. done.
Qed.

Definition traversal_measure (epoch : Z) (t : Traversal) : nat :=
  length (pending t) + 2 * unstamped (visited_states (traversal_context t)) epoch.

(** What a turn does to the invariant, the measure and the arena. *)
Definition turn_ok (i : nat) (epoch : Z) (roots : nat -> Prop) (t t' : Traversal) : Prop :=
  traversal_inv i epoch roots t' /\ (traversal_measure epoch t' < traversal_measure epoch t)%nat
  /\ grows (traversal_context t) (traversal_context t').

Lemma turn_skip i epoch roots t p frame rest :
  traversal_inv i epoch roots t -> pending t = (p, frame) :: rest ->
  (forall x, p = Some x -> exists_state states x ->
     is_visited (traversal_context t) x epoch = true) ->
  turn_ok i epoch roots t (mkTraversal (threads t) rest (traversal_context t)).
Proof.
  intros [H1 H2 H3 H4 H5 H6 H7] Hp Hseen. split_and!; [|unfold traversal_measure; rewrite Hp; cbn; lia|apply grows_refl].
  split; cbn [threads pending traversal_context]; try done.
  - intros x fr Hin. apply H5. rewrite Hp. by right.
  - intros Hfull. specialize (H7 Hfull). rewrite Hp in H7. cbn in H7.
    by eapply explored_skip.
Qed.

Lemma cstep_of_eps i x st y c : states !! x = Some st -> Some y ∈ eps_targets st (flags i) ->
  cstep (x, i, c) (y, i, record_capture (offset s) (label st) i c).
Proof. intros. by econstructor. Qed.

Lemma sound_eps i x st y frame ctx frame' ctx' :
  sound i x frame ctx -> states !! x = Some st -> Some y ∈ eps_targets st (flags i) ->
  valid_frame slots ctx' frame' ->
  capture_frame_data ctx' frame'
    = record_capture (offset s) (label st) i (capture_frame_data ctx frame) ->
  sound i y frame' ctx'.
Proof.
  intros [_ Hr] Hst Hin Hv Hd. split; [done|]. rewrite Hd.
  eapply rtc_r; [exact Hr|by apply cstep_of_eps].
Qed.

Lemma capture_is_epsilon l : is_capture_open l || is_capture_close l = true ->
  is_epsilon l = true.
Proof. unfold_labels. lia. Qed.

Lemma capture_eps_targets st f : is_capture_open (label st) || is_capture_close (label st) = true ->
  eps_targets st f = [next st].
Proof.
  intros H. unfold eps_targets. rewrite H.
  by replace (label st =? Split) with false by (unfold_labels; lia).
Qed.

Lemma turn_plain i epoch roots t x frame rest st :
  traversal_inv i epoch roots t -> pending t = (Some x, frame) :: rest ->
  states !! x = Some st -> is_visited (traversal_context t) x epoch = false ->
  is_capture_open (label st) || is_capture_close (label st) = false ->
  turn_ok i epoch roots t
    (capturing_turn e (offset s i) epoch (flags i) (Some x, frame) t).
Proof.
  intros Hinv Hp Hst Hv Hc.
  assert (x < n)%nat as Hx by (by eapply lookup_lt_Some).
  destruct (marked_ok t x epoch i roots Hinv Hx) as [Hctx Hmark].
  pose proof Hinv as [[H1 H1l H1b] H2 H3 H4 H5 H6 H7].
  rewrite (capturing_turn_plain _ _ _ _ _ st) by done. rewrite Hp. cbn [tail].
  assert (sound i x frame (traversal_context t)) as Hsound by (apply H5; rewrite Hp; by left).
  pose proof (eps_targets_length (flags i) st). unfold is_visited in Hv.
  pose proof (unstamped_insert (visited_states (traversal_context t)) epoch x
    ltac:(lia) Hv) as Hun.
  split_and!; [|unfold traversal_measure; rewrite Hp; cbn [threads pending traversal_context marked
    mark_visited set_visited visited_states length]; rewrite length_app, length_map; lia
    |by exists []; rewrite app_nil_r].
  split; cbn [threads pending traversal_context]; try done.
  - intros y fr. destruct (is_epsilon (label st)) eqn:El; [by apply H4|].
    rewrite elem_of_app, list_elem_of_singleton. intros [?|[= -> ->]]; [by apply H4|done].
  - intros y fr [Hin|Hin]%elem_of_app.
    + apply list_elem_of_fmap in Hin as (p & [= <- ->] & Hin).
      eapply sound_eps; [exact Hsound|done|done|apply Hsound|].
      apply orb_false_iff in Hc as [??]. by rewrite no_capture_label.
    + apply H5. rewrite Hp. by right.
  - intros y. rewrite Hmark. destruct (is_epsilon (label st)) eqn:El.
    + rewrite H6. split; [intuition|]. intros [[->|?] Ht]; [|done].
      destruct Ht as (st' & ? & ?). simplify_eq. congruence.
    + rewrite map_app, elem_of_app, H6. cbn. rewrite list_elem_of_singleton.
      split; [|by intuition]. intros [[? ?]| -> ]; [by intuition|]. split; [by left|by exists st].
  - intros Hfull. rewrite map_app, map_map, map_id. eapply explored_visit; [|exact Hst|exact Hmark].
    specialize (H7 Hfull). by rewrite Hp in H7.
Qed.

(** Marking a capture state adds no thread state. *)
Lemma capture_states t x epoch st i roots :
  traversal_inv i epoch roots t -> (x < n)%nat -> states !! x = Some st ->
  is_capture_open (label st) || is_capture_close (label st) = true ->
  forall y, y ∈ map state (threads t) <-> is_visited (marked t x epoch) y epoch = true /\ terminal y.
Proof.
  intros Hinv Hx Hst Hc y. destruct (marked_ok t x epoch i roots Hinv Hx) as [_ Hmark].
  destruct Hinv as [_ _ _ _ _ H6 _]. rewrite Hmark, H6. split; [intuition|]. intros [[->|?] Ht]; [|done].
  destruct Ht as (st' & ? & ?). simplify_eq. rewrite capture_is_epsilon in *; done.
Qed.

(** A full arena drops the thread. *)
Lemma turn_capture_full i epoch roots t x frame rest st :
  traversal_inv i epoch roots t -> pending t = (Some x, frame) :: rest ->
  states !! x = Some st -> is_visited (traversal_context t) x epoch = false ->
  is_capture_open (label st) || is_capture_close (label st) = true ->
  frames_full (marked t x epoch) = true ->
  turn_ok i epoch roots t (mkTraversal (threads t) rest (marked t x epoch)).
Proof.
  intros Hinv Hp Hst Hv Hc Hfull. assert (x < n)%nat as Hx by (by eapply lookup_lt_Some).
  destruct (marked_ok t x epoch i roots Hinv Hx) as [Hctx Hmark].
  pose proof (capture_states _ _ _ _ _ _ Hinv Hx Hst Hc) as Hstates.
  pose proof Hinv as [[H1 H1l H1b] H2 H3 H4 H5 H6 H7]. unfold is_visited in Hv.
  pose proof (unstamped_insert (visited_states (traversal_context t)) epoch x ltac:(lia) Hv) as Hun.
  split_and!; [|unfold traversal_measure; rewrite Hp; cbn [threads pending traversal_context
    marked mark_visited set_visited visited_states length]; lia|by exists []; rewrite app_nil_r].
  split; cbn [threads pending traversal_context]; try done.
  - intros y fr Hin. apply H5. rewrite Hp. by right.
  - intros Hno. congruence.
Qed.

Lemma turn_capture i epoch roots t x frame rest st :
  traversal_inv i epoch roots t -> pending t = (Some x, frame) :: rest ->
  states !! x = Some st -> is_visited (traversal_context t) x epoch = false ->
  is_capture_open (label st) || is_capture_close (label st) = true ->
  turn_ok i epoch roots t
    (capturing_turn e (offset s i) epoch (flags i) (Some x, frame) t).
Proof.
  intros Hinv Hp Hst Hv Hc. assert (x < n)%nat as Hx by (by eapply lookup_lt_Some).
  rewrite (capturing_turn_capture _ _ _ _ _ st) by done. rewrite Hp. cbn [tail].
  destruct (frames_full (marked t x epoch)) eqn:Hfull.
  { unfold push_capture, clone_capture_frame. cbn [traversal_context]. rewrite Hfull.
    cbv beta iota delta [npos]. cbn [threads pending]. exact (turn_capture_full _ _ _ _ _ _ _ _ Hinv Hp Hst Hv Hc Hfull). }
  destruct (marked_ok t x epoch i roots Hinv Hx) as [Hctx Hmark].
  pose proof (capture_states _ _ _ _ _ _ Hinv Hx Hst Hc) as Hstates.
  pose proof Hinv as [[H1 H1l H1b] H2 H3 H4 H5 H6 H7].
  assert (sound i x frame (traversal_context t)) as Hsound by (apply H5; rewrite Hp; by left).
  unfold is_visited in Hv.
  pose proof (unstamped_insert (visited_states (traversal_context t)) epoch x ltac:(lia) Hv) as Hun.
  assert (capture_slot (label st) < slots)%nat as Hslot.
  { specialize (Hcaps x st Hst Hc). unfold capture_slot, slots. case_match; lia. }
  destruct (clone_write slots (marked t x epoch) frame (capture_slot (label st)) (offset s i)
    Hslot H3 (proj1 Hsound) Hfull) as (new & ctx1 & E1 & E & Ha & Hg & Hvalid & Hdata).
  unfold push_capture. cbn [threads pending traversal_context]. rewrite E1, E in *.
  set (ctx' := set_frames _ _ _) in *.
  split_and!; [|unfold traversal_measure; rewrite Hp; cbn [threads pending traversal_context
    marked mark_visited set_visited visited_states length ctx' set_frames]; lia|exact Hg].
  split; cbn [threads pending traversal_context]; try done.
  - by apply context_for_frames.
  - intros y fr Hin. eapply sound_grows; [exact H3|exact Ha|exact Hg|by apply H4].
  - intros y fr [[= Hy ->]|Hin]%elem_of_cons.
    + eapply sound_eps; [exact Hsound|done| |exact Hvalid|].
      * rewrite capture_eps_targets, Hy by done. by left.
      * rewrite Hdata. unfold record_capture, capture_slot, open_group, close_group.
        destruct (is_capture_open (label st)); [done|]. cbn [orb] in Hc. by rewrite Hc.
    + eapply sound_grows; [exact H3|exact Ha|exact Hg|]. apply H5. rewrite Hp. by right.
  - intros Hno. rewrite map_cons. cbn [fst].
    change (next st :: map fst rest) with ([next st] ++ map fst rest).
    rewrite <-(capture_eps_targets st (flags i)) by done.
    eapply explored_visit; [|exact Hst|exact Hmark].
    specialize (H7 Hfull). by rewrite Hp in H7.
Qed.

Lemma capturing_turn_ok i epoch roots t item rest :
  traversal_inv i epoch roots t -> pending t = item :: rest ->
  turn_ok i epoch roots t (capturing_turn e (offset s i) epoch (flags i) item t).
Proof.
  intros Hinv Hp. destruct item as [[x|] frame].
  2: { cbn [capturing_turn]. rewrite Hp. by eapply turn_skip. }
  destruct (states !! x) as [st|] eqn:Hst.
  2: { cbn [capturing_turn]. rewrite Hst, Hp. eapply turn_skip; [done..|].
       intros ? [= <-] [? ?]. congruence. }
  destruct (is_visited (traversal_context t) x epoch) eqn:Hv.
  { cbn [capturing_turn]. rewrite Hst, (engine_index _ _ He _ _ Hst). cbn [traversal_context].
    rewrite Hv, Hp. eapply turn_skip; [done..|]. by intros ? [= <-] _. }
  destruct (is_capture_open (label st) || is_capture_close (label st)) eqn:Hc.
  - by eapply turn_capture.
  - by eapply turn_plain.
Qed.

Lemma capturing_loop_ok i epoch roots fuel t :
  traversal_inv i epoch roots t -> (traversal_measure epoch t < fuel)%nat ->
  let t' := capturing_loop e (offset s i) epoch (flags i) fuel t in
  traversal_inv i epoch roots t' /\ pending t' = []
  /\ grows (traversal_context t) (traversal_context t').
Proof.
  revert t. induction fuel as [|fuel IH]; intros t Hinv Hm; [lia|]. cbn [capturing_loop].
  destruct (pending t) as [|item rest] eqn:Hp; [by split_and!; [| |apply grows_refl]|].
  destruct (capturing_turn_ok i epoch roots t item rest Hinv Hp) as (H1 & H2 & H3).
  destruct (IH _ H1 ltac:(lia)) as (H4 & H5 & H6). split_and!; [done|done|].
  by eapply grows_trans.
Qed.

(** Between two calls at the same position nothing is pending. *)
Definition gathered (i : nat) (epoch : Z) (roots : nat -> Prop)
    (tc : list Thread * MatchContext) : Prop :=
  traversal_inv i epoch roots (mkTraversal tc.1 [] tc.2).

Lemma gathered_iff i epoch (roots roots' : nat -> Prop) tc :
  (forall r, roots r <-> roots' r) -> gathered i epoch roots tc -> gathered i epoch roots' tc.
Proof.
  intros Heq [H1 H2 H3 H4 H5 H6 H7]. split; try done.
  intros Hfull. by eapply explored_roots_iff, H7.
Qed.

Lemma add_state_capturing_ok i epoch roots tc target frame :
  gathered i epoch roots tc -> (forall x, target = Some x -> sound i x frame tc.2) ->
  let tc' := add_state_capturing e (offset s i) epoch (flags i) tc.1 target frame tc.2 in
  gathered i epoch (fun r => target = Some r \/ roots r) tc' /\ grows tc.2 tc'.2.
Proof.
  intros [H1 H2 H3 H4 H5 H6 H7] Hsound. unfold add_state_capturing.
  destruct (capturing_loop_ok i epoch (fun r => target = Some r \/ roots r) (2 * n + 2)
    (mkTraversal tc.1 [(target, frame)] tc.2)) as (Hinv & Hp & Hg).
  - split; cbn [threads pending traversal_context] in *; try done.
    + intros x fr Hin%list_elem_of_singleton. injection Hin as Hx ->. by apply Hsound.
    + intros Hfull. cbn [map fst]. apply explored_start. by apply H7.
  - unfold traversal_measure. cbn [pending traversal_context length].
    pose proof (unstamped_le (visited_states tc.2) epoch). pose proof (context_length _ _ H1).
    cbn in *. lia.
  - cbv zeta. split; [|exact Hg]. unfold gathered. cbn [fst snd].
    set (t' := capturing_loop _ _ _ _ _ _) in *. clearbody t'. destruct t' as [ts p ctx].
    cbn in Hp |- *. by rewrite Hp in Hinv.
Qed.

(** * One step *)

Definition threads_ok (i : nat) (ts : list Thread) (ctx : MatchContext) : Prop :=
  forall x frame, mkThread x frame ∈ ts -> sound i x frame ctx /\ terminal x.

Definition successor (rune : Z) (u v : nat) : Prop :=
  exists st, states !! u = Some st /\ acc (label st) rune = true /\ next st = Some v.

Lemma step_thread_ok i rune epoch roots tc ctx0 u frame :
  runes s !! i = Some rune -> gathered (S i) epoch roots tc ->
  arena_ok slots ctx0 -> grows ctx0 tc.2 -> sound i u frame ctx0 -> terminal u ->
  let tc' := step_thread e rune (offset s (S i)) epoch (flags (S i)) tc (mkThread u frame) in
  gathered (S i) epoch (fun v => successor rune u v \/ roots v) tc' /\ grows ctx0 tc'.2.
Proof.
  intros Hr Hg Ha Hgrow Hsound (st & Hst & Hne). unfold step_thread. destruct tc as [ts ctx].
  cbn [state caps_frame snd] in *. rewrite Hst.
  pose proof (runes_bounds s Hbytes i rune Hr) as Hb.
  rewrite (engine_accepts _ _ He u st rune Hst Hne Hb).
  destruct (acc (label st) rune) eqn:Hacc.
  - destruct (add_state_capturing_ok (S i) epoch roots (ts, ctx) (next st) frame Hg) as [H1 H2].
    + intros v Hv. pose proof (sound_grows i u frame ctx0 ctx Ha (tr_arena _ _ _ _ Hg) Hgrow Hsound)
        as [Hvalid Hrun]. split; [done|]. eapply rtc_r; [exact Hrun|]. by eapply cstep_rune.
    + split; [|by eapply grows_trans]. eapply gathered_iff; [|exact H1].
      intros v. unfold successor. split; [intros [Hv|?]; [left|by right]|intros [Hv|?]; [left|by right]].
      * by exists st.
      * destruct Hv as (st' & ? & _ & ?). by simplify_eq.
  - split; [|done]. eapply gathered_iff; [|exact Hg]. intros v. split; [by right|].
    intros [(st' & ? & ? & _)|?]; [simplify_eq; congruence|done].
Qed.

Lemma step_threads_ok i rune epoch roots ts tc ctx0 :
  runes s !! i = Some rune -> gathered (S i) epoch roots tc ->
  arena_ok slots ctx0 -> grows ctx0 tc.2 -> threads_ok i ts ctx0 ->
  let tc' := foldl (step_thread e rune (offset s (S i)) epoch (flags (S i))) tc ts in
  gathered (S i) epoch (fun v => (exists u, u ∈ map state ts /\ successor rune u v) \/ roots v) tc'
  /\ grows ctx0 tc'.2.
Proof.
  intros Hr. revert roots tc. induction ts as [|[u frame] ts IH]; intros roots tc Hg Ha Hgrow Hts.
  - cbn. split; [|done]. eapply gathered_iff; [|exact Hg]. intros v. split; [by right|].
    intros [(u & Hu & _)|?]; [by apply elem_of_nil in Hu|done].
  - destruct (Hts u frame ltac:(by left)) as [Hsound Hterm]. cbn [foldl].
    destruct (step_thread_ok i rune epoch roots tc ctx0 u frame Hr Hg Ha Hgrow Hsound Hterm)
      as [H1 H2].
    destruct (IH _ _ H1 Ha H2) as [H3 H4]; [intros x fr Hin; apply Hts; by right|].
    split; [|done]. eapply gathered_iff; [|exact H3]. intros v. cbn [map state].
    setoid_rewrite elem_of_cons. split.
    + intros [(x & ? & ?)|[?|?]]; eauto.
    + intros [(x & [->|?] & ?)|?]; eauto.
Qed.

(** * The loop *)

Local Abbreviation best_upto := (best_upto e pattern s at_start0 prev0).
Local Abbreviation matches := (matches e pattern s at_start0 prev0).

Lemma sound_active i x frame ctx : sound i x frame ctx -> terminal x -> active i x.
Proof. intros [_ Hr] Ht. split; [by eapply crun_run|done]. Qed.

Definition full (ctx : MatchContext) : bool := frames_full ctx.

(** The best accept so far comes with the frame of a match that ends there. *)
Definition best_sound (i : nat) (b : option nat * option nat) (ctx : MatchContext) : Prop :=
  match b with
  | (Some p, Some frame) => exists k, p = offset s k /\ sound k accept_state frame ctx
  | (None, _) => True
  | (Some _, None) => False
  end.

(** The threads of position [i]. *)
Record frontier (i : nat) (ts : list Thread) (ctx : MatchContext) : Prop := {
  fr_context : context_for n ctx;
  fr_arena : arena_ok slots ctx;
  fr_threads : threads_ok i ts ctx;
  fr_complete : full ctx = false -> forall t, t ∈ map state ts <-> active i t;
}.

Lemma gathered_frontier i epoch roots tc :
  gathered i epoch roots tc ->
  (full tc.2 = false -> forall t, reach states (flags i) roots t /\ terminal t <-> active i t) ->
  frontier i tc.1 tc.2.
Proof.
  intros [H1 H2 H3 H4 H5 H6 H7] Hreach. cbn in *. split; try done.
  - intros x frame Hin. split; [by apply H4|]. apply (H6 x).
    apply list_elem_of_fmap. by exists (mkThread x frame).
  - intros Hfull t. rewrite H6, <-(Hreach Hfull). split; intros [Hx Ht]; (split; [|done]).
    + by apply (explored_seen _ _ _ _ _ (H7 Hfull)).
    + apply (explored_done _ _ _ _ _ (H7 Hfull)); [|done].
      destruct Ht as (st & Hst & _). by eexists.
Qed.

Lemma start_frontier epoch ctx frame :
  context_for n ctx -> epoch = epoch_counter ctx -> arena_ok slots ctx ->
  (forall x, is_visited ctx x epoch = false) -> valid_frame slots ctx frame ->
  capture_frame_data ctx frame = no_captures ->
  let tc := add_state_capturing e 0 epoch (flags 0) [] (Some (start_state_ e)) frame ctx in
  frontier 0 tc.1 tc.2 /\ grows ctx tc.2.
Proof.
  intros Hctx Hep Ha Hnone Hv Hdata.
  assert (gathered 0 epoch (fun _ => False) ([], ctx)) as Hg.
  { split; cbn [threads pending traversal_context fst snd]; try done.
    - by intros x fr ?%elem_of_nil.
    - by intros x fr ?%elem_of_nil.
    - intros x. cbn. rewrite Hnone. split; [by intros ?%elem_of_nil|by intros [? _]].
    - intros _. apply explored_empty; [intros x; by rewrite Hnone|by intros ? []]. }
  destruct (add_state_capturing_ok 0 epoch (fun _ => False) ([], ctx) (Some (start_state_ e)) frame Hg)
    as [H1 H2].
  { intros x [= <-]. split; [done|]. cbn [snd]. rewrite Hdata. constructor. }
  cbn [fst snd] in *. split; [|exact H2]. eapply gathered_frontier; [exact H1|].
  intros _ t. rewrite active_first. unfold ends_in. split.
  - by intros [(r & [[= <-]|[]] & Hr) Ht].
  - intros [Hr Ht]. split; [|done]. exists (start_state_ e). split; [by left|done].
Qed.

Lemma step_frontier i rune ts ctx :
  frontier i ts ctx -> runes s !! i = Some rune ->
  let '(epoch, ctx') := advance_epoch ctx in
  let tc := foldl (step_thread e rune (offset s (S i)) epoch (flags (S i))) ([], ctx') ts in
  frontier (S i) tc.1 tc.2 /\ grows ctx tc.2.
Proof.
  intros [H1 H2 H3 H4] Hr. pose proof (advance_epoch_ok n ctx H1) as Hadv.
  unfold advance_epoch in *. destruct (advance_stamp _ _) as [epoch' stamps].
  set (ctx' := set_visited ctx epoch' stamps) in *.
  destruct Hadv as (Hc & Hep & _ & Hnone).
  assert (gathered (S i) epoch' (fun _ => False) ([], ctx')) as Hg.
  { split; cbn [threads pending traversal_context fst snd]; try done.
    - by intros x fr ?%elem_of_nil.
    - by intros x fr ?%elem_of_nil.
    - intros x. unfold is_visited. rewrite Hnone. split; [by intros ?%elem_of_nil|by intros [? _]].
    - intros _. apply explored_empty; [|by intros ? []]. intros x. unfold is_visited. by rewrite Hnone. }
  destruct (step_threads_ok i rune epoch' (fun _ => False) ts ([], ctx') ctx Hr Hg H2
    (grows_refl _) H3) as [H5 H6].
  cbv zeta. split; [|exact H6]. eapply gathered_frontier; [exact H5|].
  intros Hfull t. assert (full ctx = false) as Hfull0.
  { eapply grows_full; [exact H2|apply (tr_arena _ _ _ _ H5)|exact H6|exact Hfull]. }
  rewrite active_next. unfold reach, ends_in, successor. split.
  - intros [(v & [(u & Hu & st & ? & ? & ?)|[]] & Hv) Ht]. exists u, v, st, rune.
    split_and!; try done. by apply H4.
  - intros (u & v & st & r & Hu & ? & ? & ? & ? & Hv & Ht). simplify_eq. split; [|done].
    exists v. split; [|done]. left. exists u. split; [by apply H4|]. by exists st.
Qed.

Lemma check_accept_spec ts p b :
  (accept_state ∈ map state ts /\ exists frame, mkThread accept_state frame ∈ ts
    /\ check_accept ts p b = (Some p, Some frame))
  \/ (~ accept_state ∈ map state ts /\ check_accept ts p b = b).
Proof.
  induction ts as [|[x frame] ts IH]; [right; split; [apply not_elem_of_nil|done]|].
  cbn [check_accept map state]. destruct (Nat.eqb_spec x accept_state) as [->|Hne].
  - left. split; [by left|]. exists frame. split; [by left|done].
  - destruct IH as [(Hin & fr & Hth & E)|[Hin E]]; [left|right].
    + split; [by right|]. exists fr. split; [by right|done].
    + split; [|done]. intros [Heq|?]%elem_of_cons; [by symmetry in Heq|done].
Qed.

(** The accept test keeps the best sound and, while frames last, complete. *)
Lemma check_accept_ok i ts ctx b :
  frontier i ts ctx -> best_sound i b ctx ->
  best_sound i (check_accept ts (offset s i) b) ctx
  /\ (full ctx = false ->
      (check_accept ts (offset s i) b).1
      = if is_match (map state ts) then Some (offset s i) else b.1).
Proof.
  intros [H1 H2 H3 H4] Hb.
  assert (is_match (map state ts) = true <-> accept_state ∈ map state ts) as Hm.
  { unfold is_match. rewrite existsb_exists. setoid_rewrite <-list_elem_of_In. split.
    - intros (x & Hx & Heq%Nat.eqb_eq). by subst x.
    - intros Hin. exists accept_state. by split. }
  destruct (check_accept_spec ts (offset s i) b) as [(Hin & fr & Hth & ->)|[Hin ->]].
  - split; [exists i; split; [done|by apply H3]|]. intros _.
    by rewrite (proj2 Hm Hin).
  - split; [done|]. intros _. destruct (is_match _); [by exfalso; apply Hin, Hm|done].
Qed.

Lemma best_sound_grows i j b ctx ctx' :
  arena_ok slots ctx -> arena_ok slots ctx' -> grows ctx ctx' ->
  best_sound i b ctx -> best_sound j b ctx'.
Proof.
  intros H1 H2 Hg. destruct b as [[p|] [frame|]]; cbn; try done.
  intros (k & -> & Hs). exists k. split; [done|]. exact (sound_grows _ _ _ _ _ H1 H2 Hg Hs).
Qed.

Record capture_inv (i : nat) (l : CaptureLoop) : Prop := {
  cl_bound : (i <= length (spans s))%nat;
  cl_pos : cap_pos l = offset s i;
  cl_more : cap_has_rune l = (offset s i <? length s)%nat;
  cl_rune : (offset s i < length s)%nat ->
    decode_rune s (offset s i) = (cap_rune l, cap_rune_bytes l);
  cl_word : cap_next_is_word l = word_after s i;
  cl_frontier : frontier i (current_threads l) (cap_context l);
  cl_sound : best_sound i (cap_best l) (cap_context l);
  cl_best : full (cap_context l) = false -> best_upto i (cap_best l).1;
}.

Lemma capture_start_ok ctx frame :
  context_for n ctx -> arena_ok slots ctx -> valid_frame slots ctx frame ->
  capture_frame_data ctx frame = no_captures ->
  let l := capture_start e s frame ctx at_start0 prev0 in
  capture_inv 0 l /\ grows ctx (cap_context l).
Proof.
  intros Hctx Ha Hv Hdata. unfold capture_start.
  pose proof (word_here s Hbytes 0 ltac:(lia)) as Hw. rewrite offset_0 in Hw.
  pose proof (at_end_here s Hbytes 0 ltac:(lia)) as Hend. rewrite offset_0 in Hend.
  destruct (decode_rune s 0) as [rune bytes] eqn:Hd. cbn [fst] in Hw.
  assert ((length s =? 0)%nat = negb (0 <? length s)%nat) as Hempty by (destruct s; done).
  rewrite Hempty, negb_involutive, <-Hw.
  replace (mkFlags _ at_start0 _) with (flags 0).
  2: { unfold flags_at. cbn [word_before Nat.eqb andb]. f_equal.
       rewrite Hend. by destruct s. }
  pose proof (advance_epoch_ok n ctx Hctx) as Hadv. unfold advance_epoch in *.
  destruct (advance_stamp _ _) as [epoch' stamps].
  set (ctx' := set_visited ctx epoch' stamps) in *. destruct Hadv as (Hc & Hep & _ & Hnone).
  destruct (start_frontier epoch' ctx' frame Hc Hep Ha) as [H1 H2]; [done..|].
  destruct (add_state_capturing _ _ _ _ _ _ _ _) as [ts ctx''] eqn:E. cbn [fst snd] in H1, H2.
  destruct (check_accept_ok 0 ts ctx'' (npos, npos) H1 I) as [H3 H4]. rewrite offset_0 in *.
  cbv zeta. split; [|exact H2].
  split; cbn [cap_pos cap_has_rune cap_rune cap_rune_bytes cap_next_is_word current_threads
    cap_context cap_best]; rewrite ?offset_0; try done.
  - lia.
  - intros Hlt. by rewrite (proj2 (Nat.ltb_lt _ _) Hlt).
  - intros Hfull. rewrite (H4 Hfull). apply (best_first e pattern He s Hbytes at_start0 prev0).
    by apply (fr_complete _ _ _ H1).
Qed.

Lemma capture_turn_ok i l : capture_inv i l -> cap_has_rune l = true ->
  capture_inv (S i) (capture_turn e s l) /\ grows (cap_context l) (cap_context (capture_turn e s l)).
Proof.
  intros [Hb Hp Hm Hr Hw Hf Hsound Hbest] Hcur. rewrite Hm in Hcur. apply Nat.ltb_lt in Hcur.
  destruct (rune_here s Hbytes i Hb Hcur) as (Hspan & Hoff & Hb').
  specialize (Hr Hcur). rewrite Hr in Hspan, Hoff. cbn [snd] in Hoff.
  assert (runes s !! i = Some (cap_rune l)) as Hrune by (by rewrite runes_lookup, Hspan).
  unfold capture_turn. rewrite Hp, <-Hoff.
  pose proof (word_here s Hbytes (S i) Hb') as Hw'.
  pose proof (at_end_here s Hbytes (S i) Hb') as Hend.
  destruct (if (offset s (S i) <? length s)%nat then _ else _) as [rune bytes] eqn:Hd.
  assert ((offset s (S i) <? length s)%nat && is_word_char rune = word_after s (S i)) as Hword.
  { rewrite Hw'. destruct (offset s (S i) <? length s)%nat; [by rewrite Hd|done]. }
  rewrite Hword, Hw, <-Hend.
  change (mkFlags _ false _) with (flags (S i)).
  pose proof (step_frontier i (cap_rune l) (current_threads l) (cap_context l) Hf Hrune) as Hs.
  destruct (advance_epoch (cap_context l)) as [epoch' ctx']. cbv zeta in Hs.
  destruct (foldl _ _ _) as [ts ctx'']. cbn [fst snd] in Hs. destruct Hs as [H1 H2].
  pose proof (best_sound_grows i (S i) (cap_best l) _ _ (fr_arena _ _ _ Hf) (fr_arena _ _ _ H1)
    H2 Hsound) as Hsound'.
  destruct (check_accept_ok (S i) ts ctx'' (cap_best l) H1 Hsound') as [H3 H4].
  split; [|exact H2].
  split; cbn [cap_pos cap_has_rune cap_rune cap_rune_bytes cap_next_is_word current_threads
    cap_context cap_best]; try done.
  - intros Hlt. by rewrite (proj2 (Nat.ltb_lt _ _) Hlt) in Hd.
  - intros Hfull. rewrite (H4 Hfull). apply (best_next e pattern He s Hbytes at_start0 prev0).
    + by apply (fr_complete _ _ _ H1).
    + apply Hbest. eapply grows_full; [apply Hf|apply H1|exact H2|exact Hfull].
Qed.

Local Abbreviation longest := (longest e pattern s at_start0 prev0).

(** What the loop leaves. *)
Definition capture_result (l : CaptureLoop) : Prop :=
  context_for n (cap_context l) /\ best_sound 0 (cap_best l) (cap_context l)
  /\ (full (cap_context l) = false -> longest (cap_best l).1).

Lemma capture_inv_result i l : capture_inv i l ->
  (full (cap_context l) = false -> forall m t, (i < m)%nat -> ~ active m t) -> capture_result l.
Proof.
  intros Hinv Hlate. split_and!; [apply Hinv|apply (cl_sound _ _ Hinv)|].
  intros Hfull. eapply (best_longest e pattern He s Hbytes at_start0 prev0 i).
  - by apply (cl_best _ _ Hinv).
  - intros m Hm. by apply (Hlate Hfull).
Qed.

Lemma capture_loop_ok fuel i l : capture_inv i l -> (length s - offset s i <= fuel)%nat ->
  capture_result (capture_loop fuel e s l).
Proof.
  revert i l. induction fuel as [|fuel IH]; intros i l Hinv Hf; cbn [capture_loop].
  - apply (capture_inv_result i); [done|]. intros _ m t Hm. apply inactive_past.
    rewrite length_runes. by rewrite <-(rune_end s Hbytes i (cl_bound _ _ Hinv)) by lia.
  - pose proof (cl_more _ _ Hinv) as Hmore.
    destruct (cap_has_rune l) eqn:Hcur; cbn [andb]; symmetry in Hmore.
    + apply Nat.ltb_lt in Hmore.
      destruct (Nat.eqb_spec (length (current_threads l)) 0) as [Hz|]; cbn [negb].
      * apply (capture_inv_result i); [done|]. intros Hfull m t Hm.
        apply (inactive_after e s at_start0 prev0 i); [|lia]. intros x Hx.
        apply (fr_complete _ _ _ (cl_frontier _ _ Hinv) Hfull) in Hx.
        apply nil_length_inv in Hz. rewrite Hz in Hx. by apply elem_of_nil in Hx.
      * apply (IH (S i)); [by apply capture_turn_ok|].
        destruct (rune_here s Hbytes i (cl_bound _ _ Hinv) Hmore) as (_ & _ & ?).
        pose proof (offset_mono s Hbytes i (S i) ltac:(lia)). lia.
    + apply Nat.ltb_ge in Hmore. apply (capture_inv_result i); [done|].
      intros _ m t Hm. apply inactive_past. rewrite length_runes.
      by rewrite <-(rune_end s Hbytes i (cl_bound _ _ Hinv) Hmore).
Qed.

(** A sound accept thread is a match with its captures. *)
Lemma sound_captures k frame ctx : sound k accept_state frame ctx ->
  pattern_capture acc (runes s) flags (offset s) pattern 0 k no_captures
    (capture_frame_data ctx frame).
Proof.
  intros [_ Hr].
  assert (forall j r, runes s !! j = Some r -> acc Match r = false) as Hdead
    by (intros j r; by apply accepts_match).
  pose proof (engine_pattern _ _ He) as Hp. destruct pattern as [r|]; cbn [pattern_ok] in Hp.
  - destruct Hp as [Hok Hsub]. cbn. eapply run_captures; [exact Hdead|apply He|done|exact Hsub|done].
  - cbn. rewrite Hp in Hr. inversion Hr as [|? [[x j] c] ? Hstep]; subst; [done|].
    exfalso. eapply accept_stuck; [exact Hdead|apply He|by eapply cstep_step].
Qed.

(** The search with captures: sound in any case, complete while frames last. *)
Lemma capturing_spec self ctx :
  context_ok ctx ->
  let '(b, captures, ctx') := find_prefix_with_context self e s ctx at_start0 prev0 in
  context_ok ctx'
  /\ (frames_full ctx' = false -> longest b)
  /\ match b with
     | Some p => exists k frame, p = offset s k
         /\ pattern_capture acc (runes s) flags (offset s) pattern 0 k no_captures frame
         /\ captures = frame_captures (num_captures_ e) frame
     | None => captures = []
     end.
Proof.
  intros Hctx. unfold find_prefix_with_context. rewrite (engine_ok _ _ He). cbn [negb orb].
  destruct (Nat.eqb_spec (num_captures_ e) 0) as [Hz|_]; [lia|].
  rewrite (engine_count _ _ He).
  pose proof (bind_engine_ok ctx self n Hctx) as Hbind.
  set (ctx0 := reset_capture_frames _ _).
  assert (context_for n ctx0) as H0 by (by apply context_for_frames).
  unfold allocate_capture_frame. destruct (frames_full ctx0) eqn:Hfull.
  { split_and!; [apply H0|congruence|done]. }
  cbn [ctx0 reset_capture_frames set_frames capture_frames capture_frame_slots length app].
  set (ctx1 := set_frames _ _ _). fold slots in ctx1 |- *. rewrite Nat.Div0.div_0_l.
  destruct (capture_start_ok ctx1 0) as [Hstart _].
  - by apply context_for_frames.
  - split; [done|]. exists 1%nat. cbn. rewrite length_replicate. lia.
  - unfold valid_frame. cbn. rewrite length_replicate. lia.
  - unfold capture_frame_data. cbn. rewrite drop_0. apply take_ge. by rewrite length_replicate.
  - destruct (capture_loop_ok (length s) 0 _ Hstart ltac:(lia)) as (H1 & H2 & H3).
    set (l := capture_loop _ _ _ _) in *. unfold full in H3.
    destruct (cap_best l) as [[p|] [frame|]] eqn:Hbest; cbn [best_sound fst] in H2, H3.
    + destruct H2 as (k & -> & Hs). split_and!; [apply H1|done|].
      exists k, (capture_frame_data (cap_context l) frame). split_and!; [done| |done].
      by apply sound_captures.
    + done.
    + split_and!; [apply H1|done|done].
    + split_and!; [apply H1|done|done].
Qed.
End Capturing.
