(* ===== verification/Engine.v ===== *)
(** [class RegexEngine] as its callers see it: the constructor, [match],
    [find_prefix], [search] and [first_char_info] of
    [include/trieste/regex_engine.h]. *)

From S2P Require Import Prelude Utf8 AsciiBitmap RuneClass RegexSyntax PostfixBuilder.
From S2P Require Import RegexSpec.
From S2P Require Import Nfa.
From S2P Require Import NfaPaths.
From S2P Require Import Exploration.
From S2P Require Import Closure.
From S2P Require Import ClosureCache.
From S2P Require Import MatchContext.
From S2P Require Import Simulate.
From S2P Require Import Capture.

(** * First characters *)

Definition first_char_test (info : FirstCharInfo) (byte : Z) : bool :=
  if negb (is_ascii byte) then can_match_nonascii info else bitmap_test (bitmap info) byte.

Definition minimal : FirstCharInfo := mkFirstChar bitmap_zero false false.
Definition maximal : FirstCharInfo :=
  mkFirstChar (mkBitmap (2 ^ 64 - 1) (2 ^ 64 - 1)) true true.

(** What one state of a closure adds. *)
Definition first_char_state (e : RegexEngine) (info : FirstCharInfo) (s : nat) : FirstCharInfo :=
  match owned_states_ e !! s with
  | None => info
  | Some st =>
      if (s =? accept_state)%nat then mkFirstChar (bitmap info) true (can_match_nonascii info)
      else
        let bm := bitmap_or (bitmap info) (ascii_accept st) in
        let nonascii :=
          if is_class_ref (label st) then
            existsb (fun rg => 128 <=? rg.2)
              (ranges (nth (class_ref_index (label st)) (rune_classes_ e) empty_class))
          else (128 <=? label st) && negb (label st =? Match) in
        mkFirstChar bm (can_match_empty info) (can_match_nonascii info || nonascii)
  end.

Definition combo_flags (e : RegexEngine) (combo : Z) : Flags :=
  mkFlags (has_conditionals_ e && negb (Z.land combo 1 =? 0))
    (if has_conditionals_ e then negb (Z.land combo 2 =? 0) else true)
    (has_conditionals_ e && negb (Z.land combo 4 =? 0)).

Definition compute_first_char_info (e : RegexEngine) : FirstCharInfo :=
  if negb (ok e) then maximal
  else
    let num_combos := if has_conditionals_ e then ClosureFlagCombinations else 1 in
    foldl (fun info combo =>
        foldl (first_char_state e) info
          (epsilon_closure_cached e (Some (start_state_ e)) (combo_flags e combo)))
      minimal (seqZ 0 num_combos).

(** * Construction *)

(** The engine after [postfix_to_nfa], before the passes over its states. *)
Definition thompson (code : ErrorCode) (pr : ParseResult) (mode : SyntaxMode) : RegexEngine :=
  let postfix := parse_postfix pr in
  let nfa0 := initial_nfa postfix in
  let nfa0 := mkNfa (Nfa.owned_states nfa0) (capacity nfa0) code in
  let '(start, nfa) := postfix_to_nfa postfix nfa0 in
  mkEngine start (nfa_error nfa) false (Z.to_nat (parse_captures pr)) 0 mode
    (Nfa.owned_states nfa) (parse_classes pr) [] [] minimal.

(** [RegexEngine(utf8_regexp, syntax_mode)]; a pattern that does not parse leaves
    no postfix, no classes and no captures. *)
Definition new_engine (utf8_regexp : list Z) (mode : SyntaxMode) : RegexEngine :=
  let e :=
    match regexp_to_postfix_runes utf8_regexp mode with
    | inl code => thompson code (mkParse [] [] 0) mode
    | inr pr => thompson NoError pr mode
    end in
  let e := detect_conditional_states e in
  let e := precompute_epsilon_closures e in
  let e := finalize_states e in
  set_first_char_info e (compute_first_char_info e).

(** * Matching *)

(** The byte length of the longest prefix that matches. *)
Definition find_prefix (self : nat) (e : RegexEngine) (utf8_str : list Z) (ctx : MatchContext)
    (at_start : bool) : option nat * MatchContext :=
  find_prefix_noncapturing_with_context self e utf8_str ctx at_start false.

Definition find_prefix_captures (self : nat) (e : RegexEngine) (utf8_str : list Z)
    (ctx : MatchContext) (at_start : bool) : option nat * list Capture * MatchContext :=
  find_prefix_with_context self e utf8_str ctx at_start false.

(** [match] *)
Definition full_match (self : nat) (e : RegexEngine) (utf8_str : list Z) (ctx : MatchContext) :
    bool * MatchContext :=
  let '(b, ctx) := find_prefix self e utf8_str ctx true in
  (bool_decide (b = Some (length utf8_str)), ctx).

(** * Searching *)

Record SearchResult := mkSearch { match_start_ : option nat; match_len : nat }.

Definition not_found : SearchResult := mkSearch npos 0.

Definition shift_capture (probe : nat) (c : Capture) : Capture :=
  match c.1 with
  | Some start => (Some (start + probe)%nat, option_map (fun x => x + probe)%nat c.2)
  | None => c
  end.

(** Whether a word character ends at [probe - 1]. *)
Definition word_before_byte (utf8_str : list Z) (probe : nat) : bool :=
  (0 <? probe)%nat && is_word_char (nth (probe - 1) utf8_str 0).

(** The loop over the probes; each one moves on by the bytes of a rune, so the
    bytes left and one more turn are enough fuel. *)
Fixpoint search_loop (fuel : nat) (self : nat) (e : RegexEngine) (utf8_str : list Z)
    (probe : nat) (ctx : MatchContext) : SearchResult * list Capture * MatchContext :=
  match fuel with
  | O => (not_found, [], ctx)
  | S fuel =>
      if (length utf8_str <? probe)%nat then (not_found, [], ctx)
      else
        let suffix := drop probe utf8_str in
        let '(len, captures, ctx) :=
          find_prefix_with_context self e suffix ctx (probe =? 0)%nat
            (word_before_byte utf8_str probe) in
        match len with
        | Some len => (mkSearch (Some probe) len, map (shift_capture probe) captures, ctx)
        | None =>
            if (probe <? length utf8_str)%nat then
              search_loop fuel self e utf8_str (probe + (decode_rune utf8_str probe).2) ctx
            else (not_found, captures, ctx)
        end
  end.

Definition search (self : nat) (e : RegexEngine) (utf8_str : list Z) (ctx : MatchContext)
    (start_pos : nat) : SearchResult * list Capture * MatchContext :=
  if negb (ok e) then (not_found, [], ctx)
  else search_loop (S (length utf8_str - start_pos)) self e utf8_str start_pos ctx.
