(* ===== verification/EngineFacts.v ===== *)
(** The constructor builds engines the simulations are right about: every
    successfully constructed engine is an [engine_for] the tree its pattern parses
    to. *)

From S2P Require Import Prelude.
From S2P Require Import Utf8.
From S2P Require Import AsciiBitmap.
From S2P Require Import RuneClass.
From S2P Require Import RegexSyntax.
From S2P Require Import PostfixBuilder.
From S2P Require Import ParserFacts.
From S2P Require Import RegexSpec.
From S2P Require Import Nfa.
From S2P Require Import NfaPaths.
From S2P Require Import Exploration.
From S2P Require Import Closure.
From S2P Require Import ClosureCache.
From S2P Require Import MatchContext.
From S2P Require Import Simulate.
From S2P Require Import Capture.
From S2P Require Import Engine.

(** * The tree of a pattern *)

(** All groups of a tree are below [n]. *)
Fixpoint groups_below (n : nat) (r : re) : Prop :=
  match r with
  | Label _ => True
  | Cat r1 r2 | Alt r1 r2 => groups_below n r1 /\ groups_below n r2
  | Quant _ _ r => groups_below n r
  | Group idx r => (idx < n)%nat /\ groups_below n r
  end.

(** [None] when the tokens are not the postfix form of a tree; the empty sequence
    is the pattern that matches the empty string only. *)
Definition pattern_of (pr : ParseResult) : option (option re) :=
  match parse_postfix pr with
  | [] => Some None
  | tokens => Some <$> re_of_postfix tokens
  end.

Lemma re_token_ok classes captures t stack stack' :
  token_ok classes captures t -> captures <= MaxCaptures ->
  Forall (fun r => re_ok r /\ groups_below (Z.to_nat captures) r) stack ->
  re_token t stack = Some stack' ->
  Forall (fun r => re_ok r /\ groups_below (Z.to_nat captures) r) stack'.
Proof.
  intros Ht Hc Hs. unfold re_token.
  destruct (t =? Catenation) eqn:E1.
  { destruct stack as [|r2 [|r1 rest]]; [done..|]. rewrite !Forall_cons in Hs.
    intros [= <-]. constructor; cbn; tauto. }
  destruct (t =? Alternation) eqn:E2.
  { destruct stack as [|r2 [|r1 rest]]; [done..|]. rewrite !Forall_cons in Hs.
    intros [= <-]. constructor; cbn; tauto. }
  destruct (quantifier_token t) as [[kind lazy]|] eqn:E3.
  { destruct stack as [|r rest]; [done|]. rewrite !Forall_cons in Hs.
    intros [= <-]. constructor; cbn; tauto. }
  destruct (is_capture_group t) eqn:E4.
  - destruct stack as [|r rest]; [done|]. rewrite !Forall_cons in Hs. intros [= <-].
    constructor; [|tauto]. cbn. unfold is_capture_group in E4.
    assert (t < CaptureGroup + captures).
    { destruct Ht as [[Ha _]|[Ho|?]]; [|unfold is_operator in Ho; rewrite E1, E2, E3 in Ho; done|lia].
      exfalso. destruct (atom_not_operator _ Ha) as (_ & _ & _ & E). unfold is_capture_group in E. lia. }
    split; [split; [lia|tauto]|split; [lia|tauto]].
  - intros [= <-]. constructor; [|done]. cbn. split; [|done].
    destruct Ht as [[? _]|[Ho|?]]; [done| |].
    + unfold is_operator in Ho. rewrite E1, E2, E3 in Ho. done.
    + exfalso. unfold is_capture_group in E4. lia.
Qed.

Lemma re_tokens_ok classes captures tokens stack stack' :
  Forall (token_ok classes captures) tokens -> captures <= MaxCaptures ->
  Forall (fun r => re_ok r /\ groups_below (Z.to_nat captures) r) stack ->
  re_tokens tokens stack = Some stack' ->
  Forall (fun r => re_ok r /\ groups_below (Z.to_nat captures) r) stack'.
Proof.
  intros Ht Hc. revert stack. induction Ht as [|t tokens Ht _ IH]; intros stack Hs; cbn; [by intros [= <-]|].
  destruct (re_token t stack) as [stack1|] eqn:E; [|done]. apply IH. by eapply re_token_ok.
Qed.

Lemma pattern_ok_tree pr r : parse_wf pr -> re_of_postfix (parse_postfix pr) = Some r ->
  re_ok r /\ groups_below (Z.to_nat (parse_captures pr)) r.
Proof.
  intros [_ Ht Hc _]. unfold re_of_postfix.
  destruct (re_tokens _ _) as [[|r' [|]]|] eqn:E; [done| |done..]. intros [= ->].
  eapply re_tokens_ok in E; [|exact Ht|lia|constructor]. by rewrite Forall_singleton in E.
Qed.

(** * The states of a tree *)

(** The labels of an automaton come from its tree. *)
Definition state_ok (captures : nat) (st : StateDef) : Prop :=
  (atom_label (label st) = true \/ label st = Split)
  \/ (exists idx, (idx < captures)%nat /\ (label st = CaptureOpen + Z.of_nat idx
                                        \/ label st = CaptureClose + Z.of_nat idx)).

Lemma has_state_ok states i l n a captures st :
  has states i l n a -> states !! i = Some st ->
  ((atom_label l = true \/ l = Split) \/ (exists idx, (idx < captures)%nat /\
    (l = CaptureOpen + Z.of_nat idx \/ l = CaptureClose + Z.of_nat idx))) -> state_ok captures st.
Proof. intros (st' & E & <- & _) Hst H. by simplify_eq. Qed.

Lemma split_state_ok states i lazy body k captures st :
  has_split states i lazy body k -> states !! i = Some st -> state_ok captures st.
Proof.
  unfold has_split. intros H Hst. left. right. destruct lazy; destruct H as (st' & E & Hl & _);
    by simplify_eq.
Qed.

Lemma sub_nfa_states states captures r lo hi s k :
  re_ok r -> groups_below captures r -> sub_nfa states r lo hi s k ->
  forall i st, (lo <= i < hi)%nat -> states !! i = Some st -> state_ok captures st.
Proof.
  revert lo hi s k. induction r as [l|r1 IH1 r2 IH2|r1 IH1 r2 IH2|kind lazy r IH|idx r IH];
    intros lo hi s k Hok Hg Hsub i st Hi Hst; cbn in Hok, Hg, Hsub.
  - destruct Hsub as (-> & -> & H). replace i with lo in Hst by lia.
    eapply has_state_ok; [exact H|exact Hst|]. by left; left.
  - destruct Hsub as (mid & s2 & ? & H1 & H2), Hok, Hg.
    destruct (Nat.lt_ge_cases i mid); [eapply IH1 with (lo := lo) (hi := mid) (i := i)|eapply IH2 with (lo := mid) (hi := hi) (i := i)];
      first [eassumption|lia].
  - destruct Hsub as (mid & s1 & s2 & ? & -> & H & H1 & H2), Hok, Hg.
    destruct (decide (i = s)) as [->|];
      [eapply has_state_ok; [exact H|exact Hst|by left; right]|].
    destruct (Nat.lt_ge_cases i mid); [eapply IH1 with (lo := lo) (hi := mid) (i := i)|eapply IH2 with (lo := mid) (hi := s) (i := i)];
      first [eassumption|lia].
  - destruct kind; destruct Hsub as (x & -> & H & H1).
    + destruct (decide (i = s)) as [->|]; [by eapply split_state_ok|].
      eapply IH with (lo := lo) (hi := s) (i := i); first [eassumption|lia].
    + destruct (decide (i = s)) as [->|]; [by eapply split_state_ok|].
      eapply IH with (lo := lo) (hi := s) (i := i); first [eassumption|lia].
    + destruct (decide (i = x)) as [->|]; [by eapply split_state_ok|].
      eapply IH with (lo := lo) (hi := x) (i := i); first [eassumption|lia].
  - destruct Hsub as (close & body & -> & -> & Hclose & Hopen & H1), Hok, Hg.
    destruct (decide (i = S close)) as [->|];
      [eapply has_state_ok; [exact Hopen|exact Hst|]; right; exists idx; auto|].
    destruct (decide (i = close)) as [->|];
      [eapply has_state_ok; [exact Hclose|exact Hst|]; right; exists idx; auto|].
    eapply IH with (lo := lo) (hi := close) (i := i); first [eassumption|lia].
Qed.

Lemma state_capture_index captures st : Z.of_nat captures <= MaxCaptures -> state_ok captures st ->
  is_capture_open (label st) || is_capture_close (label st) = true ->
  (capture_index (label st) < captures)%nat.
Proof.
  intros Hc [[Ha|Hs]|(idx & Hidx & Hl)] Hcap.
  - exfalso. unfold atom_label in Ha. unfold_labels. lia.
  - exfalso. rewrite Hs in Hcap. done.
  - unfold capture_index. destruct Hl as [-> | ->].
    + replace (is_capture_open _) with true by (unfold_labels; lia). lia.
    + replace (is_capture_open _) with false by (unfold_labels; lia). lia.
Qed.

(** * Construction *)

(** The engine before the passes. *)
Record built (e : RegexEngine) (pr : ParseResult) (pattern : option re) : Prop := {
  built_ok : ok e = true;
  built_fresh : fresh (owned_states_ e);
  built_accept : has (owned_states_ e) 0 Match None None;
  built_classes : rune_classes_ e = parse_classes pr;
  built_captures : num_captures_ e = Z.to_nat (parse_captures pr);
  built_pattern : pattern_ok (owned_states_ e) (start_state_ e) pattern;
  built_states : forall i st, owned_states_ e !! i = Some st -> i <> 0%nat ->
    state_ok (num_captures_ e) st;
}.

Lemma initial_nfa_code postfix :
  mkNfa (Nfa.owned_states (initial_nfa postfix)) (capacity (initial_nfa postfix)) NoError
  = initial_nfa postfix.
Proof. unfold initial_nfa. by rewrite create_state_ok by (cbn; lia). Qed.

Lemma thompson_built pr mode : parse_wf pr ->
  let e := thompson NoError pr mode in
  match pattern_of pr with
  | Some pattern => built e pr pattern
  | None => ok e = false
  end.
Proof.
  intros Hwf. unfold thompson, pattern_of. rewrite initial_nfa_code.
  pose proof (postfix_to_nfa_fresh (parse_postfix pr)) as Hfresh.
  destruct (parse_postfix pr) as [|t tokens] eqn:Et.
  { cbn in Hfresh |- *. split; cbn; try done; [by eexists|].
    intros [|i] st; [done|]. by destruct i. }
  pose proof (pattern_ok_tree pr) as Htree. rewrite Et in Htree.
  rewrite <-Et in *. set (postfix := parse_postfix pr) in *.
  assert (postfix <> []) as Hne by (rewrite Et; done).
  pose proof (wf_size _ Hwf) as Hsize. fold postfix in Hsize.
  pose proof (postfix_to_nfa_ok postfix Hne Hsize) as H.
  destruct (postfix_to_nfa postfix (initial_nfa postfix)) as [start nfa]. cbn [snd] in Hfresh.
  destruct (re_of_postfix postfix) as [r|] eqn:Er; cbn [fmap option_fmap option_map].
  - destruct H as (He & Hlen & Hacc & Hsub). destruct (Htree r Hwf eq_refl) as [Hok Hg].
    split; cbn; try done; [by rewrite He|].
    intros i st Hst Hi. eapply sub_nfa_states; [exact Hok|exact Hg|exact Hsub| |exact Hst].
    apply lookup_lt_Some in Hst. lia.
  - destruct H as [_ He]. unfold ok. cbn. destruct (nfa_error nfa); done.
Qed.

Lemma thompson_states pr mode : parse_wf pr -> pattern_of pr <> None ->
  (length (owned_states_ (thompson NoError pr mode)) <= 2 * length (parse_postfix pr) + 1)%nat.
Proof.
  intros Hwf. unfold thompson, pattern_of. rewrite initial_nfa_code.
  destruct (parse_postfix pr) as [|t tokens] eqn:Et; [done|]. rewrite <-Et. intros Hp.
  pose proof (wf_size _ Hwf) as Hsize. assert (parse_postfix pr <> []) as Hne by (rewrite Et; done).
  pose proof (postfix_to_nfa_ok (parse_postfix pr) Hne Hsize) as H.
  destruct (postfix_to_nfa _ _) as [start nfa]. destruct (re_of_postfix _) as [r|]; [|done].
  cbn. apply H.
Qed.

(** A failed parse leaves a failed engine. *)
Lemma thompson_error code mode : code <> NoError -> ok (thompson code (mkParse [] [] 0) mode) = false.
Proof. intros H. unfold ok. cbn. by destruct code. Qed.

(** ** The passes *)

Lemma precompute_frame e :
  let e' := precompute_epsilon_closures e in
  start_state_ e' = start_state_ e /\ has_conditionals_ e' = has_conditionals_ e
  /\ rune_classes_ e' = rune_classes_ e /\ num_captures_ e' = num_captures_ e
  /\ (ok e = false -> e' = e).
Proof.
  unfold precompute_epsilon_closures. destruct (ok e) eqn:E; cbn [negb]; [|done].
  destruct (precompute_states _ _ _ _) as [[states p]|]; [done|].
  unfold set_error. by destruct (is_no_error _).
Qed.

(** The acceptance bitmap of a state decides ASCII runes as its label does. *)
Lemma finalize_state_accepts classes st r :
  Forall class_ok classes -> ascii_accept st = bitmap_zero -> is_epsilon (label st) = false ->
  0 <= label st -> 0 <= r < 128 ->
  bitmap_test (ascii_accept (finalize_state classes st)) r = accepts classes (label st) r.
Proof.
  intros Hc Hz He Hl Hr. unfold finalize_state, accepts. destruct (is_class_ref (label st)).
  - cbn. assert (class_ok (nth (class_ref_index (label st)) classes empty_class)) as Hok.
    { apply nth_Forall; [done|]. apply (finalize_ok empty_class). constructor. }
    by apply (ok_bitmap _ Hok).
  - destruct (Z.ltb_spec (label st) 128).
    + cbn. rewrite Hz, bitmap_set_spec, bitmap_zero_spec by (unfold ascii; lia).
      rewrite orb_false_r. apply Z.eqb_sym.
    + rewrite Hz, bitmap_zero_spec. symmetry. apply Z.eqb_neq. lia.
Qed.

Lemma class_contains classes k r : Forall class_ok classes -> 0 <= r ->
  contains (nth k classes empty_class) r = in_ranges r (ranges (nth k classes empty_class)).
Proof.
  intros Hc Hr. apply contains_spec; [|done]. apply nth_Forall; [done|].
  apply (finalize_ok empty_class). constructor.
Qed.

Lemma finalize_state_fields classes st :
  label (finalize_state classes st) = label st /\ next (finalize_state classes st) = next st
  /\ next_alt (finalize_state classes st) = next_alt st
  /\ closure_index (finalize_state classes st) = closure_index st
  /\ trivial_closure (finalize_state classes st) = trivial_closure st.
Proof. unfold finalize_state. by repeat case_match. Qed.

Lemma same_graph_finalize classes states : same_graph states (map (finalize_state classes) states).
Proof.
  intros i. rewrite list_lookup_fmap. destruct (states !! i) as [st|]; [|done]. cbn.
  by destruct (finalize_state_fields classes st) as (-> & -> & -> & -> & _).
Qed.

(** What the callers of an engine rely on. *)
Record engine_ready (e : RegexEngine) (pr : ParseResult) (pattern : option re) : Prop := {
  ready_for : engine_for e pattern;
  ready_classes : Forall class_ok (rune_classes_ e);
  ready_captures : num_captures_ e = Z.to_nat (parse_captures pr);
  ready_states : forall i st, owned_states_ e !! i = Some st ->
    is_capture_open (label st) || is_capture_close (label st) = true ->
    (capture_index (label st) < num_captures_ e)%nat;
}.

Definition passes (e : RegexEngine) : RegexEngine :=
  let e := finalize_states (precompute_epsilon_closures (detect_conditional_states e)) in
  set_first_char_info e (compute_first_char_info e).

Lemma pattern_ok_graph s1 s2 start pattern : same_graph s1 s2 ->
  pattern_ok s1 start pattern -> pattern_ok s2 start pattern.
Proof.
  intros Hg. destruct pattern as [r|]; [|done]. intros [Hok Hsub]. split; [done|].
  rewrite <-(same_graph_length _ _ Hg). revert Hsub.
  assert (forall i l n a, has s1 i l n a -> has s2 i l n a) as Hhas.
  { intros i l n a (st & Hst & <- & <- & <-).
    destruct (same_graph_lookup _ _ _ _ Hg Hst) as (st' & ? & ? & ? & ? & _). by exists st'. }
  assert (forall i lazy b k, has_split s1 i lazy b k -> has_split s2 i lazy b k) as Hsplit.
  { intros i lazy b k. unfold has_split. destruct lazy; apply Hhas. }
  generalize 1%nat (length s1) start (Some accept_state). clear Hok start.
  induction r as [l|r1 IH1 r2 IH2|r1 IH1 r2 IH2|[] lazy r IH|idx r IH]; intros lo hi s k; cbn.
  - intros (-> & -> & H). auto.
  - intros (mid & s' & ? & H1%IH1 & H2%IH2). by exists mid, s'.
  - intros (mid & x & y & ? & ? & H%Hhas & H1%IH1 & H2%IH2). by exists mid, x, y.
  - intros (b & ? & H%Hsplit & H1%IH). by exists b.
  - intros (b & ? & H%Hsplit & H1%IH). by exists b.
  - intros (b & ? & H%Hsplit & H1%IH). by exists b.
  - intros (c & b & ? & ? & H%Hhas & H'%Hhas & H1%IH). by exists c, b.
Qed.

Lemma lists_ends_map e classes s f l :
  lists_ends (owned_states_ e) f s l ->
  lists_ends (map (finalize_state classes) (owned_states_ e)) f s l.
Proof. apply lists_ends_graph, same_graph_finalize. Qed.

(** Finalizing keeps the cache right: it reads and writes other fields. *)
Lemma finalize_cache e : blank (owned_states_ e) -> cache_ok e ->
  cache_ok (set_owned_states e (map (finalize_state (rune_classes_ e)) (owned_states_ e))).
Proof.
  intros Hb [H1 H2]. split; cbn [owned_states_ set_owned_states].
  - intros s f [st' Hs]. rewrite list_lookup_fmap, fmap_Some in Hs. destruct Hs as (st & Hst & ->).
    apply lists_ends_map.
    replace (epsilon_closure_cached _ _ _) with (epsilon_closure_cached e (Some s) (effective e f));
      [apply H1; by eexists|].
    unfold epsilon_closure_cached. cbn [owned_states_ set_owned_states].
    rewrite list_lookup_fmap, Hst. cbn [fmap option_fmap option_map].
    by destruct (finalize_state_fields (rune_classes_ e) st) as (_ & _ & _ & -> & _).
  - intros s st' f Hs Ht. rewrite list_lookup_fmap, fmap_Some in Hs. destruct Hs as (st & Hst & ->).
    destruct (finalize_state_fields (rune_classes_ e) st) as (_ & _ & _ & _ & E). rewrite E in Ht.
    apply lists_ends_map. by eapply H2.
Qed.

Lemma state_label_bounds captures st : state_ok captures st -> Z.of_nat captures <= MaxCaptures ->
  0 <= label st.
Proof.
  intros [[Ha|Hs]|(idx & ? & [Hl|Hl])] Hc; [unfold atom_label in Ha|..]; unfold_labels; lia.
Qed.

Lemma state_accepts_ok e classes st r :
  Forall class_ok classes -> ascii_accept st = bitmap_zero -> is_epsilon (label st) = false ->
  0 <= label st -> 0 <= r -> rune_classes_ e = classes ->
  state_accepts e (finalize_state classes st) r = accepts classes (label st) r.
Proof.
  intros Hc Hz He Hl Hr Hcl. unfold state_accepts. rewrite Hcl.
  destruct (finalize_state_fields classes st) as (El & _). rewrite El.
  destruct (Z.ltb_spec r 128); [by apply finalize_state_accepts|].
  unfold accepts. destruct (is_class_ref (label st)); [|done]. by apply class_contains.
Qed.

(** *** A built engine whose cache fits *)

Section Passes.
Context (e : RegexEngine) (pr : ParseResult) (pattern : option re).
Context (Hwf : parse_wf pr) (Hbuilt : built e pr pattern).
Local Abbreviation cached := (precompute_epsilon_closures (detect_conditional_states e)).
Context (Hok : ok cached = true) (Hcache : cache_ok cached).
Context (Hgraph : same_graph (owned_states_ e) (owned_states_ cached)).
Context (Hblank : blank (owned_states_ cached)).
Local Abbreviation states := (map (finalize_state (rune_classes_ cached)) (owned_states_ cached)).

Lemma passes_engine :
  passes e = set_first_char_info (set_owned_states (set_state_count cached (length (owned_states_ cached))) states)
    (first_char_info_ (passes e)).
Proof.
  unfold passes. unfold finalize_states. rewrite Hok. cbn [negb set_state_count state_count_ owned_states_].
  rewrite (proj2 (Nat.eqb_neq _ _)); [done|].
  destruct (built_accept _ _ _ Hbuilt) as (st & Hst0%lookup_lt_Some & _).
  rewrite <-(same_graph_length _ _ Hgraph). lia.
Qed.

Lemma passes_graph : same_graph (owned_states_ e) states.
Proof. etrans; [exact Hgraph|apply same_graph_finalize]. Qed.

Lemma cached_classes : rune_classes_ cached = parse_classes pr.
Proof.
  destruct (precompute_frame (detect_conditional_states e)) as (_ & _ & F & _). rewrite F.
  apply (built_classes _ _ _ Hbuilt).
Qed.

Lemma cached_captures : num_captures_ cached = num_captures_ e.
Proof. by destruct (precompute_frame (detect_conditional_states e)) as (_ & _ & _ & F & _). Qed.

(** A final state is a built one with the same label. *)
Lemma final_label i st : states !! i = Some st ->
  exists st0, owned_states_ e !! i = Some st0 /\ label st0 = label st /\ closure_index st0 = closure_index st.
Proof.
  intros Hi. destruct (same_graph_lookup _ _ _ _ (same_graph_sym _ _ passes_graph) Hi)
    as (st0 & ? & ? & _ & _ & ?). by exists st0.
Qed.

(** Every built state but the accept state has a label of the tree. *)
Lemma built_label i st : owned_states_ e !! i = Some st ->
  label st = Match \/ state_ok (num_captures_ e) st.
Proof.
  intros Hi. destruct i as [|i]; [left|right; by eapply (built_states _ _ _ Hbuilt)].
  destruct (built_accept _ _ _ Hbuilt) as (sa & Hsa & Hla & _). by simplify_eq.
Qed.

Lemma captures_bound : Z.of_nat (num_captures_ e) <= MaxCaptures.
Proof. rewrite (built_captures _ _ _ Hbuilt). pose proof (wf_captures _ Hwf). lia. Qed.

Lemma final_accepts s st r : states !! s = Some st -> is_epsilon (label st) = false ->
  0 <= r < 2 ^ 21 ->
  state_accepts (passes e) st r = accepts (rune_classes_ (passes e)) (label st) r.
Proof.
  intros Hs Heps Hr. rewrite list_lookup_fmap, fmap_Some in Hs. destruct Hs as (st2 & Hst2 & ->).
  destruct (finalize_state_fields (rune_classes_ cached) st2) as (El & _). rewrite El in Heps |- *.
  rewrite passes_engine. cbn [rune_classes_ set_first_char_info set_owned_states set_state_count].
  apply state_accepts_ok; try done; [by rewrite cached_classes; apply Hwf|by apply (Hblank s st2)| |lia].
  destruct (same_graph_lookup _ _ _ _ (same_graph_sym _ _ Hgraph) Hst2) as (st0 & H0 & E0 & _).
  rewrite <-E0. destruct (built_label _ _ H0) as [->|Hst0]; [done|].
  eapply state_label_bounds; [exact Hst0|exact captures_bound].
Qed.

Lemma passes_for : engine_for (passes e) pattern.
Proof.
  pose proof passes_engine as E. rewrite E.
  destruct (finalize_cache _ Hblank Hcache) as [C1 C2].
  destruct (precompute_frame (detect_conditional_states e)) as (F1 & F2 & _).
  split; try done.
  - cbn. by rewrite length_map.
  - intros i st (st0 & H0 & _ & <-)%final_label. by apply (built_fresh _ _ _ Hbuilt).
  - destruct (built_accept _ _ _ Hbuilt) as (st & Hst0 & Hl & Hn & Ha).
    destruct (same_graph_lookup _ _ _ _ passes_graph Hst0) as (st' & E1 & E2 & E3 & E4 & _).
    exists st'. rewrite E2, E3, E4. split_and!; [exact E1|done..].
  - intros Hc i st (st0 & H0 & <- & _)%final_label. cbn in Hc. rewrite F2 in Hc.
    by apply (detect_conditional_spec e Hc i).
  - intros s st r Hs Heps Hr. rewrite <-E. by apply (final_accepts s).
  - cbn [start_state_ set_first_char_info set_owned_states set_state_count]. rewrite F1.
    eapply pattern_ok_graph; [exact passes_graph|apply (built_pattern _ _ _ Hbuilt)].
Qed.

Lemma passes_ready : engine_ready (passes e) pr pattern.
Proof.
  split; [exact passes_for|..]; rewrite passes_engine;
    cbn [rune_classes_ num_captures_ owned_states_ set_first_char_info set_owned_states set_state_count].
  - rewrite cached_classes. apply Hwf.
  - rewrite cached_captures. apply Hbuilt.
  - intros i st (st0 & H0 & El & _)%final_label Hc. rewrite <-El in *. rewrite cached_captures.
    destruct (built_label _ _ H0) as [Hm|Hst0]; [by rewrite Hm in Hc|].
    by apply state_capture_index; [apply captures_bound|..].
Qed.
End Passes.

Lemma passes_ok e pr pattern : parse_wf pr -> built e pr pattern ->
  error_code_ (passes e) = ErrorPatternTooLarge \/ engine_ready (passes e) pr pattern.
Proof.
  intros Hwf Hbuilt.
  destruct (precompute_ok (detect_conditional_states e)) as [He|(Hok & Hcache & Hgraph & Hblank)];
    [apply Hbuilt|apply Hbuilt|exact (detect_conditional_spec e)| |].
  - left. unfold passes, finalize_states, ok. rewrite He. cbn. done.
  - right. by apply passes_ready.
Qed.

(** At most 353 states fit the closure cache under all eight combinations. *)
Lemma passes_small e pr pattern : parse_wf pr -> built e pr pattern ->
  (length (owned_states_ e) <= 353)%nat -> ok (passes e) = true.
Proof.
  intros Hwf Hbuilt Hlen. set (e1 := detect_conditional_states e).
  assert (ok (precompute_epsilon_closures e1) = true) as Hok.
  { apply precompute_fits; [apply Hbuilt|apply Hbuilt|]. unfold small, MaxClosureCacheEntries.
    change (owned_states_ e1) with (owned_states_ e).
    assert (Z.to_nat (combinations e1) <= 8)%nat by (destruct (combinations_cases e1) as [->| ->]; lia).
    nia. }
  unfold passes. fold e1. unfold finalize_states. rewrite Hok. cbn [negb].
  by destruct (_ =? _)%nat.
Qed.

Lemma passes_error e : ok e = false -> ok (passes e) = false /\ error_code_ (passes e) = error_code_ e.
Proof.
  intros H. unfold passes. set (e1 := detect_conditional_states e).
  assert (ok e1 = false) as H1 by exact H.
  destruct (precompute_frame e1) as (_ & _ & _ & _ & E). rewrite (E H1).
  unfold finalize_states. rewrite H1. done.
Qed.
