(* ===== verification/CaptureSpec.v ===== *)
(** What a frame of captures of a match looks like: every group that was entered
    was left, and its span lies inside the match. *)
From S2P Require Import Prelude.
From S2P Require Import Utf8.
From S2P Require Import AsciiBitmap.
From S2P Require Import RuneClass.
From S2P Require Import RegexSyntax.
From S2P Require Import RegexSpec.
From S2P Require Import Nfa.
From S2P Require Import NfaPaths.
From S2P Require Import Exploration.
From S2P Require Import Closure.
From S2P Require Import ClosureCache.
From S2P Require Import MatchContext.
From S2P Require Import Simulate.
From S2P Require Import Capture.
From S2P Require Import EngineFacts.

Section Frames.
Context (accepts : Z -> Z -> bool) (w : list Z) (flags : nat -> Flags) (off : nat -> nat).
Context (len : nat) (Hoff : forall i j, (i <= j <= len)%nat -> (off i <= off j)%nat).
Context (Hw : (length w <= len)%nat).

Local Abbreviation re_capture := (re_capture accepts w flags off).

(** A match can be given captures. *)
Lemma match_capture r i j : re_match accepts w flags r i j ->
  forall c, exists c', re_capture r i j c c'.
Proof.
  induction 1 as [| |r1 r2 i j k _ IH1 _ IH2|r1 r2 i j _ IH|r1 r2 i j _ IH| |lazy r i j _ IH| |
    lazy r i j k _ IH1 _ IH2|lazy r i j k _ IH1 _ IH2|idx r i j _ IH]; intros c.
  - eexists. by econstructor.
  - eexists. by econstructor.
  - destruct (IH1 c) as [c1 H1]. destruct (IH2 c1) as [c2 H2]. eexists. by econstructor.
  - destruct (IH c) as [c1 H1]. eexists. by econstructor.
  - destruct (IH c) as [c1 H1]. eexists. by apply capture_alt_r.
  - eexists. by econstructor.
  - destruct (IH c) as [c1 H1]. eexists. by apply capture_opt_take.
  - eexists. by econstructor.
  - destruct (IH1 c) as [c1 H1]. destruct (IH2 c1) as [c2 H2]. eexists. by eapply capture_star_cons.
  - destruct (IH1 c) as [c1 H1]. destruct (IH2 c1) as [c2 H2]. eexists. by econstructor.
  - destruct (IH (open_group off idx i c)) as [c1 H1]. eexists. by econstructor.
Qed.

(** No slot is ahead of a position. *)
Definition frame_bounded (j : nat) (c : Frame) : Prop :=
  forall slot p, c !! slot = Some (Some p) -> (p <= off j)%nat.

(** The span of a group is missing or complete. *)
Definition span_ok (j idx : nat) (c : Frame) : Prop :=
  forall a, c !! (idx * 2)%nat = Some (Some a) ->
  exists b, c !! (idx * 2 + 1)%nat = Some (Some b) /\ (a <= b <= off j)%nat.

Lemma frame_bounded_mono i j c : (i <= j <= len)%nat -> frame_bounded i c -> frame_bounded j c.
Proof. intros Hij H slot p Hp. specialize (H slot p Hp). specialize (Hoff i j Hij). lia. Qed.

Lemma span_ok_mono i j idx c : (i <= j <= len)%nat -> span_ok i idx c -> span_ok j idx c.
Proof.
  intros Hij H a Ha. destruct (H a Ha) as (b & Hb & ?). exists b. split; [done|].
  specialize (Hoff i j Hij). lia.
Qed.

Lemma frame_bounded_insert j slot p c : (p <= off j)%nat -> frame_bounded j c ->
  frame_bounded j (<[slot := Some p]> c).
Proof.
  intros Hp H slot' p' Hs. apply list_lookup_insert_Some in Hs as [(_ & [= <-] & _)|[_ Hs]];
    [done|by eapply H].
Qed.

Lemma capture_length r i j c c' : re_capture r i j c c' -> length c' = length c.
Proof.
  clear len Hoff Hw.
  induction 1 as [| | | | | | | | | |idx r i j c1 c2 _ IH]; try done; try congruence.
  unfold open_group, close_group in *. by rewrite length_insert, IH, length_insert.
Qed.

Lemma capture_end r i j c c' : re_capture r i j c c' -> (i <= len)%nat -> (i <= j <= len)%nat.
Proof.
  intros H Hi. split; [by eapply match_position, capture_match|].
  induction H as [l i r c _ Hr| | | | | | | | | |]; eauto.
  apply lookup_lt_Some in Hr. lia.
Qed.

(** A slot that was written stays written. *)
Definition written (slot : nat) (c : Frame) : Prop := exists p, c !! slot = Some (Some p).

Lemma written_insert slot slot' p c : written slot c -> written slot (<[slot' := Some p]> c).
Proof.
  intros [q Hq]. destruct (decide (slot = slot')) as [->|Hne].
  - exists p. apply list_lookup_insert_eq. by eapply lookup_lt_Some.
  - exists q. by rewrite list_lookup_insert_ne by done.
Qed.

Lemma capture_written r i j c c' slot : re_capture r i j c c' -> written slot c -> written slot c'.
Proof.
  induction 1 as [| | | | | | | | | |idx r i j c1 c2 _ IH]; eauto.
  intros Hw1. apply written_insert, IH. by apply written_insert.
Qed.

(** A group that ended had started. *)
Definition ended_ok (idx : nat) (c : Frame) : Prop :=
  written (idx * 2 + 1) c -> written (idx * 2) c.

Lemma capture_ended r i j c c' n idx :
  re_capture r i j c c' -> groups_below n r -> (n * 2 <= length c)%nat ->
  ended_ok idx c -> ended_ok idx c'.
Proof.
  clear len Hoff Hw. intros H. revert n.
  induction H as [| |r1 r2 i j k c1 c2 c3 H1 IH1 H2 IH2| | | | |
    |lazy r i j k c1 c2 c3 H1 IH1 H2 IH2|lazy r i j k c1 c2 c3 H1 IH1 H2 IH2
    |idx' r i j c1 c2 H1 IH]; intros n Hg Hlen Hidx; cbn in Hg;
    try (pose proof (capture_length _ _ _ _ _ H1) as Hl); try tauto.
  - apply (IH2 n); [tauto|lia|]. apply (IH1 n); tauto.
  - eapply IHre_capture; [apply Hg|done|done].
  - eapply IHre_capture; [apply Hg|done|done].
  - by eapply IHre_capture.
  - apply (IH2 n); [done|lia|]. by apply (IH1 n).
  - apply (IH2 n); [done|lia|]. by apply (IH1 n).
  - unfold open_group in *. rewrite length_insert in Hl. unfold close_group.
    destruct (decide (idx = idx')) as [->|Hne].
    + intros _. apply written_insert. eapply capture_written; [exact H1|]. exists (off i).
      apply list_lookup_insert_eq. lia.
    + assert (ended_ok idx c2) as H2.
      { apply (IH n); [tauto|by rewrite length_insert|]. intros [p Hp].
        rewrite list_lookup_insert_ne in Hp by lia. destruct Hidx as [q Hq]; [by exists p|].
        exists q. by rewrite list_lookup_insert_ne by lia. }
      intros [p Hp]. rewrite list_lookup_insert_ne in Hp by lia.
      destruct H2 as [q Hq]; [by exists p|]. exists q. by rewrite list_lookup_insert_ne by lia.
Qed.

(** Matching keeps the frame bounded and every complete span complete. *)
Lemma capture_frames_ok r i j c c' n :
  re_capture r i j c c' -> groups_below n r -> (n * 2 <= length c)%nat -> (i <= len)%nat ->
  frame_bounded i c ->
  frame_bounded j c' /\ forall idx, span_ok i idx c -> span_ok j idx c'.
Proof.
  intros H. revert n.
  induction H as [l i r c _ Hr|l i c|r1 r2 i j k c1 c2 c3 H1 IH1 H2 IH2|r1 r2 i j c1 c2 _ IH
    |r1 r2 i j c1 c2 _ IH|lazy r i c|lazy r i j c1 c2 _ IH|lazy r i c
    |lazy r i j k c1 c2 c3 H1 IH1 H2 IH2|lazy r i j k c1 c2 c3 H1 IH1 H2 IH2
    |idx r i j c1 c2 H1 IH]; intros n Hg Hlen Hi Hb; cbn in Hg; try done.
  - apply lookup_lt_Some in Hr. split; [eapply frame_bounded_mono; [|done]; lia|].
    intros idx. apply span_ok_mono. lia.
  - pose proof (capture_end _ _ _ _ _ H1 Hi). pose proof (capture_length _ _ _ _ _ H1).
    destruct (IH1 n) as [B1 S1]; [tauto|done..|].
    destruct (IH2 n) as [B2 S2]; [tauto|lia|lia|done|]. split; [done|]. eauto.
  - apply (IH n); tauto.
  - apply (IH n); tauto.
  - by apply (IH n).
  - pose proof (capture_end _ _ _ _ _ H1 Hi). pose proof (capture_length _ _ _ _ _ H1).
    destruct (IH1 n) as [B1 S1]; [done..|].
    destruct (IH2 n) as [B2 S2]; [done|lia|lia|done|]. split; [done|]. eauto.
  - pose proof (capture_end _ _ _ _ _ H1 Hi). pose proof (capture_length _ _ _ _ _ H1).
    destruct (IH1 n) as [B1 S1]; [done..|].
    destruct (IH2 n) as [B2 S2]; [done|lia|lia|done|]. split; [done|]. eauto.
  - pose proof (capture_end _ _ _ _ _ H1 Hi) as Hj. pose proof (capture_length _ _ _ _ _ H1) as Hl.
    unfold open_group in *. rewrite length_insert in Hl.
    destruct (IH n) as [B S]; [tauto|by rewrite length_insert|done|by apply frame_bounded_insert|].
    unfold close_group. split; [by apply frame_bounded_insert|]. intros idx' Hidx a Ha.
    rewrite list_lookup_insert_ne in Ha by lia. destruct (decide (idx' = idx)) as [->|Hne].
    + exists (off j). rewrite list_lookup_insert_eq by lia. split; [done|].
      specialize (B _ _ Ha). lia.
    + rewrite list_lookup_insert_ne by lia. apply S; [|done].
      intros a'. rewrite list_lookup_insert_ne by lia. intros Ha'.
      destruct (Hidx a' Ha') as (b & ? & ?). exists b. by rewrite list_lookup_insert_ne by lia.
Qed.
End Frames.

(** * How large an input may be for the frame arena to suffice: between two runes
    every state is visited at most once, so at most one frame per state is cloned. *)

Section Budget.
Context (e : RegexEngine) (Hindexed : indexed (owned_states_ e)).
Context (s : list Z) (Hbytes : Forall is_byte s).

Local Abbreviation n := (length (owned_states_ e)).

Definition arena (ctx : MatchContext) : nat := length (capture_frames ctx).

(** The arena now and what the unvisited states may still add. *)
Definition budget (epoch : Z) (ctx : MatchContext) : nat :=
  arena ctx + capture_frame_slots ctx * unstamped (visited_states ctx) epoch.

(** Nothing but the arena, within the budget, and the marks change. *)
Record within (epoch : Z) (ctx ctx' : MatchContext) : Prop := {
  within_slots : capture_frame_slots ctx' = capture_frame_slots ctx;
  within_length : length (visited_states ctx') = length (visited_states ctx);
  within_budget : (budget epoch ctx' <= budget epoch ctx)%nat;
}.

#[export] Instance within_preorder epoch : PreOrder (within epoch).
Proof.
  split; [by intros ctx; split|]. intros a b c [? ? ?] [? ? ?]. split; [congruence..|lia].
Qed.

Lemma clone_within epoch ctx frame slot pos x :
  (x < length (visited_states ctx))%nat -> stamped (visited_states ctx) epoch x = false ->
  within epoch ctx
    match clone_capture_frame (mark_visited ctx x epoch) frame with
    | (Some new, ctx1) => write_capture ctx1 new slot pos
    | (None, ctx1) => ctx1
    end.
Proof.
  intros Hx Hs. pose proof (unstamped_insert _ _ _ Hx Hs) as Hun.
  unfold clone_capture_frame. destruct (frames_full _); [unfold npos|].
  - split; [done|by cbn; rewrite length_insert|]. unfold budget, arena.
  cbn [mark_visited set_visited capture_frames capture_frame_slots visited_states].
  rewrite Hun, Nat.mul_succ_r. lia.
  - split; [done|by cbn; rewrite length_insert|]. unfold budget, arena.
    cbn [write_capture set_frames mark_visited set_visited capture_frames capture_frame_slots
      visited_states].
    rewrite length_insert, length_app, Hun, Nat.mul_succ_r. unfold capture_frame_data.
    cbn [mark_visited set_visited capture_frames capture_frame_slots]. rewrite length_take. lia.
Qed.

Lemma mark_within epoch ctx x :
  (x < length (visited_states ctx))%nat -> stamped (visited_states ctx) epoch x = false ->
  within epoch ctx (mark_visited ctx x epoch).
Proof.
  intros Hx Hs. pose proof (unstamped_insert _ _ _ Hx Hs) as Hun.
  split; [done|by cbn; rewrite length_insert|]. unfold budget, arena.
  cbn [mark_visited set_visited capture_frames capture_frame_slots visited_states].
  rewrite Hun, Nat.mul_succ_r. lia.
Qed.

Lemma capturing_turn_within pos epoch f item t :
  length (visited_states (traversal_context t)) = n ->
  within epoch (traversal_context t) (traversal_context (capturing_turn e pos epoch f item t)).
Proof.
  intros Hlen. destruct item as [[x|] frame]; [|done]. cbn [capturing_turn].
  destruct (owned_states_ e !! x) as [st|] eqn:Hst; [|done]. rewrite (Hindexed _ _ Hst).
  cbn [traversal_context]. unfold is_visited.
  destruct (stamped _ epoch x) eqn:Hv; [done|].
  assert (x < length (visited_states (traversal_context t)))%nat as Hx
    by (rewrite Hlen; by eapply lookup_lt_Some).
  pose proof (mark_within epoch _ x Hx Hv) as Hm.
  assert (forall p slot, within epoch (traversal_context t)
    (traversal_context (push_capture pos (mkTraversal (threads t) (tail (pending t))
       (mark_visited (traversal_context t) x epoch)) p frame slot))) as Hc.
  { intros p slot. pose proof (clone_within epoch _ frame slot pos x Hx Hv) as H.
    unfold push_capture. cbn [traversal_context].
    destruct (clone_capture_frame _ _) as [[new|] ctx1]; exact H. }
  repeat (case_match; try exact Hm; try apply Hc).
Qed.

Lemma capturing_loop_within pos epoch f fuel t :
  length (visited_states (traversal_context t)) = n ->
  within epoch (traversal_context t)
    (traversal_context (capturing_loop e pos epoch f fuel t)).
Proof.
  revert t. induction fuel as [|fuel IH]; intros t Hlen; cbn [capturing_loop]; [done|].
  destruct (pending t) as [|item rest]; [done|].
  pose proof (capturing_turn_within pos epoch f item t Hlen) as H.
  etrans; [exact H|]. apply IH. rewrite (within_length _ _ _ H). done.
Qed.

Lemma step_threads_within rune pos epoch f ts tc :
  length (visited_states tc.2) = n ->
  within epoch tc.2 (foldl (step_thread e rune pos epoch f) tc ts).2.
Proof.
  revert tc. induction ts as [|t ts IH]; intros tc Hlen; cbn [foldl]; [done|].
  assert (within epoch tc.2 (step_thread e rune pos epoch f tc t).2) as H.
  { unfold step_thread. destruct tc as [ts0 ctx]. destruct (owned_states_ e !! state t) as [st|]; [|done].
    destruct (state_accepts _ _ _); [|done]. cbn [snd add_state_capturing].
    by apply (capturing_loop_within _ _ _ _ (mkTraversal _ _ ctx)). }
  etrans; [exact H|]. apply IH. by rewrite (within_length _ _ _ H).
Qed.

(** After position [i]: the first frame and [i + 1] rounds of at most [n]. *)
Record fits (i : nat) (slots : nat) (ctx : MatchContext) : Prop := {
  fits_slots : capture_frame_slots ctx = slots;
  fits_visited : length (visited_states ctx) = n;
  fits_arena : (arena ctx <= slots * (1 + (i + 1) * n))%nat;
}.

Lemma advance_budget ctx slots k :
  capture_frame_slots ctx = slots -> length (visited_states ctx) = n -> (arena ctx <= k)%nat ->
  let '(epoch, ctx') := advance_epoch ctx in
  capture_frame_slots ctx' = slots /\ length (visited_states ctx') = n
  /\ (budget epoch ctx' <= k + slots * n)%nat.
Proof.
  intros Hs Hl Ha. unfold advance_epoch.
  assert (length (advance_stamp (epoch_counter ctx) (visited_states ctx)).2 = n) as Hl'.
  { unfold advance_stamp. case_match; cbn; [by rewrite length_replicate|done]. }
  destruct (advance_stamp _ _) as [epoch stamps]. cbn [snd] in Hl'. split_and!; [done|done|].
  unfold budget, arena in *. cbn [set_visited capture_frames capture_frame_slots visited_states].
  pose proof (unstamped_le stamps epoch). rewrite Hs.
  apply Nat.add_le_mono; [done|]. apply Nat.mul_le_mono_l. lia.
Qed.

Lemma within_fits epoch ctx ctx' i slots k :
  capture_frame_slots ctx = slots -> length (visited_states ctx) = n ->
  (budget epoch ctx <= k)%nat -> within epoch ctx ctx' ->
  (k <= slots * (1 + (i + 1) * n))%nat -> fits i slots ctx'.
Proof.
  intros H1 H2 H3 [W1 W2 W3] Hk. split; [congruence|congruence|]. unfold budget in W3, H3. lia.
Qed.

Lemma capture_start_fits ctx slots frame at_start0 prev0 :
  capture_frame_slots ctx = slots -> length (visited_states ctx) = n -> (arena ctx <= slots)%nat ->
  fits 0 slots (cap_context (capture_start e s frame ctx at_start0 prev0)).
Proof.
  intros H1 H2 H3. unfold capture_start. destruct (decode_rune s 0) as [rune bytes].
  pose proof (advance_budget ctx slots slots H1 H2 H3) as Hb.
  destruct (advance_epoch ctx) as [epoch ctx']. destruct Hb as (B1 & B2 & B3).
  unfold add_state_capturing. cbn [cap_context].
  eapply (within_fits epoch ctx'); [done|done|exact B3| |lia].
  apply (capturing_loop_within _ _ _ _ (mkTraversal _ _ ctx')). done.
Qed.

Lemma capture_turn_fits i slots l : fits i slots (cap_context l) ->
  fits (S i) slots (cap_context (capture_turn e s l)).
Proof.
  intros [H1 H2 H3]. unfold capture_turn.
  destruct (if (_ <? _)%nat then _ else _) as [rune bytes].
  pose proof (advance_budget _ _ _ H1 H2 H3) as Hb.
  destruct (advance_epoch (cap_context l)) as [epoch ctx']. destruct Hb as (B1 & B2 & B3).
  set (f := mkFlags _ _ _).
  pose proof (step_threads_within (cap_rune l) (cap_pos l + cap_rune_bytes l) epoch f
    (current_threads l) ([], ctx') B2) as Hw.
  destruct (foldl _ _ _) as [ts ctx'']. cbn [snd cap_context] in *.
  eapply (within_fits epoch ctx'); [done|done|exact B3|exact Hw|lia].
Qed.

Lemma capture_loop_fits fuel i slots l : fits i slots (cap_context l) ->
  fits (i + fuel) slots (cap_context (capture_loop fuel e s l)).
Proof.
  revert i l. induction fuel as [|fuel IH]; intros i l H; cbn [capture_loop].
  - by rewrite Nat.add_0_r.
  - destruct (_ && _).
    + rewrite Nat.add_succ_r. apply (IH (S i)). by apply capture_turn_fits.
    + destruct H as [H1 H2 H3]. split; [done|done|]. nia.
Qed.
End Budget.

(** Enough frames for an input of this length. *)
Definition frames_suffice (e : RegexEngine) (len : nat) : Prop :=
  Z.of_nat (2 * num_captures_ e * (2 + (len + 1) * length (owned_states_ e)))
    <= MaxCaptureFrameEntries.

Lemma frames_not_full e self s ctx at_start0 prev0 :
  ok e = true -> indexed (owned_states_ e) -> state_count_ e = length (owned_states_ e) ->
  (0 < num_captures_ e)%nat -> context_ok ctx -> frames_suffice e (length s) ->
  frames_full (find_prefix_with_context self e s ctx at_start0 prev0).2 = false.
Proof.
  intros Hok Hidx Hcount Hnum Hctx Hlen. unfold find_prefix_with_context. rewrite Hok. cbn [negb orb].
  rewrite (proj2 (Nat.eqb_neq _ _)) by lia.
  pose proof (bind_engine_ok ctx self (state_count_ e) Hctx) as Hbind.
  set (ctx0 := reset_capture_frames _ _). unfold frames_suffice in Hlen.
  assert (frames_full ctx0 = false) as Hfull0.
  { unfold frames_full, ctx0.
    cbn [reset_capture_frames set_frames capture_frames capture_frame_slots length].
    apply Z.ltb_ge. etrans; [|exact Hlen]. apply Nat2Z.inj_le. nia. }
  unfold allocate_capture_frame. rewrite Hfull0.
  cbn [ctx0 reset_capture_frames set_frames capture_frames capture_frame_slots length app].
  set (ctx1 := set_frames _ _ _). set (frame := Nat.div _ _).
  assert (fits e 0 (2 * num_captures_ e) (cap_context (capture_start e s frame ctx1 at_start0 prev0)))
    as Hstart.
  { apply capture_start_fits; [done|done| |].
    - rewrite <-Hcount. apply (context_length _ _ Hbind).
    - unfold arena. cbn. rewrite length_replicate. lia. }
  pose proof (capture_loop_fits e Hidx s (length s) 0 _ _ Hstart) as [F1 _ F3].
  set (l := capture_loop _ _ _ _) in *.
  assert (frames_full (cap_context l) = false) as H.
  { unfold frames_full. rewrite F1. unfold arena in F3. cbn [Nat.add] in F3. apply Z.ltb_ge.
    etrans; [|exact Hlen]. apply Nat2Z.inj_le. nia. }
  by destruct (cap_best l) as [[p|] [fr|]].
Qed.
