(* ===== verification/RegexCorrect.v ===== *)
(** From the constructor to the calls: [compute_first_char_info] covers every way a match can
    start, and what matching and searching with an engine that works return. *)
From S2P Require Import Prelude.
From S2P Require Import Utf8.
From S2P Require Import AsciiBitmap.
From S2P Require Import RuneClass.
From S2P Require Import RegexSyntax.
From S2P Require Import PostfixBuilder.
From S2P Require Import RegexSpec.
From S2P Require Import ParserFacts.
From S2P Require Import Nfa.
From S2P Require Import NfaPaths.
From S2P Require Import Exploration.
From S2P Require Import Closure.
From S2P Require Import ClosureCache.
From S2P Require Import MatchContext.
From S2P Require Import Simulate.
From S2P Require Import Capture.
From S2P Require Import Engine.
From S2P Require Import EngineFacts.
From S2P Require Import CaptureSpec.

(** [info] includes [info0]. *)
Record covers (info info0 : FirstCharInfo) : Prop := {
  covers_bitmap : forall r, ascii r -> bitmap_test (bitmap info0) r = true ->
    bitmap_test (bitmap info) r = true;
  covers_empty : can_match_empty info0 = true -> can_match_empty info = true;
  covers_nonascii : can_match_nonascii info0 = true -> can_match_nonascii info = true;
}.

#[export] Instance covers_preorder : PreOrder covers.
Proof.
  split; [by intros info; split|]. intros a b c [] []. split; intros; eauto.
Qed.

Section FirstChar.
Context (e : RegexEngine) (pattern : option re) (He : engine_for e pattern).

Lemma first_char_state_covers info s : covers (first_char_state e info s) info.
Proof.
  unfold first_char_state. destruct (owned_states_ e !! s) as [st|]; [|done].
  destruct (s =? accept_state)%nat; [by split|].
  split; cbn; [|done|by intros ->]. intros r Hr H. by rewrite bitmap_or_spec, H by done.
Qed.

Lemma fold_states_covers l info : covers (foldl (first_char_state e) info l) info.
Proof.
  revert info. induction l as [|s l IH]; intros info; [done|]. cbn.
  etrans; [apply IH|apply first_char_state_covers].
Qed.

Lemma fold_states_in l info s : s ∈ l ->
  exists info0, covers (foldl (first_char_state e) info l) (first_char_state e info0 s).
Proof.
  revert info. induction l as [|x l IH]; intros info; [by intros ?%elem_of_nil|].
  intros [->|Hin]%elem_of_cons; cbn; [|by apply IH].
  exists info. apply fold_states_covers.
Qed.

Definition combo_step (info : FirstCharInfo) (combo : Z) : FirstCharInfo :=
  foldl (first_char_state e) info
    (epsilon_closure_cached e (Some (start_state_ e)) (combo_flags e combo)).

Lemma fold_combos_covers combos info : covers (foldl combo_step info combos) info.
Proof.
  revert info. induction combos as [|c combos IH]; intros info; [done|]. cbn.
  etrans; [apply IH|apply fold_states_covers].
Qed.

Lemma fold_combos_in combos info combo s : combo ∈ combos ->
  s ∈ epsilon_closure_cached e (Some (start_state_ e)) (combo_flags e combo) ->
  exists info0, covers (foldl combo_step info combos) (first_char_state e info0 s).
Proof.
  intros Hc Hs. revert info. induction combos as [|c combos IH]; intros info;
    [by apply elem_of_nil in Hc|].
  apply elem_of_cons in Hc as [<-|Hc]; cbn; [|by apply IH].
  destruct (fold_states_in _ info s Hs) as [info0 H0]. exists info0. etrans; [|exact H0].
  apply fold_combos_covers.
Qed.

(** The conditions of some combination are those of any position. *)
Lemma some_combo f : exists combo,
  combo ∈ seqZ 0 (if has_conditionals_ e then ClosureFlagCombinations else 1)
  /\ epsilon_closure_cached e (Some (start_state_ e)) (combo_flags e combo)
     = epsilon_closure_cached e (Some (start_state_ e)) (effective e f).
Proof.
  unfold combo_flags, effective, epsilon_closure_cached. destruct (has_conditionals_ e).
  - exists (closure_flags f). split.
    + apply elem_of_seqZ. pose proof (closure_flags_bound f). done.
    + by destruct f as [[] [] []].
  - exists 0. split; [by apply elem_of_seqZ|done].
Qed.

Lemma first_char_covers f s : ends_in (owned_states_ e) f (start_state_ e) s ->
  exists info0, covers (compute_first_char_info e) (first_char_state e info0 s).
Proof.
  intros Hs. unfold compute_first_char_info. rewrite (engine_ok _ _ He). cbn [negb].
  destruct (some_combo f) as (combo & Hc & Heq). eapply fold_combos_in; [exact Hc|].
  rewrite Heq. destruct (ends_in_exists _ _ _ _ Hs) as [Hst _].
  by apply (cached_closure e (engine_cache _ _ He) _ f Hst).
Qed.

Context (s : list Z) (Hbytes : Forall is_byte s) (at_start0 prev0 : bool).

Local Abbreviation active := (active e s at_start0 prev0).

(** Whatever is active later started with a state that accepts the first rune. *)
Lemma active_first_rune k t : active (S k) t ->
  exists u st r, active 0 u /\ owned_states_ e !! u = Some st /\ runes s !! 0%nat = Some r
    /\ accepts (rune_classes_ e) (label st) r = true.
Proof.
  revert t. induction k as [|k IH]; intros t (u & v & st & r & Hu & H1 & H2 & H3 & _)%active_next.
  - by exists u, st, r.
  - by apply IH in Hu.
Qed.

Lemma first_char_empty : matches_prefix (rune_classes_ e) pattern s at_start0 prev0 0 ->
  can_match_empty (compute_first_char_info e) = true.
Proof.
  intros H. apply (active_accept e pattern He s Hbytes at_start0 prev0 0) in H.
  apply active_first in H.
  destruct (first_char_covers _ _ H) as (info0 & Hc). apply (covers_empty _ _ Hc).
  destruct (engine_accept _ _ He) as (st & Hst & _). unfold first_char_state.
  change (owned_states_ e !! accept_state) with (owned_states_ e !! 0%nat). by rewrite Hst.
Qed.

Lemma first_char_rune k r : matches_prefix (rune_classes_ e) pattern s at_start0 prev0 (S k) ->
  runes s !! 0%nat = Some r ->
  if r <? 128 then bitmap_test (bitmap (compute_first_char_info e)) r = true
  else can_match_nonascii (compute_first_char_info e) = true.
Proof.
  intros H Hr. apply (active_accept e pattern He s Hbytes at_start0 prev0) in H.
  destruct (active_first_rune k _ H) as (u & st & r' & Hu & Hst & Hr' & Hacc). simplify_eq.
  apply active_first in Hu. destruct (first_char_covers _ _ Hu) as (info0 & Hc).
  pose proof (runes_bounds s Hbytes 0 r Hr) as Hb.
  destruct Hu as [_ (st' & Hst' & Hne)]. rewrite Hst in Hst'. injection Hst' as <-.
  assert (u <> accept_state) as Hacc0.
  { intros ->. unfold accept_state in Hst. destruct (engine_accept _ _ He) as (sa & ? & Hl & _). simplify_eq.
    rewrite Hl in Hacc. by rewrite (accepts_match _ s 0) in Hacc. }
  assert (first_char_state e info0 u = mkFirstChar (bitmap_or (bitmap info0) (ascii_accept st))
    (can_match_empty info0) (can_match_nonascii info0 ||
      (if is_class_ref (label st) then
          existsb (fun rg => 128 <=? rg.2)
            (ranges (nth (class_ref_index (label st)) (rune_classes_ e) empty_class))
        else (128 <=? label st) && negb (label st =? Match)))) as E.
  { unfold first_char_state. rewrite Hst. by rewrite (proj2 (Nat.eqb_neq _ _) Hacc0). }
  rewrite E in Hc. destruct (Z.ltb_spec r 128) as [Hlt|Hge].
  - apply (covers_bitmap _ _ Hc); [unfold ascii; lia|]. cbn.
    rewrite bitmap_or_spec by (unfold ascii; lia). apply orb_true_iff. right.
    pose proof (engine_accepts _ _ He u st r Hst Hne Hb) as Ha. unfold state_accepts in Ha.
    rewrite (proj2 (Z.ltb_lt _ _) Hlt) in Ha. by rewrite Ha.
  - apply (covers_nonascii _ _ Hc). cbn. apply orb_true_iff. right. unfold accepts in Hacc.
    destruct (is_class_ref (label st)).
    + apply in_ranges_spec in Hacc as (rg & Hin & Hrg). apply existsb_exists. exists rg.
      split; [by apply list_elem_of_In|]. lia.
    + unfold Match. lia.
Qed.
End FirstChar.

(** * The regex engine from pattern bytes to match results: construction outcomes,
    the longest match, its captures, searching, first characters, and the
    independence of results from the reused context. *)

(** * Patterns *)

(** [pattern] parses to the classes and captures of [pr] and the tree [tree]. *)
Definition denotes (pattern : list Z) (mode : SyntaxMode) (pr : ParseResult) (tree : option re) :
    Prop :=
  regexp_to_postfix_runes pattern mode = inr pr /\ pattern_of pr = Some tree.

Lemma denotes_fun pattern mode pr pr' tree tree' :
  denotes pattern mode pr tree -> denotes pattern mode pr' tree' -> pr = pr' /\ tree = tree'.
Proof. intros [H1 H2] [H3 H4]. rewrite H1 in H3. injection H3 as <-. split; congruence. Qed.

(** The parts of the constructor's result. *)
Lemma new_engine_passes pattern mode :
  new_engine pattern mode
  = passes match regexp_to_postfix_runes pattern mode with
           | inl code => thompson code (mkParse [] [] 0) mode
           | inr pr => thompson NoError pr mode
           end.
Proof. reflexivity. Qed.

Lemma new_engine_outcome pattern mode :
  let e := new_engine pattern mode in
  match regexp_to_postfix_runes pattern mode with
  | inl code => code <> NoError /\ error_code_ e = code
  | inr pr =>
      match pattern_of pr with
      | None => ok e = false
      | Some tree => error_code_ e = ErrorPatternTooLarge \/ engine_ready e pr tree
      end
  end.
Proof.
  cbv zeta. rewrite new_engine_passes.
  destruct (regexp_to_postfix_runes pattern mode) as [code|pr] eqn:Ep.
  - apply parse_error in Ep. split; [done|].
    destruct (passes_error _ (thompson_error code mode Ep)) as [_ ->]. cbn. by destruct code.
  - pose proof (parse_result_wf _ _ _ Ep) as Hwf. pose proof (thompson_built pr mode Hwf) as H.
    cbv zeta in H. destruct (pattern_of pr) as [tree|].
    + by apply passes_ok.
    + by apply passes_error.
Qed.

Lemma new_engine_ready pattern mode : ok (new_engine pattern mode) = true ->
  exists pr tree, denotes pattern mode pr tree /\ engine_ready (new_engine pattern mode) pr tree.
Proof.
  intros Hok. pose proof (new_engine_outcome pattern mode) as H. cbv zeta in H. unfold denotes.
  destruct (regexp_to_postfix_runes pattern mode) as [code|pr].
  - destruct H as [Hc He]. unfold ok in Hok. rewrite He in Hok. by destruct code.
  - destruct (pattern_of pr) as [tree|] eqn:Et; [|congruence].
    destruct H as [He|Hr]; [unfold ok in Hok; by rewrite He in Hok|]. by exists pr, tree.
Qed.

(** A tree of few tokens always compiles. *)
Lemma new_engine_small pattern mode pr tree : denotes pattern mode pr tree ->
  (length (parse_postfix pr) <= 176)%nat -> ok (new_engine pattern mode) = true.
Proof.
  intros [Ep Et] Hlen. rewrite new_engine_passes, Ep. pose proof (parse_result_wf _ _ _ Ep) as Hwf.
  pose proof (thompson_built pr mode Hwf) as H. cbv zeta in H. rewrite Et in H.
  apply (passes_small _ _ _ Hwf H). pose proof (thompson_states pr mode Hwf ltac:(by rewrite Et)). lia.
Qed.

(** The classes of the engine are the parser's. *)
Definition classes (pattern : list Z) (mode : SyntaxMode) : list RuneClass :=
  rune_classes_ (new_engine pattern mode).

(** The specification of a prefix match of a pattern. *)
Definition longest_of (pattern : list Z) (mode : SyntaxMode) (s : list Z)
    (at_start prev_is_word : bool) (b : option nat) : Prop :=
  exists pr tree, denotes pattern mode pr tree
    /\ longest_prefix (classes pattern mode) tree s at_start prev_is_word b.

Lemma longest_of_unique pattern mode s at_start prev_is_word b b' :
  longest_of pattern mode s at_start prev_is_word b ->
  longest_of pattern mode s at_start prev_is_word b' -> b = b'.
Proof.
  intros (pr & tree & H1 & H2) (pr' & tree' & H3 & H4).
  destruct (denotes_fun _ _ _ _ _ _ H1 H3) as [-> ->]. by eapply longest_prefix_unique.
Qed.

(** * The two simulations *)

Section Ready.
Context (pattern : list Z) (mode : SyntaxMode).
Local Abbreviation e := (new_engine pattern mode).
Context (Hok : ok e = true) (s : list Z) (Hbytes : Forall is_byte s).

Lemma noncapturing_longest self ctx at_start prev_is_word : context_ok ctx ->
  let '(b, ctx') := find_prefix_noncapturing_with_context self e s ctx at_start prev_is_word in
  longest_of pattern mode s at_start prev_is_word b /\ context_ok ctx'.
Proof.
  intros Hctx. destruct (new_engine_ready pattern mode Hok) as (pr & tree & Hd & Hr).
  pose proof (noncapturing_spec e tree (ready_for _ _ _ Hr) s Hbytes at_start prev_is_word self ctx Hctx)
    as H.
  destruct (find_prefix_noncapturing_with_context _ _ _ _ _ _) as [b ctx']. destruct H as [H1 H2].
  split; [|done]. by exists pr, tree.
Qed.

(** What a capturing call promises, frames permitting. *)
Definition captures_of (b : option nat) (captures : list Capture) at_start prev_is_word : Prop :=
  exists pr tree, denotes pattern mode pr tree /\
  match b with
  | None => captures = []
  | Some n => exists k frame, n = offset s k
      /\ pattern_capture (accepts (classes pattern mode)) (runes s)
           (flags_at s at_start prev_is_word) (offset s) tree 0 k
           (replicate (2 * num_captures_ e) None) frame
      /\ captures = frame_captures (num_captures_ e) frame
  end.

Lemma noncapturing_captures at_start prev_is_word b :
  num_captures_ e = 0%nat -> longest_of pattern mode s at_start prev_is_word b ->
  captures_of b [] at_start prev_is_word.
Proof.
  intros Hz (pr & tree & Hd & Hl). exists pr, tree. split; [done|]. destruct b as [n|]; [|done].
  destruct Hl as (k & -> & Hm & _). unfold matches_prefix in Hm. exists k. rewrite Hz. destruct tree as [r|]; cbn in Hm |- *.
  - destruct (match_capture _ _ _ (offset s) r 0%nat k Hm []) as [c Hc]. by exists c.
  - by exists [].
Qed.

Lemma capturing_longest self ctx at_start prev_is_word : context_ok ctx ->
  let '(b, captures, ctx') := find_prefix_with_context self e s ctx at_start prev_is_word in
  context_ok ctx' /\ captures_of b captures at_start prev_is_word
  /\ (frames_suffice e (length s) -> longest_of pattern mode s at_start prev_is_word b).
Proof.
  intros Hctx. destruct (new_engine_ready pattern mode Hok) as (pr & tree & Hd & Hr).
  pose proof (ready_for _ _ _ Hr) as He.
  destruct (Nat.eq_dec (num_captures_ e) 0%nat) as [Hz|Hz].
  - unfold find_prefix_with_context. rewrite Hok, Hz. cbn [negb orb Nat.eqb].
    pose proof (context_stamps _ _ (bind_engine_ok ctx self (state_count_ e) Hctx)) as Hctx'.
    pose proof (noncapturing_longest self _ at_start prev_is_word Hctx') as H.
    destruct (find_prefix_noncapturing_with_context _ _ _ _ _ _) as [b ctx']. destruct H as [H1 H2].
    split_and!; [done|by apply noncapturing_captures|done].
  - pose proof (capturing_spec e tree He s Hbytes at_start prev_is_word ltac:(lia)
      (ready_states _ _ _ Hr) self ctx Hctx) as H.
    pose proof (frames_not_full e self s ctx at_start prev_is_word Hok (engine_index _ _ He)
      (engine_count _ _ He) ltac:(lia) Hctx) as Hframes.
    destruct (find_prefix_with_context _ _ _ _ _ _) as [[b captures] ctx']. cbn [snd] in Hframes.
    destruct H as (H1 & H2 & H3). split_and!; [done| |].
    + exists pr, tree. split; [done|]. by destruct b.
    + intros Hf. exists pr, tree. split; [done|]. by apply H2, Hframes.
Qed.

(** A capture is missing, or a span inside the match. *)
Definition capture_in (n : nat) (c : Capture) : Prop :=
  match c.1 with
  | None => c.2 = None
  | Some a => exists z, c.2 = Some z /\ (a <= z <= n)%nat
  end.

Lemma captures_spans n captures at_start prev_is_word :
  captures_of (Some n) captures at_start prev_is_word ->
  length captures = num_captures_ e /\ Forall (capture_in n) captures.
Proof.
  destruct (new_engine_ready pattern mode Hok) as (pr0 & tree0 & Hd0 & Hr).
  intros (pr & tree & Hd & k & frame & -> & Hc & ->).
  destruct (denotes_fun _ _ _ _ _ _ Hd Hd0) as [-> ->].
  split; [unfold frame_captures; by rewrite length_map, length_seq|].
  unfold frame_captures. apply Forall_forall. intros c Hin.
  apply list_elem_of_fmap in Hin as (i & -> & Hi%elem_of_seq).
  set (frame0 := replicate (2 * num_captures_ e) None) in *.
  assert (forall slot, ~ written slot frame0) as Hnone.
  { intros slot [p Hp]. apply lookup_replicate in Hp as [Hp _]. done. }
  assert (length frame0 = (2 * num_captures_ e)%nat) as Hl0 by apply length_replicate.
  clearbody frame0.
  assert (length frame = (2 * num_captures_ e)%nat /\
    span_ok (offset s) k i frame /\ ended_ok i frame) as (Hlen & Hspan & Hended).
  { assert (span_ok (offset s) 0 i frame0) as Hspan0 by (intros a Ha; exfalso; by apply (Hnone (i * 2)%nat); exists a).
    assert (ended_ok i frame0) as Hended0 by (intros Hw; exfalso; by eapply Hnone).
    destruct tree0 as [r|]; cbn [pattern_capture] in Hc.
    - assert (groups_below (num_captures_ e) r) as Hg.
      { rewrite (ready_captures _ _ _ Hr). destruct Hd0 as [Hp Ht].
        apply (pattern_ok_tree pr0); [by eapply parse_result_wf|]. unfold pattern_of in Ht.
        destruct (parse_postfix pr0); [done|]. destruct (re_of_postfix _); [|done].
        by injection Ht as ->. }
      assert (forall a b, (a <= b <= length (spans s))%nat -> (offset s a <= offset s b)%nat) as Hoff.
      { intros a b Hab. destruct (decide (a = b)) as [->|]; [done|].
        pose proof (offset_mono s Hbytes a b ltac:(lia)). lia. }
      split_and!.
      + rewrite <-Hl0. by eapply capture_length.
      + eapply (capture_frames_ok _ _ _ _ (length (spans s)) Hoff); [|exact Hc|exact Hg|lia|lia| |done].
        * by rewrite length_runes.
        * intros slot p Hp. exfalso. apply (Hnone slot). by exists p.
      + eapply capture_ended; [exact Hc|exact Hg|lia|done].
    - destruct Hc as [<- <-]. by split_and!. }
  unfold capture_in. cbn [fst snd]. rewrite !nth_lookup. unfold npos.
  destruct (lookup_lt_is_Some_2 frame (i * 2)%nat ltac:(lia)) as [x Hx].
  destruct (lookup_lt_is_Some_2 frame (i * 2 + 1)%nat ltac:(lia)) as [y Hy].
  rewrite Hx, Hy. cbn. destruct x as [a|].
  - destruct (Hspan a Hx) as (z & Hz & ?). rewrite Hz in Hy. injection Hy as <-. by exists z.
  - destruct y as [z|]; [|done]. destruct Hended as [p Hp]; [by exists z|]. congruence.
Qed.
End Ready.

(** * Whole strings and searches *)

Lemma match_within classes s flags tree k : Forall is_byte s ->
  pattern_match (accepts classes) (runes s) flags tree 0 k -> (k <= length (spans s))%nat.
Proof.
  intros Hb. destruct tree as [r|]; cbn; [|lia]. intros H.
  destruct (match_capture _ _ _ (offset s) r 0%nat k H []) as [c Hc].
  eapply (capture_end _ _ _ _ (length (spans s))); [|exact Hc|lia]. by rewrite length_runes.
Qed.

(** The whole string matches. *)
Definition matches_all (pattern : list Z) (mode : SyntaxMode) (s : list Z) : Prop :=
  exists pr tree, denotes pattern mode pr tree
    /\ matches_prefix (classes pattern mode) tree s true false (length (runes s)).

Lemma longest_all pattern mode s b : Forall is_byte s ->
  longest_of pattern mode s true false b -> b = Some (length s) <-> matches_all pattern mode s.
Proof.
  intros Hb (pr & tree & Hd & Hl). rewrite <-(offset_end s Hb). unfold matches_all.
  rewrite length_runes. split.
  - intros ->. destruct Hl as (k & Hk & Hm & _). exists pr, tree. split; [done|].
    apply offset_inj in Hk; [by subst k|done|lia|]. by eapply match_within.
  - intros (pr' & tree' & Hd' & Hm). destruct (denotes_fun _ _ _ _ _ _ Hd Hd') as [<- <-].
    destruct b as [n|]; cbn in Hl; [|by apply Hl in Hm]. destruct Hl as (k & -> & Hk & Hmax).
    do 2 f_equal. apply Nat.le_antisymm; [by eapply match_within|by apply Hmax].
Qed.

(** The positions a search tries. *)
Fixpoint probe_at (s : list Z) (start i : nat) : nat :=
  match i with
  | O => start
  | S i => let p := probe_at s start i in (p + (decode_rune s p).2)%nat
  end.

(** What a probe looks for. *)
Definition probe_longest (pattern : list Z) (mode : SyntaxMode) (s : list Z) (p : nat)
    (b : option nat) : Prop :=
  longest_of pattern mode (drop p s) (p =? 0)%nat (word_before_byte s p) b.

Lemma probe_at_shift s start i : probe_at s start (S i) = probe_at s (probe_at s start 1) i.
Proof. induction i as [|i IH]; [done|]. cbn [probe_at] in *. by rewrite IH. Qed.

Lemma probe_at_bound s start i : Forall is_byte s -> (start <= length s)%nat ->
  (probe_at s start i <= length s)%nat.
Proof.
  intros Hb Hs. induction i as [|i IH]; [done|]. cbn.
  destruct (Nat.lt_ge_cases (probe_at s start i) (length s)) as [Hlt|Hge].
  - pose proof (decode_rune_bounds s Hb _ Hlt) as H. destruct (decode_rune _ _). cbn. lia.
  - unfold decode_rune. rewrite drop_ge by done. cbn. lia.
Qed.

Lemma probe_at_end s i : probe_at s (length s) i = length s.
Proof.
  induction i as [|i IH]; [done|]. cbn. rewrite IH. unfold decode_rune. rewrite drop_ge by done.
  cbn. lia.
Qed.

Section Search.
Context (pattern : list Z) (mode : SyntaxMode).
Local Abbreviation e := (new_engine pattern mode).
Context (Hok : ok e = true) (s : list Z) (Hbytes : Forall is_byte s).
Context (Hframes : frames_suffice e (length s)).

(** What a search that starts at [start] may return. *)
Definition search_ok (start : nat) (res : SearchResult) (captures : list Capture) : Prop :=
  match match_start_ res with
  | Some p => exists i found, p = probe_at s start i
      /\ (forall j, (j < i)%nat -> probe_longest pattern mode s (probe_at s start j) None)
      /\ probe_longest pattern mode s p (Some (match_len res))
      /\ captures_of pattern mode (drop p s) (Some (match_len res)) found (p =? 0)%nat
           (word_before_byte s p)
      /\ captures = map (shift_capture p) found
  | None => captures = [] /\ forall i, probe_longest pattern mode s (probe_at s start i) None
  end.

Lemma frames_suffice_drop p : frames_suffice e (length (drop p s)).
Proof.
  unfold frames_suffice in *. rewrite length_drop. etrans; [|exact Hframes].
  apply Nat2Z.inj_le. apply Nat.mul_le_mono_l, Nat.add_le_mono_l, Nat.mul_le_mono_r. lia.
Qed.

Lemma search_loop_ok fuel self probe ctx :
  context_ok ctx -> (probe <= length s)%nat -> (length s - probe < fuel)%nat ->
  let '(res, captures, ctx') := search_loop fuel self e s probe ctx in
  context_ok ctx' /\ search_ok probe res captures.
Proof.
  revert probe ctx. induction fuel as [|fuel IH]; intros probe ctx Hctx Hp Hf; [lia|].
  cbn [search_loop]. rewrite (proj2 (Nat.ltb_ge _ _) Hp).
  pose proof (capturing_longest pattern mode Hok (drop probe s) (Forall_drop _ _ _ Hbytes) self ctx
    (probe =? 0)%nat (word_before_byte s probe) Hctx) as H.
  destruct (find_prefix_with_context _ _ _ _ _ _) as [[[len|] captures] ctx1];
    destruct H as (H1 & H2 & H3); specialize (H3 (frames_suffice_drop probe)).
  - split; [done|]. exists 0%nat, captures. split_and!; [done|lia|done|done|done].
  - assert (captures = []) as -> by (by destruct H2 as (? & ? & _ & ?)).
    destruct (Nat.ltb_spec probe (length s)) as [Hlt|Hge].
    + pose proof (decode_rune_bounds s Hbytes probe Hlt) as Hb.
      set (next := (probe + (decode_rune s probe).2)%nat).
      assert (probe < next <= length s)%nat as Hnext
        by (unfold next; destruct (decode_rune s probe); cbn; lia).
      specialize (IH next ctx1 H1 ltac:(lia) ltac:(lia)).
      destruct (search_loop _ _ _ _ _ _) as [[res captures] ctx2]. destruct IH as [I1 I2].
      split; [done|]. unfold search_ok in *. destruct (match_start_ res) as [p|].
      * destruct I2 as (i & found & -> & Hbefore & Hrest). exists (S i), found.
        rewrite probe_at_shift. split_and!; [done| |apply Hrest..].
        intros [|j] Hj; [done|]. rewrite probe_at_shift. apply Hbefore. lia.
      * destruct I2 as [-> Hall]. split; [done|]. intros [|i]; [done|].
        rewrite probe_at_shift. apply Hall.
    + split; [done|]. split; [done|]. intros i. assert (probe = length s) as -> by lia.
      by rewrite probe_at_end.
Qed.
End Search.

(** The first character of a non-empty match is one the filter accepts; an empty match sets
    [can_match_empty].  Overlong encodings of ASCII characters are the exception. *)
Lemma first_char_longest pattern mode s b0 at_start n :
  ok (new_engine pattern mode) = true -> Forall is_byte (b0 :: s) ->
  b0 < 128 \/ 128 <= fst (decode_rune (b0 :: s) 0) ->
  longest_of pattern mode (b0 :: s) at_start false (Some n) ->
  let info := first_char_info_ (new_engine pattern mode) in
  if (n =? 0)%nat then can_match_empty info = true else first_char_test info b0 = true.
Proof.
  intros Hok Hbytes Hoverlong (pr' & tree' & Hd' & H).
  destruct (new_engine_ready pattern mode Hok) as (pr & tree & Hd & Hr).
  destruct (denotes_fun _ _ _ _ _ _ Hd' Hd) as [-> ->].
  pose proof (ready_for _ _ _ Hr) as He. destruct H as (k & -> & Hk & _).
  change (first_char_info_ (new_engine pattern mode)) with (compute_first_char_info (new_engine pattern mode)).
  destruct k as [|k]; [rewrite offset_0; by eapply first_char_empty|].
  pose proof (match_within _ _ _ _ _ Hbytes Hk) as Hlen.
  pose proof (offset_mono (b0 :: s) Hbytes 0 (S k) ltac:(lia)) as Hpos. rewrite offset_0 in Hpos.
  rewrite (proj2 (Nat.eqb_neq _ _)) by lia.
  destruct (rune_here (b0 :: s) Hbytes 0 ltac:(lia)) as (Hspan & _); [rewrite offset_0; cbn; lia|]. rewrite offset_0 in Hspan.
  assert (runes (b0 :: s) !! 0%nat = Some (decode_rune (b0 :: s) 0).1) as Hrune
    by (by rewrite runes_lookup, Hspan).
  pose proof (first_char_rune _ tree He _ Hbytes at_start false k _ Hk Hrune) as H.
  unfold first_char_test, is_ascii. rewrite Forall_cons in Hbytes. destruct Hbytes as [Hb0 _].
  destruct (Z.ltb_spec b0 128) as [Hlt|Hge]; cbn [negb].
  - unfold decode_rune in H. cbn [drop] in H. rewrite (proj2 (Z.ltb_lt _ _) Hlt) in H. cbn [fst] in H.
    by rewrite (proj2 (Z.ltb_lt _ _) Hlt) in H.
  - destruct Hoverlong as [?|Hr0]; [lia|]. by rewrite (proj2 (Z.ltb_ge _ _) Hr0) in H.
Qed.

Lemma empty_longest pattern mode s at_start prev_is_word :
  ok (new_engine pattern mode) = true -> Forall is_byte s ->
  longest_of pattern mode s at_start prev_is_word (Some 0%nat) ->
  can_match_empty (first_char_info_ (new_engine pattern mode)) = true.
Proof.
  intros Hok Hbytes (pr' & tree' & Hd' & k & Hk0 & Hk & _).
  destruct (new_engine_ready pattern mode Hok) as (pr & tree & Hd & Hr).
  destruct (denotes_fun _ _ _ _ _ _ Hd' Hd) as [-> ->].
  pose proof (ready_for _ _ _ Hr) as He.
  change (first_char_info_ (new_engine pattern mode)) with (compute_first_char_info (new_engine pattern mode)).
  destruct k as [|k]; [by eapply first_char_empty|].
  pose proof (match_within _ _ _ _ _ Hbytes Hk) as Hlen.
  pose proof (offset_mono s Hbytes 0 (S k) ltac:(lia)). lia.
Qed.
