(* ===== verification/ConstructionTheorems.v ===== *)
(** The properties of the regex parser and of the automaton it leads to: what
    a successful parse yields, that a failed one says why, that it always finishes, and inputs on which the code
    and its documents part. *)
From S2P Require Import Prelude.
From S2P Require Import Utf8.
From S2P Require Import AsciiBitmap.
From S2P Require Import UnicodeData.
From S2P Require Import RuneClass.
From S2P Require Import RegexSyntax.
From S2P Require Import PostfixBuilder.
From S2P Require Import RegexSpec.
From S2P Require Import ParserFacts.
From S2P Require Import Nfa.
From S2P Require Import NfaPaths.
From S2P Require Import Exploration.
From S2P Require Import Closure.
From S2P Require Import ClosureCache.
From S2P Require Import MatchContext.
From S2P Require Import Simulate.
From S2P Require Import Engine.
From S2P Require Import EngineFacts.
From S2P Require Import RegexCorrect.

(** C36: a pattern that parses yields only classes ready for matching, tokens that are
    atoms, operators or captures below the count, class references inside the class
    table, at most [MaxCaptures] captures and at most [MaxPostfixSize] tokens. *)
Theorem parse_result_well_formed (pattern : list Z) (mode : SyntaxMode) (pr : ParseResult)
    (Hparse : regexp_to_postfix_runes pattern mode = inr pr) : parse_wf pr.
Proof. by eapply parse_result_wf. Qed.

Lemma parse_result_well_formed_witness :
  exists pr, regexp_to_postfix_runes (bytes "(?:a|\p{Lu}){2,3}(b)*?") Extended = inr pr
             /\ parse_wf pr.
Proof.
  destruct (regexp_to_postfix_runes (bytes "(?:a|\p{Lu}){2,3}(b)*?") Extended) as [code|pr] eqn:E.
  - vm_compute in E. discriminate E.
  - exists pr. split; [reflexivity|]. by apply (parse_result_well_formed _ _ _ E).
Defined.

(** A pattern that does not parse leaves an error code other than [NoError]. *)
Theorem parse_failure_reported (pattern : list Z) (mode : SyntaxMode) (code : ErrorCode)
    (Hparse : regexp_to_postfix_runes pattern mode = inl code) : code <> NoError.
Proof. by eapply parse_error. Qed.

Lemma parse_failure_reported_witness :
  regexp_to_postfix_runes (bytes "a**") Extended = inl ErrorRepeatOp
  /\ ErrorRepeatOp <> NoError.
Proof.
  assert (regexp_to_postfix_runes (bytes "a**") Extended = inl ErrorRepeatOp) as E
    by (vm_compute; reflexivity).
  split; [exact E|]. exact (parse_failure_reported (bytes "a**") Extended ErrorRepeatOp E).
Defined.

(** C37: the parser terminates on every input: neither the main loop nor the loop over a
    character class ever stops because of its fuel, since each turn consumes a rune. *)
Theorem parser_terminates (pattern : list Z) (b : Builder) (pos : nat) (rc : RuneClass) (more : nat) :
  parse_loop (length pattern + more) pattern b pos = parse_loop (length pattern) pattern b pos
  /\ class_loop (length pattern + more) pattern b pos rc
     = class_loop (length pattern) pattern b pos rc.
Proof. split; [apply parse_loop_fuel; lia|apply class_loop_fuel; lia]. Qed.

(** * What the code does where a document or a test says otherwise *)

(** The repetition count is read into a [size_t] without an overflow check, so a
    count just above [2 ^ 64] passes the [MaxRepetition] test: [a{18446744073709551617}]
    is accepted and means [a], while [a{1001}] is refused. *)
Theorem repetition_count_wraps :
  regexp_to_postfix_runes (bytes "a{18446744073709551617}") Extended
    = inr (mkParse [ord "a"] [] 0)
  /\ regexp_to_postfix_runes (bytes "a{1001}") Extended = inl ErrorRepeatSize.
Proof. split; vm_compute; reflexivity. Qed.

(** A repetition of zero leaves no operand behind: [a{0}|b] parses to the postfix
    [b |] and [(a{0})] to a capture of nothing, which are not the postfix of a tree. *)
Theorem zero_repetition_drops_operand :
  (exists pr, regexp_to_postfix_runes (bytes "a{0}|b") Extended = inr pr
     /\ parse_postfix pr = [ord "b"; Alternation] /\ re_of_postfix (parse_postfix pr) = None)
  /\ (exists pr, regexp_to_postfix_runes (bytes "(a{0})") Extended = inr pr
     /\ parse_postfix pr = [CaptureGroup] /\ re_of_postfix (parse_postfix pr) = None).
Proof. split; eexists; (split; [vm_compute; reflexivity|split; vm_compute; reflexivity]). Qed.

(** Strict mode refuses the standalone braces [{] and [{3] but accepts [{0}], which
    drops an atom that is not there and leaves the empty pattern. *)
Theorem strict_standalone_brace :
  regexp_to_postfix_runes (bytes "{0}") IregexpStrict = inr (mkParse [] [] 0)
  /\ regexp_to_postfix_runes (bytes "{") IregexpStrict = inl ErrorRepeatOp
  /\ regexp_to_postfix_runes (bytes "{3") IregexpStrict = inl ErrorRepeatOp
  /\ regexp_to_postfix_runes (bytes "}") IregexpStrict = inl ErrorStrictSyntax.
Proof. repeat split; vm_compute; reflexivity. Qed.

(** * The properties of the automaton: Thompson's construction and the closure
    cache. *)



(** C33: in a compiled engine the cached closure of a state, under any combination of the
    boundary and anchor flags, lists once each the consuming and accepting states that
    the epsilon transitions enabled by those flags lead to. *)
Theorem epsilon_closure_cached_correct (pattern : list Z) (mode : SyntaxMode) (s : nat) (f : Flags)
    (Hok : ok (new_engine pattern mode) = true)
    (Hs : (s < length (owned_states_ (new_engine pattern mode)))%nat) :
  let e := new_engine pattern mode in
  let closure := epsilon_closure_cached e (Some s) (effective e f) in
  NoDup closure /\ forall t, t ∈ closure <-> ends_in (owned_states_ e) f s t.
Proof.
  destruct (new_engine_ready pattern mode Hok) as (pr & tree & _ & Hr).
  apply (cached_closure _ (engine_cache _ _ (ready_for _ _ _ Hr))).
  apply lookup_lt_is_Some_2 in Hs. by destruct Hs as [st Hst]; exists st.
Qed.

Lemma epsilon_closure_cached_correct_witness :
  let e := new_engine (bytes "(a|\b)*$") Extended in
  let f := mkFlags true false true in
  epsilon_closure_cached e (Some (start_state_ e)) (effective e f) = [1; 0]%nat
  /\ ends_in (owned_states_ e) f (start_state_ e) 0.
Proof.
  intros e f.
  assert (epsilon_closure_cached e (Some (start_state_ e)) (effective e f) = [1; 0]%nat) as E
    by (vm_compute; reflexivity).
  split; [exact E|].
  destruct (epsilon_closure_cached_correct (bytes "(a|\b)*$") Extended (start_state_ e) f
    ltac:(vm_compute; reflexivity) ltac:(vm_compute; lia)) as [_ H].
  apply H. change (new_engine _ _) with e. rewrite E. apply list_elem_of_In. cbn. tauto.
Defined.
