(* ===== verification/RegexTheorems.v ===== *)
(** The properties of the regex engine, each at a concrete pattern too. *)

From S2P Require Import Prelude.
From S2P Require Import Utf8.
From S2P Require Import AsciiBitmap.
From S2P Require Import RuneClass.
From S2P Require Import RegexSyntax.
From S2P Require Import PostfixBuilder.
From S2P Require Import ParserFacts.
From S2P Require Import RegexSpec.
From S2P Require Import Nfa.
From S2P Require Import NfaPaths.
From S2P Require Import Exploration.
From S2P Require Import Closure.
From S2P Require Import ClosureCache.
From S2P Require Import MatchContext.
From S2P Require Import Simulate.
From S2P Require Import Capture.
From S2P Require Import Engine.
From S2P Require Import EngineFacts.
From S2P Require Import CaptureSpec.
From S2P Require Import RegexCorrect.

(** A string literal is bytes. *)
Definition bytes_check (s : list Z) : bool := forallb (fun b => (0 <=? b) && (b <? 256)) s.

Lemma bytes_checked s : bytes_check s = true -> Forall is_byte s.
Proof.
  unfold bytes_check. rewrite forallb_forall. intros H. apply Forall_forall. intros b Hb.
  apply list_elem_of_In, H in Hb. unfold is_byte. lia.
Qed.

(** C1: on every pattern that compiles and every input, [find_prefix] returns the
    byte length of the longest prefix of the input that the pattern's syntax tree
    matches, and [npos] exactly when no prefix matches; the context stays reusable. *)
Theorem find_prefix_longest (pattern : list Z) (mode : SyntaxMode) (s : list Z) (self : nat)
    (ctx : MatchContext) (at_start : bool)
    (Hok : ok (new_engine pattern mode) = true) (Hbytes : Forall is_byte s)
    (Hctx : context_ok ctx) :
  let '(b, ctx') := find_prefix self (new_engine pattern mode) s ctx at_start in
  longest_of pattern mode s at_start false b /\ context_ok ctx'.
Proof. by apply noncapturing_longest. Qed.

Lemma find_prefix_longest_witness :
  fst (find_prefix 7 (new_engine (bytes "(a|ab)(c|bcd)*\b") Extended) (bytes "abcd!") new_context true)
    = Some 4%nat
  /\ longest_of (bytes "(a|ab)(c|bcd)*\b") Extended (bytes "abcd!") true false (Some 4%nat).
Proof.
  split; [vm_compute; reflexivity|].
  pose proof (find_prefix_longest (bytes "(a|ab)(c|bcd)*\b") Extended (bytes "abcd!") 7 new_context true
    ltac:(vm_compute; reflexivity) ltac:(apply bytes_checked; reflexivity) new_context_ok) as H.
  assert (fst (find_prefix 7 (new_engine (bytes "(a|ab)(c|bcd)*\b") Extended) (bytes "abcd!")
    new_context true) = Some 4%nat) as E by (vm_compute; reflexivity).
  destruct (find_prefix _ _ _ _ _) as [b ctx']. cbn in E. rewrite E in H. apply H.
Defined.

(** C24: the capturing [find_prefix] reports the captures of a match of the tree that
    ends where it says; and while the frame arena suffices for the input its length
    is that of the longest match. *)
Theorem find_prefix_captures_correct (pattern : list Z) (mode : SyntaxMode) (s : list Z)
    (self : nat) (ctx : MatchContext) (at_start : bool)
    (Hok : ok (new_engine pattern mode) = true) (Hbytes : Forall is_byte s)
    (Hctx : context_ok ctx) :
  let '(b, captures, ctx') := find_prefix_captures self (new_engine pattern mode) s ctx at_start in
  context_ok ctx' /\ captures_of pattern mode s b captures at_start false
  /\ (frames_suffice (new_engine pattern mode) (length s) ->
      longest_of pattern mode s at_start false b).
Proof. by apply capturing_longest. Qed.

Lemma find_prefix_captures_correct_witness :
  exists b captures ctx',
    find_prefix_captures 7 (new_engine (bytes "(a+)(b|(c))") Extended) (bytes "aaac") new_context true
      = (b, captures, ctx')
    /\ b = Some 4%nat
    /\ captures_of (bytes "(a+)(b|(c))") Extended (bytes "aaac") b captures true false.
Proof.
  pose proof (find_prefix_captures_correct (bytes "(a+)(b|(c))") Extended (bytes "aaac") 7 new_context
    true ltac:(vm_compute; reflexivity) ltac:(apply bytes_checked; reflexivity) new_context_ok) as H.
  assert (fst (fst (find_prefix_captures 7 (new_engine (bytes "(a+)(b|(c))") Extended) (bytes "aaac")
    new_context true)) = Some 4%nat) as E by (vm_compute; reflexivity).
  destruct (find_prefix_captures _ _ _ _ _) as [[b captures] ctx'] eqn:Ef.
  exists b, captures, ctx'. split_and!; [reflexivity|exact E|apply H].
Defined.

(** C34: after a successful capturing match there is one capture per group, and each
    one is either missing or a span [start <= end] inside the match. *)
Theorem captures_well_formed (pattern : list Z) (mode : SyntaxMode) (s : list Z)
    (self : nat) (ctx : MatchContext) (at_start : bool) (n : nat)
    (Hok : ok (new_engine pattern mode) = true) (Hbytes : Forall is_byte s)
    (Hctx : context_ok ctx) :
  let '(b, captures, _) := find_prefix_captures self (new_engine pattern mode) s ctx at_start in
  b = Some n -> length captures = num_captures_ (new_engine pattern mode)
                /\ Forall (capture_in n) captures.
Proof.
  pose proof (capturing_longest pattern mode Hok s Hbytes self ctx at_start false Hctx) as H.
  unfold find_prefix_captures. destruct (find_prefix_with_context _ _ _ _ _ _) as [[b captures] ctx'].
  intros ->. destruct H as (_ & H & _). by eapply captures_spans.
Qed.

Lemma captures_well_formed_witness :
  exists captures, (let '(b, caps, _) := find_prefix_captures 7
      (new_engine (bytes "(a+)(b|(c))") Extended) (bytes "aaab") new_context true in
    b = Some 4%nat /\ captures = caps)
  /\ Forall (capture_in 4) captures.
Proof.
  pose proof (captures_well_formed (bytes "(a+)(b|(c))") Extended (bytes "aaab") 7 new_context true 4
    ltac:(vm_compute; reflexivity) ltac:(apply bytes_checked; reflexivity) new_context_ok) as H.
  assert (fst (fst (find_prefix_captures 7 (new_engine (bytes "(a+)(b|(c))") Extended) (bytes "aaab")
    new_context true)) = Some 4%nat) as E by (vm_compute; reflexivity).
  destruct (find_prefix_captures _ _ _ _ _) as [[b captures] ctx'].
  exists captures. split; [by split|]. by apply H.
Defined.

(** C30: the two simulations agree: while the frame arena suffices, the capturing call
    returns the same length as the one without captures. *)
Theorem capturing_agrees (pattern : list Z) (mode : SyntaxMode) (s : list Z)
    (self self' : nat) (ctx ctx' : MatchContext) (at_start : bool)
    (Hok : ok (new_engine pattern mode) = true) (Hbytes : Forall is_byte s)
    (Hctx : context_ok ctx) (Hctx' : context_ok ctx')
    (Hframes : frames_suffice (new_engine pattern mode) (length s)) :
  fst (fst (find_prefix_captures self (new_engine pattern mode) s ctx at_start))
  = fst (find_prefix self' (new_engine pattern mode) s ctx' at_start).
Proof.
  pose proof (capturing_longest pattern mode Hok s Hbytes self ctx at_start false Hctx) as H1.
  pose proof (noncapturing_longest pattern mode Hok s Hbytes self' ctx' at_start false Hctx') as H2.
  unfold find_prefix, find_prefix_captures.
  destruct (find_prefix_with_context _ _ _ _ _ _) as [[b captures] c1].
  destruct (find_prefix_noncapturing_with_context _ _ _ _ _ _) as [b' c2].
  destruct H1 as (_ & _ & H1), H2 as [H2 _]. cbn.
  eapply longest_of_unique; [by apply H1|done].
Qed.

Lemma capturing_agrees_witness :
  fst (fst (find_prefix_captures 7 (new_engine (bytes "((a)|b)*c?") Extended) (bytes "abac")
        new_context true))
  = fst (find_prefix 9 (new_engine (bytes "((a)|b)*c?") Extended) (bytes "abac") new_context true).
Proof.
  apply (capturing_agrees (bytes "((a)|b)*c?") Extended (bytes "abac") 7 9 new_context new_context true);
    [vm_compute; reflexivity|apply bytes_checked; reflexivity|exact new_context_ok
    |exact new_context_ok|vm_compute; discriminate].
Defined.

(** C32: a reused [MatchContext] leaks nothing: whatever engines and inputs it served
    before, and whatever address the engine has, [find_prefix] gives the same result
    as with a fresh one. *)
Theorem context_reuse (pattern pattern' : list Z) (mode mode' : SyntaxMode) (s s' : list Z)
    (self self' : nat) (ctx : MatchContext) (at_start at_start' : bool)
    (Hok : ok (new_engine pattern mode) = true) (Hok' : ok (new_engine pattern' mode') = true)
    (Hbytes : Forall is_byte s) (Hbytes' : Forall is_byte s') (Hctx : context_ok ctx) :
  let ctx1 := snd (find_prefix_captures self' (new_engine pattern' mode') s' ctx at_start') in
  fst (find_prefix self (new_engine pattern mode) s ctx1 at_start)
  = fst (find_prefix self (new_engine pattern mode) s new_context at_start).
Proof.
  pose proof (capturing_longest pattern' mode' Hok' s' Hbytes' self' ctx at_start' false Hctx) as H.
  unfold find_prefix, find_prefix_captures.
  destruct (find_prefix_with_context _ _ _ _ _ _) as [[b0 captures] ctx1]. destruct H as [Hctx1 _].
  pose proof (noncapturing_longest pattern mode Hok s Hbytes self ctx1 at_start false Hctx1) as H1.
  pose proof (noncapturing_longest pattern mode Hok s Hbytes self new_context at_start false
    new_context_ok) as H2.
  cbn [snd]. destruct (find_prefix_noncapturing_with_context _ _ _ ctx1 _ _) as [b1 c1].
  destruct (find_prefix_noncapturing_with_context _ _ _ new_context _ _) as [b2 c2].
  destruct H1 as [H1 _], H2 as [H2 _]. by eapply longest_of_unique.
Qed.

Lemma context_reuse_witness :
  let ctx1 := snd (find_prefix_captures 7 (new_engine (bytes "(x)*") Extended) (bytes "xx") new_context true) in
  fst (find_prefix 7 (new_engine (bytes "a*") Extended) (bytes "aab") ctx1 true) = Some 2%nat.
Proof.
  pose proof (context_reuse (bytes "a*") (bytes "(x)*") Extended Extended (bytes "aab") (bytes "xx") 7 7
    new_context true true ltac:(vm_compute; reflexivity) ltac:(vm_compute; reflexivity)
    ltac:(apply bytes_checked; reflexivity) ltac:(apply bytes_checked; reflexivity) new_context_ok) as H.
  cbv zeta in H |- *. rewrite H. vm_compute. reflexivity.
Defined.

(** C31: [match] says whether the pattern matches the whole input. *)
Theorem full_match_correct (pattern : list Z) (mode : SyntaxMode) (s : list Z) (self : nat)
    (ctx : MatchContext)
    (Hok : ok (new_engine pattern mode) = true) (Hbytes : Forall is_byte s)
    (Hctx : context_ok ctx) :
  fst (full_match self (new_engine pattern mode) s ctx) = true <-> matches_all pattern mode s.
Proof.
  pose proof (noncapturing_longest pattern mode Hok s Hbytes self ctx true false Hctx) as H.
  unfold full_match, find_prefix. destruct (find_prefix_noncapturing_with_context _ _ _ _ _ _) as [b ctx'].
  destruct H as [H _]. cbn. rewrite bool_decide_eq_true. by apply longest_all.
Qed.

Lemma full_match_correct_witness :
  matches_all (bytes "[^a-c]{2,3}") Extended (bytes "xyz")
  /\ ~ matches_all (bytes "[^a-c]{2,3}") Extended (bytes "xya").
Proof.
  split.
  - apply (full_match_correct (bytes "[^a-c]{2,3}") Extended (bytes "xyz") 7 new_context);
      [vm_compute; reflexivity|apply bytes_checked; reflexivity|exact new_context_ok
      |vm_compute; reflexivity].
  - intros H. apply (full_match_correct (bytes "[^a-c]{2,3}") Extended (bytes "xya") 7 new_context) in H;
      [|vm_compute; reflexivity|apply bytes_checked; reflexivity|exact new_context_ok].
    vm_compute in H. discriminate.
Defined.

(** C28: [search] finds the first code point from [start_pos] on where the pattern
    matches, with the word boundary decided by the byte before it, the longest match
    there and its captures moved to the whole string; and finds nothing exactly when
    no probe matches.  This holds while the arena of the captures has a frame for every
    thread ([frames_suffice]); a thread that gets none is dropped, and a match may be missed. *)
Theorem search_leftmost (pattern : list Z) (mode : SyntaxMode) (s : list Z) (self : nat)
    (ctx : MatchContext) (start_pos : nat)
    (Hok : ok (new_engine pattern mode) = true) (Hbytes : Forall is_byte s)
    (Hctx : context_ok ctx) (Hstart : (start_pos <= length s)%nat)
    (Hframes : frames_suffice (new_engine pattern mode) (length s)) :
  let '(res, captures, ctx') := search self (new_engine pattern mode) s ctx start_pos in
  context_ok ctx' /\ search_ok pattern mode s start_pos res captures.
Proof.
  unfold search. rewrite Hok. cbn [negb]. apply search_loop_ok; try done. lia.
Qed.

Lemma search_leftmost_witness :
  let '(res, captures, _) := search 7 (new_engine (bytes "(o+)\b") Extended) (bytes "xo foo oo") new_context 2 in
  search_ok (bytes "(o+)\b") Extended (bytes "xo foo oo") 2 res captures.
Proof.
  pose proof (search_leftmost (bytes "(o+)\b") Extended (bytes "xo foo oo") 7 new_context 2
    ltac:(vm_compute; reflexivity) ltac:(apply bytes_checked; reflexivity) new_context_ok
    ltac:(vm_compute; repeat constructor) ltac:(vm_compute; discriminate)) as H.
  destruct (search _ _ _ _ _) as [[res captures] ctx']. apply H.
Defined.

(** C35: the first-character filter lets every match through: if a non-empty prefix
    matches then [test] accepts the first byte, unless that byte starts an overlong
    encoding of an ASCII character; if the empty prefix matches then
    [can_match_empty] is set. *)
Theorem first_char_info_sound (pattern : list Z) (mode : SyntaxMode) (s : list Z) (b0 : Z)
    (self : nat) (ctx : MatchContext) (at_start : bool) (n : nat)
    (Hok : ok (new_engine pattern mode) = true) (Hbytes : Forall is_byte (b0 :: s))
    (Hctx : context_ok ctx)
    (Hoverlong : b0 < 128 \/ 128 <= fst (decode_rune (b0 :: s) 0))
    (Hmatch : fst (find_prefix self (new_engine pattern mode) (b0 :: s) ctx at_start) = Some n) :
  let info := first_char_info_ (new_engine pattern mode) in
  if (n =? 0)%nat then can_match_empty info = true else first_char_test info b0 = true.
Proof.
  pose proof (noncapturing_longest pattern mode Hok (b0 :: s) Hbytes self ctx at_start false Hctx) as H.
  unfold find_prefix in Hmatch.
  destruct (find_prefix_noncapturing_with_context _ _ _ _ _ _) as [b ctx']. cbn in Hmatch. subst b.
  destruct H as [H _]. by apply (first_char_longest pattern mode s b0 at_start n).
Qed.

Lemma first_char_info_sound_witness :
  first_char_test (first_char_info_ (new_engine (bytes "[b-d]x|\p{Lu}") Extended)) (ord "c") = true.
Proof.
  apply (first_char_info_sound (bytes "[b-d]x|\p{Lu}") Extended (bytes "x") (ord "c") 7 new_context true 2);
    [vm_compute; reflexivity|apply bytes_checked; reflexivity|exact new_context_ok|left; reflexivity
    |vm_compute; reflexivity].
Defined.

(** The exception is real: the engine of [A] matches the overlong encoding C1 81
    of [A], which its own first-character filter excludes. *)
Theorem first_char_overlong :
  fst (find_prefix 7 (new_engine (bytes "A") Extended) [0xC1; 0x81] new_context true) = Some 2%nat
  /\ first_char_test (first_char_info_ (new_engine (bytes "A") Extended)) 0xC1 = false.
Proof. split; vm_compute; reflexivity. Qed.

(** C40: what construction yields: the parser's error, an error when the tokens are not
    the postfix form of a tree, the size error of the closure cache, or a working
    engine for the pattern's tree; the error code is [NoError] only for the last. *)
Theorem new_engine_cases (pattern : list Z) (mode : SyntaxMode) :
  let e := new_engine pattern mode in
  match regexp_to_postfix_runes pattern mode with
  | inl code => code <> NoError /\ error_code_ e = code
  | inr pr =>
      match pattern_of pr with
      | None => ok e = false
      | Some tree => error_code_ e = ErrorPatternTooLarge \/ engine_ready e pr tree
      end
  end.
Proof. apply new_engine_outcome. Qed.
