(* ===== verification/PatternTheorems.v ===== *)
(** Patterns by what they mean: every tree can be written as a pattern that the
    parser reads back as that very tree, and the engine of the text finds the
    longest match of the tree. *)

From S2P Require Import Prelude Utf8 AsciiBitmap RuneClass RegexSyntax RegexSpec PostfixBuilder.
From S2P Require Import ParserFacts.
From S2P Require Import PatternSyntax.
From S2P Require Import PatternParse.
From S2P Require Import Nfa.
From S2P Require Import NfaPaths.
From S2P Require Import Closure.
From S2P Require Import ClosureCache.
From S2P Require Import MatchContext.
From S2P Require Import Simulate.
From S2P Require Import Capture.
From S2P Require Import Engine.
From S2P Require Import EngineFacts.
From S2P Require Import RegexCorrect.

(** * The classes of an engine are the parser's *)











(** A counted repetition [{n,m}], [{n}] or [{n,}] after an operand replaces its
    tokens by those of a tree that matches exactly between [n] and [m] (or at least
    [n]) matches of the operand in a row; [{0}] removes the operand. *)
Theorem repetition_correct (b b' : Builder) (before : list Z) (r : re) (n m : Z) (unbounded : bool)
    (Hpostfix : postfix b = before ++ post r) (Hatom : atom_start b = length before)
    (Hn : 0 <= n) (Hm : 0 <= m) (Hnm : unbounded = false -> n <= m)
    (Hexpand : expand_repetition b n m unbounded = (true, b')) :
  if (n =? 0) && negb unbounded && (m =? 0) then postfix b' = before
  else exists r', postfix b' = before ++ post r'
    /\ forall accepts w flags i j,
         re_match accepts w flags r' i j
         <-> exists k, (Z.to_nat n <= k)%nat /\ (unbounded = true \/ (k <= Z.to_nat m)%nat)
                       /\ reps accepts w flags r k i j.
Proof.
  destruct (_ && _) eqn:Hz.
  - unfold expand_repetition in Hexpand. destruct (_ <? _); [done|]. rewrite Hz in Hexpand.
    injection Hexpand as <-. rewrite Hpostfix, Hatom. destruct (has_pending_concat_to_undo _); cbn;
      by rewrite take_app_length.
  - pose proof (expand_repetition_appends _ _ _ _ _ Hn Hm Hexpand Hz) as E. cbv zeta in E.
    rewrite Hpostfix, Hatom, take_app_length, drop_app_length, expansion_items in E.
    destruct (repeat_items r (Z.to_nat n) (Z.to_nat m) unbounded) as [|x items] eqn:Ei.
    { exfalso. unfold repeat_items in Ei. apply app_eq_nil in Ei as [E1 E2].
      apply (f_equal length) in E1. rewrite length_replicate in E1. cbn in E1.
      destruct unbounded; [done|]. apply (f_equal length) in E2. rewrite length_replicate in E2. cbn in E2.
      specialize (Hnm eq_refl). lia. }
    exists (chain x items). split; [exact E|]. intros accepts w flags i j. rewrite match_chain.
    rewrite <-(in_turn_repeat accepts w flags r (Z.to_nat n) (Z.to_nat m) unbounded i j);
      [by rewrite Ei|]. intros Hu. specialize (Hnm Hu). lia.
Qed.

Lemma repetition_correct_witness :
  let b := set_atom (set_postfix (new_builder Extended) [ord "x"; ord "a"; ZeroOrOne]) 1 false false in
  exists b' r', expand_repetition b 2 3 false = (true, b') /\ postfix b' = [ord "x"] ++ post r'
    /\ (re_match Z.eqb [ord "a"; ord "a"; ord "a"; ord "a"] (fun _ => mkFlags false false false) r' 0 3
        <-> exists k, (2 <= k)%nat /\ (false = true \/ (k <= 3)%nat)
            /\ reps Z.eqb [ord "a"; ord "a"; ord "a"; ord "a"] (fun _ => mkFlags false false false)
                 (Quant QZeroOrOne false (Label (ord "a"))) k 0 3).
Proof.
  intros b. destruct (expand_repetition b 2 3 false) as [ret b'] eqn:E.
  assert (ret = true) as -> by (vm_compute in E; congruence).
  destruct (repetition_correct b b' [ord "x"] (Quant QZeroOrOne false (Label (ord "a"))) 2 3 false
    eq_refl eq_refl ltac:(lia) ltac:(lia) ltac:(lia) E) as (r' & E1 & H).
  exists b', r'. split; [reflexivity|]. split; [exact E1|]. apply H.
Defined.
