(* ===== verification/Token.v ===== *)
(** Tokens ([include/trieste/token.h]): definitions, flags, the registry of
    names, and the built-in tokens the other components compare against. *)
From S2P Require Import Prelude.
From stdpp Require Export countable gmap.
Open Scope Z_scope.

(** A [Token] is a pointer to a [TokenDef].  Definitions are never copied
    ([TokenDef(const TokenDef&) = delete]) and [register_token] refuses a second
    definition of a name, so two tokens are the same pointer exactly when their
    definitions are equal, and a [Token] is modelled by the definition it
    points to.  The null token is not modelled: reading it is undefined. *)
Record TokenDef := mkTokenDef {
  name : string;
  fl : Z;
  default_map_id : Z
}.
Definition Token := TokenDef.

#[export] Instance TokenDef_eq_dec : EqDecision TokenDef.
Proof. solve_decision. Defined.
#[export] Instance TokenDef_countable : Countable TokenDef.
Proof.
  refine (inj_countable' (fun d => (name d, fl d, default_map_id d))
            (fun '(n, f, i) => mkTokenDef n f i) _).
  by intros [].
Defined.
#[export] Instance Token_eq_dec : EqDecision Token := TokenDef_eq_dec.
#[export] Instance Token_countable : Countable Token := TokenDef_countable.
#[export] Instance TokenDef_inhabited : Inhabited TokenDef :=
  populate (mkTokenDef "" 0 0).

Definition DEFAULT_MAP_TABLE_SIZE : Z := 128.
Definition sizeof_void_ptr : Z := 8.

(** [TokenDef::has], [Token::operator&] *)
Definition has (t : Token) (f : Z) : bool := negb (Z.land (fl t) f =? 0).

(** [Token::operator==] *)
Definition token_eqb (a b : Token) : bool := bool_decide (a = b).

(** [Token::in] *)
Definition token_in (l : list Token) (t : Token) : bool := existsb (token_eqb t) l.

(** [Token::default_map_hash] *)
Definition default_map_hash (t : Token) : Z := default_map_id t / sizeof_void_ptr.

(** * Flags *)
Definition flag_none : Z := 0.
Definition flag_print : Z := Z.shiftl 1 0.
Definition flag_symtab : Z := Z.shiftl 1 1.
Definition flag_defbeforeuse : Z := Z.shiftl 1 2.
Definition flag_shadowing : Z := Z.shiftl 1 3.
Definition flag_lookup : Z := Z.shiftl 1 4.
Definition flag_lookdown : Z := Z.shiftl 1 5.
Definition flag_internal : Z := Z.shiftl 1 6.

(** * The registry of names and the constructor of [TokenDef] *)

(** The two statics a definition touches: [next_id], and the map of names. *)
Record Registry := mkRegistry {
  next_id : Z;
  token_map : gmap string Token
}.

Definition empty_registry : Registry := mkRegistry 0 ∅.

(** [detail::register_token] *)
Definition register_token (r : Registry) (def : TokenDef) : outcome Registry :=
  match token_map r !! name def with
  | Some _ => Throws
  | None => Returns (mkRegistry (next_id r) (<[name def := def]> (token_map r)))
  end.

(** [detail::find_token]; [Invalid] is the token of that name. *)
Definition find_token (invalid : Token) (r : Registry) (str : string) : Token :=
  match token_map r !! str with Some t => t | None => invalid end.

(** [TokenDef::TokenDef] *)
Definition new_token_def (r : Registry) (name_ : string) (fl_ : Z)
    : outcome (TokenDef * Registry) :=
  let def := mkTokenDef name_ fl_
               ((next_id r mod DEFAULT_MAP_TABLE_SIZE) * sizeof_void_ptr) in
  r' ← register_token (mkRegistry (u32 (next_id r + 1)) (token_map r)) def;
  Returns (def, r').

(** A translation unit's definitions, in order. *)
Fixpoint define_tokens (r : Registry) (defs : list (string * Z))
    : outcome (list TokenDef * Registry) :=
  match defs with
  | [] => Returns ([], r)
  | (n, f) :: defs =>
      '(d, r) ← new_token_def r n f;
      '(ds, r) ← define_tokens r defs;
      Returns (d :: ds, r)
  end.

(** * The built-in tokens *)

Definition builtin (id : Z) (n : string) (f : Z) : Token :=
  mkTokenDef n f (id * sizeof_void_ptr).

Definition Top := builtin 0 "top" flag_symtab.
Definition Directory := builtin 1 "directory" 0.
Definition File := builtin 2 "file" 0.
Definition Group := builtin 3 "group" 0.
Definition Seq := builtin 4 "seq" flag_internal.
Definition Lift := builtin 5 "lift" flag_internal.
Definition NoChange := builtin 6 "nochange" flag_internal.
Definition Reapply := builtin 7 "reapply" flag_internal.
Definition Include := builtin 8 "include" flag_internal.
Definition Invalid := builtin 9 "invalid" flag_internal.
Definition Error := builtin 10 "error" flag_internal.
Definition ErrorMsg := builtin 11 "errormsg" (Z.lor flag_print flag_internal).
Definition ErrorAst := builtin 12 "errorast" flag_internal.

Definition builtin_tokens : list Token :=
  [Top; Directory; File; Group; Seq; Lift; NoChange; Reapply; Include; Invalid;
   Error; ErrorMsg; ErrorAst].

(** * Facts *)

Lemma token_eqb_eq a b : token_eqb a b = true <-> a = b.
Proof. unfold token_eqb. by rewrite bool_decide_eq_true. Qed.

Lemma token_eqb_neq a b : token_eqb a b = false <-> a <> b.
Proof. unfold token_eqb. by rewrite bool_decide_eq_false. Qed.

Lemma token_eqb_refl a : token_eqb a a = true.
Proof. by apply token_eqb_eq. Qed.

Lemma token_in_elem l t : token_in l t = true <-> t ∈ l.
Proof.
  unfold token_in. rewrite existsb_exists. split.
  - intros (x & Hx & He). apply token_eqb_eq in He as ->. by apply list_elem_of_In.
  - intros H. exists t. split; [by apply list_elem_of_In|by apply token_eqb_refl].
Qed.

Lemma default_map_hash_new r n f d r' :
  new_token_def r n f = Returns (d, r') ->
  default_map_hash d = next_id r mod DEFAULT_MAP_TABLE_SIZE.
Proof.
  unfold new_token_def. intros H. apply outcome_bind_returns in H as (a & _ & [= <- <-]).
  unfold default_map_hash, sizeof_void_ptr. cbn. by rewrite Z.div_mul.
Qed.

(** The built-in tokens are what the definitions of token.h produce. *)
Lemma builtin_tokens_defined :
  (fst <$> define_tokens empty_registry ((fun d => (name d, fl d)) <$> builtin_tokens))
  = Returns builtin_tokens.
Proof. vm_compute. reflexivity. Qed.
