(* ===== verification/Source.v ===== *)
(** Sources and locations ([include/trieste/source.h]): the lines of a source,
    positions as line and column, and the spans that nodes carry. *)
From S2P Require Import Prelude.
From stdpp Require Export countable.
Open Scope Z_scope.

(** A [Source] is a reference-counted pointer: [address] is its identity. *)
Record SourceDef := mkSourceDef {
  address : positive;
  origin_ : list Z;
  contents : list Z;
  lines : list Z;
  offset_ : Z
}.
Definition Source := option SourceDef.

(** [std::string::npos] and [size_t]'s largest value *)
Definition npos : Z := 2 ^ 64 - 1.

(** [std::string::find(char, pos)] *)
Fixpoint find_from (s : list Z) (c : Z) (i : Z) : Z :=
  match s with
  | [] => npos
  | x :: s => if x =? c then i else find_from s c (i + 1)
  end.
Definition find_char (s : list Z) (c : Z) (pos : Z) : Z :=
  find_from (drop (Z.to_nat pos) s) c pos.

(** [SourceDef::find_lines]: the loop runs once per newline. *)
Fixpoint find_lines_loop (fuel : nat) (s : list Z) (lines : list Z) (pos : Z) : list Z :=
  match fuel with
  | O => lines
  | S fuel =>
      if negb (pos =? npos) then
        find_lines_loop fuel s (lines ++ [pos]) (find_char s 10 (pos + 1))
      else lines
  end.
Definition find_lines (s : list Z) : list Z :=
  find_lines_loop (length s + 1) s [] (find_char s 10 0).

(** [SourceDef::synthetic] and [synthetic_at_offset]; [a] is the new object. *)
Definition synthetic (a : positive) (contents origin : list Z) : SourceDef :=
  mkSourceDef a origin contents (find_lines contents) 0.
Definition synthetic_at_offset (a : positive) (contents origin : list Z) (offset : Z) : SourceDef :=
  let s := synthetic a contents origin in
  mkSourceDef a (origin_ s) (Source.contents s) (lines s) offset.

(** [std::lower_bound] on a sorted vector: how many entries precede [x]. *)
Fixpoint lower_bound (l : list Z) (x : Z) : nat :=
  match l with
  | [] => O
  | y :: l => if y <? x then S (lower_bound l x) else O
  end.

(** [SourceDef::linecol] *)
Definition linecol (s : SourceDef) (pos : Z) : Z * Z :=
  let it := lower_bound (lines s) pos in
  let line := Z.of_nat it in
  let col := match it with
             | O => pos
             | S p => u64 (pos - (nth p (lines s) 0 + 1))
             end in
  (line, col).

(** [SourceDef::linepos] *)
Definition linepos (s : SourceDef) (line : Z) : Z * Z :=
  let n := Z.of_nat (length (lines s)) in
  if n <? line then (npos, 0)
  else
    let start := if 0 <? line then nth (Z.to_nat (line - 1)) (lines s) 0 + 1 else 0 in
    let end_ := if line <? n then nth (Z.to_nat line) (lines s) 0
                else Z.of_nat (length (contents s)) in
    (start, u64 (end_ - start)).

(** [std::string_view::substr]: a start past the end throws, a length past it is cut. *)
Definition substr (s : list Z) (pos n : Z) : outcome (list Z) :=
  if Z.of_nat (length s) <? pos then Throws
  else
    let rlen := Z.min n (Z.of_nat (length s) - pos) in
    Returns (take (Z.to_nat rlen) (drop (Z.to_nat pos) s)).

(** * Locations *)

Record Location := mkLocation { source : Source; pos : Z; len : Z }.

Definition null_location : Location := mkLocation None 0 0.

(** [Location(const std::string&)] *)
Definition location_of_string (a : positive) (s : list Z) : Location :=
  mkLocation (Some (synthetic a s [])) 0 (Z.of_nat (length s)).

(** [Location::view] *)
Definition view (l : Location) : outcome (list Z) :=
  match source l with
  | None => Returns []
  | Some s => substr (contents s) (u64 (pos l - offset_ s)) (len l)
  end.

(** [Location::linecol] *)
Definition location_linecol (l : Location) : Z * Z :=
  match source l with
  | None => (0, 0)
  | Some s => if negb (offset_ s =? 0) then (0, pos l) else linecol s (pos l)
  end.

(** [Location::operator*]; the sources are compared as pointers. *)
Definition location_mul (a b : Location) : Location :=
  match source a, source b with
  | None, _ => b
  | _, None => a
  | Some s, Some s' =>
      if negb (Pos.eqb (address s) (address s')) then a
      else
        let lo := Z.min (pos a) (pos b) in
        let hi := Z.max (u64 (pos a + len a)) (u64 (pos b + len b)) in
        mkLocation (Some s) lo (u64 (hi - lo))
  end.

(** [std::string_view::operator<]: bytes compare as unsigned. *)
Fixpoint string_ltb (a b : list Z) : bool :=
  match a, b with
  | _, [] => false
  | [], _ :: _ => true
  | x :: a, y :: b => (x <? y) || ((x =? y) && string_ltb a b)
  end.

(** [Location::operator==], [!=], [<], [<=], [>], [>=] *)
Definition location_eq (a b : Location) : outcome bool :=
  va ← view a; vb ← view b; Returns (list_eqb va vb).
Definition location_ne (a b : Location) : outcome bool :=
  e ← location_eq a b; Returns (negb e).
Definition location_lt (a b : Location) : outcome bool :=
  va ← view a; vb ← view b; Returns (string_ltb va vb).
Definition location_le (a b : Location) : outcome bool :=
  l ← location_lt a b; if (l : bool) then Returns true else location_eq a b.
Definition location_gt (a b : Location) : outcome bool :=
  l ← location_le a b; Returns (negb l).
Definition location_ge (a b : Location) : outcome bool :=
  l ← location_lt a b; Returns (negb l).

(** * The excerpt printed under an error *)

(** [std::to_string] of a number, in decimal. *)
Fixpoint decimal (fuel : nat) (n : Z) (acc : list Z) : list Z :=
  match fuel with
  | O => acc
  | S fuel =>
      let acc := (48 + n mod 10) :: acc in
      if n <? 10 then acc else decimal fuel (n / 10) acc
  end.
Definition to_string (n : Z) : list Z := decimal 20 n [].

(** [Location::origin_linecol] *)
Definition origin_linecol (l : Location) : list Z :=
  match source l with
  | Some s =>
      match origin_ s with
      | [] => []
      | o => let '(line, col) := location_linecol l in
             o ++ [58] ++ to_string (line + 1) ++ [58] ++ to_string (col + 1)
      end
  | None => []
  end.

(** The two lambdas of [Location::str] *)
Definition write_chars_skipping_r (s : list Z) : list Z :=
  filter (fun ch => ch <> 13) s.
Fixpoint write_indexed_skipping_r (s : list Z) (fn : Z -> Z) (idx : Z) : list Z :=
  match s with
  | [] => []
  | ch :: s =>
      (if negb (ch =? 13) then [fn idx] else []) ++ write_indexed_skipping_r s fn (idx + 1)
  end.

Definition underline (col : Z) (idx : Z) : Z := if idx <? col then 32 else 126.

(** [Location::str]; [std::endl] is a newline. *)
Definition location_str (l : Location) : outcome (list Z) :=
  match source l with
  | None => Returns []
  | Some s =>
      let '(line, col) := location_linecol l in
      let '(lpos, llen) := linepos s line in
      v ← view l;
      if existsb (Z.eqb 10) v then
        line_view_first ← substr (contents s) lpos llen;
        let '(line2, col2) := linecol s (u64 (pos l + len l)) in
        let '(lpos2, llen2) := linepos s line2 in
        line_view_last ← substr (contents s) lpos2 llen2;
        let interim_pos := u64 (lpos + llen) in
        interim_view ← substr (contents s) interim_pos (u64 (lpos2 - interim_pos));
        last ← substr line_view_last 0 col2;
        Returns (write_indexed_skipping_r line_view_first (underline col) 0 ++ [10]
                 ++ write_chars_skipping_r line_view_first
                 ++ write_chars_skipping_r interim_view
                 ++ write_chars_skipping_r line_view_last ++ [10]
                 ++ write_indexed_skipping_r last (fun _ => 126) 0 ++ [10])
      else
        line_view ← substr (contents s) lpos llen;
        marked ← substr line_view 0 (u64 (pos l - lpos + len l));
        Returns (write_chars_skipping_r line_view ++ [10]
                 ++ write_indexed_skipping_r marked (underline col) 0 ++ [10])
  end.

(** * What the lines of a source are *)

(** The indices of the newlines of [s], counted from [i]. *)
Fixpoint newlines (i : Z) (s : list Z) : list Z :=
  match s with
  | [] => []
  | x :: s => (if x =? 10 then [i] else []) ++ newlines (i + 1) s
  end.

Lemma find_from_newlines s i :
  0 <= i -> i + Z.of_nat (length s) < npos ->
  (find_from s 10 i = npos /\ newlines i s = [])
  \/ exists n, find_from s 10 i = i + Z.of_nat n /\ (n < length s)%nat
       /\ newlines i s = (i + Z.of_nat n) :: newlines (i + Z.of_nat n + 1) (drop (S n) s).
Proof.
  revert i. induction s as [|x s IH]; intros i Hi Hl; cbn [length] in *; [by left|].
  cbn [find_from newlines]. destruct (Z.eqb_spec x 10) as [->|Hx].
  - right. exists 0%nat. rewrite Z.add_0_r. cbn. split_and!; [done|lia|done].
  - destruct (IH (i + 1)) as [[-> ->]|(n & -> & Hn & ->)]; [lia..|by left|].
    right. exists (S n). rewrite Nat2Z.inj_succ.
    replace (i + 1 + Z.of_nat n) with (i + Z.succ (Z.of_nat n)) by lia.
    cbn. split_and!; [done|lia|done].
Qed.

Lemma find_lines_loop_newlines s fuel acc p :
  0 <= p -> p <= Z.of_nat (length s) -> Z.of_nat (length s) < npos ->
  (length s - Z.to_nat p < fuel)%nat ->
  find_lines_loop fuel s acc (find_char s 10 p) = acc ++ newlines p (drop (Z.to_nat p) s).
Proof.
  revert acc p. induction fuel as [|fuel IH]; intros acc p Hp Hps Hs Hf; [lia|].
  unfold find_char. cbn [find_lines_loop].
  assert (Hd : length (drop (Z.to_nat p) s) = (length s - Z.to_nat p)%nat) by apply length_drop.
  destruct (find_from_newlines (drop (Z.to_nat p) s) p) as [[-> ->]|(n & -> & Hn & ->)];
    [lia|lia|by rewrite app_nil_r|].
  replace (p + Z.of_nat n =? npos) with false by lia. cbn [negb].
  rewrite IH by lia. rewrite <-app_assoc. cbn. do 3 f_equal.
  rewrite drop_drop. f_equal. lia.
Qed.

Lemma find_lines_newlines s :
  Z.of_nat (length s) < npos -> find_lines s = newlines 0 s.
Proof.
  intros. unfold find_lines.
  by rewrite find_lines_loop_newlines by (cbn; lia).
Qed.

Lemma newlines_elem i s j :
  j ∈ newlines i s <-> i <= j /\ s !! Z.to_nat (j - i) = Some 10.
Proof.
  revert i. induction s as [|x s IH]; intros i; cbn [newlines].
  - split; [by intros ?%elem_of_nil|]. rewrite lookup_nil. by intros [].
  - rewrite elem_of_app, IH. split.
    + intros [H|[H1 H2]].
      * destruct (Z.eqb_spec x 10) as [->|]; [|by apply elem_of_nil in H].
        apply list_elem_of_singleton in H as ->. split; [lia|].
        by replace (Z.to_nat (i - i)) with 0%nat by lia.
      * split; [lia|]. by replace (Z.to_nat (j - i)) with (S (Z.to_nat (j - (i + 1)))) by lia.
    + intros [H1 H2]. destruct (decide (j = i)) as [->|].
      * left. replace (Z.to_nat (i - i)) with 0%nat in H2 by lia. injection H2 as ->.
        by apply list_elem_of_singleton.
      * right. split; [lia|].
        by replace (Z.to_nat (j - i)) with (S (Z.to_nat (j - (i + 1)))) in H2 by lia.
Qed.

Lemma newlines_sorted i s : StronglySorted Z.lt (newlines i s).
Proof.
  revert i. induction s as [|x s IH]; intros i; cbn; [constructor|].
  destruct (x =? 10); cbn; [|done]. constructor; [done|].
  apply Forall_forall. intros j [? _]%list_elem_of_In%newlines_elem. lia.
Qed.

Lemma lower_bound_zero l x : (forall a, a ∈ l -> x <= a) -> lower_bound l x = O.
Proof.
  destruct l as [|a l]; [done|]. intros H. cbn.
  destruct (Z.ltb_spec a x); [|done]. pose proof (H a (list_elem_of_here a l)). lia.
Qed.

Lemma lower_bound_newlines i s n :
  lower_bound (newlines i s) (i + Z.of_nat n)
  = length (filter (fun x => x = 10) (take n s)).
Proof.
  revert i n. induction s as [|x s IH]; intros i n; [by rewrite take_nil|].
  cbn [newlines]. destruct n as [|n].
  - rewrite take_0. apply (lower_bound_zero (newlines i (x :: s))).
    intros a [Ha _]%newlines_elem. lia.
  - rewrite firstn_cons, filter_cons.
    replace (i + Z.of_nat (S n)) with (i + 1 + Z.of_nat n) by lia.
    destruct (Z.eqb_spec x 10) as [->|Hx].
    + cbn. destruct (Z.ltb_spec i (i + 1 + Z.of_nat n)); [by rewrite IH|lia].
    + rewrite decide_False by done. cbn. apply IH.
Qed.

Lemma lower_bound_before l x m y :
  StronglySorted Z.lt l -> l !! m = Some y -> (m < lower_bound l x)%nat <-> y < x.
Proof.
  intros Hs. revert m. induction Hs as [|a l Hs IH Ha]; intros m Hm; [done|].
  cbn. destruct (Z.ltb_spec a x), m as [|m]; cbn in Hm.
  - injection Hm as ->. lia.
  - rewrite <-Nat.succ_lt_mono. auto.
  - injection Hm as ->. lia.
  - rewrite Forall_forall in Ha.
    pose proof (Ha y ltac:(apply list_elem_of_In; eauto using list_elem_of_lookup_2)). lia.
Qed.

Lemma lower_bound_le l x : (lower_bound l x <= length l)%nat.
Proof. induction l as [|a l IH]; cbn; [lia|]. case_match; lia. Qed.

(** A source's line table. *)
Definition source_ok (s : SourceDef) : Prop :=
  lines s = newlines 0 (contents s) /\ Z.of_nat (length (contents s)) < npos.

Lemma synthetic_ok a c o : Z.of_nat (length c) < npos -> source_ok (synthetic a c o).
Proof. split; [by apply find_lines_newlines|done]. Qed.

(** The start and the end of the line with [k] newlines before it. *)
Definition line_start (s : SourceDef) (k : nat) : Z :=
  match k with O => 0 | S m => nth m (lines s) 0 + 1 end.
Definition line_end (s : SourceDef) (k : nat) : Z :=
  nth k (lines s) (Z.of_nat (length (contents s))).

Lemma line_elem s m : source_ok s -> forall y,
  lines s !! m = Some y -> 0 <= y < Z.of_nat (length (contents s)).
Proof.
  intros [Hl _] y Hy. apply list_elem_of_lookup_2 in Hy. rewrite Hl in Hy.
  apply newlines_elem in Hy as [Hy Hc]. apply lookup_lt_Some in Hc. lia.
Qed.

Lemma linepos_line s k :
  source_ok s -> (k <= length (lines s))%nat ->
  linepos s (Z.of_nat k) = (line_start s k, line_end s k - line_start s k)
  /\ 0 <= line_start s k <= line_end s k
  /\ line_end s k <= Z.of_nat (length (contents s)).
Proof.
  intros Hs Hk. unfold linepos.
  replace (Z.of_nat (length (lines s)) <? Z.of_nat k) with false by lia.
  assert (Hst : (if 0 <? Z.of_nat k then nth (Z.to_nat (Z.of_nat k - 1)) (lines s) 0 + 1 else 0)
                = line_start s k).
  { destruct k as [|k]; [done|]. cbn [line_start].
    destruct (Z.ltb_spec 0 (Z.of_nat (S k))); [|lia]. do 2 f_equal. lia. }
  assert (Hen : (if Z.of_nat k <? Z.of_nat (length (lines s))
                 then nth (Z.to_nat (Z.of_nat k)) (lines s) 0
                 else Z.of_nat (length (contents s))) = line_end s k).
  { unfold line_end. destruct (Z.ltb_spec (Z.of_nat k) (Z.of_nat (length (lines s)))).
    - rewrite Nat2Z.id. apply nth_indep. lia.
    - rewrite nth_overflow by lia. done. }
  rewrite Hst, Hen.
  assert (Hr : 0 <= line_start s k <= line_end s k
               /\ line_end s k <= Z.of_nat (length (contents s))).
  { assert (He : line_end s k <= Z.of_nat (length (contents s))
                 /\ (forall y, lines s !! k = Some y -> line_end s k = y)).
    { unfold line_end. destruct (lines s !! k) as [y|] eqn:E.
      - erewrite nth_lookup_Some by done. pose proof (line_elem s k Hs y E).
        split; [lia|]. by intros ? [= ->].
      - apply lookup_ge_None_1 in E. rewrite nth_overflow by done. done. }
    destruct k as [|k]; cbn [line_start].
    - split; [|tauto]. destruct (lines s !! 0%nat) as [y|] eqn:E.
      + rewrite (proj2 He y eq_refl). pose proof (line_elem s _ Hs y E). lia.
      + unfold line_end. apply lookup_ge_None_1 in E. rewrite nth_overflow by done. lia.
    - destruct (lookup_lt_is_Some_2 (lines s) k) as [x Hx]; [lia|].
      erewrite nth_lookup_Some by done. pose proof (line_elem s k Hs x Hx).
      split; [|tauto]. destruct (lines s !! S k) as [y|] eqn:E.
      + rewrite (proj2 He y eq_refl). destruct Hs as [Hl _]. rewrite Hl in Hx, E.
        pose proof (strongly_sorted_lookup _ _ k (S k) x y (newlines_sorted _ _)
                      ltac:(lia) Hx E). lia.
      + unfold line_end. apply lookup_ge_None_1 in E. rewrite nth_overflow by done. lia. }
  destruct Hr as [Hr1 Hr2]. split; [|done]. f_equal. apply u64_id.
  destruct Hs as [_ Hn]. unfold npos in Hn. lia.
Qed.

Lemma lower_bound_index_start s k m j :
  source_ok s -> (k <= length (lines s))%nat -> (m < k)%nat ->
  newlines 0 (contents s) !! m = Some j -> j < line_start s k.
Proof.
  intros [HL _] Hk Hm Hj. destruct k as [|k]; [lia|]. cbn [line_start].
  rewrite HL in *. destruct (lookup_lt_is_Some_2 (newlines 0 (contents s)) k) as [x Hx]; [lia|].
  erewrite nth_lookup_Some by done. destruct (decide (m = k)) as [->|].
  - rewrite Hx in Hj. injection Hj as ->. lia.
  - pose proof (strongly_sorted_lookup _ _ m k j x (newlines_sorted 0 _) ltac:(lia) Hj Hx). lia.
Qed.

Lemma lower_bound_index_end s k m j :
  source_ok s -> (k <= m)%nat -> lines s !! m = Some j -> line_end s k <= j.
Proof.
  intros [HL _] Hk Hj. unfold line_end.
  destruct (lookup_lt_is_Some_2 (lines s) k) as [x Hx].
  { apply lookup_lt_Some in Hj. lia. }
  erewrite nth_lookup_Some by done. destruct (decide (m = k)) as [->|].
  - rewrite Hx in Hj. injection Hj as ->. lia.
  - rewrite HL in Hx, Hj.
    pose proof (strongly_sorted_lookup _ _ k m x j (newlines_sorted 0 _) ltac:(lia) Hx Hj). lia.
Qed.

(** * Line and column *)

(** [linecol] and [linepos] locate a position.  For a position [p] of a source
    (its end included), the line is the number of newlines before [p]; the line's span,
    as [linepos] reports it, starts at the beginning of the file or after a newline, ends
    at a newline or at the end of the file, holds no newline, and [p] is [col] bytes
    after its start. *)
Theorem linecol_correct a c o p :
  Z.of_nat (length c) < npos -> 0 <= p <= Z.of_nat (length c) ->
  let s := synthetic a c o in
  let '(line, col) := linecol s p in
  let '(start, n) := linepos s line in
  line = Z.of_nat (length (filter (fun x => x = 10) (take (Z.to_nat p) c)))
  /\ start + col = p /\ 0 <= col <= n
  /\ (start = 0 \/ c !! Z.to_nat (start - 1) = Some 10)
  /\ (start + n = Z.of_nat (length c) \/ c !! Z.to_nat (start + n) = Some 10)
  /\ (forall j, start <= j < start + n -> c !! Z.to_nat j <> Some 10).
Proof.
  intros Hc Hp s. pose proof (synthetic_ok a c o Hc) as Hs. fold s in Hs.
  pose proof (newlines_sorted 0 c) as Hsort.
  assert (HL : lines s = newlines 0 c) by apply Hs.
  set (k := lower_bound (lines s) p).
  assert (Hk : (k <= length (lines s))%nat) by apply lower_bound_le.
  destruct (linepos_line s k Hs Hk) as (Hlp & Hr & He).
  assert (Hst : line_start s k <= p
    /\ (line_start s k = 0 \/ c !! Z.to_nat (line_start s k - 1) = Some 10)).
  { destruct k as [|m] eqn:Ek; cbn [line_start]; [by auto with lia|].
    destruct (lookup_lt_is_Some_2 (lines s) m) as [x Hx]; [lia|].
    erewrite nth_lookup_Some by done. rewrite HL in Hx.
    assert (x < p) by (eapply (lower_bound_before (newlines 0 c)); [done..|rewrite <-HL; fold k; lia]).
    split; [lia|right]. apply list_elem_of_lookup_2, newlines_elem in Hx as [? Hx].
    by replace (x + 1 - 1) with (x - 0) by lia. }
  assert (Hen : p <= line_end s k
    /\ (line_end s k = Z.of_nat (length c) \/ c !! Z.to_nat (line_end s k) = Some 10)).
  { unfold line_end. destruct (lines s !! k) as [y|] eqn:E.
    - erewrite nth_lookup_Some by done. rewrite HL in E.
      assert (~ y < p).
      { rewrite <-(lower_bound_before (newlines 0 c) p k y) by done.
        rewrite <-HL. fold k. lia. }
      split; [lia|right]. apply list_elem_of_lookup_2, newlines_elem in E as [? E].
      by replace (y - 0) with y in E by lia.
    - apply lookup_ge_None_1 in E. rewrite nth_overflow by done. split; [cbn; lia|by left]. }
  assert (Hlc : linecol s p = (Z.of_nat k, p - line_start s k)).
  { unfold linecol. fold k. f_equal. destruct k; cbn [line_start] in *; [lia|].
    apply u64_id. unfold npos in Hc. lia. }
  rewrite Hlc, Hlp. destruct Hst as [Hst1 Hst2], Hen as [Hen1 Hen2]. split_and!; try lia.
  - unfold k. rewrite HL. rewrite <-(lower_bound_newlines 0 c (Z.to_nat p)). do 2 f_equal. lia.
  - done.
  - by replace (line_start s k + (line_end s k - line_start s k)) with (line_end s k) by lia.
  - intros j Hj Hcj.
    assert (Hjl : j ∈ lines s).
    { rewrite HL. apply newlines_elem. split; [lia|]. by rewrite Z.sub_0_r. }
    apply list_elem_of_lookup in Hjl as [m Hm].
    destruct (Nat.lt_ge_cases m k) as [Hmk|Hmk].
    + rewrite HL in Hm. apply (lower_bound_index_start s k m j) in Hm; [lia|done..].
    + apply (lower_bound_index_end s k m j) in Hm; [lia|done..].
Qed.

Lemma linecol_correct_witness :
  let c := bytes "ab" ++ [10] ++ bytes "cde" in
  (Z.of_nat (length c) < npos /\ 0 <= 5 <= Z.of_nat (length c))
  /\ 1 = Z.of_nat (length (filter (fun x => x = 10) (take 5 c))).
Proof.
  intros c. assert (H : Z.of_nat (length c) < npos) by (vm_compute; done).
  assert (Hp : 0 <= 5 <= Z.of_nat (length c)) by (vm_compute; split; discriminate).
  split; [done|]. exact (proj1 (linecol_correct 1 c [] 5 H Hp)).
Defined.

(** * Spans *)

(** A location whose span lies in its source's text. *)
Definition location_ok (l : Location) : Prop :=
  match source l with
  | None => True
  | Some s => source_ok s /\ offset_ s = 0 /\ 0 <= pos l /\ 0 <= len l
              /\ pos l + len l <= Z.of_nat (length (contents s))
  end.

Lemma u64_in_source s x : source_ok s -> 0 <= x <= Z.of_nat (length (contents s)) -> u64 x = x.
Proof. intros [_ Hn] ?. apply u64_id. unfold npos in Hn. lia. Qed.

Lemma substr_returns c p n :
  p <= Z.of_nat (length c) ->
  substr c p n = Returns (take (Z.to_nat n) (drop (Z.to_nat p) c)).
Proof.
  intros. unfold substr. replace (_ <? p) with false by lia. f_equal.
  destruct (Z.le_gt_cases n (Z.of_nat (length c) - p)) as [?|?]; [by rewrite Z.min_l|].
  rewrite !take_ge; [done|rewrite length_drop; lia..].
Qed.

Lemma view_ok l : location_ok l ->
  view l = Returns (match source l with
                    | None => []
                    | Some s => take (Z.to_nat (len l)) (drop (Z.to_nat (pos l)) (contents s))
                    end).
Proof.
  unfold location_ok, view. destruct (source l) as [s|]; [|done].
  intros (Hs & Ho & ? & ? & ?). rewrite Ho, Z.sub_0_r, (u64_in_source s) by (done || lia).
  apply substr_returns. lia.
Qed.

(** Joining two spans of one source gives the span from the first start to the last end. *)
Lemma location_mul_spans a b s :
  source a = Some s -> source b = Some s -> location_ok a -> location_ok b ->
  location_mul a b
  = mkLocation (Some s) (Z.min (pos a) (pos b))
      (Z.max (pos a + len a) (pos b + len b) - Z.min (pos a) (pos b))
  /\ location_ok (location_mul a b).
Proof.
  intros Ha Hb. unfold location_ok, location_mul. rewrite Ha, Hb, Pos.eqb_refl. cbn [negb].
  intros (Hs & Ho & ? & ? & ?) (_ & _ & ? & ? & ?). cbn [source pos len].
  rewrite (u64_in_source s (pos a + len a) Hs), (u64_in_source s (pos b + len b) Hs) by lia.
  rewrite (u64_in_source s _ Hs) by lia.
  split; [done|]. split_and!; [done|done|lia..].
Qed.

Lemma linecol_line s p : source_ok s ->
  exists k, (k <= length (lines s))%nat /\ fst (linecol s p) = Z.of_nat k.
Proof. intros. exists (lower_bound (lines s) p). split; [apply lower_bound_le|done]. Qed.

(** The excerpt of a span inside its source is printed without an exception. *)
Lemma location_str_returns l : location_ok l -> exists out, location_str l = Returns out.
Proof.
  intros Hl. unfold location_str. rewrite (view_ok l Hl).
  unfold location_ok, location_linecol in *. destruct (source l) as [s|]; [|by eexists].
  destruct Hl as (Hs & Ho & ? & ? & ?). rewrite Ho. cbn [Z.eqb negb].
  destruct (linecol_line s (pos l) Hs) as (k & Hk & E).
  destruct (linecol s (pos l)) as [line col]. cbn in E. subst line.
  destruct (linepos_line s k Hs Hk) as (-> & Hr & He). cbn [mbind outcome_bind].
  rewrite (substr_returns (contents s) (line_start s k)) by lia. cbn [mbind outcome_bind].
  case_match.
  - rewrite (u64_in_source s (pos l + len l) Hs) by lia.
    destruct (linecol_line s (pos l + len l) Hs) as (k2 & Hk2 & E2).
    destruct (linecol s (pos l + len l)) as [line2 col2]. cbn in E2. subst line2.
    destruct (linepos_line s k2 Hs Hk2) as (-> & Hr2 & He2).
    rewrite (substr_returns (contents s) (line_start s k2)) by lia. cbn [mbind outcome_bind].
    rewrite (u64_in_source s _ Hs) by lia.
    rewrite (substr_returns (contents s)) by lia. cbn [mbind outcome_bind].
    rewrite substr_returns by apply Nat2Z.is_nonneg. by eexists.
  - rewrite substr_returns by apply Nat2Z.is_nonneg. by eexists.
Qed.
