(* ===== verification/Xoroshiro.v ===== *)
(** The random number generator ([include/trieste/xoroshiro.h]), for every width of
    its state: the step is a permutation of the states, so a generator that is seeded
    never reaches the zero state it aborts on. *)
From S2P Require Import Prelude.
Open Scope Z_scope.

(** The template parameters [STATE] and [RESULT] (by their widths), [A], [B], [C]. *)
Record XorParams := mkXorParams {
  STATE_BITS : Z;
  RESULT_BITS : Z;
  param_A : Z;
  param_B : Z;
  param_C : Z
}.

(** The fields [x] and [y]. *)
Record XorOshiro := mkXorOshiro { state_x : Z; state_y : Z }.

(** The conversion to [STATE]; for the narrow types the expressions are computed in
    [int], without overflow, and converted when they are stored. *)
Definition to_state (p : XorParams) (z : Z) : Z := z mod 2 ^ STATE_BITS p.

(** [XorOshiro::rotl] *)
Definition rotl (p : XorParams) (x k : Z) : Z :=
  to_state p (Z.lor (Z.shiftl x k) (Z.shiftr x (STATE_BITS p - k))).

(** [XorOshiro::operator()]: the result and the next state; [None] is [abort()]. *)
Definition xor_next (p : XorParams) (g : XorOshiro) : option (Z * XorOshiro) :=
  let r := to_state p (state_x g + state_y g) in
  let y := to_state p (Z.lxor (state_y g) (state_x g)) in
  let x := to_state p (Z.lxor (Z.lxor (rotl p (state_x g) (param_A p)) y)
                              (Z.shiftl y (param_B p))) in
  let y := rotl p y (param_C p) in
  if (x =? 0) && (y =? 0) then None
  else Some (Z.shiftr r (STATE_BITS p - RESULT_BITS p), mkXorOshiro x y).

(** [XorOshiro::set_state] and the constructor, which has the same body; the constructor's
    default seed is [5489, 0]. *)
Definition set_state (p : XorParams) (x y : Z) : option XorOshiro :=
  if (x =? 0) && (y =? 0) then None
  else snd <$> xor_next p (mkXorOshiro x y).
Definition default_generator (p : XorParams) : option XorOshiro := set_state p (to_state p 5489) 0.

(** [XorOshiro::min] and [max] *)
Definition result_min (p : XorParams) : Z := 0.
Definition result_max (p : XorParams) : Z := 2 ^ RESULT_BITS p - 1.

(** The seven instances of the header. *)
Definition p128r64 := mkXorParams 64 64 55 14 36.
Definition p128r32 := mkXorParams 64 32 55 14 36.
Definition p64r32 := mkXorParams 32 32 27 7 20.
Definition p64r16 := mkXorParams 32 16 27 7 20.
Definition p32r16 := mkXorParams 16 16 13 5 10.
Definition p32r8 := mkXorParams 16 8 13 5 10.
Definition p16r8 := mkXorParams 8 8 4 7 3.

Definition xor_instances : list XorParams :=
  [p128r64; p128r32; p64r32; p64r16; p32r16; p32r8; p16r8].

(** [n] numbers in a row, with the generator after them. *)
Fixpoint draw (p : XorParams) (n : nat) (g : XorOshiro) : option (list Z * XorOshiro) :=
  match n with
  | O => Some ([], g)
  | S n =>
      '(r, g) ← xor_next p g;
      '(rs, g) ← draw p n g;
      Some (r :: rs, g)
  end.

(** * Rotations *)

(** What the rotations need of the parameters; the [static_assert] is the last part. *)
Definition params_ok (p : XorParams) : Prop :=
  0 < param_A p < STATE_BITS p /\ 0 <= param_B p /\ 0 < param_C p < STATE_BITS p
  /\ 0 < RESULT_BITS p <= STATE_BITS p.

Lemma xor_instances_ok p : p ∈ xor_instances -> params_ok p.
Proof.
  unfold xor_instances. rewrite !elem_of_cons, elem_of_nil.
  intros H. destruct_or! H; subst; [..|done]; unfold params_ok; cbn; lia.
Qed.

Section Rotation.
Context (p : XorParams) (Hp : params_ok p).
Local Abbreviation w := (STATE_BITS p).

Definition in_state (z : Z) : Prop := 0 <= z < 2 ^ STATE_BITS p.

Lemma to_state_range z : in_state (to_state p z).
Proof. apply Z.mod_pos_bound. apply Z.pow_pos_nonneg; unfold params_ok in Hp; lia. Qed.

Lemma to_state_id z : in_state z -> to_state p z = z.
Proof. apply Z.mod_small. Qed.

Lemma to_state_bits z i : 0 <= i ->
  Z.testbit (to_state p z) i = (i <? w) && Z.testbit z i.
Proof.
  intros Hi. unfold to_state, params_ok in *. destruct (Z.ltb_spec i w).
  - by rewrite Z.mod_pow2_bits_low by lia.
  - by rewrite Z.mod_pow2_bits_high by lia.
Qed.

Lemma in_state_bits z i : in_state z -> w <= i -> Z.testbit z i = false.
Proof.
  intros Hz Hi. rewrite <-(to_state_id z Hz), to_state_bits by (unfold params_ok in Hp; lia).
  by replace (i <? w) with false by lia.
Qed.

Lemma state_ext a b :
  in_state a -> in_state b -> (forall i, 0 <= i < w -> Z.testbit a i = Z.testbit b i) -> a = b.
Proof.
  intros Ha Hb H. apply Z.bits_inj'. intros i Hi.
  destruct (Z.lt_ge_cases i w); [by apply H|by rewrite !in_state_bits].
Qed.

Lemma rotl_bits x k i : in_state x -> 0 < k < w -> 0 <= i < w ->
  Z.testbit (rotl p x k) i
  = if i <? k then Z.testbit x (i + (w - k)) else Z.testbit x (i - k).
Proof.
  intros Hx Hk Hi. unfold rotl. rewrite to_state_bits by lia.
  destruct (Z.ltb_spec i w); [|lia]. cbn [andb].
  rewrite Z.lor_spec, Z.shiftl_spec, Z.shiftr_spec by lia.
  destruct (Z.ltb_spec i k).
  - by rewrite Z.testbit_neg_r by lia.
  - rewrite (in_state_bits x (i + (w - k))) by (done || lia). apply orb_false_r.
Qed.

(** Rotating on by the rest of the width undoes a rotation. *)
Lemma rotl_inverse x k : in_state x -> 0 < k < w -> rotl p (rotl p x k) (w - k) = x.
Proof.
  intros Hx Hk. apply state_ext; [apply to_state_range|done|]. intros i Hi.
  rewrite rotl_bits by (apply to_state_range || lia).
  destruct (Z.ltb_spec i (w - k)); rewrite rotl_bits by (done || lia).
  - destruct (Z.ltb_spec (i + (w - (w - k))) k); [lia|]. f_equal. lia.
  - destruct (Z.ltb_spec (i - (w - k)) k); [|lia]. f_equal. lia.
Qed.

Lemma lxor_in_state a b : in_state a -> in_state b -> in_state (Z.lxor a b).
Proof.
  intros Ha Hb. rewrite <-(to_state_id a Ha), <-(to_state_id b Hb).
  assert (E : Z.lxor (to_state p a) (to_state p b) = to_state p (Z.lxor a b)).
  { apply Z.bits_inj'. intros i Hi. rewrite Z.lxor_spec, !to_state_bits, Z.lxor_spec by done.
    by destruct (i <? w). }
  rewrite E. apply to_state_range.
Qed.

Lemma to_state_lxor a b : to_state p (Z.lxor a b) = Z.lxor (to_state p a) (to_state p b).
Proof.
  apply Z.bits_inj'. intros i Hi. rewrite Z.lxor_spec, !to_state_bits, Z.lxor_spec by done.
  by destruct (i <? w).
Qed.

Lemma rotl_0 k : 0 < k < w -> rotl p 0 k = 0.
Proof.
  intros. unfold rotl. rewrite Z.shiftl_0_l, Z.shiftr_0_l. apply to_state_id.
  unfold in_state. split; [done|]. apply Z.pow_pos_nonneg; lia.
Qed.

(** * The step backwards *)

Definition xor_prev (g : XorOshiro) : XorOshiro :=
  let y1 := rotl p (state_y g) (w - param_C p) in
  let x := rotl p (to_state p (Z.lxor (Z.lxor (state_x g) y1) (Z.shiftl y1 (param_B p))))
                (w - param_A p) in
  mkXorOshiro x (Z.lxor y1 x).

Definition generator_ok (g : XorOshiro) : Prop := in_state (state_x g) /\ in_state (state_y g).

Lemma xor_step_inverse x y :
  in_state x -> in_state y ->
  let y1 := to_state p (Z.lxor y x) in
  xor_prev (mkXorOshiro
    (to_state p (Z.lxor (Z.lxor (rotl p x (param_A p)) y1) (Z.shiftl y1 (param_B p))))
    (rotl p y1 (param_C p)))
  = mkXorOshiro x y.
Proof.
  intros Hx Hy y1. destruct Hp as (HA & HB & HC & HR).
  assert (Hy1 : in_state y1) by apply to_state_range.
  unfold xor_prev. cbn [state_x state_y]. rewrite rotl_inverse by done.
  assert (Hr : in_state (rotl p x (param_A p))) by apply to_state_range.
  assert (E : to_state p (Z.lxor (Z.lxor
      (to_state p (Z.lxor (Z.lxor (rotl p x (param_A p)) y1) (Z.shiftl y1 (param_B p)))) y1)
      (Z.shiftl y1 (param_B p))) = rotl p x (param_A p)).
  { rewrite !to_state_lxor, !(to_state_id (to_state p _)) by apply to_state_range.
    rewrite (to_state_id y1), (to_state_id (rotl p x _)) by done.
    apply Z.bits_inj'. intros i _. rewrite !Z.lxor_spec. by repeat destruct (Z.testbit _ _). }
  rewrite E, rotl_inverse by done. f_equal. unfold y1.
  rewrite (to_state_id (Z.lxor y x)) by by apply lxor_in_state.
  by rewrite Z.lxor_assoc, Z.lxor_nilpotent, Z.lxor_0_r.
Qed.

Lemma xor_prev_zero : xor_prev (mkXorOshiro 0 0) = mkXorOshiro 0 0.
Proof.
  destruct Hp as (HA & HB & HC & HR). unfold xor_prev. cbn [state_x state_y].
  rewrite rotl_0 by lia. rewrite Z.shiftl_0_l. cbn [Z.lxor].
  rewrite to_state_id by (unfold in_state; split; [done|]; apply Z.pow_pos_nonneg; lia).
  by rewrite rotl_0 by lia.
Qed.

End Rotation.

(** * A seeded generator never aborts *)

Definition nonzero (g : XorOshiro) : Prop := ~ (state_x g = 0 /\ state_y g = 0).

Lemma xor_next_some p g :
  params_ok p -> generator_ok p g -> nonzero g ->
  exists r g', xor_next p g = Some (r, g') /\ generator_ok p g' /\ nonzero g'
    /\ result_min p <= r <= result_max p /\ xor_prev p g' = g.
Proof.
  intros Hp [Hx Hy] Hn. destruct g as [x y]. cbn [state_x state_y] in *.
  pose proof (xor_step_inverse p Hp x y Hx Hy) as Hinv.
  cbv zeta in Hinv. unfold xor_next. cbn [state_x state_y].
  set (y1 := to_state p (Z.lxor y x)) in *.
  set (x2 := to_state p (Z.lxor _ (Z.shiftl y1 _))) in *.
  set (y2 := rotl p y1 _) in *.
  assert (Hnz : nonzero (mkXorOshiro x2 y2)).
  { intros [Ex Ey]. cbn [state_x state_y] in Ex, Ey. rewrite Ex, Ey, xor_prev_zero in Hinv by done.
    injection Hinv as <- <-. by apply Hn. }
  destruct ((x2 =? 0) && (y2 =? 0)) eqn:E.
  { exfalso. apply Hnz. apply andb_true_iff in E as [?%Z.eqb_eq ?%Z.eqb_eq]. done. }
  eexists _, _. split; [done|]. split; [by split; apply to_state_range|].
  split; [done|]. split; [|done]. split.
  - apply Z.shiftr_nonneg. by apply to_state_range.
  - unfold result_max. pose proof (to_state_range p Hp (x + y)) as [H0 H1].
    destruct Hp as (_ & _ & _ & HR).
    rewrite Z.shiftr_div_pow2 by lia.
    enough (to_state p (x + y) / 2 ^ (STATE_BITS p - RESULT_BITS p) < 2 ^ RESULT_BITS p) by lia.
    apply Z.div_lt_upper_bound; [apply Z.pow_pos_nonneg; lia|].
    rewrite <-Z.pow_add_r by lia. by replace (_ - _ + _) with (STATE_BITS p) by lia.
Qed.

Lemma draw_some p n g :
  params_ok p -> generator_ok p g -> nonzero g ->
  exists rs g', draw p n g = Some (rs, g') /\ length rs = n
    /\ Forall (fun r => result_min p <= r <= result_max p) rs
    /\ generator_ok p g' /\ nonzero g' /\ Nat.iter n (xor_prev p) g' = g.
Proof.
  intros Hp. revert g. induction n as [|n IH]; intros g Hg Hn.
  - exists [], g. by split_and!.
  - destruct (xor_next_some p g Hp Hg Hn) as (r & g1 & E & Hg1 & Hn1 & Hr & Hprev).
    destruct (IH g1 Hg1 Hn1) as (rs & g2 & E2 & Hl & Hrs & Hg2 & Hn2 & Hi).
    exists (r :: rs), g2. cbn [draw]. rewrite E. cbn. rewrite E2. cbn.
    split; [done|]. split; [by rewrite <-Hl|]. split; [by constructor|].
    split; [done|]. split; [done|]. change (xor_prev p (Nat.iter n (xor_prev p) g2) = g). by rewrite Hi.
Qed.

(** Each of the seven generators of the header, seeded with anything but zero, runs
    for ever: the constructor and [set_state] return, every draw returns a number between
    [min()] and [max()], and no draw reaches the zero state on which the generator
    aborts.  No draw loses information either: the seed is computed back from the
    generator after any number of draws, so two different seeds never meet. *)
Theorem xoroshiro_never_aborts p x y n :
  p ∈ xor_instances -> in_state p x -> in_state p y -> (x, y) <> (0, 0) ->
  exists g rs g', set_state p x y = Some g
    /\ draw p n g = Some (rs, g') /\ length rs = n
    /\ Forall (fun r => result_min p <= r <= result_max p) rs
    /\ Nat.iter (S n) (xor_prev p) g' = mkXorOshiro x y.
Proof.
  intros Hi%xor_instances_ok Hx Hy Hxy.
  assert (Hn : nonzero (mkXorOshiro x y)) by (cbn; intros [H1 H2]; cbn in *; congruence).
  destruct (xor_next_some p (mkXorOshiro x y) Hi (conj Hx Hy) Hn)
    as (r & g & E & Hg & Hng & _ & Hprev).
  destruct (draw_some p n g Hi Hg Hng) as (rs & g' & E2 & Hl & Hrs & _ & _ & Hit).
  exists g, rs, g'. split_and!; [|done..|].
  - unfold set_state. destruct ((x =? 0) && (y =? 0)) eqn:Ez; [|by rewrite E].
    apply andb_true_iff in Ez as [?%Z.eqb_eq ?%Z.eqb_eq]. congruence.
  - change (xor_prev p (Nat.iter n (xor_prev p) g') = mkXorOshiro x y). by rewrite Hit.
Qed.

Lemma xoroshiro_never_aborts_witness :
  exists g rs g', set_state p16r8 7 0 = Some g
    /\ draw p16r8 5 g = Some (rs, g') /\ length rs = 5%nat
    /\ Forall (fun r => result_min p16r8 <= r <= result_max p16r8) rs
    /\ Nat.iter 6 (xor_prev p16r8) g' = mkXorOshiro 7 0.
Proof.
  apply (xoroshiro_never_aborts p16r8 7 0 5).
  - unfold xor_instances. rewrite !elem_of_cons. tauto.
  - unfold in_state. cbn. lia.
  - unfold in_state. cbn. lia.
  - discriminate.
Defined.

