(* ===== verification/Ast.v ===== *)
(** AST nodes ([include/trieste/ast.h]): the shared store of nodes and the methods of
    [NodeDef].  A [Node] is a pointer, so a node may be a child of several nodes, and
    its parent pointer names only the one that took it last; both are kept here. *)
From S2P Require Import Prelude.
From S2P Require Import Token.
From S2P Require Import Source.
From stdpp Require Export gmap.
Open Scope Z_scope.

(** [Node]: the address of a [NodeDef].  A null [Node] is [None] where one is allowed. *)
Definition Node := positive.

(** [SymtabDef]; [std::map] is the list of its entries in the order of the keys. *)
Record SymtabDef := mkSymtabDef {
  symbols : list (Location * list Node);
  includes : list Node;
  symtab_next_id : Z
}.
Definition empty_symtab : SymtabDef := mkSymtabDef [] [] 0.

(** * [Flags] *)
Definition set_contains_error (f : Z) : Z := Z.lor f (Z.shiftl 1 0).
Definition set_contains_lift (f : Z) : Z := Z.lor f (Z.shiftl 1 1).
Definition reset_contains_error (f : Z) : Z := Z.land f (Z.lnot (Z.shiftl 1 0)).
Definition reset_contains_lift (f : Z) : Z := Z.land f (Z.lnot (Z.shiftl 1 1)).
Definition contains_error (f : Z) : bool := negb (Z.land f (Z.shiftl 1 0) =? 0).
Definition contains_lift (f : Z) : bool := negb (Z.land f (Z.shiftl 1 1) =? 0).

(** * [NodeDef] and the store *)
Record NodeDef := mkNodeDef {
  type_ : Token;
  location_ : Location;
  symtab_ : option SymtabDef;
  parent_ : option Node;
  flags_ : Z;
  children : list Node
}.

Definition with_location (l : Location) (d : NodeDef) :=
  mkNodeDef (type_ d) l (symtab_ d) (parent_ d) (flags_ d) (children d).
Definition with_symtab (s : option SymtabDef) (d : NodeDef) :=
  mkNodeDef (type_ d) (location_ d) s (parent_ d) (flags_ d) (children d).
Definition with_parent (p : option Node) (d : NodeDef) :=
  mkNodeDef (type_ d) (location_ d) (symtab_ d) p (flags_ d) (children d).
Definition with_flags (f : Z -> Z) (d : NodeDef) :=
  mkNodeDef (type_ d) (location_ d) (symtab_ d) (parent_ d) (f (flags_ d)) (children d).
Definition with_children (c : list Node -> list Node) (d : NodeDef) :=
  mkNodeDef (type_ d) (location_ d) (symtab_ d) (parent_ d) (flags_ d) (c (children d)).

(** The store.  Nodes are never freed here: the reference counts keep a node alive as
    long as the code can reach it, and an address that was never allocated is not read
    ([closed] in AstFacts). *)
Abbreviation heap := (gmap Node NodeDef).

Definition unallocated : NodeDef := mkNodeDef Invalid null_location None None 0 [].
Definition node_at (h : heap) (n : Node) : NodeDef := default unallocated (h !! n).

Definition type_of (h : heap) (n : Node) : Token := type_ (node_at h n).
Definition children_of (h : heap) (n : Node) : list Node := children (node_at h n).
Definition parent_of (h : heap) (n : Node) : option Node := parent_ (node_at h n).
Definition location_of (h : heap) (n : Node) : Location := location_ (node_at h n).
Definition symtab_of (h : heap) (n : Node) : option SymtabDef := symtab_ (node_at h n).

(** * Construction *)

(** [NodeDef::NodeDef] *)
Definition new_node (type : Token) (location : Location) : NodeDef :=
  mkNodeDef type location (if has type flag_symtab then Some empty_symtab else None) None 0 [].

(** [NodeDef::create(type, location)]: an address that is not in use. *)
Definition create (h : heap) (type : Token) (location : Location) : Node * heap :=
  let n := fresh (dom h) in (n, <[n := new_node type location]> h).

(** [NodeDef::create(type)] *)
Definition create_token (h : heap) (type : Token) : Node * heap := create h type null_location.

(** [NodeDef::create(type, range)] *)
Definition create_range (h : heap) (type : Token) (range : list Node) : Node * heap :=
  match range with
  | [] => create_token h type
  | front :: _ =>
      create h type (location_mul (location_of h front)
                       (location_of h (default front (last range))))
  end.

(** * Flags of the ancestors *)

(** The two loops of [add_flags].  A turn sets a flag that was not set, so there are at
    most as many as nodes. *)
Fixpoint add_flag_loop (fuel : nat) (test : Z -> bool) (set : Z -> Z) (h : heap)
    (curr : option Node) : heap :=
  match fuel, curr with
  | S fuel, Some c =>
      if test (flags_ (node_at h c)) then h
      else add_flag_loop fuel test set (alter (with_flags set) c h) (parent_of h c)
  | _, _ => h
  end.

(** [NodeDef::add_flags] *)
Definition add_flags (h : heap) (n : Node) : heap :=
  let d := node_at h n in
  if token_eqb (type_ d) Error || contains_error (flags_ d) then
    add_flag_loop (S (size h)) contains_error set_contains_error h (parent_ d)
  else if token_eqb (type_ d) Lift || contains_lift (flags_ d) then
    add_flag_loop (S (size h)) contains_lift set_contains_lift h (parent_ d)
  else h.

(** [node->parent_ = this; node->add_flags();] *)
Definition adopt (h : heap) (this node : Node) : heap :=
  add_flags (alter (with_parent (Some this)) node h) node.

(** * Children *)

(** [push_front], [push_back]; a null node is ignored. *)
Definition push_front (h : heap) (this : Node) (node : option Node) : heap :=
  match node with
  | None => h
  | Some n => adopt (alter (with_children (cons n)) this h) this n
  end.
Definition push_back (h : heap) (this : Node) (node : option Node) : heap :=
  match node with
  | None => h
  | Some n => adopt (alter (with_children (fun c => c ++ [n])) this h) this n
  end.

(** [push_back(NodeRange)] *)
Definition push_back_range (h : heap) (this : Node) (range : list Node) : heap :=
  foldl (fun h n => push_back h this (Some n)) h range.

(** [push_back_ephemeral]: the child keeps its parent. *)
Definition push_back_ephemeral (h : heap) (this : Node) (node : option Node) : heap :=
  match node with
  | None => h
  | Some n => alter (with_children (fun c => c ++ [n])) this h
  end.
Definition push_back_ephemeral_range (h : heap) (this : Node) (range : list Node) : heap :=
  foldl (fun h n => push_back_ephemeral h this (Some n)) h range.

(** [if (node->parent_ == this) node->parent_ = nullptr;] *)
Definition disown (h : heap) (this node : Node) : heap :=
  if bool_decide (parent_of h node = Some this) then alter (with_parent None) node h else h.

(** [NodeDef::pop_back] *)
Definition pop_back (h : heap) (this : Node) : option Node * heap :=
  match last (children_of h this) with
  | None => (None, h)
  | Some node =>
      (Some node, disown (alter (with_children (fun c => take (length c - 1) c)) this h) this node)
  end.

(** [NodeDef::erase]; iterators are indices, and the result is [first]. *)
Definition erase (h : heap) (this : Node) (first last : nat) : heap :=
  let h := foldl (fun h n => disown h this n) h
             (drop first (take last (children_of h this))) in
  alter (with_children (fun c => take first c ++ drop last c)) this h.

(** [NodeDef::insert(pos, node)] *)
Definition insert (h : heap) (this : Node) (pos : nat) (node : option Node) : heap :=
  match node with
  | None => h
  | Some n => alter (with_children (fun c => take pos c ++ n :: drop pos c)) this (adopt h this n)
  end.

(** [NodeDef::insert(pos, first, last)] *)
Definition insert_range (h : heap) (this : Node) (pos : nat) (range : list Node) : heap :=
  alter (with_children (fun c => take pos c ++ range ++ drop pos c)) this
    (foldl (fun h n => adopt h this n) h range).

(** [std::find] on the children: the index of a node. *)
Fixpoint index_of (n : Node) (l : list Node) : option nat :=
  match l with
  | [] => None
  | x :: l => if Pos.eqb x n then Some O else S <$> index_of n l
  end.

(** [NodeDef::replace].  The store of [node1]'s parent is read after the search. *)
Definition replace (h : heap) (this : Node) (node1 : Node) (node2 : option Node) : outcome heap :=
  match index_of node1 (children_of h this) with
  | None => Throws
  | Some it =>
      match node2 with
      | Some n2 =>
          let h := disown h this node1 in
          let h := adopt h this n2 in
          Returns (alter (with_children (fun c => <[it := n2]> c)) this h)
      | None => Returns (alter (with_children (fun c => take it c ++ drop (S it) c)) this h)
      end
  end.

(** [NodeDef::replace_at]; [std::vector::at] throws. *)
Definition replace_at (h : heap) (this : Node) (index : nat) (node2 : option Node) : outcome heap :=
  match children_of h this !! index with
  | None => Throws
  | Some n => replace h this n node2
  end.

(** [NodeDef::find_first] from an index, [contains], [find] *)
Fixpoint find_first (h : heap) (token : Token) (l : list Node) (i : nat) : nat :=
  match l with
  | [] => i
  | n :: l => if token_eqb (type_of h n) token then i else find_first h token l (S i)
  end.
Definition find_first_from (h : heap) (this : Node) (token : Token) (begin : nat) : nat :=
  find_first h token (drop begin (children_of h this)) begin.
Definition contains_child (h : heap) (this : Node) (token : Token) : bool :=
  negb (find_first_from h this token 0 =? length (children_of h this))%nat.
Definition find_child (h : heap) (this n : Node) : nat :=
  default (length (children_of h this)) (index_of n (children_of h this)).

(** [range_contains_error] *)
Definition range_contains_error (h : heap) (range : list Node) : bool :=
  existsb (fun n => token_eqb (type_of h n) Error || contains_error (flags_ (node_at h n))) range.

(** * Ancestors *)

(** The loops that walk up the parents stop at the first node that passes a test. *)
Fixpoint climb (fuel : nat) (h : heap) (test : NodeDef -> bool) (p : option Node) : option Node :=
  match fuel, p with
  | S fuel, Some n =>
      if test (node_at h n) then Some n else climb fuel h test (parent_of h n)
  | _, _ => None
  end.
Definition depth_fuel (h : heap) : nat := S (size h).

(** [NodeDef::parent(list)] *)
Definition parent_in (h : heap) (n : Node) (l : list Token) : option Node :=
  climb (depth_fuel h) h (fun d => token_in l (type_ d)) (parent_of h n).

Definition has_symtab (d : NodeDef) : bool := match symtab_ d with Some _ => true | None => false end.

(** [NodeDef::scope] *)
Definition scope (h : heap) (n : Node) : option Node :=
  climb (depth_fuel h) h has_symtab (parent_of h n).

(** The counting loops of [same_parent] *)
Fixpoint depth (fuel : nat) (h : heap) (t : option Node) : nat :=
  match fuel, t with
  | S fuel, Some n => S (depth fuel h (parent_of h n))
  | _, _ => O
  end.

(** [p = p->parent_], [n] times; a null pointer is [None]. *)
Definition up (h : heap) (p : option Node) : option Node := p ≫= parent_of h.

Fixpoint meet (fuel : nat) (h : heap) (p q : Node) : option (Node * Node) :=
  match fuel with
  | O => None
  | S fuel =>
      if bool_decide (parent_of h p = parent_of h q) then Some (p, q)
      else match parent_of h p, parent_of h q with
           | Some p, Some q => meet fuel h p q
           | _, _ => None
           end
  end.

(** [NodeDef::same_parent]: the ancestors below the lowest common one. *)
Definition same_parent (h : heap) (p q : Node) : option (Node * Node) :=
  let d1 := depth (depth_fuel h) h (Some p) in
  let d2 := depth (depth_fuel h) h (Some q) in
  p ← Nat.iter (d1 - d2) (up h) (Some p);
  q ← Nat.iter (d2 - d1) (up h) (Some q);
  meet (depth_fuel h) h p q.

Definition or_undefined {A} (o : option A) : outcome A :=
  match o with Some a => Returns a | None => Undefined end.

(** [NodeDef::common_parent] *)
Definition common_parent (h : heap) (this node : Node) : outcome Node :=
  '(p, q) ← or_undefined (same_parent h this node);
  if Pos.eqb p q then Returns p else or_undefined (parent_of h p).

(** [NodeDef::precedes] *)
Definition precedes (h : heap) (this node : Node) : outcome bool :=
  '(p, q) ← or_undefined (same_parent h this node);
  if Pos.eqb p q then Returns false
  else
    parent ← or_undefined (parent_of h p);
    Returns (find_child h parent p <? find_child h parent q)%nat.

(** * Symbol tables *)

(** [std::map<Location, Nodes>::find]: keys are compared by their text. *)
Fixpoint symbols_find (m : list (Location * list Node)) (loc : Location)
    : outcome (option (list Node)) :=
  match m with
  | [] => Returns None
  | (k, v) :: m =>
      e ← location_eq k loc;
      if (e : bool) then Returns (Some v) else symbols_find m loc
  end.

(** [operator[]] and an update of the entry; a missing key is inserted in order. *)
Fixpoint symbols_update (m : list (Location * list Node)) (loc : Location)
    (f : list Node -> list Node) : outcome (list (Location * list Node)) :=
  match m with
  | [] => Returns [(loc, f [])]
  | (k, v) :: m' =>
      lt ← location_lt k loc;
      if (lt : bool) then rest ← symbols_update m' loc f; Returns ((k, v) :: rest)
      else
        e ← location_eq k loc;
        Returns (if (e : bool) then (k, f v) :: m' else (loc, f []) :: m)
  end.

(** [std::copy_if] with a predicate that may throw *)
Fixpoint copy_if (f : Node -> outcome bool) (l : list Node) : outcome (list Node) :=
  match l with
  | [] => Returns []
  | n :: l => b ← f n; r ← copy_if f l; Returns (if (b : bool) then n :: r else r)
  end.

(** [NodeDef::get_symbols(result, f)]: the symbols of every name. *)
Definition get_symbols (h : heap) (this : Node) (f : Node -> outcome bool) : outcome (list Node) :=
  match symtab_of h this with
  | None => Returns []
  | Some st => copy_if f (concat (snd <$> symbols st))
  end.

(** [NodeDef::get_symbols(loc, result, f)] *)
Definition get_symbols_at (h : heap) (this : Node) (loc : Location)
    (f : Node -> outcome bool) : outcome (list Node) :=
  match symtab_of h this with
  | None => Returns []
  | Some st =>
      it ← symbols_find (symbols st) loc;
      match it with None => Returns [] | Some nodes => copy_if f nodes end
  end.

(** [SymtabDef::clear] keeps [next_id]; [NodeDef::clear_symbols] *)
Definition clear_symtab (st : SymtabDef) : SymtabDef := mkSymtabDef [] [] (symtab_next_id st).
Definition clear_symbols (h : heap) (this : Node) : heap :=
  alter (fun d => with_symtab (clear_symtab <$> symtab_ d) d) this h.

(** [NodeDef::look], [NodeDef::lookdown], [NodeDef::includes] *)
Definition look (h : heap) (this : Node) (loc : Location) : outcome (list Node) :=
  get_symbols_at h this loc (fun _ => Returns true).
Definition lookdown (h : heap) (this : Node) (loc : Location) : outcome (list Node) :=
  get_symbols_at h this loc (fun n => Returns (has (type_of h n) flag_lookdown)).
Definition node_includes (h : heap) (this : Node) : list Node :=
  match symtab_of h this with None => [] | Some st => includes st end.

(** The loop of [NodeDef::lookup] *)
Fixpoint lookup_loop (fuel : nat) (h : heap) (this : Node) (until : option Node)
    (st : option Node) (result : list Node) : outcome (list Node) :=
  match st with
  | None => Returns result
  | Some s =>
      match fuel with
      | O => Undefined
      | S fuel =>
          syms ← get_symbols_at h s (location_of h this) (fun n =>
            if has (type_of h n) flag_lookup then
              if has (type_of h s) flag_defbeforeuse then precedes h n this else Returns true
            else Returns false);
          let result := result ++ syms ++ node_includes h s in
          if bool_decide (until = Some s)
             || existsb (fun n => has (type_of h n) flag_shadowing) result
          then Returns result
          else lookup_loop fuel h this until (scope h s) result
      end
  end.
Definition node_lookup (h : heap) (this : Node) (until : option Node) : outcome (list Node) :=
  lookup_loop (depth_fuel h) h this until (scope h this) [].

(** [NodeDef::bind]: the result and the store. *)
Definition bind (h : heap) (this : Node) (loc : Location) : outcome (bool * heap) :=
  match scope h this with
  | None => Throws
  | Some st =>
      match symtab_of h st with
      | None => Undefined
      | Some tab =>
          syms ← symbols_update (symbols tab) loc (fun e => e ++ [this]);
          let h := alter (with_symtab (Some (mkSymtabDef syms (includes tab) (symtab_next_id tab))))
                     st h in
          entry ← symbols_find syms loc;
          let entry := default [] entry in
          Returns ((length entry =? 1)%nat
                   || negb (existsb (fun n => has (type_of h n) flag_shadowing) entry), h)
      end
  end.

(** [NodeDef::include] *)
Definition include (h : heap) (this : Node) : outcome heap :=
  match scope h this with
  | None => Throws
  | Some st =>
      match symtab_of h st with
      | None => Undefined
      | Some tab =>
          Returns (alter (with_symtab (Some (mkSymtabDef (symbols tab) (includes tab ++ [this])
                                               (symtab_next_id tab)))) st h)
      end
  end.

(** [SymtabDef::fresh] and [NodeDef::fresh]: the text of the new location. *)
Definition symtab_fresh (st : SymtabDef) (prefix : Location) : outcome (list Z * SymtabDef) :=
  p ← view prefix;
  Returns (p ++ [36] ++ to_string (symtab_next_id st),
           mkSymtabDef (symbols st) (includes st) (u64 (symtab_next_id st + 1))).
Definition node_fresh (h : heap) (this : Node) (prefix : Location) : outcome (list Z * heap) :=
  top ← or_undefined (if token_eqb (type_of h this) Token.Top then Some this
                      else parent_in h this [Token.Top]);
  st ← or_undefined (symtab_of h top);
  '(s, st) ← symtab_fresh st prefix;
  Returns (s, alter (with_symtab (Some st)) top h).

(** * Traversal *)

Section Traverse.
Context {St : Type} (heap_of : St -> heap).
Context (pre : Node -> St -> outcome (bool * St)) (post : Node -> St -> outcome St).

(** The loop of [NodeDef::traverse]; the back of [path] is the head of the list. *)
Fixpoint traverse_loop (fuel : nat) (path : list (Node * nat)) (s : St) : outcome St :=
  match path with
  | [] => Returns s
  | (node, it) :: rest =>
      match fuel with
      | O => Undefined
      | S fuel =>
          match children_of (heap_of s) node !! it with
          | Some curr =>
              '(b, s) ← pre curr s;
              if (b : bool) then traverse_loop fuel ((curr, O) :: (node, S it) :: rest) s
              else traverse_loop fuel ((node, S it) :: rest) s
          | None => s ← post node s; traverse_loop fuel rest s
          end
      end
  end.

(** [NodeDef::traverse] *)
Definition traverse (fuel : nat) (root : Node) (s : St) : outcome St :=
  '(b, s) ← pre root s;
  if (b : bool) then traverse_loop fuel [(root, O)] s else Returns s.

End Traverse.

(** [NodeDef::NopPost] *)
Definition NopPost {St} (n : Node) (s : St) : outcome St := Returns s.

(** [NodeDef::set_location] *)
Definition set_location (fuel : nat) (h : heap) (this : Node) (loc : Location) : outcome heap :=
  traverse id (fun n h =>
      match source (location_of h n) with
      | Some _ => Returns (false, h)
      | None => Returns (true, alter (with_location loc) n h)
      end) NopPost fuel this h.

(** [NodeDef::extend] *)
Definition extend (h : heap) (this : Node) (loc : Location) : heap :=
  alter (fun d => with_location (location_mul (location_ d) loc) d) this h.

(** [get_and_reset_contains_error], [get_and_reset_contains_lift] *)
Definition get_and_reset_contains_error (h : heap) (this : Node) : bool * heap :=
  (contains_error (flags_ (node_at h this)), alter (with_flags reset_contains_error) this h).
Definition get_and_reset_contains_lift (h : heap) (this : Node) : bool * heap :=
  (contains_lift (flags_ (node_at h this)), alter (with_flags reset_contains_lift) this h).

(** [NodeDef::get_errors] *)
Definition get_errors_pre (n : Node) (s : heap * list Node) : outcome (bool * (heap * list Node)) :=
  let '(h, errors) := s in
  let '(b, h) := get_and_reset_contains_error h n in
  if b then Returns (true, (h, errors))
  else Returns (false, (h, if token_eqb (type_of h n) Error then errors ++ [n] else errors)).
Definition get_errors (fuel : nat) (h : heap) (this : Node) (errors : list Node)
    : outcome (heap * list Node) :=
  traverse fst get_errors_pre NopPost fuel this (h, errors).

(** [NodeDef::tree_size], [NodeDef::tree_height] *)
Definition tree_size (fuel : nat) (h : heap) (this : Node) : outcome Z :=
  snd <$> traverse fst (fun _ '(h, size) => Returns (true, (h, u64 (size + 1)))) NopPost
            fuel this (h, 0).
Definition tree_height (fuel : nat) (h : heap) (this : Node) : outcome Z :=
  (fun '(_, _, m) => m) <$>
  traverse (fun s => s.1.1)
    (fun _ '(h, curr_depth, max_depth) => Returns (true, (h, u64 (curr_depth + 1), max_depth)))
    (fun _ '(h, curr_depth, max_depth) =>
       Returns (h, u64 (curr_depth - 1), if max_depth <? curr_depth then curr_depth else max_depth))
    fuel this (h, 0, 0).

(** [NodeDef::hash]: FNV-1a over the names and excerpts; a [char] is signed when it is
    combined with the 64-bit hash. *)
Definition fnv_prime : Z := 1099511628211.
Definition offset_basis : Z := 14695981039346656037.
Definition char_u64 (c : Z) : Z := u64 (if 128 <=? c then c - 256 else c).
Definition hash_char (hash c : Z) : Z := u64 (Z.lxor hash (char_u64 c) * fnv_prime).
Definition node_hash (fuel : nat) (h : heap) (this : Node) : outcome Z :=
  snd <$> traverse fst (fun n '(h, hash) =>
      s ← location_str (location_of h n);
      Returns (true, (h, foldl hash_char hash (bytes (name (type_of h n)) ++ s)))) NopPost
    fuel this (h, offset_basis).

(** * Copies and equality *)

(** [NodeDef::clone]: the recursion follows the children. *)
Fixpoint clone (fuel : nat) (h : heap) (this : Node) : outcome (Node * heap) :=
  match fuel with
  | O => Undefined
  | S fuel =>
      let '(node, h) := create h (type_of h this) (location_of h this) in
      h ← foldl (fun r child =>
             h ← r; '(c, h) ← clone fuel h child; Returns (push_back h node (Some c)))
           (Returns h) (children_of h this);
      Returns (node, h)
  end.

(** [std::equal] of two ranges, both bounded *)
Fixpoint equal_ranges (eq : Node -> Node -> outcome bool) (l1 l2 : list Node) : outcome bool :=
  match l1, l2 with
  | [], [] => Returns true
  | a :: l1, b :: l2 => e ← eq a b; if (e : bool) then equal_ranges eq l1 l2 else Returns false
  | _, _ => Returns false
  end.

(** [NodeDef::equals] *)
Fixpoint equals (fuel : nat) (h : heap) (this node : Node) : outcome bool :=
  match fuel with
  | O => Undefined
  | S fuel =>
      if token_eqb (type_of h this) (type_of h node) then
        e ← (if negb (has (type_of h this) flag_print) then Returns true
             else location_eq (location_of h this) (location_of h node));
        if (e : bool) then equal_ranges (equals fuel h) (children_of h this) (children_of h node)
        else Returns false
      else Returns false
  end.
