(* ===== verification/AstFacts.v ===== *)
(** Facts about the node store: the tree under a node, [traverse] as a recursive visit
    of that tree, and the invariant of the store that the mutating methods keep. *)
From S2P Require Import Prelude.
From S2P Require Import Token.
From S2P Require Import Source.
From S2P Require Import Ast.
Open Scope Z_scope.
#[local] Set Warnings "-register-all".

(** * The tree under a node *)

Inductive tree := Tree (n : Node) (ts : list tree).
Definition root (t : tree) : Node := match t with Tree n _ => n end.
Definition subtrees (t : tree) : list tree := match t with Tree _ ts => ts end.

Section TreeInd.
Context (P : tree -> Prop) (Hnode : forall n ts, Forall P ts -> P (Tree n ts)).

Fixpoint tree_ind' (t : tree) : P t :=
  match t with
  | Tree n ts =>
      Hnode n ts ((fix go ts : Forall P ts :=
        match ts with
        | [] => Forall_nil_2 P
        | t :: ts => Forall_cons_2 P t ts (tree_ind' t) (go ts)
        end) ts)
  end.

End TreeInd.

(** [t] is the tree that starts at its root in the store. *)
Inductive reads (h : heap) : tree -> Prop :=
  | reads_node n ts :
      children_of h n = root <$> ts -> Forall (reads h) ts -> reads h (Tree n ts).

Lemma reads_inv h n ts :
  reads h (Tree n ts) <-> children_of h n = root <$> ts /\ Forall (reads h) ts.
Proof. split; [by inversion_clear 1|]. intros [? ?]. by constructor. Qed.

(** Two stores with the same children of every node. *)
Definition same_shape (h h' : heap) : Prop := forall n, children_of h' n = children_of h n.

#[export] Instance same_shape_equiv : Equivalence same_shape.
Proof.
  split; [by intros ? ?|by intros ? ? H n; rewrite H|intros ? ? ? H1 H2 n; by rewrite H2, H1].
Qed.

Lemma reads_shape h h' t : same_shape h h' -> reads h t -> reads h' t.
Proof.
  intros Hs. induction t as [n ts IH] using tree_ind'. rewrite !reads_inv. intros [Hc Ht].
  split; [by rewrite Hs|]. rewrite Forall_forall in IH, Ht |- *. auto.
Qed.

#[export] Instance reads_proper : Proper (same_shape ==> eq ==> iff) reads.
Proof. intros h h' Hs t ? <-. split; apply reads_shape; [done|by symmetry]. Qed.

(** The nodes of a tree, in the order of the visit. *)
Fixpoint nodes (t : tree) : list Node :=
  match t with Tree n ts => n :: concat (nodes <$> ts) end.

(** The turns [traverse_loop] takes below a node: one per child and one to leave. *)
Fixpoint cost (t : tree) : nat :=
  match t with Tree _ ts => S (sum_list ((fun t => S (cost t)) <$> ts)) end.

Lemma cost_nodes t : (cost t + 1 = 2 * length (nodes t))%nat.
Proof.
  induction t as [n ts IH] using tree_ind'. cbn [cost nodes length].
  enough (sum_list ((fun t => S (cost t)) <$> ts) = 2 * length (concat (nodes <$> ts)))%nat by lia.
  induction IH as [|t ts Ht _ IH]; [done|]. cbn. rewrite length_app. lia.
Qed.

(** * [traverse] visits the tree *)

Section Visit.
Context {St : Type} (heap_of : St -> heap).
Context (pre : Node -> St -> outcome (bool * St)) (post : Node -> St -> outcome St).

Definition visits (visit : tree -> St -> outcome St) : list tree -> St -> outcome St :=
  fix go ts s :=
    match ts with
    | [] => Returns s
    | t :: ts => s ← visit t s; go ts s
    end.

(** The recursion that [traverse]'s stack unrolls. *)
Fixpoint visit (t : tree) (s : St) : outcome St :=
  match t with
  | Tree n ts =>
      '(b, s) ← pre n s;
      if (b : bool) then
        s ← visits visit ts s;
        post n s
      else Returns s
  end.

Lemma visit_eq n ts s :
  visit (Tree n ts) s
  = '(b, s) ← pre n s;
    if (b : bool) then s ← visits visit ts s; post n s else Returns s.
Proof. done. Qed.

Context (Hpre : forall n s b s', pre n s = Returns (b, s') -> same_shape (heap_of s) (heap_of s')).
Context (Hpost : forall n s s', post n s = Returns s' -> same_shape (heap_of s) (heap_of s')).

Lemma visits_shape_gen ts :
  Forall (fun t => forall s s', visit t s = Returns s' -> same_shape (heap_of s) (heap_of s')) ts ->
  forall s s', visits visit ts s = Returns s' -> same_shape (heap_of s) (heap_of s').
Proof.
  induction 1 as [|t ts Ht _ IH]; intros s s'; cbn; [intros [= <-]; reflexivity|].
  intros (s1 & H1 & H2)%outcome_bind_returns. etransitivity; eauto.
Qed.

Lemma visit_shape t : forall s s', visit t s = Returns s' -> same_shape (heap_of s) (heap_of s').
Proof.
  induction t as [n ts IH] using tree_ind'. intros s s'. rewrite visit_eq.
  intros ([b s1] & H1 & H2)%outcome_bind_returns. pose proof (Hpre _ _ _ _ H1).
  destruct b; [|injection H2 as <-; done].
  apply outcome_bind_returns in H2 as (s2 & H2 & H3).
  pose proof (visits_shape_gen ts IH _ _ H2). pose proof (Hpost _ _ _ H3).
  do 2 (etransitivity; [done|]). done.
Qed.

(** From child [k] of [n] on, the loop visits the remaining children and leaves [n]. *)
Lemma traverse_loop_children n ts :
  Forall (fun t => forall f rest s, reads (heap_of s) t -> exists f', (f <= f')%nat /\
    ('(b, s1) ← pre (root t) s;
     if (b : bool) then traverse_loop heap_of pre post (cost t + f) ((root t, O) :: rest) s1
     else traverse_loop heap_of pre post (cost t + f) rest s1)
    = s' ← visit t s; traverse_loop heap_of pre post f' rest s') ts ->
  forall k all f rest s,
  children_of (heap_of s) n = root <$> all -> drop k all = ts -> Forall (reads (heap_of s)) ts ->
  exists f', (f <= f')%nat /\
    traverse_loop heap_of pre post (S (sum_list ((fun t => S (cost t)) <$> ts)) + f)
      ((n, k) :: rest) s
    = s1 ← visits visit ts s; s2 ← post n s1; traverse_loop heap_of pre post f' rest s2.
Proof.
  induction 1 as [|t ts Ht _ IH]; intros k all f rest s Hc Hk Hr.
  - exists f. split; [done|]. cbn [fmap list_fmap sum_list sum_list_with foldr].
    cbn [Nat.add traverse_loop]. rewrite Hc.
    assert (Hlen : (length all <= k)%nat).
    { apply (f_equal length) in Hk.
      rewrite length_drop in Hk. cbn in Hk. lia. }
    rewrite list_lookup_fmap, lookup_ge_None_2 by done. cbn. done.
  - assert (Hat : all !! k = Some t) by (rewrite <-(Nat.add_0_r k), <-lookup_drop, Hk; done).
    assert (Hk' : drop (S k) all = ts).
    { rewrite <-Nat.add_1_r, <-drop_drop, Hk. done. }
    apply Forall_cons in Hr as [Hr1 Hr2].
    set (c := sum_list ((fun t => S (cost t)) <$> ts)).
    destruct (Ht (S c + f)%nat ((n, S k) :: rest) s Hr1) as (f1 & Hf1 & E).
    assert (Hsum : sum_list ((fun t => S (cost t)) <$> t :: ts) = (S (cost t) + c)%nat) by done.
    rewrite Hsum.
    replace (S (S (cost t) + c) + f)%nat with (S (cost t + (S c + f)))%nat by lia.
    cbn [traverse_loop]. rewrite Hc, list_lookup_fmap, Hat. cbn [fmap option_fmap option_map].
    rewrite E. cbn [visits]. destruct (visit t s) as [s1| |] eqn:Ev; cbn [mbind outcome_bind].
    + pose proof (visit_shape t s s1 Ev) as Hsh.
      destruct (IH (S k) all (f1 - S c)%nat rest s1) as (f' & Hf' & E').
      * by rewrite Hsh.
      * done.
      * rewrite Forall_forall in Hr2 |- *. intros x Hx. apply (reads_shape (heap_of s)); auto.
      * exists f'. split; [lia|]. fold c in E'.
        replace (S c + (f1 - S c))%nat with f1 in E' by lia. done.
    + by exists f.
    + by exists f.
Qed.

Lemma traverse_subtree t : forall f rest s, reads (heap_of s) t -> exists f', (f <= f')%nat /\
  ('(b, s1) ← pre (root t) s;
   if (b : bool) then traverse_loop heap_of pre post (cost t + f) ((root t, O) :: rest) s1
   else traverse_loop heap_of pre post (cost t + f) rest s1)
  = s' ← visit t s; traverse_loop heap_of pre post f' rest s'.
Proof.
  induction t as [n ts IH] using tree_ind'. intros f rest s [Hc Hr]%reads_inv.
  cbn [root]. rewrite visit_eq. destruct (pre n s) as [[b s1]| |] eqn:Ep;
    cbn [mbind outcome_bind]; [|by exists f..].
  pose proof (Hpre _ _ _ _ Ep) as Hsh. destruct b.
  - destruct (traverse_loop_children n ts IH 0 ts f rest s1) as (f' & Hf & E).
    + by rewrite Hsh.
    + done.
    + rewrite Forall_forall in Hr |- *. intros x Hx. apply (reads_shape (heap_of s)); auto.
    + exists f'. split; [done|]. cbn [cost]. rewrite E.
      destruct (visits visit ts s1) as [s2| |]; cbn; done.
  - exists (cost (Tree n ts) + f)%nat. split; [lia|done].
Qed.

(** [traverse] returns what the recursive visit returns, exceptions included. *)
Lemma traverse_visit t fuel s :
  reads (heap_of s) t -> (cost t <= fuel)%nat ->
  traverse heap_of pre post fuel (root t) s = visit t s.
Proof.
  intros Hr Hf. destruct (traverse_subtree t (fuel - cost t) [] s Hr) as (f' & _ & E).
  replace (cost t + (fuel - cost t))%nat with fuel in E by lia.
  unfold traverse. transitivity (s' ← visit t s; traverse_loop heap_of pre post f' [] s').
  - rewrite <-E. destruct (pre (root t) s) as [[[] s1]| |]; cbn; try done.
    by destruct fuel.
  - destruct (visit t s); cbn; try done. by destruct f'.
Qed.

End Visit.

(** * The nodes of a tree *)

Lemma elem_of_nodes n ts m : m ∈ nodes (Tree n ts) <-> m = n \/ exists t, t ∈ ts /\ m ∈ nodes t.
Proof.
  cbn [nodes]. rewrite elem_of_cons. split; (intros [?|H]; [by left|right]).
  - apply list_elem_of_In, in_concat in H as (l & Hl & Hm).
    apply list_elem_of_In, list_elem_of_fmap in Hl as (t & -> & Ht).
    exists t. split; [done|by apply list_elem_of_In].
  - destruct H as (t & Ht & Hm). apply list_elem_of_In, in_concat. exists (nodes t).
    split; apply list_elem_of_In; [by apply list_elem_of_fmap_2|done].
Qed.

Lemma root_in_nodes t : root t ∈ nodes t.
Proof. destruct t. by left. Qed.

Lemma nodes_child n ts t : t ∈ ts -> nodes t ⊆ nodes (Tree n ts).
Proof. intros Ht m Hm. apply elem_of_nodes. eauto. Qed.

Lemma NoDup_concat_elem {A} (ls : list (list A)) l : NoDup (concat ls) -> l ∈ ls -> NoDup l.
Proof.
  induction ls as [|l' ls IH]; cbn; [by intros _ ?%elem_of_nil|].
  intros (H1 & _ & H2)%NoDup_app [->|Hl]%elem_of_cons; auto.
Qed.
