(* ===== verification/Wellformed.v ===== *)
(** Well-formedness specifications ([include/trieste/wf.h]): shapes of nodes, the
    operators that build them, the checker, and the symbol tables it builds.  The
    messages a failed check logs are not modelled. *)
From S2P Require Import Prelude.
From S2P Require Import Token.
From S2P Require Import Source.
From S2P Require Import Ast.
Open Scope Z_scope.

(** [std::numeric_limits<size_t>::max()] *)
Definition size_max : Z := 2 ^ 64 - 1.
Definition size_of {A} (l : list A) : Z := Z.of_nat (length l).

(** * [Choice] *)
Record Choice := mkChoice { types : list Token }.

(** [Choice::accepts_type] *)
Definition accepts_type (c : Choice) (type : Token) : bool := token_in (types c) type.

(** [Choice::check] *)
Definition choice_check (c : Choice) (h : heap) (node : Node) : bool :=
  if token_eqb (type_of h node) Error then true else accepts_type c (type_of h node).

(** * [Sequence] *)
Record Sequence := mkSequence {
  seq_choice : Choice;
  min_len : Z;
  max_len : Z;
  has_minlen : bool;
  has_maxlen : bool
}.

(** The constructor [Sequence(choice, minlen, maxlen)] *)
Definition new_sequence (c : Choice) (minlen maxlen : Z) : Sequence :=
  mkSequence c minlen maxlen false false.

(** [Sequence::operator[](size_t)]: the first use bounds from below, the second from above. *)
Definition sequence_bound (s : Sequence) (new_len : Z) : outcome Sequence :=
  if has_minlen s && has_maxlen s then Throws
  else if has_minlen s && negb (has_maxlen s) && (new_len <? min_len s) then Throws
  else if negb (has_minlen s) then
    Returns (mkSequence (seq_choice s) new_len (max_len s) true (has_maxlen s))
  else Returns (mkSequence (seq_choice s) (min_len s) new_len (has_minlen s) true).

(** [Sequence::check] *)
Definition sequence_check (s : Sequence) (h : heap) (node : Node) : bool :=
  let cs := children_of h node in
  let '(has_err, ok) :=
    foldl (fun '(has_err, ok) child =>
             (has_err || token_eqb (type_of h child) Error,
              choice_check (seq_choice s) h child && ok)) (false, true) cs in
  let ok := if negb has_err && (size_of cs <? min_len s) then false else ok in
  if negb has_err && (max_len s <? size_of cs) then false else ok.

(** * [Field], [Fields] *)
Record Field := mkField {
  field_name : Token;
  field_choice : Choice;
  explicit_name : bool
}.

Record Fields := mkFields { fields : list Field; binding : Token }.

(** [Fields::check_collision]: whether it throws *)
Definition check_collision (lhs rhs : Field) : bool :=
  token_eqb (field_name lhs) (field_name rhs) && (explicit_name lhs || explicit_name rhs).

Fixpoint collides (fs : list Field) : bool :=
  match fs with
  | [] => false
  | f :: fs => existsb (check_collision f) fs || collides fs
  end.

(** The constructor [Fields(fields, binding)] *)
Definition new_fields (fs : list Field) (binding : Token) : outcome Fields :=
  if collides fs then Throws else Returns (mkFields fs binding).

(** [Fields::append] *)
Definition fields_append (fs : Fields) (field : Field) : outcome Fields :=
  if existsb (fun existing => check_collision existing field) (fields fs) then Throws
  else Returns (mkFields (fields fs ++ [field]) (binding fs)).

(** [Fields::index] *)
Fixpoint field_index (fs : list Field) (field : Token) (i : Z) : Z :=
  match fs with
  | [] => size_max
  | f :: fs => if token_eqb (field_name f) field then i else field_index fs field (i + 1)
  end.
Definition fields_index (fs : Fields) (field : Token) : Z := field_index (fields fs) field 0.

(** [Fields::operator[](binding)] *)
Definition fields_bind (fs : Fields) (type : Token) : Fields := mkFields (fields fs) type.

(** The loop of [Fields::check]: [has_error] and [ok] when it ends. *)
Fixpoint fields_check_loop (h : heap) (node : Node) (binding : Token) (fs : list Field)
    (cs : list Node) (ok : bool) {struct cs} : outcome (bool * bool) :=
  match cs with
  | [] => Returns (false, ok)
  | child :: cs =>
      if token_eqb (type_of h child) Error then Returns (true, ok)
      else
        match fs with
        | [] => Returns (false, ok)
        | field :: fs =>
            let ok := choice_check (field_choice field) h child && ok in
            ok ← (if negb (token_eqb binding Invalid) && token_eqb (field_name field) binding then
                    sc ← or_undefined (scope h node);
                    defs ← look h sc (location_of h child);
                    Returns (if existsb (Pos.eqb node) defs then ok else false)
                  else Returns ok);
            fields_check_loop h node binding fs cs ok
        end
  end.

(** [Fields::check] *)
Definition fields_check (fs : Fields) (h : heap) (node : Node) : outcome bool :=
  '(has_error, ok) ←
    fields_check_loop h node (binding fs) (fields fs) (children_of h node) true;
  Returns (if negb has_error && negb (size_of (children_of h node) =? size_of (fields fs))
           then false else ok).

(** [has_binding_for] of the two shapes *)
Definition fields_has_binding_for (fs : Fields) (type : Token) : bool :=
  token_eqb type (binding fs).
Definition sequence_has_binding_for (s : Sequence) (type : Token) : bool := false.

(** The loop of [Fields::build_st] *)
Fixpoint fields_build_loop (h : heap) (node : Node) (binding : Token) (fs : list Field)
    (index : nat) : outcome (bool * heap) :=
  match fs with
  | [] => Returns (false, h)
  | field :: fs =>
      if token_eqb (field_name field) binding then
        match children_of h node !! index with
        | None => Returns (true, h)
        | Some child => bind h node (location_of h child)
        end
      else fields_build_loop h node binding fs (S index)
  end.

(** [Fields::build_st] *)
Definition fields_build_st (fs : Fields) (h : heap) (node : Node) : outcome (bool * heap) :=
  if token_eqb (binding fs) Invalid then Returns (true, h)
  else if token_eqb (binding fs) Include then h ← include h node; Returns (true, h)
  else fields_build_loop h node (binding fs) (fields fs) 0.

(** * [ShapeT], [Shape], [Wellformed] *)
Inductive ShapeT :=
  | ShapeSequence (s : Sequence)
  | ShapeFields (f : Fields).

Record Shape := mkShape { shape_type : Token; shape_of : ShapeT }.
Record Wellformed := mkWellformed { shapes : gmap Token ShapeT }.

Definition empty_wf : Wellformed := mkWellformed ∅.

(** [Shape::operator[](binding)]; a sequence ignores it. *)
Definition shape_bind (s : Shape) (binding : Token) : Shape :=
  mkShape (shape_type s)
    (match shape_of s with
     | ShapeSequence q => ShapeSequence q
     | ShapeFields f => ShapeFields (fields_bind f binding)
     end).

(** [std::visit] over the two alternatives *)
Definition shape_index (s : ShapeT) (field : Token) : Z :=
  match s with ShapeSequence _ => size_max | ShapeFields f => fields_index f field end.
Definition shape_check (s : ShapeT) (h : heap) (node : Node) : outcome bool :=
  match s with
  | ShapeSequence q => Returns (sequence_check q h node)
  | ShapeFields f => fields_check f h node
  end.
Definition shape_build_st (s : ShapeT) (h : heap) (node : Node) : outcome (bool * heap) :=
  match s with
  | ShapeSequence _ => Returns (true, h)
  | ShapeFields f => fields_build_st f h node
  end.

(** [Wellformed::operator bool], [index], [append], [prepend] *)
Definition wf_nonempty (wf : Wellformed) : bool := negb (bool_decide (shapes wf = ∅)).
Definition wf_index (wf : Wellformed) (type field : Token) : Z :=
  match shapes wf !! type with None => size_max | Some s => shape_index s field end.
Definition wf_append (wf : Wellformed) (s : Shape) : Wellformed :=
  mkWellformed (<[shape_type s := shape_of s]> (shapes wf)).
Definition wf_prepend (wf : Wellformed) (s : Shape) : Wellformed :=
  match shapes wf !! shape_type s with None => wf_append wf s | Some _ => wf end.

(** The lambda of [Wellformed::check]; the state is the store and [ok]. *)
Definition wf_check_pre (wf : Wellformed) (current : Node) (s : heap * bool)
    : outcome (bool * (heap * bool)) :=
  let '(h, ok) := s in
  match h !! current with
  | None => Returns (false, (h, false))
  | Some d =>
      if token_eqb (type_ d) Error then Returns (false, (h, ok))
      else if contains_error (flags_ d) then Returns (true, (h, ok))
      else
        match shapes wf !! type_ d with
        | None =>
            match children d with
            | [] => Returns (false, (h, ok))
            | _ :: _ => Returns (false, (h, false))
            end
        | Some shape =>
            conforms ← shape_check shape h current;
            let ok := conforms && ok in
            let ok := foldl (fun ok child =>
              if bool_decide (parent_of h child <> Some current) then false else ok)
              ok (children d) in
            Returns (true, (h, ok))
        end
  end.

(** [Wellformed::check] *)
Definition wf_check (wf : Wellformed) (fuel : nat) (h : heap) (node : Node) : outcome bool :=
  if negb (wf_nonempty wf) then Returns true
  else snd <$> traverse fst (wf_check_pre wf) NopPost fuel node (h, true).

(** The lambda of [Wellformed::build_st] *)
Definition wf_build_pre (wf : Wellformed) (current : Node) (s : heap * bool)
    : outcome (bool * (heap * bool)) :=
  let '(h, ok) := s in
  match h !! current with
  | None => Returns (false, (h, false))
  | Some d =>
      if token_eqb (type_ d) Error then Returns (false, (h, ok))
      else
        let h := clear_symbols h current in
        match shapes wf !! type_ d with
        | None => Returns (true, (h, ok))
        | Some shape =>
            '(built, h) ← shape_build_st shape h current;
            Returns (true, (h, built && ok))
        end
  end.

(** [Wellformed::build_st] *)
Definition wf_build_st (wf : Wellformed) (fuel : nat) (h : heap) (node : Node)
    : outcome (heap * bool) :=
  traverse fst (wf_build_pre wf) NopPost fuel node (h, true).
