(* ===== verification/WfOps.v ===== *)
(** The operators that write a well-formedness specification ([wf::ops] in
    [include/trieste/wf.h]), one definition per body, and the field lookup of a node
    through the specifications in scope ([wf::detail]). *)
From S2P Require Import Prelude.
From S2P Require Import Token.
From S2P Require Import Source.
From S2P Require Import Ast.
From S2P Require Import Wellformed.
Open Scope Z_scope.

(** * Choices *)

(** [Token | Token] *)
Definition token_or_token (t1 t2 : Token) : Choice := mkChoice [t1; t2].
(** [Token | const Choice&], [Token | Choice&&], and with the operands swapped *)
Definition token_or_choice (t : Token) (c : Choice) : Choice := mkChoice (types c ++ [t]).
Definition choice_or_token (c : Choice) (t : Token) : Choice := token_or_choice t c.
(** [const Choice& | const Choice&] *)
Definition choice_or_choice (c1 c2 : Choice) : Choice := mkChoice (types c1 ++ types c2).
(** [const Choice& | Choice&&]: the left types go to the end of the right ones. *)
Definition choice_or_moved (c1 c2 : Choice) : Choice := mkChoice (types c2 ++ types c1).
(** [Choice&& | const Choice&] *)
Definition moved_or_choice (c1 c2 : Choice) : Choice := choice_or_choice c2 c1.
(** [Choice - Token], [Choice - Choice] *)
Definition choice_minus_token (c : Choice) (t : Token) : Choice :=
  mkChoice (filter (fun u => u <> t) (types c)).
Definition choice_minus_choice (c1 c2 : Choice) : Choice :=
  mkChoice (filter (fun u => ~ u ∈ types c2) (types c1)).

(** * Sequences: [T++] and [~T] *)
Definition token_plus (t : Token) : Sequence := new_sequence (mkChoice [t]) 0 size_max.
Definition choice_plus (c : Choice) : Sequence := new_sequence c 0 size_max.
Definition token_tilde (t : Token) : Sequence := new_sequence (mkChoice [t]) 0 1.
Definition choice_tilde (c : Choice) : Sequence := new_sequence c 0 1.

(** * Fields *)

(** [implicit_field] *)
Definition implicit_field (t : Token) : Field := mkField t (mkChoice [t]) false.
Definition implicit_field_choice (n : Token) (c : Choice) : Field := mkField n c false.
(** [name >>= type], [name >>= choice] *)
Definition named_token (n t : Token) : Field := mkField n (mkChoice [t]) true.
Definition named_choice (n : Token) (c : Choice) : Field := mkField n c true.
(** [Field * Field] and the overloads that make a token a field first *)
Definition field_times_field (a b : Field) : outcome Fields := new_fields [a; b] Invalid.
Definition token_times_token (a b : Token) := field_times_field (implicit_field a) (implicit_field b).
Definition field_times_token (a : Field) (b : Token) := field_times_field a (implicit_field b).
Definition token_times_field (a : Token) (b : Field) := field_times_field (implicit_field a) b.
(** [Fields * Field], [Fields * Token] *)
Definition fields_times_field (a : Fields) (b : Field) : outcome Fields := fields_append a b.
Definition fields_times_token (a : Fields) (b : Token) := fields_times_field a (implicit_field b).

(** * Shapes: the overloads of [<<=] *)
Definition shape_fields (t : Token) (f : Fields) : Shape := mkShape t (ShapeFields f).
Definition shape_sequence (t : Token) (s : Sequence) : Shape := mkShape t (ShapeSequence s).
Definition shape_field (t : Token) (f : Field) : outcome Shape :=
  f ← new_fields [f] Invalid; Returns (shape_fields t f).
Definition shape_choice (t : Token) (c : Choice) : outcome Shape :=
  shape_field t (implicit_field_choice t c).
Definition shape_token (t1 t2 : Token) : outcome Shape := shape_field t1 (implicit_field t2).

(** * Specifications *)

(** [std::map::insert(first, last)] keeps the entries that are there; [merge] does too. *)
Definition insert_shapes (m src : gmap Token ShapeT) : gmap Token ShapeT := m ∪ src.
(** [insert_or_assign], over the entries of [src] *)
Definition assign_shapes (m src : gmap Token ShapeT) : gmap Token ShapeT :=
  map_fold (fun t s m => <[t := s]> m) m src.

(** [const Wellformed& | const Wellformed&] *)
Definition wf_or_wf (wf1 wf2 : Wellformed) : Wellformed :=
  mkWellformed (insert_shapes (insert_shapes ∅ (shapes wf2)) (shapes wf1)).
(** [Wellformed&& | const Wellformed&] *)
Definition wf_moved_or_wf (wf1 wf2 : Wellformed) : Wellformed :=
  mkWellformed (assign_shapes (shapes wf1) (shapes wf2)).
(** [const Wellformed& | Wellformed&&] *)
Definition wf_or_moved (wf1 wf2 : Wellformed) : Wellformed :=
  mkWellformed (insert_shapes (shapes wf2) (shapes wf1)).
(** [Wellformed&& | Wellformed&&], with [merge] *)
Definition wf_moved_or_moved (wf1 wf2 : Wellformed) : Wellformed :=
  mkWellformed (insert_shapes (shapes wf2) (shapes wf1)).
(** [const Wellformed& | Shape], [Wellformed&& | Shape] *)
Definition wf_or_shape (wf : Wellformed) (s : Shape) : Wellformed :=
  mkWellformed (insert_shapes (shapes (wf_append empty_wf s)) (shapes wf)).
Definition wf_moved_or_shape (wf : Wellformed) (s : Shape) : Wellformed := wf_append wf s.
(** [Shape | const Wellformed&], [Shape | Wellformed&&] *)
Definition shape_or_wf (s : Shape) (wf : Wellformed) : Wellformed :=
  wf_moved_or_wf (wf_append empty_wf s) wf.
Definition shape_or_moved (s : Shape) (wf : Wellformed) : Wellformed := wf_prepend wf s.
(** [Shape | Shape] *)
Definition shape_or_shape (s1 s2 : Shape) : Wellformed := wf_append (wf_append empty_wf s1) s2.
(** [const Wellformed& - Token], [Wellformed&& - Token] *)
Definition wf_minus_token (wf : Wellformed) (t : Token) : Wellformed :=
  mkWellformed (delete t (insert_shapes ∅ (shapes wf))).
Definition wf_moved_minus_token (wf : Wellformed) (t : Token) : Wellformed :=
  mkWellformed (delete t (shapes wf)).

(** * Contexts and field lookup *)

(** [wf_current]: the contexts, the current one first; each a deque of specifications. *)
Definition WfContexts := list (list Wellformed).
Definition initial_contexts : WfContexts := [[]].

(** [new_context], [end_context] (which refuses to end the base context), [push_back],
    [pop_front] *)
Definition new_context (c : WfContexts) : WfContexts := [] :: c.
Definition end_context (c : WfContexts) : WfContexts :=
  match c with _ :: (_ :: _) as rest => tail c | _ => c end.
Definition context_push_back (c : WfContexts) (wf : Wellformed) : WfContexts :=
  match c with [] => [] | d :: c => (d ++ [wf]) :: c end.
Definition context_pop_front (c : WfContexts) : outcome WfContexts :=
  match c with (_ :: d) :: c => Returns (d :: c) | _ => Undefined end.

(** [WFContext context(wf)]: the contexts while the object lives. *)
Definition wf_context (c : WfContexts) (wf : Wellformed) : WfContexts :=
  context_push_back (new_context c) wf.

(** [WFLookup] *)
Record WFLookup := mkWFLookup { lookup_wf : Wellformed; lookup_node : Node; lookup_index : Z }.

Definition node_vector_at (h : heap) (node : Node) (i : Z) : outcome Node :=
  if i <? size_of (children_of h node) then or_undefined (children_of h node !! Z.to_nat i)
  else Throws.

(** [operator/(node, field)]: the first specification of the context with the field. *)
Fixpoint node_field (wfs : list Wellformed) (h : heap) (node : Node) (field : Token)
    : outcome WFLookup :=
  match wfs with
  | [] => Throws
  | wf :: wfs =>
      let i := wf_index wf (type_of h node) field in
      if negb (i =? size_max) then
        n ← node_vector_at h node i; Returns (mkWFLookup wf n i)
      else node_field wfs h node field
  end.
Definition node_slash (c : WfContexts) (h : heap) (node : Node) (field : Token)
    : outcome WFLookup :=
  match c with [] => Undefined | d :: _ => node_field d h node field end.

(** [WFLookup::operator/(field)] *)
Definition lookup_slash (l : WFLookup) (h : heap) (field : Token) : outcome WFLookup :=
  let i := wf_index (lookup_wf l) (type_of h (lookup_node l)) field in
  if i <? size_of (children_of h (lookup_node l)) then
    n ← node_vector_at h (lookup_node l) i; Returns (mkWFLookup (lookup_wf l) n i)
  else Throws.

(** [WFLookup::operator=] *)
Definition lookup_assign (l : WFLookup) (h : heap) (rhs : Node) : outcome (WFLookup * heap) :=
  parent ← or_undefined (parent_of h (lookup_node l));
  h ← replace_at h parent (Z.to_nat (lookup_index l)) (Some rhs);
  Returns (mkWFLookup (lookup_wf l) rhs (lookup_index l), h).

(** * The operators agree *)

Lemma assign_shapes_union m src : assign_shapes m src = src ∪ m.
Proof.
  unfold assign_shapes. apply (map_fold_weak_ind (fun r src => r = src ∪ m)).
  - by rewrite (left_id_L ∅ (∪)).
  - intros t s src' r Ht ->. by rewrite insert_union_l.
Qed.

Lemma insert_shapes_empty m : insert_shapes ∅ m = m.
Proof. unfold insert_shapes. by rewrite (left_id_L ∅ (∪)). Qed.
Lemma empty_insert_shapes m : insert_shapes m ∅ = m.
Proof. unfold insert_shapes. by rewrite (right_id_L ∅ (∪)). Qed.

Lemma union_choose (m1 m2 : gmap Token ShapeT) t :
  (m1 ∪ m2) !! t = match m1 !! t with Some x => Some x | None => m2 !! t end.
Proof. rewrite lookup_union. by destruct (m1 !! t), (m2 !! t). Qed.

Lemma singleton_shapes_union t x m : insert_shapes (<[t := x]> ∅) m = <[t := x]> m.
Proof. unfold insert_shapes. by rewrite <-insert_union_l, (left_id_L ∅ (∪)). Qed.

(** Splits the membership of an operator in a list of overloads. *)
Local Ltac cases_of H :=
  repeat (apply elem_of_cons in H as [->|H]); try (by apply elem_of_nil in H).

(** How an operand is passed (by reference or moved) does not change the
    specification an expression means.  Every overload of [wf1 | wf2] gives the shapes of
    [wf2] where both define a token, and the shapes of either elsewhere; a shape on either
    side of [|] behaves as the specification of that one shape; and every overload of
    [c1 | c2] on choices accepts exactly the types one of its operands accepts. *)
Theorem wf_operators_agree wf1 wf2 s s' (t u : Token) c1 c2 :
  let one s := wf_append empty_wf s in
  (forall f, f ∈ [wf_or_wf; wf_moved_or_wf; wf_or_moved; wf_moved_or_moved] ->
     shapes (f wf1 wf2) !! t
     = match shapes wf2 !! t with Some x => Some x | None => shapes wf1 !! t end)
  /\ (forall f, f ∈ [wf_or_shape; wf_moved_or_shape] ->
        shapes (f wf1 s) = shapes (wf_or_wf wf1 (one s)))
  /\ (forall f, f ∈ [shape_or_wf; shape_or_moved] ->
        shapes (f s wf1) = shapes (wf_or_wf (one s) wf1))
  /\ shapes (shape_or_shape s s') = shapes (wf_or_wf (one s) (one s'))
  /\ shapes (wf_minus_token wf1 t) = shapes (wf_moved_minus_token wf1 t)
  /\ (forall f, f ∈ [choice_or_choice; choice_or_moved; moved_or_choice] ->
        accepts_type (f c1 c2) u = accepts_type c1 u || accepts_type c2 u)
  /\ accepts_type (choice_or_token c1 t) u = accepts_type c1 u || token_eqb u t.
Proof.
  cbv zeta. split_and!.
  - intros f Hf. rewrite <-union_choose. cases_of Hf; cbn;
      by rewrite ?insert_shapes_empty, ?assign_shapes_union.
  - intros f Hf. cases_of Hf; cbn; rewrite ?insert_shapes_empty; [done|].
    symmetry. apply singleton_shapes_union.
  - intros f Hf. cases_of Hf; cbn; rewrite ?insert_shapes_empty, ?assign_shapes_union; [done|].
    unfold shape_or_moved, wf_prepend, insert_shapes. apply map_eq. intros k. rewrite union_choose.
    destruct (decide (shape_type s = k)) as [<-|Hk];
      destruct (shapes wf1 !! shape_type s) eqn:E; cbn;
      rewrite ?E, ?lookup_insert_eq, ?lookup_insert_ne, ?lookup_empty by done;
      try done; by case_match.
  - cbn. rewrite insert_shapes_empty. symmetry. apply singleton_shapes_union.
  - cbn. by rewrite insert_shapes_empty.
  - intros f Hf. unfold accepts_type, token_in.
    cases_of Hf; cbn; rewrite existsb_app; [done|apply orb_comm..].
  - unfold accepts_type, token_in. cbn. rewrite existsb_app. cbn. by rewrite orb_false_r.
Qed.
