(* ===== verification/WfTheorems.v ===== *)
(** What the well-formedness checker decides, and that the symbol tables it checks are
    the ones [build_st] makes. *)
From S2P Require Import Prelude.
From S2P Require Import Token.
From S2P Require Import Source.
From S2P Require Import Ast.
From S2P Require Import AstFacts.
From S2P Require Import Wellformed.
From S2P Require Import WfOps.
Open Scope Z_scope.
#[local] Set Warnings "-register-all".

(** * The specification *)

(** A node is of a type of the choice, or an error in its place. *)
Definition chosen (c : Choice) (h : heap) (n : Node) : Prop :=
  type_of h n = Error \/ type_of h n ∈ types c.

Definition sequence_conforms (q : Sequence) (h : heap) (cs : list Node) : Prop :=
  Forall (chosen (seq_choice q) h) cs
  /\ (Exists (fun c => type_of h c = Error) cs \/ min_len q <= size_of cs <= max_len q).

(** The scope of [n] maps the text of [c] to [n], among others. *)
Definition bound_at (h : heap) (n c : Node) : Prop :=
  exists sc defs, scope h n = Some sc /\ look h sc (location_of h c) = Returns defs /\ n ∈ defs.

(** Children match fields one by one, up to the first error. *)
Inductive fields_conform (h : heap) (n : Node) (b : Token) : list Field -> list Node -> Prop :=
  | conform_error fs c cs : type_of h c = Error -> fields_conform h n b fs (c :: cs)
  | conform_nil : fields_conform h n b [] []
  | conform_cons f fs c cs :
      type_of h c ∈ types (field_choice f) ->
      (b <> Invalid -> field_name f = b -> bound_at h n c) ->
      fields_conform h n b fs cs -> fields_conform h n b (f :: fs) (c :: cs).

Definition conforms (s : ShapeT) (h : heap) (n : Node) : Prop :=
  match s with
  | ShapeSequence q => sequence_conforms q h (children_of h n)
  | ShapeFields f => fields_conform h n (binding f) (fields f) (children_of h n)
  end.

(** A tree is well-formed when every node outside the errors conforms to the shape of
    its type, a type without a shape having no children, and no node has two parents. *)
Inductive well_formed (wf : Wellformed) (h : heap) : tree -> Prop :=
  | wf_error n ts : type_of h n = Error -> well_formed wf h (Tree n ts)
  | wf_around_error n ts :
      contains_error (flags_ (node_at h n)) = true ->
      Forall (well_formed wf h) ts -> well_formed wf h (Tree n ts)
  | wf_leaf n :
      shapes wf !! type_of h n = None ->
      contains_error (flags_ (node_at h n)) = false -> well_formed wf h (Tree n [])
  | wf_shape n ts s :
      shapes wf !! type_of h n = Some s -> conforms s h n ->
      contains_error (flags_ (node_at h n)) = false ->
      Forall (fun t => parent_of h (root t) = Some n) ts ->
      Forall (well_formed wf h) ts -> well_formed wf h (Tree n ts).

(** The nodes exist, and where a shape binds a name the node has a scope whose table can
    be read. *)
Definition checkable (wf : Wellformed) (h : heap) (n : Node) : Prop :=
  is_Some (h !! n) /\
  forall f, shapes wf !! type_of h n = Some (ShapeFields f) -> binding f <> Invalid ->
    exists sc, scope h n = Some sc /\
      forall c, c ∈ children_of h n -> exists defs, look h sc (location_of h c) = Returns defs.

(** * Shapes *)

Lemma choice_check_chosen c h n : choice_check c h n = true <-> chosen c h n.
Proof.
  unfold choice_check, chosen, accepts_type. destruct (token_eqb (type_of h n) Error) eqn:E.
  - apply token_eqb_eq in E. tauto.
  - apply token_eqb_neq in E. rewrite token_in_elem. tauto.
Qed.

Lemma sequence_fold c h cs e ok :
  foldl (fun '(has_err, ok) child =>
           (has_err || token_eqb (type_of h child) Error, choice_check c h child && ok))
    (e, ok) cs
  = (e || existsb (fun n => token_eqb (type_of h n) Error) cs,
     ok && forallb (choice_check c h) cs).
Proof.
  revert e ok. induction cs as [|n cs IH]; intros e ok; cbn.
  - by rewrite orb_false_r, andb_true_r.
  - rewrite IH. f_equal; [by rewrite orb_assoc|].
    by destruct ok, (choice_check c h n), (forallb _ cs).
Qed.

Lemma sequence_check_conforms q h n :
  sequence_check q h n = true <-> sequence_conforms q h (children_of h n).
Proof.
  unfold sequence_check, sequence_conforms. rewrite sequence_fold. cbn [orb andb].
  set (cs := children_of h n).
  assert (Hf : forallb (choice_check (seq_choice q) h) cs = true
               <-> Forall (chosen (seq_choice q) h) cs).
  { apply forallb_Forall. intros. apply choice_check_chosen. }
  assert (He : existsb (fun c => token_eqb (type_of h c) Error) cs = true
               <-> Exists (fun c => type_of h c = Error) cs).
  { apply existsb_Exists. intros. apply token_eqb_eq. }
  destruct (existsb _ cs); cbn [negb andb].
  - rewrite Hf. intuition.
  - assert (Hne : ~ Exists (fun c => type_of h c = Error) cs) by (by rewrite <-He).
    destruct (Z.ltb_spec (size_of cs) (min_len q)), (Z.ltb_spec (max_len q) (size_of cs));
      [split; [done|]; intros [_ [?|?]]; [done|lia]..|].
    rewrite Hf. split; [intros; split; [done|right; lia]|by intros [? _]].
Qed.

Lemma fields_loop_conform h n b cs : forall fs ok e o,
  fields_check_loop h n b fs cs ok = Returns (e, o) ->
  (o = true /\ (e = true \/ length cs = length fs)) <-> ok = true /\ fields_conform h n b fs cs.
Proof.
  induction cs as [|c cs IH]; intros fs ok e o.
  - cbn. intros [= <- <-]. split.
    + intros [-> [?|?]]; [done|]. destruct fs; [|done]. by split; [|constructor].
    + intros [-> H]. inversion H. auto.
  - cbn [fields_check_loop]. destruct (token_eqb (type_of h c) Error) eqn:Ec.
    { intros [= <- <-]. apply token_eqb_eq in Ec. split; [|tauto].
      intros [-> _]. by split; [|constructor]. }
    apply token_eqb_neq in Ec. destruct fs as [|f fs].
    { intros [= <- <-]. split; [by intros [_ [?|?]]|]. intros [_ H]. by inversion H. }
    intros (o1 & Ho1 & Hl)%outcome_bind_returns. apply IH in Hl. cbn [length].
    rewrite Nat.succ_inj_wd, Hl.
    assert (Hstep : o1 = true <-> ok = true /\ type_of h c ∈ types (field_choice f)
      /\ (b <> Invalid -> field_name f = b -> bound_at h n c)).
    { assert (Hch : choice_check (field_choice f) h c = true
                    <-> type_of h c ∈ types (field_choice f)).
      { rewrite choice_check_chosen. unfold chosen. tauto. }
      rewrite <-Hch. destruct (negb (token_eqb b Invalid) && token_eqb (field_name f) b) eqn:Eb.
      - apply andb_true_iff in Eb as [Eb1%negb_true_iff%token_eqb_neq Eb2%token_eqb_eq].
        apply outcome_bind_returns in Ho1 as (sc & Hsc & Ho1).
        apply outcome_bind_returns in Ho1 as (defs & Hd & [= <-]).
        destruct (scope h n) as [sc'|] eqn:Es; [|done]. injection Hsc as ->.
        assert (Hb : existsb (Pos.eqb n) defs = true <-> bound_at h n c).
        { rewrite (existsb_elem _ (eq n)) by apply Pos.eqb_eq. unfold bound_at. split.
          - intros (m & Hm & <-). by exists sc, defs.
          - intros (sc' & defs' & Hsc' & Hd' & Hn). rewrite Es in Hsc'. injection Hsc' as <-.
            rewrite Hd in Hd'. injection Hd' as <-. by exists n. }
        destruct (existsb (Pos.eqb n) defs).
        + rewrite andb_true_iff. tauto.
        + split; [done|]. intros (_ & _ & H). by apply Hb, H.
      - injection Ho1 as <-. rewrite andb_true_iff. split; [|tauto].
        intros [? ?]. split_and!; [done..|]. intros Hb1 Hb2.
        apply andb_false_iff in Eb as [Eb%negb_false_iff%token_eqb_eq|Eb%token_eqb_neq]; done. }
    rewrite Hstep. split.
    + intros [(? & ? & ?) ?]. split; [done|]. by constructor.
    + intros [? H]. inversion H; subst; [done|]. tauto.
Qed.

Lemma shape_check_conforms s h n b :
  shape_check s h n = Returns b -> b = true <-> conforms s h n.
Proof.
  destruct s as [q|f]; cbn.
  - intros [= <-]. apply sequence_check_conforms.
  - unfold fields_check. intros ([e o] & Hl & [= <-])%outcome_bind_returns.
    apply fields_loop_conform in Hl. set (cs := children_of h n) in *.
    assert (Hz : (size_of cs =? size_of (fields f)) = true <-> length cs = length (fields f)).
    { unfold size_of. rewrite Z.eqb_eq. lia. }
    destruct e, (size_of cs =? size_of (fields f)); cbn [negb andb]; split; try tauto.
    intros H; first [done | destruct (proj2 Hl (conj eq_refl H)) as [_ [?|?]]; [done|tauto]].
Qed.

(** * The checker *)

Lemma own_children h n cs ok :
  foldl (fun ok child => if bool_decide (parent_of h child <> Some n) then false else ok) ok cs
  = ok && forallb (fun c => bool_decide (parent_of h c = Some n)) cs.
Proof.
  revert ok. induction cs as [|c cs IH]; intros ok; cbn; [by rewrite andb_true_r|].
  rewrite IH. case_bool_decide; case_bool_decide; try done; by rewrite ?andb_false_r.
Qed.

Lemma fields_loop_returns h n b cs : forall fs ok,
  (b <> Invalid -> exists sc, scope h n = Some sc /\
     forall c, c ∈ cs -> exists defs, look h sc (location_of h c) = Returns defs) ->
  exists r, fields_check_loop h n b fs cs ok = Returns r.
Proof.
  induction cs as [|c cs IH]; intros fs ok Hb; cbn [fields_check_loop]; [by eexists|].
  destruct (token_eqb (type_of h c) Error); [by eexists|]. destruct fs as [|f fs]; [by eexists|].
  assert (Hcs : b <> Invalid -> exists sc, scope h n = Some sc /\
     forall c, c ∈ cs -> exists defs, look h sc (location_of h c) = Returns defs).
  { intros (sc & Hsc & Hd)%Hb. exists sc. split; [done|]. intros. apply Hd. by right. }
  destruct (negb (token_eqb b Invalid) && _) eqn:Eb; cbn [mbind outcome_bind]; [|by apply IH].
  apply andb_true_iff in Eb as [Eb%negb_true_iff%token_eqb_neq _].
  destruct (Hb Eb) as (sc & -> & Hd). cbn [or_undefined mbind outcome_bind].
  destruct (Hd c (list_elem_of_here c cs)) as (defs & ->).
  cbn [or_undefined mbind outcome_bind]. by apply IH.
Qed.

Lemma shape_check_returns wf s h n :
  checkable wf h n -> shapes wf !! type_of h n = Some s ->
  exists b, shape_check s h n = Returns b.
Proof.
  intros [_ Hc] Hs. destruct s as [q|f]; cbn; [by eexists|]. unfold fields_check.
  destruct (fields_loop_returns h n (binding f) (children_of h n) (fields f) true) as [[e o] ->].
  - intros Hb. by apply (Hc f).
  - by eexists.
Qed.

Lemma wf_check_pre_allocated wf h n ok :
  h !! n = Some (node_at h n) ->
  wf_check_pre wf n (h, ok)
  = if token_eqb (type_of h n) Error then Returns (false, (h, ok))
    else if contains_error (flags_ (node_at h n)) then Returns (true, (h, ok))
    else
      match shapes wf !! type_of h n with
      | None => match children_of h n with
                | [] => Returns (false, (h, ok))
                | _ :: _ => Returns (false, (h, false))
                end
      | Some shape =>
          c ← shape_check shape h n;
          Returns (true, (h, foldl (fun ok child =>
            if bool_decide (parent_of h child <> Some n) then false else ok)
            (c && ok) (children_of h n)))
      end.
Proof. intros E. unfold wf_check_pre. by rewrite E. Qed.

Section Check.
Context (wf : Wellformed) (h : heap).

Lemma check_visits ts :
  Forall (fun t => exists b, (b = true <-> well_formed wf h t)
    /\ forall ok, visit (wf_check_pre wf) NopPost t (h, ok) = Returns (h, b && ok)) ts ->
  exists b, (b = true <-> Forall (well_formed wf h) ts)
    /\ forall ok, visits (visit (wf_check_pre wf) NopPost) ts (h, ok) = Returns (h, b && ok).
Proof.
  induction 1 as [|t ts (b1 & Hb1 & E1) _ (b2 & Hb2 & E2)].
  - exists true. split; [|done]. split; [by constructor|done].
  - exists (b2 && b1). split.
    + rewrite andb_true_iff, Hb1, Hb2, Forall_cons. tauto.
    + intros ok. cbn. rewrite E1. cbn. rewrite E2. by rewrite andb_assoc.
Qed.

Lemma check_visit t :
  reads h t -> Forall (checkable wf h) (nodes t) ->
  exists b, (b = true <-> well_formed wf h t)
    /\ forall ok, visit (wf_check_pre wf) NopPost t (h, ok) = Returns (h, b && ok).
Proof.
  induction t as [n ts IH] using tree_ind'. intros [Hc Hr]%reads_inv Hk.
  cbn [nodes] in Hk. apply Forall_cons in Hk as [Hn Hk].
  destruct (check_visits ts) as (b & Hb & E).
  { rewrite Forall_forall in IH, Hr |- *. rewrite Forall_forall in Hk. intros t Ht. apply IH; [done|by apply Hr|].
    apply Forall_forall. intros m Hm. apply Hk. apply list_elem_of_In, in_concat.
    exists (nodes t). split; apply list_elem_of_In; [by apply list_elem_of_fmap_2|done]. }
  assert (Hd : h !! n = Some (node_at h n)).
  { unfold node_at. by destruct (proj1 Hn) as [d ->]. }
  assert (Hv : forall ok, visit (wf_check_pre wf) NopPost (Tree n ts) (h, ok)
    = '(b, s) ← wf_check_pre wf n (h, ok);
      if (b : bool) then visits (visit (wf_check_pre wf) NopPost) ts s else Returns s).
  { intros ok. rewrite visit_eq. destruct (wf_check_pre wf n (h, ok)) as [[[] s]| |]; cbn; try done.
    by destruct (visits _ ts s). }
  setoid_rewrite Hv. clear Hv. setoid_rewrite (wf_check_pre_allocated _ _ _ _ Hd). rewrite Hc.
  destruct (token_eqb (type_of h n) Error) eqn:Ee.
  { apply token_eqb_eq in Ee. exists true. split; [|done]. split; [|done]. intros _.
    by apply wf_error. }
  apply token_eqb_neq in Ee. destruct (contains_error (flags_ (node_at h n))) eqn:Ef.
  { exists b. split.
    - rewrite Hb. split; [by apply wf_around_error|].
      intros H. inversion H; subst; [done|done|by constructor|congruence].
    - intros ok. cbn. by rewrite E. }
  destruct (shapes wf !! type_of h n) as [s|] eqn:Es.
  - destruct (shape_check_returns wf s h n Hn Es) as [c Hcs].
    pose proof (shape_check_conforms _ _ _ _ Hcs) as Hconf.
    exists (b && (c && forallb (fun c => bool_decide (parent_of h c = Some n)) (root <$> ts))).
    split.
    + rewrite !andb_true_iff, Hb, Hconf.
      rewrite (forallb_Forall _ (fun c => parent_of h c = Some n)) by (intros; apply bool_decide_eq_true).
      rewrite Forall_fmap. split.
      * intros (? & ? & ?). by eapply wf_shape.
      * intros H. inversion H; subst; try congruence. by simplify_eq.
    + intros ok. rewrite Hcs. cbn [mbind outcome_bind]. rewrite own_children, E.
      f_equal. f_equal. by destruct b, c, ok, (forallb _ _).
  - destruct ts as [|t ts]; cbn.
    + exists true. split; [|done]. split; [|done]. intros _. by apply wf_leaf.
    + exists false. split; [|done]. split; [done|]. intros H. inversion H; subst; congruence.
Qed.

End Check.

Lemma wf_check_pre_shape wf n s b s' :
  wf_check_pre wf n s = Returns (b, s') -> same_shape (fst s) (fst s').
Proof.
  destruct s as [h ok]. unfold wf_check_pre. destruct (h !! n) as [d|]; [|by intros [= _ <-]].
  repeat case_match; try (by intros [= _ <-]).
  intros (c & _ & [= _ <-])%outcome_bind_returns. done.
Qed.

(** The check, as the property below states it *)
Lemma wf_check_decides wf h t fuel :
  reads h t -> Forall (checkable wf h) (nodes t) -> (2 * length (nodes t) <= fuel)%nat ->
  exists b, wf_check wf fuel h (root t) = Returns b
    /\ (b = true <-> shapes wf = ∅ \/ well_formed wf h t).
Proof.
  intros Hr Hk Hf. unfold wf_check, wf_nonempty. case_bool_decide as He.
  { exists true. cbn. split; [done|]. split; auto. }
  cbn [negb]. destruct (check_visit wf h t Hr Hk) as (b & Hb & E). exists b.
  rewrite traverse_visit.
  - rewrite E. cbn. rewrite andb_true_r, Hb. split; [done|]. tauto.
  - intros n s c s'. apply wf_check_pre_shape.
  - by intros n s s' [= <-].
  - done.
  - pose proof (cost_nodes t). lia.
Qed.

(** C7: [Wellformed::check] decides well-formedness.  On a finite tree whose scopes can be
    read, the check returns, and it returns true exactly when the specification has no
    shapes or the tree is well-formed: every node outside the errors has the children
    its shape asks for (a sequence's types and bounds, or a field's types one by one up to
    the first error, with the binding in the symbol table), a type without a shape has no
    children, and every child of a checked node has that node as its parent. *)
Theorem wf_check_correct wf h t fuel :
  reads h t -> Forall (checkable wf h) (nodes t) -> (2 * length (nodes t) <= fuel)%nat ->
  exists b, wf_check wf fuel h (root t) = Returns b
    /\ (b = true <-> shapes wf = ∅ \/ well_formed wf h t).
Proof. apply wf_check_decides. Qed.
