(* ===== verification/WfBuild.v ===== *)
(** The symbol tables [Wellformed::build_st] makes: what a table maps a name to, and that
    every node the builder binds is still bound when it has finished. *)
From S2P Require Import Prelude.
From S2P Require Import Token.
From S2P Require Import Source.
From S2P Require Import Ast.
From S2P Require Import AstFacts.
From S2P Require Import Wellformed.
From S2P Require Import WfOps.
From S2P Require Import WfTheorems.
Open Scope Z_scope.
#[local] Set Warnings "-register-all".

(** * The order of [std::string_view] *)

Lemma string_ltb_irrefl a : string_ltb a a = false.
Proof. induction a as [|x a IH]; cbn; [done|]. by rewrite IH, Z.ltb_irrefl, Z.eqb_refl. Qed.

Lemma string_ltb_cases a b :
  string_ltb a b = true \/ a = b \/ string_ltb b a = true.
Proof.
  revert b. induction a as [|x a IH]; intros [|y b]; cbn; auto.
  destruct (Z.lt_trichotomy x y) as [H|[->|H]].
  - left. by rewrite (proj2 (Z.ltb_lt x y) H).
  - rewrite Z.ltb_irrefl, Z.eqb_refl. cbn. destruct (IH b) as [?|[->|?]]; auto.
  - right. right. by rewrite (proj2 (Z.ltb_lt y x) H).
Qed.

Lemma string_ltb_trans a b c :
  string_ltb a b = true -> string_ltb b c = true -> string_ltb a c = true.
Proof.
  revert b c. induction a as [|x a IH]; intros [|y b] [|z c]; cbn; try done.
  rewrite !orb_true_iff, !andb_true_iff, !Z.ltb_lt, !Z.eqb_eq.
  intros [?|[-> ?]] [?|[-> ?]]; [left; lia|by left|by left|right]. eauto.
Qed.

(** * Tables as maps from texts *)

Definition text (l : Location) : list Z :=
  match view l with Returns v => v | _ => [] end.
Definition viewable (l : Location) : Prop := view l = Returns (text l).

Lemma location_ok_viewable l : location_ok l -> viewable l.
Proof. intros H. unfold viewable, text. by rewrite (view_ok l H). Qed.

(** [std::map]'s invariant: the keys can be compared and increase. *)
Definition table_ok (m : list (Location * list Node)) : Prop :=
  Forall (fun e => viewable (fst e)) m
  /\ StronglySorted (fun a b => string_ltb (text (fst a)) (text (fst b)) = true) m.

(** The nodes a table maps a text to. *)
Fixpoint entry (m : list (Location * list Node)) (s : list Z) : list Node :=
  match m with
  | [] => []
  | (k, v) :: m => if list_eqb (text k) s then v else entry m s
  end.

Lemma table_ok_cons k v m :
  table_ok ((k, v) :: m) <->
  viewable k /\ table_ok m /\ Forall (fun e => string_ltb (text k) (text (fst e)) = true) m.
Proof.
  unfold table_ok. rewrite Forall_cons. split.
  - intros [[? ?] Hs]. inversion Hs. tauto.
  - intros (? & [? ?] & ?). split; [done|]. by constructor.
Qed.

Lemma location_eq_text a b : viewable a -> viewable b ->
  location_eq a b = Returns (list_eqb (text a) (text b)).
Proof. intros Ha Hb. unfold location_eq. by rewrite Ha, Hb. Qed.
Lemma location_lt_text a b : viewable a -> viewable b ->
  location_lt a b = Returns (string_ltb (text a) (text b)).
Proof. intros Ha Hb. unfold location_lt. by rewrite Ha, Hb. Qed.

Lemma entry_above m s :
  Forall (fun e => string_ltb s (text (fst e)) = true) m -> entry m s = [].
Proof.
  induction 1 as [|[k v] m Hk _ IH]; [done|]. cbn in *.
  destruct (list_eqb (text k) s) eqn:E; [|done].
  apply list_eqb_eq in E. by rewrite E, string_ltb_irrefl in Hk.
Qed.

Lemma symbols_find_entry m loc : table_ok m -> viewable loc ->
  exists r, symbols_find m loc = Returns r /\ default [] r = entry m (text loc).
Proof.
  intros Hm Hl. induction m as [|[k v] m IH]; cbn; [by eexists|].
  apply table_ok_cons in Hm as (Hk & Hm & _). rewrite location_eq_text by done. cbn.
  destruct (list_eqb (text k) (text loc)); [by eexists|by apply IH].
Qed.

Lemma list_eqb_neq a b : string_ltb a b = true \/ string_ltb b a = true -> list_eqb a b = false.
Proof.
  intros H. destruct (list_eqb a b) eqn:E; [|done]. apply list_eqb_eq in E as ->.
  rewrite string_ltb_irrefl in H. by destruct H.
Qed.

Lemma symbols_update_entry m loc f : table_ok m -> viewable loc ->
  exists m', symbols_update m loc f = Returns m' /\ table_ok m'
    /\ (forall s, entry m' s = if list_eqb (text loc) s then f (entry m (text loc)) else entry m s)
    /\ (forall s, Forall (fun e => string_ltb s (text (fst e)) = true) m ->
          string_ltb s (text loc) = true ->
          Forall (fun e => string_ltb s (text (fst e)) = true) m').
Proof.
  intros Hm Hl. induction m as [|[k v] m IH].
  - exists [(loc, f [])]. split; [done|]. split_and!; [|done|by repeat constructor].
    apply table_ok_cons. by split_and!; [|split; constructor|].
  - apply table_ok_cons in Hm as (Hk & Hm & Hab). cbn [symbols_update].
    rewrite location_lt_text, location_eq_text by done. cbn [mbind outcome_bind].
    destruct (string_ltb_cases (text k) (text loc)) as [Hlt|[Heq|Hgt]].
    + rewrite Hlt. destruct (IH Hm) as (m' & -> & Hm' & He & Hb). cbn [mbind outcome_bind].
      exists ((k, v) :: m'). split; [done|]. split_and!.
      * apply table_ok_cons. split_and!; [done|done|by apply Hb].
      * intros s. cbn [entry]. rewrite He. rewrite (list_eqb_neq (text k) (text loc)) by auto.
        destruct (list_eqb (text loc) s) eqn:E; [|done]. apply list_eqb_eq in E as <-.
        by rewrite list_eqb_neq by auto.
      * intros s [Hs1 Hs2]%Forall_cons Hs. constructor; [done|by apply Hb].
    + rewrite Heq, string_ltb_irrefl. rewrite (proj2 (list_eqb_eq _ _)) by done.
      exists ((k, f v) :: m). split; [done|]. split_and!.
      * apply table_ok_cons. by rewrite Heq in *.
      * intros s. cbn [entry]. rewrite Heq. rewrite (proj2 (list_eqb_eq (text loc) (text loc))) by done.
        by destruct (list_eqb (text loc) s).
      * intros s [Hs1 Hs2]%Forall_cons Hs. by constructor.
    + destruct (string_ltb (text k) (text loc)) eqn:Hlt.
      { pose proof (string_ltb_trans _ _ _ Hlt Hgt) as H. by rewrite string_ltb_irrefl in H. }
      rewrite list_eqb_neq by auto. exists ((loc, f []) :: (k, v) :: m). split; [done|].
      assert (Hall : Forall (fun e => string_ltb (text loc) (text (fst e)) = true) ((k, v) :: m)).
      { constructor; [done|]. eapply Forall_impl; [exact Hab|]. intros e. cbn.
        by apply string_ltb_trans. }
      split_and!.
      * apply table_ok_cons. split_and!; [done|by apply table_ok_cons|done].
      * intros s. by rewrite (entry_above ((k, v) :: m) (text loc)).
      * intros s Hs1 Hs. by constructor.
Qed.

(** * Stores that differ in their symbol tables only *)

Record tables_only (h h' : heap) : Prop := {
  same_dom : dom h' = dom h;
  same_node n : with_symtab None (node_at h' n) = with_symtab None (node_at h n);
  same_has_symtab n : has_symtab (node_at h' n) = has_symtab (node_at h n)
}.

#[export] Instance tables_only_refl : Reflexive tables_only.
Proof. by split. Qed.
#[export] Instance tables_only_trans : Transitive tables_only.
Proof.
  intros h1 h2 h3 [D1 N1 S1] [D2 N2 S2]. split; [by rewrite D2|intros n; by rewrite N2|].
  intros n. by rewrite S2.
Qed.

Section TablesOnly.
Context (h h' : heap) (Ht : tables_only h h').

Lemma tables_only_type n : type_of h' n = type_of h n.
Proof. exact (f_equal type_ (same_node _ _ Ht n)). Qed.
Lemma tables_only_location n : location_of h' n = location_of h n.
Proof. exact (f_equal location_ (same_node _ _ Ht n)). Qed.
Lemma tables_only_parent n : parent_of h' n = parent_of h n.
Proof. exact (f_equal parent_ (same_node _ _ Ht n)). Qed.
Lemma tables_only_flags n : flags_ (node_at h' n) = flags_ (node_at h n).
Proof. exact (f_equal flags_ (same_node _ _ Ht n)). Qed.
Lemma tables_only_shape : same_shape h h'.
Proof. intros n. exact (f_equal children (same_node _ _ Ht n)). Qed.

Lemma tables_only_is_Some n : is_Some (h' !! n) <-> is_Some (h !! n).
Proof. rewrite <-!(elem_of_dom (D:=gset Node)). by rewrite (same_dom _ _ Ht). Qed.

Lemma climb_tables fuel p : climb fuel h' has_symtab p = climb fuel h has_symtab p.
Proof.
  revert p. induction fuel as [|fuel IH]; intros [n|]; try done. cbn.
  by rewrite (same_has_symtab _ _ Ht), tables_only_parent, IH.
Qed.

Lemma tables_only_scope n : scope h' n = scope h n.
Proof.
  unfold scope, depth_fuel. rewrite tables_only_parent, climb_tables.
  by rewrite <-!(size_dom (D:=gset Node)), (same_dom _ _ Ht).
Qed.

End TablesOnly.

(** An update of a node's table, where it has one. *)
Lemma alter_symtab_only h n (f : option SymtabDef -> option SymtabDef) :
  (forall d, h !! n = Some d -> is_Some (f (symtab_ d)) <-> is_Some (symtab_ d)) ->
  tables_only h (alter (fun d => with_symtab (f (symtab_ d)) d) n h).
Proof.
  intros Hf. split.
  - apply dom_alter_L.
  - intros m. unfold node_at. destruct (decide (n = m)) as [<-|Hne].
    + rewrite lookup_alter_eq. by destruct (h !! n) as [[]|].
    + by rewrite lookup_alter_ne.
  - intros m. unfold node_at. destruct (decide (n = m)) as [<-|Hne].
    + rewrite lookup_alter_eq. destruct (h !! n) as [d|] eqn:E; [|done]. cbn.
      specialize (Hf d eq_refl). unfold has_symtab. cbn.
      destruct (f (symtab_ d)) as [x|], (symtab_ d) as [y|]; try done; exfalso.
      * by destruct (proj1 Hf ltac:(by eexists)).
      * by destruct (proj2 Hf ltac:(by eexists)).
    + by rewrite lookup_alter_ne.
Qed.

Lemma symtab_of_alter h n m f :
  is_Some (h !! n) ->
  symtab_of (alter (fun d => with_symtab (f (symtab_ d)) d) n h) m
  = if decide (n = m) then f (symtab_of h n) else symtab_of h m.
Proof.
  intros [d Hd]. unfold symtab_of, node_at. destruct (decide (n = m)) as [<-|].
  - by rewrite lookup_alter_eq, Hd.
  - by rewrite lookup_alter_ne.
Qed.

(** * The tables of a store *)

Definition tables_ok (h : heap) : Prop :=
  forall n st, symtab_of h n = Some st -> table_ok (symbols st).

(** The nodes that the table of [sc] maps [s] to. *)
Definition entries (h : heap) (sc : Node) (s : list Z) : list Node :=
  match symtab_of h sc with None => [] | Some st => entry (symbols st) s end.

Lemma look_entries h sc loc : tables_ok h -> viewable loc ->
  look h sc loc = Returns (entries h sc (text loc)).
Proof.
  intros Hh Hl. unfold look, get_symbols_at, entries.
  destruct (symtab_of h sc) as [st|] eqn:E; [|done].
  destruct (symbols_find_entry (symbols st) loc (Hh _ _ E) Hl) as (r & -> & <-). cbn.
  destruct r as [l|]; [|done]. cbn. induction l as [|n l IH]; [done|]. cbn. by rewrite IH.
Qed.

Lemma bound_at_entries h n c : tables_ok h -> viewable (location_of h c) ->
  bound_at h n c <-> exists sc, scope h n = Some sc /\ n ∈ entries h sc (text (location_of h c)).
Proof.
  intros Hh Hl. unfold bound_at. split.
  - intros (sc & defs & Hsc & Hd & Hn). rewrite look_entries in Hd by done.
    injection Hd as <-. by exists sc.
  - intros (sc & Hsc & Hn). exists sc, (entries h sc (text (location_of h c))).
    by rewrite look_entries.
Qed.

Lemma scope_symtab h n sc : scope h n = Some sc -> exists st, symtab_of h sc = Some st.
Proof.
  unfold scope. generalize (parent_of h n). induction (depth_fuel h) as [|fuel IH]; intros p H; [done|].
  destruct p as [m|]; [|done]. cbn in H. destruct (has_symtab (node_at h m)) eqn:E; [|by eapply IH].
  injection H as <-. unfold symtab_of. unfold has_symtab in E.
  destruct (symtab_ (node_at h m)); [by eexists|done].
Qed.

Lemma symtab_allocated h n st : symtab_of h n = Some st -> is_Some (h !! n).
Proof. unfold symtab_of, node_at. destruct (h !! n); [by eexists|done]. Qed.

Lemma clear_symbols_spec h n :
  tables_only h (clear_symbols h n)
  /\ (tables_ok h -> tables_ok (clear_symbols h n))
  /\ (forall sc s, sc <> n -> entries (clear_symbols h n) sc s = entries h sc s).
Proof.
  unfold clear_symbols. split.
  { apply (alter_symtab_only h n (fmap clear_symtab)). intros d _. by rewrite fmap_is_Some. }
  destruct (h !! n) as [d|] eqn:Ed.
  - assert (Hs : is_Some (h !! n)) by (by rewrite Ed).
    split; [intros Hh m st|intros sc s Hne; unfold entries];
      rewrite (symtab_of_alter h n _ (fmap clear_symtab) Hs); case_decide; try done.
    + destruct (symtab_of h n); [|done]. cbn. intros [= <-]. cbn. by split; constructor.
    + by apply Hh.
  - rewrite alter_id; [done|]. intros d Hd. by rewrite Ed in Hd.
Qed.

Lemma bind_spec h n loc sc :
  tables_ok h -> viewable loc -> scope h n = Some sc ->
  exists b h', bind h n loc = Returns (b, h') /\ tables_only h h' /\ tables_ok h'
    /\ forall m s, entries h' m s
         = if decide (sc = m) then if list_eqb (text loc) s then entries h sc s ++ [n]
                                   else entries h sc s
           else entries h m s.
Proof.
  intros Hh Hl Hsc. unfold bind. rewrite Hsc. destruct (scope_symtab h n sc Hsc) as [st Hst].
  rewrite Hst. pose proof (symtab_allocated _ _ _ Hst) as Ha.
  destruct (symbols_update_entry (symbols st) loc (fun e => e ++ [n]) (Hh _ _ Hst) Hl)
    as (m' & -> & Hm' & He & _). cbn [mbind outcome_bind].
  set (st' := mkSymtabDef m' (includes st) (symtab_next_id st)).
  destruct (symbols_find_entry m' loc Hm' Hl) as (r & -> & _). cbn [mbind outcome_bind].
  pose proof (symtab_of_alter h sc) as Hof. specialize (fun m => Hof m (fun _ => Some st') Ha).
  cbn in Hof. eexists _, _. split; [reflexivity|]. split_and!.
  - apply (alter_symtab_only h sc (fun _ => Some st')). intros d Hd.
    unfold symtab_of, node_at in Hst. rewrite Hd in Hst. cbn in Hst. rewrite Hst.
    by split; intros; eexists.
  - intros m x. rewrite Hof. case_decide; [|by apply Hh]. by intros [= <-].
  - intros m s. unfold entries. rewrite Hof. case_decide; [|done]. rewrite Hst. cbn [symbols st'].
    rewrite He. destruct (list_eqb (text loc) s) eqn:E; [|done].
    by apply list_eqb_eq in E as ->.
Qed.

Lemma include_spec h n h' :
  include h n = Returns h' ->
  tables_only h h' /\ (tables_ok h -> tables_ok h') /\ forall m s, entries h' m s = entries h m s.
Proof.
  unfold include. destruct (scope h n) as [sc|] eqn:Hsc; [|done].
  destruct (scope_symtab h n sc Hsc) as [st Hst]. rewrite Hst. intros [= <-].
  pose proof (symtab_allocated _ _ _ Hst) as Ha.
  set (st' := mkSymtabDef (symbols st) (includes st ++ [n]) (symtab_next_id st)).
  pose proof (symtab_of_alter h sc) as Hof. specialize (fun m => Hof m (fun _ => Some st') Ha).
  cbn in Hof. split_and!.
  - apply (alter_symtab_only h sc (fun _ => Some st')). intros d Hd.
    unfold symtab_of, node_at in Hst. rewrite Hd in Hst. cbn in Hst. rewrite Hst.
    by split; intros; eexists.
  - intros Hh m x. rewrite Hof. case_decide; [|by apply Hh]. intros [= <-]. exact (Hh sc st Hst).
  - intros m s. unfold entries. rewrite Hof. case_decide; [|done]. subst. by rewrite Hst.
Qed.

(** * What the builder does at a node *)

(** A binding names one field, and is not the name of a field when it is [Include]. *)
Definition binding_unique (f : Fields) : Prop :=
  binding f = Invalid \/
  ((forall i j fi fj, fields f !! i = Some fi -> fields f !! j = Some fj ->
      field_name fi = binding f -> field_name fj = binding f -> i = j)
   /\ (binding f = Include -> forall i fi, fields f !! i = Some fi -> field_name fi <> Include)).

Definition bindings_unique (wf : Wellformed) : Prop :=
  forall t f, shapes wf !! t = Some (ShapeFields f) -> binding_unique f.

(** Tables stay readable and lose nothing outside [cleared]. *)
Record builds (cleared : list Node) (h h' : heap) : Prop := {
  builds_tables : tables_only h h';
  builds_ok : tables_ok h -> tables_ok h';
  builds_grow sc s n : sc ∉ cleared -> n ∈ entries h sc s -> n ∈ entries h' sc s
}.

Lemma builds_refl l h : builds l h h.
Proof. by split. Qed.

Lemma builds_trans l1 l2 h1 h2 h3 :
  builds l1 h1 h2 -> builds l2 h2 h3 -> builds (l1 ++ l2) h1 h3.
Proof.
  intros [T1 O1 G1] [T2 O2 G2]. split.
  - by etransitivity.
  - auto.
  - intros sc s n Hn H. apply G2, G1; [..|done]; intros ?; apply Hn, elem_of_app; auto.
Qed.

Lemma bind_builds h n loc b h' :
  tables_ok h -> viewable loc -> bind h n loc = Returns (b, h') ->
  builds [] h h' /\ exists sc, scope h n = Some sc /\ n ∈ entries h' sc (text loc).
Proof.
  intros Hh Hl Hb. assert (Hs : exists sc, scope h n = Some sc).
  { unfold bind in Hb. destruct (scope h n); [by eexists|done]. }
  destruct Hs as [sc Hsc]. destruct (bind_spec h n loc sc Hh Hl Hsc) as (b' & h2 & E & Ht & Ho & He).
  rewrite E in Hb. injection Hb as <- <-. split; [split; [done|done|]|].
  - intros m s x _ Hx. rewrite He. case_decide; [|done]. subst m.
    case_match; [apply elem_of_app; by left|done].
  - exists sc. split; [done|]. rewrite He, decide_True by done.
    rewrite (proj2 (list_eqb_eq _ _)) by done. apply elem_of_app. right. by left.
Qed.

Lemma build_loop_spec h n b fs idx r h' :
  tables_ok h -> Forall (fun c => viewable (location_of h c)) (children_of h n) ->
  fields_build_loop h n b fs idx = Returns (r, h') ->
  builds [] h h' /\
  (r = true -> forall j f c, fs !! j = Some f -> field_name f = b ->
     (forall i fi, (i < j)%nat -> fs !! i = Some fi -> field_name fi <> b) ->
     children_of h n !! (idx + j)%nat = Some c ->
     exists sc, scope h n = Some sc /\ n ∈ entries h' sc (text (location_of h c))).
Proof.
  intros Hh Hv. revert idx. induction fs as [|f fs IH]; intros idx; cbn [fields_build_loop].
  - intros [= <- <-]. split; [apply builds_refl|done].
  - destruct (token_eqb (field_name f) b) eqn:Ef.
    + apply token_eqb_eq in Ef. destruct (children_of h n !! idx) as [c|] eqn:Ec.
      * intros Hb. rewrite Forall_forall in Hv.
        destruct (bind_builds h n (location_of h c) r h' Hh) as [Hbd Hin];
          [by apply Hv; eauto using list_elem_of_lookup_2|done|].
        split; [done|]. intros _ [|j] g c' Hj Hg Hfirst Hc'.
        -- rewrite Nat.add_0_r, Ec in Hc'. by injection Hc' as <-.
        -- by destruct (Hfirst O f ltac:(lia) eq_refl).
      * intros [= <- <-]. split; [apply builds_refl|]. intros _ j g c Hj Hg Hfirst Hc.
        apply lookup_ge_None_1 in Ec. apply lookup_lt_Some in Hc. lia.
    + apply token_eqb_neq in Ef. intros H. destruct (IH _ H) as [Hbd Hin]. split; [done|].
      intros Hr [|j] g c Hj Hg Hfirst Hc; [by injection Hj as ->|].
      eapply Hin; [done|exact Hj|done| |by rewrite Nat.add_succ_comm].
      intros i fi Hi Hfi. apply (Hfirst (S i) fi); [lia|done].
Qed.

(** After [build_st] of a shape, the child in the binding's place is bound. *)
Lemma shape_build_spec s h n r h' :
  (forall f, s = ShapeFields f -> binding_unique f) ->
  tables_ok h -> Forall (fun c => viewable (location_of h c)) (children_of h n) ->
  shape_build_st s h n = Returns (r, h') ->
  builds [] h h' /\
  (r = true -> forall f j fj c, s = ShapeFields f -> binding f <> Invalid ->
     fields f !! j = Some fj -> field_name fj = binding f -> children_of h n !! j = Some c ->
     exists sc, scope h n = Some sc /\ n ∈ entries h' sc (text (location_of h c))).
Proof.
  intros Hu Hh Hv. destruct s as [q|f]; cbn [shape_build_st].
  { intros [= <- <-]. split; [apply builds_refl|done]. }
  specialize (Hu f eq_refl). unfold fields_build_st.
  destruct (token_eqb (binding f) Invalid) eqn:E1.
  { apply token_eqb_eq in E1. intros [= <- <-]. split; [apply builds_refl|].
    by intros _ ? ? ? ? [= <-]. }
  apply token_eqb_neq in E1. destruct Hu as [|[Hu Hinc]]; [done|].
  destruct (token_eqb (binding f) Include) eqn:E2.
  - apply token_eqb_eq in E2. intros (h2 & Hi & [= <- <-])%outcome_bind_returns.
    destruct (include_spec h n h2 Hi) as (Ht & Ho & He). split.
    + split; [done|done|]. intros. by rewrite He.
    + intros _ g j fj c [= <-] _ Hj Hn. rewrite E2 in Hn. by destruct (Hinc E2 j fj Hj).
  - intros H. destruct (build_loop_spec _ _ _ _ _ _ _ Hh Hv H) as [Hb Hin]. split; [done|].
    intros Hr g j fj c [= <-] _ Hj Hn Hc. apply (Hin Hr j fj c Hj Hn); [|done].
    intros i fi Hij Hfi Hni. pose proof (Hu i j fi fj Hfi Hj Hni Hn). lia.
Qed.

(** * Specifications without their bindings *)

Definition unbind (s : ShapeT) : ShapeT :=
  match s with
  | ShapeSequence q => ShapeSequence q
  | ShapeFields f => ShapeFields (fields_bind f Invalid)
  end.
Definition unbound (wf : Wellformed) : Wellformed := mkWellformed (unbind <$> shapes wf).

Lemma unbound_lookup wf t : shapes (unbound wf) !! t = unbind <$> shapes wf !! t.
Proof. apply lookup_fmap. Qed.

Lemma chosen_tables h h' c n : tables_only h h' -> chosen c h n -> chosen c h' n.
Proof. intros Ht. unfold chosen. by rewrite (tables_only_type h h' Ht). Qed.

Lemma sequence_conforms_tables q h h' cs :
  tables_only h h' -> sequence_conforms q h cs -> sequence_conforms q h' cs.
Proof.
  intros Ht [Hc Hb]. split.
  - eapply Forall_impl; [exact Hc|]. intros x. by apply chosen_tables.
  - destruct Hb as [He|]; [left|by right]. eapply Exists_impl; [exact He|].
    intros x. cbn. by rewrite (tables_only_type h h' Ht).
Qed.

Lemma fields_conform_bind h h' n b0 b fs cs :
  tables_only h h' -> fields_conform h n b0 fs cs ->
  (forall j fj c, fs !! j = Some fj -> field_name fj = b -> b <> Invalid ->
     cs !! j = Some c -> (b0 = b -> bound_at h n c) -> bound_at h' n c) ->
  fields_conform h' n b fs cs.
Proof.
  intros Ht. induction 1 as [fs c cs He| |f fs c cs Hty Hb Hc IH]; intros Hbd.
  - apply conform_error. by rewrite (tables_only_type h h' Ht).
  - constructor.
  - apply conform_cons.
    + by rewrite (tables_only_type h h' Ht).
    + intros Hi Hn. apply (Hbd O f c); try done. intros ->. by apply Hb.
    + apply IH. intros j fj x Hj. by apply (Hbd (S j)).
Qed.

(** A well-formed tree stays well-formed while its nodes stay bound. *)
Lemma well_formed_mono wf h h' t :
  tables_only h h' ->
  (forall n c, n ∈ nodes t -> c ∈ children_of h n -> bound_at h n c -> bound_at h' n c) ->
  well_formed wf h t -> well_formed wf h' t.
Proof.
  intros Ht. induction t as [n ts IH] using tree_ind'. intros Hb H.
  assert (Hts : Forall (well_formed wf h) ts -> Forall (well_formed wf h') ts).
  { intros Hw. rewrite Forall_forall in IH. rewrite Forall_forall in Hw.
    apply Forall_forall. intros t Hin. apply IH; [done| |by apply Hw].
    intros m c Hm. apply Hb. right. apply list_elem_of_In, in_concat.
    exists (nodes t). split; apply list_elem_of_In; [by apply list_elem_of_fmap_2|done]. }
  inversion H; subst.
  - apply wf_error. by rewrite (tables_only_type h h' Ht).
  - apply wf_around_error; [by rewrite (tables_only_flags h h' Ht)|auto].
  - apply wf_leaf; [by rewrite (tables_only_type h h' Ht)|by rewrite (tables_only_flags h h' Ht)].
  - apply wf_shape with s.
    + by rewrite (tables_only_type h h' Ht).
    + destruct s as [q|f]; cbn in *; rewrite (tables_only_shape h h' Ht).
      * by eapply sequence_conforms_tables.
      * eapply fields_conform_bind; [done..|]. intros j fj c _ _ _ Hc Hbc.
        apply Hb; [by left|by eapply list_elem_of_lookup_2|by apply Hbc].
    + by rewrite (tables_only_flags h h' Ht).
    + match goal with Hp : Forall (fun t => parent_of _ _ = _) _ |- _ =>
        eapply Forall_impl; [exact Hp|] end.
      intros x Hx. by rewrite (tables_only_parent h h' Ht).
    + auto.
Qed.

(** * Scopes in a linked tree *)

(** Every child's parent is the node that holds it. *)
Inductive linked (h : heap) : tree -> Prop :=
  | linked_node n ts :
      Forall (fun t => parent_of h (root t) = Some n) ts -> Forall (linked h) ts ->
      linked h (Tree n ts).

Lemma climb_fuel h test : forall fuel fuel' p r,
  climb fuel h test p = Some r -> (fuel <= fuel')%nat -> climb fuel' h test p = Some r.
Proof.
  induction fuel as [|fuel IH]; intros [|fuel'] [n|] r; cbn; try done; [lia|].
  destruct (test (node_at h n)); [done|]. intros H Hf. apply (IH fuel'); [done|lia].
Qed.

Lemma scope_child h m n sc :
  parent_of h m = Some n -> scope h m = Some sc -> sc = n \/ scope h n = Some sc.
Proof.
  unfold scope, depth_fuel. intros ->. cbn [climb]. destruct (has_symtab (node_at h n)).
  - intros [= ->]. by left.
  - intros H. right. apply (climb_fuel h has_symtab (size h) (S (size h))); [exact H|lia].
Qed.

(** The scope of a node of the tree is in the tree or is the root's scope. *)
Lemma scope_in_tree h t m sc :
  linked h t -> m ∈ nodes t -> scope h m = Some sc -> sc ∈ nodes t \/ scope h (root t) = Some sc.
Proof.
  induction t as [n ts IH] using tree_ind'. intros Hl Hm Hsc.
  inversion Hl as [? ? Hp Hts]; subst. apply elem_of_nodes in Hm as [->|(t & Ht & Hm)]; [by right|].
  rewrite Forall_forall in IH, Hp. rewrite Forall_forall in Hts.
  destruct (IH t Ht (Hts t Ht) Hm Hsc) as [H|H].
  - left. apply elem_of_nodes. eauto.
  - destruct (scope_child h (root t) n sc (Hp t Ht) H) as [->|?]; [|by right].
    left. apply elem_of_nodes. by left.
Qed.

(** * The builder *)

Section Build.
Context (wf : Wellformed) (Hwf : bindings_unique wf).

(** What the builder needs of a subtree: its nodes exist, names can be read, parents are
    right, no node occurs twice, and the scope of its root is outside. *)
Record buildable (h : heap) (t : tree) : Prop := {
  b_reads : reads h t;
  b_linked : linked h t;
  b_nodup : NoDup (nodes t);
  b_nodes : Forall (fun n => is_Some (h !! n) /\ viewable (location_of h n)) (nodes t);
  b_scope sc : scope h (root t) = Some sc -> sc ∉ nodes t
}.

Lemma buildable_child h n ts t : buildable h (Tree n ts) -> t ∈ ts -> buildable h t.
Proof.
  intros [Hr Hl Hd Hn Hs] Ht. apply reads_inv in Hr as [_ Hr].
  inversion Hl as [? ? Hp Hl']; subst. cbn [nodes] in Hd. apply NoDup_cons in Hd as [Hnn Hd].
  rewrite Forall_forall in Hr. rewrite Forall_forall in Hl'. rewrite Forall_forall in Hp.
  split; auto.
  - apply (NoDup_concat_elem _ _ Hd). by apply list_elem_of_fmap_2.
  - apply Forall_forall. intros m Hm. rewrite Forall_forall in Hn. apply Hn.
    by apply (nodes_child n ts t Ht).
  - intros sc Hsc Hin. destruct (scope_child h (root t) n sc (Hp t Ht) Hsc) as [->|Hsc'].
    + apply Hnn, list_elem_of_In, in_concat. exists (nodes t).
      split; apply list_elem_of_In; [by apply list_elem_of_fmap_2|done].
    + apply (Hs sc Hsc'). by apply (nodes_child n ts t Ht).
Qed.

Lemma children_nodes h t m c :
  reads h t -> m ∈ nodes t -> c ∈ children_of h m -> c ∈ nodes t.
Proof.
  induction t as [n ts IH] using tree_ind'. intros [Hc Hr]%reads_inv Hm Hcm.
  apply elem_of_nodes in Hm as [->|(t & Ht & Hm)]; apply elem_of_nodes; right.
  - rewrite Hc in Hcm. apply list_elem_of_fmap in Hcm as (t & -> & Ht).
    exists t. split; [done|apply root_in_nodes].
  - exists t. split; [done|]. rewrite Forall_forall in IH. rewrite Forall_forall in Hr. eauto.
Qed.

Lemma well_formed_stable h h1 h2 t l :
  tables_only h h1 -> tables_ok h1 -> buildable h t -> builds l h1 h2 ->
  (forall m sc, m ∈ nodes t -> scope h m = Some sc -> sc ∉ l) ->
  well_formed wf h1 t -> well_formed wf h2 t.
Proof.
  intros Ht Ho Hb [Ht2 Ho2 Hg] Hl. apply well_formed_mono; [done|].
  intros m c Hm Hc Hbd. assert (Ht' : tables_only h h2) by by etransitivity.
  assert (Hv : viewable (location_of h c)).
  { destruct Hb as [Hr _ _ Hn _]. rewrite Forall_forall in Hn.
    apply Hn, (children_nodes h t m c Hr Hm). by rewrite <-(tables_only_shape h h1 Ht). }
  apply bound_at_entries in Hbd; [|done|by rewrite (tables_only_location h h1 Ht)].
  apply bound_at_entries; [by auto|by rewrite (tables_only_location h h2 Ht')|].
  destruct Hbd as (sc & Hsc & Hin). exists sc.
  rewrite (tables_only_scope h1 h2 Ht2), (tables_only_location h h2 Ht').
  rewrite (tables_only_location h h1 Ht) in Hin. split; [done|]. apply Hg; [|done].
  apply (Hl m); [done|]. by rewrite <-(tables_only_scope h h1 Ht).
Qed.

Definition built (h : heap) (t : tree) : Prop :=
  forall h1 ok h2 ok2, tables_only h h1 -> tables_ok h1 -> buildable h t ->
    visit (wf_build_pre wf) NopPost t (h1, ok) = Returns (h2, ok2) ->
    builds (nodes t) h1 h2
    /\ (ok2 = true -> ok = true /\ (well_formed (unbound wf) h t -> well_formed wf h2 t)).

Lemma build_visits h ts :
  Forall (built h) ts -> Forall (buildable h) ts -> NoDup (concat (nodes <$> ts)) ->
  (forall t m sc, t ∈ ts -> m ∈ nodes t -> scope h m = Some sc ->
     sc ∈ nodes t \/ sc ∉ concat (nodes <$> ts)) ->
  forall h1 ok h2 ok2, tables_only h h1 -> tables_ok h1 ->
    visits (visit (wf_build_pre wf) NopPost) ts (h1, ok) = Returns (h2, ok2) ->
    builds (concat (nodes <$> ts)) h1 h2
    /\ (ok2 = true -> ok = true /\
          (Forall (well_formed (unbound wf) h) ts -> Forall (well_formed wf h2) ts)).
Proof.
  induction 1 as [|t ts Ht _ IH]; intros Hbs Hd Hsc h1 ok h2 ok2 Hto Hok.
  { intros [= <- <-]. split; [apply builds_refl|]. intros ->. split; [done|]. by constructor. }
  apply Forall_cons in Hbs as [Hb Hbs]. cbn [fmap list_fmap concat] in *.
  apply NoDup_app in Hd as (_ & Hdis & Hd).
  intros ([h3 ok3] & Hv & Hvs)%outcome_bind_returns.
  destruct (Ht _ _ _ _ Hto Hok Hb Hv) as [B1 W1].
  assert (Hto3 : tables_only h h3) by (etransitivity; [done|apply B1]).
  assert (Hok3 : tables_ok h3) by by apply B1.
  destruct (IH Hbs Hd) with (h1 := h3) (ok := ok3) (h2 := h2) (ok2 := ok2) as [B2 W2]; try done.
  { intros u m sc Hu Hm Hs. destruct (Hsc u m sc ltac:(by right) Hm Hs) as [|Hn]; [by left|right].
    intros ?. apply Hn, elem_of_app. by right. }
  split; [by eapply builds_trans|]. intros E. destruct (W2 E) as [E3 W2'].
  destruct (W1 E3) as [E1 W1']. split; [done|]. intros [Hw Hws]%Forall_cons.
  constructor; [|by apply W2'].
  apply (well_formed_stable h h3 h2 t (concat (nodes <$> ts))); try done.
  - intros m sc Hm Hs Hin. destruct (Hsc t m sc ltac:(by left) Hm Hs) as [H|H].
    + by apply (Hdis sc).
    + apply H, elem_of_app. by right.
  - by apply W1'.
Qed.

(** The step at a node: its table is emptied, and the node is bound. *)
Lemma build_pre_spec h n h1 ok b h2 ok2 :
  tables_only h h1 -> tables_ok h1 -> is_Some (h !! n) ->
  Forall (fun c => viewable (location_of h c)) (children_of h n) ->
  wf_build_pre wf n (h1, ok) = Returns (b, (h2, ok2)) ->
  builds [n] h1 h2 /\ b = negb (token_eqb (type_of h n) Error)
  /\ (ok2 = true -> ok = true /\
       (b = true -> forall f j fj c, shapes wf !! type_of h n = Some (ShapeFields f) ->
          binding f <> Invalid -> fields f !! j = Some fj -> field_name fj = binding f ->
          children_of h n !! j = Some c ->
          exists sc, scope h n = Some sc /\ n ∈ entries h2 sc (text (location_of h c)))).
Proof.
  intros Ht Hok Hn Hv. unfold wf_build_pre.
  assert (Hd : h1 !! n = Some (node_at h1 n)).
  { apply (tables_only_is_Some h h1 Ht) in Hn as [d Hd]. unfold node_at. by rewrite Hd. }
  rewrite Hd. change (type_ (node_at h1 n)) with (type_of h1 n).
  rewrite (tables_only_type h h1 Ht).
  destruct (token_eqb (type_of h n) Error).
  { intros [= <- <- <-]. split; [apply builds_refl|]. by split. }
  destruct (clear_symbols_spec h1 n) as (Hc1 & Hc2 & Hc3). set (hc := clear_symbols h1 n) in *.
  assert (Hbc : builds [n] h1 hc).
  { split; [done|done|]. intros sc s m Hsc. rewrite Hc3; [done|]. intros ->. apply Hsc. by left. }
  assert (Htc : tables_only h hc) by by etransitivity.
  destruct (shapes wf !! type_of h n) as [s|] eqn:Es.
  - intros ([r h3] & Hs & [= <- <- <-])%outcome_bind_returns.
    destruct (shape_build_spec s hc n r h3) as [Hb Hin]; [|by auto| |done|].
    + intros f ->. by apply (Hwf _ _ Es).
    + rewrite (tables_only_shape h hc Htc). eapply Forall_impl; [exact Hv|].
      intros c. by rewrite (tables_only_location h hc Htc).
    + split; [exact (builds_trans [n] [] _ _ _ Hbc Hb)|]. split; [done|].
      intros [-> ->]%andb_true_iff. split; [done|]. intros _ f j fj c [= ->] Hnb Hj Hnm Hcj.
      rewrite <-(tables_only_shape h hc Htc) in Hcj.
      destruct (Hin eq_refl f j fj c eq_refl Hnb Hj Hnm Hcj) as (sc & Hsc & He).
      exists sc. rewrite (tables_only_scope h hc Htc) in Hsc.
      by rewrite (tables_only_location h hc Htc) in He.
  - intros [= <- <- <-]. split; [done|]. split; [done|]. intros ->. split; [done|]. done.
Qed.

Lemma unbound_conforms h h' n s :
  tables_only h h' -> conforms (unbind s) h n ->
  (forall f j fj c, s = ShapeFields f -> binding f <> Invalid -> fields f !! j = Some fj ->
     field_name fj = binding f -> children_of h n !! j = Some c -> bound_at h' n c) ->
  conforms s h' n.
Proof.
  intros Ht Hc Hb. destruct s as [q|f]; cbn in *; rewrite (tables_only_shape h h' Ht).
  - by eapply sequence_conforms_tables.
  - apply (fields_conform_bind h h' n Invalid (binding f)); [done..|].
    intros j fj c Hj Hn Hi Hcj _. by apply (Hb f j fj c).
Qed.

Lemma build_visit h t : built h t.
Proof.
  induction t as [n ts IH] using tree_ind'. intros h1 ok h2 ok2 Ht Hok Hb. rewrite visit_eq.
  intros ([b [hp okp]] & Hp & Hv)%outcome_bind_returns.
  assert (Hch : Forall (buildable h) ts).
  { apply Forall_forall. intros t. by apply (buildable_child h n ts). }
  destruct Hb as [Hr Hl Hd Hn Hs]. pose proof Hr as [Hc _]%reads_inv.
  assert (Hvc : Forall (fun c => viewable (location_of h c)) (children_of h n)).
  { apply Forall_forall. intros c Hcn. rewrite Forall_forall in Hn. apply Hn.
    apply (children_nodes h (Tree n ts) n c Hr (root_in_nodes (Tree n ts)) Hcn). }
  assert (Hnn : is_Some (h !! n)) by (by apply Forall_cons in Hn as [[? _] _]).
  destruct (build_pre_spec h n h1 ok b hp okp Ht Hok Hnn Hvc Hp) as (B1 & -> & W1).
  assert (Htp : tables_only h hp) by (etransitivity; [done|apply B1]).
  assert (Hokp : tables_ok hp) by by apply B1.
  destruct (token_eqb (type_of h n) Error) eqn:Ee; cbn [negb] in *.
  { injection Hv as <- <-. apply token_eqb_eq in Ee. split.
    - apply (builds_trans [n] (concat (nodes <$> ts)) _ hp); [done|apply builds_refl].
    - intros E. destruct (W1 E) as [-> _]. split; [done|]. intros _. apply wf_error.
      by rewrite (tables_only_type h hp Htp). }
  apply token_eqb_neq in Ee. apply outcome_bind_returns in Hv as ([h3 ok3] & Hv & [= <- <-]).
  cbn [nodes] in Hd. apply NoDup_cons in Hd as [Hnd Hd].
  destruct (build_visits h ts IH Hch Hd) with (h1 := hp) (ok := okp) (h2 := h3) (ok2 := ok3)
    as [B2 W2]; try done.
  { intros t m sc Htt Hm Hsc. assert (Hlt : linked h t).
    { inversion Hl as [? ? _ Hls]; subst. rewrite Forall_forall in Hls. by apply Hls. }
    destruct (scope_in_tree h t m sc Hlt Hm Hsc) as [?|Hsr]; [by left|right].
    inversion Hl as [? ? Hps _]; subst. rewrite Forall_forall in Hps.
    destruct (scope_child h (root t) n sc (Hps t Htt) Hsr) as [->|Hsn]; [done|].
    intros Hin. apply (Hs sc Hsn). by right. }
  split; [exact (builds_trans [n] _ _ _ _ B1 B2)|].
  intros E3. destruct (W2 E3) as [Ep W2']. destruct (W1 Ep) as [-> Wb]. split; [done|].
  assert (Ht3 : tables_only h h3) by (etransitivity; [done|apply B2]).
  intros Hw. inversion Hw; subst.
  - done.
  - apply wf_around_error; [by rewrite (tables_only_flags h h3 Ht3)|auto].
  - apply wf_leaf; [|by rewrite (tables_only_flags h h3 Ht3)].
    rewrite (tables_only_type h h3 Ht3).
    match goal with H : shapes (unbound wf) !! _ = None |- _ =>
      rewrite unbound_lookup in H; by apply fmap_None in H end.
  - match goal with H : shapes (unbound wf) !! _ = Some _ |- _ =>
      rewrite unbound_lookup in H; apply fmap_Some in H as (s0 & Hs0 & ->) end.
    apply wf_shape with s0; [by rewrite (tables_only_type h h3 Ht3)| | | |auto].
    + apply (unbound_conforms h h3 n s0 Ht3); [done|]. intros f j fj c -> Hnb Hj Hnm Hcj.
      destruct (Wb eq_refl f j fj c Hs0 Hnb Hj Hnm Hcj) as (sc & Hsc & Hin).
      apply bound_at_entries; [by apply B2| |].
      * rewrite (tables_only_location h h3 Ht3). rewrite Forall_forall in Hvc.
        apply Hvc. by eapply list_elem_of_lookup_2.
      * exists sc. rewrite (tables_only_scope h h3 Ht3), (tables_only_location h h3 Ht3).
        split; [done|]. apply B2; [|done]. intros H. apply (Hs sc Hsc). by right.
    + by rewrite (tables_only_flags h h3 Ht3).
    + match goal with Hpp : Forall (fun t => parent_of _ _ = _) _ |- _ =>
        eapply Forall_impl; [exact Hpp|] end.
      intros x Hx. by rewrite (tables_only_parent h h3 Ht3).
Qed.

End Build.

(** A node whose shape binds a name has a scope to bind it in. *)
Definition scoped (wf : Wellformed) (h : heap) (n : Node) : Prop :=
  forall f, shapes wf !! type_of h n = Some (ShapeFields f) -> binding f <> Invalid ->
    is_Some (scope h n).

Lemma wf_build_pre_shape wf n s b s' :
  wf_build_pre wf n s = Returns (b, s') -> same_shape (fst s) (fst s').
Proof.
  destruct s as [h ok]. unfold wf_build_pre. destruct (h !! n) as [d|]; [|by intros [= _ <-]].
  destruct (token_eqb (type_ d) Error); [by intros [= _ <-]|].
  assert (Hc : same_shape h (clear_symbols h n)).
  { apply tables_only_shape, clear_symbols_spec. }
  set (hc := clear_symbols h n) in *.
  destruct (shapes wf !! type_ d) as [s|]; [|by intros [= _ <-]].
  intros ([r h3] & Hs & [= _ <-])%outcome_bind_returns. cbn. etransitivity; [exact Hc|].
  destruct s as [q|f]; cbn in Hs; [by injection Hs as _ <-|]. unfold fields_build_st in Hs.
  destruct (token_eqb _ Invalid); [by injection Hs as _ <-|].
  destruct (token_eqb _ Include).
  - apply outcome_bind_returns in Hs as (h4 & Hi & [= _ <-]).
    apply tables_only_shape. by apply (include_spec hc n h4).
  - generalize dependent O. induction (fields f) as [|g fs IH]; intros idx; cbn [fields_build_loop].
    { by intros [= _ <-]. }
    destruct (token_eqb _ _); [|apply IH].
    destruct (children_of hc n !! idx) as [c|]; [|by intros [= _ <-]].
    unfold bind. destruct (scope hc n) as [sc|] eqn:Hsc; [|done].
    destruct (scope_symtab hc n sc Hsc) as [st Hst]. rewrite Hst.
    intros (m & _ & H)%outcome_bind_returns.
    apply outcome_bind_returns in H as (e & _ & [= _ <-]).
    apply tables_only_shape. apply (alter_symtab_only hc sc (fun _ => Some _)).
    intros d' Hd. unfold symtab_of, node_at in Hst. rewrite Hd in Hst. cbn in Hst. rewrite Hst.
    by split; intros; eexists.
Qed.

Lemma unbound_checkable wf h n : is_Some (h !! n) -> checkable (unbound wf) h n.
Proof.
  intros Hn. split; [done|]. intros f. rewrite unbound_lookup.
  intros ([q|g] & _ & [= ->])%fmap_Some. done.
Qed.

Lemma scoped_checkable wf h t n :
  tables_ok h -> reads h t -> Forall (scoped wf h) (nodes t) ->
  Forall (fun n => is_Some (h !! n) /\ viewable (location_of h n)) (nodes t) ->
  n ∈ nodes t -> checkable wf h n.
Proof.
  intros Hok Hr Hsc Hn Hin. rewrite Forall_forall in Hn. rewrite Forall_forall in Hsc.
  split; [by apply Hn|]. intros f Hs Hb. destruct (Hsc n Hin f Hs Hb) as [sc Hscn]. exists sc.
  split; [done|]. intros c Hc. eexists. apply look_entries; [done|].
  apply Hn, (children_nodes h t n c Hr Hin Hc).
Qed.

(** C23: [build_st] makes the tables that [check] demands.  Take a specification that binds
    each name through one field, and a tree whose parents are right, whose locations can be
    read and in which no node occurs twice.  If the tree conforms to the specification with
    its bindings left out, and [build_st] reports no conflict, then the check with the
    bindings passes on the store [build_st] leaves: every binding node is found, under the
    text of its name, in the table of its scope, although the tables of the nodes visited
    later were emptied after it was bound. *)
Theorem build_st_then_check wf h t fuel h' :
  bindings_unique wf -> tables_ok h -> buildable h t -> Forall (scoped wf h) (nodes t) ->
  (2 * length (nodes t) <= fuel)%nat ->
  wf_check (unbound wf) fuel h (root t) = Returns true ->
  wf_build_st wf fuel h (root t) = Returns (h', true) ->
  wf_check wf fuel h' (root t) = Returns true.
Proof.
  intros Hu Hok Hb Hsc Hf Hch Hbd. pose proof Hb as [Hr _ _ Hn _].
  pose proof (cost_nodes t) as Hcost.
  unfold wf_build_st in Hbd. rewrite (traverse_visit fst) in Hbd; [| | |done|lia].
  2: { intros n s b s'. apply wf_build_pre_shape. }
  2: { by intros n s s' [= <-]. }
  destruct (build_visit wf Hu h t h true h' true (reflexivity h) Hok Hb Hbd) as [B W].
  destruct (W eq_refl) as [_ W']. pose proof (builds_tables _ _ _ B) as Ht.
  assert (Hk0 : Forall (checkable (unbound wf) h) (nodes t)).
  { eapply Forall_impl; [exact Hn|]. intros n [? _]. by apply unbound_checkable. }
  destruct (wf_check_decides (unbound wf) h t fuel Hr Hk0 Hf) as (b & E & Hwf).
  rewrite Hch in E. injection E as <-.
  assert (Hr' : reads h' t) by (eapply reads_shape; [|exact Hr]; by apply tables_only_shape).
  assert (Hk : Forall (checkable wf h') (nodes t)).
  { apply Forall_forall. intros n Hin. apply (scoped_checkable wf h' t n); [by apply B|done| | |done].
    - eapply Forall_impl; [exact Hsc|]. intros m Hm f. rewrite (tables_only_type h h' Ht).
      rewrite (tables_only_scope h h' Ht). apply Hm.
    - eapply Forall_impl; [exact Hn|]. intros m [? ?]. rewrite (tables_only_location h h' Ht).
      split; [by apply (tables_only_is_Some h h' Ht)|done]. }
  destruct (wf_check_decides wf h' t fuel Hr' Hk Hf) as (b & E & Hwf').
  rewrite E. f_equal. apply Hwf'. destruct (proj1 Hwf eq_refl) as [He|Hw]; [left|right; auto].
  apply (fmap_empty_inv unbind). exact He.
Qed.

(** * A concrete specification and tree *)

(** A store whose tables are all empty. *)
Definition empty_tables (h : heap) : bool :=
  forallb (fun e => match symtab_ (snd e) with
                    | Some st => match symbols st with [] => true | _ => false end
                    | None => true
                    end) (map_to_list h).

Lemma empty_tables_ok h : empty_tables h = true -> tables_ok h.
Proof.
  unfold empty_tables. rewrite forallb_forall. intros H n st Hst.
  destruct (symtab_allocated _ _ _ Hst) as [d Hd].
  specialize (H (n, d)). rewrite <-list_elem_of_In, elem_of_map_to_list in H.
  specialize (H Hd). unfold symtab_of, node_at in Hst. rewrite Hd in Hst. cbn in Hst, H.
  rewrite Hst in H. destruct (symbols st); [|done]. by split; constructor.
Qed.

Module Sample.

Definition Def : Token := mkTokenDef "def" flag_lookup (20 * sizeof_void_ptr).
Definition Name : Token := mkTokenDef "name" flag_print (21 * sizeof_void_ptr).

(** [(Top <<= Def++) | (Def <<= Name)[Name]] *)
Definition def_fields : Fields := mkFields [implicit_field Name] Name.
Definition spec : Wellformed :=
  shape_or_shape (shape_sequence Token.Top (token_plus Def)) (shape_fields Def def_fields).

(** [(top (def (name "a")) (def (name "b")))] *)
Definition store : heap :=
  let '(top, h) := create_token ∅ Token.Top in
  let '(d1, h) := create_token h Def in
  let '(n1, h) := create h Name (location_of_string 1 (bytes "a")) in
  let h := push_back (push_back h d1 (Some n1)) top (Some d1) in
  let '(d2, h) := create_token h Def in
  let '(n2, h) := create h Name (location_of_string 2 (bytes "b")) in
  push_back (push_back h d2 (Some n2)) top (Some d2).

Definition ast : tree :=
  Tree 1%positive [Tree 2%positive [Tree 3%positive []]; Tree 4%positive [Tree 5%positive []]].
Definition final : heap :=
  match wf_build_st spec 100 store 1%positive with Returns (h, _) => h | _ => ∅ end.

Lemma store_reads : reads store ast.
Proof. repeat (constructor; [vm_compute; reflexivity|]); repeat constructor. Qed.

Lemma store_buildable : buildable store ast.
Proof.
  split.
  - apply store_reads.
  - repeat constructor; vm_compute; reflexivity.
  - apply (bool_decide_unpack _). vm_compute. exact I.
  - repeat constructor; try (vm_compute; eexists; reflexivity); vm_compute; reflexivity.
  - intros sc H. vm_compute in H. discriminate.
Qed.

Lemma store_tables : tables_ok store.
Proof. apply empty_tables_ok. vm_compute. reflexivity. Qed.

Lemma spec_unique : bindings_unique spec.
Proof.
  intros t f Hf. unfold spec, shape_or_shape, wf_append in Hf.
  cbn [shapes shape_type shape_of shape_fields shape_sequence empty_wf] in Hf.
  apply lookup_insert_Some in Hf as [[_ [= <-]]|[_ Hf]].
  - right. split; [|discriminate]. intros [|i] [|j] fi fj Hi Hj; done.
  - by apply lookup_insert_Some in Hf as [[_ ?]|[_ ?]].
Qed.

Lemma spec_scoped : Forall (scoped spec store) (nodes ast).
Proof.
  repeat constructor; intros f H; vm_compute in H; try discriminate; intros _;
    vm_compute; eexists; reflexivity.
Qed.

End Sample.

Lemma build_st_then_check_witness :
  wf_check Sample.spec 100 Sample.store 1%positive = Returns false
  /\ wf_check Sample.spec 100 Sample.final 1%positive = Returns true.
Proof.
  split; [vm_compute; reflexivity|].
  apply (build_st_then_check Sample.spec Sample.store Sample.ast 100 Sample.final
           Sample.spec_unique Sample.store_tables Sample.store_buildable Sample.spec_scoped).
  - vm_compute. lia.
  - vm_compute. reflexivity.
  - vm_compute. reflexivity.
Defined.

Lemma wf_check_correct_witness :
  exists b, wf_check Sample.spec 10 Sample.store 1%positive = Returns b
    /\ (b = true <-> shapes Sample.spec = ∅ \/ well_formed Sample.spec Sample.store Sample.ast).
Proof.
  apply (wf_check_correct Sample.spec Sample.store Sample.ast 10 Sample.store_reads).
  - apply Forall_forall. intros n. apply scoped_checkable.
    + exact Sample.store_tables.
    + exact Sample.store_reads.
    + exact Sample.spec_scoped.
    + exact (b_nodes _ _ Sample.store_buildable).
  - vm_compute. lia.
Defined.

(** Why [bindings_unique]: when two fields carry the name of the binding, [build_st] binds the
    node at the first of them only, and [check] asks for it at both. *)
Module TwoFields.

Definition two_fields : Fields :=
  mkFields [implicit_field Sample.Name; implicit_field Sample.Name] Sample.Name.
Definition spec : Wellformed :=
  shape_or_shape (shape_sequence Token.Top (token_plus Sample.Def))
    (shape_fields Sample.Def two_fields).

Definition store : heap :=
  let '(top, h) := create_token ∅ Token.Top in
  let '(d1, h) := create_token h Sample.Def in
  let '(n1, h) := create h Sample.Name (location_of_string 1 (bytes "a")) in
  let h := push_back h d1 (Some n1) in
  let '(n2, h) := create h Sample.Name (location_of_string 2 (bytes "b")) in
  push_back (push_back h d1 (Some n2)) top (Some d1).

Lemma built_but_not_checked :
  ('(h, ok) ← wf_build_st spec 100 store 1%positive;
   checked ← wf_check spec 100 h 1%positive; Returns (ok, checked)) = Returns (true, false).
Proof. vm_compute. reflexivity. Qed.

End TwoFields.
