(* ===== verification/AstInvariant.v ===== *)
(** The invariant of the node store: child lists and parent pointers agree, there are no
    cycles, and a node above an error knows it.  The methods of [NodeDef] that build and
    edit trees keep it. *)
From S2P Require Import Prelude.
From S2P Require Import Token.
From S2P Require Import Source.
From S2P Require Import Ast.
From S2P Require Import AstFacts.
Open Scope Z_scope.

(** * Accessors after an update *)

Lemma node_at_alter (h : heap) n f m : is_Some (h !! n) ->
  node_at (alter f n h) m = if decide (n = m) then f (node_at h n) else node_at h m.
Proof.
  intros [d Hd]. unfold node_at. case_decide as E.
  - subst. by rewrite lookup_alter_eq, Hd.
  - by rewrite lookup_alter_ne.
Qed.

Lemma node_at_insert (h : heap) n d m :
  node_at (<[n := d]> h) m = if decide (n = m) then d else node_at h m.
Proof.
  unfold node_at. case_decide as E.
  - subst. by rewrite lookup_insert_eq.
  - by rewrite lookup_insert_ne.
Qed.

Lemma is_Some_alter (h : heap) n f m : is_Some (alter f n h !! m) <-> is_Some (h !! m).
Proof. apply lookup_alter_is_Some. Qed.

(** * Flag bits *)

Lemma contains_set_error f : contains_error (set_contains_error f) = true.
Proof.
  unfold contains_error, set_contains_error. apply negb_true_iff, Z.eqb_neq. intros H.
  apply (f_equal (fun z => Z.testbit z 0)) in H.
  rewrite Z.land_spec, Z.lor_spec in H. cbn in H. by rewrite orb_true_r in H.
Qed.

(** * What an error flag promises *)

Definition erroneous (h : heap) (n : Node) : Prop :=
  type_of h n = Error \/ contains_error (flags_ (node_at h n)) = true.
Definition flagged (h : heap) (n : Node) : Prop := contains_error (flags_ (node_at h n)) = true.

Definition errors_known (h : heap) : Prop :=
  forall c p, parent_of h c = Some p -> erroneous h c -> flagged h p.

(** Two stores that differ in flags only, and the second has those of the first. *)
Record flags_grow (h h' : heap) : Prop := {
  fg_some n : is_Some (h' !! n) <-> is_Some (h !! n);
  fg_type n : type_of h' n = type_of h n;
  fg_parent n : parent_of h' n = parent_of h n;
  fg_children n : children_of h' n = children_of h n
}.

#[export] Instance flags_grow_refl : Reflexive flags_grow.
Proof. by split. Qed.
#[export] Instance flags_grow_trans : Transitive flags_grow.
Proof.
  intros h1 h2 h3 [] []. split; intros n; etransitivity; eauto.
Qed.

Lemma with_flags_grow h n f : is_Some (h !! n) -> flags_grow h (alter (with_flags f) n h).
Proof.
  intros Hn. split; intros m; [apply is_Some_alter|..];
    unfold type_of, parent_of, children_of; rewrite node_at_alter by done;
    by case_decide; subst.
Qed.

(** The nodes that are not flagged bound the turns of the loop. *)
Definition unflagged (h : heap) : gset Node :=
  dom (filter (fun e => contains_error (flags_ (snd e)) = false) h).

Lemma elem_of_unflagged h n :
  n ∈ unflagged h <-> is_Some (h !! n) /\ contains_error (flags_ (node_at h n)) = false.
Proof.
  unfold unflagged. rewrite elem_of_dom. unfold node_at. split.
  - intros [d [Hd Hf]%map_lookup_filter_Some]. rewrite Hd. by split; [eexists|].
  - intros [[d Hd] Hf]. rewrite Hd in Hf. exists d. by apply map_lookup_filter_Some.
Qed.

Lemma add_error_loop fuel h curr :
  (forall p, curr = Some p -> is_Some (h !! p)) ->
  (forall c p, parent_of h c = Some p -> is_Some (h !! p)) ->
  (size (unflagged h) < fuel)%nat ->
  (forall c p, parent_of h c = Some p -> curr <> Some p -> erroneous h c -> flagged h p) ->
  let h' := add_flag_loop fuel contains_error set_contains_error h curr in
  flags_grow h h' /\ errors_known h'.
Proof.
  revert h curr. induction fuel as [|fuel IH]; intros h curr Hc Hp Hf He; [lia|].
  destruct curr as [p|]; cbn [add_flag_loop].
  2: { split; [reflexivity|]. intros c p Hcp. by apply He. }
  destruct (contains_error (flags_ (node_at h p))) eqn:Ep.
  { split; [reflexivity|]. intros c q Hcq Hec. destruct (decide (p = q)) as [<-|Hne]; [done|].
    apply (He c q); [done|congruence|done]. }
  assert (Hsp : is_Some (h !! p)) by by apply Hc.
  set (h1 := alter (with_flags set_contains_error) p h).
  assert (Hg : flags_grow h h1) by by apply with_flags_grow.
  assert (Hat : forall m, flagged h1 m <-> m = p \/ flagged h m).
  { intros m. unfold flagged, h1. rewrite node_at_alter by done. case_decide; subst; cbn.
    - rewrite contains_set_error. tauto.
    - split; [by right|by intros [->|]]. }
  assert (Her : forall m, erroneous h1 m <-> m = p \/ erroneous h m).
  { intros m. unfold erroneous. rewrite (fg_type _ _ Hg). fold (flagged h1 m) (flagged h m).
    rewrite Hat. tauto. }
  destruct (IH h1 (parent_of h p)) as [Hg' Hk].
  - intros q Hq. apply (fg_some _ _ Hg). by apply (Hp p).
  - intros c q. rewrite (fg_parent _ _ Hg), (fg_some _ _ Hg). apply Hp.
  - enough (size (unflagged h1) < size (unflagged h))%nat by lia. apply subset_size.
    split.
    + intros m [Hm Hfm]%elem_of_unflagged. apply elem_of_unflagged.
      split; [by apply (fg_some _ _ Hg)|]. apply not_true_iff_false. intros Ht.
      rewrite (proj2 (Hat m) (or_intror Ht)) in Hfm. done.
    + intros H. assert (Hin : p ∈ unflagged h1) by (by apply H, elem_of_unflagged).
      apply elem_of_unflagged in Hin as [_ Hin]. rewrite (proj2 (Hat p) (or_introl eq_refl)) in Hin. done.
  - intros c q. rewrite (fg_parent _ _ Hg), Her, Hat. intros Hcq Hne Hec.
    destruct (decide (q = p)) as [|Hqp]; [by left|right].
    destruct Hec as [->|Hec]; [by rewrite Hcq in Hne|]. apply (He c q); [done|congruence|done].
  - split; [by etransitivity|done].
Qed.

Lemma contains_error_set_lift f : contains_error (set_contains_lift f) = contains_error f.
Proof.
  unfold contains_error, set_contains_lift. do 2 f_equal. apply Z.bits_inj'. intros i Hi.
  rewrite !Z.land_spec, Z.lor_spec. destruct (decide (i = 0)) as [->|].
  - cbn. by rewrite orb_false_r.
  - assert (Z.testbit (Z.shiftl 1 0) i = false) as ->.
    { change (Z.shiftl 1 0) with 1. destruct i; [done|by destruct p|done]. }
    by rewrite !andb_false_r.
Qed.

Lemma add_lift_loop fuel h curr :
  (forall p, curr = Some p -> is_Some (h !! p)) ->
  (forall c p, parent_of h c = Some p -> is_Some (h !! p)) ->
  let h' := add_flag_loop fuel contains_lift set_contains_lift h curr in
  flags_grow h h' /\ forall m, flagged h' m <-> flagged h m.
Proof.
  revert h curr. induction fuel as [|fuel IH]; intros h curr Hc Hp; [by split|].
  destruct curr as [p|]; cbn [add_flag_loop]; [|by split].
  destruct (contains_lift (flags_ (node_at h p))); [by split|].
  assert (Hsp : is_Some (h !! p)) by by apply Hc.
  set (h1 := alter (with_flags set_contains_lift) p h).
  assert (Hg : flags_grow h h1) by by apply with_flags_grow.
  destruct (IH h1 (parent_of h p)) as [Hg' Hk].
  - intros q Hq. apply (fg_some _ _ Hg). by apply (Hp p).
  - intros c q. rewrite (fg_parent _ _ Hg), (fg_some _ _ Hg). apply Hp.
  - split; [by etransitivity|]. intros m. rewrite Hk. unfold flagged, h1.
    rewrite node_at_alter by done. case_decide; subst; [|done]. cbn.
    by rewrite contains_error_set_lift.
Qed.

(** [add_flags] leaves every ancestor of an error flagged, when only [n]'s was not. *)
Lemma add_flags_known h n :
  (forall c p, parent_of h c = Some p -> is_Some (h !! p)) ->
  (forall c p, parent_of h c = Some p -> c <> n -> erroneous h c -> flagged h p) ->
  flags_grow h (add_flags h n) /\ errors_known (add_flags h n).
Proof.
  intros Hp He. assert (Hsize : (size (unflagged h) < S (size h))%nat).
  { unfold unflagged. rewrite <-(size_dom (D:=gset Node) h).
    apply Nat.lt_succ_r, subseteq_size, dom_filter_subseteq. }
  assert (Hc : forall p, parent_ (node_at h n) = Some p -> is_Some (h !! p)) by apply (Hp n).
  unfold add_flags. destruct (token_eqb (type_ (node_at h n)) Error) eqn:E1; cbn [orb].
  - apply add_error_loop; try done. intros c p Hcp Hne. apply He; [done|].
    intros ->. by apply Hne.
  - destruct (contains_error (flags_ (node_at h n))) eqn:E2.
    + apply add_error_loop; try done. intros c p Hcp Hne. apply He; [done|].
      intros ->. by apply Hne.
    + assert (Hk : errors_known h).
      { intros c p Hcp Hec. apply (He c p Hcp); [|done]. intros ->. destruct Hec as [Hec|Hec].
        - apply token_eqb_neq in E1. by apply E1.
        - unfold flagged in Hec. congruence. }
      destruct (_ || _); [|by split].
      destruct (add_lift_loop (S (size h)) h (parent_ (node_at h n)) Hc Hp) as [Hg Hf].
      split; [done|]. intros c p. rewrite (fg_parent _ _ Hg). unfold erroneous.
      rewrite (fg_type _ _ Hg). fold (flagged (add_flag_loop (S (size h)) contains_lift
        set_contains_lift h (parent_ (node_at h n))) c). rewrite !Hf. apply Hk.
Qed.

(** * The invariant *)

Inductive rooted (h : heap) : Node -> Prop :=
  | rooted_root n : parent_of h n = None -> rooted h n
  | rooted_step n p : parent_of h n = Some p -> rooted h p -> rooted h n.

(** [a] is [n] or one of its ancestors. *)
Inductive above (h : heap) (a : Node) : Node -> Prop :=
  | above_refl : above h a a
  | above_step n p : parent_of h n = Some p -> above h a p -> above h a n.

Record ast_ok (h : heap) : Prop := {
  ok_links c n : c ∈ children_of h n <-> parent_of h c = Some n;
  ok_nodup n : NoDup (children_of h n);
  ok_rooted n : rooted h n;
  ok_errors : errors_known h
}.

Lemma parent_allocated h n p : parent_of h n = Some p -> is_Some (h !! n).
Proof. unfold parent_of, node_at. destruct (h !! n); [by eexists|done]. Qed.
Lemma children_allocated h n c : c ∈ children_of h n -> is_Some (h !! n).
Proof. unfold children_of, node_at. destruct (h !! n); [by eexists|by intros ?%elem_of_nil]. Qed.

Lemma ok_closed h c n : ast_ok h -> parent_of h c = Some n -> is_Some (h !! n).
Proof. intros Hok Hp. apply (children_allocated h n c). by apply ok_links. Qed.

Lemma empty_ok : ast_ok ∅.
Proof.
  split.
  - intros c n. unfold children_of, parent_of, node_at. rewrite !lookup_empty. cbn.
    by rewrite elem_of_nil.
  - intros n. unfold children_of, node_at. rewrite lookup_empty. constructor.
  - intros n. by apply rooted_root.
  - by intros c p.
Qed.

(** ** Detached nodes get a parent *)

Record attaches (h h' : heap) (this : Node) (ns : list Node) : Prop := {
  at_parent m : parent_of h' m = if decide (m ∈ ns) then Some this else parent_of h m;
  at_this : children_of h' this ≡ₚ ns ++ children_of h this;
  at_others m : m <> this -> children_of h' m = children_of h m;
  at_errors : errors_known h'
}.

(** What makes the nodes [ns] attachable under [this]. *)
Definition attachable (h : heap) (this : Node) (ns : list Node) : Prop :=
  is_Some (h !! this) /\ NoDup ns /\
  forall n, n ∈ ns -> is_Some (h !! n) /\ parent_of h n = None /\ ~ above h n this.

Lemma attach_ok h h' this ns :
  ast_ok h -> attachable h this ns -> attaches h h' this ns -> ast_ok h'.
Proof.
  intros Hok (_ & Hnd & Hns) [Hp Ht Ho He].
  assert (Hnot : forall n m, n ∈ ns -> n ∉ children_of h m).
  { intros n m Hn H. apply (ok_links _ Hok) in H. destruct (Hns n Hn) as (_ & ? & _). congruence. }
  split; [| | |done].
  - intros c m. rewrite Hp. destruct (decide (m = this)) as [->|Hm].
    + rewrite Ht, elem_of_app, (ok_links _ Hok). case_decide; [by intuition|]. intuition.
    + rewrite (Ho m Hm), (ok_links _ Hok). case_decide as E; [|done].
      destruct (Hns c E) as (_ & -> & _). intuition congruence.
  - intros m. destruct (decide (m = this)) as [->|Hm]; [|rewrite Ho by done; apply Hok].
    rewrite Ht. apply NoDup_app. split; [done|]. split; [|apply Hok]. intros n Hn. by apply Hnot.
  - assert (Hr : forall x, rooted h x -> (forall n, n ∈ ns -> ~ above h n x) -> rooted h' x).
    { intros x. induction 1 as [x Hx|x p Hx _ IH]; intros Hax.
      - apply rooted_root. rewrite Hp. case_decide as E; [|done]. destruct (Hax x E). constructor.
      - apply (rooted_step _ x p).
        + rewrite Hp. case_decide as E; [|done]. destruct (Hax x E). constructor.
        + apply IH. intros n Hn H. apply (Hax n Hn). by apply above_step with p. }
    assert (Hthis : rooted h' this) by (apply Hr; [apply Hok|apply Hns]).
    intros x. destruct (decide (x ∈ ns)) as [Hx|Hx].
    { apply rooted_step with this; [|done]. by rewrite Hp, decide_True. }
    induction (ok_rooted _ Hok x) as [x Hpx|x p Hpx _ IH].
    + apply rooted_root. by rewrite Hp, decide_False.
    + apply rooted_step with p; [by rewrite Hp, decide_False|].
      destruct (decide (p ∈ ns)) as [Hpn|Hpn]; [|by apply IH].
      apply rooted_step with this; [|done]. by rewrite Hp, decide_True.
Qed.

(** ** Children lose their parent *)

Record detaches (h h' : heap) (this : Node) (gone rest : list Node) : Prop := {
  de_parent m : parent_of h' m = if decide (m ∈ gone) then None else parent_of h m;
  de_split : children_of h this ≡ₚ gone ++ rest;
  de_this : children_of h' this ≡ₚ rest;
  de_others m : m <> this -> children_of h' m = children_of h m;
  de_type m : type_of h' m = type_of h m;
  de_flags m : flags_ (node_at h' m) = flags_ (node_at h m)
}.

Lemma detach_ok h h' this gone rest : ast_ok h -> detaches h h' this gone rest -> ast_ok h'.
Proof.
  intros Hok [Hp Hs Ht Ho Hty Hfl].
  assert (Hnd : NoDup (gone ++ rest)) by (rewrite <-Hs; apply Hok).
  apply NoDup_app in Hnd as (Hg & Hgr & Hr).
  assert (Hgone : forall c, c ∈ gone -> parent_of h c = Some this).
  { intros c Hc. apply (ok_links _ Hok). rewrite Hs. apply elem_of_app. by left. }
  split.
  - intros c m. rewrite Hp. destruct (decide (m = this)) as [->|Hm].
    + rewrite Ht. case_decide as E; [split; [|done]; intros H; by destruct (Hgr c E)|].
      rewrite <-(ok_links _ Hok), Hs, elem_of_app. tauto.
    + rewrite Ho by done. rewrite (ok_links _ Hok). case_decide as E; [|done].
      rewrite (Hgone c E). intuition congruence.
  - intros m. destruct (decide (m = this)) as [->|Hm]; [by rewrite Ht|].
    rewrite Ho by done. apply Hok.
  - intros x. induction (ok_rooted _ Hok x) as [x Hx|x p Hx _ IH].
    + apply rooted_root. rewrite Hp. by case_decide.
    + destruct (decide (x ∈ gone)) as [Hin|Hin].
      * apply rooted_root. by rewrite Hp, decide_True.
      * apply rooted_step with p; [|done]. by rewrite Hp, decide_False.
  - intros c p. rewrite Hp. unfold erroneous, flagged. rewrite Hty, !Hfl.
    case_decide; [done|]. apply (ok_errors _ Hok).
Qed.

(** * The operations *)

Lemma create_ok h type loc : ast_ok h -> ast_ok (create h type loc).2.
Proof.
  intros Hok. unfold create. cbn. set (n := fresh (dom h)).
  assert (Hn : h !! n = None) by (apply (not_elem_of_dom (D:=gset Node)), is_fresh).
  set (h' := <[n := new_node type loc]> h).
  assert (Hp : forall m, parent_of h' m = parent_of h m).
  { intros m. unfold parent_of, h'. rewrite node_at_insert. case_decide; [|done].
    subst. unfold node_at. by rewrite Hn. }
  assert (Hc : forall m, children_of h' m = children_of h m).
  { intros m. unfold children_of, h'. rewrite node_at_insert. case_decide; [|done].
    subst. unfold node_at. by rewrite Hn. }
  split.
  - intros c m. rewrite Hc, Hp. apply Hok.
  - intros m. rewrite Hc. apply Hok.
  - intros x. induction (ok_rooted _ Hok x) as [x Hx|x p Hx _ IH].
    + apply rooted_root. by rewrite Hp.
    + apply rooted_step with p; [|done]. by rewrite Hp.
  - intros c p. rewrite Hp. intros Hcp Hec.
    assert (Hne : n <> c) by (intros <-; apply parent_allocated in Hcp as [? ?]; congruence).
    assert (Hnp : n <> p) by (intros <-; apply (ok_closed h c) in Hcp as [? ?]; [congruence|done]).
    apply (ok_errors _ Hok c p) in Hcp.
    + unfold flagged, h' in *. by rewrite node_at_insert, decide_False.
    + unfold erroneous, type_of, h' in *. by rewrite node_at_insert, decide_False in Hec.
Qed.

(** Re-parenting a node. *)
Lemma adopt_spec (h : heap) this n :
  is_Some (h !! this) -> is_Some (h !! n) ->
  (forall c p, parent_of h c = Some p -> is_Some (h !! p)) -> errors_known h ->
  let h' := adopt h this n in
  (forall m, parent_of h' m = if decide (m = n) then Some this else parent_of h m)
  /\ (forall m, children_of h' m = children_of h m)
  /\ (forall m, is_Some (h' !! m) <-> is_Some (h !! m)) /\ errors_known h'.
Proof.
  intros Ht Hn Hcl He. unfold adopt. set (h2 := alter _ n h).
  assert (Hp2 : forall m, parent_of h2 m = if decide (m = n) then Some this else parent_of h m).
  { intros m. unfold parent_of, h2. rewrite node_at_alter by done.
    destruct (decide (n = m)); [by rewrite decide_True|by rewrite decide_False by congruence]. }
  assert (Hc2 : forall m, children_of h2 m = children_of h m).
  { intros m. unfold children_of, h2. rewrite node_at_alter by done. by case_decide; subst. }
  assert (Ht2 : forall m, type_of h2 m = type_of h m).
  { intros m. unfold type_of, h2. rewrite node_at_alter by done. by case_decide; subst. }
  assert (Hf2 : forall m, flags_ (node_at h2 m) = flags_ (node_at h m)).
  { intros m. unfold h2. rewrite node_at_alter by done. by case_decide; subst. }
  assert (Hs2 : forall m, is_Some (h2 !! m) <-> is_Some (h !! m)).
  { intros m. unfold h2. by rewrite is_Some_alter. }
  destruct (add_flags_known h2 n) as [Hg Hk].
  - intros c p. rewrite Hp2, Hs2. case_decide; [by intros [= <-]|by apply Hcl].
  - intros c p. rewrite Hp2. intros Hcp Hne. rewrite decide_False in Hcp by done.
    unfold erroneous, flagged. rewrite Ht2, !Hf2. by apply He.
  - split_and!; [..|done]; intros m.
    + by rewrite (fg_parent _ _ Hg).
    + by rewrite (fg_children _ _ Hg).
    + by rewrite (fg_some _ _ Hg).
Qed.

Lemma adopt_range_spec this ns : forall (h : heap),
  is_Some (h !! this) -> (forall n, n ∈ ns -> is_Some (h !! n)) ->
  (forall c p, parent_of h c = Some p -> is_Some (h !! p)) -> errors_known h ->
  let h' := foldl (fun h n => adopt h this n) h ns in
  (forall m, parent_of h' m = if decide (m ∈ ns) then Some this else parent_of h m)
  /\ (forall m, children_of h' m = children_of h m)
  /\ (forall m, is_Some (h' !! m) <-> is_Some (h !! m)) /\ errors_known h'.
Proof.
  induction ns as [|n ns IH]; intros h Ht Hns Hcl He; cbn [foldl].
  { split_and!; done. }
  destruct (adopt_spec h this n Ht (Hns n (list_elem_of_here n ns)) Hcl He) as (P1 & C1 & S1 & E1).
  destruct (IH (adopt h this n)) as (P2 & C2 & S2 & E2); [by apply S1| | |done|].
  - intros m Hm. apply S1, Hns. by right.
  - intros c p. rewrite P1, S1. case_decide; [by intros [= <-]|by apply Hcl].
  - split_and!; [..|done]; intros m.
    + rewrite P2, P1. destruct (decide (m ∈ ns)) as [Hm|Hm], (decide (m = n)) as [->|Hn].
      * by rewrite decide_True by by left.
      * by rewrite decide_True by by right.
      * by rewrite decide_True by by left.
      * rewrite decide_False; [done|]. by intros [?|?]%elem_of_cons.
    + by rewrite C2.
    + by rewrite S2.
Qed.

Lemma with_children_accessors (h : heap) this f m : is_Some (h !! this) ->
  let h1 := alter (with_children f) this h in
  parent_of h1 m = parent_of h m /\ type_of h1 m = type_of h m
  /\ flags_ (node_at h1 m) = flags_ (node_at h m)
  /\ children_of h1 m = if decide (this = m) then f (children_of h this) else children_of h m.
Proof.
  intros Hs. unfold parent_of, type_of, children_of. rewrite node_at_alter by done.
  by case_decide; subst.
Qed.

(** Adopting [ns] and placing them among the children, in either order. *)
Lemma adopt_then_place h this ns f :
  ast_ok h -> attachable h this ns -> f (children_of h this) ≡ₚ ns ++ children_of h this ->
  attaches h (alter (with_children f) this (foldl (fun h n => adopt h this n) h ns)) this ns.
Proof.
  intros Hok (Ht & _ & Hns) Hf.
  destruct (adopt_range_spec this ns h Ht) as (P & C & S & E).
  - intros n Hn. by apply Hns.
  - intros c p. by apply ok_closed.
  - apply Hok.
  - set (h1 := foldl _ h ns) in *. assert (Ht1 : is_Some (h1 !! this)) by by apply S.
    pose proof (fun m => with_children_accessors h1 this f m Ht1) as A.
    split.
    + intros m. destruct (A m) as (-> & _). apply P.
    + destruct (A this) as (_ & _ & _ & ->). rewrite decide_True by done. by rewrite C.
    + intros m Hm. destruct (A m) as (_ & _ & _ & ->). rewrite decide_False by done. apply C.
    + intros c p. destruct (A c) as (-> & Hty & Hfc & _). destruct (A p) as (_ & _ & Hfp & _).
      unfold erroneous, flagged. rewrite Hty, Hfc, Hfp. apply E.
Qed.

Lemma place_then_adopt h this ns f :
  ast_ok h -> attachable h this ns -> f (children_of h this) ≡ₚ ns ++ children_of h this ->
  attaches h (foldl (fun h n => adopt h this n) (alter (with_children f) this h) ns) this ns.
Proof.
  intros Hok (Ht & _ & Hns) Hf. set (h1 := alter (with_children f) this h).
  pose proof (fun m => with_children_accessors h this f m Ht) as A. fold h1 in A.
  assert (S1 : forall m, is_Some (h1 !! m) <-> is_Some (h !! m)).
  { intros m. unfold h1. by rewrite is_Some_alter. }
  destruct (adopt_range_spec this ns h1) as (P & C & S & E).
  - by apply S1.
  - intros n Hn. apply S1. by apply Hns.
  - intros c p. destruct (A c) as (-> & _). rewrite S1. by apply ok_closed.
  - intros c p. destruct (A c) as (-> & Hty & Hfc & _). destruct (A p) as (_ & _ & Hfp & _).
    unfold erroneous, flagged. rewrite Hty, Hfc, Hfp. apply (ok_errors _ Hok).
  - split; [| | |done].
    + intros m. rewrite P. destruct (A m) as (-> & _). done.
    + rewrite C. destruct (A this) as (_ & _ & _ & ->). by rewrite decide_True.
    + intros m Hm. rewrite C. destruct (A m) as (_ & _ & _ & ->). by rewrite decide_False.
Qed.

(** ** Removing children *)

Lemma disown_spec (h : heap) this n : 
  let h' := disown h this n in
  (forall m, parent_of h' m
     = if decide (m = n /\ parent_of h n = Some this) then None else parent_of h m)
  /\ (forall m, children_of h' m = children_of h m /\ type_of h' m = type_of h m
        /\ flags_ (node_at h' m) = flags_ (node_at h m) /\ (is_Some (h' !! m) <-> is_Some (h !! m))).
Proof.
  unfold disown. case_bool_decide as E.
  - assert (Hs : is_Some (h !! n)) by by eapply parent_allocated.
    split; intros m; unfold parent_of, children_of, type_of in *; rewrite node_at_alter by done.
    + destruct (decide (n = m)) as [<-|Hn]; [by rewrite decide_True|].
      rewrite decide_False; [done|]. by intros [-> _].
    + rewrite is_Some_alter. by case_decide; subst.
  - split; intros m; [|done]. rewrite decide_False; [done|]. by intros [_ ?].
Qed.

Lemma disown_range_spec this ns : forall h,
  let h' := foldl (fun h n => disown h this n) h ns in
  (forall m, parent_of h' m
     = if decide (m ∈ ns /\ parent_of h m = Some this) then None else parent_of h m)
  /\ (forall m, children_of h' m = children_of h m /\ type_of h' m = type_of h m
        /\ flags_ (node_at h' m) = flags_ (node_at h m) /\ (is_Some (h' !! m) <-> is_Some (h !! m))).
Proof.
  induction ns as [|n ns IH]; intros h; cbn [foldl].
  { split; intros m; [|done]. rewrite decide_False; [done|]. by intros [?%elem_of_nil _]. }
  destruct (disown_spec h this n) as [P1 A1]. destruct (IH (disown h this n)) as [P2 A2].
  split; intros m.
  - rewrite P2, P1. destruct (decide (m = n /\ parent_of h n = Some this)) as [[-> E]|E].
    + rewrite decide_False by (by intros [_ ?]). rewrite decide_True; [done|].
      split; [by left|done].
    + destruct (decide (m ∈ ns /\ parent_of h m = Some this)) as [[? ?]|Hn].
      * rewrite decide_True; [done|]. split; [by right|done].
      * rewrite decide_False; [done|]. intros [[->|?]%elem_of_cons ?]; tauto.
  - destruct (A2 m) as (-> & -> & -> & ->). apply A1.
Qed.

Lemma disown_then_remove h this gone rest f :
  ast_ok h -> children_of h this ≡ₚ gone ++ rest -> f (children_of h this) = rest ->
  is_Some (h !! this) ->
  detaches h (alter (with_children f) this (foldl (fun h n => disown h this n) h gone))
    this gone rest.
Proof.
  intros Hok Hp Hf Ht. destruct (disown_range_spec this gone h) as [P A].
  set (h1 := foldl _ h gone) in *. assert (Ht1 : is_Some (h1 !! this)) by by apply A.
  pose proof (fun m => with_children_accessors h1 this f m Ht1) as B. split; [|done| | | |].
  - intros m. destruct (B m) as (-> & _). rewrite P.
    destruct (decide (m ∈ gone)) as [Hm|Hm].
    + rewrite decide_True; [done|]. split; [done|]. apply (ok_links _ Hok). rewrite Hp.
      apply elem_of_app. by left.
    + rewrite decide_False; [done|]. by intros [? _].
  - destruct (B this) as (_ & _ & _ & ->). rewrite decide_True by done.
    destruct (A this) as (-> & _). by rewrite Hf.
  - intros m Hm. destruct (B m) as (_ & _ & _ & ->). rewrite decide_False by done. apply A.
  - intros m. destruct (B m) as (_ & -> & _). apply A.
  - intros m. destruct (B m) as (_ & _ & -> & _). apply A.
Qed.

Lemma erase_ok h this first last :
  ast_ok h -> (first <= last)%nat -> ast_ok (erase h this first last).
Proof.
  intros Hok Hfl. destruct (decide (is_Some (h !! this))) as [Ht|Ht].
  - eapply detach_ok; [exact Hok|]. unfold erase. apply disown_then_remove; [done| |done|done].
    set (c := children_of h this).
    transitivity ((take first c ++ drop first (take last c)) ++ drop last c).
    + assert (E : take first c ++ drop first (take last c) = take last c).
      { rewrite <-(take_drop first (take last c)) at 2. rewrite take_take. by rewrite Nat.min_l. }
      rewrite E. by rewrite take_drop.
    + rewrite <-!app_assoc. rewrite !app_assoc. apply Permutation_app_tail, Permutation_app_comm.
  - unfold erase. assert (E : children_of h this = []).
    { unfold children_of, node_at. destruct (h !! this); [by destruct Ht|done]. }
    rewrite E, take_nil, drop_nil. cbn. rewrite alter_id; [done|].
    intros d Hd. destruct Ht. by rewrite Hd.
Qed.

Lemma alter_commute_disown h this n f :
  alter (with_children f) this (disown h this n) = disown (alter (with_children f) this h) this n.
Proof.
  unfold disown.
  assert (E : parent_of (alter (with_children f) this h) n = parent_of h n).
  { destruct (decide (is_Some (h !! this))) as [Hs|Hs].
    - by destruct (with_children_accessors h this f n Hs) as (-> & _).
    - rewrite alter_id; [done|]. intros d Hd. destruct Hs. by rewrite Hd. }
  rewrite E. case_bool_decide; [|done]. destruct (decide (this = n)) as [->|Hne].
  - by rewrite !alter_alter_eq.
  - by apply alter_alter_ne.
Qed.

Lemma pop_back_ok h this : ast_ok h -> ast_ok (pop_back h this).2.
Proof.
  intros Hok. unfold pop_back. destruct (last (children_of h this)) as [n|] eqn:El; [|done].
  cbn [snd]. rewrite <-alter_commute_disown. apply last_Some in El as [l El].
  apply (detach_ok h _ this [n] l Hok). apply (disown_then_remove h this [n] l); [done| | |].
  - rewrite El. by rewrite Permutation_app_comm.
  - rewrite El, length_app. cbn. by rewrite Nat.add_sub, take_app_length.
  - apply (children_allocated h this n). rewrite El. apply elem_of_app. right. by left.
Qed.

Lemma index_of_lookup n l i : index_of n l = Some i -> l !! i = Some n.
Proof.
  revert i. induction l as [|x l IH]; intros i; cbn; [done|].
  destruct (Pos.eqb_spec x n) as [->|]; [by intros [= <-]|].
  intros (j & Hj & ->)%fmap_Some. by apply IH.
Qed.

Lemma above_parents h h' a x :
  (forall m p, parent_of h' m = Some p -> parent_of h m = Some p) -> above h' a x -> above h a x.
Proof. intros Hp. induction 1 as [|x p Hx _ IH]; [constructor|]. by apply above_step with p; auto. Qed.

Lemma replace_ok h this n1 n2 h' :
  ast_ok h -> attachable h this [n2] -> replace h this n1 (Some n2) = Returns h' -> ast_ok h'.
Proof.
  intros Hok (Ht & _ & Hn2). unfold replace.
  destruct (index_of n1 (children_of h this)) as [it|] eqn:Ei; [|done]. intros [= <-].
  apply index_of_lookup in Ei. set (c := children_of h this) in *.
  destruct (Hn2 n2 (list_elem_of_here n2 [])) as (Hs2 & Hp2 & Ha2).
  pose proof (disown_then_remove h this [n1] (delete it c) (delete it) Hok) as D.
  destruct (disown_spec h this n1) as [P1 A1]. set (h1 := disown h this n1) in *.
  assert (Ht1 : is_Some (h1 !! this)) by by apply A1.
  set (hd := alter (with_children (delete it)) this h1).
  assert (Dd : detaches h hd this [n1] (delete it c)).
  { apply D; [|done|done]. by apply delete_Permutation. }
  assert (Hokd : ast_ok hd) by exact (detach_ok _ _ _ _ _ Hok Dd).
  assert (Hcl1 : forall a p, parent_of h1 a = Some p -> is_Some (h1 !! p)).
  { intros a p. rewrite P1. destruct (decide (a = n1 /\ _)); [done|]. intros H. apply A1. exact (ok_closed h a p Hok H). }
  assert (He1 : errors_known h1).
  { intros a p. rewrite P1. destruct (decide (a = n1 /\ _)); [done|]. unfold erroneous, flagged.
    destruct (A1 a) as (_ & -> & -> & _). destruct (A1 p) as (_ & _ & -> & _).
    apply (ok_errors _ Hok). }
  destruct (adopt_spec h1 this n2 Ht1) as (P2 & C2 & S2 & E2); [by apply A1|done|done|].
  set (h2 := adopt h1 this n2) in *.
  assert (Ht2 : is_Some (h2 !! this)) by by apply S2.
  pose proof (fun m => with_children_accessors h2 this (fun c => <[it := n2]> c) m Ht2) as B.
  pose proof (fun m => with_children_accessors h1 this (delete it) m Ht1) as Bd. fold hd in Bd.
  apply (attach_ok hd _ this [n2] Hokd).
  - split; [apply is_Some_alter; done|]. split; [apply NoDup_singleton|].
    intros m ->%list_elem_of_singleton. split; [apply is_Some_alter; by apply A1|]. split.
    + rewrite (de_parent _ _ _ _ _ Dd). by destruct (decide (n2 ∈ [n1])).
    + intros H. apply Ha2. eapply above_parents; [|exact H]. intros a p.
      rewrite (de_parent _ _ _ _ _ Dd). by destruct (decide (a ∈ [n1])).
  - split.
    + intros m. destruct (B m) as (-> & _). rewrite P2. destruct (Bd m) as (-> & _).
      destruct (decide (m = n2)) as [->|Hm]; [by rewrite decide_True by by left|].
      rewrite decide_False; [done|]. by intros ->%list_elem_of_singleton.
    + destruct (B this) as (_ & _ & _ & ->). rewrite decide_True by done. rewrite C2.
      destruct (Bd this) as (_ & _ & _ & ->). rewrite decide_True by done.
      destruct (A1 this) as (-> & _). fold c.
      assert (Hit : (it < length c)%nat) by by eapply lookup_lt_Some.
      rewrite insert_take_drop, delete_take_drop by done. cbn [app]. by rewrite Permutation_middle.
    + intros m Hm. destruct (B m) as (_ & _ & _ & ->). rewrite decide_False by done. rewrite C2.
      destruct (Bd m) as (_ & _ & _ & ->). by rewrite decide_False by done.
    + intros a p. destruct (B a) as (-> & Hty & Hfa & _). destruct (B p) as (_ & _ & Hfp & _).
      unfold erroneous, flagged. rewrite Hty, Hfa, Hfp. apply E2.
Qed.

(** * Every tree the methods build *)

(** One call on the store.  A node may be given a parent when it has none and the tree it
    heads does not contain the new parent. *)
Inductive ast_step (h : heap) : heap -> Prop :=
  | step_create type loc : ast_step h (create h type loc).2
  | step_push_front this n : attachable h this [n] -> ast_step h (push_front h this (Some n))
  | step_push_back this n : attachable h this [n] -> ast_step h (push_back h this (Some n))
  | step_insert this pos n : attachable h this [n] -> ast_step h (insert h this pos (Some n))
  | step_insert_range this pos ns :
      attachable h this ns -> ast_step h (insert_range h this pos ns)
  | step_pop_back this : ast_step h (pop_back h this).2
  | step_erase this first last : (first <= last)%nat -> ast_step h (erase h this first last)
  | step_replace this n1 n2 h' :
      attachable h this [n2] -> replace h this n1 (Some n2) = Returns h' -> ast_step h h'.

Lemma ast_step_ok h h' : ast_ok h -> ast_step h h' -> ast_ok h'.
Proof.
  intros Hok. destruct 1 as [type loc|this n Ha|this n Ha|this pos n Ha|this pos ns Ha|this
                            |this a b Hab|this n1 n2 h' Ha Hr].
  - by apply create_ok.
  - apply (attach_ok h _ this [n] Hok Ha).
    by apply (place_then_adopt h this [n] (cons n) Hok Ha).
  - apply (attach_ok h _ this [n] Hok Ha).
    apply (place_then_adopt h this [n] (fun c => c ++ [n]) Hok Ha). apply Permutation_app_comm.
  - apply (attach_ok h _ this [n] Hok Ha).
    apply (adopt_then_place h this [n] (fun c => take pos c ++ n :: drop pos c) Hok Ha).
    rewrite <-(take_drop pos (children_of h this)) at 3. cbn [app]. by rewrite Permutation_middle.
  - apply (attach_ok h _ this ns Hok Ha).
    apply (adopt_then_place h this ns (fun c => take pos c ++ ns ++ drop pos c) Hok Ha).
    rewrite <-(take_drop pos (children_of h this)) at 3.
    rewrite !app_assoc. apply Permutation_app_tail, Permutation_app_comm.
  - by apply pop_back_ok.
  - by apply erase_ok.
  - by eapply replace_ok.
Qed.

(** C11: The methods of [NodeDef] keep the tree a tree.  In every store reached by creating
    nodes and by [push_front], [push_back], [insert] (of a node or a range), [pop_back],
    [erase] and [replace] with another node, where every node that is put under another one is in the
    store, has no parent and is not above the node it is put under, nor twice among the nodes of
    a range ([attachable]), a node is in the child list of exactly the node its
    parent pointer names, and there once; the parent pointers of every node lead to a root,
    so the loops that follow them end; and every ancestor of an error has its flag set,
    so the checker and the rewriter never mistake a tree with errors for one without.
    [replace] without a second node is not among these steps: it leaves the node it takes out with
    the parent it had ([replace_with_nothing_keeps_parent]). *)
Theorem ast_invariant h :
  rtc ast_step ∅ h ->
  (forall c n, c ∈ children_of h n <-> parent_of h c = Some n)
  /\ (forall n, NoDup (children_of h n))
  /\ (forall n, rooted h n)
  /\ (forall e n, type_of h e = Error -> above h n e -> n <> e -> flagged h n).
Proof.
  intros Hr. assert (Hok : ast_ok h).
  { revert Hr. apply (rtc_ind_r ast_ok); [apply empty_ok|]. intros h1 h2 _ Hs Hok.
    exact (ast_step_ok h1 h2 Hok Hs). }
  split_and!; [apply Hok..|]. intros e n He Ha Hne.
  assert (Hf : forall m, above h n m -> erroneous h m -> n <> m -> flagged h n).
  { intros m. induction 1 as [|m p Hmp Hnp IH]; intros Hm Hnm; [done|].
    pose proof (ok_errors _ Hok m p Hmp Hm) as Hp.
    destruct (decide (n = p)) as [->|]; [done|]. apply IH; [by right|done]. }
  apply (Hf e Ha); [by left|done].
Qed.

Lemma ast_invariant_witness :
  let h1 := (create ∅ Token.Top null_location).2 in
  let h2 := (create h1 Error null_location).2 in
  let h3 := push_back h2 1%positive (Some 2%positive) in
  rtc ast_step ∅ h3 /\ flagged h3 1%positive.
Proof.
  intros h1 h2 h3.
  assert (Hr : rtc ast_step ∅ h3).
  { apply (rtc_l _ _ h1); [apply step_create|]. apply (rtc_l _ _ h2); [apply step_create|].
    apply rtc_once, step_push_back. split; [by vm_compute; eexists|].
    split; [apply NoDup_singleton|]. intros n ->%list_elem_of_singleton.
    split; [by vm_compute; eexists|]. split; [by vm_compute|]. intros H.
    inversion H as [|n p Hp _]; subst. vm_compute in Hp. discriminate. }
  split; [exact Hr|].
  destruct (ast_invariant h3 Hr) as (_ & _ & _ & He). apply (He 2%positive).
  - vm_compute. reflexivity.
  - apply (above_step h3 1%positive 2%positive 1%positive); [vm_compute; reflexivity|constructor].
  - discriminate.
Defined.

(** * Where the flags and the links fall short *)

(** A node that holds an error and a lift passes only the error on to a new parent. *)
Lemma lift_under_error_forgotten :
  let '(group, h) := create_token ∅ Group in
  let '(err, h) := create_token h Error in
  let '(lft, h) := create_token h Lift in
  let h := push_back (push_back h group (Some lft)) group (Some err) in
  let '(top, h) := create_token h Token.Top in
  let h := push_back h top (Some group) in
  contains_lift (flags_ (node_at h group)) = true
  /\ contains_lift (flags_ (node_at h top)) = false.
Proof. vm_compute. split; reflexivity. Qed.

(** [replace] without a second node removes the child but leaves its parent pointer. *)
Lemma replace_with_nothing_keeps_parent :
  let '(top, h) := create_token ∅ Token.Top in
  let '(n, h) := create_token h Group in
  let h := push_back h top (Some n) in
  match replace h top n None with
  | Returns h => children_of h top = [] /\ parent_of h n = Some top
  | _ => False
  end.
Proof. vm_compute. split; reflexivity. Qed.
