(* ===== verification/NodeWorker.v ===== *)
(** The worklist driver of node-based passes ([include/trieste/nodeworker.h]), for any
    [Work], and the work its documentation gives as the example. *)
From S2P Require Import Prelude.
From S2P Require Import Token.
From S2P Require Import Source.
From S2P Require Import Ast.
From S2P Require Import AstFacts.
From S2P Require Import AstInvariant.
Open Scope Z_scope.

(** [enum class WorkerStatus] *)
Inductive WorkerStatus := Uninitialized | Active | Blocked | Resolved.

#[export] Instance WorkerStatus_eq_dec : EqDecision WorkerStatus.
Proof. solve_decision. Defined.

(** [Work::State]: [NodeWorkerState] and what the algorithm adds to it. *)
Record NodeWorkerState (S : Type) := mkState {
  kind : WorkerStatus;
  blocked_on_count : Z;
  dependents : gset Node;
  custom : S
}.
Arguments mkState {S}. Arguments kind {S}. Arguments blocked_on_count {S}.
Arguments dependents {S}. Arguments custom {S}.

Definition with_kind {S} (k : WorkerStatus) (s : NodeWorkerState S) :=
  mkState k (blocked_on_count s) (dependents s) (custom s).
Definition with_count {S} (c : Z) (s : NodeWorkerState S) :=
  mkState (kind s) c (dependents s) (custom s).
Definition with_dependents {S} (d : gset Node) (s : NodeWorkerState S) :=
  mkState (kind s) (blocked_on_count s) d (custom s).
Definition with_custom {S} (c : S) (s : NodeWorkerState S) :=
  mkState (kind s) (blocked_on_count s) (dependents s) c.

Section Worker.
(** The template argument [Work]: its own state [W], the algorithm's part [S] of a node's
    state with its default, and [seed].  [order] is the order in which an
    [std::unordered_set] is iterated. *)
Context {W S : Type} (fresh_custom : S).
Context (seed : Node -> NodeWorkerState S -> W -> NodeWorkerState S * W).
Context (order : gset Node -> list Node).

Definition fresh_state : NodeWorkerState S := mkState Uninitialized 0 ∅ fresh_custom.

(** [NodeWorker]'s fields *)
Record Worker := mkWorker {
  state_ : gmap Node (NodeWorkerState S);
  worklist_ : list Node;
  work_ : W
}.

Definition update (w : Worker) (n : Node) (f : NodeWorkerState S -> NodeWorkerState S) : Worker :=
  mkWorker (alter f n (state_ w)) (worklist_ w) (work_ w).
Definition push_work (w : Worker) (n : Node) : Worker :=
  mkWorker (state_ w) (worklist_ w ++ [n]) (work_ w).

(** [NodeWorker::state]: [std::map::at] throws. *)
Definition state (w : Worker) (n : Node) : outcome (NodeWorkerState S) :=
  match state_ w !! n with Some s => Returns s | None => Throws end.

(** [NodeWorker::is_resolved] *)
Definition is_resolved (w : Worker) (n : Node) : bool :=
  match state_ w !! n with Some s => bool_decide (kind s = Resolved) | None => false end.

(** [NodeWorker::add] *)
Definition add (w : Worker) (n : Node) : Worker :=
  let s := default fresh_state (state_ w !! n) in
  if bool_decide (kind s <> Uninitialized) then mkWorker (<[n := s]> (state_ w)) (worklist_ w) (work_ w)
  else
    let '(s, work) := seed n s (work_ w) in
    mkWorker (<[n := with_kind Active s]> (state_ w)) (worklist_ w ++ [n]) work.

(** [NodeWorker::block_on] *)
Definition block_on (w : Worker) (dependent origin : Node) : outcome (bool * Worker) :=
  let w := add w origin in
  if is_resolved w origin then Returns (false, w)
  else
    o ← state w origin;
    let w := update w origin (fun s => with_dependents ({[dependent]} ∪ dependents s) s) in
    d ← state w dependent;
    Returns (true, update w dependent (with_kind Blocked)).

(** The loop of [NodeWorker::block_on_all] *)
Fixpoint block_on_each (w : Worker) (dependent : Node) (origins : list Node) (count : Z)
    : outcome (Z * Worker) :=
  match origins with
  | [] => Returns (count, w)
  | origin :: origins =>
      '(b, w) ← block_on w dependent origin;
      block_on_each w dependent origins (if (b : bool) then u64 (count + 1) else count)
  end.

(** [NodeWorker::block_on_all] *)
Definition block_on_all (w : Worker) (dependent : Node) (origins : list Node)
    : outcome (bool * Worker) :=
  '(count, w) ← block_on_each w dependent origins 0;
  if count =? 0 then Returns (false, w)
  else
    let count := u64 (count - 1) in
    d ← state w dependent;
    Returns (true, update w dependent (with_count
      (if blocked_on_count d =? 0 then count else Z.min (blocked_on_count d) count))).

(** [NodeWorker::block_on_any] *)
Fixpoint block_on_some (w : Worker) (dependent : Node) (origins : list Node) (has_blocking : bool)
    : outcome (bool * Worker) :=
  match origins with
  | [] => Returns (has_blocking, w)
  | origin :: origins =>
      '(b, w) ← block_on w dependent origin;
      block_on_some w dependent origins (has_blocking || b)
  end.
Definition block_on_any (w : Worker) (dependent : Node) (origins : list Node)
    : outcome (bool * Worker) :=
  '(has_blocking, w) ← block_on_some w dependent origins false;
  d ← state w dependent;
  Returns (has_blocking, update w dependent (with_count 0)).

(** The body of the loop of [unblock_dependents] *)
Definition unblock (w : Worker) (dependent : Node) : outcome Worker :=
  s ← state w dependent;
  if bool_decide (kind s <> Blocked) then Returns w
  else if 0 <? blocked_on_count s then
    Returns (update w dependent (with_count (blocked_on_count s - 1)))
  else Returns (push_work (update w dependent (with_kind Active)) dependent).

Fixpoint unblock_all (w : Worker) (waiting : list Node) : outcome Worker :=
  match waiting with
  | [] => Returns w
  | dependent :: waiting => w ← unblock w dependent; unblock_all w waiting
  end.

(** [NodeWorker::unblock_dependents] *)
Definition unblock_dependents (w : Worker) (origin : Node) : outcome Worker :=
  s ← state w origin;
  if bool_decide (dependents s = ∅) then Returns w
  else
    w ← unblock_all w (order (dependents s));
    Returns (update w origin (with_dependents ∅)).

(** [Work::process] *)
Context (process : Node -> Worker -> outcome (bool * Worker)).

(** One turn of the loop of [run] for a node that was taken off the worklist; a failed
    assertion ends the program. *)
Definition run_turn (w : Worker) (current : Node) : outcome Worker :=
  s ← state w current;
  if bool_decide (kind s = Resolved) then Returns w
  else if bool_decide (kind s <> Active) then Throws
  else
    '(done, w) ← process current w;
    if (done : bool) then unblock_dependents (update w current (with_kind Resolved)) current
    else Returns w.

(** [NodeWorker::run] *)
Fixpoint run (fuel : nat) (w : Worker) : outcome Worker :=
  match worklist_ w with
  | [] => Returns w
  | current :: rest =>
      match fuel with
      | O => Undefined
      | Datatypes.S fuel =>
          w ← run_turn (mkWorker (state_ w) rest (work_ w)) current; run fuel w
      end
  end.

End Worker.
Arguments Worker : clear implicits.
Arguments mkWorker {W S}. Arguments state_ {W S}. Arguments worklist_ {W S}.
Arguments work_ {W S}.

(** * The work of the header's example: children before their parent *)

(** [State::children_added] is the algorithm's part; the work has no state of its own and
    seeds nothing.  [deps n] are the children of [n]. *)
Section ChildrenFirst.
Context (order : gset Node -> list Node) (deps : Node -> list Node).

Abbreviation example_worker := (Worker unit bool).

Definition example_seed (n : Node) (s : NodeWorkerState bool) (w : unit) := (s, w).

Definition example_process (n : Node) (w : example_worker) : outcome (bool * example_worker) :=
  s ← state w n;
  if negb (custom s) && negb (bool_decide (deps n = [])) then
    '(b, w) ← block_on_all false example_seed w n (deps n);
    if (b : bool) then Returns (false, update w n (with_custom true)) else Returns (true, w)
  else Returns (true, w).

(** [NodeWorker<Work> worker{Work{}}; worker.add(root) ...; worker.run();] *)
Definition example_start (roots : list Node) : example_worker :=
  foldl (add false example_seed) (mkWorker ∅ [] tt) roots.
Definition example_run (fuel : nat) (roots : list Node) : outcome example_worker :=
  run order example_process fuel (example_start roots).

End ChildrenFirst.

(** * The worker of the example resolves every node: the invariant of its turns, the measure
    that bounds them, and the theorem. *)

Section Facts.
Context (order : gset Node -> list Node) (deps : Node -> list Node).
Context (Horder : forall s, order s ≡ₚ elements s).
Context (Hnodup : forall n, NoDup (deps n)).
Context (Hsmall : forall n, Z.of_nat (length (deps n)) < 2 ^ 64).
Context (Hirrefl : forall n, n ∉ deps n).

Abbreviation worker := (Worker unit bool).

(** * Reading a worker *)

Definition kind_of (w : worker) (n : Node) : WorkerStatus :=
  match state_ w !! n with Some s => kind s | None => Uninitialized end.
Definition dependents_of (w : worker) (n : Node) : gset Node :=
  match state_ w !! n with Some s => dependents s | None => ∅ end.
Definition known (w : worker) (n : Node) : Prop := is_Some (state_ w !! n).

Definition unresolved (w : worker) (d : Node) : Prop := kind_of w d <> Resolved.
(** The prerequisites a node still waits for. *)
Definition pending (w : worker) (n : Node) : list Node := filter (unresolved w) (deps n).

Lemma elem_of_pending w n d : d ∈ pending w n <-> d ∈ deps n /\ unresolved w d.
Proof. unfold pending. rewrite list_elem_of_filter. tauto. Qed.

Lemma pending_ext w w' n :
  (forall d, d ∈ deps n -> unresolved w' d <-> unresolved w d) -> pending w' n = pending w n.
Proof.
  unfold pending. generalize (deps n) as l. induction l as [|d l IH]; intros H; [done|].
  rewrite !filter_cons. rewrite IH by (intros; apply H; by right).
  destruct (decide (unresolved w d)) as [Hd|Hd].
  - by rewrite decide_True by by apply H; [left|].
  - rewrite decide_False; [done|]. by intros ?%H; [|left].
Qed.

(** * The invariant

    [ex] are the nodes in the middle of a step, [oc] the origins whose dependents are
    being woken. *)
Record good (w : worker) (ex oc : Node -> Prop) : Prop := {
  g_init m s : state_ w !! m = Some s -> kind s <> Uninitialized;
  g_nodup : NoDup (worklist_ w);
  g_work m : ~ ex m -> m ∈ worklist_ w <-> kind_of w m = Active;
  g_blocked m s : ~ ex m -> state_ w !! m = Some s -> kind s = Blocked ->
    custom s = true /\ (1 <= length (pending w m))%nat
    /\ blocked_on_count s = Z.of_nat (length (pending w m)) - 1
    /\ forall d, d ∈ pending w m -> known w d /\ m ∈ dependents_of w d;
  g_dep m d : ~ ex m -> ~ oc d -> m ∈ dependents_of w d ->
    kind_of w m = Blocked /\ d ∈ pending w m;
  g_custom m s : ~ ex m -> state_ w !! m = Some s -> custom s = true ->
    forall d, d ∈ deps m -> known w d;
  g_resolved m : ~ ex m -> kind_of w m = Resolved -> pending w m = [];
  g_active m s : ~ ex m -> state_ w !! m = Some s -> kind s = Active -> custom s = true ->
    pending w m = [];
  g_count m s : state_ w !! m = Some s -> custom s = false -> blocked_on_count s = 0
}.

Definition none (n : Node) : Prop := False.
Lemma not_none n : ~ none n.
Proof. by intros []. Qed.

(** ** Updates of one node *)

Lemma update_lookup (w : worker) n f m :
  state_ (update w n f) !! m = if decide (n = m) then f <$> state_ w !! m else state_ w !! m.
Proof.
  cbn. case_decide as E; [subst; apply lookup_alter_eq|by apply lookup_alter_ne].
Qed.

Lemma state_some (w : worker) n s : state_ w !! n = Some s -> state w n = Returns s.
Proof. intros H. unfold state. by rewrite H. Qed.

(** * Adding a node *)

Lemma add_known (w : worker) n s :
  state_ w !! n = Some s -> kind s <> Uninitialized -> add false example_seed w n = w.
Proof.
  intros Hs Hk. unfold add. rewrite Hs. cbn [default]. rewrite bool_decide_eq_true_2 by done.
  destruct w; cbn in *. by rewrite insert_id.
Qed.

Lemma add_new (w : worker) n :
  state_ w !! n = None ->
  add false example_seed w n
  = mkWorker (<[n := mkState Active 0 ∅ false]> (state_ w)) (worklist_ w ++ [n]) (work_ w).
Proof. intros Hs. unfold add. by rewrite Hs. Qed.

Lemma add_unresolved (w : worker) ex oc n d :
  good w ex oc -> unresolved (add false example_seed w n) d <-> unresolved w d.
Proof.
  intros Hg. destruct (state_ w !! n) as [s|] eqn:E.
  { rewrite (add_known w n s E); [done|]. by eapply g_init. }
  rewrite add_new by done. unfold unresolved, kind_of. cbn.
  destruct (decide (n = d)) as [<-|Hne].
  - rewrite lookup_insert_eq, E. done.
  - by rewrite lookup_insert_ne.
Qed.

Lemma add_good (w : worker) ex oc n :
  good w ex oc -> ~ ex n -> (forall m, ex m -> known w m) ->
  good (add false example_seed w n) ex oc /\ known (add false example_seed w n) n
  /\ (forall m, m <> n \/ known w n -> state_ (add false example_seed w n) !! m = state_ w !! m)
  /\ (state_ w !! n = None ->
        state_ (add false example_seed w n) !! n = Some (mkState Active 0 ∅ false)
        /\ worklist_ (add false example_seed w n) = worklist_ w ++ [n])
  /\ (known w n -> add false example_seed w n = w).
Proof.
  intros Hg Hn Hex. pose proof (fun d => add_unresolved w ex oc n d Hg) as Hu.
  destruct (state_ w !! n) as [s|] eqn:E.
  { assert (Ea : add false example_seed w n = w).
    { apply (add_known w n s E). by eapply g_init. }
    rewrite Ea. split; [done|]. split; [unfold known; rewrite E; by eexists|]. done. }
  assert (Hp : forall m, pending (add false example_seed w n) m = pending w m).
  { intros m. apply pending_ext. intros d _. apply Hu. }
  rewrite add_new in * by done.
  set (w' := mkWorker _ _ _) in *.
  assert (Hl : forall m, m <> n -> state_ w' !! m = state_ w !! m).
  { intros m Hm. cbn. by rewrite lookup_insert_ne. }
  assert (Hnew : state_ w' !! n = Some (mkState Active 0 ∅ false)) by (cbn; by rewrite lookup_insert_eq).
  assert (Hk : forall m, m <> n -> kind_of w' m = kind_of w m).
  { intros m Hm. unfold kind_of. by rewrite Hl. }
  assert (Hkn : kind_of w' n = Active) by (unfold kind_of; by rewrite Hnew).
  assert (Hd : forall m, dependents_of w' m = dependents_of w m).
  { intros m. unfold dependents_of. destruct (decide (m = n)) as [->|Hm].
    - by rewrite Hnew, E.
    - by rewrite Hl. }
  assert (Hkw : forall m, known w m -> known w' m).
  { intros m [x Hx]. unfold known. destruct (decide (m = n)) as [->|Hm]; [by rewrite Hnew|].
    rewrite Hl by done. by exists x. }
  split; [|split; [unfold known; rewrite Hnew; by eexists|split; [|split; [done|by intros [? ?]; congruence]]]].
  2: { intros m [Hm|[x Hx]]; [by apply Hl|congruence]. }
  split.
  - intros m x. destruct (decide (m = n)) as [->|Hm]; [rewrite Hnew; by intros [= <-]|].
    rewrite Hl by done. by eapply g_init.
  - cbn. apply NoDup_app. split; [by eapply g_nodup|]. split; [|apply NoDup_singleton].
    intros m Hm ->%list_elem_of_singleton. apply (g_work _ _ _ Hg n Hn) in Hm.
    unfold kind_of in Hm. by rewrite E in Hm.
  - intros m Hm. cbn [worklist_ w']. rewrite elem_of_app, list_elem_of_singleton.
    destruct (decide (m = n)) as [->|Hne].
    + rewrite Hkn. tauto.
    + rewrite Hk by done. rewrite (g_work _ _ _ Hg m Hm). tauto.
  - intros m x Hm. destruct (decide (m = n)) as [->|Hne]; [rewrite Hnew; by intros [= <-]|].
    rewrite Hl, Hp by done. intros Hx Hb.
    destruct (g_blocked _ _ _ Hg m x Hm Hx Hb) as (? & ? & ? & Hall).
    split_and!; [done..|]. intros d Hdd. rewrite Hd. destruct (Hall d Hdd). auto.
  - intros m d Hm Ho. rewrite Hd, Hp. intros Hmd.
    destruct (g_dep _ _ _ Hg m d Hm Ho Hmd) as [Hkb Hpd]. split; [|done].
    rewrite Hk; [done|]. intros ->. unfold kind_of in Hkb. by rewrite E in Hkb.
  - intros m x Hm. destruct (decide (m = n)) as [->|Hne]; [rewrite Hnew; by intros [= <-]|].
    rewrite Hl by done. intros Hx Hc d Hdd. apply Hkw. by eapply g_custom.
  - intros m Hm. rewrite Hp. destruct (decide (m = n)) as [->|Hne]; [by rewrite Hkn|].
    rewrite Hk by done. by eapply g_resolved.
  - intros m x Hm. rewrite Hp. destruct (decide (m = n)) as [->|Hne]; [rewrite Hnew; by intros [= <-]|].
    rewrite Hl by done. by eapply g_active.
  - intros m x. destruct (decide (m = n)) as [->|Hne]; [rewrite Hnew; by intros [= <-]|].
    rewrite Hl by done. by eapply g_count.
Qed.

(** * Blocking on the prerequisites *)

(** What the invariant reads of a node that is not in the middle of a step. *)
Definition view_of (w : worker) (m : Node) : option (WorkerStatus * bool * Z) :=
  (fun s => (kind s, custom s, blocked_on_count s)) <$> state_ w !! m.

Lemma view_of_known w w' m : view_of w' m = view_of w m -> known w m -> known w' m.
Proof.
  unfold view_of, known. intros E H. apply (fmap_is_Some (fun s => (kind s, custom s, blocked_on_count s))).
  rewrite E. by apply fmap_is_Some.
Qed.

Lemma view_of_state w w' m s : view_of w' m = view_of w m -> state_ w' !! m = Some s ->
  exists s0, state_ w !! m = Some s0 /\ kind s0 = kind s /\ custom s0 = custom s
    /\ blocked_on_count s0 = blocked_on_count s.
Proof.
  unfold view_of. intros E H. rewrite H in E. destruct (state_ w !! m) as [s0|]; [|done].
  injection E as -> -> ->. by exists s0.
Qed.

Lemma view_of_kind w w' m : view_of w' m = view_of w m -> kind_of w' m = kind_of w m.
Proof.
  unfold view_of, kind_of. destruct (state_ w' !! m), (state_ w !! m); cbn; congruence.
Qed.

Lemma good_frame w w' (ex oc : Node -> Prop) :
  good w ex oc -> worklist_ w' = worklist_ w ->
  (forall m, ~ ex m -> view_of w' m = view_of w m) ->
  (forall m, ex m -> unresolved w' m <-> unresolved w m) ->
  (forall m, ex m -> known w m -> known w' m) ->
  (forall m s, ex m -> state_ w' !! m = Some s ->
     kind s <> Uninitialized /\ (custom s = false -> blocked_on_count s = 0)) ->
  (forall m d, ~ ex m -> m ∈ dependents_of w' d <-> m ∈ dependents_of w d) ->
  (forall m, ex m \/ ~ ex m) ->
  good w' ex oc.
Proof.
  intros Hg Hwl Hv Hu Hkn Hx Hd Hem.
  assert (Hu' : forall m, unresolved w' m <-> unresolved w m).
  { intros m. destruct (Hem m) as [H|H]; [by apply Hu|].
    unfold unresolved. by rewrite (view_of_kind w w') by by apply Hv. }
  assert (Hp : forall m, pending w' m = pending w m) by (intros m; by apply pending_ext).
  assert (Hk : forall m, known w m -> known w' m).
  { intros m. destruct (Hem m) as [H|H]; [by apply Hkn|]. by apply view_of_known, Hv. }
  split.
  - intros m s Hs. destruct (Hem m) as [H|H]; [by apply (Hx m s)|].
    destruct (view_of_state _ _ _ _ (Hv m H) Hs) as (s0 & H0 & <- & _). by eapply g_init.
  - rewrite Hwl. by eapply g_nodup.
  - intros m H. rewrite Hwl, (view_of_kind w w') by by apply Hv. by apply (g_work _ _ _ Hg).
  - intros m s H Hs Hb. destruct (view_of_state _ _ _ _ (Hv m H) Hs) as (s0 & H0 & Ek & Ec & En).
    rewrite <-Ec, <-En, Hp. rewrite <-Ek in Hb.
    destruct (g_blocked _ _ _ Hg m s0 H H0 Hb) as (? & ? & ? & Hall).
    split_and!; [done..|]. intros d Hdd. rewrite Hd by done. destruct (Hall d Hdd). auto.
  - intros m d H Ho. rewrite Hd, Hp by done. rewrite (view_of_kind w w') by by apply Hv.
    by apply (g_dep _ _ _ Hg).
  - intros m s H Hs Hc d Hdd. destruct (view_of_state _ _ _ _ (Hv m H) Hs) as (s0 & H0 & Ek & Ec & En).
    apply Hk. apply (g_custom _ _ _ Hg m s0); congruence.
  - intros m H. rewrite Hp, (view_of_kind w w') by by apply Hv. by apply (g_resolved _ _ _ Hg).
  - intros m s H Hs Hka Hc. destruct (view_of_state _ _ _ _ (Hv m H) Hs) as (s0 & H0 & Ek & Ec & En).
    rewrite Hp. apply (g_active _ _ _ Hg m s0); congruence.
  - intros m s Hs. destruct (Hem m) as [H|H]; [by apply (Hx m s)|].
    destruct (view_of_state _ _ _ _ (Hv m H) Hs) as (s0 & H0 & _ & <- & <-). by eapply g_count.
Qed.

(** How far a node is from being resolved: at most two turns. *)
Definition weight (w : worker) (m : Node) : nat :=
  match state_ w !! m with
  | None => 2%nat
  | Some s =>
      if bool_decide (kind s = Resolved) then 0%nat
      else if (custom s : bool) then 1%nat else 2%nat
  end.

(** Node [n] in the middle of [block_on_all], after the origins [seen]. *)
Record mid (w : worker) (n : Node) (seen : list Node) : Prop := {
  mid_good : good w (eq n) none;
  mid_state : exists s, state_ w !! n = Some s /\ custom s = false /\ blocked_on_count s = 0
    /\ kind s = if decide (filter (unresolved w) seen = []) then Active else Blocked;
  mid_work : n ∉ worklist_ w;
  mid_known d : d ∈ seen -> known w d;
  mid_deps d : n ∈ dependents_of w d <-> d ∈ seen /\ unresolved w d
}.

Lemma filter_unresolved_ext w w' (l : list Node) :
  (forall d, unresolved w' d <-> unresolved w d) ->
  filter (unresolved w') l = filter (unresolved w) l.
Proof. intros H. by apply list_filter_iff. Qed.

Lemma block_on_mid w n seen o :
  mid w n seen -> o ∉ seen -> o <> n ->
  exists w', block_on false example_seed w n o = Returns (bool_decide (unresolved w o), w')
    /\ mid w' n (seen ++ [o])
    /\ (forall d, unresolved w' d <-> unresolved w d)
    /\ (forall m, known w m -> known w' m)
    /\ (forall m, weight w' m = weight w m)
    /\ (forall m, known w' m -> known w m \/ m = o).
Proof.
  intros [Hg (s & Hs & Hc & Hz & Hk) Hw Hkn Hd] Ho Hne.
  assert (Hkw : known w n) by (by exists s).
  destruct (add_good w (eq n) none o Hg) as (Hg1 & Ho1 & Hl1 & Hn1 & _); [congruence|by intros ? <-|].
  pose proof (fun d => add_unresolved w (eq n) none o d Hg) as Hu1.
  unfold block_on. set (w1 := add false example_seed w o) in *.
  assert (Hs1 : state_ w1 !! n = Some s) by (rewrite Hl1; [done|by left]).
  assert (Hd1 : forall m, dependents_of w1 m = dependents_of w m).
  { intros m. unfold dependents_of. destruct (decide (m = o)) as [->|Hm]; [|by rewrite Hl1 by by left].
    destruct (state_ w !! o) as [x|] eqn:E.
    - rewrite Hl1, E; [done|]. right. by exists x.
    - by destruct (Hn1 eq_refl) as [-> _]. }
  assert (Hk1 : forall m, known w m -> known w1 m).
  { intros m Hm. unfold known. rewrite Hl1; [done|]. destruct (decide (m = o)) as [->|]; auto. }
  assert (Hkn1 : forall m, known w1 m -> known w m \/ m = o).
  { intros m [x Hx]. destruct (decide (m = o)) as [|Hm]; [by right|left].
    rewrite Hl1 in Hx by by left. by exists x. }
  assert (Hwt1 : forall m, weight w1 m = weight w m).
  { intros m. unfold weight. destruct (decide (m = o)) as [->|Hm]; [|by rewrite Hl1 by by left].
    destruct (state_ w !! o) as [x|] eqn:E.
    - rewrite Hl1, E; [done|]. right. by exists x.
    - by destruct (Hn1 eq_refl) as [-> _]. }
  assert (Hw1 : n ∉ worklist_ w1).
  { destruct (state_ w !! o) as [x|] eqn:E.
    - unfold w1. rewrite (add_known w o x E); [done|]. exact (g_init _ _ _ Hg o x E).
    - destruct (Hn1 eq_refl) as [_ ->]. rewrite elem_of_app, list_elem_of_singleton.
      intros [?|?]; congruence. }
  destruct Ho1 as [so Hso].
  assert (Hres : is_resolved w1 o = bool_decide (kind_of w1 o = Resolved)).
  { unfold is_resolved, kind_of. by rewrite Hso. }
  rewrite Hres. destruct (decide (kind_of w1 o = Resolved)) as [Er|Er].
  - rewrite (bool_decide_eq_true_2 _ Er). exists w1. split_and!; [|split| | | |]; try done.
    + rewrite bool_decide_eq_false_2; [done|]. intros H%Hu1. by apply H.
    + exists s. split_and!; try done. rewrite filter_app, (filter_unresolved_ext w w1) by done.
      rewrite filter_cons_False, filter_nil, app_nil_r; [done|]. intros H. by apply H.
    + intros d [?| ->%list_elem_of_singleton]%elem_of_app; [by apply Hk1, Hkn|by exists so].
    + intros d. rewrite Hd1, Hd, Hu1, elem_of_app, list_elem_of_singleton. split; [tauto|].
      intros [[?| ->] Hu]; [done|]. apply Hu1 in Hu. by destruct Hu.
  - rewrite (bool_decide_eq_false_2 _ Er). rewrite (state_some w1 o so Hso). cbn [mbind outcome_bind].
    set (w2 := update w1 o _).
    assert (Hl2 : forall m, state_ w2 !! m = if decide (o = m) then
      Some (with_dependents ({[n]} ∪ dependents so) so) else state_ w1 !! m).
    { intros m. unfold w2. rewrite update_lookup.
      destruct (decide (o = m)) as [<-|]; [by rewrite Hso|done]. }
    rewrite (state_some w2 n s) by (by rewrite Hl2, decide_False). cbn [mbind outcome_bind].
    set (w3 := update w2 n _).
    assert (Hl3 : forall m, state_ w3 !! m = if decide (n = m) then Some (with_kind Blocked s)
      else if decide (o = m) then Some (with_dependents ({[n]} ∪ dependents so) so)
      else state_ w1 !! m).
    { intros m. unfold w3. rewrite update_lookup, Hl2. destruct (decide (n = m)) as [<-|]; [|done].
      rewrite decide_False, Hs1 by done. done. }
    assert (Hnr : kind s <> Resolved) by (rewrite Hk; by case_decide).
    assert (Hu3 : forall m, unresolved w3 m <-> unresolved w1 m).
    { intros m. unfold unresolved, kind_of. rewrite Hl3.
      destruct (decide (n = m)) as [<-|]; [rewrite Hs1; by split|].
      destruct (decide (o = m)) as [<-|]; [by rewrite Hso|done]. }
    assert (Hd3 : forall m d, m ∈ dependents_of w3 d
      <-> m ∈ dependents_of w d \/ (m = n /\ d = o)).
    { intros m d. rewrite <-(Hd1 d). unfold dependents_of. rewrite Hl3.
      destruct (decide (n = d)) as [<-|]; [rewrite Hs1; cbn; intuition congruence|].
      destruct (decide (o = d)) as [<-|]; [|intuition congruence].
      rewrite Hso. cbn. rewrite elem_of_union, elem_of_singleton. intuition. }
    exists w3. split_and!.
    + rewrite bool_decide_eq_true_2; [done|]. by apply Hu1.
    + split.
      * apply (good_frame w1); [done|done| | | | |..].
        -- intros m Hm. unfold view_of. rewrite Hl3, decide_False by done.
           destruct (decide (o = m)) as [<-|]; [by rewrite Hso|done].
        -- intros m <-. apply Hu3.
        -- intros m <- _. unfold known. rewrite Hl3, decide_True by done. by eexists.
        -- intros m x <-. rewrite Hl3, decide_True by done. intros [= <-]. by split.
        -- intros m d Hm. rewrite Hd3, Hd1. intuition congruence.
        -- intros m. destruct (decide (n = m)); auto.
      * exists (with_kind Blocked s). rewrite Hl3, decide_True by done. split_and!; try done.
        rewrite decide_False; [done|]. rewrite filter_app. intros [_ E]%app_eq_nil.
        rewrite filter_cons_True in E; [done|]. by apply Hu3.
      * done.
      * intros d Hdd. unfold known. rewrite Hl3.
        destruct (decide (n = d)); [by eexists|]. destruct (decide (o = d)); [by eexists|].
        apply elem_of_app in Hdd as [?|?%list_elem_of_singleton]; [by apply Hk1, Hkn|congruence].
      * intros d. rewrite Hd3, Hd, Hu3, Hu1, elem_of_app, list_elem_of_singleton. split.
        -- intros [[? ?]|[_ ->]]; [tauto|]. split; [by right|]. by apply Hu1.
        -- intros [[?|?] ?]; tauto.
    + intros d. by rewrite Hu3.
    + intros m Hm%Hk1. unfold known. rewrite Hl3.
      destruct (decide (n = m)); [by eexists|]. by destruct (decide (o = m)); [eexists|].
    + intros m. rewrite <-Hwt1. unfold weight. rewrite Hl3.
      destruct (decide (n = m)) as [<-|].
      * rewrite Hs1. cbn. by rewrite !bool_decide_eq_false_2 by done.
      * by destruct (decide (o = m)) as [<-|]; [rewrite Hso|].
    + intros m. unfold known at 1. rewrite Hl3.
      destruct (decide (n = m)) as [<-|]; [by left|].
      destruct (decide (o = m)) as [<-|]; [by right|]. apply Hkn1.
Qed.

(** [count++] for every origin that is not resolved *)
Definition count_unresolved (w : worker) (count : Z) (os : list Node) : Z :=
  foldl (fun c o => if bool_decide (unresolved w o) then u64 (c + 1) else c) count os.

Lemma fold_count_ext w w' os :
  (forall d, unresolved w' d <-> unresolved w d) ->
  forall c, count_unresolved w' c os = count_unresolved w c os.
Proof.
  intros H. unfold count_unresolved. induction os as [|o os IH]; intros c; [done|]. cbn.
  by rewrite (bool_decide_ext _ _ (H o)), IH.
Qed.

Lemma block_on_each_mid n os : forall w seen count,
  mid w n seen -> NoDup (seen ++ os) -> n ∉ os ->
  exists w', block_on_each false example_seed w n os count
      = Returns (count_unresolved w count os, w')
    /\ mid w' n (seen ++ os)
    /\ (forall d, unresolved w' d <-> unresolved w d)
    /\ (forall m, known w m -> known w' m)
    /\ (forall m, weight w' m = weight w m)
    /\ (forall m, known w' m -> known w m \/ m ∈ os).
Proof.
  induction os as [|o os IH]; intros w seen count Hm Hnd Hn.
  { exists w. rewrite app_nil_r. split_and!; try done. by left. }
  apply not_elem_of_cons in Hn as [Hno Hn].
  pose proof Hnd as (_ & Hdis & _)%NoDup_app.
  destruct (block_on_mid w n seen o) as (w1 & E1 & M1 & U1 & K1 & W1 & N1); [done| |congruence|].
  { intros Hin. apply (Hdis o Hin). by left. }
  rewrite cons_middle, app_assoc in Hnd.
  destruct (IH w1 (seen ++ [o]) (if bool_decide (unresolved w o) then u64 (count + 1) else count) M1 Hnd Hn)
    as (w2 & E2 & M2 & U2 & K2 & W2 & N2).
  exists w2. cbn [block_on_each]. rewrite E1. cbn [mbind outcome_bind]. rewrite E2.
  rewrite <-app_assoc in M2. split_and!; [|done|..].
  - unfold count_unresolved. cbn [foldl]. do 2 f_equal. by apply fold_count_ext.
  - intros d. by rewrite U2.
  - auto.
  - intros m. by rewrite W2.
  - intros m [[?| ->]%N1|?]%N2; [by left|right; by left|right; by right].
Qed.

Lemma count_pending w os : forall c, 0 <= c -> c + Z.of_nat (length os) < 2 ^ 64 ->
  count_unresolved w c os
  = c + Z.of_nat (length (filter (unresolved w) os)).
Proof.
  unfold count_unresolved. induction os as [|o os IH]; intros c Hc Hl; cbn [foldl length] in *; [by rewrite filter_nil, Z.add_0_r|].
  rewrite filter_cons. case_bool_decide as E.
  - rewrite decide_True by done. rewrite u64_id by lia. rewrite IH by lia. cbn [length]. lia.
  - rewrite decide_False by done. apply IH; lia.
Qed.

(** [block_on_all] on the prerequisites of a node whose turn it is. *)
Lemma block_on_all_spec w n :
  mid w n [] ->
  exists b w', block_on_all false example_seed w n (deps n) = Returns (b, w')
    /\ (forall d, unresolved w' d <-> unresolved w d)
    /\ (forall m, known w m -> known w' m)
    /\ (forall m, weight w' m = weight w m)
    /\ (forall d, d ∈ deps n -> known w' d)
    /\ (forall m, known w' m -> known w m \/ m ∈ deps n)
    /\ if (b : bool) then good (update w' n (with_custom true)) none none /\ state_ w' !! n <> None
       else pending w n = [] /\ mid w' n (deps n).
Proof.
  intros Hm. destruct (block_on_each_mid n (deps n) w [] 0 Hm (Hnodup n) (Hirrefl n))
    as (w1 & E & M & U & K & W & N).
  cbn [app] in M. unfold block_on_all. rewrite E. cbn [mbind outcome_bind].
  pose proof (Hsmall n) as Hs. rewrite count_pending by lia. rewrite Z.add_0_l.
  fold (pending w n).
  assert (Hle : (length (pending w n) <= length (deps n))%nat) by apply length_filter.
  assert (Hp1 : pending w1 n = pending w n) by (apply pending_ext; auto).
  destruct (Z.eqb_spec (Z.of_nat (length (pending w n))) 0) as [Ez|Ez].
  - exists false, w1. split_and!; try done; [by apply M|]. apply nil_length_inv. lia.
  - destruct M as [Hg (s & Hst & Hc & Hz & Hk) Hwl Hkn Hd].
    rewrite (state_some w1 n s Hst). cbn [mbind outcome_bind]. rewrite Hz. cbn [Z.eqb].
    rewrite u64_id by lia. set (w2 := update w1 n _). exists true, w2.
    assert (Hl2 : forall m, state_ w2 !! m = if decide (n = m) then
      Some (with_count (Z.of_nat (length (pending w n)) - 1) s) else state_ w1 !! m).
    { intros m. unfold w2. rewrite update_lookup.
      destruct (decide (n = m)) as [<-|]; [by rewrite Hst|done]. }
    assert (Hkb : kind s = Blocked).
    { rewrite Hk. rewrite decide_False; [done|]. fold (pending w1 n). rewrite Hp1.
      intros H. by rewrite H in Ez. }
    assert (U2 : forall d, unresolved w2 d <-> unresolved w1 d).
    { intros d. unfold unresolved, kind_of. rewrite Hl2.
      destruct (decide (n = d)) as [<-|]; [by rewrite Hst|done]. }
    assert (K2 : forall m, known w1 m -> known w2 m).
    { intros m. unfold known. rewrite Hl2. by destruct (decide (n = m)); [eexists|]. }
    split_and!; [done|..].
    + intros d. by rewrite U2.
    + auto.
    + intros m. rewrite <-W. unfold weight. rewrite Hl2.
      by destruct (decide (n = m)) as [<-|]; [rewrite Hst|].
    + intros d Hdd. apply K2. by apply Hkn.
    + intros m Hm'. apply N. revert Hm'. unfold known. rewrite Hl2.
      destruct (decide (n = m)) as [<-|]; [|done]. rewrite Hst. intros _. by eexists.
    + set (w3 := update w2 n _).
      assert (Hl3 : forall m, state_ w3 !! m = if decide (n = m) then
        Some (mkState Blocked (Z.of_nat (length (pending w n)) - 1) (dependents s) true)
        else state_ w1 !! m).
      { intros m. unfold w3. rewrite update_lookup, Hl2.
        destruct (decide (n = m)) as [<-|]; [|done]. cbn. unfold with_custom, with_count. cbn.
        by rewrite Hkb. }
      assert (Hgf : good w3 (eq n) none).
      { apply (good_frame w1); [done|done|..].
        - intros m Hm'. unfold view_of. by rewrite Hl3, decide_False.
        - intros m <-. unfold unresolved, kind_of. rewrite Hl3, decide_True, Hst, Hkb by done. done.
        - intros m <- _. unfold known. rewrite Hl3, decide_True by done. by eexists.
        - intros m x <-. rewrite Hl3, decide_True by done. by intros [= <-].
        - intros m d Hm'. unfold dependents_of. rewrite Hl3.
          by destruct (decide (n = d)) as [<-|]; [rewrite Hst|].
        - intros m. destruct (decide (n = m)); auto. }
      assert (U3 : forall d, unresolved w3 d <-> unresolved w d).
      { intros d. rewrite <-U. unfold unresolved, kind_of. rewrite Hl3.
        destruct (decide (n = d)) as [<-|]; [by rewrite Hst, Hkb|done]. }
      assert (Hp3 : pending w3 n = pending w n) by (apply pending_ext; auto).
      assert (Hd3 : forall d, dependents_of w3 d = dependents_of w1 d).
      { intros d. unfold dependents_of. rewrite Hl3.
        by destruct (decide (n = d)) as [<-|]; [rewrite Hst|]. }
      assert (Hkn3 : kind_of w3 n = Blocked) by (unfold kind_of; by rewrite Hl3, decide_True).
      assert (K3 : forall d, known w1 d -> known w3 d).
      { intros d. unfold known. rewrite Hl3. by destruct (decide (n = d)); [eexists|]. }
      assert (Hst3 : forall x, state_ w3 !! n = Some x ->
        x = mkState Blocked (Z.of_nat (length (pending w n)) - 1) (dependents s) true).
      { intros x. rewrite Hl3, decide_True by done. by intros [= <-]. }
      destruct Hgf as [G1 G2 G3 G4 G5 G6 G7 G8 G9]. split; try done.
      * intros m _. destruct (decide (n = m)) as [<-|Hne]; [|by apply G3]. rewrite Hkn3.
        by split; [intros ?|done].
      * intros m x _ Hx. destruct (decide (n = m)) as [<-|Hne]; [|by apply G4].
        apply Hst3 in Hx as ->. cbn. intros _. rewrite Hp3. split_and!; [done|lia|done|].
        intros d [Hdd Hud]%elem_of_pending. split; [by apply K3, Hkn|].
        rewrite Hd3. apply Hd. split; [done|by apply U].
      * intros m d _ Ho. destruct (decide (n = m)) as [<-|Hne]; [|by apply G5].
        rewrite Hd3, Hd. intros [Hdd Hud]. split; [done|]. apply elem_of_pending.
        split; [done|]. apply U3. by apply U.
      * intros m x _ Hx. destruct (decide (n = m)) as [<-|Hne]; [|by apply (G6 m x)].
        intros _ d Hdd. by apply K3, Hkn.
      * intros m _. destruct (decide (n = m)) as [<-|Hne]; [by rewrite Hkn3|by apply G7].
      * intros m x _ Hx. destruct (decide (n = m)) as [<-|Hne]; [|by apply (G8 m x)].
        by apply Hst3 in Hx as ->.
    + rewrite Hl2, decide_True by done. done.
Qed.

(** * Waking the dependents of a resolved node *)

(** [n] has just been resolved and the dependents [ws] are still to be woken. *)
Record waking (w : worker) (n : Node) (ws : list Node) : Prop := {
  wk_good : good w (fun m => m ∈ ws) (eq n);
  wk_nodup : NoDup ws;
  wk_notin : n ∉ ws;
  wk_node : kind_of w n = Resolved;
  wk_waiting x : x ∈ ws -> exists s, state_ w !! x = Some s /\ kind s = Blocked
    /\ custom s = true /\ blocked_on_count s = Z.of_nat (length (pending w x))
    /\ (x ∉ worklist_ w)
    /\ (forall d, d ∈ deps x -> known w d)
    /\ (forall d, d ∈ pending w x -> x ∈ dependents_of w d)
    /\ (forall d, x ∈ dependents_of w d -> d <> n -> d ∈ pending w x)
}.

(** An update of a node that keeps its dependents, and leaves it unresolved. *)
Lemma update_facts w x s f wl :
  state_ w !! x = Some s -> dependents (f s) = dependents s -> kind s <> Resolved ->
  kind (f s) <> Resolved ->
  let w' := mkWorker (state_ (update w x f)) wl (work_ w) in
  (forall m, m <> x -> state_ w' !! m = state_ w !! m) /\ state_ w' !! x = Some (f s)
  /\ (forall m, kind_of w' m = if decide (m = x) then kind (f s) else kind_of w m)
  /\ (forall m, dependents_of w' m = dependents_of w m)
  /\ (forall m, pending w' m = pending w m) /\ (forall m, known w m <-> known w' m).
Proof.
  intros Hs Hd Hk Hk' w'.
  assert (Hl : forall m, state_ w' !! m = if decide (x = m) then Some (f s) else state_ w !! m).
  { intros m. change (state_ w' !! m) with (state_ (update w x f) !! m). rewrite update_lookup.
    by destruct (decide (x = m)) as [<-|]; [rewrite Hs|]. }
  assert (Hkind : forall m, kind_of w' m = if decide (m = x) then kind (f s) else kind_of w m).
  { intros m. unfold kind_of. rewrite Hl. destruct (decide (x = m)) as [<-|].
    - by rewrite decide_True.
    - by rewrite decide_False by congruence. }
  split_and!.
  - intros m Hm. by rewrite Hl, decide_False.
  - by rewrite Hl, decide_True.
  - done.
  - intros m. unfold dependents_of. rewrite Hl. by destruct (decide (x = m)) as [<-|]; [rewrite Hs|].
  - intros m. apply pending_ext. intros d _. unfold unresolved. rewrite Hkind.
    destruct (decide (d = x)) as [->|]; [|done].
    assert (kind_of w x = kind s) as -> by (unfold kind_of; by rewrite Hs). tauto.
  - intros m. unfold known. rewrite Hl. destruct (decide (x = m)) as [<-|]; [|done].
    rewrite Hs. split; by eexists.
Qed.

Lemma unblock_step w n x ws :
  waking w n (x :: ws) ->
  exists w', unblock w x = Returns w' /\ waking w' n ws
    /\ (forall m, known w m <-> known w' m) /\ (forall m, weight w' m = weight w m).
Proof.
  intros [Hg Hnd Hnn Hnr Hw]. apply NoDup_cons in Hnd as [Hx Hnd].
  apply not_elem_of_cons in Hnn as [Hnx Hnn].
  destruct (Hw x (list_elem_of_here x ws)) as (s & Hs & Hk & Hc & Hcount & Hxw & Hkn & Hdp & Hpd).
  unfold unblock. rewrite (state_some w x s Hs). cbn [mbind outcome_bind].
  rewrite bool_decide_eq_false_2 by (intros H; by apply H).
  set (wake := negb (0 <? blocked_on_count s)).
  set (f := if wake then with_kind Active else with_count (blocked_on_count s - 1) (S := bool)).
  set (wl := if wake then worklist_ w ++ [x] else worklist_ w).
  assert (Hf : dependents (f s) = dependents s /\ kind (f s) = (if wake then Active else Blocked)
    /\ custom (f s) = true
    /\ blocked_on_count (f s) = (if wake then blocked_on_count s else blocked_on_count s - 1)).
  { unfold f. destruct wake; cbn; auto. }
  destruct Hf as (Hf1 & Hf2 & Hf3 & Hf4).
  destruct (update_facts w x s f wl Hs Hf1) as (L1 & L2 & K & D & P & N).
  { by rewrite Hk. } { rewrite Hf2. by destruct wake. }
  set (w' := mkWorker (state_ (update w x f)) wl (work_ w)) in *.
  exists w'. split; [|split; [|split; [done|]]].
  - unfold w', wl, f, wake. destruct (0 <? blocked_on_count s); done.
  - assert (Hpz : wake = true -> pending w x = []).
    { unfold wake. intros E%negb_true_iff%Z.ltb_ge. apply nil_length_inv. lia. }
    assert (Hpp : wake = false -> (1 <= length (pending w x))%nat).
    { unfold wake. intros E%negb_false_iff%Z.ltb_lt. lia. }
    assert (Hkx : kind_of w' x = if wake then Active else Blocked) by (by rewrite K, decide_True).
    assert (Hko : forall m, m <> x -> kind_of w' m = kind_of w m) by (intros m Hm; by rewrite K, decide_False).
    assert (Hin : forall m, m ∉ ws -> m <> x -> m ∉ x :: ws).
    { intros m Hm Hmx. by apply not_elem_of_cons. }
    destruct Hg as [G1 G2 G3 G4 G5 G6 G7 G8 G9]. split; [split| | | |].
    + intros m y Hy. destruct (decide (m = x)) as [->|Hm].
      * rewrite L2 in Hy. injection Hy as <-. rewrite Hf2. by destruct wake.
      * rewrite L1 in Hy by done. by apply (G1 m).
    + cbn. unfold wl. destruct wake; [|done]. apply NoDup_app.
      split; [done|]. split; [|apply NoDup_singleton]. by intros m Hm ->%list_elem_of_singleton.
    + intros m Hm. cbn [worklist_ w']. destruct (decide (m = x)) as [->|Hmx].
      * rewrite Hkx. unfold wl. destruct wake; [|by split].
        rewrite elem_of_app, list_elem_of_singleton. tauto.
      * rewrite Hko, <-(G3 m) by auto. unfold wl. destruct wake; [|done].
        rewrite elem_of_app, list_elem_of_singleton. tauto.
    + intros m y Hm Hy Hb. rewrite P. destruct (decide (m = x)) as [->|Hmx].
      * rewrite L2 in Hy. injection Hy as <-. rewrite Hf2 in Hb. rewrite Hf3, Hf4.
        destruct wake eqn:Ew; [done|]. split_and!; [done|auto|lia|].
        intros d Hd. rewrite D. split; [|by apply Hdp]. apply N, Hkn. by apply elem_of_pending in Hd as [? _].
      * rewrite L1 in Hy by done. destruct (G4 m y (Hin m Hm Hmx) Hy Hb) as (? & ? & ? & Hall).
        split_and!; [done..|]. intros d Hd. rewrite D, <-N. auto.
    + intros m d Hm Hd. rewrite D, P. destruct (decide (m = x)) as [->|Hmx].
      * intros Hxd. pose proof (Hpd d Hxd ltac:(congruence)) as Hin'. split; [|done].
        rewrite Hkx. destruct wake eqn:Ew; [|done]. rewrite Hpz in Hin' by done.
        by apply elem_of_nil in Hin'.
      * rewrite Hko by done. apply G5; auto.
    + intros m y Hm Hy Hcy d Hd. apply N. destruct (decide (m = x)) as [->|Hmx]; [by apply Hkn|].
      rewrite L1 in Hy by done. apply (G6 m y); auto.
    + intros m Hm. rewrite P. destruct (decide (m = x)) as [->|Hmx]; [by rewrite Hkx; destruct wake|].
      rewrite Hko by done. apply G7; auto.
    + intros m y Hm Hy. rewrite P. destruct (decide (m = x)) as [->|Hmx].
      * rewrite L2 in Hy. injection Hy as <-. rewrite Hf2. destruct wake; [|done]. auto.
      * rewrite L1 in Hy by done. apply (G8 m y); auto.
    + intros m y Hy. destruct (decide (m = x)) as [->|Hm].
      * rewrite L2 in Hy. injection Hy as <-. by rewrite Hf3.
      * rewrite L1 in Hy by done. by apply (G9 m).
    + done.
    + done.
    + by rewrite Hko.
    + intros y Hy. assert (Hyx : y <> x) by congruence.
      destruct (Hw y) as (t & Ht & ? & ? & ? & Hyw & Hyk & Hyd & Hyp); [by right|].
      exists t. rewrite L1 by done. rewrite P. split_and!; try done.
      * cbn. unfold wl. destruct wake; [|done]. rewrite elem_of_app, list_elem_of_singleton. tauto.
      * intros d Hd. apply N. auto.
      * intros d Hd. rewrite D. auto.
      * intros d. rewrite D. auto.
  - intros m. unfold weight. destruct (decide (m = x)) as [->|Hm]; [|by rewrite L1].
    rewrite L2, Hs, Hf2, Hf3, Hk, Hc. by destruct wake.
Qed.

Lemma unblock_all_waking n ws : forall w, waking w n ws ->
  exists w', unblock_all w ws = Returns w' /\ waking w' n []
    /\ (forall m, known w m <-> known w' m) /\ (forall m, weight w' m = weight w m).
Proof.
  induction ws as [|x ws IH]; intros w H; [by exists w|].
  destruct (unblock_step w n x ws H) as (w1 & E1 & H1 & N1 & W1).
  destruct (IH w1 H1) as (w2 & E2 & H2 & N2 & W2). exists w2. cbn. rewrite E1. cbn.
  split_and!; [done|done|intros m; by rewrite N1|intros m; by rewrite W2].
Qed.

(** ** Resolving a node *)

Lemma resolve_pending w w1 n l :
  NoDup l -> unresolved w n -> ~ unresolved w1 n ->
  (forall m, m <> n -> unresolved w1 m <-> unresolved w m) ->
  length (filter (unresolved w) l)
  = (length (filter (unresolved w1) l) + if decide (n ∈ l) then 1 else 0)%nat.
Proof.
  intros Hnd Hn Hn1 Ho. induction l as [|m l IH]; [done|].
  apply NoDup_cons in Hnd as [Hm Hnd]. specialize (IH Hnd). rewrite !filter_cons.
  destruct (decide (m = n)) as [->|Hmn].
  - rewrite (decide_True _ _ Hn), (decide_False _ _ Hn1). cbn [length]. rewrite IH.
    rewrite (decide_False _ _ Hm), decide_True by by left. lia.
  - assert (Hin : n ∈ m :: l <-> n ∈ l) by (rewrite elem_of_cons; intuition congruence).
    rewrite (decide_ext (n ∈ m :: l) (n ∈ l) 1%nat 0%nat Hin).
    destruct (decide (unresolved w m)) as [E|E].
    + rewrite decide_True by by apply Ho. cbn [length]. lia.
    + rewrite decide_False; [done|]. by intros ?%Ho.
Qed.

(** A node whose prerequisites are resolved and that nobody waits for to be woken. *)
Record ready (w : worker) (n : Node) : Prop := {
  rd_good : good w (eq n) none;
  rd_work : n ∉ worklist_ w;
  rd_state : exists s, state_ w !! n = Some s /\ kind s <> Resolved;
  rd_pending : pending w n = [];
  rd_known d : d ∈ deps n -> known w d;
  rd_waits d : n ∉ dependents_of w d
}.

Lemma resolve_waking w n :
  ready w n ->
  waking (update w n (with_kind Resolved)) n (order (dependents_of w n))
  /\ (forall m, known w m <-> known (update w n (with_kind Resolved)) m)
  /\ (forall m, m <> n -> weight (update w n (with_kind Resolved)) m = weight w m)
  /\ weight (update w n (with_kind Resolved)) n = 0%nat.
Proof.
  intros [Hg Hwl (s & Hs & Hk) Hp Hkn Hwt]. set (w1 := update w n _).
  assert (L : forall m, state_ w1 !! m = if decide (n = m) then Some (with_kind Resolved s) else state_ w !! m).
  { intros m. unfold w1. rewrite update_lookup. by destruct (decide (n = m)) as [<-|]; [rewrite Hs|]. }
  assert (Kn : kind_of w1 n = Resolved) by (unfold kind_of; by rewrite L, decide_True).
  assert (Ko : forall m, m <> n -> kind_of w1 m = kind_of w m).
  { intros m Hm. unfold kind_of. by rewrite L, decide_False by congruence. }
  assert (D : forall m, dependents_of w1 m = dependents_of w m).
  { intros m. unfold dependents_of. rewrite L. by destruct (decide (n = m)) as [<-|]; [rewrite Hs|]. }
  assert (N : forall m, known w m <-> known w1 m).
  { intros m. unfold known. rewrite L. destruct (decide (n = m)) as [<-|]; [|done].
    rewrite Hs. split; by eexists. }
  assert (Hun : unresolved w n) by (unfold unresolved, kind_of; by rewrite Hs).
  assert (Hun1 : ~ unresolved w1 n) by (intros H; by apply H).
  assert (Huo : forall m, m <> n -> unresolved w1 m <-> unresolved w m).
  { intros m Hm. unfold unresolved. by rewrite Ko. }
  assert (Psub : forall m d, d ∈ pending w1 m <-> d ∈ pending w m /\ d <> n).
  { intros m d. rewrite !elem_of_pending. destruct (decide (d = n)) as [->|Hd].
    - split; [by intros [_ ?]|by intros [_ ?]].
    - rewrite Huo by done. tauto. }
  assert (Psame : forall m, n ∉ pending w m -> pending w1 m = pending w m).
  { intros m Hm. apply pending_ext. intros d Hd. destruct (decide (d = n)) as [->|]; [|by apply Huo].
    destruct Hm. by apply elem_of_pending. }
  assert (Pnil : forall m, pending w m = [] -> pending w1 m = []).
  { intros m Hm. rewrite Psame; [done|]. rewrite Hm. by apply not_elem_of_nil. }
  assert (Hin : forall m, m ∈ order (dependents_of w n) <-> m ∈ dependents_of w n).
  { intros m. by rewrite (Horder _), elem_of_elements. }
  destruct Hg as [G1 G2 G3 G4 G5 G6 G7 G8 G9].
  assert (Lo : forall m x, m <> n -> state_ w1 !! m = Some x -> state_ w !! m = Some x).
  { intros m x Hm. by rewrite L, decide_False by congruence. }
  assert (Ln : forall x, state_ w1 !! n = Some x -> x = with_kind Resolved s).
  { intros x. rewrite L, decide_True by done. by intros [= <-]. }
  split_and!; [split; [split| | | |]|done|..].
  - intros m x Hx. destruct (decide (m = n)) as [->|Hm]; [by apply Ln in Hx as ->|].
    by apply (G1 m), Lo.
  - done.
  - intros m _. destruct (decide (m = n)) as [->|Hm]; [by rewrite Kn|].
    rewrite Ko by done. apply G3. congruence.
  - intros m x Hm Hx Hb. destruct (decide (m = n)) as [->|Hmn]; [by apply Ln in Hx as ->|].
    destruct (G4 m x ltac:(congruence) (Lo _ _ Hmn Hx) Hb) as (? & ? & ? & Hall).
    rewrite Psame.
    + split_and!; [done..|]. intros d Hd. rewrite <-N, D. auto.
    + intros [_ Hd]%Hall. apply Hm. by apply Hin.
  - intros m d Hm Hd. rewrite D. intros Hmd. assert (m <> n) by (intros ->; by apply (Hwt d)).
    rewrite Ko, Psub by done. destruct (G5 m d ltac:(congruence) (not_none d) Hmd). auto.
  - intros m x Hm Hx Hc d Hd. apply N. destruct (decide (m = n)) as [->|Hmn]; [by apply Hkn|].
    apply (G6 m x); auto.
  - intros m Hm Hr. apply Pnil. destruct (decide (m = n)) as [->|Hmn]; [done|].
    apply G7; [congruence|]. by rewrite <-Ko.
  - intros m x Hm Hx Ha Hc. apply Pnil. destruct (decide (m = n)) as [->|Hmn]; [done|].
    apply (G8 m x); auto.
  - intros m x Hx. destruct (decide (m = n)) as [->|Hmn]; [|by apply (G9 m), Lo].
    apply Ln in Hx as ->. by apply (G9 n s).
  - rewrite (Horder _). apply NoDup_elements.
  - rewrite Hin. apply Hwt.
  - done.
  - intros x Hx%Hin. assert (Hxn : x <> n) by (intros ->; by apply (Hwt n)).
    destruct (G5 x n ltac:(congruence) (not_none n) Hx) as [Hkx Hpx].
    assert (exists t, state_ w !! x = Some t /\ kind t = Blocked) as (t & Ht & Htk).
    { unfold kind_of in Hkx. destruct (state_ w !! x) as [t|]; [by exists t|done]. }
    destruct (G4 x t ltac:(congruence) Ht Htk) as (Hc & _ & Hcount & Hall).
    exists t. split_and!; [|done|done| | | | |].
    + by rewrite L, decide_False by congruence.
    + rewrite Hcount. unfold pending.
      rewrite (resolve_pending w w1 n (deps x) (Hnodup x) Hun Hun1 Huo).
      rewrite decide_True by by apply elem_of_pending in Hpx as [? _]. lia.
    + intros Hxw. apply (G3 x) in Hxw; [by rewrite Hkx in Hxw|congruence].
    + intros d Hd. apply N. by apply (G6 x t ltac:(congruence) Ht Hc).
    + intros d [Hd _]%Psub. rewrite D. by apply Hall.
    + intros d Hd Hdn. rewrite D in Hd. apply Psub. split; [|done]. apply G5; [congruence|apply not_none|done].
  - intros m Hm. unfold weight. by rewrite L, decide_False by congruence.
  - unfold weight. by rewrite L, decide_True.
Qed.

Lemma waking_done w n :
  waking w n [] ->
  good (update w n (with_dependents ∅)) none none
  /\ (forall m, known w m <-> known (update w n (with_dependents ∅)) m)
  /\ (forall m, weight (update w n (with_dependents ∅)) m = weight w m).
Proof.
  intros [[G1 G2 G3 G4 G5 G6 G7 G8 G9] _ _ Hr _]. set (w1 := update w n _).
  assert (L : forall m, state_ w1 !! m = if decide (n = m) then with_dependents ∅ <$> state_ w !! m
    else state_ w !! m).
  { intros m. unfold w1. by rewrite update_lookup. }
  assert (V : forall m, view_of w1 m = view_of w m).
  { intros m. unfold view_of. rewrite L. destruct (decide (n = m)); [|done]. by destruct (state_ w !! m). }
  assert (K : forall m, kind_of w1 m = kind_of w m) by (intros m; by apply view_of_kind).
  assert (P : forall m, pending w1 m = pending w m).
  { intros m. apply pending_ext. intros d _. unfold unresolved. by rewrite K. }
  assert (N : forall m, known w m <-> known w1 m).
  { intros m. split; apply view_of_known; by rewrite V. }
  assert (D : forall m, dependents_of w1 m = if decide (n = m) then ∅ else dependents_of w m).
  { intros m. unfold dependents_of. rewrite L. destruct (decide (n = m)); [|done].
    by destruct (state_ w !! m). }
  assert (Hnin : forall m : Node, m ∉ []) by (intros m; apply not_elem_of_nil).
  split_and!; [split|done|..].
  - intros m s Hs. destruct (view_of_state _ _ _ _ (V m) Hs) as (s0 & H0 & <- & _). by apply (G1 m).
  - done.
  - intros m _. rewrite K. apply G3, Hnin.
  - intros m s _ Hs. destruct (view_of_state _ _ _ _ (V m) Hs) as (s0 & H0 & <- & <- & <-).
    intros Hb. rewrite P. destruct (G4 m s0 (Hnin m) H0 Hb) as (? & ? & ? & Hall).
    split_and!; [done..|]. intros d Hd. rewrite <-N, D. split; [by apply Hall|].
    rewrite decide_False; [by apply Hall|]. intros <-. apply elem_of_pending in Hd as [_ Hd].
    by apply Hd.
  - intros m d _ _. rewrite D, P, K. destruct (decide (n = d)); [set_solver|]. apply G5; auto.
  - intros m s _ Hs Hc d Hd. destruct (view_of_state _ _ _ _ (V m) Hs) as (s0 & H0 & _ & Ec & _).
    apply N. apply (G6 m s0); auto. congruence.
  - intros m _. rewrite K, P. by apply G7.
  - intros m s _ Hs. destruct (view_of_state _ _ _ _ (V m) Hs) as (s0 & H0 & <- & <- & _).
    rewrite P. apply G8; auto.
  - intros m s Hs. destruct (view_of_state _ _ _ _ (V m) Hs) as (s0 & H0 & _ & <- & <-).
    by apply (G9 m).
  - intros m. unfold weight. rewrite L. destruct (decide (n = m)); [|done]. by destruct (state_ w !! m).
Qed.

(** What a turn does to the invariant and the measure. *)
Record turned (w w' : worker) (n : Node) : Prop := {
  tn_good : good w' none none;
  tn_known m : known w m -> known w' m;
  tn_new m : known w' m -> known w m \/ m ∈ deps n;
  tn_other m : m <> n -> weight w' m = weight w m;
  tn_node : (weight w' n < weight w n)%nat
}.

Lemma unblock_dependents_ready w n :
  ready w n ->
  exists w', unblock_dependents order (update w n (with_kind Resolved)) n = Returns w'
    /\ turned w w' n.
Proof.
  intros Hr. destruct (resolve_waking w n Hr) as (Hw & N1 & W1 & W1n).
  destruct Hr as [_ _ (s & Hs & Hk) _ _ _]. set (w1 := update w n _) in *.
  assert (Hwn : (1 <= weight w n)%nat).
  { unfold weight. rewrite Hs, bool_decide_eq_false_2 by done. destruct (custom s); lia. }
  destruct (unblock_all_waking n _ w1 Hw) as (w2 & E2 & H2 & N2 & W2).
  destruct (waking_done w2 n H2) as (G3 & N3 & W3).
  assert (T : turned w (update w2 n (with_dependents ∅)) n).
  { split; [done|..].
    - intros m ?. by apply N3, N2, N1.
    - intros m ?. left. by apply N1, N2, N3.
    - intros m Hm. by rewrite W3, W2, W1.
    - rewrite W3, W2, W1n. lia. }
  assert (L : state_ w1 !! n = Some (with_kind Resolved s)).
  { unfold w1. by rewrite update_lookup, decide_True, Hs. }
  assert (Dn : dependents_of w n = dependents s) by (unfold dependents_of; by rewrite Hs).
  rewrite Dn in E2. unfold unblock_dependents. rewrite (state_some w1 n _ L).
  cbn [mbind outcome_bind dependents with_kind].
  case_bool_decide as E; [|rewrite E2; by eexists].
  exists w1. split; [done|].
  assert (order (dependents s) = []) as Eo.
  { apply Permutation_nil_r. by rewrite (Horder _), E, elements_empty. }
  rewrite Eo in E2. injection E2 as <-.
  assert (update w1 n (with_dependents ∅) = w1) as Eu; [|by rewrite Eu in T].
  unfold update. destruct w1 as [st wl wk] eqn:Ew. cbn in *. f_equal.
  apply alter_id. intros x Hx. rewrite L in Hx. injection Hx as <-.
  unfold with_dependents. cbn. by rewrite <-E.
Qed.

(** ** A turn *)

Definition take (w : worker) (rest : list Node) : worker := mkWorker (state_ w) rest (work_ w).

Lemma take_good w n rest :
  good w none none -> worklist_ w = n :: rest -> good (take w rest) (eq n) none /\ n ∉ rest.
Proof.
  intros [G1 G2 G3 G4 G5 G6 G7 G8 G9] E. rewrite E in G2. apply NoDup_cons in G2 as [Hn Hnd].
  split; [|done]. pose proof not_none as Hno. split; try done.
  - intros m Hm. cbn. rewrite <-(G3 m), E, elem_of_cons by done. intuition congruence.
  - intros m s _. apply G4, Hno.
  - intros m d _. apply G5, Hno.
  - intros m s _. apply G6, Hno.
  - intros m _. apply G7, Hno.
  - intros m s _. apply G8, Hno.
Qed.

Lemma turn_good w n rest :
  good w none none -> worklist_ w = n :: rest ->
  exists w', run_turn order (example_process deps) (take w rest) n = Returns w' /\ turned w w' n.
Proof.
  intros Hg E. destruct (take_good w n rest Hg E) as [Hg1 Hn]. set (w1 := take w rest) in *.
  assert (Ka : kind_of w n = Active) by (apply (g_work _ _ _ Hg n (not_none n)); rewrite E; by left).
  assert (exists s, state_ w !! n = Some s /\ kind s = Active) as (s & Hs & Hk).
  { unfold kind_of in Ka. destruct (state_ w !! n) as [s|]; [by exists s|done]. }
  assert (Hs1 : state_ w1 !! n = Some s) by done.
  assert (Hdep : forall d, n ∉ dependents_of w1 d).
  { intros d Hd. destruct (g_dep _ _ _ Hg n d (not_none n) (not_none d) Hd). congruence. }
  unfold run_turn. rewrite (state_some w1 n s Hs1). cbn [mbind outcome_bind].
  rewrite !bool_decide_eq_false_2 by (rewrite Hk; done || by intros H; apply H).
  unfold example_process. rewrite (state_some w1 n s Hs1). cbn [mbind outcome_bind].
  assert (Hdone : pending w1 n = [] -> (forall d, d ∈ deps n -> known w1 d) ->
    exists w', unblock_dependents order (update w1 n (with_kind Resolved)) n = Returns w'
      /\ turned w w' n).
  { intros Hp Hkn. destruct (unblock_dependents_ready w1 n) as (w' & E' & [T1 T2 T3 T4 T5]).
    - split; try done. exists s. by rewrite Hk.
    - exists w'. split; [done|]. by split. }
  destruct (custom s) eqn:Hc; cbn [negb andb].
  { apply Hdone; [by apply (g_active _ _ _ Hg n s (not_none n))|by apply (g_custom _ _ _ Hg n s (not_none n))]. }
  case_bool_decide as Ed; cbn [negb].
  { apply Hdone; [unfold pending; by rewrite Ed|rewrite Ed; set_solver]. }
  assert (M : mid w1 n []).
  { split; [done| |done|by intros d ?%elem_of_nil|].
    2: { intros d. split; [by intros ?%Hdep|by intros [?%elem_of_nil _]]. }
    exists s. split_and!; try done. by apply (g_count _ _ _ Hg n s). }
  destruct (block_on_all_spec w1 n M) as (b & w2 & E2 & U & K & W & Kd & N & Hb).
  rewrite E2. cbn [mbind outcome_bind]. destruct b; cbn [mbind outcome_bind].
  - destruct Hb as [Hg2 Hn2]. set (w3 := update w2 n _) in *. exists w3. split; [done|].
    assert (L : forall m, state_ w3 !! m = if decide (n = m) then with_custom true <$> state_ w2 !! m
      else state_ w2 !! m) by (intros m; unfold w3; by rewrite update_lookup).
    assert (N3 : forall m, known w3 m <-> known w2 m).
    { intros m. unfold known. rewrite L. destruct (decide (n = m)); [|done]. by rewrite fmap_is_Some. }
    split; [done|..].
    + intros m ?. by apply N3, K.
    + intros m ?%N3. by apply N.
    + intros m Hm. change (weight w m) with (weight w1 m). rewrite <-(W m). unfold weight.
      by rewrite L, decide_False by congruence.
    + assert (Hw2 : weight w2 n = 2%nat).
      { rewrite W. unfold weight. rewrite Hs1, Hc, bool_decide_eq_false_2; [done|by rewrite Hk]. }
      change (weight w n) with (weight w1 n). rewrite <-(W n), Hw2. unfold weight.
      rewrite L, decide_True by done. destruct (state_ w2 !! n) as [t|]; [|done]. cbn.
      case_bool_decide; lia.
  - destruct Hb as [Hp M2]. pose proof M2 as [Hg2 (t & Ht & Htc & Htz & Htk) Hw2 Hk2 Hd2].
    assert (Hp2 : pending w2 n = []) by (rewrite <-Hp; apply pending_ext; auto).
    destruct (unblock_dependents_ready w2 n) as (w3 & E3 & [T1 T2 T3 T4 T5]).
    { split; try done.
      - exists t. split; [done|]. rewrite Htk. by case_decide.
      - intros d [Hd Hu]%Hd2. assert (d ∈ pending w2 n) as Hin by by apply elem_of_pending.
        rewrite Hp2 in Hin. by apply elem_of_nil in Hin. }
    exists w3. split; [done|]. split; [done|..].
    + intros m ?. by apply T2, K.
    + intros m [?|?]%T3; [by apply N|by right].
    + intros m Hm. rewrite T4 by done. apply (W m).
    + change (weight w n) with (weight w1 n). by rewrite <-(W n).
Qed.

(** ** The run *)

Section Run.
Context (U : gset Node) (Hclosed : forall n d, n ∈ U -> d ∈ deps n -> d ∈ U).

(** The turns that are left at most. *)
Definition measure (w : worker) : nat := sum_list_with (weight w) (elements U).

Lemma sum_list_weight (f g : Node -> nat) n l :
  NoDup l -> n ∈ l -> (forall m, m <> n -> f m = g m) -> (f n < g n)%nat ->
  (sum_list_with f l < sum_list_with g l)%nat.
Proof.
  intros Hnd Hin Ho Hn. induction l as [|m l IH]; [by apply elem_of_nil in Hin|].
  apply NoDup_cons in Hnd as [Hm Hnd]. cbn.
  apply elem_of_cons in Hin as [<-|Hin].
  - assert (sum_list_with f l = sum_list_with g l) as ->; [|lia].
    clear IH Hnd. induction l as [|k l IH]; [done|]. apply not_elem_of_cons in Hm as [? ?].
    cbn. rewrite IH, Ho by congruence. done.
  - rewrite (Ho m) by (intros ->; done). specialize (IH Hnd Hin). lia.
Qed.

Lemma run_good fuel : forall w,
  good w none none -> (forall m, known w m -> m ∈ U) -> (measure w <= fuel)%nat ->
  exists w', run order (example_process deps) fuel w = Returns w' /\ good w' none none
    /\ worklist_ w' = [] /\ (forall m, known w m -> known w' m).
Proof.
  induction fuel as [|fuel IH]; intros w Hg Hu Hm; destruct (worklist_ w) as [|n rest] eqn:E.
  1, 3: exists w; cbn; rewrite E; by split_and!.
  all: destruct (turn_good w n rest Hg E) as (w1 & E1 & [T1 T2 T3 T4 T5]).
  all: assert (Hn : n ∈ U) by (apply Hu; assert (kind_of w n = Active) as Hk;
    [apply (g_work _ _ _ Hg n (not_none n)); rewrite E; by left|];
    unfold kind_of, known in *; destruct (state_ w !! n); [by eexists|done]).
  all: assert (Hlt : (measure w1 < measure w)%nat)
    by (apply (sum_list_weight _ _ n); [apply NoDup_elements|by apply elem_of_elements|done..]).
  - lia.
  - destruct (IH w1) as (w2 & E2 & G2 & W2 & K2); [done| |lia|].
    + intros m [?|?]%T3; [by apply Hu|by eapply Hclosed].
    + exists w2. cbn. rewrite E. unfold take in E1. rewrite E1. cbn. split_and!; auto.
Qed.

Lemma measure_bound w : (measure w <= 2 * size U)%nat.
Proof.
  unfold measure. replace (size U) with (length (elements U)) by done.
  induction (elements U) as [|m l IH]; [done|]. cbn.
  assert (weight w m <= 2)%nat; [|lia]. unfold weight. destruct (state_ w !! m); [|lia].
  case_bool_decide; [lia|]. destruct (custom _); lia.
Qed.
End Run.

Lemma start_empty : good (mkWorker ∅ [] tt) none none.
Proof.
  split; unfold kind_of, dependents_of; cbn.
  2: apply NoDup_nil_2.
  2: { intros m _. rewrite lookup_empty. split; [by intros ?%elem_of_nil|done]. }
  all: intros *; rewrite ?lookup_empty; try done.
Qed.

Lemma start_good roots : forall w,
  good w none none ->
  let w' := foldl (add false example_seed) w roots in
  good w' none none /\ (forall m, known w m -> known w' m) /\ (forall m, m ∈ roots -> known w' m)
  /\ (forall m, known w' m -> known w m \/ m ∈ roots).
Proof.
  induction roots as [|r roots IH]; intros w Hg; cbn.
  { split_and!; [done|done|set_solver|by left]. }
  destruct (add_good w none none r Hg (not_none r)) as (G1 & K1 & L1 & _ & _).
  { by intros m []. }
  destruct (IH _ G1) as (G2 & K2 & R2 & N2).
  assert (H1 : forall m, known w m -> known (add false example_seed w r) m).
  { intros m Hm. unfold known. rewrite L1; [done|]. destruct (decide (m = r)) as [->|]; auto. }
  split_and!; [done|auto|..].
  - intros m [->|Hm]%elem_of_cons; auto.
  - intros m Hm. destruct (decide (m = r)) as [->|Hr]; [right; by left|].
    destruct (N2 m Hm) as [Hk|?]; [|right; by right]. left. unfold known in *.
    rewrite L1 in Hk; [done|by left].
Qed.

(** At the end of a run every node the worker knows is resolved. *)
Lemma finished_resolved w :
  well_founded (fun d n => d ∈ deps n) ->
  good w none none -> worklist_ w = [] -> forall m, known w m -> kind_of w m = Resolved.
Proof.
  intros Hwf Hg E m. induction (Hwf m) as [m _ IH]. intros [s Hs].
  assert (Hk : kind_of w m = kind s) by (unfold kind_of; by rewrite Hs).
  destruct (kind s) eqn:Es; [|exfalso..|done].
  - by destruct (g_init _ _ _ Hg m s Hs).
  - apply (g_work _ _ _ Hg m (not_none m)) in Hk. rewrite E in Hk. by apply elem_of_nil in Hk.
  - destruct (g_blocked _ _ _ Hg m s (not_none m) Hs Es) as (_ & Hlen & _ & Hall).
    destruct (pending w m) as [|d l] eqn:Ep; [cbn in Hlen; lia|].
    assert (d ∈ pending w m) as Hd by (rewrite Ep; by left).
    assert (d ∈ deps m /\ unresolved w d) as [Hdd Hu] by by apply elem_of_pending.
    apply Hu, IH; [done|]. by apply Hall; left.
Qed.

Lemma finished_closed w n d :
  good w none none -> kind_of w n = Resolved -> d ∈ deps n -> kind_of w d = Resolved.
Proof.
  intros Hg Hr Hd. pose proof (g_resolved _ _ _ Hg n (not_none n) Hr) as Hp.
  destruct (decide (kind_of w d = Resolved)) as [|Hu]; [done|].
  assert (d ∈ pending w n) as Hin by by apply elem_of_pending.
  rewrite Hp in Hin. by apply elem_of_nil in Hin.
Qed.

End Facts.

(** C22: [NodeWorker::run] on the work of the header's example ends and resolves everything.
    When no node is its own indirect child, no child is listed twice, and [U] is a finite set
    that holds the roots and is closed under children, a run of at most two turns for each
    node of [U] never fails the assertion on a node's status, ends with an empty worklist,
    and leaves every node that is reachable from a root resolved, whatever the order in which
    the sets of dependents are iterated. *)
Theorem worker_resolves_all (order : gset Node -> list Node) (deps : Node -> list Node)
    (U : gset Node) (roots : list Node) (fuel : nat)
    (Horder : forall s, order s ≡ₚ elements s)
    (Hnodup : forall n, NoDup (deps n))
    (Hsmall : forall n, Z.of_nat (length (deps n)) < 2 ^ 64)
    (Hacyclic : well_founded (fun d n => d ∈ deps n))
    (Hroots : forall r, r ∈ roots -> r ∈ U)
    (Hclosed : forall n d, n ∈ U -> d ∈ deps n -> d ∈ U)
    (Hfuel : (2 * size U <= fuel)%nat) :
  exists w, example_run order deps fuel roots = Returns w /\ worklist_ w = []
    /\ forall r n, r ∈ roots -> rtc (fun m d => d ∈ deps m) r n -> is_resolved w n = true.
Proof.
  assert (Hirr : forall n, n ∉ deps n).
  { intros n Hn. induction (Hacyclic n) as [n _ IH]. by apply (IH n). }
  destruct (start_good order deps Horder Hnodup Hsmall Hirr roots (mkWorker ∅ [] tt)) as (G & _ & K & N).
  { apply start_empty. }
  destruct (run_good order deps Horder Hnodup Hsmall Hirr U Hclosed fuel _ G) as (w & E & Gw & W & Kw).
  { intros m [[x [=]]|Hm]%N; by apply Hroots. }
  { etrans; [apply measure_bound|done]. }
  exists w. split; [done|]. split; [done|]. intros r n Hr Hn.
  assert (kind_of w r = Resolved) as Hrr by (apply (finished_resolved deps); auto).
  assert (kind_of w n = Resolved) as H.
  { clear Hr. induction Hn as [r|r d n Hd Hn IH]; [done|].
    by apply IH, (finished_closed deps w r). }
  unfold is_resolved, kind_of in *. destruct (state_ w !! n) as [s|]; [|done].
  by apply bool_decide_eq_true_2.
Qed.


(** A tree of three nodes: 1 has the children 2 and 3, and 2 needs 3 too. *)
Definition tree_deps (n : Node) : list Node :=
  match n with 1%positive => [2; 3]%positive | 2%positive => [3%positive] | _ => [] end.

Lemma tree_deps_spec n d :
  d ∈ tree_deps n <-> (n = 1%positive /\ (d = 2%positive \/ d = 3%positive))
                      \/ (n = 2%positive /\ d = 3%positive).
Proof.
  assert (H : n = 1%positive \/ n = 2%positive \/ tree_deps n = [] /\ n <> 1%positive /\ n <> 2%positive).
  { destruct n as [n|[n|n|]|]; auto 10. }
  destruct H as [->|[->|(-> & H1 & H2)]]; cbn; set_solver.
Qed.

Lemma worker_resolves_all_witness :
  exists w, example_run elements tree_deps 6 [1%positive] = Returns w /\ worklist_ w = []
    /\ forall r n, r ∈ [1%positive] -> rtc (fun m d => d ∈ tree_deps m) r n -> is_resolved w n = true.
Proof.
  apply (worker_resolves_all elements tree_deps {[1; 2; 3]}%positive [1%positive] 6).
  - done.
  - intros n. destruct n as [n|[n|n|]|]; cbn; repeat constructor; set_solver.
  - intros n. destruct n as [n|[n|n|]|]; cbn; lia.
  - apply (well_founded_lt_compat _ (fun n => Pos.to_nat 3 - Pos.to_nat n)%nat).
    intros d n Hd%tree_deps_spec. destruct Hd as [[-> [->| ->]]|[-> ->]]; lia.
  - intros r Hr. set_solver.
  - intros n d Hn Hd%tree_deps_spec. set_solver.
  - vm_compute. lia.
Defined.

(** A prerequisite that is listed twice is counted twice by [block_on_all], but its
    [dependents] hold the waiting node once: the run ends with the node still blocked. *)
Lemma repeated_prerequisite_blocks :
  (w ← example_run elements (fun n => if bool_decide (n = 1%positive) then [2; 2]%positive else [])
         100 [1%positive];
   Returns (worklist_ w, kind <$> state_ w !! 1%positive, kind <$> state_ w !! 2%positive))
  = Returns ([], Some Blocked, Some Resolved).
Proof. vm_compute. reflexivity. Qed.
