(* ===== verification/DefaultMap.v ===== *)
(** Token-indexed tables with a default ([include/trieste/defaultmap.h]). *)
From S2P Require Import Prelude.
From S2P Require Import Token.
From stdpp Require Export gmap.
Open Scope Z_scope.

(** [DefaultMap<T>].  A slot that still points to [def] has no entry in [map].  A slot's index
    is below [DEFAULT_MAP_TABLE_SIZE] ([token_index_bound]), so the array is never read out
    of its bounds. *)
Record DefaultMap (T : Type) := mkDefaultMap {
  def : T;
  map : gmap Z T;
  empty_ : bool
}.
Arguments mkDefaultMap {T}. Arguments def {T}. Arguments map {T}. Arguments empty_ {T}.

Section DefaultMap.
Context {T : Type}.

(** [token_index], [is_index_default] *)
Definition token_index (t : Token) : Z := default_map_hash t.
Definition is_index_default (dm : DefaultMap T) (index : Z) : bool :=
  match map dm !! index with None => true | Some _ => false end.

(** [DefaultMap()]: [new_T] is the value [T] is initialised with. *)
Definition new_default_map (new_T : T) : DefaultMap T := mkDefaultMap new_T ∅ true.

(** [modify_all] *)
Definition modify_all (f : T -> T) (dm : DefaultMap T) : DefaultMap T :=
  mkDefaultMap (f (def dm)) (f <$> map dm) false.

(** [modify]: what the caller does to the reference is [f]. *)
Definition modify (f : T -> T) (t : Token) (dm : DefaultMap T) : DefaultMap T :=
  let i := token_index t in
  let map := if is_index_default dm i then <[i := def dm]> (map dm) else map dm in
  mkDefaultMap (def dm) (alter f i map) false.

(** [get] *)
Definition get (dm : DefaultMap T) (t : Token) : T := default (def dm) (map dm !! token_index t).

(** [clear]; [clear_T] is [T::clear]. *)
Definition clear (clear_T : T -> T) (dm : DefaultMap T) : DefaultMap T :=
  mkDefaultMap (clear_T (def dm)) ∅ true.

(** * Facts *)

Lemma get_new new_T t : get (new_default_map new_T) t = new_T.
Proof. done. Qed.

Lemma get_clear clear_T dm t : get (clear clear_T dm) t = clear_T (def dm).
Proof. done. Qed.

Lemma get_modify_all f dm t : get (modify_all f dm) t = f (get dm t).
Proof. unfold get, modify_all. cbn. rewrite lookup_fmap. by destruct (_ !! _). Qed.

Lemma get_modify f t dm t' :
  get (modify f t dm) t'
  = if decide (token_index t = token_index t') then f (get dm t) else get dm t'.
Proof.
  unfold get, modify, is_index_default. cbn. case_decide as E.
  - rewrite <-E, lookup_alter_eq. destruct (map dm !! token_index t) eqn:F; [by rewrite F|].
    by rewrite lookup_insert_eq.
  - rewrite lookup_alter_ne by done. destruct (map dm !! token_index t); [done|].
    by rewrite lookup_insert_ne.
Qed.

Lemma get_modify_same f t dm : get (modify f t dm) t = f (get dm t).
Proof. rewrite get_modify. by rewrite decide_True. Qed.
End DefaultMap.

Create Rewrite HintDb default_map.
#[export] Hint Rewrite @get_modify_all @get_modify @get_clear @get_new : default_map.

Lemma token_index_bound r n f d r' :
  new_token_def r n f = Returns (d, r') -> 0 <= token_index d < DEFAULT_MAP_TABLE_SIZE.
Proof.
  intros H. unfold token_index. rewrite (default_map_hash_new _ _ _ _ _ H).
  apply Z.mod_pos_bound. done.
Qed.
