(* ===== verification/TRegex.v ===== *)
(** [class TRegex] of [include/trieste/regex.h]: compiled patterns, matches whose captures are
    written to typed arguments, and [GlobalReplace]. *)
From S2P Require Import Prelude.
From S2P Require Import Utf8.
From S2P Require Import RegexSyntax.
From S2P Require Import RegexSpec.
From S2P Require Import Nfa.
From S2P Require Import Closure.
From S2P Require Import ClosureCache.
From S2P Require Import Simulate.
From S2P Require Import MatchContext.
From S2P Require Import Capture.
From S2P Require Import Engine.
From S2P Require Import Source.
From stdpp Require Export base.
Open Scope Z_scope.

(** [TRegex]; the engine is shared, never changes and is never null.  [engine_self] is its
    address, by which a [MatchContext] knows it. *)
Record TRegex := mkTRegex {
  pattern_ : list Z;
  engine_ : RegexEngine;
  engine_self : nat;
  re_num_captures_ : nat
}.

(** [TRegex(pattern)], [init]; [self] is the address of the new engine. *)
Definition new_regex (self : nat) (pattern : list Z) : TRegex :=
  let e := new_engine pattern Extended in
  mkTRegex pattern e self (num_captures_ e).

(** [TRegex::ok], [error_code], [NumberOfCapturingGroups], [first_char_info] *)
Definition regex_ok (r : TRegex) : bool := ok (engine_ r).
Definition regex_error_code (r : TRegex) : ErrorCode := error_code_ (engine_ r).
Definition NumberOfCapturingGroups (r : TRegex) : nat := re_num_captures_ r.
Definition regex_first_char_info (r : TRegex) : FirstCharInfo :=
  if negb (ok (engine_ r)) then maximal else first_char_info_ (engine_ r).

(** [TRegex::FullMatch(text, regex)]; [ctx] is the scratch context of the thread. *)
Definition FullMatch (text : list Z) (regex : TRegex) (ctx : MatchContext) : bool * MatchContext :=
  if negb (ok (engine_ regex)) then (false, ctx)
  else full_match (engine_self regex) (engine_ regex) text ctx.

(** [TRegex::PartialMatch(text, regex)]; [search(text)] makes a context of its own. *)
Definition PartialMatch (text : list Z) (regex : TRegex) : bool :=
  if negb (ok (engine_ regex)) then false
  else bool_decide (is_Some (match_start_
         (search (engine_self regex) (engine_ regex) text new_context 0).1.1)).

(** [TRegex::find_prefix(text, at_start)] *)
Definition regex_find_prefix (r : TRegex) (text : list Z) (ctx : MatchContext) (at_start : bool)
    : option nat * MatchContext :=
  if negb (ok (engine_ r)) then (MatchContext.npos, ctx)
  else find_prefix (engine_self r) (engine_ r) text ctx at_start.

(** [TRegex::find_prefix(text, captures, ctx, at_start)]; without an engine that works the
    captures are left as they were. *)
Definition regex_find_prefix_captures (r : TRegex) (text : list Z) (captures : list Capture)
    (ctx : MatchContext) (at_start : bool) : option nat * list Capture * MatchContext :=
  if negb (ok (engine_ r)) then (MatchContext.npos, captures, ctx)
  else find_prefix_captures (engine_self r) (engine_ r) text ctx at_start.

(** * Numbers as text *)

(** An integral type of [bits] bits. *)
Record IntType := mkIntType { int_bits : Z; int_signed : bool }.
Definition int_min (t : IntType) : Z := if int_signed t then - 2 ^ (int_bits t - 1) else 0.
Definition int_max (t : IntType) : Z :=
  if int_signed t then 2 ^ (int_bits t - 1) - 1 else 2 ^ int_bits t - 1.
Definition int_fits (t : IntType) (v : Z) : bool := (int_min t <=? v) && (v <=? int_max t).
Definition type_size_t : IntType := mkIntType 64 false.

(** [std::isdigit] *)
Definition is_digit (c : Z) : bool := (48 <=? c) && (c <=? 57).
Fixpoint leading_digits (s : list Z) : list Z :=
  match s with
  | [] => []
  | c :: s => if is_digit c then c :: leading_digits s else []
  end.
Definition digits_value (ds : list Z) : Z := foldl (fun v d => v * 10 + (d - 48)) 0 ds.

(** [std::from_chars(first, last, value, 10)]: only a signed type takes a minus sign; [ptr] is
    how many characters the number has, and on an error [value] is left alone. *)
Inductive errc := errc_none | invalid_argument | result_out_of_range.
Definition from_chars (t : IntType) (s : list Z) (value : Z) : Z * nat * errc :=
  let minus := int_signed t && bool_decide (head s = Some 45) in
  let ds := leading_digits (if minus then drop 1 s else s) in
  if (length ds =? 0)%nat then (value, O, invalid_argument)
  else
    let v := if minus then - digits_value ds else digits_value ds in
    let ptr := (length ds + if minus then 1 else 0)%nat in
    if int_fits t v then (v, ptr, errc_none) else (value, ptr, result_out_of_range).

(** What [ParseIntegral] and [TRegexMatch::parse] test after [from_chars]. *)
Definition parsed_whole (s : list Z) (res : Z * nat * errc) : option Z :=
  match res with
  | (v, ptr, errc_none) => if (ptr =? length s)%nat then Some v else None
  | _ => None
  end.

(** * Typed arguments *)

(** [class Arg]: what kind of object the pointer names, and the object; floating-point
    arguments are left out. *)
Inductive Dest :=
  | DString (s : list Z)
  | DStringView (s : list Z)
  | DChar (signed : bool) (c : Z)
  | DIntegral (t : IntType) (v : Z).
Record Arg := mkArg { arg_ : option Dest }.

(** [DefaultString], [DefaultStringView], [DefaultZero], [SetDefault] *)
Definition default_dest (d : Dest) : Dest :=
  match d with
  | DString _ => DString []
  | DStringView _ => DStringView []
  | DChar signed _ => DChar signed 0
  | DIntegral t _ => DIntegral t 0
  end.
Definition SetDefault (a : Arg) : Arg := mkArg (default_dest <$> arg_ a).

(** [ParseChar]: one byte, as the type reads it. *)
Definition ParseChar (signed : bool) (str : list Z) : option Z :=
  match str with
  | [c] => Some (if signed && (128 <=? c) then c - 256 else c)
  | _ => None
  end.

(** [ParseIntegral]: the whole text must be a number that fits. *)
Definition ParseIntegral (t : IntType) (str : list Z) : option Z :=
  parsed_whole str (from_chars t str 0).

(** [Arg::Parse]: null pointers accept everything; a failed parse leaves the object. *)
Definition parse_dest (d : Dest) (str : list Z) : option Dest :=
  match d with
  | DString _ => Some (DString str)
  | DStringView _ => Some (DStringView str)
  | DChar signed _ => DChar signed <$> ParseChar signed str
  | DIntegral t _ => DIntegral t <$> ParseIntegral t str
  end.
Definition Parse (a : Arg) (str : list Z) : bool * Arg :=
  match arg_ a with
  | None => (true, a)
  | Some d => match parse_dest d str with
              | Some d => (true, mkArg (Some d))
              | None => (false, a)
              end
  end.

(** The loop of [FullMatchN] and [PartialMatchN] over the arguments; it stops at the first
    one that does not parse, and the earlier ones have been written. *)
Fixpoint fill_args (text : list Z) (args : list Arg) (captures : list Capture)
    : outcome (bool * list Arg) :=
  match args, captures with
  | a :: args, (start, end_) :: captures =>
      match start with
      | None => '(b, args) ← fill_args text args captures; Returns (b, SetDefault a :: args)
      | Some start =>
          match end_ with
          | None => Undefined
          | Some end_ =>
              if (end_ <? start)%nat then Undefined
              else
                let '(b, a) := Parse a (take (end_ - start) (drop start text)) in
                if b then '(b, args) ← fill_args text args captures; Returns (b, a :: args)
                else Returns (false, a :: args)
          end
      end
  | args, _ => Returns (true, args)
  end.

(** [FullMatchN] *)
Definition FullMatchN (text : list Z) (re : TRegex) (args : list Arg) (ctx : MatchContext)
    : outcome (bool * list Arg * MatchContext) :=
  if negb (ok (engine_ re)) then Returns (false, args, ctx)
  else if (NumberOfCapturingGroups re <? length args)%nat then Returns (false, args, ctx)
  else if (length args =? 0)%nat then
    let '(b, ctx) := full_match (engine_self re) (engine_ re) text ctx in Returns (b, args, ctx)
  else
    let '(len, captures, ctx) := find_prefix_captures (engine_self re) (engine_ re) text ctx true in
    if bool_decide (len = Some (length text)) then
      '(b, args) ← fill_args text args captures; Returns (b, args, ctx)
    else Returns (false, args, ctx).

(** [PartialMatchN] *)
Definition PartialMatchN (text : list Z) (re : TRegex) (args : list Arg) (ctx : MatchContext)
    : outcome (bool * list Arg * MatchContext) :=
  if negb (ok (engine_ re)) then Returns (false, args, ctx)
  else if (NumberOfCapturingGroups re <? length args)%nat then Returns (false, args, ctx)
  else
    let '(result, captures, ctx) := search (engine_self re) (engine_ re) text ctx 0 in
    match match_start_ result with
    | None => Returns (false, args, ctx)
    | Some _ => '(b, args) ← fill_args text args captures; Returns (b, args, ctx)
    end.

(** * [GlobalReplace] *)

(** The digits of a capture index in the rewrite: the index, and what follows it.  The loop
    stops after the digit that takes the index over [MaxCaptures]. *)
Fixpoint rewrite_index (idx : Z) (s : list Z) : Z * list Z :=
  match s with
  | c :: s' =>
      if is_digit c then
        let next_idx := u64 (u64 (idx * 10) + (c - 48)) in
        if MaxCaptures <? next_idx then (next_idx, s') else rewrite_index next_idx s'
      else (idx, s)
  | [] => (idx, [])
  end.

(** The lambda [append_rewrite]; the index [i] is the rest of [rewrite], of which every turn
    takes at least a character. *)
Fixpoint append_rewrite (fuel : nat) (rewrite : list Z) (out src : list Z) (match_start match_len : nat)
    (captures : list Capture) : outcome (list Z) :=
  match fuel, rewrite with
  | S fuel, ch :: rest =>
      match rest with
      | next :: after =>
          if ch =? 92 then
            if is_digit next then
              let '(idx, rest) := rewrite_index 0 rest in
              out ← (if idx =? 0 then
                       s ← substr src (Z.of_nat match_start) (Z.of_nat match_len); Returns (out ++ s)
                     else if idx <=? Z.of_nat (length captures) then
                       match nth (Z.to_nat (idx - 1)) captures (MatchContext.npos, MatchContext.npos) with
                       | (Some start, Some end_) =>
                           if (start <=? end_)%nat then
                             s ← substr src (Z.of_nat start) (Z.of_nat (end_ - start));
                             Returns (out ++ s)
                           else Returns out
                       | (Some start, None) =>
                           s ← substr src (Z.of_nat start) (u64 (Source.npos - Z.of_nat start));
                           Returns (out ++ s)
                       | (None, _) => Returns out
                       end
                     else Returns out);
              append_rewrite fuel rest out src match_start match_len captures
            else append_rewrite fuel after (out ++ [next]) src match_start match_len captures
          else append_rewrite fuel rest (out ++ [ch]) src match_start match_len captures
      | [] => Returns (out ++ [ch])
      end
  | O, _ :: _ => Undefined
  | _, [] => Returns out
  end.

(** The loop of [GlobalReplace]: the output and how many replacements were made.  Every turn
    but the last moves [pos] on. *)
Fixpoint replace_loop (fuel : nat) (regex : TRegex) (rewrite input output : list Z) (pos : nat)
    (replacements : Z) (ctx : MatchContext) : outcome (list Z * Z * MatchContext) :=
  match fuel with
  | O => Undefined
  | S fuel =>
      if (length input <? pos)%nat then Returns (output, replacements, ctx)
      else
        let '(result, captures, ctx) :=
          search (engine_self regex) (engine_ regex) input ctx pos in
        match match_start_ result with
        | None =>
            s ← substr input (Z.of_nat pos) Source.npos;
            Returns (output ++ s, replacements, ctx)
        | Some match_start =>
            let match_len := match_len result in
            s ← substr input (Z.of_nat pos) (u64 (Z.of_nat match_start - Z.of_nat pos));
            output ← append_rewrite (length rewrite) rewrite (output ++ s) input match_start
                       match_len captures;
            let replacements := u64 (replacements + 1) in
            if (match_len =? 0)%nat then
              if (length input <=? match_start)%nat then Returns (output, replacements, ctx)
              else
                let n := (decode_rune input match_start).2 in
                s ← substr input (Z.of_nat match_start) (Z.of_nat n);
                replace_loop fuel regex rewrite input (output ++ s) (match_start + n)
                  replacements ctx
            else
              replace_loop fuel regex rewrite input output (match_start + match_len)
                replacements ctx
        end
  end.

(** [TRegex::GlobalReplace]: the count and the new text; a null [text] is [None].  [self] is
    the address of the engine it makes. *)
Definition GlobalReplace (self : nat) (text : option (list Z)) (pattern rewrite : list Z)
    (ctx : MatchContext) : outcome (Z * option (list Z) * MatchContext) :=
  match text with
  | None => Returns (0, None, ctx)
  | Some input =>
      let regex := new_regex self pattern in
      if negb (regex_ok regex) then Returns (0, Some input, ctx)
      else
        '(output, replacements, ctx) ←
          replace_loop (S (S (length input))) regex rewrite input [] O 0 ctx;
        Returns (Z.min replacements (2 ^ 31 - 1), Some output, ctx)
  end.
