(* ===== verification/TRegexFacts.v ===== *)
(** What [TRegex] promises: numbers are read exactly, typed captures are those of a match,
    and [GlobalReplace] replaces the leftmost longest matches one after the other. *)
From S2P Require Import Prelude.
From S2P Require Import Utf8.
From S2P Require Import RegexSyntax.
From S2P Require Import RegexSpec.
From S2P Require Import Nfa.
From S2P Require Import Closure.
From S2P Require Import ClosureCache.
From S2P Require Import MatchContext.
From S2P Require Import Simulate.
From S2P Require Import Capture.
From S2P Require Import Engine.
From S2P Require Import CaptureSpec.
From S2P Require Import RegexCorrect.
From S2P Require Import RegexTheorems.
From S2P Require Import Source.
From S2P Require Import TRegex.
Open Scope Z_scope.

(** * Numbers *)

(** The text of a number: a minus sign that a signed type may have, and digits. *)
Definition numeral (t : IntType) (s : list Z) (v : Z) : Prop :=
  exists minus ds, Forall (fun c => is_digit c = true) ds /\ ds <> []
    /\ (minus = true -> int_signed t = true)
    /\ s = (if minus then [45] else []) ++ ds
    /\ v = if (minus : bool) then - digits_value ds else digits_value ds.

Lemma leading_digits_all ds : Forall (fun c => is_digit c = true) ds -> leading_digits ds = ds.
Proof. induction 1 as [|c ds Hc _ IH]; [done|]. cbn. by rewrite Hc, IH. Qed.

Lemma leading_digits_prefix s :
  Forall (fun c => is_digit c = true) (leading_digits s) /\ exists r, s = leading_digits s ++ r.
Proof.
  induction s as [|c s [IH [r Hr]]]; [split; [done|by exists []]|]. cbn.
  destruct (is_digit c) eqn:E; [|split; [done|by eexists]].
  split; [by constructor|]. exists r. cbn. by rewrite <-Hr.
Qed.

Lemma digits_start ds s : Forall (fun c => is_digit c = true) ds -> ds <> [] ->
  bool_decide (head (ds ++ s) = Some 45) = false.
Proof.
  destruct 1 as [|c ds Hc _]; [done|]. intros _. cbn. apply bool_decide_eq_false.
  intros [= ->]. done.
Qed.

Lemma from_chars_digits t minus ds value :
  Forall (fun c => is_digit c = true) ds -> ds <> [] -> (minus = true -> int_signed t = true) ->
  from_chars t ((if minus then [45] else []) ++ ds) value
  = let v := if (minus : bool) then - digits_value ds else digits_value ds in
    if int_fits t v then (v, length ((if minus then [45] else []) ++ ds), errc_none)
    else (value, length ((if minus then [45] else []) ++ ds), result_out_of_range).
Proof.
  intros Hds Hne Hs. unfold from_chars. cbv zeta.
  assert (H0 : (length ds =? 0)%nat = false) by (by destruct ds).
  destruct minus; cbn [app].
  - rewrite Hs by done. rewrite bool_decide_true by done. change (drop 1 (45 :: ds)) with ds.
    cbn [andb]. rewrite leading_digits_all by done. rewrite H0, Nat.add_1_r. done.
  - pose proof (digits_start ds [] Hds Hne) as Hh. rewrite app_nil_r in Hh.
    rewrite Hh, andb_false_r, leading_digits_all by done. by rewrite H0, Nat.add_0_r.
Qed.

(** C39: a typed capture of an integral type is parsed exactly when the whole text is a
    numeral (a sign only for a signed type, no space, no plus sign) whose value the type can
    hold, and then it is that value; anything else is rejected. *)
Theorem parse_integral_exact (t : IntType) (s : list Z) (v : Z) :
  ParseIntegral t s = Some v <-> numeral t s v /\ int_min t <= v <= int_max t.
Proof.
  unfold ParseIntegral. split.
  - unfold from_chars. set (minus := _ && _). set (body := if minus then drop 1 s else s).
    destruct (leading_digits_prefix body) as [Hds [r Hr]].
    destruct (Nat.eqb_spec (length (leading_digits body)) 0) as [|Hne]; [done|].
    destruct (int_fits t _) eqn:Hfit; [|done]. cbn [parsed_whole].
    destruct (Nat.eqb_spec (length (leading_digits body) + if minus then 1 else 0) (length s))
      as [Hlen|]; [|done].
    intros [= <-]. split; [|unfold int_fits in Hfit; lia].
    assert (Hs : s = (if minus then [45] else []) ++ body).
    { unfold body, minus. destruct (int_signed t); [|done]. cbn.
      case_bool_decide as Hh; [|done]. destruct s as [|c s]; [done|]. by injection Hh as ->. }
    assert (Hb : body = leading_digits body).
    { rewrite Hr at 1. destruct r as [|x r]; [by rewrite app_nil_r|].
      rewrite Hs in Hlen at 1. rewrite length_app in Hlen. rewrite Hr in Hlen at 2.
      rewrite length_app in Hlen. cbn in Hlen. destruct minus; cbn in Hlen; lia. }
    exists minus, (leading_digits body). split_and!; [done|by destruct (leading_digits body)| |by rewrite <-Hb|done].
    unfold minus. by intros [-> _]%andb_true_iff.
  - intros [(minus & ds & Hds & Hne & Hm & -> & ->) Hr].
    rewrite from_chars_digits by done. cbv zeta. unfold int_fits.
    rewrite (proj2 (Z.leb_le _ _)) by apply Hr. rewrite (proj2 (Z.leb_le _ _)) by apply Hr.
    cbn [andb parsed_whole]. by rewrite Nat.eqb_refl.
Qed.

(** * Typed arguments *)

(** What the arguments hold after the captures are stored in them; [None] where a text is
    not of an argument's type. *)
Definition stored (text : list Z) (a : Arg) (c : Capture) : option Arg :=
  match c with
  | (Some start, Some end_) =>
      let '(b, a) := Parse a (take (end_ - start) (drop start text)) in if b then Some a else None
  | _ => Some (SetDefault a)
  end.

Lemma fill_args_spec text n args captures :
  Forall (capture_in n) captures -> (length args <= length captures)%nat ->
  exists b args', fill_args text args captures = Returns (b, args')
    /\ length args' = length args
    /\ (b = true <-> Forall2 (fun ac a' => stored text ac.1 ac.2 = Some a')
                       (zip args captures) args').
Proof.
  intros Hc. revert args. induction Hc as [|[start end_] captures Hin Hc IH]; intros [|a args] Hl; cbn in Hl.
  - exists true, []. split_and!; [done|done|]. split; [constructor|done].
  - lia.
  - exists true, []. split_and!; [done|done|]. split; [constructor|done].
  - destruct (IH args ltac:(lia)) as (b & args' & E & El & Eb). cbn [fill_args].
    assert (Hstep : forall a', stored text a (start, end_) = Some a' -> exists b0 args0,
      ('(b, l) ← fill_args text args captures; Returns (b, a' :: l)) = Returns (b0, args0)
      /\ length args0 = S (length args)
      /\ (b0 = true <-> Forall2 (fun ac a' => stored text ac.1 ac.2 = Some a')
            (zip (a :: args) ((start, end_) :: captures)) args0)).
    { intros a' Ha. rewrite E. cbn. exists b, (a' :: args'). split_and!; [done|cbn; lia|].
      rewrite Eb. split; [by intros; constructor|by inversion 1]. }
    destruct start as [start|]; [|by apply (Hstep (SetDefault a))].
    destruct Hin as (z & Hz & Hr). cbn in Hz. subst end_.
    rewrite (proj2 (Nat.ltb_ge _ _)) by (cbn in Hr; lia). cbn [stored] in Hstep.
    destruct (Parse a _) as [p a'] eqn:Ep. destruct p; [by apply (Hstep a')|].
    exists false, (a' :: args). split_and!; [done|done|]. split; [done|].
    inversion 1 as [|? ? ? ? Hx]; subst. cbn in Hx. by rewrite Ep in Hx.
Qed.

(** [FullMatch] with typed arguments never misbehaves; it answers true exactly when the
    pattern matches the whole text and every capture of that match parses as the type of its
    argument, and then the arguments hold the parsed captures, the missing ones their
    default. *)
Theorem full_match_args_correct (self : nat) (pattern text : list Z) (args : list Arg)
    (ctx : MatchContext)
    (Hok : ok (new_engine pattern Extended) = true) (Hbytes : Forall is_byte text)
    (Hctx : context_ok ctx) (Hframes : frames_suffice (new_engine pattern Extended) (length text))
    (Hargs : (0 < length args <= num_captures_ (new_engine pattern Extended))%nat) :
  exists b args' ctx', FullMatchN text (new_regex self pattern) args ctx = Returns (b, args', ctx')
    /\ context_ok ctx' /\ length args' = length args
    /\ (b = true <-> exists captures,
          matches_all pattern Extended text
          /\ captures_of pattern Extended text (Some (length text)) captures true false
          /\ find_prefix_captures self (new_engine pattern Extended) text ctx true
             = (Some (length text), captures, ctx')
          /\ Forall2 (fun ac a' => stored text ac.1 ac.2 = Some a') (zip args captures) args').
Proof.
  unfold FullMatchN, new_regex, NumberOfCapturingGroups. cbn [engine_ engine_self re_num_captures_].
  rewrite Hok. cbn [negb]. rewrite (proj2 (Nat.ltb_ge _ _)) by lia.
  rewrite (proj2 (Nat.eqb_neq _ _)) by lia.
  pose proof (capturing_longest pattern Extended Hok text Hbytes self ctx true false Hctx) as H.
  unfold find_prefix_captures.
  destruct (find_prefix_with_context _ _ _ _ _ _) as [[len captures] ctx'].
  destruct H as (Hctx' & Hcap & Hlong). specialize (Hlong Hframes).
  pose proof (longest_all pattern Extended text len Hbytes Hlong) as Hall.
  case_bool_decide as Hlen.
  - subst len. destruct (captures_spans pattern Extended Hok text Hbytes _ _ _ _ Hcap) as [Hn Hin].
    destruct (fill_args_spec text (length text) args captures Hin ltac:(lia)) as (b & args' & E & El & Eb).
    rewrite E. cbn. exists b, args', ctx'. split_and!; [done..|]. rewrite Eb. split.
    + intros HF. exists captures. by split_and!; [apply Hall|..].
    + by intros (caps & _ & _ & [= <-] & HF).
  - exists false, args, ctx'. split_and!; [done..|]. split; [done|].
    intros (caps & _ & _ & [= -> ->] & _). done.
Qed.

Lemma full_match_args_correct_witness :
  exists args' ctx',
    FullMatchN (bytes "12-cd") (new_regex 7 (bytes "(\d+)-(x)?(\w+)"))
      [mkArg (Some (DIntegral (mkIntType 32 true) 0)); mkArg (Some (DString (bytes "old")));
       mkArg (Some (DString []))] new_context
    = Returns (true, args', ctx')
    /\ args' = [mkArg (Some (DIntegral (mkIntType 32 true) 12)); mkArg (Some (DString []));
                mkArg (Some (DString (bytes "cd")))]
    /\ matches_all (bytes "(\d+)-(x)?(\w+)") Extended (bytes "12-cd").
Proof.
  pose proof (full_match_args_correct 7 (bytes "(\d+)-(x)?(\w+)") (bytes "12-cd")
    [mkArg (Some (DIntegral (mkIntType 32 true) 0)); mkArg (Some (DString (bytes "old")));
     mkArg (Some (DString []))] new_context ltac:(vm_compute; reflexivity)
    ltac:(apply bytes_checked; reflexivity) new_context_ok ltac:(vm_compute; discriminate)
    ltac:(vm_compute; lia)) as (b & args' & ctx' & E & _ & _ & Hb).
  assert (Ev : match FullMatchN (bytes "12-cd") (new_regex 7 (bytes "(\d+)-(x)?(\w+)"))
      [mkArg (Some (DIntegral (mkIntType 32 true) 0)); mkArg (Some (DString (bytes "old")));
       mkArg (Some (DString []))] new_context with
      | Returns (b, args, _) => Some (b, args) | _ => None end
    = Some (true, [mkArg (Some (DIntegral (mkIntType 32 true) 12)); mkArg (Some (DString []));
                mkArg (Some (DString (bytes "cd")))])) by (vm_compute; reflexivity).
  rewrite E in Ev. assert (Ea := f_equal (fun o => default [] (snd <$> o)) Ev).
  assert (Eb := f_equal (fun o => default false (fst <$> o)) Ev). cbn in Ea, Eb. subst b.
  exists args', ctx'. split_and!; [exact E|exact Ea|].
  destruct (proj1 Hb eq_refl) as (captures & H & _). exact H.
Defined.

(** * [GlobalReplace] *)

(** A slice of the input. *)
Definition slice (s : list Z) (a b : nat) : list Z := take (b - a) (drop a s).

Lemma substr_slice s a b : (a <= b <= length s)%nat -> Z.of_nat (length s) < 2 ^ 63 ->
  substr s (Z.of_nat a) (u64 (Z.of_nat b - Z.of_nat a)) = Returns (slice s a b).
Proof.
  intros H Hs. rewrite u64_id by lia. rewrite substr_returns by lia. unfold slice.
  by rewrite <-Nat2Z.inj_sub, !Nat2Z.id by lia.
Qed.

Lemma substr_len s a n : (a <= length s)%nat ->
  substr s (Z.of_nat a) (Z.of_nat n) = Returns (slice s a (a + n)).
Proof.
  intros H. rewrite substr_returns by lia. unfold slice. rewrite !Nat2Z.id. do 2 f_equal. lia.
Qed.

(** All the digits a text starts with and what follows them, and the number they are *)
Fixpoint span_digits (s : list Z) : list Z * list Z :=
  match s with
  | c :: s' => if is_digit c then let '(ds, rest) := span_digits s' in (c :: ds, rest) else ([], s)
  | [] => ([], [])
  end.
Definition decimal (from : Z) (ds : list Z) : Z := foldl (fun n c => n * 10 + (c - 48)) from ds.

(** The rewrite text as items: a character, or a capture index, which is all the digits after a
    backslash; a backslash before another character quotes it, and one at the end is itself. *)
Fixpoint rewrite_items (fuel : nat) (rewrite : list Z) : list (Z + Z) :=
  match fuel, rewrite with
  | S fuel, ch :: next :: after =>
      if ch =? 92 then
        if is_digit next then
          let '(ds, rest) := span_digits (next :: after) in
          inr (decimal 0 ds) :: rewrite_items fuel rest
        else inl next :: rewrite_items fuel after
      else inl ch :: rewrite_items fuel (next :: after)
  | S _, [ch] => [inl ch]
  | _, _ => []
  end.

(** The text of an item: index 0 is the match, the others the captures, and a capture that
    is missing or does not exist is nothing. *)
Definition item_text (input : list Z) (start len : nat) (captures : list Capture) (i : Z + Z)
    : list Z :=
  match i with
  | inl ch => [ch]
  | inr idx =>
      if idx =? 0 then slice input start (start + len)
      else match captures !! (Z.to_nat idx - 1)%nat with
           | Some (Some a, Some b) => slice input a b
           | _ => []
           end
  end.
Definition expansion (rewrite input : list Z) (start len : nat) (captures : list Capture) : list Z :=
  concat (item_text input start len captures <$> rewrite_items (length rewrite) rewrite).

(** The loop that reads an index stops after the digit that takes it over [MaxCaptures]: it reads all
    the digits of an index that is no larger than [MaxCaptures] without its last digit. *)
Definition item_read (i : Z + Z) : bool := match i with inl _ => true | inr idx => idx / 10 <=? MaxCaptures end.
Definition indices_read (rewrite : list Z) : Prop := forallb item_read (rewrite_items (length rewrite) rewrite) = true.

Lemma digit_value c : is_digit c = true -> 0 <= c - 48 <= 9.
Proof. unfold is_digit. lia. Qed.
Lemma span_digits_digits s : Forall (fun c => is_digit c = true) (span_digits s).1.
Proof.
  induction s as [|c s IH]; cbn [span_digits]; [by constructor|]. destruct (is_digit c) eqn:E; [|by constructor].
  destruct (span_digits s). by constructor.
Qed.
Lemma span_digits_rest s : (length (span_digits s).2 <= length s)%nat.
Proof.
  induction s as [|c s IH]; cbn [span_digits]; [done|]. destruct (is_digit c); [|done].
  destruct (span_digits s). cbn in *. lia.
Qed.
Lemma decimal_grows n ds : Forall (fun c => is_digit c = true) ds -> 0 <= n -> n <= decimal n ds.
Proof.
  intros H. revert n. induction H as [|c ds Hc _ IH]; intros n Hn; [done|]. apply digit_value in Hc.
  specialize (IH (n * 10 + (c - 48))). unfold decimal in *. cbn [foldl]. lia.
Qed.

(** What the loop reads then *)
Lemma rewrite_index_decimal s : forall n, 0 <= n <= MaxCaptures ->
  decimal n (span_digits s).1 / 10 <= MaxCaptures ->
  rewrite_index n s = (decimal n (span_digits s).1, (span_digits s).2).
Proof.
  induction s as [|c s IH]; intros n Hn; cbn [rewrite_index span_digits]; [done|].
  destruct (is_digit c) eqn:E; [|done]. apply digit_value in E. unfold MaxCaptures in *.
  rewrite (u64_id (n * 10)), (u64_id (n * 10 + (c - 48))) by lia. pose proof (span_digits_digits s) as Hd.
  destruct (span_digits s) as [ds rest] eqn:Es. cbn [fst snd] in *. unfold decimal in *. cbn [foldl].
  set (k := n * 10 + (c - 48)) in *. intros Hk. destruct (Z.ltb_spec 64 k) as [Hlt|Hle]; [|apply (IH k); [lia|done]].
  destruct ds as [|d ds].
  - destruct s as [|d s]; cbn [span_digits] in Es; [by injection Es as <-|].
    destruct (is_digit d); [by destruct (span_digits s)|]. by injection Es as <-.
  - exfalso. destruct (proj1 (list.Forall_cons _ _ _) Hd) as [Hd1 Hds]. clear Hd. rename Hd1 into Hd. apply digit_value in Hd. cbn [foldl] in Hk.
    pose proof (decimal_grows (k * 10 + (d - 48)) ds Hds ltac:(lia)) as H. unfold decimal in H.
    pose proof (Z.div_le_lower_bound (foldl (fun n c => n * 10 + (c - 48)) (k * 10 + (d - 48)) ds) 10 65 ltac:(lia) ltac:(lia)). lia.
Qed.
Lemma span_digits_moves c s : is_digit c = true -> (length (span_digits (c :: s)).2 <= length s)%nat.
Proof. intros E. cbn [span_digits]. rewrite E. pose proof (span_digits_rest s). by destruct (span_digits s). Qed.

(** The captures of a match between [start] and [start + len]. *)
Definition captures_within (len : nat) (captures : list Capture) : Prop :=
  Forall (fun c => c.1 = None \/ exists a b, c = (Some a, Some b) /\ (a <= b <= len)%nat) captures.

Lemma append_rewrite_items fuel rewrite out input start len captures :
  (length rewrite <= fuel)%nat -> (start + len <= length input)%nat ->
  captures_within (length input) captures -> forallb item_read (rewrite_items fuel rewrite) = true ->
  append_rewrite fuel rewrite out input start len captures
  = Returns (out ++ concat (item_text input start len captures <$> rewrite_items fuel rewrite)).
Proof.
  intros Hf Hsl Hc. revert rewrite out Hf. induction fuel as [|fuel IH]; intros rewrite out Hf.
  { destruct rewrite; [|cbn in Hf; lia]. cbn. by rewrite app_nil_r. }
  destruct rewrite as [|ch [|next after]]; [by cbn; rewrite app_nil_r|done|].
  cbn [append_rewrite rewrite_items]. cbn [length] in Hf.
  destruct (ch =? 92); [|intros Hr; rewrite IH by (done || cbn; lia); cbn; by rewrite <-app_assoc].
  destruct (is_digit next) eqn:Ed; [|intros Hr; rewrite IH by (done || lia); cbn; by rewrite <-app_assoc].
  pose proof (span_digits_moves next after Ed) as Hm. pose proof (span_digits_digits (next :: after)) as Hdig.
  pose proof (rewrite_index_decimal (next :: after) 0 ltac:(done)) as Hidx.
  destruct (span_digits (next :: after)) as [ds rest]. cbn [fst snd] in *. cbn [forallb item_read].
  intros [Hr1 Hr]%andb_true_iff. apply Z.leb_le in Hr1. rewrite Hidx by done. clear Hidx.
  pose proof (decimal_grows 0 ds Hdig ltac:(done)) as Hi. revert Hr1 Hi. generalize (decimal 0 ds). intros idx _ Hi.
  set (o := if idx =? 0 then _ else _).
  assert (Ho : o = Returns (out ++ item_text input start len captures (inr idx))).
  { unfold o, item_text. destruct (Z.eqb_spec idx 0) as [->|Hne].
    - rewrite substr_len by lia. done.
    - destruct (Z.leb_spec idx (Z.of_nat (length captures))) as [Hle|Hgt].
      + replace (Z.to_nat (idx - 1)) with (Z.to_nat idx - 1)%nat by lia.
        destruct (lookup_lt_is_Some_2 captures (Z.to_nat idx - 1)%nat ltac:(lia)) as [c Hl].
        erewrite nth_lookup_Some by exact Hl. unfold Capture in *. rewrite Hl.
        pose proof (Forall_lookup_1 _ _ _ _ Hc Hl) as [Hn|(a & b & -> & Hab)].
        * destruct c as [x y]. cbn in Hn. subst x. by rewrite app_nil_r.
        * rewrite (proj2 (Nat.leb_le _ _)) by lia. rewrite substr_len by lia. cbn.
          do 2 f_equal. unfold slice. f_equal. lia.
      + unfold Capture in *. rewrite lookup_ge_None_2 by lia. by rewrite app_nil_r. }
  rewrite Ho. cbn [mbind outcome_bind fmap list_fmap concat]. rewrite IH by (done || lia).
  by rewrite <-app_assoc.
Qed.

Section Replace.
Context (self : nat) (pattern rewrite input : list Z).
Local Abbreviation e := (new_engine pattern Extended).
Context (Hok : ok e = true) (Hbytes : Forall is_byte input).
Context (Hframes : frames_suffice e (length input)).
Context (Hsize : Z.of_nat (length input) < 2 ^ 63).
Context (Hindices : indices_read rewrite).

(** The first match from [pos] on: where it starts, its length and its captures. *)
Definition next_match (pos start len : nat) (captures : list Capture) : Prop :=
  search_ok pattern Extended input pos (mkSearch (Some start) len) captures.
Definition no_match (pos : nat) : Prop :=
  search_ok pattern Extended input pos not_found [].

(** What the text from [pos] on becomes, and how many matches are replaced: the text up to
    the leftmost match is kept, the match is replaced by the expansion of the rewrite, and
    the rest is treated the same way; after an empty match a whole code point is kept. *)
Inductive replaced : nat -> list Z -> nat -> Prop :=
  | replaced_none pos : no_match pos -> replaced pos (drop pos input) 0
  | replaced_step pos start len captures out n :
      next_match pos start len captures -> (0 < len)%nat ->
      replaced (start + len) out n ->
      replaced pos (slice input pos start ++ expansion rewrite input start len captures ++ out) (S n)
  | replaced_empty pos start captures out n :
      let next := (start + (decode_rune input start).2)%nat in
      next_match pos start 0 captures -> (start < length input)%nat ->
      replaced next out n ->
      replaced pos (slice input pos start ++ expansion rewrite input start 0 captures
                    ++ slice input start next ++ out) (S n)
  | replaced_end pos captures :
      next_match pos (length input) 0 captures ->
      replaced pos (slice input pos (length input)
                    ++ expansion rewrite input (length input) 0 captures) 1.

Lemma probe_at_mono s start i : (start <= probe_at s start i)%nat.
Proof. induction i as [|i IH]; cbn; lia. Qed.

Lemma longest_within s at_start prev n : Forall is_byte s ->
  longest_of pattern Extended s at_start prev (Some n) -> (n <= length s)%nat.
Proof.
  intros Hb (pr & tree & _ & k & -> & Hm & _).
  rewrite <-(offset_end s Hb). pose proof (match_within _ _ _ _ _ Hb Hm) as Hk.
  destruct (decide (k = length (spans s))) as [->|]; [done|].
  pose proof (offset_mono s Hb k (length (spans s)) ltac:(lia)). lia.
Qed.

Lemma next_match_within pos start len captures : (pos <= length input)%nat ->
  next_match pos start len captures ->
  (pos <= start)%nat /\ (start + len <= length input)%nat
  /\ captures_within (length input) captures.
Proof.
  intros Hp (i & found & -> & _ & Hl & Hc & ->). cbn [match_start_ match_len] in *.
  pose proof (probe_at_mono input pos i). pose proof (probe_at_bound input pos i Hbytes Hp).
  apply longest_within in Hl; [|by apply Forall_drop]. rewrite length_drop in Hl.
  split_and!; [done|lia|]. unfold captures_within.
  destruct (captures_spans _ _ Hok _ (Forall_drop _ _ _ Hbytes) _ _ _ _ Hc) as [_ Hin].
  apply Forall_map. eapply Forall_impl; [|exact Hin]. intros [a b] Hab. unfold capture_in in Hab.
  cbn in Hab |- *. unfold shift_capture. cbn. destruct a as [a|]; [|by left].
  right. destruct Hab as (z & -> & ?). cbn. eexists _, _. split; [done|]. lia.
Qed.

(** A search in the loop of [GlobalReplace] *)
Lemma replace_search pos ctx : context_ok ctx -> (pos <= length input)%nat ->
  exists res captures ctx', search self e input ctx pos = (res, captures, ctx')
    /\ context_ok ctx'
    /\ match match_start_ res with
       | None => no_match pos
       | Some start => next_match pos start (match_len res) captures
       end.
Proof.
  intros Hctx Hp.
  pose proof (search_loop_ok pattern Extended Hok input Hbytes Hframes (S (length input - pos)) self
    pos ctx Hctx Hp ltac:(lia)) as H.
  unfold search. rewrite Hok. cbn [negb].
  destruct (search_loop _ _ _ _ _ _) as [[res captures] ctx'] eqn:E. destruct H as [H1 H2].
  exists res, captures, ctx'. split_and!; [done..|]. unfold next_match, no_match.
  destruct res as [[start|] len]; [done|]. cbn in H2 |- *. destruct H2 as [_ H2].
  split; [done|exact H2].
Qed.

Lemma replace_loop_replaced fuel pos output count ctx :
  (length input - pos + 1 < fuel)%nat -> (pos <= length input)%nat -> context_ok ctx ->
  0 <= count -> count + Z.of_nat (length input - pos) + 1 < 2 ^ 64 ->
  exists out n ctx', replace_loop fuel (new_regex self pattern) rewrite input output pos count ctx
      = Returns (output ++ out, count + Z.of_nat n, ctx')
    /\ context_ok ctx' /\ replaced pos out n.
Proof.
  revert pos output count ctx. induction fuel as [|fuel IH]; intros pos output count ctx Hf Hp Hctx Hc0 Hc; [lia|].
  cbn [replace_loop]. rewrite (proj2 (Nat.ltb_ge _ _) Hp).
  destruct (replace_search pos ctx Hctx Hp) as (res & captures & ctx' & E & Hctx' & Hres).
  unfold new_regex at 1 2. cbn [engine_self engine_]. rewrite E.
  destruct (match_start_ res) as [start|].
  2: { rewrite substr_returns by lia. cbn [mbind outcome_bind].
    exists (drop pos input), 0%nat, ctx'. split_and!; [|done|by constructor].
    rewrite Nat2Z.id, Z.add_0_r, take_ge; [done|]. rewrite length_drop. unfold Source.npos. lia. }
  destruct (next_match_within _ _ _ _ Hp Hres) as (H1 & H2 & H3). set (len := match_len res) in *.
  rewrite substr_slice by lia. cbn [mbind outcome_bind].
  rewrite append_rewrite_items by (done || lia). fold (expansion rewrite input start len captures).
  rewrite u64_id by lia. cbn [mbind outcome_bind].
  destruct (Nat.eqb_spec len 0) as [Hl|Hl].
  - rewrite Hl in *. destruct (Nat.leb_spec (length input) start) as [Hge|Hlt].
    + assert (start = length input) as -> by lia.
      eexists _, 1%nat, ctx'. split_and!; [by rewrite <-app_assoc|done|by constructor].
    + pose proof (decode_rune_bounds input Hbytes start Hlt) as Hn.
      set (n := (decode_rune input start).2) in *.
      assert (1 <= n <= 4 /\ start + n <= length input)%nat as [? ?]
        by (unfold n; destruct (decode_rune input start); cbn; lia).
      rewrite substr_len by lia. cbn [mbind outcome_bind].
      destruct (IH (start + n)%nat (((output ++ slice input pos start)
        ++ expansion rewrite input start 0 captures) ++ slice input start (start + n)) (count + 1) ctx')
        as (out & k & ctx2 & E2 & Hctx2 & Hout); [lia|lia|done|lia|lia|].
      rewrite E2. eexists _, (S k), ctx2. split_and!; [|done|by eapply replaced_empty].
      rewrite <-!app_assoc. do 3 f_equal. lia.
  - destruct (IH (start + len)%nat ((output ++ slice input pos start)
        ++ expansion rewrite input start len captures) (count + 1) ctx')
        as (out & k & ctx2 & E2 & Hctx2 & Hout); [lia|lia|done|lia|lia|].
    rewrite E2. eexists _, (S k), ctx2. split_and!; [|done|eapply replaced_step; [done|lia|done]].
    rewrite <-!app_assoc. do 3 f_equal. lia.
Qed.
End Replace.

(** C25: [GlobalReplace] of a pattern that compiles ends, and the new text is the old one with the
    leftmost longest match from each position on replaced by the expansion of the rewrite, the text
    between the matches and the code point after an empty match kept; the result counts the
    replacements, capped at the largest [int].  In the expansion all the digits after a backslash are
    the index of a capture.  This holds while the arena of the captures has a frame for every thread
    ([frames_suffice]; a thread without one is dropped), and for a rewrite whose indices are no
    larger than [MaxCaptures] without their last digit ([indices_read]; of a larger one the code leaves
    digits in the output, [rewrite_index_leaves_digits]). *)
Theorem global_replace_correct (self : nat) (pattern rewrite input : list Z) (ctx : MatchContext)
    (Hok : ok (new_engine pattern Extended) = true) (Hbytes : Forall is_byte input)
    (Hframes : frames_suffice (new_engine pattern Extended) (length input))
    (Hsize : Z.of_nat (length input) < 2 ^ 63) (Hindices : indices_read rewrite) (Hctx : context_ok ctx) :
  exists out n ctx',
    GlobalReplace self (Some input) pattern rewrite ctx
      = Returns (Z.min (Z.of_nat n) (2 ^ 31 - 1), Some out, ctx')
    /\ context_ok ctx' /\ replaced pattern rewrite input 0 out n.
Proof.
  unfold GlobalReplace. unfold new_regex at 1. unfold regex_ok. cbn [engine_]. rewrite Hok. cbn [negb].
  destruct (replace_loop_replaced self pattern rewrite input Hok Hbytes Hframes Hsize Hindices
    (S (S (length input))) 0 [] 0 ctx) as (out & n & ctx' & E & Hc & Hr); [lia|lia|done|lia|lia|].
  rewrite E. by exists out, n, ctx'.
Qed.

Lemma global_replace_correct_witness :
  exists out n ctx',
    GlobalReplace 7 (Some (bytes "key=12 x=") ) (bytes "(\w+)=(\d*)") (bytes "\2:\1") new_context
      = Returns (Z.min (Z.of_nat n) (2 ^ 31 - 1), Some out, ctx')
    /\ out = bytes "12:key :x"
    /\ replaced (bytes "(\w+)=(\d*)") (bytes "\2:\1") (bytes "key=12 x=") 0 out n.
Proof.
  pose proof (global_replace_correct 7 (bytes "(\w+)=(\d*)") (bytes "\2:\1") (bytes "key=12 x=")
    new_context ltac:(vm_compute; reflexivity) ltac:(apply bytes_checked; reflexivity)
    ltac:(vm_compute; discriminate) ltac:(vm_compute; reflexivity) ltac:(vm_compute; reflexivity) new_context_ok)
    as (out & n & ctx' & E & _ & Hr).
  assert (Ev : match GlobalReplace 7 (Some (bytes "key=12 x=") ) (bytes "(\w+)=(\d*)") (bytes "\2:\1")
      new_context with Returns (_, Some out, _) => out | _ => [] end = bytes "12:key :x")
    by (vm_compute; reflexivity).
  rewrite E in Ev. exists out, n, ctx'. split_and!; [exact E|exact Ev|exact Hr].
Defined.

(** The comment says all the digits are read; the index stops after the digit that takes it
    over [MaxCaptures], and the digits that follow are copied to the output. *)
Lemma rewrite_index_leaves_digits :
  rewrite_index 0 (bytes "999") = (99, bytes "9")
  /\ match GlobalReplace 7 (Some (bytes "a")) (bytes "a") (bytes "\999") new_context with
     | Returns (_, Some out, _) => out | _ => [] end = bytes "9".
Proof. split; vm_compute; reflexivity. Qed.
