(* ===== verification/TokenLayer.v ===== *)
(** [TRegexMatch], [TRegexIterator] and [TRegexSet] of [include/trieste/regex.h]: the regular
    expressions as the tokenizer uses them. *)
From S2P Require Import Prelude.
From S2P Require Import Utf8.
From S2P Require Import AsciiBitmap.
From S2P Require Import RuneClass.
From S2P Require Import RegexSyntax.
From S2P Require Import RegexSpec.
From S2P Require Import Nfa.
From S2P Require Import Closure.
From S2P Require Import ClosureCache.
From S2P Require Import Simulate.
From S2P Require Import MatchContext.
From S2P Require Import Capture.
From S2P Require Import Engine.
From S2P Require Import Source TRegex.
From stdpp Require Export base.
Open Scope Z_scope.

(** * [TRegexMatch] *)

Record TRegexMatch := mkRegexMatch {
  locations : list Location;
  matches : nat;
  ctx_ : MatchContext;
  captures_ : list Capture
}.

(** [TRegexMatch(max_capture)] *)
Definition new_regex_match (max_capture : nat) : TRegexMatch :=
  mkRegexMatch (replicate (max_capture + 1) null_location) 0 new_context [].

(** [std::vector::resize] to a larger size *)
Definition grow_locations (l : list Location) (n : nat) : list Location :=
  if (length l <? n)%nat then l ++ replicate (n - length l) null_location else l.

(** The location of a capture; one that is missing is an empty one after the match. *)
Definition capture_location (source : Source) (offset : Z) (matched_len : nat) (c : Capture) : Location :=
  match c with
  | (Some start, Some end_) =>
      if (end_ <? start)%nat then mkLocation source (u64 (offset + Z.of_nat matched_len)) 0
      else mkLocation source (u64 (offset + Z.of_nat start)) (Z.of_nat (end_ - start))
  | (Some start, None) =>
      mkLocation source (u64 (offset + Z.of_nat start)) (u64 (Source.npos - Z.of_nat start))
  | (None, _) => mkLocation source (u64 (offset + Z.of_nat matched_len)) 0
  end.

(** [locations[i] = f(i)] for every [i] of a list *)
Definition assign_locations (f : nat -> Location) (indices : list nat) (l : list Location) : list Location :=
  foldl (fun l i => <[i := f i]> l) l indices.

(** [TRegexMatch::match_regexp]; a failed match has changed [matches] and the captures. *)
Definition match_regexp (m : TRegexMatch) (regex : TRegex) (view : list Z) (source : Source)
    (offset : Z) : bool * TRegexMatch :=
  let matches := (NumberOfCapturingGroups regex + 1)%nat in
  let locs := grow_locations (locations m) matches in
  let '(matched_len, captures, ctx) :=
    regex_find_prefix_captures regex view (captures_ m) (ctx_ m) true in
  match matched_len with
  | None => (false, mkRegexMatch locs matches ctx captures)
  | Some matched_len =>
      let locs := <[O := mkLocation source offset (Z.of_nat matched_len)]> locs in
      let capture_count := Nat.min (length captures) (matches - 1) in
      let locs := assign_locations (fun i => capture_location source offset matched_len
                    (nth (i - 1) captures (MatchContext.npos, MatchContext.npos)))
                    (seq 1 capture_count) locs in
      let locs := assign_locations (fun _ => mkLocation source offset 0)
                    (seq (capture_count + 1) (matches - (capture_count + 1))) locs in
      (true, mkRegexMatch locs matches ctx captures)
  end.

(** [TRegexMatch::try_match] *)
Definition try_match := match_regexp.

(** [std::vector::at] *)
Definition vector_at {A} (l : list A) (i : nat) : outcome A :=
  match l !! i with Some a => Returns a | None => Throws end.

(** [TRegexMatch::at] *)
Definition match_at (m : TRegexMatch) (index : nat) : outcome Location :=
  if (matches m <=? index)%nat then vector_at (locations m) 0 else vector_at (locations m) index.

(** [TRegexMatch::parse<T>]; the type is that of [d], and what does not parse is [T()]. *)
Definition match_parse (m : TRegexMatch) (d : Dest) (index : nat) : outcome Dest :=
  if (matches m <=? index)%nat then Returns (default_dest d)
  else
    loc ← match_at m index;
    text ← view loc;
    Returns (default (default_dest d) (parse_dest d text)).
Definition parse_size_t (m : TRegexMatch) (index : nat) : outcome Z :=
  d ← match_parse m (DIntegral type_size_t 0) index;
  Returns (match d with DIntegral _ v => v | _ => 0 end).

(** * [TRegexIterator] *)

(** The source is not null. *)
Record TRegexIterator := mkIterator { it_source : SourceDef; pos_ : Z }.

Definition new_iterator (source : SourceDef) : TRegexIterator := mkIterator source 0.
Definition source_size (s : SourceDef) : Z := Z.of_nat (length (contents s)).

(** [TRegexIterator::empty] *)
Definition iterator_empty (it : TRegexIterator) : bool := source_size (it_source it) <=? pos_ it.

(** [TRegexIterator::current] *)
Definition current (it : TRegexIterator) : Location := mkLocation (Some (it_source it)) (pos_ it) 1.

(** [TRegexIterator::skip] *)
Definition skip (it : TRegexIterator) (count : Z) : TRegexIterator :=
  let len := source_size (it_source it) in
  mkIterator (it_source it) (if u64 (len - pos_ it) <? count then len else u64 (pos_ it + count)).

Definition advance (it : TRegexIterator) (n : Z) : TRegexIterator :=
  mkIterator (it_source it) (u64 (pos_ it + n)).

(** [TRegexIterator::consume] *)
Definition consume (it : TRegexIterator) (regex : TRegex) (m : TRegexMatch)
    : outcome (bool * TRegexMatch * TRegexIterator) :=
  remainder ← substr (contents (it_source it)) (pos_ it) Source.npos;
  let '(b, m) := match_regexp m regex remainder (Some (it_source it)) (pos_ it) in
  if (b : bool) then loc ← match_at m 0; Returns (true, m, advance it (len loc))
  else Returns (false, m, it).

(** * [TRegexSet] *)

Record TRegexSet := mkRegexSet {
  regexes_ : list TRegex;
  ascii_candidates_ : list (list nat);
  nonascii_candidates_ : list nat;
  empty_match_index_ : option nat
}.

(** A turn of the loop of [build_dispatch_table]; candidates are [uint16_t]s. *)
Definition dispatch_turn (t : TRegexSet) (ir : nat * TRegex) : TRegexSet :=
  let '(i, regex) := ir in
  let info := regex_first_char_info regex in
  let idx := Z.to_nat (u16 (Z.of_nat i)) in
  if can_match_empty info then
    mkRegexSet (regexes_ t) ((fun l => l ++ [idx]) <$> ascii_candidates_ t)
      (nonascii_candidates_ t ++ [idx])
      (match empty_match_index_ t with Some j => Some j | None => Some i end)
  else
    mkRegexSet (regexes_ t)
      (imap (fun b l => if bitmap_test (bitmap info) (Z.of_nat b) then l ++ [idx] else l)
         (ascii_candidates_ t))
      (if can_match_nonascii info then nonascii_candidates_ t ++ [idx] else nonascii_candidates_ t)
      (empty_match_index_ t).

(** [build_dispatch_table] *)
Definition build_dispatch_table (t : TRegexSet) : TRegexSet :=
  foldl dispatch_turn t (imap pair (regexes_ t)).

(** [TRegexSet(first, last, proj)] *)
Definition new_regex_set (regexes : list TRegex) : TRegexSet :=
  build_dispatch_table (mkRegexSet regexes (replicate 128 []) [] None).

(** The loop of [TRegexSet::match] over the candidates *)
Fixpoint match_candidates (set : TRegexSet) (candidates : list nat) (m : TRegexMatch)
    (view : list Z) (source : Source) (offset : Z) : outcome (option nat * TRegexMatch) :=
  match candidates with
  | [] => Returns (None, m)
  | idx :: candidates =>
      match regexes_ set !! idx with
      | None => Undefined
      | Some regex =>
          let '(b, m) := try_match m regex view source offset in
          if (b : bool) then Returns (Some idx, m)
          else match_candidates set candidates m view source offset
      end
  end.

(** [TRegexSet::match] *)
Definition set_match (set : TRegexSet) (m : TRegexMatch) (view : list Z) (source : Source)
    (offset : Z) : outcome (option nat * TRegexMatch) :=
  match view with
  | [] =>
      match empty_match_index_ set with
      | None => Returns (None, m)
      | Some i =>
          match regexes_ set !! i with
          | None => Undefined
          | Some regex =>
              let '(_, m) := try_match m regex view source offset in Returns (Some i, m)
          end
      end
  | first :: _ =>
      let candidates := if is_ascii first then nth (Z.to_nat first) (ascii_candidates_ set) []
                        else nonascii_candidates_ set in
      match_candidates set candidates m view source offset
  end.

(** [TRegexIterator::consume_first_match] *)
Definition consume_first_match (it : TRegexIterator) (m : TRegexMatch) (set : TRegexSet)
    : outcome (option nat * TRegexMatch * TRegexIterator) :=
  remainder ← substr (contents (it_source it)) (pos_ it) Source.npos;
  '(idx, m) ← set_match set m remainder (Some (it_source it)) (pos_ it);
  match idx with
  | Some _ => loc ← match_at m 0; Returns (idx, m, advance it (len loc))
  | None => Returns (None, m, it)
  end.
