(* ===== verification/TokenLayerFacts.v ===== *)
(** The dispatch table of [TRegexSet] loses no match, and consuming the first match is
    consuming the longest match of the first rule that has one. *)
From S2P Require Import Prelude.
From S2P Require Import Utf8.
From S2P Require Import AsciiBitmap.
From S2P Require Import RuneClass.
From S2P Require Import RegexSyntax.
From S2P Require Import RegexSpec.
From S2P Require Import Nfa.
From S2P Require Import Closure.
From S2P Require Import ClosureCache.
From S2P Require Import MatchContext.
From S2P Require Import Simulate.
From S2P Require Import Capture.
From S2P Require Import Engine.
From S2P Require Import CaptureSpec.
From S2P Require Import RegexCorrect.
From S2P Require Import RegexTheorems.
From S2P Require Import Source.
From S2P Require Import TRegex.
From S2P Require Import TokenLayer.
From stdpp Require Export base.
Open Scope Z_scope.

(** * Assignments to the locations *)

Lemma length_assign f is_ l : length (assign_locations f is_ l) = length l.
Proof.
  unfold assign_locations. revert l. induction is_ as [|i is_ IH]; intros l; [done|].
  cbn. by rewrite IH, length_insert.
Qed.

Lemma assign_other f a n l j : (j < a \/ a + n <= j)%nat ->
  assign_locations f (seq a n) l !! j = l !! j.
Proof.
  unfold assign_locations. revert a l. induction n as [|n IH]; intros a l Hj; [done|].
  cbn. rewrite IH by lia. by rewrite list_lookup_insert_ne by lia.
Qed.

Lemma assign_at f a n l j : (a <= j < a + n)%nat -> (j < length l)%nat ->
  assign_locations f (seq a n) l !! j = Some (f j).
Proof.
  unfold assign_locations. revert a l. induction n as [|n IH]; intros a l Hj Hl; [lia|].
  cbn. destruct (decide (a = j)) as [->|Hne].
  - change (assign_locations f (seq (S j) n) (<[j:=f j]> l) !! j = Some (f j)).
    rewrite assign_other by lia. by rewrite list_lookup_insert_eq.
  - apply IH; [lia|]. by rewrite length_insert.
Qed.

Lemma length_grow l n : length (grow_locations l n) = Nat.max (length l) n.
Proof.
  unfold grow_locations. destruct (Nat.ltb_spec (length l) n); [|lia].
  rewrite length_app, length_replicate. lia.
Qed.

(** * A rule and its match *)

(** A regular expression a constructor made. *)
Definition made (r : TRegex) : Prop := exists self pattern, r = new_regex self pattern.

(** The longest prefix a rule matches, if any; one that did not compile matches nothing. *)
Definition rule_longest (r : TRegex) (view : list Z) (b : option nat) : Prop :=
  if regex_ok r then longest_of (pattern_ r) Extended view true false b else b = None.

Definition rule_frames (len : nat) (r : TRegex) : Prop :=
  regex_ok r = true -> frames_suffice (engine_ r) len.

Lemma rule_longest_unique r view b b' : rule_longest r view b -> rule_longest r view b' -> b = b'.
Proof.
  unfold rule_longest. destruct (regex_ok r); [apply longest_of_unique|by intros -> ->].
Qed.

Lemma rule_longest_total r view : made r -> Forall is_byte view -> exists b, rule_longest r view b.
Proof.
  intros (self & pattern & ->) Hb. unfold rule_longest, regex_ok. cbn [engine_ pattern_ new_regex].
  destruct (ok (new_engine pattern Extended)) eqn:Hok; [|by exists None].
  pose proof (noncapturing_longest pattern Extended Hok view Hb 0 new_context true false new_context_ok) as H.
  destruct (find_prefix_noncapturing_with_context _ _ _ _ _ _) as [b ctx]. exists b. apply H.
Qed.

Lemma rule_longest_within r view n : Forall is_byte view -> rule_longest r view (Some n) ->
  (n <= length view)%nat.
Proof.
  intros Hb. unfold rule_longest. destruct (regex_ok r); [|done]. intros (pr & tree & _ & k & -> & Hm & _).
  rewrite <-(offset_end view Hb). pose proof (match_within _ _ _ _ _ Hb Hm) as Hk.
  destruct (decide (k = length (spans view))) as [->|]; [done|].
  pose proof (offset_mono view Hb k (length (spans view)) ltac:(lia)). lia.
Qed.

(** The location of a token or a capture of one: inside the match at [offset]. *)
Definition token_location (src : Source) (offset : Z) (n : nat) (l : Location) : Prop :=
  source l = src /\ offset <= pos l /\ 0 <= len l /\ pos l + len l <= offset + Z.of_nat n.

(** A [TRegexMatch] that can be used. *)
Record match_ok (m : TRegexMatch) : Prop := {
  match_context : context_ok (ctx_ m);
  match_nonempty : (0 < length (locations m))%nat;
  match_room : (matches m <= length (locations m))%nat
}.

Lemma new_regex_match_ok n : match_ok (new_regex_match n).
Proof.
  split; cbn; [exact new_context_ok|rewrite length_replicate; lia|lia].
Qed.

Lemma match_at_lookup m i l : (i < matches m)%nat -> locations m !! i = Some l ->
  match_at m i = Returns l.
Proof.
  intros Hi Hl. unfold match_at, vector_at. by rewrite (proj2 (Nat.leb_gt _ _) Hi), Hl.
Qed.

Lemma match_at_defined m i : match_ok m -> exists l, match_at m i = Returns l.
Proof.
  intros [_ H1 H2]. unfold match_at, vector_at. destruct (Nat.leb_spec (matches m) i).
  - destruct (lookup_lt_is_Some_2 (locations m) 0 H1) as [l ->]. by exists l.
  - destruct (lookup_lt_is_Some_2 (locations m) i ltac:(lia)) as [l ->]. by exists l.
Qed.

Lemma capture_location_in src offset n c :
  0 <= offset -> offset + Z.of_nat n < 2 ^ 64 -> capture_in n c ->
  token_location src offset n (capture_location src offset n c).
Proof.
  intros H1 H2 Hc. destruct c as [[a|] b]; unfold capture_in in Hc; cbn in Hc.
  - destruct Hc as (z & -> & Hz). cbn [capture_location]. rewrite (proj2 (Nat.ltb_ge _ _)) by lia.
    split; [done|]. cbn [pos len]. rewrite u64_id by lia. lia.
  - cbn [capture_location]. split; [done|]. cbn [pos len]. rewrite u64_id by lia. lia.
Qed.

Lemma match_regexp_spec m r view src offset :
  made r -> Forall is_byte view -> rule_frames (length view) r -> match_ok m ->
  0 <= offset -> offset + Z.of_nat (length view) < 2 ^ 64 ->
  let '(b, m') := match_regexp m r view src offset in
  match_ok m' /\
  if (b : bool) then exists n, rule_longest r view (Some n)
    /\ match_at m' 0 = Returns (mkLocation src offset (Z.of_nat n))
    /\ forall i l, match_at m' i = Returns l -> token_location src offset n l
  else rule_longest r view None.
Proof.
  intros (self & pattern & ->) Hb Hf [Hctx Hn Hr] Ho Hv. unfold match_regexp, rule_longest, regex_ok.
  unfold rule_frames, regex_ok in Hf. unfold regex_find_prefix_captures, NumberOfCapturingGroups.
  cbn [engine_ pattern_ engine_self re_num_captures_ new_regex] in *.
  set (total := (num_captures_ _ + 1)%nat).
  assert (Hg : (total <= length (grow_locations (locations m) total))%nat) by (rewrite length_grow; lia).
  assert (Htotal : (0 < total)%nat) by (unfold total; lia).
  destruct (ok (new_engine pattern Extended)) eqn:Hok; cbn [negb].
  2: { split; [|done]. split; cbn [ctx_ locations matches]; [done|lia|lia]. }
  pose proof (capturing_longest pattern Extended Hok view Hb self (ctx_ m) true false Hctx) as H.
  unfold find_prefix_captures.
  destruct (find_prefix_with_context _ _ _ _ _ _) as [[[n|] captures] ctx']; destruct H as (Hctx' & Hcap & Hl);
    specialize (Hl (Hf eq_refl)).
  2: { split; [|done]. split; cbn [ctx_ locations matches]; [done|lia|lia]. }
  destruct (captures_spans pattern Extended Hok view Hb _ _ _ _ Hcap) as [Hlc Hin].
  assert (Hcount : Nat.min (length captures) (total - 1) = length captures) by (unfold total; lia).
  rewrite Hcount. replace (total - (length captures + 1))%nat with 0%nat by (unfold total; lia).
  cbn [seq assign_locations foldl]. set (locs := assign_locations _ _ _).
  assert (Hlen : length locs = length (grow_locations (locations m) total))
    by (unfold locs; by rewrite length_assign, length_insert).
  assert (Hnv : (n <= length view)%nat)
    by (apply (rule_longest_within (new_regex self pattern)); [done|];
        unfold rule_longest, regex_ok; cbn [engine_ pattern_ new_regex]; by rewrite Hok).
  assert (H0 : locs !! 0%nat = Some (mkLocation src offset (Z.of_nat n)))
    by (unfold locs; rewrite assign_other by lia; apply list_lookup_insert_eq; lia).
  split; [split; cbn [ctx_ locations matches]; [done|lia|lia]|]. exists n. split_and!; [done|by apply match_at_lookup|].
  assert (Hfirst : token_location src offset n (mkLocation src offset (Z.of_nat n)))
    by (split; cbn; [done|lia]).
  intros i l. unfold match_at, vector_at. cbn [locations matches].
  destruct (Nat.leb_spec total i) as [Hi|Hi]; [rewrite H0; by intros [= <-]|].
  destruct (decide (i = 0)%nat) as [->|Hi0]; [rewrite H0; by intros [= <-]|].
  unfold locs. rewrite assign_at by (try rewrite length_insert; unfold total in *; lia).
  intros [= <-]. apply capture_location_in; [done|lia|].
  destruct (lookup_lt_is_Some_2 captures (i - 1)%nat ltac:(unfold total in *; lia)) as [c Hc].
  erewrite nth_lookup_Some by exact Hc. by eapply Forall_lookup_1.
Qed.

(** * The dispatch table *)

(** The indices, from [i], of the rules that pass a test. *)
Fixpoint indices_from (test : TRegex -> bool) (i : nat) (l : list TRegex) : list nat :=
  match l with
  | [] => []
  | r :: l => (if test r then [i] else []) ++ indices_from test (S i) l
  end.

Lemma indices_snoc test i l r :
  indices_from test i (l ++ [r]) = indices_from test i l ++ (if test r then [(i + length l)%nat] else []).
Proof.
  revert i. induction l as [|x l IH]; intros i; cbn; [by rewrite app_nil_r, Nat.add_0_r|].
  rewrite IH, <-app_assoc. by rewrite Nat.add_succ_r.
Qed.

Definition empty_test (r : TRegex) : bool := can_match_empty (regex_first_char_info r).
Definition ascii_test (b : nat) (r : TRegex) : bool :=
  empty_test r || bitmap_test (bitmap (regex_first_char_info r)) (Z.of_nat b).
Definition nonascii_test (r : TRegex) : bool :=
  empty_test r || can_match_nonascii (regex_first_char_info r).

(** The table holds the rules whose filter lets the byte through, in order. *)
Record table_ok (l : list TRegex) (t : TRegexSet) : Prop := {
  table_ascii : ascii_candidates_ t = (fun b => indices_from (ascii_test b) 0 l) <$> seq 0 128;
  table_nonascii : nonascii_candidates_ t = indices_from nonascii_test 0 l;
  table_empty : empty_match_index_ t = head (indices_from empty_test 0 l)
}.

Lemma head_snoc {A} (l : list A) x :
  head (l ++ [x]) = match head l with Some y => Some y | None => Some x end.
Proof. by destruct l. Qed.

Lemma imap_fmap_seq {A B} (f : nat -> A -> B) (g : nat -> A) a n :
  imap (fun i => f (a + i)%nat) (g <$> seq a n) = (fun b => f b (g b)) <$> seq a n.
Proof.
  revert a. induction n as [|n IH]; intros a; [done|]. cbn. rewrite Nat.add_0_r. f_equal.
  rewrite <-IH. apply imap_ext. intros i x _. cbn. by rewrite Nat.add_succ_r.
Qed.

Lemma build_table_ok regs : Z.of_nat (length regs) <= 65535 ->
  let t := new_regex_set regs in regexes_ t = regs /\ table_ok regs t.
Proof.
  intros Hlen. unfold new_regex_set, build_dispatch_table. cbn [regexes_].
  set (t0 := mkRegexSet regs (replicate 128 []) [] None).
  assert (H : forall l, Z.of_nat (length l) <= 65535 ->
    regexes_ (foldl dispatch_turn t0 (imap pair l)) = regs /\ table_ok l (foldl dispatch_turn t0 (imap pair l)));
    [|by apply H].
  induction l as [|r l IH] using rev_ind; intros Hl; [by split|].
  rewrite length_app in Hl. cbn in Hl. destruct IH as [IH1 [IHa IHn IHe]]; [lia|].
  rewrite imap_app, foldl_app. cbn [imap foldl compose]. rewrite Nat.add_0_r.
  set (t := foldl dispatch_turn t0 (imap pair l)) in *. unfold dispatch_turn.
  rewrite u16_id by lia. rewrite Nat2Z.id.
  destruct (can_match_empty (regex_first_char_info r)) eqn:Ee; (split; [done|]);
    split; cbn [ascii_candidates_ nonascii_candidates_ empty_match_index_];
    rewrite ?indices_snoc; unfold ascii_test, nonascii_test, empty_test; rewrite ?Ee.
  - rewrite IHa, <-list_fmap_compose. apply list_fmap_ext. intros i b _. cbn.
    rewrite indices_snoc. unfold ascii_test, empty_test. by rewrite Ee.
  - by rewrite IHn.
  - rewrite IHe, head_snoc. by destruct (head _).
  - rewrite IHa. rewrite (imap_fmap_seq (fun b l0 => if bitmap_test _ (Z.of_nat b) then l0 ++ [length l] else l0)
      (fun b => indices_from (ascii_test b) 0 l) 0 128).
    apply list_fmap_ext. intros i b _. rewrite indices_snoc. unfold ascii_test, empty_test.
    rewrite Ee. cbn [orb]. destruct (bitmap_test _ _); [done|by rewrite app_nil_r].
  - rewrite IHn. cbn [orb]. destruct (can_match_nonascii _); [done|by rewrite app_nil_r].
  - by rewrite IHe, app_nil_r.
Qed.

(** * The first rule that matches *)

(** The first rule that matches a prefix of [view], with its longest match. *)
Definition first_rule (regs : list TRegex) (view : list Z) (res : option (nat * nat)) : Prop :=
  match res with
  | Some (i, n) => exists r, regs !! i = Some r /\ rule_longest r view (Some n)
      /\ forall j r', (j < i)%nat -> regs !! j = Some r' -> rule_longest r' view None
  | None => forall j r, regs !! j = Some r -> rule_longest r view None
  end.

(** No ASCII character is written as an overlong encoding at the start of [view]. *)
Definition not_overlong (view : list Z) : Prop :=
  forall b0 s, view = b0 :: s -> b0 < 128 \/ 128 <= fst (decode_rune view 0).

(** The test of the candidate list for the byte that [view] starts with *)
Definition start_test (b0 : Z) : TRegex -> bool :=
  if is_ascii b0 then ascii_test (Z.to_nat b0) else nonascii_test.

Lemma start_test_spec b0 r : start_test b0 r = empty_test r ||
  if is_ascii b0 then bitmap_test (bitmap (regex_first_char_info r)) (Z.of_nat (Z.to_nat b0))
  else can_match_nonascii (regex_first_char_info r).
Proof. unfold start_test. by destruct (is_ascii b0). Qed.

Lemma skipped_no_match r b0 s : made r -> Forall is_byte (b0 :: s) -> not_overlong (b0 :: s) ->
  start_test b0 r = false -> rule_longest r (b0 :: s) None.
Proof.
  intros Hm Hb Ho Ht. destruct (rule_longest_total r (b0 :: s) Hm Hb) as [[n|] Hn]; [|done].
  exfalso. destruct Hm as (self & pattern & ->). unfold rule_longest, regex_ok in Hn.
  rewrite start_test_spec in Ht. unfold empty_test, regex_first_char_info in Ht.
  cbn [engine_ pattern_ new_regex] in *. destruct (ok (new_engine pattern Extended)) eqn:Hok; [|done].
  cbn [negb] in Ht. apply orb_false_iff in Ht as [He Ht].
  pose proof (first_char_longest pattern Extended s b0 true n Hok Hb (Ho b0 s eq_refl) Hn) as H.
  cbv zeta in H. destruct (n =? 0)%nat; [congruence|].
  unfold first_char_test in H. apply Forall_cons_1 in Hb as [[Hb0 _] _].
  destruct (is_ascii b0); cbn [negb] in H; [|congruence].
  rewrite Z2Nat.id in Ht by done. congruence.
Qed.

Section Scan.
Context (regs : list TRegex) (set : TRegexSet) (Hset : regexes_ set = regs).
Context (view : list Z) (src : Source) (offset : Z) (test : TRegex -> bool).
Context (Hmade : Forall made regs) (Hb : Forall is_byte view).
Context (Hframes : Forall (rule_frames (length view)) regs).
Context (Ho : 0 <= offset) (Hv : offset + Z.of_nat (length view) < 2 ^ 64).

(** A rule that matched, and what the match says of it. *)
Definition matched_by (res : option (nat * nat)) (m' : TRegexMatch) : Prop :=
  forall i n, res = Some (i, n) -> (exists r, regs !! i = Some r /\ rule_longest r view (Some n))
    /\ match_at m' 0 = Returns (mkLocation src offset (Z.of_nat n))
    /\ forall k t, match_at m' k = Returns t -> token_location src offset n t.

Lemma match_candidates_matched cands m : Forall (fun i => (i < length regs)%nat) cands -> match_ok m ->
  exists res m', match_candidates set cands m view src offset = Returns (fst <$> res, m')
    /\ match_ok m' /\ matched_by res m'.
Proof.
  intros Hc. revert m. induction Hc as [|i cands Hi _ IH]; intros m Hm; [by exists None, m|].
  cbn [match_candidates]. rewrite Hset. destruct (lookup_lt_is_Some_2 regs i Hi) as [r Hr]. rewrite Hr.
  unfold try_match. pose proof (match_regexp_spec m r view src offset (Forall_lookup_1 _ _ _ _ Hmade Hr) Hb
    (Forall_lookup_1 _ _ _ _ Hframes Hr) Hm Ho Hv) as H.
  destruct (match_regexp m r view src offset) as [[] m']; destruct H as [Hm' H]; [|by apply IH].
  destruct H as (n & Hn & Hat & Hall). exists (Some (i, n)), m'. split_and!; [done..|].
  intros j k [= <- <-]. split_and!; [by exists r|done|done].
Qed.

Context (Htest : forall r, r ∈ regs -> test r = false -> rule_longest r view None).

Lemma match_candidates_first pre l m : regs = pre ++ l -> match_ok m ->
  (forall j r, pre !! j = Some r -> rule_longest r view None) ->
  exists res m', match_candidates set (indices_from test (length pre) l) m view src offset
      = Returns (fst <$> res, m')
    /\ first_rule regs view res.
Proof.
  revert pre m. induction l as [|r l IH]; intros pre m Hregs Hm Hpre; cbn [indices_from].
  - exists None, m. split; [done|]. rewrite app_nil_r in Hregs. by subst pre.
  - assert (Hr : r ∈ regs) by (rewrite Hregs; set_solver).
    assert (Hpre' : rule_longest r view None -> forall j x, (pre ++ [r]) !! j = Some x -> rule_longest x view None).
    { intros Hno j x [Hj|[_ Hj]]%lookup_app_Some; [by eapply Hpre|].
      apply list_lookup_singleton_Some in Hj as [_ <-]. done. }
    assert (Hnext : regs = (pre ++ [r]) ++ l) by (by rewrite <-app_assoc).
    assert (Hlen : length (pre ++ [r]) = S (length pre)) by (rewrite length_app; cbn; lia).
    destruct (test r) eqn:Et.
    + cbn [app match_candidates]. rewrite Hset, Hregs, list_lookup_middle by done. rewrite <-Hregs.
      rewrite Forall_forall in Hmade, Hframes. unfold try_match.
      pose proof (match_regexp_spec m r view src offset (Hmade r ltac:(by apply list_elem_of_In)) Hb
        (Hframes r ltac:(by apply list_elem_of_In)) Hm Ho Hv) as H.
      destruct (match_regexp m r view src offset) as [[] m']; destruct H as [Hm' H].
      * destruct H as (n & Hn & _). exists (Some (length pre, n)), m'. split; [done|].
        exists r. split_and!; [by rewrite Hregs, list_lookup_middle|done|].
        intros j x Hj Hx. rewrite Hregs, lookup_app_l in Hx by done. by eapply Hpre.
      * destruct (IH (pre ++ [r]) m' Hnext Hm' (Hpre' H)) as (res & m2 & E & Hrest).
        rewrite Hlen in E. rewrite E. by exists res, m2.
    + destruct (IH (pre ++ [r]) m Hnext Hm (Hpre' (Htest r Hr Et))) as (res & m2 & E & Hrest).
      rewrite Hlen in E. cbn [app]. rewrite E. by exists res, m2.
Qed.
End Scan.

(** * Consuming *)

(** The rest of the source at the iterator. *)
Definition rest_at (s : SourceDef) (p : Z) : list Z := drop (Z.to_nat p) (contents s).

Record iterator_ok (it : TRegexIterator) : Prop := {
  it_pos : 0 <= pos_ it <= source_size (it_source it);
  it_size : source_size (it_source it) < 2 ^ 63
}.

Lemma remainder_at it : iterator_ok it ->
  substr (contents (it_source it)) (pos_ it) Source.npos = Returns (rest_at (it_source it) (pos_ it)).
Proof.
  intros [H1 H2]. unfold source_size in *. rewrite substr_returns by lia.
  unfold rest_at. rewrite take_ge; [done|]. rewrite length_drop. unfold Source.npos. lia.
Qed.

Lemma length_rest it : iterator_ok it ->
  Z.of_nat (length (rest_at (it_source it) (pos_ it))) = source_size (it_source it) - pos_ it.
Proof. intros [H1 H2]. unfold rest_at, source_size in *. rewrite length_drop. lia. Qed.

Lemma advance_ok it n : iterator_ok it -> (n <= length (rest_at (it_source it) (pos_ it)))%nat ->
  advance it (Z.of_nat n) = mkIterator (it_source it) (pos_ it + Z.of_nat n)
  /\ iterator_ok (advance it (Z.of_nat n)).
Proof.
  intros Hit Hn. pose proof (length_rest it Hit). destruct Hit as [H1 H2]. unfold advance.
  rewrite u64_id by lia. split; [done|]. split; cbn [it_source pos_]; [lia|done].
Qed.

Lemma skip_ok it : iterator_ok it -> pos_ it < source_size (it_source it) ->
  skip it 1 = mkIterator (it_source it) (pos_ it + 1) /\ iterator_ok (skip it 1).
Proof.
  intros [H1 H2] Hp. unfold skip. rewrite u64_id by lia.
  replace (_ <? 1) with false by lia. rewrite u64_id by lia.
  split; [done|]. split; cbn [it_source pos_]; [lia|done].
Qed.

Lemma rule_frames_le r a b : (a <= b)%nat -> rule_frames b r -> rule_frames a r.
Proof.
  intros Hab H Hr. specialize (H Hr). unfold frames_suffice in *. etrans; [|exact H].
  apply Nat2Z.inj_le, Nat.mul_le_mono_l, Nat.add_le_mono_l, Nat.mul_le_mono_r. lia.
Qed.

(** Rules that compiled or not, few enough to be indexed, whose frame arenas suffice. *)
Record rules_ok (regs : list TRegex) (size : nat) : Prop := {
  rules_made : Forall made regs;
  rules_count : Z.of_nat (length regs) <= 65535;
  rules_frames : Forall (rule_frames size) regs
}.

(** The candidates for a byte are rules. *)
Lemma indices_bound test i l k : k ∈ indices_from test i l -> (k < i + length l)%nat.
Proof.
  revert i. induction l as [|r l IH]; intros i; cbn; [by intros ?%elem_of_nil|].
  rewrite elem_of_app. intros [H|H]; [|apply IH in H; lia].
  destruct (test r); [apply list_elem_of_singleton in H; lia|by apply elem_of_nil in H].
Qed.

Lemma consume_first_match_spec regs it m :
  let rest := rest_at (it_source it) (pos_ it) in
  rules_ok regs (length (contents (it_source it))) -> Forall is_byte (contents (it_source it)) ->
  iterator_ok it -> rest <> [] -> match_ok m ->
  exists res m' it',
    consume_first_match it m (new_regex_set regs) = Returns (fst <$> res, m', it')
    /\ match_ok m' /\ (not_overlong rest -> first_rule regs rest res)
    /\ match res with
       | Some (i, n) => (exists r, regs !! i = Some r /\ rule_longest r rest (Some n))
           /\ (n <= length rest)%nat
           /\ match_at m' 0 = Returns (mkLocation (Some (it_source it)) (pos_ it) (Z.of_nat n))
           /\ (forall k t, match_at m' k = Returns t ->
                 token_location (Some (it_source it)) (pos_ it) n t)
           /\ it' = mkIterator (it_source it) (pos_ it + Z.of_nat n) /\ iterator_ok it'
       | None => it' = it
       end.
Proof.
  intros rest [Hmade Hcount Hframes] Hbytes Hit Hne Hm. unfold consume_first_match.
  rewrite remainder_at by done. cbn [mbind outcome_bind]. fold rest.
  destruct (build_table_ok regs Hcount) as [Hregs [Ha Hn _]].
  pose proof (length_rest it Hit) as Hlr. fold rest in Hlr.
  assert (Hb : Forall is_byte rest) by by apply Forall_drop.
  assert (Hf : Forall (rule_frames (length rest)) regs).
  { eapply Forall_impl; [|exact Hframes]. intros r. apply rule_frames_le.
    unfold rest, rest_at. rewrite length_drop. lia. }
  destruct rest as [|b0 s] eqn:Er; [done|]. unfold set_match.
  assert (Hb0 : 0 <= b0 < 256) by (by apply Forall_cons_1 in Hb as [? _]).
  assert (Hcand : (if is_ascii b0 then nth (Z.to_nat b0) (ascii_candidates_ (new_regex_set regs)) []
                   else nonascii_candidates_ (new_regex_set regs))
                  = indices_from (start_test b0) 0 regs).
  { unfold start_test. destruct (is_ascii b0) eqn:Eb; [|done]. unfold is_ascii in Eb.
    apply nth_lookup_Some. rewrite Ha, list_lookup_fmap, lookup_seq_lt by lia. cbn. done. }
  rewrite Hcand. destruct Hit as [Hp Hs].
  destruct (match_candidates_matched regs (new_regex_set regs) Hregs (b0 :: s) (Some (it_source it)) (pos_ it)
    Hmade Hb Hf ltac:(lia) ltac:(lia) (indices_from (start_test b0) 0 regs) m) as (res & m' & E & Hm' & Hat); [|done|].
  { apply Forall_forall. intros k Hk%list_elem_of_In%indices_bound. done. }
  assert (Hfirst : not_overlong (b0 :: s) -> first_rule regs (b0 :: s) res).
  { intros Ho. destruct (match_candidates_first regs (new_regex_set regs) Hregs (b0 :: s) (Some (it_source it)) (pos_ it)
      (start_test b0) Hmade Hb Hf ltac:(lia) ltac:(lia)
      (fun r Hr => skipped_no_match r b0 s (proj1 (Forall_forall _ _) Hmade r ltac:(by apply list_elem_of_In)) Hb Ho)
      [] regs m eq_refl Hm ltac:(done)) as (res' & m2 & E' & Hf').
    cbn [length] in E'. rewrite E in E'. injection E' as Eres _.
    assert (res = res') as ->; [|done]. destruct res as [[i n]|], res' as [[i' n']|]; try done.
    cbn in Eres. injection Eres as ->. destruct (Hat i' n eq_refl) as ((r & Hr & Hn1) & _).
    destruct Hf' as (r' & Hr' & Hn' & _). rewrite Hr in Hr'. injection Hr' as <-.
    pose proof (rule_longest_unique r _ _ _ Hn1 Hn'). congruence. }
  rewrite E. cbn [mbind outcome_bind].
  destruct res as [[i n]|]; cbn [fmap option_fmap option_map fst].
  2: { exists None, m', it. by split_and!. }
  destruct (Hat i n eq_refl) as ((r & Hr & Hrn) & H0 & Hall). rewrite H0. cbn [mbind outcome_bind len].
  pose proof (rule_longest_within r _ _ Hb Hrn) as Hn'.
  destruct (advance_ok it n ltac:(by split)) as [Ea Hi]; [by fold rest; rewrite Er|].
  exists (Some (i, n)), m', (advance it (Z.of_nat n)). split_and!; [done..|by exists r|done|done|done|done|done].
Qed.

(** C9: consuming the first match of a rule set, which looks only at the rules the dispatch
    table lists for the first byte, is consuming the longest match of the first rule, in the
    order they were given, that matches a prefix of the rest of the source; the iterator moves
    past it and the match locates it and its captures there, and nothing moves when no rule
    matches.  This is where something is left of the source (of nothing the wrong rule can be
    the answer, [empty_view_wrong_rule]), where what is left does not start with an overlong encoding of an ASCII
    character ([not_overlong]; the dispatch table leaves rules out that match one,
    [first_char_overlong]), and for at most 65535 rules whose arenas of captures have a frame for
    every thread ([rules_ok]). *)
Theorem consume_first_match_correct (regs : list TRegex) (it : TRegexIterator) (m : TRegexMatch)
    (Hrules : rules_ok regs (length (contents (it_source it))))
    (Hbytes : Forall is_byte (contents (it_source it))) (Hit : iterator_ok it)
    (Hrest : rest_at (it_source it) (pos_ it) <> [])
    (Hoverlong : not_overlong (rest_at (it_source it) (pos_ it))) (Hm : match_ok m) :
  exists res m' it',
    consume_first_match it m (new_regex_set regs) = Returns (fst <$> res, m', it')
    /\ match_ok m' /\ first_rule regs (rest_at (it_source it) (pos_ it)) res
    /\ match res with
       | Some (_, n) => (n <= length (rest_at (it_source it) (pos_ it)))%nat
           /\ match_at m' 0 = Returns (mkLocation (Some (it_source it)) (pos_ it) (Z.of_nat n))
           /\ (forall k t, match_at m' k = Returns t ->
                 token_location (Some (it_source it)) (pos_ it) n t)
           /\ it' = mkIterator (it_source it) (pos_ it + Z.of_nat n) /\ iterator_ok it'
       | None => it' = it
       end.
Proof.
  destruct (consume_first_match_spec regs it m Hrules Hbytes Hit Hrest Hm) as (res & m' & it' & E & H1 & H2 & H3).
  exists res, m', it'. split_and!; [done|done|by apply H2|]. destruct res as [[i n]|]; [apply H3|done].
Qed.

Definition sample_rules : list TRegex :=
  [new_regex 1 (bytes "if\b"); new_regex 2 (bytes "[[:alpha:]]+"); new_regex 3 (bytes "\d+|\p{Lu}")].

Lemma sample_rules_ok : rules_ok sample_rules 20.
Proof.
  split; [|vm_compute; discriminate|].
  - repeat (constructor; [by eexists _, _|]). constructor.
  - unfold sample_rules. repeat (constructor; [intros _; vm_compute; discriminate|]). constructor.
Qed.

Lemma consume_first_match_correct_witness :
  exists m' it',
    consume_first_match (mkIterator (synthetic 1 (bytes "iffy if 12 foo bar..") []) 0)
      (new_regex_match 10) (new_regex_set sample_rules) = Returns (Some 1%nat, m', it')
    /\ pos_ it' = 4 /\ match_ok m'.
Proof.
  set (it := mkIterator (synthetic 1 (bytes "iffy if 12 foo bar..") []) 0).
  destruct (consume_first_match_correct sample_rules it (new_regex_match 10)) as (res & m' & it' & E & Hm & _).
  - exact sample_rules_ok.
  - apply bytes_checked. vm_compute. reflexivity.
  - split; [vm_compute; split; discriminate|vm_compute; reflexivity].
  - vm_compute. discriminate.
  - intros b0 s H. left. vm_compute in H. injection H as <- _. reflexivity.
  - apply new_regex_match_ok.
  - assert (Ev : match consume_first_match it (new_regex_match 10) (new_regex_set sample_rules) with
      | Returns (r, _, it') => Some (r, pos_ it') | _ => None end = Some (Some 1%nat, 4))
      by (vm_compute; reflexivity).
    rewrite E in Ev. exists m', it'.
    pose proof (f_equal (fun o => default None (fst <$> o)) Ev) as E1.
    pose proof (f_equal (fun o => default 0 (snd <$> o)) Ev) as E2. cbn in E1, E2.
    rewrite E1 in E. split_and!; [exact E|exact E2|exact Hm].
Defined.

(** On an empty view [TRegexSet::match] answers with the first rule whose closure can accept
    the empty string under some combination of flags, without looking at whether it matched:
    here rule 0 does not match the empty view and rule 1 does, and the answer is rule 0. *)
Lemma empty_view_wrong_rule :
  let set := new_regex_set [new_regex 1 (bytes "\b"); new_regex 2 (bytes "a*")] in
  match set_match set (new_regex_match 0) [] None 0 with
  | Returns (idx, _) => idx | _ => None end = Some 0%nat
  /\ fst (find_prefix 1 (new_engine (bytes "\b") Extended) [] new_context true) = None
  /\ fst (find_prefix 2 (new_engine (bytes "a*") Extended) [] new_context true) = Some 0%nat.
Proof. vm_compute. by split_and!. Qed.
