(* ===== verification/FastPattern.v ===== *)
(** The index of a pattern by parent and first node ([class FastPattern] of
    [include/trieste/rewrite.h]). *)
From S2P Require Import Prelude.
From S2P Require Import Token.
From stdpp Require Export gmap.
Open Scope Z_scope.

(** [std::set<Token>] is a set: nothing depends on the order of its elements but the order
    in which one rule is entered under several tokens. *)
Record FastPattern := mkFast {
  starts : gset Token;
  parents : gset Token;
  pass_through : bool
}.

Definition set_empty (s : gset Token) : bool := bool_decide (s = ∅).

(** [any_first] *)
Definition any_first (f : FastPattern) : bool := set_empty (starts f) && negb (pass_through f).

(** [match_any], [match_pred], [match_token], [match_parent] *)
Definition match_any : FastPattern := mkFast ∅ ∅ false.
Definition match_pred : FastPattern := mkFast ∅ ∅ true.
Definition match_token (token : gset Token) : FastPattern := mkFast token ∅ false.
Definition match_parent (token : gset Token) : FastPattern := mkFast ∅ token true.

(** [match_choice] *)
Definition match_choice (lhs rhs : FastPattern) : FastPattern :=
  let union := negb (any_first rhs) && negb (any_first lhs) in
  let new_first := if union then starts lhs ∪ starts rhs else ∅ in
  let new_pass_through := if union then pass_through lhs || pass_through rhs else false in
  let new_parent :=
    if negb (set_empty (parents rhs)) && negb (set_empty (parents lhs))
    then parents lhs ∪ parents rhs else ∅ in
  mkFast new_first new_parent new_pass_through.

(** [match_seq] *)
Definition match_seq (lhs rhs : FastPattern) : FastPattern :=
  let '(new_first, new_pass_through) :=
    if pass_through lhs then
      if any_first rhs then (∅, false) else (starts lhs ∪ starts rhs, pass_through rhs)
    else (starts lhs, false) in
  let new_parent :=
    if set_empty (parents lhs) then parents rhs
    else if set_empty (parents rhs) then parents lhs
    else parents lhs ∩ parents rhs in
  mkFast new_first new_parent new_pass_through.

(** [match_opt] *)
Definition match_opt (pattern : FastPattern) : FastPattern :=
  if any_first pattern then pattern else mkFast (starts pattern) ∅ true.

(** * What an index promises *)

(** A match under a parent of type [parent], with the first node of type [first] if there is
    one, that is [empty] when nothing was consumed. *)
Record admits (f : FastPattern) (parent : Token) (first : option Token) (empty : Prop) : Prop := {
  admits_parent : parents f = ∅ \/ parent ∈ parents f;
  admits_first : any_first f = true \/ (pass_through f = true /\ empty)
                 \/ exists t, first = Some t /\ (t ∈ starts f)
}.

Lemma set_empty_true s : set_empty s = true <-> s = ∅.
Proof. unfold set_empty. apply bool_decide_eq_true. Qed.
Lemma set_empty_false s : set_empty s = false <-> s <> ∅.
Proof. unfold set_empty. apply bool_decide_eq_false. Qed.

Lemma any_first_spec f : any_first f = true <-> starts f = ∅ /\ pass_through f = false.
Proof. unfold any_first. rewrite andb_true_iff, set_empty_true, negb_true_iff. done. Qed.

Lemma admits_any p t (e : Prop) : admits match_any p t e.
Proof. split; [by left|left; by apply any_first_spec]. Qed.

Lemma admits_pred p t (e : Prop) : e -> admits match_pred p t e.
Proof. split; [by left|right; left; done]. Qed.

Lemma admits_choice_l l r p t (e : Prop) : admits l p t e -> admits (match_choice l r) p t e.
Proof.
  intros [Hp Hf]. unfold match_choice. split; cbn.
  - destruct (set_empty (parents r)) eqn:Er; cbn; [by left|].
    destruct (set_empty (parents l)) eqn:El; cbn; [by left|].
    apply set_empty_false in El. set_solver.
  - destruct (any_first r) eqn:Er; cbn; [left; by apply any_first_spec|].
    destruct (any_first l) eqn:El; cbn; [left; by apply any_first_spec|].
    destruct Hf as [?|[[-> ?]|(x & ? & ?)]]; [done|by right; left|].
    right. right. exists x. split; [done|set_solver].
Qed.

Lemma match_choice_comm l r : match_choice l r = match_choice r l.
Proof.
  unfold match_choice. rewrite (andb_comm (negb (any_first r))), (orb_comm (pass_through l)).
  rewrite (andb_comm (negb (set_empty (parents r)))), (union_comm_L (starts l)).
  by rewrite (union_comm_L (parents l)).
Qed.

Lemma admits_choice_r l r p t (e : Prop) : admits r p t e -> admits (match_choice l r) p t e.
Proof. rewrite match_choice_comm. apply admits_choice_l. Qed.

(** A match of [lhs] that goes on with a match of [rhs]; when [lhs] consumed nothing, [rhs]
    starts at the same node. *)
Lemma admits_seq l r p t t' (e1 e2 : Prop) :
  admits l p t e1 -> admits r p t' e2 -> (e1 -> t' = t) ->
  admits (match_seq l r) p t (e1 /\ e2).
Proof.
  intros [Hlp Hlf] [Hrp Hrf] Ht. unfold match_seq. split.
  - destruct (pass_through l), (any_first r); cbn;
      destruct (set_empty (parents l)) eqn:El; try done;
      destruct (set_empty (parents r)) eqn:Er; try done; right;
      apply set_empty_false in El, Er; set_solver.
  - destruct (pass_through l) eqn:El; cbn.
    2: { destruct Hlf as [H|[[H _]|H]]; [|congruence|by right; right].
         apply any_first_spec in H as [-> _]. left. by apply any_first_spec. }
    destruct (any_first r) eqn:Er; cbn; [left; by apply any_first_spec|].
    destruct Hlf as [H|[[_ H]|(x & -> & Hx)]].
    + apply any_first_spec in H as [_ ?]. congruence.
    + destruct Hrf as [?|[[-> He]|(y & Hy & Hin)]]; [done|by right; left|].
      right. right. exists y. rewrite <-(Ht H). split; [done|set_solver].
    + right. right. exists x. split; [done|set_solver].
Qed.

(** An optional pattern that did not match, and one that did.  The first needs that the index
    of a pattern that can start with anything has no parents: [match_opt] keeps them. *)
Lemma admits_opt_none f p t (e : Prop) : e -> (any_first f = true -> parents f = ∅) ->
  admits (match_opt f) p t e.
Proof.
  intros He Hp. unfold match_opt. destruct (any_first f) eqn:E.
  - split; [left; by apply Hp|by left].
  - split; [by left|right; by left].
Qed.

Lemma admits_opt_some f p t (e : Prop) : admits f p t e -> admits (match_opt f) p t e.
Proof.
  intros [Hp Hf]. unfold match_opt. destruct (any_first f) eqn:E; [split; [exact Hp|by left]|].
  split; [by left|]. right. cbn. destruct Hf as [?|[[_ ?]|?]]; [congruence|left; by split|by right].
Qed.

(** The parents of [In(Foo) * Any] are kept by its option, which also matches elsewhere. *)
Lemma match_opt_keeps_parents t :
  match_opt (match_seq (match_parent {[t]}) match_any) = mkFast ∅ {[t]} false.
Proof.
  unfold match_opt, match_seq, match_any, match_parent. cbn.
  replace (any_first (mkFast ∅ ∅ false)) with true by (symmetry; by apply any_first_spec). cbn.
  rewrite (proj2 (set_empty_false {[t]})) by set_solver.
  replace (any_first (mkFast ∅ {[t]} false)) with true by (symmetry; by apply any_first_spec).
  done.
Qed.
