(* ===== verification/Rewrite.v ===== *)
(** Patterns ([include/trieste/rewrite.h]): the captures of a match, the pattern nodes with
    their continuations, the operators that build patterns, and the operators that effects
    build nodes with. *)
From S2P Require Import Prelude.
From S2P Require Import Token.
From S2P Require Import Source.
From S2P Require Import Ast.
From S2P Require Import FastPattern.
From S2P Require Import TRegex.
From S2P Require Import MatchContext.
#[local] Set Warnings "-register-all".
Open Scope Z_scope.

(** * [NodeRange] *)

(** Two iterators into the children of one node; iterators are indices. *)
Record NodeRange := mkRange { range_of : Node; range_begin : nat; range_end : nat }.

(** [NodeRange()], the static [empty] of [Match::operator[]] *)
Definition empty_range : NodeRange := mkRange 1%positive 0 0.
Definition range_nodes (h : heap) (r : NodeRange) : list Node :=
  drop (range_begin r) (take (range_end r) (children_of h (range_of r))).
Definition range_empty (r : NodeRange) : bool := (range_begin r =? range_end r)%nat.
(** [front] of an empty range is undefined. *)
Definition range_front (h : heap) (r : NodeRange) : outcome Node :=
  or_undefined (head (range_nodes h r)).

(** * [Match] *)

Record Match := mkMatch {
  index : nat;
  captures : list (bool * gmap Token NodeRange)
}.

Definition new_match : Match := mkMatch 0 (replicate 16 (false, ∅)).

(** [captures[i]]; [index] is below the size ([match_ok]). *)
Definition frame (m : Match) (i : nat) : bool * gmap Token NodeRange :=
  default (false, ∅) (captures m !! i).

(** The loop of [Match::operator[]] and [operator()] from frame [i] down to 0. *)
Fixpoint find_capture (m : Match) (token : Token) (i : nat) : option NodeRange :=
  let '(valid, map) := frame m i in
  match (if (valid : bool) then map !! token else None) with
  | Some r => Some r
  | None => match i with O => None | S i => find_capture m token i end
  end.

(** [Match::operator[]] *)
Definition match_range (m : Match) (token : Token) : NodeRange :=
  default empty_range (find_capture m token (index m)).

(** [Match::operator()]: no child is null, so the first frame that has the token answers. *)
Definition match_node (h : heap) (m : Match) (token : Token) : outcome (option Node) :=
  match find_capture m token (index m) with
  | Some r => Some <$> range_front h r
  | None => Returns None
  end.

(** [Match::set] *)
Definition set (m : Match) (token : Token) (range : NodeRange) : Match :=
  mkMatch (index m)
    (alter (fun '(valid, map) => (true, <[token := range]> (if (valid : bool) then map else ∅)))
       (index m) (captures m)).

(** [Match::add_frame], [Match::return_to_frame], [Match::reset] *)
Definition add_frame (m : Match) : nat * Match :=
  let index' := S (index m) in
  let captures' :=
    if (length (captures m) =? index')%nat
    then captures m ++ replicate (index' * 2 - length (captures m)) (false, ∅)
    else alter (fun '(_, map) => (false, map)) index' (captures m) in
  ((index' - 1)%nat, mkMatch index' captures').
Definition return_to_frame (new_index : nat) (m : Match) : Match :=
  mkMatch new_index (captures m).
Definition reset (m : Match) : Match :=
  mkMatch 0 (alter (fun '(_, map) => (false, map)) 0%nat (captures m)).

(** * [PatternDef] and its subclasses *)

(** A pattern node is its class and its continuation.  Only [set_continuation] changes a
    node, and only on a chain that [operator*] has just cloned, so patterns are values.
    [Choice]'s template argument and the arrays of [Inside] are fields; the action of
    [Action] is an argument that reads the store. *)
Inductive PatternDef :=
  | Pat (def : PatternKind) (continuation : option PatternDef)
with PatternKind :=
  | Cap (name : Token) (pattern : PatternDef)
  | Anything
  | TokenMatch (types : list Token)
  | RegexMatch (type : Token) (regex : TRegex)
  | Opt (pattern : PatternDef)
  | Rep (pattern : PatternDef)
  | Not (pattern : PatternDef)
  | Choice (captures_left : bool) (first second : PatternDef)
  | InsideStar (types : list Token)
  | Inside (types : list Token)
  | First
  | Last
  | Children (pattern children : PatternDef)
  | Pred (pattern : PatternDef)
  | NegPred (pattern : PatternDef)
  | Action (action : heap -> NodeRange -> outcome bool) (pattern : PatternDef).

(** [has_captures]; [has_captures_local] of a class that does not override it is [false]. *)
Fixpoint has_captures (p : PatternDef) : bool :=
  let '(Pat k c) := p in
  (match k with
   | Cap _ _ => true
   | Opt q => has_captures q
   | Choice _ q r => has_captures q || has_captures r
   | Children q r => has_captures q || has_captures r
   | _ => false
   end) || match c with Some c => has_captures c | None => false end.

(** [no_continuation], [only_tokens] *)
Definition no_continuation (p : PatternDef) : bool :=
  let '(Pat _ c) := p in match c with None => true | Some _ => false end.
Definition only_tokens (p : PatternDef) : list Token :=
  match p with Pat (TokenMatch types) None => types | _ => [] end.

(** [set_continuation] at the end of the chain *)
Fixpoint set_continuation (p : PatternDef) (next : PatternDef) : outcome PatternDef :=
  match p with
  | Pat Last _ => Throws
  | Pat k None => Returns (Pat k (Some next))
  | Pat k (Some c) => c ← set_continuation c next; Returns (Pat k (Some c))
  end.

(** [custom_rep] *)
Definition custom_rep (p : PatternDef) : outcome (option PatternDef) :=
  match p with
  | Pat (Rep _) c => Returns (if no_continuation p then Some p else None)
  | Pat (Inside types) c =>
      Returns (if no_continuation p then Some (Pat (InsideStar types) None) else None)
  | Pat (InsideStar _ | First | Last | Pred _ | NegPred _) _ => Throws
  | _ => Returns None
  end.

(** The constructors that check their arguments *)
Definition make_rep (p : PatternDef) : outcome PatternDef :=
  if has_captures p then Throws else Returns (Pat (Rep p) None).
Definition make_not (p : PatternDef) : outcome PatternDef :=
  if has_captures p then Throws else Returns (Pat (Not p) None).
Definition make_choice (captures_left : bool) (p q : PatternDef) : outcome PatternDef :=
  if negb (eqb captures_left (has_captures p)) then Throws
  else Returns (Pat (Choice captures_left p q) None).
Definition make_pred (p : PatternDef) : outcome PatternDef :=
  if has_captures p then Throws else Returns (Pat (Pred p) None).
Definition make_neg_pred (p : PatternDef) : outcome PatternDef :=
  if has_captures p then Throws else Returns (Pat (NegPred p) None).

(** ** Matching

    [match(it, parent, match)]: the answer, the iterator and the captures when it returns.
    The iterator keeps what a failed match did to it. *)
Definition matcher : Type := nat -> Match -> outcome (bool * (nat * Match)).

(** The loop of [Rep::match]; each turn consumes a node of the range unless the body can
    match nothing, and then the code does not stop either. *)
Fixpoint rep_loop (body : matcher) (end_ : nat) (fuel : nat) (it : nat) (m : Match)
    : outcome (nat * Match) :=
  if (it =? end_)%nat then Returns (it, m)
  else
    match fuel with
    | O => Undefined
    | S fuel =>
        '(b, (it', m)) ← body it m;
        if (b : bool) then rep_loop body end_ fuel it' m else Returns (it, m)
    end.

Section Matching.
Context (fuel : nat) (h : heap).

(** [TRegex::FullMatch] on the view of the location of the node at the iterator *)
Definition full_match_node (n : Node) (regex : TRegex) : outcome bool :=
  v ← view (location_of h n); Returns (fst (FullMatch v regex new_context)).

(** The [match] of every class.  [pattern] is the [match] of a pattern inside it, and
    [match_continuation] goes on with the rest. *)
Section Classes.
Context (match_continuation : matcher) (parent : Node).

(** [Cap::match] *)
Definition cap_match (name : Token) (pattern : matcher) : matcher := fun it m =>
  let begin := it in
  '(b, (it, m)) ← pattern it m;
  if negb b then Returns (false, (it, m))
  else match_continuation it (set m name (mkRange parent begin it)).

(** [Anything::match] *)
Definition anything_match : matcher := fun it m =>
  if (it =? length (children_of h parent))%nat then Returns (false, (it, m))
  else match_continuation (S it) m.

(** [TokenMatch::match] *)
Definition token_match (types : list Token) : matcher := fun it m =>
  match children_of h parent !! it with
  | None => Returns (false, (it, m))
  | Some n =>
      if token_in types (type_of h n) then match_continuation (S it) m
      else Returns (false, (it, m))
  end.

(** [RegexMatch::match] *)
Definition regex_match (type : Token) (regex : TRegex) : matcher := fun it m =>
  match children_of h parent !! it with
  | None => Returns (false, (it, m))
  | Some n =>
      if negb (token_eqb (type_of h n) type) then Returns (false, (it, m))
      else
        b ← full_match_node n regex;
        if negb b then Returns (false, (it, m)) else match_continuation (S it) m
  end.

(** [Opt::match] *)
Definition opt_match (pattern : matcher) : matcher := fun it m =>
  let backtrack_it := it in
  let '(backtrack_frame, m) := add_frame m in
  '(b, (it, m)) ← pattern it m;
  if (b : bool) then match_continuation it m
  else match_continuation backtrack_it (return_to_frame backtrack_frame m).

(** [Rep::match] *)
Definition rep_match (pattern : matcher) : matcher := fun it m =>
  '(it, m) ← rep_loop pattern (length (children_of h parent)) fuel it m;
  match_continuation it m.

(** [Not::match] *)
Definition not_match (pattern : matcher) : matcher := fun it m =>
  if (it =? length (children_of h parent))%nat then Returns (false, (it, m))
  else
    let begin := it in
    let it := S begin in
    '(b, (_, m)) ← pattern begin m;
    if (b : bool) then Returns (false, (it, m)) else match_continuation it m.

(** [Choice::match] *)
Definition choice_match (captures_left : bool) (first second : matcher) : matcher := fun it m =>
  let backtrack_it := it in
  let '(backtrack_frame, m) := if (captures_left : bool) then add_frame m else (O, m) in
  '(b, (it, m)) ← first it m;
  if (b : bool) then match_continuation it m
  else
    let m := if captures_left then return_to_frame backtrack_frame m else m in
    '(b, (it, m)) ← second backtrack_it m;
    if negb b then Returns (false, (it, m)) else match_continuation it m.

(** [InsideStar::match], [Inside::match] *)
Definition inside_star_match (types : list Token) : matcher := fun it m =>
  match climb (depth_fuel h) h (fun d => token_in types (type_ d)) (Some parent) with
  | Some _ => match_continuation it m
  | None => Returns (false, (it, m))
  end.
Definition inside_match (types : list Token) : matcher := fun it m =>
  if token_in types (type_of h parent) then match_continuation it m
  else Returns (false, (it, m)).

(** [First::match], [Last::match] *)
Definition first_match : matcher := fun it m =>
  if (it =? 0)%nat then match_continuation it m else Returns (false, (it, m)).
Definition last_match : matcher := fun it m =>
  Returns ((it =? length (children_of h parent))%nat, (it, m)).

(** [Children::match]: the node at [begin] is read after [pattern] matched, and reading the
    end is undefined. *)
Definition children_match (pattern : matcher) (children : Node -> matcher) : matcher := fun it m =>
  let begin := it in
  '(b, (it, m)) ← pattern it m;
  if negb b then Returns (false, (it, m))
  else
    n ← or_undefined (children_of h parent !! begin);
    '(b, (_, m)) ← children n 0%nat m;
    if negb b then Returns (false, (it, m)) else match_continuation it m.

(** [Pred::match], [NegPred::match] *)
Definition pred_match (pattern : matcher) : matcher := fun it m =>
  '(b, (_, m)) ← pattern it m;
  if negb b then Returns (false, (it, m)) else match_continuation it m.
Definition neg_pred_match (pattern : matcher) : matcher := fun it m =>
  '(b, (_, m)) ← pattern it m;
  if (b : bool) then Returns (false, (it, m)) else match_continuation it m.

(** [Action::match] *)
Definition action_match (action : heap -> NodeRange -> outcome bool) (pattern : matcher) : matcher :=
  fun it m =>
  let begin := it in
  '(b, (it, m)) ← pattern it m;
  if negb b then Returns (false, (it, m))
  else
    result ← action h (mkRange parent begin it);
    if negb result then Returns (false, (it, m)) else match_continuation it m.
End Classes.

(** [PatternDef::match] dispatches to the class; [match_continuation] succeeds at the end of
    the chain. *)
Fixpoint pat_match (p : PatternDef) (parent : Node) (it : nat) (m : Match) {struct p}
    : outcome (bool * (nat * Match)) :=
  let '(Pat k c) := p in
  let match_continuation (it : nat) (m : Match) :=
    match c with
    | None => Returns (true, (it, m))
    | Some c => pat_match c parent it m
    end in
  match k with
  | Cap name pattern => cap_match match_continuation parent name (pat_match pattern parent) it m
  | Anything => anything_match match_continuation parent it m
  | TokenMatch types => token_match match_continuation parent types it m
  | RegexMatch type regex => regex_match match_continuation parent type regex it m
  | Opt pattern => opt_match match_continuation (pat_match pattern parent) it m
  | Rep pattern => rep_match match_continuation parent (pat_match pattern parent) it m
  | Not pattern => not_match match_continuation parent (pat_match pattern parent) it m
  | Choice captures_left first second =>
      choice_match match_continuation captures_left (pat_match first parent)
        (pat_match second parent) it m
  | InsideStar types => inside_star_match match_continuation parent types it m
  | Inside types => inside_match match_continuation parent types it m
  | First => first_match match_continuation it m
  | Last => last_match parent it m
  | Children pattern children =>
      children_match match_continuation parent (pat_match pattern parent) (pat_match children) it m
  | Pred pattern => pred_match match_continuation (pat_match pattern parent) it m
  | NegPred pattern => neg_pred_match match_continuation (pat_match pattern parent) it m
  | Action action pattern =>
      action_match match_continuation parent action (pat_match pattern parent) it m
  end.

End Matching.

Ltac unfold_match := unfold cap_match, anything_match, token_match, regex_match, opt_match,
  rep_match, not_match, choice_match, inside_star_match, inside_match, first_match, last_match,
  children_match, pred_match, neg_pred_match, action_match in *.

(** * [Pattern] and its operators *)

Record Pattern := mkPattern { pattern : PatternDef; fast_pattern : FastPattern }.

(** [operator()(action)], [operator[](name)], [operator~], [operator++()], [operator--()] *)
Definition pattern_action (action : heap -> NodeRange -> outcome bool) (p : Pattern) : Pattern :=
  mkPattern (Pat (Action action (pattern p)) None) (fast_pattern p).
Definition pattern_cap (name : Token) (p : Pattern) : Pattern :=
  mkPattern (Pat (Cap name (pattern p)) None) (fast_pattern p).
Definition pattern_opt (p : Pattern) : Pattern :=
  mkPattern (Pat (Opt (pattern p)) None) (match_opt (fast_pattern p)).
Definition pattern_pred (p : Pattern) : outcome Pattern :=
  q ← make_pred (pattern p); Returns (mkPattern q match_pred).
Definition pattern_neg_pred (p : Pattern) : outcome Pattern :=
  q ← make_neg_pred (pattern p); Returns (mkPattern q match_pred).

(** [operator++(int)] *)
Definition pattern_rep (p : Pattern) : outcome Pattern :=
  result ← custom_rep (pattern p);
  match result with
  | Some result => Returns (mkPattern result match_any)
  | None => q ← make_rep (pattern p); Returns (mkPattern q (match_opt (fast_pattern p)))
  end.

(** [operator!], [operator*], [operator/], [operator<<] *)
Definition pattern_not (p : Pattern) : outcome Pattern :=
  q ← make_not (pattern p); Returns (mkPattern q match_any).
Definition pattern_seq (p rhs : Pattern) : outcome Pattern :=
  result ← set_continuation (pattern p) (pattern rhs);
  Returns (mkPattern result (match_seq (fast_pattern p) (fast_pattern rhs))).
Definition pattern_choice (p rhs : Pattern) : outcome Pattern :=
  let lhs_tokens := only_tokens (pattern p) in
  let rhs_tokens := only_tokens (pattern rhs) in
  let fast := match_choice (fast_pattern p) (fast_pattern rhs) in
  match lhs_tokens, rhs_tokens with
  | _ :: _, _ :: _ => Returns (mkPattern (Pat (TokenMatch (lhs_tokens ++ rhs_tokens)) None) fast)
  | _, _ =>
      q ← make_choice (has_captures (pattern p)) (pattern p) (pattern rhs);
      Returns (mkPattern q fast)
  end.
Definition pattern_children (p rhs : Pattern) : Pattern :=
  mkPattern (Pat (Children (pattern p) (pattern rhs)) None) (fast_pattern p).

(** [Any], [Start], [End], [T(types...)], [T(type, r)], [In(types...)] *)
Definition Any : Pattern := mkPattern (Pat Anything None) match_any.
Definition Start : Pattern := mkPattern (Pat First None) match_pred.
Definition End_ : Pattern := mkPattern (Pat Last None) match_pred.
Definition T (types : list Token) : Pattern :=
  mkPattern (Pat (TokenMatch types) None) (match_token (list_to_set types)).
Definition T_regex (type : Token) (r : list Z) : Pattern :=
  mkPattern (Pat (RegexMatch type (new_regex 0 r)) None) (match_token {[type]}).
Definition In (types : list Token) : Pattern :=
  mkPattern (Pat (Inside types) None) (match_parent (list_to_set types)).

(** [Pattern::match] *)
Definition pattern_match (fuel : nat) (h : heap) (p : Pattern) (parent : Node) (it : nat)
    (m : Match) : outcome (bool * (nat * Match)) :=
  pat_match fuel h (pattern p) parent it m.

(** * What effects build nodes with

    [node << x]; a range is a list of nodes when it is pushed. *)
Definition shl_node (h : heap) (node1 : Node) (node2 : option Node) : heap :=
  push_back h node1 node2.
Definition shl_ephemeral (h : heap) (node : Node) (ephemeral : option Node) : heap :=
  push_back_ephemeral h node ephemeral.
Definition shl_range (h : heap) (node : Node) (range : list Node) : heap :=
  push_back_range h node range.
Definition shl_ephemeral_range (h : heap) (node : Node) (range : list Node) : heap :=
  push_back_ephemeral_range h node range.
(** [RangeContents]: the children of each node of the range *)
Definition shl_range_contents (h : heap) (node : Node) (range : list Node) : heap :=
  foldl (fun h n => push_back_range h node (children_of h n)) h range.
(** [RangeOr] *)
Definition shl_range_or (h : heap) (node : Node) (range : list Node) (or_node : option Node) : heap :=
  match range with
  | [] => push_back h node or_node
  | _ => push_back_range h node range
  end.
(** [ExtendNode], [ExtendNodeRange] and [ExtendNodes], [ExtendRangeContents] *)
Definition shl_extend (h : heap) (node : Node) (ext : option Node) : heap :=
  match ext with
  | None => h
  | Some n => let h := push_back h node (Some n) in extend h node (location_of h n)
  end.
Definition shl_extend_range (h : heap) (node : Node) (ext : list Node) : heap :=
  foldl (fun h n => shl_extend h node (Some n)) h ext.
Definition shl_extend_range_contents (h : heap) (node : Node) (ext : list Node) : heap :=
  foldl (fun h n =>
    let h := push_back_range h node (children_of h n) in extend h node (location_of h n)) h ext.

(** [lhs || rhs] on nodes *)
Definition node_or (lhs rhs : option Node) : option Node :=
  match lhs with Some n => Some n | None => rhs end.

(** [type ^ node], [type ^ loc]; [type ^ text] makes a location of a new source, whose
    identity is [id]. *)
Definition pow_node (h : heap) (type : Token) (node : Node) : Node * heap :=
  create h type (location_of h node).
Definition pow_location (h : heap) (type : Token) (loc : Location) : Node * heap :=
  create h type loc.
Definition pow_text (id : positive) (h : heap) (type : Token) (text : list Z) : Node * heap :=
  create h type (location_of_string id text).

(** [clone(node)], [clone(range)] *)
Definition clone_node (fuel : nat) (h : heap) (node : option Node) : outcome (option Node * heap) :=
  match node with
  | None => Returns (None, h)
  | Some n => '(c, h) ← clone fuel h n; Returns (Some c, h)
  end.
Fixpoint clone_range (fuel : nat) (h : heap) (range : list Node) : outcome (list Node * heap) :=
  match range with
  | [] => Returns ([], h)
  | n :: range =>
      '(c, h) ← clone fuel h n;
      '(cs, h) ← clone_range fuel h range;
      Returns (c :: cs, h)
  end.
