(* ===== verification/RewriteFacts.v ===== *)
(** What a match means without frames: the captures are a map that backtracking puts back,
    and the frames of [Match] implement it. *)
From S2P Require Import Prelude.
From S2P Require Import Token.
From S2P Require Import Source.
From S2P Require Import Ast.
From S2P Require Import FastPattern.
From S2P Require Import TRegex.
From S2P Require Import Rewrite.
Open Scope Z_scope.

(** * Induction on patterns *)

(** What holds of the patterns inside a node, but its continuation. *)
Definition kind_all (P : PatternDef -> Prop) (k : PatternKind) : Prop :=
  match k with
  | Cap _ p | Opt p | Rep p | Not p | Pred p | NegPred p | Action _ p => P p
  | Choice _ p q | Children p q => P p /\ P q
  | _ => True
  end.
Definition cont_all (P : PatternDef -> Prop) (c : option PatternDef) : Prop :=
  match c with Some c => P c | None => True end.

Lemma pattern_ind (P : PatternDef -> Prop) :
  (forall k c, kind_all P k -> cont_all P c -> P (Pat k c)) -> forall p, P p.
Proof.
  intros H. fix IH 1. intros [k c]. apply H; [destruct k|destruct c]; cbn;
    try exact I; try apply IH; split; apply IH.
Qed.

(** * The reference *)

Abbreviation Env := (gmap Token NodeRange).

Section Reference.
Context (fuel : nat) (h : heap).

Fixpoint ref_rep (body : nat -> Env -> outcome (option (nat * Env))) (end_ fuel it : nat) (e : Env)
    : outcome (nat * Env) :=
  if (it =? end_)%nat then Returns (it, e)
  else
    match fuel with
    | O => Undefined
    | S fuel =>
        r ← body it e;
        match r with
        | Some (it', e') => ref_rep body end_ fuel it' e'
        | None => Returns (it, e)
        end
    end.

(** [p] from [it]: where it ends and what it captured. *)
Fixpoint ref_match (p : PatternDef) (parent : Node) (it : nat) (e : Env) {struct p}
    : outcome (option (nat * Env)) :=
  let '(Pat k c) := p in
  let continue (it : nat) (e : Env) :=
    match c with None => Returns (Some (it, e)) | Some c => ref_match c parent it e end in
  let nodes := children_of h parent in
  let at_node (test : Node -> outcome bool) :=
    match nodes !! it with
    | None => Returns None
    | Some n => b ← test n; if (b : bool) then continue (S it) e else Returns None
    end in
  match k with
  | Cap name q =>
      r ← ref_match q parent it e;
      match r with
      | Some (it', e) => continue it' (<[name := mkRange parent it it']> e)
      | None => Returns None
      end
  | Anything => if (it =? length nodes)%nat then Returns None else continue (S it) e
  | TokenMatch types => at_node (fun n => Returns (token_in types (type_of h n)))
  | RegexMatch type regex => at_node (fun n =>
      if token_eqb (type_of h n) type then full_match_node h n regex else Returns false)
  | Opt q =>
      r ← ref_match q parent it e;
      match r with Some (it', e') => continue it' e' | None => continue it e end
  | Rep q =>
      '(it, e) ← ref_rep (ref_match q parent) (length nodes) fuel it e; continue it e
  | Not q =>
      if (it =? length nodes)%nat then Returns None
      else
        r ← ref_match q parent it e;
        match r with Some _ => Returns None | None => continue (S it) e end
  | Choice _ q1 q2 =>
      r ← ref_match q1 parent it e;
      match r with
      | Some (it', e') => continue it' e'
      | None =>
          r ← ref_match q2 parent it e;
          match r with Some (it', e') => continue it' e' | None => Returns None end
      end
  | InsideStar types =>
      match climb (depth_fuel h) h (fun d => token_in types (type_ d)) (Some parent) with
      | Some _ => continue it e
      | None => Returns None
      end
  | Inside types => if token_in types (type_of h parent) then continue it e else Returns None
  | First => if (it =? 0)%nat then continue it e else Returns None
  | Last => Returns (if (it =? length nodes)%nat then Some (it, e) else None)
  | Children q1 q2 =>
      r ← ref_match q1 parent it e;
      match r with
      | None => Returns None
      | Some (it', e) =>
          n ← or_undefined (nodes !! it);
          r ← ref_match q2 n 0%nat e;
          match r with Some (_, e) => continue it' e | None => Returns None end
      end
  | Pred q =>
      r ← ref_match q parent it e;
      match r with Some _ => continue it e | None => Returns None end
  | NegPred q =>
      r ← ref_match q parent it e;
      match r with Some _ => Returns None | None => continue it e end
  | Action action q =>
      r ← ref_match q parent it e;
      match r with
      | None => Returns None
      | Some (it', e) =>
          b ← action h (mkRange parent it it');
          if (b : bool) then continue it' e else Returns None
      end
  end.

End Reference.

(** * Frames *)

Definition match_ok (m : Match) : Prop := (index m < length (captures m))%nat.

(** What the frames up to [i] hold. *)
Fixpoint view_upto (m : Match) (i : nat) : Env :=
  let below := match i with O => ∅ | S i => view_upto m i end in
  if (frame m i).1 then (frame m i).2 ∪ below else below.
Definition match_view (m : Match) : Env := view_upto m (index m).

Lemma find_capture_view m t i : find_capture m t i = view_upto m i !! t.
Proof.
  induction i as [|i IH]; cbn.
  - destruct (frame m 0) as [[] mp]; cbn; [|by rewrite lookup_empty].
    rewrite lookup_union_l by apply lookup_empty. by destruct (mp !! t).
  - destruct (frame m (S i)) as [[] mp]; cbn; [|done].
    rewrite lookup_union, IH. by destruct (mp !! t), (view_upto m i !! t).
Qed.

Lemma view_upto_ext m m' i : (forall j, (j <= i)%nat -> frame m' j = frame m j) ->
  view_upto m' i = view_upto m i.
Proof. induction i as [|i IH]; intros H; cbn; rewrite !H by lia; [done|]. by rewrite IH by auto. Qed.

Lemma frame_alter f m i j : (i < length (captures m))%nat ->
  frame (mkMatch (index m) (alter f i (captures m))) j = if decide (i = j) then f (frame m j) else frame m j.
Proof.
  intros Hi. unfold frame. cbn. destruct (decide (i = j)) as [<-|Hne].
  - destruct (lookup_lt_is_Some_2 _ _ Hi) as [x Hx]. by rewrite list_lookup_alter_eq, Hx.
  - by rewrite list_lookup_alter_ne.
Qed.

Lemma frame_set m t r j : match_ok m ->
  frame (set m t r) j = if decide (index m = j)
    then (true, <[t := r]> (if (frame m j).1 then (frame m j).2 else ∅)) else frame m j.
Proof.
  intros H. unfold set. rewrite frame_alter by done. case_decide; [|done].
  by destruct (frame m j) as [[] mp].
Qed.

Lemma view_set m t r : match_ok m -> match_view (set m t r) = <[t := r]> (match_view m).
Proof.
  intros H. unfold match_view. change (index (set m t r)) with (index m).
  assert (Hj : forall j, (j < index m)%nat -> frame (set m t r) j = frame m j).
  { intros j Hj. rewrite frame_set by done. rewrite decide_False by lia. done. }
  assert (Hi : frame (set m t r) (index m)
    = (true, <[t := r]> (if (frame m (index m)).1 then (frame m (index m)).2 else ∅))).
  { rewrite frame_set by done. by rewrite decide_True. }
  destruct (index m) as [|i]; cbn; rewrite Hi; cbn.
  - destruct (frame m 0) as [[] mp]; cbn; by rewrite <-insert_union_l, ?map_empty_union.
  - rewrite (view_upto_ext m) by (intros; apply Hj; lia).
    destruct (frame m (S i)) as [[] mp]; cbn; by rewrite <-insert_union_l, ?map_empty_union.
Qed.

(** What a match may do to the frames: those below the current one are kept, and a pattern
    without captures keeps all that can be seen. *)
Record later (caps : bool) (m m' : Match) : Prop := {
  later_ok : match_ok m';
  later_index : (index m <= index m')%nat;
  later_below i : (i < index m)%nat -> frame m' i = frame m i;
  later_frame : caps = false -> frame m' (index m) = frame m (index m);
  later_view : caps = false -> match_view m' = match_view m
}.

Lemma later_refl m : match_ok m -> later false m m.
Proof. by split. Qed.

Lemma later_trans c1 c2 m m1 m2 : later c1 m m1 -> later c2 m1 m2 -> later (c1 || c2) m m2.
Proof.
  intros [O1 I1 B1 F1 V1] [O2 I2 B2 F2 V2]. split; [done|lia|..].
  - intros i Hi. by rewrite B2, B1 by lia.
  - intros [-> ->]%orb_false_iff. rewrite <-F1 by done.
    destruct (decide (index m = index m1)) as [E|E]; [rewrite E; by apply F2|apply B2; lia].
  - intros [-> ->]%orb_false_iff. by rewrite V2, V1.
Qed.

Lemma later_weaken c c' m m' : (c = true -> c' = true) -> later c m m' -> later c' m m'.
Proof.
  intros H [O I B F V]. destruct c.
  - rewrite H by done. by split.
  - split; auto.
Qed.

Lemma set_later m t r : match_ok m -> later true m (set m t r).
Proof.
  intros H. split; [|done| |done|done].
  - unfold match_ok, set. cbn. by rewrite length_alter.
  - intros i Hi. rewrite frame_set by done. rewrite decide_False by lia. done.
Qed.

Lemma add_frame_later m : match_ok m -> let '(k, m1) := add_frame m in
  k = index m /\ index m1 = S (index m) /\ later false m m1.
Proof.
  intros H. unfold add_frame. split; [lia|]. split; [done|].
  set (m1 := mkMatch _ _).
  assert (Hf : forall j, (j <= index m)%nat -> frame m1 j = frame m j).
  { intros j Hj. unfold m1, frame. cbn. unfold match_ok in H.
    destruct (Nat.eqb_spec (length (captures m)) (S (index m))).
    - rewrite lookup_app_l by lia. done.
    - rewrite list_lookup_alter_ne by lia. done. }
  assert (Hn : (frame m1 (S (index m))).1 = false).
  { unfold m1, frame. cbn. unfold match_ok in H.
    destruct (Nat.eqb_spec (length (captures m)) (S (index m))) as [E|E].
    - rewrite lookup_app_r by lia. rewrite E, Nat.sub_diag. by rewrite lookup_replicate_2 by lia.
    - destruct (lookup_lt_is_Some_2 (captures m) (S (index m))) as [x Hx]; [lia|].
      rewrite list_lookup_alter_eq, Hx. by destruct x. }
  split.
  - unfold match_ok, m1 in *. cbn. destruct (Nat.eqb_spec (length (captures m)) (S (index m))).
    + rewrite length_app, length_replicate. lia.
    + rewrite length_alter. lia.
  - cbn. lia.
  - intros i Hi. apply Hf. lia.
  - intros _. by apply Hf.
  - intros _. unfold match_view. change (index m1) with (S (index m)). cbn.
    rewrite Hn. apply view_upto_ext. auto.
Qed.

(** Backtracking to the frame that was current before [add_frame] *)
Lemma return_later c m m1 m2 : match_ok m -> later false m m1 -> index m1 = S (index m) ->
  later c m1 m2 -> later false m (return_to_frame (index m) m2).
Proof.
  intros H [O1 I1 B1 F1 V1] E [O2 I2 B2 F2 V2].
  assert (Hf : forall j, (j <= index m)%nat -> frame (return_to_frame (index m) m2) j = frame m j).
  { intros j Hj. change (frame m2 j = frame m j). rewrite B2 by lia.
    destruct (decide (j = index m)) as [->|]; [by apply F1|]. apply B1. lia. }
  split.
  - unfold match_ok in *. cbn. lia.
  - done.
  - intros i Hi. apply Hf. lia.
  - intros _. by apply Hf.
  - intros _. unfold match_view. cbn. by apply view_upto_ext.
Qed.

(** [reset] forgets everything. *)
Lemma reset_ok m : match_ok m -> match_ok (reset m) /\ match_view (reset m) = ∅.
Proof.
  unfold match_ok. intros H. split; [cbn; rewrite length_alter; lia|].
  unfold match_view. cbn. unfold frame. cbn.
  destruct (lookup_lt_is_Some_2 (captures m) 0) as [x Hx]; [lia|].
  rewrite list_lookup_alter_eq, Hx. by destruct x.
Qed.

(** * The refinement *)

(** Captures are where the code allows them: not under an iteration, a negation, a predicate
    or an action, and [Choice]'s argument is what [has_captures] says. *)
Fixpoint honest (p : PatternDef) : bool :=
  let '(Pat k c) := p in
  (match k with
   | Cap _ q | Opt q => honest q
   | Rep q | Not q | Pred q | NegPred q | Action _ q => negb (has_captures q) && honest q
   | Choice l q r => eqb l (has_captures q) && honest q && honest r
   | Children q r => honest q && honest r
   | _ => true
   end) && match c with Some c => honest c | None => true end.

(** The outcome of a match from [m], and the reference's. *)
Definition agrees (caps : bool) (m : Match) (o : outcome (bool * (nat * Match)))
    (r : outcome (option (nat * Env))) : Prop :=
  match o with
  | Returns (b, (it', m')) =>
      r = Returns (if (b : bool) then Some (it', match_view m') else None) /\ later caps m m'
  | Throws => r = Throws
  | Undefined => r = Undefined
  end.

Lemma agrees_trans c1 c2 c m m1 o r :
  later c1 m m1 -> agrees c2 m1 o r -> (c1 || c2 = true -> c = true) -> agrees c m o r.
Proof.
  intros H1 H Hc. destruct o as [[b [it' m']]| |]; cbn in *; [|done..].
  destruct H as [-> H2]. split; [done|].
  eapply later_weaken; [exact Hc|]. by eapply later_trans.
Qed.

(** A part that failed fails the whole. *)
Lemma agrees_fail c m m' it : later c m m' -> agrees c m (Returns (false, (it, m'))) (Returns None).
Proof. by split. Qed.

Lemma agrees_weaken c m o r : agrees false m o r -> agrees c m o r.
Proof.
  destruct o as [[b [it' m']]| |]; cbn; [|done..]. intros [-> H]. split; [done|].
  by apply (later_weaken false).
Qed.

Ltac weaken_to H := eapply later_weaken; [|exact H]; cbn; first [done|by intros ->].

(** The part [o] ran: [H] relates it to the reference. *)
Ltac run_part H o b it' m' Hr Hl :=
  destruct o as [[b [it' m']]| |]; cbn [agrees mbind outcome_bind] in H |- *;
    [destruct H as [Hr Hl]; rewrite Hr; cbn [mbind outcome_bind]
    |rewrite H; reflexivity|rewrite H; reflexivity].

Section Refinement.
Context (fuel : nat) (h : heap).

Lemma rep_agrees (body : matcher) (ref : nat -> Env -> outcome (option (nat * Env))) end_ :
  (forall it m, match_ok m -> agrees false m (body it m) (ref it (match_view m))) ->
  forall fuel it m, match_ok m ->
  match rep_loop body end_ fuel it m with
  | Returns (it', m') =>
      ref_rep ref end_ fuel it (match_view m) = Returns (it', match_view m') /\ later false m m'
  | Throws => ref_rep ref end_ fuel it (match_view m) = Throws
  | Undefined => ref_rep ref end_ fuel it (match_view m) = Undefined
  end.
Proof.
  intros Hb. induction fuel0 as [|n IH]; intros it m Hm; cbn.
  { destruct (it =? end_)%nat; cbn; [split; [done|by apply later_refl]|done]. }
  destruct (it =? end_)%nat; [split; [done|by apply later_refl]|].
  pose proof (Hb it m Hm) as H. run_part H (body it m) b it' m' Hr Hl.
  destruct b; [|by rewrite (later_view _ _ _ Hl)].
  specialize (IH it' m' (later_ok _ _ _ Hl)).
  destruct (rep_loop body end_ n it' m') as [[it2 m2]| |]; [|done..].
  destruct IH as [-> Hl2]. split; [done|]. exact (later_trans _ _ _ _ _ Hl Hl2).
Qed.

Definition Agrees (p : PatternDef) : Prop := forall parent it m,
  match_ok m -> agrees (has_captures p) m (pat_match fuel h p parent it m)
                  (ref_match fuel h p parent it (match_view m)).

(** The rest of the match, after a part that left [m'] and may have captured. *)
Lemma continue_agrees c parent caps m it' m' :
  cont_all (fun p => honest p = true -> Agrees p) c ->
  match c with Some c => honest c | None => true end = true -> later caps m m' ->
  agrees (caps || match c with Some c => has_captures c | None => false end) m
    match c with None => Returns (true, (it', m')) | Some c => pat_match fuel h c parent it' m' end
    match c with None => Returns (Some (it', match_view m'))
            | Some c => ref_match fuel h c parent it' (match_view m') end.
Proof.
  intros Hc Hh Hl. destruct c as [c|]; cbn in *.
  - eapply agrees_trans; [done|apply Hc; [done|apply Hl]|auto].
  - split; [done|]. by rewrite orb_false_r.
Qed.

Lemma match_agrees p : honest p = true -> Agrees p.
Proof.
  induction p as [k c Hk Hc] using pattern_ind. intros Hh parent it m Hm. cbn in Hh.
  apply andb_true_iff in Hh as [Hhk Hhc].
  assert (Hcont : forall caps m1 it' m', later caps m1 m' ->
    agrees (caps || match c with Some c => has_captures c | None => false end) m1
      match c with None => Returns (true, (it', m')) | Some c => pat_match fuel h c parent it' m' end
      match c with None => Returns (Some (it', match_view m'))
              | Some c => ref_match fuel h c parent it' (match_view m') end).
  { intros. by apply continue_agrees. }
  clear Hc Hhc.
  assert (Hr : later false m m) by by apply later_refl.
  destruct k as [name q| |types|type regex|q|q|q|l q r|types|types| | |q r|q|q|action q];
    cbn [pat_match ref_match has_captures kind_all honest] in *; unfold_match.
  - pose proof (Hk Hhk parent it m Hm) as H.
    run_part H (pat_match fuel h q parent it m) b it' m' E Hl. destruct b; cbn [negb].
    + rewrite <-view_set by apply Hl. apply (Hcont true).
      eapply later_weaken; [|eapply later_trans; [exact Hl|apply set_later, Hl]]. done.
    + apply agrees_fail. weaken_to Hl.
  - destruct (it =? _)%nat; [by apply agrees_weaken, agrees_fail|by apply (Hcont false)].
  - destruct (_ !! it) as [n|]; [|by apply agrees_weaken, agrees_fail]. cbn [mbind outcome_bind].
    destruct (token_in _ _); [by apply (Hcont false)|by apply agrees_weaken, agrees_fail].
  - destruct (_ !! it) as [n|]; [|by apply agrees_weaken, agrees_fail].
    destruct (token_eqb _ _); cbn [mbind outcome_bind]; [|by apply agrees_weaken, agrees_fail].
    destruct (full_match_node _ _ _) as [b| |]; cbn [mbind outcome_bind]; [|done..].
    destruct b; [by apply (Hcont false)|by apply agrees_weaken, agrees_fail].
  - pose proof (add_frame_later m Hm) as Ha. destruct (add_frame m) as [k1 m1].
    destruct Ha as (-> & E1 & Hl1).
    pose proof (Hk Hhk parent it m1 (later_ok _ _ _ Hl1)) as H.
    rewrite (later_view _ _ _ Hl1) in H by done.
    run_part H (pat_match fuel h q parent it m1) b it' m' E Hl. destruct b.
    + apply Hcont. exact (later_trans _ _ _ _ _ Hl1 Hl).
    + pose proof (return_later _ _ _ _ Hm Hl1 E1 Hl) as H3.
      rewrite <-(later_view _ _ _ H3) by done.
      apply Hcont. weaken_to H3.
  - apply andb_true_iff in Hhk as [Hnc Hhk]. apply negb_true_iff in Hnc.
    pose proof (rep_agrees (pat_match fuel h q parent) (ref_match fuel h q parent)
      (length (children_of h parent))) as H.
    unfold Agrees in Hk. rewrite Hnc in Hk.
    specialize (H (fun it m => Hk Hhk parent it m) fuel it m Hm).
    destruct (rep_loop _ _ _ _ _) as [[it' m']| |]; cbn [mbind outcome_bind]; [|by rewrite H..].
    destruct H as [-> Hl]. cbn [mbind outcome_bind]. by apply (Hcont false).
  - apply andb_true_iff in Hhk as [Hnc Hhk]. apply negb_true_iff in Hnc.
    destruct (it =? _)%nat; [by apply agrees_weaken, agrees_fail|].
    pose proof (Hk Hhk parent it m Hm) as H. rewrite Hnc in H.
    run_part H (pat_match fuel h q parent it m) b it' m' E Hl. destruct b.
    + by apply agrees_weaken, agrees_fail.
    + rewrite <-(later_view _ _ _ Hl) by done. by apply (Hcont false).
  - destruct Hk as [Hk1 Hk2]. apply andb_true_iff in Hhk as [[El Hh1]%andb_true_iff Hh2].
    apply eqb_prop in El. destruct l.
    + pose proof (add_frame_later m Hm) as Ha. destruct (add_frame m) as [k1 m1].
      destruct Ha as (-> & E1 & Hl1).
      pose proof (Hk1 Hh1 parent it m1 (later_ok _ _ _ Hl1)) as H.
      rewrite (later_view _ _ _ Hl1) in H by done.
      run_part H (pat_match fuel h q parent it m1) b it' m' E Hl. rewrite <-El. cbn [orb].
      destruct b.
      * apply (Hcont true). weaken_to (later_trans _ _ _ _ _ Hl1 Hl).
      * pose proof (return_later _ _ _ _ Hm Hl1 E1 Hl) as H3. set (m3 := return_to_frame _ m') in *.
        pose proof (Hk2 Hh2 parent it m3 (later_ok _ _ _ H3)) as H2.
        rewrite (later_view _ _ _ H3) in H2 by done.
        run_part H2 (pat_match fuel h r parent it m3) b it2 m2 E2 Hl2. destruct b; cbn [negb].
        -- apply (Hcont true). weaken_to (later_trans _ _ _ _ _ H3 Hl2).
        -- apply agrees_fail. weaken_to (later_trans _ _ _ _ _ H3 Hl2).
    + pose proof (Hk1 Hh1 parent it m Hm) as H. rewrite <-El in H |- *. cbn [orb].
      run_part H (pat_match fuel h q parent it m) b it' m' E Hl. destruct b.
      * apply Hcont. weaken_to Hl.
      * pose proof (Hk2 Hh2 parent it m' (later_ok _ _ _ Hl)) as H2.
        rewrite (later_view _ _ _ Hl) in H2 by done.
        run_part H2 (pat_match fuel h r parent it m') b it2 m2 E2 Hl2.
        pose proof (later_trans _ _ _ _ _ Hl Hl2) as Hl3. destruct b; cbn [negb].
        -- by apply Hcont.
        -- apply agrees_fail. weaken_to Hl3.
  - destruct (climb _ _ _ _); [by apply (Hcont false)|by apply agrees_weaken, agrees_fail].
  - destruct (token_in _ _); [by apply (Hcont false)|by apply agrees_weaken, agrees_fail].
  - destruct (it =? 0)%nat; [by apply (Hcont false)|by apply agrees_weaken, agrees_fail].
  - destruct (it =? _)%nat; split; try done; weaken_to Hr.
  - destruct Hk as [Hk1 Hk2]. apply andb_true_iff in Hhk as [Hh1 Hh2].
    pose proof (Hk1 Hh1 parent it m Hm) as H.
    run_part H (pat_match fuel h q parent it m) b it' m' E Hl. destruct b; cbn [negb].
    + destruct (_ !! it) as [n|]; cbn [or_undefined mbind outcome_bind]; [|done].
      pose proof (Hk2 Hh2 n 0%nat m' (later_ok _ _ _ Hl)) as H2.
      run_part H2 (pat_match fuel h r n 0%nat m') b it2 m2 E2 Hl2.
      pose proof (later_trans _ _ _ _ _ Hl Hl2) as Hl3. destruct b; cbn [negb].
      * by apply Hcont.
      * apply agrees_fail. weaken_to Hl3.
    + apply agrees_fail. weaken_to Hl.
  - apply andb_true_iff in Hhk as [Hnc Hhk]. apply negb_true_iff in Hnc.
    pose proof (Hk Hhk parent it m Hm) as H. rewrite Hnc in H.
    run_part H (pat_match fuel h q parent it m) b it' m' E Hl. destruct b; cbn [negb].
    + rewrite <-(later_view _ _ _ Hl) by done. by apply (Hcont false).
    + by apply agrees_weaken, agrees_fail.
  - apply andb_true_iff in Hhk as [Hnc Hhk]. apply negb_true_iff in Hnc.
    pose proof (Hk Hhk parent it m Hm) as H. rewrite Hnc in H.
    run_part H (pat_match fuel h q parent it m) b it' m' E Hl. destruct b.
    + by apply agrees_weaken, agrees_fail.
    + rewrite <-(later_view _ _ _ Hl) by done. by apply (Hcont false).
  - apply andb_true_iff in Hhk as [Hnc Hhk]. apply negb_true_iff in Hnc.
    pose proof (Hk Hhk parent it m Hm) as H. rewrite Hnc in H.
    run_part H (pat_match fuel h q parent it m) b it' m' E Hl. destruct b; cbn [negb].
    + destruct (action _ _) as [b| |]; cbn [mbind outcome_bind]; [|done..]. destruct b; cbn [negb].
      * by apply (Hcont false).
      * by apply agrees_weaken, agrees_fail.
    + by apply agrees_weaken, agrees_fail.
Qed.
End Refinement.
