(* ===== verification/RewriteTheorems.v ===== *)
(** What the operators of [Pattern] build, and the properties of matching. *)
From S2P Require Import Prelude.
From S2P Require Import Token.
From S2P Require Import Source.
From S2P Require Import Ast.
From S2P Require Import FastPattern.
From S2P Require Import TRegex.
From S2P Require Import Rewrite.
From S2P Require Import RewriteFacts.
Open Scope Z_scope.

(** * Patterns that the operators build

    Two uses that the operators allow are left out: an action on a pattern that captures, and
    an option or an iteration of a pattern that can start with any node under some parents
    only ([action_hides_captures], [option_keeps_parents]). *)
Definition optional_index (f : FastPattern) : Prop := any_first f = true -> parents f = ∅.

Inductive built : Pattern -> Prop :=
  | built_any : built Any
  | built_start : built Start
  | built_end : built End_
  | built_token types : built (T types)
  | built_regex type r : built (T_regex type r)
  | built_in types : built (In types)
  | built_cap name p : built p -> built (pattern_cap name p)
  | built_action action p : built p -> has_captures (pattern p) = false ->
      built (pattern_action action p)
  | built_opt p : built p -> optional_index (fast_pattern p) -> built (pattern_opt p)
  | built_pred p q : built p -> pattern_pred p = Returns q -> built q
  | built_neg_pred p q : built p -> pattern_neg_pred p = Returns q -> built q
  | built_rep p q : built p -> optional_index (fast_pattern p) -> pattern_rep p = Returns q -> built q
  | built_not p q : built p -> pattern_not p = Returns q -> built q
  | built_seq p q r : built p -> built q -> pattern_seq p q = Returns r -> built r
  | built_choice p q r : built p -> built q -> pattern_choice p q = Returns r -> built r
  | built_children p q : built p -> built q -> built (pattern_children p q).

(** ** What the constructors return *)

Lemma make_cases p q : 
  (make_rep p = Returns q -> has_captures p = false /\ q = Pat (Rep p) None)
  /\ (make_not p = Returns q -> has_captures p = false /\ q = Pat (Not p) None)
  /\ (make_pred p = Returns q -> has_captures p = false /\ q = Pat (Pred p) None)
  /\ (make_neg_pred p = Returns q -> has_captures p = false /\ q = Pat (NegPred p) None).
Proof.
  unfold make_rep, make_not, make_pred, make_neg_pred.
  destruct (has_captures p); split_and!; try done; by intros [= <-].
Qed.

Lemma pattern_rep_cases p q : pattern_rep p = Returns q ->
  fast_pattern q = match_any
    /\ ((exists r c, pattern p = Pat (Rep r) c /\ pattern q = pattern p)
        \/ exists types c, pattern p = Pat (Inside types) c /\ pattern q = Pat (InsideStar types) None)
  \/ has_captures (pattern p) = false
     /\ q = mkPattern (Pat (Rep (pattern p)) None) (match_opt (fast_pattern p)).
Proof.
  unfold pattern_rep. intros (r & E & H)%outcome_bind_returns.
  destruct r as [r|].
  - left. injection H as <-. split; [done|]. destruct (pattern p) as [k c]. cbn.
    destruct k; cbn in E; try done; destruct c; try done; injection E as <-; [left|right]; eauto.
  - right. apply outcome_bind_returns in H as (a & Ha & [= <-]).
    destruct (make_cases (pattern p) a) as (Hm & _). by destruct (Hm Ha) as [? ->].
Qed.

Lemma only_tokens_cons p t l : only_tokens p = t :: l -> p = Pat (TokenMatch (t :: l)) None.
Proof. destruct p as [[] []]; try done. by intros [= ->]. Qed.

Lemma pattern_choice_cases p q r : pattern_choice p q = Returns r ->
  fast_pattern r = match_choice (fast_pattern p) (fast_pattern q)
  /\ ((exists l1 l2, pattern p = Pat (TokenMatch l1) None /\ pattern q = Pat (TokenMatch l2) None
         /\ pattern r = Pat (TokenMatch (l1 ++ l2)) None)
      \/ pattern r = Pat (Choice (has_captures (pattern p)) (pattern p) (pattern q)) None).
Proof.
  unfold pattern_choice, make_choice. rewrite Bool.eqb_reflx. cbn [negb mbind outcome_bind].
  intros H. destruct (only_tokens (pattern p)) as [|t1 l1] eqn:E1.
  { injection H as <-. split; [done|by right]. }
  destruct (only_tokens (pattern q)) as [|t2 l2] eqn:E2.
  { injection H as <-. split; [done|by right]. }
  injection H as <-. split; [done|left]. exists (t1 :: l1), (t2 :: l2).
  split_and!; [by apply only_tokens_cons..|done].
Qed.

(** * Captures *)

Lemma set_continuation_honest p : forall q r, set_continuation p q = Returns r ->
  honest p = true -> honest q = true ->
  honest r = true /\ has_captures r = has_captures p || has_captures q.
Proof.
  induction p as [k c Hk Hc] using pattern_ind. intros q r E Hp Hq.
  cbn in Hp. apply andb_true_iff in Hp as [Hp Hpc].
  assert (exists c', r = Pat k (Some c') /\ honest c' = true
    /\ has_captures c' = match c with Some c => has_captures c | None => false end || has_captures q)
    as (c' & -> & Hc' & Ec).
  { destruct k; try done; destruct c as [c|]; cbn in E;
      (apply outcome_bind_returns in E as (c' & Ec & [= <-]);
         destruct (Hc q c' Ec Hpc Hq); by exists c') || (injection E as <-; by exists q). }
  split.
  - cbn. by rewrite Hp, Hc'.
  - cbn. rewrite Ec. by rewrite orb_assoc.
Qed.

Lemma built_honest p : built p -> honest (pattern p) = true.
Proof.
  induction 1 as [| | | | | |name p _ IH|action p _ IH Hc|p _ IH|p q _ IH E|p q _ IH E
    |p q _ IH _ E|p q _ IH E|p q r _ IH1 _ IH2 E|p q r _ IH1 _ IH2 E|p q _ IH1 _ IH2]; try done.
  - cbn. by rewrite IH.
  - cbn. by rewrite Hc, IH.
  - cbn. by rewrite IH.
  - apply outcome_bind_returns in E as (x & Ex & [= <-]).
    destruct (make_cases (pattern p) x) as (_ & _ & Hm & _). destruct (Hm Ex) as [Hc ->].
    cbn. by rewrite Hc, IH.
  - apply outcome_bind_returns in E as (x & Ex & [= <-]).
    destruct (make_cases (pattern p) x) as (_ & _ & _ & Hm). destruct (Hm Ex) as [Hc ->].
    cbn. by rewrite Hc, IH.
  - apply pattern_rep_cases in E as [[_ [(r & c & _ & ->)|(types & c & _ & ->)]]|[Hc ->]]; [done..|].
    cbn. by rewrite Hc, IH.
  - apply outcome_bind_returns in E as (x & Ex & [= <-]).
    destruct (make_cases (pattern p) x) as (_ & Hm & _ & _). destruct (Hm Ex) as [Hc ->].
    cbn. by rewrite Hc, IH.
  - apply outcome_bind_returns in E as (x & Ex & [= <-]).
    by apply (set_continuation_honest (pattern p) (pattern q) x).
  - apply pattern_choice_cases in E as [_ [(l1 & l2 & _ & _ & ->)| ->]]; [done|].
    cbn. by rewrite Bool.eqb_reflx, IH1, IH2.
  - cbn. by rewrite IH1, IH2.
Qed.

(** C3: captures backtrack.  For a pattern that the operators build, [Pattern::match] on the
    frames of a [Match] that was just [reset] does what the reference does on a map that
    backtracking puts back: it matches the same nodes, fails, throws and diverges on the same
    inputs, and when it matches, [match[token]] reads for every token exactly what the
    reference captured for it. *)
Theorem captures_backtrack (p : Pattern) (fuel : nat) (h : heap) (parent : Node) (it : nat)
    (m : Match) (Hp : built p) (Hm : match_ok m) :
  match pattern_match fuel h p parent it (reset m) with
  | Returns (true, (it', m')) =>
      exists env, ref_match fuel h (pattern p) parent it ∅ = Returns (Some (it', env))
        /\ match_ok m' /\ forall token, match_range m' token = default empty_range (env !! token)
  | Returns (false, (_, m')) =>
      ref_match fuel h (pattern p) parent it ∅ = Returns None /\ match_ok m'
  | Throws => ref_match fuel h (pattern p) parent it ∅ = Throws
  | Undefined => ref_match fuel h (pattern p) parent it ∅ = Undefined
  end.
Proof.
  destruct (reset_ok m Hm) as [Ho Hv].
  pose proof (match_agrees fuel h (pattern p) (built_honest p Hp) parent it (reset m) Ho) as H.
  rewrite Hv in H. unfold pattern_match.
  destruct (pat_match _ _ _ _ _ _) as [[b [it' m']]| |]; cbn in H; [|done..].
  destruct H as [H Hl]. destruct b; [|split; [done|apply Hl]].
  exists (match_view m'). split; [done|]. split; [apply Hl|]. intros token. unfold match_range.
  by rewrite find_capture_view.
Qed.

(** * Sequences *)

(** [p * q] matches [p] and then [q] from where it ended. *)
Lemma set_continuation_match fuel h p : forall q r, set_continuation p q = Returns r ->
  forall parent it m, pat_match fuel h r parent it m
  = ('(b, (it, m)) ← pat_match fuel h p parent it m;
     if (b : bool) then pat_match fuel h q parent it m else Returns (false, (it, m))).
Proof.
  induction p as [k c _ Hc] using pattern_ind. intros q r E parent it m.
  assert (exists c', r = Pat k (Some c') /\ forall parent it m, pat_match fuel h c' parent it m
    = ('(b, (it, m)) ← match c with None => Returns (true, (it, m))
         | Some c => pat_match fuel h c parent it m end;
       if (b : bool) then pat_match fuel h q parent it m else Returns (false, (it, m))))
    as (c' & -> & Hc').
  { destruct k; try done; destruct c as [c|]; cbn in E;
      (apply outcome_bind_returns in E as (c' & Ec & [= <-]); exists c'; split; [done|];
         intros; by apply Hc) || (injection E as <-; by exists q). }
  assert (Hlast : k <> Last) by (intros ->; by destruct c).
  clear Hc E. destruct k; cbn [pat_match]; unfold_match; try done.
  all: repeat first
    [ rewrite Hc'; reflexivity
    | done
    | match goal with
      | |- (let '(_, _) := ?o in _) = _ => destruct o as [? ?]
      | |- (x ← ?o; _) = _ =>
          lazymatch type of o with
          | outcome (bool * (nat * Match)) => destruct o as [[[] [? ?]]| |]
          | outcome (nat * Match) => destruct o as [[? ?]| |]
          | outcome _ => destruct o as [?| |]
          end; cbn [mbind outcome_bind negb]
      | |- (match ?o with _ => _ end) = _ => destruct o; cbn [negb]
      end ].
Qed.

(** * The index of a pattern is sound *)

Section Sound.
Context (fuel : nat) (h : heap).

Definition first_type (parent : Node) (it : nat) : option Token :=
  type_of h <$> children_of h parent !! it.

Definition sound (p : PatternDef) (f : FastPattern) : Prop := forall parent it m it' m',
  pat_match fuel h p parent it m = Returns (true, (it', m')) ->
  admits f (type_of h parent) (first_type parent it) (it' = it).

Lemma admits_weaken f t t' (e e' : Prop) : admits f t t' e -> (e -> e') -> admits f t t' e'.
Proof. intros [H1 H2] He. split; [done|]. destruct H2 as [?|[[? ?]|?]]; auto. Qed.

Lemma seq_sound p q r f g : set_continuation p q = Returns r -> sound p f -> sound q g ->
  sound r (match_seq f g).
Proof.
  intros E Hp Hq parent it m it' m'. rewrite (set_continuation_match _ _ _ _ _ E).
  intros ([b [it1 m1]] & E1 & E2)%outcome_bind_returns. destruct b; [|done].
  eapply admits_weaken; [eapply admits_seq; [by eapply Hp|by eapply Hq|by intros ->]|].
  by intros [-> ->].
Qed.

Lemma rep_sound p f : optional_index f -> sound p f -> forall n parent it m it' m',
  rep_loop (pat_match fuel h p parent) (length (children_of h parent)) n it m = Returns (it', m') ->
  admits (match_opt f) (type_of h parent) (first_type parent it) (it' = it).
Proof.
  intros Hf Hp n parent. induction n as [|n IH]; intros it m it' m'; cbn.
  { destruct (it =? _)%nat; [|done]. intros [= <- <-]. by apply admits_opt_none. }
  destruct (it =? _)%nat; [intros [= <- <-]; by apply admits_opt_none|].
  intros ([b [it1 m1]] & E1 & E2)%outcome_bind_returns. destruct b.
  2: { injection E2 as <- <-. by apply admits_opt_none. }
  destruct (Hp _ _ _ _ _ E1) as [H1 H2]. destruct H2 as [H2|[[_ ->]|H2]].
  - apply admits_opt_some. split; [done|by left].
  - by eapply IH.
  - apply admits_opt_some. split; [done|by right; right].
Qed.

Lemma tokens_admit parent it types : (match children_of h parent !! it with
    Some n => token_in types (type_of h n) | None => false end) = true ->
  forall e : Prop, admits (match_token (list_to_set types)) (type_of h parent) (first_type parent it) e.
Proof.
  intros H e. unfold first_type. destruct (_ !! it) as [n|]; [|done].
  split; [by left|]. right. right. exists (type_of h n). split; [done|].
  apply elem_of_list_to_set. by apply token_in_elem.
Qed.

Lemma built_sound p : built p -> sound (pattern p) (fast_pattern p).
Proof.
  induction 1 as [| | |types|type r|types|name p _ IH|action p _ IH Hc|p _ IH Hf|p q _ IH E|p q _ IH E
    |p q _ IH Hf E|p q _ IH E|p q r _ IH1 _ IH2 E|p q r _ IH1 _ IH2 E|p q _ IH1 _ IH2];
    intros parent it m it' m'; cbn [pattern fast_pattern pattern_cap pattern_action pattern_opt
      pattern_children Any Start End_ T T_regex In pat_match]; unfold_match.
  - intros _. apply admits_any.
  - destruct (it =? 0)%nat; [|done]. intros [= <- <-]. by apply admits_pred.
  - intros [= _ <- <-]. by apply admits_pred.
  - intros E. apply tokens_admit. destruct (_ !! it); [|done].
    destruct (token_in _ _); [done|done].
  - intros E. replace {[type]} with (list_to_set [type] : gset Token) by set_solver.
    apply tokens_admit. destruct (_ !! it) as [n|]; [|done]. cbn. rewrite orb_false_r.
    by destruct (token_eqb (type_of h n) type).
  - destruct (token_in _ _) eqn:E; [|done]. intros [= <- <-]. split.
    + right. cbn. apply elem_of_list_to_set. by apply token_in_elem.
    + by right; left.
  - intros ([[] [it1 m1]] & E1 & E2)%outcome_bind_returns; [|done]. cbn in E2.
    injection E2 as <- <-. by eapply IH.
  - intros ([[] [it1 m1]] & E1 & E2)%outcome_bind_returns; [|done]. cbn in E2.
    apply outcome_bind_returns in E2 as ([] & _ & E2); [|done]. injection E2 as <- <-. by eapply IH.
  - destruct (add_frame m) as [k m0]. intros ([[] [it1 m1]] & E1 & E2)%outcome_bind_returns.
    + injection E2 as <- <-. by eapply admits_opt_some, IH.
    + injection E2 as <- <-. by apply admits_opt_none.
  - apply outcome_bind_returns in E as (x & Ex & [= <-]).
    destruct (make_cases (pattern p) x) as (_ & _ & Hm & _). destruct (Hm Ex) as [_ ->]. cbn.
    intros ([[] [it1 m1]] & E1 & E2)%outcome_bind_returns; [|done]. injection E2 as <- <-.
    by apply admits_pred.
  - apply outcome_bind_returns in E as (x & Ex & [= <-]).
    destruct (make_cases (pattern p) x) as (_ & _ & _ & Hm). destruct (Hm Ex) as [_ ->]. cbn.
    intros ([[] [it1 m1]] & E1 & E2)%outcome_bind_returns; [done|]. injection E2 as <- <-.
    by apply admits_pred.
  - apply pattern_rep_cases in E as [[-> _]|[_ ->]]; [intros _; apply admits_any|]. cbn.
    intros ([it1 m1] & E1 & E2)%outcome_bind_returns. injection E2 as <- <-.
    by eapply rep_sound.
  - apply outcome_bind_returns in E as (x & Ex & [= <-]). intros _. apply admits_any.
  - apply outcome_bind_returns in E as (x & Ex & [= <-]). by eapply seq_sound.
  - apply pattern_choice_cases in E as [-> [(l1 & l2 & E1 & E2 & ->)| ->]]; cbn; unfold_match.
    + unfold sound in IH1, IH2. rewrite E1 in IH1. rewrite E2 in IH2. cbn in IH1, IH2.
      unfold_match.
      specialize (IH1 parent it m (S it) m). specialize (IH2 parent it m (S it) m).
      destruct (_ !! it) as [n|]; [|done]. unfold token_in. rewrite existsb_app.
      fold (token_in l1 (type_of h n)) (token_in l2 (type_of h n)).
      destruct (token_in l1 _); cbn; [intros [= <- <-]; by apply admits_choice_l, IH1|].
      destruct (token_in l2 _); [|done]. intros [= <- <-]. by apply admits_choice_r, IH2.
    + destruct (if has_captures _ then _ else _) as [k m0].
      intros ([[] [it1 m1]] & E1 & E2)%outcome_bind_returns.
      * injection E2 as <- <-. by eapply admits_choice_l, IH1.
      * apply outcome_bind_returns in E2 as ([[] [it2 m2]] & E2 & E3); [|done].
        injection E3 as <- <-. by eapply admits_choice_r, IH2.
  - intros ([[] [it1 m1]] & E1 & E2)%outcome_bind_returns; [|done]. cbn in E2.
    apply outcome_bind_returns in E2 as (n & _ & E2).
    apply outcome_bind_returns in E2 as ([[] [it2 m2]] & _ & E3); [|done].
    injection E3 as <- <-. by eapply IH1.
Qed.
End Sound.

(** C26: the index that [compile_rules] enters a rule under loses no match.  When a pattern
    that the operators build matches at a child of [parent], then its set of parents is empty
    or holds [parent]'s type, and it may consume nothing, or can start with anything, or the
    child's type is one of its starts. *)
Theorem fast_pattern_sound (p : Pattern) (fuel : nat) (h : heap) (parent : Node) (it : nat)
    (m : Match) (it' : nat) (m' : Match) (Hp : built p)
    (Hmatch : pattern_match fuel h p parent it m = Returns (true, (it', m'))) :
  (parents (fast_pattern p) = ∅ \/ type_of h parent ∈ parents (fast_pattern p))
  /\ (pass_through (fast_pattern p) = true \/ starts (fast_pattern p) = ∅
      \/ exists n, children_of h parent !! it = Some n /\ (type_of h n ∈ starts (fast_pattern p))).
Proof.
  destruct (built_sound fuel h p Hp parent it m it' m' Hmatch) as [H1 H2]. split; [done|].
  destruct H2 as [[? _]%any_first_spec|[[? _]|(t & E & Ht)]]; [by right; left|by left|].
  right. right. unfold first_type in E. destruct (_ !! it) as [n|]; [|done]. injection E as <-.
  by exists n.
Qed.

(** * Matching returns *)

(** Whether a match of the pattern must consume a node. *)
Fixpoint consumes (p : PatternDef) : bool :=
  let '(Pat k c) := p in
  (match k with
   | Anything | TokenMatch _ | RegexMatch _ _ | Not _ => true
   | Cap _ q | Action _ q | Children q _ => consumes q
   | Choice _ q r => consumes q && consumes r
   | _ => false
   end) || match c with Some c => consumes c | None => false end.

(** Iterations and [<<] are on patterns that consume. *)
Fixpoint guarded (p : PatternDef) : bool :=
  let '(Pat k c) := p in
  (match k with
   | Cap _ q | Opt q | Not q | Pred q | NegPred q | Action _ q => guarded q
   | Rep q => consumes q && guarded q
   | Choice _ q r => guarded q && guarded r
   | Children q r => consumes q && guarded q && guarded r
   | Last => match c with None => true | Some _ => false end
   | _ => true
   end) && match c with Some c => guarded c | None => true end.

Section Total.
Context (fuel : nat) (h : heap).
Context (Hfuel : forall n, (length (children_of h n) <= fuel)%nat).
Context (Hview : forall n, exists v, view (location_of h n) = Returns v).

(** The actions of a pattern return. *)
Fixpoint actions_return (p : PatternDef) : Prop :=
  let '(Pat k c) := p in
  (match k with
   | Cap _ q | Opt q | Not q | Rep q | Pred q | NegPred q => actions_return q
   | Action action q => (forall r, exists b, action h r = Returns b) /\ actions_return q
   | Choice _ q r | Children q r => actions_return q /\ actions_return r
   | _ => True
   end) /\ match c with Some c => actions_return c | None => True end.

Definition end_of (parent : Node) : nat := length (children_of h parent).

(** A match from [it] returned: where it can end. *)
Definition returns (strict : bool) (parent : Node) (it : nat)
    (o : outcome (bool * (nat * Match))) : Prop :=
  exists b it' m', o = Returns (b, (it', m'))
    /\ (b = true -> (it <= it' <= end_of parent)%nat /\ (strict = true -> (it < it')%nat)).

Lemma rep_returns (body : matcher) parent : 
  (forall it m, (it <= end_of parent)%nat -> returns true parent it (body it m)) ->
  forall n it m, (it <= end_of parent)%nat -> (end_of parent - it <= n)%nat ->
  exists it' m', rep_loop body (end_of parent) n it m = Returns (it', m')
    /\ (it <= it' <= end_of parent)%nat.
Proof.
  intros Hb. induction n as [|n IH]; intros it m Hi Hn; cbn.
  { destruct (Nat.eqb_spec it (end_of parent)); [by exists it, m|lia]. }
  destruct (Nat.eqb_spec it (end_of parent)); [by exists it, m|].
  destruct (Hb it m Hi) as (b & it1 & m1 & -> & H). cbn. destruct b; [|by exists it, m1].
  destruct (H eq_refl) as [H1 H2]. specialize (H2 eq_refl).
  destruct (IH it1 m1) as (it2 & m2 & -> & H3); [lia..|]. exists it2, m2. split; [done|lia].
Qed.

Lemma returns_fail strict parent it it' m' : returns strict parent it (Returns (false, (it', m'))).
Proof. by exists false, it', m'. Qed.

Lemma match_returns p : guarded p = true -> actions_return p ->
  forall parent it m, (it <= end_of parent)%nat ->
  returns (consumes p) parent it (pat_match fuel h p parent it m).
Proof.
  induction p as [k c Hk Hc] using pattern_ind. intros Hg Ha parent it m Hi.
  cbn in Hg. apply andb_true_iff in Hg as [Hg Hgc].
  assert (Hcont : forall s it1 m1, (it <= it1 <= end_of parent)%nat -> (s = true -> (it < it1)%nat) ->
    returns (s || match c with Some c => consumes c | None => false end) parent it
      match c with None => Returns (true, (it1, m1)) | Some c => pat_match fuel h c parent it1 m1 end).
  { intros s it1 m1 H1 H2. destruct c as [c|].
    - destruct Ha as [_ Ha]. destruct (Hc Hgc Ha parent it1 m1) as (b & it2 & m2 & -> & H); [lia|].
      exists b, it2, m2. split; [done|]. intros Hb. destruct (H Hb) as [H3 H4]. split; [lia|].
      intros [Hs|Hs]%orb_true_iff; [specialize (H2 Hs)|specialize (H4 Hs)]; lia.
    - exists true, it1, m1. split; [done|]. rewrite orb_false_r. auto. }
  clear Hc Hgc. pose proof (returns_fail) as Hfail.
  assert (Hnode : forall n, children_of h parent !! it = Some n -> (it < end_of parent)%nat).
  { intros n Hn. by apply lookup_lt_Some in Hn. }
  destruct k as [name q| |types|type regex|q|q|q|l q r|types|types| | |q r|q|q|action q];
    cbn [pat_match consumes kind_all actions_return] in *; unfold_match; destruct Ha as [Ha _];
    try (apply andb_true_iff in Hg as [Hcq Hg]);
    fold (end_of parent).
  - destruct (Hk Hg Ha parent it m Hi) as (b & it' & m' & -> & H). cbn [mbind outcome_bind].
    destruct b; cbn [negb]; [|apply Hfail]. destruct (H eq_refl). by apply Hcont.
  - destruct (Nat.eqb_spec it (end_of parent)); [apply Hfail|]. apply (Hcont true); lia.
  - destruct (_ !! it) as [n|] eqn:E; [|apply Hfail]. specialize (Hnode n eq_refl).
    destruct (token_in _ _); [|apply Hfail]. apply (Hcont true); lia.
  - destruct (_ !! it) as [n|] eqn:E; [|apply Hfail]. specialize (Hnode n eq_refl).
    destruct (token_eqb _ _); cbn [negb]; [|apply Hfail]. unfold full_match_node.
    destruct (Hview n) as [v ->]. cbn [mbind outcome_bind].
    destruct (fst _); cbn [negb]; [|apply Hfail]. apply (Hcont true); lia.
  - destruct (add_frame m) as [k1 m1].
    destruct (Hk Hg Ha parent it m1 Hi) as (b & it' & m' & -> & H). cbn [mbind outcome_bind].
    destruct b; [destruct (H eq_refl)|]; by apply (Hcont false).
  - destruct (rep_returns (pat_match fuel h q parent) parent) with (n := fuel) (it := it) (m := m)
      as (it' & m' & -> & H); [|done|specialize (Hfuel parent); unfold end_of; lia|].
    + intros it1 m1 H1. pose proof (Hk Hg Ha parent it1 m1 H1) as H. by rewrite Hcq in H.
    + by apply (Hcont false).
  - destruct (Nat.eqb_spec it (end_of parent)); [apply Hfail|].
    destruct (Hk Hg Ha parent it m Hi) as (b & it' & m' & -> & H). cbn [mbind outcome_bind].
    destruct b; [apply Hfail|]. apply (Hcont true); lia.
  - destruct Hk as [Hk1 Hk2], Ha as [Ha1 Ha2].
    destruct (if l then _ else _) as [k1 m1].
    destruct (Hk1 Hcq Ha1 parent it m1 Hi) as (b & it' & m' & -> & H). cbn [mbind outcome_bind].
    destruct b.
    + destruct (H eq_refl) as [H1 H2]. apply Hcont; [done|]. intros [Hs _]%andb_true_iff. auto.
    + destruct (Hk2 Hg Ha2 parent it (if l then return_to_frame k1 m' else m') Hi)
        as (b & it2 & m2 & -> & H2). cbn [mbind outcome_bind]. destruct b; cbn [negb]; [|apply Hfail].
      destruct (H2 eq_refl) as [H3 H4]. apply Hcont; [done|]. intros [_ Hs]%andb_true_iff. auto.
  - destruct (climb _ _ _ _); [|apply Hfail]. by apply (Hcont false).
  - destruct (token_in _ _); [|apply Hfail]. by apply (Hcont false).
  - destruct (it =? 0)%nat; [|apply Hfail]. by apply (Hcont false).
  - destruct c; [done|]. eexists _, it, m. split; [done|]. intros _. split; [lia|done].
  - destruct Hk as [Hk1 Hk2], Ha as [Ha1 Ha2]. apply andb_true_iff in Hcq as [Hcq Hgq].
    destruct (Hk1 Hgq Ha1 parent it m Hi) as (b & it' & m' & -> & H). cbn [mbind outcome_bind].
    destruct b; cbn [negb]; [|apply Hfail]. destruct (H eq_refl) as [H1 H2]. specialize (H2 Hcq).
    destruct (lookup_lt_is_Some_2 (children_of h parent) it) as [n Hn]; [unfold end_of in *; lia|].
    rewrite Hn. cbn [or_undefined mbind outcome_bind].
    destruct (Hk2 Hg Ha2 n 0%nat m') as (b2 & it2 & m2 & -> & _); [lia|].
    cbn [mbind outcome_bind]. destruct b2; cbn [negb]; [|apply Hfail]. by apply Hcont.
  - destruct (Hk Hg Ha parent it m Hi) as (b & it' & m' & -> & H). cbn [mbind outcome_bind].
    destruct b; cbn [negb]; [|apply Hfail]. by apply (Hcont false).
  - destruct (Hk Hg Ha parent it m Hi) as (b & it' & m' & -> & H). cbn [mbind outcome_bind].
    destruct b; [apply Hfail|]. by apply (Hcont false).
  - destruct Ha as [Haa Ha].
    destruct (Hk Hg Ha parent it m Hi) as (b & it' & m' & -> & H). cbn [mbind outcome_bind].
    destruct b; cbn [negb]; [|apply Hfail]. destruct (Haa (mkRange parent it it')) as [b ->].
    cbn [mbind outcome_bind]. destruct b; cbn [negb]; [|apply Hfail].
    destruct (H eq_refl). by apply Hcont.
Qed.
End Total.

(** C27: matching always returns.  When every iteration and every [<<] of a pattern is on a
    pattern that consumes a node, its actions return and the locations of the nodes can be
    read, then [Pattern::match] returns from every position of every parent: no iteration
    runs forever, no iterator at the end is dereferenced; and a match ends between its start
    and the end of the children, strictly past its start when the pattern consumes. *)
Theorem pattern_match_returns (p : Pattern) (fuel : nat) (h : heap) (parent : Node) (it : nat)
    (m : Match)
    (Hp : guarded (pattern p) = true)
    (Hactions : actions_return h (pattern p))
    (Hview : forall n, exists v, view (location_of h n) = Returns v)
    (Hfuel : forall n, (length (children_of h n) <= fuel)%nat)
    (Hit : (it <= length (children_of h parent))%nat) :
  exists b it' m', pattern_match fuel h p parent it m = Returns (b, (it', m'))
    /\ (b = true -> (it <= it' <= length (children_of h parent))%nat
          /\ (consumes (pattern p) = true -> (it < it')%nat)).
Proof. by apply (match_returns fuel h Hfuel Hview (pattern p) Hp Hactions). Qed.

(** * Instances *)

Module Sample.

Definition A : Token := mkTokenDef "a" flag_print (20 * sizeof_void_ptr).
Definition B : Token := mkTokenDef "b" flag_print (21 * sizeof_void_ptr).
Definition Foo : Token := mkTokenDef "foo" 0 (22 * sizeof_void_ptr).

(** [(group (a) (b))]; the group is node 1. *)
Definition store : heap :=
  let '(group, h) := create_token ∅ Group in
  let '(a, h) := create_token h A in
  let '(b, h) := create_token h B in
  push_back (push_back h group (Some a)) group (Some b).
Definition group : Node := 1%positive.

(** [T(A)[A] * (~(T(B) * T(B)[B]))] *)
Definition tail : Pattern := pattern_opt (mkPattern
  (Pat (TokenMatch [B]) (Some (Pat (Cap B (Pat (TokenMatch [B]) None)) None)))
  (match_seq (fast_pattern (T [B])) (fast_pattern (T [B])))).
Definition pat : Pattern := mkPattern
  (Pat (Cap A (Pat (TokenMatch [A]) None)) (Some (pattern tail)))
  (match_seq (fast_pattern (T [A])) (fast_pattern tail)).

Lemma not_any t f : t ∈ starts f -> optional_index f.
Proof. intros H [E _]%any_first_spec. rewrite E in H. set_solver. Qed.

Lemma pat_built : built pat.
Proof.
  apply (built_seq (pattern_cap A (T [A])) tail).
  - apply built_cap, built_token.
  - apply built_opt.
    + apply (built_seq (T [B]) (pattern_cap B (T [B]))); [apply built_token|apply built_cap, built_token|].
      reflexivity.
    + apply (not_any B). cbn. set_solver.
  - reflexivity.
Qed.

Lemma views n : exists v, view (location_of store n) = Returns v.
Proof.
  exists []. unfold location_of, node_at.
  destruct (store !! n) as [d|] eqn:E; [|done]. cbn.
  assert (H : map_Forall (fun _ d => match view (location_ d) with Returns [] => true | _ => false end
    = true) store) by (apply (bool_decide_unpack _); vm_compute; exact I).
  specialize (H n d E). cbn in H. by destruct (view _) as [[]| |].
Qed.

Lemma lengths n : (length (children_of store n) <= 2)%nat.
Proof.
  unfold children_of, node_at. destruct (store !! n) as [d|] eqn:E; [|cbn; lia]. cbn.
  assert (H : map_Forall (fun _ d => (length (children d) <= 2)%nat) store).
  { apply (bool_decide_unpack _). vm_compute. exact I. }
  by apply (H n).
Qed.

End Sample.

Lemma captures_backtrack_witness :
  pattern_match 5 Sample.store Sample.pat Sample.group 0 (reset new_match)
    = Returns (true, (1%nat, match pattern_match 5 Sample.store Sample.pat Sample.group 0
                               (reset new_match) with Returns (_, (_, m)) => m | _ => new_match end))
  /\ exists env, ref_match 5 Sample.store (pattern Sample.pat) Sample.group 0 ∅
                 = Returns (Some (1%nat, env)).
Proof.
  pose proof (captures_backtrack Sample.pat 5 Sample.store Sample.group 0 new_match
    Sample.pat_built ltac:(unfold match_ok; cbn; lia)) as H.
  assert (E : exists m, pattern_match 5 Sample.store Sample.pat Sample.group 0 (reset new_match)
    = Returns (true, (1%nat, m))) by (eexists; vm_compute; reflexivity).
  destruct E as [m E]. rewrite E in H |- *. split; [reflexivity|].
  destruct H as (env & H & _). exists env. exact H.
Defined.

Lemma fast_pattern_sound_witness :
  type_of Sample.store 2%positive ∈ starts (fast_pattern Sample.pat).
Proof.
  assert (E : exists m, pattern_match 5 Sample.store Sample.pat Sample.group 0 (reset new_match)
    = Returns (true, (1%nat, m))) by (eexists; vm_compute; reflexivity).
  destruct E as [m E].
  destruct (fast_pattern_sound Sample.pat 5 Sample.store Sample.group 0 (reset new_match) 1 m
    Sample.pat_built E) as [_ [H|[H|(n & Hn & H)]]].
  - discriminate.
  - exfalso. revert H. cbn. set_solver.
  - vm_compute in Hn. injection Hn as <-. exact H.
Defined.

Lemma pattern_match_returns_witness :
  exists b it' m', pattern_match 2 Sample.store Sample.pat Sample.group 0 new_match
    = Returns (b, (it', m')).
Proof.
  destruct (pattern_match_returns Sample.pat 2 Sample.store Sample.group 0 new_match)
    as (b & it' & m' & H & _).
  - reflexivity.
  - cbn. tauto.
  - apply Sample.views.
  - apply Sample.lengths.
  - lia.
  - by exists b, it', m'.
Defined.

(** * What the side conditions are for *)

(** [(~T(A))++] on [(b)]: the body matches without consuming, and the iteration never ends,
    whatever the fuel. *)
Lemma optional_iteration_diverges fuel : exists p, pattern_rep (pattern_opt (T [Sample.A])) = Returns p
  /\ pattern_match fuel Sample.store p Sample.group 1 new_match = Undefined.
Proof.
  eexists. split; [reflexivity|]. unfold pattern_match.
  change (pat_match fuel Sample.store _ Sample.group 1 new_match)
    with ('(it, m) ← rep_loop (pat_match fuel Sample.store
            (Pat (Opt (Pat (TokenMatch [Sample.A]) None)) None) Sample.group) 2 fuel 1 new_match;
          Returns (true, (it, m))).
  assert (forall n m, rep_loop (pat_match fuel Sample.store
    (Pat (Opt (Pat (TokenMatch [Sample.A]) None)) None) Sample.group) 2 n 1 m = Undefined) as ->; [|done].
  induction n as [|n IH]; intros m; [done|]. cbn -[add_frame children_of Sample.store].
  destruct (add_frame m) as [k m1].
  change (children_of Sample.store Sample.group !! 1%nat) with (Some 3%positive).
  cbn -[Sample.store].
  change (type_of Sample.store 3%positive) with Sample.B. cbn. apply IH.
Qed.

(** [(T(A)[A])(f) * T(A) / T(A)]: the action hides the capture from [has_captures], the choice
    adds no frame, and the capture of the branch that failed is still there. *)
Definition hidden : outcome Pattern :=
  l ← pattern_seq (pattern_action (fun _ _ => Returns true) (pattern_cap Sample.A (T [Sample.A])))
        (T [Sample.A]);
  pattern_choice l (T [Sample.A]).

Lemma action_hides_captures :
  (p ← hidden; '(b, (_, m)) ← pattern_match 5 Sample.store p Sample.group 0 (reset new_match);
   r ← ref_match 5 Sample.store (pattern p) Sample.group 0 ∅;
   Returns (b, find_capture m Sample.A (index m),
            match r with Some (_, env) => env !! Sample.A | None => None end, bool_decide (r = None)))
  = Returns (true, Some (mkRange Sample.group 0 1), None, false).
Proof. vm_compute. reflexivity. Qed.

(** [~(In(Foo) * Any)] matches in a group, but its index only names [Foo]. *)
Lemma option_keeps_parents :
  (p ← pattern_seq (In [Sample.Foo]) Any;
   let p := pattern_opt p in
   '(b, _) ← pattern_match 5 Sample.store p Sample.group 0 new_match;
   Returns (b, bool_decide (parents (fast_pattern p) = {[Sample.Foo]}))) = Returns (true, true).
Proof. vm_compute. reflexivity. Qed.

(** [match(A)] when [A] captured an empty range: [front] of an empty range is undefined. *)
Lemma empty_capture_undefined :
  ('(b, (_, m)) ← pattern_match 5 Sample.store (pattern_cap Sample.A (pattern_opt (T [Sample.A])))
     Sample.group 1 new_match;
   match_node Sample.store m Sample.A) = Undefined.
Proof. vm_compute. reflexivity. Qed.
