(* ===== verification/Pass.v ===== *)
(** Passes ([include/trieste/pass.h]): the index of the rules, the rewriting of the children of
    a node, the sweep over the tree, lifting, and the loop of [run]. *)
From S2P Require Import Prelude.
From S2P Require Import Token.
From S2P Require Import Source.
From S2P Require Import Ast.
From S2P Require Import DefaultMap.
From S2P Require Import FastPattern.
From S2P Require Import Rewrite.
From S2P Require Import Wellformed.
Open Scope Z_scope.

(** * [namespace dir] *)
Definition dir_bottomup : Z := Z.shiftl 1 0.
Definition dir_topdown : Z := Z.shiftl 1 1.
Definition dir_once : Z := Z.shiftl 1 2.

(** * [PassDef] *)

(** The user's functions.  They change the store, and the first argument is the node that
    [ast::detail::top_node] holds, which [fresh] reads. *)
Definition Effect : Type := Node -> Match -> heap -> outcome (option Node * heap).
Definition F : Type := Node -> Node -> heap -> outcome (Z * heap).
Definition CondF : Type := Node -> Node -> heap -> outcome bool.

(** [detail::PatternEffect<Node>] *)
Record Rule := mkRule { rule_pattern : Pattern; rule_effect : Effect }.

Abbreviation RuleMap := (DefaultMap (DefaultMap (list Rule))).

Record PassDef := mkPass {
  pass_name : string;
  pass_wf : Wellformed;
  direction_ : Z;
  rules_ : list Rule;
  rule_map : RuleMap;
  pre_once : option F;
  post_once : option F;
  cond_run : option CondF;
  pre_ : gmap Token F;
  post_ : gmap Token F
}.

Definition NOCHANGE : Z := -1.
Definition REAPPLY : Z := -2.

Definition new_rule_map : RuleMap := new_default_map (new_default_map []).
Definition clear_rules (dm : DefaultMap (list Rule)) : DefaultMap (list Rule) :=
  clear (fun _ => []) dm.

(** The lambda [add] of [compile_rules] *)
Definition add_rule (rule : Rule) (rules : DefaultMap (list Rule)) : DefaultMap (list Rule) :=
  let f := fast_pattern (rule_pattern rule) in
  if set_empty (starts f) || pass_through f then modify_all (fun v => v ++ [rule]) rules
  else foldl (fun rules start => modify (fun v => v ++ [rule]) start rules) rules
         (elements (starts f)).

(** The body of the loop of [compile_rules] *)
Definition enter_rule (rm : RuleMap) (rule : Rule) : RuleMap :=
  let f := fast_pattern (rule_pattern rule) in
  if set_empty (parents f) then modify_all (add_rule rule) rm
  else foldl (fun rm parent => modify (add_rule rule) parent rm) rm (elements (parents f)).

(** [compile_rules] *)
Definition compile_rules (rules : list Rule) (rm : RuleMap) : RuleMap :=
  foldl enter_rule (clear clear_rules rm) rules.

(** [PassDef(name, wf, direction, rules)]; the other constructors leave out some arguments. *)
Definition new_pass (name : string) (wf : Wellformed) (direction : Z) (rules : list Rule) : PassDef :=
  mkPass name wf direction rules (compile_rules rules new_rule_map) None None None ∅ ∅.

(** [rules(r...)], [pre(f)], [post(f)], [cond(f)], [pre(types, f)], [post(types, f)] *)
Definition pass_rules (p : PassDef) (r : list Rule) : PassDef :=
  let rules := rules_ p ++ r in
  mkPass (pass_name p) (pass_wf p) (direction_ p) rules (compile_rules rules (rule_map p))
    (pre_once p) (post_once p) (cond_run p) (pre_ p) (post_ p).
Definition pass_pre (p : PassDef) (f : F) : PassDef :=
  mkPass (pass_name p) (pass_wf p) (direction_ p) (rules_ p) (rule_map p)
    (Some f) (post_once p) (cond_run p) (pre_ p) (post_ p).
Definition pass_post (p : PassDef) (f : F) : PassDef :=
  mkPass (pass_name p) (pass_wf p) (direction_ p) (rules_ p) (rule_map p)
    (pre_once p) (Some f) (cond_run p) (pre_ p) (post_ p).
Definition pass_cond (p : PassDef) (f : CondF) : PassDef :=
  mkPass (pass_name p) (pass_wf p) (direction_ p) (rules_ p) (rule_map p)
    (pre_once p) (post_once p) (Some f) (pre_ p) (post_ p).
Definition pass_pre_types (p : PassDef) (types : list Token) (f : F) : PassDef :=
  mkPass (pass_name p) (pass_wf p) (direction_ p) (rules_ p) (rule_map p)
    (pre_once p) (post_once p) (cond_run p) (foldl (fun m t => <[t := f]> m) (pre_ p) types) (post_ p).
Definition pass_post_types (p : PassDef) (types : list Token) (f : F) : PassDef :=
  mkPass (pass_name p) (pass_wf p) (direction_ p) (rules_ p) (rule_map p)
    (pre_once p) (post_once p) (cond_run p) (pre_ p) (foldl (fun m t => <[t := f]> m) (post_ p) types).

(** [flag] *)
Definition flag (p : PassDef) (f : Z) : bool := negb (Z.land (direction_ p) f =? 0).

(** * Rewriting the children of a node *)

Section Run.
Context (fuel : nat) (p : PassDef) (top : Node).

(** [std::for_each] with [set_location] *)
Fixpoint set_locations (h : heap) (nodes : list Node) (loc : Location) : outcome heap :=
  match nodes with
  | [] => Returns h
  | n :: nodes => h ← set_location fuel h n loc; set_locations h nodes loc
  end.

(** [PassDef::replace]: [replaced], the iterator it leaves in [it], and the store. *)
Definition pass_replace (m : Match) (rule_replace : Effect) (start it : nat) (node : Node) (h : heap)
    : outcome (Z * nat * heap) :=
  '(replace, h) ← rule_replace top m h;
  if match replace with Some r => token_eqb (type_of h r) NoChange | None => false end
  then Returns (NOCHANGE, it, h)
  else
    first ← or_undefined (children_of h node !! start);
    let loc := foldl (fun loc n => location_mul loc (location_of h n)) (location_of h first)
                 (drop (S start) (take it (children_of h node))) in
    let h := erase h node start it in
    match replace with
    | None => Returns (0, start, h)
    | Some r =>
        if token_in [Seq; Reapply] (type_of h r) then
          h ← set_locations h (children_of h r) loc;
          let replaced := if token_eqb (type_of h r) Reapply then REAPPLY
                          else size_of (children_of h r) in
          Returns (replaced, start, insert_range h node start (children_of h r))
        else
          h ← set_location fuel h r loc;
          Returns (1, start, Ast.insert h node start (Some r))
    end.

(** The loop over [specific_rules] at [start]: [replaced], and the iterator. *)
Fixpoint try_rules (rules : list Rule) (node : Node) (start : nat) (m : Match) (h : heap)
    : outcome (Z * nat * Match * heap) :=
  match rules with
  | [] => Returns (NOCHANGE, start, m, h)
  | rule :: rules =>
      let m := reset m in
      '(b, (it, m)) ← pattern_match fuel h (rule_pattern rule) node start m;
      if b && negb (range_contains_error h (range_nodes h (mkRange node start it))) then
        '(replaced, it, h) ← pass_replace m (rule_effect rule) start it node h;
        if negb (replaced =? NOCHANGE) then Returns (replaced, it, m, h)
        else try_rules rules node start m h
      else try_rules rules node start m h
  end.

(** The loop of [match_children].  Rewriting need not end, so neither need the loop. *)
Fixpoint match_children_loop (turns : nat) (rules : DefaultMap (list Rule)) (node : Node) (it : nat)
    (changes : Z) (m : Match) (h : heap) : outcome (Z * Match * heap) :=
  match children_of h node !! it with
  | None => Returns (changes, m, h)
  | Some curr =>
      match turns with
      | O => Undefined
      | S turns =>
          '(replaced, it, m, h) ← try_rules (get rules (type_of h curr)) node it m h;
          if replaced =? NOCHANGE then match_children_loop turns rules node (S it) changes m h
          else
            let changes := u64 (changes + 1) in
            if replaced =? REAPPLY then match_children_loop turns rules node it changes m h
            else if flag p dir_once then
              match_children_loop turns rules node (it + Z.to_nat replaced) changes m h
            else match_children_loop turns rules node 0 changes m h
      end
  end.

(** [match_children] *)
Definition match_children (node : Node) (m : Match) (h : heap) : outcome (Z * Match * heap) :=
  let rules := get (rule_map p) (type_of h node) in
  if empty_ rules then Returns (0, m, h)
  else match_children_loop fuel rules node 0 0 m h.

(** * The sweep *)

(** What the sweep carries: the store, the captures, and [changes]. *)
Record sweep := mkSweep { sweep_heap : heap; sweep_match : Match; sweep_changes : Z }.

Definition apply_f (fs : gmap Token F) (node : Node) (s : sweep) : outcome sweep :=
  match fs !! type_of (sweep_heap s) node with
  | None => Returns s
  | Some f =>
      '(c, h) ← f top node (sweep_heap s);
      Returns (mkSweep h (sweep_match s) (u64 (sweep_changes s + c)))
  end.
Definition apply_match (node : Node) (s : sweep) : outcome sweep :=
  '(c, m, h) ← match_children node (sweep_match s) (sweep_heap s);
  Returns (mkSweep h m (u64 (sweep_changes s + c))).

(** The lambdas [add] and [remove] of [apply_special] *)
Definition sweep_add (topdown pre : bool) (node : Node) (s : sweep) : outcome (bool * sweep) :=
  if has (type_of (sweep_heap s) node) flag_internal then Returns (false, s)
  else
    s ← (if pre then apply_f (pre_ p) node s else Returns s);
    s ← (if topdown then apply_match node s else Returns s);
    Returns (true, s).
Definition sweep_remove (topdown post : bool) (node : Node) (s : sweep) : outcome sweep :=
  s ← (if topdown then Returns s else apply_match node s);
  if post then apply_f (post_ p) node s else Returns s.

(** [apply_special] *)
Definition apply_special (topdown pre post : bool) (root : Node) (m : Match) (h : heap)
    : outcome sweep :=
  traverse sweep_heap (sweep_add topdown pre) (sweep_remove topdown post) fuel root (mkSweep h m 0).

(** [apply] *)
Definition apply (root : Node) (m : Match) (h : heap) : outcome sweep :=
  apply_special (flag p dir_topdown) (negb (bool_decide (pre_ p = ∅)))
    (negb (bool_decide (post_ p = ∅))) root m h.

(** * Lifting *)

(** The loop over the nodes that come up from the child at [it] *)
Fixpoint lift_nodes (lifted : list Node) (node : Node) (it : nat) (uplift : list Node)
    (advance : bool) (h : heap) : outcome (nat * list Node * bool * heap) :=
  match lifted with
  | [] => Returns (it, uplift, advance, h)
  | lnode :: lifted =>
      front ← or_undefined (head (children_of h lnode));
      if token_eqb (type_of h front) (type_of h node) then
        let nodes := tail (children_of h lnode) in
        lift_nodes lifted node (it + length nodes) uplift false (insert_range h node it nodes)
      else lift_nodes lifted node it (uplift ++ [lnode]) advance h
  end.

Section LiftLoop.
Context (lift : Node -> heap -> outcome (list Node * heap)).

Fixpoint lift_loop (turns : nat) (node : Node) (it : nat) (uplift : list Node) (h : heap)
    : outcome (list Node * heap) :=
  match children_of h node !! it with
  | None => Returns (uplift, h)
  | Some child =>
      match turns with
      | O => Undefined
      | S turns =>
          '(lifted, h) ← lift child h;
          let '(lifted, h, advance) :=
            if token_eqb (type_of h child) Lift
            then (child :: lifted, erase h node it (S it), false)
            else (lifted, h, true) in
          '(it, uplift, advance, h) ← lift_nodes lifted node it uplift advance h;
          lift_loop turns node (if (advance : bool) then S it else it) uplift h
      end
  end.
End LiftLoop.

(** [PassDef::lift]; [turns] bounds both the depth and the loops. *)
Fixpoint lift (turns : nat) (node : Node) (h : heap) : outcome (list Node * heap) :=
  match turns with
  | O => Undefined
  | S turns =>
      let '(b, h) := get_and_reset_contains_lift h node in
      if negb b then Returns ([], h) else lift_loop (lift turns) turns node 0 [] h
  end.

(** * [run] *)

(** The [do] loop: [changes_sum] and [count] *)
Fixpoint run_loop (turns : nat) (node : Node) (changes_sum count : Z) (m : Match) (h : heap)
    : outcome (Z * Z * heap) :=
  match turns with
  | O => Undefined
  | S turns =>
      s ← apply node m h;
      '(lifted, h) ← lift fuel node (sweep_heap s);
      match lifted with
      | _ :: _ => Throws
      | [] =>
          let changes_sum := u64 (changes_sum + sweep_changes s) in
          let count := u64 (count + 1) in
          if flag p dir_once then Returns (changes_sum, count, h)
          else if 0 <? sweep_changes s then
            run_loop turns node changes_sum count (sweep_match s) h
          else Returns (changes_sum, count, h)
      end
  end.

(** [PassDef::run]: [{node, count, changes_sum}] and the store.  [m] is what earlier passes left
    in the thread's [Match]. *)
Definition run (node : Node) (m : Match) (h : heap) : outcome (Node * Z * Z * heap) :=
  go ← match cond_run p with None => Returns true | Some c => c top node h end;
  if negb go then Returns (node, 0, 0, h)
  else
    '(changes_sum, h) ← match pre_once p with None => Returns (0, h) | Some f => f top node h end;
    '(changes_sum, count, h) ← run_loop fuel node changes_sum 0 m h;
    '(c, h) ← match post_once p with None => Returns (0, h) | Some f => f top node h end;
    Returns (node, count, u64 (changes_sum + c), h).

End Run.

(** [run] sets [top_node] to the node it runs on. *)
Definition pass_run (fuel : nat) (p : PassDef) (node : Node) (m : Match) (h : heap)
    : outcome (Node * Z * Z * heap) := run fuel p node node m h.
