(* ===== verification/PassFacts.v ===== *)
(** Facts about passes: what the index of the rules holds, and that a trial of the rules
    depends on the captures only through what they say. *)
From S2P Require Import Prelude.
From S2P Require Import Token.
From S2P Require Import Source.
From S2P Require Import Ast.
From S2P Require Import AstFacts.
From S2P Require Import DefaultMap.
From S2P Require Import FastPattern.
From S2P Require Import Rewrite.
From S2P Require Import RewriteFacts.
From S2P Require Import RewriteTheorems.
From S2P Require Import Pass.
Open Scope Z_scope.

(** * The index *)

(** How often [compile_rules] enters a rule at a slot: tokens of one set that share a slot
    enter it more than once. *)
Definition same_slot (s : gset Token) (t : Token) : nat :=
  length (filter (fun x => token_index x = token_index t) (elements s)).
Definition starts_count (f : FastPattern) (t : Token) : nat :=
  if set_empty (starts f) || pass_through f then 1 else same_slot (starts f) t.
Definition parents_count (f : FastPattern) (t : Token) : nat :=
  if set_empty (parents f) then 1 else same_slot (parents f) t.
Definition entries (r : Rule) (parent start : Token) : nat :=
  parents_count (fast_pattern (rule_pattern r)) parent * starts_count (fast_pattern (rule_pattern r)) start.

Lemma same_slot_elem s t : t ∈ s -> (1 <= same_slot s t)%nat.
Proof.
  intros H. unfold same_slot.
  assert (Hin : t ∈ filter (fun x => token_index x = token_index t) (elements s)).
  { apply list_elem_of_filter. split; [done|by apply elem_of_elements]. }
  destruct (filter _ _); [by apply elem_of_nil in Hin|cbn; lia].
Qed.

(** An operation that appends at every token of a slot, done for each token of a list *)
Lemma get_modify_each {T} (f : T -> T) (l : list Token) : forall (dm : DefaultMap T) t,
  get (foldl (fun dm x => modify f x dm) dm l) t
  = Nat.iter (length (filter (fun x => token_index x = token_index t) l)) f (get dm t).
Proof.
  induction l as [|x l IH]; intros dm t; [done|]. cbn [foldl]. rewrite IH, get_modify, filter_cons.
  case_decide as E; [|done]. cbn [length].
  replace (get dm x) with (get dm t) by (unfold get; by rewrite E).
  generalize (length (filter (fun x => token_index x = token_index t) l)) as n. intros n.
  by rewrite <-Nat.iter_succ_r.
Qed.

Lemma iter_append {A} (x : A) n l : Nat.iter n (fun v => v ++ [x]) l = l ++ replicate n x.
Proof.
  induction n as [|n IH]; [by rewrite app_nil_r|].
  change (Nat.iter (S n) (fun v => v ++ [x]) l) with (Nat.iter n (fun v => v ++ [x]) l ++ [x]).
  by rewrite IH, <-app_assoc, <-replicate_S_end.
Qed.

Lemma get_add_rule r dm t :
  get (add_rule r dm) t = get dm t ++ replicate (starts_count (fast_pattern (rule_pattern r)) t) r.
Proof.
  unfold add_rule, starts_count. destruct (_ || _); [by rewrite get_modify_all|].
  by rewrite get_modify_each, iter_append.
Qed.

Lemma iter_add_rule r n dm t :
  get (Nat.iter n (add_rule r) dm) t
  = get dm t ++ replicate (n * starts_count (fast_pattern (rule_pattern r)) t) r.
Proof.
  induction n as [|n IH]; [by rewrite app_nil_r|].
  change (Nat.iter (S n) (add_rule r) dm) with (add_rule r (Nat.iter n (add_rule r) dm)).
  rewrite get_add_rule, IH, <-app_assoc, <-replicate_add. do 2 f_equal. lia.
Qed.

Lemma get_enter_rule rm r parent start :
  get (get (enter_rule rm r) parent) start
  = get (get rm parent) start ++ replicate (entries r parent start) r.
Proof.
  unfold enter_rule, entries, parents_count. destruct (set_empty _).
  - by rewrite get_modify_all, get_add_rule, Nat.mul_1_l.
  - by rewrite get_modify_each, iter_add_rule.
Qed.

(** The rules of a slot, in the order of the pass. *)
Lemma compile_rules_get rules rm parent start :
  get (get (compile_rules rules rm) parent) start
  = rules ≫= (fun r => replicate (entries r parent start) r).
Proof.
  unfold compile_rules.
  assert (H : forall rm, get (get (foldl enter_rule rm rules) parent) start
    = get (get rm parent) start ++ (rules ≫= (fun r => replicate (entries r parent start) r))).
  { induction rules as [|r rules IH]; intros rm'; [by rewrite app_nil_r|].
    cbn [foldl]. rewrite IH, get_enter_rule, <-app_assoc. done. }
  by rewrite H.
Qed.

(** [empty()] is true of tables without rules only. *)
Definition empty_ok (dm : DefaultMap (list Rule)) : Prop := empty_ dm = true -> forall t, get dm t = [].

Lemma modify_each_empty {T} (f : T -> T) (l : list Token) (dm : DefaultMap T) :
  l <> [] -> empty_ (foldl (fun dm x => modify f x dm) dm l) = false.
Proof.
  destruct l as [|x l]; [done|]. intros _. cbn. set (d := modify f x dm).
  assert (H : empty_ d = false) by done. revert H. generalize d. clear.
  induction l as [|x l IH]; intros d H; [done|]. by apply IH.
Qed.

Lemma add_rule_nonempty r dm : empty_ (add_rule r dm) = false.
Proof.
  unfold add_rule. destruct (set_empty _) eqn:E; [done|]. cbn.
  destruct (pass_through _); [done|]. apply modify_each_empty.
  intros H. apply set_empty_false in E. apply E.
  by apply leibniz_equiv, elements_empty_inv.
Qed.

Lemma compile_empty rules rm parent : empty_ok (get (compile_rules rules rm) parent).
Proof.
  unfold compile_rules.
  assert (H : forall rm, (forall p, empty_ok (get rm p)) -> forall p, empty_ok (get (foldl enter_rule rm rules) p)).
  { induction rules as [|r rules IH]; intros rm' Hrm p; [apply Hrm|]. cbn. apply IH. clear p. intros p.
    unfold enter_rule. destruct (set_empty _).
    - rewrite get_modify_all. intros H. by rewrite add_rule_nonempty in H.
    - rewrite get_modify_each. destruct (length _) as [|n]; [apply Hrm|].
      change (Nat.iter (S n) (add_rule r) (get rm' p)) with (add_rule r (Nat.iter n (add_rule r) (get rm' p))).
      intros H. by rewrite add_rule_nonempty in H. }
  apply H. intros p _ t. rewrite get_clear. unfold clear_rules. by rewrite get_clear.
Qed.

(** Where a rule can match it is entered. *)
Lemma entries_admitted r fuel h node it m it' m' n :
  built (rule_pattern r) -> children_of h node !! it = Some n ->
  pattern_match fuel h (rule_pattern r) node it m = Returns (true, (it', m')) ->
  (1 <= entries r (type_of h node) (type_of h n))%nat.
Proof.
  intros Hb Hn E. destruct (fast_pattern_sound _ _ _ _ _ _ _ _ Hb E) as [Hp Hs].
  unfold entries, parents_count, starts_count.
  assert (H1 : (1 <= if set_empty (parents (fast_pattern (rule_pattern r))) then 1
    else same_slot (parents (fast_pattern (rule_pattern r))) (type_of h node))%nat).
  { destruct (set_empty _) eqn:F; [lia|]. apply set_empty_false in F.
    destruct Hp; [done|by apply same_slot_elem]. }
  assert (H2 : (1 <= if set_empty (starts (fast_pattern (rule_pattern r)))
      || pass_through (fast_pattern (rule_pattern r)) then 1
    else same_slot (starts (fast_pattern (rule_pattern r))) (type_of h n))%nat).
  { destruct (set_empty (starts _)) eqn:F; [cbn; lia|]. apply set_empty_false in F. cbn.
    destruct (pass_through _) eqn:G; [lia|].
    destruct Hs as [?|[?|(x & Hx & ?)]]; [done..|]. rewrite Hn in Hx. injection Hx as <-.
    by apply same_slot_elem. }
  nia.
Qed.

(** * What a trial depends on *)

(** An effect reads the captures of a match with [operator[]] and [operator()] only. *)
Definition reads_captures (r : Rule) : Prop := forall top m m' h,
  match_view m = match_view m' -> rule_effect r top m h = rule_effect r top m' h.

(** The store only got new nodes, without children: the [NoChange] that an effect returns is
    one. *)
Record grows (h h' : heap) : Prop := {
  grows_sub : h ⊆ h';
  grows_shape : same_shape h h'
}.

Lemma growth_refl h : grows h h.
Proof. by split. Qed.
Lemma growth_trans h h' h'' : grows h h' -> grows h' h'' -> grows h h''.
Proof. intros [? H1] [? H2]. split; [by etrans|by etransitivity]. Qed.

Lemma grows_type h h' n : grows h h' -> is_Some (h !! n) -> type_of h' n = type_of h n.
Proof.
  intros [H _] [d Hd]. unfold type_of, node_at. by rewrite Hd, (lookup_weaken _ _ _ _ Hd H).
Qed.
Lemma grows_children h h' n : grows h h' -> children_of h' n = children_of h n.
Proof. intros [_ H]. apply H. Qed.
Lemma grows_some h h' n : grows h h' -> is_Some (h !! n) -> is_Some (h' !! n).
Proof. intros [H _] [d Hd]. exists d. by apply (lookup_weaken _ _ _ _ Hd H). Qed.

(** An effect that refuses with [NoChange] leaves the nodes as they were. *)
Definition refuses_cleanly (r : Rule) : Prop := forall top m h x h',
  rule_effect r top m h = Returns (Some x, h') -> type_of h' x = NoChange -> grows h h'.

Record rule_ok (r : Rule) : Prop := {
  rule_built : built (rule_pattern r);
  rule_reads : reads_captures r;
  rule_refuses : refuses_cleanly r
}.

(** From two clean slates a pattern does the same. *)
Lemma pattern_match_slates fuel h p node it m m' : built p -> match_ok m -> match_ok m' ->
  match pattern_match fuel h p node it (reset m), pattern_match fuel h p node it (reset m') with
  | Returns (true, (i, m1)), Returns (true, (i', m1')) =>
      i' = i /\ match_view m1' = match_view m1 /\ match_ok m1 /\ match_ok m1'
  | Returns (false, (_, m1)), Returns (false, (_, m1')) => match_ok m1 /\ match_ok m1'
  | Throws, Throws | Undefined, Undefined => True
  | _, _ => False
  end.
Proof.
  intros Hb Hm Hm'. destruct (reset_ok m Hm) as [Ho Hv], (reset_ok m' Hm') as [Ho' Hv'].
  pose proof (match_agrees fuel h (pattern p) (built_honest p Hb) node it _ Ho) as H.
  pose proof (match_agrees fuel h (pattern p) (built_honest p Hb) node it _ Ho') as H'.
  rewrite Hv in H. rewrite Hv' in H'. unfold pattern_match.
  destruct (pat_match fuel h (pattern p) node it (reset m)) as [[b [i m1]]| |]; cbn in H;
    [destruct H as [H Hl]|..]; rewrite H in H';
    destruct (pat_match fuel h (pattern p) node it (reset m')) as [[b' [i' m1']]| |]; cbn in H';
    try done; try (by destruct H').
  destruct H' as [E Hl']. destruct b, b'; try done.
  - injection E as -> ->. split_and!; [done|done|apply Hl|apply Hl'].
  - split; [apply Hl|apply Hl'].
Qed.

(** What a trial of rules returns, but the frames it used. *)
Definition trial (o : outcome (Z * nat * Match * heap)) : outcome (Z * nat * heap) :=
  (fun '(r, it, _, h) => (r, it, h)) <$> o.

Section Trials.
Context (fuel : nat) (top : Node).

(** What [replace] does when it refuses *)
Lemma pass_replace_refused m r start it node h it' h' : refuses_cleanly r ->
  pass_replace fuel top m (rule_effect r) start it node h = Returns (NOCHANGE, it', h') ->
  grows h h' /\ exists x, rule_effect r top m h = Returns (Some x, h') /\ type_of h' x = NoChange.
Proof.
  intros Hr. unfold pass_replace. intros ([x h1] & E1 & E2)%outcome_bind_returns.
  destruct x as [x|].
  - destruct (token_eqb _ NoChange) eqn:Et.
    + injection E2 as _ <-. apply token_eqb_eq in Et. split; [by eapply Hr|eauto].
    + apply outcome_bind_returns in E2 as (first & _ & E2).
      destruct (token_in _ _).
      * apply outcome_bind_returns in E2 as (h2 & _ & [= E _ _]).
        destruct (token_eqb _ Reapply); [done|]. unfold NOCHANGE, Wellformed.size_of in E. lia.
      * apply outcome_bind_returns in E2 as (h2 & _ & E2). done.
  - apply outcome_bind_returns in E2 as (first & _ & E2). done.
Qed.

(** Trying the rules of a slot is trying all of them: what was left out does not match. *)
Lemma index_trial rules node start n : Forall rule_ok rules -> forall h m m',
  is_Some (h !! node) -> is_Some (h !! n) -> children_of h node !! start = Some n ->
  (forall r, r ∈ rules -> (entries r (type_of h node) (type_of h n) <= 1)%nat) ->
  (forall r h' m, r ∈ rules -> grows h h' -> match_ok m ->
     exists b it m1, pattern_match fuel h' (rule_pattern r) node start m = Returns (b, (it, m1))) ->
  match_ok m -> match_ok m' ->
  trial (try_rules fuel top (rules ≫= (fun r => replicate (entries r (type_of h node) (type_of h n)) r))
           node start m h)
  = trial (try_rules fuel top rules node start m' h).
Proof.
  induction 1 as [|r rules [Hb Hre Hrf] _ IH]; intros h m m' Hnode Hn Hs He Ht Hm Hm'; [done|].
  cbn [mbind list_bind].
  assert (He' : forall r, r ∈ rules -> (entries r (type_of h node) (type_of h n) <= 1)%nat).
  { intros. apply He. by right. }
  assert (Ht' : forall r h' m, r ∈ rules -> grows h h' -> match_ok m ->
    exists b it m1, pattern_match fuel h' (rule_pattern r) node start m = Returns (b, (it, m1))).
  { intros r0 h' m0 ?. apply Ht. by right. }
  destruct (entries r (type_of h node) (type_of h n)) as [|[|e]] eqn:Ee.
  - cbn [replicate app try_rules].
    destruct (reset_ok m' Hm') as [Ho _].
    destruct (Ht r h (reset m') (list_elem_of_here _ _) (growth_refl h) Ho) as (b & it & m1 & E).
    pose proof (pattern_match_slates fuel h (rule_pattern r) node start m' m' Hb Hm' Hm') as Hsl.
    rewrite E in Hsl |- *. cbn [mbind outcome_bind]. destruct b.
    + pose proof (entries_admitted _ _ _ _ _ _ _ _ _ Hb Hs E). lia.
    + cbn [andb]. apply IH; try done. apply Hsl.
  - cbn [replicate app try_rules].
    pose proof (pattern_match_slates fuel h (rule_pattern r) node start m m' Hb Hm Hm') as Hsl.
    destruct (pattern_match fuel h (rule_pattern r) node start (reset m)) as [[b [it m1]]| |],
      (pattern_match fuel h (rule_pattern r) node start (reset m')) as [[b' [it' m1']]| |];
      cbn [mbind outcome_bind]; try done; try (by destruct b).
    destruct b, b'; cbn [andb]; try done.
    2: { destruct Hsl. by apply IH. }
    destruct Hsl as (-> & Hv & Hm1 & Hm1').
    destruct (negb _).
    2: by apply IH.
    assert (Er : pass_replace fuel top m1 (rule_effect r) start it node h
      = pass_replace fuel top m1' (rule_effect r) start it node h).
    { unfold pass_replace. by rewrite (Hre top m1 m1' h). }
    rewrite <-Er.
    destruct (pass_replace fuel top m1 (rule_effect r) start it node h) as [[[rep it1] h1]| |] eqn:Ep;
      cbn [mbind outcome_bind]; [|done..].
    destruct (Z.eqb_spec rep NOCHANGE) as [->|Hrep]; cbn [negb]; [|done].
    destruct (pass_replace_refused _ _ _ _ _ _ _ _ Hrf Ep) as [Hg _].
    rewrite <-(grows_type _ _ _ Hg Hnode), <-(grows_type _ _ _ Hg Hn).
    apply IH; try done.
    + by apply (grows_some _ _ _ Hg).
    + by apply (grows_some _ _ _ Hg).
    + by rewrite (grows_children _ _ _ Hg).
    + intros r0 Hr0. rewrite (grows_type _ _ _ Hg Hnode), (grows_type _ _ _ Hg Hn). auto.
    + intros r0 h' m0 Hr0 Hg'. apply Ht'; [done|]. by eapply growth_trans.
  - specialize (He r (list_elem_of_here _ _)). lia.
Qed.

End Trials.
