(* ===== verification/PassTheorems.v ===== *)
(** Passes: the index of the rules is exact, and a run ends in a normal form. *)
From S2P Require Import Prelude.
From S2P Require Import Token.
From S2P Require Import Source.
From S2P Require Import Ast.
From S2P Require Import AstFacts.
From S2P Require Import DefaultMap.
From S2P Require Import FastPattern.
From S2P Require Import Rewrite.
From S2P Require Import RewriteFacts.
From S2P Require Import RewriteTheorems.
From S2P Require Import Wellformed.
From S2P Require Import Pass.
From S2P Require Import PassFacts.
Open Scope Z_scope.

Section Normal.
Context (fuel : nat) (p : PassDef) (top : Node).
Context (rm : RuleMap) (Hmap : rule_map p = compile_rules (rules_ p) rm).
Context (Hrules : Forall rule_ok (rules_ p)).

(** The rule was tried at child [i] of [node], and it does not match there, or what it matches
    holds an error, or its effect refuses. *)
Definition refused (r : Rule) (h : heap) (node : Node) (i : nat) : Prop :=
  forall m it m', match_ok m ->
  pattern_match fuel h (rule_pattern r) node i (reset m) = Returns (true, (it, m')) ->
  range_contains_error h (range_nodes h (mkRange node i it)) = true
  \/ exists x h', rule_effect r top m' h = Returns (Some x, h') /\ type_of h' x = NoChange.

(** Every rule of the pass was refused at every child of [node], in stores between [h] and
    [h'] that differ by new childless nodes. *)
Definition stuck (h h' : heap) (node : Node) : Prop :=
  forall i r, (i < length (children_of h node))%nat -> r ∈ rules_ p ->
  exists hx, grows h hx /\ grows hx h' /\ refused r hx node i.

Lemma stuck_weaken h0 h h' h1 node : grows h0 h -> grows h' h1 -> stuck h h' node -> stuck h0 h1 node.
Proof.
  intros H0 H1 H i r Hi Hr. destruct (H i r) as (hx & ? & ? & ?); [|done|].
  - by rewrite (grows_children _ _ _ H0).
  - exists hx. split_and!; [by eapply growth_trans|by eapply growth_trans|done].
Qed.

(** ** A trial *)

Lemma rule_of r : r ∈ rules_ p -> rule_ok r.
Proof. rewrite Forall_forall in Hrules. apply Hrules. Qed.

Lemma slot_rules parent start r :
  r ∈ get (get (rule_map p) parent) start <-> r ∈ rules_ p /\ (1 <= entries r parent start)%nat.
Proof.
  rewrite Hmap, compile_rules_get, list_elem_of_bind. split.
  - intros (x & Hr & Hx). apply elem_of_replicate in Hr as [-> ?]. split; [done|lia].
  - intros [Hr He]. exists r. split; [|done]. apply elem_of_replicate. split; [done|lia].
Qed.

Lemma try_rules_refused node start rules : (forall r, r ∈ rules -> rule_ok r) ->
  forall m h rep it m1 h1,
  match_ok m -> try_rules fuel top rules node start m h = Returns (rep, it, m1, h1) ->
  match_ok m1 /\ (rep = NOCHANGE -> it = start /\ grows h h1 /\ forall r, r ∈ rules ->
    exists hx, grows h hx /\ grows hx h1 /\ refused r hx node start).
Proof.
  induction rules as [|r rules IH]; intros Hok m h rep it m1 h1 Hm.
  { intros [= <- <- <- <-]. split; [done|]. intros _. split_and!; [done|by apply growth_refl|].
    by intros r ?%elem_of_nil. }
  assert (Hok' : forall r, r ∈ rules -> rule_ok r) by (intros; apply Hok; by right).
  destruct (Hok r) as [Hb Hre Hrf]; [by left|].
  cbn [try_rules]. intros ([b [i m2]] & E1 & E2)%outcome_bind_returns.
  assert (Hm2 : match_ok m2).
  { pose proof (pattern_match_slates fuel h (rule_pattern r) node start m m Hb Hm Hm) as H.
    rewrite E1 in H. destruct b; [apply H|apply H]. }
  assert (Hhere : forall h', grows h h' -> refused r h node start ->
    (it = start /\ grows h' h1 /\ forall r, r ∈ rules ->
      exists hx, grows h' hx /\ grows hx h1 /\ refused r hx node start) ->
    it = start /\ grows h h1 /\ forall r0, r0 ∈ r :: rules ->
      exists hx, grows h hx /\ grows hx h1 /\ refused r0 hx node start).
  { intros h' Hg Hr (-> & Hg' & Hall). split; [done|].
    assert (grows h h1) by by eapply growth_trans. split; [done|].
    intros r0 [->|H0]%elem_of_cons; [exists h; split_and!; [apply growth_refl|done|done]|].
    destruct (Hall r0 H0) as (hx & ? & ? & ?). exists hx. split_and!; [eapply growth_trans; [exact Hg|done]|done|done]. }
  destruct b; cbn [andb] in E2.
  2: { destruct (IH Hok' _ _ _ _ _ _ Hm2 E2) as [Ho Hn]. split; [done|]. intros Hrep.
       apply (Hhere h); [apply growth_refl| |by apply Hn].
       intros m3 it3 m4 Hm3 E3. exfalso.
       pose proof (pattern_match_slates fuel h (rule_pattern r) node start m m3 Hb Hm Hm3) as H.
       by rewrite E1, E3 in H. }
  destruct (range_contains_error _ _) eqn:Er; cbn [negb] in E2.
  { destruct (IH Hok' _ _ _ _ _ _ Hm2 E2) as [Ho Hn]. split; [done|]. intros Hrep.
    apply (Hhere h); [apply growth_refl| |by apply Hn].
    intros m3 it3 m4 Hm3 E3. left.
    pose proof (pattern_match_slates fuel h (rule_pattern r) node start m m3 Hb Hm Hm3) as H.
    rewrite E1, E3 in H. by destruct H as (-> & _). }
  apply outcome_bind_returns in E2 as ([[rep1 i1] h2] & E2 & E3).
  destruct (Z.eqb_spec rep1 NOCHANGE) as [->|Hne]; cbn [negb] in E3.
  2: { injection E3 as <- <- <- <-. by split. }
  destruct (pass_replace_refused fuel top _ _ _ _ _ _ _ _ Hrf E2) as [Hg (x & Ex & Et)].
  destruct (IH Hok' _ _ _ _ _ _ Hm2 E3) as [Ho Hn]. split; [done|]. intros Hrep.
  apply (Hhere h2); [done| |by apply Hn].
  intros m3 it3 m4 Hm3 E4. right.
  pose proof (pattern_match_slates fuel h (rule_pattern r) node start m m3 Hb Hm Hm3) as H.
  rewrite E1, E4 in H. destruct H as (_ & Hv & _). exists x, h2. split; [|done].
  by rewrite (Hre top m4 m2 h).
Qed.

(** At a child of [node], with the rules that the index holds there. *)
Lemma slot_refused node start n m h it m1 h1 :
  match_ok m -> children_of h node !! start = Some n ->
  try_rules fuel top (get (get (rule_map p) (type_of h node)) (type_of h n)) node start m h
    = Returns (NOCHANGE, it, m1, h1) ->
  it = start /\ grows h h1 /\ forall r, r ∈ rules_ p ->
    exists hx, grows h hx /\ grows hx h1 /\ refused r hx node start.
Proof.
  intros Hm Hn E.
  destruct (try_rules_refused node start _ (fun r Hr => rule_of r (proj1 (proj1 (slot_rules _ _ r) Hr)))
    _ _ _ _ _ _ Hm E) as [_ H]. destruct (H eq_refl) as (-> & Hg & Hall).
  split; [done|]. split; [done|]. intros r Hr.
  destruct (decide (1 <= entries r (type_of h node) (type_of h n))%nat) as [He|He].
  - apply Hall, slot_rules. by split.
  - exists h. split_and!; [by apply growth_refl|done|]. intros m3 it3 m4 _ E3. exfalso. apply He.
    by eapply entries_admitted; [apply (rule_built _ (rule_of r Hr))| |].
Qed.

(** ** The children of a node *)

Lemma children_some h n i c : children_of h n !! i = Some c -> is_Some (h !! n).
Proof. unfold children_of, node_at. destruct (h !! n); [by eexists|done]. Qed.

Lemma slot_ok parent start r : r ∈ get (get (rule_map p) parent) start -> rule_ok r.
Proof. intros [? _]%slot_rules. by apply rule_of. Qed.

Lemma match_children_loop_bounds node rules turns : (forall t r, r ∈ get rules t -> rule_ok r) ->
  forall it c m h c' m1 h1,
  match_ok m -> 0 <= c -> c + Z.of_nat turns < 2 ^ 64 ->
  match_children_loop fuel p top turns rules node it c m h = Returns (c', m1, h1) ->
  match_ok m1 /\ c <= c' <= c + Z.of_nat turns.
Proof.
  intros Hok. induction turns as [|turns IH]; intros it c m h c' m1 h1 Hm Hc Hb;
    cbn [match_children_loop];
    (destruct (children_of h node !! it) as [n|]; [|intros [= <- <- <-]; split; [done|lia]]); [done|].
  intros ([[[rep it1] m2] h2] & E1 & E2)%outcome_bind_returns.
  destruct (try_rules_refused node it _ (Hok _) _ _ _ _ _ _ Hm E1) as [Hm2 _].
  destruct (rep =? NOCHANGE).
  - destruct (IH _ _ _ _ _ _ _ Hm2 Hc ltac:(lia) E2). split; [done|lia].
  - rewrite u64_id in E2 by lia. assert (0 <= c + 1) as Hc1 by lia.
    assert (c + 1 + Z.of_nat turns < 2 ^ 64) as Hb1 by lia.
    destruct (rep =? REAPPLY); [|destruct (flag p dir_once)];
      destruct (IH _ _ _ _ _ _ _ Hm2 Hc1 Hb1 E2); (split; [done|lia]).
Qed.

Lemma match_children_loop_stuck node turns : forall t it c m h c' m1 h1,
  match_ok m -> 0 <= c -> c + Z.of_nat turns < 2 ^ 64 ->
  (is_Some (h !! node) -> type_of h node = t) ->
  match_children_loop fuel p top turns (get (rule_map p) t) node it c m h = Returns (c', m1, h1) ->
  c' = c -> grows h h1 /\ (forall i r, (it <= i)%nat -> (i < length (children_of h node))%nat ->
        r ∈ rules_ p -> exists hx, grows h hx /\ grows hx h1 /\ refused r hx node i).
Proof.
  induction turns as [|turns IH]; intros t it c m h c' m1 h1 Hm Hc Hb Ht; cbn [match_children_loop];
    (destruct (children_of h node !! it) as [n|] eqn:En;
     [|intros [= <- <- <-] _; split; [apply growth_refl|];
       intros i r ? ?; apply lookup_ge_None in En; lia]).
  { done. }
  intros ([[[rep it1] m2] h2] & E1 & E2)%outcome_bind_returns Hcc.
  assert (Hnode : is_Some (h !! node)) by by eapply children_some.
  pose proof (Ht Hnode) as Htn. rewrite <-Htn in E1.
  destruct (try_rules_refused node it _ (fun r Hr => rule_of r (proj1 (proj1 (slot_rules _ _ r) Hr)))
    _ _ _ _ _ _ Hm E1) as [Hm2 _].
  destruct (Z.eqb_spec rep NOCHANGE) as [->|Hne].
  - destruct (slot_refused _ _ _ _ _ _ _ _ Hm En E1) as (-> & Hg & Hall).
    destruct (IH t (S it) c m2 h2 c' m1 h1 Hm2 Hc) as [Hg' Hrest]; [lia| |done..|].
    { intros _. by rewrite (grows_type _ _ _ Hg Hnode). }
    split; [by eapply growth_trans|]. intros i r Hi Hl Hr'.
    destruct (decide (i = it)) as [->|].
    + destruct (Hall r Hr') as (hx & ? & ? & ?). exists hx.
      split_and!; [done|by eapply growth_trans|done].
    + destruct (Hrest i r) as (hx & ? & ? & ?); [lia|by rewrite (grows_children _ _ _ Hg)|done|].
      exists hx. split_and!; [by eapply growth_trans|done|done].
  - rewrite u64_id in E2 by lia.
    assert (c + 1 <= c').
    { assert (0 <= c + 1) as Hc1 by lia. assert (c + 1 + Z.of_nat turns < 2 ^ 64) as Hb1 by lia.
      destruct (rep =? REAPPLY); [|destruct (flag p dir_once)];
        destruct (match_children_loop_bounds _ _ _ (slot_ok t) _ _ _ _ _ _ _ Hm2 Hc1 Hb1 E2)
          as [_ [? _]]; done. }
    lia.
Qed.

Lemma match_children_spec node m h c m1 h1 : match_ok m -> Z.of_nat fuel < 2 ^ 64 ->
  match_children fuel p top node m h = Returns (c, m1, h1) ->
  match_ok m1 /\ 0 <= c <= Z.of_nat fuel /\ (c = 0 -> grows h h1 /\ stuck h h1 node).
Proof.
  intros Hm Hf. unfold match_children. destruct (empty_ _) eqn:Ee.
  - intros [= <- <- <-]. split; [done|]. split; [lia|]. intros _. split; [apply growth_refl|].
    intros i r Hi Hr. exists h. split_and!; [apply growth_refl..|]. intros m2 it m3 _ E. exfalso.
    destruct (lookup_lt_is_Some_2 _ _ Hi) as [n Hn].
    pose proof (entries_admitted _ _ _ _ _ _ _ _ _ (rule_built _ (rule_of r Hr)) Hn E) as He.
    assert (Hin : r ∈ get (get (rule_map p) (type_of h node)) (type_of h n)) by by apply slot_rules.
    rewrite Hmap in Ee, Hin. by rewrite (compile_empty _ _ _ Ee), elem_of_nil in Hin.
  - intros E.
    destruct (match_children_loop_bounds _ _ _ (slot_ok _) _ _ _ _ _ _ _ Hm (Z.le_refl 0) Hf E)
      as [Ho Hb].
    split; [done|]. split; [lia|]. intros ->.
    destruct (match_children_loop_stuck _ _ _ _ _ _ _ _ _ _ Hm (Z.le_refl 0) Hf (fun _ => eq_refl) E eq_refl)
      as [Hg Hs]. split; [done|]. intros i r. apply Hs. lia.
Qed.

(** ** The sweep *)

Context (Hfuel : Z.of_nat (S fuel * fuel) < 2 ^ 64).

Definition can_count (s : sweep) : bool :=
  bool_decide (match_ok (sweep_match s)) && (0 <=? sweep_changes s)
  && (sweep_changes s + Z.of_nat fuel <? 2 ^ 64).

Lemma can_count_spec s : can_count s = true <-> match_ok (sweep_match s) /\ 0 <= sweep_changes s
  /\ sweep_changes s + Z.of_nat fuel < 2 ^ 64.
Proof. unfold can_count. rewrite !andb_true_iff, bool_decide_eq_true, Z.leb_le, Z.ltb_lt. tauto. Qed.

(** What a visit of a node does to the sweep. *)
Record visited (n : Node) (tried : bool) (s s' : sweep) : Prop := {
  visited_ok : match_ok (sweep_match s');
  visited_changes : sweep_changes s <= sweep_changes s' <= sweep_changes s + Z.of_nat fuel;
  visited_grows : sweep_changes s' = sweep_changes s -> grows (sweep_heap s) (sweep_heap s');
  visited_stuck : sweep_changes s' = sweep_changes s -> tried = true ->
    stuck (sweep_heap s) (sweep_heap s') n
}.

Lemma visited_refl n s : match_ok (sweep_match s) -> visited n false s s.
Proof. split; [done|lia|intros _; apply growth_refl|done]. Qed.

Lemma apply_match_visited n s s' : can_count s = true -> apply_match fuel p top n s = Returns s' ->
  visited n true s s'.
Proof.
  intros (Hm & Hc & Hb)%can_count_spec. unfold apply_match.
  intros ([[c m] h] & E & [= <-])%outcome_bind_returns.
  destruct (match_children_spec _ _ _ _ _ _ Hm ltac:(lia) E) as (Ho & Hr & Hs).
  split; cbn; rewrite ?u64_id by lia; [done|lia|intros; apply Hs; lia|intros; apply Hs; lia].
Qed.

Definition internal (h : heap) (n : Node) : bool := has (type_of h n) flag_internal.

Lemma sweep_add_visited td n s b s' : can_count s = true ->
  sweep_add fuel p top td false n s = Returns (b, s') ->
  b = negb (internal (sweep_heap s) n) /\ visited n (b && td) s s'.
Proof.
  intros Hs. pose proof Hs as (Hm & _)%can_count_spec. unfold sweep_add, internal.
  destruct (has _ _); cbn [negb].
  - intros [= <- <-]. split; [done|by apply visited_refl].
  - cbn [mbind outcome_bind]. intros (s1 & E & [= <- <-])%outcome_bind_returns. split; [done|].
    destruct td; [by apply apply_match_visited|]. injection E as <-. by apply visited_refl.
Qed.

Lemma sweep_remove_visited td n s s' : can_count s = true ->
  sweep_remove fuel p top td false n s = Returns s' -> visited n (negb td) s s'.
Proof.
  intros Hs. pose proof Hs as (Hm & _)%can_count_spec. unfold sweep_remove.
  intros (s1 & E & [= <-])%outcome_bind_returns.
  destruct td; [|by apply apply_match_visited]. injection E as <-. by apply visited_refl.
Qed.

(** The same steps, given up when anything changes: they keep the shape of the store. *)
Definition quiet_add (td : bool) (n : Node) (s : sweep) : outcome (bool * sweep) :=
  if can_count s then
    '(b, s') ← sweep_add fuel p top td false n s;
    if sweep_changes s' =? sweep_changes s then Returns (b, s') else Undefined
  else Undefined.
Definition quiet_remove (td : bool) (n : Node) (s : sweep) : outcome sweep :=
  if can_count s then
    s' ← sweep_remove fuel p top td false n s;
    if sweep_changes s' =? sweep_changes s then Returns s' else Undefined
  else Undefined.

Lemma quiet_add_inv td n s b s' : quiet_add td n s = Returns (b, s') ->
  sweep_changes s' = sweep_changes s /\ b = negb (internal (sweep_heap s) n)
  /\ visited n (b && td) s s'.
Proof.
  unfold quiet_add. destruct (can_count s) eqn:Hs; [|done].
  intros ([b1 s1] & E & H)%outcome_bind_returns.
  destruct (Z.eqb_spec (sweep_changes s1) (sweep_changes s)); [|done]. injection H as <- <-.
  split; [done|]. by apply sweep_add_visited.
Qed.

Lemma quiet_remove_inv td n s s' : quiet_remove td n s = Returns s' ->
  sweep_changes s' = sweep_changes s /\ visited n (negb td) s s'.
Proof.
  unfold quiet_remove. destruct (can_count s) eqn:Hs; [|done].
  intros (s1 & E & H)%outcome_bind_returns.
  destruct (Z.eqb_spec (sweep_changes s1) (sweep_changes s)); [|done]. injection H as <-.
  split; [done|]. by apply sweep_remove_visited.
Qed.

Lemma quiet_loop td k : forall path s s',
  match_ok (sweep_match s) -> 0 <= sweep_changes s ->
  sweep_changes s + Z.of_nat (k * fuel) < 2 ^ 64 ->
  traverse_loop sweep_heap (sweep_add fuel p top td false) (sweep_remove fuel p top td false) k path s
    = Returns s' ->
  match_ok (sweep_match s') /\ sweep_changes s <= sweep_changes s'
  /\ (sweep_changes s' = sweep_changes s ->
      traverse_loop sweep_heap (quiet_add td) (quiet_remove td) k path s = Returns s').
Proof.
  induction k as [|k IH]; intros [|[node it] rest] s s' Hm Hc Hb; cbn [traverse_loop];
    try (intros [= <-]; split_and!; [done|lia|done]); [done|].
  assert (Hs : can_count s = true) by (apply can_count_spec; split_and!; [done..|nia]).
  destruct (children_of _ _ !! it) as [curr|].
  - intros ([b s1] & E1 & E2)%outcome_bind_returns.
    destruct (sweep_add_visited _ _ _ _ _ Hs E1) as [_ [Ho Hr _ _]].
    assert (H2 : exists path, traverse_loop sweep_heap (sweep_add fuel p top td false)
        (sweep_remove fuel p top td false) k path s1 = Returns s'
      /\ path = if b then (curr, 0%nat) :: (node, S it) :: rest else (node, S it) :: rest).
    { destruct b; eauto. }
    destruct H2 as (path & H2 & Hpath).
    destruct (IH path s1 s' Ho ltac:(lia) ltac:(nia) H2) as (Ho' & Hle & Heq).
    split; [done|]. split; [lia|]. intros E. unfold quiet_add. rewrite Hs, E1. cbn [mbind outcome_bind].
    replace (sweep_changes s1 =? sweep_changes s) with true by (symmetry; apply Z.eqb_eq; lia).
    cbn [mbind outcome_bind]. subst path. destruct b; apply Heq; lia.
  - intros (s1 & E1 & E2)%outcome_bind_returns.
    destruct (sweep_remove_visited _ _ _ _ Hs E1) as [Ho Hr _ _].
    destruct (IH rest s1 s' Ho ltac:(lia) ltac:(nia) E2) as (Ho' & Hle & Heq).
    split; [done|]. split; [lia|]. intros E. unfold quiet_remove. rewrite Hs, E1. cbn [mbind outcome_bind].
    replace (sweep_changes s1 =? sweep_changes s) with true by (symmetry; apply Z.eqb_eq; lia).
    cbn [mbind outcome_bind]. apply Heq; lia.
Qed.

(** The nodes that a sweep visits: it does not go below an internal token. *)
Fixpoint visible (h : heap) (t : tree) : list Node :=
  match t with Tree n ts => if internal h n then [] else n :: concat (visible h <$> ts) end.

Lemma internal_grows h h' n : grows h h' -> internal h n = false -> internal h' n = false.
Proof.
  unfold internal. intros Hg H. assert (Hn : is_Some (h !! n)).
  { unfold type_of, node_at in H. destruct (h !! n); [by eexists|done]. }
  by rewrite (grows_type _ _ _ Hg Hn).
Qed.

Lemma visible_grows h h' t x : grows h h' -> x ∈ visible h t -> x ∈ visible h' t.
Proof.
  intros Hg. induction t as [n ts IH] using tree_ind'. cbn [visible].
  destruct (internal h n) eqn:E; [by intros ?%elem_of_nil|].
  rewrite (internal_grows _ _ _ Hg E). rewrite !elem_of_cons, !elem_of_concat_map.
  intros [?|(t & Ht & Hx)]; [by left|right]. rewrite Forall_forall in IH. exists t. auto.
Qed.

Lemma quiet_visit td t : forall s s',
  visit (quiet_add td) (quiet_remove td) t s = Returns s' ->
  grows (sweep_heap s) (sweep_heap s') /\ sweep_changes s' = sweep_changes s
  /\ forall n, n ∈ visible (sweep_heap s) t -> stuck (sweep_heap s) (sweep_heap s') n.
Proof.
  induction t as [n ts IH] using tree_ind'. intros s s'. rewrite visit_eq.
  intros ([b s1] & E1 & E2)%outcome_bind_returns.
  destruct (quiet_add_inv _ _ _ _ _ E1) as (C1 & -> & [_ _ G1 S1]). cbn [visible].
  destruct (internal _ _) eqn:Ei; cbn [negb] in *.
  { injection E2 as <-. split_and!; [by apply G1|done|by intros x ?%elem_of_nil]. }
  apply outcome_bind_returns in E2 as (s2 & E2 & E3).
  destruct (quiet_remove_inv _ _ _ _ E3) as (C3 & [_ _ G3 S3]).
  specialize (G1 C1). specialize (G3 C3).
  assert (H2 : grows (sweep_heap s1) (sweep_heap s2) /\ sweep_changes s2 = sweep_changes s1
    /\ forall x, x ∈ concat (visible (sweep_heap s1) <$> ts) -> stuck (sweep_heap s1) (sweep_heap s2) x).
  { clear - IH E2. revert s1 E2. induction IH as [|t ts Ht _ IHts]; intros s1; cbn [visits].
    - intros [= <-]. split_and!; [apply growth_refl|done|by intros x ?%elem_of_nil].
    - intros (s3 & E3 & E4)%outcome_bind_returns.
      destruct (Ht _ _ E3) as (Ga & Ca & Sa), (IHts _ E4) as (Gb & Cb & Sb).
      split; [by eapply growth_trans|]. split; [congruence|].
      intros x [Hx|Hx]%elem_of_app.
      + eapply stuck_weaken; [apply growth_refl|exact Gb|by apply Sa].
      + eapply stuck_weaken; [exact Ga|apply growth_refl|apply Sb].
        apply elem_of_concat_map in Hx as (u & Hu & Hx). apply elem_of_concat_map.
        exists u. split; [done|]. by eapply visible_grows. }
  destruct H2 as (G2 & C2 & S2).
  assert (G13 : grows (sweep_heap s1) (sweep_heap s')) by by eapply growth_trans.
  split; [by eapply growth_trans|]. split; [congruence|]. intros x [->|Hx]%elem_of_cons.
  - destruct td.
    + eapply stuck_weaken; [apply growth_refl|exact G13|]. by apply S1.
    + eapply stuck_weaken; [eapply growth_trans; [exact G1|exact G2]|apply growth_refl|]. by apply S3.
  - eapply stuck_weaken; [exact G1|exact G3|]. apply S2.
    apply elem_of_concat_map in Hx as (u & Hu & Hx). apply elem_of_concat_map.
    exists u. split; [done|]. by eapply visible_grows.
Qed.

(** A sweep that changed nothing. *)
Lemma quiet_sweep td root0 m h s' : match_ok m ->
  apply_special fuel p top td false false root0 m h = Returns s' ->
  match_ok (sweep_match s') /\ 0 <= sweep_changes s'
  /\ (sweep_changes s' = 0 -> forall t, reads h t -> root t = root0 -> (cost t <= fuel)%nat ->
      grows h (sweep_heap s') /\ forall n, n ∈ visible h t -> stuck h (sweep_heap s') n).
Proof.
  intros Hm. unfold apply_special, traverse. intros ([b s1] & E1 & E2)%outcome_bind_returns.
  assert (Hs : can_count (mkSweep h m 0) = true).
  { apply can_count_spec. split_and!; [done|done|cbn; nia]. }
  destruct (sweep_add_visited _ _ _ _ _ Hs E1) as [Hb [Ho Hr _ _]]. cbn in Hr.
  assert (Hq : match_ok (sweep_match s') /\ sweep_changes s1 <= sweep_changes s'
    /\ (sweep_changes s' = sweep_changes s1 ->
        (if b then traverse_loop sweep_heap (quiet_add td) (quiet_remove td) fuel [(root0, 0%nat)] s1
         else Returns s1) = Returns s')).
  { destruct b; [by apply quiet_loop; [|lia|nia|]|]. injection E2 as <-. by split_and!; [|lia|]. }
  destruct Hq as (Ho' & Hle & Hq). split; [done|]. split; [lia|]. intros Hz t Ht <- Hf.
  assert (E : traverse sweep_heap (quiet_add td) (quiet_remove td) fuel (root t) (mkSweep h m 0)
    = Returns s').
  { unfold traverse. assert (quiet_add td (root t) (mkSweep h m 0) = Returns (b, s1)) as ->.
    { unfold quiet_add. rewrite Hs, E1. cbn [mbind outcome_bind].
      replace (sweep_changes s1 =? _) with true by (symmetry; apply Z.eqb_eq; cbn; lia). done. }
    cbn [mbind outcome_bind]. apply Hq. lia. }
  rewrite traverse_visit in E; [|..|exact Ht|exact Hf].
  - destruct (quiet_visit _ _ _ _ E) as (G & _ & S). by split.
  - intros n s0 b0 s2 (C & _ & [_ _ G _])%quiet_add_inv. by apply G.
  - intros n s0 s2 (C & [_ _ G _])%quiet_remove_inv. by apply G.
Qed.
End Normal.

(** C2: a run ends in a normal form.  When [PassDef::run] of a pass that sweeps until nothing
    changes returns, its last sweep left a tree in which no rule fires: at every child of
    every node that a sweep visits, every rule of the pass was refused, because it does not
    match there, or what it matches holds an error, or its effect returns [NoChange].  The
    stores the rules were tried in and the final one differ from [h0] by childless nodes only,
    and the last lift found nothing to lift.  The pass has no [pre], [post] or [cond] hooks, and its
    rules have patterns that were built and effects that depend on the captures of the match
    and, when they answer [NoChange], have only made new nodes ([rule_ok]). *)
Theorem run_normal_form (fuel : nat) (p : PassDef) (rm : RuleMap) (node : Node) (m : Match)
    (h : heap) (result : Node * Z * Z * heap)
    (Hrules : Forall rule_ok (rules_ p))
    (Hmap : rule_map p = compile_rules (rules_ p) rm)
    (Hcond : cond_run p = None) (Hpost : post_once p = None)
    (Hpre_ : pre_ p = ∅) (Hpost_ : post_ p = ∅)
    (Honce : flag p dir_once = false)
    (Hfuel : Z.of_nat (S fuel * fuel) < 2 ^ 64)
    (Hm : match_ok m)
    (Hrun : pass_run fuel p node m h = Returns result) :
  exists h0 h1,
    (forall t, reads h0 t -> root t = node -> (cost t <= fuel)%nat ->
       grows h0 h1 /\ forall n, n ∈ visible h0 t -> stuck fuel p node h0 h1 n)
    /\ lift fuel node h1 = Returns ([], result.2).
Proof.
  unfold pass_run, run in Hrun. rewrite Hcond, Hpost in Hrun. cbn [mbind outcome_bind negb] in Hrun.
  apply outcome_bind_returns in Hrun as ([c0 h2] & _ & Hrun).
  apply outcome_bind_returns in Hrun as ([[c1 count] h3] & Hloop & [= <-]). cbn [snd].
  revert Hm Hloop. generalize fuel at 2. intros turns. revert c0 m h2 c1 count. generalize 0 as n0.
  induction turns as [|turns IH]; intros n0 c0 m h2 c1 count Hm; cbn [run_loop]; [done|].
  intros (s & E1 & E2)%outcome_bind_returns.
  apply outcome_bind_returns in E2 as ([lifted h4] & E2 & E3). destruct lifted; [|done].
  rewrite Honce in E3. unfold apply in E1. rewrite Hpre_, Hpost_ in E1.
  rewrite (bool_decide_eq_true_2 (∅ = ∅)) in E1 by done. cbn [negb] in E1.
  destruct (quiet_sweep fuel p node rm Hmap Hrules Hfuel _ _ _ _ _ Hm E1) as (Ho & Hc & Hq).
  destruct (Z.ltb_spec 0 (sweep_changes s)).
  - by apply (IH _ _ _ _ _ _ Ho E3).
  - injection E3 as _ _ <-. exists h2, (sweep_heap s). split; [|done]. apply Hq. lia.
Qed.

(** C8: the index of the rules changes nothing but the work.  At a child of a node, trying the
    rules that [rule_map] holds for the types of the two has the outcome of trying every rule
    of the pass in order, whatever an earlier trial left in the frames: the same replacement,
    the same iterator and the same store.  The rules that were left out do not match there.
    The place is one where matching returns, and for whose two types each rule is entered at most
    once: two tokens of one set that share a slot would enter a rule twice, and its effect would
    run twice. *)
Theorem rule_index_equivalent (fuel : nat) (p : PassDef) (rm : RuleMap) (top node n : Node)
    (start : nat) (h : heap) (m m' : Match)
    (Hrules : Forall rule_ok (rules_ p))
    (Hmap : rule_map p = compile_rules (rules_ p) rm)
    (Hnode : is_Some (h !! node)) (Hn : is_Some (h !! n))
    (Hstart : children_of h node !! start = Some n)
    (Hslots : forall r, r ∈ rules_ p -> (entries r (type_of h node) (type_of h n) <= 1)%nat)
    (Hreturns : forall r h' m, r ∈ rules_ p -> grows h h' -> match_ok m ->
       exists b it m1, pattern_match fuel h' (rule_pattern r) node start m = Returns (b, (it, m1)))
    (Hm : match_ok m) (Hm' : match_ok m') :
  trial (try_rules fuel top (get (get (rule_map p) (type_of h node)) (type_of h n)) node start m h)
  = trial (try_rules fuel top (rules_ p) node start m' h).
Proof. rewrite Hmap, compile_rules_get. by apply index_trial. Qed.

(** * Instances *)

Module PassSample.
Export RewriteTheorems.Sample.

(** [In(Group) * T(B) >> A] and [T(A) >> NoChange] *)
Definition rename : Rule := mkRule
  (mkPattern (Pat (Inside [Group]) (Some (Pat (TokenMatch [B]) None)))
     (match_seq (fast_pattern (In [Group])) (fast_pattern (T [B]))))
  (fun _ _ h => let '(n, h) := create_token h A in Returns (Some n, h)).
Definition keep : Rule := mkRule (T [A])
  (fun _ _ h => let '(n, h) := create_token h NoChange in Returns (Some n, h)).
Definition pass : PassDef := new_pass "rename" empty_wf dir_topdown [rename; keep].

Lemma fresh_grows h t : grows h (create_token h t).2.
Proof.
  unfold create_token, create. cbn [snd]. set (x := fresh _).
  assert (Hx : h !! x = None).
  { apply not_elem_of_dom. pose proof (is_fresh (dom h)) as H. done. }
  split; [by apply insert_subseteq|]. intros n. unfold children_of, node_at.
  destruct (decide (x = n)) as [<-|Hne]; [by rewrite lookup_insert_eq, Hx|by rewrite lookup_insert_ne].
Qed.

Lemma rename_ok : rule_ok rename.
Proof.
  split.
  - apply (built_seq (In [Group]) (T [B])); [apply built_in|apply built_token|reflexivity].
  - by intros ? ? ? ? _.
  - intros top m h x h'. cbn. intros [= <- <-] Ht. revert Ht.
    unfold type_of, node_at. by rewrite lookup_insert_eq.
Qed.

Lemma keep_ok : rule_ok keep.
Proof.
  split.
  - exact (built_token [A]).
  - by intros ? ? ? ? _.
  - intros top m h x h'. unfold keep. cbn [rule_effect].
    pose proof (fresh_grows h NoChange) as H. destruct (create_token h NoChange). cbn in H.
    by intros [= <- <-] _.
Qed.

Lemma rules_ok : Forall rule_ok (rules_ pass).
Proof. apply Forall_cons. split; [apply rename_ok|]. apply Forall_singleton, keep_ok. Qed.

Definition result : Node * Z * Z * heap :=
  match pass_run 20 pass group new_match store with
  | Returns r => r
  | _ => (group, 0, 0, ∅)
  end.

Lemma types_returns types c fuel h parent it m :
  match c with Some c => exists l, c = Pat (TokenMatch l) None | None => True end ->
  (exists b it' m', pat_match fuel h (Pat (TokenMatch types) c) parent it m = Returns (b, (it', m')))
  /\ exists b it' m', pat_match fuel h (Pat (Inside types) c) parent it m = Returns (b, (it', m')).
Proof.
  intros Hc. destruct c as [c|].
  - destruct Hc as [l ->]. split; cbn; unfold_match.
    + destruct (_ !! it); [|eauto]. destruct (token_in _ _); [|eauto].
      destruct (_ !! S it); [|eauto]. destruct (token_in _ _); eauto.
    + destruct (token_in _ _); [|eauto]. destruct (_ !! it); [|eauto].
      destruct (token_in _ _); eauto.
  - split; cbn; unfold_match.
    + destruct (_ !! it); [|eauto]. destruct (token_in _ _); eauto.
    + destruct (token_in _ _); eauto.
Qed.
End PassSample.

Lemma run_normal_form_witness :
  type_of PassSample.result.2 <$> children_of PassSample.result.2 Sample.group
    = [Sample.A; Sample.A]
  /\ exists h0 h1,
    (forall t, reads h0 t -> root t = Sample.group -> (cost t <= 20)%nat ->
       grows h0 h1 /\ forall n, n ∈ visible h0 t ->
         stuck 20 PassSample.pass Sample.group h0 h1 n)
    /\ lift 20 Sample.group h1 = Returns ([], PassSample.result.2).
Proof.
  split; [vm_compute; reflexivity|].
  apply (run_normal_form 20 PassSample.pass new_rule_map Sample.group new_match Sample.store).
  - apply PassSample.rules_ok.
  - reflexivity.
  - reflexivity.
  - reflexivity.
  - reflexivity.
  - reflexivity.
  - reflexivity.
  - vm_compute. reflexivity.
  - unfold match_ok. cbn. lia.
  - vm_compute. reflexivity.
Defined.

Lemma rule_index_equivalent_witness :
  trial (try_rules 20 Sample.group
    (get (get (rule_map PassSample.pass) Group) Sample.B) Sample.group 1 new_match Sample.store)
  = trial (try_rules 20 Sample.group (rules_ PassSample.pass) Sample.group 1 new_match
             Sample.store).
Proof.
  apply (rule_index_equivalent 20 PassSample.pass new_rule_map Sample.group Sample.group
    3%positive 1 Sample.store new_match new_match).
  - apply PassSample.rules_ok.
  - reflexivity.
  - vm_compute. eexists. reflexivity.
  - vm_compute. eexists. reflexivity.
  - vm_compute. reflexivity.
  - intros r [->|[->|[]%elem_of_nil]%elem_of_cons]%elem_of_cons; vm_compute; lia.
  - intros r h' m [->|[->|[]%elem_of_nil]%elem_of_cons]%elem_of_cons _ _.
    + apply PassSample.types_returns. by eexists.
    + apply PassSample.types_returns. exact I.
  - unfold match_ok. cbn. lia.
  - unfold match_ok. cbn. lia.
Defined.
