(* ===== verification/Cursor.v ===== *)
(** A cursor at the last branch of a tree: the path from a node up to its root, each node the
    last child of the next, and what the methods that build a tree do to it. *)
From S2P Require Import Prelude.
From S2P Require Import Token.
From S2P Require Import Source.
From S2P Require Import Ast.
From S2P Require Import AstInvariant.
From stdpp Require Export gmap.
Open Scope Z_scope.

(** * What [push_back] and [create] leave alone *)

Lemma type_of_alter (h : heap) n f m : (forall d, type_ (f d) = type_ d) ->
  type_of (alter f n h) m = type_of h m.
Proof.
  intros Hf. unfold type_of, node_at. destruct (decide (n = m)) as [->|]; [|by rewrite lookup_alter_ne].
  rewrite lookup_alter_eq. by destruct (h !! m); cbn.
Qed.

Lemma location_of_alter (h : heap) n f m : (forall d, location_ (f d) = location_ d) ->
  location_of (alter f n h) m = location_of h m.
Proof.
  intros Hf. unfold location_of, node_at. destruct (decide (n = m)) as [->|]; [|by rewrite lookup_alter_ne].
  rewrite lookup_alter_eq. by destruct (h !! m); cbn.
Qed.

Lemma add_flag_loop_keeps fuel test set h c m :
  type_of (add_flag_loop fuel test set h c) m = type_of h m
  /\ location_of (add_flag_loop fuel test set h c) m = location_of h m.
Proof.
  revert h c. induction fuel as [|fuel IH]; intros h [c|]; cbn; [done..| |done].
  destruct (test _); [done|]. destruct (IH (alter (with_flags set) c h) (parent_of h c)) as [-> ->].
  by rewrite type_of_alter, location_of_alter.
Qed.

Lemma push_back_keeps h this n m :
  type_of (push_back h this n) m = type_of h m
  /\ location_of (push_back h this n) m = location_of h m.
Proof.
  destruct n as [n|]; [|done]. cbn [push_back]. unfold adopt, add_flags.
  repeat case_match; rewrite ?(proj1 (add_flag_loop_keeps _ _ _ _ _ _)),
    ?(proj2 (add_flag_loop_keeps _ _ _ _ _ _)), !type_of_alter, !location_of_alter by done; done.
Qed.

(** A tree node is attached at the back. *)
Lemma push_back_spec h this n : ast_ok h -> attachable h this [n] ->
  let h' := push_back h this (Some n) in
  ast_ok h'
  /\ (forall m, parent_of h' m = if decide (m = n) then Some this else parent_of h m)
  /\ (forall m, children_of h' m = if decide (this = m) then children_of h m ++ [n] else children_of h m)
  /\ (forall m, is_Some (h' !! m) <-> is_Some (h !! m)).
Proof.
  intros Hok Ha h'. assert (Hok' : ast_ok h').
  { apply (attach_ok h _ this [n] Hok Ha).
    apply (place_then_adopt h this [n] (fun c => c ++ [n]) Hok Ha). apply Permutation_app_comm. }
  split; [done|]. destruct Ha as (Ht & _ & Hn). destruct (Hn n (list_elem_of_here n [])) as (Hs & Hp & _).
  unfold h', push_back. set (h1 := alter _ this h).
  pose proof (fun m => with_children_accessors h this (fun c => c ++ [n]) m Ht) as A. fold h1 in A.
  assert (S1 : forall m, is_Some (h1 !! m) <-> is_Some (h !! m)) by (intros m; unfold h1; by rewrite is_Some_alter).
  destruct (adopt_spec h1 this n) as (P & C & S & _); [by apply S1|by apply S1| | |].
  - intros c p. destruct (A c) as (-> & _). rewrite S1. by apply ok_closed.
  - intros c p. destruct (A c) as (-> & Hty & Hfc & _). destruct (A p) as (_ & _ & Hfp & _).
    unfold erroneous, flagged. rewrite Hty, Hfc, Hfp. apply (ok_errors _ Hok).
  - split_and!; intros m.
    + rewrite P. by destruct (A m) as (-> & _).
    + rewrite C. destruct (A m) as (_ & _ & _ & ->). by case_decide; subst.
    + by rewrite S, S1.
Qed.

Lemma create_spec h type loc : ast_ok h ->
  let n := (create h type loc).1 in let h' := (create h type loc).2 in
  ast_ok h' /\ h !! n = None /\ type_of h' n = type /\ parent_of h' n = None /\ children_of h' n = []
  /\ is_Some (h' !! n) /\ location_of h' n = loc
  /\ (forall m, m <> n -> type_of h' m = type_of h m /\ parent_of h' m = parent_of h m
        /\ children_of h' m = children_of h m /\ (is_Some (h' !! m) <-> is_Some (h !! m))
        /\ location_of h' m = location_of h m).
Proof.
  intros Hok n h'. split; [by apply create_ok|].
  assert (Hn : h !! n = None) by (apply (not_elem_of_dom (D:=gset Node)), is_fresh).
  unfold type_of, parent_of, children_of, location_of, h', create, n in *. cbn [fst snd] in *.
  split; [done|]. setoid_rewrite node_at_insert. rewrite decide_True by done. cbn.
  split_and!; [done..|rewrite lookup_insert_eq; by eexists|done|].
  intros m Hm. rewrite decide_False by congruence. by rewrite lookup_insert_ne by congruence.
Qed.

(** Nothing leads up to a node without children. *)
Lemma childless_not_above h n m : ast_ok h -> children_of h n = [] -> n <> m -> ~ above h n m.
Proof.
  intros Hok Hc Hne. induction 1 as [|m p Hp Ha IH]; [done|].
  destruct (decide (n = p)) as [->|]; [|by apply IH].
  apply (ok_links _ Hok) in Hp. rewrite Hc in Hp. by apply elem_of_nil in Hp.
Qed.

Lemma attachable_fresh h this n : ast_ok h -> is_Some (h !! this) -> is_Some (h !! n) ->
  parent_of h n = None -> children_of h n = [] -> n <> this -> attachable h this [n].
Proof.
  intros Hok Ht Hn Hp Hc Hne. split; [done|]. split; [apply NoDup_singleton|].
  intros x ->%list_elem_of_singleton. split_and!; [done..|]. by apply childless_not_above.
Qed.

(** * The path to the root *)

Inductive spine (h : heap) : Node -> list Node -> Prop :=
  | spine_root n : is_Some (h !! n) -> parent_of h n = None -> spine h n [n]
  | spine_up n p l : parent_of h n = Some p -> last (children_of h p) = Some n ->
      spine h p l -> spine h n (n :: l).

Lemma spine_head h n l : spine h n l -> exists l', l = n :: l'.
Proof. destruct 1; by eexists. Qed.

Lemma spine_allocated h n l x : spine h n l -> x ∈ l -> is_Some (h !! x).
Proof.
  induction 1 as [n Hn|n p l Hp _ _ IH]; intros Hx.
  - by apply list_elem_of_singleton in Hx as ->.
  - apply elem_of_cons in Hx as [->|Hx]; [by eapply parent_allocated|by apply IH].
Qed.

Lemma spine_det h n l l' : spine h n l -> spine h n l' -> l = l'.
Proof.
  intros H. revert l'. induction H as [n Hn Hp|n p l Hp _ _ IH]; intros l' H'; inversion H'; subst; [done|congruence|congruence|].
  f_equal. apply IH. congruence.
Qed.

Lemma spine_suffix h n l x : spine h n l -> x ∈ l ->
  exists l', spine h x l' /\ (length l' <= length l)%nat.
Proof.
  induction 1 as [n Hn Hp|n p l Hp Hl Hs IH]; intros Hx.
  - apply list_elem_of_singleton in Hx as ->. exists [n]. split; [by constructor|done].
  - apply elem_of_cons in Hx as [->|Hx].
    + exists (n :: l). split; [by eapply spine_up|done].
    + destruct (IH Hx) as (l' & H1 & H2). exists l'. split; [done|cbn; lia].
Qed.

Lemma spine_nodup h n l : spine h n l -> NoDup l.
Proof.
  induction 1 as [n Hn Hp|n p l Hp Hl Hs IH]; [apply NoDup_singleton|].
  constructor; [|done]. intros Hin. destruct (spine_suffix h p l n Hs Hin) as (l' & H1 & H2).
  rewrite (spine_det h n l' (n :: l) H1) in H2; [cbn in H2; lia|by eapply spine_up].
Qed.

Lemma spine_above h n l a : spine h n l -> above h a n -> a ∈ l.
Proof.
  intros Hs. revert a. induction Hs as [n Hn Hp|n p l Hp Hl Hs IH]; intros a Ha;
    inversion Ha as [|? q Hq Haq]; subst; [left|congruence|left|].
  right. apply IH. congruence.
Qed.

(** A spine survives changes that keep its nodes, their parents, and the children of those
    above its first node. *)
Lemma spine_keeps h h' n l : spine h n l ->
  (forall x, x ∈ l -> is_Some (h' !! x) /\ parent_of h' x = parent_of h x) ->
  (forall x, x ∈ l -> x <> n -> children_of h' x = children_of h x) ->
  spine h' n l.
Proof.
  induction 1 as [n Hn Hp|n p l Hp Hl Hs IH]; intros Hk Hc.
  - destruct (Hk n (list_elem_of_here n [])) as [H1 H2]. constructor; [done|congruence].
  - pose proof (spine_up h n p l Hp Hl Hs) as Hs'. apply spine_nodup in Hs' as Hnd.
    apply NoDup_cons in Hnd as [Hn _].
    destruct (Hk n (list_elem_of_here n l)) as [H1 H2].
    destruct (spine_head h p l Hs) as [l0 ->]. apply spine_up with p; [congruence| |].
    + rewrite Hc; [done|right; left|]. intros ->. apply Hn. left.
    + apply IH; [intros x Hx; apply Hk; by right|]. intros x Hx Hne.
      apply Hc; [by right|]. intros ->. done.
Qed.

(** A new child at the end of the spine. *)
Record appended (h h' : heap) (n c : Node) (type : Token) : Prop := {
  ap_ok : ast_ok h';
  ap_type m : is_Some (h !! m) -> type_of h' m = type_of h m;
  ap_some m : is_Some (h !! m) -> is_Some (h' !! m);
  ap_parent m : is_Some (h !! m) -> parent_of h' m = parent_of h m;
  ap_children m : is_Some (h !! m) -> children_of h' m = if decide (n = m) then children_of h m ++ [c] else children_of h m;
  ap_new : h !! c = None;
  ap_child_type : type_of h' c = type;
  ap_child_parent : parent_of h' c = Some n
}.

Lemma appended_spine h h' n c type l : spine h n l -> appended h h' n c type ->
  spine h' n l /\ spine h' c (c :: l) /\ (forall x, x ∈ l -> type_of h' x = type_of h x).
Proof.
  intros Hs Hap. assert (Hs' : spine h' n l).
  { apply (spine_keeps h); [done| |].
    - intros x Hx. apply (spine_allocated _ _ _ _ Hs) in Hx. split; [by apply Hap|by apply Hap].
    - intros x Hx Hne. apply (spine_allocated _ _ _ _ Hs) in Hx. rewrite (ap_children _ _ _ _ _ Hap) by done.
      by rewrite decide_False by congruence. }
  split_and!; [done| |].
  - apply spine_up with n; [by apply (ap_child_parent _ _ _ _ _ Hap)| |done].
    assert (is_Some (h !! n)).
    { destruct (spine_head _ _ _ Hs) as [l0 ->]. eapply spine_allocated; [exact Hs|left]. }
    rewrite (ap_children _ _ _ _ _ Hap) by done. rewrite decide_True by done. by rewrite last_snoc.
  - intros x Hx. apply Hap. by eapply spine_allocated.
Qed.

(** [push_back] of a node that was just built, whose tree is new. *)
Lemma append_new h h1 n c : ast_ok h1 -> is_Some (h !! n) -> h !! c = None ->
  (forall m, is_Some (h !! m) -> is_Some (h1 !! m) /\ type_of h1 m = type_of h m
     /\ parent_of h1 m = parent_of h m /\ children_of h1 m = children_of h m) ->
  is_Some (h1 !! c) -> parent_of h1 c = None -> ~ above h1 c n ->
  appended h (push_back h1 n (Some c)) n c (type_of h1 c).
Proof.
  intros Hok Hn Hc Hk Hs Hp Hab.
  assert (Hne : forall m, is_Some (h !! m) -> m <> c) by (intros m [? ?] ->; congruence).
  destruct (push_back_spec h1 n c Hok) as (Hok' & P & C & S).
  { split; [by apply Hk|]. split; [apply NoDup_singleton|]. by intros x ->%list_elem_of_singleton. }
  split; [done|..].
  - intros m Hm. rewrite (proj1 (push_back_keeps _ _ _ _)). by apply Hk.
  - intros m Hm. by apply S, Hk.
  - intros m Hm. rewrite P, decide_False by by apply Hne. by apply Hk.
  - intros m Hm. rewrite C. destruct (Hk m Hm) as (_ & _ & _ & ->). done.
  - done.
  - apply push_back_keeps.
  - by rewrite P, decide_True.
Qed.

(** [n->push_back(NodeDef::create(type, loc))] *)
Lemma append_create h n type loc : ast_ok h -> is_Some (h !! n) ->
  let c := (create h type loc).1 in
  appended h (push_back (create h type loc).2 n (Some c)) n c type.
Proof.
  intros Hok Hn c. destruct (create_spec h type loc Hok) as (H1 & H2 & H3 & H4 & H5 & H6 & _ & H7).
  fold c in H2, H3, H4, H5, H6, H7. set (h1 := (create h type loc).2) in *.
  rewrite <-H3. apply append_new; [done..| |done|done|].
  - intros m Hm. assert (m <> c) by (intros ->; destruct Hm; congruence).
    destruct (H7 m) as (-> & -> & -> & -> & _); done.
  - apply childless_not_above; [done..|]. intros ->. destruct Hn. congruence.
Qed.

(** A change of a location changes nothing else. *)
Lemma extend_keeps h n loc m :
  type_of (Ast.extend h n loc) m = type_of h m /\ parent_of (Ast.extend h n loc) m = parent_of h m
  /\ children_of (Ast.extend h n loc) m = children_of h m
  /\ flags_ (node_at (Ast.extend h n loc) m) = flags_ (node_at h m)
  /\ (is_Some (Ast.extend h n loc !! m) <-> is_Some (h !! m)).
Proof.
  unfold Ast.extend, type_of, parent_of, children_of, node_at. rewrite is_Some_alter.
  destruct (decide (n = m)) as [->|]; [|by rewrite lookup_alter_ne].
  rewrite lookup_alter_eq. by destruct (h !! m).
Qed.

Lemma extend_ok h n loc : ast_ok h -> ast_ok (Ast.extend h n loc).
Proof.
  intros Hok. pose proof (extend_keeps h n loc) as K. split.
  - intros c m. destruct (K m) as (_ & _ & -> & _). destruct (K c) as (_ & -> & _). apply Hok.
  - intros m. destruct (K m) as (_ & _ & -> & _). apply Hok.
  - intros x. induction (ok_rooted _ Hok x) as [x Hx|x p Hx _ IH].
    + apply rooted_root. by destruct (K x) as (_ & -> & _).
    + apply rooted_step with p; [|done]. by destruct (K x) as (_ & -> & _).
  - intros c p. destruct (K c) as (Ht & -> & _ & Hf & _). destruct (K p) as (_ & _ & _ & Hfp & _).
    unfold erroneous, flagged. rewrite Ht, Hf, Hfp. apply Hok.
Qed.

Lemma extend_spine h n loc x l : spine h x l ->
  spine (Ast.extend h n loc) x l /\ (type_of (Ast.extend h n loc) <$> l) = (type_of h <$> l).
Proof.
  intros Hs. pose proof (extend_keeps h n loc) as K. split.
  - apply (spine_keeps h); [done| |].
    + intros y Hy. destruct (K y) as (_ & -> & _ & _ & ->). split; [by eapply spine_allocated|done].
    + intros y _ _. by destruct (K y) as (_ & _ & -> & _).
  - apply list_fmap_ext. intros i y _. by destruct (K y) as (-> & _).
Qed.
