(* ===== verification/Parse.v ===== *)
(** The tokenizer ([include/trieste/parse.h]): [Make], which builds the tree under a cursor,
    and [Parse], which runs the rules of the current mode over a source and the sources of a
    directory. *)
From S2P Require Import Prelude.
From S2P Require Import Token.
From S2P Require Import Source.
From S2P Require Import TRegex.
From S2P Require Import TokenLayer.
From S2P Require Import Ast.
From S2P Require Import Wellformed.
From stdpp Require Export gmap.
Open Scope Z_scope.

Section Parse.
Context {U : Type}.

(** What outlives the parse of one source: the store of nodes, what the closures of the rules
    share ([U]), and the address the next synthetic source gets. *)
Record World := mkWorld { store : heap; shared : U; supply : positive }.

(** [class Make]; [node] is the cursor, which [pop] can make null. *)
Record Make := mkMake {
  world : World;
  make_top : Node;
  node : option Node;
  mode_ : list Z;
  re_match : TRegexMatch;
  re_iterator : TRegexIterator;
  error_count_ : Z
}.

Definition with_world (w : World) (m : Make) : Make :=
  mkMake w (make_top m) (node m) (mode_ m) (re_match m) (re_iterator m) (error_count_ m).
Definition with_node (n : option Node) (m : Make) : Make :=
  mkMake (world m) (make_top m) n (mode_ m) (re_match m) (re_iterator m) (error_count_ m).
Definition with_regex (rm : TRegexMatch) (it : TRegexIterator) (m : Make) : Make :=
  mkMake (world m) (make_top m) (node m) (mode_ m) rm it (error_count_ m).
Definition count_error (m : Make) : Make :=
  mkMake (world m) (make_top m) (node m) (mode_ m) (re_match m) (re_iterator m) (u64 (error_count_ m + 1)).
Definition heap_of (m : Make) : heap := store (world m).
Definition with_heap (h : heap) (m : Make) : Make :=
  with_world (mkWorld h (shared (world m)) (supply (world m))) m.
Definition with_shared (u : U) (m : Make) : Make :=
  with_world (mkWorld (heap_of m) u (supply (world m))) m.

(** [Make(token, source)] *)
Definition new_make (w : World) (token : Token) (source : SourceDef) : Make :=
  let '(n, h) := create (store w) token (mkLocation (Some source) 0 (source_size source)) in
  mkMake (mkWorld h (shared w) (supply w)) n (Some n) [] (new_regex_match 10) (new_iterator source) 0.

(** [node], dereferenced *)
Definition this_node (m : Make) : outcome Node := or_undefined (node m).
Definition this_parent (m : Make) : outcome Node := n ← this_node m; or_undefined (parent_of (heap_of m) n).

(** [Make::match], [mode()], [mode(next)] *)
Definition make_match (m : Make) (index : nat) : outcome Location := match_at (re_match m) index.
Definition set_mode (m : Make) (next : list Z) : Make :=
  mkMake (world m) (make_top m) (node m) next (re_match m) (re_iterator m) (error_count_ m).

(** [in(type)], [in(types)] *)
Definition in_ (m : Make) (type : Token) : outcome bool :=
  n ← this_node m; Returns (token_eqb (type_of (heap_of m) n) type).
Definition in_types (m : Make) (types : list Token) : outcome bool :=
  n ← this_node m; Returns (token_in types (type_of (heap_of m) n)).

(** [group_in(type)], [group_in(types)] *)
Definition group_in_types (m : Make) (types : list Token) : outcome bool :=
  b ← in_ m Group;
  if negb b then Returns false
  else p ← this_parent m; Returns (token_in types (type_of (heap_of m) p)).
Definition group_in (m : Make) (type : Token) : outcome bool := group_in_types m [type].

(** [previous(type)]: [back] of an empty vector is undefined. *)
Definition previous (m : Make) (type : Token) : outcome bool :=
  b ← in_ m Group;
  if negb b then Returns false
  else
    n ← this_node m;
    back ← or_undefined (last (children_of (heap_of m) n));
    Returns (token_eqb (type_of (heap_of m) back) type).

(** [extend()] *)
Definition extend_node (m : Make) : outcome Make :=
  n ← this_node m;
  match last (children_of (heap_of m) n) with
  | None => Returns m
  | Some back => Returns (with_heap (Ast.extend (heap_of m) n (location_of (heap_of m) back)) m)
  end.

(** [make_error(loc, msg)]; the message gets a source of its own. *)
Definition make_error (m : Make) (loc : Location) (msg : list Z) : Node * Make :=
  let '(n, h) := create (heap_of m) Error loc in
  let '(e, h) := create h ErrorMsg (location_of_string (supply (world m)) msg) in
  let h := push_back h n (Some e) in
  let '(a, h) := create h ErrorAst loc in
  let h := push_back h n (Some a) in
  (n, with_world (mkWorld h (shared (world m)) (Pos.succ (supply (world m)))) m).

(** The end of [add]: [if (type == Error) error_count_++] and the new child. *)
Definition append (m : Make) (type : Token) (index : nat) : outcome Make :=
  let m := if token_eqb type Error then count_error m else m in
  n ← this_node m;
  loc ← match_at (re_match m) index;
  let '(c, h) := create (heap_of m) type loc in
  Returns (with_heap (push_back h n (Some c)) m).

(** [node = node->back()] *)
Definition enter_back (m : Make) : outcome Make :=
  n ← this_node m;
  back ← or_undefined (last (children_of (heap_of m) n));
  Returns (with_node (Some back) m).

(** [if (!in(Group)) push(Group)]; adding a [Group] adds no other one. *)
Definition ensure_group (m : Make) : outcome Make :=
  b ← in_ m Group;
  if (b : bool) then Returns m else m ← append m Group 0; enter_back m.

(** [Make::add], [Make::push] *)
Definition add (m : Make) (type : Token) (index : nat) : outcome Make :=
  m ← (if negb (token_eqb type Group) then ensure_group m else Returns m);
  append m type index.
Definition push (m : Make) (type : Token) (index : nat) : outcome Make :=
  m ← add m type index; enter_back m.

(** [Make::error(msg, location)], [Make::error(msg, index)] *)
Definition error_at (m : Make) (msg : list Z) (location : Location) : outcome Make :=
  m ← ensure_group m;
  let m := count_error m in
  n ← this_node m;
  let '(e, m) := make_error m location msg in
  Returns (with_heap (push_back (heap_of m) n (Some e)) m).
Definition make_error_match (m : Make) (msg : list Z) (index : nat) : outcome Make :=
  m ← ensure_group m;
  let m := count_error m in
  n ← this_node m;
  loc ← match_at (re_match m) index;
  let '(e, m) := make_error m loc msg in
  Returns (with_heap (push_back (heap_of m) n (Some e)) m).

(** [extend(type, index)], [invalid] *)
Definition extend_type (m : Make) (type : Token) (index : nat) : outcome Make :=
  n ← this_node m;
  match last (children_of (heap_of m) n) with
  | Some back =>
      if token_eqb (type_of (heap_of m) back) type then
        loc ← match_at (re_match m) index;
        Returns (with_heap (Ast.extend (heap_of m) back loc) m)
      else add m type index
  | None => add m type index
  end.
Definition invalid (m : Make) : outcome Make := extend_type (count_error m) Invalid 0.

(** [extend_before(type)] *)
Definition extend_before (m : Make) (type : Token) : outcome Make :=
  n ← this_node m;
  match head (children_of (heap_of m) n) with
  | Some front =>
      if token_eqb (type_of (heap_of m) front) type then
        loc ← match_at (re_match m) 0;
        Returns (with_heap (Ast.extend (heap_of m) front (mkLocation (source loc) (pos loc) 0)) m)
      else Returns m
  | None => Returns m
  end.

(** [try_pop(type)] *)
Definition try_pop (m : Make) (type : Token) : outcome (bool * Make) :=
  b ← in_ m type;
  if (b : bool) then
    m ← extend_node m;
    n ← this_node m;
    Returns (true, with_node (parent_of (heap_of m) n) m)
  else Returns (false, m).

(** [pop(type)], [pop()] *)
Definition pop (m : Make) (type : Token) : outcome Make :=
  '(b, m) ← try_pop m type;
  if (b : bool) then Returns m else invalid m.
Definition pop_any (m : Make) : outcome (Token * Make) :=
  b ← in_ m Token.Top;
  if (b : bool) then Throws
  else
    n ← this_node m;
    let type := type_of (heap_of m) n in
    m ← pop m type;
    Returns (type, m).

(** [term(end)] *)
Fixpoint try_pops (m : Make) (ts : list Token) : outcome Make :=
  match ts with
  | [] => Returns m
  | t :: ts => '(_, m) ← try_pop m t; try_pops m ts
  end.
Definition term (m : Make) (end_ : list Token) : outcome Make := try_pops m (Group :: end_).

(** The loop of [seq]; every turn goes up one parent. *)
Fixpoint seq_loop (fuel : nat) (m : Make) (skip : list Token) : outcome Make :=
  match fuel with
  | O => Undefined
  | S fuel =>
      p ← this_parent m;
      if token_in skip (type_of (heap_of m) p) then
        m ← extend_node m;
        p ← this_parent m;
        seq_loop fuel (with_node (Some p) m) skip
      else Returns m
  end.

(** [Make::seq] *)
Definition make_seq (m : Make) (type : Token) (skip : list Token) : outcome Make :=
  m ← ensure_group m;
  m ← seq_loop (depth_fuel (heap_of m)) m skip;
  m ← extend_node m;
  p ← this_parent m;
  if token_eqb (type_of (heap_of m) p) type then Returns (with_node (Some p) m)
  else
    let '(group, h) := pop_back (heap_of m) p in
    group ← or_undefined group;
    loc ← match_at (re_match m) 0;
    let '(seq, h) := create h type (location_mul loc (location_of h group)) in
    let h := push_back h p (Some seq) in
    let h := push_back h seq (Some group) in
    Returns (with_node (Some seq) (with_heap h m)).

(** The loop of [done]; every turn goes up a parent at least. *)
Fixpoint done_loop (fuel : nat) (m : Make) : outcome Make :=
  match fuel with
  | O => Undefined
  | S fuel =>
      n ← this_node m;
      match parent_of (heap_of m) n with
      | None => Returns m
      | Some _ =>
          let '(e, m) := make_error m (location_of (heap_of m) n) (bytes "this is unclosed") in
          let m := with_heap (push_back (heap_of m) n (Some e)) m in
          m ← term m [];
          n ← this_node m;
          m ← term (with_node (parent_of (heap_of m) n) m) [];
          done_loop fuel m
      end
  end.

(** [Make::done] *)
Definition make_done (m : Make) : outcome (Node * World) :=
  m ← term m [];
  m ← done_loop (depth_fuel (heap_of m)) m;
  if bool_decide (node m = Some (make_top m)) then Returns (make_top m, world m) else Throws.

(** * [class Parse] *)

(** [ParseEffect], [RuleDef] *)
Definition ParseEffect := Make -> outcome Make.
Record Rule := mkRule { rule_regex : TRegex; effect : ParseEffect }.

Inductive depth := depth_file | depth_directory | depth_subdirectories.

(** [std::filesystem] as the program uses it, and [SourceDef::load]: a readable file has an
    origin and contents. *)
Record FileSystem := mkFileSystem {
  path : Type;
  path_lt : path -> path -> bool;
  fs_exists : path -> bool;
  canonical : path -> path;
  is_regular_file : path -> bool;
  is_directory : path -> bool;
  directory_iterator : path -> list path;
  stem : path -> list Z;
  load : path -> option (list Z * list Z)
}.
Context {fs : FileSystem}.

(** The hooks that were not set are [None]. *)
Record Parse := mkParse {
  depth_ : depth;
  wf_ : Wellformed;
  max_errors_ : Z;
  prefile_ : option (path fs -> bool);
  predir_ : option (path fs -> bool);
  postfile_ : option (path fs -> Node -> World -> outcome World);
  postdir_ : option (path fs -> Node -> World -> outcome World);
  postparse_ : option (option (path fs) -> Node -> World -> outcome World);
  done_ : option ParseEffect;
  rules_ : gmap (list Z) (list Rule);
  rule_sets_ : gmap (list Z) TRegexSet
}.

Definition default_max_errors : Z := 100.

(** [Parse(depth, wf)], [Parse(depth)] *)
Definition new_parse_wf (d : depth) (wf : Wellformed) : Parse :=
  mkParse d wf default_max_errors None None None None None None ∅ ∅.
Definition new_parse (d : depth) : Parse := new_parse_wf d empty_wf.

(** [operator()(mode, rules)] *)
Definition add_rules (p : Parse) (mode : list Z) (r : list Rule) : Parse :=
  let rules := default [] (rules_ p !! mode) ++ r in
  mkParse (depth_ p) (wf_ p) (max_errors_ p) (prefile_ p) (predir_ p) (postfile_ p) (postdir_ p) (postparse_ p)
    (done_ p) (<[mode := rules]> (rules_ p))
    (<[mode := new_regex_set (rule_regex <$> rules)]> (rule_sets_ p)).

(** [done(f)], [max_errors(n)] *)
Definition set_done (p : Parse) (f : ParseEffect) : Parse :=
  mkParse (depth_ p) (wf_ p) (max_errors_ p) (prefile_ p) (predir_ p) (postfile_ p) (postdir_ p) (postparse_ p)
    (Some f) (rules_ p) (rule_sets_ p).
Definition set_max_errors (p : Parse) (n : Z) : Parse :=
  mkParse (depth_ p) (wf_ p) n (prefile_ p) (predir_ p) (postfile_ p) (postdir_ p) (postparse_ p)
    (done_ p) (rules_ p) (rule_sets_ p).

(** A turn of the loop of [parse_source] in the mode whose rules and set were found: the new
    state, and the mode that follows. *)
Definition parse_turn (p : Parse) (mode : list Z) (rules : list Rule) (set : TRegexSet) (m : Make)
    : outcome (list Z * list Rule * TRegexSet * Make) :=
  '(idx, rm, it) ← consume_first_match (re_iterator m) (re_match m) set;
  let m := with_regex rm it m in
  match idx with
  | Some i =>
      rule ← or_undefined (rules !! i);
      m ← effect rule m;
      if bool_decide (mode_ m = mode) then Returns (mode, rules, set, m)
      else
        match rules_ p !! mode_ m with
        | None => Throws
        | Some rules =>
            set ← or_undefined (rule_sets_ p !! mode_ m);
            Returns (mode_ m, rules, set, m)
        end
  | None =>
      m ← invalid m;
      Returns (mode, rules, set, with_regex (re_match m) (skip (re_iterator m) 1) m)
  end.

(** The loop of [parse_source]; it need not end, when rules match the empty string. *)
Fixpoint parse_loop (fuel : nat) (p : Parse) (mode : list Z) (rules : list Rule) (set : TRegexSet)
    (m : Make) : outcome Make :=
  if negb (iterator_empty (re_iterator m)) && (error_count_ m <? max_errors_ p) then
    match fuel with
    | O => Undefined
    | S fuel =>
        '(mode, rules, set, m) ← parse_turn p mode rules set m;
        parse_loop fuel p mode rules set m
    end
  else Returns m.

(** [Parse::parse_source]; a null source is [None]. *)
Definition start_mode : list Z := bytes "start".
Definition parse_source (fuel : nat) (p : Parse) (token : Token) (source : Source) (w : World)
    : outcome (option Node * World) :=
  match source with
  | None => Returns (None, w)
  | Some source =>
      let m := new_make w token source in
      match rules_ p !! start_mode with
      | None => Throws
      | Some rules =>
          set ← or_undefined (rule_sets_ p !! start_mode);
          m ← parse_loop fuel p start_mode rules set (set_mode m start_mode);
          m ← match done_ p with Some f => f m | None => Returns m end;
          '(n, w) ← make_done m;
          Returns (Some n, w)
      end
  end.

(** A hook over a tree *)
Definition run_post {A} (hook : option (A -> Node -> World -> outcome World)) (a : A) (n : Node)
    (w : World) : outcome World :=
  match hook with Some f => f a n w | None => Returns w end.

(** The end of both [parse]s: the tree under a [Top]. *)
Definition under_top (p : Parse) (pth : option (path fs)) (ast : option Node) (w : World)
    : outcome (Node * World) :=
  let '(top, h) := create_token (store w) Token.Top in
  let w := mkWorld (push_back h top ast) (shared w) (supply w) in
  w ← run_post (postparse_ p) pth top w;
  Returns (top, w).

(** [Parse::parse(source)]; a null source has no origin to read. *)
Definition parse (fuel : nat) (p : Parse) (source : Source) (w : World) : outcome (Node * World) :=
  source ← or_undefined source;
  '(ast, w) ← parse_source fuel p File (Some source) w;
  under_top p None ast w.

(** * Files and directories *)

(** [Parse::parse_file]; [load]ing makes a source at the next address. *)
Definition parse_file (fuel : nat) (p : Parse) (filename : path fs) (w : World)
    : outcome (option Node * World) :=
  if match prefile_ p with Some f => negb (f filename) | None => false end then Returns (None, w)
  else
    let '(source, w) :=
      match load fs filename with
      | None => (None, w)
      | Some (origin, contents) =>
          (Some (synthetic (supply w) contents origin),
           mkWorld (store w) (shared w) (Pos.succ (supply w)))
      end in
    '(ast, w) ← parse_source fuel p File source w;
    match ast with
    | Some n => w ← run_post (postfile_ p) filename n w; Returns (ast, w)
    | None => Returns (ast, w)
    end.

(** Insertion in a [std::set<path>] *)
Fixpoint set_insert (x : path fs) (l : list (path fs)) : list (path fs) :=
  match l with
  | [] => [x]
  | y :: l' =>
      if path_lt fs x y then x :: l else if path_lt fs y x then y :: set_insert x l' else l
  end.

Definition subdirectory (p : Parse) (e : path fs) : bool :=
  match depth_ p with depth_subdirectories => is_directory fs e | _ => false end.

(** [for (auto& x : xs) top->push_back(f(x))] *)
Fixpoint push_parsed (f : path fs -> World -> outcome (option Node * World)) (top : Node)
    (xs : list (path fs)) (w : World) : outcome World :=
  match xs with
  | [] => Returns w
  | x :: xs =>
      '(n, w) ← f x w;
      push_parsed f top xs (mkWorld (push_back (store w) top n) (shared w) (supply w))
  end.

(** [Parse::parse_directory]; [levels] bounds how deep the directories nest. *)
Fixpoint parse_directory (levels fuel : nat) (p : Parse) (dir : path fs) (w : World)
    : outcome (option Node * World) :=
  match levels with
  | O => Undefined
  | S levels =>
      if match predir_ p with Some f => negb (f dir) | None => false end then Returns (None, w)
      else
        let entries := directory_iterator fs dir in
        let dirs := foldl (fun s e => if subdirectory p e then set_insert e s else s) [] entries in
        let files := foldl (fun s e => if negb (subdirectory p e) && is_regular_file fs e
                                       then set_insert e s else s) [] entries in
        let '(top, h) := create (store w) Directory (location_of_string (supply w) (stem fs dir)) in
        let w := mkWorld h (shared w) (Pos.succ (supply w)) in
        w ← push_parsed (parse_directory levels fuel p) top dirs w;
        w ← push_parsed (parse_file fuel p) top files w;
        match children_of (store w) top with
        | [] => Returns (None, w)
        | _ => w ← run_post (postdir_ p) dir top w; Returns (Some top, w)
        end
  end.

(** [Parse::sub_parse] *)
Definition sub_parse (levels fuel : nat) (p : Parse) (pth : path fs) (w : World)
    : outcome (option Node * World) :=
  if negb (fs_exists fs pth) then Returns (None, w)
  else
    let cpath := canonical fs pth in
    if is_regular_file fs cpath then parse_file fuel p cpath w
    else if match depth_ p with depth_file => false | _ => is_directory fs cpath end
    then parse_directory levels fuel p cpath w
    else Returns (None, w).

(** [Parse::parse(path)] *)
Definition parse_path (levels fuel : nat) (p : Parse) (pth : path fs) (w : World)
    : outcome (Node * World) :=
  '(ast, w) ← sub_parse levels fuel p pth w;
  under_top p (Some pth) ast w.

End Parse.
Arguments World : clear implicits.
Arguments Make : clear implicits.
Arguments Rule : clear implicits.
Arguments ParseEffect : clear implicits.
Arguments Parse U fs : clear implicits.
