(* ===== verification/MakeFacts.v ===== *)
(** What the operations of [Make] do to the path from the cursor to the root, as the list of
    the tokens on it. *)
From S2P Require Import Prelude.
From S2P Require Import Token.
From S2P Require Import Source.
From S2P Require Import TokenLayer.
From S2P Require Import TokenLayerFacts.
From S2P Require Import Ast.
From S2P Require Import AstInvariant.
From S2P Require Import Cursor.
From S2P Require Import Parse.
From stdpp Require Export gmap.
Open Scope Z_scope.

Section MakeFacts.
Context {U : Type}.
Implicit Types m : Make U.

(** The cursor is in a tree that is one, under the root, on its last branch; [ts] are the
    tokens from the cursor up to the root. *)
Definition cursor m (ts : list Token) : Prop :=
  ast_ok (heap_of m) /\ match_ok (re_match m) /\
  exists n l, node m = Some n /\ spine (heap_of m) n l /\ last l = Some (make_top m)
    /\ ts = (type_of (heap_of m) <$> l).

(** What no operation of [Make] but [mode] changes. *)
Record moved m m' : Prop := {
  mv_match : re_match m' = re_match m;
  mv_iterator : re_iterator m' = re_iterator m;
  mv_top : make_top m' = make_top m;
  mv_mode : mode_ m' = mode_ m;
  mv_shared : shared (world m') = shared (world m)
}.

#[export] Instance moved_preorder : PreOrder moved.
Proof.
  split; [by split|]. intros a b c [] []. split; congruence.
Qed.

Definition goes m m' (ts : list Token) : Prop := cursor m' ts /\ moved m m'.

Lemma goes_trans m m1 m2 ts1 ts2 : goes m m1 ts1 -> goes m1 m2 ts2 -> goes m m2 ts2.
Proof. intros [_ H1] [H2 H3]. split; [done|by etrans]. Qed.

Lemma cursor_goes m ts : cursor m ts -> goes m m ts.
Proof. by split. Qed.

Lemma goes_count m ts : cursor m ts -> goes m (count_error m) ts.
Proof. by intros; split. Qed.

Lemma cursor_cons m ts : cursor m ts -> exists t r, ts = t :: r.
Proof.
  intros (_ & _ & n & l & _ & Hs & _ & ->). destruct (spine_head _ _ _ Hs) as [l' ->]. cbn. by eexists _, _.
Qed.

(** The head of the path is the type of the node. *)
Lemma cursor_in m t r type : cursor m (t :: r) -> in_ m type = Returns (token_eqb t type).
Proof.
  intros (_ & _ & n & l & Hn & Hs & _ & E). destruct (spine_head _ _ _ Hs) as [l' ->].
  cbn in E. injection E as -> _. unfold in_, this_node. by rewrite Hn.
Qed.

Lemma cursor_node m ts : cursor m ts ->
  exists n, this_node m = Returns n /\ is_Some (heap_of m !! n).
Proof.
  intros (_ & _ & n & l & Hn & Hs & _ & E). exists n. unfold this_node. rewrite Hn.
  split; [done|]. destruct (spine_head _ _ _ Hs) as [l' ->]. eapply spine_allocated; [exact Hs|left].
Qed.

(** A child of type [type] attached at the cursor, which stays or enters it. *)
Lemma cursor_appended m ts h' n c type : cursor m ts -> this_node m = Returns n ->
  appended (heap_of m) h' n c type ->
  goes m (with_heap h' m) ts
  /\ enter_back (with_heap h' m) = Returns (with_node (Some c) (with_heap h' m))
  /\ goes m (with_node (Some c) (with_heap h' m)) (type :: ts).
Proof.
  intros (Hok & Hm & n0 & l & Hn & Hs & Hl & ->) Hthis Hap.
  unfold this_node in Hthis. rewrite Hn in Hthis. injection Hthis as <-.
  destruct (appended_spine _ _ _ _ _ _ Hs Hap) as (S1 & S2 & Hty).
  assert (E : (type_of h' <$> l) = (type_of (heap_of m) <$> l)).
  { apply list_fmap_ext. intros i x Hx. apply Hty. by eapply list_elem_of_lookup_2. }
  assert (Hn0 : is_Some (heap_of m !! n0)).
  { destruct (spine_head _ _ _ Hs) as [l0 ->]. eapply spine_allocated; [exact Hs|left]. }
  split_and!.
  - split; [|by split]. split; [apply Hap|]. split; [done|]. exists n0, l. split_and!; [done..|]. by cbn.
  - unfold enter_back, this_node. cbn [with_heap with_world node]. rewrite Hn. cbn.
    change (heap_of (with_heap h' m)) with h'. rewrite (ap_children _ _ _ _ _ Hap) by done.
    by rewrite decide_True, last_snoc.
  - split; [|by split]. split; [apply Hap|]. split; [done|]. exists c, (c :: l).
    split_and!; [done|done| |].
    + cbn. by destruct (spine_head _ _ _ Hs) as [l0 ->].
    + cbn. change (heap_of (with_node _ _)) with h'. by rewrite E, (ap_child_type _ _ _ _ _ Hap).
Qed.

Lemma cursor_match m ts i : cursor m ts -> exists loc, match_at (re_match m) i = Returns loc.
Proof. intros (_ & Hm & _). by apply match_at_defined. Qed.

Lemma append_goes m ts type i : cursor m ts ->
  exists m1 m2, append m type i = Returns m1 /\ goes m m1 ts
    /\ enter_back m1 = Returns m2 /\ goes m m2 (type :: ts).
Proof.
  intros Hc. unfold append. set (m0 := if token_eqb type Error then _ else _).
  assert (H0 : goes m m0 ts) by (unfold m0; destruct (token_eqb type Error); [by apply goes_count|by apply cursor_goes]).
  destruct H0 as [Hc0 Hmv]. destruct (cursor_node m0 ts Hc0) as (n & En & Hn).
  destruct (cursor_match m0 ts i Hc0) as [loc Eloc]. rewrite En. cbn [mbind outcome_bind].
  rewrite Eloc. cbn [mbind outcome_bind].
  pose proof (append_create (heap_of m0) n type loc (proj1 Hc0) Hn) as Hap. cbv zeta in Hap.
  destruct (create (heap_of m0) type loc) as [c h]. cbn [fst snd] in Hap.
  destruct (cursor_appended m0 ts _ n c type Hc0 En Hap) as ([C1 M1] & E & [C2 M2]).
  eexists _, _. split_and!; [done|split; [done|by etrans]|exact E|split; [done|by etrans]].
Qed.

(** The path once the cursor is in a group. *)
Definition grouped (ts : list Token) : list Token :=
  match ts with t :: _ => if token_eqb t Group then ts else Group :: ts | [] => ts end.

Lemma ensure_group_goes m ts : cursor m ts ->
  exists m', ensure_group m = Returns m' /\ goes m m' (grouped ts).
Proof.
  intros Hc. destruct (cursor_cons m ts Hc) as (t & r & ->). unfold ensure_group.
  rewrite (cursor_in m t r Group Hc). cbn [mbind outcome_bind grouped].
  destruct (token_eqb t Group); [exists m; split; [done|by apply cursor_goes]|].
  destruct (append_goes m (t :: r) Group 0 Hc) as (m1 & m2 & E1 & _ & E2 & H2).
  exists m2. by rewrite E1.
Qed.

(** The path under which [add] puts its child. *)
Definition added (type : Token) (ts : list Token) : list Token :=
  if token_eqb type Group then ts else grouped ts.

Lemma add_goes m ts type i : cursor m ts ->
  exists m', add m type i = Returns m' /\ goes m m' (added type ts).
Proof.
  intros Hc. unfold add, added. destruct (token_eqb type Group); cbn [negb].
  - destruct (append_goes m ts type i Hc) as (m1 & m2 & E1 & H1 & _). exists m1. by rewrite <-E1.
  - destruct (ensure_group_goes m ts Hc) as (m0 & E0 & H0). rewrite E0. cbn [mbind outcome_bind].
    destruct (append_goes m0 _ type i (proj1 H0)) as (m1 & m2 & E1 & H1 & _).
    exists m1. split; [done|by eapply goes_trans].
Qed.

Lemma push_goes m ts type i : cursor m ts ->
  exists m', push m type i = Returns m' /\ goes m m' (type :: added type ts).
Proof.
  intros Hc. unfold push, add, added. destruct (token_eqb type Group); cbn [negb].
  - destruct (append_goes m ts type i Hc) as (m1 & m2 & E1 & H1 & E2 & H2).
    exists m2. cbn [mbind outcome_bind]. by rewrite E1.
  - destruct (ensure_group_goes m ts Hc) as (m0 & E0 & H0). rewrite E0. cbn [mbind outcome_bind].
    destruct (append_goes m0 _ type i (proj1 H0)) as (m1 & m2 & E1 & H1 & E2 & H2).
    exists m2. rewrite E1. split; [done|by eapply goes_trans].
Qed.

(** Errors *)
Lemma error_appended m ts n loc msg : cursor m ts -> this_node m = Returns n ->
  let '(e, m1) := make_error m loc msg in
  goes m (with_heap (push_back (heap_of m1) n (Some e)) m1) ts.
Proof.
  intros Hc En. pose proof Hc as (Hok & _). destruct (cursor_node m ts Hc) as (n' & En' & Hn).
  rewrite En in En'. injection En' as <-. unfold make_error.
  destruct (create_spec (heap_of m) Error loc Hok) as (O1 & N1 & T1 & P1 & C1 & S1 & _ & K1).
  destruct (create (heap_of m) Error loc) as [e h1] eqn:E1. cbn [fst snd] in *.
  pose proof (append_create h1 e ErrorMsg (location_of_string (supply (world m)) msg) O1 S1) as A1.
  destruct (create h1 ErrorMsg (location_of_string (supply (world m)) msg)) as [em h2]. cbn [fst snd] in A1.
  pose proof (append_create _ e ErrorAst loc (ap_ok _ _ _ _ _ A1) (ap_some _ _ _ _ _ A1 e S1)) as A2.
  destruct (create (push_back h2 e (Some em)) ErrorAst loc) as [ea h3]. cbn [fst snd] in A2.
  set (h4 := push_back h3 e (Some ea)) in *.
  assert (Hne : forall x, is_Some (heap_of m !! x) -> x <> e) by (intros x [? ?] ->; congruence).
  assert (Hk : forall x, is_Some (heap_of m !! x) -> is_Some (h4 !! x) /\ type_of h4 x = type_of (heap_of m) x
     /\ parent_of h4 x = parent_of (heap_of m) x /\ children_of h4 x = children_of (heap_of m) x).
  { intros x Hx. destruct (K1 x (Hne x Hx)) as (KT & KP & KC & KS & _).
    assert (Hx1 : is_Some (h1 !! x)) by by apply KS.
    pose proof (ap_some _ _ _ _ _ A1 x Hx1) as Hx2.
    rewrite (ap_type _ _ _ _ _ A2), (ap_type _ _ _ _ _ A1), (ap_parent _ _ _ _ _ A2), (ap_parent _ _ _ _ _ A1),
      (ap_children _ _ _ _ _ A2), (ap_children _ _ _ _ _ A1) by done.
    rewrite !decide_False by (intros <-; by apply (Hne e)). rewrite KT, KP, KC.
    split_and!; [by apply A2|done..]. }
  assert (Hs4 : is_Some (h4 !! e)) by by apply A2, A1.
  assert (Hp4 : parent_of h4 e = None).
  { rewrite (ap_parent _ _ _ _ _ A2) by by apply A1. by rewrite (ap_parent _ _ _ _ _ A1). }
  assert (Hab : ~ above h4 e n).
  { destruct Hc as (_ & _ & n0 & l & Hn0 & Hs & _). unfold this_node in En. rewrite Hn0 in En.
    injection En as ->. intros Ha. assert (Hs' : spine h4 n l).
    { apply (spine_keeps (heap_of m)); [done| |]; intros x Hx; apply (spine_allocated _ _ _ _ Hs) in Hx;
        destruct (Hk x Hx) as (? & _ & ? & ?); [done|intros; done]. }
    apply (spine_above _ _ _ _ Hs') in Ha. apply (spine_allocated _ _ _ _ Hs) in Ha. by apply (Hne e). }
  pose proof (append_new (heap_of m) h4 n e (ap_ok _ _ _ _ _ A2) Hn N1 Hk Hs4 Hp4 Hab) as A3.
  destruct (cursor_appended m ts _ n e _ Hc En A3) as ([C M] & _).
  split; [exact C|]. split; apply M.
Qed.

Lemma error_at_goes m ts msg loc : cursor m ts ->
  exists m', error_at m msg loc = Returns m' /\ goes m m' (grouped ts).
Proof.
  intros Hc. unfold error_at. destruct (ensure_group_goes m ts Hc) as (m0 & E0 & H0). rewrite E0.
  cbn [mbind outcome_bind]. pose proof (goes_count m0 _ (proj1 H0)) as H1.
  destruct (cursor_node _ _ (proj1 H1)) as (n & En & _). rewrite En. cbn [mbind outcome_bind].
  pose proof (error_appended (count_error m0) _ n loc msg (proj1 H1) En) as H2.
  destruct (make_error (count_error m0) loc msg) as [e m1]. eexists. split; [done|].
  eapply goes_trans; [exact H0|]. by eapply goes_trans.
Qed.

Lemma make_error_match_goes m ts msg i : cursor m ts ->
  exists m', make_error_match m msg i = Returns m' /\ goes m m' (grouped ts).
Proof.
  intros Hc. destruct (cursor_match m ts i Hc) as [loc Eloc].
  destruct (error_at_goes m ts msg loc Hc) as (m' & E & H). exists m'. split; [|done].
  rewrite <-E. unfold make_error_match, error_at.
  destruct (ensure_group_goes m ts Hc) as (m0 & E0 & H0). rewrite E0. cbn [mbind outcome_bind].
  destruct (this_node (count_error m0)) as [n| |]; cbn [mbind outcome_bind]; [|done..].
  destruct H0 as [_ H0]. change (re_match (count_error m0)) with (re_match m0).
  by rewrite (mv_match _ _ H0), Eloc.
Qed.

(** A change of a location *)
Lemma extend_goes m ts n loc : cursor m ts ->
  goes m (with_heap (Ast.extend (heap_of m) n loc) m) ts.
Proof.
  intros (Hok & Hm & n0 & l & Hn & Hs & Hl & ->). split; [|by split].
  destruct (extend_spine (heap_of m) n loc n0 l Hs) as [S E].
  split; [by apply extend_ok|]. split; [done|]. exists n0, l. split_and!; [done..|].
  change (heap_of (with_heap _ m)) with (Ast.extend (heap_of m) n loc). by rewrite E.
Qed.

Lemma extend_type_goes m ts type i : cursor m ts ->
  exists m', extend_type m type i = Returns m' /\ (goes m m' ts \/ goes m m' (added type ts)).
Proof.
  intros Hc. unfold extend_type. destruct (cursor_node m ts Hc) as (n & En & _). rewrite En.
  cbn [mbind outcome_bind]. destruct (add_goes m ts type i Hc) as (m' & E & H).
  destruct (last _) as [back|]; [|exists m'; by split; [|right]].
  destruct (token_eqb (type_of (heap_of m) back) type); [|exists m'; by split; [|right]].
  destruct (cursor_match m ts i Hc) as [loc Eloc]. rewrite Eloc. eexists. split; [done|left].
  by apply extend_goes.
Qed.

Lemma invalid_goes m ts : cursor m ts ->
  exists m', invalid m = Returns m' /\ (goes m m' ts \/ goes m m' (grouped ts)).
Proof.
  intros Hc. destruct (extend_type_goes (count_error m) ts Invalid 0) as (m' & E & H); [done|].
  exists m'. split; [done|]. destruct H as [[? M]|[? M]]; [left|right]; (split; [done|split; apply M]).
Qed.

Lemma extend_before_goes m ts type : cursor m ts ->
  exists m', extend_before m type = Returns m' /\ goes m m' ts.
Proof.
  intros Hc. unfold extend_before. destruct (cursor_node m ts Hc) as (n & En & _). rewrite En.
  cbn [mbind outcome_bind]. destruct (head _) as [front|]; [|exists m; split; [done|by apply cursor_goes]].
  destruct (token_eqb _ type); [|exists m; split; [done|by apply cursor_goes]].
  destruct (cursor_match m ts 0 Hc) as [loc Eloc]. rewrite Eloc. eexists. split; [done|]. by apply extend_goes.
Qed.

Lemma extend_node_goes m ts : cursor m ts ->
  exists m', extend_node m = Returns m' /\ goes m m' ts /\ node m' = node m.
Proof.
  intros Hc. unfold extend_node. destruct (cursor_node m ts Hc) as (n & En & _). rewrite En.
  cbn [mbind outcome_bind]. destruct (last _); eexists; (split; [done|]).
  - split; [by apply extend_goes|done].
  - split; [by apply cursor_goes|done].
Qed.

(** The parent of the cursor *)
Lemma cursor_parent m t p r : cursor m (t :: p :: r) ->
  exists n q, node m = Some n /\ parent_of (heap_of m) n = Some q /\ type_of (heap_of m) q = p
    /\ last (children_of (heap_of m) q) = Some n
    /\ goes m (with_node (Some q) m) (p :: r).
Proof.
  intros (Hok & Hm & n & l & Hn & Hs & Hl & E). destruct Hs as [n Hs Hp|n q l Hp Hlast Hs]; [done|].
  cbn in E. injection E as -> E. exists n, q.
  destruct (spine_head _ _ _ Hs) as [l' ->]. cbn in E. injection E as -> ->.
  split_and!; [done..|]. split; [|by split]. split; [done|]. split; [done|].
  exists q, (q :: l'). by split_and!.
Qed.

Lemma try_pop_goes m t r type : cursor m (t :: r) -> r <> [] ->
  exists m', try_pop m type = Returns (token_eqb t type, m')
    /\ goes m m' (if token_eqb t type then r else t :: r).
Proof.
  intros Hc Hr. unfold try_pop. rewrite (cursor_in m t r type Hc). cbn [mbind outcome_bind].
  destruct (token_eqb t type); [|exists m; split; [done|by apply cursor_goes]].
  destruct (extend_node_goes m _ Hc) as (m1 & E1 & H1 & _). rewrite E1. cbn [mbind outcome_bind].
  destruct r as [|p r]; [done|].
  destruct (cursor_parent m1 t p r (proj1 H1)) as (n & q & Hn & Hq & _ & _ & H2).
  unfold this_node. rewrite Hn. cbn [mbind outcome_bind or_undefined]. rewrite Hq.
  eexists. split; [done|]. by eapply goes_trans.
Qed.

(** A node that is not of the type is not popped, wherever it is. *)
Lemma try_pop_stays m t r type : cursor m (t :: r) -> token_eqb t type = false ->
  try_pop m type = Returns (false, m).
Proof. intros Hc Ht. unfold try_pop. by rewrite (cursor_in m t r type Hc), Ht. Qed.

Lemma pop_goes m t r type : cursor m (t :: r) -> r <> [] ->
  exists m', pop m type = Returns m'
    /\ (if token_eqb t type then goes m m' r
        else goes m m' (t :: r) \/ goes m m' (grouped (t :: r))).
Proof.
  intros Hc Hr. unfold pop. destruct (try_pop_goes m t r type Hc Hr) as (m1 & E1 & H1). rewrite E1.
  cbn [mbind outcome_bind]. destruct (token_eqb t type); [by exists m1|].
  destruct (invalid_goes m1 _ (proj1 H1)) as (m2 & E2 & H2). exists m2. split; [done|].
  destruct H2 as [H2|H2]; [left|right]; by eapply goes_trans.
Qed.

(** The path after [term()]; the root is not a [Group]. *)
Definition ungrouped (ts : list Token) : list Token :=
  match ts with t :: r => if token_eqb t Group then r else ts | [] => ts end.

Lemma term_goes m ts : cursor m ts -> (forall t, ts = [t] -> token_eqb t Group = false) ->
  exists m', term m [] = Returns m' /\ goes m m' (ungrouped ts).
Proof.
  intros Hc Hroot. destruct (cursor_cons m ts Hc) as (t & r & ->). unfold term, ungrouped. cbn [try_pops].
  destruct r as [|p r].
  - rewrite (try_pop_stays m t [] Group Hc (Hroot t eq_refl)), (Hroot t eq_refl).
    exists m. split; [done|by apply cursor_goes].
  - destruct (try_pop_goes m t (p :: r) Group Hc) as (m1 & E1 & H1); [done|]. rewrite E1.
    by exists m1.
Qed.

(** * [seq] *)

(** The path after the loop of [seq], from a node under the ones to skip. *)
Fixpoint seq_path (skip : list Token) (t : Token) (r : list Token) : list Token :=
  match r with
  | p :: r' => if token_in skip p then seq_path skip p r' else t :: r
  | [] => [t]
  end.

Lemma seq_loop_goes fuel m skip t r : cursor m (t :: r) -> (length r <= fuel)%nat ->
  (1 < length (seq_path skip t r))%nat ->
  exists m', seq_loop (S fuel) m skip = Returns m' /\ goes m m' (seq_path skip t r).
Proof.
  revert m t r. induction fuel as [|fuel IH]; intros m t r Hc Hf Hl.
  { destruct r; [cbn in Hl; lia|cbn in Hf; lia]. }
  destruct r as [|p r]; [cbn in Hl; lia|]. cbn [seq_path] in *.
  destruct (cursor_parent m t p r Hc) as (n & q & Hn & Hq & Hty & _ & H0).
  assert (Ep : this_parent m = Returns q) by (unfold this_parent, this_node; rewrite Hn; cbn; by rewrite Hq).
  cbn [seq_loop]. rewrite Ep. cbn [mbind outcome_bind]. rewrite Hty.
  destruct (token_in skip p) eqn:Es; [|exists m; split; [done|by apply cursor_goes]].
  destruct (extend_node_goes m _ Hc) as (m1 & E1 & H1 & En). rewrite E1. cbn [mbind outcome_bind].
  destruct (cursor_parent m1 t p r (proj1 H1)) as (n' & q' & Hn' & Hq' & _ & _ & H2).
  assert (Ep' : this_parent m1 = Returns q') by (unfold this_parent, this_node; rewrite Hn'; cbn; by rewrite Hq').
  rewrite Ep'. cbn [mbind outcome_bind].
  destruct (IH (with_node (Some q') m1) p r (proj1 H2)) as (m2 & E2 & H3); [cbn in Hf; lia|done|].
  cbn [seq_loop] in E2. rewrite E2. exists m2. split; [done|].
  eapply goes_trans; [exact H1|]. by eapply goes_trans.
Qed.

Lemma spine_size h n l : spine h n l -> (length l <= size h)%nat.
Proof.
  intros Hs. rewrite <-(size_dom (D:=gset Node) h).
  rewrite <-(size_list_to_set (C:=gset Node) l) by by eapply spine_nodup.
  apply subseteq_size. intros x Hx%elem_of_list_to_set. apply elem_of_dom. by eapply spine_allocated.
Qed.

Lemma cursor_size m ts : cursor m ts -> (length ts <= size (heap_of m))%nat.
Proof.
  intros (_ & _ & n & l & _ & Hs & _ & ->). rewrite length_fmap. by eapply spine_size.
Qed.

(** [pop_back] of the last child *)
Lemma pop_back_spec h this n : ast_ok h -> last (children_of h this) = Some n ->
  let h' := (pop_back h this).2 in
  (pop_back h this).1 = Some n /\ ast_ok h'
  /\ (forall x, parent_of h' x = if decide (x = n) then None else parent_of h x)
  /\ (forall x, x <> this -> children_of h' x = children_of h x)
  /\ (forall x, type_of h' x = type_of h x /\ (is_Some (h' !! x) <-> is_Some (h !! x))).
Proof.
  intros Hok Hl h'. assert (Hok' : ast_ok h') by by apply pop_back_ok.
  unfold h', pop_back in *. rewrite Hl in *. cbn [fst snd] in *.
  assert (Hin : n ∈ children_of h this) by (apply last_Some in Hl as [l ->]; set_solver).
  assert (Ht : is_Some (h !! this)) by by eapply children_allocated.
  set (h1 := alter _ this h) in *.
  pose proof (fun x => with_children_accessors h this (fun c => take (length c - 1) c) x Ht) as A. fold h1 in A.
  destruct (disown_spec h1 this n) as [P K].
  assert (Hpn : parent_of h1 n = Some this).
  { destruct (A n) as (-> & _). by apply (ok_links _ Hok). }
  split_and!; [done|done| | |]; intros x.
  - rewrite P. destruct (A x) as (-> & _). destruct (decide (x = n)) as [->|Hx].
    + by rewrite decide_True.
    + rewrite decide_False; [done|]. by intros [? _].
  - intros Hx. destruct (K x) as (-> & _). destruct (A x) as (_ & _ & _ & ->).
    by rewrite decide_False by congruence.
  - destruct (K x) as (_ & -> & _ & ->). destruct (A x) as (_ & -> & _). split; [done|].
    unfold h1. by rewrite is_Some_alter.
Qed.

Lemma seq_wrap h q n l type loc : ast_ok h -> spine h n (n :: l) -> last (children_of h q) = Some n ->
  parent_of h n = Some q ->
  let h1 := (pop_back h q).2 in
  let c := (create h1 type loc).1 in
  let h2 := push_back (create h1 type loc).2 q (Some c) in
  let h3 := push_back h2 c (Some n) in
  ast_ok h3 /\ spine h3 c (c :: l) /\ type_of h3 c = type
  /\ (forall x, x ∈ l -> type_of h3 x = type_of h x).
Proof.
  intros Hok Hs Hlast Hp h1 c h2 h3. pose proof (spine_nodup _ _ _ Hs) as Hnd.
  apply NoDup_cons in Hnd as [Hnl _]. inversion Hs as [? ? Hp'|? q' ? Hp' _ Hq]; subst; [congruence|].
  assert (q' = q) as -> by congruence.
  destruct (pop_back_spec h q n Hok Hlast) as (_ & Ok1 & P1 & C1 & K1). fold h1 in Ok1, P1, C1, K1.
  assert (Hne : forall x, x ∈ l -> x <> n) by (by intros x Hx ->).
  assert (Hq1 : spine h1 q l).
  { apply (spine_keeps h); [done| |].
    - intros x Hx. rewrite P1, decide_False by by apply Hne. split; [|done].
      apply K1. by eapply spine_allocated.
    - intros x Hx Hxq. by apply C1. }
  assert (Hq1s : is_Some (h1 !! q)).
  { destruct (spine_head _ _ _ Hq1) as [l0 ->]. eapply spine_allocated; [exact Hq1|left]. }
  pose proof (append_create h1 q type loc Ok1 Hq1s) as Hap. fold c h2 in Hap.
  destruct (appended_spine _ _ _ _ _ _ Hq1 Hap) as (_ & Hc2 & Ht2).
  assert (Hns : is_Some (h1 !! n)) by (apply K1; by eapply parent_allocated).
  assert (Hcn : c <> n) by (intros E; rewrite <-E, (ap_new _ _ _ _ _ Hap) in Hns; by destruct Hns).
  assert (Hsc : is_Some (h2 !! c)) by (eapply spine_allocated; [exact Hc2|left]).
  destruct (push_back_spec h2 c n (ap_ok _ _ _ _ _ Hap)) as (Ok3 & P3 & C3 & S3).
  { split; [done|]. split; [apply NoDup_singleton|]. intros x ->%list_elem_of_singleton.
    split; [by apply Hap|]. rewrite (ap_parent _ _ _ _ _ Hap) by done. rewrite P1, decide_True by done.
    split; [done|]. intros Ha. apply (spine_above _ _ _ _ Hc2) in Ha.
    apply elem_of_cons in Ha as [?|?]; [congruence|by apply (Hne n)]. }
  fold h3 in Ok3, P3, C3, S3. split; [done|]. split; [|split].
  - apply (spine_keeps h2); [done| |].
    + intros x Hx. rewrite P3, S3. split; [by eapply spine_allocated|].
      rewrite decide_False; [done|]. apply elem_of_cons in Hx as [->|Hx]; [done|by apply Hne].
    + intros x Hx Hxc. rewrite C3. by rewrite decide_False by congruence.
  - unfold h3. rewrite (proj1 (push_back_keeps _ _ _ _)). apply Hap.
  - intros x Hx. unfold h3. rewrite (proj1 (push_back_keeps _ _ _ _)), Ht2 by done. apply K1.
Qed.

(** The path after [seq(type, skip)] *)
Lemma make_seq_goes m ts type skip t p r : cursor m ts ->
  (exists g r0, grouped ts = g :: r0 /\ seq_path skip g r0 = t :: p :: r) ->
  exists m', make_seq m type skip = Returns m'
    /\ goes m m' (if token_eqb p type then p :: r else type :: p :: r).
Proof.
  intros Hc (g & r0 & Hg & Hpath). unfold make_seq.
  destruct (ensure_group_goes m ts Hc) as (m0 & E0 & H0). rewrite E0. cbn [mbind outcome_bind].
  rewrite Hg in H0. pose proof (cursor_size m0 _ (proj1 H0)) as Hsize. cbn in Hsize.
  destruct (seq_loop_goes (size (heap_of m0)) m0 skip g r0 (proj1 H0)) as (m1 & E1 & H1);
    [lia|rewrite Hpath; cbn; lia|].
  unfold depth_fuel. rewrite E1. cbn [mbind outcome_bind]. rewrite Hpath in H1.
  destruct (extend_node_goes m1 _ (proj1 H1)) as (m2 & E2 & H2 & _). rewrite E2. cbn [mbind outcome_bind].
  assert (Hm2 : goes m m2 (t :: p :: r)) by (eapply goes_trans; [exact H0|]; by eapply goes_trans).
  pose proof (proj1 Hm2) as Hc2.
  destruct (cursor_parent m2 t p r Hc2) as (n & q & Hn & Hq & Hty & Hlast & H3).
  assert (Ep : this_parent m2 = Returns q) by (unfold this_parent, this_node; rewrite Hn; cbn; by rewrite Hq).
  rewrite Ep. cbn [mbind outcome_bind]. rewrite Hty.
  destruct (token_eqb p type); [exists (with_node (Some q) m2); split; [done|by eapply goes_trans]|].
  destruct Hc2 as (Hok & Hmatch & n' & l & Hn' & Hs & Hl & E). rewrite Hn in Hn'. injection Hn' as <-.
  destruct (spine_head _ _ _ Hs) as [l' ->]. cbn in E. injection E as -> E.
  destruct (cursor_match m2 _ 0 (proj1 Hm2)) as [loc Eloc].
  pose proof (fun loc => seq_wrap (heap_of m2) q n l' type loc Hok Hs Hlast Hq) as Hw. cbv zeta in Hw.
  destruct (pop_back_spec (heap_of m2) q n Hok Hlast) as (Hpop & _).
  destruct (pop_back (heap_of m2) q) as [group h1]. cbn [fst snd] in Hpop, Hw. subst group.
  cbn [or_undefined mbind outcome_bind]. rewrite Eloc. cbn [mbind outcome_bind].
  specialize (Hw (location_mul loc (location_of h1 n))).
  destruct (create h1 type (location_mul loc (location_of h1 n))) as [c h2]. cbn [fst snd] in Hw.
  destruct Hw as (Ok3 & Hs3 & Hty3 & Htys). eexists. split; [done|].
  split; [|destruct Hm2 as [_ M]; split; apply M]. split; [done|]. split; [done|].
  exists c, (c :: l'). split_and!; [done|done| |].
  - destruct l' as [|x l']; [done|]. cbn [last] in Hl |- *. done.
  - cbn. f_equal; [done|]. rewrite E. apply list_fmap_ext. intros i x Hx. symmetry. apply Htys.
    by eapply list_elem_of_lookup_2.
Qed.

(** * [done] *)

(** No [Group] is right above another one, and the root is none. *)
Fixpoint closable (ts : list Token) : bool :=
  match ts with
  | [] => true
  | [t] => negb (token_eqb t Group)
  | t :: (p :: _) as r => negb (token_eqb t Group && token_eqb p Group) && closable r
  end.

Lemma closable_ungrouped ts : closable ts = true -> closable (ungrouped ts) = true.
Proof.
  destruct ts as [|t [|p r]]; [done| |]; cbn [ungrouped].
  - intros H. destruct (token_eqb t Group) eqn:E; [done|exact H].
  - intros H. destruct (token_eqb t Group); [|done]. cbn [closable] in H.
    by apply andb_true_iff in H as [_ H].
Qed.

Lemma last_ungrouped ts : closable ts = true -> last (ungrouped ts) = last ts.
Proof.
  destruct ts as [|t [|p r]]; [done| |]; cbn [ungrouped]; intros H.
  - cbn in H. by destruct (token_eqb t Group).
  - by destruct (token_eqb t Group).
Qed.

Lemma closable_root ts : closable ts = true -> forall t, ts = [t] -> token_eqb t Group = false.
Proof. intros H t ->. cbn in H. by apply negb_true_iff. Qed.

Lemma done_loop_goes fuel m ts : cursor m ts -> closable ts = true ->
  (forall t r, ts = t :: r -> token_eqb t Group = false) -> (length ts <= fuel)%nat ->
  exists m' t, done_loop fuel m = Returns m' /\ goes m m' [t] /\ last ts = Some t.
Proof.
  revert m ts. induction fuel as [|fuel IH]; intros m ts Hc Hcl Hhd Hf.
  { destruct (cursor_cons m ts Hc) as (t & r & ->). cbn in Hf. lia. }
  destruct (cursor_cons m ts Hc) as (t & r & ->). cbn [done_loop].
  destruct (cursor_node m _ Hc) as (n & En & Hn). rewrite En. cbn [mbind outcome_bind].
  destruct r as [|p r].
  - assert (Hp : parent_of (heap_of m) n = None).
    { destruct Hc as (_ & _ & n' & l & Hn' & Hs & _ & E). unfold this_node in En. rewrite Hn' in En.
      injection En as ->. destruct Hs as [n Hs Hp|n q l Hp Hlast Hs]; [done|].
      destruct (spine_head _ _ _ Hs) as [l' ->]. done. }
    rewrite Hp. exists m, t. split_and!; [done|by apply cursor_goes|done].
  - destruct (cursor_parent m t p r Hc) as (n' & q & Hn' & Hq & _).
    assert (n' = n) as -> by (unfold this_node in En; rewrite Hn' in En; by injection En).
    rewrite Hq. pose proof (error_appended m _ n (location_of (heap_of m) n) (bytes "this is unclosed") Hc En) as H0.
    destruct (make_error m (location_of (heap_of m) n) (bytes "this is unclosed")) as [e m1].
    set (m2 := with_heap (push_back (heap_of m1) n (Some e)) m1) in *.
    destruct (term_goes m2 _ (proj1 H0) (closable_root _ Hcl)) as (m3 & E3 & H3). rewrite E3.
    cbn [mbind outcome_bind]. unfold ungrouped in H3. rewrite (Hhd t (p :: r) eq_refl) in H3.
    destruct (cursor_parent m3 t p r (proj1 H3)) as (n3 & q3 & Hn3 & Hq3 & _ & _ & H4).
    unfold this_node. rewrite Hn3. cbn [or_undefined mbind outcome_bind]. rewrite Hq3.
    assert (Hcl' : closable (p :: r) = true) by (cbn [closable] in Hcl; by apply andb_true_iff in Hcl as [_ ?]).
    destruct (term_goes (with_node (Some q3) m3) _ (proj1 H4) (closable_root _ Hcl')) as (m5 & E5 & H5).
    rewrite E5. cbn [mbind outcome_bind].
    destruct (IH m5 _ (proj1 H5)) as (m6 & t6 & E6 & H6 & Hlast).
    + by apply closable_ungrouped.
    + unfold ungrouped. intros t' r' Ht'. destruct (token_eqb p Group) eqn:Ep; [|by injection Ht' as <- _].
      destruct r as [|p' r]; [done|]. injection Ht' as <- _. cbn [closable] in Hcl'.
      rewrite Ep in Hcl'. by destruct (token_eqb p' Group).
    + unfold ungrouped. cbn in Hf |- *. destruct (token_eqb p Group); cbn; lia.
    + exists m6, t6. split_and!; [done| |].
      * eapply goes_trans; [exact H0|]. eapply goes_trans; [exact H3|].
        eapply goes_trans; [exact H4|]. by eapply goes_trans.
      * rewrite <-Hlast, last_ungrouped by done. done.
Qed.

(** [done] closes everything and returns the root. *)
Lemma make_done_goes m ts : cursor m ts -> closable ts = true ->
  exists w, make_done m = Returns (make_top m, w) /\ ast_ok (store w) /\ shared w = shared (world m)
    /\ is_Some (store w !! make_top m) /\ parent_of (store w) (make_top m) = None
    /\ last ts = Some (type_of (store w) (make_top m)).
Proof.
  intros Hc Hcl. unfold make_done.
  destruct (term_goes m ts Hc (closable_root ts Hcl)) as (m1 & E1 & H1). rewrite E1. cbn [mbind outcome_bind].
  pose proof (cursor_size m1 _ (proj1 H1)) as Hsize.
  destruct (done_loop_goes (depth_fuel (heap_of m1)) m1 _ (proj1 H1)) as (m2 & t2 & E2 & H2 & Hlt).
  - by apply closable_ungrouped.
  - intros t r Htr. destruct ts as [|t0 [|p0 r0]]; [done| |].
    + cbn [ungrouped] in Htr. cbn in Hcl. destruct (token_eqb t0 Group) eqn:E; [done|]. by injection Htr as <- _.
    + cbn [ungrouped] in Htr. destruct (token_eqb t0 Group) eqn:E; [|by injection Htr as <- _].
      injection Htr as <- _. cbn [closable] in Hcl. rewrite E in Hcl. by destruct (token_eqb p0 Group).
  - unfold depth_fuel. lia.
  - rewrite E2. cbn [mbind outcome_bind].
    assert (H : goes m m2 [t2]) by by eapply goes_trans. destruct H as [(Hok & _ & n & l & Hn & Hs & Hl & E) M].
    assert (Htop : node m2 = Some (make_top m2)).
    { destruct l as [|x [|y l]]; [done| |done]. cbn in Hl. destruct (spine_head _ _ _ Hs) as [l' [= -> _]].
      congruence. }
    rewrite bool_decide_true by done. exists (world m2). rewrite (mv_top _ _ M).
    rewrite Hn in Htop. injection Htop as ->. rewrite <-(mv_top _ _ M).
    split_and!; [done|apply Hok|apply M| | |].
    + destruct (spine_head _ _ _ Hs) as [l' ->]. eapply spine_allocated; [exact Hs|left].
    + destruct Hs as [? ? ?|x q l' ? ? Hs]; [done|]. by destruct (spine_head _ _ _ Hs) as [l0 ->].
    + rewrite <-(last_ungrouped ts Hcl), Hlt. destruct (spine_head _ _ _ Hs) as [l' ->].
      cbn in E. injection E as -> _. done.
Qed.
End MakeFacts.
