(* ===== verification/ParseFacts.v ===== *)
(** What parsing a source is: the rules of the mode are tried on the rest of the source, the
    effect of the first one that matches runs, and so on to the end. *)
From S2P Require Import Prelude.
From S2P Require Import Token.
From S2P Require Import Source.
From S2P Require Import RegexSyntax.
From S2P Require Import Closure.
From S2P Require Import Engine.
From S2P Require Import RegexCorrect.
From S2P Require Import TRegex.
From S2P Require Import TokenLayer.
From S2P Require Import TokenLayerFacts.
From S2P Require Import Ast.
From S2P Require Import AstInvariant.
From S2P Require Import Cursor.
From S2P Require Import Parse.
From S2P Require Import MakeFacts.
From stdpp Require Export gmap.
Open Scope Z_scope.

Section ParseFacts.
Context {U : Type} {fs : FileSystem}.
Implicit Types (p : Parse U fs) (m : Make U).

(** The rule sets are those of the rules. *)
Definition sets_ok p : Prop :=
  forall mode rules, rules_ p !! mode = Some rules ->
    rule_sets_ p !! mode = Some (new_regex_set (rule_regex <$> rules)).

Lemma new_parse_sets d wf : sets_ok (new_parse_wf (fs := fs) d wf).
Proof. intros mode rules H. cbn in H. by rewrite lookup_empty in H. Qed.

Lemma add_rules_sets p mode r : sets_ok p -> sets_ok (add_rules p mode r).
Proof.
  intros Hp mode' rules. unfold add_rules. cbn [rules_ rule_sets_].
  destruct (decide (mode = mode')) as [->|Hne]; [rewrite !lookup_insert_eq; by intros [= <-]|].
  rewrite !lookup_insert_ne by done. apply Hp.
Qed.

(** One turn over a source: a rule of the mode with its longest match and its effect, or one
    byte that no rule matches.  [start] is the position of the turn. *)
Inductive lex_step p (src : SourceDef) : Make U -> Make U -> Prop :=
  | lex_rule m rm rules i n rule m' :
      let start := pos_ (re_iterator m) in
      rules_ p !! mode_ m = Some rules -> rules !! i = Some rule ->
      rule_longest (rule_regex rule) (rest_at src start) (Some n) ->
      (not_overlong (rest_at src start) ->
         first_rule (rule_regex <$> rules) (rest_at src start) (Some (i, n))) ->
      match_ok rm -> match_at rm 0 = Returns (mkLocation (Some src) start (Z.of_nat n)) ->
      (forall k t, match_at rm k = Returns t -> token_location (Some src) start n t) ->
      effect rule (with_regex rm (mkIterator src (start + Z.of_nat n)) m) = Returns m' ->
      lex_step p src m m'
  | lex_skip m rm rules m' :
      let start := pos_ (re_iterator m) in
      rules_ p !! mode_ m = Some rules ->
      (not_overlong (rest_at src start) ->
         first_rule (rule_regex <$> rules) (rest_at src start) None) ->
      match_ok rm -> invalid (with_regex rm (re_iterator m) m) = Returns m' ->
      lex_step p src m (with_regex (re_match m') (mkIterator src (start + 1)) m').

(** What the rules and effects of a grammar promise: an invariant that the loop's own changes
    and every effect keep, under which effects return, touch neither the match nor the
    iterator, and go on to modes that have rules; and at the end of the source the tree can
    be closed. *)
Record grammar_ok p (Inv : Make U -> Prop) : Prop := {
  gr_cursor m : Inv m -> exists ts, cursor m ts;
  gr_regex m rm it : Inv m -> match_ok rm -> Inv (with_regex rm it m);
  gr_mode m : Inv m -> is_Some (rules_ p !! mode_ m);
  gr_invalid m : Inv m -> exists m', invalid m = Returns m' /\ Inv m' /\ mode_ m' = mode_ m
    /\ re_iterator m' = re_iterator m;
  gr_effect mode rules rule m : rules_ p !! mode = Some rules -> rule ∈ rules -> Inv m ->
    exists m', effect rule m = Returns m' /\ Inv m' /\ re_iterator m' = re_iterator m;
  gr_done m : Inv m -> exists m' ts,
    match done_ p with Some f => f m | None => Returns m end = Returns m'
    /\ cursor m' ts /\ closable ts = true
}.

(** The rules of every mode can be matched, and none matches the empty string. *)
Definition rules_consume p (size : nat) : Prop :=
  forall mode rules, rules_ p !! mode = Some rules ->
    rules_ok (rule_regex <$> rules) size
    /\ Forall (fun r => can_match_empty (regex_first_char_info (rule_regex r)) = false) rules.

Lemma consuming_match r view n : made r -> Forall is_byte view -> rule_longest r view (Some n) ->
  can_match_empty (regex_first_char_info r) = false -> (0 < n)%nat.
Proof.
  intros (self & pattern & ->) Hb. unfold rule_longest, regex_ok, regex_first_char_info.
  cbn [engine_ pattern_ new_regex]. destruct (ok (new_engine pattern Extended)) eqn:Hok; [|done].
  cbn [negb]. intros Hl He. destruct n as [|n]; [|lia].
  rewrite (empty_longest pattern Extended view true false Hok Hb Hl) in He. done.
Qed.

Section Loop.
Context (p : Parse U fs) (Inv : Make U -> Prop) (src : SourceDef).
Context (Hsets : sets_ok p) (Hgr : grammar_ok p Inv).
Context (Hrules : rules_consume p (length (contents src))).
Context (Hbytes : Forall is_byte (contents src)).

(** The state of the loop between two turns *)
Definition loop_ok (mode : list Z) (rules : list (Rule U)) (set : TRegexSet) m : Prop :=
  mode = mode_ m /\ rules_ p !! mode = Some rules /\ set = new_regex_set (rule_regex <$> rules)
  /\ Inv m /\ it_source (re_iterator m) = src /\ iterator_ok (re_iterator m).

Lemma parse_turn_step mode rules set m : loop_ok mode rules set m ->
  pos_ (re_iterator m) < source_size src ->
  exists mode' rules' set' m', parse_turn p mode rules set m = Returns (mode', rules', set', m')
    /\ loop_ok mode' rules' set' m' /\ lex_step p src m m'
    /\ pos_ (re_iterator m) < pos_ (re_iterator m').
Proof.
  intros (-> & Hmode & -> & Hinv & Hsrc & Hit) Hpos. unfold parse_turn.
  destruct (Hrules _ _ Hmode) as [Hro Hne]. pose proof Hsrc as Hsrc'.
  assert (Hrest : rest_at (it_source (re_iterator m)) (pos_ (re_iterator m)) <> []).
  { intros E. pose proof (length_rest _ Hit) as Hl. rewrite E, Hsrc in Hl. cbn in Hl. lia. }
  destruct (gr_cursor _ _ Hgr m Hinv) as (ts & _ & Hmatch & _).
  destruct (consume_first_match_spec (rule_regex <$> rules) (re_iterator m) (re_match m)) as (res & rm & it & E & Hrm & Hfirst & Hres);
    [by rewrite Hsrc|by rewrite Hsrc|done..|].
  rewrite E. cbn [mbind outcome_bind]. rewrite Hsrc in Hres, Hfirst.
  destruct res as [[i n]|]; cbn [fmap option_fmap option_map fst].
  - destruct Hres as ((r & Hr & Hrn) & Hn & Hat & Hall & -> & Hit').
    apply list_lookup_fmap_Some in Hr as (rule & -> & Hrule).
    pose proof (list_elem_of_lookup_2 _ _ _ Hrule) as Hin.
    assert (H0 : (0 < n)%nat).
    { eapply (consuming_match (rule_regex rule)); [|by apply (Forall_drop _ (Z.to_nat (pos_ (re_iterator m))))|exact Hrn|].
      - eapply (Forall_lookup_1 _ _ i); [exact (rules_made _ _ Hro)|]. by rewrite list_lookup_fmap, Hrule.
      - exact (proj1 (Forall_forall _ _) Hne rule Hin). }
    rewrite Hrule. cbn [or_undefined mbind outcome_bind].
    destruct (gr_effect _ _ Hgr _ _ rule _ Hmode Hin (gr_regex _ _ Hgr m rm (mkIterator src (pos_ (re_iterator m) + Z.of_nat n)) Hinv Hrm))
      as (m' & Eeff & Hinv' & Hit2).
    rewrite Eeff. cbn [mbind outcome_bind].
    assert (Hstep : lex_step p src m m') by by eapply lex_rule.
    assert (Hpos' : pos_ (re_iterator m) < pos_ (re_iterator m')) by (rewrite Hit2; cbn; lia).
    assert (Hrest' : Inv m' /\ it_source (re_iterator m') = src /\ iterator_ok (re_iterator m'))
      by (rewrite Hit2; by split_and!).
    case_bool_decide as Hm.
    + exists (mode_ m), rules, (new_regex_set (rule_regex <$> rules)), m'. split_and!; [done| |done|done].
      split_and!; [done|done|done|apply Hrest'..].
    + destruct (gr_mode _ _ Hgr m' Hinv') as [rules' Hr']. rewrite Hr'. rewrite (Hsets _ _ Hr').
      cbn [or_undefined mbind outcome_bind]. exists (mode_ m'), rules', (new_regex_set (rule_regex <$> rules')), m'.
      split_and!; [done| |done|done]. split_and!; [done|done|done|apply Hrest'..].
  - subst it. destruct (gr_invalid _ _ Hgr _ (gr_regex _ _ Hgr m rm (re_iterator m) Hinv Hrm))
      as (m' & Einv & Hinv' & Hmode' & Hit').
    rewrite Einv. cbn [mbind outcome_bind].
    change (re_iterator (with_regex rm (re_iterator m) m)) with (re_iterator m) in Hit'.
    rewrite Hit'. destruct (skip_ok (re_iterator m) Hit ltac:(by rewrite Hsrc)) as [Eskip Hskip].
    destruct (gr_cursor _ _ Hgr m' Hinv') as (ts' & _ & Hmatch' & _).
    exists (mode_ m), rules, (new_regex_set (rule_regex <$> rules)), (with_regex (re_match m') (skip (re_iterator m) 1) m').
    split_and!; [done| | |].
    + split_and!; [by symmetry|done|done|by apply (gr_regex _ _ Hgr)|by rewrite Eskip|done].
    + rewrite Eskip, Hsrc. by apply (lex_skip p src m rm rules m').
    + rewrite Eskip. cbn. lia.
Qed.

Lemma parse_loop_steps fuel mode rules set m : loop_ok mode rules set m ->
  source_size src - pos_ (re_iterator m) <= Z.of_nat fuel ->
  exists m', parse_loop fuel p mode rules set m = Returns m' /\ Inv m'
    /\ rtc (lex_step p src) m m'
    /\ (pos_ (re_iterator m') = source_size src \/ max_errors_ p <= error_count_ m').
Proof.
  revert mode rules set m. induction fuel as [|fuel IH]; intros mode rules set m Hl Hf;
    pose proof Hl as (_ & _ & _ & Hinv & Hsrc & Hit); cbn [parse_loop]; unfold iterator_empty; rewrite Hsrc.
  - pose proof (it_pos _ Hit) as Hp. rewrite Hsrc in Hp.
    rewrite (proj2 (Z.leb_le _ _)) by lia. cbn [negb andb].
    exists m. split_and!; [done..|]. left. lia.
  - destruct (Z.leb_spec (source_size src) (pos_ (re_iterator m))) as [Hge|Hlt]; cbn [negb andb].
    { exists m. split_and!; [done..|]. left. pose proof (it_pos _ Hit) as Hp. rewrite Hsrc in Hp. lia. }
    destruct (Z.ltb_spec (error_count_ m) (max_errors_ p)) as [He|He].
    2: { exists m. split_and!; [done..|]. by right. }
    destruct (parse_turn_step mode rules set m Hl Hlt) as (mode' & rules' & set' & m' & E & Hl' & Hs & Hp).
    rewrite E. cbn [mbind outcome_bind]. destruct (IH mode' rules' set' m' Hl') as (m2 & E2 & Hi & Hr & Hend); [lia|].
    exists m2. split_and!; [done..| |done]. by eapply rtc_l.
Qed.
End Loop.

Lemma new_make_cursor w token src : ast_ok (store w) -> cursor (new_make w token src : Make U) [token].
Proof.
  intros Hok. unfold new_make.
  destruct (create_spec (store w) token (mkLocation (Some src) 0 (source_size src)) Hok)
    as (H1 & _ & H3 & H4 & _ & H6 & _).
  destruct (create (store w) token _) as [n h]. cbn [fst snd] in *.
  split; [exact H1|]. split; [apply new_regex_match_ok|]. exists n, [n].
  split_and!; [done|by constructor|done|]. cbn. by rewrite H3.
Qed.

Lemma new_make_iterator w token src mode : source_size src < 2 ^ 63 ->
  let m := set_mode (new_make w token src : Make U) mode in
  it_source (re_iterator m) = src /\ iterator_ok (re_iterator m) /\ pos_ (re_iterator m) = 0.
Proof.
  intros Hs. unfold new_make. destruct (create (store w) token _) as [n h]. cbn.
  split_and!; [done| |done]. split; cbn; [unfold source_size; lia|done].
Qed.
Lemma parse_source_steps p (Inv : Make U -> Prop) src w token fuel :
  sets_ok p -> grammar_ok p Inv -> rules_consume p (length (contents src)) ->
  Forall is_byte (contents src) -> source_size src < 2 ^ 63 ->
  Inv (set_mode (new_make w token src) start_mode) -> source_size src <= Z.of_nat fuel ->
  exists m m' w',
    rtc (lex_step p src) (set_mode (new_make w token src) start_mode) m
    /\ (pos_ (re_iterator m) = source_size src \/ max_errors_ p <= error_count_ m)
    /\ Inv m
    /\ match done_ p with Some f => f m | None => Returns m end = Returns m'
    /\ make_done m' = Returns (make_top m', w') /\ ast_ok (store w')
    /\ shared w' = shared (world m')
    /\ is_Some (store w' !! make_top m') /\ parent_of (store w') (make_top m') = None
    /\ (exists ts, cursor m' ts /\ last ts = Some (type_of (store w') (make_top m')))
    /\ parse_source fuel p token (Some src) w = Returns (Some (make_top m'), w').
Proof.
  intros Hsets Hgr Hrules Hbytes Hsize Hinv Hfuel.
  destruct (new_make_iterator w token src start_mode Hsize) as (Hsrc & Hit & Hpos).
  set (m0 := set_mode (new_make w token src) start_mode) in *.
  assert (Hmode : mode_ m0 = start_mode) by done.
  destruct (gr_mode _ _ Hgr m0 Hinv) as [rules Hr]. rewrite Hmode in Hr.
  destruct (parse_loop_steps p Inv src Hsets Hgr Hrules Hbytes fuel start_mode rules
    (new_regex_set (rule_regex <$> rules)) m0) as (m & E & Hi & Hsteps & Hend); [by split_and!|lia|].
  destruct (gr_done _ _ Hgr m Hi) as (m' & ts & Ed & Hc & Hcl).
  destruct (make_done_goes m' ts Hc Hcl) as (w' & Em & Hok & Hsh & Hal & Hp & Hl).
  exists m, m', w'. split_and!; [done..|by exists ts|].
  unfold parse_source. rewrite Hr, (Hsets _ _ Hr). cbn [or_undefined mbind outcome_bind]. fold m0.
  rewrite E. cbn [mbind outcome_bind]. rewrite Ed. cbn [mbind outcome_bind]. by rewrite Em.
Qed.

(** The tree under a [Top] *)
Lemma under_top_ok p pth n w : postparse_ p = None -> ast_ok (store w) ->
  is_Some (store w !! n) -> parent_of (store w) n = None ->
  exists t w', under_top p pth (Some n) w = Returns (t, w') /\ ast_ok (store w') /\ shared w' = shared w
    /\ type_of (store w') t = Token.Top /\ children_of (store w') t = [n]
    /\ type_of (store w') n = type_of (store w) n.
Proof.
  intros Hpost Hok Hn Hp. unfold under_top, create_token, run_post. rewrite Hpost.
  destruct (create_spec (store w) Token.Top null_location Hok) as (H1 & H2 & H3 & H4 & H5 & H6 & _ & H7).
  destruct (create (store w) Token.Top null_location) as [t h]. cbn [fst snd] in *.
  assert (Hne : n <> t) by (intros ->; destruct Hn; congruence). destruct (H7 n Hne) as (Kt & Kp & _ & Ks & _).
  assert (Ha : attachable h t [n]).
  { split; [done|]. split; [apply NoDup_singleton|]. intros x ->%list_elem_of_singleton.
    split_and!; [by apply Ks|by rewrite Kp|]. intros Ha. inversion Ha; congruence. }
  destruct (push_back_spec h t n H1 Ha) as (Ok' & _ & C' & _).
  eexists t, _. split; [done|]. cbn [store shared]. split_and!; [done|done| | |].
  - by rewrite (proj1 (push_back_keeps _ _ _ _)).
  - by rewrite C', decide_True, H5.
  - by rewrite (proj1 (push_back_keeps _ _ _ _)).
Qed.
End ParseFacts.

(** C6: parsing a source always ends and returns a tree, when the rules never match the empty
    string and the effects keep an invariant: the state it ends in is reached by turns that each
    run the effect of the first rule of the current mode that matches the rest of the source,
    over its longest match, or turn one byte into an error when no rule matches; the turns stop
    at the end of the source or at the error limit, then [done] closes what is open. *)
Theorem parse_source_correct {U : Type} {fs : FileSystem} (p : Parse U fs) (Inv : Make U -> Prop)
    (src : SourceDef) (w : World U) (token : Token) (fuel : nat)
    (Hsets : sets_ok p) (Hgr : grammar_ok p Inv)
    (Hrules : rules_consume p (length (contents src)))
    (Hbytes : Forall is_byte (contents src)) (Hsize : source_size src < 2 ^ 63)
    (Hinv : Inv (set_mode (new_make w token src) start_mode))
    (Hfuel : source_size src <= Z.of_nat fuel) :
  exists m m' w',
    rtc (lex_step p src) (set_mode (new_make w token src) start_mode) m
    /\ (pos_ (re_iterator m) = source_size src \/ max_errors_ p <= error_count_ m)
    /\ match done_ p with Some f => f m | None => Returns m end = Returns m'
    /\ make_done m' = Returns (make_top m', w') /\ ast_ok (store w')
    /\ parse_source fuel p token (Some src) w = Returns (Some (make_top m'), w').
Proof.
  destruct (parse_source_steps p Inv src w token fuel Hsets Hgr Hrules Hbytes Hsize Hinv Hfuel)
    as (m & m' & w' & H1 & H2 & _ & H3 & H4 & H5 & _ & _ & _ & _ & H6).
  by exists m, m', w'.
Qed.
