(* ===== verification/JsonParse.v ===== *)
(** The tokens of the JSON parser and its tokenizer ([parsers/include/trieste/json.h],
    [parsers/json/internal.h], [parsers/json/parse.cc]): a client of [Parse] whose effects
    share a stack of open brackets. *)
From S2P Require Import Prelude.
From S2P Require Import Token.
From S2P Require Import Source.
From S2P Require Import Closure.
From S2P Require Import Engine.
From S2P Require Import CaptureSpec.
From S2P Require Import RegexTheorems.
From S2P Require Import TRegex.
From S2P Require Import TokenLayer.
From S2P Require Import TokenLayerFacts.
From S2P Require Import Ast.
From S2P Require Import AstInvariant.
From S2P Require Import Wellformed.
From S2P Require Import WfOps.
From S2P Require Import Cursor.
From S2P Require Import Parse.
From S2P Require Import MakeFacts.
From S2P Require Import ParseFacts.
From stdpp Require Export gmap.
Open Scope Z_scope.

(** * Tokens *)

(** The definitions that follow the built-in ones. *)
Definition json_token (k : Z) (n : string) (f : Z) : Token := builtin (13 + k) n f.

Definition Value := json_token 0 "json-value" 0.
Definition Object := json_token 1 "json-object" flag_symtab.
Definition Array := json_token 2 "json-array" 0.
Definition JString := json_token 3 "json-string" flag_print.
Definition Number := json_token 4 "json-number" flag_print.
Definition JTrue := json_token 5 "json-true" 0.
Definition JFalse := json_token 6 "json-false" 0.
Definition Null := json_token 7 "json-null" 0.
Definition Member := json_token 8 "json-member" flag_lookdown.
Definition ErrorSeq := json_token 9 "json-errorseq" 0.
Definition Key := json_token 10 "json-key" flag_print.
Definition ArrayGroup := json_token 11 "json-array-group" 0.
Definition ObjectGroup := json_token 12 "json-object-group" 0.
Definition Comma := json_token 13 "json-comma" 0.
Definition Colon := json_token 14 "json-colon" 0.
Definition Lhs := json_token 15 "json-lhs" 0.
Definition Rhs := json_token 16 "json-rhs" 0.

(** * The tokenizer *)

(** The vector the effects share; its back is the head of the list. *)
Definition Stack := list Z.
Definition open_brace : Z := 123.
Definition open_bracket : Z := 91.

Definition stack_of (m : Make Stack) : Stack := shared (world m).
Definition push_stack (c : Z) (m : Make Stack) : Make Stack := with_shared (c :: stack_of m) m.
Definition pop_stack (m : Make Stack) : Make Stack := with_shared (tail (stack_of m)) m.

(** [m.add(type)] as an effect *)
Definition adds (type : Token) (m : Make Stack) : outcome (Make Stack) := add m type 0.

(** The effects of the opening and of the closing brackets *)
Definition opens (type : Token) (c : Z) (m : Make Stack) : outcome (Make Stack) :=
  m ← push m type 0;
  m ← push m Group 0;
  Returns (push_stack c m).
Definition closes (type : Token) (c : Z) (msg : list Z) (m : Make Stack) : outcome (Make Stack) :=
  if negb (bool_decide (head (stack_of m) = Some c)) then make_error_match m msg 0
  else
    m ← term (pop_stack m) [];
    pop m type.

(** A raw string, with the double quotes written as single ones *)
Definition raw (s : string) : list Z := map (fun c => if c =? 39 then 34 else c) (bytes s).

Definition number_regex : list Z := raw "-?(?:0|[1-9][0-9]*)(?:\.[0-9]+)?(?:[eE][-+]?[0-9]+)?".
Definition string_regex : list Z :=
  raw "'(?:[^'\\\x00-\x1F]+|\\['\\\/bfnrt]|\\u[[:xdigit:]]{4})*'".

(** The rules of [json::parser]; the regular expressions are at addresses of their own. *)
Definition json_rules : list (Rule Stack) :=
  [mkRule (new_regex 1 ([91; 32; 13; 10; 9] ++ bytes "]+")) (fun m => Returns m);
   mkRule (new_regex 2 (bytes ":")) (adds Colon);
   mkRule (new_regex 3 (bytes ",")) (adds Comma);
   mkRule (new_regex 4 (bytes "{")) (opens Object open_brace);
   mkRule (new_regex 5 (bytes "}")) (closes Object open_brace (bytes "Mismatched braces"));
   mkRule (new_regex 6 (bytes "\[")) (opens Array open_bracket);
   mkRule (new_regex 7 (bytes "]")) (closes Array open_bracket (bytes "Mismatched brackets"));
   mkRule (new_regex 8 (bytes "true")) (adds JTrue);
   mkRule (new_regex 9 (bytes "false")) (adds JFalse);
   mkRule (new_regex 10 (bytes "null")) (adds Null);
   mkRule (new_regex 11 number_regex) (adds Number);
   mkRule (new_regex 12 string_regex) (adds JString);
   mkRule (new_regex 13 (bytes ".")) (fun m => make_error_match m (bytes "Invalid character") 0)].

(** The effect at the end of the source *)
Definition json_done (m : Make Stack) : outcome (Make Stack) :=
  m ← match stack_of m with
      | [] => Returns m
      | _ => make_error_match m (bytes "Mismatched braces or brackets") 0
      end;
  Returns (with_shared [] m).

(** [wf_parse_tokens], [wf_parse] *)
Definition wf_parse_tokens : Choice :=
  choice_or_token (choice_or_token (choice_or_token (choice_or_token (choice_or_token
    (choice_or_token (choice_or_token (token_or_token Object Array) JString) Number) JTrue) JFalse)
    Null) Comma) Colon.
Definition wf_parse_shapes : outcome Wellformed :=
  top ← shape_token Token.Top File;
  value ← shape_token Value Group;
  array ← shape_token Array Group;
  object ← shape_token Object Group;
  member ← shape_token Member Group;
  let wf := shape_or_shape top (shape_sequence File (token_tilde Group)) in
  let wf := wf_moved_or_shape wf value in
  let wf := wf_moved_or_shape wf array in
  let wf := wf_moved_or_shape wf object in
  let wf := wf_moved_or_shape wf member in
  Returns (wf_moved_or_shape wf (shape_sequence Group (choice_plus wf_parse_tokens))).
Definition wf_parse : Wellformed :=
  match wf_parse_shapes with Returns wf => wf | _ => empty_wf end.

(** [json::parser] *)
Definition json_parser {fs : FileSystem} : Parse Stack fs :=
  set_done (add_rules (new_parse_wf depth_file wf_parse) start_mode json_rules) json_done.

(** * The stack is the path *)

(** The path to a group inside the open brackets, from the innermost out. *)
Fixpoint base (st : Stack) : list Token :=
  match st with
  | [] => [File]
  | c :: st => (if c =? open_brace then Object else Array) :: Group :: base st
  end.

(** The cursor is in a group inside the brackets of the stack, or nothing was read. *)
Definition json_path (st : Stack) (ts : list Token) : Prop :=
  ts = Group :: base st \/ (st = [] /\ ts = [File]).
Definition json_inv (m : Make Stack) : Prop :=
  mode_ m = start_mode /\ exists ts, cursor m ts /\ json_path (stack_of m) ts.

Lemma base_closable st : closable (Group :: base st) = true.
Proof.
  induction st as [|c st IH]; [done|].
  change (closable (Group :: base (c :: st))) with
    (negb (token_eqb Group Group && token_eqb (if c =? open_brace then Object else Array) Group)
     && (negb (token_eqb (if c =? open_brace then Object else Array) Group && token_eqb Group Group)
         && closable (Group :: base st))).
  rewrite IH. by destruct (c =? open_brace).
Qed.

Lemma path_grouped st ts : json_path st ts -> grouped ts = Group :: base st.
Proof. by intros [->|[-> ->]]. Qed.

Lemma path_closable st ts : json_path st ts -> closable ts = true.
Proof. intros [->|[-> ->]]; [apply base_closable|done]. Qed.

(** What an effect must keep *)
Definition json_keeps (f : Make Stack -> outcome (Make Stack)) : Prop :=
  forall m, json_inv m ->
    exists m', f m = Returns m' /\ json_inv m' /\ re_iterator m' = re_iterator m.

Lemma goes_inv m m' ts : json_inv m -> goes m m' ts -> json_path (stack_of m) ts ->
  json_inv m' /\ re_iterator m' = re_iterator m.
Proof.
  intros [Hmode _] [Hc M] Hp. split; [|apply M]. split; [by rewrite (mv_mode _ _ M)|].
  exists ts. split; [done|]. unfold stack_of. by rewrite (mv_shared _ _ M).
Qed.

Lemma grouped_keeps (f : Make Stack -> outcome (Make Stack)) : (forall m ts, cursor m ts -> exists m', f m = Returns m' /\ goes m m' (grouped ts)) ->
  json_keeps f.
Proof.
  intros Hf m Hi. pose proof Hi as (_ & ts & Hc & Hp). destruct (Hf m ts Hc) as (m' & E & H).
  exists m'. split; [done|]. eapply goes_inv; [done|exact H|]. left. by apply path_grouped.
Qed.

Lemma adds_keeps type : type <> Group -> json_keeps (adds type).
Proof.
  intros Hne. apply grouped_keeps. intros m ts Hc. destruct (add_goes m ts type 0 Hc) as (m' & E & H).
  exists m'. split; [done|]. unfold added in H. by rewrite (proj2 (token_eqb_neq _ _) Hne) in H.
Qed.

Lemma error_keeps msg : json_keeps (fun m => make_error_match m msg 0).
Proof. apply grouped_keeps. intros m ts Hc. by apply make_error_match_goes. Qed.

Lemma cursor_shared (m : Make Stack) ts u : cursor m ts -> cursor (with_shared u m) ts.
Proof. done. Qed.

Lemma opens_keeps type c : type = (if c =? open_brace then Object else Array) -> json_keeps (opens type c).
Proof.
  intros Htype m Hi. pose proof Hi as (Hmode & ts & Hc & Hp). unfold opens.
  assert (Hne : token_eqb type Group = false) by (subst type; by destruct (c =? open_brace)).
  destruct (push_goes m ts type 0 Hc) as (m1 & E1 & H1). rewrite E1. cbn [mbind outcome_bind].
  unfold added in H1. rewrite Hne, (path_grouped _ _ Hp) in H1.
  destruct (push_goes m1 _ Group 0 (proj1 H1)) as (m2 & E2 & H2). rewrite E2. cbn [mbind outcome_bind].
  assert (H12 : goes m m2 (Group :: type :: Group :: base (stack_of m))) by by eapply goes_trans.
  exists (push_stack c m2). split; [done|]. destruct H12 as [Hc2 M]. split; [|apply M].
  split; [apply (eq_trans (mv_mode _ _ M) Hmode)|].
  eexists. split; [by apply cursor_shared|]. left. unfold push_stack, stack_of. cbn.
  rewrite (mv_shared _ _ M), Htype. done.
Qed.

Lemma closes_keeps type c msg : type = (if c =? open_brace then Object else Array) ->
  json_keeps (closes type c msg).
Proof.
  intros Htype m Hi. unfold closes. case_bool_decide as Hh; cbn [negb]; [|by apply error_keeps].
  pose proof Hi as (Hmode & ts & Hc & Hp). destruct (stack_of m) as [|c' st] eqn:Est; [done|].
  injection Hh as ->. destruct Hp as [->|[? _]]; [|done]. cbn [base] in Hc. rewrite <-Htype in Hc.
  set (m0 := pop_stack m). assert (Hc0 : cursor m0 (Group :: type :: Group :: base st)) by done.
  destruct (term_goes m0 _ Hc0) as (m1 & E1 & H1); [done|]. rewrite E1. cbn [mbind outcome_bind].
  cbn [ungrouped] in H1. rewrite (proj2 (token_eqb_eq Group Group) eq_refl) in H1.
  destruct (pop_goes m1 type _ type (proj1 H1)) as (m2 & E2 & H2); [done|]. rewrite E2.
  rewrite (proj2 (token_eqb_eq type type) eq_refl) in H2.
  assert (H12 : goes m0 m2 (Group :: base st)) by by eapply goes_trans.
  destruct H12 as [Hc2 M]. exists m2. split; [done|]. split; [|exact (mv_iterator _ _ M)].
  split; [exact (eq_trans (mv_mode _ _ M) Hmode)|]. exists (Group :: base st). split; [done|]. left.
  unfold stack_of. rewrite (mv_shared _ _ M). unfold m0, pop_stack. cbn. by rewrite Est.
Qed.

Lemma json_rules_keep : Forall (fun r => json_keeps (effect r)) json_rules.
Proof.
  unfold json_rules. repeat constructor; cbn [effect];
    solve [by apply adds_keeps | by apply opens_keeps | by apply closes_keeps | apply error_keeps
          |by intros m Hm; exists m].
Qed.

Lemma json_parser_rules (fs : FileSystem) mode rules :
  rules_ (json_parser (fs := fs)) !! mode = Some rules -> mode = start_mode /\ rules = json_rules.
Proof.
  unfold json_parser, add_rules. cbn [set_done rules_ new_parse_wf].
  destruct (decide (start_mode = mode)) as [<-|Hne].
  - rewrite lookup_insert_eq. cbn. rewrite lookup_empty. by intros [= <-].
  - rewrite lookup_insert_ne by done. by rewrite lookup_empty.
Qed.

Lemma json_sets (fs : FileSystem) : sets_ok (json_parser (fs := fs)).
Proof. apply (add_rules_sets (new_parse_wf depth_file wf_parse)), new_parse_sets. Qed.

(** The rules compile, take no captures and do not match the empty string. *)
Lemma json_regexes_ok :
  forallb (fun r => regex_ok (rule_regex r) && (re_num_captures_ (rule_regex r) =? 0)%nat
             && negb (Closure.can_match_empty (regex_first_char_info (rule_regex r)))) json_rules = true.
Proof. vm_compute. reflexivity. Qed.

Lemma json_consume (fs : FileSystem) size : rules_consume (json_parser (fs := fs)) size.
Proof.
  intros mode rules [-> ->]%json_parser_rules. pose proof json_regexes_ok as H.
  rewrite forallb_forall in H. split.
  - split; [|done|].
    + unfold json_rules. cbn [fmap list_fmap rule_regex]. repeat (constructor; [by eexists _, _|]). constructor.
    + apply Forall_fmap, Forall_forall. intros r Hr _. unfold frames_suffice.
      assert (E : (re_num_captures_ (rule_regex r) =? 0)%nat = true).
      { specialize (H r ltac:(by apply list_elem_of_In)). by apply andb_true_iff in H as [[_ H]%andb_true_iff _]. }
      assert (Em : num_captures_ (engine_ (rule_regex r)) = re_num_captures_ (rule_regex r)).
      { unfold json_rules in Hr. repeat (apply elem_of_cons in Hr as [->|Hr]; [done|]). by apply elem_of_nil in Hr. }
      apply Nat.eqb_eq in E. rewrite Em, E. cbn. done.
  - apply Forall_forall. intros r Hr. specialize (H r ltac:(by apply list_elem_of_In)).
    apply andb_true_iff in H as [_ H]. by apply negb_true_iff in H.
Qed.

Lemma json_grammar (fs : FileSystem) : grammar_ok (json_parser (fs := fs)) json_inv.
Proof.
  split.
  - intros m (_ & ts & Hc & _). by exists ts.
  - intros m rm it (Hmode & ts & (Hok & _ & Hn) & Hp) Hrm. split; [done|]. exists ts. by split.
  - intros m (Hmode & _). rewrite Hmode. unfold json_parser, add_rules. cbn [set_done rules_].
    rewrite lookup_insert_eq. by eexists.
  - intros m Hi. pose proof Hi as (Hmode & ts & Hc & Hp). destruct (invalid_goes m ts Hc) as (m' & E & H).
    exists m'. split; [done|].
    assert (Hg : exists ts', goes m m' ts' /\ json_path (stack_of m) ts').
    { destruct H as [H|H]; [by exists ts|]. exists (grouped ts). split; [done|]. left. by apply path_grouped. }
    destruct Hg as (ts' & Hg & Hp'). destruct (goes_inv m m' ts' Hi Hg Hp') as [Hi' Hit].
    split_and!; [done|apply Hg|done].
  - intros mode rules rule m [-> ->]%json_parser_rules Hr Hi.
    exact (proj1 (Forall_forall _ _) json_rules_keep rule Hr m Hi).
  - intros m Hi. change (done_ (json_parser (fs := fs))) with (Some json_done). unfold json_done.
    destruct (stack_of m) eqn:Est.
    + destruct Hi as (_ & ts & Hc & Hp). exists (with_shared [] m), ts. split_and!; [done|done|].
      by eapply path_closable.
    + destruct (error_keeps (bytes "Mismatched braces or brackets") m Hi) as (m1 & E1 & (_ & ts & Hc & Hp) & _).
      rewrite E1. exists (with_shared [] m1), ts. split_and!; [done|done|]. by eapply path_closable.
Qed.

Lemma cursor_det (m : Make Stack) ts ts' : cursor m ts -> cursor m ts' -> ts = ts'.
Proof.
  intros (_ & _ & n & l & Hn & Hs & _ & ->) (_ & _ & n' & l' & Hn' & Hs' & _ & ->).
  rewrite Hn in Hn'. injection Hn' as <-. by rewrite (spine_det _ _ _ _ Hs Hs').
Qed.

Lemma path_last st ts : json_path st ts -> last ts = Some File.
Proof.
  assert (Hb : last (base st) = Some File).
  { induction st as [|c st IH]; [done|]. cbn [base]. by destruct (base st). }
  intros [->|[_ ->]]; [|done]. destruct (base st) eqn:E; [|done]. by destruct st.
Qed.

(** The effect at the end leaves the stack empty. *)
Lemma json_done_spec m m' : json_inv m -> json_done m = Returns m' ->
  shared (world m') = [] /\ forall ts, cursor m' ts -> last ts = Some File.
Proof.
  intros Hi.
  assert (Htail : forall m1, json_inv m1 -> with_shared [] m1 = m' ->
    shared (world m') = [] /\ forall ts, cursor m' ts -> last ts = Some File).
  { intros m1 (_ & ts1 & Hc1 & Hp1) <-. split; [done|]. intros ts Hc.
    rewrite (cursor_det _ ts ts1 Hc Hc1). by eapply path_last. }
  unfold json_done. destruct (stack_of m); [intros [= E]; by apply (Htail m)|].
  destruct (error_keeps (bytes "Mismatched braces or brackets") m Hi) as (m1 & E1 & H1 & _).
  rewrite E1. intros [= E]. by apply (Htail m1).
Qed.

(** C18: the JSON tokenizer handles every input: on any bytes it ends without an exception and
    without undefined behaviour, however the brackets are nested or mismatched, with a
    well-linked tree of a [File] under a [Top], and leaves the stack its effects share empty
    for the next source. *)
Theorem json_parse_total (fs : FileSystem) (src : SourceDef) (w : World Stack) (fuel : nat)
    (Hbytes : Forall is_byte (contents src)) (Hsize : source_size src < 2 ^ 63)
    (Hok : ast_ok (store w)) (Hstack : shared w = []) (Hfuel : source_size src <= Z.of_nat fuel) :
  exists n file w',
    parse fuel (json_parser (fs := fs)) (Some src) w = Returns (n, w')
    /\ ast_ok (store w') /\ shared w' = []
    /\ type_of (store w') n = Token.Top /\ children_of (store w') n = [file]
    /\ type_of (store w') file = File.
Proof.
  pose proof (new_make_cursor w File src Hok) as Hc.
  assert (Hi : json_inv (set_mode (new_make w File src) start_mode)).
  { split; [done|]. exists [File]. split; [exact Hc|]. right. split; [|done].
    unfold stack_of, new_make. destruct (create _ _ _). cbn. done. }
  destruct (parse_source_steps (json_parser (fs := fs)) json_inv src w File fuel (json_sets fs) (json_grammar fs)
    (json_consume fs _) Hbytes Hsize Hi Hfuel)
    as (m & m' & w' & _ & _ & Him & Hd & _ & Hok' & Hsh & Hal & Hp & (ts & Hcm & Hl) & Hps).
  destruct (json_done_spec m m' Him Hd) as [Hst Hlast]. rewrite (Hlast ts Hcm) in Hl. injection Hl as Hl.
  destruct (under_top_ok (json_parser (fs := fs)) None _ w' eq_refl Hok' Hal Hp) as (t & w2 & E & O2 & S2 & T2 & C2 & F2).
  exists t, (make_top m'), w2. unfold parse. cbn [or_undefined mbind outcome_bind]. rewrite Hps.
  cbn [mbind outcome_bind]. split_and!; [done|done|by rewrite S2, Hsh|done|done|by rewrite F2].
Qed.

(** A file system without files *)
Definition no_files : FileSystem :=
  mkFileSystem unit (fun _ _ => false) (fun _ => false) (fun x => x) (fun _ => false) (fun _ => false)
    (fun _ => []) (fun _ => []) (fun _ => None).
Definition empty_world : World Stack := mkWorld ∅ [] 2.
Definition sample_source : SourceDef := synthetic 1 (raw "{'a': [1, 2.5e3, tru], '\u00e9': null}}") [].

Lemma json_parse_total_witness :
  exists n file w',
    parse 60 (json_parser (fs := no_files)) (Some sample_source) empty_world = Returns (n, w')
    /\ type_of (store w') n = Token.Top /\ children_of (store w') n = [file] /\ shared w' = [].
Proof.
  destruct (json_parse_total no_files sample_source empty_world 60) as (n & file & w' & H1 & _ & H2 & H3 & H4 & _).
  - apply RegexTheorems.bytes_checked. vm_compute. reflexivity.
  - vm_compute. reflexivity.
  - exact empty_ok.
  - reflexivity.
  - vm_compute. discriminate.
  - exists n, file, w'. split_and!; [exact H1|exact H3|exact H4|exact H2].
Defined.

Lemma parse_source_correct_witness :
  exists m m' w',
    rtc (lex_step (json_parser (fs := no_files)) sample_source)
      (set_mode (new_make empty_world File sample_source) start_mode) m
    /\ json_done m = Returns m'
    /\ parse_source 60 (json_parser (fs := no_files)) File (Some sample_source) empty_world
       = Returns (Some (make_top m'), w').
Proof.
  destruct (parse_source_correct (json_parser (fs := no_files)) json_inv sample_source empty_world File 60)
    as (m & m' & w' & H1 & _ & H2 & _ & _ & H3).
  - apply json_sets.
  - apply json_grammar.
  - apply json_consume.
  - apply RegexTheorems.bytes_checked. vm_compute. reflexivity.
  - vm_compute. reflexivity.
  - split; [reflexivity|]. exists [File]. split.
    + apply (new_make_cursor empty_world File sample_source). exact empty_ok.
    + right. split; reflexivity.
  - vm_compute. discriminate.
  - exists m, m', w'. split_and!; [exact H1|exact H2|exact H3].
Defined.
