(* ===== verification/ParseSamples.v ===== *)
(** Small grammars that show where the tokenizer parts from its intent. *)
From S2P Require Import Prelude.
From S2P Require Import Token.
From S2P Require Import Source.
From S2P Require Import RegexSyntax.
From S2P Require Import Closure.
From S2P Require Import Engine.
From S2P Require Import CaptureSpec.
From S2P Require Import RegexCorrect.
From S2P Require Import RegexTheorems.
From S2P Require Import TRegex.
From S2P Require Import TokenLayer.
From S2P Require Import TokenLayerFacts.
From S2P Require Import Ast.
From S2P Require Import Parse.
From S2P Require Import JsonParse.
From stdpp Require Export gmap.
Open Scope Z_scope.

Definition letter : Token := builtin 40 "letter" 0.
Definition start_world : World unit := mkWorld ∅ tt 2.
Definition text (s : string) : SourceDef := synthetic 1 (bytes s) [].

(** One rule, and its parser. *)
Definition one_rule (regex : string) (f : ParseEffect unit) : Parse unit no_files :=
  add_rules (new_parse depth_file) start_mode [mkRule (new_regex 1 (bytes regex)) f].

(** The types and locations of the children of a node *)
Definition child_spans (h : heap) (n : Node) : list (string * Z * Z) :=
  (fun c => (name (type_of h c), pos (location_of h c), len (location_of h c))) <$> children_of h n.

(** The location of an [Invalid] node is that of the last token that matched, not that of the
    byte no rule matches: of [a?] the [Invalid] node spans the [a]. *)
Lemma invalid_keeps_old_location :
  match parse_source 10 (one_rule "a" (fun m => add m letter 0)) File (Some (text "a?")) start_world with
  | Returns (Some n, w) =>
      match children_of (store w) n with
      | [g] => child_spans (store w) g
      | _ => []
      end
  | _ => []
  end = [("letter", 0, 1); ("invalid", 0, 1)]%string.
Proof. vm_compute. reflexivity. Qed.

(** [pop()] refuses to pop a node of type [Top], but the root of a source is a [File]: popping
    it succeeds and leaves the cursor null, and the next use of it is undefined. *)
Definition root_make : Make unit := new_make start_world File (text "a").
Lemma pop_at_root_nulls :
  match pop_any root_make with
  | Returns (t, m) => Some (t, node m, in_ m Group)
  | _ => None
  end = Some (File, None, Undefined).
Proof. vm_compute. reflexivity. Qed.

(** [previous] asks for the last child before it knows there is one. *)
Lemma previous_of_empty_group :
  (m ← push root_make Group 0; previous m letter) = Undefined.
Proof. vm_compute. reflexivity. Qed.

(** A group pushed in a group is not closed properly: [done] runs past the root. *)
Lemma nested_groups_undefined :
  (m ← push root_make Group 0; m ← push m Group 0; make_done m) = Undefined.
Proof. vm_compute. reflexivity. Qed.

(** * A rule that matches the empty string never ends *)

Definition star_regex : TRegex := new_regex 1 (bytes "a*").
Definition star_rules : list (Rule unit) := [mkRule star_regex (fun m => Returns m)].
Definition star_parser : Parse unit no_files := one_rule "a*" (fun m => Returns m).
Definition star_source : SourceDef := text "b".

Lemma star_rules_ok : rules_ok (rule_regex <$> star_rules) 1.
Proof.
  split; [|done|].
  - cbn. repeat (constructor; [by eexists _, _|]). constructor.
  - constructor; [|constructor]. intros _. vm_compute. discriminate.
Qed.

Lemma star_longest : rule_longest star_regex (bytes "b") (Some 0%nat).
Proof.
  assert (Hok : ok (new_engine (bytes "a*") Extended) = true) by (vm_compute; reflexivity).
  unfold rule_longest, star_regex, regex_ok. cbn [engine_ pattern_ new_regex]. rewrite Hok.
  pose proof (noncapturing_longest (bytes "a*") Extended Hok (bytes "b") ltac:(by apply bytes_checked) 1
    MatchContext.new_context true false MatchContext.new_context_ok) as H.
  assert (E : fst (Simulate.find_prefix_noncapturing_with_context 1 (new_engine (bytes "a*") Extended) (bytes "b")
    MatchContext.new_context true false) = Some 0%nat) by (vm_compute; reflexivity).
  destruct (Simulate.find_prefix_noncapturing_with_context _ _ _ _ _ _) as [b c]. cbn in E. subst b. apply H.
Qed.

#[local] Opaque new_regex_set new_engine.

Lemma star_turn (m : Make unit) : mode_ m = start_mode -> match_ok (re_match m) ->
  re_iterator m = mkIterator star_source 0 ->
  exists rm, parse_turn star_parser start_mode star_rules (new_regex_set (rule_regex <$> star_rules)) m
    = Returns (start_mode, star_rules, new_regex_set (rule_regex <$> star_rules),
               with_regex rm (re_iterator m) m) /\ match_ok rm.
Proof.
  intros Hmode Hm Hit. unfold parse_turn. rewrite Hit.
  destruct (consume_first_match_spec (rule_regex <$> star_rules) (mkIterator star_source 0) (re_match m))
    as (res & rm & it & E & Hrm & Hfirst & Hres).
  - exact star_rules_ok.
  - by apply bytes_checked.
  - split; [vm_compute; split; discriminate|vm_compute; reflexivity].
  - vm_compute. discriminate.
  - done.
  - rewrite E. cbn [mbind outcome_bind]. change (rest_at _ _) with (bytes "b") in *.
    assert (Hn : not_overlong (bytes "b")) by (intros b0 s H; left; vm_compute in H; by injection H as <- _).
    specialize (Hfirst Hn). pose proof star_longest as Hs. destruct res as [[i n]|].
    + destruct Hres as ((r & Hr & Hrn) & _ & _ & _ & -> & _).
      assert (Hi : (i < 1)%nat) by (apply lookup_lt_Some in Hr; by rewrite length_fmap in Hr).
      destruct i as [|i]; [|lia]. apply (inj Some star_regex r) in Hr. subst r.
      pose proof (rule_longest_unique star_regex _ _ _ Hrn Hs) as En. injection En as ->.
      cbn [fmap option_fmap option_map fst]. cbn [lookup list_lookup star_rules or_undefined mbind outcome_bind effect].
      change (mode_ (with_regex _ _ m)) with (mode_ m). rewrite bool_decide_true by exact Hmode.
      exists rm. split; [reflexivity|exact Hrm].
    + pose proof (rule_longest_unique star_regex _ _ _ (Hfirst 0%nat star_regex eq_refl) Hs). discriminate.
Qed.

Lemma star_loop_diverges fuel (m : Make unit) : mode_ m = start_mode -> match_ok (re_match m) ->
  re_iterator m = mkIterator star_source 0 -> error_count_ m = 0 ->
  parse_loop fuel star_parser start_mode star_rules (new_regex_set (rule_regex <$> star_rules)) m = Undefined.
Proof.
  revert m. induction fuel as [|fuel IH]; intros m Hmode Hm Hit He; cbn [parse_loop];
    rewrite Hit, He; [done|].
  change (negb (iterator_empty (mkIterator star_source 0)) && (0 <? max_errors_ star_parser)) with true.
  cbv iota. destruct (star_turn m Hmode Hm Hit) as (rm & E & Hrm). rewrite E. cbn [mbind outcome_bind].
  by apply IH.
Qed.

(** The rule [a*] matches the empty string before a [b], consumes nothing, and is tried again:
    no number of turns is enough. *)
Lemma empty_rule_never_ends fuel :
  parse_source fuel star_parser File (Some star_source) start_world = Undefined.
Proof.
  unfold parse_source. change (rules_ star_parser !! start_mode) with (Some star_rules).
  change (rule_sets_ star_parser !! start_mode) with (Some (new_regex_set (rule_regex <$> star_rules))).
  cbn [or_undefined mbind outcome_bind].
  rewrite star_loop_diverges; [done|done|apply new_regex_match_ok|done|done].
Qed.
