(* ===== verification/Dump.v ===== *)
(** The text of a tree ([NodeDef::str] and [SymtabDef::str] of [include/trieste/ast.h]): nodes
    with their locations and symbol tables, indented by their depth; and [build_ast]
    ([include/trieste/regex.h]), which reads the text back. *)
From S2P Require Import Prelude.
From S2P Require Import Token.
From S2P Require Import Source.
From S2P Require Import TRegex.
From S2P Require Import TokenLayer.
From S2P Require Import Ast.
From stdpp Require Export gmap.
Open Scope Z_scope.

(** * Streams *)

(** [std::endl], [indent(level)], [out << size_t] *)
Definition endl : list Z := [10].
Definition indent (level : nat) : list Z := concat (replicate level (bytes "  ")).
Definition put_size (n : Z) : list Z := to_string n.

(** * [SymtabDef::str] *)

Section Str.
Context (h : heap).

Definition token_str (n : Node) : list Z := bytes (name (type_of h n)).

(** The symbols of one name *)
Definition write_symbol (level : nat) (entry : Location * list Node) : outcome (list Z) :=
  key ← view entry.1;
  Returns (endl ++ indent (level + 1) ++ key ++ bytes " ="
    ++ match entry.2 with
       | [sym] => bytes " " ++ token_str sym
       | sym => concat ((fun node => endl ++ indent (level + 2) ++ token_str node) <$> sym)
       end).
Definition write_include (level : nat) (node : Node) : outcome (list Z) :=
  v ← view (location_of h node);
  Returns (endl ++ indent (level + 1) ++ bytes "include " ++ v).

(** [for (auto& x : xs) out << f(x)] *)
Fixpoint write_all {A} (f : A -> outcome (list Z)) (xs : list A) : outcome (list Z) :=
  match xs with
  | [] => Returns []
  | x :: xs => s ← f x; rest ← write_all f xs; Returns (s ++ rest)
  end.

Definition symtab_str (level : nat) (st : SymtabDef) : outcome (list Z) :=
  syms ← write_all (write_symbol level) (symbols st);
  incs ← write_all (write_include level) (includes st);
  Returns (indent level ++ [123] ++ syms ++ incs ++ [125]).

(** * [NodeDef::str] *)

(** What the two lambdas share; the back of [origin_stack] is the head of the list, and
    [no_origin] is the empty origin. *)
Record Printer := mkPrinter { out : list Z; level : nat; origin_stack : list (list Z) }.

(** [N:...], the text of a location *)
Definition put_netstring (s : list Z) : list Z := put_size (Z.of_nat (length s)) ++ [58] ++ s.

(** What is written of a location, and the origin that is pushed *)
Definition put_location (effective : list Z) (print : bool) (loc : Location)
    : outcome (list Z * list Z) :=
  match source loc with
  | Some s =>
      match origin_ s with
      | [] => if print then v ← view loc; Returns ([32] ++ put_netstring v, [])
              else Returns ([], [])
      | origin =>
          let file := [32] ++ (if negb (list_eqb origin effective) then put_netstring origin else []) in
          at_ ← (if print then
                   content ← view loc;
                   Returns ([124] ++ put_size (pos loc) ++ [124] ++ put_netstring content)
                 else Returns ([124] ++ put_size (pos loc) ++ [124] ++ put_size (len loc)));
          Returns (file ++ at_, origin)
      end
  | None => if print then v ← view loc; Returns ([32] ++ put_netstring v, []) else Returns ([], [])
  end.

Definition str_pre (node : Node) (p : Printer) : outcome (bool * Printer) :=
  '(at_, origin) ← put_location (default [] (head (origin_stack p)))
                     (has (type_of h node) flag_print) (location_of h node);
  tab ← match symtab_of h node with
        | Some st => s ← symtab_str (level p + 1) st; Returns (endl ++ s)
        | None => Returns []
        end;
  Returns (true, mkPrinter (out p ++ (if negb (level p =? 0)%nat then endl else [])
                              ++ indent (level p) ++ [40] ++ token_str node ++ at_ ++ tab)
                   (S (level p)) (origin :: origin_stack p)).
Definition str_post (node : Node) (p : Printer) : outcome Printer :=
  Returns (mkPrinter (out p ++ [41]) (level p - 1) (tail (origin_stack p))).

(** [NodeDef::str(out, level)] *)
Definition node_str (fuel : nat) (this : Node) (level : nat) : outcome (list Z) :=
  out <$> traverse (fun _ => h) str_pre str_post fuel this (mkPrinter [] level []).

(** [out << node]; a null node writes nothing. *)
Definition put_node (fuel : nat) (n : option Node) : outcome (list Z) :=
  match n with
  | None => Returns []
  | Some n => s ← node_str fuel n 0; Returns (s ++ endl)
  end.
End Str.

(** * Reading the text of a tree back *)
Module BuildAst.

(** ** The regular expressions; each is at an address of its own. *)
Definition hd : TRegex := new_regex 1 (bytes "[[:space:]]*\([[:space:]]*([^[:space:]\(\)]*)").
Definition st : TRegex := new_regex 2 (bytes "[[:space:]]*\{[^\}]*\}").
Definition ns : TRegex := new_regex 3 (bytes "[[:space:]]*([[:digit:]]+):").
Definition pipe_num : TRegex := new_regex 4 (bytes "[[:space:]]*\|([[:digit:]]+)").
Definition num : TRegex := new_regex 5 (bytes "[[:space:]]*([[:digit:]]+)").
Definition pipe : TRegex := new_regex 6 (bytes "\|").
Definition tl : TRegex := new_regex 7 (bytes "[[:space:]]*\)").

(** The name of a token, from its bytes *)
Fixpoint text_name (s : list Z) : string :=
  match s with
  | [] => EmptyString
  | c :: s => String (Ascii.ascii_of_N (Z.to_N c)) (text_name s)
  end.

(** ** [build_ast] *)

Section Build.
Context (tokens : Registry) (src : SourceDef).

(** [re_iterator] and [re_match] *)
Definition Reading : Type := TRegexIterator * TRegexMatch.

Definition eat (regex : TRegex) (r : Reading) : outcome (bool * Reading) :=
  '(b, m, it) ← consume r.1 regex r.2; Returns (b, (it, m)).

(** The lambda [netstring] *)
Definition netstring (r : Reading) : outcome (option (list Z) * Reading) :=
  '(b, r) ← eat ns r;
  if negb b then Returns (None, r)
  else
    len ← parse_size_t r.2 1;
    let remaining := u64 (source_size src - pos_ r.1) in
    if remaining <? len then Returns (None, r)
    else
      content ← substr (contents src) (pos_ r.1) len;
      Returns (Some content, (skip r.1 len, r.2)).

(** The part of the lambda [parse_location] after [|pos]; [id] is the address of the source
    it makes. *)
Definition parse_extent (id : positive) (origin : list Z) (loc_pos : Z) (r : Reading)
    : outcome (option Location * Reading) :=
  '(b, r) ← eat pipe r;
  if negb b then Returns (None, r)
  else
    '(content, r) ← netstring r;
    match content with
    | Some content =>
        Returns (Some (mkLocation (Some (synthetic_at_offset id content origin loc_pos)) loc_pos
                         (Z.of_nat (length content))), r)
    | None =>
        '(b, r) ← eat num r;
        if negb b then Returns (None, r)
        else
          len ← parse_size_t r.2 1;
          Returns (Some (mkLocation (Some (synthetic id [] origin)) loc_pos len), r)
    end.

(** The lambda [parse_location]; [parent_origin] is that of the parent's location, empty
    without one. *)
Definition parse_location (id : positive) (type_loc : Location) (parent_origin : list Z) (r : Reading)
    : outcome (option Location * Reading) :=
  '(text, r) ← netstring r;
  match text with
  | Some text =>
      '(b, r) ← eat pipe_num r;
      if negb b then
        Returns (Some (mkLocation (Some (synthetic id text [])) 0 (Z.of_nat (length text))), r)
      else loc_pos ← parse_size_t r.2 1; parse_extent id text loc_pos r
  | None =>
      '(b, r) ← eat pipe_num r;
      if (b : bool) then loc_pos ← parse_size_t r.2 1; parse_extent id parent_origin loc_pos r
      else
        v ← view type_loc;
        Returns (Some (mkLocation (Some (synthetic id v [])) 0 (len type_loc)), r)
  end.

(** What the main loop carries: the store, the address of the next source, the open node. *)
Record Builder := mkBuilder {
  built : heap;
  next_source : positive;
  ast : option Node;
  reading : Reading
}.

Definition parent_origin (h : heap) (parent : option Node) : list Z :=
  match parent with
  | Some p => match source (location_of h p) with Some s => origin_ s | None => [] end
  | None => []
  end.

(** [while (re_iterator.consume(tl, re_match))]: the node that is returned, if it was the
    outermost, or the node that is open now. *)
Fixpoint close_loop (fuel : nat) (h : heap) (ast : Node) (r : Reading)
    : outcome ((Node + Node) * Reading) :=
  match fuel with
  | O => Undefined
  | S fuel =>
      '(b, r) ← eat tl r;
      if negb b then Returns (inr ast, r)
      else
        match parent_of h ast with
        | None => Returns (inl ast, r)
        | Some parent => close_loop fuel h parent r
        end
  end.

(** A turn of the main loop: a result to return, or the state that follows. *)
Definition build_turn (fuel : nat) (b : Builder)
    : outcome ((option Node * heap * positive) + Builder) :=
  let failed := inl (None, built b, next_source b) in
  '(found, r) ← eat hd (reading b);
  if negb found then Returns failed
  else
    type_loc ← match_at r.2 1;
    type_name ← view type_loc;
    let type := find_token Invalid tokens (text_name type_name) in
    if token_eqb type Invalid then Returns failed
    else
      '(ident_loc, r) ← parse_location (next_source b) type_loc (parent_origin (built b) (ast b)) r;
      match ident_loc with
      | None => Returns failed
      | Some loc =>
          let next := Pos.succ (next_source b) in
          let '(node, h) := create (built b) type loc in
          let h := match ast b with Some a => push_back h a (Some node) | None => h end in
          '(_, r) ← eat st r;
          '(open, r) ← close_loop fuel h node r;
          match open with
          | inl top => Returns (inl (Some top, h, next))
          | inr ast => Returns (inr (mkBuilder h next (Some ast) r))
          end
      end.

(** The main loop; a turn consumes a parenthesis at least. *)
Fixpoint build_loop (fuel : nat) (b : Builder) : outcome (option Node * heap * positive) :=
  if iterator_empty (reading b).1 then Returns (None, built b, next_source b)
  else
    match fuel with
    | O => Undefined
    | S fuel =>
        r ← build_turn (S (length (contents src))) b;
        match r with inl res => Returns res | inr b => build_loop fuel b end
    end.

(** [build_ast(source, pos)]; a failure is a null node.  The new sources have the addresses
    from [id] on. *)
Definition build_ast (h : heap) (id : positive) (pos : Z)
    : outcome (option Node * heap * positive) :=
  build_loop (S (length (contents src)))
    (mkBuilder h id None (skip (new_iterator src) pos, new_regex_match 2)).
End Build.
End BuildAst.

(** * Where the text cannot be read back *)

(** The text of a symbol table ends at the first closing brace for [build_ast], also at one in the
    name of a symbol: a node [top] with a symbol of that name is written and not read. *)
Module BraceInSymbol.
Definition tokens : Registry :=
  match define_tokens empty_registry ((fun d => (name d, fl d)) <$> builtin_tokens) with
  | Returns (_, r) => r
  | _ => empty_registry
  end.
Definition store : heap :=
  let '(t, h) := create ∅ Token.Top null_location in
  let '(c, h) := create h File (location_of_string 1 (bytes "a}b")) in
  let h := push_back h t (Some c) in
  match bind h c (location_of h c) with Returns (_, h) => h | _ => h end.
Definition text : list Z := match node_str store 10 1%positive 0 with Returns s => s | _ => [] end.

Lemma brace_in_symbol :
  node_str store 10 1%positive 0 = Returns text
  /\ fst <$> (fst <$> BuildAst.build_ast tokens (synthetic 2 text []) ∅ 3 0) = Returns None.
Proof. split; vm_compute; reflexivity. Qed.
End BraceInSymbol.
