(* ===== verification/Passes.v ===== *)
(** Sequences of passes ([include/trieste/passes.h]): the range of passes that is left, the
    check between two passes, and the loop that runs them; and [Rewriter]
    ([include/trieste/rewriter.h]), which runs a sequence on a tree. *)
From S2P Require Import Prelude.
From S2P Require Import Token.
From S2P Require Import Source.
From S2P Require Import Ast.
From S2P Require Import Wellformed.
From S2P Require Import WfOps.
From S2P Require Import Dump.
From S2P Require Import Rewrite.
From S2P Require Import Pass.
From stdpp Require Export gmap.
#[local] Set Warnings "-register-all".
Open Scope Z_scope.

(** What a sequence asks of a pass: its name, the well-formedness of what it leaves, and
    [run] with the specifications in scope: the node, the number of sweeps and of changes. *)
Class IsPass (P : Type) := mkIsPass {
  name_of : P -> string;
  wf_of : P -> Wellformed;
  run_of : P -> WfContexts -> Node -> heap -> outcome (Node * Z * Z * heap)
}.

(** A [PassDef]; [fuel] bounds its run, and [stale] is what earlier runs left in the [Match] of
    the thread. *)
Definition passdef_is_pass (fuel : nat) (stale : Node -> heap -> Match) : IsPass PassDef :=
  mkIsPass PassDef pass_name pass_wf (fun p _ n h => pass_run fuel p n (stale n h) h).

(** * [PassRange] *)

Section Range.
Context {P : Type} `{IsPass P}.

(** The iterators are indices of the vector of passes. *)
Record PassRange := mkPassRange {
  passes : list P;
  start : nat;
  end_ : nat;
  range_wf : Wellformed;
  entry_name : string
}.

(** [PassRange(range, wf, entry_name)] *)
Definition new_range (passes : list P) (wf : Wellformed) (entry_name : string) : PassRange :=
  mkPassRange passes 0 (length passes) wf entry_name.

(** [std::find_if(start, end, ...)] *)
Fixpoint find_pass (name : string) (ps : list P) (i : nat) : option (nat * P) :=
  match ps with
  | [] => None
  | p :: ps => if String.eqb (name_of p) name then Some (i, p) else find_pass name ps (S i)
  end.
Definition find_in_range (r : PassRange) (name : string) : option (nat * P) :=
  find_pass name (drop (start r) (take (end_ r) (passes r))) (start r).

(** [move_start], [move_end]: whether the pass was found, and the range. *)
Definition move_start (name : string) (r : PassRange) : bool * PassRange :=
  match find_in_range r name with
  | None => (false, r)
  | Some (it, p) => (true, mkPassRange (passes r) it (end_ r) (wf_of p) (name_of p))
  end.
Definition move_end (name : string) (r : PassRange) : bool * PassRange :=
  match find_in_range r name with
  | None => (false, r)
  | Some (it, _) => (true, mkPassRange (passes r) (start r) (S it) (range_wf r) (entry_name r))
  end.

(** [disable], [operator()], [operator++], [has_next] *)
Definition disable (r : PassRange) : PassRange :=
  mkPassRange (passes r) (end_ r) (end_ r) (range_wf r) (entry_name r).
Definition current_pass (r : PassRange) : outcome P := or_undefined (passes r !! start r).
Definition next_pass (r : PassRange) : outcome PassRange :=
  p ← current_pass r;
  Returns (mkPassRange (passes r) (S (start r)) (end_ r) (wf_of p) (name_of p)).
Definition has_next (r : PassRange) : bool := negb (start r =? end_ r)%nat.

(** [last_pass] *)
Definition last_pass_of (r : PassRange) : outcome P :=
  match last (drop (start r) (take (end_ r) (passes r))) with Some p => Returns p | None => Throws end.

(** * [Process] *)

(** The duration of a pass is left out. *)
Record PassStatistics := mkStatistics { count : Z; changes : Z }.

Record ProcessResult := mkResult {
  ok : bool;
  last_pass : string;
  result_ast : option Node;
  errors : list Node;
  total_changes : Z
}.

(** The function called after each pass may replace the tree; [W] is what it writes to.  Before
    the first pass the statistics are not initialised. *)
Context {W : Type}.
Definition PassComplete : Type :=
  option Node -> string -> Z -> option PassStatistics -> heap -> W
  -> outcome (bool * option Node * heap * W).

Section Process.
Context (fuel : nat) (check_well_formed : bool) (pass_complete : option PassComplete).

(** [validate]: the answer, the errors and the store *)
Definition validate (wf : Wellformed) (ast : option Node) (errors : list Node) (h : heap)
    : outcome (bool * list Node * heap) :=
  match ast with
  | None => Returns (false, errors, h)
  | Some ast =>
      '(h, ok) ← wf_build_st wf fuel h ast;
      '(h, errors) ← get_errors fuel h ast errors;
      let ok := ok && match errors with [] => true | _ => false end in
      ok ← (if ok && check_well_formed then wf_check wf fuel h ast else Returns ok);
      Returns (ok, errors, h)
  end.

(** A call of [pass_complete]; an empty function throws. *)
Definition completed (ast : option Node) (name : string) (index : Z) (stats : option PassStatistics)
    (h : heap) (w : W) : outcome (bool * option Node * heap * W) :=
  match pass_complete with None => Throws | Some f => f ast name index stats h w end.

(** The loop of [run]; [turns] is how many passes are left. *)
Fixpoint process_loop (turns : nat) (r : PassRange) (index : Z) (c : WfContexts) (ok : bool)
    (last_pass : string) (ast : option Node) (errors : list Node) (total_changes : Z) (h : heap) (w : W)
    : outcome (ProcessResult * heap * W) :=
  if ok && has_next r then
    match turns with
    | O => Undefined
    | S turns =>
        pass ← current_pass r;
        node ← or_undefined ast;
        '(new_ast, count, changes, h) ← run_of pass (context_push_back c (wf_of pass)) node h;
        let total_changes := u64 (total_changes + changes) in
        c ← context_pop_front (context_push_back c (wf_of pass));
        r ← next_pass r;
        '(ok, errors, h) ← validate (range_wf r) (Some new_ast) errors h;
        '(done, ast, h, w) ← completed (Some new_ast) (name_of pass) index
                               (Some (mkStatistics count changes)) h w;
        process_loop turns r (u64 (index + 1)) c (done && ok) (name_of pass) ast errors total_changes h w
    end
  else Returns (mkResult ok last_pass ast errors total_changes, h, w).

(** [Process::run]; [c] is the contexts of the caller. *)
Definition process_run (r : PassRange) (c : WfContexts) (ast : option Node) (h : heap) (w : W)
    : outcome (ProcessResult * heap * W) :=
  let context := wf_context c (range_wf r) in
  '(ok, errors, h) ← validate (range_wf r) ast [] h;
  '(done, ast, h, w) ← completed ast (entry_name r) 0 None h w;
  process_loop (end_ r - start r) r 1 context (done && ok) (entry_name r) ast errors 0 h w.
End Process.
End Range.
Arguments PassRange : clear implicits.
Arguments PassComplete : clear implicits.

(** * [set_default_pass_complete] *)

(** The directory dumps are written to, as [std::filesystem] shows it: whether it is there or can
    be made, which files can be opened for writing, and what was written. *)
Record OutDir := mkOutDir {
  dir_exists : bool;
  can_create : bool;
  can_open : list Z -> bool;
  files : list (list Z * list Z)
}.

Definition dump_name (index : Z) (pass_name : string) : list Z :=
  (if index <? 10 then bytes "0" else []) ++ put_size index ++ bytes "_" ++ bytes pass_name
  ++ bytes ".trieste".

(** The function it sets; without an output directory it writes nothing but its summary to the
    log. *)
Definition default_pass_complete (fuel : nat) (language_name : list Z) (output : bool)
    : PassComplete OutDir := fun ast pass_name index stats h dir =>
  if negb output then Returns (true, ast, h, dir)
  else if negb (dir_exists dir) && negb (can_create dir) then Returns (false, ast, h, dir)
  else
    let dir := mkOutDir true (can_create dir) (can_open dir) (files dir) in
    let output := dump_name index pass_name in
    if negb (can_open dir output) then Returns (false, ast, h, dir)
    else
      text ← put_node h fuel ast;
      Returns (true, ast, h,
        mkOutDir true (can_create dir) (can_open dir)
          (files dir ++ [(output, language_name ++ endl ++ bytes pass_name ++ endl ++ text)])).

(** * [Rewriter] *)

Section Rewriter.
Context {P : Type} `{IsPass P}.

Record Rewriter := mkRewriter {
  rewriter_name : string;
  rewriter_passes : list P;
  rewriter_wf : Wellformed;
  debug_enabled_ : bool;
  wf_check_enabled_ : bool;
  debug_path_ : list Z
}.

(** [Rewriter(name, passes, input_wf)] *)
Definition new_rewriter (name : string) (passes : list P) (input_wf : Wellformed) : Rewriter :=
  mkRewriter name passes input_wf false true (bytes ".").

(** [debug_enabled(value)], [wf_check_enabled(value)], [debug_path(path)] *)
Definition debug_enabled (r : Rewriter) (value : bool) : Rewriter :=
  mkRewriter (rewriter_name r) (rewriter_passes r) (rewriter_wf r) value (wf_check_enabled_ r)
    (debug_path_ r).
Definition wf_check_enabled (r : Rewriter) (value : bool) : Rewriter :=
  mkRewriter (rewriter_name r) (rewriter_passes r) (rewriter_wf r) (debug_enabled_ r) value
    (debug_path_ r).
Definition debug_path (r : Rewriter) (path : list Z) : Rewriter :=
  mkRewriter (rewriter_name r) (rewriter_passes r) (rewriter_wf r) (debug_enabled_ r)
    (wf_check_enabled_ r) path.

(** [output_wf]: that of the last pass; [back] of no passes is undefined. *)
Definition output_wf (r : Rewriter) : outcome Wellformed :=
  wf_of <$> or_undefined (last (rewriter_passes r)).

(** Dumps are written when debugging is on and the path is not empty. *)
Definition dumps (enabled : bool) (path : list Z) : bool :=
  enabled && match path with [] => false | _ => true end.

(** [rewrite] *)
Definition rewrite (fuel : nat) (r : Rewriter) (c : WfContexts) (ast : Node) (h : heap) (dir : OutDir)
    : outcome (ProcessResult * heap * OutDir) :=
  process_run fuel (wf_check_enabled_ r)
    (Some (default_pass_complete fuel (bytes (rewriter_name r))
             (dumps (debug_enabled_ r) (debug_path_ r))))
    (new_range (rewriter_passes r) (rewriter_wf r) (rewriter_name r)) c (Some ast) h dir.
End Rewriter.
Arguments Rewriter : clear implicits.

(** * What a sequence of passes promises *)

Section Correct.
Context {P W : Type} `{IsPass P}.
Context (fuel : nat) (check : bool) (c : WfContexts).

(** The tree is what the specification asks for: its tables can be built, it holds no errors and,
    when checks are on, it has its shapes.  [h'] is the store with the tables built. *)
Definition valid (wf : Wellformed) (n : Node) (h h' : heap) : Prop :=
  validate fuel check wf (Some n) [] h = Returns (true, [], h').

(** The passes run one after the other, each with the specifications before and after it in
    scope, and each leaves a tree that its specification accepts. *)
Inductive chain : Wellformed -> list P -> Node -> heap -> Z -> Node -> heap -> Z -> Prop :=
  | chain_nil wf n h t : chain wf [] n h t n h t
  | chain_cons wf p ps n h t n1 count chg h1 h2 n' h' t' :
      run_of p ([wf; wf_of p] :: c) n h = Returns (n1, count, chg, h1) ->
      valid (wf_of p) n1 h1 h2 ->
      chain (wf_of p) ps n1 h2 (u64 (t + chg)) n' h' t' ->
      chain wf (p :: ps) n h t n' h' t'.

(** The specification and the name after some passes *)
Definition wf_after (wf : Wellformed) (ps : list P) : Wellformed := default wf (wf_of <$> last ps).
Definition name_after (name : string) (ps : list P) : string := default name (name_of <$> last ps).

Lemma wf_after_cons wf p ps : wf_after wf (p :: ps) = wf_after (wf_of p) ps.
Proof. unfold wf_after. by rewrite last_cons; destruct (last ps). Qed.
Lemma name_after_cons name p ps : name_after name (p :: ps) = name_after (name_of p) ps.
Proof. unfold name_after. by rewrite last_cons; destruct (last ps). Qed.

(** [pass_complete] looks at the tree, leaves it and its store alone, and wants to go on. *)
Definition quiet (f : PassComplete W) : Prop :=
  forall ast name i st h w, exists w', f ast name i st h w = Returns (true, ast, h, w').

Context (f : PassComplete W) (Hf : quiet f).

Lemma completed_quiet ast name i st h w :
  exists w', completed (Some f) ast name i st h w = Returns (true, ast, h, w').
Proof. apply Hf. Qed.

(** The range whose first [k] passes were run. *)
Definition range_at (ps : list P) (k : nat) (wf : Wellformed) (name : string) : PassRange P :=
  mkPassRange ps k (length ps) wf name.

(** How the loop ends: after all passes, or at the first whose tree is refused. *)
Inductive ending (wf : Wellformed) (name : string) (ps : list P) (n : Node) (h : heap) (t : Z)
    : ProcessResult -> heap -> Prop :=
  | end_accepted n' h' t' : chain wf ps n h t n' h' t' ->
      ending wf name ps n h t (mkResult true (name_after name ps) (Some n') [] t') h'
  | end_refused ps1 p ps2 n1 h1 t1 n2 count chg h2 es h' :
      ps = ps1 ++ p :: ps2 -> chain wf ps1 n h t n1 h1 t1 ->
      run_of p ([wf_after wf ps1; wf_of p] :: c) n1 h1 = Returns (n2, count, chg, h2) ->
      validate fuel check (wf_of p) (Some n2) [] h2 = Returns (false, es, h') ->
      ending wf name ps n h t (mkResult false (name_of p) (Some n2) es (u64 (t1 + chg))) h'.

Lemma ending_cons wf name p ps n h t n1 count chg h1 h2 res h' :
  run_of p ([wf; wf_of p] :: c) n h = Returns (n1, count, chg, h1) -> valid (wf_of p) n1 h1 h2 ->
  ending (wf_of p) (name_of p) ps n1 h2 (u64 (t + chg)) res h' -> ending wf name (p :: ps) n h t res h'.
Proof.
  intros Hr Hv He. inversion He as [? ? ? Hc|ps1 q ps2 ? ? ? ? ? ? ? ? ? -> Hc Hq Hx]; subst.
  - rewrite <-(name_after_cons name). apply end_accepted. by eapply chain_cons.
  - eapply (end_refused _ _ _ _ _ _ (p :: ps1)); [done|by eapply chain_cons|by rewrite wf_after_cons|done].
Qed.

Lemma range_at_current ps k wf name p : ps !! k = Some p -> current_pass (range_at ps k wf name) = Returns p.
Proof. intros Hp. unfold current_pass. cbn. by rewrite Hp. Qed.
Lemma range_at_next ps k wf name p : ps !! k = Some p ->
  next_pass (range_at ps k wf name) = Returns (range_at ps (S k) (wf_of p) (name_of p)).
Proof. intros Hp. unfold next_pass. by rewrite (range_at_current _ _ _ _ p). Qed.

#[local] Arguments validate : simpl never.
#[local] Arguments completed : simpl never.

Lemma validate_accepts wf n h es h' b :
  validate fuel check wf n [] h = Returns (b, es, h') -> b = true -> es = [].
Proof.
  unfold validate. destruct n as [n|]; [|by intros [= <- <- <-]].
  intros ([h1 ok] & _ & E)%outcome_bind_returns. apply outcome_bind_returns in E as ([h2 es2] & _ & E).
  apply outcome_bind_returns in E as (b2 & E1 & [= <- <- <-]). intros ->. destruct ok, es2; done.
Qed.
Lemma process_loop_stops turns r i cc name n es t h w :
  process_loop fuel check (Some f) turns r i cc false name n es t h w
  = Returns (mkResult false name n es t, h, w).
Proof. by destruct turns. Qed.

Lemma process_loop_ok ps : forall k turns wf name i n h t w res h' w',
  (k <= length ps)%nat -> (length ps - k <= turns)%nat ->
  process_loop fuel check (Some f) turns (range_at ps k wf name) i ([wf] :: c) true name (Some n) [] t h w
    = Returns (res, h', w') ->
  ending wf name (drop k ps) n h t res h'.
Proof.
  intros k turns. revert k. induction turns as [|turns IH]; intros k wf name i n h t w res h' w' Hk Ht.
  all: unfold range_at; cbn [process_loop]; unfold has_next; cbn [start end_ andb].
  all: destruct (Nat.eqb_spec k (length ps)) as [->|Hne]; cbn [negb andb].
  all: try (intros [= <- <- <-]; rewrite drop_all; apply end_accepted; constructor).
  destruct (lookup_lt_is_Some_2 ps k ltac:(lia)) as [p Hp].
  fold (range_at ps k wf name). rewrite (range_at_current _ _ _ _ p), (range_at_next _ _ _ _ p) by done.
  cbn [mbind outcome_bind or_undefined context_push_back context_pop_front app].
  intros ([[[n1 count] chg] h1] & Hr & E)%outcome_bind_returns.
  apply outcome_bind_returns in E as ([[b es] h2] & Hv & E).
  destruct (completed_quiet (Some n1) (name_of p) i (Some (mkStatistics count chg)) h2 w) as [w1 Ew].
  rewrite Ew in E. cbn [mbind outcome_bind andb] in E.
  rewrite (drop_S _ p) by done. destruct b.
  - pose proof (validate_accepts _ _ _ _ _ _ Hv eq_refl) as ->.
    eapply ending_cons; [exact Hr|exact Hv|]. eapply (IH (S k)); [lia|lia|exact E].
  - cbn [andb] in E. rewrite process_loop_stops in E. injection E as <- <- <-.
    eapply (end_refused _ _ _ _ _ _ []); [done|constructor|exact Hr|exact Hv].
Qed.

(** The loop follows a chain to its end. *)
Lemma process_loop_chain wf ps n h t n' h' t' : chain wf ps n h t n' h' t' ->
  forall pre turns name i w, (length ps <= turns)%nat -> exists w',
  process_loop fuel check (Some f) turns (range_at (pre ++ ps) (length pre) wf name) i ([wf] :: c) true name
    (Some n) [] t h w
  = Returns (mkResult true (name_after name ps) (Some n') [] t', h', w').
Proof.
  induction 1 as [wf n h t|wf p ps n h t n1 count chg h1 h2 n' h' t' Hr Hv Hc IH]; intros pre turns name i w Ht.
  - exists w. unfold range_at. rewrite app_nil_r. destruct turns; cbn [process_loop]; unfold has_next;
      cbn [start end_ andb]; by rewrite Nat.eqb_refl.
  - destruct turns as [|turns]; [cbn in Ht; lia|].
    assert (Hp : (pre ++ p :: ps) !! length pre = Some p) by by apply list_lookup_middle.
    destruct (completed_quiet (Some n1) (name_of p) i (Some (mkStatistics count chg)) h2 w) as [w1 Ew].
    destruct (IH (pre ++ [p]) turns (name_of p) (u64 (i + 1)) w1 ltac:(cbn in Ht; lia)) as [w' E].
    exists w'. rewrite name_after_cons. cbn [process_loop]. unfold has_next. cbn [start end_ andb range_at].
    rewrite (proj2 (Nat.eqb_neq _ _)) by (rewrite length_app; cbn; lia). cbn [negb].
    rewrite (range_at_current _ _ _ _ p), (range_at_next _ _ _ _ p) by done.
    cbn [mbind outcome_bind or_undefined context_push_back context_pop_front app]. rewrite Hr.
    cbn [mbind outcome_bind]. change (range_wf (range_at (pre ++ p :: ps) (S (length pre)) (wf_of p) (name_of p)))
      with (wf_of p). rewrite Hv. cbn [mbind outcome_bind]. rewrite Ew. cbn [mbind outcome_bind andb].
    rewrite <-app_assoc, length_app, Nat.add_1_r in E. exact E.
Qed.

(** A tree that was accepted has its shapes, when checks are on. *)
Lemma valid_checked wf n h h' : check = true -> valid wf n h h' -> wf_check wf fuel h' n = Returns true.
Proof.
  intros Hc. unfold valid, validate. rewrite Hc. intros ([h1 b] & _ & E)%outcome_bind_returns.
  apply outcome_bind_returns in E as ([h2 es] & _ & E). apply outcome_bind_returns in E as (ok & E1 & E2).
  injection E2 as -> -> ->. by destruct b.
Qed.
Lemma chain_checked wf ps n h t n' h' t' : check = true -> wf_check wf fuel h n = Returns true ->
  chain wf ps n h t n' h' t' -> wf_check (wf_after wf ps) fuel h' n' = Returns true.
Proof.
  intros Hc Hw Hch. revert Hw. induction Hch as [|wf p ps n h t n1 cnt chg h1 h2 n' h' t' _ Hv _ IH]; [done|].
  intros _. rewrite wf_after_cons. apply IH. by eapply valid_checked.
Qed.

(** How a process ends, with the tree that was refused: the result holds it. *)
Lemma process_ending ps wf name n h w res h' w' :
  process_run fuel check (Some f) (new_range ps wf name) c (Some n) h w = Returns (res, h', w') ->
  (exists h0, valid wf n h h0 /\ ending wf name ps n h0 0 res h')
  \/ exists es, validate fuel check wf (Some n) [] h = Returns (false, es, h') /\ res = mkResult false name (Some n) es 0.
Proof.
  unfold process_run. cbn [range_wf entry_name new_range end_ start]. rewrite Nat.sub_0_r. revert res h' w'.
  intros res h' w' ([[b es] h0] & Hv & E)%outcome_bind_returns.
  destruct (completed_quiet (Some n) name 0 None h0 w) as [w1 Ew]. rewrite Ew in E.
  cbn [mbind outcome_bind] in E. destruct b; cbn [andb] in E.
  + pose proof (validate_accepts _ _ _ _ _ _ Hv eq_refl) as ->. left. exists h0. split; [done|].
    by apply (process_loop_ok ps 0) in E; [|lia|lia].
  + rewrite process_loop_stops in E. injection E as <- <- <-. right. by exists es.
Qed.
Lemma refused_tree_returned ps wf name n h w res h' w' :
  process_run fuel check (Some f) (new_range ps wf name) c (Some n) h w = Returns (res, h', w') -> is_Some (result_ast res).
Proof. intros [(h0 & _ & He)|(es & _ & ->)]%process_ending; [by inversion He|done]. Qed.

(** Results that say the same: of one that failed, whatever the tree it holds *)
Record same_result (r r' : ProcessResult) : Prop := {
  same_ok : ok r = ok r';
  same_last : last_pass r = last_pass r';
  same_errors : errors r = errors r';
  same_changes : total_changes r = total_changes r';
  same_ast : ok r = true -> result_ast r = result_ast r'
}.

(** C5: A process accepts a tree exactly when the tree is valid for the specification of its input
    and the passes, run one after the other with the specifications before and after them in
    scope, each leave a tree that is valid for their own; it then returns the last tree, the sum
    of the changes and no errors, and with checks on that tree conforms to the last
    specification.  Otherwise it stops at the first tree that is refused, with its errors and the
    name of the pass that left it.  [pass_complete] is one that lets the process go on and leaves the
    tree ([quiet]; the default is).  What tree a failed result holds is left open: the comment in
    [passes.h] says none, the code leaves the refused one there ([refused_tree_returned]). *)
Theorem process_correct ps wf name n h w :
  (forall res h' w', process_run fuel check (Some f) (new_range ps wf name) c (Some n) h w
      = Returns (res, h', w') ->
     exists res', same_result res res' /\
       ((exists h0, valid wf n h h0 /\ ending wf name ps n h0 0 res' h')
        \/ exists es, validate fuel check wf (Some n) [] h = Returns (false, es, h')
             /\ res' = mkResult false name None es 0))
  /\ (forall h0 n' h' t', valid wf n h h0 -> chain wf ps n h0 0 n' h' t' ->
     (check = true -> wf_check (wf_after wf ps) fuel h' n' = Returns true) /\
     exists w', process_run fuel check (Some f) (new_range ps wf name) c (Some n) h w
       = Returns (mkResult true (name_after name ps) (Some n') [] t', h', w')).
Proof.
  split.
  - intros res h' w' [He|(es & Hv & ->)]%process_ending.
    + exists res. split; [by split|by left].
    + exists (mkResult false name None es 0). split; [by split|right; by exists es].
  - unfold process_run. cbn [range_wf entry_name new_range end_ start]. rewrite Nat.sub_0_r.
    intros h0 n' h' t' Hv Hc. split.
    + intros Hk. eapply chain_checked; [done| |exact Hc]. by eapply valid_checked.
    + destruct (completed_quiet (Some n) name 0 None h0 w) as [w1 Ew].
      destruct (process_loop_chain wf ps n h0 0 n' h' t' Hc [] (length ps) name 1 w1 (Nat.le_refl _)) as [w' E].
      exists w'. rewrite Hv. cbn [mbind outcome_bind]. rewrite Ew. exact E.
Qed.
End Correct.

(** The function set by default only writes. *)
Lemma default_quiet fuel language : quiet (default_pass_complete fuel language false).
Proof. intros ast name i st h w. by exists w. Qed.
