(* ===== verification/Reader.v ===== *)
(** Readers ([include/trieste/reader.h]): a tokenizer and a sequence of passes, from a file or a
    source, or from the dump of an intermediate pass. *)
From S2P Require Import Prelude.
From S2P Require Import Token.
From S2P Require Import Source.
From S2P Require Import Ast.
From S2P Require Import Wellformed.
From S2P Require Import WfOps.
From S2P Require Import Parse.
From S2P Require Import Dump.
From S2P Require Import Rewrite.
From S2P Require Import Pass.
From S2P Require Import Passes.
From stdpp Require Export gmap.
#[local] Set Warnings "-register-all".
Open Scope Z_scope.

Definition parse_only : string := "parse".

Section Reader.
Context {U : Type} {fs : FileSystem} {P : Type} `{IsPass P}.

(** [Reader]; [input_] is a path or a source. *)
Record Reader := mkReader {
  language_name_ : list Z;
  reader_passes : list P;
  parser_ : Parse U fs;
  input_ : option (path fs + SourceDef);
  reader_debug_enabled : bool;
  reader_check_enabled : bool;
  reader_debug_path : list Z;
  start_pass_ : string;
  end_pass_ : string;
  reader_offset : Z
}.

(** [Reader(language_name, passes, parser)] *)
Definition new_reader (language_name : list Z) (passes : list P) (parser : Parse U fs) : Reader :=
  mkReader language_name passes parser None false false (bytes ".") "" "" 0.

(** [language_name(name)], [debug_enabled(value)], [wf_check_enabled(value)],
    [debug_path(path)], [start_pass(pass)], [end_pass(pass)], [offset(pos)] *)
Definition set_language_name (r : Reader) (name : list Z) : Reader :=
  mkReader name (reader_passes r) (parser_ r) (input_ r) (reader_debug_enabled r)
    (reader_check_enabled r) (reader_debug_path r) (start_pass_ r) (end_pass_ r) (reader_offset r).
Definition set_debug_enabled (r : Reader) (value : bool) : Reader :=
  mkReader (language_name_ r) (reader_passes r) (parser_ r) (input_ r) value
    (reader_check_enabled r) (reader_debug_path r) (start_pass_ r) (end_pass_ r) (reader_offset r).
Definition set_wf_check_enabled (r : Reader) (value : bool) : Reader :=
  mkReader (language_name_ r) (reader_passes r) (parser_ r) (input_ r) (reader_debug_enabled r)
    value (reader_debug_path r) (start_pass_ r) (end_pass_ r) (reader_offset r).
Definition set_debug_path (r : Reader) (path : list Z) : Reader :=
  mkReader (language_name_ r) (reader_passes r) (parser_ r) (input_ r) (reader_debug_enabled r)
    (reader_check_enabled r) path (start_pass_ r) (end_pass_ r) (reader_offset r).
Definition set_start_pass (r : Reader) (pass : string) : Reader :=
  mkReader (language_name_ r) (reader_passes r) (parser_ r) (input_ r) (reader_debug_enabled r)
    (reader_check_enabled r) (reader_debug_path r) pass (end_pass_ r) (reader_offset r).
Definition set_end_pass (r : Reader) (pass : string) : Reader :=
  mkReader (language_name_ r) (reader_passes r) (parser_ r) (input_ r) (reader_debug_enabled r)
    (reader_check_enabled r) (reader_debug_path r) (start_pass_ r) pass (reader_offset r).
Definition set_offset (r : Reader) (pos : Z) : Reader :=
  mkReader (language_name_ r) (reader_passes r) (parser_ r) (input_ r) (reader_debug_enabled r)
    (reader_check_enabled r) (reader_debug_path r) (start_pass_ r) (end_pass_ r) pos.

(** [source(s)], [file(path)], [synthetic(contents, origin)]; [id] is the address of the source
    it makes. *)
Definition set_input (r : Reader) (input : path fs + SourceDef) : Reader :=
  mkReader (language_name_ r) (reader_passes r) (parser_ r) (Some input) (reader_debug_enabled r)
    (reader_check_enabled r) (reader_debug_path r) (start_pass_ r) (end_pass_ r) (reader_offset r).
Definition set_source (r : Reader) (s : SourceDef) : Reader := set_input r (inr s).
Definition set_file (r : Reader) (p : path fs) : Reader := set_input r (inl p).
Definition set_synthetic (id : positive) (r : Reader) (contents origin : list Z) : Reader :=
  set_source r (synthetic id contents origin).

(** [pass_index]: that of [parse] is 0; a name that is not there is the largest [size_t]. *)
Definition pass_index (r : Reader) (name : string) : Z :=
  if String.eqb name parse_only then 0
  else
    match find_pass name (reader_passes r) 0 with
    | Some (i, _) => Z.of_nat i + 1
    | None => size_max
    end.

(** [pass_names] *)
Definition pass_names (r : Reader) : list string := parse_only :: (name_of <$> reader_passes r).

(** [output_wf]: [back] of no passes is undefined. *)
Definition reader_output_wf (r : Reader) : outcome Wellformed :=
  wf_of <$> or_undefined (last (reader_passes r)).

(** A result that is one error node with a text *)
Definition read_error (w : World U) (msg : list Z) : ProcessResult * World U :=
  let '(e, h) := create (store w) Error (location_of_string (supply w) msg) in
  (mkResult false parse_only None [e] 0, mkWorld h (shared w) (Pos.succ (supply w))).

(** The range up to the pass to end at; [None] for an unknown pass *)
Definition end_range (r : Reader) : option (PassRange P) :=
  let pass_range := new_range (reader_passes r) (wf_ (parser_ r)) parse_only in
  if String.eqb (end_pass_ r) "" then Some pass_range
  else if String.eqb (end_pass_ r) parse_only then Some (disable pass_range)
  else let '(found, pass_range) := move_end (end_pass_ r) pass_range in
       if (found : bool) then Some pass_range else None.

Section Read.
Context (levels fuel : nat) (tokens : Registry).

(** The tree of the dump of an intermediate pass: it is not read from a directory, and a file
    that cannot be loaded is a null source. *)
Definition read_dump (r : Reader) (input : path fs + SourceDef) (w : World U)
    : outcome (option (option Node) * World U) :=
  '(source, w) ←
    match input with
    | inr s => Returns (Some (Some s), w)
    | inl p =>
        if is_directory fs p then Returns (None, w)
        else
          match load fs p with
          | None => Returns (Some None, w)
          | Some (origin, contents) =>
              Returns (Some (Some (synthetic (supply w) contents origin)),
                       mkWorld (store w) (shared w) (Pos.succ (supply w)))
          end
    end;
  match source with
  | None => Returns (None, w)
  | Some source =>
      source ← or_undefined source;
      '(ast, h, next) ← BuildAst.build_ast tokens source (store w) (supply w) (reader_offset r);
      Returns (Some ast, mkWorld h (shared w) next)
  end.

(** The tree a process starts from, and the passes it runs; or an error. *)
Definition read_input (r : Reader) (input : path fs + SourceDef) (pass_range : PassRange P)
    (w : World U) : outcome ((list Z + PassRange P * option Node) * World U) :=
  if negb (String.eqb (start_pass_ r) "") then
    let '(found, pass_range) := move_start (start_pass_ r) pass_range in
    if negb found then Returns (inl (bytes "Unknown pass: " ++ bytes (start_pass_ r)), w)
    else
      '(ast, w) ← read_dump r input w;
      match ast with
      | None => Returns (inl (bytes "Cannot use directory with intermediate pass."), w)
      | Some ast => pass_range ← next_pass pass_range; Returns (inr (pass_range, ast), w)
      end
  else
    '(ast, w) ← match input with
                | inl p => parse_path levels fuel (parser_ r) p w
                | inr s => parse fuel (parser_ r) (Some s) w
                end;
    Returns (inr (pass_range, Some ast), w).

(** [read] *)
Definition read (r : Reader) (c : WfContexts) (w : World U) (dir : OutDir)
    : outcome (ProcessResult * World U * OutDir) :=
  let failed (w : World U) (msg : list Z) := let '(res, w) := read_error w msg in Returns (res, w, dir) in
  match input_ r with
  | None => failed w (bytes "No source provided")
  | Some input =>
      match end_range r with
      | None => failed w (bytes "Unknown pass: " ++ bytes (end_pass_ r))
      | Some pass_range =>
          '(start, w) ← read_input r input pass_range w;
          match start with
          | inl msg => failed w msg
          | inr (pass_range, ast) =>
              '(result, h, dir) ←
                process_run fuel (reader_check_enabled r)
                  (Some (default_pass_complete fuel (language_name_ r)
                           (dumps (reader_debug_enabled r) (reader_debug_path r))))
                  pass_range c ast (store w) dir;
              Returns (result, mkWorld h (shared w) (supply w), dir)
          end
      end
  end.
End Read.
End Reader.
Arguments Reader : clear implicits.
