(* ===== verification/JsonText.v ===== *)
(** The text of JSON strings ([escape], [escape_unicode] and [unescape] of
    [parsers/json/json.cc]): what the three functions do to each byte or rune, the escaped
    texts that [unescape] reads back, and where it goes wrong. *)
From S2P Require Import Prelude.
From S2P Require Import Utf8.
Open Scope Z_scope.

(** * The functions *)

(** The escapes of one character that [escape] and [escape_unicode] share: the letter after
    the backslash. *)
Definition short_escape (c : Z) : option Z :=
  if c =? 8 then Some 98
  else if c =? 12 then Some 102
  else if c =? 10 then Some 110
  else if c =? 13 then Some 114
  else if c =? 9 then Some 116
  else if c =? 92 then Some 92
  else if c =? 34 then Some 34
  else None.

(** [json::escape]: the body of the loop over the bytes, and the loop *)
Definition escape_char (c : Z) : list Z :=
  match short_escape c with Some k => [92; k] | None => [c] end.
Definition escape (string : list Z) : list Z := flat_map escape_char string.

(** [json::escape_unicode]: what is written for a rune *)
Definition escape_value (r : Z) : list Z :=
  if 0x7FFF <? r then bytes "\uFFFD"
  else if 0x7F <? r then [92; 117] ++ hex_digits 4 r
  else escape_char r.

(** The loop; a turn consumes a byte at least. *)
Fixpoint escape_unicode_loop (fuel : nat) (string : list Z) : outcome (list Z) :=
  match string, fuel with
  | [], _ => Returns []
  | _, O => Undefined
  | _, S fuel =>
      '(r, s) ← utf8_to_rune string false;
      os ← escape_unicode_loop fuel (drop (length s) string);
      Returns (escape_value r ++ os)
  end.
Definition escape_unicode (string : list Z) : outcome (list Z) :=
  escape_unicode_loop (length string) string.

(** The [switch] of [json::unescape] on the character after a backslash *)
Definition short_unescape (k : Z) : option Z :=
  if k =? 98 then Some 8
  else if k =? 102 then Some 12
  else if k =? 110 then Some 10
  else if k =? 114 then Some 13
  else if k =? 116 then Some 9
  else if (k =? 92) || (k =? 47) || (k =? 34) then Some k
  else None.

(** Its loop: a backslash at the end of the text makes the code read the character at
    [end()]. *)
Fixpoint unescape_short (temp : list Z) : outcome (list Z) :=
  match temp with
  | [] => Returns []
  | c :: it =>
      if c =? 92 then
        match it with
        | [] => Undefined
        | k :: it =>
            match short_unescape k with
            | None => Throws
            | Some c => result ← unescape_short it; Returns (c :: result)
            end
        end
      else result ← unescape_short it; Returns (c :: result)
  end.

(** [json::unescape] *)
Definition unescape (string : list Z) : outcome (list Z) :=
  temp ← unescape_hexunicode string; unescape_short temp.

(** * The texts that are read back *)

(** The letters that make [unescape_hexunicode] take a backslash for the start of a
    hexadecimal escape. *)
Definition hex_letter (c : Z) : bool := one_of [120; 117; 85] c.
Definition starts_hex (s : list Z) : bool :=
  match s with c :: _ => hex_letter c | [] => false end.

(** A piece of an escaped text: the text, what [unescape_hexunicode] makes of it, and what it
    stands for. *)
Inductive piece : list Z -> list Z -> list Z -> Prop :=
  | piece_plain c : c <> 92 -> piece [c] [c] [c]
  | piece_short k c : short_unescape k = Some c -> piece [92; k] [92; k] [c]
  | piece_hex h v : length h = 4%nat -> stoul16 h = Returns v -> 0 <= v < 2 ^ 32 ->
      92 ∉ write_rune v -> piece (92 :: 117 :: h) (write_rune v) (write_rune v).

(** An escaped text and what it stands for: after an escaped backslash, no piece starts with
    a letter that would make a hexadecimal escape of the two. *)
Inductive escaped : list Z -> list Z -> list Z -> Prop :=
  | escaped_nil : escaped [] [] []
  | escaped_cons e m s es ms ss : piece e m s -> escaped es ms ss ->
      (e = [92; 92] -> starts_hex es = false) -> escaped (e ++ es) (m ++ ms) (s ++ ss).

Lemma backslash_not_hex es : starts_hex es = false ->
  utf8_to_rune (92 :: es) true = Returns (92, [92]).
Proof.
  intros H. unfold utf8_to_rune. change (92 =? 92) with true. cbn [andb]. destruct es as [|c es]; [done|].
  unfold starts_hex, hex_letter, one_of in H. cbn [existsb] in H.
  destruct (Z.eqb_spec c 120) as [|H1]; [done|]. destruct (Z.eqb_spec c 117) as [|H2]; [done|].
  destruct (Z.eqb_spec c 85) as [|H3]; [done|]. clear H.
  rewrite !andb_false_r. done.
Qed.

Lemma unescape_loop_backslash fuel es : starts_hex es = false ->
  unescape_loop (S fuel) (92 :: es) = os ← unescape_loop fuel es; Returns (92 :: os).
Proof.
  intros H. cbn [unescape_loop]. rewrite (proj2 (Z.eqb_eq 92 92) eq_refl), backslash_not_hex by done.
  done.
Qed.

Lemma unescape_loop_plain fuel c es : c <> 92 ->
  unescape_loop (S fuel) (c :: es) = os ← unescape_loop fuel es; Returns (c :: os).
Proof. intros H. cbn [unescape_loop]. by rewrite (proj2 (Z.eqb_neq c 92)) by done. Qed.

Lemma short_letter k c : short_unescape k = Some c -> hex_letter k = false.
Proof.
  intros H. unfold hex_letter, one_of. cbn [existsb].
  destruct (Z.eqb_spec k 120); [by subst; cbv in H|]. destruct (Z.eqb_spec k 117); [by subst; cbv in H|].
  by destruct (Z.eqb_spec k 85); [subst; cbv in H|].
Qed.

Lemma plain_loop m es : 92 ∉ m ->
  unescape_short (m ++ es) = os ← unescape_short es; Returns (m ++ os).
Proof.
  induction m as [|c m IH]; intros Hm; cbn [app unescape_short].
  - by destruct (unescape_short es).
  - apply not_elem_of_cons in Hm as [Hc Hm]. rewrite (proj2 (Z.eqb_neq c 92)) by congruence.
    rewrite IH by done. by destruct (unescape_short es).
Qed.

Lemma piece_short_stage e m s es : piece e m s ->
  unescape_short (m ++ es) = os ← unescape_short es; Returns (s ++ os).
Proof.
  intros [c Hc|k c Hk|h v _ _ _ Hv]; [apply plain_loop| |by apply plain_loop].
  - intros E%list_elem_of_singleton. congruence.
  - cbn [app]. change (unescape_short (92 :: k :: es)) with
      (match short_unescape k with None => Throws
       | Some c => result ← unescape_short es; Returns (c :: result) end). by rewrite Hk.
Qed.

Lemma piece_hex_stage fuel e m s es : piece e m s -> (e = [92; 92] -> starts_hex es = false) ->
  (length (e ++ es) <= fuel)%nat ->
  exists fuel', (length es <= fuel')%nat /\
    unescape_loop fuel (e ++ es) = os ← unescape_loop fuel' es; Returns (m ++ os).
Proof.
  intros Hp Hs Hf. destruct Hp as [c Hc|k c Hk|h v Hl Hh Hv _]; cbn [app length] in *.
  - destruct fuel as [|fuel]; [lia|]. exists fuel. split; [lia|]. by apply unescape_loop_plain.
  - destruct fuel as [|[|fuel]]; [lia..|]. exists fuel. split; [lia|].
    rewrite unescape_loop_backslash by exact (short_letter k c Hk).
    destruct (decide (k = 92)) as [->|Hne].
    + rewrite unescape_loop_backslash by by apply Hs. by destruct (unescape_loop fuel es).
    + rewrite unescape_loop_plain by done. by destruct (unescape_loop fuel es).
  - destruct fuel as [|fuel]; [lia|]. exists fuel. rewrite length_app in Hf. split; [lia|].
    cbn [unescape_loop]. rewrite (proj2 (Z.eqb_eq 92 92) eq_refl).
    rewrite (unescape_u h es v Hl Hh Hv). cbn -[drop write_rune].
    change (92 :: 117 :: h ++ es) with ((92 :: 117 :: h) ++ es).
    rewrite drop_app_length' by done. done.
Qed.

(** [unescape] reads an escaped text back. *)
Lemma escaped_unescape e m s : escaped e m s -> unescape e = Returns s.
Proof.
  intros H. unfold unescape.
  assert (forall fuel, (length e <= fuel)%nat -> unescape_loop fuel e = Returns m) as Hhex.
  { induction H as [|e m s es ms ss Hp _ IH Hs]; intros fuel Hf; [by destruct fuel|].
    destruct (piece_hex_stage fuel e m s es Hp Hs Hf) as (fuel' & Hf' & ->).
    by rewrite IH. }
  unfold unescape_hexunicode. rewrite Hhex by done. cbn [mbind outcome_bind].
  clear Hhex. induction H as [|e m s es ms ss Hp _ IH _]; [done|].
  by rewrite (piece_short_stage e m s ms Hp), IH.
Qed.

(** * What the escaping functions write *)

(** No backslash of the text is followed by the letter of a hexadecimal escape. *)
Fixpoint no_hex_look (vs : list Z) : bool :=
  match vs with
  | [] => true
  | v :: vs => negb ((v =? 92) && starts_hex vs) && no_hex_look vs
  end.

Lemma short_round_trip c k : short_escape c = Some k -> short_unescape k = Some c.
Proof.
  unfold short_escape. intros H.
  repeat (case_match eqn:E; [injection H as <-; apply Z.eqb_eq in E; by subst|clear E]). done.
Qed.

Lemma escape_char_piece c : piece (escape_char c) (escape_char c) [c].
Proof.
  unfold escape_char. destruct (short_escape c) as [k|] eqn:E.
  - apply piece_short. by apply short_round_trip.
  - apply piece_plain. by intros ->.
Qed.

Lemma escape_char_backslash c : escape_char c = [92; 92] -> c = 92.
Proof.
  unfold escape_char. destruct (short_escape c) as [k|] eqn:E; [|by intros [=]].
  intros [= ->]. apply short_round_trip in E. by injection E.
Qed.

Lemma starts_escape_char c es : hex_letter c = false -> starts_hex (escape_char c ++ es) = false.
Proof. intros H. unfold escape_char. by destruct (short_escape c). Qed.

(** The pieces of a list of characters, whose last two stages agree when the pieces' do *)
Lemma escaped_pieces (e m s : Z -> list Z) vs : Forall (fun v => piece (e v) (m v) (s v)) vs ->
  (forall v, e v = [92; 92] -> v = 92) ->
  (forall v es, v ∈ vs -> hex_letter v = false -> starts_hex (e v ++ es) = false) ->
  no_hex_look vs = true -> escaped (flat_map e vs) (flat_map m vs) (flat_map s vs).
Proof.
  intros Hp Hb. induction Hp as [|v vs Hv _ IH]; intros Hs Hn; [constructor|].
  cbn [no_hex_look] in Hn. apply andb_true_iff in Hn as [Hv' Hn]. cbn [flat_map].
  constructor; [done|apply IH; [|done]; intros; apply Hs; [by right|done]|].
  intros ->%Hb. change (92 =? 92) with true in Hv'. cbn [andb] in Hv'.
  destruct vs as [|w vs]; [done|]. cbn [starts_hex flat_map] in *.
  apply Hs; [right; left|by apply negb_true_iff].
Qed.

(** [unescape] undoes [escape] on every string of bytes in which no backslash is followed
    by [x], [u] or [U]; [escape] writes no control character that it has an escape for and no
    quote without its backslash. *)
Theorem escape_round_trip (s : list Z) (Hs : no_hex_look s = true) :
  unescape (escape s) = Returns s.
Proof.
  apply (escaped_unescape _ (flat_map escape_char s)).
  replace s with (flat_map (fun c : Z => [c]) s) at 3 by (clear; induction s; cbn; congruence).
  apply escaped_pieces; [|apply escape_char_backslash|intros; by apply starts_escape_char|done].
  apply Forall_forall. intros c _. apply escape_char_piece.
Qed.

Lemma escape_round_trip_witness :
  unescape (escape (bytes "a" ++ [10; 34; 233; 92])) = Returns (bytes "a" ++ [10; 34; 233; 92]).
Proof. apply (escape_round_trip (bytes "a" ++ [10; 34; 233; 92])). reflexivity. Defined.

(** The runes [escape_unicode] can escape *)
Definition short_rune (v : Z) : Prop := 0 <= v <= 0x7FFF.

Lemma escape_unicode_written vs fuel : Forall short_rune vs ->
  (length (write_runes vs) <= fuel)%nat ->
  escape_unicode_loop fuel (write_runes vs) = Returns (flat_map escape_value vs).
Proof.
  intros H. revert fuel. induction H as [|v vs Hv _ IH]; intros fuel Hf; [by destruct fuel|].
  assert (Hm : 0 <= v <= Max4) by (unfold short_rune, Max4 in *; lia).
  unfold write_runes in *. cbn [flat_map] in *. rewrite length_app in Hf.
  destruct (decode_write v (flat_map write_rune vs) Hm) as (c0 & cs & E & _).
  pose proof (to_rune_write v (flat_map write_rune vs) Hm) as D. rewrite E in *.
  destruct fuel as [|fuel]; cbn [length app] in *; [lia|]. cbn [escape_unicode_loop].
  rewrite D. cbn -[drop]. change (c0 :: cs ++ ?x) with ((c0 :: cs) ++ x).
  rewrite drop_app_length' by (cbn [length]; lia). by rewrite IH by lia.
Qed.

(** What [unescape_hexunicode] makes of the escape of a rune *)
Definition value_middle (v : Z) : list Z := if 0x7F <? v then write_rune v else escape_char v.

Lemma write_rune_no_backslash v : 0x7F < v <= 0x7FFF -> 92 ∉ write_rune v.
Proof.
  intros Hv Hin. pose proof (decode_write v [] ltac:(unfold Max4; lia)) as (c0 & cs & E & _).
  destruct (Z.le_gt_cases v Max2) as [H2|H2].
  - rewrite write_rune_2 in Hin by (unfold Max1, Max2 in *; lia).
    repeat (apply elem_of_cons in Hin as [Hin|Hin]); [..|by apply elem_of_nil in Hin]; arith.
  - rewrite write_rune_3 in Hin by (unfold Max2, Max3 in *; lia).
    repeat (apply elem_of_cons in Hin as [Hin|Hin]); [..|by apply elem_of_nil in Hin]; arith.
Qed.

Lemma escape_value_piece v : short_rune v ->
  piece (escape_value v) (value_middle v) (write_rune v).
Proof.
  unfold short_rune. intros Hv. unfold escape_value, value_middle.
  rewrite (proj2 (Z.ltb_ge 0x7FFF v)) by lia. destruct (Z.ltb_spec 0x7F v) as [H|H].
  - apply piece_hex; [apply length_hex_digits|apply stoul16_digits; lia|lia|].
    apply write_rune_no_backslash. lia.
  - rewrite write_rune_1 by (unfold Max1; lia). apply escape_char_piece.
Qed.

Lemma escape_value_backslash v : escape_value v = [92; 92] -> v = 92.
Proof.
  unfold escape_value. case_match; [done|]. case_match; [done|]. apply escape_char_backslash.
Qed.

Lemma starts_escape_value v es : short_rune v -> hex_letter v = false ->
  starts_hex (escape_value v ++ es) = false.
Proof.
  intros Hv H. unfold escape_value. case_match; [done|]. case_match; [done|].
  by apply starts_escape_char.
Qed.

Lemma escape_value_ascii v : short_rune v -> Forall (fun c => 0 <= c < 128) (escape_value v).
Proof.
  unfold short_rune. intros Hv. unfold escape_value. rewrite (proj2 (Z.ltb_ge 0x7FFF v)) by lia.
  destruct (Z.ltb_spec 0x7F v).
  - change ([92; 117] ++ hex_digits 4 v) with (92 :: 117 :: hex_digits 4 v). rewrite !Forall_cons. split_and!; [lia..|].
    eapply Forall_impl; [exact (plain_hex_digits 4 v ltac:(lia))|]. intros c (d & Hd & ->).
    unfold hex_char. case_match; lia.
  - unfold escape_char. destruct (short_escape v) as [k|] eqn:E.
    + unfold short_escape in E. repeat (case_match; [injection E as <-; repeat constructor; lia|]). done.
    + repeat constructor; lia.
Qed.

(** On the text of runes up to U+7FFF [json::escape_unicode] writes plain ASCII, and
    [unescape] reads the text back when no backslash of it is followed by [x], [u] or [U]. *)
Theorem escape_unicode_round_trip (vs : list Z) (Hvs : Forall short_rune vs) :
  exists e, escape_unicode (write_runes vs) = Returns e /\ Forall (fun c => 0 <= c < 128) e
    /\ (no_hex_look vs = true -> unescape e = Returns (write_runes vs)).
Proof.
  exists (flat_map escape_value vs). split_and!.
  - by apply escape_unicode_written.
  - induction Hvs as [|v vs Hv _ IH]; [constructor|]. apply Forall_app. split; [by apply escape_value_ascii|done].
  - intros Hn. apply (escaped_unescape _ (flat_map value_middle vs)).
    apply escaped_pieces; [|apply escape_value_backslash| |done].
    + eapply Forall_impl; [exact Hvs|]. apply escape_value_piece.
    + intros v es Hv. apply starts_escape_value. by apply (proj1 (Forall_forall _ _) Hvs v).
Qed.

Lemma escape_unicode_round_trip_witness :
  exists e, escape_unicode (write_runes [92; 0xE9; 10; 97]) = Returns e
    /\ unescape e = Returns (write_runes [92; 0xE9; 10; 97]).
Proof.
  destruct (escape_unicode_round_trip [92; 0xE9; 10; 97]) as (e & H1 & _ & H2).
  - unfold short_rune. repeat constructor; lia.
  - exists e. split; [exact H1|apply H2; reflexivity].
Defined.

(** * Where the functions part from their documentation *)

(** The escaped backslash of a valid JSON string is not skipped by [unescape_hexunicode]: the
    string of the six characters [\u0041] is taken for an [A] with a backslash, which is no
    escape. *)
Lemma unescape_escaped_backslash : unescape (bytes "\\u0041") = Throws.
Proof. reflexivity. Qed.

(** A backslash that was written as a hexadecimal escape starts an escape again. *)
Lemma unescape_twice : unescape (bytes "\u005cn") = Returns [10].
Proof. reflexivity. Qed.

(** A surrogate pair is decoded as two runes, and the result is not UTF-8. *)
Lemma unescape_surrogates :
  unescape (bytes "\uD83D\uDE00") = Returns (write_rune 0xD83D ++ write_rune 0xDE00)
  /\ unescape (bytes "\uD83D\uDE00") <> Returns (write_rune 0x1F600).
Proof. split; [reflexivity|discriminate]. Qed.

(** A backslash at the end of the text is read past the end. *)
Lemma unescape_trailing_backslash : unescape (bytes "a\") = Undefined.
Proof. reflexivity. Qed.

(** [escape] leaves the control characters that have no short escape as they are, though a
    JSON string may not hold them. *)
Lemma escape_keeps_controls : escape [1; 31; 127] = [1; 31; 127].
Proof. reflexivity. Qed.
