(* ===== verification/JsonWriter.v ===== *)
(** The well-formedness of JSON trees ([parsers/include/trieste/json.h]) and the text of a tree
    ([parsers/json/writer.cc]). *)
From S2P Require Import Prelude.
From S2P Require Import Token.
From S2P Require Import Source.
From S2P Require Import Ast.
From S2P Require Import Wellformed.
From S2P Require Import WfOps.
From S2P Require Import JsonParse.
From stdpp Require Export gmap.
Open Scope Z_scope.

(** * [json::wf] *)

(** [wf_value_tokens] *)
Definition wf_value_tokens : Choice :=
  choice_or_token (choice_or_token (choice_or_token (choice_or_token (choice_or_token
    (token_or_token Object Array) JString) Number) JTrue) JFalse) Null.

Definition json_wf_shapes : outcome Wellformed :=
  top ← sequence_bound (choice_plus wf_value_tokens) 1;
  member ← field_times_field (implicit_field Key) (named_choice Value wf_value_tokens);
  error ← token_times_token ErrorMsg ErrorAst;
  let wf := shape_or_shape (shape_sequence Token.Top top) (shape_sequence Object (token_plus Member)) in
  let wf := wf_moved_or_shape wf (shape_bind (shape_fields Member member) Key) in
  let wf := wf_moved_or_shape wf (shape_sequence Array (choice_plus wf_value_tokens)) in
  let wf := wf_moved_or_shape wf (shape_fields Error error) in
  Returns (wf_moved_or_shape wf (shape_sequence ErrorSeq (token_plus Error))).

(** The static object [json::wf]; its initialiser does not throw ([json_wf_defined]). *)
Definition json_wf : Wellformed :=
  match json_wf_shapes with Returns wf => wf | _ => empty_wf end.

Lemma json_wf_defined : json_wf_shapes = Returns json_wf.
Proof. reflexivity. Qed.

(** * [write_value] *)

Record WriteSettings := mkWriteSettings {
  prettyprint : bool;
  sort_keys : bool;
  settings_indent : list Z
}.

(** [std::sort] of locations, which compare by their text; equal texts are in order. *)
Fixpoint insert_location (l : Location) (sorted : list Location) : outcome (list Location) :=
  match sorted with
  | [] => Returns [l]
  | x :: rest =>
      gt ← location_lt x l;
      if (gt : bool) then rest ← insert_location l rest; Returns (x :: rest)
      else Returns (l :: sorted)
  end.
Fixpoint sort_locations (l : list Location) : outcome (list Location) :=
  match l with
  | [] => Returns []
  | x :: l => sorted ← sort_locations l; insert_location x sorted
  end.

Section Write.
Context (c : WfContexts) (h : heap) (settings : WriteSettings).
Context (write : list Z -> Node -> outcome (list Z)).

Definition if_pretty (s : list Z) : list Z := if prettyprint settings then s else [].

(** The members in the order they are written: [std::transform] and the loop over the keys *)
Fixpoint member_keys (members : list Node) : outcome (list Location) :=
  match members with
  | [] => Returns []
  | member :: members =>
      key ← node_slash c h member Key;
      keys ← member_keys members;
      Returns (location_of h (lookup_node key) :: keys)
  end.
Fixpoint key_defs (object : Node) (keys : list Location) : outcome (list Node) :=
  match keys with
  | [] => Returns []
  | key :: keys =>
      defs ← lookdown h object key;
      members ← key_defs object keys;
      Returns (defs ++ members)
  end.
Definition object_members (object : Node) : outcome (list Node) :=
  if sort_keys settings then
    keys ← member_keys (children_of h object);
    keys ← sort_locations keys;
    key_defs object keys
  else Returns (children_of h object).

(** The loop over the members; [size] is that of the object. *)
Fixpoint write_members (new_indent : list Z) (size : Z) (members : list Node) (i : Z)
    : outcome (list Z) :=
  match members with
  | [] => Returns []
  | member :: members =>
      key ← node_slash c h member Key;
      k ← write new_indent (lookup_node key);
      value ← node_slash c h member Value;
      v ← write new_indent (lookup_node value);
      rest ← write_members new_indent size members (i + 1);
      Returns (if_pretty new_indent ++ k ++ [58] ++ if_pretty [32] ++ v
               ++ (if i <? size - 1 then [44] else []) ++ if_pretty [10] ++ rest)
  end.

(** [write_object] *)
Definition write_object (indent : list Z) (object : Node) : outcome (list Z) :=
  match children_of h object with
  | [] => Returns (bytes "{}")
  | _ =>
      let new_indent := indent ++ settings_indent settings in
      members ← object_members object;
      body ← write_members new_indent (size_of (children_of h object)) members 0;
      Returns ([123] ++ if_pretty [10] ++ body ++ if_pretty indent ++ [125])
  end.

Fixpoint write_elements (new_indent : list Z) (size : Z) (elements : list Node) (i : Z)
    : outcome (list Z) :=
  match elements with
  | [] => Returns []
  | element :: elements =>
      v ← write new_indent element;
      rest ← write_elements new_indent size elements (i + 1);
      Returns (if_pretty new_indent ++ v ++ (if i <? size - 1 then [44] else []) ++ if_pretty [10]
               ++ rest)
  end.

(** [write_array] *)
Definition write_array (indent : list Z) (array : Node) : outcome (list Z) :=
  match children_of h array with
  | [] => Returns (bytes "[]")
  | elements =>
      let new_indent := indent ++ settings_indent settings in
      body ← write_elements new_indent (size_of elements) elements 0;
      Returns ([91] ++ if_pretty [10] ++ body ++ if_pretty indent ++ [93])
  end.
End Write.

(** The tokens [write_value] prints by their location *)
Definition scalar_tokens : list Token := [Number; JString; JTrue; JFalse; Null].

(** [write_value]: the recursion goes down the tree. *)
Fixpoint write_value (fuel : nat) (c : WfContexts) (h : heap) (settings : WriteSettings)
    (indent : list Z) (value : Node) : outcome (list Z) :=
  match fuel with
  | O => Undefined
  | S fuel =>
      let write := write_value fuel c h settings in
      if token_in scalar_tokens (type_of h value) then view (location_of h value)
      else if token_eqb (type_of h value) Key then
        v ← view (location_of h value); Returns ([34] ++ v ++ [34])
      else if token_eqb (type_of h value) Object then write_object c h settings write indent value
      else if token_eqb (type_of h value) Array then write_array h settings write indent value
      else if token_eqb (type_of h value) Token.Top then
        front ← or_undefined (head (children_of h value)); write indent front
      else Throws
  end.

(** [json::to_string]; a tree is at most as deep as the store is large. *)
Definition to_string (c : WfContexts) (h : heap) (json : Node) (prettyprint sort_keys : bool)
    (indent : list Z) : outcome (list Z) :=
  write_value (S (size h)) (wf_context c json_wf) h (mkWriteSettings prettyprint sort_keys indent)
    [] json.
(** Its default arguments *)
Definition default_indent : list Z := bytes "  ".

(** The function [json::writer] gives to its [Writer]: each value of [Contents] and a newline *)
Fixpoint write_contents (c : WfContexts) (h : heap) (settings : WriteSettings)
    (values : list Node) : outcome (list Z) :=
  match values with
  | [] => Returns []
  | value :: values =>
      v ← write_value (S (size h)) c h settings [] value;
      rest ← write_contents c h settings values;
      Returns (v ++ [10] ++ rest)
  end.
Definition json_write (c : WfContexts) (h : heap) (prettyprint sort_keys : bool)
    (indent : list Z) (contents : Node) : outcome (list Z) :=
  write_contents c h (mkWriteSettings prettyprint sort_keys indent) (children_of h contents).
