(* ===== verification/Stod.v ===== *)
(** [std::stod] on binary64, as [json::equal] and [json::get_number] call it: the subject
    sequence of [strtod], its exact value rounded to the nearest double, and the errors.
    A double is Stdlib's [spec_float]. *)
From S2P Require Import Prelude.
From S2P Require Import Utf8.
From Stdlib Require Import SpecFloat.
Open Scope Z_scope.

Definition double_prec : Z := 53.
Definition double_emax : Z := 1024.

(** * The subject sequence *)

(** A run of digits in a base: its value, how many digits, and what follows. *)
Fixpoint digit_run (digit : Z -> option Z) (base acc n : Z) (s : list Z) : Z * Z * list Z :=
  match s with
  | c :: s' =>
      match digit c with
      | Some d => digit_run digit base (acc * base + d) (n + 1) s'
      | None => (acc, n, s)
      end
  | [] => (acc, n, [])
  end.
Definition decimal_digit (c : Z) : option Z :=
  if (48 <=? c) && (c <=? 57) then Some (c - 48) else None.

(** A digit sequence with an optional point: the digits as one number, how many of them
    follow the point, and what follows; there must be a digit. *)
Definition fraction (digit : Z -> option Z) (base : Z) (s : list Z) : option (Z * Z * list Z) :=
  let '(m, n, s) := digit_run digit base 0 0 s in
  let '(m, k, s) :=
    match s with
    | 46 :: s' => digit_run digit base m 0 s'
    | _ => (m, 0, s)
    end in
  if (n =? 0) && (k =? 0) then None else Some (m, k, s).

(** An optional exponent: a letter, a sign and digits, or nothing. *)
Definition exponent (letter : Z -> bool) (s : list Z) : Z :=
  match s with
  | c :: s =>
      if letter c then
        let '(neg, s) := match s with 45 :: s => (true, s) | 43 :: s => (false, s) | _ => (false, s) end in
        let '(e, n, _) := digit_run decimal_digit 10 0 0 s in
        if (neg : bool) then - e else e
      else 0
  | [] => 0
  end.

Definition lower (c : Z) : Z := if (65 <=? c) && (c <=? 90) then c + 32 else c.
Definition starts_word (w s : list Z) : bool := list_eqb (lower <$> take (length w) s) w.

(** * The value *)

(** The double nearest to [m1 / m2]; a division with one rounding. *)
Definition round_ratio (neg : bool) (m1 m2 : Z) : spec_float :=
  match m1, m2 with
  | Z.pos p1, Z.pos p2 =>
      SFdiv double_prec double_emax (S754_finite neg p1 0) (S754_finite false p2 0)
  | _, _ => S754_zero neg
  end.

(** [m * base ^ e] *)
Definition scaled (neg : bool) (m base e : Z) : spec_float :=
  if 0 <=? e then round_ratio neg (m * base ^ e) 1 else round_ratio neg m (base ^ (- e)).

(** The result is the exact value [m * base ^ e]. *)
Definition exact_value (f : spec_float) (m base e : Z) : bool :=
  match f with
  | S754_finite _ p x =>
      let '(a, b) := if 0 <=? e then (m * base ^ e, 1) else (m, base ^ (- e)) in
      if 0 <=? x then Z.pos p * 2 ^ x * b =? a else Z.pos p * b =? a * 2 ^ (- x)
  | S754_zero _ => m =? 0
  | _ => false
  end.

(** [errno == ERANGE]: the value overflows, or it is below the normal numbers and not exact. *)
Definition out_of_range (f : spec_float) (m base e : Z) : bool :=
  match f with
  | S754_infinity _ => true
  | S754_zero _ => negb (m =? 0)
  | S754_finite _ p x => (Z.pos p <? 2 ^ (double_prec - 1)) && negb (exact_value f m base e)
  | S754_nan => false
  end.

Definition finite_result (neg : bool) (m base e : Z) : outcome spec_float :=
  let f := scaled neg m base e in
  if out_of_range f m base e then Throws else Returns f.

(** [std::stod]: without a conversion it throws [std::invalid_argument], and
    [std::out_of_range] when [strtod] sets [ERANGE]. *)
Definition stod (s : list Z) : outcome spec_float :=
  let '(neg, s) :=
    match skip_space s with
    | 45 :: s => (true, s)
    | 43 :: s => (false, s)
    | s => (false, s)
    end in
  if starts_word (bytes "inf") s then Returns (S754_infinity neg)
  else if starts_word (bytes "nan") s then Returns S754_nan
  else
    match (if starts_word (bytes "0x") s then fraction hex_digit 16 (drop 2 s) else None) with
    | Some (m, k, s) => finite_result neg m 2 (exponent (fun c => one_of [112; 80] c) s - 4 * k)
    | None =>
        match fraction decimal_digit 10 s with
        | Some (m, k, s) => finite_result neg m 10 (exponent (fun c => one_of [101; 69] c) s - k)
        | None => Throws
        end
    end.

(** [==] on doubles *)
Definition double_eqb (x y : spec_float) : bool := SFeqb x y.

Lemma stod_half : stod (bytes "0.5") = Returns (S754_finite false 4503599627370496 (-53)).
Proof. reflexivity. Qed.
Lemma stod_same : (x ← stod (bytes "1.25e2"); y ← stod (bytes "125"); Returns (double_eqb x y)) = Returns true.
Proof. vm_compute. reflexivity. Qed.
