(* ===== verification/JsonDoc.v ===== *)
(** JSON documents ([parsers/json/json.cc]): equality, the constructors and accessors of
    values, pointers (RFC 6901) and patches (RFC 6902). *)
From S2P Require Import Prelude.
From S2P Require Import Token.
From S2P Require Import Source.
From S2P Require Import Ast.
From S2P Require Import Wellformed.
From S2P Require Import WfOps.
From S2P Require Import JsonParse.
From S2P Require Import JsonWriter.
From S2P Require Import Stod.
From Stdlib Require SpecFloat.
From stdpp Require Export gmap.
Open Scope Z_scope.

(** * Equality *)

Section Equal.
Context (h : heap).

(** [x->front()->location().view()] *)
Definition member_view (x : Node) : outcome (list Z) :=
  front ← or_undefined (head (children_of h x)); view (location_of h front).
Definition member_back (x : Node) : outcome Node := or_undefined (last (children_of h x)).

(** [std::sort] of the members by the view of their first child *)
Fixpoint insert_member (x : Node) (sorted : list Node) : outcome (list Node) :=
  match sorted with
  | [] => Returns [x]
  | y :: rest =>
      vy ← member_view y; vx ← member_view x;
      if string_ltb vy vx then rest ← insert_member x rest; Returns (y :: rest)
      else Returns (x :: sorted)
  end.
Fixpoint sort_members (l : list Node) : outcome (list Node) :=
  match l with
  | [] => Returns []
  | x :: l => sorted ← sort_members l; insert_member x sorted
  end.

Section Ranges.
Context (value_equal : Node -> Node -> outcome bool).

(** The loop of [object_equal] over two vectors of one size *)
Fixpoint members_equal (lhs rhs : list Node) : outcome bool :=
  match lhs, rhs with
  | x :: lhs, y :: rhs =>
      vx ← member_view x; vy ← member_view y;
      if negb (list_eqb vx vy) then Returns false
      else
        bx ← member_back x; by_ ← member_back y;
        e ← value_equal bx by_;
        if (e : bool) then members_equal lhs rhs else Returns false
  | _, _ => Returns true
  end.
Definition object_equal (lhs rhs : Node) : outcome bool :=
  if negb (length (children_of h lhs) =? length (children_of h rhs))%nat then Returns false
  else
    lhs_members ← sort_members (children_of h lhs);
    rhs_members ← sort_members (children_of h rhs);
    members_equal lhs_members rhs_members.

Fixpoint elements_equal (lhs rhs : list Node) : outcome bool :=
  match lhs, rhs with
  | x :: lhs, y :: rhs =>
      e ← value_equal x y; if (e : bool) then elements_equal lhs rhs else Returns false
  | _, _ => Returns true
  end.
Definition array_equal (lhs rhs : Node) : outcome bool :=
  if negb (length (children_of h lhs) =? length (children_of h rhs))%nat then Returns false
  else elements_equal (children_of h lhs) (children_of h rhs).
End Ranges.

Fixpoint value_equal (fuel : nat) (lhs rhs : Node) : outcome bool :=
  match fuel with
  | O => Undefined
  | S fuel =>
      if negb (token_eqb (type_of h lhs) (type_of h rhs)) then Returns false
      else if token_eqb (type_of h lhs) Object then object_equal (value_equal fuel) lhs rhs
      else if token_eqb (type_of h lhs) Array then array_equal (value_equal fuel) lhs rhs
      else if token_eqb (type_of h lhs) Token.Top then array_equal (value_equal fuel) lhs rhs
      else if token_eqb (type_of h lhs) Number then
        l ← view (location_of h lhs); lhs_value ← stod l;
        r ← view (location_of h rhs); rhs_value ← stod r;
        Returns (double_eqb lhs_value rhs_value)
      else location_eq (location_of h lhs) (location_of h rhs)
  end.

(** [json::equal]; a tree is at most as deep as the store is large. *)
Definition equal (lhs rhs : Node) : outcome bool := value_equal (S (size h)) lhs rhs.
End Equal.

(** * Pieces of a document *)

(** [Token ^ Location] *)
Definition located (h : heap) (type : Token) (loc : Location) : Node * heap := create h type loc.

(** [node->clone()]; the copy goes down the tree. *)
Definition clone_node (h : heap) (node : Node) : outcome (Node * heap) := clone (S (size h)) h node.

(** [err(node, msg)] of internal.h, with the location of the message *)
Definition err (h : heap) (node : Node) (msg : Location) : outcome (Node * heap) :=
  let '(e, h) := create_token h Error in
  let '(m, h) := create h ErrorMsg msg in
  let h := push_back h e (Some m) in
  let '(a, h) := create_token h ErrorAst in
  '(copy, h) ← clone_node h node;
  let h := push_back h a (Some copy) in
  Returns (e, push_back h e (Some a)).

(** [get_boolean], [get_string], [get_number]; an empty optional is [None]. *)
Definition get_boolean (h : heap) (node : Node) : option bool :=
  if token_eqb (type_of h node) JTrue then Some true
  else if token_eqb (type_of h node) JFalse then Some false
  else None.
Definition get_string (h : heap) (node : Node) : option Location :=
  if token_eqb (type_of h node) JString then
    let l := location_of h node in Some (mkLocation (source l) (u64 (pos l + 1)) (u64 (len l - 2)))
  else None.
(** The view is read inside the [try]; every exception of it and of [stod] is caught. *)
Definition get_number (h : heap) (node : Node) : outcome (option SpecFloat.spec_float) :=
  if token_eqb (type_of h node) Number then
    match (v ← view (location_of h node); stod v) with
    | Returns x => Returns (Some x)
    | Throws => Returns None
    | Undefined => Undefined
    end
  else Returns None.

(** [wf.build_st(node)]: two turns a node *)
Definition build_st (h : heap) (node : Node) : outcome (heap * bool) :=
  wf_build_st json_wf (2 * size h + 2) h node.

(** The constructors [object], [member], [array], [boolean], [null], [value(string)];
    an [initializer_list] is pushed in order.  The addresses of the sources that are made of
    strings are [id]: nothing here compares them. *)
Definition json_object (h : heap) (members : list Node) : outcome (Node * heap) :=
  let '(object, h) := create_token h Object in
  let h := push_back_range h object members in
  '(h, _) ← build_st h object;
  Returns (object, h).
Definition json_member (h : heap) (key value : Node) : Node * heap :=
  let '(m, h) := create_token h Member in
  (m, push_back (push_back h m (Some key)) m (Some value)).
Definition json_array (h : heap) (elements : list Node) : Node * heap :=
  let '(a, h) := create_token h Array in (a, push_back_range h a elements).
Definition json_string (id : positive) (h : heap) (value : list Z) : Node * heap :=
  create h JString (location_of_string id ([34] ++ value ++ [34])).
Definition json_boolean (id : positive) (h : heap) (value : bool) : Node * heap :=
  if value then create h JTrue (location_of_string id (bytes "true"))
  else create h JFalse (location_of_string id (bytes "false")).
Definition json_null (id : positive) (h : heap) : Node * heap :=
  create h Null (location_of_string id (bytes "null")).

(** * [pointer::Pointer] *)

Section Documents.
Context (c : WfContexts) (id : positive).

(** [unescape_key]; [None] for an empty optional *)
Fixpoint unescape_key (pointer : list Z) : option (list Z) :=
  match pointer with
  | [] => Some []
  | x :: rest =>
      if x =? 126 then
        match rest with
        | [] => None
        | i :: rest =>
            if i =? 48 then cons 126 <$> unescape_key rest
            else if i =? 49 then cons 47 <$> unescape_key rest
            else None
        end
      else cons x <$> unescape_key rest
  end.

(** The loop that looks for the end of a key; [path_view[end]] past the view is undefined. *)
Fixpoint key_end_loop (fuel : nat) (path_view : list Z) (path_len end_ : Z)
    (needs_replacement : bool) : outcome (Z * bool) :=
  match fuel with
  | O => Undefined
  | S fuel =>
      if end_ <? path_len then
        x ← or_undefined (path_view !! Z.to_nat end_);
        if x =? 47 then Returns (end_, needs_replacement)
        else key_end_loop fuel path_view path_len (end_ + 1) (needs_replacement || (x =? 126))
      else Returns (end_, needs_replacement)
  end.

(** [next_key]: the key, if any, and the new position *)
Definition next_key (path : Location) (position : Z) : outcome (option Location * Z) :=
  path_view ← view path;
  x ← or_undefined (path_view !! Z.to_nat position);
  if negb (x =? 47) then Returns (None, position)
  else
    '(end_, needs_replacement) ←
      key_end_loop (S (Z.to_nat (len path))) path_view (len path) (position + 1) false;
    let position := position + 1 in
    let key := mkLocation (source path) (u64 (pos path + position)) (end_ - position) in
    if negb needs_replacement then Returns (Some key, end_)
    else
      v ← view key;
      Returns (location_of_string id <$> unescape_key v, end_).

Record Pointer := mkPointer { keys : list Location; m_path : Location; m_error : option Node }.

(** The loop of the constructor; every key moves on by a byte at least. *)
Fixpoint pointer_loop (fuel : nat) (h : heap) (path : Location) (position : Z)
    (keys : list Location) : outcome (Pointer * heap) :=
  match fuel with
  | O => Undefined
  | S fuel =>
      if position <? len path then
        '(maybe_key, position) ← next_key path position;
        match maybe_key with
        | None =>
            let '(s, h) := located h JString path in
            '(e, h) ← err h s (location_of_string id (bytes "Invalid pointer"));
            Returns (mkPointer keys path (Some e), h)
        | Some key => pointer_loop fuel h path position (keys ++ [key])
        end
      else Returns (mkPointer keys path None, h)
  end.
Definition new_pointer (h : heap) (path : Location) : outcome (Pointer * heap) :=
  pointer_loop (S (Z.to_nat (len path))) h path 0 [].

(** * [pointer::Operation] *)

Inductive Action := Insert | Read | Replace | Remove | Compare.

Definition err_text (h : heap) (node : Node) (msg : list Z) : outcome (Node * heap) :=
  err h node (location_of_string id msg).

(** [member / json::Value] and [member / json::Key] under [WFContext ctx(json::wf)] *)
Definition json_field (h : heap) (member : Node) (field : Token) : outcome WFLookup :=
  node_slash (wf_context c json_wf) h member field.

(** [compare]; the returned node and the store *)
Definition compare (h : heap) (actual expected : Node) : outcome (Node * heap) :=
  if token_eqb (type_of h actual) Error then Returns (actual, h)
  else
    e ← equal h actual expected;
    if negb (e : bool) then
      actual_json ← to_string c h actual false true default_indent;
      expected_json ← to_string c h expected false true default_indent;
      err_text h actual (actual_json ++ bytes " != " ++ expected_json)
    else Returns (actual, h).

(** The digits of [array_lookup], from the front: the index so far, and whether a character
    was no digit.  A negative [char] is no digit in the tables of [isdigit]. *)
Fixpoint index_digits (index : Z) (index_view : list Z) : Z * bool :=
  match index_view with
  | [] => (index, true)
  | x :: rest =>
      if (48 <=? x) && (x <=? 57) then index_digits (u64 (index * 10 + x - 48)) rest
      else (index, false)
  end.

(** [array_lookup]: the node, the [index] it leaves behind, the store *)
Definition array_lookup (h : heap) (current : Node) (key : Location) (index : Z)
    : outcome (Node * Z * heap) :=
  index_view ← view key;
  let size := size_of (children_of h current) in
  let fail type msg index :=
    let '(n, h) := located h type key in
    '(e, h) ← err_text h n msg; Returns (e, index, h) in
  if list_eqb index_view [45] then
    fail JString (bytes "End-of-array selector `-` cannot appear inside a pointer, only at the end") size
  else
    front ← or_undefined (head index_view);
    if front =? 45 then fail JString (bytes "unable to parse array index (prepended by `-`)") index
    else if (front =? 48) && (1 <? size_of index_view) then fail JString (bytes "Leading zeros") index
    else
      let '(index, digits) := index_digits 0 index_view in
      if negb digits then fail JString (bytes "unable to parse array index (not a digit)") index
      else if size <=? index then
        fail Number (bytes "index is greater than number of items in array") index
      else n ← node_vector_at h current index; Returns (n, index, h).

(** [m_value->clone()]; a null pointer is dereferenced. *)
Definition clone_value (h : heap) (m_value : option Node) : outcome (Node * heap) :=
  v ← or_undefined m_value; clone_node h v.

(** [member / json::Value = m_value->clone()]: the right operand comes first. *)
Definition assign_value (h : heap) (member : Node) (m_value : option Node) : outcome heap :=
  '(copy, h) ← clone_value h m_value;
  l ← json_field h member Value;
  '(_, h) ← lookup_assign l h copy;
  Returns h.

Definition missing_member (h : heap) (object : Node) (key : Location) : outcome (Node * heap) :=
  k ← view key;
  err_text h object (bytes "Member does not exist with key: " ++ k).

(** [object_action] *)
Definition object_action (h : heap) (action : Action) (m_value : option Node) (object : Node)
    (key : Location) : outcome (Node * heap) :=
  results ← lookdown h object key;
  existing ← match results with
             | [] => Returns None
             | member :: _ =>
                 l ← json_field h member Value; Returns (Some (member, lookup_node l))
             end;
  match action, existing with
  | Insert, None =>
      let '(m, h) := create_token h Member in
      let '(k, h) := located h Key key in
      let h := push_back h m (Some k) in
      '(copy, h) ← clone_value h m_value;
      let h := push_back h m (Some copy) in
      v ← or_undefined m_value;
      Returns (v, push_back h object (Some m))
  | _, None => missing_member h object key
  | Compare, Some (_, existing) => v ← or_undefined m_value; compare h existing v
  | Insert, Some (member, existing) | Replace, Some (member, existing) =>
      h ← assign_value h member m_value; Returns (existing, h)
  | Read, Some (_, existing) => Returns (existing, h)
  | Remove, Some (member, existing) => h ← replace h object member None; Returns (existing, h)
  end.

(** [array_action] *)
Definition array_action (h : heap) (action : Action) (m_value : option Node) (array : Node)
    (key : Location) : outcome (Node * heap) :=
  '(element, index, h) ← array_lookup h array key 0;
  let inserting := match action with Insert => true | _ => false end in
  if inserting && (index =? size_of (children_of h array)) then
    '(copy, h) ← clone_value h m_value;
    v ← or_undefined m_value;
    Returns (v, push_back h array (Some copy))
  else if token_eqb (type_of h element) Error then Returns (element, h)
  else
    match action with
    | Compare => '(copy, h) ← clone_value h m_value; compare h element copy
    | Insert =>
        '(copy, h) ← clone_value h m_value;
        v ← or_undefined m_value;
        Returns (v, Ast.insert h array (Z.to_nat index) (Some copy))
    | Read => Returns (element, h)
    | Remove => h ← replace h array element None; Returns (element, h)
    | Replace =>
        '(copy, h) ← clone_value h m_value;
        h ← replace_at h array (Z.to_nat index) (Some copy);
        Returns (element, h)
    end.

(** The loop of [run] over all keys but the last, and the action on the last *)
Fixpoint run_keys (h : heap) (action : Action) (m_value : option Node) (current : Node)
    (key : Location) (rest : list Location) : outcome (Node * heap) :=
  if negb (token_in [Array; Object] (type_of h current)) then
    err_text h current (bytes "Cannot index into value")
  else
    match rest with
    | [] =>
        if token_eqb (type_of h current) Object then object_action h action m_value current key
        else array_action h action m_value current key
    | next :: rest =>
        if token_eqb (type_of h current) Object then
          results ← lookdown h current key;
          match results with
          | [] => k ← view key; err_text h current (bytes "No child at path: " ++ k)
          | member :: _ =>
              l ← json_field h member Value;
              run_keys h action m_value (lookup_node l) next rest
          end
        else
          '(current, _, h) ← array_lookup h current key 0;
          if token_eqb (type_of h current) Error then Returns (current, h)
          else run_keys h action m_value current next rest
    end.

(** [Operation(path, action, value)] and its [run] *)
Definition operation (h : heap) (path : Location) (action : Action) (m_value : option Node)
    (document : Node) : outcome (Node * heap) :=
  '(m_pointer, h) ← new_pointer h path;
  match m_error m_pointer, keys m_pointer with
  | Some e, _ => Returns (e, h)
  | None, [] =>
      match action with
      | Read => Returns (document, h)
      | Replace | Insert => v ← or_undefined m_value; Returns (v, h)
      | Remove =>
          let '(s, h) := located h JString path in err_text h s (bytes "Cannot remove the root node")
      | Compare => v ← or_undefined m_value; compare h document v
      end
  | None, key :: rest => run_keys h action m_value document key rest
  end.

(** [select], [select_string], [select_boolean], [select_number] *)
Definition select (h : heap) (document : Node) (path : Location) : outcome (Node * heap) :=
  operation h path Read None document.
Definition select_string (h : heap) (document : Node) (path : Location)
    : outcome (option Location * heap) :=
  '(node, h) ← select h document path;
  Returns (if token_eqb (type_of h node) Error then None else get_string h node, h).
Definition select_boolean (h : heap) (document : Node) (path : Location)
    : outcome (option bool * heap) :=
  '(node, h) ← select h document path;
  Returns (if token_eqb (type_of h node) Error then None else get_boolean h node, h).
Definition select_number (h : heap) (document : Node) (path : Location)
    : outcome (option SpecFloat.spec_float * heap) :=
  '(node, h) ← select h document path;
  if token_eqb (type_of h node) Error then Returns (None, h)
  else x ← get_number h node; Returns (x, h).

(** * [patch::Op] *)

Inductive OpType := OpError | OpTest | OpAdd | OpRemove | OpReplace | OpCopy | OpMove.

Record Op := mkOp {
  op_node : Node;
  op_type : OpType;
  op_path : Location;
  op_value : option Node;
  op_from : Location
}.

(** The constant locations of the namespace *)
Definition OpKey : Location := location_of_string id (bytes "/op").
Definition PathKey : Location := location_of_string id (bytes "/path").
Definition ValueKey : Location := location_of_string id (bytes "/value").
Definition FromKey : Location := location_of_string id (bytes "/from").
Definition MissingOp : Location := location_of_string id (bytes "missing `op`").
Definition InvalidOp : Location := location_of_string id (bytes "invalid `op` value").
Definition MissingPath : Location := location_of_string id (bytes "missing `path`").
Definition MissingValue : Location := location_of_string id (bytes "missing `value`").
Definition MissingFrom : Location := location_of_string id (bytes "missing `from`").

(** [TypeLookup.find]: the keys of the map compare by their text. *)
Definition type_lookup (loc : Location) : outcome (option OpType) :=
  v ← view loc;
  Returns (if list_eqb v (bytes "test") then Some OpTest
           else if list_eqb v (bytes "add") then Some OpAdd
           else if list_eqb v (bytes "remove") then Some OpRemove
           else if list_eqb v (bytes "replace") then Some OpReplace
           else if list_eqb v (bytes "copy") then Some OpCopy
           else if list_eqb v (bytes "move") then Some OpMove
           else None).

(** The constructors of [Op] *)
Definition op_of_path (node : Node) (type : OpType) (path : Location) : Op :=
  mkOp node type path None null_location.
Definition op_of_value (node : Node) (type : OpType) (path : Location) (value : Node) : Op :=
  mkOp node type path (Some value) null_location.
Definition op_of_from (node : Node) (type : OpType) (path from : Location) : Op :=
  mkOp node type path None from.

(** [Op::from_node] *)
Definition from_node (h : heap) (node : Node) : outcome (Op * heap) :=
  '(maybe_type, h) ← select_string h node OpKey;
  match maybe_type with
  | None => Returns (op_of_path node OpError MissingOp, h)
  | Some loc =>
      it ← type_lookup loc;
      match it with
      | None => Returns (op_of_path node OpError InvalidOp, h)
      | Some type =>
          '(maybe_path, h) ← select_string h node PathKey;
          match maybe_path with
          | None => Returns (op_of_path node OpError MissingPath, h)
          | Some path =>
              match type with
              | OpRemove => Returns (op_of_path node OpRemove path, h)
              | OpAdd | OpReplace | OpTest =>
                  '(value, h) ← select h node ValueKey;
                  if token_eqb (type_of h value) Error then
                    Returns (op_of_path node OpError MissingValue, h)
                  else Returns (op_of_value node type path value, h)
              | OpCopy | OpMove =>
                  '(maybe_from, h) ← select_string h node FromKey;
                  match maybe_from with
                  | None => Returns (op_of_path node OpError MissingFrom, h)
                  | Some from => Returns (op_of_from node type path from, h)
                  end
              | OpError =>
                  Returns (op_of_path node OpError (location_of_string id (bytes "Unknown error")), h)
              end
          end
      end
  end.

(** [return result == Error ? result : document;] *)
Definition error_or (h : heap) (result document : Node) : Node :=
  if token_eqb (type_of h result) Error then result else document.

(** [add], [replace]: the whole document is replaced at the empty path. *)
Definition op_write (h : heap) (op : Op) (action : Action) (document : Node)
    : outcome (Node * heap) :=
  if len (op_path op) =? 0 then clone_value h (op_value op)
  else
    '(result, h) ← operation h (op_path op) action (op_value op) document;
    Returns (error_or h result document, h).

(** [test], [remove] *)
Definition op_keep (h : heap) (op : Op) (action : Action) (document : Node)
    : outcome (Node * heap) :=
  '(result, h) ← operation h (op_path op) action (op_value op) document;
  Returns (error_or h result document, h).

(** [move], [copy]: what is at [m_from] is taken with the first action and inserted. *)
Definition op_transfer (h : heap) (op : Op) (action : Action) (document : Node)
    : outcome (Node * heap) :=
  same ← location_eq (op_path op) (op_from op);
  if (same : bool) then Returns (document, h)
  else
    '(existing, h) ← operation h (op_from op) action None document;
    if token_eqb (type_of h existing) Error then Returns (existing, h)
    else
      '(result, h) ← operation h (op_path op) Insert (Some existing) document;
      Returns (error_or h result document, h).

(** [Op::apply] *)
Definition op_apply (h : heap) (op : Op) (document : Node) : outcome (Node * heap) :=
  match op_type op with
  | OpTest => op_keep h op Compare document
  | OpAdd => op_write h op Insert document
  | OpRemove => op_keep h op Remove document
  | OpReplace => op_write h op Replace document
  | OpMove => op_transfer h op Remove document
  | OpCopy => op_transfer h op Read document
  | OpError => err_text h (op_node op) (bytes "Unsupported operation")
  end.

(** * [json::patch] *)

(** The loop over the nodes of the patch: an error to return, or the operations *)
Fixpoint patch_ops (h : heap) (document : Node) (nodes : list Node) (ops : list Op)
    : outcome ((Node + list Op) * heap) :=
  match nodes with
  | [] => Returns (inr ops, h)
  | node :: nodes =>
      '(op, h) ← from_node h node;
      match op_type op with
      | OpError => '(e, h) ← err h (op_node op) (op_path op); Returns (inl e, h)
      | OpTest =>
          '(result, h) ← op_apply h op document;
          if token_eqb (type_of h result) Error then Returns (inl result, h)
          else patch_ops h document nodes ops
      | _ => patch_ops h document nodes (ops ++ [op])
      end
  end.

(** The loop that applies them *)
Fixpoint patch_apply (h : heap) (patched : Node) (ops : list Op) : outcome (Node * heap) :=
  match ops with
  | [] => Returns (patched, h)
  | op :: ops =>
      '(patched, h) ← op_apply h op patched;
      if token_eqb (type_of h patched) Error then Returns (patched, h)
      else
        '(h, _) ← build_st h patched;
        patch_apply h patched ops
  end.

Definition patch (h : heap) (document patch : Node) : outcome (Node * heap) :=
  if negb (token_eqb (type_of h patch) Array) then
    err_text h patch (bytes "Not a JSON array")
  else
    match children_of h patch with
    | [] => Returns (document, h)
    | nodes =>
        '(r, h) ← patch_ops h document nodes [];
        match r with
        | inl e => Returns (e, h)
        | inr ops =>
            '(patched, h) ← clone_node h document;
            '(h, _) ← build_st h patched;
            patch_apply h patched ops
        end
    end.
End Documents.
