(* ===== verification/CloneFacts.v ===== *)
(** [NodeDef::clone] (ast.h) makes a deep copy of fresh nodes and leaves the store it found. *)
From S2P Require Import Prelude.
From S2P Require Import Token.
From S2P Require Import Source.
From S2P Require Import Ast.
From S2P Require Import AstFacts.
From stdpp Require Export gmap.
#[local] Set Warnings "-register-all".
Open Scope Z_scope.

(** * The height of a tree *)

Fixpoint height (t : tree) : nat :=
  match t with Tree _ ts => S (foldr (fun t m => Nat.max (height t) m) O ts) end.

Lemma height_child n ts t : t ∈ ts -> (height t < height (Tree n ts))%nat.
Proof.
  intros Ht. cbn. induction Ht as [t ts|t t' ts _ IH]; cbn; lia.
Qed.

Lemma height_nodes t : (height t <= length (nodes t))%nat.
Proof.
  induction t as [n ts IH] using tree_ind'. cbn. apply le_n_S.
  induction IH as [|t ts Ht _ IH]; [done|]. cbn. rewrite length_app. lia.
Qed.

(** A tree of distinct allocated nodes is at most as high as the store is large. *)
Lemma nodes_size (h : heap) (l : list Node) : NoDup l -> (forall n, n ∈ l -> is_Some (h !! n)) ->
  (length l <= size h)%nat.
Proof.
  intros Hd Hs. rewrite <-(size_dom (D:=gset Node)), <-(size_list_to_set (C:=gset Node) l Hd).
  apply subseteq_size. intros n Hn. apply elem_of_list_to_set in Hn. by apply elem_of_dom, Hs.
Qed.

(** * Stores that agree up to flags at a node *)

Definition plain (d : NodeDef) : NodeDef := with_flags (fun _ => 0) d.
Definition same_plain (h h' : heap) (n : Node) : Prop := plain <$> h' !! n = plain <$> h !! n.

Lemma same_plain_at h h' n : same_plain h h' n -> plain (node_at h' n) = plain (node_at h n).
Proof.
  unfold same_plain, node_at. destruct (h !! n), (h' !! n); [apply (inj Some)|done..].
Qed.

Section Same.
Context (h h' : heap) (n : Node) (Hs : same_plain h h' n).
Ltac same_field :=
  pose proof (same_plain_at h h' n Hs) as E;
  unfold type_of, location_of, symtab_of, parent_of, children_of;
  unfold plain, with_flags in E; destruct (node_at h' n), (node_at h n); cbn in *; congruence.
Lemma same_type : type_of h' n = type_of h n.
Proof. same_field. Qed.
Lemma same_location : location_of h' n = location_of h n.
Proof. same_field. Qed.
Lemma same_symtab : symtab_of h' n = symtab_of h n.
Proof. same_field. Qed.
Lemma same_parent_of : parent_of h' n = parent_of h n.
Proof. same_field. Qed.
Lemma same_children : children_of h' n = children_of h n.
Proof. same_field. Qed.
Lemma same_some : is_Some (h' !! n) <-> is_Some (h !! n).
Proof. rewrite <-(fmap_is_Some plain (h' !! n)), <-(fmap_is_Some plain (h !! n)). by rewrite Hs. Qed.
End Same.

Lemma same_plain_eq (h h' : heap) n : h' !! n = h !! n -> same_plain h h' n.
Proof. unfold same_plain. by intros ->. Qed.

Lemma subset_lookup (h h' : heap) n : h ⊆ h' -> is_Some (h !! n) -> h' !! n = h !! n.
Proof. intros Hs [d Hd]. rewrite Hd. by eapply lookup_weaken. Qed.

Lemma subset_same (h h' : heap) n : h ⊆ h' -> is_Some (h !! n) -> same_plain h h' n.
Proof. intros Hs Hn. apply same_plain_eq. by apply subset_lookup. Qed.

(** * A child is pushed to a node without a parent *)

Lemma add_flag_loop_root fuel test set (h : heap) n : parent_of h n = None ->
  exists f, add_flag_loop fuel test set h (Some n) = alter (with_flags f) n h.
Proof.
  intros Hp. assert (Hid : alter (with_flags (fun f => f)) n h = h).
  { apply map_eq. intros m. destruct (decide (n = m)) as [<-|]; [|by rewrite lookup_alter_ne].
    rewrite lookup_alter_eq. by destruct (h !! n) as [[]|]. }
  destruct fuel as [|fuel]; cbn [add_flag_loop]; [by exists (fun f => f)|].
  destruct (test _); [by exists (fun f => f)|]. rewrite Hp. exists set. by destruct fuel.
Qed.

Lemma add_flags_root (h : heap) n p : parent_of h n = Some p -> parent_of h p = None ->
  exists f, add_flags h n = alter (with_flags f) p h.
Proof.
  intros Hn Hp. unfold add_flags, parent_of in *. rewrite Hn.
  assert (Hid : h = alter (with_flags (fun f => f)) p h).
  { apply map_eq. intros m. destruct (decide (p = m)) as [<-|]; [|by rewrite lookup_alter_ne].
    rewrite lookup_alter_eq. by destruct (h !! p) as [[]|]. }
  repeat case_match; try by apply add_flag_loop_root. by exists (fun f => f).
Qed.

(** A node that announces no error and no lift *)
Definition unmarked (type : Token) : Prop := type <> Error /\ type <> Lift.
Definition calm (h : heap) (n : Node) : Prop := flags_ (node_at h n) = 0 /\ unmarked (type_of h n).

Lemma add_flags_calm h n : calm h n -> add_flags h n = h.
Proof.
  intros (Hf & H1 & H2). unfold add_flags. unfold type_of in *. rewrite Hf.
  by rewrite (proj2 (token_eqb_neq _ _) H1), (proj2 (token_eqb_neq _ _) H2).
Qed.

(** A calm child changes no flags. *)
Lemma push_back_calm (h : heap) p n : calm h n -> p <> n ->
  push_back h p (Some n) = alter (with_parent (Some p)) n (alter (with_children (fun c => c ++ [n])) p h).
Proof.
  intros (Hf & Hu) Hne. cbn [push_back]. unfold adopt. apply add_flags_calm.
  unfold calm, type_of, node_at in *. rewrite lookup_alter_eq, lookup_alter_ne by done.
  by destruct (h !! n) as [d|].
Qed.

(** [push_back] changes the list of the one and the parent of the other. *)
Lemma push_back_root (h : heap) p n : is_Some (h !! p) -> is_Some (h !! n) -> p <> n ->
  parent_of h p = None ->
  let h' := push_back h p (Some n) in
  (forall m, m <> p -> m <> n -> h' !! m = h !! m)
  /\ h' !! n = with_parent (Some p) <$> h !! n
  /\ plain <$> h' !! p = plain ∘ with_children (fun c => c ++ [n]) <$> h !! p.
Proof.
  intros [dp Hp] [dn Hn] Hne Hpp. cbn [push_back]. unfold adopt. set (h1 := alter (with_parent (Some p)) n _).
  assert (E1 : h1 !! n = Some (with_parent (Some p) dn)).
  { unfold h1. rewrite lookup_alter_eq, lookup_alter_ne by done. by rewrite Hn. }
  assert (E2 : h1 !! p = Some (with_children (fun c => c ++ [n]) dp)).
  { unfold h1. rewrite lookup_alter_ne by done. rewrite lookup_alter_eq. by rewrite Hp. }
  destruct (add_flags_root h1 n p) as [f ->].
  - unfold parent_of, node_at. by rewrite E1.
  - unfold parent_of, node_at in *. rewrite E2. cbn. by rewrite Hp in Hpp.
  - split_and!.
    + intros m Hmp Hmn. rewrite lookup_alter_ne by done. unfold h1. by rewrite !lookup_alter_ne by done.
    + rewrite lookup_alter_ne by done. by rewrite E1, Hn.
    + rewrite lookup_alter_eq, E2, Hp. done.
Qed.

(** * Copies *)

Lemma reads_same h h' t : reads h t -> (forall n, n ∈ nodes t -> children_of h' n = children_of h n) ->
  reads h' t.
Proof.
  induction t as [n ts IH] using tree_ind'. intros [Hc Hr]%reads_inv Hs. apply reads_inv. split.
  - rewrite Hs; [done|apply elem_of_nodes; by left].
  - apply Forall_forall. intros t Ht. apply (proj1 (Forall_forall _ _) IH t Ht).
    + by apply (proj1 (Forall_forall _ _) Hr).
    + intros m Hm. apply Hs, elem_of_nodes. eauto.
Qed.

(** [t'] in [h'] has the types and texts of [t] in [h], tables of its own and its own links. *)
Inductive copied (h h' : heap) : tree -> tree -> Prop :=
  | copied_node n ts n' ts' :
      is_Some (h' !! n') ->
      type_of h' n' = type_of h n -> location_of h' n' = location_of h n ->
      symtab_of h' n' = (if has (type_of h n) flag_symtab then Some empty_symtab else None) ->
      children_of h' n' = root <$> ts' ->
      Forall (fun t => parent_of h' (root t) = Some n') ts' ->
      Forall2 (copied h h') ts ts' ->
      copied h h' (Tree n ts) (Tree n' ts').

(** A copy stays one while its nodes, but for the parent of the root, stay. *)
Lemma copied_weaken h h1 h2 t : forall t', copied h h1 t t' ->
  (forall n, n ∈ nodes t' -> is_Some (h1 !! n) -> is_Some (h2 !! n)
     /\ type_of h2 n = type_of h1 n /\ location_of h2 n = location_of h1 n
     /\ symtab_of h2 n = symtab_of h1 n /\ children_of h2 n = children_of h1 n) ->
  (forall n, n ∈ concat (nodes <$> subtrees t') -> parent_of h2 n = parent_of h1 n) ->
  copied h h2 t t'.
Proof.
  induction t as [n ts IH] using tree_ind'. intros t' H.
  inversion H as [? ? n' ts' Hs Ht Hl Hy Hc Hp H2]; subst. intros Hk Hpar. cbn [subtrees] in Hpar.
  destruct (Hk n' (root_in_nodes (Tree n' ts')) Hs) as (K1 & K2 & K3 & K4 & K5).
  assert (Hin : forall t m, t ∈ ts' -> m ∈ nodes t -> m ∈ concat (nodes <$> ts')).
  { intros t m Ht' Hm. apply elem_of_concat_map. eauto. }
  constructor; [done|congruence..| |].
  - apply Forall_forall. intros t Ht'. rewrite Hpar; [by apply (proj1 (Forall_forall _ _) Hp t)|].
    apply (Hin t); [done|apply root_in_nodes].
  - clear - IH H2 Hk Hpar Hin. induction H2 as [|t t' ts ts' Ht _ IH2]; [constructor|].
    apply Forall_cons in IH as [IHt IH]. constructor.
    + apply IHt; [done| |].
      * intros m Hm. apply Hk. apply elem_of_nodes. right. exists t'. split; [left|done].
      * intros m Hm. apply Hpar. apply (Hin t'); [left|]. destruct t'. cbn. by right.
    + apply IH2; [done| | |].
      * intros m Hm. apply Hk. apply elem_of_nodes in Hm as [->|(x & Hx & Hm)]; apply elem_of_nodes; [by left|].
        right. exists x. split; [by right|done].
      * intros m Hm. apply Hpar. cbn. apply elem_of_app. by right.
      * intros x m Hx Hm. apply elem_of_concat_map. eauto.
Qed.

(** What a call of [clone] on [t] did to the store. *)
Record cloned (h h' : heap) (t t' : tree) : Prop := {
  cl_subset : h ⊆ h';
  cl_copied : copied h h' t t';
  cl_nodup : NoDup (nodes t');
  cl_fresh m : m ∈ nodes t' -> h !! m = None /\ is_Some (h' !! m);
  cl_parent : parent_of h' (root t') = None;
  cl_calm : Forall (fun n => unmarked (type_of h n)) (nodes t) -> calm h' (root t')
}.

Lemma copied_source h0 h h' t : (forall n, n ∈ nodes t -> is_Some (h0 !! n)) -> h0 ⊆ h ->
  forall t', copied h h' t t' -> copied h0 h' t t'.
Proof.
  intros Hn Hs. induction t as [n ts IH] using tree_ind'. intros t' H.
  inversion H as [? ? n' ts' Hs' Ht Hl Hy Hc Hp H2]; subst.
  assert (Hsm : same_plain h0 h n) by (apply subset_same; [done|apply Hn, elem_of_nodes; by left]).
  rewrite (same_type _ _ _ Hsm) in *. rewrite (same_location _ _ _ Hsm) in Hl.
  constructor; [done..|]. assert (Hts : forall t, t ∈ ts -> forall n, n ∈ nodes t -> is_Some (h0 !! n)).
  { intros t Hin m Hm. apply Hn, elem_of_nodes. eauto. }
  clear - H2 IH Hts. induction H2 as [|t t' ts ts' Ht _ IH2]; [constructor|].
  apply Forall_cons in IH as [IHt IH]. constructor.
  - apply IHt; [|done]. apply Hts. left.
  - apply IH2; [done|]. intros x Hx. apply Hts. by right.
Qed.

(** The state of the loop over the children: those cloned so far hang under the new node. *)
Record cloning (h h1 : heap) (n n' : Node) (ts ts' : list tree) : Prop := {
  cg_subset : h ⊆ h1;
  cg_node : plain <$> h1 !! n'
            = Some (plain (with_children (fun _ => root <$> ts') (new_node (type_of h n) (location_of h n))));
  cg_parents : Forall (fun t => parent_of h1 (root t) = Some n') ts';
  cg_copied : Forall2 (copied h h1) ts ts';
  cg_nodup : NoDup (n' :: concat (nodes <$> ts'));
  cg_fresh m : m ∈ n' :: concat (nodes <$> ts') -> h !! m = None /\ is_Some (h1 !! m);
  cg_calm : Forall (fun n => unmarked (type_of h n)) (concat (nodes <$> ts)) ->
    flags_ (node_at h1 n') = 0
}.

Lemma Forall2_snoc {A B} (P : A -> B -> Prop) l k x y :
  Forall2 P l k -> P x y -> Forall2 P (l ++ [x]) (k ++ [y]).
Proof. intros H1 H2. apply Forall2_app; [done|]. by constructor. Qed.

Lemma Forall2_impl_elem {A B} (P Q : A -> B -> Prop) l k : Forall2 P l k ->
  (forall x y, x ∈ l -> y ∈ k -> P x y -> Q x y) -> Forall2 Q l k.
Proof.
  induction 1 as [|x y l k H _ IH]; intros HQ; constructor; [apply HQ; [left|left|done]|].
  apply IH. intros a b Ha Hb. by apply HQ; right.
Qed.

Lemma cloning_step h h1 h2 n n' ts ts' t t' :
  (forall m, m ∈ nodes t -> is_Some (h !! m)) ->
  cloning h h1 n n' ts ts' -> cloned h1 h2 t t' ->
  cloning h (push_back h2 n' (Some (root t'))) n n' (ts ++ [t]) (ts' ++ [t']).
Proof.
  intros Ht [G1 G2 G3 G4 G5 G6 G7] [L1 L2 L3 L4 L5 L6].
  assert (Hold : forall m, m ∈ n' :: concat (nodes <$> ts') -> m ∉ nodes t').
  { intros m Hm Hm'. destruct (G6 m Hm) as [_ [d Hd]]. destruct (L4 m Hm') as [H1 _]. congruence. }
  assert (Hin : forall t m, t ∈ ts' -> m ∈ nodes t -> m ∈ n' :: concat (nodes <$> ts')).
  { intros x m Hx Hm. right. apply elem_of_concat_map. eauto. }
  assert (Hn' : is_Some (h2 !! n')).
  { destruct (G6 n' (list_elem_of_here _ _)) as [_ [d Hd]]. exists d. by eapply lookup_weaken. }
  assert (Hr : is_Some (h2 !! root t')) by (apply L4, root_in_nodes).
  assert (Hne : n' <> root t').
  { intros E. apply (Hold n' (list_elem_of_here _ _)). rewrite E. apply root_in_nodes. }
  assert (E2 : h2 !! n' = h1 !! n') by (apply subset_lookup; [done|apply G6; left]).
  assert (Hp : parent_of h2 n' = None).
  { unfold parent_of, node_at. rewrite E2. destruct (h1 !! n') as [d|]; [|done].
    injection G2. cbn. congruence. }
  destruct (push_back_root h2 n' (root t') Hn' Hr Hne Hp) as (K1 & K2 & K3).
  set (h3 := push_back h2 n' (Some (root t'))) in *.
  assert (Hlk : forall m, is_Some (h1 !! m) -> m <> n' -> h3 !! m = h1 !! m).
  { intros m Hm Hmn. rewrite K1; [by apply subset_lookup|done|]. intros ->.
    destruct (L4 _ (root_in_nodes t')) as [Hx _]. rewrite Hx in Hm. by destruct Hm. }
  assert (Hroot : is_Some (h3 !! root t')) by (rewrite K2; by apply fmap_is_Some).
  split.
  - apply map_subseteq_spec. intros m d Hd. rewrite Hlk; [by eapply lookup_weaken| |].
    + exists d. by eapply lookup_weaken.
    + intros ->. destruct (G6 n' (list_elem_of_here _ _)) as [Hx _]. congruence.
  - rewrite K3, E2. destruct (h1 !! n') as [d|]; [|done]. injection G2 as E3 E4 E5 E6 E7. cbn.
    unfold plain, with_flags, with_children. cbn. rewrite E3, E4, E5, E6, E7. by rewrite fmap_app.
  - apply Forall_app. split.
    + apply Forall_forall. intros x Hx. rewrite <-(proj1 (Forall_forall _ _) G3 x Hx).
      unfold parent_of, node_at. rewrite Hlk; [done| |].
      * apply G6, (Hin x); [done|apply root_in_nodes].
      * intros E. apply NoDup_cons in G5 as [G5 _]. apply G5. rewrite <-E. apply elem_of_concat_map.
        exists x. split; [done|apply root_in_nodes].
    + apply Forall_singleton. unfold parent_of, node_at. rewrite K2. by destruct Hr as [d ->].
  - apply Forall2_snoc.
    + apply (Forall2_impl_elem _ _ _ _ G4). intros x x' _ Hx' Hc. apply (copied_weaken h h1); [done| |].
      * intros m Hm Hs. assert (Hmn : m <> n').
        { intros ->. apply NoDup_cons in G5 as [G5 _]. apply G5, elem_of_concat_map. eauto. }
        split; [by rewrite Hlk|]. unfold type_of, location_of, symtab_of, children_of, node_at.
        by rewrite Hlk.
      * intros m Hm. destruct x' as [y ys]. cbn [subtrees] in Hm.
        assert (Hmy : m ∈ nodes (Tree y ys)) by (cbn; by right). unfold parent_of, node_at.
        rewrite Hlk; [done|apply G6, (Hin (Tree y ys)); done|]. intros ->.
        apply NoDup_cons in G5 as [G5 _]. apply G5, elem_of_concat_map. eauto.
    + apply (copied_source h h1); [done|done|]. apply (copied_weaken h1 h2); [done| |].
      * intros m Hm Hs. assert (Hmn : m <> n') by (intros ->; by apply (Hold n' (list_elem_of_here _ _))).
        destruct (decide (m = root t')) as [->|Hmr].
        { split; [done|]. unfold type_of, location_of, symtab_of, children_of, node_at. rewrite K2.
          destruct Hr as [d ->]. done. }
        unfold type_of, location_of, symtab_of, children_of, node_at. by rewrite K1.
      * intros m Hm. destruct t' as [y ys]. cbn [subtrees root nodes] in *.
        apply NoDup_cons in L3 as [L3 _]. unfold parent_of, node_at. rewrite K1; [done| |].
        { intros ->. apply (Hold n' (list_elem_of_here _ _)). by right. }
        { by intros ->. }
  - rewrite fmap_app, concat_app. cbn. rewrite app_nil_r, app_comm_cons. apply NoDup_app.
    split_and!; [done|exact Hold|done].
  - intros m. rewrite fmap_app, concat_app. cbn. rewrite app_nil_r, app_comm_cons, elem_of_app. intros [Hm|Hm].
    + destruct (G6 m Hm) as [H1 H2]. split; [done|]. destruct (decide (m = n')) as [->|Hmn].
      * apply (proj1 (fmap_is_Some plain (h3 !! n'))). rewrite K3. by apply fmap_is_Some.
      * by rewrite Hlk.
    + destruct (L4 m Hm) as [H1 H2]. split.
      * destruct (h !! m) as [d|] eqn:E; [|done]. rewrite (lookup_weaken _ _ _ _ E G1) in H1. done.
      * destruct (decide (m = root t')) as [->|Hmr]; [done|]. rewrite K1; [done| |done].
        intros ->. by apply (Hold n' (list_elem_of_here _ _)).
  - rewrite fmap_app, concat_app. cbn [fmap list_fmap concat]. rewrite app_nil_r. intros [Hu1 Hu2]%Forall_app.
    specialize (G7 Hu1). assert (Hu2' : Forall (fun n => unmarked (type_of h1 n)) (nodes t)).
    { apply Forall_forall. intros m Hm. rewrite (same_type h h1 m) by (apply subset_same; [done|by apply Ht]).
      by apply (proj1 (Forall_forall _ _) Hu2). }
    pose proof (push_back_calm h2 n' (root t') (L6 Hu2') Hne) as E3. fold h3 in E3. rewrite E3.
    unfold node_at in *. rewrite lookup_alter_ne, lookup_alter_eq by done. rewrite E2.
    by destruct (h1 !! n').
Qed.

(** The fuel of [clone] bounds the height. *)
Lemma clone_spec t : forall fuel h, (height t <= fuel)%nat -> reads h t ->
  (forall n, n ∈ nodes t -> is_Some (h !! n)) ->
  exists t' h', clone fuel h (root t) = Returns (root t', h') /\ cloned h h' t t'.
Proof.
  induction t as [n ts IH] using tree_ind'. intros [|fuel] h Hf [Hc Hr]%reads_inv Hn; [cbn in Hf; lia|].
  cbn [clone root]. destruct (create h _ _) as [n' h1] eqn:Ecr.
  assert (Hn' : h !! n' = None).
  { injection Ecr as <- _. apply (not_elem_of_dom (D:=gset Node)), is_fresh. }
  injection Ecr as En' Eh1. rewrite En' in Eh1. clear En'.
  assert (Hns : is_Some (h !! n)) by (apply Hn, elem_of_nodes; by left).
  assert (Hnn : n <> n') by (intros ->; destruct Hns; congruence).
  assert (Hsub : h ⊆ h1) by (rewrite <-Eh1; by apply insert_subseteq).
  rewrite (same_children h h1 n) by by apply subset_same. rewrite Hc.
  assert (Hloop : forall ts2 ts1 ts1' h2, ts = ts1 ++ ts2 -> cloning h h2 n n' ts1 ts1' ->
    exists ts2' h3, foldl (fun r child => h ← r; '(c, h) ← clone fuel h child; Returns (push_back h n' (Some c)))
                      (Returns h2) (root <$> ts2) = Returns h3
      /\ cloning h h3 n n' ts (ts1' ++ ts2')).
  { induction ts2 as [|t ts2 IH2]; intros ts1 ts1' h2 -> Hcg.
    - exists [], h2. rewrite !app_nil_r. done.
    - assert (Hin : t ∈ ts1 ++ t :: ts2) by (apply elem_of_app; right; left).
      assert (Htn : forall m, m ∈ nodes t -> is_Some (h !! m)) by (intros m Hm; apply Hn, elem_of_nodes; eauto).
      assert (Htn2 : forall m, m ∈ nodes t -> is_Some (h2 !! m)).
      { intros m Hm. destruct (Htn m Hm) as [d Hd]. exists d. eapply lookup_weaken; [done|apply Hcg]. }
      destruct (proj1 (Forall_forall _ _) IH t Hin fuel h2) as (t' & h3 & E & Hcl).
      + pose proof (height_child n _ t Hin). lia.
      + apply (reads_same h); [by apply (proj1 (Forall_forall _ _) Hr)|].
        intros m Hm. apply same_children, subset_same; [apply Hcg|by apply Htn].
      + done.
      + cbn [fmap list_fmap foldl mbind outcome_bind]. rewrite E. cbn [mbind outcome_bind].
        destruct (IH2 (ts1 ++ [t]) (ts1' ++ [t']) (push_back h3 n' (Some (root t')))) as (ts2' & h4 & E4 & H4).
        * by rewrite <-app_assoc.
        * by apply (cloning_step h h2 h3).
        * exists (t' :: ts2'), h4. split; [exact E4|]. rewrite <-app_assoc in H4. exact H4. }
  destruct (Hloop ts [] [] h1 eq_refl) as (ts' & h' & E & G).
  - split; [done| |constructor|constructor|apply NoDup_singleton| |].
    + rewrite <-Eh1, lookup_insert_eq. done.
    + intros m ->%list_elem_of_singleton. split; [done|]. rewrite <-Eh1, lookup_insert_eq. by eexists.
    + intros _. unfold node_at. by rewrite <-Eh1, lookup_insert_eq.
  - cbn [app] in G. exists (Tree n' ts'), h'. cbn [root]. rewrite E. split; [done|].
    destruct G as [G1 G2 G3 G4 G5 G6 G7]. destruct (G6 n' (list_elem_of_here _ _)) as [_ Hs'].
    destruct (h' !! n') as [d|] eqn:Ed; [|by destruct Hs']. injection G2 as E1 E2 E3 E4 E5.
    split; [done| |done|intros m; apply G6| |].
    + constructor; unfold type_of, location_of, symtab_of, children_of, node_at in *; rewrite ?Ed; try done.
    + unfold parent_of, node_at. cbn [root]. by rewrite Ed.
    + intros Hu. cbn [nodes] in Hu. apply Forall_cons in Hu as [Hu1 Hu2]. split; [by apply G7|].
      unfold type_of, node_at in *. cbn [root]. rewrite Ed. change (unmarked (type_ d)). by rewrite E1.
Qed.

(** The tables of a copy are empty. *)
Lemma copied_tables h h' t : forall t', copied h h' t t' ->
  forall m st, m ∈ nodes t' -> symtab_of h' m = Some st -> symbols st = [].
Proof.
  induction t as [n ts IH] using tree_ind'. intros t' Hc m st Hm Hst.
  inversion Hc as [? ? n' ts' _ _ _ Hy _ _ H2]; subst. apply elem_of_nodes in Hm as [->|(x & Hx & Hm)].
  - rewrite Hy in Hst. destruct (has _ _); [|done]. by injection Hst as <-.
  - apply list_elem_of_lookup in Hx as [i Hi]. destruct (Forall2_lookup_r _ _ _ _ _ H2 Hi) as (y & Hy' & Hc').
    exact (proj1 (Forall_forall _ _) IH y (list_elem_of_lookup_2 _ _ _ Hy') x Hc' m st Hm Hst).
Qed.
