(* ===== verification/JsonValue.v ===== *)
(** JSON values and the trees that hold them: the abstract values, the document a tree of the
    store stands for, and what copies and error messages do to it. *)
From S2P Require Import Prelude.
From S2P Require Import Token.
From S2P Require Import Source.
From S2P Require Import Ast.
From S2P Require Import AstFacts.
From S2P Require Import CloneFacts.
From S2P Require Import Cursor.
From S2P Require Import JsonParse.
From S2P Require Import JsonWriter.
From S2P Require Import JsonDoc.
From stdpp Require Export gmap.
#[local] Set Warnings "-register-all".
Open Scope Z_scope.

(** * Values *)

(** A scalar is its token and its text; an object keeps its members in order. *)
Inductive json :=
  | JLeaf (type : Token) (text : list Z)
  | JArr (elements : list json)
  | JObj (members : list (list Z * json)).

(** A document: a value with the nodes that hold it.  A member is its node, the node of its key
    and the text of the key. *)
Record Mem := mkMem { m_node : Node; m_key_node : Node; m_key : list Z }.
Inductive jdoc :=
  | DLeaf (n : Node) (type : Token) (text : list Z)
  | DArr (n : Node) (ds : list jdoc)
  | DObj (n : Node) (ms : list (Mem * jdoc)).

Definition droot (d : jdoc) : Node := match d with DLeaf n _ _ | DArr n _ | DObj n _ => n end.

Fixpoint value (d : jdoc) : json :=
  match d with
  | DLeaf _ t s => JLeaf t s
  | DArr _ ds => JArr (value <$> ds)
  | DObj _ ms => JObj ((fun p => (m_key p.1, value p.2)) <$> ms)
  end.

Fixpoint tree_of (d : jdoc) : tree :=
  match d with
  | DLeaf n _ _ => Tree n []
  | DArr n ds => Tree n (tree_of <$> ds)
  | DObj n ms =>
      Tree n ((fun p => Tree (m_node p.1) [Tree (m_key_node p.1) []; tree_of p.2]) <$> ms)
  end.
Definition member_tree (p : Mem * jdoc) : tree :=
  Tree (m_node p.1) [Tree (m_key_node p.1) []; tree_of p.2].
Definition dnodes (d : jdoc) : list Node := nodes (tree_of d).

Section DocInd.
Context (P : jdoc -> Prop) (Hleaf : forall n t s, P (DLeaf n t s))
  (Harr : forall n ds, Forall P ds -> P (DArr n ds))
  (Hobj : forall n ms, Forall (fun p => P p.2) ms -> P (DObj n ms)).
Fixpoint jdoc_ind' (d : jdoc) : P d :=
  match d with
  | DLeaf n t s => Hleaf n t s
  | DArr n ds => Harr n ds ((fix go ds : Forall P ds :=
      match ds with [] => Forall_nil_2 P | d :: ds => Forall_cons_2 P d ds (jdoc_ind' d) (go ds) end) ds)
  | DObj n ms => Hobj n ms ((fix go ms : Forall (fun p => P p.2) ms :=
      match ms with
      | [] => Forall_nil_2 _
      | p :: ms => Forall_cons_2 (fun p => P p.2) p ms (jdoc_ind' p.2) (go ms)
      end) ms)
  end.
End DocInd.

Lemma root_tree_of d : root (tree_of d) = droot d.
Proof. by destruct d. Qed.

(** * What the store holds *)

(** The node of a member, of its key and of its value *)
Record member_ok (h : heap) (n : Node) (m : Mem) (v : Node) : Prop := {
  mem_some : is_Some (h !! m_node m);
  mem_type : type_of h (m_node m) = Member;
  mem_parent : parent_of h (m_node m) = Some n;
  mem_children : children_of h (m_node m) = [m_key_node m; v];
  mem_key_some : is_Some (h !! m_key_node m);
  mem_key_type : type_of h (m_key_node m) = Key;
  mem_key_text : view (location_of h (m_key_node m)) = Returns (m_key m);
  mem_key_children : children_of h (m_key_node m) = [];
  mem_key_parent : parent_of h (m_key_node m) = Some (m_node m);
  mem_value_parent : parent_of h v = Some (m_node m)
}.

Record leaf_ok (h : heap) (n : Node) (t : Token) (s : list Z) : Prop := {
  leaf_some : is_Some (h !! n);
  leaf_type : type_of h n = t;
  leaf_scalar : t ∈ scalar_tokens;
  leaf_text : view (location_of h n) = Returns s;
  leaf_children : children_of h n = []
}.
Record arr_ok (h : heap) (n : Node) (vs : list Node) : Prop := {
  arr_some : is_Some (h !! n);
  arr_type : type_of h n = Array;
  arr_children : children_of h n = vs;
  arr_parents : Forall (fun v => parent_of h v = Some n) vs
}.
Record obj_ok (h : heap) (n : Node) (ms : list (Mem * Node)) : Prop := {
  obj_some : is_Some (h !! n);
  obj_type : type_of h n = Object;
  obj_symtab : is_Some (symtab_of h n);
  obj_children : children_of h n = (fun p => m_node p.1) <$> ms;
  obj_members : Forall (fun p => member_ok h n p.1 p.2) ms
}.
Definition with_root (p : Mem * jdoc) : Mem * Node := (p.1, droot p.2).

Inductive stored (h : heap) : jdoc -> Prop :=
  | stored_leaf n t s : leaf_ok h n t s -> stored h (DLeaf n t s)
  | stored_arr n ds : arr_ok h n (droot <$> ds) -> Forall (stored h) ds -> stored h (DArr n ds)
  | stored_obj n ms : obj_ok h n (with_root <$> ms) -> Forall (fun p => stored h p.2) ms ->
      stored h (DObj n ms).

Lemma stored_leaf_inv h n t s : stored h (DLeaf n t s) <-> leaf_ok h n t s.
Proof. split; [by inversion 1|by constructor]. Qed.
Lemma stored_arr_inv h n ds : stored h (DArr n ds) <-> arr_ok h n (droot <$> ds) /\ Forall (stored h) ds.
Proof. split; [by inversion 1|by intros []; constructor]. Qed.
Lemma stored_obj_inv h n ms : stored h (DObj n ms) <->
  obj_ok h n (with_root <$> ms) /\ Forall (fun p => stored h p.2) ms.
Proof. split; [by inversion 1|by intros []; constructor]. Qed.

Lemma obj_children_of h n ms : obj_ok h n (with_root <$> ms) ->
  children_of h n = (fun p => m_node p.1) <$> ms.
Proof. intros [_ _ _ -> _]. by rewrite <-list_fmap_compose. Qed.
Lemma obj_member h n ms p : obj_ok h n (with_root <$> ms) -> p ∈ ms -> member_ok h n p.1 (droot p.2).
Proof.
  intros [_ _ _ _ Hm] Hp. apply Forall_fmap in Hm. exact (proj1 (Forall_forall _ _) Hm p Hp).
Qed.
Lemma arr_parent h n ds d : arr_ok h n (droot <$> ds) -> d ∈ ds -> parent_of h (droot d) = Some n.
Proof. intros [_ _ _ Hm] Hp. apply Forall_fmap in Hm. exact (proj1 (Forall_forall _ _) Hm d Hp). Qed.

Lemma stored_reads h d : stored h d -> reads h (tree_of d).
Proof.
  induction d as [n t s|n ds IH|n ms IH] using jdoc_ind'; cbn [tree_of].
  - intros L%stored_leaf_inv. apply reads_inv. by rewrite (leaf_children _ _ _ _ L).
  - intros [A Hd]%stored_arr_inv. apply reads_inv. split.
    + rewrite (arr_children _ _ _ A), <-list_fmap_compose. apply list_fmap_ext. intros _ d _. symmetry. apply root_tree_of.
    + apply Forall_fmap, Forall_forall. intros d Hin. by apply (proj1 (Forall_forall _ _) IH d), (proj1 (Forall_forall _ _) Hd).
  - intros [O Hd]%stored_obj_inv. apply reads_inv. split.
    + rewrite (obj_children_of _ _ _ O). by rewrite <-list_fmap_compose.
    + apply Forall_fmap, Forall_forall. intros p Hp. cbn. pose proof (obj_member _ _ _ p O Hp) as M.
      apply reads_inv. split; [cbn; rewrite root_tree_of; apply M|]. rewrite !Forall_cons. split_and!; [| |done].
      * apply reads_inv. split; [apply M|done].
      * by apply (proj1 (Forall_forall _ _) IH p), (proj1 (Forall_forall _ _) Hd p).
Qed.

(** Membership in the nodes of a document *)
Lemma dnodes_arr n ds m : m ∈ dnodes (DArr n ds) <-> m = n \/ exists d, d ∈ ds /\ m ∈ dnodes d.
Proof.
  unfold dnodes. cbn [tree_of]. rewrite elem_of_nodes. split; (intros [?|H]; [by left|right]).
  - destruct H as (t & (d & -> & Hd)%list_elem_of_fmap & Hm). eauto.
  - destruct H as (d & Hd & Hm). exists (tree_of d). split; [by apply list_elem_of_fmap_2|done].
Qed.

Lemma dnodes_member p m : m ∈ nodes (member_tree p) <->
  m = m_node p.1 \/ m = m_key_node p.1 \/ m ∈ dnodes p.2.
Proof.
  unfold dnodes, member_tree. rewrite elem_of_nodes. split; (intros [?|H]; [by left|right]).
  - destruct H as (t & [->|[->|[]%elem_of_nil]%elem_of_cons]%elem_of_cons & Hm); [left|by right].
    by apply list_elem_of_singleton in Hm.
  - destruct H as [->|Hm].
    + exists (Tree (m_key_node p.1) []). split; left.
    + exists (tree_of p.2). split; [right; left|done].
Qed.

Lemma dnodes_obj n ms m : m ∈ dnodes (DObj n ms) <->
  m = n \/ exists p, p ∈ ms /\ m ∈ nodes (member_tree p).
Proof.
  unfold dnodes. cbn [tree_of]. rewrite elem_of_nodes. split; (intros [?|H]; [by left|right]).
  - destruct H as (t & (p & -> & Hp)%list_elem_of_fmap & Hm). by exists p.
  - destruct H as (p & Hp & Hm). exists (member_tree p). split; [|done]. by apply (list_elem_of_fmap_2 member_tree).
Qed.

Lemma droot_in d : droot d ∈ dnodes d.
Proof. rewrite <-root_tree_of. apply root_in_nodes. Qed.

Lemma stored_some h d : stored h d -> forall n, n ∈ dnodes d -> is_Some (h !! n).
Proof.
  induction d as [n t s|n ds IH|n ms IH] using jdoc_ind'.
  - intros L%stored_leaf_inv m ->%list_elem_of_singleton. apply L.
  - intros [A Hd]%stored_arr_inv m [->|(d & Hin & Hm)]%dnodes_arr; [apply A|].
    by apply (proj1 (Forall_forall _ _) IH d Hin); [apply (proj1 (Forall_forall _ _) Hd)|].
  - intros [O Hd]%stored_obj_inv m [->|(p & Hp & Hm)]%dnodes_obj; [apply O|].
    pose proof (obj_member _ _ _ p O Hp) as M. apply dnodes_member in Hm as [->|[->|Hm]]; [apply M..|].
    by apply (proj1 (Forall_forall _ _) IH p Hp); [apply (proj1 (Forall_forall _ _) Hd p)|].
Qed.

(** The types of a document's nodes *)
Lemma stored_unmarked h d : stored h d -> Forall (fun n => unmarked (type_of h n)) (dnodes d).
Proof.
  intros Hs. apply Forall_forall. intros m Hm. revert m Hm.
  induction d as [n t s|n ds IH|n ms IH] using jdoc_ind'.
  - apply stored_leaf_inv in Hs as [_ Ht Hsc _ _]. intros m ->%list_elem_of_singleton. rewrite Ht.
    unfold scalar_tokens in Hsc. rewrite !elem_of_cons in Hsc.
    destruct Hsc as [->|[->|[->|[->|[->|[]%elem_of_nil]]]]]; done.
  - apply stored_arr_inv in Hs as [A Hd].
    intros m [->|(d & Hin & Hm)]%dnodes_arr; [by rewrite (arr_type _ _ _ A)|].
    by apply (proj1 (Forall_forall _ _) IH d Hin); [apply (proj1 (Forall_forall _ _) Hd)|].
  - apply stored_obj_inv in Hs as [O Hd]. intros m [->|(p & Hp & Hm)]%dnodes_obj; [by rewrite (obj_type _ _ _ O)|].
    pose proof (obj_member _ _ _ p O Hp) as M. apply dnodes_member in Hm as [->|[->|Hm]].
    + by rewrite (mem_type _ _ _ _ M).
    + by rewrite (mem_key_type _ _ _ _ M).
    + by apply (proj1 (Forall_forall _ _) IH p Hp); [apply (proj1 (Forall_forall _ _) Hd p)|].
Qed.

(** * Stores in which a document stays *)

(** A store that keeps the nodes of a document: all of them, and the parents of all but the
    root; tables may change. *)
Record keeps_node (h h' : heap) (n : Node) : Prop := {
  kn_some : is_Some (h !! n) -> is_Some (h' !! n);
  kn_type : type_of h' n = type_of h n;
  kn_location : location_of h' n = location_of h n;
  kn_symtab : is_Some (symtab_of h n) -> is_Some (symtab_of h' n);
  kn_children : children_of h' n = children_of h n
}.

Lemma same_keeps h h' n : h' !! n = h !! n -> keeps_node h h' n.
Proof.
  intros E. unfold type_of, location_of, symtab_of, children_of, node_at.
  split; unfold type_of, location_of, symtab_of, children_of, node_at; by rewrite E.
Qed.

Lemma member_keeps h h' n m v :
  keeps_node h h' (m_node m) -> keeps_node h h' (m_key_node m) ->
  (forall x, x = m_node m \/ x = m_key_node m \/ x = v -> parent_of h' x = parent_of h x) ->
  member_ok h n m v -> member_ok h' n m v.
Proof.
  intros [A1 A2 A3 A4 A5] [B1 B2 B3 B4 B5] Hp [M1 M2 M3 M4 M5 M6 M7 M8 M9 M10].
  split; rewrite ?A2, ?A5, ?B2, ?B3, ?B5, ?Hp by auto; auto.
Qed.

Lemma stored_keeps h h' d : stored h d -> (forall n, n ∈ dnodes d -> keeps_node h h' n) ->
  (forall n, n ∈ dnodes d -> n <> droot d -> parent_of h' n = parent_of h n) ->
  NoDup (dnodes d) -> stored h' d.
Proof.
  induction d as [n t s|n ds IH|n ms IH] using jdoc_ind'; intros Hs Hk Hp Hd.
  - apply stored_leaf_inv. apply stored_leaf_inv in Hs as [L1 L2 L3 L4 L5].
    destruct (Hk n (droot_in (DLeaf n t s))) as [K1 K2 K3 K4 K5].
    split; rewrite ?K2, ?K3, ?K5; auto.
  - apply stored_arr_inv in Hs as [A Hs]. pose proof A as [A1 A2 A3 A4].
    destruct (Hk n (droot_in (DArr n ds))) as [K1 K2 K3 K4 K5].
    unfold dnodes in Hd. cbn [tree_of nodes] in Hd. apply NoDup_cons in Hd as [Hn Hd].
    assert (Hin : forall d m, d ∈ ds -> m ∈ dnodes d -> m ∈ dnodes (DArr n ds) /\ m <> n).
    { intros d m H1 H2. split; [apply dnodes_arr; eauto|]. intros ->. apply Hn, elem_of_concat_map.
      exists (tree_of d). split; [by apply list_elem_of_fmap_2|done]. }
    apply stored_arr_inv. split.
    + split; rewrite ?K2, ?K5; auto. apply Forall_fmap, Forall_forall. intros d H1. cbn.
      destruct (Hin d (droot d) H1 (droot_in d)). rewrite Hp by done. by eapply arr_parent.
    + apply Forall_forall. intros d H1. apply (proj1 (Forall_forall _ _) IH d H1).
      * by apply (proj1 (Forall_forall _ _) Hs).
      * intros m Hm. by apply Hk, (Hin d m).
      * intros m Hm _. destruct (Hin d m H1 Hm). by apply Hp.
      * apply (NoDup_concat_elem _ _ Hd). unfold dnodes. rewrite <-list_fmap_compose.
        by apply (list_elem_of_fmap_2 (nodes ∘ tree_of)).
  - apply stored_obj_inv in Hs as [O Hs]. pose proof O as [O1 O2 O3 O4 O5].
    destruct (Hk n (droot_in (DObj n ms))) as [K1 K2 K3 K4 K5].
    unfold dnodes in Hd. cbn [tree_of nodes] in Hd. apply NoDup_cons in Hd as [Hn Hd].
    change (fun p : Mem * jdoc => Tree _ _) with member_tree in *.
    assert (Hin : forall p m, p ∈ ms -> m ∈ nodes (member_tree p) -> m ∈ dnodes (DObj n ms) /\ m <> n).
    { intros p m H1 H2. split; [apply dnodes_obj; eauto|]. intros ->. apply Hn, elem_of_concat_map.
      exists (member_tree p). split; [by apply list_elem_of_fmap_2|done]. }
    assert (Hmt : forall p, p ∈ ms -> NoDup (nodes (member_tree p))).
    { intros p Hp'. apply (NoDup_concat_elem _ _ Hd). by apply list_elem_of_fmap_2, list_elem_of_fmap_2. }
    assert (Hpar : forall p m, p ∈ ms -> m ∈ nodes (member_tree p) -> parent_of h' m = parent_of h m).
    { intros p m H1 H2. destruct (Hin p m H1 H2). by apply Hp. }
    apply stored_obj_inv. split.
    + split; rewrite ?K2, ?K5; auto. apply Forall_fmap, Forall_forall. intros p H1. cbn.
      apply (member_keeps h); [| | |by eapply obj_member].
      * apply Hk, (Hin p); [done|]. apply dnodes_member. by left.
      * apply Hk, (Hin p); [done|]. apply dnodes_member. right. by left.
      * intros x Hx. apply (Hpar p); [done|]. apply dnodes_member.
        destruct Hx as [->|[->| ->]]; [by left|right; by left|right; right; apply droot_in].
    + apply Forall_forall. intros p H1. apply (proj1 (Forall_forall _ _) IH p H1).
      * by apply (proj1 (Forall_forall _ _) Hs p).
      * intros m Hm. apply Hk, (Hin p m); [done|]. apply dnodes_member. by right; right.
      * intros m Hm _. apply (Hpar p); [done|]. apply dnodes_member. by right; right.
      * pose proof (Hmt p H1) as Hmn. apply NoDup_cons in Hmn as [_ Hmn]. cbn in Hmn.
        apply NoDup_cons in Hmn as [_ Hmn]. by rewrite app_nil_r in Hmn.
Qed.

(** * Copies of documents *)

Definition copies_doc (h h' : heap) (d : jdoc) : Prop := forall t', copied h h' (tree_of d) t' ->
  exists d', tree_of d' = t' /\ stored h' d' /\ value d' = value d.

Lemma copied_elements h h' ds : forall ts, Forall (copies_doc h h') ds ->
  Forall2 (copied h h') (tree_of <$> ds) ts ->
  exists ds', tree_of <$> ds' = ts /\ Forall (stored h') ds' /\ value <$> ds' = value <$> ds.
Proof.
  induction ds as [|d ds IH]; intros ts; cbn; intros Hd H2; inversion H2 as [|? t' ? ts' Ht Hts]; subst.
  - by exists [].
  - apply Forall_cons in Hd as [Hd Hds]. destruct (Hd t' Ht) as (d' & <- & Hs & Hv).
    destruct (IH ts' Hds Hts) as (ds' & <- & Hss & Hvs). exists (d' :: ds'). cbn.
    split_and!; [done|by constructor|by rewrite Hv, Hvs].
Qed.

Lemma copied_member h h' n n' p t' : member_ok h n p.1 (droot p.2) -> copies_doc h h' p.2 ->
  copied h h' (member_tree p) t' -> parent_of h' (root t') = Some n' ->
  exists p', member_tree p' = t' /\ member_ok h' n' p'.1 (droot p'.2) /\ stored h' p'.2
    /\ m_key p'.1 = m_key p.1 /\ value p'.2 = value p.2.
Proof.
  intros [M1 M2 M3 M4 M5 M6 M7 M8 M9 M10] Hd H Hp.
  inversion H as [? ? m ts Hs Ht Hl Hy Hch Hps H2]; subst. clear H.
  inversion H2 as [|? kt ? ? Hk H3]; subst. inversion H3 as [|? vt ? ? Hv H4]; subst. inversion H4; subst.
  inversion Hk as [? ? k ts Hks Hkt Hkl Hky Hkch Hkps Hk2]; subst. inversion Hk2; subst. clear Hk Hk2 H2 H3 H4.
  destruct (Hd vt Hv) as (d' & <- & Hds & Hvd). rewrite !Forall_cons in Hps. destruct Hps as (Hp1 & Hp2 & _).
  exists (mkMem m k (m_key p.1), d'). cbn [fst snd m_key]. split_and!; [done| |done|done|done].
  rewrite root_tree_of in *. cbn [root fmap list_fmap] in *. cbn in *.
  split; cbn; try done; [by rewrite Ht|by rewrite Hch, root_tree_of|by rewrite Hkt|by rewrite Hkl].
Qed.

Lemma copied_members h h' n n' ms : forall ts, Forall (fun p => member_ok h n p.1 (droot p.2)) ms ->
  Forall (fun p => copies_doc h h' p.2) ms -> Forall2 (copied h h') (member_tree <$> ms) ts ->
  Forall (fun t => parent_of h' (root t) = Some n') ts ->
  exists ms', member_tree <$> ms' = ts /\ Forall (fun p => member_ok h' n' p.1 (droot p.2)) ms'
    /\ Forall (fun p => stored h' p.2) ms'
    /\ (fun p => (m_key p.1, value p.2)) <$> ms' = (fun p => (m_key p.1, value p.2)) <$> ms.
Proof.
  induction ms as [|p ms IH]; intros ts; cbn; intros Hm Hd H2 Hp; inversion H2 as [|? t' ? ts' Ht Hts]; subst.
  - by exists [].
  - apply Forall_cons in Hd as [Hd Hds]. apply Forall_cons in Hm as [Hm Hms]. apply Forall_cons in Hp as [Hp Hps].
    destruct (copied_member h h' n n' p t' Hm Hd Ht Hp) as (p' & <- & H1 & H3 & H4 & H5).
    destruct (IH ts' Hms Hds Hts Hps) as (ms' & <- & Hm' & Hss & Hvs). exists (p' :: ms'). cbn.
    split_and!; [done|by constructor|by constructor|by rewrite H4, H5, Hvs].
Qed.

Lemma roots_tree_of (ds : list jdoc) : root <$> (tree_of <$> ds) = droot <$> ds.
Proof. rewrite <-list_fmap_compose. apply list_fmap_ext. intros _ d _. apply root_tree_of. Qed.

(** A copy of a document is a document of the same value. *)
Lemma copied_stored h h' d : stored h d -> copies_doc h h' d.
Proof.
  induction d as [n t s|n ds IH|n ms IH] using jdoc_ind'; intros Hs t' Hc;
    inversion Hc as [? ? n' ts' Hs' Ht Hl Hy Hch Hp H2]; subst; clear Hc.
  - apply stored_leaf_inv in Hs as [L1 L2 L3 L4 L5]. inversion H2; subst.
    exists (DLeaf n' (type_of h n) s). split_and!; [done| |done]. apply stored_leaf_inv.
    split; [done|done|done|by rewrite Hl|done].
  - apply stored_arr_inv in Hs as [[A1 A2 A3 A4] Hs].
    destruct (copied_elements h h' ds ts') as (ds' & <- & Hss & Hv); [|done|].
    { apply Forall_forall. intros d Hd.
      by apply (proj1 (Forall_forall _ _) IH d Hd), (proj1 (Forall_forall _ _) Hs). }
    exists (DArr n' ds'). split_and!; [done| |cbn; by rewrite Hv].
    apply stored_arr_inv. split; [|done]. rewrite roots_tree_of in Hch.
    split; [done|by rewrite Ht|done|]. rewrite <-roots_tree_of. by apply Forall_fmap.
  - apply stored_obj_inv in Hs as [O Hs]. pose proof O as [O1 O2 O3 O4 O5].
    destruct (copied_members h h' n n' ms ts') as (ms' & <- & Hm & Hss & Hv); [|..|done|done|].
    { apply Forall_forall. intros p Hin. by apply (obj_member _ _ _ _ O). }
    { apply Forall_forall. intros p Hin.
      by apply (proj1 (Forall_forall _ _) IH p Hin), (proj1 (Forall_forall _ _) Hs p). }
    exists (DObj n' ms'). split_and!; [done| |cbn; by rewrite Hv].
    apply stored_obj_inv. split; [|done]. split; [done|by rewrite Ht| | |].
    + rewrite Hy, O2. by eexists.
    + rewrite Hch. by rewrite <-!list_fmap_compose.
    + by apply Forall_fmap.
Qed.

(** A call of [clone] on a document *)
Record cloned_doc (h h' : heap) (d d' : jdoc) : Prop := {
  cd_subset : h ⊆ h';
  cd_stored : stored h' d';
  cd_value : value d' = value d;
  cd_nodup : NoDup (dnodes d');
  cd_fresh m : m ∈ dnodes d' -> h !! m = None;
  cd_parent : parent_of h' (droot d') = None;
  cd_calm : calm h' (droot d');
  cd_tables m st : m ∈ dnodes d' -> symtab_of h' m = Some st -> symbols st = []
}.

Lemma doc_size h d : stored h d -> NoDup (dnodes d) -> (height (tree_of d) <= S (size h))%nat.
Proof.
  intros Hs Hd. pose proof (height_nodes (tree_of d)).
  pose proof (nodes_size h (dnodes d) Hd (stored_some h d Hs)). unfold dnodes in *. lia.
Qed.

Lemma clone_doc h d : stored h d -> NoDup (dnodes d) ->
  exists d' h', clone_node h (droot d) = Returns (droot d', h') /\ cloned_doc h h' d d'.
Proof.
  intros Hs Hd. unfold clone_node. rewrite <-root_tree_of.
  destruct (clone_spec (tree_of d) (S (size h)) h) as (t' & h' & E & [C1 C2 C3 C4 C5 C6]).
  - by apply doc_size.
  - by apply stored_reads.
  - by apply stored_some.
  - destruct (copied_stored h h' d Hs t' C2) as (d' & <- & Hs' & Hv). exists d', h'.
    rewrite !root_tree_of in *. split; [exact E|]. split; try done.
    + intros m Hm. apply (proj1 (C4 m Hm)).
    + by apply C6, stored_unmarked.
    + intros m st. by apply (copied_tables h h' (tree_of d) _ C2).
Qed.

(** * Error messages *)

(** A node that was made since the store [h] and has no parent *)
Record fresh_root (h h1 : heap) (n : Node) (type : Token) : Prop := {
  fr_none : h !! n = None;
  fr_some : is_Some (h1 !! n);
  fr_parent : parent_of h1 n = None;
  fr_type : type_of h1 n = type
}.

Lemma fresh_root_mono h h1 h2 n type : h1 ⊆ h2 -> fresh_root h h1 n type -> fresh_root h h2 n type.
Proof.
  intros Hs [F1 F2 F3 F4]. pose proof (subset_same h1 h2 n Hs F2) as Hp. split; [done| | |].
  - by apply (same_some _ _ _ Hp).
  - by rewrite (same_parent_of _ _ _ Hp).
  - by rewrite (same_type _ _ _ Hp).
Qed.

Lemma not_in_subset (h h1 : heap) n : h ⊆ h1 -> h1 !! n = None -> h !! n = None.
Proof. intros Hs Hn. destruct (h !! n) eqn:E; [|done]. by rewrite (lookup_weaken _ _ _ _ E Hs) in Hn. Qed.

(** The three steps that build fresh nodes *)
Lemma step_create h h1 type loc : h ⊆ h1 ->
  exists n h2, create h1 type loc = (n, h2) /\ h1 ⊆ h2 /\ h1 !! n = None /\ fresh_root h h2 n type
    /\ h2 !! n = Some (new_node type loc).
Proof.
  intros Hs. unfold create. eexists _, _. split; [reflexivity|].
  assert (E : h1 !! fresh (dom h1) = None) by (apply (not_elem_of_dom (D:=gset Node)), is_fresh).
  split_and!; [by apply insert_subseteq|done| |by rewrite lookup_insert_eq].
  split; [by apply (not_in_subset h h1)|..];
    unfold parent_of, type_of, node_at; rewrite lookup_insert_eq; by try eexists.
Qed.

Lemma step_push h h1 p n tp tn : h ⊆ h1 -> fresh_root h h1 p tp -> fresh_root h h1 n tn -> p <> n ->
  let h2 := push_back h1 p (Some n) in
  h ⊆ h2 /\ (forall x t, x <> n -> fresh_root h h1 x t -> fresh_root h h2 x t).
Proof.
  intros Hs [P1 P2 P3 P4] [N1 N2 N3 N4] Hne h2. destruct (push_back_root h1 p n P2 N2 Hne P3) as (K1 & K2 & K3).
  fold h2 in K1, K2, K3. split.
  - apply map_subseteq_spec. intros m d Hd. rewrite K1; [by eapply lookup_weaken|congruence|congruence].
  - intros x t Hx [X1 X2 X3 X4]. assert (Hp : h2 !! x = h1 !! x \/ x = p).
    { destruct (decide (x = p)); [by right|left; by apply K1]. }
    destruct Hp as [Hp| ->].
    + apply same_plain_eq in Hp. split; [done|by apply (same_some _ _ _ Hp)|..].
      * by rewrite (same_parent_of _ _ _ Hp).
      * by rewrite (same_type _ _ _ Hp).
    + destruct P2 as [d Hd]. rewrite Hd in K3. destruct (h2 !! p) as [d'|] eqn:E; [|done].
      cbn in K3. injection K3 as E1 E2 E3 E4 E5. cbn in *.
      unfold parent_of, type_of, node_at in *. rewrite Hd in *. cbn in *.
      split; [done|by eexists|..]; unfold parent_of, type_of, node_at; rewrite E; cbn; congruence.
Qed.

Lemma step_clone h h1 t : h ⊆ h1 -> reads h t -> NoDup (nodes t) ->
  (forall n, n ∈ nodes t -> is_Some (h !! n)) ->
  exists t' h2, clone_node h1 (root t) = Returns (root t', h2) /\ h1 ⊆ h2 /\ h1 !! root t' = None
    /\ fresh_root h h2 (root t') (type_of h2 (root t')).
Proof.
  intros Hs Hr Hd Ha.
  assert (Ha1 : forall n, n ∈ nodes t -> is_Some (h1 !! n)).
  { intros n Hn. destruct (Ha n Hn) as [d Hd']. exists d. by eapply lookup_weaken. }
  destruct (clone_spec t (S (size h1)) h1) as (t' & h2 & E & [C1 C2 C3 C4 C5 _]); [| |done|].
  - pose proof (height_nodes t). pose proof (nodes_size h1 (nodes t) Hd Ha1). lia.
  - apply (reads_same h); [done|]. intros n Hn. by apply same_children, subset_same; [|apply Ha].
  - exists t', h2. destruct (C4 _ (root_in_nodes t')) as [F1 F2].
    split_and!; [done..|]. split; [by apply (not_in_subset h h1)|done..].
Qed.

(** [err] returns an error node and leaves the store it found. *)
Definition fails (h : heap) (r : outcome (Node * heap)) : Prop :=
  exists e h', r = Returns (e, h') /\ h ⊆ h' /\ type_of h' e = Error.

Lemma err_fails h t msg : reads h t -> NoDup (nodes t) -> (forall n, n ∈ nodes t -> is_Some (h !! n)) ->
  fails h (err h (root t) msg).
Proof.
  intros Hr Hd Ha. unfold fails, err, create_token.
  destruct (step_create h h Error null_location) as (e & h1 & -> & S1 & N1 & F1 & _); [done|].
  destruct (step_create h h1 ErrorMsg msg) as (m & h2 & -> & S2 & N2 & F2 & _); [done|].
  assert (Hem : e <> m) by (intros ->; destruct (fr_some _ _ _ _ F1); congruence).
  apply (fresh_root_mono h h1 h2) in F1; [|done].
  destruct (step_push h h2 e m Error ErrorMsg) as (S3 & K3); [by etransitivity|done..|].
  pose proof (K3 e Error Hem F1) as F1'. set (h3 := push_back h2 e (Some m)) in *.
  destruct (step_create h h3 ErrorAst null_location) as (a & h4 & -> & S4 & N4 & F4 & _); [done|].
  assert (Hea : e <> a) by (intros ->; destruct (fr_some _ _ _ _ F1'); congruence).
  apply (fresh_root_mono h h3 h4) in F1'; [|done].
  destruct (step_clone h h4 t) as (t' & h5 & E & S5 & N5 & F5); [by etransitivity|done..|].
  rewrite E. cbn [mbind outcome_bind].
  assert (Ha5 : a <> root t') by (intros Hx; destruct (fr_some _ _ _ _ F4); congruence).
  assert (He5 : e <> root t') by (intros Hx; destruct (fr_some _ _ _ _ F1'); congruence).
  apply (fresh_root_mono h h4 h5) in F1', F4; [|done..].
  destruct (step_push h h5 a (root t') _ _ ltac:(etransitivity; [exact S3|by etransitivity]) F4 F5 Ha5) as (S6 & K6).
  pose proof (K6 e Error He5 F1') as F6. pose proof (K6 a ErrorAst Ha5 F4) as G6.
  destruct (step_push h _ e a _ _ S6 F6 G6 Hea) as (S7 & K7).
  eexists _, _. split; [reflexivity|]. split; [exact S7|].
  exact (fr_type _ _ _ _ (K7 e Error Hea F6)).
Qed.

Lemma err_doc h d msg : stored h d -> NoDup (dnodes d) -> fails h (err h (droot d) msg).
Proof.
  intros Hs Hd. rewrite <-root_tree_of. apply err_fails; [by apply stored_reads|done|by apply stored_some].
Qed.

(** [err(token ^ location, msg)] *)
Lemma err_located h type loc msg :
  fails h (let '(n, h) := located h type loc in err h n msg).
Proof.
  unfold located. destruct (step_create h h type loc) as (n & h1 & -> & S1 & _ & F1 & E1); [done|].
  destruct (err_fails h1 (Tree n []) msg) as (e & h2 & E & S2 & T2).
  - apply reads_inv. split; [|done]. unfold children_of, node_at. by rewrite E1.
  - apply NoDup_singleton.
  - intros m ->%list_elem_of_singleton. apply F1.
  - exists e, h2. split_and!; [exact E|by etransitivity|done].
Qed.
