(* ===== verification/JsonSpec.v ===== *)
(** JSON pointers: [Pointer] reads the keys of RFC 6901, and the lookups of [Operation] find
    what the keys name in the value of the document. *)
From S2P Require Import Prelude.
From S2P Require Import Token.
From S2P Require Import Source.
From S2P Require Import Ast.
From S2P Require Import AstFacts.
From S2P Require Import JsonParse.
From S2P Require Import JsonWriter.
From S2P Require Import JsonDoc.
From S2P Require Import CloneFacts.
From S2P Require Import JsonValue.
From stdpp Require Export gmap.
#[local] Set Warnings "-register-all".
Open Scope Z_scope.

(** * The keys of a pointer *)

(** How a key is written in a pointer *)
Definition escape_key (k : list Z) : list Z :=
  flat_map (fun x => if x =? 126 then [126; 48] else if x =? 47 then [126; 49] else [x]) k.
Definition pointer_text (ks : list (list Z)) : list Z :=
  flat_map (fun k => 47 :: escape_key k) ks.

(** The text up to the next slash, and what follows *)
Fixpoint take_key (v : list Z) : list Z * list Z :=
  match v with
  | [] => ([], [])
  | x :: v => if x =? 47 then ([], 47 :: v) else let '(k, r) := take_key v in (x :: k, r)
  end.

(** The keys of a text that starts with a slash, each key unescaped *)
Fixpoint parse_keys (fuel : nat) (v : list Z) : option (list (list Z)) :=
  match fuel, v with
  | _, [] => Some []
  | O, _ => None
  | S fuel, x :: v =>
      if x =? 47 then
        let '(k, r) := take_key v in
        match unescape_key k with
        | Some k => cons k <$> parse_keys fuel r
        | None => None
        end
      else None
  end.
Definition parse_pointer (v : list Z) : option (list (list Z)) := parse_keys (length v) v.

Lemma take_key_app v : (v = (take_key v).1 ++ (take_key v).2)
  /\ (47 ∉ (take_key v).1) /\ (length (take_key v).2 <= length v)%nat
  /\ ((take_key v).2 = [] \/ exists r, (take_key v).2 = 47 :: r).
Proof.
  induction v as [|x v (IH1 & IH2 & IH3 & IH4)]; cbn [take_key].
  - split_and!; [done|by intros ?%elem_of_nil|done|by left].
  - destruct (Z.eqb_spec x 47) as [->|Hx]; cbn [fst snd].
    + split_and!; [done|by intros ?%elem_of_nil|done|right; by eexists].
    + destruct (take_key v) as [k r]. cbn [fst snd] in *. split_and!.
      * by rewrite IH1 at 1.
      * by intros [E|E]%elem_of_cons.
      * cbn. lia.
      * done.
Qed.

Lemma parse_keys_fuel f1 f2 v : (length v <= f1)%nat -> (length v <= f2)%nat -> parse_keys f1 v = parse_keys f2 v.
Proof.
  revert f2 v. induction f1 as [|f1 IH]; intros [|f2] [|x v] H1 H2; cbn in *; try done; try lia.
  destruct (x =? 47); [|done]. destruct (take_key_app v) as (_ & _ & Hl & _).
  destruct (take_key v) as [k r]. cbn [fst snd] in *. by rewrite (IH f2 r) by lia.
Qed.

Lemma unescape_escape_key k : unescape_key (escape_key k) = Some k.
Proof.
  induction k as [|x k IH]; [done|]. unfold escape_key in *. cbn [flat_map].
  destruct (Z.eqb_spec x 126) as [->|H1]; [cbn; by rewrite IH|].
  destruct (Z.eqb_spec x 47) as [->|H2]; [cbn; by rewrite IH|].
  cbn. by rewrite (proj2 (Z.eqb_neq x 126) H1), IH.
Qed.

Lemma escape_key_slash k : 47 ∉ escape_key k.
Proof.
  induction k as [|x k IH]; [by intros ?%elem_of_nil|]. unfold escape_key in *. cbn [flat_map].
  rewrite elem_of_app. intros [H|H]; [|done]. destruct (Z.eqb_spec x 126) as [->|H1].
  - by repeat (apply elem_of_cons in H as [?|H]); [..|apply elem_of_nil in H].
  - destruct (Z.eqb_spec x 47) as [->|H2].
    + by repeat (apply elem_of_cons in H as [?|H]); [..|apply elem_of_nil in H].
    + apply list_elem_of_singleton in H. by subst.
Qed.

Lemma take_key_slash k v : 47 ∉ k -> (v = [] \/ exists r, v = 47 :: r) -> take_key (k ++ v) = (k, v).
Proof.
  intros Hk Hv. induction k as [|x k IH]; cbn [app take_key].
  - destruct Hv as [->|[r ->]]; done.
  - apply not_elem_of_cons in Hk as [Hx Hk]. rewrite (proj2 (Z.eqb_neq x 47)) by congruence.
    by rewrite IH.
Qed.

(** What is written is read back. *)
Lemma parse_pointer_text ks : parse_pointer (pointer_text ks) = Some ks.
Proof.
  unfold parse_pointer. induction ks as [|k ks IH]; [done|].
  assert (Ht : take_key (escape_key k ++ pointer_text ks) = (escape_key k, pointer_text ks)).
  { apply take_key_slash; [apply escape_key_slash|]. destruct ks as [|k' ks]; [by left|right; by eexists]. }
  change (pointer_text (k :: ks)) with (47 :: (escape_key k ++ pointer_text ks)).
  cbn [length parse_keys]. change (47 =? 47) with true. cbn [andb]. rewrite Ht, unescape_escape_key.
  rewrite (parse_keys_fuel _ (length (pointer_text ks))) by (rewrite ?length_app; lia). by rewrite IH.
Qed.

Lemma unescape_plain k : 126 ∉ k -> unescape_key k = Some k.
Proof.
  induction k as [|x k IH]; [done|]. intros [Hx Hk]%not_elem_of_cons. cbn.
  by rewrite (proj2 (Z.eqb_neq x 126)), IH by (done || congruence).
Qed.

(** * [Pointer] *)

Section Pointer.
Context (id : positive).

(** The end of a key: [v1] is what precedes the position. *)
Lemma key_end_spec k r v1 fuel b : 47 ∉ k -> (r = [] \/ exists r', r = 47 :: r') ->
  (length k < fuel)%nat ->
  key_end_loop fuel (v1 ++ k ++ r) (Z.of_nat (length (v1 ++ k ++ r))) (Z.of_nat (length v1)) b
  = Returns (Z.of_nat (length (v1 ++ k)), b || existsb (Z.eqb 126) k).
Proof.
  intros Hk Hr. revert v1 fuel b. induction k as [|x k IH]; intros v1 [|fuel] b Hf; cbn [length] in Hf; try lia;
    cbn [key_end_loop].
  - rewrite app_nil_r, orb_false_r. cbn [app]. destruct Hr as [->|[r' ->]].
    + rewrite app_nil_r. by rewrite (proj2 (Z.ltb_ge _ _)) by lia.
    + rewrite (proj2 (Z.ltb_lt _ _)) by (rewrite length_app; cbn [length]; lia).
      rewrite Nat2Z.id. rewrite (list_lookup_middle v1 r' 47) by done. done.
  - apply not_elem_of_cons in Hk as [Hx Hk]. cbn [app].
    rewrite (proj2 (Z.ltb_lt _ _)) by (rewrite length_app; cbn [length]; lia).
    rewrite Nat2Z.id, (list_lookup_middle v1 _ x) by done. cbn [or_undefined mbind outcome_bind].
    rewrite (proj2 (Z.eqb_neq x 47)) by congruence.
    specialize (IH Hk (v1 ++ [x]) fuel (b || (x =? 126)) ltac:(lia)).
    rewrite <-!app_assoc in IH. cbn [app] in IH.
    replace (Z.of_nat (length v1) + 1) with (Z.of_nat (length (v1 ++ [x]))) by (rewrite length_app; cbn; lia).
    rewrite IH.
    f_equal. f_equal. cbn [existsb]. rewrite (Z.eqb_sym 126 x). by rewrite orb_assoc.
Qed.

(** The loop reads the rest of a text like [parse_keys]. *)
Definition pointer_result (h : heap) (path : Location) (read : list Location)
    (ks : option (list (list Z))) (r : outcome (Pointer * heap)) : Prop :=
  match ks with
  | Some ks => exists locs, r = Returns (mkPointer (read ++ locs) path None, h)
      /\ Forall2 (fun l k => view l = Returns k) locs ks
  | None => exists locs e h', r = Returns (mkPointer locs path (Some e), h') /\ h ⊆ h'
      /\ type_of h' e = Error
  end.

Lemma location_string_ok (s : list Z) : Z.of_nat (length s) < npos ->
  view (location_of_string id s) = Returns s.
Proof.
  intros Hl. unfold view, location_of_string. cbn. rewrite Z.sub_0_r, u64_id by lia.
  unfold substr. rewrite (proj2 (Z.ltb_ge _ _)) by lia. rewrite Z.sub_0_r, Z.min_id, Nat2Z.id.
  by rewrite drop_0, firstn_all.
Qed.

Lemma unescape_length k : forall k', unescape_key k = Some k' -> (length k' <= length k)%nat.
Proof.
  assert (H : forall n k k', (length k <= n)%nat -> unescape_key k = Some k' -> (length k' <= length k)%nat).
  { intros n. induction n as [|n IH]; intros [|x k0] k' Hn; cbn in *; try lia; try (intros [= <-]; done).
    destruct (x =? 126).
    - destruct k0 as [|i k0]; [done|]. destruct (i =? 48); [|destruct (i =? 49); [|done]];
        intros (k1 & E & ->)%fmap_Some; cbn in *; pose proof (IH k0 k1 ltac:(lia) E); lia.
    - intros (k1 & E & ->)%fmap_Some; cbn in *; pose proof (IH k0 k1 ltac:(lia) E); lia. }
  intros k'. by apply (H (length k)).
Qed.

(** A stretch of the text of a location *)
Lemma view_part path s v1 k r : source path = Some s -> location_ok path ->
  view path = Returns (v1 ++ k ++ r) -> len path = Z.of_nat (length (v1 ++ k ++ r)) ->
  view (mkLocation (source path) (u64 (pos path + Z.of_nat (length v1))) (Z.of_nat (length k))) = Returns k.
Proof.
  intros Hs Hok Hv Hl. rewrite (view_ok path Hok) in Hv. unfold location_ok in Hok. rewrite Hs in *.
  destruct Hok as (H1 & H2 & H3 & H4 & H5). injection Hv as Hv. rewrite !length_app in Hl.
  rewrite (u64_in_source s _ H1) by lia. rewrite view_ok; cbn [source len pos].
  - f_equal. rewrite Nat2Z.id, Z2Nat.inj_add, Nat2Z.id by lia.
    rewrite <-drop_drop. assert (E : take (Z.to_nat (len path)) (drop (Z.to_nat (pos path)) (contents s)) = v1 ++ k ++ r) by done.
    set (w := drop (Z.to_nat (pos path)) (contents s)) in *.
    assert (Ew : w = (v1 ++ k ++ r) ++ drop (Z.to_nat (len path)) w) by (rewrite <-E; by rewrite take_drop).
    rewrite Ew, <-!app_assoc, drop_app_length, take_app_length. done.
  - unfold location_ok. cbn. split_and!; [done|done|lia|lia|lia].
Qed.

(** One key: its location, if it can be unescaped, and the position after it *)
Lemma next_key_spec path s v1 k r : source path = Some s -> location_ok path ->
  47 ∉ k -> (r = [] \/ exists r', r = 47 :: r') ->
  view path = Returns (v1 ++ 47 :: k ++ r) -> len path = Z.of_nat (length (v1 ++ 47 :: k ++ r)) ->
  exists o, next_key id path (Z.of_nat (length v1)) = Returns (o, Z.of_nat (length (v1 ++ 47 :: k)))
    /\ match unescape_key k with
       | Some k' => exists l, o = Some l /\ view l = Returns k'
       | None => o = None
       end.
Proof.
  intros Hs Hok Hk Hr Hv Hl. unfold next_key. rewrite Hv. cbn [mbind outcome_bind].
  rewrite Nat2Z.id, (list_lookup_middle v1 _ 47) by done. cbn [or_undefined mbind outcome_bind].
  change (47 =? 47) with true. cbn [negb].
  assert (E1 : v1 ++ 47 :: k ++ r = (v1 ++ [47]) ++ k ++ r) by by rewrite <-app_assoc.
  assert (E2 : Z.of_nat (length v1) + 1 = Z.of_nat (length (v1 ++ [47]))) by (rewrite length_app; cbn; lia).
  rewrite Hl, E1, E2, key_end_spec; [|done|done|rewrite !length_app; cbn; lia].
  cbn [mbind outcome_bind orb].
  assert (E3 : Z.of_nat (length ((v1 ++ [47]) ++ k)) - Z.of_nat (length (v1 ++ [47])) = Z.of_nat (length k))
    by (rewrite length_app; lia).
  assert (Hkv : view (mkLocation (source path) (u64 (pos path + Z.of_nat (length (v1 ++ [47]))))
                        (Z.of_nat (length k))) = Returns k).
  { apply (view_part path s _ k r); [done|done|by rewrite <-E1|by rewrite <-E1]. }
  assert (E4 : (v1 ++ [47]) ++ k = v1 ++ 47 :: k) by by rewrite <-app_assoc.
  rewrite E3, E4. destruct (existsb (Z.eqb 126) k) eqn:En; cbn [negb].
  - rewrite Hkv. cbn [mbind outcome_bind]. eexists. split; [reflexivity|].
    destruct (unescape_key k) as [k'|] eqn:Eu; [|done]. eexists. split; [reflexivity|].
    apply location_string_ok. pose proof (unescape_length k k' Eu). unfold location_ok in Hok.
    rewrite Hs in Hok. destruct Hok as ([_ Hn] & _ & ? & ? & ?). rewrite !length_app in Hl. cbn [length] in Hl.
    rewrite length_app in Hl. lia.
  - eexists. split; [reflexivity|]. rewrite unescape_plain.
    + eexists. split; [reflexivity|done].
    + intros Hin. assert (existsb (Z.eqb 126) k = true); [|congruence].
      apply existsb_exists. exists 126. split; [by apply list_elem_of_In|done].
Qed.

Lemma pointer_loop_spec h path s : source path = Some s -> location_ok path ->
  forall fuel v1 v read, view path = Returns (v1 ++ v) -> len path = Z.of_nat (length (v1 ++ v)) ->
  (length v < fuel)%nat ->
  pointer_result h path read (parse_pointer v) (pointer_loop id fuel h path (Z.of_nat (length v1)) read).
Proof.
  intros Hs Hok. induction fuel as [|fuel IH]; intros v1 v read Hv Hl Hf; [lia|].
  cbn [pointer_loop]. rewrite Hl. destruct v as [|x v].
  { rewrite app_nil_r, (proj2 (Z.ltb_ge _ _)) by lia. exists []. rewrite app_nil_r. by split; [|constructor]. }
  rewrite (proj2 (Z.ltb_lt _ _)) by (rewrite length_app; cbn [length]; lia).
  assert (Hfail : forall locs, pointer_result h path read None
     (let '(s, h) := located h JString path in
      '(e, h) ← err h s (location_of_string id (bytes "Invalid pointer"));
      Returns (mkPointer locs path (Some e), h))).
  { intros locs. destruct (err_located h JString path (location_of_string id (bytes "Invalid pointer")))
      as (e & h' & E & S & T). unfold located in *. destruct (create h JString path) as [n h1].
    rewrite E. cbn. by exists locs, e, h'. }
  unfold parse_pointer. cbn [length parse_keys]. destruct (Z.eqb_spec x 47) as [->|Hx].
  - destruct (take_key_app v) as (Ev & Hk & Hlr & Hr). destruct (take_key v) as [k r]. cbn [fst snd] in *. subst v.
    destruct (next_key_spec path s v1 k r Hs Hok Hk Hr Hv Hl) as (o & -> & Ho). cbn [mbind outcome_bind].
    destruct (unescape_key k) as [k'|]; [|rewrite Ho; apply Hfail].
    destruct Ho as (l & -> & Hlv).
    assert (E : v1 ++ 47 :: k ++ r = (v1 ++ 47 :: k) ++ r) by by rewrite <-app_assoc.
    specialize (IH (v1 ++ 47 :: k) r (read ++ [l])). rewrite <-E in IH.
    specialize (IH Hv Hl ltac:(cbn [length] in Hf; rewrite length_app in Hf; lia)).
    rewrite (parse_keys_fuel _ (length r)) by (rewrite ?length_app; lia). unfold parse_pointer in IH.
    destruct (parse_keys (length r) r) as [ks|]; cbn [fmap option_fmap option_map pointer_result] in *.
    + destruct IH as (locs & -> & Hf2). exists (l :: locs). rewrite <-app_assoc. split; [done|by constructor].
    + exact IH.
  - unfold next_key. rewrite Hv. cbn [mbind outcome_bind].
    rewrite Nat2Z.id, (list_lookup_middle v1 _ x) by done. cbn [or_undefined mbind outcome_bind].
    rewrite (proj2 (Z.eqb_neq x 47)) by done. cbn [negb mbind outcome_bind]. apply Hfail.
Qed.

(** [Pointer(path)] has the keys of its text, or an error. *)
Lemma new_pointer_spec h path v : location_ok path -> view path = Returns v ->
  len path = Z.of_nat (length v) -> pointer_result h path [] (parse_pointer v) (new_pointer id h path).
Proof.
  intros Hok Hv Hl. unfold new_pointer. destruct (source path) as [s|] eqn:Es.
  - apply (pointer_loop_spec h path s Es Hok _ [] v); [done|done|lia].
  - rewrite (view_ok path Hok), Es in Hv. injection Hv as <-. cbn in Hl. rewrite Hl.
    exists []. split; [cbn [Z.of_nat Z.to_nat pointer_loop]; by rewrite Hl|by apply Forall2_nil].
Qed.
End Pointer.

(** * What pointers and patches mean on values (RFC 6901, RFC 6902), and the place of a value
    inside a document. *)

(** * The specification *)

(** An array index: decimal, without leading zeros. *)
Definition is_digit (x : Z) : bool := (48 <=? x) && (x <=? 57).
Definition decimal_value (k : list Z) : Z := foldl (fun i x => i * 10 + (x - 48)) 0 k.
Definition index_text (k : list Z) : option nat :=
  match k with
  | [] => None
  | x :: _ =>
      if (x =? 48) && (1 <? length k)%nat then None
      else if forallb is_digit k then Some (Z.to_nat (decimal_value k)) else None
  end.

Definition named (k : list Z) (p : list Z * json) : Prop := p.1 = k.
#[export] Instance named_dec k p : Decision (named k p) := list_eq_dec p.1 k.

(** The child of a value that a key names: an element by its index, or the value of the first
    member with the key *)
Definition child (k : list Z) (v : json) : option json :=
  match v with
  | JLeaf _ _ => None
  | JArr vs => i ← index_text k; vs !! i
  | JObj ms => '(_, p) ← list_find (named k) ms; Some p.2
  end.
Fixpoint resolve (ks : list (list Z)) (v : json) : option json :=
  match ks with [] => Some v | k :: ks => c ← child k v; resolve ks c end.

(** The edits of a container *)
Definition replace_child (k : list Z) (w v : json) : option json :=
  match v with
  | JLeaf _ _ => None
  | JArr vs => i ← index_text k; _ ← vs !! i; Some (JArr (<[i := w]> vs))
  | JObj ms => '(i, p) ← list_find (named k) ms; Some (JObj (<[i := (p.1, w)]> ms))
  end.
Definition insert_child (k : list Z) (w v : json) : option json :=
  match v with
  | JLeaf _ _ => None
  | JArr vs =>
      if list_eqb k [45] then Some (JArr (vs ++ [w]))
      else
        i ← index_text k;
        if (i <=? length vs)%nat then Some (JArr (take i vs ++ w :: drop i vs)) else None
  | JObj ms =>
      match list_find (named k) ms with
      | Some _ => replace_child k w v
      | None => Some (JObj (ms ++ [(k, w)]))
      end
  end.
Definition remove_child (k : list Z) (v : json) : option json :=
  match v with
  | JLeaf _ _ => None
  | JArr vs => i ← index_text k; _ ← vs !! i; Some (JArr (take i vs ++ drop (S i) vs))
  | JObj ms => '(i, _) ← list_find (named k) ms; Some (JObj (take i ms ++ drop (S i) ms))
  end.

(** An edit of the container at a path *)
Fixpoint update (f : json -> option json) (ks : list (list Z)) (v : json) : option json :=
  match ks with
  | [] => f v
  | k :: ks => c ← child k v; c' ← update f ks c; replace_child k c' v
  end.

(** * Places in a value *)

(** A container with a gap: an element or the value of a member is missing. *)
Inductive vhole :=
  | VArr (l r : list json)
  | VObj (l : list (list Z * json)) (k : list Z) (r : list (list Z * json)).
Definition vfill (g : vhole) (v : json) : json :=
  match g with
  | VArr l r => JArr (l ++ v :: r)
  | VObj l k r => JObj (l ++ (k, v) :: r)
  end.
Definition vstep (k : list Z) (v : json) : option (vhole * json) :=
  match v with
  | JLeaf _ _ => None
  | JArr vs => i ← index_text k; c ← vs !! i; Some (VArr (take i vs) (drop (S i) vs), c)
  | JObj ms =>
      '(i, p) ← list_find (named k) ms; Some (VObj (take i ms) p.1 (drop (S i) ms), p.2)
  end.

Lemma vstep_child k v : child k v = snd <$> vstep k v.
Proof.
  destruct v as [t s|vs|ms]; cbn; [done| |].
  - destruct (index_text k) as [i|]; [|done]. cbn. by destruct (vs !! i).
  - by destruct (list_find (named k) ms) as [[i p]|].
Qed.

Lemma insert_middle {A} (l r : list A) i x y : l !! i = Some x ->
  <[i := y]> l = take i l ++ y :: drop (S i) l.
Proof. intros Hi. apply insert_take_drop. by eapply lookup_lt_Some. Qed.

Lemma vstep_fill k v g c : vstep k v = Some (g, c) ->
  v = vfill g c /\ forall w, replace_child k w v = Some (vfill g w).
Proof.
  destruct v as [t s|vs|ms]; cbn; [done| |].
  - destruct (index_text k) as [i|]; [|done]. cbn. destruct (vs !! i) as [x|] eqn:E; [|done].
    intros [= <- <-]. split; [cbn; by rewrite take_drop_middle|]. intros w. cbn. f_equal. f_equal.
    apply insert_take_drop. by eapply lookup_lt_Some.
  - destruct (list_find (named k) ms) as [[i p]|] eqn:E; [|done]. intros [= <- <-].
    apply list_find_Some in E as (E & _ & _). split.
    + cbn. rewrite <-(surjective_pairing p), take_drop_middle; done.
    + intros w. cbn. f_equal. f_equal. apply insert_take_drop. by eapply lookup_lt_Some.
Qed.

(** The way to a place: the containers passed, the innermost first *)
Fixpoint vwalk (ks : list (list Z)) (v : json) : option (list vhole * json) :=
  match ks with
  | [] => Some ([], v)
  | k :: ks =>
      match vstep k v with
      | Some (g, c) => (fun '(gs, x) => (gs ++ [g], x)) <$> vwalk ks c
      | None => None
      end
  end.
Definition vplug (gs : list vhole) (v : json) : json := foldl (fun v g => vfill g v) v gs.

Lemma vwalk_resolve ks v : resolve ks v = snd <$> vwalk ks v.
Proof.
  revert v. induction ks as [|k ks IH]; intros v; [done|]. cbn. rewrite vstep_child.
  destruct (vstep k v) as [[g c]|]; [|done]. cbn. rewrite IH. by destruct (vwalk ks c) as [[gs x]|].
Qed.

Lemma vwalk_update f ks v : update f ks v =
  match vwalk ks v with Some (gs, x) => vplug gs <$> f x | None => None end.
Proof.
  revert v. induction ks as [|k ks IH]; intros v; cbn.
  - by destruct (f v).
  - rewrite vstep_child. destruct (vstep k v) as [[g c]|] eqn:E; [|done]. cbn. rewrite IH.
    destruct (vwalk ks c) as [[gs x]|]; [|done]. cbn. destruct (f x) as [y|]; [|done]. cbn.
    rewrite (proj2 (vstep_fill k v g c E)). unfold vplug. by rewrite foldl_app.
Qed.

(** * Places in a document: the container with a gap, its nodes, and what filling the gap with
    another document keeps. *)

Inductive hole :=
  | HArr (n : Node) (l r : list jdoc)
  | HObj (n : Node) (l : list (Mem * jdoc)) (m : Mem) (r : list (Mem * jdoc)).
Definition fill (g : hole) (d : jdoc) : jdoc :=
  match g with
  | HArr n l r => DArr n (l ++ d :: r)
  | HObj n l m r => DObj n (l ++ (m, d) :: r)
  end.
Definition hole_root (g : hole) : Node := match g with HArr n _ _ | HObj n _ _ _ => n end.
(** The node that holds the gap as a child *)
Definition hole_parent (g : hole) : Node := match g with HArr n _ _ => n | HObj _ _ m _ => m_node m end.

Definition member_value (p : Mem * jdoc) : list Z * json := (m_key p.1, value p.2).
Definition hole_value (g : hole) : vhole :=
  match g with
  | HArr _ l r => VArr (value <$> l) (value <$> r)
  | HObj _ l m r => VObj (member_value <$> l) (m_key m) (member_value <$> r)
  end.
Definition hole_nodes (g : hole) : list Node :=
  match g with
  | HArr n l r => n :: concat (dnodes <$> l) ++ concat (dnodes <$> r)
  | HObj n l m r =>
      n :: concat ((nodes ∘ member_tree) <$> l) ++ [m_node m; m_key_node m]
      ++ concat ((nodes ∘ member_tree) <$> r)
  end.

Lemma fill_value g d : value (fill g d) = vfill (hole_value g) (value d).
Proof. destruct g; cbn; by rewrite fmap_app. Qed.
Lemma fill_root g d : droot (fill g d) = hole_root g.
Proof. by destruct g. Qed.

Lemma dnodes_arr_eq n ds : dnodes (DArr n ds) = n :: concat (dnodes <$> ds).
Proof. unfold dnodes. cbn. by rewrite <-list_fmap_compose. Qed.
Lemma dnodes_obj_eq n ms : dnodes (DObj n ms) = n :: concat ((nodes ∘ member_tree) <$> ms).
Proof. unfold dnodes. cbn. change (fun p : Mem * jdoc => Tree _ _) with member_tree. by rewrite <-list_fmap_compose. Qed.
Lemma member_nodes_eq m d : nodes (member_tree (m, d)) = m_node m :: m_key_node m :: dnodes d.
Proof. unfold member_tree, dnodes. cbn. by rewrite app_nil_r. Qed.

Lemma fill_nodes g d : dnodes (fill g d) ≡ₚ hole_nodes g ++ dnodes d.
Proof.
  destruct g as [n l r|n l m r]; cbn [fill hole_nodes].
  - rewrite dnodes_arr_eq, fmap_app, concat_app. cbn. rewrite <-app_assoc. constructor.
    apply Permutation_app_head. rewrite (Permutation_app_comm (dnodes d)). done.
  - rewrite dnodes_obj_eq, fmap_app, concat_app. cbn [fmap list_fmap concat compose].
    rewrite member_nodes_eq. cbn. constructor. rewrite <-app_assoc. apply Permutation_app_head. cbn.
    do 2 constructor. apply Permutation_app_comm.
Qed.

Lemma nodup_fill g d : NoDup (dnodes (fill g d)) ->
  NoDup (hole_nodes g) /\ NoDup (dnodes d) /\ (forall n, n ∈ hole_nodes g -> n ∉ dnodes d).
Proof. rewrite fill_nodes. intros (H1 & H2 & H3)%NoDup_app. done. Qed.

(** The documents beside the gap *)
Lemma nodup_concat_fmap {A} (f : A -> list Node) l x : NoDup (concat (f <$> l)) -> x ∈ l -> NoDup (f x).
Proof. intros H Hx. apply (NoDup_concat_elem _ _ H). by apply list_elem_of_fmap_2. Qed.

Lemma stored_sides h h' (l : list jdoc) : Forall (stored h) l -> NoDup (concat (dnodes <$> l)) ->
  (forall n, n ∈ concat (dnodes <$> l) -> h' !! n = h !! n) -> Forall (stored h') l.
Proof.
  intros Hs Hd Hk. apply Forall_forall. intros d Hin.
  assert (Hn : forall n, n ∈ dnodes d -> h' !! n = h !! n).
  { intros n Hn. apply Hk, elem_of_concat_map. eauto. }
  apply (stored_keeps h); [by apply (proj1 (Forall_forall _ _) Hs)| | |].
  - intros n H. by apply same_keeps, Hn.
  - intros n H _. unfold parent_of, node_at. by rewrite Hn.
  - by apply (nodup_concat_fmap dnodes l).
Qed.

Lemma stored_member_sides h h' (l : list (Mem * jdoc)) : Forall (fun p => stored h p.2) l ->
  NoDup (concat ((nodes ∘ member_tree) <$> l)) ->
  (forall n, n ∈ concat ((nodes ∘ member_tree) <$> l) -> h' !! n = h !! n) ->
  Forall (fun p => stored h' p.2) l.
Proof.
  intros Hs Hd Hk. apply Forall_forall. intros p Hin.
  assert (Hn : forall n, n ∈ nodes (member_tree p) -> h' !! n = h !! n).
  { intros n Hn. apply Hk, elem_of_concat_map. eauto. }
  assert (Hm : forall n, n ∈ dnodes p.2 -> h' !! n = h !! n).
  { intros n H. apply Hn, dnodes_member. by right; right. }
  pose proof (nodup_concat_fmap (nodes ∘ member_tree) l p Hd Hin) as Hp.
  destruct p as [m d]. change (NoDup (nodes (member_tree (m, d)))) in Hp. rewrite member_nodes_eq in Hp. apply NoDup_cons in Hp as [_ Hp].
  apply NoDup_cons in Hp as [_ Hp].
  apply (stored_keeps h); [by apply (proj1 (Forall_forall _ _) Hs (m, d))| | |done].
  - intros n H. by apply same_keeps, Hm.
  - intros n H _. unfold parent_of, node_at. by rewrite Hm.
Qed.

Lemma member_ok_same h h' n p : member_ok h n p.1 (droot p.2) ->
  (forall x, x ∈ nodes (member_tree p) -> h' !! x = h !! x) -> member_ok h' n p.1 (droot p.2).
Proof.
  intros M Hk. apply (member_keeps h); [| | |done].
  - apply same_keeps, Hk, dnodes_member. by left.
  - apply same_keeps, Hk, dnodes_member. right. by left.
  - intros x Hx. unfold parent_of, node_at. rewrite Hk; [done|]. apply dnodes_member.
    destruct Hx as [->|[->| ->]]; [by left|right; by left|right; right; apply droot_in].
Qed.

(** The gap is filled with a document that has the root of the one that was there; the other
    nodes of the container stay. *)
Lemma fill_stored h h' g d d' : stored h (fill g d) -> NoDup (dnodes (fill g d)) ->
  stored h' d' -> droot d' = droot d -> parent_of h' (droot d) = parent_of h (droot d) ->
  (forall n, n ∈ hole_nodes g -> h' !! n = h !! n) -> stored h' (fill g d').
Proof.
  intros Hs Hd Hs' Hr Hp Hk. apply nodup_fill in Hd as (Hd & _ & _).
  destruct g as [n l r|n l m r]; cbn [fill hole_nodes] in *.
  - apply NoDup_cons in Hd as [_ Hd]. apply NoDup_app in Hd as (Hl & _ & Hrr).
    apply stored_arr_inv in Hs as [[A1 A2 A3 A4] Hs]. apply Forall_app in Hs as [Hsl Hsr].
    apply Forall_cons in Hsr as [_ Hsr].
    assert (Hn : h' !! n = h !! n) by (apply Hk; left).
    assert (Hkl : forall x, x ∈ concat (dnodes <$> l) -> h' !! x = h !! x).
    { intros x Hx. apply Hk. right. apply elem_of_app. by left. }
    assert (Hkr : forall x, x ∈ concat (dnodes <$> r) -> h' !! x = h !! x).
    { intros x Hx. apply Hk. right. apply elem_of_app. by right. }
    assert (Hside : forall (k : list jdoc), (forall x, x ∈ concat (dnodes <$> k) -> h' !! x = h !! x) ->
      Forall (fun v => parent_of h v = Some n) (droot <$> k) -> Forall (fun v => parent_of h' v = Some n) (droot <$> k)).
    { intros k Hkk H. apply Forall_fmap. apply Forall_fmap in H. apply Forall_forall. intros x Hx. cbn.
      rewrite <-(proj1 (Forall_forall _ _) H x Hx). cbn. unfold parent_of, node_at. rewrite Hkk; [done|].
      apply elem_of_concat_map. exists x. split; [done|apply droot_in]. }
    rewrite fmap_app, fmap_cons in A3, A4. apply Forall_app in A4 as [A4 A5]. apply Forall_cons in A5 as [A5 A6].
    apply stored_arr_inv. split.
    + pose proof (same_keeps h h' n Hn) as [K1 K2 K3 K4 K5].
      split; [by rewrite Hn|by rewrite K2|rewrite K5, A3, fmap_app, fmap_cons; by rewrite Hr|].
      rewrite fmap_app, fmap_cons. apply Forall_app. split; [by apply Hside|].
      constructor; [rewrite Hr, Hp; done|by apply Hside].
    + apply Forall_app. split; [by apply (stored_sides h)|]. constructor; [done|by apply (stored_sides h)].
  - apply NoDup_cons in Hd as [_ Hd]. apply NoDup_app in Hd as (Hl & _ & Hrr).
    apply NoDup_app in Hrr as (_ & _ & Hrr).
    apply stored_obj_inv in Hs as [O Hs]. pose proof O as [O1 O2 O3 O4 O5].
    apply Forall_app in Hs as [Hsl Hsr]. apply Forall_cons in Hsr as [_ Hsr].
    assert (Hn : h' !! n = h !! n) by (apply Hk; left).
    assert (Hkl : forall x, x ∈ concat ((nodes ∘ member_tree) <$> l) -> h' !! x = h !! x).
    { intros x Hx. apply Hk. right. apply elem_of_app. by left. }
    assert (Hkr : forall x, x ∈ concat ((nodes ∘ member_tree) <$> r) -> h' !! x = h !! x).
    { intros x Hx. apply Hk. right. apply elem_of_app. right. apply elem_of_app. by right. }
    assert (Hside : forall k, (forall x, x ∈ concat ((nodes ∘ member_tree) <$> k) -> h' !! x = h !! x) ->
      (forall p, p ∈ k -> p ∈ l ++ (m, d) :: r) -> Forall (fun p => member_ok h' n p.1 p.2) (with_root <$> k)).
    { intros k Hkk Hin. apply Forall_fmap, Forall_forall. intros p Hpk. cbn.
      apply (member_ok_same h); [by apply (obj_member _ _ _ _ O), Hin|].
      intros x Hx. apply Hkk, elem_of_concat_map. eauto. }
    pose proof (same_keeps h h' n Hn) as [K1 K2 K3 K4 K5].
    apply stored_obj_inv. split.
    + split; [by rewrite Hn|by rewrite K2|by apply K4| |].
      * rewrite <-list_fmap_compose, K5, (obj_children_of _ _ _ O), !fmap_app. done.
      * rewrite fmap_app, fmap_cons. apply Forall_app. split.
        { apply Hside; [done|]. intros p Hpl. apply elem_of_app. by left. }
        constructor; [|apply Hside; [done|]; intros p Hpr; apply elem_of_app; right; by right].
        cbn. rewrite Hr. apply (member_keeps h).
        -- apply same_keeps, Hk. right. apply elem_of_app. right. left.
        -- apply same_keeps, Hk. right. apply elem_of_app. right. right. left.
        -- intros x [->|[->| ->]]; [| |exact Hp].
           ++ unfold parent_of, node_at. rewrite Hk; [done|]. right. apply elem_of_app. right. left.
           ++ unfold parent_of, node_at. rewrite Hk; [done|]. right. apply elem_of_app. right. right. left.
        -- apply (obj_member _ _ _ (m, d) O). apply elem_of_app. right. left.
    + apply Forall_app. split; [by apply (stored_member_sides h)|]. constructor; [done|by apply (stored_member_sides h)].
Qed.
