(* ===== verification/JsonEdits.v ===== *)
(** The operations of JSON pointers on documents of the store: each edits the document like the
    specification edits its value. *)
From S2P Require Import Prelude.
From S2P Require Import Token.
From S2P Require Import Source.
From S2P Require Import Ast.
From S2P Require Import AstFacts.
From S2P Require Import Wellformed.
From S2P Require Import WfOps.
From S2P Require Import WfBuild.
From S2P Require Import Cursor.
From S2P Require Import JsonParse.
From S2P Require Import JsonWriter.
From S2P Require Import JsonDoc.
From S2P Require Import CloneFacts.
From S2P Require Import JsonValue.
From S2P Require Import JsonSpec.
From stdpp Require Export gmap.
#[local] Set Warnings "-register-all".
Open Scope Z_scope.

(** * Array indices *)

(** Nineteen digits are below the size of [size_t]. *)
Lemma decimal_value_app k acc : foldl (fun i x => i * 10 + (x - 48)) acc k
  = acc * 10 ^ Z.of_nat (length k) + decimal_value k.
Proof.
  unfold decimal_value. revert acc. induction k as [|x k IH]; intros acc; cbn [foldl length]; [lia|].
  rewrite IH, (IH (0 * 10 + (x - 48))). rewrite Nat2Z.inj_succ, Z.pow_succ_r by lia. lia.
Qed.

Lemma decimal_value_bound k : forallb is_digit k = true ->
  0 <= decimal_value k < 10 ^ Z.of_nat (length k).
Proof.
  induction k as [|x k IH] using rev_ind; [done|]. rewrite forallb_app. intros [H1 H2]%andb_true_iff.
  cbn in H2. rewrite andb_true_r in H2. unfold is_digit in H2. specialize (IH H1).
  unfold decimal_value in *. rewrite foldl_app. cbn [foldl]. rewrite length_app. cbn [length].
  rewrite Nat2Z.inj_add, Z.pow_add_r by lia. lia.
Qed.

Lemma index_digits_spec k acc : forallb is_digit k = true ->
  0 <= acc -> acc * 10 ^ Z.of_nat (length k) + decimal_value k < 2 ^ 64 ->
  index_digits acc k = (acc * 10 ^ Z.of_nat (length k) + decimal_value k, true).
Proof.
  revert acc. induction k as [|x k IH]; intros acc Hd Ha Hb; cbn [index_digits length].
  - unfold decimal_value. cbn. f_equal. lia.
  - cbn [forallb] in Hd. apply andb_true_iff in Hd as [Hx Hd]. unfold is_digit in Hx. rewrite Hx.
    cbn [length] in Hb. rewrite Nat2Z.inj_succ, Z.pow_succ_r in Hb |- * by lia.
    assert (Hv : decimal_value (x :: k) = (x - 48) * 10 ^ Z.of_nat (length k) + decimal_value k).
    { unfold decimal_value at 1. cbn [foldl]. apply decimal_value_app. }
    pose proof (decimal_value_bound k Hd) as Hk. rewrite Hv in Hb |- *.
    assert (Hp : 0 < 10 ^ Z.of_nat (length k)) by lia.
    assert (Hu : u64 (acc * 10 + x - 48) = acc * 10 + x - 48).
    { unfold u64. apply Z.mod_small. nia. }
    rewrite Hu, IH; [f_equal; lia|done|lia|lia].
Qed.

Lemma index_digits_false k acc : forallb is_digit k = false -> (index_digits acc k).2 = false.
Proof.
  revert acc. induction k as [|x k IH]; intros acc; cbn; [done|]. unfold is_digit at 1.
  destruct ((48 <=? x) && (x <=? 57)); [by apply IH|done].
Qed.

(** A key that can be used in an array: the code reads its first character, and its digits fit
    [size_t]. *)
Definition safe_key (k : list Z) : bool := negb (list_eqb k []) && (length k <=? 19)%nat.

Definition located_key (loc : Location) (k : list Z) : Prop := view loc = Returns k.

Definition key_is (k : list Z) (p : Mem * jdoc) : Prop := m_key p.1 = k.
#[export] Instance key_is_dec k p : Decision (key_is k p) := list_eq_dec (m_key p.1) k.

Section Ops.
Context (c : WfContexts) (id : positive).

(** What [array_lookup] leaves in [index] when it fails *)
Definition lookup_fails (h : heap) (ds : list jdoc) (k : list Z) (r : outcome (Node * Z * heap)) : Prop :=
  exists e j h', r = Returns (e, j, h') /\ h ⊆ h' /\ type_of h' e = Error
    /\ (list_eqb k [45] = true -> j = Z.of_nat (length ds))
    /\ (forall i, index_text k = Some i -> j = Z.of_nat i).

Lemma located_fails h type key msg (f : Node -> heap -> outcome (Node * Z * heap)) j :
  (forall e h', f e h' = Returns (e, j, h')) ->
  exists e h', (let '(n, h) := located h type key in '(e, h) ← err_text id h n msg; f e h)
    = Returns (e, j, h') /\ h ⊆ h' /\ type_of h' e = Error.
Proof.
  intros Hf. destruct (err_located h type key (location_of_string id msg)) as (e & h' & E & S & T).
  unfold err_text. destruct (located h type key) as [n h1]. rewrite E. cbn. rewrite Hf. by exists e, h'.
Qed.

Lemma array_lookup_spec h n ds key k i0 : arr_ok h n (droot <$> ds) -> located_key key k ->
  safe_key k = true ->
  match (i ← index_text k; ds !! i) with
  | Some d => array_lookup id h n key i0
      = Returns (droot d, Z.of_nat (default O (index_text k)), h)
  | None => lookup_fails h ds k (array_lookup id h n key i0)
  end.
Proof.
  intros [_ _ Hc _] Hk Hs. unfold array_lookup, located_key in *. rewrite Hk. cbn [mbind outcome_bind].
  rewrite Hc. assert (Hsz : size_of (droot <$> ds) = Z.of_nat (length ds)) by (unfold size_of; by rewrite length_fmap).
  rewrite Hsz. unfold safe_key in Hs. apply andb_true_iff in Hs as [Hne Hlen]. apply Nat.leb_le in Hlen.
  assert (Hfail : forall type msg j, (list_eqb k [45] = true -> j = Z.of_nat (length ds)) ->
    (forall i, index_text k = Some i -> j = Z.of_nat i) ->
    lookup_fails h ds k (let '(n, h) := located h type key in '(e, h) ← err_text id h n msg; Returns (e, j, h))).
  { intros type msg j H1 H2. destruct (located_fails h type key msg (fun e h => Returns (e, j, h)) j) as (e & h' & E & S & T); [done|].
    by exists e, j, h'. }
  destruct (list_eqb k [45]) eqn:E45.
  { apply list_eqb_eq in E45 as ->. cbn [index_text]. apply Hfail; [done|]. done. }
  destruct k as [|x k]; [done|]. cbn [head or_undefined mbind outcome_bind].
  destruct (Z.eqb_spec x 45) as [->|Hx].
  { cbn. apply Hfail; [done|]. done. }
  cbn [index_text]. replace (1 <? size_of (x :: k)) with (1 <? length (x :: k))%nat
    by (unfold size_of; destruct (Nat.ltb_spec 1 (length (x :: k))); symmetry; [apply Z.ltb_lt|apply Z.ltb_ge]; lia).
  destruct ((x =? 48) && (1 <? length (x :: k))%nat) eqn:Elz.
  { apply Hfail; [done|]. cbn [index_text]. by rewrite Elz. }
  destruct (forallb is_digit (x :: k)) eqn:Ed.
  - pose proof (decimal_value_bound _ Ed) as Hb.
    assert (Hlt : decimal_value (x :: k) < 2 ^ 64).
    { assert (10 ^ Z.of_nat (length (x :: k)) <= 10 ^ 19) by (apply Z.pow_le_mono_r; lia). lia. }
    rewrite index_digits_spec by (done || lia). rewrite Z.mul_0_l, Z.add_0_l. cbn [negb].
    cbn [mbind option_bind default]. set (i := Z.to_nat (decimal_value (x :: k))) in *.
    assert (Ei : decimal_value (x :: k) = Z.of_nat i) by lia. rewrite Ei.
    destruct (ds !! i) as [d|] eqn:El.
    + apply lookup_lt_Some in El as Hl. rewrite (proj2 (Z.leb_gt _ _)) by lia.
      unfold node_vector_at. rewrite Hc, Hsz, (proj2 (Z.ltb_lt _ _)) by lia.
      rewrite Nat2Z.id, list_lookup_fmap, El. done.
    + apply lookup_ge_None_1 in El. rewrite (proj2 (Z.leb_le _ _)) by lia.
      apply Hfail; [by intros ?|]. cbn [index_text]. rewrite Elz, Ed. intros j [= <-]. done.
  - pose proof (index_digits_false (x :: k) 0 Ed) as Hf. destruct (index_digits 0 (x :: k)) as [j b].
    cbn in Hf. subst b. cbn [negb]. apply Hfail; [by intros ?|]. cbn [index_text]. by rewrite Elz, Ed.
Qed.

(** * Names *)


(** The table of an object answers for a key: the nodes of the members that have it. *)
Definition finds (h : heap) (n : Node) (ms : list (Mem * jdoc)) (k : list Z) : Prop :=
  exists st, symtab_of h n = Some st /\ forall loc, located_key loc k ->
    exists r, symbols_find (symbols st) loc = Returns r
      /\ default [] r = (fun p => m_node p.1) <$> filter (key_is k) ms.

Lemma copy_if_all f l : (forall n, n ∈ l -> f n = Returns true) -> copy_if f l = Returns l.
Proof.
  induction l as [|n l IH]; intros Hf; [done|]. cbn. rewrite Hf by left. cbn.
  by rewrite IH by (intros m Hm; apply Hf; by right).
Qed.

Lemma lookdown_finds h n ms key k : obj_ok h n (with_root <$> ms) -> finds h n ms k ->
  located_key key k -> lookdown h n key = Returns ((fun p => m_node p.1) <$> filter (key_is k) ms).
Proof.
  intros O (st & Hst & Hf) Hk. unfold lookdown, get_symbols_at. rewrite Hst.
  destruct (Hf key Hk) as (r & -> & Hr). cbn [mbind outcome_bind].
  assert (Hcp : copy_if (fun n => Returns (has (type_of h n) flag_lookdown))
                  ((fun p => m_node p.1) <$> filter (key_is k) ms)
                = Returns ((fun p => m_node p.1) <$> filter (key_is k) ms)).
  { apply copy_if_all. intros m (p & -> & Hp)%list_elem_of_fmap. apply list_elem_of_filter in Hp as [_ Hp].
    by rewrite (mem_type _ _ _ _ (obj_member _ _ _ _ O Hp)). }
  rewrite <-Hr in Hcp |- *. by destruct r.
Qed.

(** The first member with a key *)
Lemma filter_find {A} (P : A -> Prop) `{forall x, Decision (P x)} l :
  match list_find P l with
  | Some (i, x) => exists rest, filter P l = x :: rest
  | None => filter P l = []
  end.
Proof.
  induction l as [|x l IH]; [done|]. cbn [list_find]. rewrite filter_cons. destruct (decide (P x)) as [Hx|Hx].
  - by eexists.
  - destruct (list_find P l) as [[i y]|]; cbn; [|done]. destruct IH as [rest IH]. by exists rest.
Qed.

(** [member / json::Value] *)
Lemma json_field_value h n m v : member_ok h n m v ->
  json_field c h (m_node m) Value = Returns (mkWFLookup json_wf v 1).
Proof.
  intros M. unfold json_field, node_slash, wf_context, new_context, context_push_back. cbn [app].
  cbn [node_field]. rewrite (mem_type _ _ _ _ M).
  assert (Hi : wf_index json_wf Member Value = 1) by (vm_compute; reflexivity). rewrite Hi.
  cbn [Z.eqb negb]. unfold node_vector_at. rewrite (mem_children _ _ _ _ M). reflexivity.
Qed.

(** The way down from a container *)
Definition dstep (k : list Z) (d : jdoc) : option (hole * jdoc) :=
  match d with
  | DLeaf _ _ _ => None
  | DArr n ds => i ← index_text k; x ← ds !! i; Some (HArr n (take i ds) (drop (S i) ds), x)
  | DObj n ms =>
      '(i, p) ← list_find (key_is k) ms; Some (HObj n (take i ms) p.1 (drop (S i) ms), p.2)
  end.

Lemma dstep_fill k d g x : dstep k d = Some (g, x) -> d = fill g x.
Proof.
  destruct d as [n t s|n ds|n ms]; cbn; [done| |].
  - destruct (index_text k) as [i|]; [|done]. cbn. destruct (ds !! i) as [y|] eqn:E; [|done].
    intros [= <- <-]. cbn. by rewrite take_drop_middle.
  - destruct (list_find (key_is k) ms) as [[i p]|] eqn:E; [|done]. intros [= <- <-].
    apply list_find_Some in E as (E & _ & _). cbn. by rewrite <-(surjective_pairing p), take_drop_middle.
Qed.

Lemma list_find_members k (ms : list (Mem * jdoc)) :
  list_find (named k) (member_value <$> ms) = prod_map (fun i : nat => i) member_value <$> list_find (key_is k) ms.
Proof.
  induction ms as [|p ms IH]; [done|]. cbn [fmap list_fmap list_find].
  destruct (decide (key_is k p)) as [H|H].
  - rewrite decide_True by exact H. done.
  - rewrite decide_False by exact H. rewrite IH. by destruct (list_find (key_is k) ms) as [[i x]|].
Qed.

Lemma dstep_value k d : vstep k (value d) = (fun '(g, x) => (hole_value g, value x)) <$> dstep k d.
Proof.
  destruct d as [n t s|n ds|n ms]; cbn; [done| |].
  - destruct (index_text k) as [i|]; [|done]. cbn. rewrite list_lookup_fmap.
    destruct (ds !! i) as [y|]; [|done]. cbn. by rewrite fmap_take, fmap_drop.
  - change ((fun p => (m_key p.1, value p.2)) <$> ms) with (member_value <$> ms). rewrite list_find_members.
    destruct (list_find (key_is k) ms) as [[i p]|]; [|done]. cbn. by rewrite fmap_take, fmap_drop.
Qed.

(** The tables the walk along some keys asks *)
Definition finds_at (h : heap) (d : jdoc) (k : list Z) : Prop :=
  match d with DObj n ms => finds h n ms k | _ => True end.
Fixpoint indexed_on (h : heap) (ks : list (list Z)) (d : jdoc) : Prop :=
  match ks with
  | [] => True
  | k :: ks =>
      finds_at h d k /\ match dstep k d with Some (_, x) => indexed_on h ks x | None => True end
  end.

(** Every array on the way is asked with a usable key. *)
Fixpoint safe_path (ks : list (list Z)) (v : json) : bool :=
  match ks with
  | [] => true
  | k :: ks =>
      match v with JArr _ => safe_key k | _ => true end
      && match child k v with Some x => safe_path ks x | None => true end
  end.

(** * The walk *)

Lemma doc_container h d : stored h d ->
  token_in [Array; Object] (type_of h (droot d)) = match d with DLeaf _ _ _ => false | _ => true end.
Proof.
  destruct d as [n t s|n ds|n ms]; intros Hs; cbn [droot].
  - apply stored_leaf_inv in Hs as [_ Ht Hsc _ _]. rewrite Ht.
    unfold scalar_tokens in Hsc. rewrite !elem_of_cons in Hsc.
    destruct Hsc as [->|[->|[->|[->|[->|[]%elem_of_nil]]]]]; reflexivity.
  - apply stored_arr_inv in Hs as [A _]. by rewrite (arr_type _ _ _ A).
  - apply stored_obj_inv in Hs as [O _]. by rewrite (obj_type _ _ _ O).
Qed.

(** One key of the loop of [run] *)
Lemma run_keys_step h action mv d key k next rest : stored h d -> NoDup (dnodes d) ->
  located_key key k -> finds_at h d k -> match d with DArr _ _ => safe_key k = true | _ => True end ->
  match dstep k d with
  | Some (_, x) => run_keys c id h action mv (droot d) key (next :: rest)
                   = run_keys c id h action mv (droot x) next rest
  | None => fails h (run_keys c id h action mv (droot d) key (next :: rest))
  end.
Proof.
  intros Hs Hd Hk Hf Hsafe. pose proof (doc_container h d Hs) as Hc.
  destruct d as [n t s|n ds|n ms]; cbn [dstep].
  - cbn [run_keys]. rewrite Hc. cbn [negb]. by apply err_doc.
  - cbn [run_keys droot] in *. rewrite Hc. cbn [negb]. apply stored_arr_inv in Hs as [A Hs].
    rewrite (arr_type _ _ _ A). change (token_eqb Array Object) with false. cbn match.
    pose proof (array_lookup_spec h n ds key k 0 A Hk Hsafe) as Hl.
    destruct (index_text k) as [i|]; cbn [mbind option_bind] in *.
    + destruct (ds !! i) as [x|] eqn:E; cbn [mbind option_bind].
      * rewrite Hl. cbn [mbind outcome_bind].
        assert (Hx : type_of h (droot x) <> Error).
        { apply (proj1 (Forall_forall _ _) (stored_unmarked h x ltac:(by apply (proj1 (Forall_forall _ _) Hs x), (list_elem_of_lookup_2 _ i)))).
          apply droot_in. }
        by rewrite (proj2 (token_eqb_neq _ _) Hx).
      * destruct Hl as (e & j & h' & -> & S & T & _). cbn [mbind outcome_bind]. rewrite T.
        rewrite (proj2 (token_eqb_eq Error Error) eq_refl). by exists e, h'.
    + destruct Hl as (e & j & h' & -> & S & T & _). cbn [mbind outcome_bind]. rewrite T.
      rewrite (proj2 (token_eqb_eq Error Error) eq_refl). by exists e, h'.
  - cbn [run_keys droot] in *. rewrite Hc. cbn [negb]. pose proof Hs as [O Hs']%stored_obj_inv.
    rewrite (obj_type _ _ _ O). rewrite (proj2 (token_eqb_eq Object Object) eq_refl).
    rewrite (lookdown_finds h n ms key k O Hf Hk). cbn [mbind outcome_bind].
    pose proof (filter_find (key_is k) ms) as Hff. destruct (list_find (key_is k) ms) as [[i p]|] eqn:E; cbn [mbind option_bind].
    + destruct Hff as [l ->]. cbn [fmap list_fmap].
      apply list_find_Some in E as (E & _ & _). apply list_elem_of_lookup_2 in E.
      by rewrite (json_field_value h n p.1 (droot p.2) (obj_member _ _ _ _ O E)).
    + rewrite Hff. cbn [fmap list_fmap]. unfold located_key in Hk. rewrite Hk. cbn [mbind outcome_bind].
      by apply (err_doc h (DObj n ms)).
Qed.

(** All keys but the last *)
Fixpoint dwalk (ks : list (list Z)) (d : jdoc) : option (list hole * jdoc) :=
  match ks with
  | [] => Some ([], d)
  | k :: ks =>
      match dstep k d with
      | Some (g, x) => (fun '(gs, y) => (gs ++ [g], y)) <$> dwalk ks x
      | None => None
      end
  end.
Definition dplug (gs : list hole) (d : jdoc) : jdoc := foldl (fun d g => fill g d) d gs.

Lemma dplug_snoc gs g d : dplug (gs ++ [g]) d = fill g (dplug gs d).
Proof. unfold dplug. by rewrite foldl_app. Qed.

Lemma dwalk_value ks : forall d,
  vwalk ks (value d) = (fun p : list hole * jdoc => (hole_value <$> p.1, value p.2)) <$> dwalk ks d.
Proof.
  induction ks as [|k ks IH]; intros d; [done|]. cbn [vwalk dwalk]. rewrite dstep_value.
  destruct (dstep k d) as [[g x]|]; [|done]. cbn. rewrite IH. destruct (dwalk ks x) as [[gs y]|]; [|done].
  cbn. by rewrite fmap_app.
Qed.

Lemma dplug_value gs d : value (dplug gs d) = vplug (hole_value <$> gs) (value d).
Proof.
  revert d. induction gs as [|g gs IH]; intros d; [done|]. unfold dplug, vplug in *. cbn.
  by rewrite IH, fill_value.
Qed.

Lemma dwalk_plug ks : forall d gs x, dwalk ks d = Some (gs, x) -> d = dplug gs x.
Proof.
  induction ks as [|k ks IH]; intros d gs x; cbn; [by intros [= <- <-]|].
  destruct (dstep k d) as [[g y]|] eqn:E; [|done]. intros (p & Ew & Hp)%fmap_Some.
  destruct p as [gs' x']. injection Hp as -> ->. rewrite dplug_snoc, <-(IH y gs' x' Ew). by apply dstep_fill in E.
Qed.

Lemma filled_stored h g x : stored h (fill g x) -> stored h x.
Proof.
  destruct g as [n l r|n l m r]; cbn [fill].
  - intros [_ H]%stored_arr_inv. apply (proj1 (Forall_forall _ _) H). apply elem_of_app. right. left.
  - intros [_ H]%stored_obj_inv. apply (proj1 (Forall_forall _ _) H (m, x)). apply elem_of_app. right. left.
Qed.

Definition run_list (h : heap) (action : Action) (mv : option Node) (n : Node)
    (locs : list Location) (last : Location) : outcome (Node * heap) :=
  match locs with
  | [] => run_keys c id h action mv n last []
  | l :: locs => run_keys c id h action mv n l (locs ++ [last])
  end.

Lemma run_walk h action mv loc k : forall pre locs d,
  Forall2 located_key locs pre -> located_key loc k -> stored h d -> NoDup (dnodes d) ->
  indexed_on h (pre ++ [k]) d -> safe_path (pre ++ [k]) (value d) = true ->
  match dwalk pre d with
  | Some (gs, x) =>
      run_list h action mv (droot d) locs loc = run_keys c id h action mv (droot x) loc []
      /\ stored h x /\ NoDup (dnodes x) /\ finds_at h x k
      /\ match x with DArr _ _ => safe_key k = true | _ => True end
  | None => fails h (run_list h action mv (droot d) locs loc)
  end.
Proof.
  induction pre as [|k0 pre IH]; intros locs d Hl Hk Hs Hd Hi Hsafe; inversion Hl as [|l ? locs' ? Hl0 Hls]; subst;
    cbn [dwalk app indexed_on safe_path] in *.
  - split_and!; [done|done|done|apply Hi|]. destruct d; cbn [value] in Hsafe; [done| |done].
    by apply andb_true_iff in Hsafe as [Hsafe _].
  - destruct Hi as [Hi1 Hi2]. apply andb_true_iff in Hsafe as [Hs1 Hs2].
    rewrite vstep_child, dstep_value in Hs2.
    assert (Hsk : match d with DArr _ _ => safe_key k0 = true | _ => True end) by by destruct d.
    assert (Hst : exists next rest, locs' ++ [loc] = next :: rest
        /\ forall x, run_list h action mv (droot x) locs' loc = run_keys c id h action mv (droot x) next rest).
    { destruct locs' as [|l' locs']; cbn [app]; eexists _, _; (split; [reflexivity|done]). }
    destruct Hst as (next & rest & En & Er).
    pose proof (run_keys_step h action mv d l k0 next rest Hs Hd Hl0 Hi1 Hsk) as Hstep.
    cbn [run_list]. rewrite En. destruct (dstep k0 d) as [[g x]|] eqn:Ed; [|exact Hstep].
    rewrite Hstep, <-Er. apply dstep_fill in Ed as ->. cbn [fmap option_fmap option_map snd] in Hs2.
    pose proof (IH locs' x Hls Hk (filled_stored h g x Hs) (proj1 (proj2 (nodup_fill g x Hd))) Hi2 Hs2) as Hw.
    destruct (dwalk pre x) as [[gs y]|]; exact Hw.
Qed.

(** * Edits *)

(** The store was changed at the nodes of a document only, which became another one. *)
Record edits (h h' : heap) (d d' : jdoc) : Prop := {
  ed_stored : stored h' d';
  ed_root : droot d' = droot d;
  ed_nodup : NoDup (dnodes d');
  ed_parent : parent_of h' (droot d) = parent_of h (droot d);
  ed_outside n : is_Some (h !! n) -> n ∉ dnodes d -> h' !! n = h !! n;
  ed_nodes n : n ∈ dnodes d' -> n ∈ dnodes d \/ h !! n = None;
  ed_types n : is_Some (h !! n) -> type_of h' n = type_of h n
}.

Lemma edits_fill h h' g d d' : stored h (fill g d) -> NoDup (dnodes (fill g d)) ->
  edits h h' d d' -> edits h h' (fill g d) (fill g d').
Proof.
  intros Hs Hd [E1 E2 E3 E4 E5 E6 E7]. pose proof (nodup_fill g d Hd) as (Hg & _ & Hdis).
  assert (Hgs : forall n, n ∈ hole_nodes g -> is_Some (h !! n)).
  { intros n Hn. apply (stored_some h _ Hs). rewrite fill_nodes. apply elem_of_app. by left. }
  assert (Hk : forall n, n ∈ hole_nodes g -> h' !! n = h !! n).
  { intros n Hn. apply E5; [by apply Hgs|by apply Hdis]. }
  split.
  - by apply (fill_stored h h' g d d').
  - by rewrite !fill_root.
  - rewrite fill_nodes. apply NoDup_app. split_and!; [done| |done].
    intros n Hn [Hn'|Hn']%E6; [by apply (Hdis n)|]. destruct (Hgs n Hn). congruence.
  - rewrite fill_root. unfold parent_of, node_at. rewrite Hk; [done|]. destruct g; left.
  - intros n Hn. rewrite fill_nodes. intros Hnn. apply E5; [done|]. intros Hx. apply Hnn, elem_of_app. by right.
  - intros n. rewrite !fill_nodes, !elem_of_app. intros [Hn|Hn]; [by left; left|].
    destruct (E6 n Hn); [by left; right|by right].
  - exact E7.
Qed.

Lemma edits_plug h h' gs d d' : stored h (dplug gs d) -> NoDup (dnodes (dplug gs d)) ->
  edits h h' d d' -> edits h h' (dplug gs d) (dplug gs d').
Proof.
  intros Hs Hd He. induction gs as [|g gs IH] using rev_ind; [done|]. rewrite !dplug_snoc in *.
  apply edits_fill; [done..|]. apply IH; [by eapply filled_stored|]. by apply nodup_fill in Hd as (_ & ? & _).
Qed.
End Ops.

(** * The last step of a pointer operation: what each action does to the container it reached. *)

(** * [replace] *)

Lemma index_of_middle x l r : x ∉ l -> index_of x (l ++ x :: r) = Some (length l).
Proof.
  induction l as [|y l IH]; cbn.
  - by rewrite Pos.eqb_refl.
  - intros [Hy Hl]%not_elem_of_cons. rewrite (proj2 (Pos.eqb_neq y x)) by congruence. by rewrite IH.
Qed.

Lemma replace_by h p l x r y : children_of h p = l ++ x :: r -> x ∉ l ->
  parent_of h x = Some p -> calm h y -> y <> x ->
  replace h p x (Some y) = Returns (alter (with_children (fun c => <[length l := y]> c)) p
    (alter (with_parent (Some p)) y (alter (with_parent None) x h))).
Proof.
  intros Hc Hx Hp [Hf Hu] Hne. unfold replace. rewrite Hc, index_of_middle by done. unfold disown.
  rewrite bool_decide_true by done. unfold adopt. rewrite add_flags_calm; [done|].
  unfold calm, type_of, node_at in *. rewrite lookup_alter_eq, lookup_alter_ne by done.
  by destruct (h !! y) as [d|].
Qed.

Lemma replace_none h p l x r : children_of h p = l ++ x :: r -> x ∉ l ->
  replace h p x None
  = Returns (alter (with_children (fun c => take (length l) c ++ drop (S (length l)) c)) p h).
Proof. intros Hc Hx. unfold replace. by rewrite Hc, index_of_middle. Qed.

Lemma alter_children h p f l : is_Some (h !! p) -> f (children_of h p) = l ->
  alter (with_children f) p h !! p = with_children (fun _ => l) <$> h !! p.
Proof.
  intros [d Hd] Hf. rewrite lookup_alter_eq. unfold children_of, node_at in Hf. rewrite Hd in *. cbn in *.
  unfold with_children. by rewrite Hf.
Qed.

Lemma take_drop_place {A} (l r : list A) x : take (length l) (l ++ x :: r) ++ drop (S (length l)) (l ++ x :: r) = l ++ r.
Proof. rewrite take_app_length. f_equal. rewrite <-Nat.add_1_r, <-drop_drop, drop_app_length. done. Qed.

(** Edits leave the types of nodes. *)
Lemma type_alter_children f p h n : type_of (alter (with_children f) p h) n = type_of h n.
Proof.
  unfold type_of, node_at. destruct (decide (p = n)) as [->|]; [|by rewrite lookup_alter_ne].
  rewrite lookup_alter_eq. by destruct (h !! n).
Qed.
Lemma type_alter_parent q p h n : type_of (alter (with_parent q) p h) n = type_of h n.
Proof.
  unfold type_of, node_at. destruct (decide (p = n)) as [->|]; [|by rewrite lookup_alter_ne].
  rewrite lookup_alter_eq. by destruct (h !! n).
Qed.
Definition keeps_types (h h' : heap) : Prop := forall n, is_Some (h !! n) -> type_of h' n = type_of h n.
Lemma keeps_types_subset h h' : h ⊆ h' -> keeps_types h h'.
Proof. intros Hs n Hn. by apply same_type, subset_same. Qed.

(** * The containers after an edit *)

Lemma children_at h n ds d : h !! n = Some d -> children d = ds -> children_of h n = ds.
Proof. unfold children_of, node_at. by intros ->. Qed.

Section Edits.
Context (h h' : heap) (n : Node) (Htypes : keeps_types h h').

Lemma arr_edits ds ds' : stored h (DArr n ds) -> NoDup (dnodes (DArr n ds)) ->
  h' !! n = with_children (fun _ => droot <$> ds') <$> h !! n ->
  (forall d, d ∈ ds' -> (d ∈ ds /\ forall m, m ∈ dnodes d -> h' !! m = h !! m)
     \/ (stored h' d /\ parent_of h' (droot d) = Some n /\ forall m, m ∈ dnodes d -> h !! m = None)) ->
  NoDup (dnodes (DArr n ds')) ->
  (forall m, is_Some (h !! m) -> m ∉ dnodes (DArr n ds) -> h' !! m = h !! m) ->
  edits h h' (DArr n ds) (DArr n ds').
Proof.
  intros Hs Hd Hn Hin Hd' Ho. pose proof Hs as [[A1 A2 A3 A4] Hs']%stored_arr_inv.
  destruct A1 as [dn Edn]. rewrite Edn in Hn. cbn in Hn.
  assert (Hel : forall d, d ∈ ds -> NoDup (dnodes d)).
  { intros d Hdi. rewrite dnodes_arr_eq in Hd. apply NoDup_cons in Hd as [_ Hd]. by apply (nodup_concat_fmap dnodes ds). }
  split.
  - apply stored_arr_inv. split.
    + unfold type_of, node_at in A2. rewrite Edn in A2.
      split; [by rewrite Hn|unfold type_of, node_at; by rewrite Hn|by eapply children_at|].
      apply Forall_fmap, Forall_forall. intros d Hdi. cbn. destruct (Hin d Hdi) as [[Hdo Hk]|(_ & Hp & _)]; [|done].
      unfold parent_of, node_at. rewrite Hk by apply droot_in.
      apply Forall_fmap in A4. exact (proj1 (Forall_forall _ _) A4 d Hdo).
    + apply Forall_forall. intros d Hdi. destruct (Hin d Hdi) as [[Hdo Hk]|(Hsd & _ & _)]; [|done].
      apply (stored_keeps h); [by apply (proj1 (Forall_forall _ _) Hs')| | |by apply Hel].
      * intros m Hm. by apply same_keeps, Hk.
      * intros m Hm _. unfold parent_of, node_at. by rewrite Hk.
  - done.
  - done.
  - cbn [droot]. unfold parent_of, node_at. by rewrite Hn, Edn.
  - done.
  - intros m [->|(d & Hdi & Hm)]%dnodes_arr; [left; apply (droot_in (DArr n ds))|].
    destruct (Hin d Hdi) as [[Hdo _]|(_ & _ & Hf)]; [left; apply dnodes_arr; eauto|right; by apply Hf].
  - exact Htypes.
Qed.

Lemma obj_edits ms ms' : stored h (DObj n ms) -> NoDup (dnodes (DObj n ms)) ->
  h' !! n = with_children (fun _ => (fun p => m_node p.1) <$> ms') <$> h !! n ->
  (forall p, p ∈ ms' -> (p ∈ ms /\ forall m, m ∈ nodes (member_tree p) -> h' !! m = h !! m)
     \/ (member_ok h' n p.1 (droot p.2) /\ stored h' p.2
        /\ forall m, m ∈ nodes (member_tree p) -> m ∈ dnodes (DObj n ms) \/ h !! m = None)) ->
  NoDup (dnodes (DObj n ms')) ->
  (forall m, is_Some (h !! m) -> m ∉ dnodes (DObj n ms) -> h' !! m = h !! m) ->
  edits h h' (DObj n ms) (DObj n ms').
Proof.
  intros Hs Hd Hn Hin Hd' Ho. pose proof Hs as [O Hs']%stored_obj_inv. pose proof O as [O1 O2 O3 O4 O5].
  destruct O1 as [dn Edn]. rewrite Edn in Hn. cbn in Hn.
  assert (Hel : forall p, p ∈ ms -> NoDup (dnodes p.2)).
  { intros [m d] Hdi. rewrite dnodes_obj_eq in Hd. apply NoDup_cons in Hd as [_ Hd].
    pose proof (nodup_concat_fmap (nodes ∘ member_tree) ms (m, d) Hd Hdi) as Hp.
    change (NoDup (nodes (member_tree (m, d)))) in Hp. rewrite member_nodes_eq in Hp.
    apply NoDup_cons in Hp as [_ Hp]. by apply NoDup_cons in Hp as [_ Hp]. }
  split.
  - apply stored_obj_inv. split.
    + unfold type_of, symtab_of, node_at in O2, O3. rewrite Edn in O2, O3.
      split; [by rewrite Hn|unfold type_of, node_at; by rewrite Hn|unfold symtab_of, node_at; by rewrite Hn| |].
      * rewrite <-list_fmap_compose. by eapply children_at.
      * apply Forall_fmap, Forall_forall. intros p Hdi. cbn. destruct (Hin p Hdi) as [[Hdo Hk]|(Hm & _ & _)]; [|done].
        by apply (member_ok_same h); [apply (obj_member _ _ _ _ O)|].
    + apply Forall_forall. intros p Hdi. destruct (Hin p Hdi) as [[Hdo Hk]|(_ & Hsd & _)]; [|done].
      assert (Hk' : forall m, m ∈ dnodes p.2 -> h' !! m = h !! m) by (intros m Hm; apply Hk, dnodes_member; by right; right).
      apply (stored_keeps h); [by apply (proj1 (Forall_forall _ _) Hs' p)| | |by apply Hel].
      * intros m Hm. by apply same_keeps, Hk'.
      * intros m Hm _. unfold parent_of, node_at. by rewrite Hk'.
  - done.
  - done.
  - cbn [droot]. unfold parent_of, node_at. by rewrite Hn, Edn.
  - done.
  - intros m [->|(p & Hdi & Hm)]%dnodes_obj; [left; apply (droot_in (DObj n ms))|].
    destruct (Hin p Hdi) as [[Hdo _]|(_ & _ & Hf)]; [left; apply dnodes_obj; eauto|by apply Hf].
  - exact Htypes.
Qed.
End Edits.

(** * A child is put in, taken out or exchanged *)

Lemma stored_reparent h h' d p : stored h d -> NoDup (dnodes d) ->
  h' !! droot d = with_parent p <$> h !! droot d ->
  (forall m, m ∈ dnodes d -> m <> droot d -> h' !! m = h !! m) -> stored h' d.
Proof.
  intros Hs Hd Hr Hk. apply (stored_keeps h); [done| | |done].
  - intros m Hm. destruct (decide (m = droot d)) as [->|Hne]; [|by apply same_keeps, Hk].
    unfold type_of, location_of, symtab_of, children_of, node_at.
    split; unfold type_of, location_of, symtab_of, children_of, node_at; rewrite Hr; by destruct (h !! droot d).
  - intros m Hm Hne. unfold parent_of, node_at. by rewrite Hk.
Qed.

Lemma concat_app_nodes {A} (f : A -> list Node) l1 l2 :
  concat (f <$> (l1 ++ l2)) = concat (f <$> l1) ++ concat (f <$> l2).
Proof. by rewrite fmap_app, concat_app. Qed.

(** The lists [l ++ old ++ r] of distinct nodes, with [old] exchanged for fresh ones *)
Lemma nodup_splice (l old new r : list Node) (h : heap) n :
  NoDup (n :: l ++ old ++ r) -> (forall m, m ∈ n :: l ++ old ++ r -> is_Some (h !! m)) ->
  NoDup new -> (forall m, m ∈ new -> h !! m = None) -> NoDup (n :: l ++ new ++ r).
Proof.
  intros [Hn Hd]%NoDup_cons Hs Hnew Hf.
  assert (Hfr : forall m, m ∈ n :: l ++ old ++ r -> m ∉ new).
  { intros m Hm Hx. destruct (Hs m Hm). rewrite Hf in H; done. }
  apply NoDup_app in Hd as (Hl & Hlr & Hd). apply NoDup_app in Hd as (Ho & Hor & Hr).
  apply NoDup_cons. rewrite !elem_of_app in *. split.
  - intros [Hx|[Hx|Hx]]; [by apply Hn; left| |by apply Hn; right; right]. apply (Hfr n); [left|done].
  - apply NoDup_app. split_and!; [done| |].
    + intros m Hm. rewrite elem_of_app. intros [Hx|Hx].
      * apply (Hfr m); [|done]. right. apply elem_of_app. by left.
      * apply (Hlr m); [done|]. apply elem_of_app. by right.
    + apply NoDup_app. split_and!; [done| |done]. intros m Hm Hx. apply (Hfr m); [|done].
      right. rewrite !elem_of_app. by right; right.
Qed.

Lemma array_splice h0 h h' n l old new r : h0 ⊆ h -> keeps_types h0 h' ->
  stored h0 (DArr n (l ++ old ++ r)) -> NoDup (dnodes (DArr n (l ++ old ++ r))) ->
  (length new <= 1)%nat -> Forall (stored h) new -> NoDup (concat (dnodes <$> new)) ->
  (forall m, m ∈ concat (dnodes <$> new) -> h0 !! m = None) ->
  h' !! n = with_children (fun _ => droot <$> (l ++ new ++ r)) <$> h !! n ->
  Forall (fun d => h' !! droot d = with_parent (Some n) <$> h !! droot d) new ->
  (forall m, m <> n -> m ∉ droot <$> new -> m ∉ droot <$> old -> h' !! m = h !! m) ->
  edits h0 h' (DArr n (l ++ old ++ r)) (DArr n (l ++ new ++ r)).
Proof.
  intros Hsub Hty Hs Hd Hlen Hnew Hnd Hfresh P1 P2 P3. pose proof Hd as Hd0.
  assert (Hsome : forall m, m ∈ dnodes (DArr n (l ++ old ++ r)) -> is_Some (h0 !! m)) by (by apply stored_some).
  rewrite dnodes_arr_eq in Hd. rewrite !concat_app_nodes in Hd.
  assert (Hn0 : is_Some (h0 !! n)) by (apply Hsome, (droot_in (DArr n _))).
  assert (Hnew_in : forall m, m ∈ droot <$> new -> m ∈ concat (dnodes <$> new)).
  { intros m (d & -> & Hdi)%list_elem_of_fmap. apply elem_of_concat_map. exists d. split; [done|apply droot_in]. }
  assert (Hold : forall d m, d ∈ l ++ r -> m ∈ dnodes d -> is_Some (h0 !! m) /\ m <> n /\ m ∉ droot <$> old).
  { intros d m Hdi Hm.
    assert (Hin : m ∈ concat (dnodes <$> l) ++ concat (dnodes <$> r)).
    { rewrite <-concat_app_nodes. apply elem_of_concat_map. eauto. }
    apply NoDup_cons in Hd as [Hdn Hd]. apply NoDup_app in Hd as (_ & Hlr & Hd). apply NoDup_app in Hd as (_ & Hor & _).
    assert (Hout : m ∉ concat (dnodes <$> old)).
    { intros Hx. apply elem_of_app in Hin as [Hin|Hin]; [|by apply (Hor m)].
      apply (Hlr m); [done|]. apply elem_of_app. by left. }
    split_and!.
    - apply Hsome, dnodes_arr. right. exists d. split; [|done]. rewrite !elem_of_app in *. tauto.
    - intros ->. apply Hdn. rewrite !elem_of_app in *. tauto.
    - intros (x & -> & Hx)%list_elem_of_fmap. apply Hout, elem_of_concat_map. exists x. split; [done|apply droot_in]. }
  assert (Hsame : forall m, is_Some (h0 !! m) -> m <> n -> m ∉ droot <$> old -> h' !! m = h0 !! m).
  { intros m Hm Hmn Hmo. rewrite P3; [by apply subset_lookup|done| |done].
    intros Hx%Hnew_in%Hfresh. destruct Hm; congruence. }
  apply arr_edits; [done|done|done| | | |].
  - rewrite P1. by rewrite (subset_lookup h0 h).
  - intros d Hdi. rewrite !elem_of_app in Hdi.
    assert (Hc : d ∈ new \/ d ∈ l ++ r) by (rewrite elem_of_app; tauto). destruct Hc as [Hc|Hc].
    + right. destruct new as [|d1 [|]]; [by apply elem_of_nil in Hc| |cbn in Hlen; lia].
      apply list_elem_of_singleton in Hc as ->. rewrite Forall_singleton in Hnew, P2.
      cbn [fmap list_fmap concat] in *. rewrite app_nil_r in *.
      assert (Hnn : forall m, m ∈ dnodes d1 -> m <> n /\ m ∉ droot <$> old).
      { intros m Hm. pose proof (Hfresh m Hm) as Hf. split; [intros ->; destruct Hn0; congruence|].
        intros (x & -> & Hx)%list_elem_of_fmap. destruct (Hsome (droot x)); [|congruence].
        apply dnodes_arr. right. exists x. split; [rewrite !elem_of_app; tauto|apply droot_in]. }
      split_and!; [| |exact Hfresh].
      * apply (stored_reparent h h' d1 (Some n)); [done|done|done|]. intros m Hm Hmr.
        destruct (Hnn m Hm). apply P3; [done| |done]. by intros ->%list_elem_of_singleton.
      * unfold parent_of, node_at. rewrite P2.
        destruct (stored_some h d1 Hnew (droot d1) (droot_in d1)) as [x ->]. done.
    + left. split; [rewrite !elem_of_app in *; tauto|]. intros m Hm.
      destruct (Hold d m Hc Hm) as (H1 & H2 & H3). by apply Hsame.
  - rewrite dnodes_arr_eq, !concat_app_nodes. apply (nodup_splice _ (concat (dnodes <$> old)) _ _ h0); [done| |done|done].
    intros m Hm. apply Hsome. rewrite dnodes_arr_eq, !concat_app_nodes. done.
  - intros m Hm Hmn. apply Hsame; [done| |].
    + intros ->. apply Hmn, (droot_in (DArr n _)).
    + intros (x & -> & Hx)%list_elem_of_fmap. apply Hmn, dnodes_arr. right. exists x.
      split; [rewrite !elem_of_app; tauto|apply droot_in].
Qed.

Lemma object_nodup n l mid r : NoDup (dnodes (DObj n (l ++ mid ++ r))) ->
  forall p m, p ∈ l ++ r -> m ∈ nodes (member_tree p) ->
  m <> n /\ m ∉ concat ((nodes ∘ member_tree) <$> mid).
Proof.
  rewrite dnodes_obj_eq, !concat_app_nodes. intros [Hn Hd]%NoDup_cons p m Hp Hm.
  apply NoDup_app in Hd as (_ & Hlr & Hd). apply NoDup_app in Hd as (_ & Hor & _).
  assert (Hin : m ∈ concat ((nodes ∘ member_tree) <$> l) ++ concat ((nodes ∘ member_tree) <$> r)).
  { rewrite <-concat_app_nodes. apply elem_of_concat_map. by exists p. }
  split.
  - intros ->. apply Hn. rewrite !elem_of_app in *. tauto.
  - intros Hx. apply elem_of_app in Hin as [Hin|Hin]; [|by apply (Hor m)].
    apply (Hlr m); [done|]. apply elem_of_app. by left.
Qed.

(** A fresh member is added. *)
Lemma object_add h0 h' n ms p : keeps_types h0 h' -> stored h0 (DObj n ms) -> NoDup (dnodes (DObj n ms)) ->
  h' !! n = with_children (fun _ => (fun p => m_node p.1) <$> (ms ++ [p])) <$> h0 !! n ->
  (forall x, is_Some (h0 !! x) -> x <> n -> h' !! x = h0 !! x) ->
  member_ok h' n p.1 (droot p.2) -> stored h' p.2 -> NoDup (nodes (member_tree p)) ->
  (forall m, m ∈ nodes (member_tree p) -> h0 !! m = None) ->
  edits h0 h' (DObj n ms) (DObj n (ms ++ [p])).
Proof.
  intros Hty Hs Hd P1 P2 Hm Hp Hnd Hf.
  assert (Hsome : forall m, m ∈ dnodes (DObj n ms) -> is_Some (h0 !! m)) by (by apply stored_some).
  rewrite dnodes_obj_eq in Hd. pose proof Hd as [Hn Hms]%NoDup_cons.
  apply obj_edits; [done|done|by rewrite dnodes_obj_eq|done| | |].
  - intros q [Hq|Hq]%elem_of_app.
    + left. split; [done|]. intros m Hmq. assert (Hin : m ∈ concat ((nodes ∘ member_tree) <$> ms)).
      { apply elem_of_concat_map. by exists q. }
      apply P2; [|by intros ->]. apply Hsome. rewrite dnodes_obj_eq. by right.
    + apply list_elem_of_singleton in Hq as ->. right. split_and!; [done|done|]. intros m Hmm. right. by apply Hf.
  - rewrite dnodes_obj_eq, concat_app_nodes. cbn [fmap list_fmap concat compose]. rewrite app_nil_r.
    rewrite <-(app_nil_r (nodes (member_tree p))).
    apply (nodup_splice _ [] _ _ h0); [by rewrite app_nil_r| |done|done].
    intros m Hmm. cbn [app] in Hmm. rewrite app_nil_r in Hmm. apply Hsome. by rewrite dnodes_obj_eq.
  - intros m Hmm Hnm. apply P2; [done|]. intros ->. apply Hnm, (droot_in (DObj n ms)).
Qed.

(** A member is taken out. *)
Lemma object_drop h h' n l p r : keeps_types h h' -> stored h (DObj n (l ++ [p] ++ r)) -> NoDup (dnodes (DObj n (l ++ [p] ++ r))) ->
  h' !! n = with_children (fun _ => (fun p => m_node p.1) <$> (l ++ r)) <$> h !! n ->
  (forall x, x <> n -> h' !! x = h !! x) ->
  edits h h' (DObj n (l ++ [p] ++ r)) (DObj n (l ++ r)).
Proof.
  intros Hty Hs Hd P1 P2. apply obj_edits; [done|done|done|done| | |].
  - intros q Hq. left. split; [rewrite !elem_of_app in *; tauto|]. intros m Hm.
    apply P2. by apply (object_nodup n l [p] r Hd q m).
  - pose proof (object_nodup n l [p] r Hd) as Ho. rewrite dnodes_obj_eq, !concat_app_nodes in Hd.
    rewrite dnodes_obj_eq. apply NoDup_cons in Hd as [_ Hd]. apply NoDup_app in Hd as (Hl & Hlr & Hd).
    apply NoDup_app in Hd as (_ & _ & Hr). apply NoDup_cons. split.
    + intros (q & Hq & Hn)%elem_of_concat_map. destruct (Ho q n Hq Hn) as [Hne _]. by apply Hne.
    + rewrite concat_app_nodes. apply NoDup_app. split_and!; [done| |done].
      intros m Hm Hx. apply (Hlr m); [done|]. apply elem_of_app. by right.
  - intros m _ Hm. apply P2. intros ->. apply Hm, (droot_in (DObj n _)).
Qed.

(** The value of a member is exchanged for a fresh document. *)
Lemma object_assign h0 h h' n l m x r d1 : h0 ⊆ h -> keeps_types h0 h' ->
  stored h0 (DObj n (l ++ [(m, x)] ++ r)) -> NoDup (dnodes (DObj n (l ++ [(m, x)] ++ r))) ->
  stored h d1 -> NoDup (dnodes d1) -> (forall y, y ∈ dnodes d1 -> h0 !! y = None) ->
  h' !! m_node m = with_children (fun _ => [m_key_node m; droot d1]) <$> h !! m_node m ->
  h' !! droot d1 = with_parent (Some (m_node m)) <$> h !! droot d1 ->
  (forall y, y <> m_node m -> y <> droot d1 -> y <> droot x -> h' !! y = h !! y) ->
  edits h0 h' (DObj n (l ++ [(m, x)] ++ r)) (DObj n (l ++ [(m, d1)] ++ r)).
Proof.
  intros Hsub Hty Hs Hd Hs1 Hd1 Hf P1 P2 P3.
  assert (Hsome : forall y, y ∈ dnodes (DObj n (l ++ [(m, x)] ++ r)) -> is_Some (h0 !! y)) by (by apply stored_some).
  pose proof Hs as [O Hms]%stored_obj_inv. pose proof O as [O1 O2 O3 O4 O5].
  assert (Hmx : (m, x) ∈ l ++ [(m, x)] ++ r) by (rewrite !elem_of_app; right; left; left).
  assert (Hmem : forall y, y ∈ nodes (member_tree (m, x)) -> is_Some (h0 !! y) /\ y ∈ dnodes (DObj n (l ++ [(m, x)] ++ r))).
  { intros y Hy. split; [apply Hsome|]; apply dnodes_obj; right; by exists (m, x). }
  assert (Hnd : NoDup (nodes (member_tree (m, x)))).
  { rewrite dnodes_obj_eq in Hd. apply NoDup_cons in Hd as [_ Hd].
    exact (nodup_concat_fmap (nodes ∘ member_tree) _ (m, x) Hd Hmx). }
  pose proof Hnd as Hnd'. rewrite member_nodes_eq in Hnd'.
  apply NoDup_cons in Hnd' as [Hm1 Hnd']. apply NoDup_cons in Hnd' as [Hm2 Hndx].
  assert (Hnm : n ∉ nodes (member_tree (m, x))).
  { rewrite dnodes_obj_eq in Hd. apply NoDup_cons in Hd as [Hd _]. intros Hx. apply Hd, elem_of_concat_map. by exists (m, x). }
  assert (Hfr : forall y, is_Some (h0 !! y) -> y ∉ dnodes d1) by (intros y Hy Hx; rewrite Hf in Hy by done; by destruct Hy).
  assert (Hsame : forall y, is_Some (h0 !! y) -> y <> m_node m -> y <> droot x -> h' !! y = h0 !! y).
  { intros y Hy Hym Hyx. rewrite P3; [by apply subset_lookup|done| |done]. intros ->. apply (Hfr (droot d1)); [done|apply droot_in]. }
  assert (Hin_m : m_node m ∈ nodes (member_tree (m, x))) by (apply dnodes_member; by left).
  assert (Hin_k : m_key_node m ∈ nodes (member_tree (m, x))) by (apply dnodes_member; right; by left).
  assert (Hin_x : droot x ∈ nodes (member_tree (m, x))) by (apply dnodes_member; right; right; apply droot_in).
  assert (Hk : h' !! m_key_node m = h0 !! m_key_node m).
  { apply Hsame; [by apply Hmem|..].
    - intros E. apply Hm1. rewrite <-E. left.
    - intros E. apply Hm2. rewrite E. apply droot_in. }
  assert (Hnn : h' !! n = h0 !! n).
  { apply Hsame; [done|by intros ->|by intros ->]. }
  assert (Hmm : h' !! m_node m = with_children (fun _ => [m_key_node m; droot d1]) <$> h0 !! m_node m).
  { rewrite P1. rewrite (subset_lookup h0 h); [done|done|by apply Hmem]. }
  pose proof (obj_member _ _ _ _ O Hmx) as [M1 M2 M3 M4 M5 M6 M7 M8 M9 M10]. cbn [fst snd] in *.
  apply obj_edits; [done|done|done| | | |].
  - rewrite Hnn. destruct O1 as [dn Edn]. rewrite Edn. cbn. f_equal.
    pose proof (obj_children_of _ _ _ O) as Hc. unfold children_of, node_at in Hc. rewrite Edn in Hc. cbn in Hc.
    destruct dn. cbn in *. unfold with_children. cbn. f_equal. rewrite Hc. rewrite !fmap_app. done.
  - intros p Hp. rewrite !elem_of_app in Hp.
    assert (Hc : p = (m, d1) \/ p ∈ l ++ r) by (rewrite elem_of_app; destruct Hp as [?|[?%list_elem_of_singleton|?]]; tauto).
    destruct Hc as [->|Hc].
    + right. cbn [fst snd]. split_and!.
      * destruct M1 as [dm Em]. rewrite Em in Hmm. cbn in Hmm.
        unfold type_of, parent_of, location_of, children_of, node_at in *. rewrite Em in *.
        split; unfold type_of, parent_of, location_of, children_of, node_at; rewrite ?Hmm, ?Hk; try done.
        rewrite P2. destruct (stored_some h d1 Hs1 (droot d1) (droot_in d1)) as [z ->]. done.
      * apply (stored_reparent h h' d1 (Some (m_node m))); [done|done|done|]. intros y Hy Hyr. apply P3; [|done|].
        -- intros ->. by apply (Hfr (m_node m)); [apply Hmem|].
        -- intros ->. by apply (Hfr (droot x)); [apply Hmem|].
      * intros y [->|[->|Hy]]%dnodes_member; [left; by apply Hmem..|right; by apply Hf].
    + left. split; [rewrite !elem_of_app in *; tauto|]. intros y Hy.
      destruct (object_nodup n l [(m, x)] r Hd p y Hc Hy) as [_ Hout].
      cbn [fmap list_fmap concat compose] in Hout. rewrite app_nil_r in Hout.
      apply Hsame; [|by intros ->|by intros ->]. apply Hsome, dnodes_obj. right. exists p.
      split; [rewrite !elem_of_app in *; tauto|done].
  - pose proof (fill_nodes (HObj n l m r) d1) as E1. pose proof (fill_nodes (HObj n l m r) x) as E2.
    cbn [fill] in E1, E2. change ([(m, d1)] ++ r) with ((m, d1) :: r). change ([(m, x)] ++ r) with ((m, x) :: r) in *.
    rewrite E1. rewrite E2 in Hd. apply NoDup_app in Hd as (Hh & _ & _). apply NoDup_app. split_and!; [done| |done].
    intros y Hy. apply Hfr, Hsome. rewrite E2. apply elem_of_app. by left.
  - intros y Hy Hyn. apply Hsame; [done|..]; intros ->; by apply Hyn, Hmem.
Qed.

(** * What every action of a pointer does to the container that its last key is asked of. *)

Lemma stored_subset h h' d : h ⊆ h' -> stored h d -> NoDup (dnodes d) -> stored h' d.
Proof.
  intros Hs Hd Hn. apply (stored_keeps h); [done| | |done].
  - intros m Hm. apply same_keeps, subset_lookup; [done|by apply (stored_some h d)].
  - intros m Hm _. unfold parent_of, node_at. rewrite (subset_lookup h h'); [done|done|by apply (stored_some h d)].
Qed.

(** A document that was made since the store [h] *)
Record made (h h1 : heap) (d : jdoc) : Prop := {
  md_stored : stored h1 d;
  md_nodup : NoDup (dnodes d);
  md_fresh m : m ∈ dnodes d -> h !! m = None;
  md_parent : parent_of h1 (droot d) = None;
  md_calm : calm h1 (droot d)
}.

Lemma clone_made h h1 w : h ⊆ h1 -> stored h w -> NoDup (dnodes w) ->
  exists w' h2, clone_node h1 (droot w) = Returns (droot w', h2) /\ h1 ⊆ h2 /\ made h1 h2 w'
    /\ value w' = value w.
Proof.
  intros Hs Hw Hd. destruct (clone_doc h1 w) as (w' & h2 & E & [C1 C2 C3 C4 C5 C6 C7 _]); [by apply (stored_subset h)|done|].
  exists w', h2. by split_and!.
Qed.

Lemma made_before h h1 h2 d : h ⊆ h1 -> made h1 h2 d -> made h h2 d.
Proof. intros Hs [M1 M2 M3 M4 M5]. split; try done. intros m Hm. apply (not_in_subset h h1); [done|]. by apply M3. Qed.

Lemma made_not_in h h1 d n : made h h1 d -> is_Some (h !! n) -> n ∉ dnodes d.
Proof. intros M [x Hx] Hin. by rewrite (md_fresh _ _ _ M) in Hx. Qed.

(** The store after some updates of children and parents has the types of the one before. *)
Ltac types_kept :=
  let m := fresh "m" in let Hm := fresh "Hm" in
  intros m Hm; repeat (rewrite type_alter_parent || rewrite type_alter_children);
  first [reflexivity|apply keeps_types_subset; [assumption|exact Hm]].

(** The roots of the elements are distinct. *)
Lemma root_not_before n l y r : NoDup (dnodes (DArr n (l ++ y :: r))) ->
  (droot y ∉ droot <$> l) /\ n <> droot y.
Proof.
  rewrite dnodes_arr_eq, fmap_app, concat_app. intros [Hn Hd]%NoDup_cons. apply NoDup_app in Hd as (_ & Hlr & _).
  assert (Hy : droot y ∈ concat (dnodes <$> (y :: r))) by (cbn; apply elem_of_app; left; apply droot_in).
  split.
  - intros (x & E & Hx)%list_elem_of_fmap. apply (Hlr (droot y)); [|done]. rewrite E.
    apply elem_of_concat_map. exists x. split; [done|apply droot_in].
  - intros ->. apply Hn, elem_of_app. by right.
Qed.

Section Arrays.
Context (h h1 : heap) (n : Node) (Hsub : h ⊆ h1).

Section Element.
Context (l : list jdoc) (y : jdoc) (r : list jdoc).
Context (Hs : stored h (DArr n (l ++ y :: r))) (Hd : NoDup (dnodes (DArr n (l ++ y :: r)))).

Lemma element_children : children_of h1 n = (droot <$> l) ++ droot y :: (droot <$> r).
Proof.
  apply stored_arr_inv in Hs as [[A1 A2 A3 A4] _].
  rewrite (same_children h h1 n) by by apply subset_same. rewrite A3, fmap_app. done.
Qed.
Lemma element_parent : parent_of h1 (droot y) = Some n.
Proof.
  pose proof Hs as [A Hss]%stored_arr_inv. rewrite (same_parent_of h h1).
  - apply (arr_parent h n (l ++ y :: r) y A). apply elem_of_app. right. left.
  - apply subset_same; [done|]. apply (stored_some h _ Hs). apply dnodes_arr. right. exists y.
    split; [apply elem_of_app; right; left|apply droot_in].
Qed.

(** An element is exchanged. *)
Lemma element_replace w : made h h1 w -> exists h',
  replace h1 n (droot y) (Some (droot w)) = Returns h'
  /\ edits h h' (DArr n (l ++ y :: r)) (DArr n (l ++ w :: r)).
Proof.
  intros M. pose proof M as [M1 M2 M3 M4 M5]. destruct (root_not_before n l y r Hd) as [Hy Hny].
  assert (Hyin : is_Some (h !! droot y)).
  { apply (stored_some h _ Hs), dnodes_arr. right. exists y. split; [apply elem_of_app; right; left|apply droot_in]. }
  assert (Hnin : is_Some (h !! n)) by (apply (stored_some h _ Hs), (droot_in (DArr n _))).
  assert (Hwy : droot w <> droot y) by (intros E; apply (made_not_in h h1 w (droot y) M Hyin); rewrite <-E; apply droot_in).
  assert (Hwn : droot w <> n) by (intros E; apply (made_not_in h h1 w n M Hnin); rewrite <-E; apply droot_in).
  rewrite (replace_by h1 n (droot <$> l) (droot y) (droot <$> r) (droot w)); [|apply element_children|done|apply element_parent|done|done].
  eexists. split; [reflexivity|].
  - change (l ++ y :: r) with (l ++ [y] ++ r) in *. change (l ++ w :: r) with (l ++ [w] ++ r).
    apply (array_splice h h1); [done|types_kept|done..|cbn; lia|by apply Forall_singleton|cbn; by rewrite app_nil_r| | | |].
    + cbn. rewrite app_nil_r. done.
    + rewrite lookup_alter_eq, !lookup_alter_ne by done. pose proof element_children as Hc.
      unfold children_of, node_at in Hc. destruct (h1 !! n) as [dn|] eqn:E; [|done]. cbn in *.
      f_equal. unfold with_children. f_equal. rewrite Hc. rewrite insert_app_r_alt by lia.
      rewrite Nat.sub_diag. cbn. rewrite fmap_app. done.
    + apply Forall_singleton. rewrite lookup_alter_ne by done. rewrite lookup_alter_eq.
      by rewrite lookup_alter_ne by done.
    + intros m Hm Hmw Hmy. cbn in Hmw, Hmy. apply not_elem_of_cons in Hmw as [? _]. apply not_elem_of_cons in Hmy as [? _].
      by rewrite !lookup_alter_ne by done.
Qed.

(** An element is taken out. *)
Lemma element_remove : exists f, replace h1 n (droot y) None = Returns (alter (with_children f) n h1)
  /\ edits h (alter (with_children f) n h1) (DArr n (l ++ y :: r)) (DArr n (l ++ r)).
Proof.
  destruct (root_not_before n l y r Hd) as [Hy Hny].
  assert (Hyin : is_Some (h !! droot y)).
  { apply (stored_some h _ Hs), dnodes_arr. right. exists y. split; [apply elem_of_app; right; left|apply droot_in]. }
  rewrite (replace_none h1 n (droot <$> l) (droot y) (droot <$> r)); [|apply element_children|done].
  eexists. split; [reflexivity|].
  - change (l ++ y :: r) with (l ++ [y] ++ r) in *. change (l ++ r) with (l ++ [] ++ r).
    apply (array_splice h h1); [done|types_kept|done..|cbn; lia|by apply Forall_nil|by apply NoDup_nil| | | |].
    + intros m Hm. by apply elem_of_nil in Hm.
    + pose proof element_children as Hc. rewrite lookup_alter_eq.
      unfold children_of, node_at in Hc. destruct (h1 !! n) as [dn|] eqn:E; [|done]. cbn in *.
      f_equal. unfold with_children. f_equal. rewrite Hc, take_drop_place. by rewrite fmap_app.
    + by apply Forall_nil.
    + intros m Hm _ _. by rewrite lookup_alter_ne by done.
Qed.
End Element.

(** An element is put in before a position. *)
Lemma element_insert l r w : stored h (DArr n (l ++ r)) -> NoDup (dnodes (DArr n (l ++ r))) -> made h h1 w ->
  exists h', Ast.insert h1 n (length l) (Some (droot w)) = h'
  /\ edits h h' (DArr n (l ++ r)) (DArr n (l ++ w :: r)).
Proof.
  intros Hs Hd M. pose proof M as [M1 M2 M3 M4 [Hf Hu]].
  assert (Hnin : is_Some (h !! n)) by (apply (stored_some h _ Hs), (droot_in (DArr n _))).
  assert (Hwn : droot w <> n) by (intros E; apply (made_not_in h h1 w n M Hnin); rewrite <-E; apply droot_in).
  eexists. split; [reflexivity|]. cbn [Ast.insert]. unfold adopt. rewrite add_flags_calm.
  - change (DArr n (l ++ r)) with (DArr n (l ++ [] ++ r)) in *. change (l ++ w :: r) with (l ++ [w] ++ r).
    apply (array_splice h h1); [done|types_kept|done..|cbn; lia|by apply Forall_singleton|cbn; by rewrite app_nil_r| | | |].
    + cbn. rewrite app_nil_r. done.
    + rewrite lookup_alter_eq, lookup_alter_ne by done. apply stored_arr_inv in Hs as [[A1 A2 A3 A4] _].
      rewrite <-(same_children h h1) in A3 by by apply subset_same.
      unfold children_of, node_at in A3. destruct (h1 !! n) as [dn|] eqn:E; [|done]. cbn in *.
      f_equal. unfold with_children. f_equal. rewrite A3, !fmap_app.
      assert (El : length l = length (droot <$> l)) by by rewrite length_fmap.
      rewrite El, take_app_length, drop_app_length. done.
    + apply Forall_singleton. rewrite lookup_alter_ne by done. by rewrite lookup_alter_eq.
    + intros m Hm Hmw _. cbn in Hmw. apply not_elem_of_cons in Hmw as [? _]. by rewrite !lookup_alter_ne by done.
  - unfold calm, type_of, node_at in *. rewrite lookup_alter_eq. by destruct (h1 !! droot w).
Qed.

Lemma element_push ds w : stored h (DArr n ds) -> NoDup (dnodes (DArr n ds)) -> made h h1 w ->
  exists h', push_back h1 n (Some (droot w)) = h' /\ edits h h' (DArr n ds) (DArr n (ds ++ [w])).
Proof.
  intros Hs Hd M. pose proof M as [M1 M2 M3 M4 Mc].
  assert (Hnin : is_Some (h !! n)) by (apply (stored_some h _ Hs), (droot_in (DArr n _))).
  assert (Hwn : droot w <> n) by (intros E; apply (made_not_in h h1 w n M Hnin); rewrite <-E; apply droot_in).
  eexists. split; [reflexivity|]. rewrite push_back_calm by done.
  rewrite <-(app_nil_r (ds ++ [w])), <-app_assoc. rewrite <-(app_nil_r ds) in Hs, Hd.
  rewrite <-(app_nil_r ds) at 1.
  change (ds ++ []) with (ds ++ [] ++ []) in *.
  apply (array_splice h h1); [done|types_kept|done..|cbn; lia|by apply Forall_singleton|cbn; by rewrite app_nil_r| | | |].
  - cbn. rewrite app_nil_r. done.
  - rewrite lookup_alter_ne, lookup_alter_eq by done. apply stored_arr_inv in Hs as [[A1 A2 A3 A4] _].
    rewrite <-(same_children h h1) in A3 by by apply subset_same.
    unfold children_of, node_at in A3. destruct (h1 !! n) as [dn|] eqn:E; [|done]. cbn in *.
    f_equal. unfold with_children. f_equal. rewrite A3. cbn. rewrite !fmap_app. cbn. by rewrite app_nil_r.
  - apply Forall_singleton. rewrite lookup_alter_eq. by rewrite lookup_alter_ne by done.
  - intros m Hm Hmw _. cbn in Hmw. apply not_elem_of_cons in Hmw as [? _]. by rewrite !lookup_alter_ne by done.
Qed.
End Arrays.

Section Objects.
Context (h h1 : heap) (n : Node) (Hsub : h ⊆ h1).

(** A member is taken out; the store is the one the document is in. *)
Lemma member_remove l p r : stored h (DObj n (l ++ p :: r)) -> NoDup (dnodes (DObj n (l ++ p :: r))) ->
  exists f, replace h n (m_node p.1) None = Returns (alter (with_children f) n h)
  /\ edits h (alter (with_children f) n h) (DObj n (l ++ p :: r)) (DObj n (l ++ r)).
Proof.
  intros Hs Hd. pose proof Hs as [O _]%stored_obj_inv.
  assert (Hl : m_node p.1 ∉ (fun q => m_node q.1) <$> l).
  { intros (q & E & Hq)%list_elem_of_fmap. change (l ++ p :: r) with (l ++ [p] ++ r) in Hd.
    destruct (object_nodup n l [p] r Hd q (m_node q.1)) as [_ Ho].
    - apply elem_of_app. by left.
    - apply dnodes_member. by left.
    - apply Ho. cbn [fmap list_fmap concat compose]. rewrite app_nil_r, <-E. apply dnodes_member. by left. }
  rewrite (replace_none h n ((fun q => m_node q.1) <$> l) (m_node p.1) ((fun q => m_node q.1) <$> r)).
  - eexists. split; [reflexivity|].
    + apply (object_drop h _ n l p r); [types_kept|done|done|..].
      * rewrite (alter_children _ _ _ ((fun p => m_node p.1) <$> (l ++ r))); [done|apply O|].
        rewrite (obj_children_of _ _ _ O), fmap_app, fmap_cons, take_drop_place. by rewrite fmap_app.
      * intros x Hx. by rewrite lookup_alter_ne.
  - by rewrite (obj_children_of _ _ _ O), fmap_app.
  - done.
Qed.

(** The value of a member is exchanged. *)
Lemma member_replace l m x r w : stored h (DObj n (l ++ (m, x) :: r)) ->
  NoDup (dnodes (DObj n (l ++ (m, x) :: r))) -> made h h1 w -> exists h',
  replace_at h1 (m_node m) 1 (Some (droot w)) = Returns h'
  /\ edits h h' (DObj n (l ++ (m, x) :: r)) (DObj n (l ++ (m, w) :: r)).
Proof.
  intros Hs Hd M. pose proof M as [M1 M2 M3 M4 M5]. pose proof Hs as [O _]%stored_obj_inv.
  assert (Hin : (m, x) ∈ l ++ (m, x) :: r) by (apply elem_of_app; right; left).
  pose proof (obj_member _ _ _ _ O Hin) as Mo. cbn [fst snd] in Mo.
  assert (Hsome : forall y, y ∈ nodes (member_tree (m, x)) -> is_Some (h !! y)).
  { intros y Hy. apply (stored_some h _ Hs), dnodes_obj. right. by exists (m, x). }
  assert (Hnd : NoDup (nodes (member_tree (m, x)))).
  { rewrite dnodes_obj_eq in Hd. apply NoDup_cons in Hd as [_ Hd].
    exact (nodup_concat_fmap (nodes ∘ member_tree) _ (m, x) Hd Hin). }
  rewrite member_nodes_eq in Hnd. apply NoDup_cons in Hnd as [Hm1 Hnd]. apply NoDup_cons in Hnd as [Hm2 _].
  assert (Hxin : droot x ∈ nodes (member_tree (m, x))) by (apply dnodes_member; right; right; apply droot_in).
  assert (Hmin : m_node m ∈ nodes (member_tree (m, x))) by (apply dnodes_member; by left).
  assert (Hne : forall y, y ∈ nodes (member_tree (m, x)) -> droot w <> y).
  { intros y Hy E. apply (made_not_in h h1 w y M); [by apply Hsome|]. rewrite <-E. apply droot_in. }
  assert (Hkx : m_key_node m <> droot x) by (intros E; apply Hm2; rewrite E; apply droot_in).
  assert (Hmx : m_node m <> droot x) by (intros E; apply Hm1; right; rewrite E; apply droot_in).
  assert (Hch : children_of h1 (m_node m) = [m_key_node m] ++ droot x :: []).
  { rewrite (same_children h h1) by (apply subset_same; [done|by apply Hsome]). apply Mo. }
  unfold replace_at. rewrite Hch. cbn [lookup list_lookup app].
  rewrite (replace_by h1 (m_node m) [m_key_node m] (droot x) [] (droot w)); [|done| | |done|by apply Hne].
  - eexists. split; [reflexivity|].
    + apply (object_assign h h1 _ n l m x r w Hsub); [types_kept|done..| | |].
      * rewrite lookup_alter_eq, !lookup_alter_ne by (done || by apply Hne). cbn [length insert list_insert].
        unfold children_of, node_at in Hch. destruct (h1 !! m_node m) as [dm|] eqn:E; [|done]. cbn in *.
        f_equal. unfold with_children. by rewrite Hch.
      * rewrite lookup_alter_ne by (apply not_eq_sym; by apply Hne). rewrite lookup_alter_eq.
        by rewrite lookup_alter_ne by (apply not_eq_sym; by apply Hne).
      * intros y Hym Hyw Hyx. by rewrite !lookup_alter_ne by done.
  - intros E. by apply list_elem_of_singleton in E.
  - rewrite (same_parent_of h h1) by (apply subset_same; [done|by apply Hsome]). apply Mo.
Qed.
End Objects.

(** A member is made of a key and a copy, and pushed. *)
Section Added.
Context (c : WfContexts) (id : positive) (h : heap) (n : Node) (ms : list (Mem * jdoc)) (w : jdoc)
  (key : Location) (k : list Z).
Context (Hs : stored h (DObj n ms)) (Hd : NoDup (dnodes (DObj n ms))).
Context (Hw : stored h w) (Hwd : NoDup (dnodes w)) (Hk : view key = Returns k).

Lemma member_add : exists p h',
  (let '(m, h) := create_token h Member in
   let '(k, h) := located h Key key in
   let h := push_back h m (Some k) in
   '(copy, h) ← clone_node h (droot w);
   let h := push_back h m (Some copy) in
   Returns (push_back h n (Some m))) = Returns h'
  /\ edits h h' (DObj n ms) (DObj n (ms ++ [p])) /\ m_key p.1 = k /\ value p.2 = value w.
Proof.
  unfold create_token, located.
  destruct (step_create h h Member null_location) as (m & h1 & -> & S1 & N1 & F1 & E1); [done|].
  destruct (step_create h h1 Key key) as (kn & h2 & -> & S2 & N2 & F2 & E2); [done|].
  assert (Hmk : m <> kn) by (intros ->; by rewrite E1 in N2).
  rewrite push_back_calm by (done || by unfold calm, type_of, node_at; rewrite E2).
  set (h3 := alter _ kn _).
  assert (E3m : h3 !! m = Some (with_children (fun _ => [kn]) (new_node Member null_location))).
  { unfold h3. rewrite lookup_alter_ne by done. rewrite lookup_alter_eq, (lookup_weaken _ _ _ _ E1 S2). done. }
  assert (E3k : h3 !! kn = Some (with_parent (Some m) (new_node Key key))).
  { unfold h3. rewrite lookup_alter_eq, lookup_alter_ne by done. by rewrite E2. }
  assert (Nk : h !! kn = None) by (by apply (not_in_subset h h1)).
  assert (S3 : h ⊆ h3).
  { apply map_subseteq_spec. intros x d Hx. unfold h3.
    assert (x <> m) by (intros ->; congruence). assert (x <> kn) by (intros ->; congruence).
    rewrite !lookup_alter_ne by done. apply (lookup_weaken h1 h2); [|done]. by apply (lookup_weaken h h1). }
  destruct (clone_made h h3 w S3 Hw Hwd) as (w' & h4 & -> & S4 & M & V). cbn [mbind outcome_bind].
  pose proof (lookup_weaken _ _ _ _ E3m S4) as E4m. pose proof (lookup_weaken _ _ _ _ E3k S4) as E4k.
  assert (Hold : forall x, is_Some (h !! x) -> h4 !! x = h !! x) by (intros x Hx; apply subset_lookup; [by etransitivity|done]).
  assert (Hwm : m ∉ dnodes w') by (apply (made_not_in h3 h4 w' m M); by eexists).
  assert (Hwk : kn ∉ dnodes w') by (apply (made_not_in h3 h4 w' kn M); by eexists).
  pose proof (made_before h h3 h4 w' S3 M) as M'. pose proof M' as [M1 M2 M3 M4 M5].
  assert (Hwr : droot w' <> m /\ droot w' <> kn) by (split; intros E; [apply Hwm|apply Hwk]; rewrite <-E; apply droot_in).
  destruct Hwr as [Hwm' Hwk'].
  assert (Hns : is_Some (h !! n)) by (apply (stored_some h _ Hs), (droot_in (DObj n ms))).
  assert (Hnm : n <> m) by (intros ->; destruct Hns; congruence).
  assert (Hnk : n <> kn) by (intros ->; destruct Hns; congruence).
  assert (Hwn : droot w' <> n) by (intros E; apply (made_not_in h h4 w' n M' Hns); rewrite <-E; apply droot_in).
  rewrite (push_back_calm h4 m (droot w')) by (done || by apply not_eq_sym).
  rewrite push_back_calm; [|unfold calm, type_of, node_at; rewrite lookup_alter_ne, lookup_alter_eq, E4m by done; done|done].
  set (h' := alter _ m _).
  assert (E' : h' !! m = Some (with_parent (Some n) (with_children (fun _ => [kn; droot w']) (new_node Member null_location)))).
  { unfold h'. rewrite lookup_alter_eq, lookup_alter_ne, lookup_alter_ne, lookup_alter_eq, E4m by done. done. }
  assert (Ek : h' !! kn = Some (with_parent (Some m) (new_node Key key))).
  { unfold h'. rewrite !lookup_alter_ne by done. exact E4k. }
  assert (Ew : h' !! droot w' = with_parent (Some m) <$> h4 !! droot w').
  { unfold h'. rewrite lookup_alter_ne, lookup_alter_ne, lookup_alter_eq, lookup_alter_ne by done. done. }
  exists (mkMem m kn k, w'), h'. split_and!; [done| |done|done].
  assert (Hmem : NoDup (nodes (member_tree (mkMem m kn k, w')))).
  { rewrite member_nodes_eq. cbn [m_node m_key_node]. apply NoDup_cons. split; [by intros [?|?]%elem_of_cons|].
    by apply NoDup_cons. }
  apply (object_add h); [unfold h'; intros m0 Hm0; repeat (rewrite type_alter_parent || rewrite type_alter_children); apply keeps_types_subset; [by etransitivity|done]|done|done| | | | |done|]; cbn [fst snd].
  - unfold h'. rewrite lookup_alter_ne, lookup_alter_eq, lookup_alter_ne, lookup_alter_ne by done. rewrite Hold by done.
    pose proof Hs as [O _]%stored_obj_inv. pose proof (obj_children_of _ _ _ O) as Hc.
    unfold children_of, node_at in Hc. destruct (h !! n) as [dn|] eqn:E; [|done]. cbn in *.
    f_equal. unfold with_children. f_equal. rewrite Hc. by rewrite fmap_app.
  - intros x Hx Hxn. assert (Hxm : x <> m) by (intros ->; destruct Hx; congruence).
    assert (Hxw : droot w' <> x) by (intros E; apply (made_not_in h h4 w' x M' Hx); rewrite <-E; apply droot_in).
    unfold h'. rewrite !lookup_alter_ne by done. by apply Hold.
  - destruct (stored_some h4 w' M1 (droot w') (droot_in w')) as [dw Edw]. rewrite Edw in Ew.
    split; unfold type_of, parent_of, location_of, children_of, node_at; cbn [m_node m_key_node m_key];
      rewrite ?E', ?Ek, ?Ew; try done; by eexists.
  - apply (stored_reparent h4 h' w' (Some m)); [done|done|done|]. intros x Hx Hxr.
    assert (x <> m) by (intros ->; done). assert (x <> n) by (intros ->; by apply (made_not_in h h4 w' n M' Hns)).
    unfold h'. by rewrite !lookup_alter_ne by done.
  - intros x [->|[->|Hx]]%dnodes_member; [done|done|by apply M3].
Qed.
End Added.
