(* ===== verification/JsonBuild.v ===== *)
(** Pointers on documents: the actions, and what [select] and the edits do to the value. *)
From S2P Require Import Prelude.
From S2P Require Import Token.
From S2P Require Import Source.
From S2P Require Import Ast.
From S2P Require Import AstFacts.
From S2P Require Import Wellformed.
From S2P Require Import WfOps.
From S2P Require Import WfTheorems.
From S2P Require Import WfBuild.
From S2P Require Import Cursor.
From S2P Require Import JsonParse.
From S2P Require Import JsonWriter.
From S2P Require Import JsonDoc.
From S2P Require Import CloneFacts.
From S2P Require Import JsonValue.
From S2P Require Import JsonSpec.
From S2P Require Import JsonEdits.
From stdpp Require Export gmap.
#[local] Set Warnings "-register-all".
Open Scope Z_scope.

(** The edit of a container's value that an action stands for *)
Definition action_value (action : Action) (k : list Z) (w v : json) : option json :=
  match action with
  | JsonDoc.Insert => insert_child k w v
  | Replace => replace_child k w v
  | Remove => remove_child k v
  | Read | Compare => None
  end.
Definition edit_action (action : Action) : bool :=
  match action with JsonDoc.Insert | Replace | Remove => true | _ => false end.

(** A key for the end of an insertion: [-], or a number.  Other texts are taken for the size of
    the array when their leading digits are it. *)
Definition insert_key (k : list Z) (v : json) : bool :=
  match v with JArr _ => list_eqb k [45] || bool_decide (is_Some (index_text k)) | _ => true end.

(** The document became one with the value; or an error node says why not. *)
Definition edited (h : heap) (d : jdoc) (v : option json) (r : outcome (Node * heap)) : Prop :=
  match v with
  | Some v => exists n h' d', r = Returns (n, h') /\ edits h h' d d' /\ value d' = v /\ type_of h' n <> Error
  | None => fails h r
  end.

Lemma doc_root_unmarked h d : stored h d -> type_of h (droot d) <> Error.
Proof. intros Hs. apply (proj1 (Forall_forall _ _) (stored_unmarked h d Hs) _ (droot_in d)). Qed.

Lemma fails_subset h h1 r : h ⊆ h1 -> fails h1 r -> fails h r.
Proof. intros Hs (e & h' & -> & S & T). exists e, h'. split_and!; [done|by etransitivity|done]. Qed.

Section Run.
Context (c : WfContexts) (id : positive) (h : heap).
Context (w : jdoc) (Hw : stored h w) (Hwd : NoDup (dnodes w)).

Lemma missing_fails d key k : stored h d -> NoDup (dnodes d) -> located_key key k ->
  fails h (missing_member id h (droot d) key).
Proof. intros Hs Hd Hk. unfold missing_member, located_key in *. rewrite Hk. by apply err_doc. Qed.

(** The node the code returns was there, and is no error node. *)
Lemma still_unmarked h' d d' x : edits h h' d d' -> stored h x -> type_of h' (droot x) <> Error.
Proof.
  intros E Hx. rewrite (ed_types _ _ _ _ E) by (apply (stored_some h x Hx), droot_in). by apply doc_root_unmarked.
Qed.

Lemma object_action_spec action n ms key k : stored h (DObj n ms) -> NoDup (dnodes (DObj n ms)) ->
  located_key key k -> finds h n ms k -> edit_action action = true ->
  edited h (DObj n ms) (action_value action k (value w) (value (DObj n ms)))
    (object_action c id h action (Some (droot w)) n key).
Proof.
  intros Hs Hd Hk Hf Ha. pose proof Hs as [O Hss]%stored_obj_inv. unfold object_action.
  rewrite (lookdown_finds h n ms key k O Hf Hk). cbn [mbind outcome_bind].
  pose proof (filter_find (key_is k) ms) as Hff.
  assert (Hfv : list_find (named k) (member_value <$> ms)
                = prod_map (fun i : nat => i) member_value <$> list_find (key_is k) ms) by apply list_find_members.
  destruct (list_find (key_is k) ms) as [[i [m x]]|] eqn:E.
  - destruct Hff as [rest ->]. cbn [fmap list_fmap fst snd]. apply list_find_Some in E as (E & _ & _).
    pose proof (list_elem_of_lookup_2 _ _ _ E) as Hin.
    rewrite (json_field_value c h n m (droot x) (obj_member _ _ _ _ O Hin)). cbn [mbind outcome_bind lookup_node fst snd].
    assert (Ems : ms = take i ms ++ (m, x) :: drop (S i) ms) by by rewrite take_drop_middle.
    assert (El : member_value <$> ms
      = (member_value <$> take i ms) ++ (m_key m, value x) :: (member_value <$> drop (S i) ms)).
    { rewrite Ems at 1. by rewrite fmap_app. }
    assert (Hi : (i < length ms)%nat) by by eapply lookup_lt_Some.
    set (l := take i ms) in *. set (r := drop (S i) ms) in *.
    assert (Hll : length (member_value <$> l) = i) by (unfold l; rewrite length_fmap, length_take; lia).
    pose proof (proj1 (Forall_forall _ _) Hss (m, x) Hin) as Hsx. cbn [snd] in Hsx.
    rewrite Ems in Hs, Hd.
    assert (Hassign : edited h (DObj n ms) (replace_child k (value w) (value (DObj n ms)))
        (h ← assign_value c h (m_node m) (Some (droot w)); Returns (droot x, h))).
    { cbn [value replace_child]. change (fun p => (m_key p.1, value p.2)) with member_value. rewrite Hfv.
      cbn [fmap option_fmap option_map prod_map fst snd mbind option_bind edited member_value].
      unfold assign_value, clone_value. cbn [or_undefined mbind outcome_bind].
      destruct (clone_made h h w) as (w' & h1 & -> & S1 & M & V); [done..|]. cbn [mbind outcome_bind].
      assert (Mo : member_ok h1 n m (droot x)).
      { apply (obj_member h1 n ms (m, x)); [|done]. rewrite Ems.
        apply (stored_subset h h1) in Hs; [by apply stored_obj_inv in Hs as [? _]|done..]. }
      rewrite (json_field_value c h1 n m (droot x) Mo). cbn [mbind outcome_bind].
      unfold lookup_assign. cbn [lookup_node lookup_index lookup_wf]. rewrite (mem_value_parent _ _ _ _ Mo).
      cbn [or_undefined mbind outcome_bind]. change (Z.to_nat 1) with 1%nat.
      destruct (member_replace h h1 n S1 l m x r w' Hs Hd M) as (h' & -> & Ed). cbn [mbind outcome_bind].
      exists (droot x), h', (DObj n (l ++ (m, w') :: r)). split_and!; [done|by rewrite Ems| |by apply (still_unmarked h' _ _ x Ed)].
      cbn [value]. change (fun p => (m_key p.1, value p.2)) with member_value. rewrite fmap_app, fmap_cons. f_equal.
      rewrite El, insert_app_r_alt by lia. rewrite Hll, Nat.sub_diag. change (member_value (m, w')) with (m_key m, value w'). by rewrite V. }
    destruct action; try done.
    + cbn [action_value value insert_child]. change (fun p => (m_key p.1, value p.2)) with member_value.
      rewrite Hfv. cbn [fmap option_fmap option_map prod_map fst snd]. exact Hassign.
    + cbn [action_value value remove_child]. change (fun p => (m_key p.1, value p.2)) with member_value.
      rewrite Hfv. cbn [fmap option_fmap option_map prod_map fst snd mbind option_bind edited].
      destruct (member_remove h n l (m, x) r Hs Hd) as (f & Er & Ed). set (h' := alter _ n h) in *. cbn [fst snd] in *. rewrite Er.
      cbn [mbind outcome_bind]. exists (droot x), h', (DObj n (l ++ r)).
      split_and!; [done|by rewrite Ems| |by apply (still_unmarked h' _ _ x Ed)].
      cbn [value]. change (fun p => (m_key p.1, value p.2)) with member_value. f_equal.
      rewrite fmap_app, El, <-Hll, take_drop_place. done.
  - rewrite Hff. cbn [fmap list_fmap mbind outcome_bind].
    assert (Hmiss : fails h (missing_member id h n key)) by by apply (missing_fails (DObj n ms) key k).
    destruct action; try done; cbn [action_value value insert_child replace_child remove_child];
      change (fun p => (m_key p.1, value p.2)) with member_value; rewrite Hfv;
      cbn [fmap option_fmap option_map mbind option_bind edited]; try exact Hmiss.
    destruct (member_add h n ms w key k Hs Hd Hw Hwd Hk) as (p & h' & E' & Ed & Hkey & Hv).
    unfold create_token, located, clone_value in *. cbn [or_undefined mbind outcome_bind] in *.
    destruct (create h Member null_location) as [m h1]. destruct (create h1 Key key) as [kn h2].
    destruct (clone_node _ (droot w)) as [[copy h4]| |]; cbn [mbind outcome_bind] in *; [|done..].
    injection E' as E'. exists (droot w), h', (DObj n (ms ++ [p])).
    split_and!; [by rewrite <-E'|done| |].
    + cbn [value]. change (fun p => (m_key p.1, value p.2)) with member_value. rewrite fmap_app. f_equal. cbn.
      unfold member_value. by rewrite Hkey, Hv.
    + by apply (still_unmarked h' (DObj n ms) (DObj n (ms ++ [p])) w).
Qed.

(** The insertion of a copy at the end of an array, in a store that has grown *)
Lemma array_append h1 n ds : h ⊆ h1 -> stored h (DArr n ds) -> NoDup (dnodes (DArr n ds)) ->
 
  edited h (DArr n ds) (Some (JArr ((value <$> ds) ++ [value w])))
    ('(copy, h) ← clone_value h1 (Some (droot w));
     v ← or_undefined (Some (droot w)); Returns (v, push_back h n (Some copy))).
Proof.
  intros S1 Hs Hd. unfold clone_value. cbn [or_undefined mbind outcome_bind].
  destruct (clone_made h h1 w S1 Hw Hwd) as (w' & h2 & -> & S2 & M & V). cbn [mbind outcome_bind].
  destruct (element_push h h2 n (transitivity S1 S2) ds w' Hs Hd (made_before h h1 h2 w' S1 M)) as (h' & E & Ed).
  rewrite E. exists (droot w), h', (DArr n (ds ++ [w'])). split_and!; [done|done| |].
  - cbn [value]. rewrite fmap_app. cbn. by rewrite V.
  - by apply (still_unmarked h' (DArr n ds) (DArr n (ds ++ [w'])) w).
Qed.

Lemma array_size h1 n ds : h ⊆ h1 -> stored h (DArr n ds) -> size_of (children_of h1 n) = Z.of_nat (length ds).
Proof.
  intros S1 Hs. pose proof (stored_some h _ Hs n (droot_in (DArr n ds))) as Hn.
  apply stored_arr_inv in Hs as [A _].
  rewrite (same_children h h1 n) by by apply subset_same. rewrite (arr_children _ _ _ A). unfold size_of.
  by rewrite length_fmap.
Qed.

Lemma array_action_spec action n ds key k : stored h (DArr n ds) -> NoDup (dnodes (DArr n ds)) ->
  located_key key k -> safe_key k = true -> edit_action action = true ->
  match action with JsonDoc.Insert => insert_key k (value (DArr n ds)) = true | _ => True end ->
  edited h (DArr n ds) (action_value action k (value w) (value (DArr n ds)))
    (array_action c id h action (Some (droot w)) n key).
Proof.
  intros Hs Hd Hk Hsafe Ha Hins. pose proof Hs as [A Hss]%stored_arr_inv. unfold array_action.
  pose proof (array_lookup_spec id h n ds key k 0 A Hk Hsafe) as Hl.
  destruct (index_text k) as [i|] eqn:Ei; cbn [mbind option_bind default] in Hl; [destruct (ds !! i) as [y|] eqn:Ey|].
  - apply lookup_lt_Some in Ey as Hi.
    assert (Eds : ds = take i ds ++ y :: drop (S i) ds) by by rewrite take_drop_middle.
    set (l := take i ds) in *. set (r := drop (S i) ds) in *.
    assert (Hll : length l = i) by (unfold l; rewrite length_take; lia).
    assert (Ev : value <$> ds = (value <$> l) ++ value y :: (value <$> r)) by (rewrite Eds at 1; by rewrite fmap_app).
    assert (Hlv : length (value <$> l) = i) by by rewrite length_fmap.
    assert (Hsy : stored h y) by (apply (proj1 (Forall_forall _ _) Hss y), (list_elem_of_lookup_2 _ i), Ey).
    pose proof (doc_root_unmarked h y Hsy) as Hy.
    assert (H45 : list_eqb k [45] = false).
    { destruct (list_eqb k [45]) eqn:E; [|done]. apply list_eqb_eq in E as ->. done. }
    rewrite Hl. cbn [mbind outcome_bind]. change (Datatypes.id i) with i. rewrite (array_size h n ds) by done.
    rewrite (proj2 (Z.eqb_neq (Z.of_nat i) _)) by lia. rewrite andb_false_r, (proj2 (token_eqb_neq _ _) Hy), Nat2Z.id.
    pose proof Hs as Hs1. pose proof Hd as Hd1. rewrite Eds in Hs1, Hd1.
    destruct action; try done; cbn [action_value value insert_child replace_child remove_child];
      rewrite ?H45, Ei; cbn [mbind option_bind]; rewrite ?list_lookup_fmap, ?Ey; cbn [fmap option_fmap option_map mbind option_bind].
    + rewrite length_fmap, (proj2 (Nat.leb_le _ _)) by lia. unfold clone_value. cbn [or_undefined mbind outcome_bind].
      destruct (clone_made h h w) as (w' & h1 & -> & S1 & M & V); [done..|]. cbn [mbind outcome_bind].
      destruct (element_insert h h1 n S1 l (y :: r) w' Hs1 Hd1 M) as (h' & E & Ed). rewrite Hll in E. rewrite E.
      exists (droot w), h', (DArr n (l ++ w' :: y :: r)). split_and!; [done|by rewrite Eds| |].
      * cbn [value]. rewrite fmap_app, !fmap_cons, V, Ev. rewrite <-Hlv at 1 2. by rewrite take_app_length, drop_app_length.
      * by apply (still_unmarked h' (DArr n (l ++ y :: r)) (DArr n (l ++ w' :: y :: r)) w).
    + unfold clone_value. cbn [or_undefined mbind outcome_bind].
      destruct (clone_made h h w) as (w' & h1 & -> & S1 & M & V); [done..|]. cbn [mbind outcome_bind].
      unfold replace_at. rewrite (element_children h h1 n S1 l y r Hs1).
      rewrite list_lookup_middle by by rewrite length_fmap.
      destruct (element_replace h h1 n S1 l y r Hs1 Hd1 w' M) as (h' & -> & Ed). cbn [mbind outcome_bind].
      exists (droot y), h', (DArr n (l ++ w' :: r)). split_and!; [done|by rewrite Eds| |by apply (still_unmarked h' _ _ y Ed)].
      cbn [value]. rewrite Ev, fmap_app, fmap_cons, V. f_equal.
      rewrite insert_app_r_alt by lia. by rewrite Hlv, Nat.sub_diag.
    + destruct (element_remove h h n ltac:(done) l y r Hs1 Hd1) as (f & -> & Ed). set (h' := alter _ n h) in *. cbn [mbind outcome_bind].
      exists (droot y), h', (DArr n (l ++ r)). split_and!; [done|by rewrite Eds| |by apply (still_unmarked h' _ _ y Ed)].
      cbn [value]. rewrite Ev, fmap_app. rewrite <-Hlv. by rewrite take_drop_place.
  - destruct Hl as (e & j & h1 & -> & S1 & T & _ & Hj). cbn [mbind outcome_bind]. specialize (Hj i Ei) as ->.
    apply lookup_ge_None_1 in Ey. rewrite (array_size h1 n ds) by done. rewrite T, (proj2 (token_eqb_eq Error Error) eq_refl).
    assert (H45 : list_eqb k [45] = false).
    { destruct (list_eqb k [45]) eqn:E; [|done]. apply list_eqb_eq in E as ->. done. }
    assert (Hn : (value <$> ds) !! i = None) by (apply lookup_ge_None_2; by rewrite length_fmap).
    destruct action; try done; cbn [action_value value insert_child replace_child remove_child andb];
      rewrite ?H45, Ei; cbn [mbind option_bind]; rewrite ?Hn; try (by exists e, h1).
    rewrite length_fmap. destruct (Z.eqb_spec (Z.of_nat i) (Z.of_nat (length ds))) as [E|E].
    + rewrite (proj2 (Nat.leb_le _ _)) by lia.
      rewrite take_ge, drop_ge by (rewrite length_fmap; lia). by apply array_append.
    + rewrite (proj2 (Nat.leb_gt _ _)) by lia. by exists e, h1.
  - destruct Hl as (e & j & h1 & -> & S1 & T & Hj & _). cbn [mbind outcome_bind].
    rewrite (array_size h1 n ds) by done. rewrite T, (proj2 (token_eqb_eq Error Error) eq_refl).
    destruct action; try done; cbn [action_value value insert_child replace_child remove_child andb];
      rewrite ?Ei; cbn [mbind option_bind]; try (by exists e, h1).
    unfold insert_key in Hins. cbn [value] in Hins. rewrite Ei in Hins.
    rewrite bool_decide_false in Hins by by intros [? ?]. rewrite orb_false_r in Hins.
    rewrite Hins, (Hj Hins), Z.eqb_refl. by apply array_append.
Qed.

(** The last key *)
Lemma last_key_spec action x key k : stored h x -> NoDup (dnodes x) -> located_key key k ->
  finds_at h x k -> match x with DArr _ _ => safe_key k = true | _ => True end ->
  edit_action action = true ->
  match action with JsonDoc.Insert => insert_key k (value x) = true | _ => True end ->
  edited h x (action_value action k (value w) (value x)) (run_keys c id h action (Some (droot w)) (droot x) key []).
Proof.
  intros Hs Hd Hk Hf Hsafe Ha Hins. cbn [run_keys]. rewrite (doc_container h x Hs).
  destruct x as [n t s|n ds|n ms]; cbn [negb droot].
  - assert (He : action_value action k (value w) (value (DLeaf n t s)) = None) by by destruct action.
    rewrite He. by apply (err_doc h (DLeaf n t s)).
  - pose proof Hs as [A _]%stored_arr_inv. rewrite (arr_type _ _ _ A). change (token_eqb Array Object) with false.
    cbn match. by apply array_action_spec.
  - pose proof Hs as [O _]%stored_obj_inv. rewrite (obj_type _ _ _ O), (proj2 (token_eqb_eq Object Object) eq_refl).
    by apply object_action_spec.
Qed.

Lemma edited_plug gs x v r : stored h (dplug gs x) -> NoDup (dnodes (dplug gs x)) -> edited h x v r ->
  edited h (dplug gs x) (vplug (hole_value <$> gs) <$> v) r.
Proof.
  intros Hs Hd. destruct v as [v|]; [|done]. intros (n & h' & x' & -> & E & Ev & T). cbn [fmap option_fmap option_map edited].
  exists n, h', (dplug gs x'). split_and!; [done|by apply edits_plug| |done]. by rewrite dplug_value, Ev.
Qed.
End Run.

(** * [Operation::run] on the keys of a pointer *)

(** What an insertion asks of the last key, on the container it reaches *)
Definition insert_safe (action : Action) (pre : list (list Z)) (k : list Z) (v : json) : bool :=
  match action, resolve pre v with
  | JsonDoc.Insert, Some x => insert_key k x
  | _, _ => true
  end.

Lemma run_edit c id h w action pre k locs loc d : stored h w -> NoDup (dnodes w) ->
  stored h d -> NoDup (dnodes d) ->
  Forall2 located_key locs pre -> located_key loc k -> indexed_on h (pre ++ [k]) d ->
  safe_path (pre ++ [k]) (value d) = true -> insert_safe action pre k (value d) = true ->
  edit_action action = true ->
  edited h d (update (action_value action k (value w)) pre (value d))
    (run_list c id h action (Some (droot w)) (droot d) locs loc).
Proof.
  intros Hw Hwd Hs Hd Hl Hk Hi Hsafe Hins Ha.
  pose proof (run_walk c id h action (Some (droot w)) loc k pre locs d Hl Hk Hs Hd Hi Hsafe) as Hrun.
  rewrite vwalk_update, dwalk_value. unfold insert_safe in Hins. rewrite vwalk_resolve, dwalk_value in Hins.
  destruct (dwalk pre d) as [[gs x]|] eqn:E; cbn [fmap option_fmap option_map fst snd] in *; [|exact Hrun].
  destruct Hrun as (-> & Hsx & Hdx & Hf & Hsk). apply dwalk_plug in E as ->. apply edited_plug; [done..|].
  apply last_key_spec; try done.
  by destruct action.
Qed.

(** [Read] *)
Lemma last_read c id h x key k : stored h x -> NoDup (dnodes x) -> located_key key k ->
  finds_at h x k -> match x with DArr _ _ => safe_key k = true | _ => True end ->
  match dstep k x with
  | Some (_, y) => run_keys c id h Read None (droot x) key [] = Returns (droot y, h)
  | None => fails h (run_keys c id h Read None (droot x) key [])
  end.
Proof.
  intros Hs Hd Hk Hf Hsafe. cbn [run_keys]. rewrite (doc_container h x Hs).
  destruct x as [n t s|n ds|n ms]; cbn [negb droot dstep].
  - by apply (err_doc h (DLeaf n t s)).
  - pose proof Hs as [A Hss]%stored_arr_inv. rewrite (arr_type _ _ _ A). change (token_eqb Array Object) with false.
    cbn match. unfold array_action. pose proof (array_lookup_spec id h n ds key k 0 A Hk Hsafe) as Hl.
    destruct (i ← index_text k; ds !! i) as [y|] eqn:E.
    + destruct (index_text k) as [i|]; [|done]. cbn [mbind option_bind] in E |- *. rewrite E. rewrite Hl.
      cbn [mbind outcome_bind option_bind andb].
      assert (Hy : type_of h (droot y) <> Error).
      { apply doc_root_unmarked, (proj1 (Forall_forall _ _) Hss y), (list_elem_of_lookup_2 _ i), E. }
      by rewrite (proj2 (token_eqb_neq _ _) Hy).
    + assert (E' : (i ← index_text k; x ← ds !! i; Some (HArr n (take i ds) (drop (S i) ds), x)) = None).
      { destruct (index_text k) as [i|]; [|done]. cbn [mbind option_bind] in *. by rewrite E. }
      rewrite E'. destruct Hl as (e & j & h1 & -> & S1 & T & _). cbn [mbind outcome_bind andb].
      rewrite T, (proj2 (token_eqb_eq Error Error) eq_refl). by exists e, h1.
  - pose proof Hs as [O Hss]%stored_obj_inv. rewrite (obj_type _ _ _ O), (proj2 (token_eqb_eq Object Object) eq_refl).
    unfold object_action. rewrite (lookdown_finds h n ms key k O Hf Hk). cbn [mbind outcome_bind].
    pose proof (filter_find (key_is k) ms) as Hff.
    destruct (list_find (key_is k) ms) as [[i p]|] eqn:E; cbn [mbind option_bind].
    + destruct Hff as [rest ->]. cbn [fmap list_fmap].
      apply list_find_Some in E as (E & _ & _). apply list_elem_of_lookup_2 in E.
      by rewrite (json_field_value c h n p.1 (droot p.2) (obj_member _ _ _ _ O E)).
    + rewrite Hff. cbn [fmap list_fmap mbind outcome_bind]. by apply (missing_fails id h (DObj n ms) key k).
Qed.

Lemma dstep_stored h k x g y : stored h x -> NoDup (dnodes x) -> dstep k x = Some (g, y) ->
  stored h y /\ NoDup (dnodes y).
Proof.
  intros Hs Hd ->%dstep_fill. split; [by apply (filled_stored h g)|by apply nodup_fill in Hd as (_ & ? & _)].
Qed.

Lemma resolve_snoc pre k v : resolve (pre ++ [k]) v = x ← resolve pre v; child k x.
Proof.
  revert v. induction pre as [|k0 pre IH]; intros v; cbn; [by destruct (child k v)|].
  destruct (child k0 v) as [v'|]; [|done]. cbn. apply IH.
Qed.

Lemma run_read c id h pre k locs loc d : stored h d -> NoDup (dnodes d) ->
  Forall2 located_key locs pre -> located_key loc k -> indexed_on h (pre ++ [k]) d ->
  safe_path (pre ++ [k]) (value d) = true ->
  match resolve (pre ++ [k]) (value d) with
  | Some v => exists y, run_list c id h Read None (droot d) locs loc = Returns (droot y, h)
      /\ stored h y /\ NoDup (dnodes y) /\ value y = v
  | None => fails h (run_list c id h Read None (droot d) locs loc)
  end.
Proof.
  intros Hs Hd Hl Hk Hi Hsafe.
  pose proof (run_walk c id h Read None loc k pre locs d Hl Hk Hs Hd Hi Hsafe) as Hrun.
  rewrite resolve_snoc, vwalk_resolve, dwalk_value.
  destruct (dwalk pre d) as [[gs x]|]; cbn [fmap option_fmap option_map mbind option_bind snd]; [|exact Hrun].
  destruct Hrun as (-> & Hsx & Hdx & Hf & Hsk). rewrite vstep_child, dstep_value.
  pose proof (last_read c id h x loc k Hsx Hdx Hk Hf Hsk) as Hlast.
  destruct (dstep k x) as [[g y]|] eqn:E; cbn [fmap option_fmap option_map snd]; [|exact Hlast].
  destruct (dstep_stored h k x g y Hsx Hdx E). exists y. by split_and!.
Qed.

(** * The symbol tables of documents: after [build_st] every object finds its members by their
    keys, in the order of the members. *)

(** The table of a node can be searched. *)
Definition table_at (h : heap) (n : Node) : Prop :=
  forall st, symtab_of h n = Some st -> table_ok (symbols st).

(** Every table of a document maps a key to the members that have it. *)
Inductive indexed (h : heap) : jdoc -> Prop :=
  | indexed_leaf n t s : indexed h (DLeaf n t s)
  | indexed_arr n ds : Forall (indexed h) ds -> indexed h (DArr n ds)
  | indexed_obj n ms : table_at h n -> (forall s, entries h n s = (fun p => m_node p.1) <$> filter (key_is s) ms) ->
      Forall (fun p => indexed h p.2) ms -> indexed h (DObj n ms).

Lemma indexed_arr_inv h n ds : indexed h (DArr n ds) <-> Forall (indexed h) ds.
Proof. split; [by inversion 1|by constructor]. Qed.
Lemma indexed_obj_inv h n ms : indexed h (DObj n ms) <-> table_at h n /\
  (forall s, entries h n s = (fun p => m_node p.1) <$> filter (key_is s) ms) /\ Forall (fun p => indexed h p.2) ms.
Proof. split; [by inversion 1|by intros (? & ? & ?); constructor]. Qed.

Lemma same_table h h' n : symtab_of h' n = symtab_of h n ->
  (table_at h n -> table_at h' n) /\ forall s, entries h' n s = entries h n s.
Proof. unfold table_at, entries. by intros ->. Qed.

Lemma indexed_same h h' d : (forall n, n ∈ dnodes d -> symtab_of h' n = symtab_of h n) ->
  indexed h d -> indexed h' d.
Proof.
  induction d as [n t s|n ds IH|n ms IH] using jdoc_ind'; intros He; [by constructor|..].
  - rewrite !indexed_arr_inv. intros Hi. apply Forall_forall. intros d Hd.
    apply (proj1 (Forall_forall _ _) IH d Hd).
    + intros m Hm. apply He, dnodes_arr. right. by exists d.
    + exact (proj1 (Forall_forall _ _) Hi d Hd).
  - rewrite !indexed_obj_inv. intros (Hta & Hn & Hi).
    destruct (same_table h h' n (He n (droot_in (DObj n ms)))) as [T1 T2]. split_and!; [by apply T1| |].
    + intros s. by rewrite T2.
    + apply Forall_forall. intros p Hp. apply (proj1 (Forall_forall _ _) IH p Hp).
      * intros m Hm. apply He, dnodes_obj. right. exists p. split; [done|]. apply dnodes_member. by right; right.
      * exact (proj1 (Forall_forall _ _) Hi p Hp).
Qed.

(** An indexed document answers along every path. *)
Lemma located_key_text loc k : located_key loc k -> viewable loc /\ text loc = k.
Proof. unfold located_key, viewable, text. by intros ->. Qed.

Lemma indexed_finds h d k : stored h d -> indexed h d -> finds_at h d k.
Proof.
  destruct d as [| |n ms]; [done|done|]. intros Hs (Ht & Hn & _)%indexed_obj_inv. cbn.
  apply stored_obj_inv in Hs as [O _]. destruct (obj_symtab _ _ _ O) as [st Hst]. exists st. split; [done|].
  intros loc [Hv <-]%located_key_text. destruct (symbols_find_entry (symbols st) loc (Ht _ Hst) Hv) as (r & -> & Hr).
  exists r. split; [done|]. rewrite Hr, <-Hn. unfold entries. by rewrite Hst.
Qed.

Lemma indexed_path h ks : forall d, stored h d -> indexed h d -> indexed_on h ks d.
Proof.
  induction ks as [|k ks IH]; intros d Hs Hi; [done|]. split; [by apply indexed_finds|].
  destruct (dstep k d) as [[g x]|] eqn:E; [|done]. apply dstep_fill in E as ->.
  apply IH; [by apply (filled_stored h g)|]. destruct g as [n l r|n l m r]; cbn [fill] in Hi.
  - apply indexed_arr_inv in Hi. apply (proj1 (Forall_forall _ _) Hi). apply elem_of_app. right. left.
  - apply indexed_obj_inv in Hi as (_ & _ & Hi). apply (proj1 (Forall_forall _ _) Hi (m, x)). apply elem_of_app. right. left.
Qed.

Lemma tables_stored h h' d : tables_only h h' -> stored h d -> NoDup (dnodes d) -> stored h' d.
Proof.
  intros Ht Hs Hd. apply (stored_keeps h); [done| | |done].
  - intros n _. split.
    + by apply tables_only_is_Some.
    + by apply tables_only_type.
    + by apply tables_only_location.
    + intros [st Hst]. pose proof (same_has_symtab _ _ Ht n) as E. unfold has_symtab, symtab_of in *.
      rewrite Hst in E. destruct (symtab_ (node_at h' n)); [by eexists|done].
    + by apply tables_only_shape.
  - intros n _ _. by apply tables_only_parent.
Qed.

(** What a part of the visit does to the tables *)
Record indexing (l : list Node) (h1 h2 : heap) : Prop := {
  ix_only : tables_only h1 h2;
  ix_tables n : n ∉ l -> symtab_of h2 n = symtab_of h1 n
}.
Lemma indexing_trans l k h1 h2 h3 : indexing l h1 h2 -> indexing k h2 h3 -> indexing (l ++ k) h1 h3.
Proof.
  intros [A1 A2] [B1 B2]. split; [by etransitivity|]. intros n [H1 H2]%not_elem_of_app.
  by rewrite B2, A2.
Qed.
Lemma indexing_weaken l k h1 h2 : l ⊆ k -> indexing l h1 h2 -> indexing k h1 h2.
Proof. intros Hl [A1 A2]. split; [done|]. intros n Hn. apply A2. by intros ?%Hl. Qed.

Definition build_visit_of := visit (wf_build_pre json_wf) NopPost.

Lemma clear_indexing h n : is_Some (h !! n) -> indexing [n] h (clear_symbols h n)
  /\ table_at (clear_symbols h n) n /\ forall s, entries (clear_symbols h n) n s = [].
Proof.
  intros Hn. destruct (clear_symbols_spec h n) as (C1 & _ & _).
  pose proof (fun m => symtab_of_alter h n m (fmap clear_symtab) Hn) as Hof.
  split_and!.
  - split; [done|]. intros m Hm. unfold clear_symbols. rewrite Hof.
    rewrite decide_False; [done|]. intros ->. apply Hm. left.
  - intros st. unfold clear_symbols. rewrite Hof, decide_True by done. destruct (symtab_of h n); [|done].
    intros [= <-]. cbn. by split; constructor.
  - intros s. unfold entries, clear_symbols. rewrite Hof, decide_True by done. by destruct (symtab_of h n).
Qed.

(** A name is bound in one table, which can be searched. *)
Lemma bind_indexing h n loc sc : table_at h sc -> viewable loc -> scope h n = Some sc ->
  exists b h', bind h n loc = Returns (b, h') /\ indexing [sc] h h' /\ table_at h' sc
    /\ forall s, entries h' sc s = if list_eqb (text loc) s then entries h sc s ++ [n] else entries h sc s.
Proof.
  intros Ht Hl Hsc. unfold bind. rewrite Hsc. destruct (scope_symtab h n sc Hsc) as [st Hst].
  rewrite Hst. pose proof (symtab_allocated _ _ _ Hst) as Ha.
  destruct (symbols_update_entry (symbols st) loc (fun e => e ++ [n]) (Ht _ Hst) Hl)
    as (m' & -> & Hm' & He & _). cbn [mbind outcome_bind].
  set (st' := mkSymtabDef m' (includes st) (symtab_next_id st)).
  destruct (symbols_find_entry m' loc Hm' Hl) as (r & -> & _). cbn [mbind outcome_bind].
  pose proof (fun m => symtab_of_alter h sc m (fun _ => Some st') Ha) as Hof. cbn in Hof.
  eexists _, _. split; [reflexivity|]. split_and!.
  - split.
    + apply (alter_symtab_only h sc (fun _ => Some st')). intros d Hd.
      unfold symtab_of, node_at in Hst. rewrite Hd in Hst. cbn in Hst. rewrite Hst. by split; intros; eexists.
    + intros m Hm. rewrite Hof. rewrite decide_False; [done|]. intros ->. apply Hm. left.
  - intros x. rewrite Hof, decide_True by done. by intros [= <-].
  - intros s. unfold entries. rewrite Hof, decide_True by done. rewrite Hst. cbn [symbols st'].
    rewrite He. destruct (list_eqb (text loc) s) eqn:E; [|done]. by apply list_eqb_eq in E as ->.
Qed.

(** The step at a node that binds nothing: its own table is emptied. *)
Lemma build_plain h h1 n ok : tables_only h h1 -> is_Some (h !! n) ->
  type_of h n <> Error ->
  match shapes json_wf !! type_of h n with None | Some (ShapeSequence _) => True | _ => False end ->
  exists ok', wf_build_pre json_wf n (h1, ok) = Returns (true, (clear_symbols h1 n, ok'))
  /\ indexing [n] h1 (clear_symbols h1 n)
  /\ table_at (clear_symbols h1 n) n /\ forall s, entries (clear_symbols h1 n) n s = [].
Proof.
  intros Ht Hn He Hsh. unfold wf_build_pre.
  assert (Hd : h1 !! n = Some (node_at h1 n)).
  { apply (tables_only_is_Some h h1 Ht) in Hn as [d Hd]. unfold node_at. by rewrite Hd. }
  rewrite Hd. change (type_ (node_at h1 n)) with (type_of h1 n).
  rewrite (tables_only_type h h1 Ht), (proj2 (token_eqb_neq _ _) He).
  pose proof (clear_indexing h1 n ltac:(by eexists)) as (Hix & Hta & Hem).
  destruct (shapes json_wf !! type_of h n) as [[q|f]|]; [|done|].
  - exists (true && ok). by split_and!.
  - exists ok. by split_and!.
Qed.

(** The step at a member: it is bound to its key in the table of the object. *)
Lemma member_scope h n m v st : member_ok h n m v -> symtab_of h n = Some st -> scope h (m_node m) = Some n.
Proof.
  intros M Hst. unfold scope, depth_fuel. rewrite (mem_parent _ _ _ _ M). cbn [climb].
  unfold has_symtab, symtab_of in *. by rewrite Hst.
Qed.

Lemma member_shape : exists f, shapes json_wf !! Member = Some (ShapeFields f) /\ binding f = Key
  /\ head (fields f) = Some (implicit_field Key).
Proof. eexists. split; [vm_compute; reflexivity|]. by split. Qed.

Lemma build_member h h1 n m v ok : tables_only h h1 -> table_at h1 n -> member_ok h n m v ->
  is_Some (symtab_of h n) -> m_node m <> n ->
  exists h2 ok', wf_build_pre json_wf (m_node m) (h1, ok) = Returns (true, (h2, ok'))
  /\ indexing [m_node m; n] h1 h2 /\ table_at h2 n
  /\ forall s, entries h2 n s = if list_eqb (m_key m) s then entries h1 n s ++ [m_node m] else entries h1 n s.
Proof.
  intros Ht Hta M Hst Hne. unfold wf_build_pre.
  assert (Hd : h1 !! m_node m = Some (node_at h1 (m_node m))).
  { destruct (proj2 (tables_only_is_Some h h1 Ht (m_node m)) (mem_some _ _ _ _ M)) as [d Hd]. unfold node_at. by rewrite Hd. }
  rewrite Hd. change (type_ (node_at h1 (m_node m))) with (type_of h1 (m_node m)).
  rewrite (tables_only_type h h1 Ht), (mem_type _ _ _ _ M). change (token_eqb Member Error) with false. cbn match.
  destruct member_shape as (f & -> & Hb & Hf).
  pose proof (clear_indexing h1 (m_node m) ltac:(by eexists)) as ([C1 C2] & _ & _).
  set (hc := clear_symbols h1 (m_node m)) in *.
  assert (Hn : n ∉ [m_node m]) by by intros ->%list_elem_of_singleton.
  destruct (same_table h1 hc n (C2 n Hn)) as [T1 T2]. assert (Htc : tables_only h hc) by by etransitivity.
  assert (Hkey : view (location_of hc (m_key_node m)) = Returns (m_key m)).
  { rewrite (tables_only_location h hc Htc). apply M. }
  apply located_key_text in Hkey as [Hv Htx].
  assert (Hsc : scope hc (m_node m) = Some n).
  { destruct Hst as [st Hst]. rewrite (tables_only_scope h hc Htc). by apply (member_scope h n m v st). }
  destruct (bind_indexing hc (m_node m) _ n (T1 Hta) Hv Hsc) as (b & h2 & Eb & B1 & B2 & B3).
  assert (Hbuild : shape_build_st (ShapeFields f) hc (m_node m) = Returns (b, h2)).
  { cbn [shape_build_st]. unfold fields_build_st. rewrite Hb. change (token_eqb Key Invalid) with false.
    change (token_eqb Key Include) with false. cbn match. destruct (fields f) as [|g fs]; [done|]. injection Hf as ->.
    cbn [fields_build_loop]. change (token_eqb (field_name (implicit_field Key)) Key) with true. cbn match.
    rewrite (tables_only_shape h hc Htc), (mem_children _ _ _ _ M). exact Eb. }
  rewrite Hbuild. cbn [mbind outcome_bind]. exists h2, (b && ok). split; [done|]. split_and!; [|done|].
  - by apply (indexing_trans [m_node m] [n] h1 hc h2).
  - intros s. by rewrite B3, T2, Htx.
Qed.

Lemma visits_app {St} (pre : Node -> St -> outcome (bool * St)) post t s s1 :
  visit pre post t s = Returns s1 -> forall ts, visits (visit pre post) (t :: ts) s = visits (visit pre post) ts s1.
Proof. intros E ts. cbn. by rewrite E. Qed.

(** * The visit of a document *)

Definition indexes (h : heap) (d : jdoc) : Prop := forall h1 ok, stored h d -> NoDup (dnodes d) ->
  tables_only h h1 ->
  exists h2 ok', build_visit_of (tree_of d) (h1, ok) = Returns (h2, ok')
    /\ indexing (dnodes d) h1 h2 /\ indexed h2 d.

Lemma indexes_leaf h n t s : indexes h (DLeaf n t s).
Proof.
  intros h1 ok Hs Hd Ht. apply stored_leaf_inv in Hs as [L1 L2 L3 L4 L5].
  assert (Hty : t <> Error /\ shapes json_wf !! t = None).
  { unfold scalar_tokens in L3. rewrite !elem_of_cons in L3.
    destruct L3 as [->|[->|[->|[->|[->|[]%elem_of_nil]]]]]; (split; [done|vm_compute; reflexivity]). }
  destruct Hty as [He Hsh]. destruct (build_plain h h1 n ok Ht L1) as (ok' & E & Hix & _); [by rewrite L2|by rewrite L2, Hsh|].
  exists (clear_symbols h1 n), ok'. unfold build_visit_of. cbn [tree_of]. rewrite visit_eq, E. cbn.
  split; [done|]. split; [exact Hix|constructor].
Qed.

Lemma indexes_elements h ds : Forall (indexes h) ds -> Forall (stored h) ds -> NoDup (concat (dnodes <$> ds)) ->
  forall h1 ok, tables_only h h1 ->
  exists h2 ok', visits build_visit_of (tree_of <$> ds) (h1, ok) = Returns (h2, ok')
    /\ indexing (concat (dnodes <$> ds)) h1 h2 /\ Forall (indexed h2) ds.
Proof.
  induction ds as [|d ds IH]; intros Hi Hs Hd h1 ok Ht; cbn [fmap list_fmap concat] in *.
  { exists h1, ok. split; [done|]. split; [by split|done]. }
  apply Forall_cons in Hi as [Hi His]. apply Forall_cons in Hs as [Hs Hss]. apply NoDup_app in Hd as (Hd & Hdis & Hds).
  destruct (Hi h1 ok Hs Hd Ht) as (h2 & ok2 & E & X & Hx). pose proof X as [X1 X2].
  destruct (IH His Hss Hds h2 ok2) as (h3 & ok3 & E3 & Y & Hy); [by etransitivity|].
  exists h3, ok3. unfold build_visit_of in *. rewrite (visits_app _ _ _ _ _ E). split; [done|].
  split; [by apply (indexing_trans _ _ h1 h2 h3)|]. constructor; [|done].
  apply (indexed_same h2); [|done]. intros n Hn. apply Y. by apply Hdis.
Qed.

Lemma indexes_arr h n ds : Forall (indexes h) ds -> indexes h (DArr n ds).
Proof.
  intros Hi h1 ok [A Hs]%stored_arr_inv Hd Ht. rewrite dnodes_arr_eq in *. apply NoDup_cons in Hd as [Hn Hd].
  destruct (build_plain h h1 n ok Ht) as (ok1 & E & X & _); [apply A|by rewrite (arr_type _ _ _ A)|by rewrite (arr_type _ _ _ A)|].
  pose proof X as [X1 X2].
  destruct (indexes_elements h ds Hi Hs Hd (clear_symbols h1 n) ok1) as (h2 & ok2 & E2 & Y & Hy); [by etransitivity|].
  exists h2, ok2. unfold build_visit_of in *. cbn [tree_of]. rewrite visit_eq, E. cbn [mbind outcome_bind]. rewrite E2.
  split; [done|]. split; [by apply (indexing_trans [n] _ h1 (clear_symbols h1 n) h2)|by apply indexed_arr_inv].
Qed.

(** A member: the table of the object, then its value *)
Lemma indexes_member h n p : indexes h p.2 -> stored h p.2 -> member_ok h n p.1 (droot p.2) ->
  is_Some (symtab_of h n) -> NoDup (n :: nodes (member_tree p)) ->
  forall h1 ok, tables_only h h1 -> table_at h1 n ->
  exists h2 ok', build_visit_of (member_tree p) (h1, ok) = Returns (h2, ok')
    /\ indexing (n :: nodes (member_tree p)) h1 h2 /\ indexed h2 p.2 /\ table_at h2 n
    /\ forall s, entries h2 n s
         = if list_eqb (m_key p.1) s then entries h1 n s ++ [m_node p.1] else entries h1 n s.
Proof.
  destruct p as [m d]. cbn [fst snd]. rewrite member_nodes_eq. intros Hi Hs M Hst Hd h1 ok Ht Hta.
  apply NoDup_cons in Hd as [Hn Hd]. apply NoDup_cons in Hd as [Hm Hd]. apply NoDup_cons in Hd as [Hk Hd].
  apply not_elem_of_cons in Hn as [Hnm Hn]. apply not_elem_of_cons in Hn as [Hnk Hnd].
  destruct (build_member h h1 n m (droot d) ok Ht Hta M Hst) as (h2 & ok2 & E2 & X & Xt & Xe); [by apply not_eq_sym|].
  pose proof X as [X1 X2].
  destruct (build_plain h h2 (m_key_node m) ok2) as (ok3 & E3 & Y & _); [by etransitivity|apply M|..].
  { by rewrite (mem_key_type _ _ _ _ M). }
  { rewrite (mem_key_type _ _ _ _ M). vm_compute. done. }
  pose proof Y as [Y1 Y2]. set (h3 := clear_symbols h2 (m_key_node m)) in *.
  destruct (Hi h3 ok3 Hs Hd) as (h4 & ok4 & E4 & Z & Zi); [by do 2 (etransitivity; [done|])|]. pose proof Z as [Z1 Z2].
  assert (Hn4 : symtab_of h4 n = symtab_of h2 n).
  { rewrite Z2, Y2; [done| |done]. by intros ?%list_elem_of_singleton. }
  destruct (same_table h2 h4 n Hn4) as [T1 T2].
  exists h4, ok4. unfold build_visit_of in *. unfold member_tree. cbn [fst snd]. rewrite visit_eq, E2. cbn [mbind outcome_bind].
  cbn [visits]. rewrite visit_eq, E3. cbn [mbind outcome_bind visits].
  change (NopPost (m_key_node m) (h3, ok3)) with (Returns (h3, ok3)). cbn [mbind outcome_bind].
  rewrite E4. split; [done|]. split_and!; [|done|by apply T1|].
  - apply (indexing_weaken ([m_node m; n] ++ [m_key_node m] ++ dnodes d)).
    + intros x. rewrite !elem_of_app, !elem_of_cons, elem_of_nil. tauto.
    + apply (indexing_trans _ _ h1 h2 h4); [done|]. by apply (indexing_trans _ _ h2 h3 h4).
  - intros s. rewrite T2. apply Xe.
Qed.

Lemma indexes_members h n ms : Forall (fun p => indexes h p.2) ms -> Forall (fun p => stored h p.2) ms ->
  Forall (fun p => member_ok h n p.1 (droot p.2)) ms -> is_Some (symtab_of h n) ->
  NoDup (n :: concat ((nodes ∘ member_tree) <$> ms)) -> forall h1 ok, tables_only h h1 -> table_at h1 n ->
  exists h2 ok', visits build_visit_of (member_tree <$> ms) (h1, ok) = Returns (h2, ok')
    /\ indexing (n :: concat ((nodes ∘ member_tree) <$> ms)) h1 h2 /\ Forall (fun p => indexed h2 p.2) ms
    /\ table_at h2 n
    /\ forall s, entries h2 n s = entries h1 n s ++ ((fun p => m_node p.1) <$> filter (key_is s) ms).
Proof.
  induction ms as [|p ms IH]; intros Hi Hs Hm Hst Hd h1 ok Ht Hta; cbn [fmap list_fmap concat] in *.
  { exists h1, ok. split; [done|]. split_and!; [by split|done|done|]. intros s. by rewrite app_nil_r. }
  apply Forall_cons in Hi as [Hi His]. apply Forall_cons in Hs as [Hs Hss]. apply Forall_cons in Hm as [Hm Hms].
  apply NoDup_cons in Hd as [Hn Hd]. apply not_elem_of_app in Hn as [Hn Hns]. apply NoDup_app in Hd as (Hd & Hdis & Hds).
  destruct (indexes_member h n p Hi Hs Hm Hst ltac:(by apply NoDup_cons) h1 ok Ht Hta) as (h2 & ok2 & E & X & Hx & Xt & Xe).
  pose proof X as [X1 X2].
  destruct (IH His Hss Hms Hst ltac:(by apply NoDup_cons) h2 ok2) as (h3 & ok3 & E3 & Y & Hy & Yt & Ye); [by etransitivity|done|].
  exists h3, ok3. unfold build_visit_of in *. rewrite (visits_app _ _ _ _ _ E). split; [done|]. split_and!; [| |done|].
  - apply (indexing_weaken ((n :: nodes (member_tree p)) ++ (n :: concat ((nodes ∘ member_tree) <$> ms)))).
    + intros x. rewrite !elem_of_app, !elem_of_cons, elem_of_app. cbn [compose]. tauto.
    + by apply (indexing_trans _ _ h1 h2 h3).
  - constructor; [|done]. apply (indexed_same h2); [|done]. intros x Hxx. apply Y.
    assert (Hxm : x ∈ nodes (member_tree p)) by (apply dnodes_member; by right; right).
    apply not_elem_of_cons. split; [by intros ->|by apply Hdis].
  - intros s. rewrite Ye, Xe, filter_cons. destruct (list_eqb (m_key p.1) s) eqn:Ek.
    + apply list_eqb_eq in Ek. rewrite decide_True by done. by rewrite <-app_assoc.
    + rewrite decide_False; [done|]. intros Hk. rewrite (proj2 (list_eqb_eq _ _) Hk) in Ek. done.
Qed.

Lemma indexes_doc h d : indexes h d.
Proof.
  induction d as [n t s|n ds IH|n ms IH] using jdoc_ind'; [apply indexes_leaf|by apply indexes_arr|].
  intros h1 ok Hs Hd Ht. pose proof Hs as [O Hss]%stored_obj_inv. rewrite dnodes_obj_eq in *.
  pose proof Hd as [Hn Hms]%NoDup_cons.
  destruct (build_plain h h1 n ok Ht) as (ok1 & E & X & Xt & Xe); [apply O|by rewrite (obj_type _ _ _ O)|by rewrite (obj_type _ _ _ O)|].
  pose proof X as [X1 X2].
  destruct (indexes_members h n ms IH Hss) with (h1 := clear_symbols h1 n) (ok := ok1) as (h2 & ok2 & E2 & Y & Hy & Yt & Ye);
    [|apply O|done|by etransitivity|done|].
  { apply Forall_forall. intros p Hp. by apply (obj_member _ _ _ _ O). }
  exists h2, ok2. unfold build_visit_of in *. cbn [tree_of]. change (fun p : Mem * jdoc => Tree _ _) with member_tree.
  rewrite visit_eq, E. cbn [mbind outcome_bind]. rewrite E2. split; [done|]. split.
  - apply (indexing_weaken ([n] ++ (n :: concat ((nodes ∘ member_tree) <$> ms)))).
    + intros x. rewrite elem_of_app, !elem_of_cons, elem_of_nil. tauto.
    + by apply (indexing_trans _ _ h1 (clear_symbols h1 n) h2).
  - apply indexed_obj_inv. split_and!; [done| |done]. intros s. by rewrite Ye, Xe.
Qed.

(** [build_st] on a document *)
Lemma build_indexes h d : stored h d -> NoDup (dnodes d) ->
  exists h' ok, build_st h (droot d) = Returns (h', ok) /\ indexing (dnodes d) h h'
    /\ stored h' d /\ indexed h' d.
Proof.
  intros Hs Hd. unfold build_st, wf_build_st. rewrite <-root_tree_of.
  rewrite (traverse_visit fst (wf_build_pre json_wf) NopPost).
  - destruct (indexes_doc h d h true Hs Hd ltac:(done)) as (h' & ok & E & X & Hi). pose proof X as [X1 X2].
    exists h', ok. split; [exact E|]. split_and!; [done|by apply (tables_stored h)|done].
  - intros n s b s'. apply wf_build_pre_shape.
  - by intros n s s' [= <-].
  - by apply stored_reads.
  - pose proof (cost_nodes (tree_of d)). pose proof (nodes_size h (dnodes d) Hd (stored_some h d Hs)).
    unfold dnodes in *. lia.
Qed.
