(* ===== verification/JsonCompare.v ===== *)
(** The JSON writer on documents: it writes the text of their value. *)
From S2P Require Import Prelude.
From S2P Require Import Token.
From S2P Require Import Source.
From S2P Require Import Ast.
From S2P Require Import AstFacts.
From S2P Require Import Wellformed.
From S2P Require Import WfOps.
From S2P Require Import WfBuild.
From S2P Require Import Cursor.
From S2P Require Import JsonParse.
From S2P Require Import JsonWriter.
From S2P Require Import Stod.
From S2P Require Import JsonDoc.
From S2P Require Import CloneFacts.
From S2P Require Import JsonValue.
From S2P Require Import JsonSpec.
From S2P Require Import JsonEdits.
From S2P Require Import JsonBuild.
From stdpp Require Export gmap.
From stdpp Require Import sorting.
#[local] Set Warnings "-register-all".
Open Scope Z_scope.

(** * The text of a value *)

Fixpoint insert_text (s : list Z) (sorted : list (list Z)) : list (list Z) :=
  match sorted with
  | [] => [s]
  | x :: rest => if string_ltb x s then x :: insert_text s rest else s :: sorted
  end.
Definition sort_texts (l : list (list Z)) : list (list Z) := foldr insert_text [] l.

Section Render.
Context (settings : WriteSettings).

Fixpoint lines (indent : list Z) (size i : Z) (items : list (list Z)) : list Z :=
  match items with
  | [] => []
  | item :: items =>
      if_pretty settings indent ++ item ++ (if i <? size - 1 then [44] else [])
      ++ if_pretty settings [10] ++ lines indent size (i + 1) items
  end.

(** The members as they are written: with [sort_keys] all those of every key, key by key *)
Definition ordered {A} (ms : list (list Z * A)) : list (list Z * A) :=
  if sort_keys settings then
    flat_map (fun k => filter (fun p : list Z * A => p.1 = k) ms) (sort_texts (fst <$> ms))
  else ms.

Definition member_line (p : list Z * list Z) : list Z := [34] ++ p.1 ++ [34; 58] ++ if_pretty settings [32] ++ p.2.

Definition array_text (indent ni : list Z) (items : list (list Z)) : list Z :=
  match items with
  | [] => bytes "[]"
  | _ => [91] ++ if_pretty settings [10] ++ lines ni (size_of items) 0 items ++ if_pretty settings indent ++ [93]
  end.
Definition object_text (indent ni : list Z) (ms : list (list Z * list Z)) : list Z :=
  match ms with
  | [] => bytes "{}"
  | _ => [123] ++ if_pretty settings [10] ++ lines ni (size_of ms) 0 (member_line <$> ordered ms)
         ++ if_pretty settings indent ++ [125]
  end.

Fixpoint render (indent : list Z) (v : json) : list Z :=
  let ni := indent ++ settings_indent settings in
  match v with
  | JLeaf _ s => s
  | JArr vs => array_text indent ni (render ni <$> vs)
  | JObj ms => object_text indent ni ((fun p => (p.1, render ni p.2)) <$> ms)
  end.
End Render.

(** * The writer *)

Section Writer.
Context (c : WfContexts) (h : heap) (settings : WriteSettings).
#[local] Abbreviation cj := (wf_context c json_wf).

Lemma json_field_key n m v : member_ok h n m v ->
  node_slash cj h (m_node m) Key = Returns (mkWFLookup json_wf (m_key_node m) 0).
Proof.
  intros M. unfold node_slash, wf_context, new_context, context_push_back. cbn [app].
  cbn [node_field]. rewrite (mem_type _ _ _ _ M).
  assert (Hi : wf_index json_wf Member Key = 0) by (vm_compute; reflexivity). rewrite Hi.
  cbn [Z.eqb negb]. unfold node_vector_at. rewrite (mem_children _ _ _ _ M). reflexivity.
Qed.

Lemma write_key fuel indent n m v : member_ok h n m v ->
  write_value (S fuel) cj h settings indent (m_key_node m) = Returns ([34] ++ m_key m ++ [34]).
Proof.
  intros M. cbn [write_value]. rewrite (mem_key_type _ _ _ _ M).
  change (token_in scalar_tokens Key) with false. change (token_eqb Key Key) with true. cbn match.
  by rewrite (mem_key_text _ _ _ _ M).
Qed.

(** A document of a height below the fuel is written. *)
Definition writes (fuel : nat) (d : jdoc) : Prop := forall indent, (height (tree_of d) <= fuel)%nat ->
  stored h d -> (sort_keys settings = true -> indexed h d) ->
  write_value fuel cj h settings indent (droot d) = Returns (render settings indent (value d)).

Lemma write_elements_lines fuel ni size ds : forall i, Forall (writes fuel) ds ->
  Forall (fun d => (height (tree_of d) <= fuel)%nat) ds -> Forall (stored h) ds ->
  (sort_keys settings = true -> Forall (indexed h) ds) ->
  write_elements settings (write_value fuel cj h settings) ni size (droot <$> ds) i
  = Returns (lines settings ni size i (render settings ni <$> (value <$> ds))).
Proof.
  induction ds as [|d ds IH]; intros i Hw Hh Hs Hi; [done|].
  apply Forall_cons in Hw as [Hw Hws]. apply Forall_cons in Hh as [Hh Hhs]. apply Forall_cons in Hs as [Hs Hss].
  cbn [fmap list_fmap write_elements lines]. rewrite Hw; [|done|done|].
  - cbn [mbind outcome_bind]. rewrite IH; [done|done|done|done|]. intros E. by apply Hi, Forall_cons in E as [_ ?].
  - intros E. by apply Hi, Forall_cons in E as [? _].
Qed.

Lemma write_members_lines fuel n ni size ms : forall i, Forall (fun p => writes (S fuel) p.2) ms ->
  Forall (fun p => (height (tree_of p.2) <= S fuel)%nat) ms -> Forall (fun p => stored h p.2) ms ->
  Forall (fun p => member_ok h n p.1 (droot p.2)) ms ->
  (sort_keys settings = true -> Forall (fun p => indexed h p.2) ms) ->
  write_members cj h settings (write_value (S fuel) cj h settings) ni size ((fun p => m_node p.1) <$> ms) i
  = Returns (lines settings ni size i
      (member_line settings <$> ((fun p => (m_key p.1, render settings ni (value p.2))) <$> ms))).
Proof.
  induction ms as [|p ms IH]; intros i Hw Hh Hs Hm Hi; [done|].
  apply Forall_cons in Hw as [Hw Hws]. apply Forall_cons in Hh as [Hh Hhs]. apply Forall_cons in Hs as [Hs Hss].
  apply Forall_cons in Hm as [Hm Hms].
  cbn [fmap list_fmap write_members lines]. rewrite (json_field_key n p.1 _ Hm). cbn [mbind outcome_bind lookup_node].
  rewrite (write_key _ _ n p.1 _ Hm). cbn [mbind outcome_bind].
  pose proof (json_field_value c h n p.1 _ Hm) as Hv. unfold json_field in Hv. rewrite Hv. cbn [mbind outcome_bind lookup_node].
  rewrite Hw; [|done|done|].
  - cbn [mbind outcome_bind]. rewrite IH; [|done..|].
    + cbn [mbind outcome_bind]. unfold member_line at 2. cbn [fst snd]. by rewrite <-!app_assoc.
    + intros E. by apply Hi, Forall_cons in E as [_ ?].
  - intros E. by apply Hi, Forall_cons in E as [? _].
Qed.

(** The keys, sorted *)
Lemma member_keys_texts n ms : Forall (fun p => member_ok h n p.1 (droot p.2)) ms ->
  exists locs, member_keys cj h ((fun p => m_node p.1) <$> ms) = Returns locs
  /\ Forall2 located_key locs ((fun p => m_key p.1) <$> ms).
Proof.
  induction 1 as [|p ms Hm _ IH]; [by exists []|]. cbn [fmap list_fmap member_keys].
  destruct IH as (locs & E & Hl). rewrite (json_field_key n p.1 _ Hm). cbn [mbind outcome_bind lookup_node].
  rewrite E. eexists. split; [reflexivity|]. constructor; [|done]. apply Hm.
Qed.

Lemma insert_location_texts l k ls ks : located_key l k -> Forall2 located_key ls ks ->
  exists ls', insert_location l ls = Returns ls' /\ Forall2 located_key ls' (insert_text k ks).
Proof.
  intros Hl. induction 1 as [|x y ls ks Hx Hls IH]; cbn [insert_location insert_text].
  - eexists. split; [reflexivity|]. by repeat constructor.
  - unfold location_lt. pose proof Hl as Hl'. pose proof Hx as Hx'. unfold located_key in Hl', Hx'. rewrite Hx', Hl'.
    cbn [mbind outcome_bind]. destruct (string_ltb y k).
    + destruct IH as (ls' & -> & H'). eexists. split; [reflexivity|]. by constructor.
    + eexists. split; [reflexivity|]. constructor; [done|]. by constructor.
Qed.

Lemma sort_locations_texts ls ks : Forall2 located_key ls ks ->
  exists ls', sort_locations ls = Returns ls' /\ Forall2 located_key ls' (sort_texts ks).
Proof.
  induction 1 as [|x y ls ks Hx _ IH]; [by exists []|]. cbn [sort_locations]. destruct IH as (ls' & -> & Hl).
  cbn [mbind outcome_bind]. by apply insert_location_texts.
Qed.

Lemma key_defs_members n ms ls ks : obj_ok h n (with_root <$> ms) -> indexed h (DObj n ms) -> stored h (DObj n ms) ->
  Forall2 located_key ls ks ->
  key_defs h n ls = Returns ((fun p => m_node p.1) <$> flat_map (fun k => filter (key_is k) ms) ks).
Proof.
  intros O Hi Hs. induction 1 as [|x y ls ks Hx _ IH]; [done|]. cbn [key_defs flat_map].
  rewrite (lookdown_finds h n ms x y O) by (done || by apply (indexed_finds h (DObj n ms))).
  cbn [mbind outcome_bind]. rewrite IH. by rewrite fmap_app.
Qed.

(** The members an object writes *)
Definition written (ms : list (Mem * jdoc)) : list (Mem * jdoc) :=
  if sort_keys settings then flat_map (fun k => filter (key_is k) ms) (sort_texts ((fun p => m_key p.1) <$> ms))
  else ms.

Lemma object_members_written n ms : stored h (DObj n ms) -> (sort_keys settings = true -> indexed h (DObj n ms)) ->
  object_members cj h settings n = Returns ((fun p => m_node p.1) <$> written ms).
Proof.
  intros Hs Hi. pose proof Hs as [O _]%stored_obj_inv. unfold object_members, written.
  rewrite (obj_children_of _ _ _ O). destruct (sort_keys settings); [|done].
  destruct (member_keys_texts n ms) as (ls & -> & Hl).
  { apply Forall_forall. intros p Hp. by apply (obj_member _ _ _ _ O). }
  cbn [mbind outcome_bind]. destruct (sort_locations_texts _ _ Hl) as (ls' & -> & Hl'). cbn [mbind outcome_bind].
  apply key_defs_members; auto.
Qed.

Lemma written_in ms p : p ∈ written ms -> p ∈ ms.
Proof.
  unfold written. destruct (sort_keys settings); [|done]. intros Hp.
  apply list_elem_of_In, in_flat_map in Hp as (k & _ & Hp). apply list_elem_of_In, list_elem_of_filter in Hp. apply Hp.
Qed.

Lemma ordered_written {A} (f : jdoc -> A) ms :
  ordered settings ((fun p => (m_key p.1, f p.2)) <$> ms) = (fun p : Mem * jdoc => (m_key p.1, f p.2)) <$> written ms.
Proof.
  unfold ordered, written. destruct (sort_keys settings); [|done]. rewrite <-list_fmap_compose.
  change (fst ∘ _) with (fun p : Mem * jdoc => m_key p.1). generalize (sort_texts ((fun p => m_key p.1) <$> ms)).
  intros ks. induction ks as [|k ks IH]; [done|]. cbn [flat_map]. rewrite fmap_app, IH. f_equal.
  clear. induction ms as [|p ms IH]; [done|]. cbn [fmap list_fmap]. rewrite !filter_cons. unfold key_is. cbn [fst].
  destruct (list_eq_dec (m_key p.1) k) as [Hk|Hk].
  - rewrite !decide_True by exact Hk. by rewrite fmap_cons, IH.
  - rewrite !decide_False by exact Hk. exact IH.
Qed.

Lemma height_arr n ds d : d ∈ ds -> (height (tree_of d) < height (tree_of (DArr n ds)))%nat.
Proof. intros Hd. apply (height_child n (tree_of <$> ds)). by apply list_elem_of_fmap_2. Qed.
Lemma height_obj n ms p : p ∈ ms -> (S (height (tree_of p.2)) < height (tree_of (DObj n ms)))%nat.
Proof.
  intros Hp.
  pose proof (height_child (m_node p.1) [Tree (m_key_node p.1) []; tree_of p.2] (tree_of p.2) ltac:(right; left)) as H1.
  pose proof (height_child n (member_tree <$> ms) (member_tree p) ltac:(by apply list_elem_of_fmap_2)) as H2.
  unfold member_tree in H2 at 1. change (tree_of (DObj n ms)) with (Tree n (member_tree <$> ms)). lia.
Qed.

Lemma write_doc d : forall fuel, writes fuel d.
Proof.
  induction d as [n t s|n ds IH|n ms IH] using jdoc_ind'; intros [|fuel] indent Hh Hs Hi;
    try (cbn [tree_of height] in Hh; lia); cbn [write_value droot].
  - apply stored_leaf_inv in Hs as [L1 L2 L3 L4 L5]. rewrite L2.
    assert (Hsc : token_in scalar_tokens t = true).
    { unfold scalar_tokens in *. rewrite !elem_of_cons in L3.
      destruct L3 as [->|[->|[->|[->|[->|[]%elem_of_nil]]]]]; reflexivity. }
    by rewrite Hsc.
  - pose proof Hs as [A Hss]%stored_arr_inv. rewrite (arr_type _ _ _ A). change (token_in scalar_tokens Array) with false.
    change (token_eqb Array Key) with false. change (token_eqb Array Object) with false.
    change (token_eqb Array Array) with true. cbn match. unfold write_array. rewrite (arr_children _ _ _ A).
    cbn [value render].
    assert (E : forall ni size, write_elements settings (write_value fuel cj h settings) ni size (droot <$> ds) 0
              = Returns (lines settings ni size 0 (render settings ni <$> (value <$> ds)))).
    { intros ni size. apply write_elements_lines; [|apply Forall_forall; intros x Hx|done|].
      - eapply Forall_impl; [exact IH|]. intros x Hx. apply Hx.
      - pose proof (height_arr n ds x Hx). lia.
      - intros E. apply (indexed_arr_inv h n ds). by apply Hi. }
    destruct ds as [|d ds]; [done|]. unfold array_text, size_of in *. cbn [fmap list_fmap length] in *. rewrite E.
    cbn [mbind outcome_bind]. repeat f_equal. by rewrite !length_fmap.
  - pose proof Hs as [O Hss]%stored_obj_inv. rewrite (obj_type _ _ _ O). change (token_in scalar_tokens Object) with false.
    change (token_eqb Object Key) with false. change (token_eqb Object Object) with true. cbn match.
    unfold write_object. rewrite (object_members_written n ms Hs Hi), (obj_children_of _ _ _ O).
    cbn [value render mbind outcome_bind]. set (ni := indent ++ settings_indent settings).
    assert (E : ms <> [] -> forall size, write_members cj h settings (write_value fuel cj h settings) ni size
                 ((fun p => m_node p.1) <$> written ms) 0
               = Returns (lines settings ni size 0 (member_line settings <$>
                   ((fun p => (m_key p.1, render settings ni (value p.2))) <$> written ms)))).
    { intros Hne size. assert (Hlt : forall p, p ∈ ms -> (S (height (tree_of p.2)) <= fuel)%nat).
      { intros p Hp. pose proof (height_obj n ms p Hp). lia. }
      destruct fuel as [|fuel]. { destruct ms as [|p ms]; [done|]. pose proof (Hlt p ltac:(left)). lia. }
      apply (write_members_lines fuel n); [..|intros Ex]; apply Forall_forall; intros p Hp%written_in.
      - apply (proj1 (Forall_forall _ _) IH p Hp).
      - pose proof (Hlt p Hp). lia.
      - exact (proj1 (Forall_forall _ _) Hss p Hp).
      - by apply (obj_member _ _ _ _ O).
      - apply Hi, indexed_obj_inv in Ex as (_ & _ & Ex). exact (proj1 (Forall_forall _ _) Ex p Hp). }
    rewrite <-(ordered_written (fun d => render settings ni (value d))) in E.
    rewrite <-list_fmap_compose.
    change (fun p => (p.1, render settings ni p.2)) with (prod_map (fun k : list Z => k) (render settings ni)).
    change (prod_map (fun k : list Z => k) (render settings ni) ∘ (fun p : Mem * jdoc => (m_key p.1, value p.2)))
      with (fun p : Mem * jdoc => (m_key p.1, render settings ni (value p.2))).
    set (items := (fun p : Mem * jdoc => (m_key p.1, render settings ni (value p.2))) <$> ms) in *.
    unfold object_text. assert (Hlen : size_of ((fun p => m_node p.1) <$> ms) = size_of items).
    { unfold size_of, items. by rewrite !length_fmap. }
    destruct ms as [|p0 ms0]; [done|]. rewrite Hlen, E by done. done.
Qed.
End Writer.

Lemma to_string_render c h d pp sk ind : stored h d -> NoDup (dnodes d) -> (sk = true -> indexed h d) ->
  to_string c h (droot d) pp sk ind = Returns (render (mkWriteSettings pp sk ind) [] (value d)).
Proof.
  intros Hs Hd Hi. unfold to_string. apply write_doc; [by apply doc_size|done|done].
Qed.

(** * [json::equal] on documents: it decides whether the values are the same, where the members
    of an object are compared by their keys and numbers as doubles. *)

(** * Values that are the same *)

Inductive same_value : json -> json -> Prop :=
  | same_scalar t s : t <> Number -> same_value (JLeaf t s) (JLeaf t s)
  | same_number s1 s2 x1 x2 : stod s1 = Returns x1 -> stod s2 = Returns x2 -> double_eqb x1 x2 = true ->
      same_value (JLeaf Number s1) (JLeaf Number s2)
  | same_array vs ws : Forall2 same_value vs ws -> same_value (JArr vs) (JArr ws)
  | same_object ms ns : length ms = length ns ->
      (forall k v, (k, v) ∈ ms -> exists w, (k, w) ∈ ns /\ same_value v w) -> same_value (JObj ms) (JObj ns).

(** The numbers are in the range of a [double], and the keys of an object differ. *)
Definition in_range (s : list Z) : bool := match stod s with Returns _ => true | _ => false end.
Fixpoint comparable (v : json) : bool :=
  match v with
  | JLeaf t s => negb (token_eqb t Number) || in_range s
  | JArr vs => forallb comparable vs
  | JObj ms => bool_decide (NoDup (fst <$> ms)) && forallb (fun p => comparable p.2) ms
  end.

(** * Sorted keys *)

Definition text_le (a b : list Z) : Prop := string_ltb b a = false.

#[export] Instance text_le_antisymm : AntiSymm (=) text_le.
Proof.
  intros a b H1 H2. unfold text_le in *. destruct (string_ltb_cases a b) as [H|[H|H]]; congruence.
Qed.
Lemma text_le_trans a b c : text_le a b -> text_le b c -> text_le a c.
Proof.
  unfold text_le. intros H1 H2. destruct (string_ltb c a) eqn:E; [|done].
  destruct (string_ltb_cases a b) as [H|[->|H]]; [|congruence|congruence].
  by rewrite (string_ltb_trans c a b E H) in H2.
Qed.

Lemma insert_text_perm s l : insert_text s l ≡ₚ s :: l.
Proof.
  induction l as [|x l IH]; [done|]. cbn. destruct (string_ltb x s); [|done]. rewrite IH. apply Permutation_swap.
Qed.
Lemma sort_texts_perm l : sort_texts l ≡ₚ l.
Proof. induction l as [|x l IH]; [done|]. cbn. by rewrite insert_text_perm, IH. Qed.

Lemma insert_text_sorted s l : StronglySorted text_le l -> StronglySorted text_le (insert_text s l).
Proof.
  induction 1 as [|x l Hs IH Hx]; [by repeat constructor|]. cbn. destruct (string_ltb x s) eqn:E.
  - constructor; [done|]. rewrite insert_text_perm. constructor; [|done]. unfold text_le.
    destruct (string_ltb s x) eqn:E2; [|done]. pose proof (string_ltb_trans _ _ _ E E2) as Hc.
    by rewrite string_ltb_irrefl in Hc.
  - constructor; [by constructor|]. constructor; [done|]. eapply Forall_impl; [exact Hx|]. cbn.
    intros y Hy. by apply (text_le_trans s x y).
Qed.
Lemma sort_texts_sorted l : StronglySorted text_le (sort_texts l).
Proof. induction l as [|x l IH]; [constructor|]. by apply insert_text_sorted. Qed.

Lemma sort_texts_eq l k : l ≡ₚ k -> sort_texts l = sort_texts k.
Proof.
  intros Hp. apply (StronglySorted_unique text_le); [apply sort_texts_sorted..|].
  by rewrite !sort_texts_perm.
Qed.

(** Members in the order of their keys *)
Fixpoint insert_mem (x : Mem * jdoc) (sorted : list (Mem * jdoc)) : list (Mem * jdoc) :=
  match sorted with
  | [] => [x]
  | y :: rest => if string_ltb (m_key y.1) (m_key x.1) then y :: insert_mem x rest else x :: sorted
  end.
Definition sort_mems (ms : list (Mem * jdoc)) : list (Mem * jdoc) := foldr insert_mem [] ms.

Lemma insert_mem_perm x l : insert_mem x l ≡ₚ x :: l.
Proof.
  induction l as [|y l IH]; [done|]. cbn. destruct (string_ltb _ _); [|done]. rewrite IH. apply Permutation_swap.
Qed.
Lemma sort_mems_perm l : sort_mems l ≡ₚ l.
Proof. induction l as [|x l IH]; [done|]. cbn. by rewrite insert_mem_perm, IH. Qed.
Lemma sort_mems_keys ms : (fun p => m_key p.1) <$> sort_mems ms = sort_texts ((fun p => m_key p.1) <$> ms).
Proof.
  induction ms as [|x ms IH]; [done|]. change (sort_mems (x :: ms)) with (insert_mem x (sort_mems ms)).
  change (sort_texts ((fun p => m_key p.1) <$> (x :: ms))) with (insert_text (m_key x.1) (sort_texts ((fun p => m_key p.1) <$> ms))).
  rewrite <-IH. generalize (sort_mems ms). intros l.
  induction l as [|y l IHl]; [done|]. cbn. destruct (string_ltb _ _); [|done]. cbn. by rewrite IHl.
Qed.

Section Equal.
Context (h : heap).

(** [std::sort] of the members *)
Lemma member_view_key n m v : member_ok h n m v -> member_view h (m_node m) = Returns (m_key m).
Proof. intros M. unfold member_view. rewrite (mem_children _ _ _ _ M). cbn. apply M. Qed.
Lemma member_back_value n m v : member_ok h n m v -> member_back h (m_node m) = Returns v.
Proof. intros M. unfold member_back. by rewrite (mem_children _ _ _ _ M). Qed.

Definition members_of (n : Node) (ms : list (Mem * jdoc)) : Prop :=
  Forall (fun p => member_ok h n p.1 (droot p.2)) ms.

Lemma insert_member_mem n x l : member_ok h n x.1 (droot x.2) -> members_of n l ->
  insert_member h (m_node x.1) ((fun p => m_node p.1) <$> l) = Returns ((fun p => m_node p.1) <$> insert_mem x l).
Proof.
  intros Mx. induction 1 as [|y l My _ IH]; [done|]. cbn [fmap list_fmap insert_member insert_mem].
  rewrite (member_view_key n y.1 _ My), (member_view_key n x.1 _ Mx). cbn [mbind outcome_bind].
  destruct (string_ltb _ _); [|done]. by rewrite IH.
Qed.
Lemma members_of_perm n l k : l ≡ₚ k -> members_of n l -> members_of n k.
Proof. unfold members_of. by intros ->. Qed.
Lemma sort_members_mems n ms : members_of n ms ->
  sort_members h ((fun p => m_node p.1) <$> ms) = Returns ((fun p => m_node p.1) <$> sort_mems ms).
Proof.
  induction 1 as [|x ms Mx Hms IH]; [done|]. cbn [fmap list_fmap sort_members]. rewrite IH. cbn [mbind outcome_bind].
  rewrite (insert_member_mem n); [done|done|]. apply (members_of_perm n ms); [|done]. by rewrite sort_mems_perm.
Qed.

(** * Comparisons *)

(** The comparison of two documents with a fuel decides their sameness. *)
Definition decides (fuel : nat) (a b : jdoc) : Prop := exists r,
  value_equal h fuel (droot a) (droot b) = Returns r /\ (r = true <-> same_value (value a) (value b)).

Lemma elements_decide fuel ds : forall es, length ds = length es ->
  (forall d e, d ∈ ds -> e ∈ es -> decides fuel d e) ->
  exists r, elements_equal (value_equal h fuel) (droot <$> ds) (droot <$> es) = Returns r
    /\ (r = true <-> Forall2 same_value (value <$> ds) (value <$> es)).
Proof.
  induction ds as [|d ds IH]; intros [|e es] Hl Hd; try done; cbn [fmap list_fmap elements_equal].
  { exists true. split; [done|]. split; [constructor|done]. }
  destruct (Hd d e) as (r & -> & Hr); [left|left|]. cbn [mbind outcome_bind]. destruct r.
  - destruct (IH es) as (r & -> & Hr'); [by injection Hl|intros; apply Hd; by right|]. exists r. split; [done|].
    rewrite Hr'. split; [|by inversion 1]. intros Hf. constructor; [by apply Hr|done].
  - exists false. split; [done|]. split; [done|]. inversion 1; subst. by apply Hr.
Qed.

Definition same_member (p q : Mem * jdoc) : Prop :=
  m_key p.1 = m_key q.1 /\ same_value (value p.2) (value q.2).

Lemma members_decide fuel n n' ms : forall ns, length ms = length ns -> members_of n ms -> members_of n' ns ->
  (forall p q, p ∈ ms -> q ∈ ns -> decides fuel p.2 q.2) ->
  exists r, members_equal h (value_equal h fuel) ((fun p => m_node p.1) <$> ms) ((fun p => m_node p.1) <$> ns) = Returns r
    /\ (r = true <-> Forall2 same_member ms ns).
Proof.
  induction ms as [|p ms IH]; intros [|q ns] Hl Hm Hn Hd; try done; cbn [fmap list_fmap members_equal].
  { exists true. split; [done|]. split; [constructor|done]. }
  apply Forall_cons in Hm as [Mp Hm]. apply Forall_cons in Hn as [Mq Hn].
  rewrite (member_view_key n p.1 _ Mp), (member_view_key n' q.1 _ Mq). cbn [mbind outcome_bind].
  destruct (list_eqb (m_key p.1) (m_key q.1)) eqn:Ek; cbn [negb].
  - apply list_eqb_eq in Ek. rewrite (member_back_value n p.1 _ Mp), (member_back_value n' q.1 _ Mq). cbn [mbind outcome_bind].
    destruct (Hd p q) as (r & -> & Hr); [left|left|]. cbn [mbind outcome_bind]. destruct r.
    + destruct (IH ns) as (r & -> & Hr'); [by injection Hl|done|done|intros; apply Hd; by right|]. exists r. split; [done|].
      rewrite Hr'. split; [|by inversion 1]. intros Hf. constructor; [|done]. split; [done|by apply Hr].
    + exists false. split; [done|]. split; [done|]. inversion 1 as [|? ? ? ? [_ Hs] ?]; subst. by apply Hr.
  - exists false. split; [done|]. split; [done|]. inversion 1 as [|? ? ? ? [Hk _] ?]; subst.
    by rewrite (proj2 (list_eqb_eq _ _) Hk) in Ek.
Qed.

(** Sorted members agree pairwise where the objects have the same members. *)
Lemma sorted_same ms ns : NoDup ((fun p => m_key p.1) <$> ms) -> NoDup ((fun p => m_key p.1) <$> ns) ->
  Forall2 same_member (sort_mems ms) (sort_mems ns) <->
  length ms = length ns /\ forall k v, (k, v) ∈ member_value <$> ms ->
    exists w, (k, w) ∈ member_value <$> ns /\ same_value v w.
Proof.
  intros Hm Hn. split.
  - intros Hf. split; [rewrite <-(sort_mems_perm ms), <-(sort_mems_perm ns); by eapply Forall2_length|].
    intros k v (p & [= -> ->] & Hp)%list_elem_of_fmap. rewrite <-(sort_mems_perm ms) in Hp.
    apply list_elem_of_lookup in Hp as [i Hi]. destruct (Forall2_lookup_l _ _ _ _ _ Hf Hi) as (q & Hq & Hk & Hv).
    exists (value q.2). split; [|done]. rewrite Hk. apply (list_elem_of_fmap_2 member_value). rewrite <-(sort_mems_perm ns).
    by eapply list_elem_of_lookup_2.
  - intros [Hl Hkv].
    assert (Hkeys : (fun p => m_key p.1) <$> ms ≡ₚ (fun p => m_key p.1) <$> ns).
    { apply submseteq_length_Permutation; [|rewrite !length_fmap; lia]. apply NoDup_submseteq; [done|].
      intros k (p & -> & Hp)%list_elem_of_fmap.
      destruct (Hkv (m_key p.1) (value p.2)) as (w & (q & [= Hk _] & Hq)%list_elem_of_fmap & _).
      - by apply (list_elem_of_fmap_2 member_value).
      - rewrite Hk. by apply (list_elem_of_fmap_2 (fun p : Mem * jdoc => m_key p.1)). }
    apply sort_texts_eq in Hkeys. rewrite <-!sort_mems_keys in Hkeys.
    apply Forall2_same_length_lookup. split.
    { apply (f_equal length) in Hkeys. by rewrite !length_fmap in Hkeys. }
    intros i p q Hp Hq. assert (Hk : m_key p.1 = m_key q.1).
    { apply (f_equal (fun l => l !! i)) in Hkeys. rewrite !list_lookup_fmap, Hp, Hq in Hkeys. by injection Hkeys. }
    split; [done|]. apply list_elem_of_lookup_2 in Hp, Hq. rewrite sort_mems_perm in Hp, Hq.
    destruct (Hkv (m_key p.1) (value p.2)) as (w & (q' & [= Hk' ->] & Hq')%list_elem_of_fmap & Hs).
    { by apply (list_elem_of_fmap_2 member_value). }
    assert (q = q') as ->; [|done].
    apply list_elem_of_lookup in Hq as [j1 H1]. apply list_elem_of_lookup in Hq' as [j2 H2].
    assert (j1 = j2) as ->; [|congruence]. apply (NoDup_lookup _ j1 j2 (m_key q.1) Hn); rewrite list_lookup_fmap.
    + by rewrite H1.
    + rewrite H2. cbn. congruence.
Qed.

(** Values of different kinds differ. *)
Lemma doc_kind d : stored h d ->
  match d with
  | DLeaf _ t s => type_of h (droot d) = t /\ t <> Object /\ t <> Array /\ t <> Token.Top
      /\ view (location_of h (droot d)) = Returns s
  | DArr _ _ => type_of h (droot d) = Array
  | DObj _ _ => type_of h (droot d) = Object
  end.
Proof.
  destruct d as [n t s|n ds|n ms]; cbn [droot].
  - intros [L1 L2 L3 L4 L5]%stored_leaf_inv. split; [done|]. split_and!; try done;
      intros ->; unfold scalar_tokens in L3; rewrite !elem_of_cons in L3;
      destruct L3 as [L3|[L3|[L3|[L3|[L3|[]%elem_of_nil]]]]]; discriminate L3.
  - intros [A _]%stored_arr_inv. apply A.
  - intros [O _]%stored_obj_inv. apply O.
Qed.

Lemma same_kinds v w : same_value v w ->
  match v, w with
  | JLeaf t _, JLeaf t' _ => t = t'
  | JArr _, JArr _ | JObj _, JObj _ => True
  | _, _ => False
  end.
Proof. by destruct 1. Qed.

Lemma equal_false fuel a b : stored h a -> stored h b -> ~ same_value (value a) (value b) ->
  type_of h (droot a) <> type_of h (droot b) -> decides (S fuel) a b.
Proof.
  intros Ha Hb Hn Ht. exists false. cbn [value_equal]. rewrite (proj2 (token_eqb_neq _ _) Ht). by split.
Qed.

Lemma leaf_decides fuel n t s b : stored h (DLeaf n t s) -> stored h b ->
  comparable (JLeaf t s) = true -> comparable (value b) = true -> decides (S fuel) (DLeaf n t s) b.
Proof.
  intros Ha Hb Ca Cb. pose proof (doc_kind _ Ha) as (Ta & To & Tr & Tp & Va). pose proof (doc_kind b Hb) as Kb.
  destruct b as [n' t' s'|n' es|n' ns].
  - destruct Kb as (Tb & _ & _ & _ & Vb). destruct (decide (t = t')) as [<-|Hne].
    + unfold decides. cbn [value_equal]. rewrite Ta, Tb, (proj2 (token_eqb_eq t t) eq_refl). cbn [negb].
      rewrite (proj2 (token_eqb_neq _ _) To), (proj2 (token_eqb_neq _ _) Tr), (proj2 (token_eqb_neq _ _) Tp).
      destruct (token_eqb t Number) eqn:En.
      * apply token_eqb_eq in En as ->. rewrite Va, Vb. cbn [mbind outcome_bind]. cbn in Ca, Cb. unfold in_range in *.
        destruct (stod s) as [x1| |] eqn:E1; [|done..]. destruct (stod s') as [x2| |] eqn:E2; [|done..]. cbn [mbind outcome_bind].
        exists (double_eqb x1 x2). split; [done|]. split.
        -- intros Hd. by apply (same_number s s' x1 x2).
        -- inversion 1 as [? ? Hne|? ? y1 y2 F1 F2 F3| |]; subst; congruence.
      * apply token_eqb_neq in En. unfold location_eq. rewrite Va, Vb. cbn [mbind outcome_bind].
        eexists. split; [reflexivity|]. rewrite list_eqb_eq. split; [intros ->; by constructor|].
        cbn [value]. by inversion 1.
    + apply equal_false; [done|done| |congruence]. intros Hs%same_kinds. done.
  - apply equal_false; [done|done|by intros ?%same_kinds|congruence].
  - apply equal_false; [done|done|by intros ?%same_kinds|congruence].
Qed.

Lemma value_equal_decides a : forall fuel b, (height (tree_of a) <= fuel)%nat -> stored h a -> stored h b ->
  comparable (value a) = true -> comparable (value b) = true -> decides fuel a b.
Proof.
  induction a as [n t s|n ds IH|n ms IH] using jdoc_ind'; intros [|fuel] b Hh Ha Hb Ca Cb;
    try (cbn [tree_of height] in Hh; lia).
  - by apply leaf_decides.
  - pose proof (doc_kind _ Ha) as Ta. pose proof (doc_kind b Hb) as Kb. destruct b as [n' t' s'|n' es|n' ns].
    + destruct Kb as (Tb & _ & ? & _). apply equal_false; [done|done|by intros ?%same_kinds|congruence].
    + apply stored_arr_inv in Ha as [A Has]. apply stored_arr_inv in Hb as [B Hbs].
      unfold decides. cbn [value_equal]. rewrite Ta, Kb. change (token_eqb Array Array) with true.
      change (token_eqb Array Object) with false. cbn [negb]. unfold array_equal.
      cbn [droot]. rewrite (arr_children _ _ _ A), (arr_children _ _ _ B), !length_fmap.
      destruct (Nat.eqb_spec (length ds) (length es)) as [El|El]; cbn [negb].
      * destruct (elements_decide fuel ds es El) as (r & -> & Hr).
        -- intros d e Hd He. cbn in Ca, Cb. apply (proj1 (Forall_forall _ _) IH d Hd).
           ++ pose proof (height_arr n ds d Hd). lia.
           ++ exact (proj1 (Forall_forall _ _) Has d Hd).
           ++ exact (proj1 (Forall_forall _ _) Hbs e He).
           ++ apply forallb_forall with (x := value d) in Ca; [done|]. apply list_elem_of_In. by apply list_elem_of_fmap_2.
           ++ apply forallb_forall with (x := value e) in Cb; [done|]. apply list_elem_of_In. by apply list_elem_of_fmap_2.
        -- exists r. split; [done|]. rewrite Hr. split; [by constructor|]. by inversion 1.
      * exists false. split; [done|]. split; [done|]. inversion 1 as [| |? ? Hf|]; subst.
        apply Forall2_length in Hf. by rewrite !length_fmap in Hf.
    + apply equal_false; [done|done|by intros ?%same_kinds|by rewrite Ta, Kb].
  - pose proof (doc_kind _ Ha) as Ta. pose proof (doc_kind b Hb) as Kb. destruct b as [n' t' s'|n' es|n' ns].
    + destruct Kb as (Tb & ? & _). apply equal_false; [done|done|by intros ?%same_kinds|congruence].
    + apply equal_false; [done|done|by intros ?%same_kinds|by rewrite Ta, Kb].
    + apply stored_obj_inv in Ha as [O Has]. apply stored_obj_inv in Hb as [P Hbs].
      assert (Hm : members_of n ms) by (apply Forall_forall; intros p Hp; by apply (obj_member _ _ _ _ O)).
      assert (Hn : members_of n' ns) by (apply Forall_forall; intros p Hp; by apply (obj_member _ _ _ _ P)).
      cbn [value comparable] in Ca, Cb. apply andb_true_iff in Ca as [Ka Ca]. apply andb_true_iff in Cb as [Kb' Cb].
      apply bool_decide_eq_true in Ka, Kb'. rewrite <-list_fmap_compose in Ka, Kb'.
      unfold decides. cbn [value_equal]. rewrite Ta, Kb. change (token_eqb Object Object) with true.
      cbn [negb]. unfold object_equal. cbn [droot].
      rewrite (obj_children_of _ _ _ O), (obj_children_of _ _ _ P), !length_fmap.
      destruct (Nat.eqb_spec (length ms) (length ns)) as [El|El]; cbn [negb].
      * rewrite (sort_members_mems n ms Hm), (sort_members_mems n' ns Hn). cbn [mbind outcome_bind].
        destruct (members_decide fuel n n' (sort_mems ms) (sort_mems ns)) as (r & -> & Hr).
        -- by rewrite !sort_mems_perm.
        -- apply (members_of_perm n ms); [by rewrite sort_mems_perm|done].
        -- apply (members_of_perm n' ns); [by rewrite sort_mems_perm|done].
        -- intros p q. rewrite !sort_mems_perm. intros Hp Hq. apply (proj1 (Forall_forall _ _) IH p Hp).
           ++ pose proof (height_obj n ms p Hp). lia.
           ++ exact (proj1 (Forall_forall _ _) Has p Hp).
           ++ exact (proj1 (Forall_forall _ _) Hbs q Hq).
           ++ apply forallb_forall with (x := member_value p) in Ca; [done|]. apply list_elem_of_In. by apply (list_elem_of_fmap_2 member_value).
           ++ apply forallb_forall with (x := member_value q) in Cb; [done|]. apply list_elem_of_In. by apply (list_elem_of_fmap_2 member_value).
        -- exists r. split; [done|]. rewrite Hr, (sorted_same ms ns Ka Kb'). split.
           ++ intros [Hl Hkv]. constructor; [by rewrite !length_fmap|exact Hkv].
           ++ cbn [value]. inversion 1 as [| | |? ? _ Hkv]; subst. by split.
      * exists false. split; [done|]. split; [done|]. cbn [value]. inversion 1 as [| | |? ? Hl _]; subst.
        by rewrite !length_fmap in Hl.
Qed.
End Equal.

(** [json::equal] *)
Lemma equal_decides h a b : stored h a -> NoDup (dnodes a) -> stored h b ->
  comparable (value a) = true -> comparable (value b) = true ->
  exists r, equal h (droot a) (droot b) = Returns r /\ (r = true <-> same_value (value a) (value b)).
Proof. intros Ha Hd Hb Ca Cb. apply value_equal_decides; try done. by apply doc_size. Qed.

(** * The comparison of a [test]: equality decides it, and the message of its failure can be
    written, whether the tables of the values were built or not. *)

(** The tables of a document can be searched, and find members of the object only. *)
Inductive tame (h : heap) : jdoc -> Prop :=
  | tame_leaf n t s : tame h (DLeaf n t s)
  | tame_arr n ds : Forall (tame h) ds -> tame h (DArr n ds)
  | tame_obj n ms : table_at h n -> (forall s, entries h n s ⊆ (fun p => m_node p.1) <$> ms) ->
      Forall (fun p => tame h p.2) ms -> tame h (DObj n ms).

Lemma tame_arr_inv h n ds : tame h (DArr n ds) <-> Forall (tame h) ds.
Proof. split; [by inversion 1|by constructor]. Qed.
Lemma tame_obj_inv h n ms : tame h (DObj n ms) <-> table_at h n /\
  (forall s, entries h n s ⊆ (fun p => m_node p.1) <$> ms) /\ Forall (fun p => tame h p.2) ms.
Proof. split; [by inversion 1|by intros (? & ? & ?); constructor]. Qed.

Lemma indexed_tame h d : indexed h d -> tame h d.
Proof.
  induction d as [n t s|n ds IH|n ms IH] using jdoc_ind'; [constructor|..].
  - rewrite indexed_arr_inv, tame_arr_inv. intros Hi. apply Forall_forall. intros d Hd.
    apply (proj1 (Forall_forall _ _) IH d Hd). exact (proj1 (Forall_forall _ _) Hi d Hd).
  - rewrite indexed_obj_inv, tame_obj_inv. intros (Ht & He & Hi). split_and!; [done| |].
    + intros s x. rewrite He. intros (p & -> & Hp)%list_elem_of_fmap. apply list_elem_of_filter in Hp as [_ Hp].
      by apply (list_elem_of_fmap_2 (fun p : Mem * jdoc => m_node p.1)).
    + apply Forall_forall. intros p Hp. apply (proj1 (Forall_forall _ _) IH p Hp).
      exact (proj1 (Forall_forall _ _) Hi p Hp).
Qed.

Lemma bare_tame h d : (forall m st, m ∈ dnodes d -> symtab_of h m = Some st -> symbols st = []) -> tame h d.
Proof.
  induction d as [n t s|n ds IH|n ms IH] using jdoc_ind'; intros Hb; [constructor|..].
  - apply tame_arr_inv, Forall_forall. intros d Hd. apply (proj1 (Forall_forall _ _) IH d Hd).
    intros m st Hm. apply Hb, dnodes_arr. right. by exists d.
  - pose proof (fun st => Hb n st (droot_in (DObj n ms))) as Hn. apply tame_obj_inv. split_and!.
    + intros st Hst. rewrite (Hn st Hst). by split; constructor.
    + intros s x. unfold entries. destruct (symtab_of h n) as [st|]; [|by intros ?%elem_of_nil].
      rewrite (Hn st eq_refl). by intros ?%elem_of_nil.
    + apply Forall_forall. intros p Hp. apply (proj1 (Forall_forall _ _) IH p Hp).
      intros m st Hm. apply Hb, dnodes_obj. right. exists p. split; [done|]. apply dnodes_member. by right; right.
Qed.

Lemma tame_same h h' d : (forall n, n ∈ dnodes d -> symtab_of h' n = symtab_of h n) -> tame h d -> tame h' d.
Proof.
  induction d as [n t s|n ds IH|n ms IH] using jdoc_ind'; intros He; [by constructor|..].
  - rewrite !tame_arr_inv. intros Hi. apply Forall_forall. intros d Hd.
    apply (proj1 (Forall_forall _ _) IH d Hd); [|exact (proj1 (Forall_forall _ _) Hi d Hd)].
    intros m Hm. apply He, dnodes_arr. right. by exists d.
  - rewrite !tame_obj_inv. intros (Hta & Hn & Hi).
    destruct (same_table h h' n (He n (droot_in (DObj n ms)))) as [T1 T2]. split_and!; [by apply T1| |].
    + intros s. by rewrite T2.
    + apply Forall_forall. intros p Hp. apply (proj1 (Forall_forall _ _) IH p Hp); [|exact (proj1 (Forall_forall _ _) Hi p Hp)].
      intros m Hm. apply He, dnodes_obj. right. exists p. split; [done|]. apply dnodes_member. by right; right.
Qed.

(** * A document with such tables can be written *)

Section Total.
Context (c : WfContexts) (h : heap) (settings : WriteSettings).
#[local] Abbreviation cj := (wf_context c json_wf).

Definition can_write (fuel : nat) (d : jdoc) : Prop := forall indent, (height (tree_of d) <= fuel)%nat ->
  stored h d -> tame h d -> exists s, write_value fuel cj h settings indent (droot d) = Returns s.

Lemma write_elements_total fuel ni size ds : forall i,
  (forall d, d ∈ ds -> exists s, write_value fuel cj h settings ni (droot d) = Returns s) ->
  exists s, write_elements settings (write_value fuel cj h settings) ni size (droot <$> ds) i = Returns s.
Proof.
  induction ds as [|d ds IH]; intros i Hd; cbn [fmap list_fmap write_elements]; [by eexists|].
  destruct (Hd d ltac:(left)) as (s & ->). destruct (IH (i + 1)) as (s' & ->); [intros; apply Hd; by right|].
  by eexists.
Qed.

Lemma write_members_total fuel n ni size ms l : forall i,
  (forall p, p ∈ ms -> member_ok h n p.1 (droot p.2)) ->
  (forall p, p ∈ ms -> exists s, write_value (S fuel) cj h settings ni (droot p.2) = Returns s) ->
  l ⊆ (fun p => m_node p.1) <$> ms ->
  exists s, write_members cj h settings (write_value (S fuel) cj h settings) ni size l i = Returns s.
Proof.
  intros i Hm Hw. revert i. induction l as [|x l IH]; intros i Hl; cbn [write_members]; [by eexists|].
  destruct (proj1 (list_elem_of_fmap _ _ _) (Hl x ltac:(left))) as (p & -> & Hp). pose proof (Hm p Hp) as M.
  rewrite (json_field_key c h n p.1 _ M). cbn [mbind outcome_bind lookup_node].
  rewrite (write_key c h settings fuel ni n p.1 _ M). cbn [mbind outcome_bind].
  pose proof (json_field_value c h n p.1 _ M) as Hv. unfold json_field in Hv. rewrite Hv. cbn [mbind outcome_bind lookup_node].
  destruct (Hw p Hp) as (s & ->). cbn [mbind outcome_bind].
  destruct (IH (i + 1)) as (s' & ->); [|by eexists]. intros y Hy. apply Hl. by right.
Qed.

Lemma lookdown_tame n ms key : obj_ok h n (with_root <$> ms) -> tame h (DObj n ms) -> viewable key ->
  exists l, lookdown h n key = Returns l /\ l ⊆ (fun p => m_node p.1) <$> ms.
Proof.
  intros O (Ht & He & _)%tame_obj_inv Hk. unfold lookdown, get_symbols_at. destruct (obj_symtab _ _ _ O) as [st Hst].
  rewrite Hst. destruct (symbols_find_entry (symbols st) key (Ht _ Hst) Hk) as (r & -> & Hr). cbn [mbind outcome_bind].
  assert (Hl : default [] r ⊆ (fun p => m_node p.1) <$> ms).
  { rewrite Hr. specialize (He (text key)). unfold entries in He. by rewrite Hst in He. }
  destruct r as [l|]; [|exists []; split; [done|by intros x ?%elem_of_nil]]. cbn in Hl.
  exists l. split; [|done]. apply copy_if_all. intros x Hx.
  destruct (proj1 (list_elem_of_fmap _ _ _) (Hl x Hx)) as (p & -> & Hp).
  by rewrite (mem_type _ _ _ _ (obj_member _ _ _ _ O Hp)).
Qed.

Lemma object_members_total n ms : stored h (DObj n ms) -> tame h (DObj n ms) ->
  exists l, object_members cj h settings n = Returns l /\ l ⊆ (fun p => m_node p.1) <$> ms.
Proof.
  intros Hs Ht. pose proof Hs as [O _]%stored_obj_inv. unfold object_members. rewrite (obj_children_of _ _ _ O).
  destruct (sort_keys settings); [|by eexists].
  destruct (member_keys_texts c h n ms) as (ls & -> & Hl).
  { apply Forall_forall. intros p Hp. by apply (obj_member _ _ _ _ O). }
  cbn [mbind outcome_bind]. destruct (sort_locations_texts _ _ Hl) as (ls' & -> & Hl'). cbn [mbind outcome_bind].
  clear Hl. induction Hl' as [|x k ls1 ks Hx _ IH]; cbn [key_defs]; [exists []; split; [done|by intros y ?%elem_of_nil]|].
  destruct (lookdown_tame n ms x O Ht) as (l1 & -> & H1); [by apply located_key_text in Hx as [? _]|].
  destruct IH as (l2 & -> & H2). eexists. split; [reflexivity|]. intros y [Hy|Hy]%elem_of_app; auto.
Qed.

Lemma write_doc_total d : forall fuel, can_write fuel d.
Proof.
  induction d as [n t s|n ds IH|n ms IH] using jdoc_ind'; intros [|fuel] indent Hh Hs Ht;
    try (cbn [tree_of height] in Hh; lia).
  - exists s. apply (write_doc c h settings (DLeaf n t s) (S fuel) indent); [done|done|constructor].
  - cbn [write_value droot]. pose proof Hs as [A Hss]%stored_arr_inv. rewrite (arr_type _ _ _ A).
    change (token_in scalar_tokens Array) with false. change (token_eqb Array Key) with false.
    change (token_eqb Array Object) with false. change (token_eqb Array Array) with true. cbn match.
    unfold write_array. rewrite (arr_children _ _ _ A).
    assert (E : forall ni size, exists s, write_elements settings (write_value fuel cj h settings) ni size (droot <$> ds) 0 = Returns s).
    { intros ni size. apply write_elements_total. intros d Hd. apply (proj1 (Forall_forall _ _) IH d Hd).
      - pose proof (height_arr n ds d Hd). lia.
      - exact (proj1 (Forall_forall _ _) Hss d Hd).
      - apply tame_arr_inv in Ht. exact (proj1 (Forall_forall _ _) Ht d Hd). }
    destruct (droot <$> ds) as [|x xs]; [by eexists|]. cbn match.
    destruct (E (indent ++ settings_indent settings) (size_of (x :: xs))) as (s & ->). by eexists.
  - cbn [write_value droot]. pose proof Hs as [O Hss]%stored_obj_inv. rewrite (obj_type _ _ _ O).
    change (token_in scalar_tokens Object) with false. change (token_eqb Object Key) with false.
    change (token_eqb Object Object) with true. cbn match. unfold write_object.
    destruct (object_members_total n ms Hs Ht) as (l & El & Hl). rewrite El. cbn [mbind outcome_bind].
    rewrite (obj_children_of _ _ _ O). destruct ms as [|p0 ms0] eqn:Ems; [by eexists|]. rewrite <-Ems in *.
    assert (Hlt : forall p, p ∈ ms -> (S (height (tree_of p.2)) <= fuel)%nat).
    { intros p Hp. pose proof (height_obj n ms p Hp). lia. }
    destruct fuel as [|fuel]. { pose proof (Hlt p0 ltac:(rewrite Ems; left)). lia. }
    destruct (write_members_total fuel n (indent ++ settings_indent settings)
                (size_of ((fun p => m_node p.1) <$> ms)) ms l 0) as (s & Es); [| |done|].
    + intros p Hp. by apply (obj_member _ _ _ _ O).
    + intros p Hp. apply (proj1 (Forall_forall _ _) IH p Hp).
      * pose proof (Hlt p Hp). lia.
      * exact (proj1 (Forall_forall _ _) Hss p Hp).
      * apply tame_obj_inv in Ht as (_ & _ & Ht). exact (proj1 (Forall_forall _ _) Ht p Hp).
    + revert Es. destruct ((fun p : Mem * jdoc => m_node p.1) <$> ms); intros Es; [by eexists|]. rewrite Es. by eexists.
Qed.

Lemma to_string_total d pp sk ind : stored h d -> NoDup (dnodes d) -> tame h d ->
  settings = mkWriteSettings pp sk ind -> exists s, to_string c h (droot d) pp sk ind = Returns s.
Proof. intros Hs Hd Ht Es. unfold to_string. rewrite <-Es. apply write_doc_total; [by apply doc_size|done|done]. Qed.
End Total.

(** * [compare] *)

Section Compare.
Context (c : WfContexts) (id : positive).

Lemma compare_docs h a b : stored h a -> NoDup (dnodes a) -> stored h b -> NoDup (dnodes b) ->
  tame h a -> tame h b -> comparable (value a) = true -> comparable (value b) = true ->
  (same_value (value a) (value b) /\ compare c id h (droot a) (droot b) = Returns (droot a, h))
  \/ (~ same_value (value a) (value b) /\ fails h (compare c id h (droot a) (droot b))).
Proof.
  intros Ha Hda Hb Hdb Ta Tb Ca Cb. destruct (equal_decides h a b Ha Hda Hb Ca Cb) as (r & E & Hr).
  unfold compare. rewrite (proj2 (token_eqb_neq _ _) (doc_root_unmarked h a Ha)), E. cbn [mbind outcome_bind].
  destruct r; cbn [negb]; [left; split; [by apply Hr|done]|right].
  split; [intros Hs; by apply Hr in Hs|].
  destruct (to_string_total c h (mkWriteSettings false true default_indent) a false true default_indent Ha Hda Ta eq_refl) as (s1 & ->).
  destruct (to_string_total c h (mkWriteSettings false true default_indent) b false true default_indent Hb Hdb Tb eq_refl) as (s2 & ->).
  cbn [mbind outcome_bind]. by apply err_doc.
Qed.

(** A copy has tables that find nothing. *)
Lemma clone_tame h w : stored h w -> NoDup (dnodes w) ->
  exists w' h2, clone_node h (droot w) = Returns (droot w', h2) /\ h ⊆ h2 /\ stored h2 w'
    /\ NoDup (dnodes w') /\ value w' = value w /\ tame h2 w' /\ (forall m, m ∈ dnodes w' -> h !! m = None).
Proof.
  intros Hw Hd. destruct (clone_doc h w Hw Hd) as (w' & h2 & E & [C1 C2 C3 C4 C5 C6 C7 C8]).
  exists w', h2. split_and!; try done. by apply bare_tame.
Qed.
End Compare.
