(* ===== verification/JsonDecode.v ===== *)
(** JSON patches: what [select] finds, what the operations of a patch do to the document, and
    what a sequence of operations does. *)
From S2P Require Import Prelude.
From S2P Require Import Token.
From S2P Require Import Source.
From S2P Require Import Ast.
From S2P Require Import AstFacts.
From S2P Require Import Wellformed.
From S2P Require Import WfOps.
From S2P Require Import WfBuild.
From S2P Require Import Cursor.
From S2P Require Import JsonParse.
From S2P Require Import JsonWriter.
From S2P Require Import JsonDoc.
From S2P Require Import CloneFacts.
From S2P Require Import JsonValue.
From S2P Require Import JsonSpec.
From S2P Require Import JsonEdits.
From S2P Require Import JsonBuild.
From S2P Require Import JsonCompare.
From stdpp Require Export gmap.
#[local] Set Warnings "-register-all".
Open Scope Z_scope.

(** * The edits of values (RFC 6902) *)

(** The edit of the container at all keys but the last *)
Fixpoint edit_at (f : list Z -> json -> option json) (ks : list (list Z)) (v : json) : option json :=
  match ks with
  | [] => None
  | k :: rest =>
      match rest with
      | [] => f k v
      | _ :: _ => c ← child k v; c' ← edit_at f rest c; replace_child k c' v
      end
  end.

Lemma edit_at_snoc f pre k v : edit_at f (pre ++ [k]) v = update (f k) pre v.
Proof.
  revert v. induction pre as [|k0 pre IH]; intros v; [done|]. cbn [app edit_at update].
  destruct (pre ++ [k]) as [|k1 rest] eqn:E; [by destruct pre|]. destruct (child k0 v) as [x|]; [|done].
  cbn [mbind option_bind]. by rewrite IH.
Qed.

(** What the keys of an insertion ask of the container they reach *)
Fixpoint insert_keys (ks : list (list Z)) (v : json) : bool :=
  match ks with
  | [] => true
  | k :: rest =>
      match rest with
      | [] => insert_key k v
      | _ :: _ => match child k v with Some c => insert_keys rest c | None => true end
      end
  end.

Lemma insert_keys_snoc pre k v : insert_keys (pre ++ [k]) v = insert_safe JsonDoc.Insert pre k v.
Proof.
  unfold insert_safe. revert v. induction pre as [|k0 pre IH]; intros v; [done|]. cbn [app insert_keys resolve].
  destruct (pre ++ [k]) as [|k1 rest] eqn:E; [by destruct pre|].
  destruct (child k0 v) as [x|]; [|done]. cbn [mbind option_bind]. by rewrite IH.
Qed.

Definition keys_safe (action : Action) (ks : list (list Z)) (v : json) : bool :=
  safe_path ks v && match action with JsonDoc.Insert => insert_keys ks v | _ => true end.

(** The whole document is replaced at the empty pointer, which cannot be removed. *)
Definition edit_value (action : Action) (ks : list (list Z)) (w v : json) : option json :=
  match ks, action with
  | [], (JsonDoc.Insert | Replace) => Some w
  | [], _ => None
  | _ :: _, _ => edit_at (fun k => action_value action k w) ks v
  end.

(** * [Operation] *)

(** A location whose text is a pointer *)
Record pointer_at (path : Location) (ks : list (list Z)) : Prop := {
  pt_ok : location_ok path;
  pt_view : view path = Returns (text path);
  pt_len : len path = Z.of_nat (length (text path));
  pt_keys : parse_pointer (text path) = Some ks
}.

Lemma pointer_keys id h path ks : pointer_at path ks ->
  exists locs, new_pointer id h path = Returns (mkPointer locs path None, h) /\ Forall2 located_key locs ks.
Proof.
  intros [P1 P2 P3 P4]. pose proof (new_pointer_spec id h path (text path) P1 P2 P3) as Hp.
  rewrite P4 in Hp. exact Hp.
Qed.

(** An invalid pointer is an error. *)
Lemma operation_invalid c id h path action mv n : location_ok path -> view path = Returns (text path) ->
  len path = Z.of_nat (length (text path)) -> parse_pointer (text path) = None ->
  fails h (operation c id h path action mv n).
Proof.
  intros P1 P2 P3 P4. pose proof (new_pointer_spec id h path (text path) P1 P2 P3) as Hp.
  rewrite P4 in Hp. destruct Hp as (locs & e & h' & E & S & T). unfold operation. rewrite E. cbn. by exists e, h'.
Qed.

Lemma snoc_cases {A} (l : list A) : l = [] \/ exists pre x, l = pre ++ [x].
Proof. induction l as [|x l _] using rev_ind; [by left|right; eauto]. Qed.

(** The keys of a pointer that is not empty: the loop runs over all but the last. *)
Lemma operation_run c id h path action mv n pre k : pointer_at path (pre ++ [k]) ->
  exists locs loc, Forall2 located_key locs pre /\ located_key loc k
    /\ operation c id h path action mv n = run_list c id h action mv n locs loc.
Proof.
  intros P. destruct (pointer_keys id h path _ P) as (ls & E & Hl).
  apply Forall2_app_inv_r in Hl as (locs & l2 & Hl & Hk & ->).
  apply Forall2_cons_inv_r in Hk as (loc & l3 & Hk & Hn & ->). apply Forall2_nil_inv_r in Hn as ->.
  exists locs, loc. split_and!; [done|done|]. unfold operation. rewrite E. cbn [mbind outcome_bind m_error keys].
  by destruct locs as [|l locs].
Qed.

Section Operation.
Context (c : WfContexts) (id : positive) (h : heap) (d : jdoc).
Context (Hs : stored h d) (Hd : NoDup (dnodes d)).

(** [select]: the part of the document the pointer names, or an error *)
Lemma read_operation path ks : indexed_on h ks d -> pointer_at path ks -> safe_path ks (value d) = true ->
  match resolve ks (value d) with
  | Some v => exists y, operation c id h path Read None (droot d) = Returns (droot y, h)
      /\ stored h y /\ NoDup (dnodes y) /\ value y = v
  | None => fails h (operation c id h path Read None (droot d))
  end.
Proof.
  intros Hi P Hsafe. destruct (snoc_cases ks) as [->|(pre & k & ->)].
  - cbn [resolve]. destruct (pointer_keys id h path [] P) as (ls & E & ->%Forall2_nil_inv_r).
    exists d. unfold operation. rewrite E. by split_and!.
  - destruct (operation_run c id h path Read None (droot d) pre k P) as (locs & loc & Hl & Hk & ->).
    by apply run_read.
Qed.

(** An edit of the part of the document the pointer names, or an error *)
Lemma edit_operation path ks action w : indexed_on h ks d -> pointer_at path ks -> ks <> [] -> edit_action action = true ->
  stored h w -> NoDup (dnodes w) -> keys_safe action ks (value d) = true ->
  edited h d (edit_value action ks (value w) (value d))
    (operation c id h path action (Some (droot w)) (droot d)).
Proof.
  intros Hi P Hne Ha Hw Hwd [Hsafe Hins]%andb_true_iff. destruct (snoc_cases ks) as [->|(pre & k & ->)]; [done|].
  destruct (operation_run c id h path action (Some (droot w)) (droot d) pre k P) as (locs & loc & Hl & Hk & ->).
  assert (Ev : edit_value action (pre ++ [k]) (value w) (value d) = update (action_value action k (value w)) pre (value d)).
  { rewrite <-(edit_at_snoc (fun k => action_value action k (value w))). by destruct pre. }
  rewrite Ev. apply run_edit; try done.
  destruct action; [|done..]. by rewrite <-insert_keys_snoc.
Qed.
End Operation.

(** * [Compare] *)

Lemma child_comparable k v x : comparable v = true -> child k v = Some x -> comparable x = true.
Proof.
  destruct v as [t s|vs|ms]; cbn; [done| |].
  - intros Hc. destruct (index_text k) as [i|]; [|done]. cbn. intros Hx%list_elem_of_lookup_2.
    apply forallb_forall with (x := x) in Hc; [done|]. by apply list_elem_of_In.
  - intros [_ Hc]%andb_true_iff. destruct (list_find (named k) ms) as [[i p]|] eqn:E; [|done]. intros [= <-].
    apply list_find_Some in E as (E & _ & _). apply list_elem_of_lookup_2 in E.
    apply forallb_forall with (x := p) in Hc; [done|]. by apply list_elem_of_In.
Qed.
Lemma resolve_comparable ks : forall v x, comparable v = true -> resolve ks v = Some x -> comparable x = true.
Proof.
  induction ks as [|k ks IH]; intros v x Hc; cbn; [by intros [= <-]|].
  destruct (child k v) as [y|] eqn:E; [|done]. cbn. apply IH. by apply (child_comparable k v).
Qed.

(** What a comparison with [w] returns where the pointer names [v], if it names anything *)
Definition passes (h : heap) (r : outcome (Node * heap)) : Prop :=
  exists n h', r = Returns (n, h') /\ h ⊆ h' /\ type_of h' n <> Error.
Definition tested (h : heap) (v : option json) (w : json) (r : outcome (Node * heap)) : Prop :=
  match v with
  | Some v => (same_value v w /\ passes h r) \/ (~ same_value v w /\ fails h r)
  | None => fails h r
  end.

Section Test.
Context (c : WfContexts) (id : positive) (h : heap) (w : jdoc).
Context (Hw : stored h w) (Hwd : NoDup (dnodes w)) (Hwt : tame h w) (Hwc : comparable (value w) = true).

Lemma compare_tested a : stored h a -> NoDup (dnodes a) -> tame h a -> comparable (value a) = true ->
  tested h (Some (value a)) (value w) (compare c id h (droot a) (droot w)).
Proof.
  intros Ha Hd Ht Hc. destruct (compare_docs c id h a w) as [[Hs E]|[Hs E]]; [done..| |]; [left|right]; split; try done.
  exists (droot a), h. split_and!; [done|done|by apply doc_root_unmarked].
Qed.

(** Elements are compared with a copy. *)
Lemma compare_clone a : stored h a -> NoDup (dnodes a) -> tame h a -> comparable (value a) = true ->
  tested h (Some (value a)) (value w)
    ('(copy, h) ← clone_value h (Some (droot w)); compare c id h (droot a) copy).
Proof.
  intros Ha Hd Ht Hc. unfold clone_value. cbn [or_undefined mbind outcome_bind].
  destruct (clone_tame h w Hw Hwd) as (w' & h2 & -> & S2 & Hw' & Hwd' & Hv & Ht' & _). cbn [mbind outcome_bind].
  assert (Ha2 : stored h2 a) by by apply (stored_subset h).
  assert (Ht2 : tame h2 a).
  { apply (tame_same h); [|done]. intros n Hn. apply same_symtab, subset_same; [done|by apply (stored_some h a)]. }
  destruct (compare_docs c id h2 a w') as [[Hs E]|[Hs E]]; [done..|by rewrite Hv| |]; rewrite Hv in Hs; [left|right]; (split; [done|]).
  - rewrite E. exists (droot a), h2. split_and!; [done|done|by apply doc_root_unmarked].
  - by apply (fails_subset h h2).
Qed.

Lemma dstep_tame k x g y : tame h x -> dstep k x = Some (g, y) -> tame h y.
Proof.
  intros Ht E%dstep_fill. subst x. destruct g as [n l r|n l m r]; cbn [fill] in Ht.
  - apply tame_arr_inv in Ht. apply (proj1 (Forall_forall _ _) Ht). apply elem_of_app. right. left.
  - apply tame_obj_inv in Ht as (_ & _ & Ht). apply (proj1 (Forall_forall _ _) Ht (m, y)). apply elem_of_app. right. left.
Qed.

Lemma last_compare x key k : stored h x -> NoDup (dnodes x) -> tame h x -> comparable (value x) = true ->
  located_key key k -> finds_at h x k -> match x with DArr _ _ => safe_key k = true | _ => True end ->
  tested h (child k (value x)) (value w) (run_keys c id h Compare (Some (droot w)) (droot x) key []).
Proof.
  intros Hs Hd Ht Hc Hk Hf Hsafe. rewrite vstep_child, dstep_value. cbn [run_keys]. rewrite (doc_container h x Hs).
  pose proof (fun g y => dstep_stored h k x g y Hs Hd) as Hy. pose proof (fun g y => dstep_tame k x g y Ht) as Hty.
  assert (Hcy : forall g y, dstep k x = Some (g, y) -> comparable (value y) = true).
  { intros g y E. apply (child_comparable k (value x)); [done|]. by rewrite vstep_child, dstep_value, E. }
  destruct x as [n t s|n ds|n ms]; cbn [negb droot dstep] in *.
  - by apply (err_doc h (DLeaf n t s)).
  - pose proof Hs as [A Hss]%stored_arr_inv. rewrite (arr_type _ _ _ A). change (token_eqb Array Object) with false.
    cbn match. unfold array_action. pose proof (array_lookup_spec id h n ds key k 0 A Hk Hsafe) as Hl.
    destruct (index_text k) as [i|]; cbn [mbind option_bind default] in *; [destruct (ds !! i) as [y|] eqn:E|];
      cbn [mbind option_bind fmap option_fmap option_map snd] in *.
    + rewrite Hl. cbn [mbind outcome_bind andb]. destruct (Hy _ y eq_refl) as [Hys Hyd].
      rewrite (proj2 (token_eqb_neq _ _) (doc_root_unmarked h y Hys)). apply compare_clone; [done|done|by eapply Hty|by eapply Hcy].
    + destruct Hl as (e & j & h1 & -> & S1 & T & _). cbn [mbind outcome_bind andb].
      rewrite T, (proj2 (token_eqb_eq Error Error) eq_refl). by exists e, h1.
    + destruct Hl as (e & j & h1 & -> & S1 & T & _). cbn [mbind outcome_bind andb].
      rewrite T, (proj2 (token_eqb_eq Error Error) eq_refl). by exists e, h1.
  - pose proof Hs as [O Hss]%stored_obj_inv. rewrite (obj_type _ _ _ O), (proj2 (token_eqb_eq Object Object) eq_refl).
    unfold object_action. rewrite (lookdown_finds h n ms key k O Hf Hk). cbn [mbind outcome_bind].
    pose proof (filter_find (key_is k) ms) as Hff.
    destruct (list_find (key_is k) ms) as [[i p]|] eqn:E; cbn [mbind option_bind fmap option_fmap option_map snd] in *.
    + destruct Hff as [rest ->]. cbn [fmap list_fmap]. destruct (Hy _ p.2 eq_refl) as [Hys Hyd].
      apply list_find_Some in E as (E & _ & _). apply list_elem_of_lookup_2 in E.
      rewrite (json_field_value c h n p.1 (droot p.2) (obj_member _ _ _ _ O E)). cbn [mbind outcome_bind or_undefined lookup_node].
      apply compare_tested; [done|done|by eapply Hty|by eapply Hcy].
    + rewrite Hff. cbn [fmap list_fmap mbind outcome_bind]. by apply (missing_fails id h (DObj n ms) key k).
Qed.

Lemma plug_tame gs x : tame h (dplug gs x) -> tame h x.
Proof.
  induction gs as [|g gs IH] using rev_ind; [done|]. rewrite dplug_snoc. intros Ht. apply IH.
  destruct g as [n l r|n l m r]; cbn [fill] in Ht.
  - apply tame_arr_inv in Ht. apply (proj1 (Forall_forall _ _) Ht). apply elem_of_app. right. left.
  - apply tame_obj_inv in Ht as (_ & _ & Ht). apply (proj1 (Forall_forall _ _) Ht (m, dplug gs x)). apply elem_of_app. right. left.
Qed.

Lemma test_operation d path ks : stored h d -> NoDup (dnodes d) -> indexed h d -> comparable (value d) = true ->
  pointer_at path ks -> safe_path ks (value d) = true ->
  tested h (resolve ks (value d)) (value w) (operation c id h path Compare (Some (droot w)) (droot d)).
Proof.
  intros Hs Hd Hi Hc P Hsafe. pose proof (indexed_tame h d Hi) as Ht. destruct (snoc_cases ks) as [->|(pre & k & ->)].
  - destruct (pointer_keys id h path [] P) as (ls & E & ->%Forall2_nil_inv_r). unfold operation. rewrite E.
    cbn [mbind outcome_bind m_error keys or_undefined resolve]. by apply compare_tested.
  - destruct (operation_run c id h path Compare (Some (droot w)) (droot d) pre k P) as (locs & loc & Hl & Hk & ->).
    pose proof (run_walk c id h Compare (Some (droot w)) loc k pre locs d Hl Hk Hs Hd (indexed_path h _ d Hs Hi) Hsafe) as Hrun.
    rewrite resolve_snoc. assert (Hx : forall x, resolve pre (value d) = Some x -> comparable x = true) by (intros; by eapply resolve_comparable).
    rewrite vwalk_resolve, dwalk_value in Hx |- *.
    destruct (dwalk pre d) as [[gs x]|] eqn:E; cbn [fmap option_fmap option_map mbind option_bind snd] in *; [|exact Hrun].
    destruct Hrun as (-> & Hsx & Hdx & Hf & Hsk). apply dwalk_plug in E as ->.
    apply last_compare; [done|done|by eapply plug_tame|by apply Hx|done..].
Qed.
End Test.

(** * [move]: what is taken out stays whole, and the tables that were not rebuilt still answer
    along every path that does not lead through the place it was taken from. *)

(** * A part taken out *)

Definition dremove (k : list Z) (x : jdoc) : option (jdoc * jdoc) :=
  match x with
  | DLeaf _ _ _ => None
  | DArr n ds => i ← index_text k; y ← ds !! i; Some (y, DArr n (take i ds ++ drop (S i) ds))
  | DObj n ms => '(i, p) ← list_find (key_is k) ms; Some (p.2, DObj n (take i ms ++ drop (S i) ms))
  end.

Lemma dremove_value k x : remove_child k (value x) = (fun p : jdoc * jdoc => value p.2) <$> dremove k x
  /\ child k (value x) = (fun p : jdoc * jdoc => value p.1) <$> dremove k x.
Proof.
  destruct x as [n t s|n ds|n ms]; [done| |]; cbn [value remove_child child dremove].
  - destruct (index_text k) as [i|]; [|done]. cbn [mbind option_bind]. rewrite list_lookup_fmap.
    destruct (ds !! i) as [y|]; [|done]. cbn [fmap option_fmap option_map mbind option_bind fst snd value].
    by rewrite fmap_app, fmap_take, fmap_drop.
  - change (fun p => (m_key p.1, value p.2)) with member_value. rewrite list_find_members.
    destruct (list_find (key_is k) ms) as [[i p]|]; [|done].
    cbn [fmap option_fmap option_map prod_map mbind option_bind fst snd value]. split; [|done].
    change (fun p => (m_key p.1, value p.2)) with member_value. by rewrite fmap_app, fmap_take, fmap_drop.
Qed.

(** The store after it: only the list of the container changed. *)
Record taken (h h' : heap) (x x' y : jdoc) : Prop := {
  tk_edits : edits h h' x x';
  tk_same m : m <> droot x -> h' !! m = h !! m;
  tk_tables m : symtab_of h' m = symtab_of h m;
  tk_stored : stored h y;
  tk_nodup : NoDup (dnodes y);
  tk_inside m : m ∈ dnodes y -> m ∈ dnodes x /\ m <> droot x
}.

Lemma taken_alter h n f x x' y : edits h (alter (with_children f) n h) x x' -> droot x = n -> stored h y ->
  NoDup (dnodes y) -> (forall m, m ∈ dnodes y -> m ∈ dnodes x /\ m <> droot x) ->
  taken h (alter (with_children f) n h) x x' y.
Proof.
  intros He <- Hy Hd Hin. split; try done.
  - intros m Hm. by rewrite lookup_alter_ne.
  - intros m. unfold symtab_of, node_at. destruct (decide (droot x = m)) as [<-|Hm]; [|by rewrite lookup_alter_ne].
    rewrite lookup_alter_eq. by destruct (h !! droot x).
Qed.

Section Take.
Context (c : WfContexts) (id : positive) (h : heap).

Definition takes (x : jdoc) (r : outcome (Node * heap)) (v : option (jdoc * jdoc)) : Prop :=
  match v with
  | Some (y, x') => exists h', r = Returns (droot y, h') /\ taken h h' x x' y
  | None => fails h r
  end.

Lemma array_take mv n ds key k : stored h (DArr n ds) -> NoDup (dnodes (DArr n ds)) -> located_key key k ->
  safe_key k = true -> takes (DArr n ds) (array_action c id h Remove mv n key) (dremove k (DArr n ds)).
Proof.
  intros Hs Hd Hk Hsafe. pose proof Hs as [A Hss]%stored_arr_inv. unfold array_action.
  pose proof (array_lookup_spec id h n ds key k 0 A Hk Hsafe) as Hl. cbn [dremove].
  assert (Hfail : lookup_fails h ds k (array_lookup id h n key 0) -> fails h (
    '(element, index, h) ← array_lookup id h n key 0;
    (if false && (index =? size_of (children_of h n)) then
      '(copy, h) ← clone_value h mv; v ← or_undefined mv; Returns (v, push_back h n (Some copy))
    else if token_eqb (type_of h element) Error then Returns (element, h)
    else (h ← replace h n element None; Returns (element, h))))).
  { intros (e & j & h1 & -> & S1 & T & _). cbn [mbind outcome_bind andb].
    rewrite T, (proj2 (token_eqb_eq Error Error) eq_refl). by exists e, h1. }
  destruct (index_text k) as [i|]; cbn [mbind option_bind default] in *; [|by apply Hfail].
  destruct (ds !! i) as [y|] eqn:E; cbn [mbind option_bind takes] in *; [|by apply Hfail].
  rewrite Hl. cbn [mbind outcome_bind andb]. pose proof (list_elem_of_lookup_2 _ _ _ E) as Hin.
  pose proof (proj1 (Forall_forall _ _) Hss y Hin) as Hsy. rewrite (proj2 (token_eqb_neq _ _) (doc_root_unmarked h y Hsy)).
  assert (Eds : ds = take i ds ++ y :: drop (S i) ds) by by rewrite take_drop_middle.
  pose proof Hs as Hs1. pose proof Hd as Hd1. rewrite Eds in Hs1, Hd1.
  destruct (element_remove h h n ltac:(done) _ _ _ Hs1 Hd1) as (f & -> & Ed). rewrite <-Eds in Ed.
  cbn [mbind outcome_bind]. eexists. split; [reflexivity|]. apply taken_alter; [done|done|done| |].
  - by apply (nodup_fill (HArr n (take i ds) (drop (S i) ds)) y).
  - intros m Hm. split; [apply dnodes_arr; right; by exists y|]. intros ->. rewrite dnodes_arr_eq in Hd.
    apply NoDup_cons in Hd as [Hd _]. apply Hd, elem_of_concat_map. by exists y.
Qed.

Lemma object_take mv n ms key k : stored h (DObj n ms) -> NoDup (dnodes (DObj n ms)) -> located_key key k ->
  finds h n ms k -> takes (DObj n ms) (object_action c id h Remove mv n key) (dremove k (DObj n ms)).
Proof.
  intros Hs Hd Hk Hf. pose proof Hs as [O Hss]%stored_obj_inv. unfold object_action.
  rewrite (lookdown_finds h n ms key k O Hf Hk). cbn [mbind outcome_bind dremove].
  pose proof (filter_find (key_is k) ms) as Hff.
  destruct (list_find (key_is k) ms) as [[i p]|] eqn:E; cbn [mbind option_bind takes].
  - destruct Hff as [rest ->]. cbn [fmap list_fmap]. apply list_find_Some in E as (E & _ & _).
    pose proof (list_elem_of_lookup_2 _ _ _ E) as Hin.
    rewrite (json_field_value c h n p.1 (droot p.2) (obj_member _ _ _ _ O Hin)). cbn [mbind outcome_bind lookup_node].
    assert (Ems : ms = take i ms ++ p :: drop (S i) ms) by by rewrite take_drop_middle.
    pose proof Hs as Hs1. pose proof Hd as Hd1. rewrite Ems in Hs1, Hd1.
    destruct (member_remove h n _ _ _ Hs1 Hd1) as (f & -> & Ed). rewrite <-Ems in Ed.
    cbn [mbind outcome_bind]. eexists. split; [reflexivity|]. apply taken_alter; [done|done| | |].
    + exact (proj1 (Forall_forall _ _) Hss p Hin).
    + rewrite (surjective_pairing p) in Hd1.
      by apply (nodup_fill (HObj n (take i ms) p.1 (drop (S i) ms)) p.2).
    + intros m Hm. assert (Hmp : m ∈ nodes (member_tree p)) by (apply dnodes_member; by right; right).
      split; [apply dnodes_obj; right; by exists p|]. intros ->. rewrite dnodes_obj_eq in Hd.
      apply NoDup_cons in Hd as [Hd _]. apply Hd, elem_of_concat_map. by exists p.
  - rewrite Hff. cbn [fmap list_fmap mbind outcome_bind]. by apply (missing_fails id h (DObj n ms) key k).
Qed.

Lemma last_take mv x key k : stored h x -> NoDup (dnodes x) -> located_key key k ->
  finds_at h x k -> match x with DArr _ _ => safe_key k = true | _ => True end ->
  takes x (run_keys c id h Remove mv (droot x) key []) (dremove k x).
Proof.
  intros Hs Hd Hk Hf Hsafe. cbn [run_keys]. rewrite (doc_container h x Hs).
  destruct x as [n t s|n ds|n ms]; cbn [negb droot].
  - by apply (err_doc h (DLeaf n t s)).
  - pose proof Hs as [A _]%stored_arr_inv. rewrite (arr_type _ _ _ A). change (token_eqb Array Object) with false.
    cbn match. by apply array_take.
  - pose proof Hs as [O _]%stored_obj_inv. rewrite (obj_type _ _ _ O), (proj2 (token_eqb_eq Object Object) eq_refl).
    by apply object_take.
Qed.

Lemma taken_plug h' gs x x' y : stored h (dplug gs x) -> NoDup (dnodes (dplug gs x)) -> taken h h' x x' y ->
  edits h h' (dplug gs x) (dplug gs x').
Proof. intros Hs Hd T. apply edits_plug; [done..|]. apply T. Qed.

(** [Remove]: the part that was taken, and the document without it *)
Lemma take_operation mv path d pre k : stored h d -> NoDup (dnodes d) -> indexed_on h (pre ++ [k]) d ->
  pointer_at path (pre ++ [k]) -> safe_path (pre ++ [k]) (value d) = true ->
  match dwalk pre d with
  | Some (gs, x) =>
      match dremove k x with
      | Some (y, x') => exists h', operation c id h path Remove mv (droot d) = Returns (droot y, h')
          /\ taken h h' x x' y /\ edits h h' d (dplug gs x')
      | None => fails h (operation c id h path Remove mv (droot d))
      end
  | None => fails h (operation c id h path Remove mv (droot d))
  end.
Proof.
  intros Hs Hd Hi P Hsafe.
  destruct (operation_run c id h path Remove mv (droot d) pre k P) as (locs & loc & Hl & Hk & ->).
  pose proof (run_walk c id h Remove mv loc k pre locs d Hl Hk Hs Hd Hi Hsafe) as Hrun.
  destruct (dwalk pre d) as [[gs x]|] eqn:E; [|exact Hrun]. destruct Hrun as (-> & Hsx & Hdx & Hf & Hsk).
  apply dwalk_plug in E as ->. pose proof (last_take mv x loc k Hsx Hdx Hk Hf Hsk) as Ht.
  destruct (dremove k x) as [[y x']|]; [|exact Ht]. destruct Ht as (h' & -> & T). exists h'.
  split_and!; [done|done|by eapply taken_plug].
Qed.
End Take.

(** * Indices have one text *)

Lemma decimal_value_cons x k : decimal_value (x :: k) = (x - 48) * 10 ^ Z.of_nat (length k) + decimal_value k.
Proof. unfold decimal_value at 1. cbn [foldl]. apply decimal_value_app. Qed.

Lemma decimal_value_inj k : forall k', length k = length k' -> forallb is_digit k = true ->
  forallb is_digit k' = true -> decimal_value k = decimal_value k' -> k = k'.
Proof.
  induction k as [|x k IH]; intros [|y k'] Hl Hd Hd' Hv; try done. injection Hl as Hl. cbn [forallb] in Hd, Hd'.
  apply andb_true_iff in Hd as [Hx Hd]. apply andb_true_iff in Hd' as [Hy Hd'].
  pose proof (decimal_value_bound k Hd) as B. pose proof (decimal_value_bound k' Hd') as B'.
  rewrite !decimal_value_cons in Hv. rewrite <-Hl in *. assert (Hxy : x = y) by nia. subst y. f_equal.
  apply IH; [done|done|done|lia].
Qed.

Lemma index_text_long k i : index_text k = Some i -> forallb is_digit k = true /\ k <> []
  /\ Z.of_nat i = decimal_value k /\ ((2 <= length k)%nat -> 10 ^ Z.of_nat (length k - 1) <= decimal_value k).
Proof.
  unfold index_text. destruct k as [|x k]; [done|].
  destruct ((x =? 48) && (1 <? length (x :: k))%nat) eqn:Ez; [done|]. destruct (forallb is_digit (x :: k)) eqn:Ed; [|done].
  intros [= <-]. pose proof (decimal_value_bound _ Ed) as B. split_and!; [done|done|lia|]. intros Hl.
  apply andb_false_iff in Ez as [Ez|Ez]; [|apply Nat.ltb_ge in Ez; cbn in *; lia]. apply Z.eqb_neq in Ez.
  cbn [forallb] in Ed. apply andb_true_iff in Ed as [Hx Hd]. unfold is_digit in Hx.
  pose proof (decimal_value_bound k Hd). rewrite decimal_value_cons. cbn [length].
  replace (S (length k) - 1)%nat with (length k) by lia. nia.
Qed.

Lemma index_text_inj k k' i : index_text k = Some i -> index_text k' = Some i -> k = k'.
Proof.
  intros (D1 & N1 & V1 & L1)%index_text_long (D2 & N2 & V2 & L2)%index_text_long.
  pose proof (decimal_value_bound k D1) as B1. pose proof (decimal_value_bound k' D2) as B2.
  assert (Hle : forall a b : list Z, b <> [] -> (length a < length b)%nat ->
    10 ^ Z.of_nat (length a) <= 10 ^ Z.of_nat (length b - 1)).
  { intros a b _ H. apply Z.pow_le_mono_r; lia. }
  apply decimal_value_inj; [|done|done|lia].
  destruct (lt_eq_lt_dec (length k) (length k')) as [[H|H]|H]; [|done|].
  - pose proof (Hle k k' N2 H). assert (2 <= length k')%nat by (destruct k; [done|cbn in *; lia]). specialize (L2 ltac:(done)). lia.
  - pose proof (Hle k' k N1 H). assert (2 <= length k)%nat by (destruct k'; [done|cbn in *; lia]). specialize (L1 ltac:(done)). lia.
Qed.

(** * The tables after it *)

(** The table of an object finds the same nodes under a key when the members that have it are the
    same. *)
Lemma finds_same h h' n ms ms' k : symtab_of h' n = symtab_of h n -> finds h n ms k ->
  (fun p : Mem * jdoc => m_node p.1) <$> filter (key_is k) ms = (fun p : Mem * jdoc => m_node p.1) <$> filter (key_is k) ms' ->
  finds h' n ms' k.
Proof. intros Hst (st & E & Hf) Hm. exists st. rewrite Hst. split; [done|]. intros loc Hl. rewrite <-Hm. by apply Hf. Qed.

Section Tables.
Context (h h' : heap) (Htab : forall m, symtab_of h' m = symtab_of h m).

Lemma indexed_after d : indexed h d -> indexed h' d.
Proof. by apply indexed_same. Qed.

Lemma dstep_indexed k x g y : indexed h x -> dstep k x = Some (g, y) -> indexed h y.
Proof.
  intros Ht E%dstep_fill. subst x. destruct g as [n l r|n l m r]; cbn [fill] in Ht.
  - apply indexed_arr_inv in Ht. apply (proj1 (Forall_forall _ _) Ht). apply elem_of_app. right. left.
  - apply indexed_obj_inv in Ht as (_ & _ & Ht). apply (proj1 (Forall_forall _ _) Ht (m, y)). apply elem_of_app. right. left.
Qed.

(** At the container: any key but the one that was taken *)
Lemma removed_indexed_on k x y x' ks : stored h x -> indexed h x -> stored h' x' -> dremove k x = Some (y, x') ->
  head ks <> Some k -> indexed_on h' ks x'.
Proof.
  intros Hs Hi Hs' Hr Hne. destruct ks as [|k' ks]; [done|]. assert (Hk : k' <> k) by (intros ->; by apply Hne). clear Hne.
  destruct x as [n t s|n ds|n ms]; cbn [dremove] in Hr; [done| |].
  - destruct (index_text k) as [i|]; [|done]. cbn [mbind option_bind] in Hr. destruct (ds !! i) as [z|] eqn:Ez; [|done].
    injection Hr as -> <-. split; [done|]. destruct (dstep k' _) as [[g z]|] eqn:E; [|done].
    apply indexed_path; [|apply indexed_after].
    + apply dstep_fill in E. rewrite E in Hs'. by apply filled_stored in Hs'.
    + apply (dstep_indexed k' (DArr n (take i ds ++ drop (S i) ds)) g z); [|done].
      apply indexed_arr_inv. apply indexed_arr_inv in Hi. apply Forall_forall. intros d Hd.
      apply (proj1 (Forall_forall _ _) Hi d). apply elem_of_app in Hd as [Hd|Hd]; [by eapply subseteq_take|by eapply subseteq_drop].
  - destruct (list_find (key_is k) ms) as [[i p]|] eqn:Ef; [|done]. cbn [mbind option_bind] in Hr. injection Hr as <- <-.
    apply list_find_Some in Ef as (Ep & Hkp & _).
    assert (Ems : ms = take i ms ++ p :: drop (S i) ms) by by rewrite take_drop_middle. split.
    + apply (finds_same h h' n ms); [done|by apply (indexed_finds h (DObj n ms))|].
      rewrite Ems at 1. rewrite !filter_app, filter_cons. rewrite decide_False; [done|]. unfold key_is in *. congruence.
    + destruct (dstep k' _) as [[g z]|] eqn:E; [|done]. apply indexed_path; [|apply indexed_after].
      * apply dstep_fill in E. rewrite E in Hs'. by apply filled_stored in Hs'.
      * apply indexed_obj_inv in Hi as (_ & _ & Hi). cbn [dstep] in E.
        destruct (list_find (key_is k') _) as [[j q]|] eqn:Ef'; [|done]. injection E as _ <-.
        apply list_find_Some in Ef' as (Eq & _ & _). apply list_elem_of_lookup_2 in Eq.
        apply (proj1 (Forall_forall _ _) Hi q). apply elem_of_app in Eq as [Hd|Hd]; [by eapply subseteq_take|by eapply subseteq_drop].
Qed.

(** On the way to it *)
Lemma moved_indexed_on k x' y : forall pre d gs x ks, stored h d -> indexed h d ->
  dwalk pre d = Some (gs, x) -> dremove k x = Some (y, x') -> stored h' (dplug gs x') -> droot x' = droot x ->
  ~ (pre ++ [k]) `prefix_of` ks -> indexed_on h' ks (dplug gs x').
Proof.
  induction pre as [|k0 pre IH]; intros d gs x ks Hs Hi Hw Hr Hs' Hroot Hp.
  - injection Hw as <- <-. apply (removed_indexed_on k d y); try done. intros Hh. apply Hp.
    destruct ks as [|k1 ks]; [done|]. injection Hh as ->. apply prefix_cons, prefix_nil.
  - cbn [dwalk] in Hw. destruct (dstep k0 d) as [[g z]|] eqn:Ed; [|done].
    destruct (dwalk pre z) as [[gs' x0]|] eqn:Ew; [|done]. injection Hw as <- ->. rewrite dplug_snoc in *.
    destruct ks as [|k' ks]; [done|].
    pose proof (dstep_indexed k0 d g z Hi Ed) as Hiz. pose proof (dstep_fill _ _ _ _ Ed) as Efill.
    assert (Hsz : stored h z) by (rewrite Efill in Hs; by apply filled_stored in Hs).
    assert (Hsz' : stored h' (dplug gs' x')) by by apply filled_stored in Hs'.
    specialize (IH z gs' x ks Hsz Hiz Ew Hr Hsz' Hroot).
    destruct d as [n t s|n ds|n ms]; cbn [dstep] in Ed; [done| |].
    + destruct (index_text k0) as [i|] eqn:Ei; [|done]. cbn [mbind option_bind] in Ed.
      destruct (ds !! i) as [z0|] eqn:Ez; [|done]. injection Ed as <- ->. cbn [fill] in *. split; [done|].
      cbn [dstep]. destruct (index_text k') as [j|] eqn:Ej; [|done]. cbn [mbind option_bind].
      assert (Hlen : length (take i ds) = i) by (rewrite length_take; apply lookup_lt_Some in Ez; lia).
      destruct (_ !! j) as [e|] eqn:Ee; [|done]. cbn [mbind option_bind].
      destruct (decide (j = i)) as [->|Hji].
      * rewrite list_lookup_middle in Ee by done. injection Ee as <-. apply IH. intros Hpre.
        apply Hp. rewrite (index_text_inj k' k0 i Ej Ei). by apply prefix_cons.
      * assert (He : e ∈ ds).
        { rewrite lookup_app in Ee. destruct (take i ds !! j) as [e'|] eqn:E1.
          - injection Ee as ->. apply list_elem_of_lookup_2 in E1. by eapply subseteq_take.
          - rewrite Hlen in Ee. destruct (j - i)%nat as [|m] eqn:Em; [apply lookup_ge_None_1 in E1; lia|].
            cbn in Ee. apply list_elem_of_lookup_2 in Ee. by eapply subseteq_drop. }
        apply stored_arr_inv in Hs' as [_ Hs']. apply list_elem_of_lookup_2 in Ee.
        apply indexed_path; [exact (proj1 (Forall_forall _ _) Hs' e Ee)|]. apply indexed_after.
        apply indexed_arr_inv in Hi. exact (proj1 (Forall_forall _ _) Hi e He).
    + destruct (list_find (key_is k0) ms) as [[i p]|] eqn:Ef; [|done]. injection Ed as <- <-. cbn [fill] in *.
      pose proof Ef as (Ep & Hk0 & Hfirst)%list_find_Some.
      assert (Ems : ms = take i ms ++ p :: drop (S i) ms) by by rewrite take_drop_middle. split.
      * apply (finds_same h h' n ms); [done|by apply (indexed_finds h (DObj n ms))|].
        rewrite Ems at 1. rewrite !filter_app, !filter_cons, !fmap_app. unfold key_is. cbn [fst].
        by destruct (decide (m_key p.1 = k')).
      * cbn [dstep]. destruct (list_find (key_is k') _) as [[j q]|] eqn:Ef'; [|done]. cbn [mbind option_bind].
        apply list_find_Some in Ef' as (Eq & Hkq & _). pose proof (list_elem_of_lookup_2 _ _ _ Eq) as Hq.
        pose proof Hs' as [_ Hss']%stored_obj_inv. pose proof (proj1 (Forall_forall _ _) Hss' q Hq) as Hsq.
        apply elem_of_app in Hq as [Hq|[->|Hq]%elem_of_cons].
        -- apply indexed_path; [done|]. apply indexed_after. apply indexed_obj_inv in Hi as (_ & _ & Hi).
           apply (proj1 (Forall_forall _ _) Hi q). by eapply subseteq_take.
        -- apply IH. intros Hpre. apply Hp. assert (k' = k0) as -> by (unfold key_is in *; cbn in *; congruence).
           by apply prefix_cons.
        -- apply indexed_path; [done|]. apply indexed_after. apply indexed_obj_inv in Hi as (_ & _ & Hi).
           apply (proj1 (Forall_forall _ _) Hi q). by eapply subseteq_drop.
Qed.
End Tables.

(** * The operations of a patch: what each does to the document it is applied to. *)

(** * Changes of values (RFC 6902); pointers are texts. *)

Inductive change :=
  | CAdd (path : list Z) (w : json)
  | CRemove (path : list Z)
  | CReplace (path : list Z) (w : json)
  | CCopy (path from : list Z)
  | CMove (path from : list Z)
  | CTest (path : list Z) (w : json).

Definition removed (ks : list (list Z)) (v : json) : option json := edit_value Remove ks (JArr []) v.

Definition apply_change (ch : change) (v : json) : option json :=
  match ch with
  | CAdd p w => ks ← parse_pointer p; edit_value JsonDoc.Insert ks w v
  | CReplace p w => ks ← parse_pointer p; edit_value Replace ks w v
  | CRemove p => ks ← parse_pointer p; removed ks v
  | CCopy p from =>
      if list_eqb p from then Some v
      else fs ← parse_pointer from; x ← resolve fs v; ks ← parse_pointer p; edit_value JsonDoc.Insert ks x v
  | CMove p from =>
      if list_eqb p from then Some v
      else
        fs ← parse_pointer from; x ← resolve fs v; v' ← removed fs v;
        ks ← parse_pointer p; edit_value JsonDoc.Insert ks x v'
  | CTest _ _ => Some v
  end.
Definition test_holds (p : list Z) (w v : json) : Prop :=
  exists ks x, parse_pointer p = Some ks /\ resolve ks v = Some x /\ same_value x w.

(** Where the code does what the RFC says: usable array keys; a destination of [copy] and [move]
    that is not the root; and, for [move], one that is not inside what is moved. *)
Definition on_pointer (p : list Z) (f : list (list Z) -> bool) : bool :=
  match parse_pointer p with Some ks => f ks | None => true end.
Definition insert_ready (ks : list (list Z)) (v : json) : bool :=
  negb (bool_decide (ks = [])) && keys_safe JsonDoc.Insert ks v.
Definition change_safe (ch : change) (v : json) : bool :=
  match ch with
  | CAdd p _ => on_pointer p (fun ks => keys_safe JsonDoc.Insert ks v)
  | CReplace p _ | CRemove p | CTest p _ => on_pointer p (fun ks => safe_path ks v)
  | CCopy p from =>
      list_eqb p from || (on_pointer from (fun fs => safe_path fs v) && on_pointer p (fun ks => insert_ready ks v))
  | CMove p from =>
      list_eqb p from
      || on_pointer from (fun fs =>
           safe_path fs v
           && match removed fs v with
              | Some v' =>
                  on_pointer p (fun ks => insert_ready ks v' && negb (bool_decide (fs `prefix_of` ks)))
              | None => true
              end)
  end.

(** * The operations that stand for them *)

(** A location with a text *)
Record text_at (l : Location) (s : list Z) : Prop := {
  ta_ok : location_ok l;
  ta_view : view l = Returns s;
  ta_len : len l = Z.of_nat (length s)
}.
Lemma text_pointer l s ks : text_at l s -> parse_pointer s = Some ks -> pointer_at l ks.
Proof.
  intros [T1 T2 T3] Hk. assert (E : text l = s) by (unfold text; by rewrite T2).
  split; rewrite ?E; done.
Qed.
Lemma text_invalid c id h l s action mv n : text_at l s -> parse_pointer s = None ->
  fails h (operation c id h l action mv n).
Proof.
  intros [T1 T2 T3] Hk. assert (E : text l = s) by (unfold text; by rewrite T2).
  apply operation_invalid; rewrite ?E; done.
Qed.

(** A part of a document *)
Definition within (P w : jdoc) : Prop := exists gs, P = dplug gs w.

Lemma plug_stored h gs x : stored h (dplug gs x) -> stored h x.
Proof.
  induction gs as [|g gs IH] using rev_ind; [done|]. rewrite dplug_snoc. intros Hs. apply IH. by apply (filled_stored h g).
Qed.
Lemma plug_nodup gs x : NoDup (dnodes (dplug gs x)) -> NoDup (dnodes x).
Proof.
  induction gs as [|g gs IH] using rev_ind; [done|]. rewrite dplug_snoc. intros Hs. apply IH.
  by apply nodup_fill in Hs as (_ & ? & _).
Qed.
Lemma within_ok h P w : within P w -> stored h P -> NoDup (dnodes P) -> stored h w /\ NoDup (dnodes w).
Proof. intros [gs ->] Hs Hd. split; [by eapply plug_stored|by eapply plug_nodup]. Qed.

(** The operation reads a change whose value is a part of [P]. *)
Inductive op_is (P : jdoc) (op : Op) : change -> Prop :=
  | is_add p w : op_type op = OpAdd -> text_at (op_path op) p -> op_value op = Some (droot w) -> within P w ->
      op_is P op (CAdd p (value w))
  | is_remove p : op_type op = OpRemove -> text_at (op_path op) p -> op_is P op (CRemove p)
  | is_replace p w : op_type op = OpReplace -> text_at (op_path op) p -> op_value op = Some (droot w) -> within P w ->
      op_is P op (CReplace p (value w))
  | is_copy p from : op_type op = OpCopy -> text_at (op_path op) p -> text_at (op_from op) from ->
      op_is P op (CCopy p from)
  | is_move p from : op_type op = OpMove -> text_at (op_path op) p -> text_at (op_from op) from ->
      op_is P op (CMove p from)
  | is_test p w : op_type op = OpTest -> text_at (op_path op) p -> op_value op = Some (droot w) -> within P w ->
      op_is P op (CTest p (value w)).

(** * Documents that stay *)

(** A document beside the one that is edited *)
Record kept (h : heap) (d k : jdoc) : Prop := {
  kp_stored : stored h k;
  kp_nodup : NoDup (dnodes k);
  kp_apart n : n ∈ dnodes k -> n ∉ dnodes d
}.

Lemma kept_edits h h' d d' k : edits h h' d d' -> kept h d k -> kept h' d' k.
Proof.
  intros E [K1 K2 K3]. assert (Hs : forall n, n ∈ dnodes k -> is_Some (h !! n)) by by apply stored_some.
  assert (Hk : forall n, n ∈ dnodes k -> h' !! n = h !! n) by (intros n Hn; apply E; auto).
  split; [|done|].
  - apply (stored_keeps h); [done| | |done].
    + intros n Hn. by apply same_keeps, Hk.
    + intros n Hn _. unfold parent_of, node_at. by rewrite Hk.
  - intros n Hn Hd'. destruct (ed_nodes _ _ _ _ E n Hd') as [Hx|Hx]; [by apply (K3 n)|].
    destruct (Hs n Hn). congruence.
Qed.
Lemma kept_build h h' d k : indexing (dnodes d) h h' -> kept h d k -> kept h' d k.
Proof. intros [X1 X2] [K1 K2 K3]. split; [by apply (tables_stored h)|done|done]. Qed.
Lemma kept_fresh h h' d d' k : h ⊆ h' -> (forall n, n ∈ dnodes d' -> h !! n = None) -> kept h d k -> kept h' d' k.
Proof.
  intros Hs Hf [K1 K2 K3]. split; [by apply (stored_subset h)|done|]. intros n Hn Hx.
  destruct (stored_some h k K1 n Hn). rewrite Hf in H; done.
Qed.

(** An error; the other documents stay. *)
Definition errs (K : list jdoc) (r : outcome (Node * heap)) : Prop :=
  exists e h', r = Returns (e, h') /\ type_of h' e = Error /\ Forall (stored h') K.

(** The document became one with the value, and the others stay; or there is an error. *)
Definition changed (h : heap) (d : jdoc) (K : list jdoc) (v : option json) (r : outcome (Node * heap)) : Prop :=
  match v with
  | Some v => exists d' h', r = Returns (droot d', h') /\ stored h' d' /\ NoDup (dnodes d') /\ value d' = v
      /\ Forall (kept h' d') K
  | None => errs K r
  end.

Lemma fails_errs h d K r : Forall (kept h d) K -> fails h r -> errs K r.
Proof.
  intros HK (e & h' & -> & S & T). exists e, h'. split_and!; [done|done|].
  eapply Forall_impl; [exact HK|]. intros k [K1 K2 K3]. by apply (stored_subset h).
Qed.

Lemma changed_edited h d K v r : stored h d -> Forall (kept h d) K -> edited h d v r ->
  changed h d K v ('(result, h) ← r; Returns (error_or h result (droot d), h)).
Proof.
  intros Hs Hk. destruct v as [v|]; cbn [edited changed].
  - intros (n & h' & d' & -> & E & Hv & T). cbn [mbind outcome_bind]. unfold error_or.
    rewrite (proj2 (token_eqb_neq _ _) T). exists d', h'. split_and!; [|apply E|apply E|done|].
    + by rewrite (ed_root _ _ _ _ E).
    + eapply Forall_impl; [exact Hk|]. intros k. by apply kept_edits.
  - intros (e & h' & -> & S & T). cbn [mbind outcome_bind]. unfold error_or.
    rewrite T, (proj2 (token_eqb_eq Error Error) eq_refl). apply (fails_errs h d); [done|]. by exists e, h'.
Qed.

Lemma failed_result h d K r : Forall (kept h d) K -> fails h r -> errs K ('(result, h) ← r; Returns (error_or h result (droot d), h)).
Proof.
  intros HK (e & h' & -> & S & T). cbn [mbind outcome_bind]. unfold error_or.
  rewrite T, (proj2 (token_eqb_eq Error Error) eq_refl). apply (fails_errs h d); [done|]. by exists e, h'.
Qed.

(** [Remove] does not look at the value it was given. *)
Lemma remove_operation c id h path mv n : operation c id h path Remove mv n = operation c id h path Remove None n.
Proof.
  unfold operation. destruct (new_pointer id h path) as [[p h1]| |]; [|done..]. cbn [mbind outcome_bind].
  destruct (m_error p); [done|]. destruct (keys p) as [|key rest]; [done|].
  revert n key h1. induction rest as [|next rest IH]; intros n key h1; cbn [run_keys];
    (destruct (negb _); [done|]); destruct (token_eqb _ _); try done.
  - destruct (lookdown h1 n key) as [[|member ms]| |]; cbn [mbind outcome_bind]; try done.
    destruct (json_field c h1 member Value); cbn [mbind outcome_bind]; [apply IH|done..].
  - destruct (array_lookup id h1 n key 0) as [[[e j] h2]| |]; cbn [mbind outcome_bind]; try done.
    destruct (token_eqb _ _); [done|apply IH].
Qed.

Section Apply.
Context (c : WfContexts) (id : positive).

(** [add], [replace] *)
Lemma write_changed h d K op action p w P : stored h d -> NoDup (dnodes d) -> indexed h d -> Forall (kept h d) K ->
  P ∈ K -> text_at (op_path op) p -> op_value op = Some (droot w) -> within P w ->
  action = JsonDoc.Insert \/ action = Replace -> on_pointer p (fun ks => keys_safe action ks (value d)) = true ->
  changed h d K (ks ← parse_pointer p; edit_value action ks (value w) (value d)) (op_write c id h op action (droot d)).
Proof.
  intros Hs Hd Hi HK HP Hp Hv Hw Ha Hsafe. pose proof (proj1 (Forall_forall _ _) HK P HP) as [P1 P2 _].
  destruct (within_ok h P w Hw P1 P2) as [Hws Hwd]. unfold op_write. rewrite Hv.
  unfold on_pointer in Hsafe. pose proof Hp as [T1 T2 T3]. destruct (Z.eqb_spec (len (op_path op)) 0) as [E0|E0].
  - assert (p = []) as -> by (destruct p; [done|rewrite T3 in E0; cbn in E0; lia]).
    change (parse_pointer []) with (Some ([] : list (list Z))). cbn [mbind option_bind].
    assert (Ev : edit_value action [] (value w) (value d) = Some (value w)) by by destruct Ha as [->| ->].
    rewrite Ev. unfold clone_value. cbn [or_undefined mbind outcome_bind].
    destruct (clone_doc h w Hws Hwd) as (d' & h' & E & [C1 C2 C3 C4 C5 _ _ _]). rewrite E.
    exists d', h'. split_and!; try done. eapply Forall_impl; [exact HK|]. intros k. by apply kept_fresh.
  - destruct (parse_pointer p) as [ks|] eqn:Ep; cbn [mbind option_bind].
    + assert (Hne : ks <> []).
      { intros ->. destruct p as [|x p]; [by cbn in T3|]. unfold parse_pointer in Ep. cbn [length parse_keys] in Ep.
        destruct (x =? 47); [|done]. destruct (take_key p). destruct (unescape_key l); [|done]. by destruct (parse_keys _ _). }
      apply changed_edited; [done|done|]. apply edit_operation; try done.
      * by apply indexed_path.
      * by apply (text_pointer _ p).
      * by destruct Ha as [->| ->].
    + apply (failed_result h d); [done|]. by apply (text_invalid c id h (op_path op) p).
Qed.

(** [remove] *)
Lemma remove_changed h d K op p : stored h d -> NoDup (dnodes d) -> indexed h d -> Forall (kept h d) K ->
  text_at (op_path op) p -> on_pointer p (fun ks => safe_path ks (value d)) = true ->
  changed h d K (ks ← parse_pointer p; removed ks (value d))
    ('(result, h) ← operation c id h (op_path op) Remove (op_value op) (droot d);
     Returns (error_or h result (droot d), h)).
Proof.
  intros Hs Hd Hi HK Hp Hsafe. unfold on_pointer in Hsafe. destruct (parse_pointer p) as [ks|] eqn:Ep; cbn [mbind option_bind].
  - destruct (snoc_cases ks) as [->|(pre & k & ->)].
    + cbn [removed edit_value changed]. apply (failed_result h d); [done|]. unfold operation.
      destruct (pointer_keys id h (op_path op) []) as (ls & E & ->%Forall2_nil_inv_r); [by apply (text_pointer _ p)|].
      rewrite E. cbn [mbind outcome_bind m_error keys]. apply err_located.
    + rewrite (remove_operation c id h _ (op_value op)), <-(remove_operation c id h _ (Some (droot d))).
      assert (Ev : removed (pre ++ [k]) (value d) = edit_value Remove (pre ++ [k]) (value d) (value d)) by by destruct pre.
      rewrite Ev. apply changed_edited; [done|done|]. apply edit_operation; try done.
      * by apply indexed_path.
      * by apply (text_pointer _ p).
      * by destruct pre.
      * unfold keys_safe. by rewrite Hsafe.
  - apply (failed_result h d); [done|]. by apply (text_invalid c id h (op_path op) p).
Qed.

(** The insertion that ends [copy] and [move] *)
Lemma insert_changed h d K path p y v : stored h d -> NoDup (dnodes d) -> Forall (kept h d) K ->
  stored h y -> NoDup (dnodes y) -> value y = v -> text_at path p ->
  (forall ks, parse_pointer p = Some ks -> indexed_on h ks d) ->
  on_pointer p (fun ks => insert_ready ks (value d)) = true ->
  changed h d K (ks ← parse_pointer p; edit_value JsonDoc.Insert ks v (value d))
    ('(result, h) ← operation c id h path JsonDoc.Insert (Some (droot y)) (droot d);
     Returns (error_or h result (droot d), h)).
Proof.
  intros Hs Hd HK Hy Hyd <- Hp Hi Hsafe. unfold on_pointer in Hsafe.
  destruct (parse_pointer p) as [ks|] eqn:Ep; cbn [mbind option_bind].
  - unfold insert_ready in Hsafe. apply andb_true_iff in Hsafe as [Hne Hsafe].
    apply negb_true_iff, bool_decide_eq_false in Hne. apply changed_edited; [done|done|].
    apply edit_operation; try done; [by apply Hi|by apply (text_pointer _ p)].
  - apply (failed_result h d); [done|]. by apply (text_invalid c id h path p).
Qed.

(** [copy] *)
Lemma copy_changed h d K op p from : stored h d -> NoDup (dnodes d) -> indexed h d -> Forall (kept h d) K ->
  text_at (op_path op) p -> text_at (op_from op) from -> change_safe (CCopy p from) (value d) = true ->
  changed h d K (apply_change (CCopy p from) (value d)) (op_transfer c id h op Read (droot d)).
Proof.
  intros Hs Hd Hi HK Hp Hf Hsafe. unfold op_transfer, location_eq.
  rewrite (ta_view _ _ Hp), (ta_view _ _ Hf). cbn [mbind outcome_bind apply_change change_safe] in *.
  destruct (list_eqb p from); [by exists d, h|]. cbn [orb] in Hsafe. apply andb_true_iff in Hsafe as [Hsf Hsp].
  unfold on_pointer in Hsf. destruct (parse_pointer from) as [fs|] eqn:Ef; cbn [mbind option_bind].
  - pose proof (read_operation c id h d Hs Hd (op_from op) fs (indexed_path h fs d Hs Hi) (text_pointer _ _ _ Hf Ef) Hsf) as Hr.
    destruct (resolve fs (value d)) as [x|]; cbn [mbind option_bind].
    + destruct Hr as (y & -> & Hy & Hyd & Hyv). cbn [mbind outcome_bind].
      rewrite (proj2 (token_eqb_neq _ _) (doc_root_unmarked h y Hy)).
      apply insert_changed; try done. intros ks _. by apply indexed_path.
    + destruct Hr as (e & h' & -> & S & T). cbn [mbind outcome_bind].
      rewrite T, (proj2 (token_eqb_eq Error Error) eq_refl). apply (fails_errs h d); [done|]. by exists e, h'.
  - destruct (text_invalid c id h (op_from op) from Read None (droot d) Hf Ef) as (e & h' & -> & S & T).
    cbn [mbind outcome_bind]. rewrite T, (proj2 (token_eqb_eq Error Error) eq_refl).
    apply (fails_errs h d); [done|]. by exists e, h'.
Qed.

(** What is left, and what was taken, as values *)
Lemma taken_values pre k d : match dwalk pre d with
  | Some (gs, x) =>
      match dremove k x with
      | Some (y, x') => resolve (pre ++ [k]) (value d) = Some (value y)
          /\ removed (pre ++ [k]) (value d) = Some (value (dplug gs x'))
      | None => resolve (pre ++ [k]) (value d) = None
      end
  | None => resolve (pre ++ [k]) (value d) = None
  end.
Proof.
  assert (Ev : removed (pre ++ [k]) (value d) = update (remove_child k) pre (value d)).
  { change (update (remove_child k) pre (value d)) with (update (action_value Remove k (JArr [])) pre (value d)).
    rewrite <-(edit_at_snoc (fun k => action_value Remove k (JArr []))). by destruct pre. }
  rewrite Ev, vwalk_update, resolve_snoc, vwalk_resolve, dwalk_value. destruct (dwalk pre d) as [[gs x]|]; [|done].
  cbn [fmap option_fmap option_map mbind option_bind fst snd]. destruct (dremove_value k x) as [-> ->].
  destruct (dremove k x) as [[y x']|]; [|done]. cbn [fmap option_fmap option_map fst snd]. by rewrite dplug_value.
Qed.

(** [move] *)
Lemma move_changed h d K op p from : stored h d -> NoDup (dnodes d) -> indexed h d -> Forall (kept h d) K ->
  text_at (op_path op) p -> text_at (op_from op) from -> change_safe (CMove p from) (value d) = true ->
  changed h d K (apply_change (CMove p from) (value d)) (op_transfer c id h op Remove (droot d)).
Proof.
  intros Hs Hd Hi HK Hp Hf Hsafe. unfold op_transfer, location_eq.
  rewrite (ta_view _ _ Hp), (ta_view _ _ Hf). cbn [mbind outcome_bind apply_change change_safe] in *.
  destruct (list_eqb p from); [by exists d, h|]. cbn [orb] in Hsafe. unfold on_pointer at 1 in Hsafe.
  assert (Hfail : forall r, fails h r -> errs K ('(existing, h) ← r;
    if token_eqb (type_of h existing) Error then Returns (existing, h)
    else '(result, h) ← operation c id h (op_path op) JsonDoc.Insert (Some existing) (droot d);
         Returns (error_or h result (droot d), h))).
  { intros r (e & h' & -> & S & T). cbn [mbind outcome_bind]. rewrite T, (proj2 (token_eqb_eq Error Error) eq_refl).
    apply (fails_errs h d); [done|]. by exists e, h'. }
  destruct (parse_pointer from) as [fs|] eqn:Ef; cbn [mbind option_bind].
  2: { apply Hfail. by apply (text_invalid c id h (op_from op) from). }
  apply andb_true_iff in Hsafe as [Hsf Hsp]. destruct (snoc_cases fs) as [->|(pre & k & ->)].
  { cbn [resolve mbind option_bind removed edit_value]. apply Hfail. unfold operation.
    destruct (pointer_keys id h (op_from op) []) as (ls & E & ->%Forall2_nil_inv_r); [by apply (text_pointer _ from)|].
    rewrite E. cbn [mbind outcome_bind m_error keys]. apply err_located. }
  pose proof (take_operation c id h None (op_from op) d pre k Hs Hd (indexed_path h _ d Hs Hi) (text_pointer _ _ _ Hf Ef) Hsf) as Ht.
  pose proof (taken_values pre k d) as Hv. destruct (dwalk pre d) as [[gs x]|] eqn:Ew; [|rewrite Hv; by apply Hfail].
  destruct (dremove k x) as [[y x']|] eqn:Er; [|rewrite Hv; by apply Hfail]. destruct Hv as [-> Hr]. rewrite Hr in Hsp |- *.
  cbn [mbind option_bind]. destruct Ht as (h1 & -> & T & Ed). cbn [mbind outcome_bind]. pose proof T as [T1 T2 T3 T4 T5 T6].
  assert (Hy1 : stored h1 y).
  { apply (stored_keeps h); [done| | |done].
    - intros n Hn. apply same_keeps, T2. by apply T6.
    - intros n Hn _. unfold parent_of, node_at. rewrite T2; [done|]. by apply T6. }
  rewrite (proj2 (token_eqb_neq _ _) (doc_root_unmarked h1 y Hy1)).
  set (d1 := dplug gs x') in *. rewrite <-(ed_root _ _ _ _ Ed).
  assert (HK1 : Forall (kept h1 d1) K) by (eapply Forall_impl; [exact HK|]; intros k'; by apply kept_edits).
  assert (Hins : forall ks, parse_pointer p = Some ks -> indexed_on h1 ks d1).
  { intros ks Ep. unfold on_pointer in Hsp. rewrite Ep in Hsp. apply andb_true_iff in Hsp as [_ Hpre].
    apply negb_true_iff, bool_decide_eq_false in Hpre.
    apply (moved_indexed_on h h1 T3 k x' y pre d gs x ks); try done; [apply Ed|apply T1]. }
  assert (Hready : on_pointer p (fun ks => insert_ready ks (value d1)) = true).
  { unfold on_pointer in *. destruct (parse_pointer p); [|done]. by apply andb_true_iff in Hsp as [? _]. }
  pose proof (insert_changed h1 d1 K (op_path op) p y (value y) (ed_stored _ _ _ _ Ed) (ed_nodup _ _ _ _ Ed) HK1 Hy1 T5 eq_refl Hp Hins Hready) as Hc.
  exact Hc.
Qed.

(** [Op::apply] *)
Lemma apply_changed h d K op ch P : stored h d -> NoDup (dnodes d) -> indexed h d -> Forall (kept h d) K ->
  P ∈ K -> op_is P op ch -> op_type op <> OpTest -> change_safe ch (value d) = true ->
  changed h d K (apply_change ch (value d)) (op_apply c id h op (droot d)).
Proof.
  intros Hs Hd Hi HK HP Ho Ht Hsafe. destruct Ho as [p w E Hp Hv Hw|p E Hp|p w E Hp Hv Hw|p from E Hp Hf|p from E Hp Hf|p w E Hp Hv Hw];
    unfold op_apply; rewrite E; cbn [apply_change change_safe] in *.
  - apply (write_changed h d K op JsonDoc.Insert p w P); auto.
  - unfold op_keep. by apply remove_changed.
  - apply (write_changed h d K op Replace p w P); auto. unfold on_pointer, keys_safe in *.
    destruct (parse_pointer p); [|done]. by rewrite Hsafe.
  - by apply (copy_changed h d K op p from).
  - by apply (move_changed h d K op p from).
  - done.
Qed.

(** * A sequence of changes *)

Fixpoint apply_changes (chs : list change) (v : json) : option json :=
  match chs with [] => Some v | ch :: chs => v' ← apply_change ch v; apply_changes chs v' end.
Fixpoint changes_safe (chs : list change) (v : json) : bool :=
  match chs with
  | [] => true
  | ch :: chs => change_safe ch v && match apply_change ch v with Some v' => changes_safe chs v' | None => true end
  end.

Lemma patch_apply_changes P K : P ∈ K -> forall ops chs, Forall2 (op_is P) ops chs ->
  Forall (fun op => op_type op <> OpTest) ops -> forall h d, stored h d -> NoDup (dnodes d) -> indexed h d ->
  Forall (kept h d) K -> changes_safe chs (value d) = true ->
  changed h d K (apply_changes chs (value d)) (patch_apply c id h (droot d) ops).
Proof.
  intros HP. induction 1 as [|op ch ops chs Ho _ IH]; intros Ht h d Hs Hd Hi HK Hsafe; cbn [patch_apply apply_changes].
  { by exists d, h. }
  apply Forall_cons in Ht as [Ht Hts]. cbn [changes_safe] in Hsafe. apply andb_true_iff in Hsafe as [Hsafe Hrest].
  pose proof (apply_changed h d K op ch P Hs Hd Hi HK HP Ho Ht Hsafe) as Hc.
  destruct (apply_change ch (value d)) as [v|]; cbn [mbind option_bind changed] in *.
  - destruct Hc as (d1 & h1 & -> & Hs1 & Hd1 & <- & HK1). cbn [mbind outcome_bind].
    rewrite (proj2 (token_eqb_neq _ _) (doc_root_unmarked h1 d1 Hs1)).
    destruct (build_indexes h1 d1 Hs1 Hd1) as (h2 & ok & -> & X & Hs2 & Hi2). cbn [mbind outcome_bind].
    apply (IH Hts h2 d1 Hs2 Hd1 Hi2); [|done]. eapply Forall_impl; [exact HK1|]. intros k. by apply kept_build.
  - destruct Hc as (e & h1 & -> & T & HK1). cbn [mbind outcome_bind].
    rewrite T, (proj2 (token_eqb_eq Error Error) eq_refl). by exists e, h1.
Qed.
End Apply.

(** * [json::patch]: reading the operations of a patch, the tests, and the whole. *)

(** * The change an object of a patch describes *)

(** The text between the quotes of a string *)
Definition strip (s : list Z) : list Z := take (length s - 2) (drop 1 s).
Definition string_at (k : list Z) (v : json) : option (list Z) :=
  match child k v with
  | Some (JLeaf t s) => if token_eqb t JString then Some (strip s) else None
  | _ => None
  end.
Definition op_text (t : list Z) : option OpType :=
  if list_eqb t (bytes "test") then Some OpTest
  else if list_eqb t (bytes "add") then Some OpAdd
  else if list_eqb t (bytes "remove") then Some OpRemove
  else if list_eqb t (bytes "replace") then Some OpReplace
  else if list_eqb t (bytes "copy") then Some OpCopy
  else if list_eqb t (bytes "move") then Some OpMove
  else None.
Definition decode (v : json) : option change :=
  type ← (t ← string_at (bytes "op") v; op_text t);
  path ← string_at (bytes "path") v;
  match type with
  | OpError => None
  | OpRemove => Some (CRemove path)
  | OpTest => CTest path <$> child (bytes "value") v
  | OpAdd => CAdd path <$> child (bytes "value") v
  | OpReplace => CReplace path <$> child (bytes "value") v
  | OpCopy => CCopy path <$> string_at (bytes "from") v
  | OpMove => CMove path <$> string_at (bytes "from") v
  end.

(** * Reading it *)

(** The strings of a document are quoted and in their sources. *)
Definition quoted (h : heap) (d : jdoc) : Prop := forall n, n ∈ dnodes d -> type_of h n = JString ->
  location_ok (location_of h n) /\ is_Some (source (location_of h n)) /\ 2 <= len (location_of h n).

Lemma constant_pointer id s k : parse_pointer s = Some [k] -> Z.of_nat (length s) < npos ->
  pointer_at (location_of_string id s) [k].
Proof.
  intros Hk Hl. pose proof (location_string_ok id s Hl) as Hv.
  apply (text_pointer _ s); [|done]. split; [|done|done]. unfold location_ok, location_of_string. cbn.
  split_and!; [by apply synthetic_ok|done|lia..].
Qed.

Lemma quoted_string h n s : leaf_ok h n JString s -> location_ok (location_of h n) ->
  is_Some (source (location_of h n)) -> 2 <= len (location_of h n) ->
  exists l, get_string h n = Some l /\ text_at l (strip s).
Proof.
  intros [L1 L2 L3 L4 L5] Hok [src Hsrc] Hlen. unfold get_string. rewrite L2, (proj2 (token_eqb_eq JString JString) eq_refl).
  eexists. split; [reflexivity|]. pose proof Hok as Hok'. unfold location_ok in Hok'. rewrite Hsrc in Hok'.
  destruct Hok' as (H1 & H2 & H3 & H4 & H5). pose proof (view_ok _ Hok) as Hv. rewrite L4, Hsrc in Hv. injection Hv as Hv.
  assert (Hl : len (location_of h n) = Z.of_nat (length s)).
  { rewrite Hv, length_take, length_drop. lia. }
  assert (E1 : u64 (len (location_of h n) - 2) = Z.of_nat (length (strip s))).
  { rewrite (u64_in_source src) by (done || lia). unfold strip. rewrite length_take, length_drop. lia. }
  assert (E2 : u64 (pos (location_of h n) + 1) = pos (location_of h n) + 1) by (rewrite (u64_in_source src); done || lia).
  assert (Hls : (2 <= length s)%nat) by lia.
  assert (Es : exists x y, s = [x] ++ strip s ++ [y]).
  { unfold strip. destruct s as [|x s]; [cbn in Hls; lia|]. destruct (snoc_cases s) as [->|(k & y & ->)]; [cbn in Hls; lia|].
    exists x, y. cbn [drop length]. rewrite drop_0, length_app. cbn [length].
    replace (S (length k + 1) - 2)%nat with (length k) by lia. by rewrite take_app_length. }
  destruct Es as (x & y & Es). rewrite E1. split; [|exact (view_part (location_of h n) src [x] (strip s) [y] Hsrc Hok ltac:(by rewrite <-Es) ltac:(by rewrite <-Es))|done].
  unfold location_ok. cbn. rewrite Hsrc. split_and!; [done|done|lia|lia|].
  rewrite E2. apply (f_equal length) in Es. rewrite !length_app in Es. cbn [length] in Es. lia.
Qed.

Section Decode.
Context (c : WfContexts) (id : positive).

(** The patch in a store that has grown *)
Record patch_at (h : heap) (P : jdoc) : Prop := {
  pa_stored : stored h P;
  pa_nodup : NoDup (dnodes P);
  pa_indexed : indexed h P;
  pa_quoted : quoted h P
}.

Lemma patch_grows h h' P : h ⊆ h' -> patch_at h P -> patch_at h' P.
Proof.
  intros Hs [P1 P2 P3 P4]. assert (Hk : forall n, n ∈ dnodes P -> same_plain h h' n).
  { intros n Hn. apply subset_same; [done|by apply (stored_some h P)]. }
  split; [by apply (stored_subset h)|done| |].
  - apply (indexed_same h); [|done]. intros n Hn. by apply same_symtab, Hk.
  - intros n Hn. rewrite (same_type h h'), (same_location h h') by by apply Hk. by apply P4.
Qed.

Lemma within_refl P : within P P.
Proof. by exists []. Qed.
Lemma within_step P w k g y : within P w -> dstep k w = Some (g, y) -> within P y.
Proof. intros [gs ->] E%dstep_fill. exists (g :: gs). by rewrite E. Qed.
Lemma within_nodes P w n : within P w -> n ∈ dnodes w -> n ∈ dnodes P.
Proof.
  intros [gs ->] Hn. induction gs as [|g gs IH] using rev_ind; [done|]. rewrite dplug_snoc, fill_nodes.
  apply elem_of_app. by right.
Qed.
Lemma within_indexed h P w : within P w -> indexed h P -> indexed h w.
Proof.
  intros [gs ->]. induction gs as [|g gs IH] using rev_ind; [done|]. rewrite dplug_snoc. intros Hi. apply IH.
  destruct g as [n l r|n l m r]; cbn [fill] in Hi.
  - apply indexed_arr_inv in Hi. apply (proj1 (Forall_forall _ _) Hi). apply elem_of_app. right. left.
  - apply indexed_obj_inv in Hi as (_ & _ & Hi). apply (proj1 (Forall_forall _ _) Hi (m, dplug gs w)). apply elem_of_app. right. left.
Qed.
Lemma within_patch h P w : within P w -> patch_at h P -> patch_at h w.
Proof.
  intros Hw [P1 P2 P3 P4]. destruct (within_ok h P w Hw P1 P2). split; [done|done|by apply (within_indexed h P)|].
  intros n Hn. by apply P4, (within_nodes P w).
Qed.

(** The member of an operation, by a constant key *)
Lemma field_select h e s k : patch_at h e -> parse_pointer s = Some [k] -> Z.of_nat (length s) < npos ->
  safe_key k = true ->
  match child k (value e) with
  | Some v => exists y, select c id h (droot e) (location_of_string id s) = Returns (droot y, h)
      /\ within e y /\ value y = v
  | None => fails h (select c id h (droot e) (location_of_string id s))
  end.
Proof.
  intros [P1 P2 P3 P4] Hk Hl Hsafe. unfold select.
  pose proof (constant_pointer id s k Hk Hl) as Hp.
  destruct (operation_run c id h _ Read None (droot e) [] k Hp) as (locs & loc & Hls & Hloc & ->).
  apply Forall2_nil_inv_r in Hls as ->. cbn [run_list].
  assert (Hsk : match e with DArr _ _ => safe_key k = true | _ => True end) by by destruct e.
  pose proof (last_read c id h e loc k P1 P2 Hloc (indexed_finds h e k P1 P3) Hsk) as Hr.
  rewrite vstep_child, dstep_value. destruct (dstep k e) as [[g y]|] eqn:E; cbn [fmap option_fmap option_map snd]; [|exact Hr].
  exists y. split_and!; [done|by apply (within_step e e k g y (within_refl e))|done].
Qed.

Lemma field_string h e s k : patch_at h e -> parse_pointer s = Some [k] -> Z.of_nat (length s) < npos ->
  safe_key k = true ->
  exists r h', select_string c id h (droot e) (location_of_string id s) = Returns (r, h') /\ h ⊆ h'
    /\ match string_at k (value e) with
       | Some t => exists l, r = Some l /\ text_at l t
       | None => r = None
       end.
Proof.
  intros He Hk Hl Hsafe. pose proof (field_select h e s k He Hk Hl Hsafe) as Hf. unfold select_string, string_at.
  destruct (child k (value e)) as [v|].
  - destruct Hf as (y & -> & Hw & <-). cbn [mbind outcome_bind]. pose proof (within_patch h e y Hw He) as [Y1 Y2 Y3 Y4].
    rewrite (proj2 (token_eqb_neq _ _) (doc_root_unmarked h y Y1)). eexists _, h. split; [reflexivity|]. split; [done|].
    pose proof (doc_kind h y Y1) as Hkind. destruct y as [n t x|n ds|n ms]; cbn [value droot] in *.
    + destruct Hkind as (Ht & _). apply stored_leaf_inv in Y1. destruct (token_eqb t JString) eqn:Et.
      * apply token_eqb_eq in Et as ->. destruct (Y4 n (droot_in (DLeaf n JString x)) Ht) as (Q1 & Q2 & Q3).
        by apply quoted_string.
      * unfold get_string. by rewrite Ht, Et.
    + unfold get_string. by rewrite Hkind.
    + unfold get_string. by rewrite Hkind.
  - destruct Hf as (e' & h' & -> & S & T). cbn [mbind outcome_bind]. rewrite T, (proj2 (token_eqb_eq Error Error) eq_refl).
    by eexists _, h'.
Qed.

Lemma type_lookup_text l t : text_at l t -> type_lookup l = Returns (op_text t).
Proof. intros [_ Hv _]. unfold type_lookup. by rewrite Hv. Qed.

Lemma op_text_error t : op_text t <> Some OpError.
Proof. unfold op_text. repeat (destruct (list_eqb _ _); [done|]). done. Qed.

(** [Op::from_node] reads the change that the object describes. *)
Lemma from_node_decodes h e : patch_at h e -> exists op h', from_node c id h (droot e) = Returns (op, h') /\ h ⊆ h'
  /\ match decode (value e) with
     | Some ch => op_is e op ch /\ op_type op <> OpError
     | None => op_type op = OpError /\ op_node op = droot e
     end.
Proof.
  intros He. unfold from_node, decode.
  destruct (field_string h e (bytes "/op") (bytes "op") He eq_refl eq_refl eq_refl) as (r1 & h1 & E1 & S1 & R1).
  change (OpKey id) with (location_of_string id (bytes "/op")). rewrite E1. cbn [mbind outcome_bind].
  destruct (string_at (bytes "op") (value e)) as [t|]; cbn [mbind option_bind]; [|subst r1; by eexists _, h1].
  destruct R1 as (l1 & -> & T1). rewrite (type_lookup_text l1 t T1). cbn [mbind outcome_bind].
  destruct (op_text t) as [type|] eqn:Et; cbn [mbind option_bind]; [|by eexists _, h1].
  pose proof (patch_grows h h1 e S1 He) as He1.
  destruct (field_string h1 e (bytes "/path") (bytes "path") He1 eq_refl eq_refl eq_refl) as (r2 & h2 & E2 & S2 & R2).
  change (PathKey id) with (location_of_string id (bytes "/path")). rewrite E2. cbn [mbind outcome_bind].
  assert (S12 : h ⊆ h2) by by etransitivity.
  destruct (string_at (bytes "path") (value e)) as [path|]; cbn [mbind option_bind]; [|subst r2; by eexists _, h2].
  destruct R2 as (l2 & -> & T2). pose proof (patch_grows h1 h2 e S2 He1) as He2.
  assert (Hvalue : forall (mk : list Z -> json -> change),
    (forall op w, op_type op = type -> op_path op = l2 -> op_value op = Some (droot w) -> within e w -> op_is e op (mk path (value w))) ->
    type <> OpError ->
    exists op h', ('(value, h) ← select c id h2 (droot e) (ValueKey id);
       if token_eqb (type_of h value) Error then Returns (op_of_path (droot e) OpError (MissingValue id), h)
       else Returns (op_of_value (droot e) type l2 value, h)) = Returns (op, h') /\ h ⊆ h'
     /\ match mk path <$> child (bytes "value") (value e) with
        | Some ch => op_is e op ch /\ op_type op <> OpError
        | None => op_type op = OpError /\ op_node op = droot e end).
  { intros mk Hmk Hne. pose proof (field_select h2 e (bytes "/value") (bytes "value") He2 eq_refl eq_refl eq_refl) as Hf.
    change (ValueKey id) with (location_of_string id (bytes "/value")).
    destruct (child (bytes "value") (value e)) as [v|]; cbn [fmap option_fmap option_map].
    - destruct Hf as (y & -> & Hw & <-). cbn [mbind outcome_bind]. pose proof (within_patch h2 e y Hw He2) as [Y1 _ _ _].
      rewrite (proj2 (token_eqb_neq _ _) (doc_root_unmarked h2 y Y1)). eexists _, h2. split; [reflexivity|]. split; [done|].
      split; [by apply Hmk|done].
    - destruct Hf as (e' & h' & -> & S & T). cbn [mbind outcome_bind]. rewrite T, (proj2 (token_eqb_eq Error Error) eq_refl).
      eexists _, h'. split; [reflexivity|]. split; [by etransitivity|done]. }
  assert (Hfrom : forall (mk : list Z -> list Z -> change),
    (forall op from, op_type op = type -> op_path op = l2 -> text_at (op_from op) from -> op_is e op (mk path from)) ->
    type <> OpError ->
    exists op h', ('(maybe_from, h) ← select_string c id h2 (droot e) (FromKey id);
       match maybe_from with
       | None => Returns (op_of_path (droot e) OpError (MissingFrom id), h)
       | Some from => Returns (op_of_from (droot e) type l2 from, h)
       end) = Returns (op, h') /\ h ⊆ h'
     /\ match mk path <$> string_at (bytes "from") (value e) with
        | Some ch => op_is e op ch /\ op_type op <> OpError
        | None => op_type op = OpError /\ op_node op = droot e end).
  { intros mk Hmk Hne. destruct (field_string h2 e (bytes "/from") (bytes "from") He2 eq_refl eq_refl eq_refl) as (r3 & h3 & E3 & S3 & R3).
    change (FromKey id) with (location_of_string id (bytes "/from")). rewrite E3. cbn [mbind outcome_bind].
    assert (S13 : h ⊆ h3) by by etransitivity.
    destruct (string_at (bytes "from") (value e)) as [from|]; cbn [fmap option_fmap option_map]; [|subst r3; by eexists _, h3].
    destruct R3 as (l3 & -> & T3). eexists _, h3. split; [reflexivity|]. split; [done|]. split; [by apply Hmk|done]. }
  destruct type; try (by destruct (op_text_error t)).
  - apply Hvalue; [|done]. intros op w Ht <- Hv Hw. by constructor.
  - apply Hvalue; [|done]. intros op w Ht <- Hv Hw. by constructor.
  - eexists _, h2. split; [reflexivity|]. split; [done|]. split; [by constructor|done].
  - apply Hvalue; [|done]. intros op w Ht <- Hv Hw. by constructor.
  - apply Hfrom; [|done]. intros op from Ht <- Hv. by constructor.
  - apply Hfrom; [|done]. intros op from Ht <- Hv. by constructor.
Qed.
(** * The loop over the operations of a patch *)

Definition tests (ch : change) : bool := match ch with CTest _ _ => true | _ => false end.
Definition edits_of (chs : list change) : list change := filter (fun ch => tests ch = false) chs.
Lemma edits_of_cons ch chs : edits_of (ch :: chs) = if tests ch then edits_of chs else ch :: edits_of chs.
Proof. unfold edits_of. rewrite filter_cons. by destruct (tests ch). Qed.
Definition tests_pass (chs : list change) (v : json) : Prop :=
  Forall (fun ch => match ch with CTest p w => test_holds p w v | _ => True end) chs.
Definition test_safe (v : json) (ch : change) : bool :=
  match ch with CTest p w => on_pointer p (fun ks => safe_path ks v) && comparable w | _ => true end.
Definition op_safe (v o : json) : bool := match decode o with Some ch => test_safe v ch | None => true end.

Lemma op_is_within P e op ch : within P e -> op_is e op ch -> op_is P op ch.
Proof.
  intros [gs ->] Ho. assert (Hw : forall w, within e w -> within (dplug gs e) w).
  { intros w [gs' ->]. exists (gs' ++ gs). unfold dplug. by rewrite foldl_app. }
  destruct Ho; constructor; auto.
Qed.

(** A [test] on the document *)
Lemma test_result h d e op p w : patch_at h e -> stored h d -> NoDup (dnodes d) -> indexed h d ->
  comparable (value d) = true -> op_is e op (CTest p w) ->
  test_safe (value d) (CTest p w) = true ->
  (test_holds p w (value d) /\ exists h', op_apply c id h op (droot d) = Returns (droot d, h') /\ h ⊆ h')
  \/ (~ test_holds p w (value d) /\ fails h (op_apply c id h op (droot d))).
Proof.
  intros He Hs Hd Hi Hc Ho Hsafe. inversion Ho as [| | | | |p' x Ht Hp Hv Hw]; subst. clear Ho.
  pose proof (within_patch h e x Hw He) as [X1 X2 X3 _]. cbn [test_safe] in Hsafe. apply andb_true_iff in Hsafe as [Hsafe Hcx].
  unfold op_apply. rewrite Ht. unfold op_keep. rewrite Hv.
  assert (Hfail : forall r, fails h r -> fails h ('(result, h) ← r; Returns (error_or h result (droot d), h))).
  { intros r (z & h' & -> & S & T). cbn [mbind outcome_bind]. unfold error_or.
    rewrite T, (proj2 (token_eqb_eq Error Error) eq_refl). by exists z, h'. }
  unfold on_pointer in Hsafe. destruct (parse_pointer p) as [ks|] eqn:Ep.
  - pose proof (test_operation c id h x X1 X2 (indexed_tame h x X3) Hcx d (op_path op) ks Hs Hd Hi Hc (text_pointer _ p ks Hp Ep) Hsafe) as Hr.
    unfold test_holds. destruct (resolve ks (value d)) as [v|] eqn:Er; cbn [tested] in Hr.
    + destruct Hr as [[Hsv (n & h' & -> & S & T)]|[Hsv Hf]]; [left|right].
      * split; [by exists ks, v|]. exists h'. cbn [mbind outcome_bind]. unfold error_or.
        by rewrite (proj2 (token_eqb_neq _ _) T).
      * split; [|by apply Hfail]. intros (ks' & x' & E & Hx & Hsx). rewrite Ep in E. injection E as <-. rewrite Er in Hx. by injection Hx as <-.
    + right. split; [|by apply Hfail]. intros (ks' & x' & E & Hx & _). rewrite Ep in E. injection E as <-. by rewrite Er in Hx.
  - right. split; [intros (ks' & x' & E & _); by rewrite Ep in E|]. apply Hfail. by apply (text_invalid c id h (op_path op) p).
Qed.

(** What the loop returns: the operations to apply when every operation could be read and every
    test holds on the document as it was given, an error otherwise *)
Definition read_ops (h : heap) (P d : jdoc) (ops0 : list Op) (os : list json)
    (r : outcome ((Node + list Op) * heap)) : Prop :=
  (exists chs ops h', mapM decode os = Some chs /\ tests_pass chs (value d)
     /\ r = Returns (inr (ops0 ++ ops), h') /\ h ⊆ h' /\ Forall2 (op_is P) ops (edits_of chs)
     /\ Forall (fun op => op_type op <> OpTest) ops)
  \/ ((forall chs, mapM decode os = Some chs -> ~ tests_pass chs (value d))
      /\ exists e h', r = Returns (inl e, h') /\ h ⊆ h' /\ type_of h' e = Error).

Lemma read_ops_grow h h1 P d ops0 os r : h ⊆ h1 -> read_ops h1 P d ops0 os r -> read_ops h P d ops0 os r.
Proof.
  intros Hs [(chs & ops & h' & H1 & H2 & H3 & H4 & H5 & H6)|(H1 & e & h' & H2 & H3 & H4)]; [left|right].
  - exists chs, ops, h'. split_and!; try done. by etransitivity.
  - split; [done|]. exists e, h'. split_and!; [done|by etransitivity|done].
Qed.

Lemma read_ops_test h P d ops0 o os p w r : decode o = Some (CTest p w) -> test_holds p w (value d) ->
  read_ops h P d ops0 os r -> read_ops h P d ops0 (o :: os) r.
Proof.
  intros Hdec Ht [(chs & ops & h' & H1 & H2 & H3 & H4 & H5 & H6)|(H1 & H2)]; [left|right].
  - exists (CTest p w :: chs), ops, h'. rewrite edits_of_cons. cbn. rewrite Hdec. cbn. rewrite H1.
    split_and!; try done. by constructor.
  - split; [|done]. intros chs. cbn. rewrite Hdec. cbn. destruct (mapM decode os) as [chs'|]; [|done]. intros [= <-].
    intros Hp. apply Forall_cons in Hp as [_ Hp]. by apply (H1 chs').
Qed.
Lemma read_ops_edit h P d ops0 o os op ch r : decode o = Some ch -> tests ch = false -> op_is P op ch ->
  op_type op <> OpTest -> read_ops h P d (ops0 ++ [op]) os r -> read_ops h P d ops0 (o :: os) r.
Proof.
  intros Hdec Hnt Ho Hty [(chs & ops & h' & H1 & H2 & H3 & H4 & H5 & H6)|(H1 & H2)]; [left|right].
  - exists (ch :: chs), (op :: ops), h'. rewrite edits_of_cons, Hnt. cbn. rewrite Hdec. cbn. rewrite H1.
    rewrite <-app_assoc in H3. split_and!; try done; [constructor; [by destruct ch|done]|by constructor|by constructor].
  - split; [|done]. intros chs. cbn. rewrite Hdec. cbn. destruct (mapM decode os) as [chs'|]; [|done]. intros [= <-].
    intros Hp. apply Forall_cons in Hp as [_ Hp]. by apply (H1 chs').
Qed.

Lemma patch_ops_read P d es : forall h ops0, patch_at h P -> (forall e, e ∈ es -> within P e) ->
  stored h d -> NoDup (dnodes d) -> indexed h d -> comparable (value d) = true ->
  forallb (op_safe (value d)) (value <$> es) = true ->
  read_ops h P d ops0 (value <$> es) (patch_ops c id h (droot d) (droot <$> es) ops0).
Proof.
  induction es as [|e es IH]; intros h ops0 HP Hin Hs Hd Hi Hc Hsafe; cbn [fmap list_fmap patch_ops].
  { left. exists [], [], h. rewrite app_nil_r. split_and!; try done; constructor. }
  cbn [fmap list_fmap forallb] in Hsafe. apply andb_true_iff in Hsafe as [Hse Hss].
  assert (He : within P e) by (apply Hin; left).
  destruct (from_node_decodes h e (within_patch h P e He HP)) as (op & h1 & -> & S1 & Hop). cbn [mbind outcome_bind].
  assert (Hs1 : stored h1 d) by by apply (stored_subset h).
  assert (Hi1 : indexed h1 d).
  { apply (indexed_same h); [|done]. intros n Hn. apply same_symtab, subset_same; [done|by apply (stored_some h d)]. }
  pose proof (patch_grows h h1 P S1 HP) as HP1. unfold op_safe in Hse.
  destruct (decode (value e)) as [ch|] eqn:Edec.
  - destruct Hop as [Ho Hne]. pose proof (op_is_within P e op ch He Ho) as HoP.
    assert (Hrest : forall h2 ops, h ⊆ h2 -> read_ops h P d ops (value <$> es) (patch_ops c id h2 (droot d) (droot <$> es) ops)).
    { intros h2 ops S. apply (read_ops_grow h h2); [done|]. apply IH; [by apply (patch_grows h)| |by apply (stored_subset h)|done| |done|done].
      - intros x Hx. apply Hin. by right.
      - apply (indexed_same h); [|done]. intros n Hn. apply same_symtab, subset_same; [done|by apply (stored_some h d)]. }
    destruct (tests ch) eqn:Et.
    + destruct ch as [| | | | |p w]; try done. assert (Hty : op_type op = OpTest) by by inversion Ho.
      rewrite Hty.
      destruct (test_result h1 d e op p w (within_patch h1 P e He HP1) Hs1 Hd Hi1 Hc Ho Hse) as [[Ht (h2 & E & S2)]|[Ht Hf]].
      * rewrite E. cbn [mbind outcome_bind].
        rewrite (proj2 (token_eqb_neq _ _) (doc_root_unmarked h2 d (stored_subset h1 h2 d S2 Hs1 Hd))).
        apply (read_ops_test h P d ops0 (value e) _ p w); [done|done|]. apply Hrest. by etransitivity.
      * destruct Hf as (z & h2 & -> & S2 & T). cbn [mbind outcome_bind].
        rewrite T, (proj2 (token_eqb_eq Error Error) eq_refl). right. split; [|exists z, h2; split_and!; [done|by etransitivity|done]].
        intros chs. cbn. rewrite Edec. cbn. destruct (mapM decode _); [|done]. intros [= <-] Hp.
        by apply Forall_cons in Hp as [Hp _].
    + assert (Hty : op_type op <> OpTest) by by (destruct Ho; try done; congruence).
      pose proof (read_ops_edit h P d ops0 (value e) (value <$> es) op ch _ Edec Et HoP Hty (Hrest h1 (ops0 ++ [op]) S1)) as Hr.
      destruct (op_type op); done.
  - destruct Hop as [Hty Hnode]. rewrite Hty, Hnode.
    pose proof (within_patch h1 P e He HP1) as [X1 X2 _ _].
    destruct (err_doc h1 e (op_path op) X1 X2) as (z & h2 & -> & S2 & T). cbn [mbind outcome_bind].
    right. split; [intros chs; cbn; by rewrite Edec|]. exists z, h2. split_and!; [done|by etransitivity|done].
Qed.

(** * [json::patch] *)

(** What the code does with a patch: every test is made on the document as it was given, the other
    operations follow one after the other. *)
Definition patch_value (os : list json) (v v' : json) : Prop :=
  exists chs, mapM decode os = Some chs /\ tests_pass chs v /\ apply_changes (edits_of chs) v = Some v'.
Definition patch_safe (os : list json) (v : json) : bool :=
  comparable v && forallb (op_safe v) os
  && match mapM decode os with Some chs => changes_safe (edits_of chs) v | None => true end.

Lemma patch_document h d n es : stored h d -> NoDup (dnodes d) -> indexed h d -> patch_at h (DArr n es) ->
  patch_safe (value <$> es) (value d) = true ->
  (exists d' h', patch_value (value <$> es) (value d) (value d')
     /\ patch c id h (droot d) n = Returns (droot d', h') /\ stored h' d' /\ NoDup (dnodes d') /\ stored h' d)
  \/ ((forall v, ~ patch_value (value <$> es) (value d) v)
      /\ exists e h', patch c id h (droot d) n = Returns (e, h') /\ type_of h' e = Error /\ stored h' d).
Proof.
  intros Hs Hd Hi HP Hsafe. unfold patch_safe in Hsafe. rewrite !andb_true_iff in Hsafe. destruct Hsafe as [[Hc Hops] Hchs].
  pose proof HP as [P1 P2 P3 P4]. pose proof P1 as [A Hes]%stored_arr_inv. unfold patch.
  rewrite (arr_type _ _ _ A), (proj2 (token_eqb_eq Array Array) eq_refl), (arr_children _ _ _ A). cbn [negb].
  destruct es as [|e0 es0] eqn:Ees; [left; exists d, h; split_and!; try done; exists []; split_and!; [done|by apply Forall_nil|done]|]. rewrite <-Ees in *.
  assert (Hin : forall e, e ∈ es -> within (DArr n es) e).
  { intros e [i He]%list_elem_of_lookup. exists [HArr n (take i es) (drop (S i) es)]. cbn. by rewrite take_drop_middle. }
  pose proof (patch_ops_read (DArr n es) d es h [] HP Hin Hs Hd Hi Hc Hops) as Hr.
  destruct (droot <$> es) as [|n0 ns] eqn:En; [by rewrite Ees in En|].
  destruct Hr as [(chs & ops & h1 & E1 & E2 & E3 & S1 & Ho & Hnt)|(Hno & e & h1 & E3 & S1 & T)];
    rewrite E3; cbn [mbind outcome_bind app].
  - rewrite E1 in Hchs. assert (Hs1 : stored h1 d) by by apply (stored_subset h).
    destruct (clone_doc h1 d Hs1 Hd) as (d1 & h2 & E & [C1 C2 C3 C4 C5 _ _ _]). rewrite E. cbn [mbind outcome_bind].
    destruct (build_indexes h2 d1 C2 C4) as (h3 & ok & -> & X & Hs3 & Hi3). cbn [mbind outcome_bind].
    pose proof (patch_grows h h1 _ S1 HP) as [Q1 _ _ _].
    assert (HK : Forall (kept h3 d1) [DArr n es; d]).
    { assert (Hk : forall k, stored h1 k -> NoDup (dnodes k) -> kept h3 d1 k).
      { intros k Hk1 Hk2. apply (kept_build h2); [done|]. split; [by apply (stored_subset h1)|done|].
        intros m Hm1 Hm2. destruct (stored_some h1 k Hk1 m Hm1). rewrite (C5 m Hm2) in H. done. }
      apply Forall_cons. split; [by apply Hk|]. apply Forall_cons. split; [by apply Hk|by apply Forall_nil]. }
    rewrite <-C3 in Hchs. pose proof (patch_apply_changes c id (DArr n es) [DArr n es; d] ltac:(left) ops (edits_of chs) Ho Hnt h3 d1 Hs3 C4 Hi3 HK Hchs) as Hc1.
    rewrite C3 in Hc1. destruct (apply_changes (edits_of chs) (value d)) as [v|] eqn:Ea.
    + destruct Hc1 as (d2 & h4 & -> & D1 & D2 & <- & D3). left. exists d2, h4. split_and!; [by exists chs|done|done|done|].
      apply Forall_cons in D3 as [_ D3]. by apply Forall_cons in D3 as [[? _ _] _].
    + destruct Hc1 as (e & h4 & -> & T & D3). right. split; [intros v (chs' & F1 & F2 & F3); congruence|].
      exists e, h4. split_and!; [done|done|]. apply Forall_cons in D3 as [_ D3]. by apply Forall_cons in D3 as [? _].
  - right. split; [intros v (chs & F1 & F2 & _); by apply (Hno chs)|].
    exists e, h1. split_and!; [done|done|by apply (stored_subset h)].
Qed.
End Decode.

(** * Induction on values *)

Section JsonInd.
Context (P : json -> Prop) (Hleaf : forall t s, P (JLeaf t s)) (Harr : forall vs, Forall P vs -> P (JArr vs))
  (Hobj : forall ms, Forall (fun p => P p.2) ms -> P (JObj ms)).
Fixpoint json_ind' (v : json) : P v :=
  match v with
  | JLeaf t s => Hleaf t s
  | JArr vs => Harr vs ((fix go vs : Forall P vs :=
      match vs with [] => Forall_nil_2 P | v :: vs => Forall_cons_2 P v vs (json_ind' v) (go vs) end) vs)
  | JObj ms => Hobj ms ((fix go ms : Forall (fun p => P p.2) ms :=
      match ms with
      | [] => Forall_nil_2 _
      | p :: ms => Forall_cons_2 (fun p => P p.2) p ms (json_ind' p.2) (go ms)
      end) ms)
  end.
End JsonInd.

(** * The RFCs

    The value of a document has the texts of its strings, as they are written; what the RFCs speak
    of are the strings that the texts denote. *)

(** ** Strings (RFC 8259, section 7) *)

Definition short_escape (c : Z) : option Z :=
  if c =? 98 then Some 8 else if c =? 102 then Some 12 else if c =? 110 then Some 10 else if c =? 114 then Some 13
  else if c =? 116 then Some 9 else if (c =? 92) || (c =? 47) || (c =? 34) then Some c else None.
Definition hex_value (c : Z) : option Z :=
  if (48 <=? c) && (c <=? 57) then Some (c - 48) else if (65 <=? c) && (c <=? 70) then Some (c - 55)
  else if (97 <=? c) && (c <=? 102) then Some (c - 87) else None.
Definition code_unit (a b c d : Z) : option Z :=
  w ← hex_value a; x ← hex_value b; y ← hex_value c; z ← hex_value d; Some (w * 4096 + x * 256 + y * 16 + z).
Definition high_surrogate (u : Z) : bool := (0xD800 <=? u) && (u <? 0xDC00).
Definition low_surrogate (u : Z) : bool := (0xDC00 <=? u) && (u <? 0xE000).

(** The string a text denotes, when it is the text of a string; two surrogates are one character. *)
Fixpoint string_value (s : list Z) : option (list Z) :=
  match s with
  | [] => Some []
  | c :: rest =>
      if negb (c =? 92) then cons c <$> string_value rest
      else
        match rest with
        | 117 :: a :: b :: c :: d :: rest =>
            u ← code_unit a b c d;
            match rest with
            | 92 :: 117 :: e :: f :: g :: i :: rest' =>
                l ← code_unit e f g i;
                if high_surrogate u && low_surrogate l then
                  app (Utf8.write_rune (0x10000 + (u - 0xD800) * 1024 + (l - 0xDC00))) <$> string_value rest'
                else app (Utf8.write_rune u) <$> string_value rest
            | _ => app (Utf8.write_rune u) <$> string_value rest
            end
        | c :: rest => x ← short_escape c; cons x <$> string_value rest
        | [] => None
        end
  end.

(** The value with the strings its texts denote *)
Definition denoted (s : list Z) : list Z := default s (string_value s).
Fixpoint meaning (v : json) : json :=
  match v with
  | JLeaf t s => JLeaf t (if token_eqb t JString then denoted s else s)
  | JArr vs => JArr (meaning <$> vs)
  | JObj ms => JObj ((fun p => (denoted p.1, meaning p.2)) <$> ms)
  end.

(** No escapes: every string is its text. *)
Definition plain_text (s : list Z) : bool := forallb (fun c => negb (c =? 92)) s.
Fixpoint plain (v : json) : bool :=
  match v with
  | JLeaf t s => negb (token_eqb t JString) || plain_text s
  | JArr vs => forallb plain vs
  | JObj ms => forallb (fun p => plain_text p.1 && plain p.2) ms
  end.

Lemma plain_denoted s : plain_text s = true -> denoted s = s.
Proof.
  intros H. unfold denoted. assert (E : string_value s = Some s); [|by rewrite E].
  induction s as [|c s IH]; [done|]. cbn [plain_text forallb] in H. apply andb_true_iff in H as [Hc Hs].
  cbn [string_value]. rewrite Hc, (IH Hs). done.
Qed.
Lemma plain_meaning v : plain v = true -> meaning v = v.
Proof.
  induction v as [t s|vs IH|ms IH] using json_ind'; cbn [plain meaning]; intros H.
  - destruct (token_eqb t JString); [|done]. by rewrite plain_denoted.
  - f_equal. rewrite <-(list_fmap_id vs) at 2. apply list_fmap_ext. intros i v Hv%list_elem_of_lookup_2.
    apply (proj1 (Forall_forall _ _) IH v Hv). apply (proj1 (forallb_forall _ _) H). by apply list_elem_of_In.
  - f_equal. rewrite <-(list_fmap_id ms) at 2. apply list_fmap_ext. intros i p Hp%list_elem_of_lookup_2.
    pose proof (proj1 (forallb_forall _ _) H p (proj1 (list_elem_of_In _ _) Hp)) as H1. apply andb_true_iff in H1 as [H1 H2].
    rewrite plain_denoted by done. destruct p as [k v]. cbn [fst snd] in *. apply (f_equal (pair k)). exact (proj1 (Forall_forall _ _) IH (k, v) Hp H2).
Qed.

(** ** Patches (RFC 6902) *)

(** One operation: a test of the document as it is now; [copy] adds the value at [from], which
    exists; [move] removes it and adds it, and its [from] is not a proper prefix of its [path] *)
Definition rfc_op (ch : change) (v v' : json) : Prop :=
  match ch with
  | CAdd p w => exists ks, parse_pointer p = Some ks /\ edit_value JsonDoc.Insert ks w v = Some v'
  | CReplace p w => exists ks, parse_pointer p = Some ks /\ edit_value Replace ks w v = Some v'
  | CRemove p => exists ks, parse_pointer p = Some ks /\ removed ks v = Some v'
  | CCopy p from => exists fs x ks, parse_pointer from = Some fs /\ resolve fs v = Some x /\ parse_pointer p = Some ks
      /\ edit_value JsonDoc.Insert ks x v = Some v'
  | CMove p from => exists fs x u ks, parse_pointer from = Some fs /\ resolve fs v = Some x /\ removed fs v = Some u
      /\ parse_pointer p = Some ks /\ (fs = ks \/ ~ fs `prefix_of` ks) /\ edit_value JsonDoc.Insert ks x u = Some v'
  | CTest p w => test_holds p w v /\ v' = v
  end.
(** The operations one after the other *)
Inductive rfc_ops : list change -> json -> json -> Prop :=
  | rfc_done v : rfc_ops [] v v
  | rfc_next ch chs v v' v'' : rfc_op ch v v' -> rfc_ops chs v' v'' -> rfc_ops (ch :: chs) v v''.
Definition rfc_patch (os : list json) (v v' : json) : Prop :=
  exists chs, mapM decode os = Some chs /\ rfc_ops chs v v'.

(** ** Where the code does what the RFC says

    It makes the tests on the document as it was given, so what a test looks at has to be what it
    was; and it does nothing when [path] and [from] are the same text. *)
Definition tested_value (p : list Z) (v : json) : option json := ks ← parse_pointer p; resolve ks v.
Fixpoint steady (chs : list change) (v0 v : json) : Prop :=
  match chs with
  | [] => True
  | CTest p _ :: chs => tested_value p v = tested_value p v0 /\ steady chs v0 v
  | ch :: chs => match apply_change ch v with Some v' => steady chs v0 v' | None => True end
  end.
Definition moves (ch : change) : bool :=
  match ch with CCopy p from | CMove p from => negb (list_eqb p from) | _ => true end.
Record rfc_safe (os : list json) (v : json) : Prop := {
  rs_safe : patch_safe os v = true;
  rs_moves : forall chs, mapM decode os = Some chs -> forallb moves chs = true;
  rs_steady : forall chs, mapM decode os = Some chs -> steady chs v v
}.

Lemma test_value p w v : test_holds p w v <-> exists x, tested_value p v = Some x /\ same_value x w.
Proof.
  unfold test_holds, tested_value. split.
  - intros (ks & x & -> & E & H). by exists x.
  - destruct (parse_pointer p) as [ks|]; cbn [mbind option_bind]; [|by intros (x & [=] & _)]. intros (x & E & H). by exists ks, x.
Qed.

(** One edit that is safe *)
Lemma rfc_op_edit ch v v' : tests ch = false -> moves ch = true -> change_safe ch v = true ->
  rfc_op ch v v' <-> apply_change ch v = Some v'.
Proof.
  intros Ht Hm Hs. destruct ch as [p w|p|p w|p from|p from|p w]; try done; cbn [rfc_op apply_change moves change_safe] in *.
  1-3: destruct (parse_pointer p) as [ks|]; cbn [mbind option_bind]; [|by split; [intros (? & [=] & _)|]];
    split; [by intros (? & [= <-] & ?)|by exists ks].
  - apply negb_true_iff in Hm. rewrite Hm. split.
    + intros (fs & x & ks & -> & E1 & -> & E2). cbn [mbind option_bind]. by rewrite E1.
    + destruct (parse_pointer from) as [fs|]; [|done]. cbn [mbind option_bind]. destruct (resolve fs v) as [x|] eqn:E1; [|done].
      cbn [mbind option_bind]. destruct (parse_pointer p) as [ks|]; [|done]. intros E2. by exists fs, x, ks.
  - apply negb_true_iff in Hm. rewrite Hm in *. cbn [orb] in Hs. split.
    + intros (fs & x & u & ks & -> & E1 & E2 & -> & _ & E3). cbn [mbind option_bind]. rewrite E1. cbn [mbind option_bind].
      rewrite E2. done.
    + unfold on_pointer in Hs. destruct (parse_pointer from) as [fs|]; [|done]. cbn [mbind option_bind].
      destruct (resolve fs v) as [x|] eqn:E1; [|done]. cbn [mbind option_bind]. destruct (removed fs v) as [u|] eqn:E2; [|done].
      cbn [mbind option_bind]. destruct (parse_pointer p) as [ks|]; [|done]. cbn [mbind option_bind]. intros E3.
      exists fs, x, u, ks. split_and!; try done. right. rewrite !andb_true_iff, negb_true_iff, bool_decide_eq_false in Hs. tauto.
Qed.

(** The sequence *)
Lemma rfc_ops_edits v0 : forall chs v v', forallb moves chs = true -> steady chs v0 v -> changes_safe (edits_of chs) v = true ->
  rfc_ops chs v v' <-> tests_pass chs v0 /\ apply_changes (edits_of chs) v = Some v'.
Proof.
  induction chs as [|ch chs IH]; intros v v' Hm Hst Hs.
  - split; [inversion 1; subst; split; [constructor|done]|]. intros [_ [= <-]]. constructor.
  - cbn [forallb] in Hm. apply andb_true_iff in Hm as [Hm Hms]. rewrite edits_of_cons in *. destruct (tests ch) eqn:Ht.
    + destruct ch as [| | | | |p w]; try done. destruct Hst as [Et Hst]. specialize (IH v v' Hms Hst Hs). unfold tests_pass in *.
      rewrite Forall_cons, test_value, <-Et, <-test_value. split.
      * inversion 1 as [|? ? ? u ? H1 H2]; subst. destruct H1 as [H1 ->]. apply IH in H2. tauto.
      * intros [[H1 H2] H3]. apply (rfc_next _ _ v v); [done|]. by apply IH.
    + cbn [changes_safe apply_changes] in *. apply andb_true_iff in Hs as [Hs Hss].
      assert (Hst' : match apply_change ch v with Some v' => steady chs v0 v' | None => True end) by by destruct ch.
      unfold tests_pass in *. rewrite Forall_cons. assert (H0 : match ch with CTest p w => test_holds p w v0 | _ => True end) by by destruct ch.
      split.
      * inversion 1 as [|? ? ? u ? H1 H2]; subst. apply (rfc_op_edit ch v u Ht Hm Hs) in H1. rewrite H1 in *. cbn [mbind option_bind].
        apply (IH u v' Hms Hst' Hss) in H2. tauto.
      * intros [[_ H1] H2]. destruct (apply_change ch v) as [u|] eqn:E; [|done]. cbn [mbind option_bind] in H2.
        apply (rfc_next _ _ v u); [by apply rfc_op_edit|]. by apply (IH u v' Hms Hst' Hss).
Qed.
Lemma rfc_patch_value os v v' : rfc_safe os v -> rfc_patch os v v' <-> patch_value os v v'.
Proof.
  intros [Hs Hm Hst]. unfold patch_safe in Hs. rewrite !andb_true_iff in Hs. destruct Hs as [_ Hs]. unfold rfc_patch, patch_value.
  split; intros (chs & E & H); exists chs; rewrite E in Hs; (split; [done|]);
    by apply (rfc_ops_edits v chs v v' (Hm chs E) (Hst chs E) Hs).
Qed.

(** ** Without escapes all stays without escapes *)

Lemma plain_text_in s : plain_text s = true <-> 92 ∉ s.
Proof.
  unfold plain_text. rewrite forallb_forall. split.
  - intros H Hin%list_elem_of_In. by apply H in Hin.
  - intros H c Hc%list_elem_of_In. apply negb_true_iff, Z.eqb_neq. by intros ->.
Qed.
Lemma plain_array vs : plain (JArr vs) = true <-> Forall (fun v => plain v = true) vs.
Proof. cbn [plain]. by rewrite forallb_forall, Forall_forall; setoid_rewrite list_elem_of_In. Qed.
Lemma plain_object ms : plain (JObj ms) = true <-> Forall (fun p => plain_text p.1 = true /\ plain p.2 = true) ms.
Proof.
  cbn [plain]. rewrite forallb_forall, Forall_forall. setoid_rewrite andb_true_iff. by setoid_rewrite list_elem_of_In.
Qed.
Lemma plain_child k v x : plain v = true -> child k v = Some x -> plain x = true.
Proof.
  destruct v as [t s|vs|ms]; cbn [child]; [done| |].
  - intros H%plain_array. destruct (index_text k) as [i|]; [|done]. cbn. intros Hx. exact (Forall_lookup_1 _ _ _ _ H Hx).
  - intros H%plain_object. destruct (list_find (named k) ms) as [[i p]|] eqn:E; [|done]. intros [= <-].
    apply list_find_Some in E as (E & _ & _). exact (proj2 (Forall_lookup_1 _ _ _ _ H E)).
Qed.
Lemma plain_resolve ks : forall v x, plain v = true -> resolve ks v = Some x -> plain x = true.
Proof.
  induction ks as [|k ks IH]; intros v x H; cbn [resolve]; [by intros [= <-]|].
  destruct (child k v) as [y|] eqn:E; [|done]. cbn [mbind option_bind]. apply IH. by apply (plain_child k v).
Qed.
Lemma plain_replace k w v v' : plain w = true -> plain v = true -> replace_child k w v = Some v' -> plain v' = true.
Proof.
  intros Hw. destruct v as [t s|vs|ms]; cbn [replace_child]; [done| |].
  - intros H%plain_array. destruct (index_text k) as [i|]; [|done]. cbn. destruct (vs !! i); [|done]. intros [= <-].
    apply plain_array. by apply Forall_insert.
  - intros H%plain_object. destruct (list_find (named k) ms) as [[i p]|] eqn:E; [|done]. intros [= <-].
    apply list_find_Some in E as (E & _ & _). pose proof (proj1 (Forall_lookup_1 _ _ _ _ H E)).
    apply plain_object. by apply Forall_insert.
Qed.
Lemma plain_insert k w v v' : plain_text k = true -> plain w = true -> plain v = true -> insert_child k w v = Some v' -> plain v' = true.
Proof.
  intros Hk Hw. destruct v as [t s|vs|ms]; [done| |].
  - cbn [insert_child]. intros H%plain_array. destruct (list_eqb k [45]).
    { intros [= <-]. apply plain_array, Forall_app. split; [done|]. by constructor. }
    destruct (index_text k) as [i|]; [|done]. cbn. destruct (i <=? length vs)%nat; [|done]. intros [= <-].
    apply plain_array, Forall_app. split; [by apply Forall_take|]. constructor; [done|by apply Forall_drop].
  - intros H. unfold insert_child. destruct (list_find (named k) ms); [by apply plain_replace|]. intros [= <-].
    apply plain_object in H. apply plain_object, Forall_app. split; [done|]. by constructor.
Qed.
Lemma plain_remove k v v' : plain v = true -> remove_child k v = Some v' -> plain v' = true.
Proof.
  destruct v as [t s|vs|ms]; cbn [remove_child]; [done| |].
  - intros H%plain_array. destruct (index_text k) as [i|]; [|done]. cbn. destruct (vs !! i); [|done]. intros [= <-].
    apply plain_array, Forall_app. split; [by apply Forall_take|by apply Forall_drop].
  - intros H%plain_object. destruct (list_find (named k) ms) as [[i p]|]; [|done]. intros [= <-].
    apply plain_object, Forall_app. split; [by apply Forall_take|by apply Forall_drop].
Qed.
Lemma plain_action action k w v v' : plain_text k = true -> plain w = true -> plain v = true ->
  action_value action k w v = Some v' -> plain v' = true.
Proof. destruct action; cbn [action_value]; try done; eauto using plain_insert, plain_replace, plain_remove. Qed.
Lemma plain_edit_at action w ks : plain w = true -> Forall (fun k => plain_text k = true) ks -> forall v v', plain v = true ->
  edit_at (fun k => action_value action k w) ks v = Some v' -> plain v' = true.
Proof.
  intros Hw. induction 1 as [|k ks Hk Hks IH]; intros v v' Hv; cbn [edit_at]; [done|].
  destruct ks as [|k' ks]; [by apply plain_action|]. destruct (child k v) as [c|] eqn:E; [|done]. cbn [mbind option_bind].
  destruct (edit_at _ (k' :: ks) c) as [c'|] eqn:E'; [|done]. cbn [mbind option_bind]. apply plain_replace; [|done].
  apply (IH c c'); [by apply (plain_child k v)|done].
Qed.
Lemma plain_edit action ks w v v' : Forall (fun k => plain_text k = true) ks -> plain w = true -> plain v = true ->
  edit_value action ks w v = Some v' -> plain v' = true.
Proof.
  intros Hks Hw Hv. destruct ks as [|k ks]; [destruct action; cbn; congruence|]. by apply plain_edit_at.
Qed.

Lemma plain_unescape k : forall k', 92 ∉ k -> unescape_key k = Some k' -> 92 ∉ k'.
Proof.
  assert (H : forall n k k', (length k <= n)%nat -> 92 ∉ k -> unescape_key k = Some k' -> 92 ∉ k').
  { intros n. induction n as [|n IH]; intros [|x k0] k' Hn Hk; cbn in *; try lia; try (intros [= <-]; done).
    apply not_elem_of_cons in Hk as [Hx Hk]. destruct (x =? 126).
    - destruct k0 as [|i k0]; [done|]. apply not_elem_of_cons in Hk as [_ Hk]. cbn in Hn.
      destruct (i =? 48); [|destruct (i =? 49); [|done]]; intros (k1 & E & ->)%fmap_Some;
        (apply not_elem_of_cons; split; [lia|apply (IH k0 k1); [lia|done|done]]).
    - intros (k1 & E & ->)%fmap_Some. apply not_elem_of_cons. split; [done|apply (IH k0 k1); [lia|done|done]]. }
  intros k'. by apply (H (length k)).
Qed.
Lemma plain_keys fuel : forall v ks, 92 ∉ v -> parse_keys fuel v = Some ks -> Forall (fun k => plain_text k = true) ks.
Proof.
  induction fuel as [|fuel IH]; intros [|x v] ks Hv; cbn [parse_keys]; try (by intros [= <-]). destruct (x =? 47); [|done].
  pose proof (take_key_app v) as (E & _). destruct (take_key v) as [k r]. cbn [fst snd] in E.
  assert (Hk : (92 ∉ k) /\ (92 ∉ r)) by (rewrite E in Hv; set_solver). destruct Hk as [Hk Hr].
  destruct (unescape_key k) as [k'|] eqn:E1; [|done]. destruct (parse_keys fuel r) as [ks'|] eqn:E2; [|done]. intros [= <-].
  constructor; [by apply plain_text_in, (plain_unescape k)|by apply (IH r)].
Qed.
Lemma plain_pointer p ks : plain_text p = true -> parse_pointer p = Some ks -> Forall (fun k => plain_text k = true) ks.
Proof. intros Hp%plain_text_in. by apply plain_keys. Qed.

Definition plain_change (ch : change) : Prop :=
  match ch with
  | CAdd p w | CReplace p w => plain_text p = true /\ plain w = true
  | CRemove p => plain_text p = true
  | CCopy p from | CMove p from => plain_text p = true /\ plain_text from = true
  | CTest _ _ => True
  end.
Lemma plain_string_at k v s : plain v = true -> string_at k v = Some s -> plain_text s = true.
Proof.
  intros Hv. unfold string_at. destruct (child k v) as [[t x| |]|] eqn:E; try done. destruct (token_eqb t JString) eqn:Et; [|done].
  intros [= <-]. apply (plain_child k v) in E; [|done]. cbn [plain] in E. rewrite Et in E. cbn [negb orb] in E.
  apply plain_text_in. apply plain_text_in in E. unfold strip.
  intros H. apply E. apply elem_of_take in H as (i & H & _). rewrite lookup_drop in H. by eapply list_elem_of_lookup_2.
Qed.
Lemma plain_decode v ch : plain v = true -> decode v = Some ch -> plain_change ch.
Proof.
  intros Hv. unfold decode. destruct (string_at (bytes "op") v) as [t|]; [|done]. cbn [mbind option_bind].
  destruct (op_text t) as [type|]; [|done]. cbn [mbind option_bind]. destruct (string_at (bytes "path") v) as [p|] eqn:Ep; [|done].
  cbn [mbind option_bind]. apply plain_string_at in Ep; [|done].
  assert (Hvalue : forall w, child (bytes "value") v = Some w -> plain w = true) by (intros w; by apply plain_child).
  assert (Hfrom : forall f, string_at (bytes "from") v = Some f -> plain_text f = true) by (intros f; by apply plain_string_at).
  destruct type; try done; try (by intros [= <-]);
    first [destruct (child (bytes "value") v) as [w|]; [|done]; intros [= <-]; first [done|by split; [|apply Hvalue]]
          |destruct (string_at (bytes "from") v) as [f|]; [|done]; intros [= <-]; by split; [|apply Hfrom]].
Qed.
Lemma plain_apply ch v v' : plain_change ch -> plain v = true -> apply_change ch v = Some v' -> plain v' = true.
Proof.
  intros Hch Hv.
  assert (He : forall action p ks w u u', plain_text p = true -> parse_pointer p = Some ks -> plain w = true -> plain u = true ->
    edit_value action ks w u = Some u' -> plain u' = true).
  { intros action p ks w u u' Hp E. apply plain_edit. exact (plain_pointer p ks Hp E). }
  destruct ch as [p w|p|p w|p from|p from|p w]; cbn [apply_change plain_change] in *.
  - destruct Hch as [Hp Hw]. destruct (parse_pointer p) as [ks|] eqn:E; [|done]. by apply (He JsonDoc.Insert p ks w v v').
  - destruct (parse_pointer p) as [ks|] eqn:E; [|done]. by apply (He Remove p ks (JArr []) v v').
  - destruct Hch as [Hp Hw]. destruct (parse_pointer p) as [ks|] eqn:E; [|done]. by apply (He Replace p ks w v v').
  - destruct Hch as [Hp Hf]. destruct (list_eqb p from); [by intros [= <-]|]. destruct (parse_pointer from) as [fs|]; [|done]. cbn [mbind option_bind].
    destruct (resolve fs v) as [x|] eqn:Ex; [|done]. cbn [mbind option_bind]. destruct (parse_pointer p) as [ks|] eqn:E; [|done].
    apply (He JsonDoc.Insert p ks x v v'); [done|done|by apply (plain_resolve fs v)|done].
  - destruct Hch as [Hp Hf]. destruct (list_eqb p from); [by intros [= <-]|]. destruct (parse_pointer from) as [fs|] eqn:Ef; [|done]. cbn [mbind option_bind].
    destruct (resolve fs v) as [x|] eqn:Ex; [|done]. cbn [mbind option_bind]. destruct (removed fs v) as [u|] eqn:Eu; [|done].
    cbn [mbind option_bind]. destruct (parse_pointer p) as [ks|] eqn:E; [|done].
    apply (He JsonDoc.Insert p ks x u v'); [done|done|by apply (plain_resolve fs v)|].
    by apply (He Remove from fs (JArr []) v u).
  - by intros [= <-].
Qed.
Lemma plain_changes chs : Forall plain_change chs -> forall v v', plain v = true -> apply_changes chs v = Some v' -> plain v' = true.
Proof.
  induction 1 as [|ch chs Hch _ IH]; intros v v' Hv; cbn [apply_changes]; [by intros [= <-]|].
  destruct (apply_change ch v) as [u|] eqn:E; [|done]. cbn [mbind option_bind]. apply IH. by apply (plain_apply ch v).
Qed.
Lemma plain_patch os v v' : forallb plain os = true -> plain v = true -> patch_value os v v' -> plain v' = true.
Proof.
  intros Ho Hv (chs & E & _ & Ha). apply (plain_changes (edits_of chs)) in Ha; [done| |done].
  apply Forall_forall. intros ch [_ Hch]%list_elem_of_filter. apply mapM_Some in E.
  apply list_elem_of_lookup in Hch as [i Hi]. destruct (Forall2_lookup_r _ _ _ _ _ E Hi) as (o & Hoi & Hd).
  apply (plain_decode o); [|done]. apply (proj1 (forallb_forall _ _) Ho). by apply list_elem_of_In; eapply list_elem_of_lookup_2.
Qed.

(** The meaning of a pointer and of a patch *)
Lemma plain_resolved ks v : plain v = true -> meaning <$> resolve ks v = resolve ks (meaning v).
Proof.
  intros H. rewrite (plain_meaning v H). destruct (resolve ks v) as [x|] eqn:E; [|done]. cbn. f_equal.
  apply plain_meaning. by apply (plain_resolve ks v).
Qed.
Lemma plain_meanings os : forallb plain os = true -> meaning <$> os = os.
Proof.
  intros H. rewrite <-(list_fmap_id os) at 2. apply list_fmap_ext. intros i o Ho%list_elem_of_lookup_2. apply plain_meaning.
  by apply (proj1 (forallb_forall _ _) H), list_elem_of_In.
Qed.
