(* ===== verification/JsonTheorems.v ===== *)
(** What is proved of JSON documents: pointers, patches, equality, the writer and pointer texts,
    with small documents on which the theorems are applied. *)
From S2P Require Import Prelude.
From S2P Require Import Token.
From S2P Require Import Source.
From S2P Require Import Ast.
From S2P Require Import AstFacts.
From S2P Require Import Wellformed.
From S2P Require Import WfOps.
From S2P Require Import WfBuild.
From S2P Require Import Cursor.
From S2P Require Import JsonParse.
From S2P Require Import JsonWriter.
From S2P Require Import Stod.
From S2P Require Import JsonDoc.
From S2P Require Import CloneFacts.
From S2P Require Import JsonValue.
From S2P Require Import JsonSpec.
From S2P Require Import JsonEdits.
From S2P Require Import JsonBuild.
From S2P Require Import JsonCompare.
From S2P Require Import JsonDecode.
From stdpp Require Export gmap.
#[local] Set Warnings "-register-all".
Open Scope Z_scope.

(** * Documents of values *)

(** A document is a tree of its own: its nodes are stored, each in one place. *)
Record document (h : heap) (d : jdoc) : Prop := {
  doc_stored : stored h d;
  doc_nodup : NoDup (dnodes d)
}.

(** The nodes a value is built of, with the operations of the store *)
Fixpoint make (v : json) (h : heap) : jdoc * heap :=
  match v with
  | JLeaf t s => let '(n, h) := create h t (location_of_string 1 s) in (DLeaf n t s, h)
  | JArr vs =>
      let '(n, h) := create h Array null_location in
      let '(ds, h) :=
        (fix go (vs : list json) (h : heap) : list jdoc * heap :=
           match vs with
           | [] => ([], h)
           | v :: vs =>
               let '(d, h) := make v h in
               let '(ds, h) := go vs (push_back h n (Some (droot d))) in (d :: ds, h)
           end) vs h in
      (DArr n ds, h)
  | JObj ms =>
      let '(n, h) := create h Object null_location in
      let '(ds, h) :=
        (fix go (ms : list (list Z * json)) (h : heap) : list (Mem * jdoc) * heap :=
           match ms with
           | [] => ([], h)
           | (k, v) :: ms =>
               let '(m, h) := create h Member null_location in
               let '(kn, h) := create h Key (location_of_string 1 k) in
               let '(d, h) := make v (push_back h m (Some kn)) in
               let h := push_back (push_back h m (Some (droot d))) n (Some m) in
               let '(ds, h) := go ms h in ((mkMem m kn k, d) :: ds, h)
           end) ms h in
      (DObj n ds, h)
  end.

(** A test of [stored] *)
Definition reads_text (h : heap) (n : Node) (s : list Z) : bool :=
  match view (location_of h n) with Returns x => list_eqb x s | _ => false end.
Definition check_member (h : heap) (n : Node) (m : Mem) (v : Node) : bool :=
  bool_decide (is_Some (h !! m_node m)) && token_eqb (type_of h (m_node m)) Member
  && bool_decide (parent_of h (m_node m) = Some n)
  && bool_decide (children_of h (m_node m) = [m_key_node m; v])
  && bool_decide (is_Some (h !! m_key_node m)) && token_eqb (type_of h (m_key_node m)) Key
  && reads_text h (m_key_node m) (m_key m) && bool_decide (children_of h (m_key_node m) = [])
  && bool_decide (parent_of h (m_key_node m) = Some (m_node m)) && bool_decide (parent_of h v = Some (m_node m)).
Fixpoint check_doc (h : heap) (d : jdoc) : bool :=
  match d with
  | DLeaf n t s =>
      bool_decide (is_Some (h !! n)) && token_eqb (type_of h n) t && token_in scalar_tokens t
      && reads_text h n s && bool_decide (children_of h n = [])
  | DArr n ds =>
      bool_decide (is_Some (h !! n)) && token_eqb (type_of h n) Array
      && bool_decide (children_of h n = droot <$> ds)
      && forallb (fun d => bool_decide (parent_of h (droot d) = Some n)) ds && forallb (check_doc h) ds
  | DObj n ms =>
      bool_decide (is_Some (h !! n)) && token_eqb (type_of h n) Object
      && bool_decide (is_Some (symtab_of h n))
      && bool_decide (children_of h n = (fun p => m_node p.1) <$> ms)
      && forallb (fun p => check_member h n p.1 (droot p.2)) ms && forallb (fun p => check_doc h p.2) ms
  end.

Lemma reads_text_view h n s : reads_text h n s = true -> view (location_of h n) = Returns s.
Proof. unfold reads_text. destruct (view _) as [x| |]; [|done..]. by intros ->%list_eqb_eq. Qed.

Lemma check_member_ok h n m v : check_member h n m v = true -> member_ok h n m v.
Proof.
  unfold check_member. rewrite !andb_true_iff, !bool_decide_eq_true, !token_eqb_eq.
  intros (((((((((?&?)&?)&?)&?)&?)&?%reads_text_view)&?)&?)&?). by split.
Qed.

Lemma check_stored h d : check_doc h d = true -> stored h d.
Proof.
  induction d as [n t s|n ds IH|n ms IH] using jdoc_ind'; cbn [check_doc];
    rewrite !andb_true_iff, ?bool_decide_eq_true, ?token_eqb_eq.
  - intros ((((?&?)&Hsc)&?%reads_text_view)&?). apply stored_leaf_inv. split; try done.
    unfold token_in in Hsc. apply existsb_exists in Hsc as (x & Hx & ->%token_eqb_eq). by apply list_elem_of_In.
  - intros ((((?&?)&?)&Hp)&Hs). apply stored_arr_inv. split.
    + split; try done. apply Forall_fmap, Forall_forall. intros d Hd. cbn.
      pose proof (proj1 (forallb_forall _ _) Hp d ltac:(by apply list_elem_of_In)) as E.
      by apply bool_decide_eq_true in E.
    + apply Forall_forall. intros d Hd. apply (proj1 (Forall_forall _ _) IH d Hd).
      apply (proj1 (forallb_forall _ _) Hs d). by apply list_elem_of_In.
  - intros (((((?&?)&?)&Hc)&Hm)&Hs). apply stored_obj_inv. split.
    + split; try done; [by rewrite <-list_fmap_compose|]. apply Forall_fmap, Forall_forall. intros p Hp. cbn.
      apply check_member_ok. apply (proj1 (forallb_forall _ _) Hm p). by apply list_elem_of_In.
    + apply Forall_forall. intros p Hp. apply (proj1 (Forall_forall _ _) IH p Hp).
      apply (proj1 (forallb_forall _ _) Hs p). by apply list_elem_of_In.
Qed.

(** * The compact text of a value *)





Section Compact.
Context (sk : bool) (ind : list Z).




End Compact.


(** * The theorems *)

Section Theorems.
Context (c : WfContexts) (id : positive).




(** C19: [equal] decides whether two documents have the same value, where objects are the same when
    they have the same keys with the same values in any order, and numbers when they are equal as
    doubles; the keys of an object differ and the numbers are in the range of a double. *)
Theorem equal_correct h a b : document h a -> document h b ->
  comparable (value a) = true -> comparable (value b) = true ->
  exists r, equal h (droot a) (droot b) = Returns r /\ (r = true <-> same_value (value a) (value b)).
Proof. intros [Ha Hda] [Hb _]. by apply equal_decides. Qed.


(** A pointer written of keys, with [~] and [/] escaped, is read as these keys. *)
Theorem pointer_round_trip h path ks : text_at path (pointer_text ks) ->
  exists locs, new_pointer id h path = Returns (mkPointer locs path None, h)
    /\ Forall2 (fun l k => view l = Returns k) locs ks.
Proof.
  intros T. destruct (pointer_keys id h path ks) as (locs & E & H); [|by exists locs].
  apply (text_pointer _ (pointer_text ks)); [done|]. apply parse_pointer_text.
Qed.
End Theorems.

(** * Samples *)

Module Sample.
Definition text_of (s : list Z) : json := JLeaf JString ([34] ++ s ++ [34]).
Definition num (s : list Z) : json := JLeaf Number s.
Definition sample : json :=
  JObj [(bytes "a", JArr [num (bytes "1"); num (bytes "2")]); (bytes "b", text_of (bytes "x"))].
Definition operation_of (op path : list Z) (rest : list (list Z * json)) : json :=
  JObj ([(bytes "op", text_of op); (bytes "path", text_of path)] ++ rest).
Definition operations : json :=
  JArr [operation_of (bytes "replace") (bytes "/a/0") [(bytes "value", JLeaf JTrue (bytes "true"))];
        operation_of (bytes "test") (bytes "/b") [(bytes "value", text_of (bytes "x"))];
        operation_of (bytes "move") (bytes "/a/1") [(bytes "from", text_of (bytes "/b"))]].

Definition doc : jdoc := (make sample ∅).1.
Definition ops : jdoc := (make operations (make sample ∅).2).1.
Definition store : heap := (make operations (make sample ∅).2).2.
Definition path_of (s : list Z) : Location := location_of_string 1 s.

(** A check that the nodes differ *)
Lemma nodup_check (l : list Node) : bool_decide (NoDup l) = true -> NoDup l.
Proof. by intros ?%bool_decide_eq_true. Qed.
Lemma checked_document h d : check_doc h d = true -> bool_decide (NoDup (dnodes d)) = true -> document h d.
Proof. intros Hc Hd. split; [by apply check_stored|by apply nodup_check]. Qed.

Lemma doc_ok : document store doc.
Proof. apply checked_document; vm_compute; reflexivity. Qed.
Lemma ops_ok : document store ops.
Proof. apply checked_document; vm_compute; reflexivity. Qed.




End Sample.



Lemma equal_correct_witness : exists r,
  equal Sample.store (droot Sample.doc) (droot Sample.ops) = Returns r
  /\ (r = true <-> same_value (value Sample.doc) (value Sample.ops)).
Proof.
  apply (equal_correct Sample.store Sample.doc Sample.ops).
  - exact Sample.doc_ok.
  - exact Sample.ops_ok.
  - vm_compute. reflexivity.
  - vm_compute. reflexivity.
Defined.


Lemma pointer_round_trip_witness :
  exists locs, new_pointer 1 ∅ (Sample.path_of (bytes "/a~1b/~0"))
      = Returns (mkPointer locs (Sample.path_of (bytes "/a~1b/~0")) None, ∅)
    /\ Forall2 (fun l k => view l = Returns k) locs [bytes "a/b"; bytes "~"].
Proof.
  apply (pointer_round_trip 1 ∅ (Sample.path_of (bytes "/a~1b/~0")) [bytes "a/b"; bytes "~"]).
  split; [|reflexivity|reflexivity]. unfold location_ok. cbn. split_and!; [by apply synthetic_ok|done|lia..].
Defined.

(** * Patches, pointers and comparisons run on small documents: where the code departs from
    RFC 6901 and RFC 6902. *)

(** The value under a node, read back; an error as its text *)
Fixpoint read (fuel : nat) (h : heap) (n : Node) : option json :=
  match fuel with
  | O => None
  | S fuel =>
      if token_eqb (type_of h n) Array then JArr <$> mapM (read fuel h) (children_of h n)
      else if token_eqb (type_of h n) Object then
        JObj <$> mapM (fun m =>
          match children_of h m with
          | [k; v] =>
              match view (location_of h k) with
              | Returns s => (fun v => (s, v)) <$> read fuel h v
              | _ => None
              end
          | _ => None
          end) (children_of h n)
      else if token_eqb (type_of h n) Error then
        match children_of h n with
        | m :: _ => match view (location_of h m) with Returns s => Some (JLeaf Error s) | _ => None end
        | [] => None
        end
      else match view (location_of h n) with Returns s => Some (JLeaf (type_of h n) s) | _ => None end
  end.
Definition outcome_of (r : outcome (Node * heap)) : outcome (option json) :=
  '(n, h) ← r; Returns (read (S (size h)) h n).

(** The documents are made and their tables built. *)
Definition with_documents {A} (v w : json) (f : heap -> jdoc -> jdoc -> outcome A) : outcome A :=
  let '(d, h) := make v ∅ in
  let '(e, h) := make w h in
  '(h, _) ← build_st h (droot d); '(h, _) ← build_st h (droot e); f h d e.

Definition run_patch (v ops : json) : outcome (option json) :=
  with_documents v ops (fun h d p => outcome_of (patch initial_contexts 1 h (droot d) (droot p))).
Definition run_select (v : json) (path : list Z) : outcome (option json) :=
  with_documents v (JArr []) (fun h d _ =>
    outcome_of (select initial_contexts 1 h (droot d) (location_of_string 1 path))).
Definition run_equal (v w : json) : outcome bool :=
  with_documents v w (fun h d e => equal h (droot d) (droot e)).
Definition run_write (v : json) (sk : bool) : outcome (list Z) :=
  with_documents v (JArr []) (fun h d _ => to_string initial_contexts h (droot d) false sk []).

Definition num (s : list Z) : json := JLeaf Number s.
Definition str (s : list Z) : json := JLeaf JString ([34] ++ s ++ [34]).
Definition member (k : list Z) (v : json) : list Z * json := (k, v).
Definition op (name path : list Z) (rest : list (list Z * json)) : json :=
  JObj ([(bytes "op", str name); (bytes "path", str path)] ++ rest).
Definition a1 : json := JObj [(bytes "a", num (bytes "1"))].

(** [copy] to the root: the document stays as it is. *)
Lemma copy_to_root : run_patch a1 (JArr [op (bytes "copy") [] [(bytes "from", str (bytes "/a"))]]) = Returns (Some a1).
Proof. vm_compute. reflexivity. Qed.

(** [move] to the root: the value is lost. *)
Lemma move_to_root : run_patch a1 (JArr [op (bytes "move") [] [(bytes "from", str (bytes "/a"))]]) = Returns (Some (JObj [])).
Proof. vm_compute. reflexivity. Qed.

(** [move] into what is moved is no error, and the value is lost: the table of the object still
    finds the member that was taken out. *)
Lemma move_into_itself :
  run_patch (JObj [(bytes "a", JObj [(bytes "b", num (bytes "1"))])])
    (JArr [op (bytes "move") (bytes "/a/c") [(bytes "from", str (bytes "/a"))]])
  = Returns (Some (JObj [])).
Proof. vm_compute. reflexivity. Qed.

(** Every [test] is made on the document as it was given: one of a value that an operation before
    it adds fails, and one of a value that was removed holds. *)
Lemma test_before_add :
  run_patch a1 (JArr [op (bytes "add") (bytes "/b") [(bytes "value", num (bytes "2"))];
                      op (bytes "test") (bytes "/b") [(bytes "value", num (bytes "2"))]])
  = Returns (Some (JLeaf Error (bytes "Member does not exist with key: b"))).
Proof. vm_compute. reflexivity. Qed.
Lemma test_before_remove :
  run_patch a1 (JArr [op (bytes "remove") (bytes "/a") [];
                      op (bytes "test") (bytes "/a") [(bytes "value", num (bytes "1"))]])
  = Returns (Some (JObj [])).
Proof. vm_compute. reflexivity. Qed.

(** [copy] of a missing value onto itself is no error. *)
Lemma copy_of_nothing :
  run_patch a1 (JArr [op (bytes "copy") (bytes "/b") [(bytes "from", str (bytes "/b"))]]) = Returns (Some a1).
Proof. vm_compute. reflexivity. Qed.

(** An insertion takes a text that is no index when its leading digits are the size of the array:
    they are none in an empty one. *)
Lemma insert_at_no_index :
  run_patch (JArr []) (JArr [op (bytes "add") (bytes "/x") [(bytes "value", num (bytes "1"))]])
  = Returns (Some (JArr [num (bytes "1")])).
Proof. vm_compute. reflexivity. Qed.
Lemma insert_at_digits :
  run_patch (JArr [num (bytes "1"); num (bytes "2")])
    (JArr [op (bytes "add") (bytes "/2nd") [(bytes "value", num (bytes "3"))]])
  = Returns (Some (JArr [num (bytes "1"); num (bytes "2"); num (bytes "3")])).
Proof. vm_compute. reflexivity. Qed.

(** An index is read modulo 2^64. *)
Lemma index_wraps :
  run_select (JArr [num (bytes "1"); num (bytes "2")]) (bytes "/18446744073709551617") = Returns (Some (num (bytes "2"))).
Proof. vm_compute. reflexivity. Qed.

(** The empty key on an array reads the front of an empty view. *)
Lemma empty_index : run_select (JArr [num (bytes "1")]) (bytes "/") = Undefined.
Proof. vm_compute. reflexivity. Qed.

(** Numbers out of the range of a [double] throw. *)
Lemma equal_out_of_range : run_equal (num (bytes "1e400")) (num (bytes "1e400")) = Throws.
Proof. vm_compute. reflexivity. Qed.

(** Strings are compared as they are written, escapes included. *)
Lemma equal_escapes : run_equal (str (bytes "\u0041")) (str (bytes "A")) = Returns false.
Proof. vm_compute. reflexivity. Qed.

(** With [sort_keys] a key that occurs twice is written with its members each time, and the commas
    are those of the number of members. *)
Lemma sorted_duplicates :
  run_write (JObj [(bytes "a", num (bytes "1")); (bytes "a", num (bytes "2"))]) true
  = Returns ([123; 34] ++ bytes "a" ++ [34] ++ bytes ":1," ++ [34] ++ bytes "a" ++ [34] ++ bytes ":2"
             ++ [34] ++ bytes "a" ++ [34] ++ bytes ":1" ++ [34] ++ bytes "a" ++ [34] ++ bytes ":2}").
Proof. vm_compute. reflexivity. Qed.

(** An element is compared with a copy of the value, whose tables find nothing: the message of the
    failure shows an object as empty. *)
Lemma test_message :
  run_patch (JArr [a1]) (JArr [op (bytes "test") (bytes "/0") [(bytes "value", JObj [(bytes "a", num (bytes "2"))])]])
  = Returns (Some (JLeaf Error ([123; 34] ++ bytes "a" ++ [34] ++ bytes ":1} != {}"))).
Proof. vm_compute. reflexivity. Qed.
