(* ===== verification/JsonReader.v ===== *)
(** The JSON reader ([parsers/json/reader.cc]): the pass that groups the values of objects and
    arrays, the pass that gives them their structure, and the reader that runs both on what the
    tokenizer built. *)
From S2P Require Import Prelude.
From S2P Require Import Token.
From S2P Require Import Source.
From S2P Require Import Ast.
From S2P Require Import Wellformed.
From S2P Require Import WfOps.
From S2P Require Import Parse.
From S2P Require Import JsonParse.
From S2P Require Import JsonWriter.
From S2P Require Import JsonDoc.
From S2P Require Import FastPattern.
From S2P Require Import Rewrite.
From S2P Require Import Pass.
From S2P Require Import Passes.
From S2P Require Import Reader.
From stdpp Require Export gmap.
#[local] Set Warnings "-register-all".
Open Scope Z_scope.

(** [wf_groups] *)
Definition wf_groups_shapes : outcome Wellformed :=
  top ← sequence_bound (choice_plus wf_value_tokens) 1;
  object ← shape_token Object ObjectGroup;
  array ← shape_token Array ArrayGroup;
  let wf := shape_or_shape (shape_sequence Token.Top top) object in
  let wf := wf_moved_or_shape wf array in
  let wf := wf_moved_or_shape wf (shape_sequence ObjectGroup
              (choice_plus (choice_or_token (choice_or_token wf_value_tokens Colon) Comma))) in
  Returns (wf_moved_or_shape wf (shape_sequence ArrayGroup
             (choice_plus (choice_or_token wf_value_tokens Comma)))).
Definition wf_groups : Wellformed :=
  match wf_groups_shapes with Returns wf => wf | _ => empty_wf end.

(** [ValueToken] *)
Definition value_tokens : list Token := [Object; Array; JString; Number; JTrue; JFalse; Null].
Definition ValueToken : Pattern := T value_tokens.

(** A chain of [*] *)
Fixpoint seq_all (p : Pattern) (ps : list Pattern) : outcome Pattern :=
  match ps with
  | [] => Returns p
  | q :: ps => r ← pattern_seq p q; seq_all r ps
  end.

Section Passes.
Context (id : positive).

(** ** Building nodes *)

(** [Token << x] for a node and for a range of nodes *)
Definition node_of (h : heap) (type : Token) (n : option Node) : Node * heap :=
  let '(r, h) := create_token h type in (r, shl_node h r n).
Definition node_of_range (h : heap) (type : Token) (range : list Node) : Node * heap :=
  let '(r, h) := create_token h type in (r, shl_range h r range).

(** [err(msg)] and [err(range, msg)] of internal.h *)
Definition err_msg (h : heap) (msg : list Z) : Node * heap :=
  let '(e, h) := create_token h Error in
  let '(m, h) := pow_text id h ErrorMsg msg in
  (e, shl_node h e (Some m)).
Definition err_range (h : heap) (range : list Node) (msg : list Z) : Node * heap :=
  let '(e, h) := err_msg h msg in
  let '(a, h) := node_of_range h ErrorAst range in
  (e, shl_node h e (Some a)).

(** [_(token)] of a match whose pattern captures the token *)
Definition captured (h : heap) (m : Match) (token : Token) : outcome Node :=
  n ← match_node h m token; or_undefined n.

(** ** [groups] *)

(** [[](Match& _) { return type << *_[Group]; }] *)
Definition group_effect (type : Token) : Effect := fun _ m h =>
  let '(n, h) := create_token h type in
  Returns (Some n, shl_range_contents h n (range_nodes h (match_range m Group))).
Definition top_effect (allow_multiple : bool) : Effect := fun _ m h =>
  let values := range_nodes h (match_range m Value) in
  let '(n, h) :=
    if range_empty (match_range m Value) then err_msg h (bytes "Invalid JSON")
    else if (1 <? length values)%nat && negb allow_multiple
    then err_msg h (bytes "Multiple top-level values not allowed")
    else node_of_range h Seq values in
  Returns (Some n, h).
Definition error_effect (token : Token) (msg : list Z) : Effect := fun _ m h =>
  let '(n, h) := err_range h (range_nodes h (match_range m token)) msg in Returns (Some n, h).

Definition groups_rules (allow_multiple : bool) : outcome (list Rule) :=
  array ← pattern_seq (Rewrite.In [Array]) (pattern_cap Group (T [Group]));
  object ← pattern_seq (Rewrite.In [Object]) (pattern_cap Group (T [Group]));
  values ← pattern_rep ValueToken;
  values ← pattern_seq (pattern_cap Value values) End_;
  group ← pattern_seq (pattern_children (T [Group]) values) End_;
  file ← pattern_seq (Rewrite.In [Token.Top]) (pattern_children (T [File]) group);
  bad_file ← pattern_seq (Rewrite.In [Token.Top]) (pattern_cap File (T [File]));
  colon ← pattern_seq (Rewrite.In [ArrayGroup]) (pattern_cap Colon (T [Colon]));
  Returns [mkRule array (group_effect ArrayGroup);
           mkRule object (group_effect ObjectGroup);
           mkRule file (top_effect allow_multiple);
           mkRule bad_file (error_effect File (bytes "Invalid JSON"));
           mkRule colon (error_effect Colon (bytes "Invalid colon in array"))].

Definition groups (allow_multiple : bool) : outcome PassDef :=
  rules ← groups_rules allow_multiple;
  Returns (new_pass "groups" wf_groups dir_bottomup rules).

(** ** [structure] *)

(** [[](Match& _) { return Value << _(Value); }] *)
Definition first_value_effect : Effect := fun _ m h =>
  v ← captured h m Value;
  let '(n, h) := node_of h Value (Some v) in Returns (Some n, h).
Definition next_value_effect : Effect := fun _ m h =>
  lhs ← captured h m Lhs;
  let '(s, h) := node_of h Seq (Some lhs) in
  rhs ← captured h m Rhs;
  let '(n, h) := node_of h Value (Some rhs) in
  Returns (Some s, shl_node h s (Some n)).

(** [Seq << _[token]] *)
Definition unwrap_effect (token : Token) : Effect := fun _ m h =>
  let '(s, h) := node_of_range h Seq (range_nodes h (match_range m token)) in Returns (Some s, h).

(** [_(Value)->front()]; [front] of no children is undefined. *)
Definition front_effect : Effect := fun _ m h =>
  v ← captured h m Value;
  n ← or_undefined (head (children_of h v)); Returns (Some n, h).

(** [Member << (Key ^ key) << _(Rhs)], where [key] is the text of the string without its quotes *)
Definition member_of (h : heap) (lhs : Node) (m : Match) : outcome (Node * heap) :=
  let l := location_of h lhs in
  let key := mkLocation (source l) (u64 (pos l + 1)) (u64 (len l - 2)) in
  let '(n, h) := create_token h Member in
  let '(k, h) := pow_location h Key key in
  let h := shl_node h n (Some k) in
  rhs ← captured h m Rhs;
  Returns (n, shl_node h n (Some rhs)).
Definition first_member_effect : Effect := fun _ m h =>
  lhs ← captured h m Lhs;
  '(n, h) ← member_of h lhs m; Returns (Some n, h).
Definition next_member_effect : Effect := fun _ m h =>
  lhs ← captured h m Lhs;
  previous ← captured h m Member;
  let '(s, h) := node_of h Seq (Some previous) in
  '(n, h) ← member_of h lhs m;
  Returns (Some s, shl_node h s (Some n)).

Definition structure_rules : outcome (list Rule) :=
  first_value ← seq_all Start [pattern_cap Value ValueToken];
  first_value ← pattern_seq (Rewrite.In [ArrayGroup]) first_value;
  next_value ← seq_all (pattern_cap Lhs (T [Value])) [T [Comma]; pattern_cap Rhs ValueToken];
  next_value ← pattern_seq (Rewrite.In [ArrayGroup]) next_value;
  array ← pattern_rep (T [Value]);
  array ← pattern_seq (pattern_cap Array array) End_;
  array ← pattern_seq (Rewrite.In [Array]) (pattern_children (T [ArrayGroup]) array);
  value ← pattern_seq (Rewrite.In [Array]) (pattern_cap Value (T [Value]));
  first_member ← seq_all Start [pattern_cap Lhs (T [JString]); T [Colon]; pattern_cap Rhs ValueToken];
  first_member ← pattern_seq (Rewrite.In [ObjectGroup]) first_member;
  next_member ← seq_all (pattern_cap Member (T [Member]))
                  [T [Comma]; pattern_cap Lhs (T [JString]); T [Colon]; pattern_cap Rhs ValueToken];
  next_member ← pattern_seq (Rewrite.In [ObjectGroup]) next_member;
  object ← pattern_rep (T [Member]);
  object ← pattern_seq (pattern_cap Object object) End_;
  object ← pattern_seq (Rewrite.In [Object]) (pattern_children (T [ObjectGroup]) object);
  Returns [mkRule first_value first_value_effect;
           mkRule next_value next_value_effect;
           mkRule array (unwrap_effect Array);
           mkRule value front_effect;
           mkRule first_member first_member_effect;
           mkRule next_member next_member_effect;
           mkRule object (unwrap_effect Object)].

(** ** [invalid_tokens] *)

(** The loop over the children: an error in the place of every child that has a message *)
Fixpoint invalid_children (messages : list (Token * list Z)) (node : Node) (indices : list nat)
    (h : heap) (changes : Z) : outcome (heap * Z) :=
  match indices with
  | [] => Returns (h, changes)
  | i :: indices =>
      child ← or_undefined (children_of h node !! i);
      match list_find (fun '(t, _) => type_of h child = t) messages with
      | Some (_, (_, msg)) =>
          '(e, h) ← err_text id h child msg;
          h ← replace h node child (Some e);
          invalid_children messages node indices h (u64 (changes + 1))
      | None => invalid_children messages node indices h changes
      end
  end.
Definition invalid_pre (messages : list (Token * list Z)) (n : Node) (s : heap * Z)
    : outcome (bool * (heap * Z)) :=
  let '(h, changes) := s in
  if token_eqb (type_of h n) Error then Returns (false, s)
  else
    s ← invalid_children messages n (seq 0 (length (children_of h n))) h changes;
    Returns (true, s).
Definition invalid_tokens (fuel : nat) (messages : list (Token * list Z)) (node : Node) (h : heap)
    : outcome (Z * heap) :=
  '(h, changes) ← traverse fst (invalid_pre messages) NopPost fuel node (h, 0);
  Returns (changes, h).

Definition structure_messages : list (Token * list Z) :=
  [(ObjectGroup, bytes "Invalid object"); (ArrayGroup, bytes "Invalid array")].
Definition structure (fuel : nat) : outcome PassDef :=
  rules ← structure_rules;
  Returns (pass_post (new_pass "structure" json_wf dir_bottomup rules)
             (fun _ n h => invalid_tokens fuel structure_messages n h)).

(** * [json::reader] *)
Definition json_passes (fuel : nat) (allow_multiple : bool) : outcome (list PassDef) :=
  g ← groups allow_multiple; s ← structure fuel; Returns [g; s].
Definition json_reader {fs : FileSystem} (fuel : nat) (allow_multiple : bool)
    : outcome (Reader JsonParse.Stack fs PassDef) :=
  passes ← json_passes fuel allow_multiple;
  Returns (new_reader (bytes "json") passes json_parser).
End Passes.

(** * Dumps of the parse tree *)

(** The first dump of a debugged reader carries the name of the parser, [parse]; a reader that is
    asked to go on from that pass, as the driver does for such a dump, knows no such pass. *)
Lemma parse_dump_refused {U : Type} {fs : FileSystem} {P : Type} `{IsPass P} levels fuel tokens (r : Reader U fs P) c w dir input :
  input_ r = Some input -> end_pass_ r = ""%string -> Forall (fun p => name_of p <> parse_only) (reader_passes r) ->
  exists res w', read levels fuel tokens (set_start_pass r parse_only) c w dir = Returns (res, w', dir)
    /\ ok res = false /\ result_ast res = None.
Proof.
  intros Hi He Hp. unfold read, set_start_pass. cbn [input_]. rewrite Hi. unfold end_range. cbn [end_pass_].
  rewrite He. cbn [String.eqb mbind outcome_bind]. unfold read_input. cbn [start_pass_].
  unfold move_start, find_in_range. cbn [passes start end_ new_range reader_passes].
  rewrite drop_0, take_ge by done.
  assert (E : forall i, find_pass parse_only (reader_passes r) i = None).
  { induction Hp as [|p ps Hp _ IH]; intros i; [done|]. cbn. by rewrite (proj2 (String.eqb_neq _ _) Hp), IH. }
  rewrite E. cbn. by eexists _, _.
Qed.

(** * The passes on a small tree *)

Module Sample.
Definition fuel : nat := 40.
#[export] Instance passes_are : IsPass PassDef := passdef_is_pass fuel (fun _ _ => new_match).
Definition first : PassDef :=
  match groups 1 false with Returns p => p | _ => new_pass "" empty_wf 0 [] end.
Definition second : PassDef :=
  match structure 1 fuel with Returns p => p | _ => new_pass "" empty_wf 0 [] end.

Lemma passes_defined : json_passes 1 fuel false = Returns [first; second].
Proof. reflexivity. Qed.

(** The tree of the text [[true]] *)
Definition loc (s : list Z) : Location := location_of_string 2 s.
Definition store : heap :=
  let '(top, h) := create_token ∅ Token.Top in
  let '(file, h) := create h File (loc (bytes "[true]")) in
  let h := push_back h top (Some file) in
  let '(g, h) := create h Group (loc (bytes "[")) in
  let h := push_back h file (Some g) in
  let '(a, h) := create h Array (loc (bytes "[")) in
  let h := push_back h g (Some a) in
  let '(g2, h) := create h Group (loc (bytes "true")) in
  let h := push_back h a (Some g2) in
  let '(t, h) := create h JTrue (loc (bytes "true")) in
  push_back h g2 (Some t).

Definition stored_after {A} (r : outcome (A * heap)) : heap := match r with Returns (_, h) => h | _ => ∅ end.
Definition checked (wf : Wellformed) (h : heap) := validate fuel true wf (Some 1%positive) [] h.
Definition h0 : heap := stored_after (checked wf_parse store).
Definition ran1 := run_of first ([wf_parse; wf_of first] :: initial_contexts) 1%positive h0.
Definition h1 : heap := stored_after ran1.
Definition h2 : heap := stored_after (checked (wf_of first) h1).
Definition ran2 := run_of second ([wf_of first; wf_of second] :: initial_contexts) 1%positive h2.
Definition h3 : heap := stored_after ran2.
Definition h4 : heap := stored_after (checked (wf_of second) h3).

Lemma valid0 : valid fuel true wf_parse 1%positive store h0.
Proof. vm_compute. reflexivity. Qed.
Lemma ran_first : run_of first ([wf_parse; wf_of first] :: initial_contexts) 1%positive h0 = Returns (1%positive, 2, 2, h1).
Proof. vm_compute. reflexivity. Qed.
Lemma valid1 : valid fuel true (wf_of first) 1%positive h1 h2.
Proof. vm_compute. reflexivity. Qed.
Lemma ran_second : run_of second ([wf_of first; wf_of second] :: initial_contexts) 1%positive h2 = Returns (1%positive, 2, 3, h3).
Proof. vm_compute. reflexivity. Qed.
Lemma valid2 : valid fuel true (wf_of second) 1%positive h3 h4.
Proof. vm_compute. reflexivity. Qed.
End Sample.

Import Sample.
Lemma process_correct_witness :
  exists w', process_run fuel true (Some (default_pass_complete fuel (bytes "json") false))
      (new_range [first; second] wf_parse parse_only) initial_contexts (Some 1%positive) store
      (mkOutDir false false (fun _ => false) [])
    = Returns (mkResult true (name_after parse_only [first; second]) (Some 1%positive) [] 5, h4, w').
Proof.
  destruct (process_correct fuel true initial_contexts (default_pass_complete fuel (bytes "json") false)
    (default_quiet fuel (bytes "json")) [first; second] wf_parse parse_only 1%positive store
    (mkOutDir false false (fun _ => false) [])) as [_ H].
  destruct (H h0 1%positive h4 5 valid0) as [_ E].
  - refine (chain_cons fuel true initial_contexts wf_parse first [second] 1%positive h0 0 1%positive 2 2 h1 h2
              1%positive h4 5 ran_first valid1 _).
    refine (chain_cons fuel true initial_contexts (wf_of first) second [] 1%positive h2 2 1%positive 2 3 h3 h4
              1%positive h4 5 ran_second valid2 _).
    exact (chain_nil fuel true initial_contexts (wf_of second) 1%positive h4 5).
  - exact E.
Defined.
