(* ===== verification/RefCount.v ===== *)
(** Intrusive pointers ([include/trieste/intrusive_ptr.h]): objects that count the pointers to
    them, the operations of [intrusive_ptr], and the destruction that keeps a work list instead
    of recursing.  The operations keep every count exact, so no object is used after it was
    freed, and an object lives exactly as long as some pointer holds it. *)
From S2P Require Import Prelude.
From stdpp Require Export gmap.
#[local] Set Warnings "-register-all".
Open Scope Z_scope.

(** * Objects and pointers *)

(** An object is an address; a slot is where an [intrusive_ptr] lives: a variable, or a member of
    an object. *)
Definition Obj := positive.
Bind Scope positive_scope with Obj.
Inductive Slot := Var (v : positive) | Mem (o : Obj) (i : nat).

#[export] Instance Slot_eq_dec : EqDecision Slot.
Proof. solve_decision. Defined.
#[export] Instance Slot_countable : Countable Slot.
Proof.
  refine (inj_countable'
    (fun s => match s with Var v => inl v | Mem o i => inr (o, i) end)
    (fun x => match x with inl v => Var v | inr (o, i) => Mem o i end) _).
  by intros [].
Defined.

(** [copyable_refcount] of an object, and how many members of it are [intrusive_ptr]s *)
Record Object := mkObject { intrusive_refcount : Z; member_count : nat }.

(** An object that was freed, and a slot that is not constructed, are not in the maps. *)
Record State := mkState { objects : gmap Obj Object; slots : gmap Slot (option Obj) }.

Definition or_undefined {A} (o : option A) : outcome A :=
  match o with Some a => Returns a | None => Undefined end.

Definition set_slot (k : Slot) (p : option Obj) (s : State) : State :=
  mkState (objects s) (<[k := p]> (slots s)).
Definition remove_slot (k : Slot) (s : State) : State := mkState (objects s) (delete k (slots s)).
Definition set_count (o : Obj) (n : Z) (s : State) : State :=
  mkState (alter (fun ob => mkObject n (member_count ob)) o (objects s)) (slots s).

(** [get]: reading a pointer that is not constructed is undefined. *)
Definition get (k : Slot) (s : State) : outcome (option Obj) := or_undefined (slots s !! k).

(** * Counting *)

(** [intrusive_inc_ref], and [inc_ref] on a pointer *)
Definition intrusive_inc_ref (o : Obj) (s : State) : outcome State :=
  ob ← or_undefined (objects s !! o);
  Returns (set_count o (u64 (intrusive_refcount ob + 1)) s).
Definition inc_ref (p : option Obj) (s : State) : outcome State :=
  match p with None => Returns s | Some o => intrusive_inc_ref o s end.

(** [fetch_sub(1)], and whether the old value was 1 *)
Definition fetch_sub (o : Obj) (s : State) : outcome (bool * State) :=
  ob ← or_undefined (objects s !! o);
  let prev_rc := intrusive_refcount ob in
  Returns (prev_rc =? 1, set_count o (u64 (prev_rc - 1)) s).

(** The destructor of a member while its object is deleted: [recursion_safe_delete_this] finds
    the work list of the outer call and pushes the object; the back is the head of the list. *)
Definition destroy_member (o : Obj) (w : list Obj * State) (i : nat) : outcome (list Obj * State) :=
  let '(work_list, s) := w in
  p ← get (Mem o i) s;
  let s := remove_slot (Mem o i) s in
  match p with
  | None => Returns (work_list, s)
  | Some q =>
      '(last, s) ← fetch_sub q s;
      Returns (if (last : bool) then q :: work_list else work_list, s)
  end.

Fixpoint destroy_members (o : Obj) (indices : list nat) (w : list Obj * State)
    : outcome (list Obj * State) :=
  match indices with
  | [] => Returns w
  | i :: indices => w ← destroy_member o w i; destroy_members o indices w
  end.

(** [delete ptr]: the destructor, then the memory *)
Definition delete_object (o : Obj) (work_list : list Obj) (s : State) : outcome (list Obj * State) :=
  ob ← or_undefined (objects s !! o);
  '(work_list, s) ← destroy_members o (seq 0 (member_count ob)) (work_list, s);
  Returns (work_list, mkState (delete o (objects s)) (slots s)).

(** The loop of the outer call; a turn frees an object. *)
Fixpoint delete_loop (fuel : nat) (work_list : list Obj) (s : State) : outcome State :=
  match work_list with
  | [] => Returns s
  | o :: work_list =>
      match fuel with
      | O => Undefined
      | S fuel => '(work_list, s) ← delete_object o work_list s; delete_loop fuel work_list s
      end
  end.
Definition recursion_safe_delete_this (o : Obj) (s : State) : outcome State :=
  delete_loop (size (objects s)) [o] s.

(** [intrusive_dec_ref], and [dec_ref] on the value of a pointer, when no object is being
    deleted *)
Definition intrusive_dec_ref (o : Obj) (s : State) : outcome State :=
  '(last, s) ← fetch_sub o s;
  if (last : bool) then recursion_safe_delete_this o s else Returns s.
Definition dec_ref (p : option Obj) (s : State) : outcome State :=
  match p with None => Returns s | Some o => intrusive_dec_ref o s end.

(** * [intrusive_ptr] *)

(** [make()]: [new T], whose count starts at 0 and whose members are null, and the constructor
    from a pointer. *)
Definition refcount_init : Z := 0.
Definition new_object (members : nat) (s : State) : Obj * State :=
  let o := fresh (dom (objects s)) in
  (o, mkState (<[o := mkObject refcount_init members]> (objects s))
        (foldr (fun i m => <[Mem o i := None]> m) (slots s) (seq 0 members))).
Definition from_pointer (k : Slot) (p : option Obj) (s : State) : outcome State :=
  s ← inc_ref p s; Returns (set_slot k p s).
Definition make (k : Slot) (members : nat) (s : State) : outcome State :=
  let '(o, s) := new_object members s in from_pointer k (Some o) s.

(** The default constructor, the copy constructor, [release] and the move constructor *)
Definition construct (k : Slot) (s : State) : outcome State := Returns (set_slot k None s).
Definition copy_construct (k other : Slot) (s : State) : outcome State :=
  p ← get other s; s ← inc_ref p s; Returns (set_slot k p s).
Definition release (k : Slot) (s : State) : outcome (option Obj * State) :=
  p ← get k s; Returns (p, set_slot k None s).
Definition move_construct (k other : Slot) (s : State) : outcome State :=
  '(p, s) ← release other s; Returns (set_slot k p s).

(** The assignments; the old value is released at the end of the scope. *)
Definition copy_assign (k other : Slot) (s : State) : outcome State :=
  ptr ← get k s; p ← get other s;
  if bool_decide (ptr = p) then Returns s
  else s ← inc_ref p s; dec_ref ptr (set_slot k p s).
Definition move_assign (k other : Slot) (s : State) : outcome State :=
  old ← get k s; p ← get other s;
  dec_ref old (set_slot other None (set_slot k p s)).

(** [swap], [reset], and the destructor of a variable.  [reset] writes to the pointer after the
    release. *)
Definition swap (k other : Slot) (s : State) : outcome State :=
  p ← get k s; q ← get other s;
  Returns (set_slot other p (set_slot k q s)).
Definition reset (k : Slot) (s : State) : outcome State :=
  p ← get k s;
  match p with
  | None => Returns s
  | Some o => s ← intrusive_dec_ref o s; _ ← get k s; Returns (set_slot k None s)
  end.
Definition destroy (v : positive) (s : State) : outcome State :=
  p ← get (Var v) s; dec_ref p (remove_slot (Var v) s).

(** * How many pointers hold an object *)

Definition refs (s : State) (o : Obj) : nat := size (filter (fun kp => kp.2 = Some o) (slots s)).
Definition holds (p : option Obj) (o : Obj) : nat := if decide (p = Some o) then 1 else 0.

Lemma refs_insert s k p o : slots s !! k = None -> refs (set_slot k p s) o = (refs s o + holds p o)%nat.
Proof.
  intros Hk. unfold refs, holds. cbn. case_decide as Hp.
  - rewrite map_filter_insert_True by done. rewrite map_size_insert_None; [lia|].
    apply map_lookup_filter_None_2. by left.
  - rewrite map_filter_insert_False by done. rewrite delete_id; [lia|done].
Qed.

Lemma refs_remove s k p o : slots s !! k = Some p -> refs s o = (refs (remove_slot k s) o + holds p o)%nat.
Proof.
  intros Hk. rewrite <-(refs_insert (remove_slot k s) k p o) by (cbn; by rewrite lookup_delete_eq).
  unfold refs. cbn. by rewrite insert_delete_id.
Qed.

Lemma refs_set s k p q o : slots s !! k = Some p ->
  (refs (set_slot k q s) o + holds p o = refs s o + holds q o)%nat.
Proof.
  intros Hk. rewrite (refs_remove s k p) by done.
  pose proof (refs_insert (remove_slot k s) k q o) as H. cbn in H. rewrite lookup_delete_eq in H.
  specialize (H eq_refl). unfold refs in *. cbn in *. rewrite insert_delete_eq in H. lia.
Qed.

Lemma refs_pos s k o : slots s !! k = Some (Some o) -> (0 < refs s o)%nat.
Proof. intros Hk. rewrite (refs_remove s k _ o Hk). unfold holds. rewrite decide_True by done. lia. Qed.

Lemma refs_bound s o : (refs s o <= size (slots s))%nat.
Proof. apply map_size_filter. Qed.

(** * The invariant

    [dead] are the objects that nothing holds and that are about to be deleted, and [gone] the
    members of the one that is being deleted whose destructors have run. *)
Record counted (dead : list Obj) (gone : list Slot) (s : State) : Prop := {
  counts_exact o ob : objects s !! o = Some ob -> intrusive_refcount ob = Z.of_nat (refs s o);
  held_alive k o : slots s !! k = Some (Some o) -> is_Some (objects s !! o);
  member_alive o i : is_Some (slots s !! Mem o i) ->
    exists ob, objects s !! o = Some ob /\ (i < member_count ob)%nat;
  members_there o ob i : objects s !! o = Some ob -> (i < member_count ob)%nat ->
    Mem o i ∈ gone \/ is_Some (slots s !! Mem o i);
  dead_unheld o : is_Some (objects s !! o) -> refs s o = O <-> o ∈ dead;
  dead_there o : o ∈ dead -> is_Some (objects s !! o);
  dead_once : NoDup dead;
  few_slots : Z.of_nat (size (slots s)) < 2 ^ 64
}.

(** Between operations nothing is dead. *)
Definition exact (s : State) : Prop := counted [] [] s.

Lemma set_count_lookup o n s o' : objects (set_count o n s) !! o'
  = if decide (o = o') then (fun ob => mkObject n (member_count ob)) <$> objects s !! o else objects s !! o'.
Proof. cbn. case_decide; [subst; apply lookup_alter_eq|by apply lookup_alter_ne]. Qed.

Lemma u64_refs s o : Z.of_nat (size (slots s)) < 2 ^ 64 -> u64 (Z.of_nat (refs s o)) = Z.of_nat (refs s o).
Proof. intros H. pose proof (refs_bound s o). apply u64_id. lia. Qed.

(** Taking a pointer out and releasing what it held: the object may be the next to be deleted. *)
Lemma counted_drop dead gone s k o :
  counted dead gone s -> slots s !! k = Some (Some o) ->
  exists s', fetch_sub o (remove_slot k s) = Returns (bool_decide (refs s o = 1)%nat, s')
    /\ slots s' = delete k (slots s) /\ dom (objects s') = dom (objects s)
    /\ (forall o ob, objects s' !! o = Some ob -> exists ob0, objects s !! o = Some ob0 /\ member_count ob = member_count ob0)
    /\ counted (if bool_decide (refs s o = 1)%nat then o :: dead else dead) (k :: gone) s'.
Proof.
  intros C Hk. destruct (held_alive _ _ _ C _ _ Hk) as [ob Hob].
  pose proof (counts_exact _ _ _ C _ _ Hob) as Hc. pose proof (refs_pos _ _ _ Hk) as Hpos.
  pose proof (refs_bound s o) as Hb. pose proof (few_slots _ _ _ C) as Hf.
  unfold fetch_sub. cbn [objects remove_slot]. rewrite Hob. cbn [or_undefined mbind outcome_bind].
  assert (E : (intrusive_refcount ob =? 1) = bool_decide (refs s o = 1)%nat).
  { rewrite Hc. case_bool_decide; [apply Z.eqb_eq|apply Z.eqb_neq]; lia. }
  rewrite E. eexists. split; [done|]. split; [done|]. split; [cbn; by rewrite dom_alter_L|].
  assert (Hrefs : forall o', refs (remove_slot k s) o' = (refs s o' - holds (Some o) o')%nat).
  { intros o'. rewrite (refs_remove s k _ o' Hk). lia. }
  assert (Hself : holds (Some o) o = 1%nat) by (unfold holds; by rewrite decide_True).
  assert (Hother : forall o', o <> o' -> holds (Some o) o' = 0%nat).
  { intros o' Hne. unfold holds. rewrite decide_False; [done|]. congruence. }
  assert (Hmem : forall o' ob', objects (set_count o (u64 (intrusive_refcount ob - 1)) (remove_slot k s)) !! o' = Some ob' ->
    exists ob0, objects s !! o' = Some ob0 /\ member_count ob' = member_count ob0).
  { intros o' ob'. rewrite set_count_lookup. cbn [objects remove_slot]. destruct (decide (o = o')) as [<-|Hd]; [|eauto].
    rewrite Hob. cbn. intros [= <-]. by exists ob. }
  split; [exact Hmem|].
  assert (Hin : forall o', is_Some (objects (set_count o (u64 (intrusive_refcount ob - 1)) (remove_slot k s)) !! o')
    <-> is_Some (objects s !! o')).
  { intros o'. rewrite set_count_lookup. cbn [objects remove_slot]. destruct (decide (o = o')) as [<-|Hd]; [|done]. rewrite Hob. done. }
  assert (Hunheld : o ∉ dead).
  { intros Hd. apply (dead_unheld _ _ _ C) in Hd; [lia|by eexists]. }
  split.
  - intros o' ob'. rewrite set_count_lookup. cbn [objects remove_slot]. change (refs (set_count _ _ ?s)) with (refs s).
    rewrite Hrefs. destruct (decide (o = o')) as [<-|Hd].
    + rewrite Hob. cbn. intros [= <-]. cbn. rewrite Hself, Hc, u64_id by lia. lia.
    + intros H. rewrite (counts_exact _ _ _ C _ _ H), Hother by done. lia.
  - intros k' o'. cbn [slots set_count remove_slot]. intros H. apply Hin.
    apply lookup_delete_Some in H as [_ H]. by eapply held_alive.
  - intros o' i [p H]. cbn [slots set_count remove_slot] in H. apply lookup_delete_Some in H as [_ H].
    destruct (member_alive _ _ _ C o' i ltac:(by eexists)) as (ob' & H1 & H2).
    rewrite set_count_lookup. cbn [objects remove_slot]. destruct (decide (o = o')) as [<-|Hd]; [|by exists ob'].
    rewrite H1. by eexists.
  - intros o' ob' i H Hi. destruct (Hmem _ _ H) as (ob0 & H0 & Ec). rewrite Ec in Hi.
    destruct (decide (k = Mem o' i)) as [->|Hne]; [left; by left|].
    destruct (members_there _ _ _ C _ _ _ H0 Hi) as [Hg|Hs]; [left; by right|right].
    cbn [slots set_count remove_slot]. by rewrite lookup_delete_ne.
  - intros o' Ho'. apply Hin in Ho'. change (refs (set_count _ _ ?s)) with (refs s). rewrite Hrefs.
    pose proof (dead_unheld _ _ _ C o' Ho') as Hd. destruct (decide (o = o')) as [<-|Hne].
    + rewrite Hself. case_bool_decide as Hone; [split; [intros _; by left|lia]|].
      split; [lia|done].
    + rewrite Hother, Nat.sub_0_r, Hd by done. case_bool_decide; [|done]. rewrite elem_of_cons. naive_solver.
  - intros o' Ho'. apply Hin. case_bool_decide; [apply elem_of_cons in Ho' as [->|Ho']; [by eexists|]|]; by eapply dead_there.
  - case_bool_decide; [constructor; [done|]|]; apply C.
  - cbn [slots set_count remove_slot]. rewrite map_size_delete, Hk. cbn. lia.
Qed.

(** * Deleting what nothing holds *)

(** What deletion may change: pointers of objects that are gone. *)
Record shrinks (s s' : State) : Prop := {
  shrink_slots : slots s' ⊆ slots s;
  shrink_vars v : slots s' !! Var v = slots s !! Var v;
  shrink_counts o ob : objects s' !! o = Some ob ->
    exists ob0, objects s !! o = Some ob0 /\ member_count ob = member_count ob0
}.

#[export] Instance shrinks_preorder : PreOrder shrinks.
Proof.
  split.
  - intros s. split; [done|done|]. intros o ob H. by exists ob.
  - intros s1 s2 s3 H12 H23. split.
    + etransitivity; [apply H23|apply H12].
    + intros v. by rewrite (shrink_vars _ _ H23), (shrink_vars _ _ H12).
    + intros o ob H. destruct (shrink_counts _ _ H23 _ _ H) as (ob1 & H1 & ->). by apply H12.
Qed.

(** The state without the pointer has the same counts when the pointer is null. *)
Lemma counted_remove_null dead gone s o i :
  counted dead gone s -> slots s !! Mem o i = Some None -> counted dead (Mem o i :: gone) (remove_slot (Mem o i) s).
Proof.
  intros C Hk.
  assert (Hr : forall o', refs (remove_slot (Mem o i) s) o' = refs s o').
  { intros o'. rewrite (refs_remove s _ _ o' Hk). unfold holds. by rewrite decide_False, Nat.add_0_r. }
  split; cbn [objects slots remove_slot].
  - intros o' ob H. rewrite Hr. by apply (counts_exact _ _ _ C).
  - intros k o' [_ H]%lookup_delete_Some. by eapply held_alive.
  - intros o' j [p [_ H]%lookup_delete_Some]. apply (member_alive _ _ _ C). by eexists.
  - intros o' ob j H Hj. destruct (decide (Mem o i = Mem o' j)) as [->|Hne]; [left; by left|].
    destruct (members_there _ _ _ C _ _ _ H Hj); [left; by right|right]. by rewrite lookup_delete_ne.
  - intros o'. rewrite Hr. apply C.
  - apply C.
  - apply C.
  - pose proof (few_slots _ _ _ C). rewrite map_size_delete, Hk. cbn. lia.
Qed.

(** [work] is the work list while [o], of which nothing is left to count, is destroyed. *)
Lemma destroy_members_ok o : forall indices work gone s,
  counted (o :: work) gone s -> NoDup indices ->
  (forall i, i ∈ indices -> is_Some (slots s !! Mem o i)) ->
  exists work' gone' s', destroy_members o indices (work, s) = Returns (work', s')
    /\ counted (o :: work') gone' s' /\ shrinks s s' /\ dom (objects s') = dom (objects s)
    /\ (forall k, k ∈ gone' <-> k ∈ gone \/ exists i, i ∈ indices /\ k = Mem o i)
    /\ (forall i, is_Some (slots s' !! Mem o i) -> is_Some (slots s !! Mem o i) /\ i ∉ indices).
Proof.
  induction indices as [|i indices IH]; intros work gone s C Hnd Hin.
  - exists work, gone, s. split_and!; [done|done|done|done| |].
    + intros k. split; [by left|]. by intros [?|(i & ?%elem_of_nil & _)].
    + intros i Hi. split; [done|apply not_elem_of_nil].
  - apply NoDup_cons in Hnd as [Hi Hnd]. destruct (Hin i ltac:(by left)) as [p Hp].
    cbn [destroy_members]. unfold destroy_member at 1, get. rewrite Hp. cbn [or_undefined mbind outcome_bind].
    assert (Hstep : exists work1 s1,
      (match p with
       | None => Returns (work, remove_slot (Mem o i) s)
       | Some q => '(last, s) ← fetch_sub q (remove_slot (Mem o i) s);
                   Returns (if (last : bool) then q :: work else work, s)
       end) = Returns (work1, s1)
      /\ counted (o :: work1) (Mem o i :: gone) s1 /\ slots s1 = delete (Mem o i) (slots s)
      /\ dom (objects s1) = dom (objects s)
      /\ (forall o ob, objects s1 !! o = Some ob -> exists ob0, objects s !! o = Some ob0 /\ member_count ob = member_count ob0)).
    { destruct p as [q|].
      - destruct (counted_drop _ _ _ _ _ C Hp) as (s1 & E & Hs & Hd & Hm & C1). rewrite E.
        cbn [mbind outcome_bind]. case_bool_decide.
        + eexists _, s1. split_and!; [done| |done|done|done]. destruct C1 as [D1 D2 D3 D4 D5 D6 D7 D8].
          split; try done.
          * intros o' Ho'. rewrite D5 by done. rewrite !elem_of_cons. tauto.
          * intros o' Ho'. apply D6. rewrite !elem_of_cons in *. tauto.
          * apply NoDup_cons in D7 as [D7 D9]. apply NoDup_cons in D9 as [D9 D10].
            rewrite !NoDup_cons. rewrite !elem_of_cons in *. split_and!; [|tauto|done].
            intros [->|?]; [apply D7; by left|done].
        + by eexists _, s1.
      - eexists _, _. split_and!; [done| |done|done|by eauto]. by apply counted_remove_null. }
    destruct Hstep as (work1 & s1 & E & C1 & Hs1 & Hd1 & Hm1). cbn zeta. rewrite E. cbn [mbind outcome_bind].
    destruct (IH work1 (Mem o i :: gone) s1 C1 Hnd) as (work' & gone' & s' & E' & C' & Hsh & Hd & Hg & Hl).
    { intros j Hj. rewrite Hs1, lookup_delete_ne by naive_solver. apply Hin. by right. }
    exists work', gone', s'. split_and!; [done|done| |by rewrite Hd| |].
    + etransitivity; [|exact Hsh]. split; [rewrite Hs1; apply delete_subseteq| |exact Hm1].
      intros v. by rewrite Hs1, lookup_delete_ne.
    + intros k. rewrite Hg, elem_of_cons. setoid_rewrite elem_of_cons. naive_solver.
    + intros j Hj. apply Hl in Hj as [Hj Hn]. rewrite Hs1 in Hj.
      destruct Hj as [x [Hne Hj]%lookup_delete_Some]. split; [by eexists|]. rewrite elem_of_cons. naive_solver.
Qed.

Lemma delete_object_ok o work s : counted (o :: work) [] s ->
  exists work' s', delete_object o work s = Returns (work', s')
    /\ counted work' [] s' /\ shrinks s s' /\ S (size (objects s')) = size (objects s).
Proof.
  intros C. destruct (dead_there _ _ _ C o ltac:(by left)) as [ob Hob].
  assert (Hun : refs s o = O) by (apply (dead_unheld _ _ _ C); [by eexists|by left]).
  unfold delete_object. rewrite Hob. cbn [or_undefined mbind outcome_bind].
  destruct (destroy_members_ok o (seq 0 (member_count ob)) work [] s C) as (work' & gone & s1 & E & C1 & Hsh & Hd & Hg & Hl).
  { apply NoDup_seq. }
  { intros i Hi%elem_of_seq. destruct (members_there _ _ _ C o ob i Hob ltac:(lia)) as [H|H]; [by apply elem_of_nil in H|done]. }
  rewrite E. cbn [mbind outcome_bind]. eexists work', _. split; [done|].
  assert (Hno : forall i, slots s1 !! Mem o i = None).
  { intros i. destruct (slots s1 !! Mem o i) eqn:Ei; [|done]. destruct (Hl i ltac:(by eexists)) as [Hi Hn].
    destruct (member_alive _ _ _ C _ _ Hi) as (ob' & Hob' & Hlt). rewrite Hob in Hob'. injection Hob' as <-.
    destruct Hn. apply elem_of_seq. lia. }
  pose proof (dead_once _ _ _ C1) as Hnd. apply NoDup_cons in Hnd as [Hnd1 Hnd2].
  assert (Ho1 : is_Some (objects s1 !! o)) by (apply (dead_there _ _ _ C1); by left).
  assert (Hun1 : refs s1 o = O) by (apply (dead_unheld _ _ _ C1); [done|by left]).
  split_and!.
  - split; cbn [objects slots].
    + intros o' ob' [_ H]%lookup_delete_Some. by apply (counts_exact _ _ _ C1).
    + intros k o' Hk. pose proof (refs_pos _ _ _ Hk). rewrite lookup_delete_ne by (intros ->; lia).
      by eapply held_alive.
    + intros o' i Hi. destruct (decide (o = o')) as [<-|Hne]; [rewrite Hno in Hi; by destruct Hi|].
      destruct (member_alive _ _ _ C1 _ _ Hi) as (ob' & H1 & H2). exists ob'. by rewrite lookup_delete_ne.
    + intros o' ob' i [Hne H]%lookup_delete_Some Hi. destruct (members_there _ _ _ C1 _ _ _ H Hi) as [Hx|Hx]; [|by right].
      apply Hg in Hx as [?%elem_of_nil|(j & _ & [= ->])]; done.
    + intros o' [ob' [Hne H]%lookup_delete_Some]. change (refs (mkState _ (slots s1)) o') with (refs s1 o').
      rewrite (dead_unheld _ _ _ C1) by by eexists. rewrite elem_of_cons. naive_solver.
    + intros o' Ho'. rewrite lookup_delete_ne by (by intros ->). apply (dead_there _ _ _ C1). by right.
    + done.
    + apply C1.
  - destruct Hsh as [H1 H2 H3]. split; [done|done|]. intros o' ob'. cbn [objects]. intros [_ H]%lookup_delete_Some. by apply H3.
  - cbn [objects]. rewrite map_size_delete. destruct Ho1 as [x Hx]. rewrite Hx. cbn.
    assert (Es : size (objects s1) = size (objects s)) by (rewrite <-!size_dom; by rewrite Hd).
    assert (size (objects s1) <> 0)%nat; [|lia]. intros H0%map_size_empty_inv. by rewrite H0, lookup_empty in Hx.
Qed.

Lemma delete_loop_ok : forall fuel work s, counted work [] s -> (size (objects s) <= fuel)%nat ->
  exists s', delete_loop fuel work s = Returns s' /\ exact s' /\ shrinks s s'.
Proof.
  induction fuel as [|fuel IH]; intros work s C Hf.
  all: destruct work as [|o work]; [by exists s|].
  - destruct (dead_there _ _ _ C o ltac:(by left)) as [ob Hob].
    assert (size (objects s) <> 0)%nat; [|lia]. intros H0%map_size_empty_inv. by rewrite H0, lookup_empty in Hob.
  - destruct (delete_object_ok o work s C) as (work1 & s1 & E & C1 & Hsh & Hsz). cbn [delete_loop]. rewrite E.
    cbn [mbind outcome_bind]. destruct (IH work1 s1 C1 ltac:(lia)) as (s' & E' & C' & Hsh').
    exists s'. split_and!; [done|done|by etransitivity].
Qed.

(** Releasing a pointer that was taken out: what nothing holds any more is freed. *)
Lemma drop_var v p s : exact s -> slots s !! Var v = Some p ->
  exists s', dec_ref p (remove_slot (Var v) s) = Returns s' /\ exact s' /\ shrinks (remove_slot (Var v) s) s'.
Proof.
  intros C Hk. assert (Hweak : forall dead s, counted dead [Var v] s -> counted dead [] s).
  { intros dead s0 [H1 H2 H3 H4 H5 H6 H7 H8]. split; try done. intros o ob i Ho Hi.
    destruct (H4 o ob i Ho Hi) as [?%list_elem_of_singleton|?]; [done|by right]. }
  destruct p as [o|].
  - destruct (counted_drop _ _ _ _ _ C Hk) as (s1 & E & Hs & Hd & Hm & C1). cbn [dec_ref]. unfold intrusive_dec_ref.
    rewrite E. cbn [mbind outcome_bind].
    assert (Hsh : shrinks (remove_slot (Var v) s) s1).
    { split; cbn [slots remove_slot objects]; [by rewrite Hs|intros v'; by rewrite Hs|done]. }
    apply Hweak in C1. destruct (bool_decide (refs s o = 1%nat)).
    + destruct (delete_loop_ok (size (objects s1)) [o] s1 C1 (Nat.le_refl _)) as (s' & E' & C' & Hsh').
      exists s'. split_and!; [done|done|by etransitivity].
    + by exists s1.
  - exists (remove_slot (Var v) s). split_and!; [done| |done].
    assert (Hr : forall o', refs (remove_slot (Var v) s) o' = refs s o').
    { intros o'. rewrite (refs_remove s _ _ o' Hk). unfold holds. by rewrite decide_False, Nat.add_0_r. }
    destruct C as [H1 H2 H3 H4 H5 H6 H7 H8]. split; cbn [objects slots remove_slot].
    + intros o' ob H. rewrite Hr. by apply H1.
    + intros k o' [_ H]%lookup_delete_Some. by eapply H2.
    + intros o' j [q [_ H]%lookup_delete_Some]. apply H3. by eexists.
    + intros o' ob j H Hj. rewrite lookup_delete_ne by done. by eapply H4.
    + intros o'. rewrite Hr. by apply H5.
    + done.
    + done.
    + rewrite map_size_delete, Hk. cbn. lia.
Qed.

(** * The operations *)

(** Two states with the same members constructed, whose pointers hold live objects that count
    them *)
Lemma exact_intro s s' :
  exact s ->
  (forall o ob, objects s' !! o = Some ob -> intrusive_refcount ob = Z.of_nat (refs s' o) /\ refs s' o <> O
     /\ exists ob0, objects s !! o = Some ob0 /\ member_count ob = member_count ob0) ->
  (forall o, is_Some (objects s !! o) -> is_Some (objects s' !! o)) ->
  (forall k o, slots s' !! k = Some (Some o) -> is_Some (objects s !! o)) ->
  (forall o i, is_Some (slots s' !! Mem o i) <-> is_Some (slots s !! Mem o i)) ->
  Z.of_nat (size (slots s')) < 2 ^ 64 -> exact s'.
Proof.
  intros [C1 C2 C3 C4 C5 C6 C7 C8] H1 H2 H3 H4 H5. split; try done.
  - intros o ob H. by apply H1.
  - intros k o H. eapply H2, H3, H.
  - intros o i Hi. apply H4 in Hi. destruct (C3 _ _ Hi) as (ob & Ho & Hlt).
    destruct (H2 o ltac:(by eexists)) as [ob' Ho']. exists ob'. split; [done|].
    destruct (H1 _ _ Ho') as (_ & _ & ob0 & Hob0 & ->). congruence.
  - intros o ob i Ho Hi. destruct (H1 _ _ Ho) as (_ & _ & ob0 & Ho0 & E). rewrite E in Hi.
    destruct (C4 _ _ _ Ho0 Hi) as [?%elem_of_nil|Hs]; [done|]. right. by apply H4.
  - intros o [ob Ho]. destruct (H1 _ _ Ho) as (_ & Hne & _). split; [done|by intros ?%elem_of_nil].
  - by intros o ?%elem_of_nil.
Qed.

Lemma exact_refs s o ob : exact s -> objects s !! o = Some ob ->
  intrusive_refcount ob = Z.of_nat (refs s o) /\ refs s o <> O.
Proof.
  intros C Ho. split; [by apply (counts_exact _ _ _ C)|]. intros H.
  apply (dead_unheld _ _ _ C) in H; [by apply elem_of_nil in H|by eexists].
Qed.

(** A pointer in a new variable: null, or to an object that is held already. *)
Lemma exact_new s v p :
  exact s -> slots s !! Var v = None -> (forall o, p = Some o -> is_Some (objects s !! o)) ->
  Z.of_nat (size (slots s)) + 1 < 2 ^ 64 ->
  exists s', inc_ref p s = Returns s' /\ slots s' = slots s /\ exact (set_slot (Var v) p s').
Proof.
  intros C Hv Hp Hsz. destruct p as [q|].
  - destruct (Hp q eq_refl) as [ob Hob]. cbn [inc_ref]. unfold intrusive_inc_ref. rewrite Hob.
    cbn [or_undefined mbind outcome_bind]. eexists. split_and!; [done|done|].
    assert (Hin : forall o, is_Some (objects (set_count q (u64 (intrusive_refcount ob + 1)) s) !! o) <-> is_Some (objects s !! o)).
    { intros o. rewrite set_count_lookup. destruct (decide (q = o)) as [<-|]; [by rewrite Hob|done]. }
    apply (exact_intro s); [done| | | | |].
    + intros o ob'. cbn [objects set_slot]. rewrite set_count_lookup.
      rewrite (refs_insert (set_count q (u64 (intrusive_refcount ob + 1)) s)) by done.
      change (refs (set_count _ _ s) o) with (refs s o). unfold holds.
      destruct (decide (q = o)) as [<-|Hne].
      * rewrite Hob, decide_True by done. cbn. intros [= <-]. cbn. destruct (exact_refs _ _ _ C Hob) as [-> _].
        pose proof (refs_bound s q). rewrite u64_id by lia. split_and!; [lia|lia|by exists ob].
      * intros H. rewrite decide_False, Nat.add_0_r by congruence. destruct (exact_refs _ _ _ C H).
        split_and!; [done|done|by exists ob'].
    + intros o Ho. cbn [objects set_slot]. by apply Hin.
    + intros k o. cbn [slots set_slot set_count]. intros H. apply lookup_insert_Some in H as [[_ [= ->]]|[_ H]]; [by eexists|].
      by eapply (held_alive _ _ _ C).
    + intros o i. cbn [slots set_slot set_count]. by rewrite lookup_insert_ne.
    + cbn [slots set_slot set_count]. rewrite map_size_insert_None by done. lia.
  - exists s. split_and!; [done|done|]. apply (exact_intro s); [done| | | | |].
    + intros o ob. cbn [objects set_slot]. intros H. rewrite refs_insert by done. unfold holds.
      rewrite decide_False, Nat.add_0_r by done. destruct (exact_refs _ _ _ C H). split_and!; [done|done|by exists ob].
    + done.
    + intros k o. cbn [slots set_slot]. intros H. apply lookup_insert_Some in H as [[_ ?]|[_ H]]; [done|]. by eapply (held_alive _ _ _ C).
    + intros o i. cbn [slots set_slot]. by rewrite lookup_insert_ne.
    + cbn [slots set_slot]. rewrite map_size_insert_None by done. lia.
Qed.

(** Two pointers trade places. *)
Lemma exact_swap s k k' p q : exact s -> slots s !! k = Some p -> slots s !! k' = Some q ->
  exact (set_slot k' p (set_slot k q s)).
Proof.
  intros C Hk Hk'. 
  assert (Hr : forall o, refs (set_slot k' p (set_slot k q s)) o = refs s o).
  { intros o. pose proof (refs_set s k p q o Hk) as H1. destruct (decide (k = k')) as [<-|Hne].
    - rewrite Hk in Hk'. injection Hk' as <-. unfold refs. cbn. by rewrite insert_insert_eq, insert_id.
    - pose proof (refs_set (set_slot k q s) k' q p o) as H2. cbn [slots set_slot] in H2.
      rewrite lookup_insert_ne in H2 by done. specialize (H2 Hk'). lia. }
  apply (exact_intro s); [done| |done| | |].
  - intros o ob H. rewrite Hr. destruct (exact_refs _ _ _ C H). split_and!; [done|done|by exists ob].
  - intros j o. cbn [slots set_slot]. intros H.
    apply lookup_insert_Some in H as [[_ ->]|[_ H]]; [by eapply (held_alive _ _ _ C)|].
    apply lookup_insert_Some in H as [[_ ->]|[_ H]]; by eapply (held_alive _ _ _ C).
  - intros o i. cbn [slots set_slot]. rewrite !lookup_insert_is_Some'. naive_solver.
  - cbn [slots set_slot]. rewrite !map_size_insert_Some; [apply C|by eexists|].
    apply lookup_insert_is_Some'. right. by eexists.
Qed.

(** What [exact_new] and [drop_var] do to a temporary around a copy *)
Lemma remove_fresh v p s : slots s !! Var v = None -> remove_slot (Var v) (set_slot (Var v) p s) = s.
Proof. intros H. destruct s as [os ss]. unfold remove_slot, set_slot. cbn in *. by rewrite delete_insert_id. Qed.

Lemma exact_construct s v : exact s -> slots s !! Var v = None -> Z.of_nat (size (slots s)) + 1 < 2 ^ 64 ->
  exact (set_slot (Var v) None s).
Proof. intros C Hv Hsz. destruct (exact_new s v None C Hv) as (s' & [= <-] & _ & C'); done. Qed.

(** A fresh variable *)
Definition variable_of (k : Slot) : option positive := match k with Var v => Some v | Mem _ _ => None end.
Definition fresh_var (s : State) : positive := fresh (omap variable_of (elements (dom (slots s)))).
Lemma fresh_var_new s : slots s !! Var (fresh_var s) = None.
Proof.
  apply eq_None_not_Some. intros H.
  apply (infinite_is_fresh (omap variable_of (elements (dom (slots s))))).
  apply list_elem_of_omap. exists (Var (fresh_var s)). split; [|done]. apply elem_of_elements. by apply elem_of_dom.
Qed.

(** * [make] *)

Definition with_members (o : Obj) (indices : list nat) (m : gmap Slot (option Obj)) : gmap Slot (option Obj) :=
  foldr (fun i m => <[Mem o i := None]> m) m indices.

Lemma with_members_lookup o m k p : forall l, with_members o l m !! k = Some p <->
  (exists i, i ∈ l /\ k = Mem o i /\ p = None) \/ ((forall i, i ∈ l -> k <> Mem o i) /\ m !! k = Some p).
Proof.
  induction l as [|i l IH]; cbn.
  - setoid_rewrite elem_of_nil. naive_solver.
  - rewrite lookup_insert_Some, IH. setoid_rewrite elem_of_cons. destruct (decide (Mem o i = k)); naive_solver.
Qed.

Lemma with_members_size o m l : (size (with_members o l m) <= size m + length l)%nat.
Proof.
  unfold with_members. induction l as [|i l IH]; cbn; [lia|]. rewrite map_size_insert. case_match; unfold id; lia.
Qed.

Lemma with_members_refs o os m o' : (forall i, m !! Mem o i = None) -> forall l, NoDup l ->
  refs (mkState os (with_members o l m)) o' = refs (mkState os m) o'.
Proof.
  intros Hm. induction l as [|i l IH]; intros Hnd; [done|]. apply NoDup_cons in Hnd as [Hi Hnd].
  rewrite <-(IH Hnd). cbn [with_members foldr].
  pose proof (refs_insert (mkState os (with_members o l m)) (Mem o i) None o') as E. unfold set_slot in E. cbn in E.
  change (foldr _ m l) with (with_members o l m). rewrite E; [unfold holds; rewrite decide_False by done; lia|].
  apply eq_None_not_Some. intros [p [(j & Hj & [= ->] & _)|[_ H]]%with_members_lookup]; [done|]. by rewrite Hm in H.
Qed.

(** A new object in a new variable *)
Lemma make_ok s v members : exact s -> slots s !! Var v = None ->
  Z.of_nat (size (slots s)) + Z.of_nat members + 1 < 2 ^ 64 ->
  make (Var v) members s = Returns (set_slot (Var v) (Some (fresh (dom (objects s))))
    (mkState (<[fresh (dom (objects s)) := mkObject 1 members]> (objects s))
       (with_members (fresh (dom (objects s))) (seq 0 members) (slots s))))
  /\ exact (set_slot (Var v) (Some (fresh (dom (objects s))))
    (mkState (<[fresh (dom (objects s)) := mkObject 1 members]> (objects s))
       (with_members (fresh (dom (objects s))) (seq 0 members) (slots s)))).
Proof.
  intros C Hv Hsz. set (o := fresh (dom (objects s))).
  assert (Ho : objects s !! o = None) by (apply not_elem_of_dom, is_fresh).
  assert (Hm : forall i, slots s !! Mem o i = None).
  { intros i. apply eq_None_not_Some. intros H. destruct (member_alive _ _ _ C _ _ H) as (ob & H1 & _). congruence. }
  assert (Hv' : with_members o (seq 0 members) (slots s) !! Var v = None).
  { apply eq_None_not_Some. intros [p [(i & _ & [=] & _)|[_ H]]%with_members_lookup]. congruence. }
  assert (Hrefs : forall os o', refs (set_slot (Var v) (Some o) (mkState os (with_members o (seq 0 members) (slots s)))) o'
    = (refs s o' + holds (Some o) o')%nat).
  { intros os o'. rewrite refs_insert by done. f_equal. rewrite with_members_refs; [done|done|apply NoDup_seq]. }
  assert (Hun : refs s o = 0%nat).
  { destruct (refs s o) eqn:E; [done|]. unfold refs in E.
    destruct (map_choose (filter (fun kp => kp.2 = Some o) (slots s))) as (k & p & [H1 H2]%map_lookup_filter_Some).
    - intros E0. rewrite E0, map_size_empty in E. done.
    - cbn in H2. subst p. destruct (held_alive _ _ _ C _ _ H1). congruence. }
  split.
  - unfold make, new_object, from_pointer, inc_ref, intrusive_inc_ref. fold o. cbn [objects].
    rewrite lookup_insert_eq. cbn [or_undefined mbind outcome_bind]. unfold set_count. cbn [objects slots].
    rewrite alter_insert_eq. done.
  - split.
    + intros o' ob. rewrite Hrefs. cbn [objects set_slot]. intros [[<- <-]|[Hne H]]%lookup_insert_Some.
      * rewrite Hun. unfold holds. by rewrite decide_True.
      * rewrite (counts_exact _ _ _ C _ _ H). unfold holds. rewrite decide_False by congruence. lia.
    + intros k o'. cbn [objects slots set_slot]. rewrite lookup_insert_is_Some'.
      intros [[_ [= ->]]|[_ [(i & _ & _ & ?)|[_ H]]%with_members_lookup]]%lookup_insert_Some; [by left|done|].
      right. by eapply (held_alive _ _ _ C).
    + intros o' i. cbn [objects slots set_slot]. rewrite lookup_insert_ne by done.
      intros [p [(j & Hj%elem_of_seq & [= -> ->] & _)|[_ H]]%with_members_lookup].
      * eexists. rewrite lookup_insert_eq. split; [done|]. cbn. lia.
      * destruct (member_alive _ _ _ C o' i) as (ob & H1 & H2); [by eexists|]. exists ob.
        rewrite lookup_insert_ne by congruence. done.
    + intros o' ob i. cbn [objects slots set_slot]. intros Hob Hi. right. rewrite lookup_insert_ne by done.
      apply lookup_insert_Some in Hob as [[<- <-]|[Hne H]].
      * exists None. apply with_members_lookup. left. exists i. split_and!; [|done|done]. apply elem_of_seq. cbn in Hi. lia.
      * destruct (members_there _ _ _ C _ _ _ H Hi) as [?%elem_of_nil|[p Hp]]; [done|]. exists p.
        apply with_members_lookup. right. split; [|done]. intros j _ [= -> _]. congruence.
    + intros o'. rewrite Hrefs. cbn [objects set_slot]. intros Ho'. split; [|by intros ?%elem_of_nil].
      unfold holds. case_decide as Heq; [lia|]. rewrite Nat.add_0_r. apply (dead_unheld _ _ _ C).
      rewrite lookup_insert_ne in Ho' by congruence. done.
    + by intros o' ?%elem_of_nil.
    + constructor.
    + cbn [slots set_slot]. rewrite map_size_insert_None by done.
      pose proof (with_members_size o (slots s) (seq 0 members)) as Hs. rewrite length_seq in Hs. lia.
Qed.

(** * A pointer that a deletion does not destroy does not matter to it *)

Lemma fetch_sub_frame k p o s :
  fetch_sub o (set_slot k p s) = ('(b, s) ← fetch_sub o s; Returns (b, set_slot k p s)).
Proof. unfold fetch_sub. cbn. by destruct (objects s !! o). Qed.
Lemma fetch_sub_slots o s b t : fetch_sub o s = Returns (b, t) -> slots t = slots s.
Proof. unfold fetch_sub. destruct (objects s !! o); [|done]. by intros [= _ <-]. Qed.
Lemma remove_frame k p k' s : k <> k' -> remove_slot k' (set_slot k p s) = set_slot k p (remove_slot k' s).
Proof. intros H. unfold remove_slot, set_slot. cbn. by rewrite delete_insert_ne. Qed.

Lemma destroy_member_slots o w s i w' t : destroy_member o (w, s) i = Returns (w', t) -> slots t = delete (Mem o i) (slots s).
Proof.
  unfold destroy_member, get. destruct (slots s !! Mem o i) as [[q|]|]; cbn [or_undefined mbind outcome_bind]; [| |done].
  - intros ([b s1] & E & [= _ <-])%outcome_bind_returns. by apply fetch_sub_slots in E as ->.
  - by intros [= _ <-].
Qed.
Lemma destroy_members_slots o : forall l w s w' t, destroy_members o l (w, s) = Returns (w', t) -> slots t ⊆ slots s.
Proof.
  induction l as [|i l IH]; intros w s w' t; cbn [destroy_members]; [by intros [= _ <-]|].
  intros ([w1 s1] & E1 & E2)%outcome_bind_returns. apply IH in E2. apply destroy_member_slots in E1. rewrite E1 in E2.
  etransitivity; [exact E2|apply delete_subseteq].
Qed.
Lemma delete_loop_slots : forall fuel w s t, delete_loop fuel w s = Returns t -> slots t ⊆ slots s.
Proof.
  induction fuel as [|fuel IH]; intros [|o w] s t; cbn [delete_loop]; try done; [by intros [= <-]..|].
  intros ([w1 s1] & E1 & E2)%outcome_bind_returns. apply IH in E2. etransitivity; [exact E2|]. unfold delete_object in E1.
  apply outcome_bind_returns in E1 as (ob & _ & E1). apply outcome_bind_returns in E1 as ([w2 s2] & E1 & [= <- <-]).
  by apply destroy_members_slots in E1.
Qed.

(** The pointer may have any value when it is there in the end. *)
Lemma destroy_members_frame k p o : forall l w s w' t, destroy_members o l (w, s) = Returns (w', t) -> is_Some (slots t !! k) ->
  destroy_members o l (w, set_slot k p s) = Returns (w', set_slot k p t).
Proof.
  induction l as [|i l IH]; intros w s w' t; cbn [destroy_members]; [by intros [= <- <-]|].
  intros ([w1 s1] & E1 & E2)%outcome_bind_returns Hk. pose proof (destroy_members_slots _ _ _ _ _ _ E2) as Hs.
  pose proof (destroy_member_slots _ _ _ _ _ _ E1) as Hs1. assert (Hne : k <> Mem o i).
  { intros ->. destruct Hk as [x Hx]. pose proof (lookup_weaken _ _ _ _ Hx Hs) as Hx1. by rewrite Hs1, lookup_delete_eq in Hx1. }
  rewrite <-(IH w1 s1 w' t E2 Hk). clear IH E2 Hs Hs1 Hk.
  revert E1. unfold destroy_member, get. cbn [slots set_slot]. rewrite lookup_insert_ne by done.
  destruct (slots s !! Mem o i) as [[q|]|]; cbn [or_undefined mbind outcome_bind]; [| |done];
    change (mkState (objects s) (<[k:=p]> (slots s))) with (set_slot k p s); rewrite remove_frame by done.
  - intros ([b s2] & E & [= <- <-])%outcome_bind_returns. by rewrite fetch_sub_frame, E.
  - by intros [= <- <-].
Qed.
Lemma delete_loop_frame k p : forall fuel w s t, delete_loop fuel w s = Returns t -> is_Some (slots t !! k) ->
  delete_loop fuel w (set_slot k p s) = Returns (set_slot k p t).
Proof.
  induction fuel as [|fuel IH]; intros [|o w] s t; cbn [delete_loop]; try done; [by intros [= <-]..|].
  intros ([w1 s1] & E1 & E2)%outcome_bind_returns Hk. unfold delete_object in *. cbn [objects set_slot].
  apply outcome_bind_returns in E1 as (ob & -> & E1). apply outcome_bind_returns in E1 as ([w2 s2] & E1 & [= <- <-]).
  cbn [mbind outcome_bind]. change (mkState (objects s) (<[k:=p]> (slots s))) with (set_slot k p s).
  assert (Hk2 : is_Some (slots s2 !! k)).
  { destruct Hk as [x Hx]. exists x. apply (lookup_weaken _ _ _ _ Hx). by apply delete_loop_slots in E2. }
  rewrite (destroy_members_frame k p o _ _ _ _ _ E1 Hk2). cbn [mbind outcome_bind]. exact (IH _ _ _ E2 Hk).
Qed.
Lemma intrusive_dec_ref_frame k p o s t : intrusive_dec_ref o s = Returns t -> is_Some (slots t !! k) ->
  intrusive_dec_ref o (set_slot k p s) = Returns (set_slot k p t).
Proof.
  unfold intrusive_dec_ref. rewrite fetch_sub_frame. intros ([b s1] & -> & E)%outcome_bind_returns Hk.
  cbn [mbind outcome_bind]. destruct b; [|by injection E as <-]. by apply delete_loop_frame.
Qed.

(** * Operations on handles *)

(** The operations of a program on its variables and on the members of objects.  Variables are made
    and destroyed; members are made and destroyed with their object. *)
Inductive Op :=
| OMake (v : positive) (members : nat)
| OConstruct (v : positive)
| OCopy (v : positive) (other : Slot)
| OMove (v : positive) (other : Slot)
| OCopyAssign (k other : Slot)
| OMoveAssign (k other : Slot)
| OSwap (k other : Slot)
| OReset (k : Slot)
| ODestroy (v : positive).

Definition exec (op : Op) (s : State) : outcome State :=
  match op with
  | OMake v members => make (Var v) members s
  | OConstruct v => construct (Var v) s
  | OCopy v other => copy_construct (Var v) other s
  | OMove v other => move_construct (Var v) other s
  | OCopyAssign k other => copy_assign k other s
  | OMoveAssign k other => move_assign k other s
  | OSwap k other => swap k other s
  | OReset k => reset k s
  | ODestroy v => destroy v s
  end.

(** What the variables reach *)
Inductive reachable (m : gmap Slot (option Obj)) : Obj -> Prop :=
| reach_var v o : m !! Var v = Some (Some o) -> reachable m o
| reach_member o i o' : reachable m o -> m !! Mem o i = Some (Some o') -> reachable m o'.

(** A pointer that is cleared after its release must be there still: it is null already, or it is
    a variable, or a member of an object that is reached without it. *)
Definition outlives (k : Slot) (s : State) : Prop :=
  match k with
  | Var _ => True
  | Mem o _ => slots s !! k = Some None \/ reachable (<[k := None]> (slots s)) o
  end.

(** The slots an operation adds, and the operands that must be constructed *)
Definition slots_needed (op : Op) : nat := match op with OMake _ members => S members | _ => 1 end.
Definition legal (op : Op) (s : State) : Prop :=
  Z.of_nat (size (slots s)) + Z.of_nat (slots_needed op) < 2 ^ 64 /\
  match op with
  | OMake v _ | OConstruct v => slots s !! Var v = None
  | OCopy v other | OMove v other => slots s !! Var v = None /\ is_Some (slots s !! other)
  | OCopyAssign k other | OMoveAssign k other | OSwap k other => is_Some (slots s !! k) /\ is_Some (slots s !! other)
  | OReset k => is_Some (slots s !! k) /\ outlives k s
  | ODestroy v => is_Some (slots s !! Var v)
  end.

(** What the pointers are after an operation, when nothing is ever freed *)
Definition value (k : Slot) (s : State) : option Obj := default None (slots s !! k).
Definition target (op : Op) (s : State) : gmap Slot (option Obj) :=
  match op with
  | OMake v members => let o := fresh (dom (objects s)) in
      <[Var v := Some o]> (with_members o (seq 0 members) (slots s))
  | OConstruct v => <[Var v := None]> (slots s)
  | OCopy v other => <[Var v := value other s]> (slots s)
  | OMove v other => <[Var v := value other s]> (<[other := None]> (slots s))
  | OCopyAssign k other => <[k := value other s]> (slots s)
  | OMoveAssign k other => <[other := None]> (<[k := value other s]> (slots s))
  | OSwap k other => <[other := value k s]> (<[k := value other s]> (slots s))
  | OReset k => <[k := None]> (slots s)
  | ODestroy v => delete (Var v) (slots s)
  end.

(** The result of an operation: the counts are exact, the pointers are as they should be but for
    those of the objects that were freed, and what the variables reach was not freed. *)
Record achieves (m : gmap Slot (option Obj)) (s' : State) : Prop := {
  achieves_exact : exact s';
  achieves_slots : slots s' ⊆ m;
  achieves_vars v : slots s' !! Var v = m !! Var v;
  achieves_alive o : reachable m o -> is_Some (objects s' !! o) /\ forall i p, m !! Mem o i = Some p -> slots s' !! Mem o i = Some p
}.

(** The member slots of a freed object go away; those of a live one stay. *)
Lemma achieves_intro s s' :
  exact s' -> shrinks s s' ->
  (forall o i p, slots s !! Mem o i = Some p -> exists ob, objects s !! o = Some ob /\ (i < member_count ob)%nat) ->
  achieves (slots s) s'.
Proof.
  intros C [H1 H2 H3] Hm. split; [done|done|done|].
  assert (Hmem : forall o, is_Some (objects s' !! o) -> forall i p, slots s !! Mem o i = Some p -> slots s' !! Mem o i = Some p).
  { intros o [ob' Ho'] i p Hi. destruct (Hm _ _ _ Hi) as (ob & Ho & Hlt). destruct (H3 _ _ Ho') as (ob0 & Ho0 & E).
    rewrite Ho in Ho0. injection Ho0 as <-. rewrite <-E in Hlt.
    destruct (members_there _ _ _ C _ _ _ Ho' Hlt) as [?%elem_of_nil|[q Hq]]; [done|].
    rewrite Hq. pose proof (lookup_weaken _ _ _ _ Hq H1). congruence. }
  intros o Hr. assert (Ha : is_Some (objects s' !! o)); [|split; [done|by apply Hmem]].
  induction Hr as [v o Hv|o i o' Hr IH Hi].
  - rewrite <-H2 in Hv. by eapply (held_alive _ _ _ C).
  - apply (Hmem _ IH) in Hi. by eapply (held_alive _ _ _ C).
Qed.

Lemma achieves_self s m : exact s -> m = slots s -> achieves m s.
Proof.
  intros C ->. apply achieves_intro; [done|done|]. intros o i p H. apply (member_alive _ _ _ C). by eexists.
Qed.

Lemma drop_achieves v p s : exact s -> slots s !! Var v = Some p ->
  exists s', dec_ref p (remove_slot (Var v) s) = Returns s' /\ achieves (delete (Var v) (slots s)) s'.
Proof.
  intros C Hv. destruct (drop_var v p s C Hv) as (s' & E & C' & Hsh). exists s'. split; [done|].
  apply (achieves_intro (remove_slot (Var v) s)); [done|done|]. intros o i q H. unfold remove_slot in H. cbn [slots] in H. apply lookup_delete_Some in H as [_ H].
  apply (member_alive _ _ _ C). by eexists.
Qed.

(** Overwriting a slot and releasing its old value, through a temporary *)
Lemma overwrite_ok t k p q s : slots s !! Var t = None -> slots s !! k = Some q -> exact (set_slot (Var t) p s) ->
  exists s', dec_ref q (set_slot k p s) = Returns s' /\ achieves (<[k := p]> (slots s)) s'.
Proof.
  intros Ht Hk C. assert (Hne : Var t <> k) by congruence.
  assert (E : remove_slot (Var t) (set_slot k p (set_slot (Var t) q (set_slot (Var t) p s))) = set_slot k p s).
  { unfold set_slot, remove_slot. cbn. by rewrite insert_insert_eq, insert_insert_ne, delete_insert_id by (rewrite ?lookup_insert_ne; done). }
  destruct (drop_achieves t q (set_slot k p (set_slot (Var t) q (set_slot (Var t) p s)))) as (s' & E' & A).
  - apply exact_swap; [done|cbn; apply lookup_insert_eq|cbn; by rewrite lookup_insert_ne].
  - cbn. rewrite lookup_insert_ne by done. apply lookup_insert_eq.
  - rewrite E in E'. exists s'. split; [done|].
    change (delete (Var t) (slots ?s)) with (slots (remove_slot (Var t) s)) in A. by rewrite E in A.
Qed.

Lemma copy_assign_ok k other p q s : exact s -> Z.of_nat (size (slots s)) + 1 < 2 ^ 64 ->
  slots s !! k = Some q -> slots s !! other = Some p ->
  exists s', copy_assign k other s = Returns s' /\ achieves (<[k := p]> (slots s)) s'.
Proof.
  intros C Hsz Hk Ho. unfold copy_assign, get. rewrite Hk, Ho. cbn [or_undefined mbind outcome_bind].
  case_bool_decide as Heq; [subst q; exists s; split; [done|]; apply achieves_self; [done|by apply insert_id]|].
  destruct (exact_new s (fresh_var s) p C (fresh_var_new s)) as (s1 & E & Hs & C1); [|done|].
  { intros o ->. by eapply (held_alive _ _ _ C). }
  rewrite E. cbn [mbind outcome_bind]. rewrite <-Hs. apply (overwrite_ok (fresh_var s)); rewrite ?Hs; auto using fresh_var_new.
Qed.

Lemma move_assign_ok k other p q s : exact s -> Z.of_nat (size (slots s)) + 1 < 2 ^ 64 ->
  slots s !! k = Some q -> slots s !! other = Some p ->
  exists s', move_assign k other s = Returns s' /\ achieves (<[other := None]> (<[k := p]> (slots s))) s'.
Proof.
  intros C Hsz Hk Ho. unfold move_assign, get. rewrite Hk, Ho. cbn [or_undefined mbind outcome_bind].
  set (s1 := set_slot other q (set_slot k p s)). assert (C1 : exact s1) by (by apply exact_swap).
  assert (Hsz1 : size (slots s1) = size (slots s)).
  { cbn. rewrite !map_size_insert_Some; [done|by eexists|]. apply lookup_insert_is_Some'. right. by eexists. }
  assert (E : set_slot other None s1 = set_slot other None (set_slot k p s)).
  { unfold s1, set_slot. cbn. by rewrite insert_insert_eq. }
  destruct (overwrite_ok (fresh_var s1) other None q s1) as (s' & E' & A).
  - apply fresh_var_new.
  - cbn. apply lookup_insert_eq.
  - apply exact_construct; [done|apply fresh_var_new|]. by rewrite Hsz1.
  - rewrite E in E'. exists s'. split; [done|]. unfold s1 in A. cbn [slots set_slot] in A. by rewrite insert_insert_eq in A.
Qed.

(** [reset] of a pointer that outlives the release *)
Lemma reset_achieves k p s : exact s -> Z.of_nat (size (slots s)) + 1 < 2 ^ 64 -> slots s !! k = Some p -> outlives k s ->
  exists s', reset k s = Returns s' /\ achieves (<[k := None]> (slots s)) s'.
Proof.
  intros C Hsz Hk Hout. unfold reset, get. rewrite Hk. cbn [or_undefined mbind outcome_bind]. destruct p as [o|].
  2: { exists s. split; [done|]. apply achieves_self; [done|by apply insert_id]. }
  destruct (overwrite_ok (fresh_var s) k None (Some o) s) as (s' & E & A).
  { apply fresh_var_new. } { done. } { apply exact_construct; [done|apply fresh_var_new|done]. }
  assert (Hk' : slots s' !! k = Some None).
  { destruct k as [v|a i]; [rewrite (achieves_vars _ _ A); apply lookup_insert_eq|].
    cbn [outlives] in Hout. destruct Hout as [Hn|Hr]; [congruence|]. apply (achieves_alive _ _ A a Hr). apply lookup_insert_eq. }
  exists s'. split; [|done]. cbn [dec_ref] in E.
  apply (intrusive_dec_ref_frame k (Some o)) in E; [|by eexists].
  replace (set_slot k (Some o) (set_slot k None s)) with s in E
    by (destruct s as [os ss]; unfold set_slot; cbn in *; by rewrite insert_insert_eq, insert_id).
  rewrite E. cbn [mbind outcome_bind]. unfold get, set_slot. cbn [slots objects]. rewrite lookup_insert_eq, insert_insert_eq.
  cbn [or_undefined mbind outcome_bind]. destruct s' as [os ss]. cbn in *. by rewrite insert_id.
Qed.

(** Before the first operation *)
Lemma exact_empty : exact (mkState ∅ ∅).
Proof.
  split; cbn.
  - intros o ob H. by rewrite lookup_empty in H.
  - intros k o H. by rewrite lookup_empty in H.
  - intros o i [p H]. by rewrite lookup_empty in H.
  - intros o ob i H. by rewrite lookup_empty in H.
  - intros o [ob H]. by rewrite lookup_empty in H.
  - by intros o ?%elem_of_nil.
  - constructor.
  - rewrite map_size_empty. lia.
Qed.

(** C15: every operation on handles, of variables and of members of objects, from a state whose
    counts are exact (every object counts the pointers that hold it, none is held by nothing, no
    pointer dangles), returns: no freed object is touched and the deletion ends.  The operands are
    constructed, and what [reset] clears is null, a variable, or a member of an object that the variables reach
    without it ([outlives]; [reset] clears after the release, which frees a member with its object,
    [reset_last_member]).  The counts are exact again, every variable has the value the
    operation gives it, every object that a variable still reaches is alive with all its members
    unchanged, and the only other change is that pointers inside freed objects are gone. *)
Theorem refcount_correct (op : Op) (s : State) :
  exact s -> legal op s -> exists s', exec op s = Returns s' /\ achieves (target op s) s'.
Proof.
  intros C [Hsz Hl].
  destruct op as [v n|v|v other|v other|k other|k other|k other|k|v]; cbn [exec target slots_needed] in *; cbn in Hl.
  - destruct (make_ok s v n C Hl ltac:(lia)) as [E C']. eexists. split; [exact E|by apply achieves_self].
  - eexists. split; [done|]. apply achieves_self; [by apply exact_construct|done].
  - destruct Hl as [Hv [p Hp]]. unfold copy_construct, get, value. rewrite Hp. cbn [or_undefined mbind outcome_bind default].
    destruct (exact_new s v p C Hv) as (s1 & E & Hs & C1); [intros o ->; by eapply (held_alive _ _ _ C)|done|].
    rewrite E. eexists. split; [done|]. apply achieves_self; [done|]. cbn. by rewrite Hs.
  - destruct Hl as [Hv [p Hp]]. assert (Hne : Var v <> other) by congruence.
    unfold move_construct, release, get, value. rewrite Hp. cbn [or_undefined mbind outcome_bind default].
    eexists. split; [done|]. apply achieves_self; [|done].
    assert (C1 : exact (set_slot (Var v) None s)) by by apply exact_construct.
    pose proof (exact_swap _ other (Var v) p None C1) as H. cbn in H.
    rewrite lookup_insert_eq, lookup_insert_ne in H by done. specialize (H Hp eq_refl).
    unfold set_slot in *. cbn in *. rewrite (insert_insert_ne _ other (Var v)), insert_insert_eq in H by done.
    exact H.
  - destruct Hl as [[q Hq] [p Hp]]. unfold value. rewrite Hp. by eapply copy_assign_ok.
  - destruct Hl as [[q Hq] [p Hp]]. unfold value. rewrite Hp. by eapply move_assign_ok.
  - destruct Hl as [[q Hq] [p Hp]]. unfold swap, get, value. rewrite Hq, Hp. eexists. split; [done|].
    apply achieves_self; [by apply exact_swap|done].
  - destruct Hl as [[p Hp] Hout]. by eapply reset_achieves.
  - destruct Hl as [p Hp]. unfold destroy, get. rewrite Hp. by apply drop_achieves.
Qed.

Lemma refcount_correct_witness : exists s s',
  make (Var 1) 2 (mkState ∅ ∅) = Returns s /\ size (objects s) = 1%nat
  /\ exec (ODestroy 1) s = Returns s' /\ achieves (target (ODestroy 1) s) s' /\ size (objects s') = 0%nat.
Proof.
  destruct (make_ok (mkState ∅ ∅) 1 2 exact_empty) as [E C]; [apply lookup_empty|cbn; rewrite map_size_empty; lia|].
  eexists. destruct (refcount_correct (ODestroy 1) _ C) as (s' & E' & A).
  - split; [vm_compute; done|]. cbn. rewrite lookup_insert_eq. by eexists.
  - exists s'. split; [exact E|]. split; [vm_compute; reflexivity|]. split; [exact E'|]. split; [exact A|].
    vm_compute in E'. injection E' as <-. vm_compute. reflexivity.
Defined.

(** A chain of objects is freed with its first pointer, without recursion; a cycle is not. *)
Fixpoint exec_all (ops : list Op) (s : State) : outcome State :=
  match ops with [] => Returns s | op :: ops => s ← exec op s; exec_all ops s end.
Definition alive (o : outcome State) : outcome nat := s ← o; Returns (size (objects s)).

Example chain_freed : forall ops, ops = [OMake 1 1; OMake 2 1; OMake 3 0; OCopyAssign (Mem 2 0) (Var 3);
    OMoveAssign (Mem 1 0) (Var 2); ODestroy 3; ODestroy 2] ->
  alive (exec_all ops (mkState ∅ ∅)) = Returns 3%nat
  /\ alive (exec_all (ops ++ [OCopy 4 (Mem 1 0); OReset (Var 1)]) (mkState ∅ ∅)) = Returns 2%nat
  /\ alive (exec_all (ops ++ [OReset (Var 1)]) (mkState ∅ ∅)) = Returns 0%nat.
Proof. intros ops ->. split_and!; vm_compute; reflexivity. Qed.

Definition cycle : list Op := [OMake 1 1; OCopyAssign (Mem 1 0) (Var 1); OReset (Var 1)].
Example cycle_leaks : alive (exec_all cycle (mkState ∅ ∅)) = Returns 1%nat.
Proof. vm_compute. reflexivity. Qed.

(** [reset] clears the pointer only after the release: on a member of an object that nothing else
    holds, the release destroys the member, which releases the object once more, and [reset] then
    writes to freed memory.  The assignments, which clear first, are fine. *)
Lemma reset_last_member : exists s, exec_all cycle (mkState ∅ ∅) = Returns s /\ exact s
  /\ reset (Mem 1 0) s = Undefined /\ (exists s', move_assign (Mem 1 0) (Var 1) s = Returns s' /\ size (objects s') = 0%nat).
Proof.
  unfold cycle, exec_all. pose proof exact_empty as C0.
  destruct (make_ok (mkState ∅ ∅) 1 1 C0) as [E1 C1]; [apply lookup_empty|cbn; rewrite map_size_empty; lia|].
  cbn [exec]. rewrite E1. cbn [mbind outcome_bind].
  destruct (copy_assign_ok (Mem 1 0) (Var 1) (Some 1%positive) None _ C1) as (s2 & E2 & A2); [vm_compute; done..|].
  rewrite E2. cbn [mbind outcome_bind]. pose proof (achieves_vars _ _ A2 1%positive) as Hv.
  destruct (reset_achieves (Var 1) (Some 1%positive) s2 (achieves_exact _ _ A2)) as (s3 & E3 & A3).
  - vm_compute in E2. injection E2 as <-. vm_compute. done.
  - rewrite Hv. vm_compute. done.
  - done.
  - rewrite E3. exists s3. split; [done|]. split; [apply A3|].
    vm_compute in E2. injection E2 as <-. vm_compute in E3. injection E3 as <-.
    split; [vm_compute; done|]. eexists. split; vm_compute; reflexivity.
Qed.
