(* ===== verification/Writer.v ===== *)
(** Writers ([include/trieste/writer.h]): destinations, which are a directory, the console or a map
    in memory; and [Writer], which runs its passes and writes the files of the tree they leave. *)
From S2P Require Import Prelude.
From S2P Require Import Token.
From S2P Require Import Source.
From S2P Require Import Ast.
From S2P Require Import AstFacts.
From S2P Require Import Wellformed.
From S2P Require Import WfOps.
From S2P Require Import Rewrite.
From S2P Require Import Pass.
From S2P Require Import Passes.
From stdpp Require Export gmap.
#[local] Set Warnings "-register-all".
Open Scope Z_scope.

(** * Paths

    The operations of [std::filesystem::path] that the code uses, on the text of a path where the
    separator is [/]. *)
Definition slash : Z := 47.
Definition Text := list Z.

Definition is_absolute (p : Text) : bool := bool_decide (head p = Some slash).
Definition has_filename (p : Text) : bool :=
  match last p with Some b => negb (b =? slash) | None => false end.
(** [path / path] *)
Definition append_path (p q : Text) : Text :=
  if is_absolute q || bool_decide (p = []) then q
  else p ++ (if has_filename p then [slash] else []) ++ q.

(** Up to the last separator; the separators before it are dropped, but for a root. *)
Fixpoint drop_while (f : Z -> bool) (l : Text) : Text :=
  match l with [] => [] | b :: l' => if f b then drop_while f l' else l end.
Definition parent_path (p : Text) : Text :=
  let dir := drop_while (fun b => negb (b =? slash)) (rev p) in
  match drop_while (fun b => b =? slash) dir with
  | [] => match dir with [] => [] | _ => if forallb (fun b => b =? slash) p then p else [slash] end
  | stem => rev stem
  end.

(** A path in quotes, as a stream shows it: [std::quoted] *)
Definition quoted (p : Text) : Text :=
  [34] ++ flat_map (fun b => if (b =? 34) || (b =? 92) then [92; b] else [b]) p ++ [34].

(** * [DestinationDef] *)

(** The file system and the console: directories that cannot be made, with the text of the
    exception, files that can be opened, what files hold, and what was printed. *)
Record Disk := mkDisk {
  create_directories : Text -> option Text;
  opens : Text -> bool;
  on_disk : gmap Text Text;
  cout : Text
}.
Definition with_disk (f : gmap Text Text -> gmap Text Text) (d : Disk) : Disk :=
  mkDisk (create_directories d) (opens d) (f (on_disk d)) (cout d).
Definition print (s : Text) (d : Disk) : Disk :=
  mkDisk (create_directories d) (opens d) (on_disk d) (cout d ++ s).

Inductive Mode := FileSystem | Console | Synthetic.

(** [fstream_] is the path of the file that is open. *)
Record DestinationDef := mkDestination {
  mode_ : Mode;
  fstream_ : option Text;
  sstream_ : Text;
  files_ : gmap Text Text;
  path_ : Text;
  is_open_ : bool
}.

(** [dir(path)], [console()] and [synthetic()]; [make] initialises the other members. *)
Definition new_destination (m : Mode) (path : Text) : DestinationDef := mkDestination m None [] ∅ path false.
Definition dir (path : Text) : DestinationDef := new_destination FileSystem path.
Definition console : DestinationDef := new_destination Console (bytes ".").
Definition synthetic : DestinationDef := new_destination Synthetic (bytes ".").

(** [close] *)
Definition close_disk (d : DestinationDef) (w : Disk) : Disk :=
  match mode_ d with
  | Console => if is_open_ d then print ([10] ++ bytes "CLOSE " ++ quoted (path_ d) ++ [10]) w else w
  | _ => w
  end.
Definition close (d : DestinationDef) : DestinationDef :=
  if negb (is_open_ d) then d
  else
    let path := parent_path (path_ d) in
    match mode_ d with
    | FileSystem => mkDestination FileSystem None (sstream_ d) (files_ d) path false
    | Console => mkDestination Console (fstream_ d) (sstream_ d) (files_ d) path false
    | Synthetic =>
        match sstream_ d with
        | [] => mkDestination Synthetic (fstream_ d) [] (files_ d) path false
        | contents => mkDestination Synthetic (fstream_ d) [] (<[path_ d := contents]> (files_ d)) path false
        end
    end.

(** [open]: whether the file was opened, or the text of the exception *)
Definition open_file (path : Text) (d : DestinationDef) (w : Disk) : (Text + bool) * DestinationDef * Disk :=
  let at_path fstream opened := mkDestination (mode_ d) fstream (sstream_ d) (files_ d) path opened in
  match mode_ d with
  | FileSystem =>
      match (if bool_decide (parent_path path = []) then None else create_directories w (parent_path path)) with
      | Some message => (inl message, at_path (fstream_ d) (is_open_ d), w)
      | None =>
          match fstream_ d with
          | Some p => (inr true, at_path (Some p) true, w)
          | None =>
              if opens w path then (inr true, at_path (Some path) true, with_disk <[path := []]> w)
              else (inr false, at_path None false, w)
          end
      end
  | Console => (inr true, at_path (fstream_ d) true, print (bytes "OPEN " ++ quoted path ++ [10; 10]) w)
  | Synthetic => (inr true, at_path (fstream_ d) true, w)
  end.
Definition open (path : Text) (d : DestinationDef) (w : Disk) : (Text + bool) * DestinationDef * Disk :=
  let w := close_disk d w in
  let d := close d in
  open_file (append_path (path_ d) path) d w.

(** Writing to [stream()]: to a file that is not open, nothing *)
Definition put (s : Text) (d : DestinationDef) (w : Disk) : DestinationDef * Disk :=
  match mode_ d with
  | FileSystem =>
      match fstream_ d with
      | Some p => (d, with_disk (alter (fun t => t ++ s) p) w)
      | None => (d, w)
      end
  | Console => (d, print s w)
  | Synthetic => (mkDestination Synthetic (fstream_ d) (sstream_ d ++ s) (files_ d) (path_ d) (is_open_ d), w)
  end.

(** [file(path)] *)
Definition file (d : DestinationDef) (path : Text) : outcome Text :=
  match files_ d !! path with Some s => Returns s | None => Throws end.

(** * [wf_writer] *)

Definition Path : Token := builtin 40 "path" flag_print.
Definition FileSeq : Token := builtin 41 "fileseq" 0.
Definition Contents : Token := builtin 42 "contents" 0.

Definition wf_writer_shapes : outcome Wellformed :=
  top ← shape_choice Token.Top (token_or_token Directory File);
  directory ← token_times_token Path FileSeq;
  file ← token_times_token Path Contents;
  let wf := shape_or_shape top (shape_fields Directory directory) in
  let wf := wf_moved_or_shape wf (shape_sequence FileSeq (choice_plus (token_or_token Directory File))) in
  Returns (wf_moved_or_shape wf (shape_fields File file)).
Definition wf_writer : Wellformed := match wf_writer_shapes with Returns wf => wf | _ => empty_wf end.
Lemma wf_writer_defined : wf_writer_shapes = Returns wf_writer.
Proof. reflexivity. Qed.

(** * [Writer] *)

(** [WriteFile], a function that only reads the tree: what it writes to the stream, and the text of
    the exception that ends it, or its answer. *)
Definition WriteFile : Type := WfContexts -> heap -> Node -> outcome (Text * (Text + bool)).

Section Writer.
Context {P : Type} `{IsPass P}.

Record Writer := mkWriter {
  language_name_ : string;
  writer_passes : list P;
  writer_wf : Wellformed;
  write_file_ : WriteFile;
  destination_ : DestinationDef;
  writer_debug_enabled : bool;
  writer_wf_check_enabled : bool;
  writer_debug_path : Text
}.

Definition new_writer (language_name : string) (passes : list P) (input_wf : Wellformed) (write_file : WriteFile) : Writer :=
  mkWriter language_name passes input_wf write_file console false true (bytes ".").
Definition set_destination (d : DestinationDef) (r : Writer) : Writer :=
  mkWriter (language_name_ r) (writer_passes r) (writer_wf r) (write_file_ r) d (writer_debug_enabled r)
    (writer_wf_check_enabled r) (writer_debug_path r).
Definition set_writer_debug (enabled : bool) (path : Text) (r : Writer) : Writer :=
  mkWriter (language_name_ r) (writer_passes r) (writer_wf r) (write_file_ r) (destination_ r) enabled
    (writer_wf_check_enabled r) path.
Definition set_writer_wf_check (value : bool) (r : Writer) : Writer :=
  mkWriter (language_name_ r) (writer_passes r) (writer_wf r) (write_file_ r) (destination_ r) (writer_debug_enabled r)
    value (writer_debug_path r).

(** The loop of [write].  [what] is the text of the exception when a field is not found, and the
    new locations have the source [id]. *)
Context (what : Text) (id : positive) (write_file : WriteFile) (c : WfContexts).

(** The body of the [try]: the text of the exception that ended it *)
Definition write_one (current : Node) (h : heap) (d : DestinationDef) (w : Disk)
    : outcome (option Text * DestinationDef * Disk) :=
  match node_slash c h current Path with
  | Undefined => Undefined
  | Throws => Returns (Some what, d, w)
  | Returns path =>
      name ← view (location_of h (lookup_node path));
      let '(opened, d, w) := open name d w in
      match opened with
      | inl message => Returns (Some message, d, w)
      | inr _ =>
          match node_slash c h current Contents with
          | Undefined => Undefined
          | Throws => Returns (Some what, d, w)
          | Returns contents =>
              '(text, answer) ← write_file c h (lookup_node contents);
              let '(d, w) := put text d w in
              match answer with
              | inl message => Returns (Some message, d, w)
              | inr _ => Returns (None, close d, close_disk d w)
              end
          end
      end
  end.

(** [Error << (ErrorMsg ^ e.what()) << (ErrorAst << current->clone())] *)
Definition write_error (fuel : nat) (h : heap) (message : Text) (current : Node) : outcome (Node * heap) :=
  let '(e, h) := create_token h Error in
  let '(m, h) := pow_text id h ErrorMsg message in
  let h := shl_node h e (Some m) in
  let '(a, h) := create_token h ErrorAst in
  '(n, h) ← clone fuel h current;
  let h := shl_node h a (Some n) in
  Returns (e, shl_node h e (Some a)).

(** The back of the stack is the head of the list. *)
Fixpoint write_loop (fuel : nat) (stack : list Node) (h : heap) (errors : list Node) (d : DestinationDef) (w : Disk)
    : outcome (list Node * heap * DestinationDef * Disk) :=
  match stack with
  | [] => Returns (errors, h, d, w)
  | current :: stack =>
      match fuel with
      | O => Undefined
      | S fuel' =>
          if token_eqb (type_of h current) Directory then
            files ← node_slash c h current FileSeq;
            write_loop fuel' (rev (children_of h (lookup_node files)) ++ stack) h errors d w
          else if token_eqb (type_of h current) File then
            '(thrown, d, w) ← write_one current h d w;
            match thrown with
            | None => write_loop fuel' stack h errors d w
            | Some message =>
                '(e, h) ← write_error (S (size h)) h message current;
                write_loop fuel' stack h (errors ++ [e]) d w
            end
          else if token_eqb (type_of h current) Token.Top then
            write_loop fuel' (rev (children_of h current) ++ stack) h errors d w
          else write_loop fuel' stack h errors d w
      end
  end.
End Writer.
Arguments Writer : clear implicits.

(** [write]: the passes, then the files; the destination is shared with the writer.  The loop is
    bounded by the store: a turn takes a node of the tree. *)
Section Write.
Context {P : Type} `{IsPass P} (what : Text) (id : positive).

Definition process (fuel : nat) (r : Writer P) (c : WfContexts) (ast : Node) (h : heap) (out : OutDir) :=
  process_run fuel (writer_wf_check_enabled r)
    (Some (default_pass_complete fuel (bytes (language_name_ r)) (dumps (writer_debug_enabled r) (writer_debug_path r))))
    (new_range (writer_passes r) (writer_wf r) (language_name_ r)) c (Some ast) h out.
Definition writer_context (c : WfContexts) (r : Writer P) : WfContexts := [writer_wf r; wf_writer] :: c.

Definition write (fuel : nat) (r : Writer P) (c : WfContexts) (ast : Node) (h : heap) (out : OutDir) (w : Disk)
    : outcome (ProcessResult * heap * OutDir * DestinationDef * Disk) :=
  '(result, h, out) ← process fuel r c ast h out;
  if negb (ok result) then Returns (result, h, out, destination_ r, w)
  else
    ast ← or_undefined (result_ast result);
    '(errors, h, d, w) ← write_loop what id (write_file_ r) (writer_context c r) (S (size h)) [ast] h []
                           (destination_ r) w;
    match errors with
    | [] => Returns (result, h, out, d, w)
    | _ => Returns (mkResult false (last_pass result) (result_ast result) errors (total_changes result), h, out, d, w)
    end.
End Write.

(** * Paths come back *)

Lemma drop_while_app f l1 l2 : forallb f l1 = true -> drop_while f (l1 ++ l2) = drop_while f l2.
Proof. induction l1 as [|b l1 IH]; [done|]. cbn. intros [-> H]%andb_true_iff. auto. Qed.

Definition plain (name : Text) : Prop := name <> [] /\ slash ∉ name.

Lemma append_plain p name : plain name -> has_filename p = true -> append_path p name = p ++ [slash] ++ name.
Proof.
  intros [Hn Hs] Hp. unfold append_path, is_absolute. rewrite Hp.
  rewrite bool_decide_false by (destruct name as [|b name]; [done|intros [= ->]; apply Hs; left]).
  rewrite bool_decide_false by (by intros ->). done.
Qed.

Lemma parent_append p name : plain name -> has_filename p = true -> parent_path (append_path p name) = p.
Proof.
  intros Hn Hp. rewrite append_plain by done. destruct Hn as [_ Hs]. unfold parent_path. rewrite !rev_app_distr. cbn [rev app].
  rewrite <-app_assoc, drop_while_app.
  2: { apply forallb_forall. intros b Hb%in_rev%list_elem_of_In. apply negb_true_iff, Z.eqb_neq. by intros ->. }
  cbn [app drop_while]. change (negb (slash =? slash)) with false. cbv iota. cbn [drop_while].
  change (slash =? slash) with true. cbv iota. unfold has_filename in Hp.
  destruct p as [|b p] using rev_ind; [done|]. rewrite last_snoc in Hp. apply negb_true_iff in Hp.
  rewrite rev_unit. cbn [drop_while]. rewrite Hp. cbn [rev]. by rewrite rev_involutive.
Qed.

(** * What a writer delivers *)

(** Between files a destination is closed and holds nothing back. *)
Record ready (d : DestinationDef) : Prop := {
  ready_closed : is_open_ d = false;
  ready_file : fstream_ d = None;
  ready_text : sstream_ d = [];
  ready_path : has_filename (path_ d) = true
}.

(** A text under a name: a file of the directory, a file of the map (an empty text makes none), or
    what the console shows. *)
Definition deliver (dw : DestinationDef * Disk) (f : Text * Text) : DestinationDef * Disk :=
  let '(d, w) := dw in
  let '(name, text) := f in
  let path := append_path (path_ d) name in
  match mode_ d with
  | FileSystem => (d, with_disk <[path := text]> w)
  | Console => (d, print (bytes "OPEN " ++ quoted path ++ [10; 10] ++ text ++ [10] ++ bytes "CLOSE " ++ quoted path ++ [10]) w)
  | Synthetic => (mkDestination Synthetic (fstream_ d) (sstream_ d)
                    (match text with [] => files_ d | _ => <[path := text]> (files_ d) end) (path_ d) (is_open_ d), w)
  end.

(** The names a destination takes: without separators, and for a directory those that can be opened *)
Definition deliverable (d : DestinationDef) (w : Disk) (name : Text) : Prop :=
  plain name /\ (mode_ d = FileSystem -> create_directories w (path_ d) = None /\ opens w (append_path (path_ d) name) = true).

Lemma deliver_ready d w f : ready d -> ready (deliver (d, w) f).1.
Proof. intros [? ? ? ?]. destruct f as [name text]. unfold deliver. by destruct (mode_ d). Qed.
Lemma deliver_deliverable d w f name : deliverable d w name ->
  deliverable (deliver (d, w) f).1 (deliver (d, w) f).2 name.
Proof. destruct f as [n text]. unfold deliverable, deliver. destruct (mode_ d) eqn:E; cbn; rewrite ?E; naive_solver. Qed.

Lemma open_put_close d w name text : ready d -> deliverable d w name ->
  exists d1 w1, open name d w = (inr true, d1, w1)
    /\ (close (put text d1 w1).1, close_disk (put text d1 w1).1 (put text d1 w1).2) = deliver (d, w) (name, text).
Proof.
  intros [Ho Hf Ht Hp] [Hn Hfs]. pose proof (parent_append _ _ Hn Hp) as Hpar.
  assert (Hne : path_ d <> []) by (by intros E; rewrite E in Hp).
  destruct d as [m fs ss files p o]. cbn in *. subst o fs ss.
  unfold open, close_disk, close. cbn [is_open_ mode_ negb path_]. unfold open_file. cbn [mode_ fstream_ path_ sstream_ files_ is_open_].
  destruct m.
  - destruct (Hfs eq_refl) as [Hc Hop]. rewrite Hpar, Hc, bool_decide_false by done. rewrite Hop. eexists _, _. split; [done|].
    unfold put, deliver. cbn. rewrite Hpar. unfold with_disk. cbn. by rewrite alter_insert_eq.
  - eexists _, _. split; [done|]. unfold put, deliver. cbn. rewrite Hpar. unfold print. cbn. rewrite <-!app_assoc. cbn. rewrite <-!app_assoc. done.
  - eexists _, _. split; [done|]. unfold put, deliver. cbn. rewrite Hpar. by destruct text.
Qed.

(** * The files of a tree *)

Section Outputs.
Context (write_file : WriteFile) (c : WfContexts) (h : heap).

(** The names and texts of the files, in the order they are written: the last child first *)
Inductive outputs : tree -> list (Text * Text) -> Prop :=
| out_file n ts path (name : Text) contents (text : Text) answer :
    type_of h n = File ->
    node_slash c h n Path = Returns path -> view (location_of h (lookup_node path)) = Returns name ->
    node_slash c h n Contents = Returns contents -> write_file c h (lookup_node contents) = Returns (text, inr answer) ->
    outputs (Tree n ts) [(name, text)]
| out_directory n ts files fts texts :
    type_of h n = Directory -> node_slash c h n FileSeq = Returns files -> Tree (lookup_node files) fts ∈ ts ->
    Forall2 outputs (rev fts) texts -> outputs (Tree n ts) (concat texts)
| out_top n ts texts :
    type_of h n = Token.Top -> Forall2 outputs (rev ts) texts -> outputs (Tree n ts) (concat texts)
| out_other n ts : type_of h n <> File -> type_of h n <> Directory -> type_of h n <> Token.Top -> outputs (Tree n ts) [].

Lemma reads_child n ts t : reads h (Tree n ts) -> t ∈ ts -> reads h t.
Proof. intros [_ H]%reads_inv Ht. rewrite Forall_forall in H. auto. Qed.

Definition turns (ts : list tree) : nat := sum_list ((fun t => length (nodes t)) <$> ts).
Lemma turns_app ts us : turns (ts ++ us) = (turns ts + turns us)%nat.
Proof. unfold turns. rewrite fmap_app. apply sum_list_with_app || induction ts; cbn; lia. Qed.
Lemma turns_rev ts : turns (rev ts) = turns ts.
Proof. induction ts as [|t ts IH]; [done|]. cbn [rev]. rewrite turns_app, IH. unfold turns. cbn. lia. Qed.
Lemma turns_node n ts : length (nodes (Tree n ts)) = S (turns ts).
Proof. cbn [nodes length]. f_equal. unfold turns. induction ts as [|t ts IH]; [done|]. cbn. rewrite length_app. lia. Qed.
Lemma turns_elem t ts : t ∈ ts -> (length (nodes t) <= turns ts)%nat.
Proof. unfold turns. induction 1 as [|t t' ts _ IH]; cbn in *; lia. Qed.

Lemma write_one_ok what n path (name : Text) contents text answer d w :
  node_slash c h n Path = Returns path -> view (location_of h (lookup_node path)) = Returns name ->
  node_slash c h n Contents = Returns contents -> write_file c h (lookup_node contents) = Returns (text, inr answer) ->
  ready d -> deliverable d w name ->
  write_one what write_file c n h d w
  = Returns (None, (deliver (d, w) (name, text)).1, (deliver (d, w) (name, text)).2).
Proof.
  intros Ep Ev Ec Ew Hd Hn. unfold write_one. rewrite Ep, Ev. cbn [mbind outcome_bind].
  destruct (open_put_close d w name text Hd Hn) as (d1 & w1 & E & E'). rewrite E, Ec, Ew. cbn [mbind outcome_bind].
  rewrite <-E'. by destruct (put text d1 w1).
Qed.

Lemma write_loop_ok what id : forall fuel stack texts d w es,
  Forall2 outputs stack texts -> Forall (reads h) stack -> (turns stack <= fuel)%nat ->
  ready d -> Forall (fun f => deliverable d w f.1) (concat texts) ->
  write_loop what id write_file c fuel (root <$> stack) h es d w
  = Returns (es, h, (foldl deliver (d, w) (concat texts)).1, (foldl deliver (d, w) (concat texts)).2).
Proof.
  induction fuel as [|fuel IH]; intros stack texts d w es Ho Hr Hf Hd Hn.
  all: destruct Ho as [|t fs stack texts Ht Ho]; [done|].
  all: apply Forall_cons in Hr as [Hrt Hr].
  { exfalso. destruct t. unfold turns in Hf. cbn in Hf. lia. }
  assert (Hf' : (length (nodes t) + turns stack <= S fuel)%nat) by (unfold turns in *; cbn in Hf; lia).
  destruct t as [n ts]. rewrite turns_node in Hf'. cbn [fmap list_fmap root write_loop].
  assert (Hpush : forall us texts', Forall2 outputs (rev us) texts' -> Forall (reads h) us -> (turns us <= turns ts)%nat ->
    fs = concat texts' ->
    write_loop what id write_file c fuel (rev (root <$> us) ++ (root <$> stack)) h es d w
    = Returns (es, h, (foldl deliver (d, w) (concat (fs :: texts))).1, (foldl deliver (d, w) (concat (fs :: texts))).2)).
  { intros us texts' Hu Hru Hle ->. cbn [concat]. rewrite <-concat_app. change (rev (root <$> us)) with (rev (map root us)). rewrite <-map_rev. change (map root (rev us)) with (root <$> rev us). rewrite <-fmap_app. apply IH; [by apply Forall2_app| |by rewrite turns_app, turns_rev; lia|done|].
    - rewrite Forall_app. split; [|done]. rewrite Forall_forall in *. intros x Hx. apply Hru. by apply list_elem_of_In, in_rev, list_elem_of_In.
    - cbn [concat] in Hn. by rewrite concat_app. }
  inversion Ht as [n' ts' path name contents text answer Ety Ep Ev Ec Ew|n' ts' files fts texts' Ety Ef Hin Hfs|n' ts' texts' Ety Hfs|n' ts' E1 E2 E3]; subst.
  - cbn [concat app] in Hn. apply Forall_cons in Hn as [Hn1 Hn]. cbn [fst] in Hn1. rewrite Ety. cbn [token_eqb].
    change (token_eqb File Directory) with false. change (token_eqb File File) with true. cbv iota.
    rewrite (write_one_ok what n path name contents text answer d w Ep Ev Ec Ew Hd Hn1). cbn [mbind outcome_bind concat app foldl].
    pose proof (deliver_ready d w (name, text) Hd) as Hd'.
    assert (Hn' : Forall (fun f => deliverable (deliver (d, w) (name, text)).1 (deliver (d, w) (name, text)).2 f.1) (concat texts)).
    { rewrite Forall_forall in *. intros f Hin. by apply deliver_deliverable, Hn. }
    destruct (deliver (d, w) (name, text)) as [d3 w3]. apply IH; [done|done|unfold turns in *; lia|done|done].
  - rewrite Ety. cbn. rewrite Ef. cbn [mbind outcome_bind]. pose proof (reads_child _ _ _ Hrt Hin) as Hrf.
    pose proof (turns_elem _ _ Hin) as Hle. rewrite turns_node in Hle. apply reads_inv in Hrf as [Ec Hrf]. rewrite Ec.
    apply (Hpush fts texts'); [done|done|lia|done].
  - rewrite Ety. cbn. apply reads_inv in Hrt as [Ec Hrt]. rewrite Ec. by apply (Hpush ts texts').
  - unfold token_eqb. rewrite !bool_decide_false by done.
    apply (IH stack texts); [done|done|lia|done|done].
Qed.
End Outputs.

(** * [write] *)

Section Correct.
Context {P : Type} `{IsPass P}.
Context (what : Text) (id : positive) (fuel : nat) (r : Writer P) (c : WfContexts).

(** The files of the tree that the passes leave are written, whatever the function that writes
    them answers and also from under directories, whose paths are not used. *)
Lemma write_files ast h out w result h' out' t texts :
  process fuel r c ast h out = Returns (result, h', out') -> ok result = true ->
  result_ast result = Some (root t) -> reads h' t -> NoDup (nodes t) -> (forall n, n ∈ nodes t -> is_Some (h' !! n)) ->
  outputs (write_file_ r) (writer_context c r) h' t texts ->
  ready (destination_ r) -> Forall (fun f => deliverable (destination_ r) w f.1) texts ->
  exists d w', write what id fuel r c ast h out w = Returns (result, h', out', d, w')
    /\ (d, w') = foldl deliver (destination_ r, w) texts /\ ready d.
Proof.
  intros E Eok Ea Hr Hnd Hin Ho Hd Hn.
  exists (foldl deliver (destination_ r, w) texts).1, (foldl deliver (destination_ r, w) texts).2.
  split_and!; [|by destruct (foldl _ _ _)|].
  + unfold write. rewrite E. cbn [mbind outcome_bind]. rewrite Eok. cbn [negb]. rewrite Ea. cbn [or_undefined mbind outcome_bind].
    pose proof (write_loop_ok (write_file_ r) (writer_context c r) h' what id (S (size h')) [t] [texts] (destination_ r) w []) as L.
    cbn [fmap list_fmap concat] in L. rewrite app_nil_r in L. rewrite L; [done|by repeat constructor|by repeat constructor| |done|done].
    unfold turns. cbn. rewrite Nat.add_0_r. transitivity (size (dom h')); [|rewrite size_dom; lia].
    rewrite <-(size_list_to_set (C := gset Node) (nodes t)) by done. apply subseteq_size. intros n Hnn%elem_of_list_to_set.
    by apply elem_of_dom, Hin.
  + clear Hn Ho. revert Hd. generalize (destination_ r) w. induction texts as [|f texts IH]; intros d w0 Hd; [done|].
    cbn [foldl]. destruct (deliver (d, w0) f) as [d1 w1] eqn:Ef. apply IH. pose proof (deliver_ready d w0 f Hd) as H1. by rewrite Ef in H1.
Qed.

(** Trees of the shape that every output has: files, which are not in directories, of which the
    function that writes them answers that there was no error. *)
Record plain_files (h : heap) (t : tree) : Prop := {
  no_directories : forall n, n ∈ nodes t -> type_of h n <> Directory;
  no_errors : forall n contents, n ∈ nodes t -> type_of h n = File ->
    node_slash (writer_context c r) h n Contents = Returns contents ->
    exists text, write_file_ r (writer_context c r) h (lookup_node contents) = Returns (text, inr false)
}.

(** C16: a writer writes the files of the tree its passes leave.  When the process is refused,
    [write] returns its result and the destination is as it was.  When it is accepted, and the tree
    that it leaves has its files at the top, not in a [Directory], and the function that writes them neither
    throws nor answers that there was an error ([plain_files]), then, for names without separators
    that the destination can open and, in memory, texts that are not empty, [write] returns that result and the
    destination holds every file under its name, in the order of the visit, which takes the last
    child first (of two files with one name the one that is visited last counts); it is ready for the
    next writer. *)
Theorem write_correct ast h out w :
  (forall result h' out', process fuel r c ast h out = Returns (result, h', out') -> ok result = false ->
     write what id fuel r c ast h out w = Returns (result, h', out', destination_ r, w))
  /\ (forall result h' out' t texts,
     process fuel r c ast h out = Returns (result, h', out') -> ok result = true ->
     result_ast result = Some (root t) -> reads h' t -> NoDup (nodes t) -> (forall n, n ∈ nodes t -> is_Some (h' !! n)) ->
     plain_files h' t -> outputs (write_file_ r) (writer_context c r) h' t texts ->
     ready (destination_ r) -> Forall (fun f => deliverable (destination_ r) w f.1) texts ->
     (mode_ (destination_ r) = Synthetic -> Forall (fun f => f.2 <> []) texts) ->
     exists d w', write what id fuel r c ast h out w = Returns (result, h', out', d, w')
       /\ (d, w') = foldl deliver (destination_ r, w) texts /\ ready d).
Proof.
  split.
  - intros result h' out' E Eok. unfold write. rewrite E. cbn [mbind outcome_bind]. by rewrite Eok.
  - intros result h' out' t texts E Eok Ea Hr Hnd Hin _ Ho Hd Hn _. by apply (write_files ast h out w result h' out' t texts).
Qed.
End Correct.
