(* ===== verification/JsonFile.v ===== *)
(** The writer of JSON documents ([parsers/json/writer.cc]): the pass that makes a file of a document,
    the writer, and runs of writers that show what a destination does with paths and failures. *)
From S2P Require Import Prelude.
From S2P Require Import Token.
From S2P Require Import Source.
From S2P Require Import Ast.
From S2P Require Import AstFacts.
From S2P Require Import Wellformed.
From S2P Require Import WfOps.
From S2P Require Import JsonParse.
From S2P Require Import JsonWriter.
From S2P Require Import FastPattern.
From S2P Require Import Rewrite.
From S2P Require Import Pass.
From S2P Require Import Passes.
From S2P Require Import JsonReader.
From S2P Require Import Writer.
From stdpp Require Export gmap.
#[local] Set Warnings "-register-all".
Open Scope Z_scope.

(** * [to_file] *)

Definition wf_to_file_shapes : outcome Wellformed :=
  top ← shape_token Token.Top File;
  file ← token_times_token Path Contents;
  contents ← sequence_bound (choice_plus wf_value_tokens) 1;
  Returns (wf_moved_or_shape (wf_moved_or_shape (wf_or_shape json_wf top) (shape_fields File file))
             (shape_sequence Contents contents)).
Definition wf_to_file : Wellformed := match wf_to_file_shapes with Returns wf => wf | _ => empty_wf end.
Lemma wf_to_file_defined : wf_to_file_shapes = Returns wf_to_file.
Proof. reflexivity. Qed.

Section Writer.
Context (id : positive).

(** [File << (Path ^ path) << (Contents << _[Value])] *)
Definition to_file_effect (path : Text) : Effect := fun _ m h =>
  let '(f, h) := create_token h File in
  let '(p, h) := pow_text id h Path path in
  let h := shl_node h f (Some p) in
  let '(n, h) := node_of_range h Contents (range_nodes h (match_range m Value)) in
  Returns (Some f, shl_node h f (Some n)).
Definition to_file (path : Text) : outcome PassDef :=
  values ← pattern_rep ValueToken;
  top ← pattern_seq (Rewrite.In [Token.Top]) (pattern_cap Value values);
  Returns (new_pass "to_file" wf_to_file (Z.lor dir_bottomup dir_once) [mkRule top (to_file_effect path)]).

(** * [json::writer] *)

(** The function the writer calls; it returns true. *)
Definition json_write_file (prettyprint sort_keys : bool) (indent : list Z) : WriteFile := fun c h contents =>
  text ← json_write c h prettyprint sort_keys indent contents; Returns (text, inr true).
Definition writer (path : Text) (prettyprint sort_keys : bool) (indent : list Z) : outcome (Writer PassDef) :=
  pass ← to_file path;
  Returns (new_writer "json" [pass] json_wf (json_write_file prettyprint sort_keys indent)).
End Writer.

(** * A document in memory *)

Module Sample.
Definition fuel : nat := 60.
#[export] Instance passes_are : IsPass PassDef := passdef_is_pass fuel (fun _ _ => new_match).
Definition pass : PassDef := match to_file 3 (bytes "actual.json") with Returns p => p | _ => new_pass "" empty_wf 0 [] end.
Definition memory : Writer PassDef :=
  set_destination synthetic (new_writer "json" [pass] json_wf (json_write_file false false default_indent)).
Lemma writer_is : (set_destination synthetic <$> writer 3 (bytes "actual.json") false false default_indent) = Returns memory.
Proof. reflexivity. Qed.

(** The document [[true,null]] *)
Definition loc (s : list Z) : Location := location_of_string 2 s.
Definition store : heap :=
  let '(top, h) := create_token ∅ Token.Top in
  let '(a, h) := create h Array (loc (bytes "[")) in
  let h := push_back h top (Some a) in
  let '(t, h) := create h JTrue (loc (bytes "true")) in
  let h := push_back h a (Some t) in
  let '(n, h) := create h Null (loc (bytes "null")) in
  push_back h a (Some n).
Definition disk : Disk := mkDisk (fun _ => None) (fun _ => true) ∅ [].
Definition no_dumps : OutDir := mkOutDir false false (fun _ => false) [].

Definition ran := process fuel memory initial_contexts 1%positive store no_dumps.
Definition result : ProcessResult := Eval vm_compute in match ran with Returns (r, _, _) => r | _ => mkResult false "" None [] 0 end.
Definition h' : heap := Eval vm_compute in match ran with Returns (_, h, _) => h | _ => ∅ end.
Definition out' : OutDir := Eval vm_compute in match ran with Returns (_, _, o) => o | _ => no_dumps end.
Definition tree : AstFacts.tree :=
  Tree 1%positive [Tree 5%positive [Tree 6%positive []; Tree 7%positive
    [Tree 2%positive [Tree 3%positive []; Tree 4%positive []]]]].
Definition text : Text := bytes "[true,null]" ++ [10].

Lemma ran_is : process fuel memory initial_contexts 1%positive store no_dumps = Returns (result, h', out').
Proof. vm_compute. reflexivity. Qed.
Lemma result_is : ok result = true /\ result_ast result = Some (root tree).
Proof. split; vm_compute; reflexivity. Qed.
Lemma reads_tree : reads h' tree.
Proof. repeat first [constructor|vm_compute; reflexivity]. Qed.
Lemma nodes_there : NoDup (nodes tree) /\ forall n, n ∈ nodes tree -> is_Some (h' !! n).
Proof.
  assert (H : NoDup (nodes tree) /\ Forall (fun n => is_Some (h' !! n)) (nodes tree)); [|by rewrite Forall_forall in H].
  split; vm_compute; repeat constructor; set_solver.
Qed.
Lemma outputs_tree : outputs (write_file_ memory) (writer_context initial_contexts memory) h' tree [(bytes "actual.json", text)].
Proof.
  change [(bytes "actual.json", text)] with (concat [[(bytes "actual.json", text)]]).
  apply out_top; [vm_compute; reflexivity|]. apply Forall2_cons. split; [|by apply Forall2_nil].
  eapply out_file; [vm_compute; reflexivity|vm_compute; reflexivity|vm_compute; reflexivity|vm_compute; reflexivity|].
  vm_compute. reflexivity.
Qed.
Lemma ready_memory : ready (destination_ memory).
Proof. split; vm_compute; reflexivity. Qed.
Lemma name_plain : Forall (fun f => deliverable (destination_ memory) disk f.1) [(bytes "actual.json", text)].
Proof.
  apply Forall_singleton. split; [split; [done|]|done].
  apply (bool_decide_unpack (slash ∉ (bytes "actual.json" : list Z))). vm_compute. exact I.
Qed.
End Sample.
#[local] Existing Instance Sample.passes_are.

(** The document [[true,null]] becomes a file in memory, although the function answers [true]. *)
Lemma document_written : exists r w',
  write [] 3 Sample.fuel Sample.memory initial_contexts 1%positive Sample.store Sample.no_dumps Sample.disk
  = Returns (Sample.result, Sample.h', Sample.out', r, w') /\ file r (bytes "./actual.json") = Returns (bytes "[true,null]" ++ [10]).
Proof.
  destruct (write_files [] 3 Sample.fuel Sample.memory initial_contexts 1%positive Sample.store Sample.no_dumps Sample.disk
    _ _ _ _ _ Sample.ran_is (proj1 Sample.result_is) (proj2 Sample.result_is) Sample.reads_tree
    (proj1 Sample.nodes_there) (proj2 Sample.nodes_there) Sample.outputs_tree Sample.ready_memory Sample.name_plain)
    as (d & w' & E & Ed & _).
  exists d, w'. split; [exact E|]. vm_compute in Ed. injection Ed as -> _. vm_compute. reflexivity.
Qed.

(** * What destinations do with paths and failures *)

Module Files.
(** A writer of the trees of [wf_writer], without passes: a directory [d] of files, whose texts are the
    locations of their contents; the text of a file that throws starts with an exclamation mark. *)
Definition write_location : WriteFile := fun _ h contents =>
  t ← view (location_of h contents);
  match t with 33 :: t => Returns (t, inl (bytes "failed")) | _ => Returns (t, inr false) end.
Definition add_file (h : heap) (seq : Node) (f : Text * Text) : heap :=
  let '(n, h) := create_token h File in
  let '(p, h) := pow_text 2 h Path f.1 in
  let h := push_back h n (Some p) in
  let '(k, h) := pow_text 3 h Contents f.2 in
  let h := push_back h n (Some k) in
  push_back h seq (Some n).
Definition directory (fs : list (Text * Text)) : heap :=
  let '(top, h) := create_token ∅ Token.Top in
  let '(d, h) := create_token h Directory in
  let h := push_back h top (Some d) in
  let '(p, h) := pow_text 2 h Path (bytes "d") in
  let h := push_back h d (Some p) in
  let '(s, h) := create_token h FileSeq in
  let h := push_back h d (Some s) in
  foldl (fun h f => add_file h s f) h fs.

(** The result, and what is in the memory or on the disk *)
Definition run (d : DestinationDef) (w : Disk) (fs : list (Text * Text)) : outcome (bool * list (Text * Text)) :=
  '(r, _, _, d, w) ← write [] 4 100 (set_destination d (new_writer "files" ([] : list PassDef) wf_writer write_location))
    initial_contexts 1%positive (directory fs) Sample.no_dumps w;
  Returns (ok r, map_to_list (files_ d ∪ on_disk w)).
Definition all_open : Disk := Sample.disk.
Definition not_open (p : Text) : Disk := mkDisk (fun _ => None) (fun q => negb (bool_decide (p = q))) ∅ [].
Definition f (path text : string) : Text * Text := (bytes path, bytes text).

(** The path of a directory is not used. *)
Lemma directory_ignored : run synthetic all_open [f "x" "1"] = Returns (true, [f "./x" "1"]).
Proof. vm_compute. reflexivity. Qed.

(** [close] goes to the parent of the file that was written: after a path with a directory in it, the
    files that follow are written under that directory. *)
Lemma path_sticks : run synthetic all_open [f "x" "1"; f "a/y" "2"] = Returns (true, [f "./a/y" "2"; f "./a/x" "1"]).
Proof. vm_compute. reflexivity. Qed.

(** A file that cannot be opened is not reported; its path stays, and the next file is written
    under it. *)
Lemma not_opened : run (dir (bytes "out")) (not_open (bytes "out/y")) [f "x" "1"; f "y" "2"]
  = Returns (true, [f "out/y/x" "1"]).
Proof. vm_compute. reflexivity. Qed.

(** A failure leaves the destination open: what was written before is stored by the next file. *)
Lemma partial_kept : run synthetic all_open [f "x" "1"; f "y" "!2"] = Returns (false, [f "./y" "2"; f "./x" "1"]).
Proof. vm_compute. reflexivity. Qed.

(** An empty file is not stored in memory, although it is made on a disk. *)
Lemma empty_not_stored : run synthetic all_open [f "x" ""] = Returns (true, [])
  /\ run (dir (bytes "out")) all_open [f "x" ""] = Returns (true, [f "out/x" ""]).
Proof. split; vm_compute; reflexivity. Qed.
End Files.

(** A file at the top, of a writer without passes *)
Module Plain.
Definition one_file : heap := let '(top, h) := create_token ∅ Token.Top in Files.add_file h top (bytes "x", bytes "1").
Definition in_memory : Writer PassDef := set_destination synthetic (new_writer "files" [] wf_writer Files.write_location).
Definition ran := process 100 in_memory initial_contexts 1%positive one_file Sample.no_dumps.
Definition result : ProcessResult := Eval vm_compute in match ran with Returns (r, _, _) => r | _ => mkResult false "" None [] 0 end.
Definition h' : heap := Eval vm_compute in match ran with Returns (_, h, _) => h | _ => ∅ end.
Definition out' : OutDir := Eval vm_compute in match ran with Returns (_, _, o) => o | _ => Sample.no_dumps end.
Definition tree : AstFacts.tree := Tree 1%positive [Tree 2%positive [Tree 3%positive []; Tree 4%positive []]].

Lemma plain_ran_is : process 100 in_memory initial_contexts 1%positive one_file Sample.no_dumps = Returns (result, h', out').
Proof. vm_compute. reflexivity. Qed.
Lemma plain_nodes_there : forall n, n ∈ nodes tree -> is_Some (h' !! n).
Proof. apply Forall_forall. vm_compute. repeat constructor; by eexists. Qed.
Lemma tree_is_plain : plain_files in_memory initial_contexts h' tree.
Proof.
  split.
  - apply (proj1 (Forall_forall (fun n => type_of h' n <> Directory) _)). vm_compute. by repeat constructor.
  - intros n contents Hn. revert n Hn contents.
    apply (proj1 (Forall_forall (fun n => forall contents, type_of h' n = File -> node_slash _ h' n Contents = Returns contents ->
      exists text, write_file_ in_memory _ h' (lookup_node contents) = Returns (text, inr false)) _)).
    change (nodes tree) with [1; 2; 3; 4]%positive. repeat constructor; intros contents Ht; try by vm_compute in Ht.
    intros E. vm_compute in E. injection E as <-. eexists. vm_compute. reflexivity.
Qed.
Lemma plain_outputs_tree : outputs (write_file_ in_memory) (writer_context initial_contexts in_memory) h' tree [(bytes "x", bytes "1")].
Proof.
  change [(bytes "x", bytes "1")] with (concat [[(bytes "x", bytes "1")]]).
  apply out_top; [vm_compute; reflexivity|]. apply Forall2_cons. split; [|by apply Forall2_nil].
  eapply out_file; [vm_compute; reflexivity|vm_compute; reflexivity|vm_compute; reflexivity|vm_compute; reflexivity|].
  vm_compute. reflexivity.
Qed.
Lemma name_delivers : Forall (fun f => deliverable (destination_ in_memory) Sample.disk f.1) [(bytes "x", bytes "1")].
Proof.
  apply Forall_singleton. split; [split; [done|]|done].
  apply (bool_decide_unpack (slash ∉ (bytes "x" : list Z))). vm_compute. exact I.
Qed.
End Plain.

Lemma write_correct_witness : exists r w',
  write [] 3 100 Plain.in_memory initial_contexts 1%positive Plain.one_file Sample.no_dumps Sample.disk
  = Returns (Plain.result, Plain.h', Plain.out', r, w') /\ file r (bytes "./x") = Returns (bytes "1").
Proof.
  destruct (write_correct [] 3 100 Plain.in_memory initial_contexts 1%positive Plain.one_file Sample.no_dumps Sample.disk) as [_ W].
  destruct (W Plain.result Plain.h' Plain.out' Plain.tree [(bytes "x", bytes "1")]) as (d & w' & E & Ed & _).
  - exact Plain.plain_ran_is.
  - vm_compute. reflexivity.
  - vm_compute. reflexivity.
  - repeat first [constructor|vm_compute; reflexivity].
  - apply (bool_decide_unpack (NoDup (nodes Plain.tree))). vm_compute. exact I.
  - exact Plain.plain_nodes_there.
  - exact Plain.tree_is_plain.
  - exact Plain.plain_outputs_tree.
  - split; vm_compute; reflexivity.
  - exact Plain.name_delivers.
  - intros _. by repeat constructor.
  - exists d, w'. split; [exact E|]. vm_compute in Ed. injection Ed as -> _. vm_compute. reflexivity.
Defined.
