(* ===== verification/Gen.v ===== *)
(** The generator of random trees ([include/trieste/wf.h]): the distances of the types to a leaf, the
    choice of a type, locations that refer to what was bound, and [Wellformed::gen]. *)
From S2P Require Import Prelude.
From S2P Require Import Token.
From S2P Require Import Source.
From S2P Require Import Xoroshiro.
From S2P Require Import Ast.
From S2P Require Import Wellformed.
From S2P Require Import WfOps.
From S2P Require Import Stod.
From stdpp Require Export gmap.
From Stdlib Require Import SpecFloat.
Open Scope Z_scope.

(** * Doubles *)

Definition double := spec_float.
(** [static_cast<double>(size_t)] *)
Definition of_size (n : Z) : double := round_ratio false n 1.
Definition double_add : double -> double -> double := SFadd double_prec double_emax.
Definition double_mul : double -> double -> double := SFmul double_prec double_emax.
Definition double_div : double -> double -> double := SFdiv double_prec double_emax.

(** [std::partial_sum] *)
Fixpoint sums_from (acc : double) (l : list double) : list double :=
  match l with [] => [] | x :: l => let acc := double_add acc x in acc :: sums_from acc l end.
Definition partial_sum (l : list double) : list double :=
  match l with [] => [] | x :: l => x :: sums_from x l end.

(** [std::lower_bound] on sums, which do not decrease: the first that is not less *)
Fixpoint lower_bound (l : list double) (value : double) : nat :=
  match l with [] => O | x :: l => if SFltb x value then S (lower_bound l value) else O end.

(** [std::max_element]: the first of the largest; [best] is at [i]. *)
Fixpoint max_from (i : nat) (best : double) (at_ : nat) (l : list double) : nat :=
  match l with
  | [] => i
  | x :: l => if SFltb best x then max_from at_ x (S at_) l else max_from i best (S at_) l
  end.
Definition max_element (l : list double) : nat := match l with [] => O | x :: l => max_from 0 x 1 l end.

(** * [Gen] *)

Definition Rand := XorOshiro.
Definition TokenMap := gmap Token Z.
(** [SymtabKeys]: the types of the field that binds, and its index *)
Definition SymtabKeys : Type := list Token * Z.

(** [GenNodeLocationF]: a function that draws numbers and reads the store.  Those that change the
    store, as [ast::fresh] counts in the table of the [Top], are not among them. *)
Definition GenNodeLocationF : Type := Rand -> heap -> Node -> outcome (Location * Rand).

(** The sums of the weights, which are cached by the address of the choice, are computed anew. *)
Record Gen := mkGen {
  token_terminal_distance : TokenMap;
  gloc : GenNodeLocationF;
  rand : Rand;
  target_depth : Z;
  ceiling_depth : Z;
  alpha : double;
  token_weights : TokenMap;
  binding_keys : gmap Token SymtabKeys;
  gen_bound_vars : bool
}.
Definition with_rand (r : Rand) (g : Gen) : Gen :=
  mkGen (token_terminal_distance g) (gloc g) r (target_depth g) (ceiling_depth g) (alpha g) (token_weights g)
    (binding_keys g) (gen_bound_vars g).
Definition with_binding_keys (b : gmap Token SymtabKeys) (g : Gen) : Gen :=
  mkGen (token_terminal_distance g) (gloc g) (rand g) (target_depth g) (ceiling_depth g) (alpha g) (token_weights g)
    b (gen_bound_vars g).

(** [rand()]; [abort] is no return. *)
Definition rand_next (r : Rand) : outcome (Z * Rand) := or_undefined (xor_next p128r32 r).
(** [next()] *)
Definition next (g : Gen) : outcome (Z * Gen) :=
  '(n, r) ← rand_next (rand g); Returns (n, with_rand r g).

Fixpoint warm_up (n : nat) (r : Rand) : outcome Rand :=
  match n with O => Returns r | S n => '(_, r) ← rand_next r; warm_up n r end.

(** The constructor and [token_weights]; the generator aborts on the seed 0. *)
Definition new_gen (distance : TokenMap) (gloc : GenNodeLocationF) (seed target_depth : Z)
    (binding_keys : gmap Token SymtabKeys) (gen_bound_vars : bool) (weights : TokenMap) : outcome Gen :=
  r ← or_undefined (set_state p128r32 seed 0);
  r ← warm_up 10 r;
  Returns (mkGen distance gloc r target_depth (u64 (2 * target_depth)) (of_size 1) weights binding_keys gen_bound_vars).

(** [contains_type], [weight_for] *)
Definition contains_type (tokens : list Token) (t : Token) : bool := token_in tokens t.
Definition weight_for (g : Gen) (t : Token) : Z := default 1 (token_weights g !! t).

(** ** Choosing a type *)

(** [choose_from_cumulative] *)
Definition choose_from_cumulative (g : Gen) (tokens : list Token) (cumulative : list double) : outcome (Token * Gen) :=
  match last cumulative with
  | None => Throws
  | Some back =>
      if SFleb back (of_size 0) then Throws
      else
        '(r, g) ← next g;
        let value := double_mul (double_div (of_size (u32 (r - result_min p128r32)))
                                            (of_size (result_max p128r32 - result_min p128r32))) back in
        t ← or_undefined (tokens !! lower_bound cumulative value);
        Returns (t, g)
  end.
Definition choose_weighted (g : Gen) (tokens : list Token) (offsets : list double) : outcome (Token * Gen) :=
  choose_from_cumulative g tokens (partial_sum offsets).
Definition cumulative_weighted_offsets (g : Gen) (tokens : list Token) : list double :=
  partial_sum ((fun t => of_size (weight_for g t)) <$> tokens).

(** [1.0 / (1.0 + (alpha * (depth - target_depth) * distance))]; a type without a distance throws. *)
Fixpoint depth_offsets (g : Gen) (depth : Z) (tokens : list Token) : outcome (list double) :=
  match tokens with
  | [] => Returns []
  | t :: tokens =>
      match token_terminal_distance g !! t with
      | None => Throws
      | Some distance =>
          let offset := double_div (of_size 1) (double_add (of_size 1)
            (double_mul (double_mul (alpha g) (of_size (u64 (depth - target_depth g)))) (of_size distance))) in
          offsets ← depth_offsets g depth tokens;
          Returns (offset :: offsets)
      end
  end.

Definition no_weights (g : Gen) : bool := bool_decide (token_weights g = ∅).

(** [choose] *)
Definition choose (g : Gen) (tokens : list Token) (depth : Z) : outcome (Token * Gen) :=
  match tokens with
  | [] => Throws
  | [t] => if negb (no_weights g) && (weight_for g t =? 0) then Throws else Returns (t, g)
  | _ =>
      if depth <=? target_depth g then
        if negb (no_weights g) then choose_from_cumulative g tokens (cumulative_weighted_offsets g tokens)
        else
          '(r, g) ← next g;
          t ← or_undefined (tokens !! Z.to_nat (r mod size_of tokens)); Returns (t, g)
      else
        offsets ← depth_offsets g depth tokens;
        if ceiling_depth g <=? depth then
          t ← or_undefined (tokens !! max_element offsets); Returns (t, g)
        else
          let offsets :=
            if negb (no_weights g) then zip_with (fun o t => double_mul o (of_size (weight_for g t))) offsets tokens
            else offsets in
          choose_weighted g tokens offsets
  end.

(** ** Locations *)

(** [get_symbols] *)
Definition gen_get_symbols (g : Gen) (type : Token) (scope : option Node) (h : heap) : outcome (list Node) :=
  match scope with
  | None => Returns []
  | Some s => get_symbols h s (fun n =>
      Returns (has (type_of h n) flag_lookup &&
               match binding_keys g !! type_of h n with Some k => contains_type k.1 type | None => false end))
  end.

(** [should_gen_bound] *)
Definition should_gen_bound (g : Gen) (h : heap) (parent : Node) (child_type : Token) : bool :=
  if negb (gen_bound_vars g) then false
  else
    let bound_nodes := (filter (fun k => contains_type k.2.1 child_type = true) (map_to_list (binding_keys g))).*1 in
    match bound_nodes with
    | [] => false
    | _ =>
        if negb (token_in bound_nodes (type_of h parent)) then true
        else
          let key_field_index := default 0 (snd <$> binding_keys g !! type_of h parent) in
          let child_index := u64 (size_of (children_of h parent) - 1) in
          negb (key_field_index =? child_index) || negb (has (type_of h parent) flag_shadowing)
    end.

(** [location]; the key index is looked up under the type of the child, where a missing entry is
    made. *)
Definition location (g : Gen) (h : heap) (parent child : Node) : outcome (Location * Gen) :=
  let type := type_of h child in
  symbols ← gen_get_symbols g type (scope h parent) h;
  '(r, g) ← next g;
  match symbols !! Z.to_nat (r mod u64 (size_of symbols + 1)), should_gen_bound g h parent type with
  | Some symbol, true =>
      let entry := default ([], 0) (binding_keys g !! type) in
      let g := with_binding_keys (<[type := entry]> (binding_keys g)) g in
      n ← node_vector_at h symbol entry.2;
      Returns (location_of h n, g)
  | _, _ =>
      '(l, r) ← gloc g (rand g) h child;
      Returns (l, with_rand r g)
  end.

(** * Shapes *)

(** [Choice::gen] *)
Definition choice_gen (c : Choice) (g : Gen) (depth : Z) (node : Node) (h : heap) : outcome (Gen * heap) :=
  '(type, g) ← choose g (types c) depth;
  let '(child, h) := create_token h type in
  let h := push_back h node (Some child) in
  '(l, g) ← location g h node child;
  h ← set_location 1 h child l;
  Returns (g, h).

(** [Sequence::gen]: the mandatory children, and more as long as numbers are odd *)
Fixpoint gen_mandatory (n : nat) (c : Choice) (g : Gen) (depth : Z) (node : Node) (h : heap) : outcome (Gen * heap) :=
  match n with
  | O => Returns (g, h)
  | S n => '(g, h) ← choice_gen c g depth node h; gen_mandatory n c g depth node h
  end.
Fixpoint gen_more (fuel : nat) (i max_len : Z) (c : Choice) (g : Gen) (depth : Z) (node : Node) (h : heap)
    : outcome (Gen * heap) :=
  match fuel with
  | O => Undefined
  | S fuel =>
      if negb (i <? max_len) then Returns (g, h)
      else
        '(r, g) ← next g;
        if r mod 2 =? 0 then Returns (g, h)
        else '(g, h) ← choice_gen c g depth node h; gen_more fuel (i + 1) max_len c g depth node h
  end.
Definition weight_sum (g : Gen) (c : Choice) : Z := foldl (fun acc t => u64 (acc + weight_for g t)) 0 (types c).
Definition sequence_gen (fuel : nat) (s : Sequence) (g : Gen) (depth : Z) (node : Node) (h : heap) : outcome (Gen * heap) :=
  '(g, h) ← gen_mandatory (Z.to_nat (min_len s)) (seq_choice s) g depth node h;
  if (target_depth g <=? depth) || (weight_sum g (seq_choice s) =? 0) then Returns (g, h)
  else gen_more fuel (min_len s) (max_len s) (seq_choice s) g depth node h.

(** [Fields::gen]: the node is bound under the child in each field of the name; the answer of [bind]
    is ignored. *)
Fixpoint gen_fields (fs : list Field) (binding : Token) (g : Gen) (depth : Z) (node : Node) (h : heap)
    : outcome (Gen * heap) :=
  match fs with
  | [] => Returns (g, h)
  | field :: fs =>
      '(g, h) ← choice_gen (field_choice field) g depth node h;
      h ← (if token_eqb binding (field_name field) then
             back ← or_undefined (last (children_of h node));
             '(_, h) ← bind h node (location_of h back); Returns h
           else Returns h);
      gen_fields fs binding g depth node h
  end.
Definition fields_gen (f : Fields) (g : Gen) (depth : Z) (node : Node) (h : heap) : outcome (Gen * heap) :=
  gen_fields (fields f) (binding f) g depth node h.

Definition shape_gen (fuel : nat) (s : ShapeT) (g : Gen) (depth : Z) (node : Node) (h : heap) : outcome (Gen * heap) :=
  match s with
  | ShapeSequence s => sequence_gen fuel s g depth node h
  | ShapeFields f => fields_gen f g depth node h
  end.

(** * [Wellformed] *)

(** The loop over the children, and [gen_node] *)
Definition gen_children (gen_child : Gen -> Node -> heap -> outcome (Gen * heap)) :=
  fix children (ns : list Node) (g : Gen) (h : heap) : outcome (Gen * heap) :=
    match ns with
    | [] => Returns (g, h)
    | n :: ns => '(g, h) ← gen_child g n h; children ns g h
    end.
Fixpoint gen_node (fuel : nat) (wf : Wellformed) (g : Gen) (depth : Z) (node : Node) (h : heap) : outcome (Gen * heap) :=
  match fuel with
  | O => Undefined
  | S fuel =>
      match shapes wf !! type_of h node with
      | None => Returns (g, h)
      | Some shape =>
          '(g, h) ← shape_gen fuel shape g depth node h;
          gen_children (fun g n h => gen_node fuel wf g (u64 (depth + 1)) n h) (children_of h node) g h
      end
  end.

(** ** Distances to a leaf *)

(** [Choice::expected_distance_to_terminal]; [distance] is the recursive call, with the distances
    that are known.  The average over no types divides by zero. *)
Fixpoint sum_distances (distance : TokenMap -> Token -> outcome (Z * TokenMap)) (omit : list Token) (max_distance : Z)
    (ts : list Token) (acc : Z) (known : TokenMap) : outcome (Z * TokenMap) :=
  match ts with
  | [] => Returns (acc, known)
  | t :: ts =>
      '(d, known) ← (if token_in omit t then Returns (max_distance, known) else distance known t);
      sum_distances distance omit max_distance ts (u64 (acc + d)) known
  end.
Definition expected_distance_to_terminal (distance : TokenMap -> Token -> outcome (Z * TokenMap)) (omit : list Token)
    (max_distance : Z) (c : Choice) (known : TokenMap) : outcome (Z * TokenMap) :=
  '(sum, known) ← sum_distances distance omit max_distance (types c) 0 known;
  if (length (types c) =? 0)%nat then Undefined else Returns (sum / size_of (types c), known).

(** The largest over the fields *)
Fixpoint fields_distance (expected : Choice -> TokenMap -> outcome (Z * TokenMap)) (fs : list Field) (acc : Z)
    (known : TokenMap) : outcome (Z * TokenMap) :=
  match fs with
  | [] => Returns (acc, known)
  | f :: fs =>
      '(d, known) ← expected (field_choice f) known;
      fields_distance expected fs (Z.max acc d) known
  end.

(** [min_dist_to_terminal]; the prefix grows with each call. *)
Fixpoint min_dist_to_terminal (fuel : nat) (wf : Wellformed) (prefix : list Token) (max_distance : Z)
    (known : TokenMap) (token : Token) : outcome (Z * TokenMap) :=
  match fuel with
  | O => Undefined
  | S fuel =>
      match known !! token with
      | Some d => Returns (d, known)
      | None =>
          match shapes wf !! token with
          | None => Returns (0, <[token := 0]> known)
          | Some shape =>
              let current := token :: prefix in
              let expected c known := expected_distance_to_terminal
                (fun known t => min_dist_to_terminal fuel wf current max_distance known t) current max_distance c known in
              '(d, known) ←
                match shape with
                | ShapeSequence s => expected (seq_choice s) known
                | ShapeFields f => fields_distance expected (fields f) 0 known
                end;
              Returns (d, <[token := d]> known)
          end
      end
  end.

(** [compute_minimum_distance_to_terminal]; [order] is the order of the shapes in their map, which
    is that of the addresses of the tokens. *)
Fixpoint distances (fuel : nat) (wf : Wellformed) (max_distance : Z) (order : list Token) (known : TokenMap) : outcome TokenMap :=
  match order with
  | [] => Returns known
  | t :: order =>
      '(d, known) ← min_dist_to_terminal fuel wf [] max_distance known t;
      distances fuel wf max_distance order (<[t := d]> known)
  end.
Definition compute_minimum_distance_to_terminal (wf : Wellformed) (order : list Token) (max_distance : Z) : outcome TokenMap :=
  distances (S (size (shapes wf))) wf max_distance order ∅.

(** ** [populate_binding_keys] *)

(** [shape.fields.at(index)] throws when no field has the name of the binding. *)
Definition binding_key (s : ShapeT) : outcome (option SymtabKeys) :=
  match s with
  | ShapeSequence _ => Returns None
  | ShapeFields f =>
      if token_eqb (binding f) Invalid then Returns None
      else
        let key_index := fields_index f (binding f) in
        if size_of (fields f) <=? key_index then Throws
        else
          field ← or_undefined (fields f !! Z.to_nat key_index);
          Returns (Some (types (field_choice field), key_index))
  end.
Fixpoint populate (wf : Wellformed) (order : list Token) (keys : gmap Token SymtabKeys) : outcome (gmap Token SymtabKeys) :=
  match order with
  | [] => Returns keys
  | t :: order =>
      match shapes wf !! t with
      | None => populate wf order keys
      | Some s =>
          k ← binding_key s;
          populate wf order (match k, keys !! t with Some k, None => <[t := k]> keys | _, _ => keys end)
      end
  end.
Definition populate_binding_keys (wf : Wellformed) (order : list Token) : outcome (gmap Token SymtabKeys) :=
  populate wf order ∅.

(** [gen] *)
Definition gen (fuel : nat) (wf : Wellformed) (order : list Token) (gloc : GenNodeLocationF) (seed target_depth : Z)
    (gen_bound : bool) (token_weights : TokenMap) (h : heap) : outcome (Node * Gen * heap) :=
  keys ← (if gen_bound then populate_binding_keys wf order else Returns ∅);
  distance ← compute_minimum_distance_to_terminal wf order target_depth;
  g ← new_gen distance gloc seed target_depth keys gen_bound token_weights;
  let '(top, h) := create_token h Token.Top in
  '(g, h) ← gen_node fuel wf g 0 top h;
  Returns (top, g, h).
