(* ===== verification/GenFacts.v ===== *)
(** Random trees are well-formed: what [Wellformed::gen] returns passes [Wellformed::check], and it
    returns a tree where the specification bounds the trees it describes. *)
From S2P Require Import Prelude.
From S2P Require Import Token.
From S2P Require Import Source.
From S2P Require Import Xoroshiro.
From S2P Require Import Ast.
From S2P Require Import AstFacts.
From S2P Require Import CloneFacts.
From S2P Require Import Wellformed.
From S2P Require Import WfOps.
From S2P Require Import WfTheorems.
From S2P Require Import WfBuild.
From stdpp Require Export gmap.
From S2P Require Import Gen.
Open Scope Z_scope.
#[local] Set Warnings "-register-all".

(** * Stores that grow *)

(** Nodes keep what they are, but for their children; tables lose nothing. *)
Record extends (h h' : heap) : Prop := {
  ext_some n : is_Some (h !! n) -> is_Some (h' !! n);
  ext_type n : is_Some (h !! n) -> type_of h' n = type_of h n;
  ext_location n : is_Some (h !! n) -> location_of h' n = location_of h n;
  ext_parent n : is_Some (h !! n) -> parent_of h' n = parent_of h n;
  ext_flags n : is_Some (h !! n) -> flags_ (node_at h' n) = flags_ (node_at h n);
  ext_has_symtab n : is_Some (h !! n) -> has_symtab (node_at h' n) = has_symtab (node_at h n);
  ext_ok : tables_ok h -> tables_ok h';
  ext_views : (forall n, viewable (location_of h n)) -> forall n, viewable (location_of h' n);
  ext_grow sc s n : n ∈ entries h sc s -> n ∈ entries h' sc s
}.

#[export] Instance extends_preorder : PreOrder extends.
Proof.
  split; [by split|]. intros h1 h2 h3 E1 E2. pose proof (ext_some _ _ E1) as S1.
  split; intros; try (by eapply E2, E1).
  - by rewrite (ext_type _ _ E2), (ext_type _ _ E1) by auto.
  - by rewrite (ext_location _ _ E2), (ext_location _ _ E1) by auto.
  - by rewrite (ext_parent _ _ E2), (ext_parent _ _ E1) by auto.
  - by rewrite (ext_flags _ _ E2), (ext_flags _ _ E1) by auto.
  - by rewrite (ext_has_symtab _ _ E2), (ext_has_symtab _ _ E1) by auto.
Qed.

Lemma ext_calm h h' n : extends h h' -> is_Some (h !! n) -> calm h n -> calm h' n.
Proof. intros E Hn [H1 H2]. split; [by rewrite (ext_flags _ _ E)|by rewrite (ext_type _ _ E)]. Qed.

Lemma ext_size h h' : extends h h' -> (size h <= size h')%nat.
Proof.
  intros E. rewrite <-!(size_dom (D:=gset Node)). apply subseteq_size. intros n. rewrite !elem_of_dom. apply E.
Qed.

(** A scope that was found is found again. *)
Lemma climb_ext h h' : extends h h' -> forall fuel p sc,
  climb fuel h has_symtab p = Some sc -> climb fuel h' has_symtab p = Some sc.
Proof.
  intros E. induction fuel as [|fuel IH]; intros [n|] sc; try done. cbn.
  destruct (has_symtab (node_at h n)) eqn:Hs.
  - intros [= <-]. assert (Hn : is_Some (h !! n)).
    { unfold node_at in Hs. destruct (h !! n); [by eexists|done]. }
    by rewrite (ext_has_symtab _ _ E), Hs.
  - intros Hc. assert (Hn : is_Some (h !! n)).
    { destruct (h !! n) as [d|] eqn:Hn; [by eexists|]. unfold parent_of, node_at in Hc. rewrite Hn in Hc. by destruct fuel. }
    rewrite (ext_has_symtab _ _ E), Hs, (ext_parent _ _ E) by done. by apply IH.
Qed.

Lemma ext_scope h h' n sc : extends h h' -> is_Some (h !! n) -> scope h n = Some sc -> scope h' n = Some sc.
Proof.
  intros E Hn H. unfold scope in *. rewrite (ext_parent _ _ E) by done.
  apply (climb_fuel _ _ (depth_fuel h)); [by apply (climb_ext _ _ E)|]. unfold depth_fuel. pose proof (ext_size _ _ E). lia.
Qed.

Lemma ext_bound h h' n c : extends h h' -> tables_ok h -> (forall m, viewable (location_of h m)) ->
  is_Some (h !! n) -> is_Some (h !! c) -> bound_at h n c -> bound_at h' n c.
Proof.
  intros E Ho Hv Hn Hc (sc & Hs & Hb)%bound_at_entries; [|done|done].
  apply bound_at_entries; [by apply E|by apply E|]. exists sc. split; [by eapply ext_scope|].
  apply (ext_grow _ _ E). by rewrite (ext_location _ _ E).
Qed.

(** A child of a node with a table, or with a scope, has a scope. *)
Lemma scope_below h m n : parent_of h m = Some n -> has_symtab (node_at h n) = true -> scope h m = Some n.
Proof. intros Hp Hs. unfold scope. rewrite Hp. unfold depth_fuel. cbn. by rewrite Hs. Qed.

Lemma scope_from h h' m n sc : (S (size h) <= size h')%nat -> parent_of h' m = Some n ->
  extends h h' -> is_Some (h !! n) -> scope h n = Some sc -> is_Some (scope h' m).
Proof.
  intros Hs Hp E Hn Hsc. destruct (has_symtab (node_at h' n)) eqn:Ht; [by rewrite (scope_below h' m n Hp Ht)|].
  exists sc. unfold scope in *. rewrite Hp. unfold depth_fuel in *. cbn [climb]. rewrite Ht.
  rewrite (ext_parent _ _ E) by done. apply (climb_fuel _ _ (S (size h))); [by apply (climb_ext _ _ E)|done].
Qed.

(** * A new child *)

Lemma set_location_leaf h n l : children_of h n = [] -> source (location_of h n) = None ->
  set_location 1 h n l = Returns (alter (with_location l) n h).
Proof.
  intros Hc Hs. unfold set_location, traverse. rewrite Hs. cbn [mbind outcome_bind traverse_loop id].
  assert (E : children_of (alter (with_location l) n h) n = []).
  { unfold children_of, node_at in *. rewrite lookup_alter_eq. by destruct (h !! n). }
  by rewrite E.
Qed.

Definition child_def (p : Node) (l : Location) (type : Token) : NodeDef :=
  mkNodeDef type l (if has type flag_symtab then Some empty_symtab else None) (Some p) 0 [].
(** The store with a child added *)
Definition add_child (h : heap) (p n : Node) (l : Location) (type : Token) : heap :=
  alter (with_children (fun c => c ++ [n])) p (<[n := child_def p l type]> h).

Lemma add_child_at h p n l type m : p <> n ->
  add_child h p n l type !! m
  = if decide (m = n) then Some (child_def p l type)
    else if decide (m = p) then with_children (fun c => c ++ [n]) <$> h !! p else h !! m.
Proof.
  intros Hne. unfold add_child. destruct (decide (m = n)) as [->|].
  - rewrite lookup_alter_ne by done. apply lookup_insert_eq.
  - destruct (decide (m = p)) as [->|].
    + rewrite lookup_alter_eq, lookup_insert_ne by done. done.
    + rewrite lookup_alter_ne, lookup_insert_ne by done. done.
Qed.

Section Child.
Context (h : heap) (p n : Node) (l : Location) (type : Token).
Context (Hp : is_Some (h !! p)) (Hn : h !! n = None) (Hl : viewable l).
Local Abbreviation h' := (add_child h p n l type).

Lemma child_ne : p <> n.
Proof. intros ->. rewrite Hn in Hp. by destruct Hp. Qed.

Lemma add_child_new : node_at h' n = child_def p l type.
Proof. unfold node_at. by rewrite add_child_at, decide_True by (done || apply child_ne). Qed.
Lemma add_child_children : children_of h' p = children_of h p ++ [n].
Proof.
  unfold children_of, node_at. rewrite add_child_at, decide_False, decide_True by (done || apply child_ne).
  destruct Hp as [d ->]. done.
Qed.
Lemma add_child_other m : m <> n -> m <> p -> node_at h' m = node_at h m.
Proof. intros H1 H2. unfold node_at. by rewrite add_child_at, !decide_False by (done || apply child_ne). Qed.

Lemma add_child_fields {A} (f : NodeDef -> A) m : (forall d c, f (with_children c d) = f d) -> m <> n ->
  f (node_at h' m) = f (node_at h m).
Proof.
  intros Hf Hm. destruct (decide (m = p)) as [->|]; [|by rewrite add_child_other].
  unfold node_at. rewrite add_child_at, decide_False, decide_True by (done || apply child_ne).
  destruct Hp as [d ->]. apply Hf.
Qed.

Lemma add_child_extends : extends h h'.
Proof.
  assert (Hold : forall m, is_Some (h !! m) -> m <> n) by (by intros m Hm ->; rewrite Hn in Hm; destruct Hm).
  assert (Htab : forall m, symtab_of h' m = if decide (m = n) then (if has type flag_symtab then Some empty_symtab else None)
                                          else symtab_of h m).
  { intros m. unfold symtab_of. case_decide as Hm; [by rewrite Hm, add_child_new|]. by apply (add_child_fields symtab_). }
  split.
  - intros m Hm. rewrite add_child_at by apply child_ne. repeat case_decide; [by eexists| |done].
    by rewrite fmap_is_Some.
  - intros m Hm. by apply (add_child_fields type_); auto.
  - intros m Hm. by apply (add_child_fields location_); auto.
  - intros m Hm. by apply (add_child_fields parent_); auto.
  - intros m Hm. by apply (add_child_fields flags_); auto.
  - intros m Hm. by apply (add_child_fields has_symtab); auto.
  - intros Ho m st. rewrite Htab. case_decide; [|apply Ho]. case_match; [|done]. intros [= <-]. split; constructor.
  - intros Hv m. unfold location_of. destruct (decide (m = n)) as [->|]; [by rewrite add_child_new|].
    rewrite (add_child_fields location_) by done. apply Hv.
  - intros sc s m. unfold entries. rewrite Htab. case_decide as Hm; [|done]. subst sc. unfold symtab_of, node_at.
    rewrite Hn. cbn. intros Hx. by apply elem_of_nil in Hx.
Qed.
End Child.

(** [push_back] of a new node without a location *)
Lemma create_push (h : heap) p type : is_Some (h !! p) -> unmarked type ->
  let n := fresh (dom h) in
  h !! n = None /\ p <> n
  /\ push_back (<[n := new_node type null_location]> h) p (Some n) = add_child h p n null_location type.
Proof.
  intros Hp Hu n. assert (Hn : h !! n = None) by (apply not_elem_of_dom, is_fresh).
  assert (Hne : p <> n) by (intros ->; rewrite Hn in Hp; by destruct Hp). split_and!; [done|done|].
  rewrite push_back_calm; [|unfold calm, type_of, node_at; rewrite lookup_insert_eq; by split|done].
  unfold add_child. rewrite alter_alter_ne by done. by rewrite alter_insert_eq.
Qed.

Lemma set_location_new h p n l type : is_Some (h !! p) -> h !! n = None ->
  set_location 1 (add_child h p n null_location type) n l = Returns (add_child h p n l type).
Proof.
  intros Hp Hn. pose proof (add_child_new h p n null_location type Hp Hn) as Hnew.
  rewrite set_location_leaf; [|unfold children_of; by rewrite Hnew|unfold location_of; by rewrite Hnew].
  f_equal. unfold add_child. rewrite alter_alter_ne by (by intros ->; rewrite Hn in Hp; destruct Hp).
  by rewrite alter_insert_eq.
Qed.

(** * What the generator keeps *)

(** The settings of the generator; only its numbers and its table of keys change. *)
Record same_settings (g g' : Gen) : Prop := {
  ss_gloc : gloc g' = gloc g;
  ss_depth : target_depth g' = target_depth g;
  ss_weights : token_weights g' = token_weights g
}.
#[export] Instance same_settings_preorder : PreOrder same_settings.
Proof. split; [by split|]. intros g1 g2 g3 [A1 A2 A3] [B1 B2 B3]. split; congruence. Qed.

Lemma next_settings g n g' : next g = Returns (n, g') -> same_settings g g'.
Proof. intros ([m r] & _ & [= <- <-])%outcome_bind_returns. by split. Qed.

Lemma or_undefined_elem {A} (l : list A) i x : or_undefined (l !! i) = Returns x -> x ∈ l.
Proof. destruct (l !! i) eqn:E; [|done]. intros [= <-]. by eapply list_elem_of_lookup_2. Qed.

Lemma choose_cumulative_in g tokens cum t g' :
  choose_from_cumulative g tokens cum = Returns (t, g') -> t ∈ tokens /\ same_settings g g'.
Proof.
  unfold choose_from_cumulative. destruct (last cum); [|done]. case_match; [done|].
  intros ([r g1] & Hn & (x & Hx & [= <- <-])%outcome_bind_returns)%outcome_bind_returns.
  split; [by eapply or_undefined_elem|by eapply next_settings].
Qed.

(** [choose] returns one of the types. *)
Lemma choose_in g tokens depth t g' :
  choose g tokens depth = Returns (t, g') -> t ∈ tokens /\ same_settings g g'.
Proof.
  unfold choose. destruct tokens as [|t1 [|t2 tokens]]; [done| |].
  - case_match; [done|]. intros [= <- <-]. split; [by left|done].
  - set (ts := t1 :: t2 :: tokens). destruct (depth <=? target_depth g).
    + destruct (negb (no_weights g)); [apply choose_cumulative_in|].
      intros ([r g1] & Hn & (x & Hx & [= <- <-])%outcome_bind_returns)%outcome_bind_returns.
      split; [by eapply or_undefined_elem|by eapply next_settings].
    + intros (offsets & _ & H)%outcome_bind_returns. destruct (ceiling_depth g <=? depth).
      * apply outcome_bind_returns in H as (x & Hx & [= <- <-]). split; [by eapply or_undefined_elem|done].
      * by apply choose_cumulative_in in H.
Qed.

(** Locations can be read. *)
Definition reads_locations (f : GenNodeLocationF) : Prop :=
  forall r h n l r', f r h n = Returns (l, r') -> viewable l.

Lemma gen_location_ok g h parent child l g' : reads_locations (gloc g) -> (forall n, viewable (location_of h n)) ->
  location g h parent child = Returns (l, g') -> viewable l /\ same_settings g g'.
Proof.
  intros Hg Hv. unfold location.
  intros (symbols & _ & ([r g1] & Hn & H)%outcome_bind_returns)%outcome_bind_returns.
  apply next_settings in Hn.
  assert (Hfresh : ('(l, r) ← gloc g1 (rand g1) h child; Returns (l, with_rand r g1)) = Returns (l, g') ->
    viewable l /\ same_settings g g').
  { intros ([l1 r1] & Hl & [= <- <-])%outcome_bind_returns. rewrite (ss_gloc _ _ Hn) in Hl.
    split; [by eapply Hg|]. etransitivity; [exact Hn|by split]. }
  destruct (symbols !! _) as [symbol|]; [|by apply Hfresh].
  destruct (should_gen_bound g1 h parent (type_of h child)); [|by apply Hfresh].
  apply outcome_bind_returns in H as (n & _ & [= <- <-]). split; [apply Hv|]. etransitivity; [exact Hn|by split].
Qed.

(** * What a shape adds to a node *)

(** The children [cs] were added to [node]: new leaves of these types. *)
Record grown (P : Token -> Prop) (node : Node) (h h' : heap) (cs : list Node) : Prop := {
  gr_extends : extends h h';
  gr_children : children_of h' node = children_of h node ++ cs;
  gr_others m : is_Some (h !! m) -> m <> node -> children_of h' m = children_of h m;
  gr_nodup : NoDup cs;
  gr_new c : c ∈ cs -> h !! c = None;
  gr_some c : c ∈ cs -> is_Some (h' !! c);
  gr_leaf c : c ∈ cs -> children_of h' c = [];
  gr_parent c : c ∈ cs -> parent_of h' c = Some node;
  gr_calm c : c ∈ cs -> calm h' c;
  gr_types c : c ∈ cs -> P (type_of h' c);
  gr_scope c : c ∈ cs -> has_symtab (node_at h node) = true \/ is_Some (scope h node) -> is_Some (scope h' c)
}.

(** The node and the store on which a shape is generated *)
Record ready_for (node : Node) (h : heap) : Prop := {
  rf_ok : tables_ok h;
  rf_views n : viewable (location_of h n);
  rf_some : is_Some (h !! node)
}.
Lemma ready_extends node h h' : extends h h' -> ready_for node h -> ready_for node h'.
Proof. intros E [H1 H2 H3]. split; [by apply E|by apply E|by apply E]. Qed.

Lemma grown_nil P node h : grown P node h h [].
Proof. split; try done; try (by intros c ?%elem_of_nil). - by rewrite app_nil_r. - constructor. Qed.

Lemma grown_app P node h h1 h2 cs1 cs2 : is_Some (h !! node) ->
  grown P node h h1 cs1 -> grown P node h1 h2 cs2 -> grown P node h h2 (cs1 ++ cs2).
Proof.
  intros Hnode G1 G2. pose proof (gr_extends _ _ _ _ _ G1) as E1. pose proof (gr_extends _ _ _ _ _ G2) as E2.
  assert (Hne : forall c, c ∈ cs1 -> c <> node).
  { intros c Hc ->. pose proof (gr_new _ _ _ _ _ G1 _ Hc) as Hn. rewrite Hn in Hnode. by destruct Hnode. }
  assert (Hsome : forall c, c ∈ cs1 -> is_Some (h1 !! c)) by apply G1.
  assert (Hnew : forall c, c ∈ cs2 -> h !! c = None).
  { intros c Hc. apply eq_None_not_Some. intros H. apply (ext_some _ _ E1) in H. rewrite (gr_new _ _ _ _ _ G2 _ Hc) in H. by destruct H. }
  split.
  - by etransitivity.
  - by rewrite (gr_children _ _ _ _ _ G2), (gr_children _ _ _ _ _ G1), app_assoc.
  - intros m Hm Hmn. rewrite (gr_others _ _ _ _ _ G2); [by apply G1|by apply E1|done].
  - apply NoDup_app. split_and!; [apply G1| |apply G2]. intros c H1 H2%(gr_new _ _ _ _ _ G2). apply Hsome in H1.
    rewrite H2 in H1. by destruct H1.
  - intros c [Hc|Hc]%elem_of_app; [by apply (gr_new _ _ _ _ _ G1)|auto].
  - intros c [Hc|Hc]%elem_of_app; [by apply (ext_some _ _ E2), Hsome|by apply (gr_some _ _ _ _ _ G2)].
  - intros c [Hc|Hc]%elem_of_app; [|by apply (gr_leaf _ _ _ _ _ G2)]. rewrite (gr_others _ _ _ _ _ G2) by auto.
    by apply (gr_leaf _ _ _ _ _ G1).
  - intros c [Hc|Hc]%elem_of_app; [|by apply (gr_parent _ _ _ _ _ G2)]. rewrite (ext_parent _ _ E2) by auto.
    by apply (gr_parent _ _ _ _ _ G1).
  - intros c [Hc|Hc]%elem_of_app; [|by apply (gr_calm _ _ _ _ _ G2)]. apply (ext_calm _ _ _ E2); [auto|].
    by apply (gr_calm _ _ _ _ _ G1).
  - intros c [Hc|Hc]%elem_of_app; [|by apply (gr_types _ _ _ _ _ G2)]. rewrite (ext_type _ _ E2) by auto.
    by apply (gr_types _ _ _ _ _ G1).
  - intros c [Hc|Hc]%elem_of_app Hs.
    + destruct (gr_scope _ _ _ _ _ G1 c Hc Hs) as [sc Hsc]. exists sc. apply (ext_scope _ _ _ _ E2); auto.
    + apply (gr_scope _ _ _ _ _ G2 c Hc). rewrite (ext_has_symtab _ _ E1) by done.
      destruct Hs as [Hs|[sc Hsc]]; [by left|right]. exists sc. by apply (ext_scope _ _ _ _ E1).
Qed.

Lemma grown_weaken (P Q : Token -> Prop) node h h' cs : (forall t, P t -> Q t) -> grown P node h h' cs -> grown Q node h h' cs.
Proof. intros H [G1 G2 G3 G4 G5 G6 G7 G8 G9 G10 G11]. split; try done. auto. Qed.

(** [Choice::gen] adds a child of one of its types. *)
Lemma choice_gen_spec c g depth node h g' h' :
  reads_locations (gloc g) -> ready_for node h -> (forall t, t ∈ types c -> unmarked t) ->
  choice_gen c g depth node h = Returns (g', h') ->
  same_settings g g' /\ exists n, grown (fun t => t ∈ types c) node h h' [n] /\ viewable (location_of h' n).
Proof.
  intros Hg [Ho Hv Hnode] Hu. unfold choice_gen.
  intros ([type g1] & Hc & H)%outcome_bind_returns. apply choose_in in Hc as [Hin Hs1].
  unfold create_token, create in H. cbv zeta in H.
  destruct (create_push h node type Hnode (Hu _ Hin)) as (Hn & Hne & E1). cbv zeta in Hn, Hne, E1. rewrite E1 in H.
  set (n := fresh (dom h)) in *.
  pose proof (add_child_extends h node n null_location type Hnode Hn eq_refl) as X1.
  apply outcome_bind_returns in H as ([l g2] & Hl & H). apply gen_location_ok in Hl as [Hlv Hs2]; [|by rewrite (ss_gloc _ _ Hs1)|by apply X1].
  rewrite set_location_new in H by done. injection H as <- <-. split; [by etransitivity|].
  pose proof (add_child_new h node n l type Hnode Hn) as Hnew.
  pose proof (add_child_extends h node n l type Hnode Hn Hlv) as X.
  exists n. split; [|unfold location_of; by rewrite Hnew]. split; [exact X| | | | | | | | | |].
  - by rewrite add_child_children.
  - intros m Hm Hmn. unfold children_of. rewrite add_child_other; [done|done|done| |done]. intros ->. rewrite Hn in Hm. by destruct Hm.
  - apply NoDup_singleton.
  - by intros c' ->%list_elem_of_singleton.
  - intros c' ->%list_elem_of_singleton. rewrite add_child_at, decide_True by done. by eexists.
  - intros c' ->%list_elem_of_singleton. unfold children_of. by rewrite Hnew.
  - intros c' ->%list_elem_of_singleton. unfold parent_of. by rewrite Hnew.
  - intros c' ->%list_elem_of_singleton. unfold calm, type_of. rewrite Hnew. split; [done|by apply Hu].
  - intros c' ->%list_elem_of_singleton. unfold type_of. by rewrite Hnew.
  - intros c' ->%list_elem_of_singleton Hsc. assert (Hpar : parent_of (add_child h node n l type) n = Some node) by (unfold parent_of; by rewrite Hnew).
    destruct Hsc as [Hsc|[sc Hsc]].
    + exists node. apply scope_below; [done|]. by rewrite (ext_has_symtab _ _ X).
    + apply (scope_from h _ n node sc); [|done|done|done|done].
      unfold add_child. rewrite <-!(size_dom (D:=gset Node)), dom_alter_L, dom_insert_L, size_union by (apply disjoint_singleton_l, not_elem_of_dom, Hn).
      rewrite size_singleton. lia.
Qed.

(** ** Sequences *)

Section Children.
Context (c : Choice) (depth : Z) (node : Node) (Hu : forall t, t ∈ types c -> unmarked t).
Local Abbreviation adds := (grown (fun t => t ∈ types c) node).

Lemma gen_mandatory_spec : forall n g h g' h', reads_locations (gloc g) -> ready_for node h ->
  gen_mandatory n c g depth node h = Returns (g', h') ->
  same_settings g g' /\ exists cs, adds h h' cs /\ length cs = n.
Proof.
  induction n as [|n IH]; intros g h g' h' Hg Hr H; cbn in H.
  - injection H as <- <-. split; [done|]. exists []. split; [apply grown_nil|done].
  - apply outcome_bind_returns in H as ([g1 h1] & H1 & H).
    destruct (choice_gen_spec _ _ _ _ _ _ _ Hg Hr Hu H1) as (S1 & x & G1 & _).
    destruct (IH g1 h1 g' h') as (S2 & cs & G2 & Hl); [by rewrite (ss_gloc _ _ S1)|by eapply ready_extends, Hr; apply G1|done|].
    split; [by etransitivity|]. exists (x :: cs). split; [|cbn; by rewrite Hl].
    apply (grown_app _ node h h1 h' [x] cs (rf_some _ _ Hr) G1 G2).
Qed.

Lemma gen_more_spec max_len : forall fuel i g h g' h', reads_locations (gloc g) -> ready_for node h ->
  gen_more fuel i max_len c g depth node h = Returns (g', h') ->
  same_settings g g' /\ exists cs, adds h h' cs /\ i + size_of cs <= Z.max i max_len.
Proof.
  induction fuel as [|fuel IH]; intros i g h g' h' Hg Hr H; [done|]. cbn in H.
  destruct (Z.ltb_spec i max_len); cbn [negb] in H.
  2: { injection H as <- <-. split; [done|]. exists []. split; [apply grown_nil|]. unfold size_of. cbn. lia. }
  apply outcome_bind_returns in H as ([r g1] & Hn & H). apply next_settings in Hn.
  destruct (r mod 2 =? 0).
  { injection H as <- <-. split; [done|]. exists []. split; [apply grown_nil|]. unfold size_of. cbn. lia. }
  apply outcome_bind_returns in H as ([g2 h2] & H1 & H).
  destruct (choice_gen_spec c g1 depth node h g2 h2) as (S1 & x & G1 & _); [by rewrite (ss_gloc _ _ Hn)|done|done|done|].
  destruct (IH (i + 1) g2 h2 g' h') as (S2 & cs & G2 & Hl);
    [by rewrite (ss_gloc _ _ S1), (ss_gloc _ _ Hn)|by eapply ready_extends, Hr; apply G1|done|].
  split; [by etransitivity; [|etransitivity]|]. exists (x :: cs). split.
  - apply (grown_app _ node h h2 h' [x] cs (rf_some _ _ Hr) G1 G2).
  - unfold size_of in *. cbn [length]. lia.
Qed.
End Children.

Lemma sequence_gen_spec fuel q g depth node h g' h' :
  reads_locations (gloc g) -> ready_for node h -> (forall t, t ∈ types (seq_choice q) -> unmarked t) ->
  0 <= min_len q <= max_len q -> children_of h node = [] ->
  sequence_gen fuel q g depth node h = Returns (g', h') ->
  same_settings g g' /\ exists cs, grown (fun t => t ∈ types (seq_choice q)) node h h' cs
    /\ sequence_conforms q h' (children_of h' node).
Proof.
  intros Hg Hr Hu Hb Hc. unfold sequence_gen. intros ([g1 h1] & H1 & H)%outcome_bind_returns.
  destruct (gen_mandatory_spec _ _ _ Hu _ _ _ _ _ Hg Hr H1) as (S1 & cs1 & G1 & Hl1).
  assert (Hend : forall cs h2, grown (fun t => t ∈ types (seq_choice q)) node h h2 cs -> min_len q <= size_of cs <= max_len q ->
    sequence_conforms q h2 (children_of h2 node)).
  { intros cs h2 G Hl. rewrite (gr_children _ _ _ _ _ G), Hc. cbn [app]. split; [|by right].
    apply Forall_forall. intros x Hx. right. by apply (gr_types _ _ _ _ _ G). }
  assert (Hl1' : size_of cs1 = min_len q) by (unfold size_of; rewrite Hl1; lia).
  destruct ((target_depth g1 <=? depth) || (weight_sum g1 (seq_choice q) =? 0)).
  - injection H as <- <-. split; [done|]. exists cs1. split; [done|]. apply (Hend cs1); [done|lia].
  - destruct (gen_more_spec _ depth node Hu (max_len q) fuel (min_len q) g1 h1 g' h') as (S2 & cs2 & G2 & Hl2);
      [by rewrite (ss_gloc _ _ S1)|by eapply ready_extends, Hr; apply G1|exact H|].
    pose proof (grown_app _ node h h1 h' cs1 cs2 (rf_some _ _ Hr) G1 G2) as G.
    split; [by etransitivity|]. exists (cs1 ++ cs2). split; [done|]. apply (Hend (cs1 ++ cs2)); [done|].
    unfold size_of in *. rewrite length_app. lia.
Qed.

(** ** Fields *)

Lemma builds_extends h h' : tables_ok h -> builds [] h h' -> extends h h'.
Proof.
  intros Ho [T O G]. split; intros.
  - by apply (tables_only_is_Some _ _ T).
  - by apply tables_only_type.
  - by apply tables_only_location.
  - by apply tables_only_parent.
  - by apply tables_only_flags.
  - apply (same_has_symtab _ _ T).
  - by apply O.
  - by rewrite (tables_only_location _ _ T).
  - apply G; [apply not_elem_of_nil|done].
Qed.

Lemma grown_builds P node h h1 h2 cs : is_Some (h !! node) -> tables_ok h1 ->
  grown P node h h1 cs -> builds [] h1 h2 -> grown P node h h2 cs.
Proof.
  intros Hn Ho G B. rewrite <-(app_nil_r cs). apply (grown_app P node h h1 h2 cs []); [done|done|].
  split; try (by intros c ?%elem_of_nil); [by apply builds_extends| | |constructor].
  - rewrite app_nil_r. apply (tables_only_shape _ _ (builds_tables _ _ _ B)).
  - intros m _ _. apply (tables_only_shape _ _ (builds_tables _ _ _ B)).
Qed.

Lemma fields_conform_ext h h' n b fs cs : extends h h' -> ready_for n h -> (forall c, c ∈ cs -> is_Some (h !! c)) ->
  fields_conform h n b fs cs -> fields_conform h' n b fs cs.
Proof.
  intros E Hr. induction 2 as [fs c cs He| |f fs c cs Hty Hb Hc IH].
  - apply conform_error. rewrite (ext_type _ _ E); [done|]. by eauto using list_elem_of_here.
  - constructor.
  - apply conform_cons.
    + by rewrite (ext_type _ _ E) by eauto using list_elem_of_here.
    + intros Hi Hf. apply (ext_bound h); [done|apply Hr|apply Hr|apply Hr| |by apply Hb]. eauto using list_elem_of_here.
    + apply IH. eauto using list_elem_of_further.
Qed.

Lemma gen_fields_spec b depth node : forall fs g h g' h',
  reads_locations (gloc g) -> ready_for node h ->
  (forall f t, f ∈ fs -> t ∈ types (field_choice f) -> unmarked t) ->
  gen_fields fs b g depth node h = Returns (g', h') ->
  same_settings g g' /\ exists cs, grown (fun t => exists f, f ∈ fs /\ t ∈ types (field_choice f)) node h h' cs
    /\ fields_conform h' node b fs cs.
Proof.
  induction fs as [|f fs IH]; intros g h g' h' Hg Hr Hu H; cbn in H.
  - injection H as <- <-. split; [done|]. exists []. split; [apply grown_nil|constructor].
  - apply outcome_bind_returns in H as ([g1 h1] & H1 & (h2 & Hb & H)%outcome_bind_returns).
    destruct (choice_gen_spec _ _ _ _ _ _ _ Hg Hr ltac:(eauto using list_elem_of_here) H1) as (S1 & x & G1 & Hvx).
    pose proof (ready_extends _ _ _ (gr_extends _ _ _ _ _ G1) Hr) as Hr1.
    assert (Hbind : grown (fun t => t ∈ types (field_choice f)) node h h2 [x]
      /\ (b = field_name f -> bound_at h2 node x)).
    { destruct (token_eqb b (field_name f)) eqn:Eb.
      - rewrite (gr_children _ _ _ _ _ G1), last_snoc in Hb. cbn [or_undefined mbind outcome_bind] in Hb.
        apply outcome_bind_returns in Hb as ([r h2'] & Hb & [= <-]).
        destruct (bind_builds h1 node _ r h2' (rf_ok _ _ Hr1) Hvx Hb) as [B (sc & Hsc & Hin)].
        split; [by eapply grown_builds; [apply Hr|apply Hr1|done|done]|]. intros _.
        pose proof (builds_tables _ _ _ B) as T. apply bound_at_entries.
        + by apply B, Hr1.
        + by rewrite (tables_only_location _ _ T).
        + exists sc. rewrite (tables_only_scope _ _ T), (tables_only_location _ _ T). done.
      - injection Hb as <-. split; [done|]. intros Hb'. by apply token_eqb_neq in Eb. }
    destruct Hbind as [G2 Hbound]. pose proof (ready_extends _ _ _ (gr_extends _ _ _ _ _ G2) Hr) as Hr2.
    destruct (IH g1 h2 g' h') as (S2 & cs & G3 & Hc); [by rewrite (ss_gloc _ _ S1)|done|eauto using list_elem_of_further|done|].
    split; [by etransitivity|]. exists (x :: cs). split.
    + apply (grown_app _ node h h2 h' [x] cs (rf_some _ _ Hr)).
      * eapply grown_weaken; [|exact G2]. intros t Ht. exists f. split; [by left|done].
      * eapply grown_weaken; [|exact G3]. intros t (f' & Hf' & Ht). exists f'. split; [by right|done].
    + assert (Hx : is_Some (h2 !! x)) by (apply (gr_some _ _ _ _ _ G2); by left).
      apply conform_cons; [| |done].
      * rewrite (ext_type _ _ (gr_extends _ _ _ _ _ G3)) by done. apply (gr_types _ _ _ _ _ G2). by left.
      * intros _ Hf. apply (ext_bound h2); [apply G3|apply Hr2|apply Hr2|apply Hr2|done|by apply Hbound].
Qed.

(** ** Shapes *)

Definition choices (s : ShapeT) : list Choice :=
  match s with ShapeSequence q => [seq_choice q] | ShapeFields f => field_choice <$> fields f end.
Definition sequence_bounds (s : ShapeT) : Prop :=
  match s with ShapeSequence q => 0 <= min_len q <= max_len q | ShapeFields _ => True end.
Definition child_type (s : ShapeT) (t : Token) : Prop := exists c, c ∈ choices s /\ t ∈ types c.

Lemma shape_gen_spec fuel s g depth node h g' h' :
  reads_locations (gloc g) -> ready_for node h -> (forall t, child_type s t -> unmarked t) -> sequence_bounds s ->
  children_of h node = [] -> shape_gen fuel s g depth node h = Returns (g', h') ->
  same_settings g g' /\ exists cs, grown (child_type s) node h h' cs /\ conforms s h' node.
Proof.
  intros Hg Hr Hu Hb Hc H. destruct s as [q|f]; cbn in *.
  - destruct (sequence_gen_spec fuel q g depth node h g' h') as (S1 & cs & G & Hq); [done|done| |done|done|done|].
    { intros t Ht. apply Hu. exists (seq_choice q). split; [by left|done]. }
    split; [done|]. exists cs. split; [|done]. eapply grown_weaken; [|exact G]. intros t Ht. exists (seq_choice q).
    split; [by left|done].
  - destruct (gen_fields_spec (binding f) depth node (fields f) g h g' h') as (S1 & cs & G & Hf); [done|done| |done|].
    { intros fd t Hfd Ht. apply Hu. exists (field_choice fd). split; [by apply list_elem_of_fmap_2|done]. }
    split; [done|]. exists cs. split; [|by rewrite (gr_children _ _ _ _ _ G), Hc].
    eapply grown_weaken; [|exact G]. intros t (fd & Hfd & Ht). exists (field_choice fd). split; [by apply list_elem_of_fmap_2|done].
Qed.

(** * Trees *)

(** A set of types that the shapes do not leave, without errors and lifts *)
Record grammar (wf : Wellformed) (T : Token -> Prop) : Prop := {
  gm_top : T Token.Top;
  gm_closed t s u : T t -> shapes wf !! t = Some s -> child_type s u -> T u;
  gm_unmarked t : T t -> unmarked t;
  gm_bounds t s : T t -> shapes wf !! t = Some s -> sequence_bounds s;
  gm_top_unbound f : shapes wf !! Token.Top = Some (ShapeFields f) -> binding f = Invalid
}.

Section Trees.
Context (wf : Wellformed) (T : Token -> Prop) (Hw : grammar wf T).

Definition scoped (h : heap) (n : Node) : Prop :=
  (type_of h n = Token.Top /\ has_symtab (node_at h n) = true) \/ is_Some (scope h n).

(** What the check asks of a node *)
Record finished (h : heap) (n : Node) : Prop := {
  fi_shape : match shapes wf !! type_of h n with None => children_of h n = [] | Some s => conforms s h n end;
  fi_calm : calm h n;
  fi_parents c : c ∈ children_of h n -> is_Some (h !! c) /\ parent_of h c = Some n;
  fi_scoped : scoped h n
}.

Lemma scoped_ext h h' n : extends h h' -> is_Some (h !! n) -> scoped h n -> scoped h' n.
Proof.
  intros E Hn [[H1 H2]|[sc Hsc]]; [left|right; exists sc; by apply (ext_scope _ _ _ _ E)].
  by rewrite (ext_type _ _ E), (ext_has_symtab _ _ E).
Qed.

Lemma finished_ext h h' n : extends h h' -> ready_for n h -> children_of h' n = children_of h n ->
  finished h n -> finished h' n.
Proof.
  intros E Hr Ec [F1 F2 F3 F4]. pose proof (rf_some _ _ Hr) as Hn. split.
  - rewrite (ext_type _ _ E) by done. destruct (shapes wf !! type_of h n) as [[q|f]|]; [| |by rewrite Ec].
    + cbn in *. rewrite Ec. destruct F1 as [Fc Fb]. split.
      * apply Forall_forall. intros c Hc. rewrite Forall_forall in Fc. unfold chosen. rewrite (ext_type _ _ E); [by apply Fc|by apply F3].
      * destruct Fb as [Fe|]; [left|by right]. apply Exists_exists in Fe as (c & Hc & He). apply Exists_exists.
        exists c. split; [done|]. rewrite (ext_type _ _ E); [done|by apply F3].
    + cbn in *. rewrite Ec. eapply fields_conform_ext; [done|done|apply F3|done].
  - by apply (ext_calm h).
  - rewrite Ec. intros c Hc. destruct (F3 c Hc) as [H1 H2]. split; [by apply E|]. by rewrite (ext_parent _ _ E).
  - by apply (scoped_ext h).
Qed.

(** The trees [ts] were generated below the leaves [ns]. *)
Record tree_grown (h h' : heap) (ns : list Node) (ts : list tree) : Prop := {
  tg_extends : extends h h';
  tg_roots : root <$> ts = ns;
  tg_reads : Forall (reads h') ts;
  tg_nodup : NoDup (concat (nodes <$> ts));
  tg_others m : is_Some (h !! m) -> m ∉ ns -> children_of h' m = children_of h m;
  tg_new m : m ∈ concat (nodes <$> ts) -> m ∈ ns \/ h !! m = None;
  tg_some m : m ∈ concat (nodes <$> ts) -> is_Some (h' !! m);
  tg_done m : m ∈ concat (nodes <$> ts) -> finished h' m
}.

(** A leaf to generate below *)
Record leaf (h : heap) (n : Node) : Prop := {
  lf_some : is_Some (h !! n);
  lf_children : children_of h n = [];
  lf_calm : calm h n;
  lf_type : T (type_of h n);
  lf_scoped : scoped h n
}.

Definition store_ok (h : heap) : Prop := tables_ok h /\ forall n, viewable (location_of h n).
Lemma store_ready h n : store_ok h -> is_Some (h !! n) -> ready_for n h.
Proof. intros [H1 H2] Hn. by split. Qed.
Lemma store_ext h h' : extends h h' -> store_ok h -> store_ok h'.
Proof. intros E [H1 H2]. split; [by apply E|by apply E]. Qed.

Lemma leaf_ext h h' n : extends h h' -> children_of h' n = children_of h n -> leaf h n -> leaf h' n.
Proof.
  intros E Ec [L1 L2 L3 L4 L5]. split; [by apply E|by rewrite Ec|by apply (ext_calm h)|by rewrite (ext_type _ _ E)|by apply (scoped_ext h)].
Qed.

Lemma tree_grown_cons h h1 h2 n ns t ts : store_ok h -> is_Some (h !! n) -> (forall m, m ∈ ns -> is_Some (h !! m)) -> n ∉ ns ->
  tree_grown h h1 [n] [t] -> tree_grown h1 h2 ns ts -> tree_grown h h2 (n :: ns) (t :: ts).
Proof.
  intros Hok Hn Hns Hnd G1 G2. pose proof (tg_extends _ _ _ _ G1) as E1. pose proof (tg_extends _ _ _ _ G2) as E2.
  assert (Ht : forall m, m ∈ nodes t -> (m = n \/ h !! m = None) /\ is_Some (h1 !! m) /\ m ∉ ns).
  { intros m Hm. assert (Hm' : m ∈ concat (nodes <$> [t])) by (cbn; by rewrite app_nil_r).
    pose proof (tg_new _ _ _ _ G1 m Hm') as Hc. rewrite list_elem_of_singleton in Hc. split_and!; [done|by apply (tg_some _ _ _ _ G1)|].
    intros Hin. destruct Hc as [->|Hc]; [done|]. apply Hns in Hin. rewrite Hc in Hin. by destruct Hin. }
  assert (Hch : forall m, m ∈ nodes t -> children_of h2 m = children_of h1 m).
  { intros m Hm. destruct (Ht m Hm) as (_ & H1 & H2). by apply (tg_others _ _ _ _ G2). }
  assert (Hr1 : reads h1 t) by (pose proof (tg_reads _ _ _ _ G1) as H; rewrite Forall_singleton in H; exact H).
  split.
  - by etransitivity.
  - cbn. rewrite (tg_roots _ _ _ _ G2). pose proof (tg_roots _ _ _ _ G1) as H. cbn in H. by injection H as ->.
  - constructor; [|apply G2]. by apply (reads_same h1).
  - cbn. apply NoDup_app. split_and!; [|intros m Hm Hm2|apply G2].
    + pose proof (tg_nodup _ _ _ _ G1) as H. cbn in H. by rewrite app_nil_r in H.
    + destruct (Ht m Hm) as (_ & H1 & H2). apply (tg_new _ _ _ _ G2) in Hm2 as [?|H3]; [done|]. rewrite H3 in H1. by destruct H1.
  - intros m Hm [Hmn Hmns]%not_elem_of_cons. rewrite (tg_others _ _ _ _ G2); [|by apply E1|done].
    apply (tg_others _ _ _ _ G1); [done|]. by rewrite list_elem_of_singleton.
  - intros m. cbn. intros [Hm|Hm]%elem_of_app.
    + destruct (Ht m Hm) as ([->|?] & _); [left; by left|by right].
    + apply (tg_new _ _ _ _ G2) in Hm as [?|Hm]; [left; by right|right]. apply eq_None_not_Some. intros H.
      apply (ext_some _ _ E1) in H. rewrite Hm in H. by destruct H.
  - intros m. cbn. intros [Hm|Hm]%elem_of_app; [|by apply (tg_some _ _ _ _ G2)]. apply (ext_some _ _ E2). by apply Ht.
  - intros m. cbn. intros [Hm|Hm]%elem_of_app; [|by apply (tg_done _ _ _ _ G2)].
    apply (finished_ext h1); [done| |by apply Hch|].
    + apply store_ready; [by apply (store_ext h)|by apply Ht].
    + apply (tg_done _ _ _ _ G1). cbn. by rewrite app_nil_r.
Qed.

Lemma tree_grown_nil h : tree_grown h h [] [].
Proof. split; try done; try (by intros m ?%elem_of_nil). constructor. Qed.

(** ** The loop and the recursion *)

Definition grows (gen_child : Gen -> Node -> heap -> outcome (Gen * heap)) : Prop :=
  forall g n h g' h', gen_child g n h = Returns (g', h') -> reads_locations (gloc g) -> store_ok h -> leaf h n ->
    same_settings g g' /\ exists t, tree_grown h h' [n] [t].

Lemma gen_children_spec gen_child : grows gen_child -> forall ns g h g' h',
  gen_children gen_child ns g h = Returns (g', h') -> reads_locations (gloc g) -> store_ok h -> NoDup ns ->
  (forall n, n ∈ ns -> leaf h n) -> same_settings g g' /\ exists ts, tree_grown h h' ns ts.
Proof.
  intros Hg. induction ns as [|n ns IH]; intros g h g' h' H Hr Hok Hnd Hl; cbn in H.
  - injection H as <- <-. split; [done|]. exists []. apply tree_grown_nil.
  - apply outcome_bind_returns in H as ([g1 h1] & H1 & H). apply NoDup_cons in Hnd as [Hn Hnd].
    destruct (Hg _ _ _ _ _ H1 Hr Hok (Hl n ltac:(by left))) as (S1 & t & G1).
    pose proof (tg_extends _ _ _ _ G1) as E1.
    destruct (IH g1 h1 g' h' H) as (S2 & ts & G2); [by rewrite (ss_gloc _ _ S1)|by apply (store_ext h)|done| |].
    + intros m Hm. assert (Hlm : leaf h m) by (apply Hl; by right). apply (leaf_ext h); [done| |done].
      apply (tg_others _ _ _ _ G1); [apply Hlm|]. rewrite list_elem_of_singleton. by intros ->.
    + split; [by etransitivity|]. exists (t :: ts).
      apply (tree_grown_cons h h1); [done|apply Hl; by left|intros m Hm; apply Hl; by right|done..].
Qed.

Lemma gen_node_grows : forall fuel depth, grows (fun g n h => gen_node fuel wf g depth n h).
Proof.
  induction fuel as [|fuel IH]; intros depth g n h g' h' H Hg Hok Hl; [done|]. cbn in H.
  destruct (shapes wf !! type_of h n) as [s|] eqn:Es.
  2: { injection H as <- <-. split; [done|]. exists (Tree n []). split; cbn.
       - done.
       - done.
       - apply Forall_singleton, reads_node; [by rewrite (lf_children _ _ Hl)|constructor].
       - apply NoDup_singleton.
       - done.
       - by left.
       - intros m ->%list_elem_of_singleton. apply Hl.
       - intros m ->%list_elem_of_singleton. split; [by rewrite Es; apply Hl|apply Hl| |apply Hl].
         rewrite (lf_children _ _ Hl). by intros c ?%elem_of_nil. }
  apply outcome_bind_returns in H as ([g1 h1] & H1 & H).
  pose proof (lf_some _ _ Hl) as Hn. pose proof (store_ready _ _ Hok Hn) as Hr.
  destruct (shape_gen_spec fuel s g depth n h g1 h1 Hg Hr) as (S1 & cs & G & Hc);
    [intros t Ht; eapply (gm_unmarked _ _ Hw), (gm_closed _ _ Hw); [apply Hl|exact Es|exact Ht]|
     eapply (gm_bounds _ _ Hw); [apply Hl|exact Es]|apply Hl|exact H1|].
  rewrite (gr_children _ _ _ _ _ G), (lf_children _ _ Hl) in H. cbn [app] in H.
  pose proof (gr_extends _ _ _ _ _ G) as E1. pose proof (store_ext _ _ E1 Hok) as Hok1.
  assert (Hcs : forall c, c ∈ cs -> leaf h1 c).
  { intros c Hin. split.
    - by apply (gr_some _ _ _ _ _ G).
    - by apply (gr_leaf _ _ _ _ _ G).
    - by apply (gr_calm _ _ _ _ _ G).
    - eapply (gm_closed _ _ Hw); [apply Hl|exact Es|]. by apply (gr_types _ _ _ _ _ G).
    - right. apply (gr_scope _ _ _ _ _ G c Hin). destruct (lf_scoped _ _ Hl) as [[_ ?]|?]; [by left|by right]. }
  destruct (gen_children_spec _ (IH (u64 (depth + 1))) cs g1 h1 g' h' H) as (S2 & ts & G2);
    [by rewrite (ss_gloc _ _ S1)|done|apply G|done|].
  split; [by etransitivity|]. exists (Tree n ts). pose proof (tg_extends _ _ _ _ G2) as E2.
  assert (Hn1 : is_Some (h1 !! n)) by by apply (ext_some _ _ E1).
  assert (Hncs : n ∉ cs) by (intros Hin%(gr_new _ _ _ _ _ G); rewrite Hin in Hn; by destruct Hn).
  assert (Hch : children_of h' n = cs).
  { rewrite (tg_others _ _ _ _ G2) by done. by rewrite (gr_children _ _ _ _ _ G), (lf_children _ _ Hl). }
  assert (Hnts : n ∉ concat (nodes <$> ts)).
  { intros [?|Hx]%(tg_new _ _ _ _ G2); [done|]. rewrite Hx in Hn1. by destruct Hn1. }
  split; cbn [concat fmap list_fmap nodes]; rewrite ?app_nil_r.
  - by etransitivity.
  - done.
  - apply Forall_singleton, reads_node; [by rewrite (tg_roots _ _ _ _ G2)|apply G2].
  - apply NoDup_cons. split; [done|apply G2].
  - intros m Hm Hmn. rewrite list_elem_of_singleton in Hmn. rewrite (tg_others _ _ _ _ G2).
    + by apply (gr_others _ _ _ _ _ G).
    + by apply (ext_some _ _ E1).
    + intros Hin%(gr_new _ _ _ _ _ G). rewrite Hin in Hm. by destruct Hm.
  - intros m [->|Hm]%elem_of_cons; [left; by left|right]. apply (tg_new _ _ _ _ G2) in Hm as [Hm|Hm]; [by apply (gr_new _ _ _ _ _ G)|].
    apply eq_None_not_Some. intros Hx. apply (ext_some _ _ E1) in Hx. rewrite Hm in Hx. by destruct Hx.
  - intros m [->|Hm]%elem_of_cons; [by apply (ext_some _ _ E2)|by apply (tg_some _ _ _ _ G2)].
  - intros m [->|Hm]%elem_of_cons; [|by apply (tg_done _ _ _ _ G2)].
    apply (finished_ext h1); [done|by apply store_ready|by rewrite Hch, (gr_children _ _ _ _ _ G), (lf_children _ _ Hl)|].
    split.
    + by rewrite (ext_type _ _ E1), Es.
    + apply (ext_calm h); [done|done|apply Hl].
    + rewrite (gr_children _ _ _ _ _ G), (lf_children _ _ Hl). cbn [app]. intros c Hin.
      split; [by apply (gr_some _ _ _ _ _ G)|by apply (gr_parent _ _ _ _ _ G)].
    + apply (scoped_ext h); [done|done|apply Hl].
Qed.
End Trees.

(** * Generated trees pass the check *)

Section Checked.
Context (wf : Wellformed) (T : Token -> Prop) (Hw : grammar wf T).

Lemma finished_well_formed h t : reads h t -> (forall m, m ∈ nodes t -> finished wf h m) -> well_formed wf h t.
Proof.
  induction t as [n ts IH] using tree_ind'. intros [Hc Hr]%reads_inv Hf.
  destruct (Hf n (root_in_nodes (Tree n ts))) as [F1 [Hfl Hu] F3 _].
  assert (Hflag : contains_error (flags_ (node_at h n)) = false) by (unfold contains_error; by rewrite Hfl).
  destruct (shapes wf !! type_of h n) as [s|] eqn:Es.
  - apply wf_shape with s; [done|done|done| |].
    + apply Forall_forall. intros t Ht. apply F3. rewrite Hc. by apply list_elem_of_fmap_2.
    + apply Forall_forall. intros t Ht. rewrite Forall_forall in IH, Hr. apply IH; [done|by apply Hr|].
      intros m Hm. apply Hf. by apply (nodes_child n ts t Ht).
  - rewrite Hc in F1. apply fmap_nil_inv in F1 as ->. by apply wf_leaf.
Qed.

Lemma finished_checkable h n : store_ok h -> is_Some (h !! n) -> finished wf h n -> checkable wf h n.
Proof.
  intros [Ho Hv] Hn F. split; [done|]. intros f Hs Hb. destruct (fi_scoped _ _ _ F) as [[Ht _]|[sc Hsc]].
  - rewrite Ht in Hs. by destruct Hb, (gm_top_unbound _ _ Hw f).
  - exists sc. split; [done|]. intros c _. eexists. by apply look_entries.
Qed.

(** The store before the root, and with it *)
Lemma create_top h : let top := fresh (dom h) in let h1 := <[top := new_node Token.Top null_location]> h in
  h !! top = None /\ extends h h1 /\ leaf T h1 top /\ (store_ok h -> store_ok h1).
Proof.
  intros top h1. assert (Hn : h !! top = None) by (apply not_elem_of_dom, is_fresh).
  assert (Hat : node_at h1 top = new_node Token.Top null_location) by (unfold node_at, h1; by rewrite lookup_insert_eq).
  assert (Hold : forall m, m <> top -> node_at h1 m = node_at h m) by (intros m Hm; unfold node_at, h1; by rewrite lookup_insert_ne).
  assert (Hne : forall m, is_Some (h !! m) -> m <> top) by (by intros m Hm ->; rewrite Hn in Hm; destruct Hm).
  assert (E : extends h h1).
  { split; intros.
    - unfold h1. rewrite lookup_insert_ne by (by apply not_eq_sym, Hne). done.
    - unfold type_of. by rewrite Hold by auto.
    - unfold location_of. by rewrite Hold by auto.
    - unfold parent_of. by rewrite Hold by auto.
    - by rewrite Hold by auto.
    - by rewrite Hold by auto.
    - intros m st. unfold symtab_of. destruct (decide (m = top)) as [->|]; [rewrite Hat|rewrite Hold by done; exact (H m st)].
      intros [= <-]. split; constructor.
    - unfold location_of. destruct (decide (n = top)) as [->|]; [by rewrite Hat|rewrite Hold by done; apply H].
    - unfold entries, symtab_of in *. destruct (decide (sc = top)) as [->|]; [|by rewrite Hold].
      unfold node_at in H. rewrite Hn in H. by apply elem_of_nil in H. }
  split_and!; [done|done| |by apply store_ext].
  split; unfold calm, scoped, type_of, children_of; rewrite ?Hat; cbn [type_ children flags_ new_node].
  - unfold h1. rewrite lookup_insert_eq. by eexists.
  - done.
  - split; [done|apply Hw, Hw].
  - apply Hw.
  - by left.
Qed.

Lemma gen_sound fuel order gl seed depth gb weights h top g h' :
  reads_locations gl -> store_ok h -> gen fuel wf order gl seed depth gb weights h = Returns (top, g, h') ->
  exists t, root t = top /\ extends h h' /\ reads h' t /\ NoDup (nodes t) /\ (forall n, n ∈ nodes t -> h !! n = None)
    /\ type_of h' top = Token.Top
    /\ forall fuel', (2 * length (nodes t) <= fuel')%nat -> wf_check wf fuel' h' top = Returns true.
Proof.
  intros Hg Hok. unfold gen.
  intros (keys & _ & (distance & _ & (g0 & H0 & H)%outcome_bind_returns)%outcome_bind_returns)%outcome_bind_returns.
  unfold create_token, create in H. cbv zeta in H. destruct (create_top h) as (Hn & E & Hl & Hok1).
  cbv zeta in Hn, E, Hl, Hok1. set (n := fresh (dom h)) in *. set (h1 := <[n := new_node Token.Top null_location]> h) in *.
  apply outcome_bind_returns in H as ([g1 h2] & H & [= <- <- <-]).
  assert (Hg0 : gloc g0 = gl).
  { unfold new_gen in H0. apply outcome_bind_returns in H0 as (r & _ & (r' & _ & [= <-])%outcome_bind_returns). done. }
  destruct (gen_node_grows wf T Hw fuel 0 g0 n h1 g1 h2 H) as (_ & t & G); [by rewrite Hg0|auto|done|].
  assert (Hin : forall m, m ∈ nodes t -> m ∈ concat (nodes <$> [t])) by (intros m Hm; cbn; by rewrite app_nil_r).
  assert (Hroot : root t = n) by (pose proof (tg_roots _ _ _ _ _ G) as Hr; by injection Hr).
  pose proof (tg_extends _ _ _ _ _ G) as E2.
  assert (Hread : reads h2 t) by (pose proof (tg_reads _ _ _ _ _ G) as Hr; by rewrite Forall_singleton in Hr).
  exists t. split_and!; [done|by etransitivity|done| | | |].
  - pose proof (tg_nodup _ _ _ _ _ G) as Hd. cbn in Hd. by rewrite app_nil_r in Hd.
  - intros m Hm. apply Hin, (tg_new _ _ _ _ _ G) in Hm as [->%list_elem_of_singleton|Hm]; [done|].
    apply eq_None_not_Some. intros Hx. apply (ext_some _ _ E) in Hx. rewrite Hm in Hx. by destruct Hx.
  - rewrite (ext_type _ _ E2) by apply Hl. unfold type_of, node_at, h1. by rewrite lookup_insert_eq.
  - intros fuel' Hf. rewrite <-Hroot. destruct (wf_check_decides wf h2 t fuel') as (b & -> & Hb); [done| |done|].
    + apply Forall_forall. intros m Hm. apply finished_checkable; [by apply (store_ext h1); auto|by apply (tg_some _ _ _ _ _ G), Hin|].
      by apply (tg_done _ _ _ _ _ G), Hin.
    + f_equal. apply Hb. right. apply finished_well_formed; [done|]. intros m Hm. by apply (tg_done _ _ _ _ _ G), Hin.
Qed.
End Checked.

(** * Generation ends *)

Definition rand_ok (r : Rand) : Prop := generator_ok p128r32 r /\ nonzero r.
Definition total_gloc (f : GenNodeLocationF) : Prop :=
  forall r h n, rand_ok r -> exists l r', f r h n = Returns (l, r') /\ viewable l /\ rand_ok r'.

(** A generator without weights and bindings *)
Record going (g : Gen) : Prop := {
  go_rand : rand_ok (rand g);
  go_gloc : total_gloc (gloc g);
  go_weights : token_weights g = ∅;
  go_keys : binding_keys g = ∅
}.

Lemma p128r32_ok : params_ok p128r32.
Proof. apply xor_instances_ok. unfold xor_instances. rewrite !elem_of_cons. tauto. Qed.

Lemma rand_next_total r : rand_ok r -> exists n r', rand_next r = Returns (n, r') /\ rand_ok r' /\ 0 <= n < 2 ^ 32.
Proof.
  intros [Hg Hn]. destruct (xor_next_some p128r32 r p128r32_ok Hg Hn) as (n & r' & E & H1 & H2 & Hb & _).
  exists n, r'. unfold rand_next. rewrite E. split; [done|]. split; [done|]. unfold result_min, result_max in Hb. cbn in Hb. lia.
Qed.
Lemma next_total g : going g -> exists n g', next g = Returns (n, g') /\ going g' /\ 0 <= n < 2 ^ 32.
Proof.
  intros [H1 H2 H3 H4]. destruct (rand_next_total _ H1) as (n & r' & E & Hr & Hb). exists n, (with_rand r' g).
  unfold next. rewrite E. split; [done|]. split; [|done]. by split.
Qed.

Lemma lookup_total_elem {A} (l : list A) (n : Z) : l <> [] -> 0 <= n -> exists x, l !! Z.to_nat (n mod size_of l) = Some x.
Proof.
  intros Hl Hn. apply lookup_lt_is_Some. unfold size_of. destruct l; [done|].
  pose proof (Z.mod_pos_bound n (Z.of_nat (length (a :: l))) ltac:(cbn; lia)). lia.
Qed.

Lemma choose_total g tokens depth : going g -> tokens <> [] -> depth <= target_depth g ->
  exists t g', choose g tokens depth = Returns (t, g') /\ going g'.
Proof.
  intros Hg Ht Hd. unfold choose, no_weights. rewrite (go_weights _ Hg). rewrite bool_decide_true by done. cbn [negb andb].
  rewrite (proj2 (Z.leb_le _ _) Hd). destruct tokens as [|t1 [|t2 tokens]]; [done|by eexists _, _|].
  destruct (next_total g Hg) as (n & g' & E & Hg' & Hn). rewrite E. cbn [mbind outcome_bind].
  destruct (lookup_total_elem (t1 :: t2 :: tokens) n) as [x Hx]; [done|lia|]. rewrite Hx. cbn. by eexists _, _.
Qed.

Lemma copy_if_none (f : Node -> outcome bool) l : (forall n, f n = Returns false) -> copy_if f l = Returns [].
Proof. intros Hf. induction l as [|n l IH]; [done|]. cbn. by rewrite Hf, IH. Qed.

Lemma location_total g h parent child : going g ->
  exists l g', location g h parent child = Returns (l, g') /\ going g'.
Proof.
  intros Hg. assert (Hs : gen_get_symbols g (type_of h child) (scope h parent) h = Returns []).
  { unfold gen_get_symbols. destruct (scope h parent) as [s|]; [|done]. unfold get_symbols.
    destruct (symtab_of h s); [|done]. apply copy_if_none. intros n. rewrite (go_keys _ Hg), lookup_empty. by rewrite andb_false_r. }
  unfold location. rewrite Hs. cbn [mbind outcome_bind]. destruct (next_total g Hg) as (n & g' & E & Hg' & Hn). rewrite E.
  cbn [mbind outcome_bind]. rewrite lookup_nil. destruct (go_gloc _ Hg' (rand g') h child (go_rand _ Hg')) as (l & r' & El & _ & Hr).
  rewrite El. exists l, (with_rand r' g'). split; [done|]. destruct Hg'. by split.
Qed.

Lemma choice_gen_total c g depth node h : going g -> is_Some (h !! node) -> types c <> [] ->
  (forall t, t ∈ types c -> unmarked t) -> depth <= target_depth g ->
  exists g' h', choice_gen c g depth node h = Returns (g', h') /\ going g'.
Proof.
  intros Hg Hnode Ht Hu Hd. unfold choice_gen. destruct (choose_total g (types c) depth Hg Ht Hd) as (t & g1 & E & Hg1).
  pose proof (choose_in _ _ _ _ _ E) as [Hin _]. rewrite E. cbn [mbind outcome_bind]. unfold create_token, create. cbv zeta.
  destruct (create_push h node t Hnode (Hu _ Hin)) as (Hn & Hne & E1). cbv zeta in Hn, Hne, E1. rewrite E1.
  destruct (location_total g1 (add_child h node (fresh (dom h)) null_location t) node (fresh (dom h)) Hg1) as (l & g2 & El & Hg2).
  rewrite El. cbn [mbind outcome_bind]. rewrite set_location_new by done. by eexists _, _.
Qed.

(** The specification bounds its trees: the types below a type rank lower, choices offer something
    and sequences have a largest length. *)
Record bounded (wf : Wellformed) (T : Token -> Prop) (rank : Token -> nat) (B : nat) : Prop := {
  bd_rank t s u : T t -> shapes wf !! t = Some s -> child_type s u -> (rank u < rank t)%nat;
  bd_choices t s c : shapes wf !! t = Some s -> c ∈ choices s -> types c <> [];
  bd_max t q : T t -> shapes wf !! t = Some (ShapeSequence q) -> max_len q <= Z.of_nat B;
  bd_names t f fd : T t -> shapes wf !! t = Some (ShapeFields f) -> fd ∈ fields f -> field_name fd <> Invalid
}.

(** A step that keeps what the next one needs *)
Lemma reads_total f : total_gloc f -> forall r h n l r', rand_ok r -> f r h n = Returns (l, r') -> viewable l.
Proof. intros Hf r h n l r' Hr E. destruct (Hf r h n Hr) as (l1 & r1 & E1 & Hv & _). rewrite E1 in E. by injection E as <- _. Qed.

Section Total.
Context (c : Choice) (depth : Z) (node : Node).
Context (Hc : types c <> []) (Hu : forall t, t ∈ types c -> unmarked t).

Lemma gen_mandatory_total : forall n g h, going g -> reads_locations (gloc g) -> ready_for node h -> depth <= target_depth g ->
  exists g' h', gen_mandatory n c g depth node h = Returns (g', h') /\ going g'.
Proof.
  induction n as [|n IH]; intros g h Hg Hl Hr Hd; cbn; [by eexists _, _|].
  destruct (choice_gen_total c g depth node h Hg (rf_some _ _ Hr) Hc Hu Hd) as (g1 & h1 & E & Hg1). rewrite E. cbn [mbind outcome_bind].
  destruct (choice_gen_spec _ _ _ _ _ _ _ Hl Hr Hu E) as (S1 & x & G & _).
  apply IH; [done|by rewrite (ss_gloc _ _ S1)|by eapply ready_extends, Hr; apply G|by rewrite (ss_depth _ _ S1)].
Qed.

Lemma gen_more_total max_len : forall fuel i g h, going g -> reads_locations (gloc g) -> ready_for node h -> depth <= target_depth g ->
  (Z.to_nat (max_len - i) < fuel)%nat ->
  exists g' h', gen_more fuel i max_len c g depth node h = Returns (g', h') /\ going g'.
Proof.
  induction fuel as [|fuel IH]; intros i g h Hg Hl Hr Hd Hf; [lia|]. cbn.
  destruct (Z.ltb_spec i max_len); cbn [negb]; [|by eexists _, _].
  destruct (next_total g Hg) as (n & g1 & En & Hg1 & _). rewrite En. cbn [mbind outcome_bind]. apply next_settings in En.
  destruct (n mod 2 =? 0); [by eexists _, _|].
  destruct (choice_gen_total c g1 depth node h Hg1 (rf_some _ _ Hr) Hc Hu) as (g2 & h2 & E & Hg2); [by rewrite (ss_depth _ _ En)|].
  rewrite E. cbn [mbind outcome_bind].
  destruct (choice_gen_spec c g1 depth node h g2 h2) as (S1 & x & G & _); [by rewrite (ss_gloc _ _ En)|done..|].
  apply IH; [done|by rewrite (ss_gloc _ _ S1), (ss_gloc _ _ En)|by eapply ready_extends, Hr; apply G|
    by rewrite (ss_depth _ _ S1), (ss_depth _ _ En)|lia].
Qed.
End Total.

Lemma gen_fields_total b depth node : forall fs g h, going g -> reads_locations (gloc g) -> ready_for node h ->
  (forall f, f ∈ fs -> types (field_choice f) <> [] /\ forall t, t ∈ types (field_choice f) -> unmarked t) ->
  (forall f, f ∈ fs -> b = field_name f -> is_Some (scope h node)) -> depth <= target_depth g ->
  exists g' h', gen_fields fs b g depth node h = Returns (g', h') /\ going g'.
Proof.
  induction fs as [|f fs IH]; intros g h Hg Hl Hr Hf Hb Hd; cbn; [by eexists _, _|].
  destruct (Hf f ltac:(by left)) as [Hc Hu].
  destruct (choice_gen_total (field_choice f) g depth node h Hg (rf_some _ _ Hr) Hc Hu Hd) as (g1 & h1 & E & Hg1).
  rewrite E. cbn [mbind outcome_bind]. destruct (choice_gen_spec _ _ _ _ _ _ _ Hl Hr Hu E) as (S1 & x & G & Hvx).
  pose proof (gr_extends _ _ _ _ _ G) as E1. pose proof (ready_extends _ _ _ E1 Hr) as Hr1.
  assert (Hbind : exists h2, (if token_eqb b (field_name f) then
      back ← or_undefined (last (children_of h1 node)); '(_, h) ← bind h1 node (location_of h1 back); Returns h
    else Returns h1) = Returns h2 /\ extends h1 h2).
  { destruct (token_eqb b (field_name f)) eqn:Eb; [|by exists h1]. apply token_eqb_eq in Eb.
    destruct (Hb f ltac:(by left) Eb) as [sc Hsc]. apply (ext_scope _ _ _ _ E1 (rf_some _ _ Hr)) in Hsc.
    rewrite (gr_children _ _ _ _ _ G), last_snoc. cbn [or_undefined mbind outcome_bind].
    destruct (bind_spec h1 node _ sc (rf_ok _ _ Hr1) Hvx Hsc) as (r & h2 & Hbd & _).
    rewrite Hbd. cbn [mbind outcome_bind]. exists h2. split; [done|]. apply builds_extends; [apply Hr1|].
    by apply (bind_builds h1 node _ r h2 (rf_ok _ _ Hr1) Hvx). }
  destruct Hbind as (h2 & Eb & E2). rewrite Eb. cbn [mbind outcome_bind].
  apply IH; [done|by rewrite (ss_gloc _ _ S1)|by apply (ready_extends _ h1)|intros f' Hf'; apply Hf; by right| |by rewrite (ss_depth _ _ S1)].
  intros f' Hf' Hn. destruct (Hb f' ltac:(by right) Hn) as [sc Hsc]. exists sc.
  apply (ext_scope h1); [done|apply Hr1|]. by apply (ext_scope h); [|apply Hr|].
Qed.

Section Ends.
Context (wf : Wellformed) (T : Token -> Prop) (rank : Token -> nat) (B : nat).
Context (Hw : grammar wf T) (Hb : bounded wf T rank B).

Lemma shape_gen_total fuel s g depth node h : shapes wf !! type_of h node = Some s -> T (type_of h node) ->
  going g -> reads_locations (gloc g) -> ready_for node h -> scoped h node -> depth <= target_depth g -> (B < fuel)%nat ->
  exists g' h', shape_gen fuel s g depth node h = Returns (g', h') /\ going g'.
Proof.
  intros Es Ht Hg Hl Hr Hs Hd Hf.
  assert (Hch : forall c, c ∈ choices s -> types c <> [] /\ forall t, t ∈ types c -> unmarked t).
  { intros c Hc. split; [by eapply (bd_choices _ _ _ _ Hb)|]. intros t Hin. apply (gm_unmarked _ _ Hw).
    eapply (gm_closed _ _ Hw); [exact Ht|exact Es|]. by exists c. }
  destruct s as [q|f]; cbn [shape_gen].
  - destruct (Hch (seq_choice q) ltac:(by left)) as [Hc Hu]. unfold sequence_gen.
    destruct (gen_mandatory_total (seq_choice q) depth node Hc Hu (Z.to_nat (min_len q)) g h Hg Hl Hr Hd) as (g1 & h1 & E & Hg1).
    rewrite E. cbn [mbind outcome_bind].
    destruct (gen_mandatory_spec _ _ _ Hu _ _ _ _ _ Hl Hr E) as (S1 & cs & G & _).
    destruct (_ || _); [by eexists _, _|].
    apply gen_more_total; [done|done|done|by rewrite (ss_gloc _ _ S1)|by eapply ready_extends, Hr; apply G|by rewrite (ss_depth _ _ S1)|].
    pose proof (bd_max _ _ _ _ Hb _ _ Ht Es). pose proof (gm_bounds _ _ Hw _ _ Ht Es) as Hm. cbn in Hm. lia.
  - unfold fields_gen. apply gen_fields_total; [done|done|done| | |done].
    + intros fd Hfd. apply Hch. by apply list_elem_of_fmap_2.
    + intros fd Hfd Hn. destruct Hs as [[Htop _]|?]; [|done]. rewrite Htop in *.
      pose proof (bd_names _ _ _ _ Hb _ _ _ Ht Es Hfd) as Hname. by rewrite <-Hn, (gm_top_unbound _ _ Hw f Es) in Hname.
Qed.

Lemma gen_node_total : forall fuel depth g node h, (S B + rank (type_of h node) < fuel)%nat ->
  going g -> reads_locations (gloc g) -> store_ok h -> leaf T h node ->
  0 <= depth -> depth + Z.of_nat (rank (type_of h node)) <= target_depth g -> target_depth g < 2 ^ 64 - 1 ->
  exists g' h', gen_node fuel wf g depth node h = Returns (g', h') /\ going g'.
Proof.
  induction fuel as [|fuel IH]; intros depth g node h Hf Hg Hl Hok Hlf Hd0 Hd Ht64; [lia|]. cbn [gen_node].
  destruct (shapes wf !! type_of h node) as [s|] eqn:Es; [|by eexists _, _].
  pose proof (lf_type _ _ _ Hlf) as HT. pose proof (store_ready _ _ Hok (lf_some _ _ _ Hlf)) as Hr.
  destruct (shape_gen_total fuel s g depth node h Es HT Hg Hl Hr (lf_scoped _ _ _ Hlf) ltac:(lia) ltac:(lia)) as (g1 & h1 & E & Hg1).
  rewrite E. cbn [mbind outcome_bind].
  destruct (shape_gen_spec fuel s g depth node h g1 h1 Hl Hr) as (S1 & cs & G & _);
    [intros t Ht; eapply (gm_unmarked _ _ Hw), (gm_closed _ _ Hw); [exact HT|exact Es|exact Ht]|
     by eapply (gm_bounds _ _ Hw)|apply Hlf|exact E|].
  rewrite (gr_children _ _ _ _ _ G), (lf_children _ _ _ Hlf). cbn [app].
  pose proof (gr_extends _ _ _ _ _ G) as E1. pose proof (store_ext _ _ E1 Hok) as Hok1.
  assert (Hcs : forall c, c ∈ cs -> leaf T h1 c /\ (rank (type_of h1 c) < rank (type_of h node))%nat).
  { intros c Hin. pose proof (gr_types _ _ _ _ _ G c Hin) as Hct. split; [split|by eapply (bd_rank _ _ _ _ Hb)].
    - by apply (gr_some _ _ _ _ _ G).
    - by apply (gr_leaf _ _ _ _ _ G).
    - by apply (gr_calm _ _ _ _ _ G).
    - by eapply (gm_closed _ _ Hw).
    - right. apply (gr_scope _ _ _ _ _ G c Hin). destruct (lf_scoped _ _ _ Hlf) as [[_ ?]|?]; [by left|by right]. }
  assert (Hl1 : reads_locations (gloc g1)) by by rewrite (ss_gloc _ _ S1).
  assert (Htd1 : target_depth g1 = target_depth g) by apply S1.
  pose proof (gr_nodup _ _ _ _ _ G) as Hnd. clear E G S1. revert g1 h1 Hg1 Hl1 Htd1 Hok1 Hcs E1.
  induction cs as [|n ns IHns]; intros g1 h1 Hg1 Hl1 Htd1 Hok1 Hcs E1; cbn [gen_children]; [by eexists _, _|].
  apply NoDup_cons in Hnd as [Hn Hnd]. destruct (Hcs n ltac:(by left)) as [Hln Hrn].
  assert (Hdep : u64 (depth + 1) = depth + 1) by (apply u64_id; lia).
  destruct (IH (u64 (depth + 1)) g1 n h1) as (g2 & h2 & E & Hg2); [lia|done|done|done|done|rewrite Hdep; lia|rewrite Hdep, Htd1; lia|by rewrite Htd1|].
  rewrite E. cbn [mbind outcome_bind]. destruct (gen_node_grows wf T Hw fuel _ _ _ _ _ _ E Hl1 Hok1 Hln) as (S2 & t & G2).
  pose proof (tg_extends _ _ _ _ _ G2) as E2.
  apply IHns; [done|done|by rewrite (ss_gloc _ _ S2)|by rewrite (ss_depth _ _ S2)|by apply (store_ext h1)| |by etransitivity].
  intros c Hc. destruct (Hcs c ltac:(by right)) as [Hlc Hrc]. split.
  - apply (leaf_ext T h1); [done| |done]. apply (tg_others _ _ _ _ _ G2); [apply Hlc|]. rewrite list_elem_of_singleton. by intros ->.
  - by rewrite (ext_type _ _ E2) by apply Hlc.
Qed.

(** ** Distances *)

Lemma min_dist_total max_distance : forall fuel prefix known t,
  NoDup prefix -> (forall p, p ∈ prefix -> is_Some (shapes wf !! p)) -> t ∉ prefix ->
  (S (size (shapes wf)) <= fuel + length prefix)%nat -> (0 < fuel)%nat ->
  exists d known', min_dist_to_terminal fuel wf prefix max_distance known t = Returns (d, known').
Proof.
  induction fuel as [|fuel IH]; intros prefix known t Hnd Hp Ht Hf Hpos; [lia|]. cbn.
  destruct (known !! t) as [d|]; [by eexists _, _|]. destruct (shapes wf !! t) as [s|] eqn:Es; [|by eexists _, _].
  assert (Hnd' : NoDup (t :: prefix)) by by constructor.
  assert (Hp' : forall p, p ∈ t :: prefix -> is_Some (shapes wf !! p)) by (intros p [->|?]%elem_of_cons; [by eexists|auto]).
  assert (Hlen : (length (t :: prefix) <= size (shapes wf))%nat).
  { rewrite <-(size_dom (D:=gset Token) (shapes wf)), <-(size_list_to_set (C:=gset Token) (t :: prefix)) by done.
    apply subseteq_size. intros p. rewrite elem_of_list_to_set, elem_of_dom. auto. }
  assert (Hexp : forall c known, c ∈ choices s -> exists d known', expected_distance_to_terminal
    (fun known t' => min_dist_to_terminal fuel wf (t :: prefix) max_distance known t') (t :: prefix) max_distance c known = Returns (d, known')).
  { intros c known0 Hc. unfold expected_distance_to_terminal.
    assert (Hsum : forall ts acc known, exists d known', sum_distances
      (fun known t' => min_dist_to_terminal fuel wf (t :: prefix) max_distance known t') (t :: prefix) max_distance ts acc known = Returns (d, known')).
    { induction ts as [|u ts IHts]; intros acc known1; cbn [sum_distances]; [by eexists _, _|].
      destruct (token_in (t :: prefix) u) eqn:Eu; cbn [mbind outcome_bind]; [apply IHts|].
      assert (Hu : u ∉ t :: prefix) by (intros Hin%token_in_elem; congruence).
      destruct (IH (t :: prefix) known1 u) as (d & k & E); [done|done|done|cbn in *; lia|cbn in *; lia|].
      rewrite E. cbn [mbind outcome_bind]. apply IHts. }
    destruct (Hsum (types c) 0 known0) as (d & k & E). rewrite E. cbn [mbind outcome_bind].
    destruct (length (types c) =? 0)%nat eqn:El; [|by eexists _, _]. apply Nat.eqb_eq, length_zero_iff_nil in El.
    by destruct (bd_choices _ _ _ _ Hb t s c Es Hc). }
  destruct s as [q|f]; cbn [choices] in Hexp.
  - destruct (Hexp (seq_choice q) known ltac:(by left)) as (d & k & E). rewrite E. by eexists _, _.
  - assert (Hfs : forall fs acc known, (forall fd, fd ∈ fs -> field_choice fd ∈ field_choice <$> fields f) ->
      exists d known', fields_distance (fun c known => expected_distance_to_terminal
        (fun known t' => min_dist_to_terminal fuel wf (t :: prefix) max_distance known t') (t :: prefix) max_distance c known) fs acc known
        = Returns (d, known')).
    { induction fs as [|fd fs IHfs]; intros acc known0 Hin; cbn [fields_distance]; [by eexists _, _|].
      destruct (Hexp (field_choice fd) known0) as (d & k & E); [apply Hin; by left|]. rewrite E. cbn [mbind outcome_bind].
      apply IHfs. intros fd' Hfd. apply Hin. by right. }
    destruct (Hfs (fields f) 0 known) as (d & k & E); [by intros fd Hfd; apply list_elem_of_fmap_2|]. rewrite E. by eexists _, _.
Qed.

Lemma distances_total max_distance : forall order known,
  exists m, distances (S (size (shapes wf))) wf max_distance order known = Returns m.
Proof.
  induction order as [|t order IH]; intros known; [by eexists|]. cbn [distances].
  destruct (min_dist_total max_distance (S (size (shapes wf))) [] known t) as (d & k & E);
    [constructor|by intros p ?%elem_of_nil|apply not_elem_of_nil|cbn; lia|lia|]. rewrite E. cbn [mbind outcome_bind]. apply IH.
Qed.

Lemma warm_up_total : forall n r, rand_ok r -> exists r', warm_up n r = Returns r' /\ rand_ok r'.
Proof.
  induction n as [|n IH]; intros r Hr; [by eexists|]. cbn. destruct (rand_next_total r Hr) as (x & r' & E & Hr' & _). rewrite E. by apply IH.
Qed.

Lemma gen_total order gl seed depth h : total_gloc gl -> reads_locations gl -> store_ok h -> 0 < seed < 2 ^ 64 ->
  Z.of_nat (rank Token.Top) <= depth < 2 ^ 64 - 1 ->
  exists top g h', gen (S (S (S B)) + rank Token.Top) wf order gl seed depth false ∅ h = Returns (top, g, h').
Proof.
  intros Hg Hl Hok Hseed Hd. unfold gen. cbn [mbind outcome_bind]. unfold compute_minimum_distance_to_terminal.
  destruct (distances_total depth order ∅) as [m Em]. rewrite Em. cbn [mbind outcome_bind].
  assert (Hstart : exists r, set_state p128r32 seed 0 = Some r /\ rand_ok r).
  { unfold set_state. rewrite (proj2 (Z.eqb_neq seed 0)) by lia. cbn [andb].
    destruct (xor_next_some p128r32 (mkXorOshiro seed 0) p128r32_ok) as (n & r' & E & H1 & H2 & _).
    - split; cbn; unfold in_state; cbn; lia.
    - intros [H1 _]. cbn in H1. lia.
    - rewrite E. by exists r'. }
  destruct Hstart as (r & Er & Hr). destruct (warm_up_total 10 r Hr) as (r1 & Ew & Hr1).
  unfold new_gen. rewrite Er. cbn [or_undefined mbind outcome_bind]. rewrite Ew. cbn [mbind outcome_bind].
  unfold create_token, create. cbv zeta. destruct (create_top wf T Hw h) as (Hn & E & Hlf & Hok1). cbv zeta in Hn, E, Hlf, Hok1.
  set (g := mkGen _ _ _ _ _ _ _ _ _).
  set (top := fresh (dom h)) in *. set (h1 := <[top := new_node Token.Top null_location]> h) in *.
  assert (Ety : type_of h1 top = Token.Top) by (unfold type_of, node_at, h1; by rewrite lookup_insert_eq).
  destruct (gen_node_total (S (S (S B)) + rank Token.Top) 0 g top h1) as (g' & h' & E' & _);
    [rewrite Ety; lia|by split|done|by apply Hok1|done|done|rewrite Ety; cbn; lia|cbn; lia|].
  rewrite E'. by eexists _, _, _.
Qed.
End Ends.

(** C12: random trees.  Take a specification whose types do not lead to errors or lifts, whose
    sequences have proper bounds and whose root binds nothing, and a source of readable locations.
    Whatever [gen] returns, for every seed, depth and weights and with or without bound names, is a
    new tree, each node in one place, that passes the check of the specification, with every binding
    in the table where the check looks it up.  And [gen] returns, without bound names and without
    weights: when the types below each type rank lower, choices offer something and sequences have a
    largest length, it returns a tree for every seed but 0 and every depth from the rank of the root
    on.  With bound names it need not: it throws for a specification in which an [Include] is bound
    ([Sample.include_throws]). *)
Theorem gen_correct wf T order gl h :
  grammar wf T -> reads_locations gl -> store_ok h ->
  (forall fuel seed depth gb weights top g h', gen fuel wf order gl seed depth gb weights h = Returns (top, g, h') ->
     exists t, root t = top /\ type_of h' top = Token.Top /\ extends h h' /\ reads h' t /\ NoDup (nodes t)
       /\ (forall n, n ∈ nodes t -> h !! n = None)
       /\ forall fuel', (2 * length (nodes t) <= fuel')%nat -> wf_check wf fuel' h' top = Returns true)
  /\ (forall rank B seed depth, bounded wf T rank B -> total_gloc gl -> 0 < seed < 2 ^ 64 ->
     Z.of_nat (rank Token.Top) <= depth < 2 ^ 64 - 1 ->
     exists top g h', gen (S (S (S B)) + rank Token.Top) wf order gl seed depth false ∅ h = Returns (top, g, h')).
Proof.
  intros Hw Hg Hok. split.
  - intros fuel seed depth gb weights top g h' H.
    destruct (gen_sound wf T Hw _ _ _ _ _ _ _ _ _ _ _ Hg Hok H) as (t & H1 & H2 & H3 & H4 & H5 & H6 & H7).
    exists t. by split_and!.
  - intros rank B seed depth Hb Ht Hs Hd. by apply (gen_total wf T rank B).
Qed.

(** * A small language *)

Module Sample.
Definition Def : Token := builtin 50 "def" flag_lookup.
Definition Use : Token := builtin 51 "use" 0.
Definition Name : Token := builtin 52 "name" flag_print.
Definition Val : Token := builtin 53 "val" flag_print.

(** [(Top <<= (Def | Use)++[1][3]) | (Def <<= Val * Name)[Name] | (Use <<= Name)] *)
Definition spec : Wellformed := mkWellformed
  (<[Token.Top := ShapeSequence (mkSequence (mkChoice [Def; Use]) 1 3 true true)]>
  (<[Def := ShapeFields (mkFields [mkField Val (mkChoice [Val]) false; mkField Name (mkChoice [Name]) false] Name)]>
  (<[Use := ShapeFields (mkFields [mkField Name (mkChoice [Name]) false] Invalid)]> ∅))).
Definition order : list Token := [Token.Top; Def; Use].
(** Names and values have texts of their own. *)
Definition name_by_type : GenNodeLocationF := fun r h n =>
  Returns (if token_eqb (type_of h n) Val then location_of_string 1 (bytes "val") else location_of_string 1 (bytes "name"), r).

Definition used : list Token := [Token.Top; Def; Use; Name; Val].
Definition in_use (t : Token) : Prop := t ∈ used.
Definition rank (t : Token) : nat :=
  if token_eqb t Token.Top then 2 else if token_eqb t Def || token_eqb t Use then 1 else 0.

Lemma shape_cases t s : shapes spec !! t = Some s ->
  (t = Token.Top /\ s = ShapeSequence (mkSequence (mkChoice [Def; Use]) 1 3 true true))
  \/ (t = Def /\ s = ShapeFields (mkFields [mkField Val (mkChoice [Val]) false; mkField Name (mkChoice [Name]) false] Name))
  \/ (t = Use /\ s = ShapeFields (mkFields [mkField Name (mkChoice [Name]) false] Invalid)).
Proof.
  unfold spec. cbn [shapes]. rewrite !lookup_insert_Some, lookup_empty. naive_solver.
Qed.

Lemma child_cases t s u : shapes spec !! t = Some s -> child_type s u ->
  (t = Token.Top /\ (u = Def \/ u = Use)) \/ ((t = Def \/ t = Use) /\ (u = Val \/ u = Name)).
Proof.
  intros [[-> ->]|[[-> ->]|[-> ->]]]%shape_cases (c & Hc & Hu); cbn in Hc;
    rewrite ?elem_of_cons, elem_of_nil in Hc; naive_solver (cbn in Hu; rewrite ?elem_of_cons, elem_of_nil in Hu; naive_solver).
Qed.

Lemma spec_grammar : grammar spec in_use.
Proof.
  split.
  - by left.
  - intros t s u _ Hs Hu. destruct (child_cases t s u Hs Hu) as [[_ [->| ->]]|[_ [->| ->]]]; unfold in_use, used; rewrite !elem_of_cons; tauto.
  - intros t Ht. unfold in_use, used in Ht. rewrite !elem_of_cons, elem_of_nil in Ht.
    unfold unmarked. naive_solver.
  - intros t s _ [[-> ->]|[[-> ->]|[-> ->]]]%shape_cases; cbn; lia.
  - intros f [[_ ?]|[[? _]|[? _]]]%shape_cases; done.
Qed.
Lemma spec_bounded : bounded spec in_use rank 3.
Proof.
  split.
  - intros t s u _ Hs Hu. destruct (child_cases t s u Hs Hu) as [[-> [->| ->]]|[[->| ->] [->| ->]]]; vm_compute; lia.
  - intros t s c [[-> ->]|[[-> ->]|[-> ->]]]%shape_cases Hc; cbn in Hc;
    rewrite ?elem_of_cons, elem_of_nil in Hc; naive_solver.
  - intros t q _ [[_ [= ->]]|[[_ ?]|[_ ?]]]%shape_cases; [cbn; lia|done|done].
  - intros t f fd _ [[_ ?]|[[_ [= ->]]|[_ [= ->]]]]%shape_cases Hfd; cbn in Hfd;
    try rewrite !elem_of_cons, elem_of_nil in Hfd; naive_solver.
Qed.
Lemma names_total : total_gloc name_by_type /\ reads_locations name_by_type.
Proof.
  assert (H : forall r h n, exists l, name_by_type r h n = Returns (l, r) /\ viewable l).
  { intros r h n. unfold name_by_type. destruct (token_eqb (type_of h n) Val); (eexists; split; [done|]); vm_compute; reflexivity. }
  split.
  - intros r h n Hr. destruct (H r h n) as (l & E & Hl). by exists l, r.
  - intros r h n l r' E. destruct (H r h n) as (l' & E' & Hl). rewrite E' in E. by injection E as <- _.
Qed.
Lemma empty_store_ok : store_ok ∅.
Proof. split; [done|]. intros n. vm_compute. reflexivity. Qed.

(** The children of the root, each as the texts of its leaves *)
Definition leaves (h : heap) (n : Node) : list (list Z) := (fun c => text (location_of h c)) <$> children_of h n.
Definition generated (spec : Wellformed) (order : list Token) (seed : Z) (gb : bool) : outcome (list (list (list Z))) :=
  '(top, _, h) ← gen 20 spec order name_by_type seed 3 gb ∅ ∅; Returns (leaves h <$> children_of h top).

(** [location] looks the index of the key up under the type of the child, where there is none, and so
    takes the first child of the symbol: a name that should repeat a bound name repeats the value. *)
Lemma key_of_the_child : generated spec order 14 true
  = Returns [[bytes "val"; bytes "name"]; [bytes "val"; bytes "val"]].
Proof. vm_compute. reflexivity. Qed.

(** A shape that includes has no field of that name: [populate_binding_keys] throws, and so does [gen]
    with bound names. *)
Definition with_include : Wellformed := mkWellformed
  (<[Token.Top := ShapeSequence (mkSequence (mkChoice [Use]) 1 3 true true)]>
  (<[Use := ShapeFields (mkFields [mkField Name (mkChoice [Name]) false] Include)]> ∅)).
Lemma include_throws : generated with_include [Token.Top; Use] 1 true = Throws
  /\ generated with_include [Token.Top; Use] 1 false = Returns [[bytes "name"]; [bytes "name"]].
Proof. split; vm_compute; reflexivity. Qed.

(** The seed 0 aborts. *)
Lemma seed_zero_aborts : generated spec order 0 false = Undefined.
Proof. vm_compute. reflexivity. Qed.
End Sample.

Lemma gen_correct_witness : exists top g h' fuel',
  gen (S (S (S 3)) + Sample.rank Token.Top) Sample.spec Sample.order Sample.name_by_type 7 3 false ∅ ∅ = Returns (top, g, h')
  /\ wf_check Sample.spec fuel' h' top = Returns true.
Proof.
  destruct (gen_correct Sample.spec Sample.in_use Sample.order Sample.name_by_type ∅ Sample.spec_grammar
    (proj2 Sample.names_total) Sample.empty_store_ok) as [A B].
  destruct (B Sample.rank 3%nat 7 3 Sample.spec_bounded (proj1 Sample.names_total)) as (top & g & h' & E).
  { lia. } { vm_compute. split; [discriminate|reflexivity]. }
  destruct (A _ _ _ _ _ _ _ _ E) as (t & _ & _ & _ & _ & _ & _ & C).
  exists top, g, h', (2 * length (nodes t))%nat. split; [exact E|]. apply C. lia.
Defined.
