(* ===== verification/Fuzzer.v ===== *)
(** The fuzzer ([include/trieste/fuzzer.h]): passes run on random trees of the specification before
    them, or on the trees that survived the passes before them, with counts of what happened; and
    what its answer says of the passes. *)
From S2P Require Import Prelude.
From S2P Require Import Token.
From S2P Require Import Source.
From S2P Require Import Xoroshiro.
From S2P Require Import Ast.
From S2P Require Import AstFacts.
From S2P Require Import Wellformed.
From S2P Require Import WfOps.
From S2P Require Import WfTheorems.
From S2P Require Import WfBuild.
From S2P Require Import TokenLayer.
From S2P Require Import Rewrite.
From S2P Require Import Pass.
From S2P Require Import Parse.
From S2P Require Import Passes.
From S2P Require Import Reader.
From S2P Require Import Writer.
From stdpp Require Export gmap.
From S2P Require Import Gen.
From S2P Require Import GenFacts.
Open Scope Z_scope.
#[local] Set Warnings "-register-all".

(** * Statistics *)

(** [SeedContext] *)
Record SeedContext := mkSeedContext {
  current_seed : Z;
  retry_seed : Z;
  retries : Z;
  ast_hashes : gset Z
}.

Record Survivor := mkSurvivor { survivor_ast : Node; original_seed : Z; survivor_changes : Z }.

(** [PassStats] *)
Record PassStats := mkPassStats {
  passed_count : Z;
  trivial_count : Z;
  failed_count : Z;
  error_count : Z;
  change_count : Z;
  passed_sizes : list Z;
  passed_heights : list Z;
  error_sizes : list Z;
  error_heights : list Z;
  error_msgs : gmap (list Z) Z;
  pass_survivors : list Survivor
}.
Definition no_stats : PassStats := mkPassStats 0 0 0 0 0 [] [] [] [] ∅ [].

(** The updates of [run_pass] and of the loops *)
Definition add_changes (changes : Z) (s : PassStats) : PassStats :=
  mkPassStats (passed_count s) (trivial_count s) (failed_count s) (error_count s)
    (u64 (change_count s + changes)) (passed_sizes s) (passed_heights s) (error_sizes s)
    (error_heights s) (error_msgs s) (pass_survivors s).
Definition add_error (sizes heights : list Z) (msg : option (list Z)) (s : PassStats) : PassStats :=
  mkPassStats (passed_count s) (trivial_count s) (failed_count s) (u64 (error_count s + 1))
    (change_count s) (passed_sizes s) (passed_heights s) (error_sizes s ++ sizes)
    (error_heights s ++ heights)
    (match msg with
     | None => error_msgs s
     | Some m => <[m := u64 (default 0 (error_msgs s !! m) + 1)]> (error_msgs s)
     end) (pass_survivors s).
Definition add_passed (trivial : bool) (sizes heights : list Z) (s : PassStats) : PassStats :=
  mkPassStats (u64 (passed_count s + 1))
    (if trivial then u64 (trivial_count s + 1) else trivial_count s) (failed_count s)
    (error_count s) (change_count s) (passed_sizes s ++ sizes) (passed_heights s ++ heights)
    (error_sizes s) (error_heights s) (error_msgs s) (pass_survivors s).
Definition add_failed (s : PassStats) : PassStats :=
  mkPassStats (passed_count s) (trivial_count s) (u64 (failed_count s + 1)) (error_count s)
    (change_count s) (passed_sizes s) (passed_heights s) (error_sizes s) (error_heights s)
    (error_msgs s) (pass_survivors s).
Definition add_survivor (v : Survivor) (s : PassStats) : PassStats :=
  mkPassStats (passed_count s) (trivial_count s) (failed_count s) (error_count s) (change_count s)
    (passed_sizes s) (passed_heights s) (error_sizes s) (error_heights s) (error_msgs s)
    (pass_survivors s ++ [v]).

(** [SequenceStats] *)
Record SequenceStats := mkSequenceStats {
  passes_run_ : Z;
  initial_hash_unique_ : Z;
  retries_ : Z;
  total_failed_ : Z;
  total_errors_ : Z;
  changes_per_pass_ : list Z;
  error_sizes_ : list Z;
  error_heights_ : list Z
}.
Definition new_sequence_stats (passes_run : Z) : SequenceStats :=
  mkSequenceStats passes_run 0 0 0 0 [] [] [].

(** [sum], [avg], [max] *)
Definition fuzz_sum (v : list Z) : Z := foldl (fun acc x => u64 (acc + x)) 0 v.
Definition fuzz_avg (v : list Z) : Z := match v with [] => 0 | _ => fuzz_sum v / size_of v end.
Definition fuzz_max (v : list Z) : Z := match v with [] => 0 | x :: v => foldl Z.max x v end.

Inductive RunResult := OK | FAIL | ERROR.
#[export] Instance RunResult_eq_dec : EqDecision RunResult.
Proof. solve_decision. Defined.

(** What the message for a failure shows: the pass, the seed, the tree it started from, which is
    left out when it was traced before, the tree it left, and the store they are in. *)
Record Report := mkReport {
  report_pass : string;
  report_seed : Z;
  report_start : option Node;
  report_new : Node;
  report_store : heap
}.

(** * [Fuzzer] *)

Section Fuzzer.
Context {P : Type} `{IsPass P}.

Record Fuzzer := mkFuzzer {
  passes_ : list P;
  input_wf_ : Wellformed;
  generators_ : GenNodeLocationF;
  max_depth_ : Z;
  start_seed_ : Z;
  seed_count_ : Z;
  failfast_ : bool;
  start_index_ : Z;
  end_index_ : Z;
  max_retries_ : Z;
  bound_vars_ : bool;
  token_weights_ : TokenMap;
  test_sequence_ : bool;
  size_stats_ : bool
}.

(** [Fuzzer(passes, input_wf, generators)]; [device] is what [std::random_device] gives. *)
Definition new_fuzzer (device : Z) (passes : list P) (input_wf : Wellformed) (generators : GenNodeLocationF)
    : Fuzzer :=
  mkFuzzer passes input_wf generators 10 (u32 device) 100 false 1 (size_of passes) 100 true ∅ false false.

(** [Fuzzer(reader)], with the generators of the parser; [Fuzzer(writer, generators)],
    [Fuzzer(rewriter, generators)] *)
Definition fuzz_reader {U fs} (device : Z) (r : Reader U fs P) (generators : GenNodeLocationF) : Fuzzer :=
  new_fuzzer device (reader_passes r) (wf_ (parser_ r)) generators.
Definition fuzz_writer (device : Z) (w : Writer P) (generators : GenNodeLocationF) : Fuzzer :=
  new_fuzzer device (writer_passes w) (writer_wf w) generators.
Definition fuzz_rewriter (device : Z) (r : Rewriter P) (generators : GenNodeLocationF) : Fuzzer :=
  new_fuzzer device (rewriter_passes r) (rewriter_wf r) generators.

(** [max_depth], [start_seed], [seed_count], [failfast], [start_index], [end_index],
    [max_retries], [test_sequence], [size_stats], [bound_vars], [token_weights] *)
Definition set_max_depth (f : Fuzzer) (x : Z) : Fuzzer :=
  mkFuzzer (passes_ f) (input_wf_ f) (generators_ f) x (start_seed_ f) (seed_count_ f) (failfast_ f)
    (start_index_ f) (end_index_ f) (max_retries_ f) (bound_vars_ f) (token_weights_ f) (test_sequence_ f) (size_stats_ f).
Definition set_start_seed (f : Fuzzer) (x : Z) : Fuzzer :=
  mkFuzzer (passes_ f) (input_wf_ f) (generators_ f) (max_depth_ f) (u32 x) (seed_count_ f) (failfast_ f)
    (start_index_ f) (end_index_ f) (max_retries_ f) (bound_vars_ f) (token_weights_ f) (test_sequence_ f) (size_stats_ f).
Definition set_seed_count (f : Fuzzer) (x : Z) : Fuzzer :=
  mkFuzzer (passes_ f) (input_wf_ f) (generators_ f) (max_depth_ f) (start_seed_ f) (u32 x) (failfast_ f)
    (start_index_ f) (end_index_ f) (max_retries_ f) (bound_vars_ f) (token_weights_ f) (test_sequence_ f) (size_stats_ f).
Definition set_failfast (f : Fuzzer) (x : bool) : Fuzzer :=
  mkFuzzer (passes_ f) (input_wf_ f) (generators_ f) (max_depth_ f) (start_seed_ f) (seed_count_ f) x
    (start_index_ f) (end_index_ f) (max_retries_ f) (bound_vars_ f) (token_weights_ f) (test_sequence_ f) (size_stats_ f).
Definition set_start_index (f : Fuzzer) (x : Z) : outcome Fuzzer :=
  if x =? 0 then Throws
  else Returns (mkFuzzer (passes_ f) (input_wf_ f) (generators_ f) (max_depth_ f) (start_seed_ f) (seed_count_ f) (failfast_ f)
    x (end_index_ f) (max_retries_ f) (bound_vars_ f) (token_weights_ f) (test_sequence_ f) (size_stats_ f)).
Definition set_end_index (f : Fuzzer) (x : Z) : Fuzzer :=
  mkFuzzer (passes_ f) (input_wf_ f) (generators_ f) (max_depth_ f) (start_seed_ f) (seed_count_ f) (failfast_ f)
    (start_index_ f) x (max_retries_ f) (bound_vars_ f) (token_weights_ f) (test_sequence_ f) (size_stats_ f).
Definition set_max_retries (f : Fuzzer) (x : Z) : Fuzzer :=
  mkFuzzer (passes_ f) (input_wf_ f) (generators_ f) (max_depth_ f) (start_seed_ f) (seed_count_ f) (failfast_ f)
    (start_index_ f) (end_index_ f) x (bound_vars_ f) (token_weights_ f) (test_sequence_ f) (size_stats_ f).
Definition set_test_sequence (f : Fuzzer) (x : bool) : Fuzzer :=
  mkFuzzer (passes_ f) (input_wf_ f) (generators_ f) (max_depth_ f) (start_seed_ f) (seed_count_ f) (failfast_ f)
    (start_index_ f) (end_index_ f) (max_retries_ f) (bound_vars_ f) (token_weights_ f) x (size_stats_ f).
Definition set_size_stats (f : Fuzzer) (x : bool) : Fuzzer :=
  mkFuzzer (passes_ f) (input_wf_ f) (generators_ f) (max_depth_ f) (start_seed_ f) (seed_count_ f) (failfast_ f)
    (start_index_ f) (end_index_ f) (max_retries_ f) (bound_vars_ f) (token_weights_ f) (test_sequence_ f) x.
Definition set_bound_vars (f : Fuzzer) (x : bool) : Fuzzer :=
  mkFuzzer (passes_ f) (input_wf_ f) (generators_ f) (max_depth_ f) (start_seed_ f) (seed_count_ f) (failfast_ f)
    (start_index_ f) (end_index_ f) (max_retries_ f) x (token_weights_ f) (test_sequence_ f) (size_stats_ f).
Definition set_token_weights (f : Fuzzer) (x : TokenMap) : Fuzzer :=
  mkFuzzer (passes_ f) (input_wf_ f) (generators_ f) (max_depth_ f) (start_seed_ f) (seed_count_ f) (failfast_ f)
    (start_index_ f) (end_index_ f) (max_retries_ f) (bound_vars_ f) x (test_sequence_ f) (size_stats_ f).

(** [fuel] bounds the visits of trees; [order] is the order in which the shapes of a specification
    are visited; [tracing] says whether traces are on. *)
Section Run.
Context (fuel : nat) (order : Wellformed -> list Token) (tracing : bool) (f : Fuzzer).

(** A call of [gen] with the weights *)
Definition gen_seed (wf : Wellformed) (seed : Z) (weights : TokenMap) (h : heap) : outcome (Node * heap) :=
  '(ast, _, h) ← gen fuel wf (order wf) (generators_ f) seed (max_depth_ f) (bound_vars_ f) weights h;
  Returns (ast, h).

(** The loop of [gen_fresh_ast]; [budget] is how many retries are left. *)
Fixpoint retry_loop (budget : nat) (wf : Wellformed) (context : SeedContext) (ast : Node) (hash : Z) (h : heap)
    : outcome (SeedContext * Node * Z * heap) :=
  if bool_decide (hash ∈ ast_hashes context) && (retries context <? max_retries_ f) then
    match budget with
    | O => Undefined
    | S budget =>
        let seed := retry_seed context in
        '(ast, h) ← gen_seed wf seed (token_weights_ f) h;
        hash ← node_hash fuel h ast;
        retry_loop budget wf
          (mkSeedContext seed (u64 (retry_seed context + 1)) (u64 (retries context + 1)) (ast_hashes context))
          ast hash h
    end
  else Returns (context, ast, hash, h).

(** [gen_fresh_ast]: no tree when the retries are used up *)
Definition gen_fresh_ast (wf : Wellformed) (context : SeedContext) (h : heap)
    : outcome (option Node * SeedContext * heap) :=
  '(ast, h) ← gen_seed wf (current_seed context) (token_weights_ f) h;
  hash ← node_hash fuel h ast;
  '(context, ast, hash, h) ←
    retry_loop (Z.to_nat (max_retries_ f - retries context)) wf context ast hash h;
  if bool_decide (hash ∈ ast_hashes context) then Returns (None, context, h)
  else Returns (Some ast,
         mkSeedContext (current_seed context) (retry_seed context) (retries context) ({[hash]} ∪ ast_hashes context), h).

(** The size and the height of a tree, when sizes are counted *)
Definition sizes_of (h : heap) (ast : Node) : outcome (list Z * list Z) :=
  if size_stats_ f then
    size ← tree_size fuel h ast;
    height ← tree_height fuel h ast;
    Returns ([size], [height])
  else Returns ([], []).

(** The text of the first message of an error *)
Definition error_text (h : heap) (error : Node) : outcome (option (list Z)) :=
  match List.find (fun c => token_eqb (type_of h c) ErrorMsg) (children_of h error) with
  | None => Returns None
  | Some c => Some <$> view (location_of h c)
  end.

(** [run_pass]; [c] is the contexts. *)
Definition run_pass (c : WfContexts) (ast : Node) (pass : P) (wf : Wellformed) (stats : PassStats) (h : heap)
    : outcome (Node * RunResult * PassStats * heap) :=
  '(new_ast, _, changes, h) ← run_of pass c ast h;
  let stats := add_changes changes stats in
  '(h, errors) ← get_errors fuel h new_ast [];
  match errors with
  | error :: _ =>
      '(sizes, heights) ← sizes_of h new_ast;
      msg ← error_text h error;
      Returns (new_ast, ERROR, add_error sizes heights msg stats, h)
  | [] =>
      '(h, ok) ← (if wf_nonempty wf then
                    '(h, ok) ← wf_build_st wf fuel h new_ast;
                    conforms ← wf_check wf fuel h new_ast;
                    Returns (h, conforms && ok)
                  else Returns (h, true));
      if (ok : bool) then
        '(sizes, heights) ← sizes_of h new_ast;
        Returns (new_ast, OK, add_passed (changes =? 0) sizes heights stats, h)
      else Returns (new_ast, FAIL, add_failed stats, h)
  end.

(** What both loops do with the result of a run: the message, which may need the tree it started
    from once more, and the survivor; and whether the loop stops. *)
Definition after_run (pass : P) (seed : Z) (start : heap -> outcome (Node * heap)) (changes : Z)
    (new_ast : Node) (result : RunResult) (stats : PassStats) (reports : list Report) (h : heap)
    : outcome (bool * PassStats * list Report * heap) :=
  '(reports, h) ←
    (if bool_decide (result = FAIL) then
       '(old, h) ← (if tracing then Returns (None, h)
                    else '(old, h) ← start h; Returns (Some old, h));
       Returns (reports ++ [mkReport (name_of pass) seed old new_ast h], h)
     else Returns (reports, h));
  if bool_decide (result = FAIL) && failfast_ f then Returns (true, stats, reports, h)
  else if test_sequence_ f && bool_decide (result = OK) then
    Returns (false, add_survivor (mkSurvivor new_ast seed changes) stats, reports, h)
  else Returns (false, stats, reports, h).

(** The loop of [test_pass]: a [size_t] runs from the first seed to the 32-bit sum. *)
Definition seeds : list Z := seqZ (start_seed_ f) (u32 (start_seed_ f + seed_count_ f) - start_seed_ f).

Fixpoint test_pass_loop (todo : list Z) (c : WfContexts) (pass : P) (prev : Wellformed) (context : SeedContext)
    (stats : PassStats) (reports : list Report) (h : heap)
    : outcome (PassStats * SeedContext * list Report * heap) :=
  match todo with
  | [] => Returns (stats, context, reports, h)
  | seed :: todo =>
      '(ast, context, h) ←
        gen_fresh_ast prev (mkSeedContext seed (retry_seed context) (retries context) (ast_hashes context)) h;
      match ast with
      | None => test_pass_loop todo c pass prev context stats reports h
      | Some ast =>
          let old_changes := change_count stats in
          '(new_ast, result, stats, h) ← run_pass c ast pass (wf_of pass) stats h;
          '(stop, stats, reports, h) ←
            after_run pass (current_seed context) (gen_seed prev (current_seed context) ∅)
              (u64 (change_count stats - old_changes)) new_ast result stats reports h;
          if (stop : bool) then Returns (stats, context, reports, h)
          else test_pass_loop todo c pass prev context stats reports h
      end
  end.

(** [test_pass] *)
Definition test_pass (c : WfContexts) (pass : P) (prev : Wellformed) (context : SeedContext) (reports : list Report)
    (h : heap) : outcome (PassStats * SeedContext * list Report * heap) :=
  test_pass_loop seeds c pass prev context no_stats reports h.

(** [test_pass_with_survivors] *)
Fixpoint test_survivors_loop (survivors : list Survivor) (c : WfContexts) (pass : P) (stats : PassStats)
    (reports : list Report) (h : heap) : outcome (PassStats * list Report * heap) :=
  match survivors with
  | [] => Returns (stats, reports, h)
  | survivor :: survivors =>
      '(old_ast, h) ← clone fuel h (survivor_ast survivor);
      let old_changes := change_count stats in
      '(new_ast, result, stats, h) ← run_pass c (survivor_ast survivor) pass (wf_of pass) stats h;
      '(stop, stats, reports, h) ←
        after_run pass (original_seed survivor) (fun h => Returns (old_ast, h))
          (u64 (survivor_changes survivor + change_count stats - old_changes)) new_ast result stats reports h;
      if (stop : bool) then Returns (stats, reports, h)
      else test_survivors_loop survivors c pass stats reports h
  end.
Definition test_pass_with_survivors (c : WfContexts) (pass : P) (survivors : list Survivor) (reports : list Report)
    (h : heap) : outcome (PassStats * list Report * heap) :=
  test_survivors_loop survivors c pass no_stats reports h.

(** The totals [test] adds up after a pass *)
Definition add_to_sequence (stats : PassStats) (s : SequenceStats) : SequenceStats :=
  mkSequenceStats (passes_run_ s) (initial_hash_unique_ s) (retries_ s)
    (u64 (total_failed_ s + failed_count stats)) (u64 (total_errors_ s + error_count stats))
    (changes_per_pass_ s ++ [change_count stats])
    (if size_stats_ f then error_sizes_ s ++ error_sizes stats else error_sizes_ s)
    (if size_stats_ f then error_heights_ s ++ error_heights stats else error_heights_ s).
Definition set_initial (hash_unique retries : Z) (s : SequenceStats) : SequenceStats :=
  if initial_hash_unique_ s =? 0 then
    mkSequenceStats (passes_run_ s) hash_unique retries (total_failed_ s) (total_errors_ s)
      (changes_per_pass_ s) (error_sizes_ s) (error_heights_ s)
  else s.

(** [passes_.at(i)], for an index that may have wrapped *)
Definition pass_at (i : Z) : outcome P :=
  if u64 i <? size_of (passes_ f) then vector_at (passes_ f) (Z.to_nat (u64 i)) else Throws.

(** What [test] leaves: its result, the messages, and the statistics it logs last *)
Record TestResult := mkTestResult {
  ret : Z;
  reports : list Report;
  sequence_stats : SequenceStats;
  last_survivors : list Survivor
}.

(** The end of [test] *)
Definition test_end (ret : Z) (reports : list Report) (sequence : SequenceStats) (survivors : list Survivor) (h : heap)
    : outcome (TestResult * heap) :=
  _ ← (if test_sequence_ f then
         _ ← pass_at (start_index_ f - 1); _ ← pass_at (end_index_ f - 1); Returns tt
       else Returns tt);
  Returns (mkTestResult ret reports sequence survivors, h).

(** The loop of [test]; [c] is its contexts. *)
Fixpoint test_loop (todo : list Z) (c : WfContexts) (ret : Z) (reports : list Report) (sequence : SequenceStats)
    (survivors : list Survivor) (h : heap) : outcome (TestResult * heap) :=
  match todo with
  | [] => test_end ret reports sequence survivors h
  | i :: todo =>
      pass ← pass_at (i - 1);
      prev ← (if 1 <? i then wf_of <$> pass_at (i - 2) else Returns (input_wf_ f));
      if negb (wf_nonempty prev) || negb (wf_nonempty (wf_of pass)) then
        '(survivors, reports, h) ←
          (if test_sequence_ f then
             '(stats, reports, h) ← test_pass_with_survivors c pass survivors reports h;
             Returns (pass_survivors stats, reports, h)
           else Returns (survivors, reports, h));
        test_loop todo c ret reports sequence survivors h
      else
        let c := context_push_back (context_push_back c prev) (wf_of pass) in
        let seed_context := mkSeedContext 0 (u32 (start_seed_ f + seed_count_ f)) 0 ∅ in
        if test_sequence_ f && negb (i =? start_index_ f) && bool_decide (survivors = []) then
          c ← context_pop_front c; c ← context_pop_front c;
          test_end ret reports sequence survivors h
        else
          '(stats, seed_context, reports, h) ←
            (if negb (test_sequence_ f) || (i =? start_index_ f) then test_pass c pass prev seed_context reports h
             else
               '(stats, reports, h) ← test_pass_with_survivors c pass survivors reports h;
               Returns (stats, seed_context, reports, h));
          let ret := if 0 <? failed_count stats then 1 else ret in
          if (0 <? failed_count stats) && failfast_ f then
            Returns (mkTestResult ret reports sequence survivors, h)
          else
            let '(survivors, sequence) :=
              if test_sequence_ f then (pass_survivors stats, add_to_sequence stats sequence)
              else (survivors, sequence) in
            let sequence := set_initial (Z.of_nat (size (ast_hashes seed_context))) (retries seed_context) sequence in
            c ← context_pop_front c; c ← context_pop_front c;
            test_loop todo c ret reports sequence survivors h
  end.

(** [test] *)
Definition test (c : WfContexts) (h : heap) : outcome (TestResult * heap) :=
  if end_index_ f <? start_index_ f then
    Returns (mkTestResult 1 [] (new_sequence_stats 0) [], h)
  else
    test_loop (seqZ (start_index_ f) (end_index_ f - start_index_ f + 1)) (new_context c) 0 []
      (new_sequence_stats (u64 (end_index_ f - start_index_ f + 1))) [] h.
End Run.
End Fuzzer.
Arguments Fuzzer : clear implicits.

(** * What the checks of a tree keep *)

Section Traverse.
Context {St : Type} (heap_of : St -> heap) (pre : Node -> St -> outcome (bool * St)) (Q : St -> Prop).
Context (Hpre : forall n s b s', Q s -> pre n s = Returns (b, s') -> Q s').

(** A visit keeps what its function keeps. *)
Lemma traverse_keeps fuel root s s' : Q s -> traverse heap_of pre NopPost fuel root s = Returns s' -> Q s'.
Proof.
  assert (Hloop : forall fuel path s, Q s -> traverse_loop heap_of pre NopPost fuel path s = Returns s' -> Q s').
  { clear s. intros fl. induction fl as [|fl IH]; intros [|[n i] path] s Hs; cbn [traverse_loop]; [by intros [= <-]|done|by intros [= <-]|].
    destruct (_ !! i) as [c|]; [|apply (IH _ _ Hs)].
    intros ([[] s1] & H1 & H)%outcome_bind_returns; eapply IH, H; by eapply Hpre. }
  intros Hs ([[] s1] & H1 & H)%outcome_bind_returns; [|injection H as <-; by eapply Hpre].
  eapply Hloop, H. by eapply Hpre.
Qed.
End Traverse.

(** Flags are neither locations nor tables. *)
Lemma node_at_flags {A} (p : NodeDef -> A) g n h m :
  (forall d, p (with_flags g d) = p d) -> p (node_at (alter (with_flags g) n h) m) = p (node_at h m).
Proof.
  intros Hp. unfold node_at. destruct (decide (n = m)) as [<-|Hne].
  - rewrite lookup_alter_eq. by destruct (h !! n); cbn.
  - by rewrite lookup_alter_ne.
Qed.

Lemma get_errors_keeps fuel h n l h' l' : get_errors fuel h n l = Returns (h', l') -> store_ok h -> store_ok h'.
Proof.
  intros H Hok. refine (traverse_keeps fst get_errors_pre (fun s => store_ok s.1) _ _ _ (h, l) (h', l') Hok H).
  clear. intros n [h l] b s'. cbn. unfold get_errors_pre, get_and_reset_contains_error. intros [Ht Hv] E.
  assert (Hok : store_ok (alter (with_flags reset_contains_error) n h)).
  { split.
    - intros m st. unfold symtab_of. rewrite (node_at_flags symtab_) by done. apply Ht.
    - intros m. unfold location_of. rewrite (node_at_flags location_) by done. apply Hv. }
  by destruct (contains_error _); injection E as _ <-.
Qed.

Lemma shape_build_keeps s h n b h' : store_ok h -> shape_build_st s h n = Returns (b, h') -> tables_only h h' /\ tables_ok h'.
Proof.
  intros [Ht Hv]. destruct s as [q|f]; cbn; [by intros [= _ <-]|]. unfold fields_build_st.
  destruct (token_eqb _ _); [by intros [= _ <-]|]. destruct (token_eqb _ _).
  - intros (h1 & Hi & [= _ <-])%outcome_bind_returns. apply include_spec in Hi as (H1 & H2 & _). auto.
  - intros H. apply build_loop_spec in H as [[H1 H2 _] _]; [auto|done|]. apply Forall_forall. intros c _. apply Hv.
Qed.

Lemma tables_only_store h h' : tables_only h h' -> tables_ok h' -> store_ok h -> store_ok h'.
Proof. intros H1 H2 [_ Hv]. split; [done|]. intros n. rewrite (tables_only_location _ _ H1). apply Hv. Qed.

Lemma build_st_keeps wf fuel h n h' b : wf_build_st wf fuel h n = Returns (h', b) -> store_ok h -> store_ok h'.
Proof.
  intros H Hok. refine (traverse_keeps fst (wf_build_pre wf) (fun s => store_ok s.1) _ _ _ (h, true) (h', b) Hok H).
  clear. intros n [h ok] b s'. cbn. unfold wf_build_pre. intros Hok. destruct (h !! n) as [d|]; [|by intros [= _ <-]].
  destruct (token_eqb _ _); [by intros [= _ <-]|]. destruct (clear_symbols_spec h n) as (H1 & H2 & _).
  assert (Hok1 : store_ok (clear_symbols h n)) by (eapply tables_only_store; [done|apply H2, Hok|done]).
  destruct (shapes wf !! _) as [s|]; [|by intros [= _ <-]].
  intros ([r h3] & Hs & [= _ <-])%outcome_bind_returns. destruct (shape_build_keeps _ _ _ _ _ Hok1 Hs) as [H3 H4].
  by eapply tables_only_store.
Qed.

(** * What a test says of the passes *)

Section Correct.
Context {P : Type} {IP : IsPass P}.
Context (fuel : nat) (order : Wellformed -> list Token) (tracing : bool) (f : Fuzzer P).

(** A run of a pass: the tree and its store, the seed it is from and the changes on the way to it;
    the tree the pass left, the changes, the verdict, and the store after the checks *)
Record Trial := mkTrial {
  trial_seed : Z;
  trial_base : Z;
  trial_tree : Node;
  trial_store : heap;
  trial_new : Node;
  trial_changes : Z;
  trial_verdict : RunResult;
  trial_left : heap
}.

(** The verdict on a tree: errors in it; or none, and it is what the specification asks for; or
    none, and it is not. *)
Inductive verdict (wf : Wellformed) (n : Node) (h : heap) : RunResult -> heap -> Prop :=
  | verdict_error h' error errors :
      get_errors fuel h n [] = Returns (h', error :: errors) -> verdict wf n h ERROR h'
  | verdict_unchecked h' :
      get_errors fuel h n [] = Returns (h', []) -> wf_nonempty wf = false -> verdict wf n h OK h'
  | verdict_ok h1 h' :
      get_errors fuel h n [] = Returns (h1, []) -> wf_nonempty wf = true ->
      wf_build_st wf fuel h1 n = Returns (h', true) -> wf_check wf fuel h' n = Returns true ->
      verdict wf n h OK h'
  | verdict_fail h1 h' built conforms :
      get_errors fuel h n [] = Returns (h1, []) -> wf_nonempty wf = true ->
      wf_build_st wf fuel h1 n = Returns (h', built) -> wf_check wf fuel h' n = Returns conforms ->
      conforms && built = false -> verdict wf n h FAIL h'.

(** The trial is a run of the pass with the contexts [c]. *)
Definition trial_of (c : WfContexts) (pass : P) (t : Trial) : Prop := exists count h,
  run_of pass c (trial_tree t) (trial_store t) = Returns (trial_new t, count, trial_changes t, h)
  /\ verdict (wf_of pass) (trial_new t) h (trial_verdict t) (trial_left t).

Definition with_verdict (v : RunResult) (ts : list Trial) : list Trial := filter (fun t => trial_verdict t = v) ts.
Definition survivor_of (t : Trial) : Survivor :=
  mkSurvivor (trial_new t) (trial_seed t) (u64 (trial_base t + trial_changes t)).

(** The statistics count the trials. *)
Record tally (ts : list Trial) (s : PassStats) : Prop := {
  tally_passed : passed_count s = u64 (size_of (with_verdict OK ts));
  tally_failed : failed_count s = u64 (size_of (with_verdict FAIL ts));
  tally_errors : error_count s = u64 (size_of (with_verdict ERROR ts));
  tally_changes : change_count s = u64 (foldr (fun t n => trial_changes t + n) 0 ts);
  tally_survivors : pass_survivors s = if test_sequence_ f then survivor_of <$> with_verdict OK ts else []
}.

(** The messages are those of the failures. *)
Definition report_of (pass : P) (t : Trial) (r : Report) : Prop :=
  report_pass r = name_of pass /\ report_seed r = trial_seed t /\ report_new r = trial_new t
  /\ (report_start r = None <-> tracing = true).

Lemma with_verdict_snoc v ts t :
  with_verdict v (ts ++ [t]) = with_verdict v ts ++ (if decide (trial_verdict t = v) then [t] else []).
Proof.
  unfold with_verdict. rewrite filter_app. reflexivity.
Qed.

Lemma u64_add_l x y : u64 (u64 x + y) = u64 (x + y).
Proof. unfold u64. by rewrite Zplus_mod_idemp_l. Qed.
Lemma u64_add_r x y : u64 (x + u64 y) = u64 (x + y).
Proof. unfold u64. by rewrite Zplus_mod_idemp_r. Qed.
Lemma size_snoc {A} (l : list A) x : size_of (l ++ [x]) = size_of l + 1.
Proof. unfold size_of. rewrite length_app. cbn. lia. Qed.
Lemma sum_snoc ts t : foldr (fun t n => trial_changes t + n) 0 (ts ++ [t])
  = foldr (fun t n => trial_changes t + n) 0 ts + trial_changes t.
Proof. induction ts as [|x ts IH]; cbn; [lia|]. rewrite IH. lia. Qed.

(** [run_pass] is a trial, and counts it. *)
Lemma run_pass_trial c ast pass s h n r s' h' seed base :
  run_pass fuel f c ast pass (wf_of pass) s h = Returns (n, r, s', h') ->
  exists changes, trial_of c pass (mkTrial seed base ast h n changes r h')
    /\ passed_count s' = (if decide (r = OK) then u64 (passed_count s + 1) else passed_count s)
    /\ failed_count s' = (if decide (r = FAIL) then u64 (failed_count s + 1) else failed_count s)
    /\ error_count s' = (if decide (r = ERROR) then u64 (error_count s + 1) else error_count s)
    /\ change_count s' = u64 (change_count s + changes) /\ pass_survivors s' = pass_survivors s.
Proof.
  unfold run_pass. intros ([[[n1 count] changes] h1] & Hrun & H)%outcome_bind_returns.
  apply outcome_bind_returns in H as ([h2 errors] & He & H). exists changes. unfold trial_of. cbn [trial_tree trial_store trial_new trial_changes trial_verdict trial_left].
  destruct errors as [|e errors].
  - apply outcome_bind_returns in H as ([h3 ok] & Hw & H). destruct ok.
    + apply outcome_bind_returns in H as ([sizes heights] & _ & [= <- <- <- <-]). split; [|done].
      exists count, h1. split; [done|]. destruct (wf_nonempty (wf_of pass)) eqn:Ew.
      * apply outcome_bind_returns in Hw as ([h4 b] & Hb & (cf & Hc & [= <- Hb2])%outcome_bind_returns).
        apply andb_prop in Hb2 as [-> ->]. by eapply verdict_ok.
      * injection Hw as <-. by apply verdict_unchecked.
    + injection H as <- <- <- <-. split; [|done]. exists count, h1. split; [done|].
      destruct (wf_nonempty (wf_of pass)) eqn:Ew; [|done].
      apply outcome_bind_returns in Hw as ([h4 b] & Hb & (cf & Hc & [= <- Hb2])%outcome_bind_returns). by eapply verdict_fail.
  - apply outcome_bind_returns in H as ([sizes heights] & _ & (msg & _ & [= <- <- <- <-])%outcome_bind_returns).
    split; [|done]. exists count, h1. split; [done|]. by eapply verdict_error.
Qed.

Lemma tally_snoc ts t s s' changes :
  trial_changes t = changes -> tally ts s ->
  passed_count s' = (if decide (trial_verdict t = OK) then u64 (passed_count s + 1) else passed_count s) ->
  failed_count s' = (if decide (trial_verdict t = FAIL) then u64 (failed_count s + 1) else failed_count s) ->
  error_count s' = (if decide (trial_verdict t = ERROR) then u64 (error_count s + 1) else error_count s) ->
  change_count s' = u64 (change_count s + changes) ->
  pass_survivors s' = pass_survivors s ++ (if test_sequence_ f && bool_decide (trial_verdict t = OK) then [survivor_of t] else []) ->
  tally (ts ++ [t]) s'.
Proof.
  intros Hc [T1 T2 T3 T4 T5] E1 E2 E3 E4 E5. split.
  - rewrite E1, with_verdict_snoc, T1. destruct (decide (trial_verdict t = OK)); [by rewrite size_snoc, u64_add_l|by rewrite app_nil_r].
  - rewrite E2, with_verdict_snoc, T2. destruct (decide (trial_verdict t = FAIL)); [by rewrite size_snoc, u64_add_l|by rewrite app_nil_r].
  - rewrite E3, with_verdict_snoc, T3. destruct (decide (trial_verdict t = ERROR)); [by rewrite size_snoc, u64_add_l|by rewrite app_nil_r].
  - by rewrite E4, T4, sum_snoc, Hc, u64_add_l.
  - rewrite E5, T5, with_verdict_snoc. destruct (test_sequence_ f); [|done]. rewrite fmap_app. cbn [andb].
    destruct (decide (trial_verdict t = OK)) as [E|E]; [rewrite (bool_decide_eq_true_2 _ E)|rewrite (bool_decide_eq_false_2 _ E)]; done.
Qed.

(** A run and what the loops do with it *)
Lemma trial_step c ast pass s h n r s1 h1 seed base start changes' rs stop s2 rs2 h2 :
  run_pass fuel f c ast pass (wf_of pass) s h = Returns (n, r, s1, h1) ->
  after_run tracing f pass seed start changes' n r s1 rs h1 = Returns (stop, s2, rs2, h2) ->
  changes' = u64 (base + (change_count s1 - change_count s)) ->
  exists changes, let t := mkTrial seed base ast h n changes r h1 in
    trial_of c pass t /\ (forall ts, tally ts s -> tally (ts ++ [t]) s2)
    /\ (exists new, rs2 = rs ++ new /\ Forall2 (report_of pass) (with_verdict FAIL [t]) new)
    /\ (stop = true <-> failfast_ f = true /\ r = FAIL)
    /\ (h2 = h1 \/ exists old, start h1 = Returns (old, h2)).
Proof.
  intros Hr Ha ->. destruct (run_pass_trial _ _ _ _ _ _ _ _ _ seed base Hr) as (changes & Ht & E1 & E2 & E3 & E4 & E5).
  assert (Ec : u64 (base + (change_count s1 - change_count s)) = u64 (base + changes)).
  { rewrite E4. transitivity (u64 (u64 (change_count s + changes) + (base - change_count s))); [f_equal; lia|].
    rewrite u64_add_l. f_equal. lia. }
  rewrite Ec in Ha. exists changes. cbv zeta. set (t := mkTrial _ _ _ _ _ _ _ _). split; [done|].
  unfold after_run in Ha. apply outcome_bind_returns in Ha as ([rs3 h3] & Hm & Ha).
  assert (Hs2 : h3 = h2 /\ rs3 = rs2 /\ (stop = true <-> failfast_ f = true /\ r = FAIL) /\
    s2 = if test_sequence_ f && bool_decide (r = OK) then add_survivor (survivor_of t) s1 else s1).
  { destruct (bool_decide (r = FAIL)) eqn:Ef; cbn [andb] in Ha.
    - apply bool_decide_eq_true in Ef as ->. rewrite (bool_decide_eq_false_2 (FAIL = OK)) in * by done. rewrite andb_false_r in *.
      destruct (failfast_ f); injection Ha as <- <- <- <-; split_and!; tauto || naive_solver.
    - apply bool_decide_eq_false in Ef. destruct (_ && _); injection Ha as <- <- <- <-; split_and!; naive_solver. }
  destruct Hs2 as (<- & <- & Hstop & ->). split_and!; [|clear Ha|done|].
  - intros ts Hts. eapply (tally_snoc ts t s _ changes); [done|done|..]; cbn [t trial_verdict];
      destruct (test_sequence_ f && bool_decide (r = OK)); cbn; rewrite ?E5, ?app_nil_r; done.
  - unfold with_verdict. cbn [filter list_filter]. destruct (decide (r = FAIL)) as [->|Hne].
    + rewrite bool_decide_eq_true_2 in Hm by done.
      assert (Hone : forall old h', (old = None <-> tracing = true) ->
        Forall2 (report_of pass) [t] [mkReport (name_of pass) seed old n h']) by (intros old h' Ho; by repeat constructor; apply Ho).
      destruct tracing.
      * injection Hm as <- <-. eexists. split; [done|]. by apply Hone.
      * apply outcome_bind_returns in Hm as ([old h4] & Ho & [= <- <-]).
        apply outcome_bind_returns in Ho as ([o h5] & _ & [= <- <-]). eexists. split; [done|]. by apply Hone.
    + rewrite bool_decide_eq_false_2 in Hm by done. injection Hm as <- <-. exists []. rewrite app_nil_r. split; [done|].
      rewrite decide_False by done. constructor.
  - destruct (bool_decide (r = FAIL)); [|injection Hm as <- <-; by left]. destruct tracing.
    + injection Hm as <- <-. by left.
    + apply outcome_bind_returns in Hm as ([old h4] & Ho & Hm). right.
      apply outcome_bind_returns in Ho as ([o h5] & Ho & [= <- <-]). injection Hm as <- <-. by eexists.
Qed.

(** ** Random trees *)

(** The specification is one whose random trees conform ([GenFacts.gen_sound]). *)
Definition sound (wf : Wellformed) : Prop := exists T, grammar wf T.
Definition conforming (wf : Wellformed) (h : heap) (n : Node) : Prop :=
  exists k, forall fuel', (k <= fuel')%nat -> wf_check wf fuel' h n = Returns true.

Context (Hloc : reads_locations (generators_ f)).

Lemma gen_seed_sound wf seed weights h n h' : sound wf -> store_ok h ->
  gen_seed fuel order f wf seed weights h = Returns (n, h') -> store_ok h' /\ conforming wf h' n.
Proof.
  intros [T Hw] Hok ([[top g] h1] & Hg & [= -> ->])%outcome_bind_returns.
  destruct (gen_sound wf T Hw _ _ _ _ _ _ _ _ _ _ _ Hloc Hok Hg) as (t & _ & He & _ & _ & _ & _ & Hc).
  split; [by apply (store_ext h)|]. by eexists.
Qed.

(** The tree a seed gives, in a store the generator can work with, and its hash *)
Definition seed_tree (wf : Wellformed) (seed : Z) (n : Node) (h : heap) (hash : Z) : Prop := exists h0,
  store_ok h0 /\ gen_seed fuel order f wf seed (token_weights_ f) h0 = Returns (n, h) /\ node_hash fuel h n = Returns hash.

Lemma retry_loop_spec wf : sound wf -> forall budget context n hash h context' n' hash' h',
  retry_loop fuel order f budget wf context n hash h = Returns (context', n', hash', h') ->
  seed_tree wf (current_seed context) n h hash ->
  seed_tree wf (current_seed context') n' h' hash' /\ ast_hashes context' = ast_hashes context
  /\ (hash ∉ ast_hashes context -> hash' = hash).
Proof.
  intros Hw. induction budget as [|budget IH]; intros context n hash h context' n' hash' h' Hr Ht; cbn [retry_loop] in Hr.
  - destruct (_ && _); [done|]. by injection Hr as <- <- <- <-.
  - destruct (bool_decide (hash ∈ ast_hashes context)) eqn:Eh; cbn [andb] in Hr; [|by injection Hr as <- <- <- <-].
    apply bool_decide_eq_true in Eh. destruct (_ <? _); [|by injection Hr as <- <- <- <-].
    apply outcome_bind_returns in Hr as ([n1 h1] & Hg & (x & Hx & Hr)%outcome_bind_returns).
    apply IH in Hr as (H1 & H2 & H3); [by split_and!|]. exists h. split; [|done].
    destruct Ht as (h0 & Hok & Hg0 & _). by eapply gen_seed_sound.
Qed.

(** [gen_fresh_ast]: the tree of the seed has been seen before, or the tree it returns is new; in both
    cases the hash of the tree of the seed is known then. *)
Lemma gen_fresh_ast_spec wf context h o context' h' : sound wf -> store_ok h ->
  gen_fresh_ast fuel order f wf context h = Returns (o, context', h') ->
  store_ok h' /\ (exists n1 h1 hash1, seed_tree wf (current_seed context) n1 h1 hash1 /\ hash1 ∈ ast_hashes context')
  /\ match o with
     | None => ast_hashes context' = ast_hashes context
     | Some n => exists hash, seed_tree wf (current_seed context') n h' hash /\ ~ (hash ∈ ast_hashes context)
                   /\ ast_hashes context' = {[hash]} ∪ ast_hashes context
     end.
Proof.
  intros Hw Hok ([n1 h1] & Hg & (hash1 & Hh & H)%outcome_bind_returns)%outcome_bind_returns.
  apply outcome_bind_returns in H as ([[[context2 n2] hash2] h2] & Hr & H).
  assert (H1 : seed_tree wf (current_seed context) n1 h1 hash1) by by exists h.
  apply retry_loop_spec in Hr as (H2 & E & Hsame); [|done|done].
  assert (Hok2 : store_ok h2) by (destruct H2 as (h0 & Hok0 & Hg0 & _); by eapply gen_seed_sound).
  case_bool_decide as Hin; injection H as <- <- <-; (split; [done|split]); cbn; rewrite ?E in *.
  - exists n1, h1, hash1. split; [done|]. destruct (decide (hash1 ∈ ast_hashes context)) as [|Hn]; [done|]. by rewrite Hsame in Hin.
  - done.
  - exists n1, h1, hash1. split; [done|]. destruct (decide (hash1 ∈ ast_hashes context)) as [|Hn]; [set_solver|]. rewrite Hsame by done. set_solver.
  - by exists hash2.
Qed.

(** The loop of retries ends: it never uses its budget up. *)
Lemma retry_loop_returns wf : (forall seed h, exists n h' x, gen_seed fuel order f wf seed (token_weights_ f) h = Returns (n, h')
    /\ node_hash fuel h' n = Returns x) ->
  0 <= max_retries_ f < 2 ^ 64 ->
  forall budget context n hash h, 0 <= retries context -> (Z.to_nat (max_retries_ f - retries context) <= budget)%nat ->
  exists r, retry_loop fuel order f budget wf context n hash h = Returns r.
Proof.
  intros Hg Hm. induction budget as [|budget IH]; intros context n hash h H0 Hb; cbn [retry_loop];
    (destruct (bool_decide (hash ∈ ast_hashes context)); cbn [andb]; [|by eexists]); destruct (Z.ltb_spec (retries context) (max_retries_ f));
    [lia|by eexists| |by eexists].
  destruct (Hg (retry_seed context) h) as (n1 & h1 & x & E & Ex). rewrite E. cbn [mbind outcome_bind]. rewrite Ex. cbn [mbind outcome_bind].
  apply IH; cbn [retries]; rewrite u64_id by (change 18446744073709551616 with (2 ^ 64); lia); lia.
Qed.
Lemma gen_fresh_ast_returns wf context h :
  (forall seed h, exists n h' x, gen_seed fuel order f wf seed (token_weights_ f) h = Returns (n, h') /\ node_hash fuel h' n = Returns x) ->
  0 <= max_retries_ f < 2 ^ 64 -> 0 <= retries context ->
  exists r, gen_fresh_ast fuel order f wf context h = Returns r.
Proof.
  intros Hg Hm H0. unfold gen_fresh_ast. destruct (Hg (current_seed context) h) as (n & h1 & x & E & Ex).
  rewrite E. cbn [mbind outcome_bind]. rewrite Ex. cbn [mbind outcome_bind].
  destruct (retry_loop_returns wf Hg Hm (Z.to_nat (max_retries_ f - retries context)) context n x h1 H0 ltac:(lia)) as [[[[c' n'] x'] h'] Er].
  rewrite Er. cbn [mbind outcome_bind]. case_bool_decide; by eexists.
Qed.

(** ** The loops over trees *)

Definition keeps_stores (pass : P) : Prop := forall c n h n' count changes h',
  run_of pass c n h = Returns (n', count, changes, h') -> store_ok h -> store_ok h'.

Lemma trial_keeps c pass t : keeps_stores pass -> trial_of c pass t -> store_ok (trial_store t) -> store_ok (trial_left t).
Proof.
  intros Hk (count & h & Hr & Hv) Hok. pose proof (Hk _ _ _ _ _ _ _ Hr Hok) as Hok1.
  destruct Hv as [h' e es He|h' He _|h1 h' He _ Hb _|h1 h' b cf He _ Hb _ _];
    eauto using get_errors_keeps, build_st_keeps.
Qed.

(** A trial on a random tree *)
Definition fresh_trial (prev : Wellformed) (t : Trial) : Prop :=
  trial_base t = 0 /\ conforming prev (trial_store t) (trial_tree t)
  /\ exists hash, seed_tree prev (trial_seed t) (trial_tree t) (trial_store t) hash.
Definition has_hash (t : Trial) (x : Z) : Prop := node_hash fuel (trial_store t) (trial_tree t) = Returns x.

(** Each seed's tree is, up to its hash, among the trees that were tried. *)
Definition covered (prev : Wellformed) (hashes : list Z) (seed : Z) : Prop :=
  exists n h x, seed_tree prev seed n h x /\ x ∈ hashes.

(** What a test on random trees did: the trees have different hashes, and all seeds are covered
    unless it stopped at a failure. *)
Record random_trials (prev : Wellformed) (todo : list Z) (ts : list Trial) : Prop := {
  rt_fresh : Forall (fresh_trial prev) ts;
  rt_length : (length ts <= length todo)%nat;
  rt_hashes : exists hashes, Forall2 has_hash ts hashes /\ NoDup hashes
    /\ ((exists t, t ∈ ts /\ failfast_ f = true /\ trial_verdict t = FAIL) \/ Forall (covered prev hashes) todo)
}.

(** The messages are those of the failures. *)
Definition reported (pass : P) (ts : list Trial) (rs rs' : list Report) : Prop :=
  exists new, rs' = rs ++ new /\ Forall2 (report_of pass) (with_verdict FAIL ts) new.

Lemma reported_nil pass rs : reported pass [] rs rs.
Proof. exists []. rewrite app_nil_r. split; [done|constructor]. Qed.
Lemma reported_cons pass t ts rs rs1 rs2 : reported pass [t] rs rs1 -> reported pass ts rs1 rs2 -> reported pass (t :: ts) rs rs2.
Proof.
  intros (n1 & -> & H1) (n2 & -> & H2). exists (n1 ++ n2). rewrite app_assoc. split; [done|].
  change (t :: ts) with ([t] ++ ts). unfold with_verdict in *. rewrite filter_app. by apply Forall2_app.
Qed.

(** The trials before, with the hashes the context knows *)
Definition hashed (ts0 : list Trial) (xs0 : list Z) (context : SeedContext) : Prop :=
  Forall2 has_hash ts0 xs0 /\ NoDup xs0 /\ forall x, x ∈ ast_hashes context <-> x ∈ xs0.

Lemma test_pass_loop_spec c pass prev : sound prev -> keeps_stores pass ->
  forall todo context s rs h s' context' rs' h' ts0 xs0,
  test_pass_loop fuel order tracing f todo c pass prev context s rs h = Returns (s', context', rs', h') ->
  store_ok h -> tally ts0 s -> hashed ts0 xs0 context ->
  exists ts xs, Forall (trial_of c pass) ts /\ Forall (fresh_trial prev) ts /\ (length ts <= length todo)%nat
    /\ tally (ts0 ++ ts) s' /\ hashed (ts0 ++ ts) (xs0 ++ xs) context'
    /\ ((exists t, t ∈ ts /\ failfast_ f = true /\ trial_verdict t = FAIL) \/ Forall (covered prev (xs0 ++ xs)) todo)
    /\ reported pass ts rs rs' /\ store_ok h'.
Proof.
  intros Hw Hk. induction todo as [|seed todo IH]; intros context s rs h s' context' rs' h' ts0 xs0 Hl Hok Hts Hh; cbn [test_pass_loop] in Hl.
  { injection Hl as <- <- <- <-. exists [], []. rewrite !app_nil_r. split_and!; try done; first [apply reported_nil|by right|by constructor]. }
  apply outcome_bind_returns in Hl as ([[o context1] h1] & Hf & Hl).
  apply gen_fresh_ast_spec in Hf as (Hok1 & (n1 & g1 & x1 & Hseed & Hin) & Ho); [|done|done]. cbn [current_seed ast_hashes] in *.
  destruct o as [ast|].
  2: { assert (Hh1 : hashed ts0 xs0 context1) by (destruct Hh as (F & N & E); split_and!; [done|done|by intros x; rewrite Ho]).
       destruct (IH _ _ _ _ _ _ _ _ _ _ Hl Hok1 Hts Hh1) as (ts & xs & R1 & R2 & R3 & R4 & R5 & R6 & R7 & R8).
       exists ts, xs. split_and!; try done; [cbn; lia|]. destruct R6 as [|R6]; [by left|right]. constructor; [|done].
       exists n1, g1, x1. split; [done|]. apply elem_of_app. left. by apply Hh1. }
  destruct Ho as (x & Hx & Hnew & Eh).
  apply outcome_bind_returns in Hl as ([[[n r] s1] h2] & Hr & ([[[stop s2] rs2] h3] & Ha & Hl)%outcome_bind_returns).
  destruct (trial_step c ast pass s h1 n r s1 h2 (current_seed context1) 0 _ _ _ _ _ _ _ Hr Ha eq_refl)
    as (changes & Ht & Hs2 & Hrep & Hstop & Hold).
  set (t := mkTrial (current_seed context1) 0 ast h1 n changes r h2) in *.
  assert (Hok2 : store_ok h2) by by apply (trial_keeps c pass t).
  assert (Hok3 : store_ok h3) by (destruct Hold as [->|[old E]]; [done|by eapply gen_seed_sound]).
  assert (Hfresh : fresh_trial prev t).
  { split; [done|]. split; [|by exists x]. destruct Hx as (h0 & H0 & Hg & _). exact (proj2 (gen_seed_sound _ _ _ _ _ _ Hw H0 Hg)). }
  assert (Hh1 : hashed (ts0 ++ [t]) (xs0 ++ [x]) context1).
  { destruct Hh as (F & N & E). split_and!.
    - apply Forall2_app; [done|]. constructor; [|constructor]. by destruct Hx as (h0 & _ & _ & Ex).
    - apply NoDup_app. split_and!; [done| |apply NoDup_singleton]. intros y Hy ->%list_elem_of_singleton. by apply Hnew, E.
    - intros y. rewrite Eh, elem_of_union, elem_of_singleton, E, elem_of_app, list_elem_of_singleton. tauto. }
  assert (Hcov : forall xs, covered prev (xs0 ++ [x] ++ xs) seed).
  { intros xs. exists n1, g1, x1. split; [done|]. apply Hh1 in Hin. rewrite app_assoc. apply elem_of_app. by left. }
  destruct stop.
  - injection Hl as <- <- <- <-. exists [t], [x]. split_and!; [by apply Forall_singleton|by apply Forall_singleton|cbn; lia|by apply Hs2|done| |done|done].
    left. exists t. split; [by left|by apply Hstop].
  - destruct (IH _ _ _ _ _ _ _ _ _ _ Hl Hok3 (Hs2 _ Hts) Hh1) as (ts & xs & R1 & R2 & R3 & R4 & R5 & R6 & R7 & R8).
    rewrite <-!app_assoc in *. exists (t :: ts), (x :: xs). split_and!; try done; [by constructor|by constructor|cbn; lia| |by eapply reported_cons].
    destruct R6 as [(t' & H1 & H2)|R6]; [left; exists t'; split; [by right|done]|right; constructor; [apply Hcov|done]].
Qed.

Lemma tally_nil : tally [] no_stats.
Proof. split; try done. by destruct (test_sequence_ f). Qed.

Lemma test_pass_spec c pass prev retry rs h s' context' rs' h' : sound prev -> keeps_stores pass -> store_ok h ->
  test_pass fuel order tracing f c pass prev (mkSeedContext 0 retry 0 ∅) rs h = Returns (s', context', rs', h') ->
  exists ts, Forall (trial_of c pass) ts /\ random_trials prev (seeds f) ts /\ tally ts s' /\ reported pass ts rs rs' /\ store_ok h'.
Proof.
  intros Hw Hk Hok Hl. destruct (test_pass_loop_spec c pass prev Hw Hk _ _ _ _ _ _ _ _ _ [] [] Hl Hok tally_nil)
    as (ts & xs & R1 & R2 & R3 & R4 & R5 & R6 & R7 & R8).
  { split_and!; [constructor|constructor|]. intros x. cbn. set_solver. }
  cbn [app] in *. exists ts. split_and!; try done. split; [done|done|]. exists xs. destruct R5 as (? & ? & _). by split_and!.
Qed.

(** A trial on a survivor *)
Definition trial_source (t : Trial) : Survivor := mkSurvivor (trial_tree t) (trial_seed t) (trial_base t).

Lemma test_survivors_loop_spec c pass : forall todo s rs h s' rs' h' ts0,
  test_survivors_loop fuel tracing f todo c pass s rs h = Returns (s', rs', h') -> tally ts0 s ->
  exists ts, Forall (trial_of c pass) ts /\ trial_source <$> ts `prefix_of` todo
    /\ (trial_source <$> ts = todo \/ exists t, t ∈ ts /\ failfast_ f = true /\ trial_verdict t = FAIL)
    /\ tally (ts0 ++ ts) s' /\ reported pass ts rs rs'.
Proof.
  induction todo as [|v todo IH]; intros s rs h s' rs' h' ts0 Hl Hts; cbn [test_survivors_loop] in Hl.
  { injection Hl as <- <- <-. exists []. rewrite app_nil_r. split_and!; try done; first [apply reported_nil|by left|by constructor]. }
  apply outcome_bind_returns in Hl as ([old h1] & Hc & Hl).
  apply outcome_bind_returns in Hl as ([[[n r] s1] h2] & Hr & ([[[stop s2] rs2] h3] & Ha & Hl)%outcome_bind_returns).
  destruct (trial_step c (survivor_ast v) pass s h1 n r s1 h2 (original_seed v) (survivor_changes v) _ _ _ _ _ _ _ Hr Ha)
    as (changes & Ht & Hs2 & Hrep & Hstop & _); [f_equal; lia|].
  set (t := mkTrial (original_seed v) (survivor_changes v) (survivor_ast v) h1 n changes r h2) in *.
  assert (Ev : trial_source t = v) by by destruct v.
  destruct stop.
  - injection Hl as <- <- <-. exists [t]. split_and!; [by apply Forall_singleton| | |by apply Hs2|done].
    + cbn. rewrite Ev. by eexists.
    + right. exists t. split; [by left|by apply Hstop].
  - destruct (IH _ _ _ _ _ _ _ Hl (Hs2 _ Hts)) as (ts & R1 & R2 & R3 & R4 & R5).
    rewrite <-!app_assoc in *. exists (t :: ts). split_and!; try done; [by constructor|cbn; rewrite Ev; by apply prefix_cons| |by eapply reported_cons].
    destruct R3 as [R3|(t' & H1 & H2)]; [left; cbn; by rewrite Ev, R3|right; exists t'; split; [by right|done]].
Qed.

(** ** The loop over passes *)

(** What [test] did with a pass *)
Record Entry := mkEntry { entry_index : Z; entry_pass : P; entry_prev : Wellformed; entry_trials : list Trial }.

Definition prev_of (i : Z) : outcome Wellformed :=
  if 1 <? i then wf_of <$> pass_at f (i - 2) else Returns (input_wf_ f).
(** Both specifications are there: failures count. *)
Definition counted (e : Entry) : bool := wf_nonempty (entry_prev e) && wf_nonempty (wf_of (entry_pass e)).
Definition failing (e : Entry) : bool := counted e && bool_decide (with_verdict FAIL (entry_trials e) <> []).

Definition entry_ok (c : WfContexts) (e : Entry) : Prop :=
  pass_at f (entry_index e - 1) = Returns (entry_pass e) /\ prev_of (entry_index e) = Returns (entry_prev e)
  /\ Forall (trial_of ((if counted e then [entry_prev e; wf_of (entry_pass e)] else []) :: c) (entry_pass e)) (entry_trials e).

(** The trees of an entry: random ones; or, in a sequence after its first pass, those that survived
    so far, all of them unless it stopped at a failure. *)
Definition fed_by (alive : list Survivor) (e : Entry) : Prop :=
  if counted e && (negb (test_sequence_ f) || (entry_index e =? start_index_ f)) then
    random_trials (entry_prev e) (seeds f) (entry_trials e)
  else if test_sequence_ f then
    trial_source <$> entry_trials e `prefix_of` alive
    /\ (trial_source <$> entry_trials e = alive
        \/ exists t, t ∈ entry_trials e /\ failfast_ f = true /\ trial_verdict t = FAIL)
  else entry_trials e = [].
Definition survivors_after (e : Entry) : list Survivor :=
  if test_sequence_ f then survivor_of <$> with_verdict OK (entry_trials e) else [].
Fixpoint fed (alive : list Survivor) (es : list Entry) : Prop :=
  match es with [] => True | e :: es => fed_by alive e /\ fed (survivors_after e) es end.
Definition alive_after (alive : list Survivor) (es : list Entry) : list Survivor :=
  foldl (fun _ e => survivors_after e) alive es.

(** The failures, with their passes *)
Definition failures (es : list Entry) : list (P * Trial) :=
  concat ((fun e => pair (entry_pass e) <$> with_verdict FAIL (entry_trials e)) <$> es).

(** What the answer says: the passes were tested in order, up to the end or to a reason to stop; a
    failure that counts makes the result 1, and nothing else does; the messages are those of all
    failures. *)
Record tested (c : WfContexts) (todo : list Z) (ret0 : Z) (alive : list Survivor) (rs : list Report) (es : list Entry)
    (res : TestResult) : Prop := {
  ts_entries : Forall (entry_ok c) es;
  ts_fed : fed alive es;
  ts_order : entry_index <$> es `prefix_of` todo;
  ts_all : entry_index <$> es = todo \/ (failfast_ f = true /\ existsb failing es = true)
           \/ (test_sequence_ f = true /\ alive_after alive es = []);
  ts_ret : ret res = if existsb failing es then 1 else ret0;
  ts_reports : exists new, reports res = rs ++ new /\ Forall2 (fun pt => report_of (fst pt) (snd pt)) (failures es) new
}.

Lemma tested_nil c alive ret rs seq vs todo : todo = [] \/ (test_sequence_ f = true /\ alive = []) ->
  tested c todo ret alive rs [] (mkTestResult ret rs seq vs).
Proof.
  intros Hs. split; cbn; [constructor|done|apply prefix_nil|destruct Hs as [->|[? ->]]; auto|done|].
  exists []. rewrite app_nil_r. split; [done|constructor].
Qed.

(** The answer so far and the answer after one more pass *)
Lemma tested_cons c e todo ret0 alive rs rs1 es res : entry_ok c e -> fed_by alive e ->
  reported (entry_pass e) (entry_trials e) rs rs1 ->
  tested c todo (if failing e then 1 else ret0) (survivors_after e) rs1 es res ->
  tested c (entry_index e :: todo) ret0 alive rs (e :: es) res.
Proof.
  intros He Hf (n1 & -> & Hn) [T1 T2 T3 T4 T5 (n2 & T6 & T7)]. split.
  - by constructor.
  - done.
  - by apply prefix_cons.
  - cbn [fmap list_fmap existsb alive_after foldl]. destruct T4 as [->|[[? T4]|T4]]; [by left| |by right; right].
    right. left. rewrite T4. by rewrite orb_true_r.
  - rewrite T5. cbn [existsb]. destruct (failing e), (existsb failing es); done.
  - exists (n1 ++ n2). rewrite app_assoc. split; [done|]. cbn [failures fmap list_fmap concat]. apply Forall2_app; [|done].
    by apply Forall2_fmap_l.
Qed.

Lemma pass_at_elem i p : pass_at f i = Returns p -> p ∈ passes_ f.
Proof.
  unfold pass_at, vector_at. destruct (_ <? _); [|done]. intros E. apply (list_elem_of_lookup_2 _ (Z.to_nat (u64 i))).
  destruct (passes_ f !! _); [by injection E as ->|done].
Qed.

Context (Hpasses : forall p, p ∈ passes_ f -> keeps_stores p /\ sound (wf_of p)) (Hinput : sound (input_wf_ f)).
Context (Hseeds : 0 <= start_seed_ f < 2 ^ 32).

Lemma prev_sound i wf : prev_of i = Returns wf -> sound wf.
Proof.
  unfold prev_of. destruct (1 <? i); [|by intros [= <-]].
  destruct (pass_at f (i - 2)) as [p| |] eqn:E; cbn; [|done..]. intros [= <-]. by apply Hpasses, (pass_at_elem _ _ E).
Qed.

Lemma seeds_length : Z.of_nat (length (seeds f)) < 2 ^ 32.
Proof. unfold seeds. rewrite length_seqZ. unfold u32. pose proof (Z.mod_pos_bound (start_seed_ f + seed_count_ f) (2 ^ 32) ltac:(lia)). lia. Qed.

Lemma failed_positive ts s : tally ts s -> (length ts <= length (seeds f))%nat ->
  (0 <? failed_count s) = bool_decide (with_verdict FAIL ts <> []).
Proof.
  intros [_ -> _ _ _] Hl. pose proof seeds_length as Hs. assert (Hw : (length (with_verdict FAIL ts) <= length ts)%nat) by apply length_filter.
  unfold size_of. rewrite u64_id by (change 18446744073709551616 with (2 ^ 64); lia).
  destruct (with_verdict FAIL ts) as [|x l]; [done|]. rewrite bool_decide_eq_true_2 by done. cbn [length]. apply Z.ltb_lt. lia.
Qed.

Lemma survivors_length e : (length (entry_trials e) <= length (seeds f))%nat -> (length (survivors_after e) <= length (seeds f))%nat.
Proof.
  intros Hl. unfold survivors_after. destruct (test_sequence_ f); cbn; [|lia]. rewrite length_fmap.
  pose proof (length_filter (fun t => trial_verdict t = OK) (entry_trials e)). unfold with_verdict. lia.
Qed.

(** A pass that is skipped *)
Lemma test_skipped_spec c i pass prev alive rs h alive' rs' h' :
  pass_at f (i - 1) = Returns pass -> prev_of i = Returns prev ->
  negb (wf_nonempty prev) || negb (wf_nonempty (wf_of pass)) = true ->
  (length alive <= length (seeds f))%nat ->
  (if test_sequence_ f then
     '(stats, rs, h) ← test_pass_with_survivors fuel tracing f ([] :: c) pass alive rs h;
     Returns (pass_survivors stats, rs, h)
   else Returns (alive, rs, h)) = Returns (alive', rs', h') ->
  exists ts, let e := mkEntry i pass prev ts in entry_ok c e /\ fed_by alive e /\ counted e = false /\ reported pass ts rs rs'
    /\ (test_sequence_ f = true -> alive' = survivors_after e) /\ (test_sequence_ f = false -> h' = h /\ alive' = alive)
    /\ (length ts <= length (seeds f))%nat.
Proof.
  intros Hp Hv Hskip Hlen Hl. rewrite <-negb_andb, negb_true_iff in Hskip. unfold entry_ok, fed_by, counted, survivors_after. cbn.
  destruct (test_sequence_ f) eqn:Eseq.
  - apply outcome_bind_returns in Hl as ([[s rs1] h1] & Hl & [= <- <- <-]).
    apply (test_survivors_loop_spec _ _ _ _ _ _ _ _ _ []) in Hl as (ts & R1 & R2 & R3 & [_ _ _ _ R4] & R5); [|apply tally_nil].
    exists ts. rewrite Hskip, R4, Eseq. split_and!; try done.
    apply prefix_length in R2. rewrite length_fmap in R2. lia.
  - injection Hl as <- <- <-. exists []. rewrite Hskip. split_and!; try done; [apply reported_nil|cbn; lia].
Qed.

(** A pass that is tested *)
Lemma test_counted_spec c i pass prev alive rs h s context rs' h' retry :
  pass_at f (i - 1) = Returns pass -> prev_of i = Returns prev ->
  wf_nonempty prev = true -> wf_nonempty (wf_of pass) = true ->
  (negb (test_sequence_ f) || (i =? start_index_ f) = true -> store_ok h) -> (length alive <= length (seeds f))%nat ->
  (if negb (test_sequence_ f) || (i =? start_index_ f) then
     test_pass fuel order tracing f ([prev; wf_of pass] :: c) pass prev (mkSeedContext 0 retry 0 ∅) rs h
   else
     '(s, rs, h) ← test_pass_with_survivors fuel tracing f ([prev; wf_of pass] :: c) pass alive rs h;
     Returns (s, mkSeedContext 0 retry 0 ∅, rs, h)) = Returns (s, context, rs', h') ->
  exists ts, let e := mkEntry i pass prev ts in entry_ok c e /\ fed_by alive e /\ failing e = (0 <? failed_count s)
    /\ reported pass ts rs rs' /\ (test_sequence_ f = true -> pass_survivors s = survivors_after e)
    /\ (test_sequence_ f = false -> store_ok h') /\ (length ts <= length (seeds f))%nat.
Proof.
  intros Hp Hv Hw1 Hw2 Hok Hlen Hl. unfold entry_ok, fed_by, failing, counted, survivors_after. cbn. rewrite Hw1, Hw2. cbn [andb].
  destruct (negb (test_sequence_ f) || (i =? start_index_ f)) eqn:Ei.
  - destruct (test_pass_spec _ _ _ _ _ _ _ _ _ _ (prev_sound _ _ Hv) (proj1 (Hpasses _ (pass_at_elem _ _ Hp))) (Hok eq_refl) Hl)
      as (ts & R1 & R2 & R3 & R4 & R5). exists ts. pose proof (rt_length _ _ _ R2) as Hlt. split_and!; try done.
    + symmetry. by apply failed_positive.
    + intros Eseq. rewrite (tally_survivors _ _ R3). by rewrite Eseq.
  - apply outcome_bind_returns in Hl as ([[s1 rs1] h1] & Hl & [= <- <- <- <-]).
    apply (test_survivors_loop_spec _ _ _ _ _ _ _ _ _ []) in Hl as (ts & R1 & R2 & R3 & R4 & R5); [|apply tally_nil].
    cbn [app] in R4. pose proof (prefix_length _ _ R2) as Hlt. rewrite length_fmap in Hlt.
    apply orb_false_iff in Ei as [Eseq%negb_false_iff _]. exists ts. rewrite Eseq. split_and!; try done; [|by rewrite (tally_survivors _ _ R4), Eseq|lia].
    symmetry. apply failed_positive; [done|lia].
Qed.

Lemma test_end_returns ret rs seq vs h res h' :
  test_end f ret rs seq vs h = Returns (res, h') -> res = mkTestResult ret rs seq vs.
Proof. unfold test_end. by intros (u & _ & [= <- _])%outcome_bind_returns. Qed.

Lemma test_loop_spec c : forall todo r rs seq alive h res h',
  test_loop fuel order tracing f todo ([] :: c) r rs seq alive h = Returns (res, h') ->
  start_index_ f ∉ tail todo -> (test_sequence_ f = false \/ head todo = Some (start_index_ f) -> store_ok h) ->
  (length alive <= length (seeds f))%nat ->
  exists es, tested c todo r (if test_sequence_ f then alive else []) rs es res.
Proof.
  induction todo as [|i todo IH]; intros r rs seq alive h res h' Hl Hs Hok Hlen; cbn [test_loop] in Hl.
  { apply test_end_returns in Hl as ->. exists []. apply tested_nil. by left. }
  assert (Hnext : test_sequence_ f = true -> head todo = Some (start_index_ f) -> False).
  { intros _ Hh. apply Hs. cbn. destruct todo; [done|]. injection Hh as ->. by left. }
  assert (Hs1 : start_index_ f ∉ tail todo) by (intros Hin; apply Hs; cbn; destruct todo; [done|by right]).
  apply outcome_bind_returns in Hl as (pass & Hp & (prev & Hv & Hl)%outcome_bind_returns). change (prev_of i = Returns prev) in Hv.
  destruct (negb (wf_nonempty prev) || negb (wf_nonempty (wf_of pass))) eqn:Hskip.
  - apply outcome_bind_returns in Hl as ([[alive1 rs1] h1] & Hk & Hl).
    apply (test_skipped_spec c i pass prev) in Hk as (ts & R1 & R2 & R3 & R4 & R5 & R6 & R7); [|done..].
    pose proof (survivors_length (mkEntry i pass prev ts) R7) as Hlen1.
    apply IH in Hl as (es & Hl).
    + set (e := mkEntry i pass prev ts) in *. exists (e :: es). apply (tested_cons c e todo _ _ rs rs1); [done| |done|].
      { unfold fed_by in *. rewrite R3 in *. cbn [andb] in *. destruct (test_sequence_ f); done. }
      unfold failing. rewrite R3. cbn [andb]. unfold survivors_after in *. destruct (test_sequence_ f); [|done]. by rewrite <-R5.
    + done.
    + intros [Eseq|Hh]; [rewrite (proj1 (R6 Eseq)); auto|]. destruct (test_sequence_ f) eqn:Eseq; [by destruct Hnext|]. rewrite (proj1 (R6 eq_refl)). auto.
    + destruct (test_sequence_ f) eqn:Eseq; [by rewrite R5|]. by rewrite (proj2 (R6 eq_refl)).
  - apply orb_false_iff in Hskip as [Hw1%negb_false_iff Hw2%negb_false_iff]. cbv zeta in Hl. cbn [context_push_back app] in Hl.
    destruct (test_sequence_ f && negb (i =? start_index_ f) && bool_decide (alive = [])) eqn:Hempty.
    { cbn [context_pop_front mbind outcome_bind] in Hl. apply test_end_returns in Hl as ->. exists []. apply tested_nil. right.
      apply andb_prop in Hempty as [[Eseq _]%andb_prop Ha%bool_decide_eq_true]. by rewrite Eseq. }
    apply outcome_bind_returns in Hl as ([[[s context] rs1] h1] & Hk & Hl).
    apply (test_counted_spec c i pass prev) in Hk as (ts & R1 & R2 & R3 & R4 & R5 & R6 & R7); [|done..| |done].
    2: { intros [Eseq%negb_true_iff| ->%Z.eqb_eq]%orb_prop; apply Hok; auto. }
    pose proof (survivors_length (mkEntry i pass prev ts) R7) as Hlen1. set (e := mkEntry i pass prev ts) in *.
    assert (R2' : fed_by (if test_sequence_ f then alive else []) e).
    { unfold fed_by in *. destruct (test_sequence_ f); [done|]. cbn [negb orb] in *. done. }
    destruct ((0 <? failed_count s) && failfast_ f) eqn:Hstop.
    + injection Hl as <- _. apply andb_prop in Hstop as [Hf Hff]. rewrite Hf in R3. exists [e]. split.
      * by constructor.
      * done.
      * apply prefix_cons, prefix_nil.
      * right. left. cbn. by rewrite R3.
      * cbn. by rewrite R3, Hf.
      * destruct R4 as (new & -> & Hn). exists new. split; [done|]. cbn. rewrite app_nil_r. by apply Forall2_fmap_l.
    + cbn [context_pop_front mbind outcome_bind] in Hl. destruct (if test_sequence_ f then _ else _) as [alive1 seq1] eqn:Ea in Hl.
      cbn [context_pop_front mbind outcome_bind] in Hl. apply IH in Hl as (es & Hl).
      * exists (e :: es). apply (tested_cons c e todo _ _ rs rs1); [done|done|done|]. rewrite R3.
        unfold survivors_after in *. destruct (test_sequence_ f); [|done]. injection Ea as <- _. by rewrite <-R5.
      * done.
      * intros [Eseq|Hh]; [auto|]. destruct (test_sequence_ f) eqn:Eseq; [by destruct Hnext|auto].
      * destruct (test_sequence_ f) eqn:Eseq; injection Ea as <- _; [by rewrite R5|done].
Qed.
End Correct.

(** C13: the fuzzer.  Take passes that keep stores readable, specifications the generator is sound
    for, and readable names.  What [test] answers is then the answer to a log of trials, where each
    pass in the range has an entry, up to the end, a failure to stop at or a sequence without
    survivors.  A trial is a run of the pass on a tree; its verdict is that the tree it left has
    errors, conforms, or does neither.  Without sequences, and in the first pass of one, the trees
    are random trees that conform to the specification before the pass, no two with the same hash,
    and every seed's tree is among them up to its hash; in the later passes of a sequence they are
    the trees that survived.  The result is 1 exactly when a trial fails in a pass that has both
    specifications, and each failure is reported with its pass, seed and tree.  And the search for a
    fresh tree ends when the generator returns. *)
Theorem test_correct {P} {IP : IsPass P} fuel order tracing (f : Fuzzer P) c h :
  reads_locations (generators_ f) -> (forall p, p ∈ passes_ f -> keeps_stores p /\ sound (wf_of p)) ->
  sound (input_wf_ f) -> 0 <= start_seed_ f < 2 ^ 32 -> store_ok h -> start_index_ f <= end_index_ f ->
  (forall res h', test fuel order tracing f c h = Returns (res, h') ->
     exists log, tested fuel order tracing f c (seqZ (start_index_ f) (end_index_ f - start_index_ f + 1)) 0 [] [] log res)
  /\ (forall wf context h0, 0 <= max_retries_ f < 2 ^ 64 -> 0 <= retries context ->
        (forall seed h, exists n h' x, gen_seed fuel order f wf seed (token_weights_ f) h = Returns (n, h') /\ node_hash fuel h' n = Returns x) ->
        exists r, gen_fresh_ast fuel order f wf context h0 = Returns r).
Proof.
  intros Hl Hp Hi Hs Hok Hr. split.
  - intros res h'. unfold test. rewrite (proj2 (Z.ltb_ge _ _) Hr). intros H.
    apply (test_loop_spec fuel order tracing f Hl Hp Hi Hs) in H as (log & H); [|..|done|cbn; lia].
    + exists log. by destruct (test_sequence_ f).
    + rewrite seqZ_cons by lia. cbn [tail]. rewrite elem_of_seqZ. lia.
  - intros wf context h0 Hm H0 Hg. by apply gen_fresh_ast_returns.
Qed.

(** * A small language, and passes that keep or empty its trees *)

Module Sample.
Import GenFacts.Sample.

Record Step := mkStep { step_name : string; step_wf : Wellformed; empties : bool }.
#[global] Instance step_is_pass : IsPass Step := mkIsPass Step step_name step_wf (fun p _ n h =>
  if empties p then Returns (n, 1, 1, alter (with_children (fun _ => [])) n h) else Returns (n, 1, 0, h)).

Definition keep (name : string) : Step := mkStep name spec false.
Definition clear (name : string) : Step := mkStep name spec true.
Definition unspecified (name : string) : Step := mkStep name empty_wf false.

Definition fuzzer (passes : list Step) (start_seed seed_count : Z) (sequence : bool) (weights : TokenMap) : Fuzzer Step :=
  mkFuzzer passes spec name_by_type 3 start_seed seed_count false 1 (size_of passes) 100 false weights sequence false.
Definition run_test (f : Fuzzer Step) : outcome (TestResult * heap) := test 40 (fun _ => order) false f initial_contexts ∅.
(** The result, and what was reported *)
Definition answer (f : Fuzzer Step) : outcome (Z * list (string * Z)) :=
  '(res, _) ← run_test f; Returns (ret res, (fun r => (report_pass r, report_seed r)) <$> reports res).

Lemma step_keeps p : keeps_stores p.
Proof.
  intros c n h n' count changes h' H [Ht Hv]. unfold run_of, step_is_pass in H.
  assert (Hat : forall A (q : NodeDef -> A) m, (forall d, q (with_children (fun _ => []) d) = q d) -> q (node_at (alter (with_children (fun _ => [])) n h) m) = q (node_at h m)).
  { intros A q m Hq. unfold node_at. destruct (decide (n = m)) as [<-|Hne].
    - rewrite lookup_alter_eq. by destruct (h !! n); cbn.
    - by rewrite lookup_alter_ne. }
  destruct (empties p); injection H as _ _ _ <-; [|done]. split.
  - intros m st. unfold symtab_of. rewrite (Hat _ symtab_) by done. apply Ht.
  - intros m. unfold location_of. rewrite (Hat _ location_) by done. apply Hv.
Qed.
Lemma spec_sound : sound spec.
Proof. exists in_use. apply spec_grammar. Qed.

(** A pass that empties the trees is found, with the tree of each of three seeds. *)
Lemma failure_found : answer (fuzzer [keep "keep"; clear "clear"] 1 3 false ∅)
  = Returns (1, [("clear", 1); ("clear", 2); ("clear", 3)]%string).
Proof. vm_compute. reflexivity. Qed.

(** The language has fourteen trees this small: thirty seeds find them all, with retries. *)
Lemma all_found : ('(res, _) ← run_test (fuzzer [clear "clear"] 1 30 false ∅); Returns (length (reports res))) = Returns 14%nat.
Proof. vm_compute. reflexivity. Qed.

(** The sum of the first seed and the number of seeds is of 32 bits: when it wraps, nothing is tested
    and the answer is 0. *)
Lemma seeds_wrap : answer (fuzzer [keep "keep"; clear "clear"] (2 ^ 32 - 2) 3 false ∅) = Returns (0, []).
Proof. vm_compute. reflexivity. Qed.

(** In a sequence whose first pass is skipped there are never survivors, and no pass is tested. *)
Lemma skipped_first : answer (fuzzer [unspecified "first"; keep "keep"; clear "clear"] 1 3 true ∅) = Returns (0, [])
  /\ answer (fuzzer [unspecified "first"; keep "keep"; clear "clear"] 1 3 false ∅)
     = Returns (1, [("clear", 1); ("clear", 2); ("clear", 3)]%string).
Proof. split; vm_compute; reflexivity. Qed.

(** In a sequence, a pass that is skipped for the pass before it runs on the survivors, and its
    failures are reported; the answer is 0. *)
Lemma skipped_failure : answer (fuzzer [keep "keep"; unspecified "second"; clear "clear"] 1 3 true ∅)
  = Returns (0, [("clear", 1); ("clear", 2); ("clear", 3)]%string).
Proof. vm_compute. reflexivity. Qed.

(** With weights, the tree in the message is not the tree the pass was run on. *)
Definition weights : TokenMap := {[Def := 0]}.
Lemma weights_forgotten :
  ('(n, h) ← gen_seed 40 (fun _ => order) (fuzzer [clear "clear"] 1 1 false weights) spec 1 weights ∅;
   Returns (leaves h <$> children_of h n)) = Returns [[bytes "name"]; [bytes "name"]]
  /\ ('(res, _) ← run_test (fuzzer [clear "clear"] 1 1 false weights);
      Returns ((fun r => n ← report_start r; Some (leaves (report_store r) <$> children_of (report_store r) n)) <$> reports res))
     = Returns [Some [[bytes "name"]; [bytes "val"; bytes "name"]]].
Proof. split; vm_compute; reflexivity. Qed.
End Sample.

Lemma test_correct_witness : exists res log,
  ret res = 1 /\ tested 40 (fun _ => GenFacts.Sample.order) false (Sample.fuzzer [Sample.keep "keep"; Sample.clear "clear"] 1 3 false ∅)
    initial_contexts [1; 2] 0 [] [] log res.
Proof.
  destruct (Sample.run_test (Sample.fuzzer [Sample.keep "keep"; Sample.clear "clear"] 1 3 false ∅)) as [[res h']| |] eqn:E.
  - destruct (test_correct 40 (fun _ => GenFacts.Sample.order) false (Sample.fuzzer [Sample.keep "keep"; Sample.clear "clear"] 1 3 false ∅)
      initial_contexts ∅ (proj2 GenFacts.Sample.names_total)) as [Ht _].
    + intros p Hp. split; [apply Sample.step_keeps|]. apply list_elem_of_In in Hp. destruct Hp as [<-|[<-|[]]]; apply Sample.spec_sound.
    + apply Sample.spec_sound.
    + cbn. lia.
    + apply GenFacts.Sample.empty_store_ok.
    + by vm_compute.
    + destruct (Ht res h' E) as [log Hlog]. exists res, log. split; [|exact Hlog].
      pose proof Sample.failure_found as Hf. unfold Sample.answer in Hf. rewrite E in Hf. by injection Hf.
  - pose proof Sample.failure_found as Hf. unfold Sample.answer in Hf. by rewrite E in Hf.
  - pose proof Sample.failure_found as Hf. unfold Sample.answer in Hf. by rewrite E in Hf.
Defined.
