(* ===== verification/Checker.v ===== *)
(** The pattern checker ([include/trieste/checker.h]) and the reified patterns it reads
    ([reify] in rewrite.h, the tokens in token.h and [pattern_wf] in wf.h): patterns as trees, how
    many nodes a pattern matches, whether an earlier pattern matches wherever a later one does, the
    two passes of rules that find mistakes, and [check]. *)
From S2P Require Import Prelude.
From S2P Require Import Token.
From S2P Require Import Source.
From S2P Require Import Ast.
From S2P Require Import Wellformed.
From S2P Require Import WfOps.
From S2P Require Import Parse.
From S2P Require Import FastPattern.
From S2P Require Import TRegex.
From S2P Require Import Rewrite.
From S2P Require Import Pass.
From S2P Require Import Dump.
From S2P Require Import JsonReader.
From S2P Require Import Passes.
From S2P Require Import Reader.
From S2P Require Import Writer.
From stdpp Require Export gmap.
#[local] Set Warnings "-register-all".
Open Scope Z_scope.

(** * The tokens of reified patterns *)

Module reified.
Definition Token : Token.Token := builtin 13 "pattern::token" flag_print.
Definition Regex : Token.Token := builtin 14 "pattern::regex" flag_print.
Definition Any : Token.Token := builtin 15 "pattern::anything" 0.
Definition TokenMatch : Token.Token := builtin 16 "pattern::tokenmatch" 0.
Definition RegexMatch : Token.Token := builtin 17 "pattern::regexmatch" 0.
Definition Cap : Token.Token := builtin 18 "pattern::cap" 0.
Definition Opt : Token.Token := builtin 19 "pattern::opt" 0.
Definition Rep : Token.Token := builtin 20 "pattern::rep" 0.
Definition Not : Token.Token := builtin 21 "pattern::not" 0.
Definition Choice : Token.Token := builtin 22 "pattern::choice" 0.
Definition Children : Token.Token := builtin 23 "pattern::children" 0.
Definition First : Token.Token := builtin 24 "pattern::first" 0.
Definition Last : Token.Token := builtin 25 "pattern::last" 0.
Definition Inside : Token.Token := builtin 26 "pattern::inside" 0.
Definition InsideStar : Token.Token := builtin 27 "pattern::insidestar" 0.
Definition Pred : Token.Token := builtin 28 "pattern::pred" 0.
Definition NegPred : Token.Token := builtin 29 "pattern::negpred" 0.
Definition Action : Token.Token := builtin 30 "pattern::action" 0.

(** [pattern], a choice *)
Definition pattern : Wellformed.Choice := mkChoice
  [Cap; Any; TokenMatch; RegexMatch; Opt; Rep; Not; Choice; InsideStar; Inside; First; Last; Children; Pred;
   NegPred; Action].

(** [pattern_wf]: the shapes after [Top <<= Group], in order *)
Definition pattern_wf_shapes : outcome Wellformed :=
  top ← shape_token Token.Top Group;
  cap ← token_times_token Group Token;
  token_match ← sequence_bound (token_plus Token) 1;
  regex_match ← token_times_token Token Regex;
  opt ← shape_token Opt Group;
  rep ← shape_token Rep Group;
  not ← shape_token Not Group;
  choice ← field_times_field (named_token First Group) (named_token Last Group);
  inside_star ← sequence_bound (token_plus Token) 1;
  inside ← sequence_bound (token_plus Token) 1;
  children ← token_times_field Group (named_token Children Group);
  pred ← shape_token Pred Group;
  neg_pred ← shape_token NegPred Group;
  action ← shape_token Action Group;
  group ← sequence_bound (choice_plus pattern) 1;
  Returns (foldl wf_moved_or_shape (shape_or_shape top (shape_fields Cap cap))
    [shape_sequence TokenMatch token_match; shape_fields RegexMatch regex_match; opt; rep; not;
     shape_fields Choice choice; shape_sequence InsideStar inside_star; shape_sequence Inside inside;
     shape_fields Children children; pred; neg_pred; action; shape_sequence Group group]).
(** The static object; its initialiser does not throw ([pattern_wf_defined]). *)
Definition pattern_wf : Wellformed := match pattern_wf_shapes with Returns wf => wf | _ => empty_wf end.
End reified.

(** * [reify] *)

(** [id] is the address of the sources that names are copied to. *)
Section Reify.
Context (id : positive).

(** [NodeDef::create(type, Location(text))] *)
Definition text_node (h : heap) (type : Token) (text : list Z) : Node * heap := create h type (location_of_string id text).
Definition push_tokens (h : heap) (parent : Node) (types : list Token) : heap :=
  foldl (fun h t => let '(n, h) := text_node h reified.Token (bytes (name t)) in push_back h parent (Some n)) h types.

(** A node with the group of one pattern, or of two, inside *)
Definition with_group (type : Token) (inner : Node -> heap -> heap) (h : heap) : Node * heap :=
  let '(n, h) := create_token h type in
  let '(g, h) := create_token h Group in
  (n, push_back (inner g h) n (Some g)).
Definition with_two_groups (type : Token) (inner1 inner2 : Node -> heap -> heap) (h : heap) : Node * heap :=
  let '(n, h) := create_token h type in
  let '(g1, h) := create_token h Group in
  let '(g2, h) := create_token h Group in
  (n, push_back (push_back (inner2 g2 (inner1 g1 h)) n (Some g1)) n (Some g2)).
Definition with_tokens (type : Token) (types : list Token) (h : heap) : Node * heap :=
  let '(n, h) := create_token h type in (n, push_tokens h n types).

(** The nodes [reify] makes for each class, from those of the patterns inside *)
Definition reify_cap (name : Token) (inner : Node -> heap -> heap) (h : heap) : Node * heap :=
  let '(cap, h) := with_group reified.Cap inner h in (cap, push_tokens h cap [name]).
Definition reify_anything (h : heap) : Node * heap := create_token h reified.Any.
Definition reify_token_match (types : list Token) (h : heap) : Node * heap := with_tokens reified.TokenMatch types h.
Definition reify_regex_match (type : Token) (regex : TRegex) (h : heap) : Node * heap :=
  let '(n, h) := with_tokens reified.RegexMatch [type] h in
  let '(r, h) := text_node h reified.Regex (pattern_ regex) in
  (n, push_back h n (Some r)).
Definition reify_opt (inner : Node -> heap -> heap) (h : heap) : Node * heap := with_group reified.Opt inner h.
Definition reify_rep (inner : Node -> heap -> heap) (h : heap) : Node * heap := with_group reified.Rep inner h.
Definition reify_not (inner : Node -> heap -> heap) (h : heap) : Node * heap := with_group reified.Not inner h.
Definition reify_choice (first last : Node -> heap -> heap) (h : heap) : Node * heap :=
  with_two_groups reified.Choice first last h.
Definition reify_inside_star (types : list Token) (h : heap) : Node * heap := with_tokens reified.InsideStar types h.
Definition reify_inside (types : list Token) (h : heap) : Node * heap := with_tokens reified.Inside types h.
Definition reify_first (h : heap) : Node * heap := create_token h reified.First.
Definition reify_last (h : heap) : Node * heap := create_token h reified.Last.
Definition reify_children (inner children : Node -> heap -> heap) (h : heap) : Node * heap :=
  let '(n, h) := with_group reified.Children inner h in
  let '(g, h) := create_token h Group in
  (n, push_back (children g h) n (Some g)).
Definition reify_pred (inner : Node -> heap -> heap) (h : heap) : Node * heap := with_group reified.Pred inner h.
Definition reify_neg_pred (inner : Node -> heap -> heap) (h : heap) : Node * heap := with_group reified.NegPred inner h.
Definition reify_action (inner : Node -> heap -> heap) (h : heap) : Node * heap := with_group reified.Action inner h.

(** [reify]: the node of the class is pushed on the parent, then the continuation's. *)
Fixpoint reify (p : PatternDef) (parent : Node) (h : heap) : heap :=
  let '(Pat k c) := p in
  let '(n, h) :=
    match k with
    | Cap name q => reify_cap name (reify q) h
    | Anything => reify_anything h
    | TokenMatch types => reify_token_match types h
    | RegexMatch type regex => reify_regex_match type regex h
    | Opt q => reify_opt (reify q) h
    | Rep q => reify_rep (reify q) h
    | Not q => reify_not (reify q) h
    | Choice _ q r => reify_choice (reify q) (reify r) h
    | InsideStar types => reify_inside_star types h
    | Inside types => reify_inside types h
    | First => reify_first h
    | Last => reify_last h
    | Children q r => reify_children (reify q) (reify r) h
    | Pred q => reify_pred (reify q) h
    | NegPred q => reify_neg_pred (reify q) h
    | Action _ q => reify_action (reify q) h
    end in
  let h := push_back h parent (Some n) in
  match c with None => h | Some c => reify c parent h end.

(** [Pattern::reify] *)
Definition reify_pattern (p : Pattern) (h : heap) : Node * heap :=
  let '(top, h) := create_token h Token.Top in
  let '(group, h) := create_token h Group in
  let h := push_back h top (Some group) in
  (top, reify (pattern p) group h).

(** [PassDef::reify_patterns] *)
Fixpoint reify_rules (rules : list Rule) (h : heap) : list Node * heap :=
  match rules with
  | [] => ([], h)
  | r :: rules =>
      let '(n, h) := reify_pattern (rule_pattern r) h in
      let '(ns, h) := reify_rules rules h in (n :: ns, h)
  end.
Definition reify_patterns (p : PassDef) (h : heap) : list Node * heap := reify_rules (rules_ p) h.
End Reify.

(** * Reading reified patterns *)

(** [pattern / field]: [pattern_wf] is the first specification in scope wherever patterns are read. *)
Definition pattern_field (h : heap) (n : Node) (field : Token) : outcome Node :=
  lookup_node <$> node_slash [[reified.pattern_wf]] h n field.

(** [node->location().view()] *)
Definition node_view (h : heap) (n : Node) : outcome (list Z) := view (location_of h n).

(** The loop of [comma_separate_tokens] *)
Fixpoint comma_tokens (first : bool) (h : heap) (nodes : list Node) : outcome (list Z) :=
  match nodes with
  | [] => Returns []
  | n :: nodes =>
      v ← node_view h n;
      rest ← comma_tokens false h nodes;
      Returns ((if first then [] else bytes ", ") ++ v ++ rest)
  end.
Definition comma_separate_tokens (h : heap) (pattern : Node) : outcome (list Z) := comma_tokens true h (children_of h pattern).

(** [pattern_to_string] *)
Fixpoint pattern_to_string (fuel : nat) (h : heap) (pattern : Node) : outcome (list Z) :=
  match fuel with
  | O => Undefined
  | S fuel =>
      pattern ← (if token_eqb (type_of h pattern) Token.Top then pattern_field h pattern Group else Returns pattern);
      let typed (t : Token) := token_eqb (type_of h pattern) t in
      let group (before after : list Z) :=
        g ← pattern_field h pattern Group; s ← pattern_to_string fuel h g; Returns (before ++ s ++ after) in
      if typed reified.First then Returns (bytes "Start")
      else if typed reified.Last then Returns (bytes "End")
      else if typed reified.Any then Returns (bytes "Any")
      else if typed reified.TokenMatch then
        s ← comma_separate_tokens h pattern; Returns (bytes "T(" ++ s ++ bytes ")")
      else if typed reified.RegexMatch then
        token_node ← pattern_field h pattern reified.Token;
        regex_node ← pattern_field h pattern reified.Regex;
        regex ← node_view h regex_node;
        loc ← node_view h token_node;
        Returns (bytes "T(" ++ loc ++ bytes ", " ++ [34] ++ regex ++ [34] ++ bytes ")")
      else if typed reified.Cap then
        token_node ← pattern_field h pattern reified.Token;
        name ← node_view h token_node;
        group (bytes "(") (bytes ")[" ++ name ++ bytes "]")
      else if typed reified.Opt then group (bytes "~(") (bytes ")")
      else if typed reified.Rep then group (bytes "(") (bytes ")++")
      else if typed reified.Not then group (bytes "!(") (bytes ")")
      else if typed reified.Choice then
        l ← pattern_field h pattern reified.First; l ← pattern_to_string fuel h l;
        r ← pattern_field h pattern reified.Last; r ← pattern_to_string fuel h r;
        Returns (bytes "(" ++ l ++ bytes ") / (" ++ r ++ bytes ")")
      else if typed reified.InsideStar then
        s ← comma_separate_tokens h pattern; Returns (bytes "In(" ++ s ++ bytes ")++")
      else if typed reified.Inside then
        s ← comma_separate_tokens h pattern; Returns (bytes "In(" ++ s ++ bytes ")")
      else if typed reified.Children then
        l ← pattern_field h pattern Group; l ← pattern_to_string fuel h l;
        r ← pattern_field h pattern reified.Children; r ← pattern_to_string fuel h r;
        Returns (bytes "(" ++ l ++ bytes ") << (" ++ r ++ bytes ")")
      else if typed reified.Pred then group (bytes "++(") (bytes ")")
      else if typed reified.NegPred then group (bytes "--(") (bytes ")")
      else if typed reified.Action then group (bytes "((") (bytes ")(<unknown lambda>))")
      else
        foldr (fun child (rest : bool -> outcome (list Z)) (first : bool) =>
            s ← pattern_to_string fuel h child; r ← rest false;
            Returns ((if first then [] else bytes " * ") ++ s ++ r))
          (fun _ => Returns []) (children_of h pattern) true
  end.

(** ** How many nodes a pattern matches *)

Inductive Multiplicity := Zero | One | Unknown.
#[export] Instance Multiplicity_eq_dec : EqDecision Multiplicity.
Proof. solve_decision. Defined.

(** The sum of the multiplicities of a group, one child at a time *)
Definition add_multiplicity (sum child_mult : Multiplicity) : Multiplicity :=
  match sum, child_mult with
  | Zero, m => m
  | m, Zero => m
  | _, _ => Unknown
  end.

(** [multiplicity] *)
Fixpoint multiplicity (fuel : nat) (h : heap) (pattern : Node) : outcome Multiplicity :=
  match fuel with
  | O => Undefined
  | S fuel =>
      let type := type_of h pattern in
      if token_in [reified.First; reified.Last; reified.Inside; reified.InsideStar; reified.Pred; reified.NegPred] type
      then Returns Zero
      else if token_in [reified.Any; reified.RegexMatch; reified.TokenMatch; reified.Not] type then Returns One
      else if token_in [reified.Opt; reified.Rep] type then Returns Unknown
      else if token_in [reified.Children; reified.Cap; reified.Action] type then
        g ← pattern_field h pattern Group; multiplicity fuel h g
      else if token_eqb type reified.Choice then
        l ← pattern_field h pattern reified.First; left ← multiplicity fuel h l;
        r ← pattern_field h pattern reified.Last; right ← multiplicity fuel h r;
        Returns (if decide (left = right) then left else Unknown)
      else if token_eqb type Group then
        foldl (fun sum child => sum ← sum; m ← multiplicity fuel h child; Returns (add_multiplicity sum m))
          (Returns Zero) (children_of h pattern)
      else Returns Unknown
  end.

(** ** Tokens *)

Section Tokens.
Context (tokens : Registry).

(** [detail::find_token(token_node->location().view())] *)
Definition token_of_node (h : heap) (n : Node) : outcome Token :=
  v ← node_view h n; Returns (find_token Invalid tokens (BuildAst.text_name v)).
Fixpoint tokens_of_nodes (h : heap) (nodes : list Node) : outcome (list Token) :=
  match nodes with
  | [] => Returns []
  | n :: nodes => t ← token_of_node h n; ts ← tokens_of_nodes h nodes; Returns (t :: ts)
  end.

(** The loop of [only_tokens] over a group *)
Fixpoint group_tokens (mult : Node -> outcome Multiplicity) (only : Node -> outcome (list Token))
    (nodes : list Node) (found : list Token) : outcome (list Token) :=
  match nodes with
  | [] => Returns found
  | child :: nodes =>
      m ← mult child;
      if decide (m = Zero) then group_tokens mult only nodes found
      else
        (* The second call of [multiplicity] gives the same answer. *)
        if bool_decide (m = One) && bool_decide (found = []) then
          found ← only child; group_tokens mult only nodes found
        else Returns []
  end.

(** [only_tokens] *)
Fixpoint only_tokens (fuel : nat) (h : heap) (pattern : Node) : outcome (list Token) :=
  match fuel with
  | O => Undefined
  | S fuel =>
      pattern ← (if token_in [reified.Cap; reified.Children] (type_of h pattern) then pattern_field h pattern Group
                 else Returns pattern);
      let type := type_of h pattern in
      if token_eqb type reified.TokenMatch then tokens_of_nodes h (children_of h pattern)
      else if token_eqb type reified.RegexMatch then
        n ← pattern_field h pattern reified.Token; t ← token_of_node h n; Returns [t]
      else if token_eqb type Group then
        group_tokens (multiplicity fuel h) (only_tokens fuel h) (children_of h pattern) []
      else Returns []
  end.

(** [tokens_are_subset]: [std::includes] on the sorted tokens without duplicates, whatever their
    order; and with the tokens of a node, or of two *)
Definition tokens_are_subset (subset superset : list Token) : bool := forallb (token_in superset) subset.
Definition token_matching (h : heap) (n : Node) : bool :=
  token_in [reified.Inside; reified.InsideStar; reified.TokenMatch] (type_of h n).
Definition tokens_subset_of_node (h : heap) (subset : list Token) (superset : Node) : outcome bool :=
  if negb (token_matching h superset) then Throws
  else ts ← tokens_of_nodes h (children_of h superset); Returns (tokens_are_subset subset ts).
Definition nodes_subset (h : heap) (subset superset : Node) : outcome bool :=
  if negb (token_matching h subset) || negb (token_matching h superset) then Throws
  else
    ts ← tokens_of_nodes h (children_of h subset); us ← tokens_of_nodes h (children_of h superset);
    Returns (tokens_are_subset ts us).

(** ** [StackedIterator] *)

(** The back of the stack is the head of the list. *)
Definition StackedIterator : Type := list (Node * nat).
Definition stacked (root : Node) : StackedIterator := [(root, O)].
Definition stacked_push (node : Node) (it : StackedIterator) : StackedIterator := (node, O) :: it.
Definition stacked_deref (h : heap) (it : StackedIterator) : outcome Node :=
  match it with [] => Undefined | (n, i) :: _ => or_undefined (children_of h n !! i) end.
(** [operator++]: the back of an empty stack is undefined. *)
Fixpoint stacked_next (h : heap) (it : StackedIterator) : outcome StackedIterator :=
  match it with
  | [] => Undefined
  | (n, i) :: rest =>
      let i := S i in
      if (i =? length (children_of h n))%nat then
        match rest with [] => Returns [] | _ => stacked_next h rest end
      else Returns ((n, i) :: rest)
  end.

(** The loop below an [Any]: [continue] goes on with it, also at the end of the pattern. *)
Fixpoint skip_zero (fuel : nat) (h : heap) (pattern_it : StackedIterator) (pattern_node : Node)
    : outcome (StackedIterator * Node) :=
  match fuel with
  | O => Undefined
  | S fuel =>
      m ← multiplicity fuel h pattern_node;
      if decide (m = Zero) then
        pattern_it ← stacked_next h pattern_it;
        match pattern_it with
        | [] => skip_zero fuel h pattern_it pattern_node
        | _ => pattern_node ← stacked_deref h pattern_it; skip_zero fuel h pattern_it pattern_node
        end
      else Returns (pattern_it, pattern_node)
  end.

(** The loop of [includes_prefix] *)
Fixpoint includes_loop (fuel : nat) (h : heap) (prefix_it pattern_it : StackedIterator) : outcome bool :=
  match fuel with
  | O => Undefined
  | S fuel =>
      match prefix_it, pattern_it with
      | [], _ => Returns true
      | _, [] => Returns false
      | _, _ =>
          prefix_node ← stacked_deref h prefix_it;
          pattern_node ← stacked_deref h pattern_it;
          let prefix_type := type_of h prefix_node in
          let pattern_type := type_of h pattern_node in
          let typed (t : Token) := token_eqb prefix_type t in
          let includes (prefix pattern : Node) :=
            if negb (token_eqb (type_of h prefix) Group) || negb (token_eqb (type_of h pattern) Group) then Returns false
            else includes_loop fuel h (stacked prefix) (stacked pattern) in
          let includes_field (field : Token) :=
            g1 ← pattern_field h prefix_node field; g2 ← pattern_field h pattern_node field; includes g1 g2 in
          let equivalent :=
            g1 ← pattern_field h prefix_node Group; g2 ← pattern_field h pattern_node Group;
            b ← includes g1 g2; if negb b then Returns false else includes g2 g1 in
          let advance :=
            prefix_it ← stacked_next h prefix_it; pattern_it ← stacked_next h pattern_it;
            includes_loop fuel h prefix_it pattern_it in
          let advance_if (b : bool) := if b then advance else Returns false in
          if typed reified.Cap then
            g ← pattern_field h prefix_node Group; includes_loop fuel h (stacked_push g prefix_it) pattern_it
          else if token_eqb pattern_type reified.Cap then
            g ← pattern_field h pattern_node Group; includes_loop fuel h prefix_it (stacked_push g pattern_it)
          else if typed reified.Inside || typed reified.InsideStar then
            if negb (token_eqb pattern_type prefix_type) then Returns false
            else b ← nodes_subset h pattern_node prefix_node; advance_if b
          else if typed reified.First || typed reified.Last then
            (* [!=] on two nodes compares the pointers. *)
            advance_if (bool_decide (pattern_node = prefix_node))
          else if token_in [reified.Inside; reified.InsideStar; reified.First; reified.Last] pattern_type then
            pattern_it ← stacked_next h pattern_it; includes_loop fuel h prefix_it pattern_it
          else if typed reified.TokenMatch then
            ts ← only_tokens fuel h pattern_node;
            match ts with
            | [] => Returns false
            | _ => b ← tokens_subset_of_node h ts prefix_node; advance_if b
            end
          else if typed reified.Children then
            if negb (token_eqb pattern_type reified.Children) then Returns false
            else
              b ← includes_field Group;
              if negb b then Returns false else b ← includes_field reified.Children; advance_if b
          else if typed reified.Any then
            '(pattern_it, pattern_node) ← skip_zero fuel h pattern_it pattern_node;
            m ← multiplicity fuel h pattern_node;
            if decide (m = One) then
              prefix_it ← stacked_next h prefix_it; pattern_it ← stacked_next h pattern_it;
              includes_loop fuel h prefix_it pattern_it
            else Returns false
          else if typed reified.Rep then
            if negb (token_eqb pattern_type reified.Rep) then Returns false else b ← equivalent; advance_if b
          else if typed reified.Opt then
            if negb (token_eqb pattern_type reified.Opt) then Returns false else b ← equivalent; advance_if b
          else Returns false
      end
  end.

(** [includes_prefix] *)
Definition includes_prefix (fuel : nat) (h : heap) (prefix pattern : Node) : outcome bool :=
  if negb (token_eqb (type_of h prefix) Group) || negb (token_eqb (type_of h pattern) Group) then Returns false
  else includes_loop fuel h (stacked prefix) (stacked pattern).
End Tokens.

(** * The rules *)

Section Rules.
Context (id : positive) (fuel : nat) (tokens : Registry).

(** [return NoChange;] *)
Definition no_change (h : heap) : outcome (option Node * heap) :=
  let '(n, h) := create_token h NoChange in Returns (Some n, h).

(** [Error << (ErrorAst << node) << (ErrorMsg ^ msg)] *)
Definition pattern_error (h : heap) (node : option Node) (msg : list Z) : outcome (option Node * heap) :=
  let '(e, h) := create_token h Error in
  let '(a, h) := node_of h ErrorAst node in
  let h := shl_node h e (Some a) in
  let '(m, h) := pow_text id h ErrorMsg msg in
  Returns (Some e, shl_node h e (Some m)).

(** An error about what the pattern captured under a name, or about nothing *)
Definition captured_error (token : Token) (msg : list Z) : Effect := fun _ m h =>
  n ← match_node h m token; pattern_error h n msg.

(** An error about the captured group when its multiplicity is wrong *)
Definition group_error (wrong : Multiplicity -> bool) (before after : list Z) : Effect := fun _ m h =>
  g ← captured h m Group;
  mult ← multiplicity fuel h g;
  if wrong mult then
    s ← pattern_to_string fuel h g; pattern_error h (Some g) (before ++ s ++ after)
  else no_change h.

Definition internal_token_effect : Effect := fun _ m h =>
  n ← captured h m reified.Token;
  token ← token_of_node tokens h n;
  if has token flag_internal then pattern_error h (Some n) (bytes "Cannot match on internal tokens") else no_change h.

Definition is_zero (m : Multiplicity) : bool := bool_decide (m = Zero).
Definition not_one (m : Multiplicity) : bool := negb (bool_decide (m = One)).

Definition check_pattern_rules : outcome (list Rule) :=
  let cap := pattern_cap reified.Cap (T [reified.Cap]) in
  let group := pattern_cap Group (T [Group]) in
  preds ← pattern_rep (Rewrite.In [reified.Pred; reified.NegPred]); cap_in_pred ← pattern_seq preds cap;
  nots ← pattern_rep (Rewrite.In [reified.Not]); cap_in_not ← pattern_seq nots cap;
  reps ← pattern_rep (Rewrite.In [reified.Rep]); cap_in_rep ← pattern_seq reps cap;
  after_last ← pattern_seq (T [reified.Last]) Any;
  both ← pattern_seq group (pattern_cap reified.Children (T [Group]));
  internal ← pattern_seq (Rewrite.In [reified.TokenMatch; reified.Regex]) (pattern_cap reified.Token (T [reified.Token]));
  Returns
    [mkRule cap_in_pred (captured_error reified.Cap (bytes "Cannot have capture patterns inside predicates"));
     mkRule cap_in_not (captured_error reified.Cap (bytes "Cannot have capture patterns inside a negation"));
     mkRule cap_in_rep (captured_error reified.Cap (bytes "Cannot have capture patterns inside a repetition"));
     mkRule (pattern_children (T [reified.Rep]) group)
       (group_error is_zero (bytes "Pattern '") (bytes "' would be infinitely repeated"));
     mkRule after_last (captured_error reified.Last (bytes "Cannot have pattern after 'End'"));
     mkRule (pattern_children (T [reified.Cap]) group)
       (group_error is_zero (bytes "Capture group '") (bytes "' is always empty"));
     mkRule (pattern_children (T [reified.Children]) both)
       (group_error not_one (bytes "Parent pattern '") (bytes "' should match exactly one node"));
     mkRule (pattern_children (T [reified.Not]) group)
       (group_error not_one (bytes "Negated pattern '")
         (bytes "' should match exactly one node. Consider using negative lookahead instead."));
     mkRule internal internal_token_effect].

(** [check_pattern] *)
Definition check_pattern : outcome PassDef :=
  rules ← check_pattern_rules;
  Returns (new_pass "check_pattern" reified.pattern_wf (Z.lor dir_topdown dir_once) rules).

(** [token_appears_in_wf] *)
Definition token_appears_in_wf (wf : Wellformed) (token : Token) : bool :=
  existsb (fun '(_, shape) =>
      match shape with
      | ShapeFields f => existsb (fun field => token_in (types (field_choice field)) token) (fields f)
      | ShapeSequence s => token_in (types (seq_choice s)) token
      end)
    (map_to_list (shapes wf)).

Definition token_exists_effect (prev_wf result_wf : Wellformed) (ignored_tokens : gset Token) : Effect := fun _ m h =>
  n ← captured h m reified.Token;
  token ← token_of_node tokens h n;
  if bool_decide (token ∈ ignored_tokens) || token_appears_in_wf prev_wf token || token_appears_in_wf result_wf token
  then no_change h
  else
    let '(e, h) := create_token h Error in
    let '(msg, h) := pow_text id h ErrorMsg
      (bytes "Token '" ++ bytes (name token) ++ bytes "' is not defined in well-formedness rules") in
    Returns (Some e, shl_node h e (Some msg)).

(** [check_that_tokens_exist]; the pass runs when [check_wf_] is set. *)
Definition check_that_tokens_exist (check_wf : bool) (prev_wf result_wf : Wellformed) (ignored_tokens : gset Token)
    : outcome PassDef :=
  token ← pattern_seq (Rewrite.In [reified.TokenMatch; reified.RegexMatch; reified.Inside; reified.InsideStar])
            (pattern_cap reified.Token (T [reified.Token]));
  Returns (pass_cond (new_pass "check_well_formedness" reified.pattern_wf (Z.lor dir_topdown dir_once)
                        [mkRule token (token_exists_effect prev_wf result_wf ignored_tokens)])
             (fun _ _ _ => Returns check_wf)).
End Rules.

(** * [Checker] *)

Record Checker := mkChecker {
  passes_ : list PassDef;
  input_wf_ : Wellformed;
  start_index_ : Z;
  end_index_ : Z;
  check_wf_ : bool;
  ignored_tokens_ : gset Token
}.

(** [Checker(passes, input_wf)], [Checker(reader)], [Checker(writer)], [Checker(rewriter)] *)
Definition new_checker (passes : list PassDef) (input_wf : Wellformed) : Checker :=
  mkChecker passes input_wf 1 (size_of passes) false {[Token.Top]}.
Definition check_reader {U fs} (r : Reader U fs PassDef) : Checker := new_checker (reader_passes r) (wf_ (parser_ r)).
Definition check_writer (w : Writer PassDef) : Checker := new_checker (writer_passes w) (writer_wf w).
Definition check_rewriter (r : Rewriter PassDef) : Checker := new_checker (rewriter_passes r) (rewriter_wf r).

(** [start_index], [end_index], [check_against_wf], [ignored_tokens]; a name that is not a token is
    skipped. *)
Definition set_start_index (k : Checker) (index : Z) : Checker :=
  mkChecker (passes_ k) (input_wf_ k) index (end_index_ k) (check_wf_ k) (ignored_tokens_ k).
Definition set_end_index (k : Checker) (index : Z) : Checker :=
  mkChecker (passes_ k) (input_wf_ k) (start_index_ k) index (check_wf_ k) (ignored_tokens_ k).
Definition set_check_against_wf (k : Checker) (value : bool) : Checker :=
  mkChecker (passes_ k) (input_wf_ k) (start_index_ k) (end_index_ k) value (ignored_tokens_ k).
Definition set_ignored_tokens (tokens : Registry) (k : Checker) (names : list string) : Checker :=
  mkChecker (passes_ k) (input_wf_ k) (start_index_ k) (end_index_ k) (check_wf_ k)
    (foldl (fun ignored s =>
        let token := find_token Invalid tokens s in
        if token_eqb token Invalid then ignored else {[token]} ∪ ignored) (ignored_tokens_ k) names).

(** What is logged as an error: the pass, and a tree that is no pattern, a pattern with its errors,
    or a pattern and the earlier one that shadows it *)
Inductive Complaint :=
  | Malformed (pass : string) (pattern : Node)
  | BadPattern (pass : string) (pattern : list Z) (errors : list Node)
  | Unreachable (pass : string) (pattern prefix : list Z).

Section Check.
Context (id : positive) (fuel : nat) (tokens : Registry) (stale : Node -> heap -> Match) (k : Checker).

(** The loop over the patterns of a pass *)
Fixpoint check_patterns (c : WfContexts) (pass : PassDef) (checker : Rewriter PassDef) (patterns : list Node)
    (ret : Z) (complaints : list Complaint) (h : heap) (dir : OutDir) : outcome (Z * list Complaint * heap * OutDir) :=
  match patterns with
  | [] => Returns (ret, complaints, h, dir)
  | pattern :: patterns =>
      ok ← wf_check reified.pattern_wf fuel h pattern;
      if negb ok then
        check_patterns c pass checker patterns 1 (complaints ++ [Malformed (pass_name pass) pattern]) h dir
      else
        '(orig, h) ← clone fuel h pattern;
        '(result, h, dir) ← @rewrite PassDef (passdef_is_pass fuel stale) fuel checker c pattern h dir;
        if Passes.ok result then check_patterns c pass checker patterns ret complaints h dir
        else
          s ← pattern_to_string fuel h orig;
          check_patterns c pass checker patterns 1 (complaints ++ [BadPattern (pass_name pass) s (errors result)]) h dir
  end.

(** The loops over the pairs of patterns *)
Fixpoint check_prefix (pass : PassDef) (prefix : Node) (patterns : list Node) (ret : Z) (complaints : list Complaint)
    (h : heap) : outcome (Z * list Complaint) :=
  match patterns with
  | [] => Returns (ret, complaints)
  | pattern :: patterns =>
      g1 ← pattern_field h prefix Group;
      g2 ← pattern_field h pattern Group;
      shadowed ← includes_prefix tokens fuel h g1 g2;
      if (shadowed : bool) then
        s ← pattern_to_string fuel h pattern;
        t ← pattern_to_string fuel h prefix;
        check_prefix pass prefix patterns 1 (complaints ++ [Unreachable (pass_name pass) s t]) h
      else check_prefix pass prefix patterns ret complaints h
  end.
Fixpoint check_reachable (pass : PassDef) (patterns : list Node) (ret : Z) (complaints : list Complaint) (h : heap)
    : outcome (Z * list Complaint) :=
  match patterns with
  | [] => Returns (ret, complaints)
  | prefix :: patterns =>
      '(ret, complaints) ← check_prefix pass prefix patterns ret complaints h;
      check_reachable pass patterns ret complaints h
  end.

(** [passes_.at(i)], for an index that may have wrapped *)
Definition checked_pass (i : Z) : outcome PassDef :=
  if u64 i <? size_of (passes_ k) then or_undefined (passes_ k !! Z.to_nat (u64 i)) else Throws.

(** The loop of [check] *)
Fixpoint check_loop (indices : list Z) (c : WfContexts) (ret : Z) (complaints : list Complaint) (h : heap) (dir : OutDir)
    : outcome (Z * list Complaint * heap * OutDir) :=
  match indices with
  | [] => Returns (ret, complaints, h, dir)
  | index :: indices =>
      pass ← checked_pass (index - 1);
      prev_wf ← (if index =? 1 then Returns (input_wf_ k) else pass_wf <$> checked_pass (index - 2));
      pass1 ← check_pattern id fuel tokens;
      pass2 ← check_that_tokens_exist id tokens (check_wf_ k) prev_wf (pass_wf pass) (ignored_tokens_ k);
      let checker := new_rewriter "pattern checker" [pass1; pass2] reified.pattern_wf in
      let '(patterns, h) := reify_patterns id pass h in
      '(ret, complaints, h, dir) ← check_patterns c pass checker patterns ret complaints h dir;
      '(ret, complaints) ← check_reachable pass patterns ret complaints h;
      check_loop indices c ret complaints h dir
  end.

(** [check] *)
Definition check (c : WfContexts) (h : heap) (dir : OutDir) : outcome (Z * list Complaint * heap * OutDir) :=
  check_loop (seqZ (start_index_ k) (end_index_ k - start_index_ k + 1)) (wf_context c reified.pattern_wf) 0 [] h dir.
End Check.
