(* ===== verification/CheckerFacts.v ===== *)
(** What the pattern checker says of patterns: a reified pattern is the tree of its pattern, its
    multiplicity is how many nodes a match consumes, and a pattern that is reported unreachable
    matches only where the earlier pattern does. *)
From S2P Require Import Prelude.
From S2P Require Import Token.
From S2P Require Import Source.
From S2P Require Import Ast.
From S2P Require Import Wellformed.
From S2P Require Import WfOps.
From S2P Require Import FastPattern.
From S2P Require Import TRegex.
From S2P Require Import Rewrite.
From S2P Require Import RewriteFacts.
From S2P Require Import Pass.
From S2P Require Import Dump.
From S2P Require Import Passes.
From S2P Require JsonSpec.
From S2P Require Import Checker.
From stdpp Require Export gmap.
#[local] Set Warnings "-register-all".
Open Scope Z_scope.

Lemma pattern_wf_returns : match reified.pattern_wf_shapes with Returns _ => true | _ => false end = true.
Proof. vm_compute. reflexivity. Qed.
Lemma pattern_wf_defined : reified.pattern_wf_shapes = Returns reified.pattern_wf.
Proof. pose proof pattern_wf_returns as H. unfold reified.pattern_wf. by destruct reified.pattern_wf_shapes. Qed.

(** * Where a match ends

    Captures decide nothing, so a match is a function from a position to the position after it. *)

Section Positions.
Context (fuel : nat) (h : heap).

Fixpoint pos_rep (body : nat -> outcome (option nat)) (end_ fuel it : nat) : outcome nat :=
  if (it =? end_)%nat then Returns it
  else
    match fuel with
    | O => Undefined
    | S fuel => r ← body it; match r with Some it' => pos_rep body end_ fuel it' | None => Returns it end
    end.

Definition found (b : bool) (it : nat) : option nat := if b then Some it else None.

Fixpoint pos_match (p : PatternDef) (parent : Node) (it : nat) {struct p} : outcome (option nat) :=
  let '(Pat k c) := p in
  let nodes := children_of h parent in
  r ← match k with
      | Cap _ q => pos_match q parent it
      | Anything => Returns (found (negb (it =? length nodes)%nat) (S it))
      | TokenMatch types =>
          Returns (match nodes !! it with None => None | Some n => found (token_in types (type_of h n)) (S it) end)
      | RegexMatch type regex =>
          match nodes !! it with
          | None => Returns None
          | Some n => if negb (token_eqb (type_of h n) type) then Returns None
                      else b ← full_match_node h n regex; Returns (found b (S it))
          end
      | Opt q => r ← pos_match q parent it; Returns (Some (default it r))
      | Rep q => it ← pos_rep (pos_match q parent) (length nodes) fuel it; Returns (Some it)
      | Not q =>
          if (it =? length nodes)%nat then Returns None
          else r ← pos_match q parent it; Returns (match r with Some _ => None | None => Some (S it) end)
      | Choice _ q1 q2 => r ← pos_match q1 parent it; match r with Some it' => Returns (Some it') | None => pos_match q2 parent it end
      | InsideStar types =>
          Returns (match climb (depth_fuel h) h (fun d => token_in types (type_ d)) (Some parent) with
                   | Some _ => Some it | None => None end)
      | Inside types => Returns (found (token_in types (type_of h parent)) it)
      | First => Returns (found (it =? 0)%nat it)
      | Last => Returns (found (it =? length nodes)%nat it)
      | Children q1 q2 =>
          r ← pos_match q1 parent it;
          match r with
          | None => Returns None
          | Some it' =>
              n ← or_undefined (nodes !! it);
              r ← pos_match q2 n 0%nat;
              Returns (match r with Some _ => Some it' | None => None end)
          end
      | Pred q => r ← pos_match q parent it; Returns (match r with Some _ => Some it | None => None end)
      | NegPred q => r ← pos_match q parent it; Returns (match r with Some _ => None | None => Some it end)
      | Action action q =>
          r ← pos_match q parent it;
          match r with
          | None => Returns None
          | Some it' => b ← action h (mkRange parent it it'); Returns (found b it')
          end
      end;
  match r with
  | None => Returns None
  | Some it => match c with None => Returns (Some it) | Some c => pos_match c parent it end
  end.

(** The answer of [match] and where it ends *)
Definition position (o : outcome (bool * (nat * Match))) : outcome (option nat) :=
  '(b, (it, _)) ← o; Returns (found b it).

Lemma rep_position (body : matcher) (pos : nat -> outcome (option nat)) end_ :
  (forall it m, position (body it m) = pos it) -> forall fuel it m,
  (fst <$> rep_loop body end_ fuel it m) = pos_rep pos end_ fuel it.
Proof.
  intros Hb. induction fuel0 as [|n IH]; intros it m; cbn; [by destruct (it =? end_)%nat|].
  destruct (it =? end_)%nat; [done|]. rewrite <-(Hb it m). unfold position.
  destruct (body it m) as [[[] [it' m']]| |]; cbn; [apply IH|done..].
Qed.
End Positions.

(** [Last] ends its chain, as [set_continuation] makes sure. *)
Fixpoint last_ends (p : PatternDef) : bool :=
  let '(Pat k c) := p in
  (match k with
   | Cap _ q | Opt q | Rep q | Not q | Pred q | NegPred q | Action _ q => last_ends q
   | Choice _ q r | Children q r => last_ends q && last_ends r
   | Last => match c with None => true | Some _ => false end
   | _ => true
   end) && match c with Some c => last_ends c | None => true end.

(** The answer of a pattern inside, by what is known of it *)
Ltac answer H o := rewrite <-H; let it' := fresh "it'" in let m' := fresh "m'" in destruct o as [[[] [it' m']]| |]; cbn [mbind outcome_bind found negb fst default].

Lemma position_matches fuel h p : last_ends p = true -> forall parent it m,
  position (pat_match fuel h p parent it m) = pos_match fuel h p parent it.
Proof.
  induction p as [k c Hk Hc] using pattern_ind. intros Hl parent it m. cbn [last_ends] in Hl.
  apply andb_true_iff in Hl as [Hlk Hlc].
  assert (Hcont : forall it m, position (match c with None => Returns (true, (it, m)) | Some c => pat_match fuel h c parent it m end)
    = match c with None => Returns (Some it) | Some c => pos_match fuel h c parent it end).
  { intros. destruct c as [c|]; [by apply Hc|done]. }
  clear Hc. unfold position in *.
  destruct k as [name q| |types|type regex|q|q|q|l q r|types|types| | |q r|q|q|action q];
    cbn [pat_match pos_match kind_all last_ends] in *; unfold_match.
  - answer (Hk Hlk parent it m) (pat_match fuel h q parent it m); first [done|apply Hcont].
  - destruct (it =? _)%nat; cbn; [done|apply Hcont].
  - destruct (_ !! it) as [n|]; [|done]. destruct (token_in _ _); cbn; [apply Hcont|done].
  - destruct (_ !! it) as [n|]; [|done]. destruct (token_eqb _ _); [|done].
    cbn. destruct (full_match_node _ _ _) as [[]| |]; cbn; first [done|apply Hcont].
  - destruct (add_frame m) as [k1 m1].
    answer (Hk Hlk parent it m1) (pat_match fuel h q parent it m1); first [done|apply Hcont].
  - pose proof (rep_position (pat_match fuel h q parent) (pos_match fuel h q parent) (length (children_of h parent)) (Hk Hlk parent) fuel it m) as E.
    rewrite <-E. destruct (rep_loop _ _ _ _ _) as [[it' m']| |]; cbn; [apply Hcont|done..].
  - destruct (it =? _)%nat; [done|].
    answer (Hk Hlk parent it m) (pat_match fuel h q parent it m); first [done|apply Hcont].
  - destruct Hk as [Hk1 Hk2]. apply andb_true_iff in Hlk as [Hl1 Hl2].
    destruct (if l then add_frame m else (O, m)) as [k1 m1].
    answer (Hk1 Hl1 parent it m1) (pat_match fuel h q parent it m1); try done; try apply Hcont.
    set (m2 := if l then _ else _).
    answer (Hk2 Hl2 parent it m2) (pat_match fuel h r parent it m2); first [done|apply Hcont].
  - destruct (climb _ _ _ _); [apply Hcont|done].
  - destruct (token_in _ _); [apply Hcont|done].
  - destruct (it =? 0)%nat; [apply Hcont|done].
  - destruct c as [c|]; [done|]. cbn. by destruct (it =? _)%nat.
  - destruct Hk as [Hk1 Hk2]. apply andb_true_iff in Hlk as [Hl1 Hl2].
    answer (Hk1 Hl1 parent it m) (pat_match fuel h q parent it m); try done.
    destruct (_ !! it) as [n|]; cbn; [|done].
    answer (Hk2 Hl2 n 0%nat m') (pat_match fuel h r n 0%nat m'); first [done|apply Hcont].
  - answer (Hk Hlk parent it m) (pat_match fuel h q parent it m); first [done|apply Hcont].
  - answer (Hk Hlk parent it m) (pat_match fuel h q parent it m); first [done|apply Hcont].
  - answer (Hk Hlk parent it m) (pat_match fuel h q parent it m); try done.
    destruct (action _ _) as [[]| |]; cbn; first [done|apply Hcont].
Qed.

(** * Chains *)

Fixpoint chain (p : PatternDef) : list PatternKind :=
  let '(Pat k c) := p in k :: match c with None => [] | Some c => chain c end.

Section Chains.
Context (fuel : nat) (h : heap).

Definition elem (k : PatternKind) (parent : Node) (it : nat) : outcome (option nat) := pos_match fuel h (Pat k None) parent it.
Fixpoint seqs (ks : list PatternKind) (parent : Node) (it : nat) : outcome (option nat) :=
  match ks with
  | [] => Returns (Some it)
  | k :: ks => r ← elem k parent it; match r with None => Returns None | Some it => seqs ks parent it end
  end.

Lemma bind_option (o : outcome (option nat)) : (r ← o; match r with None => Returns None | Some it => Returns (Some it) end) = o.
Proof. by destruct o as [[]| |]. Qed.

Lemma pos_chain p parent it : pos_match fuel h p parent it = seqs (chain p) parent it.
Proof.
  revert parent it. induction p as [k c _ Hc] using pattern_ind. intros parent it.
  transitivity (r ← elem k parent it; match r with None => Returns None | Some it => match c with None => Returns (Some it) | Some c => pos_match fuel h c parent it end end).
  { unfold elem. cbn [pos_match]. by rewrite bind_option. }
  cbn [chain seqs]. destruct (elem k parent it) as [[it'|]| |]; cbn; try done; destruct c as [c|]; first [done|apply Hc].
Qed.

Lemma seqs_app ks ks' parent it : seqs (ks ++ ks') parent it
  = (r ← seqs ks parent it; match r with None => Returns None | Some it => seqs ks' parent it end).
Proof.
  revert it. induction ks as [|k ks IH]; intros it; [done|]. cbn [app seqs].
  destruct (elem k parent it) as [[it'|]| |]; cbn; first [done|apply IH].
Qed.

(** A capture is its pattern. *)
Lemma elem_cap name q parent it : elem (Cap name q) parent it = seqs (chain q) parent it.
Proof. unfold elem. cbn [pos_match]. rewrite bind_option. apply pos_chain. Qed.
Lemma seqs_cap name q ks parent it : seqs (Cap name q :: ks) parent it = seqs (chain q ++ ks) parent it.
Proof. cbn [seqs]. by rewrite elem_cap, seqs_app. Qed.

(** ** What a class does, with [seqs] for the patterns inside *)
Lemma elem_eq k parent it : elem k parent it =
  let nodes := children_of h parent in
  match k with
  | Cap _ q => seqs (chain q) parent it
  | Anything => Returns (found (negb (it =? length nodes)%nat) (S it))
  | TokenMatch types => Returns (match nodes !! it with None => None | Some n => found (token_in types (type_of h n)) (S it) end)
  | Opt q => r ← seqs (chain q) parent it; Returns (Some (default it r))
  | Not q =>
      if (it =? length nodes)%nat then Returns None
      else r ← seqs (chain q) parent it; Returns (match r with Some _ => None | None => Some (S it) end)
  | Children q1 q2 =>
      r ← seqs (chain q1) parent it;
      match r with
      | None => Returns None
      | Some it' =>
          n ← or_undefined (nodes !! it);
          r ← seqs (chain q2) n 0%nat;
          Returns (match r with Some _ => Some it' | None => None end)
      end
  | Choice _ q1 q2 => r ← seqs (chain q1) parent it; match r with Some it' => Returns (Some it') | None => seqs (chain q2) parent it end
  | Action action q =>
      r ← seqs (chain q) parent it;
      match r with None => Returns None | Some it' => b ← action h (mkRange parent it it'); Returns (found b it') end
  | Pred q => r ← seqs (chain q) parent it; Returns (match r with Some _ => Some it | None => None end)
  | NegPred q => r ← seqs (chain q) parent it; Returns (match r with Some _ => None | None => Some it end)
  | _ => elem k parent it
  end.
Proof.
  destruct k; try done; unfold elem; cbn [pos_match]; rewrite bind_option, ?pos_chain; try done.
  destruct (seqs _ _ _) as [[x|]| |]; cbn; try done. destruct (_ !! it) as [m|]; cbn; [|done]. by rewrite pos_chain.
Qed.
End Chains.

(** ** Multiplicities *)

Definition both_multiplicity (l r : Multiplicity) : Multiplicity := if decide (l = r) then l else Unknown.

(** [multiplicity] on patterns *)
Fixpoint mult_of (p : PatternDef) : Multiplicity :=
  let '(Pat k c) := p in
  add_multiplicity
    (match k with
     | First | Last | Inside _ | InsideStar _ | Pred _ | NegPred _ => Zero
     | Anything | RegexMatch _ _ | TokenMatch _ | Not _ => One
     | Opt _ | Rep _ => Unknown
     | Children q _ | Cap _ q | Action _ q => mult_of q
     | Choice _ q r => both_multiplicity (mult_of q) (mult_of r)
     end) (match c with None => Zero | Some c => mult_of c end).
Definition mult_kind (k : PatternKind) : Multiplicity := mult_of (Pat k None).
Definition mult_chain (ks : list PatternKind) : Multiplicity := foldr (fun k m => add_multiplicity (mult_kind k) m) Zero ks.

Lemma add_zero_r m : add_multiplicity m Zero = m.
Proof. by destruct m. Qed.
Lemma add_assoc a b c : add_multiplicity (add_multiplicity a b) c = add_multiplicity a (add_multiplicity b c).
Proof. by destruct a, b, c. Qed.
Lemma add_is_zero a b : add_multiplicity a b = Zero -> a = Zero /\ b = Zero.
Proof. by destruct a, b. Qed.
Lemma add_is_one a b : add_multiplicity a b = One -> a = One /\ b = Zero \/ a = Zero /\ b = One.
Proof. destruct a, b; try done; auto. Qed.

Lemma mult_of_chain p : mult_of p = mult_chain (chain p).
Proof.
  induction p as [k c _ Hc] using pattern_ind. cbn [chain mult_chain foldr]. unfold mult_kind. cbn [mult_of].
  rewrite add_zero_r. f_equal. destruct c as [c|]; [apply Hc|done].
Qed.

(** The multiplicity is what a match consumes. *)
Definition consumes (h : heap) (m : Multiplicity) (pos : Node -> nat -> outcome (option nat)) : Prop :=
  forall parent it j, pos parent it = Returns (Some j) ->
    match m with
    | Zero => j = it
    | One => j = S it /\ (it =? length (children_of h parent))%nat = false
    | Unknown => True
    end.

Lemma consumes_add h a b (pa pb : Node -> nat -> outcome (option nat)) :
  consumes h a pa -> consumes h b pb ->
  consumes h (add_multiplicity a b) (fun parent it => r ← pa parent it; match r with None => Returns None | Some it => pb parent it end).
Proof.
  intros Ha Hb parent it j Hj. apply outcome_bind_returns in Hj as ([it'|] & E & Hj); [|done].
  specialize (Ha _ _ _ E). specialize (Hb _ _ _ Hj). destruct a, b; cbn in *; try done; by (try destruct Ha); subst.
Qed.

Lemma mult_sound fuel h p : consumes h (mult_of p) (pos_match fuel h p).
Proof.
  induction p as [k c Hk Hc] using pattern_ind.
  assert (Hk' : consumes h (mult_kind k) (elem fuel h k)).
  { unfold mult_kind. cbn [mult_of]. rewrite add_zero_r. intros parent it j Hj. rewrite elem_eq in Hj. cbv zeta in Hj.
    destruct k as [name q| |types|type regex|q|q|q|l q r|types|types| | |q r|q|q|action q]; cbn [kind_all] in Hk; try done.
    - rewrite <-pos_chain in Hj. by apply Hk in Hj.
    - destruct (it =? _)%nat; cbn in Hj; [done|]. by injection Hj as <-.
    - destruct (_ !! it) as [n|] eqn:E; [|done]. destruct (token_in _ _); cbn in Hj; [|done]. injection Hj as <-.
      split; [done|]. apply Nat.eqb_neq. apply lookup_lt_Some in E. lia.
    - unfold elem in Hj. cbn [pos_match] in Hj. rewrite bind_option in Hj. destruct (_ !! it) as [n|] eqn:E; [|done].
      destruct (negb _); [done|]. apply outcome_bind_returns in Hj as ([] & _ & [= <-]).
      split; [done|]. apply Nat.eqb_neq. apply lookup_lt_Some in E. lia.
    - destruct (it =? _)%nat; [done|]. apply outcome_bind_returns in Hj as ([x|] & _ & Hj); [done|]. by injection Hj as <-.
    - destruct Hk as [Hk1 Hk2]. unfold both_multiplicity. rewrite <-!pos_chain in Hj.
      apply outcome_bind_returns in Hj as ([x|] & E & Hj); case_decide as Hd; try done.
      + injection Hj as <-. by apply Hk1 in E.
      + apply Hk2 in Hj. by rewrite Hd.
    - unfold elem in Hj. cbn [pos_match] in Hj. rewrite bind_option in Hj. destruct (climb _ _ _ _); [|done]. by injection Hj as <-.
    - unfold elem in Hj. cbn [pos_match] in Hj. rewrite bind_option in Hj. destruct (token_in _ _); [|done]. by injection Hj as <-.
    - unfold elem in Hj. cbn [pos_match] in Hj. rewrite bind_option in Hj. destruct (it =? 0)%nat; [|done]. by injection Hj as <-.
    - unfold elem in Hj. cbn [pos_match] in Hj. rewrite bind_option in Hj. destruct (it =? _)%nat; [|done]. by injection Hj as <-.
    - destruct Hk as [Hk1 _]. apply outcome_bind_returns in Hj as ([x|] & E & Hj); [|done]. rewrite <-pos_chain in E. apply Hk1 in E.
      apply outcome_bind_returns in Hj as (n & _ & Hj). apply outcome_bind_returns in Hj as ([y|] & _ & Hj); [|done]. by injection Hj as <-.
    - apply outcome_bind_returns in Hj as ([x|] & _ & Hj); [|done]. by injection Hj as <-.
    - apply outcome_bind_returns in Hj as ([x|] & _ & Hj); [done|]. by injection Hj as <-.
    - apply outcome_bind_returns in Hj as ([x|] & E & Hj); [|done]. rewrite <-pos_chain in E. apply Hk in E.
      apply outcome_bind_returns in Hj as ([] & _ & Hj); [|done]. by injection Hj as <-. }
  intros parent it j Hj. rewrite pos_chain in Hj. cbn [chain seqs] in Hj.
  assert (Em : mult_of (Pat k c) = add_multiplicity (mult_kind k) (match c with None => Zero | Some c => mult_of c end)).
  { unfold mult_kind. cbn [mult_of]. by rewrite add_zero_r. }
  rewrite Em.
  refine (consumes_add h _ _ (elem fuel h k) (seqs fuel h (match c with None => [] | Some c => chain c end)) Hk' _ parent it j Hj).
  destruct c as [c|].
  - intros q i i' E. rewrite <-pos_chain in E. by apply Hc in E.
  - by intros q i i' [= <-].
Qed.

Lemma kind_sound fuel h k : consumes h (mult_kind k) (elem fuel h k).
Proof. apply mult_sound. Qed.

Lemma zeros_stay fuel h ks parent it j : Forall (fun k => mult_kind k = Zero) ks ->
  seqs fuel h ks parent it = Returns (Some j) -> j = it.
Proof.
  intros Hz. revert it. induction Hz as [|k ks Hk _ IH]; intros it; cbn [seqs]; [by intros [= <-]|].
  intros ([it'|] & E & H)%outcome_bind_returns; [|done]. apply kind_sound in E. rewrite Hk in E. subst. by apply IH.
Qed.

(** ** The tokens of a pattern *)

(** What [check_pattern] accepts: the pattern before [<<] is one node. *)
Fixpoint parents_one (p : PatternDef) : bool :=
  let '(Pat k c) := p in
  (match k with
   | Cap _ q | Opt q | Rep q | Not q | Pred q | NegPred q | Action _ q => parents_one q
   | Choice _ q r => parents_one q && parents_one r
   | Children q r => bool_decide (mult_of q = One) && parents_one q && parents_one r
   | _ => true
   end) && match c with Some c => parents_one c | None => true end.
Definition kind_one (k : PatternKind) : bool := parents_one (Pat k None).

Lemma parents_one_chain p : parents_one p = forallb kind_one (chain p).
Proof.
  induction p as [k c _ Hc] using pattern_ind. cbn [chain forallb]. unfold kind_one at 1. cbn [parents_one].
  rewrite andb_true_r. f_equal. destruct c as [c|]; [apply Hc|done].
Qed.

(** [only_tokens] on patterns, and its loop over a group from the tokens found so far *)
Fixpoint tokens_of (p : PatternDef) (found : list Token) : list Token :=
  let '(Pat k c) := p in
  let mult := mult_kind k in
  let rest := match c with None => fun found => found | Some c => tokens_of c end in
  if decide (mult = Zero) then rest found
  else if bool_decide (mult = One) && bool_decide (found = []) then
    rest (match k with
          | TokenMatch types => types
          | RegexMatch type _ => [type]
          | Cap _ q | Children q _ => tokens_of q []
          | _ => []
          end)
  else [].
Definition tokens_kind (k : PatternKind) : list Token :=
  match k with
  | TokenMatch types => types
  | RegexMatch type _ => [type]
  | Cap _ q | Children q _ => tokens_of q []
  | _ => []
  end.
Fixpoint tokens_chain (ks : list PatternKind) (found : list Token) : list Token :=
  match ks with
  | [] => found
  | k :: ks =>
      if decide (mult_kind k = Zero) then tokens_chain ks found
      else if bool_decide (mult_kind k = One) && bool_decide (found = []) then tokens_chain ks (tokens_kind k) else []
  end.
Lemma tokens_of_chain p : forall found, tokens_of p found = tokens_chain (chain p) found.
Proof.
  induction p as [k c _ Hc] using pattern_ind. intros fd. cbn [chain tokens_chain tokens_of].
  assert (Hr : forall fd, (match c with None => fun f => f | Some c => tokens_of c end) fd
    = tokens_chain (match c with None => [] | Some c => chain c end) fd) by (destruct c as [c|]; [apply Hc|done]).
  rewrite !Hr. done.
Qed.

(** A group that is one node is one pattern of one node among patterns of none. *)
Lemma mult_zero_all ks : mult_chain ks = Zero -> Forall (fun k => mult_kind k = Zero) ks.
Proof. induction ks as [|k ks IH]; [constructor|]. cbn. intros [H1 H2]%add_is_zero. constructor; [done|by apply IH]. Qed.
Lemma mult_one_split ks : mult_chain ks = One ->
  exists zs1 k zs2, ks = zs1 ++ k :: zs2 /\ Forall (fun k => mult_kind k = Zero) zs1 /\ mult_kind k = One
    /\ Forall (fun k => mult_kind k = Zero) zs2.
Proof.
  induction ks as [|k ks IH]; [done|]. cbn. intros [[H1 H2]|[H1 H2]]%add_is_one.
  - exists [], k, ks. split_and!; [done|constructor|done|by apply mult_zero_all].
  - destruct (IH H2) as (zs1 & k' & zs2 & -> & Z1 & Hk & Z2). exists (k :: zs1), k', zs2. split_and!; [done|by constructor|done|done].
Qed.
Lemma tokens_zeros zs ks found : Forall (fun k => mult_kind k = Zero) zs -> tokens_chain (zs ++ ks) found = tokens_chain ks found.
Proof. induction 1 as [|k zs Hk _ IH]; [done|]. cbn [app tokens_chain]. by rewrite decide_True. Qed.
Lemma tokens_one zs1 k zs2 : Forall (fun k => mult_kind k = Zero) zs1 -> mult_kind k = One ->
  Forall (fun k => mult_kind k = Zero) zs2 -> tokens_chain (zs1 ++ k :: zs2) [] = tokens_kind k.
Proof.
  intros Z1 Hk Z2. rewrite tokens_zeros by done. cbn [tokens_chain]. rewrite decide_False by (by rewrite Hk). rewrite !bool_decide_eq_true_2 by done. cbn [andb].
  rewrite <-(app_nil_r zs2), tokens_zeros by done. done.
Qed.

(** A pattern of one node, of some tokens, matches a node of one of them. *)
Definition one_of (h : heap) (ts : list Token) (pos : Node -> nat -> outcome (option nat)) : Prop :=
  forall parent it j, pos parent it = Returns (Some j) ->
    j = S it /\ exists n, children_of h parent !! it = Some n /\ type_of h n ∈ ts.

Lemma one_of_chain fuel h ks : mult_chain ks = One -> tokens_chain ks [] <> [] ->
  Forall (fun k => mult_kind k = One -> tokens_kind k <> [] -> one_of h (tokens_kind k) (elem fuel h k)) ks ->
  one_of h (tokens_chain ks []) (seqs fuel h ks).
Proof.
  intros Hm Ht Hks. destruct (mult_one_split ks Hm) as (zs1 & k & zs2 & -> & Z1 & Hk & Z2).
  rewrite tokens_one in * by done. apply Forall_app in Hks as [_ [Hone _]%Forall_cons].
  intros parent it j Hj. rewrite seqs_app in Hj. apply outcome_bind_returns in Hj as ([i|] & E & Hj); [|done].
  apply zeros_stay in E as ->; [|done]. cbn [seqs] in Hj. apply outcome_bind_returns in Hj as ([i'|] & E & Hj); [|done].
  apply zeros_stay in Hj as ->; [|done]. by apply Hone.
Qed.

Lemma one_of_pattern fuel h p : parents_one p = true -> Forall (fun k =>
  mult_kind k = One -> tokens_kind k <> [] -> one_of h (tokens_kind k) (elem fuel h k)) (chain p).
Proof.
  induction p as [k c Hk Hc] using pattern_ind. intros Hp. cbn [parents_one] in Hp. apply andb_prop in Hp as [Hpk Hpc].
  cbn [chain]. constructor; [|destruct c as [c|]; [by apply Hc|constructor]].
  clear Hc Hpc. intros Hm Ht parent it j Hj. rewrite elem_eq in Hj. cbv zeta in Hj.
  unfold mult_kind in Hm. cbn [mult_of] in Hm. rewrite add_zero_r in Hm.
  destruct k as [name q| |types|type regex|q|q|q|l q r|types|types| | |q r|q|q|action q]; cbn [kind_all tokens_kind] in *; try done.
  - rewrite mult_of_chain in Hm. rewrite tokens_of_chain in *. by apply (one_of_chain fuel h (chain q) Hm Ht (Hk Hpk)).
  - destruct (_ !! it) as [n|] eqn:E; [|done]. destruct (token_in _ _) eqn:Ein; cbn in Hj; [|done]. injection Hj as <-.
    split; [done|]. exists n. split; [done|]. by apply token_in_elem.
  - unfold elem in Hj. cbn [pos_match] in Hj. rewrite bind_option in Hj. destruct (_ !! it) as [n|] eqn:E; [|done].
    destruct (token_eqb _ _) eqn:Et; [|done]. apply token_eqb_eq in Et. apply outcome_bind_returns in Hj as ([] & _ & [= <-]).
    split; [done|]. exists n. split; [done|]. rewrite Et. by left.
  - destruct Hk as [Hk _]. apply andb_prop in Hpk as [[_ Hpk]%andb_prop _]. rewrite mult_of_chain in Hm. rewrite tokens_of_chain in *.
    apply outcome_bind_returns in Hj as ([x|] & E & Hj); [|done].
    apply (one_of_chain fuel h (chain q) Hm Ht (Hk Hpk)) in E.
    apply outcome_bind_returns in Hj as (n & _ & Hj). apply outcome_bind_returns in Hj as ([y|] & _ & Hj); [|done]. by injection Hj as <-.
Qed.
Lemma one_of_kind fuel h k : kind_one k = true -> mult_kind k = One -> tokens_kind k <> [] ->
  one_of h (tokens_kind k) (elem fuel h k).
Proof. intros Hk. pose proof (one_of_pattern fuel h (Pat k None) Hk) as H. exact (Forall_inv H). Qed.

(** * Prefixes

    What [includes_prefix] checks, on lists of classes. *)

Definition transparent (k : PatternKind) : bool :=
  match k with Inside _ | InsideStar _ | First | Last => true | _ => false end.
Definition is_cap (k : PatternKind) : bool := match k with Cap _ _ => true | _ => false end.

Inductive incl : list PatternKind -> list PatternKind -> Prop :=
  | incl_nil qs : incl [] qs
  | incl_cap_l name q ps qs : incl (chain q ++ ps) qs -> incl (Cap name q :: ps) qs
  | incl_cap_r p name q ps qs : incl (p :: ps) (chain q ++ qs) -> incl (p :: ps) (Cap name q :: qs)
  | incl_skip p q ps qs : transparent q = true -> incl (p :: ps) qs -> incl (p :: ps) (q :: qs)
  | incl_any zs q ps qs : (zs = [] -> is_cap q = false) -> Forall (fun k => mult_kind k = Zero) zs -> mult_kind q = One ->
      incl ps qs -> incl (Anything :: ps) (zs ++ q :: qs)
  | incl_pair p q ps qs : paired p q -> incl ps qs -> incl (p :: ps) (q :: qs)
with paired : PatternKind -> PatternKind -> Prop :=
  | paired_inside ts us : us ⊆ ts -> paired (Inside ts) (Inside us)
  | paired_inside_star ts us : us ⊆ ts -> paired (InsideStar ts) (InsideStar us)
  | paired_first : paired First First
  | paired_last : paired Last Last
  | paired_token ts q : is_cap q = false -> tokens_kind q <> [] -> tokens_kind q ⊆ ts -> paired (TokenMatch ts) q
  | paired_children p1 p2 q1 q2 : incl (chain p1) (chain q1) -> incl (chain p2) (chain q2) ->
      paired (Children p1 p2) (Children q1 q2)
  | paired_rep p q : incl (chain p) (chain q) -> incl (chain q) (chain p) -> paired (Rep p) (Rep q)
  | paired_opt p q : incl (chain p) (chain q) -> incl (chain q) (chain p) -> paired (Opt p) (Opt q).

(** ** Without captures *)

Fixpoint flat (p : PatternDef) : list PatternKind :=
  let '(Pat k c) := p in
  (match k with Cap _ q => flat q | _ => [k] end) ++ match c with None => [] | Some c => flat c end.
Definition flat_kind (k : PatternKind) : list PatternKind := match k with Cap _ q => flat q | _ => [k] end.
Definition flats (ks : list PatternKind) : list PatternKind := concat (flat_kind <$> ks).

Lemma flat_chain p : flat p = flats (chain p).
Proof.
  induction p as [k c _ Hc] using pattern_ind. unfold flats. cbn [chain fmap list_fmap concat flat]. f_equal.
  destruct c as [c|]; [apply Hc|done].
Qed.
Lemma flats_app a b : flats (a ++ b) = flats a ++ flats b.
Proof. unfold flats. by rewrite fmap_app, concat_app. Qed.
Lemma flats_cap name q ks : flats (Cap name q :: ks) = flats (chain q ++ ks).
Proof. rewrite flats_app, <-flat_chain. done. Qed.
Lemma flats_plain k ks : is_cap k = false -> flats (k :: ks) = k :: flats ks.
Proof. by destruct k. Qed.
Lemma flats_cons k ks : flats (k :: ks) = flat_kind k ++ flats ks.
Proof. done. Qed.
Lemma flat_nonempty p : (1 <= length (flat p))%nat.
Proof.
  induction p as [k c Hk _] using pattern_ind. cbn [flat]. rewrite length_app.
  destruct k; cbn in *; lia.
Qed.
Lemma flat_kind_nonempty k : (1 <= length (flat_kind k))%nat.
Proof. destruct k; cbn [flat_kind length]; try lia. apply flat_nonempty. Qed.
Lemma flats_length ks : (length ks <= length (flats ks))%nat.
Proof.
  induction ks as [|k ks IH]; [done|]. unfold flats in *. cbn [fmap list_fmap concat]. rewrite length_app. cbn [length].
  pose proof (flat_kind_nonempty k). lia.
Qed.

Lemma flat_plain p : Forall (fun k => is_cap k = false) (flat p).
Proof.
  induction p as [k c Hk Hc] using pattern_ind. cbn [flat]. apply Forall_app. split; [|by destruct c as [c|]; [apply Hc|constructor]].
  destruct k; try (by constructor); exact Hk.
Qed.
Lemma flats_are_plain ks : Forall (fun k => is_cap k = false) (flats ks).
Proof.
  induction ks as [|k ks IH]; [constructor|]. unfold flats in *. cbn [fmap list_fmap concat]. apply Forall_app. split; [|done].
  destruct k; try (by constructor). apply flat_plain.
Qed.

Lemma seqs_flats fuel h parent : forall ks it, seqs fuel h (flats ks) parent it = seqs fuel h ks parent it.
Proof.
  assert (Hp : forall p it, seqs fuel h (flat p) parent it = seqs fuel h (chain p) parent it).
  { intros p. induction p as [k c Hk Hc] using pattern_ind. intros it. cbn [flat chain]. rewrite seqs_app. cbn [seqs].
    assert (E : forall it, seqs fuel h (match k with Cap _ q => flat q | _ => [k] end) parent it = elem fuel h k parent it).
    { intros i. destruct k; try (cbn [seqs]; by rewrite bind_option). cbn [kind_all] in Hk. by rewrite Hk, elem_cap. }
    rewrite E. destruct (elem fuel h k parent it) as [[i|]| |]; cbn; try done; destruct c as [c|]; first [done|apply Hc]. }
  induction ks as [|k ks IH]; intros it; [done|]. unfold flats in *. cbn [fmap list_fmap concat]. rewrite seqs_app. cbn [seqs].
  assert (E : seqs fuel h (flat_kind k) parent it = elem fuel h k parent it).
  { destruct k; try (cbn [flat_kind seqs]; by rewrite bind_option). cbn [flat_kind]. by rewrite Hp, elem_cap. }
  rewrite E. destruct (elem fuel h k parent it) as [[i|]| |]; cbn; first [done|apply IH].
Qed.

(** Classes of a pattern pair off in order when none is skipped. *)
Inductive aligned : PatternKind -> PatternKind -> Prop :=
  | aligned_pair p q : paired p q -> aligned p q
  | aligned_any q : mult_kind q = One -> aligned Anything q.

Lemma paired_plain p q : paired p q -> is_cap p = false /\ is_cap q = false.
Proof. by inversion 1. Qed.

Lemma incl_aligned ps qs : incl ps qs -> (length (flats ps) <= length (flats qs))%nat
  /\ (length (flats ps) = length (flats qs) -> Forall2 aligned (flats ps) (flats qs)).
Proof.
  induction 1 as [qs|name q ps qs _ IH|p name q ps qs _ IH|p q ps qs Ht _ IH|zs q ps qs Hc Hz Hq _ IH|p q ps qs Hp _ IH].
  - split; [cbn; lia|]. intros E. destruct (flats qs); [constructor|done].
  - by rewrite flats_cap.
  - by rewrite flats_cap.
  - rewrite (flats_plain q) by (by destruct q). destruct IH as [IH _]. split; [cbn [length] in *; lia|]. cbn [length]. lia.
  - rewrite (flats_plain Anything), flats_app, flats_cons by done. rewrite !length_app. cbn [length].
    pose proof (flat_kind_nonempty q) as H1. pose proof (flats_length zs) as H2. destruct IH as [IH1 IH2].
    split; [lia|]. intros E. destruct zs as [|z zs]; [|cbn [length] in H2; lia].
    assert (Ef : flat_kind q = [q]) by (destruct q; try done; by specialize (Hc eq_refl)).
    rewrite Ef in *. cbn in *. constructor; [by constructor|]. apply IH2. lia.
  - destruct (paired_plain p q Hp) as [H1 H2]. rewrite !flats_plain by done. cbn [length]. destruct IH as [IH1 IH2].
    split; [lia|]. intros E. constructor; [by constructor|]. apply IH2. lia.
Qed.

(** ** Each a prefix of the other: the same matches *)

Fixpoint psize (p : PatternDef) : nat :=
  let '(Pat k c) := p in
  S ((match k with
      | Cap _ q | Opt q | Rep q | Not q | Pred q | NegPred q | Action _ q => psize q
      | Choice _ q r | Children q r => psize q + psize r
      | _ => O
      end) + match c with None => O | Some c => psize c end)%nat.
Definition ksize (k : PatternKind) : nat := psize (Pat k None).

Lemma flat_smaller p : Forall (fun k => (ksize k <= psize p)%nat) (flat p).
Proof.
  induction p as [k c Hk Hc] using pattern_ind. cbn [flat]. apply Forall_app. split.
  - assert (E : (ksize k <= psize (Pat k c))%nat) by (unfold ksize; cbn [psize]; lia).
    destruct k; try (by constructor). cbn [kind_all] in Hk. eapply Forall_impl; [exact Hk|]. intros k Hks. etransitivity; [exact Hks|cbn [psize]; lia].
  - destruct c as [c|]; [|constructor]. eapply Forall_impl; [exact Hc|]. intros k' Hks. etransitivity; [exact Hks|cbn [psize]; lia].
Qed.

Lemma token_in_ext ts us : ts ⊆ us -> us ⊆ ts -> forall t, token_in ts t = token_in us t.
Proof. intros H1 H2 t. apply eq_true_iff_eq. rewrite !token_in_elem. split; auto. Qed.
Lemma climb_same fuel h f g p : (forall d, f d = g d) -> climb fuel h f p = climb fuel h g p.
Proof. intros E. revert p. induction fuel as [|fuel IH]; intros [n|]; try done. cbn. rewrite E, IH. done. Qed.
Lemma pos_rep_ext (b1 b2 : nat -> outcome (option nat)) end_ : (forall it, b1 it = b2 it) ->
  forall fuel it, pos_rep b1 end_ fuel it = pos_rep b2 end_ fuel it.
Proof.
  intros E. induction fuel as [|fuel IH]; intros it; cbn; [done|]. destruct (it =? end_)%nat; [done|]. rewrite E.
  by destruct (b2 it) as [[i|]| |]; cbn.
Qed.

Section Equal.
Context (fuel : nat) (h : heap).

Definition same_matches (p q : PatternDef) : Prop := forall parent it, seqs fuel h (chain p) parent it = seqs fuel h (chain q) parent it.

Lemma elem_rep_ext p q parent it : same_matches p q -> elem fuel h (Rep p) parent it = elem fuel h (Rep q) parent it.
Proof.
  intros E. unfold elem. cbn [pos_match]. rewrite !bind_option.
  erewrite pos_rep_ext; [done|]. intros i. by rewrite !pos_chain.
Qed.
Lemma elem_opt_ext p q parent it : same_matches p q -> elem fuel h (Opt p) parent it = elem fuel h (Opt q) parent it.
Proof. intros E. rewrite !elem_eq. cbv zeta. by rewrite E. Qed.

Lemma aligned_equal a b : aligned a b -> aligned b a ->
  (forall p q, (psize p < ksize a)%nat -> incl (chain p) (chain q) -> incl (chain q) (chain p) -> same_matches p q) ->
  forall parent it, elem fuel h a parent it = elem fuel h b parent it.
Proof.
  intros H1 H2 IH parent it. assert (Hsz : forall k, k = a -> ksize k = ksize a) by by intros ? ->.
  destruct H1 as [? ? [ts us Hs|ts us Hs| | |ts q Hc Hn Hs|p1 p2 q1 q2 I1 I2|p q I1 I2|p q I1 I2]|q Hq]; try done.
  - inversion H2 as [? ? H2' E1 E2|]; subst. inversion H2'; subst. unfold elem. cbn [pos_match]. rewrite !bind_option.
    by rewrite (token_in_ext ts us).
  - inversion H2 as [? ? H2' E1 E2|]; subst. inversion H2'; subst. unfold elem. cbn [pos_match]. rewrite !bind_option.
    erewrite climb_same; [done|]. intros d. by apply token_in_ext.
  - inversion H2 as [? ? H2' E1 E2|]; subst; [|by cbn in Hn]. inversion H2'; subst; try done.
    rewrite !elem_eq. cbv zeta. destruct (_ !! it) as [n|]; [|done]. cbn [tokens_kind] in *. by erewrite token_in_ext.
  - inversion H2 as [? ? H2' E1 E2|]; subst. inversion H2' as [| | | | |? ? ? ? J1 J2| |]; subst.
    assert (E1 : same_matches p1 q1) by (apply IH; [unfold ksize; cbn [psize]; lia|done|done]).
    assert (E2 : same_matches p2 q2) by (apply IH; [unfold ksize; cbn [psize]; lia|done|done]).
    rewrite !elem_eq. cbv zeta. rewrite E1. destruct (seqs _ _ _ _ _) as [[x|]| |]; cbn; try done.
    destruct (_ !! it) as [n|]; cbn; [|done]. by rewrite E2.
  - apply elem_rep_ext, IH; [unfold ksize; cbn [psize]; lia|done|done].
  - apply elem_opt_ext, IH; [unfold ksize; cbn [psize]; lia|done|done].
  - inversion H2 as [? ? H2' E1 E2|]; subst; [|done]. inversion H2'; subst; done.
Qed.

Lemma incl_equal : forall n p q, (psize p <= n)%nat -> incl (chain p) (chain q) -> incl (chain q) (chain p) -> same_matches p q.
Proof.
  induction n as [|n IH]; intros p q Hn H1 H2; [destruct p; cbn in Hn; lia|].
  destruct (incl_aligned _ _ H1) as [L1 A1]. destruct (incl_aligned _ _ H2) as [L2 A2].
  specialize (A1 ltac:(lia)). specialize (A2 ltac:(lia)). rewrite <-!flat_chain in *.
  intros parent it. rewrite <-(seqs_flats fuel h parent (chain p)), <-(seqs_flats fuel h parent (chain q)), <-!flat_chain.
  pose proof (flat_smaller p) as Hs. revert A2 Hs it. generalize A1. generalize (flat p) (flat q). clear A1 L1 L2 H1 H2 q.
  intros ks ls A1. induction A1 as [|a b ks ls Ha _ IHl]; intros A2 Hs it; [done|].
  inversion A2; subst. apply Forall_cons in Hs as [Hka Hs]. cbn [seqs].
  assert (Hsmall : forall p' q', (psize p' < ksize a)%nat -> incl (chain p') (chain q') -> incl (chain q') (chain p') -> same_matches p' q').
  { intros p' q' Hlt. apply IH. lia. }
  rewrite (aligned_equal a b Ha ltac:(eassumption) Hsmall).
  destruct (elem fuel h b parent it) as [[i|]| |]; cbn; try done. by apply IHl.
Qed.
End Equal.

(** ** A prefix matches where the pattern does *)

Scheme incl_mut := Minimality for incl Sort Prop
with paired_mut := Minimality for paired Sort Prop.

Section Sound.
Context (fuel : nat) (h : heap).

Definition accepted (ks : list PatternKind) : Prop := forallb kind_one ks = true.
Definition implies (qs ps : list PatternKind) : Prop := forall parent it j,
  seqs fuel h qs parent it = Returns (Some j) -> exists i, seqs fuel h ps parent it = Returns (Some i).
Definition kind_implies (q p : PatternKind) : Prop := forall parent it j,
  elem fuel h q parent it = Returns (Some j) -> elem fuel h p parent it = Returns (Some j).

Lemma accepted_cons k ks : accepted (k :: ks) <-> kind_one k = true /\ accepted ks.
Proof. unfold accepted. cbn [forallb]. by rewrite andb_true_iff. Qed.
Lemma accepted_app ks ls : accepted (ks ++ ls) <-> accepted ks /\ accepted ls.
Proof. unfold accepted. by rewrite forallb_app, andb_true_iff. Qed.
Lemma accepted_cap name q ks : accepted (Cap name q :: ks) -> accepted (chain q ++ ks).
Proof.
  rewrite accepted_cons, accepted_app. unfold kind_one, accepted. cbn [parents_one]. rewrite andb_true_r, parents_one_chain. done.
Qed.
Lemma accepted_children q r : kind_one (Children q r) = true -> mult_of q = One /\ accepted (chain q) /\ accepted (chain r).
Proof.
  unfold kind_one, accepted. cbn [parents_one]. rewrite andb_true_r, !andb_true_iff, bool_decide_eq_true, !parents_one_chain. tauto.
Qed.

Lemma implies_cons k l ks ls : kind_implies l k -> implies ls ks -> implies (l :: ls) (k :: ks).
Proof.
  intros Hk Hs parent it j ([i|] & E & Hj)%outcome_bind_returns; [|done]. apply Hk in E. apply Hs in Hj as [x Hx].
  exists x. cbn [seqs]. by rewrite E.
Qed.

Lemma tokens_kind_one k : kind_one k = true -> is_cap k = false -> tokens_kind k <> [] -> mult_kind k = One.
Proof.
  intros Hk Hc Ht. destruct k; try done. unfold mult_kind. cbn [mult_of]. rewrite add_zero_r. by apply accepted_children in Hk as [-> _].
Qed.

Lemma incl_sound ps qs : incl ps qs -> accepted ps -> accepted qs -> implies qs ps.
Proof.
  apply (incl_mut (fun ps qs => accepted ps -> accepted qs -> implies qs ps)
    (fun p q => kind_one p = true -> kind_one q = true -> kind_implies q p)); clear ps qs.
  - intros qs _ _ parent it j _. by exists it.
  - intros name q ps qs _ IH Hp Hq parent it j Hj. destruct (IH (accepted_cap _ _ _ Hp) Hq _ _ _ Hj) as [i Hi].
    exists i. by rewrite seqs_cap.
  - intros p name q ps qs _ IH Hp Hq parent it j Hj. rewrite seqs_cap in Hj. by apply (IH Hp (accepted_cap _ _ _ Hq)) in Hj.
  - intros p q ps qs Ht _ IH Hp Hq parent it j Hj. apply accepted_cons in Hq as [_ Hq].
    apply outcome_bind_returns in Hj as ([i|] & E & Hj); [|done].
    apply kind_sound in E. assert (Ez : mult_kind q = Zero) by by destruct q. rewrite Ez in E. subst i. by apply (IH Hp Hq) in Hj.
  - intros zs q ps qs _ Hz Hm _ IH Hp Hq parent it j Hj.
    apply accepted_cons in Hp as [_ Hp]. apply accepted_app in Hq as [_ [_ Hq]%accepted_cons].
    rewrite seqs_app in Hj. apply outcome_bind_returns in Hj as ([i|] & E & Hj); [|done]. apply zeros_stay in E as ->; [|done].
    apply outcome_bind_returns in Hj as ([i|] & E & Hj); [|done]. apply kind_sound in E. rewrite Hm in E. destruct E as [-> E].
    apply (IH Hp Hq) in Hj as [x Hx]. exists x. cbn [seqs]. rewrite elem_eq. cbv zeta. by rewrite E.
  - intros p q ps qs _ IHp _ IH Hp Hq. apply accepted_cons in Hp as [Hp1 Hp2], Hq as [Hq1 Hq2]. by apply implies_cons; [apply IHp|apply IH].
  - intros ts us Hs _ _ parent it j. unfold elem. cbn [pos_match]. rewrite !bind_option.
    destruct (token_in us _) eqn:E; [|done]. apply token_in_elem, Hs, token_in_elem in E. by rewrite E.
  - intros ts us Hs _ _ parent it j. unfold elem. cbn [pos_match]. rewrite !bind_option.
    destruct (climb _ _ _ _) as [n|] eqn:E; [|done].
    assert (Hc : forall fuel p, is_Some (climb fuel h (fun d => token_in us (type_ d)) p) -> is_Some (climb fuel h (fun d => token_in ts (type_ d)) p)).
    { clear E. induction fuel0 as [|n' IH]; intros [m|]; cbn; try by intros [? [=]].
      destruct (token_in us _) eqn:E; [apply token_in_elem, Hs, token_in_elem in E; by rewrite E|].
      intros Hi. destruct (token_in ts _); [by eexists|by apply IH]. }
    destruct (Hc _ _ (mk_is_Some _ _ E)) as [m Em]. by rewrite Em.
  - by intros _ _ parent it j.
  - by intros _ _ parent it j.
  - intros ts q Hc Hn Hs _ Hq parent it j Hj.
    apply (one_of_kind fuel h q Hq (tokens_kind_one q Hq Hc Hn) Hn) in Hj as [-> (n & En & Hin)].
    rewrite elem_eq. cbv zeta. rewrite En. apply Hs, token_in_elem in Hin. by rewrite Hin.
  - intros p1 p2 q1 q2 _ IH1 _ IH2 Hp Hq parent it j Hj.
    apply accepted_children in Hp as (Mp & Hp1 & Hp2). apply accepted_children in Hq as (Mq & Hq1 & Hq2).
    rewrite elem_eq in Hj |- *. cbv zeta in Hj |- *. apply outcome_bind_returns in Hj as ([i|] & E & Hj); [|done].
    assert (Ei : i = S it). { rewrite <-pos_chain in E. apply mult_sound in E. by rewrite Mq in E; destruct E. }
    destruct (IH1 Hp1 Hq1 _ _ _ E) as [x Hx]. assert (Ex : x = S it).
    { pose proof Hx as Hx'. rewrite <-pos_chain in Hx'. apply mult_sound in Hx'. by rewrite Mp in Hx'; destruct Hx'. }
    subst i x. rewrite Hx. cbn [mbind outcome_bind].
    apply outcome_bind_returns in Hj as (n & En & Hj). rewrite En. cbn [mbind outcome_bind].
    apply outcome_bind_returns in Hj as ([y|] & E2 & [= <-]). destruct (IH2 Hp2 Hq2 _ _ _ E2) as [z Hz]. by rewrite Hz.
  - intros p q I1 _ I2 _ _ _ parent it j Hj. rewrite <-Hj. apply elem_rep_ext. by apply (incl_equal fuel h (psize p)).
  - intros p q I1 _ I2 _ _ _ parent it j Hj. rewrite <-Hj. apply elem_opt_ext. by apply (incl_equal fuel h (psize p)).
Qed.
End Sound.

(** * Trees of patterns *)

Section Shows.
Context (tokens : Registry) (h : heap) (N : Node -> Prop).

Definition token_node (n : Node) (t : Token) : Prop := N n /\ token_of_node tokens h n = Returns t.
Definition group_node (g : Node) (inner : list Node -> Prop) : Prop := N g /\ type_of h g = Group /\ inner (children_of h g).
Definition one_group (n : Node) (inner : list Node -> Prop) : Prop := exists g, children_of h n = [g] /\ group_node g inner.
Definition two_groups (n : Node) (inner1 inner2 : list Node -> Prop) : Prop :=
  exists g1 g2, children_of h n = [g1; g2] /\ group_node g1 inner1 /\ group_node g2 inner2.

(** The type of the node of a class *)
Definition kind_type (k : PatternKind) : Token :=
  match k with
  | Cap _ _ => reified.Cap | Anything => reified.Any | TokenMatch _ => reified.TokenMatch
  | RegexMatch _ _ => reified.RegexMatch | Opt _ => reified.Opt | Rep _ => reified.Rep | Not _ => reified.Not
  | Choice _ _ _ => reified.Choice | InsideStar _ => reified.InsideStar | Inside _ => reified.Inside
  | First => reified.First | Last => reified.Last | Children _ _ => reified.Children | Pred _ => reified.Pred
  | NegPred _ => reified.NegPred | Action _ _ => reified.Action
  end.

(** The nodes, which satisfy [N], are the tree of the pattern. *)
Fixpoint shows (p : PatternDef) (ns : list Node) {struct p} : Prop :=
  let '(Pat k c) := p in
  match ns with
  | [] => False
  | n :: ns =>
      (N n /\ type_of h n = kind_type k
       /\ match k with
          | Cap name q => exists g t, children_of h n = [g; t] /\ group_node g (shows q) /\ token_node t name
          | TokenMatch types | InsideStar types | Inside types => Forall2 token_node (children_of h n) types
          | RegexMatch type _ => exists t r, children_of h n = [t; r] /\ token_node t type /\ N r
          | Opt q | Rep q | Not q | Pred q | NegPred q | Action _ q => one_group n (shows q)
          | Choice _ q r | Children q r => two_groups n (shows q) (shows r)
          | Anything | First | Last => True
          end)
      /\ match c with None => ns = [] | Some c => shows c ns end
  end.
Definition shown (k : PatternKind) (n : Node) : Prop := shows (Pat k None) [n].

Lemma shows_chain p ns : shows p ns <-> Forall2 shown (chain p) ns.
Proof.
  revert ns. induction p as [k c _ Hc] using pattern_ind. intros [|n ns]; cbn [chain].
  - split; [done|]. by inversion 1.
  - rewrite Forall2_cons. unfold shown at 1. cbn [shows]. destruct c as [c|].
    + rewrite <-(Hc ns). tauto.
    + split; [intros [H ->]; split; [done|constructor]|]. intros [[H _] H2]. by inversion H2.
Qed.
Lemma shown_type k n : shown k n -> type_of h n = kind_type k.
Proof. by intros [(_ & E & _) _]. Qed.
Lemma group_chain g q : group_node g (shows q) -> type_of h g = Group /\ Forall2 shown (chain q) (children_of h g).
Proof. intros (_ & E & H). split; [done|]. by apply shows_chain. Qed.

Lemma field_at n t f i g : type_of h n = t -> wf_index reified.pattern_wf t f = i -> 0 <= i < 10 ->
  children_of h n !! Z.to_nat i = Some g -> pattern_field h n f = Returns g.
Proof.
  intros Et Ei Hi Hg. unfold pattern_field, node_slash, node_field. rewrite Et, Ei. cbv zeta.
  assert (E : (i =? size_max) = false) by (apply Z.eqb_neq; unfold size_max; lia). rewrite E. cbn [negb].
  unfold node_vector_at. pose proof (lookup_lt_Some _ _ _ Hg) as Hlt.
  rewrite (proj2 (Z.ltb_lt _ _)) by (unfold size_of; lia). by rewrite Hg.
Qed.
End Shows.

(** Tests of types that are known *)
Ltac test b :=
  let v := eval vm_compute in b in
  match v with true => idtac | false => idtac end;
  let H := fresh in assert (H : b = v) by (vm_compute; reflexivity); rewrite H; clear H.
Ltac tests :=
  repeat match goal with
  | |- context [token_in ?l ?t] => test (token_in l t)
  | |- context [token_eqb ?s ?t] => test (token_eqb s t)
  end; cbn [orb negb].
Ltac returned := try match goal with |- Returns _ = Returns _ -> _ => by intros [= <-] end.
Ltac field := erewrite field_at; [|eassumption|vm_compute; reflexivity|lia|];
  [cbn [mbind outcome_bind fmap outcome_fmap]|match goal with H : children_of _ ?n = _ |- children_of _ ?n !! _ = _ => rewrite H; reflexivity end].

Section Read.
Context (tokens : Registry) (h : heap) (N : Node -> Prop).
Abbreviation shown := (shown tokens h N).
Abbreviation shows := (shows tokens h N).
Abbreviation group_node := (group_node h N).

Lemma group_multiplicity (mult : Node -> outcome Multiplicity) ks ns sum m :
  Forall2 shown ks ns -> (forall k n m, shown k n -> mult n = Returns m -> m = mult_kind k) ->
  foldl (fun sum child => sum ← sum; m ← mult child; Returns (add_multiplicity sum m)) (Returns sum) ns = Returns m ->
  m = add_multiplicity sum (mult_chain ks).
Proof.
  intros Hs Hk. revert sum. induction Hs as [|k n ks ns H1 _ IH]; intros sum; cbn [foldl]; [intros [= <-]; by rewrite add_zero_r|].
  cbn [mbind outcome_bind]. destruct (mult n) as [x| |] eqn:E; cbn [mbind outcome_bind].
  - intros H. apply IH in H as ->. rewrite (Hk _ _ _ H1 E). apply add_assoc.
  - assert (Hf : forall ns, foldl (fun sum child => sum ← sum; m ← mult child; Returns (add_multiplicity sum m)) Throws ns = Throws)
      by (induction ns0; done). by rewrite Hf.
  - assert (Hf : forall ns, foldl (fun sum child => sum ← sum; m ← mult child; Returns (add_multiplicity sum m)) Undefined ns = Undefined)
      by (induction ns0; done). by rewrite Hf.
Qed.

(** [multiplicity] reads the multiplicity of the pattern. *)
Lemma multiplicity_reads : forall fuel,
  (forall k n m, shown k n -> multiplicity fuel h n = Returns m -> m = mult_kind k)
  /\ (forall q g m, group_node g (shows q) -> multiplicity fuel h g = Returns m -> m = mult_of q).
Proof.
  induction fuel as [|fuel [IHk IHg]]; [done|]. split.
  - intros k n m [(_ & Et & Hk) _]. cbn [multiplicity]. rewrite Et. unfold mult_kind. cbn [mult_of]. rewrite add_zero_r.
    destruct k as [name q| |types|type regex|q|q|q|l q r|types|types| | |q r|q|q|action q]; cbn [kind_type] in *; tests;
      returned.
    + destruct Hk as (g & t & Hc & Hg & _). field. by apply IHg.
    + destruct Hk as (g1 & g2 & Hc & Hg1 & Hg2). rewrite (field_at h n reified.Choice reified.First 0 g1), (field_at h n reified.Choice reified.Last 1 g2)
        by first [done|vm_compute; reflexivity|lia|by rewrite Hc].
      cbn [mbind outcome_bind fmap outcome_fmap]. intros (x & E1 & H)%outcome_bind_returns.
      apply outcome_bind_returns in H as (y & E2 & [= <-]). by rewrite (IHg _ _ _ Hg1 E1), (IHg _ _ _ Hg2 E2).
    + destruct Hk as (g1 & g2 & Hc & Hg & _). field. by apply IHg.
    + destruct Hk as (g & Hc & Hg). field. by apply IHg.
  - intros q g m Hg. apply group_chain in Hg as [Et Hg]. cbn [multiplicity]. rewrite Et. tests.
    intros H. apply (group_multiplicity _ _ _ _ _ Hg IHk) in H as ->. by rewrite mult_of_chain.
Qed.

Lemma nodes_tokens ns types : Forall2 (token_node tokens h N) ns types -> tokens_of_nodes tokens h ns = Returns types.
Proof. induction 1 as [|n t ns ts [_ E] _ IH]; [done|]. cbn [tokens_of_nodes]. by rewrite E; cbn [mbind outcome_bind]; rewrite IH. Qed.

Lemma group_reads mult only ks ns fd ts : Forall2 shown ks ns ->
  (forall k n m, shown k n -> mult n = Returns m -> m = mult_kind k) ->
  (forall k n ts, shown k n -> only n = Returns ts -> ts = tokens_kind k) ->
  group_tokens mult only ns fd = Returns ts -> ts = tokens_chain ks fd.
Proof.
  intros Hs Hm Ho. revert fd. induction Hs as [|k n ks ns H1 _ IH]; intros fd; cbn [group_tokens tokens_chain]; [by intros [= <-]|].
  intros (m & E & H)%outcome_bind_returns. apply (Hm _ _ _ H1) in E as ->. destruct (decide (mult_kind k = Zero)); [by apply IH|].
  destruct (bool_decide _ && bool_decide _); [|by injection H as <-].
  apply outcome_bind_returns in H as (us & E & H). apply (Ho _ _ _ H1) in E as ->. by apply IH.
Qed.

(** [only_tokens] reads the tokens of the pattern. *)
Lemma only_tokens_reads : forall fuel,
  (forall k n ts, shown k n -> only_tokens tokens fuel h n = Returns ts -> ts = tokens_kind k)
  /\ (forall q g ts, group_node g (shows q) -> only_tokens tokens fuel h g = Returns ts -> ts = tokens_of q []).
Proof.
  induction fuel as [|fuel [IHk IHg]]; [done|].
  assert (Hg : forall q g ts, type_of h g = Group -> Forall2 shown (chain q) (children_of h g) ->
    (if token_eqb (type_of h g) reified.TokenMatch then tokens_of_nodes tokens h (children_of h g)
     else if token_eqb (type_of h g) reified.RegexMatch then
       n ← pattern_field h g reified.Token; t ← token_of_node tokens h n; Returns [t]
     else if token_eqb (type_of h g) Group then
       group_tokens (multiplicity fuel h) (only_tokens tokens fuel h) (children_of h g) []
     else Returns []) = Returns ts -> ts = tokens_of q []).
  { intros q g ts Et Hc. rewrite Et. tests. intros H. rewrite tokens_of_chain.
    eapply group_reads; [done|apply (multiplicity_reads fuel)|exact IHk|exact H]. }
  split.
  - intros k n ts [(_ & Et & Hk) _]. cbn [only_tokens].
    destruct k as [name q| |types|type regex|q|q|q|l q r|types|types| | |q r|q|q|action q]; cbn [kind_type tokens_kind] in *;
      rewrite Et; tests; cbn [mbind outcome_bind]; cbv zeta; rewrite ?Et; tests; returned.
    + destruct Hk as (g & t & Hc & Hq & _). field. apply group_chain in Hq as [? ?]. by apply Hg.
    + intros H. rewrite (nodes_tokens _ _ Hk) in H. by injection H as <-.
    + destruct Hk as (t & r & Hc & [_ Et'] & _). field. rewrite Et'. by intros [= <-].
    + destruct Hk as (g1 & g2 & Hc & Hq & _). field. apply group_chain in Hq as [? ?]. by apply Hg.
  - intros q g ts Hq. apply group_chain in Hq as [Et Hc]. cbn [only_tokens]. rewrite Et. tests. cbn [mbind outcome_bind]. cbv zeta.
    by apply Hg.
Qed.
End Read.

(** ** Iterators *)

Section Iterators.
Context (h : heap).

(** What an iterator still visits: below a capture that is open, its rest comes first. *)
Definition outer (it : StackedIterator) : list Node := concat ((fun '(n, i) => drop (S i) (children_of h n)) <$> it).
Definition rest (it : StackedIterator) : list Node :=
  match it with [] => [] | (n, i) :: st => drop i (children_of h n) ++ outer st end.
Definition valid (it : StackedIterator) : Prop := Forall (fun '(n, i) => (i < length (children_of h n))%nat) it.

Lemma rest_cons n i st : valid ((n, i) :: st) -> exists x, children_of h n !! i = Some x /\ rest ((n, i) :: st) = x :: outer ((n, i) :: st).
Proof.
  intros [Hi _]%Forall_cons. destruct (lookup_lt_is_Some_2 _ _ Hi) as [x Hx]. exists x. split; [done|].
  unfold outer. cbn [rest fmap list_fmap concat]. by rewrite (drop_S _ x) by done.
Qed.
Lemma rest_nil it : valid it -> rest it = [] -> it = [].
Proof. destruct it as [|[n i] st]; [done|]. intros (x & _ & E)%rest_cons. by rewrite E. Qed.
Lemma deref_head it x : valid it -> stacked_deref h it = Returns x -> rest it = x :: outer it.
Proof.
  destruct it as [|[n i] st]; [done|]. intros (y & Ey & ->)%rest_cons. cbn [stacked_deref]. rewrite Ey. cbn [or_undefined].
  by intros [= ->].
Qed.
Lemma next_tail it it' : valid it -> stacked_next h it = Returns it' -> valid it' /\ rest it' = outer it.
Proof.
  induction it as [|[n i] st IH]; [done|]. intros [Hi Hst]%Forall_cons. cbn [stacked_next]. cbv zeta.
  destruct (S i =? length (children_of h n))%nat eqn:E.
  - apply Nat.eqb_eq in E. unfold outer. cbn [fmap list_fmap concat]. rewrite drop_ge by lia. cbn [app].
    destruct st as [|f st]; [by intros [= <-]|]. by apply IH.
  - apply Nat.eqb_neq in E. intros [= <-]. split; [|done]. constructor; [lia|done].
Qed.
Lemma push_rest g it x : valid it -> children_of h g <> [] -> rest it = x :: outer it ->
  valid (stacked_push g it) /\ rest (stacked_push g it) = children_of h g ++ outer it.
Proof.
  intros Hv Hg _. split; [|done]. constructor; [|done]. destruct (children_of h g); [done|cbn; lia].
Qed.
End Iterators.

Lemma cap_type q : token_eqb (kind_type q) reified.Cap = is_cap q.
Proof. destruct q; vm_compute; reflexivity. Qed.
Lemma transparent_type q : token_in [reified.Inside; reified.InsideStar; reified.First; reified.Last] (kind_type q) = transparent q.
Proof. destruct q; vm_compute; reflexivity. Qed.
Lemma kind_type_inside q : token_eqb (kind_type q) reified.Inside = true -> exists us, q = Inside us.
Proof. destruct q; try (by vm_compute); eauto. Qed.
Lemma kind_type_inside_star q : token_eqb (kind_type q) reified.InsideStar = true -> exists us, q = InsideStar us.
Proof. destruct q; try (by vm_compute); eauto. Qed.
Lemma kind_type_children q : token_eqb (kind_type q) reified.Children = true -> exists q1 q2, q = Children q1 q2.
Proof. destruct q; try (by vm_compute); eauto. Qed.
Lemma kind_type_rep q : token_eqb (kind_type q) reified.Rep = true -> exists q1, q = Rep q1.
Proof. destruct q; try (by vm_compute); eauto. Qed.
Lemma kind_type_opt q : token_eqb (kind_type q) reified.Opt = true -> exists q1, q = Opt q1.
Proof. destruct q; try (by vm_compute); eauto. Qed.
Lemma kind_type_first q : kind_type q = reified.First -> q = First.
Proof. by destruct q. Qed.
Lemma kind_type_last q : kind_type q = reified.Last -> q = Last.
Proof. by destruct q. Qed.

Lemma subset_elem ts us : tokens_are_subset ts us = true -> ts ⊆ us.
Proof. unfold tokens_are_subset. rewrite forallb_forall. intros H t Ht. apply token_in_elem, H. by apply list_elem_of_In. Qed.

Section Loop.
Context (tokens : Registry) (h : heap) (N : Node -> Prop).
Abbreviation shown := (shown tokens h N).
Abbreviation shows := (shows tokens h N).
Abbreviation group_node := (group_node h N).

(** The iterator is at the classes [ks]. *)
Definition at_kinds (it : StackedIterator) (ks : list PatternKind) : Prop := valid h it /\ Forall2 shown ks (rest h it).

Lemma at_nil it : at_kinds it [] -> it = [].
Proof. intros [Hv H]. inversion H as [E|]. by apply (rest_nil h). Qed.
Lemma at_end ks : at_kinds [] ks -> ks = [].
Proof. intros [_ H]. by inversion H. Qed.
Lemma at_cons it k ks n : at_kinds it (k :: ks) -> stacked_deref h it = Returns n -> shown k n.
Proof. intros [Hv H] E. apply deref_head in E; [|done]. rewrite E in H. by apply Forall2_cons in H as [? _]. Qed.
Lemma at_next it k ks it' : at_kinds it (k :: ks) -> stacked_next h it = Returns it' -> at_kinds it' ks.
Proof.
  intros [Hv H] E. destruct (next_tail h it it' Hv E) as [Hv' E']. split; [done|].
  destruct it as [|[n i] st]; [done|]. destruct (rest_cons h n i st Hv) as (x & _ & Ex). rewrite Ex in H. rewrite E'.
  by apply Forall2_cons in H as [_ ?].
Qed.
Lemma at_push it name q ks n : at_kinds it (Cap name q :: ks) -> stacked_deref h it = Returns n ->
  exists g, pattern_field h n Group = Returns g /\ at_kinds (stacked_push g it) (chain q ++ ks).
Proof.
  intros Hat E. pose proof (at_cons _ _ _ _ Hat E) as [(_ & Et & g & t & Hc & Hg & _) _]. exists g. split.
  - by eapply field_at; [exact Et|vm_compute; reflexivity|lia|rewrite Hc].
  - destruct Hat as [Hv H]. apply deref_head in E; [|done]. rewrite E in H. apply Forall2_cons in H as [_ H].
    apply group_chain in Hg as [_ Hg]. assert (Hne : children_of h g <> []).
    { intros E'. rewrite E' in Hg. destruct q. inversion Hg. }
    destruct (push_rest h g it n Hv Hne E) as [Hv' Er]. split; [done|]. rewrite Er. by apply Forall2_app.
Qed.
Lemma at_group q g : group_node g (shows q) -> at_kinds (stacked g) (chain q).
Proof.
  intros [_ Hg]%group_chain. split.
  - constructor; [|constructor]. destruct (children_of h g); [destruct q; inversion Hg|cbn; lia].
  - unfold stacked, rest, outer. cbn [fmap list_fmap concat]. by rewrite app_nil_r.
Qed.
Lemma at_nonempty it k ks : at_kinds it (k :: ks) -> exists f st, it = f :: st.
Proof. intros [_ H]. destruct it as [|f st]; [inversion H|eauto]. Qed.

Lemma skip_zero_spec : forall fuel it k ks n it' n', at_kinds it (k :: ks) -> stacked_deref h it = Returns n ->
  skip_zero fuel h it n = Returns (it', n') ->
  exists zs q qs, k :: ks = zs ++ q :: qs /\ Forall (fun k => mult_kind k = Zero) zs /\ at_kinds it' (q :: qs)
    /\ stacked_deref h it' = Returns n' /\ mult_kind q <> Zero.
Proof.
  induction fuel as [|fuel IH]; [done|]. intros it k ks n it' n' Hat En. cbn [skip_zero].
  pose proof (at_cons _ _ _ _ Hat En) as Hk. intros (m & Em & H)%outcome_bind_returns.
  apply (proj1 (multiplicity_reads tokens h N fuel) _ _ _ Hk) in Em as ->.
  destruct (decide (mult_kind k = Zero)) as [Hz|Hz].
  - apply outcome_bind_returns in H as (it2 & E2 & H). pose proof (at_next _ _ _ _ Hat E2) as Hat2.
    destruct ks as [|k2 ks].
    + apply at_nil in Hat2 as ->. destruct fuel as [|fuel]; [done|]. cbn [skip_zero] in H.
      apply outcome_bind_returns in H as (m & Em & H).
      apply (proj1 (multiplicity_reads tokens h N fuel) _ _ _ Hk) in Em as ->. rewrite decide_True in H by done. done.
    + destruct (at_nonempty _ _ _ Hat2) as (f & st & ->). apply outcome_bind_returns in H as (n2 & En2 & H).
      destruct (IH _ _ _ _ _ _ Hat2 En2 H) as (zs & q & qs & E & Hzs & Hrest). exists (k :: zs), q, qs.
      split; [by rewrite E|]. split; [by constructor|done].
  - injection H as <- <-. exists [], k, ks. split_and!; try done; constructor.
Qed.

(** One step of the loop over two groups *)
Definition reads (fuel : nat) : Prop := forall pi qi ps qs,
  at_kinds pi ps -> at_kinds qi qs -> includes_loop tokens fuel h pi qi = Returns true -> incl ps qs.
Definition includes (fuel : nat) (prefix pattern : Node) : outcome bool :=
  if negb (token_eqb (type_of h prefix) Group) || negb (token_eqb (type_of h pattern) Group) then Returns false
  else includes_loop tokens fuel h (stacked prefix) (stacked pattern).
Definition advance (fuel : nat) (pi qi : StackedIterator) : outcome bool :=
  pi ← stacked_next h pi; qi ← stacked_next h qi; includes_loop tokens fuel h pi qi.

Lemma includes_reads fuel p q g1 g2 : reads fuel -> group_node g1 (shows p) -> group_node g2 (shows q) ->
  includes fuel g1 g2 = Returns true -> incl (chain p) (chain q).
Proof.
  intros IH H1 H2. unfold includes. destruct (_ || _); [done|]. apply IH; by apply at_group.
Qed.
Lemma advance_reads fuel pi qi p ps q qs : reads fuel -> at_kinds pi (p :: ps) -> at_kinds qi (q :: qs) ->
  advance fuel pi qi = Returns true -> incl ps qs.
Proof.
  intros IH Hp Hq (a & Ea & (b & Eb & H)%outcome_bind_returns)%outcome_bind_returns.
  eapply IH; [by eapply at_next|by eapply at_next|done].
Qed.
Lemma equivalent_reads fuel p q n1 n2 t (k : outcome bool) : reads fuel -> type_of h n1 = t -> type_of h n2 = t ->
  wf_index reified.pattern_wf t Group = 0 -> one_group h N n1 (shows p) -> one_group h N n2 (shows q) ->
  (b ← (g1 ← pattern_field h n1 Group; g2 ← pattern_field h n2 Group;
        b ← includes fuel g1 g2; if negb b then Returns false else includes fuel g2 g1); if (b : bool) then k else Returns false) = Returns true ->
  incl (chain p) (chain q) /\ incl (chain q) (chain p) /\ k = Returns true.
Proof.
  intros IH E1 E2 Ei (g1 & C1 & G1) (g2 & C2 & G2).
  rewrite (field_at h n1 t Group 0 g1), (field_at h n2 t Group 0 g2) by first [done|lia|by rewrite ?C1, ?C2].
  cbn [mbind outcome_bind]. intros ([] & H & Hk)%outcome_bind_returns; [|done].
  apply outcome_bind_returns in H as ([] & H1 & H2); [|done].
  split_and!; [by eapply includes_reads|by eapply includes_reads|done].
Qed.

Lemma nodes_subset_reads n1 n2 ts us b : Forall2 (token_node tokens h N) (children_of h n1) ts ->
  Forall2 (token_node tokens h N) (children_of h n2) us ->
  nodes_subset tokens h n1 n2 = Returns b -> b = tokens_are_subset ts us.
Proof.
  intros H1 H2. unfold nodes_subset. destruct (_ || _); [done|].
  rewrite (nodes_tokens tokens h N _ _ H1), (nodes_tokens tokens h N _ _ H2). by intros [= <-].
Qed.

Ltac rewrite_tests H := revert H; tests; intros H.
Lemma any_reads fuel pi qi ps q qs n : reads fuel -> at_kinds pi (Anything :: ps) -> at_kinds qi (q :: qs) ->
  stacked_deref h qi = Returns n -> is_cap q = false ->
  ('(qi, n) ← skip_zero fuel h qi n; m ← multiplicity fuel h n; if decide (m = One) then advance fuel pi qi else Returns false)
    = Returns true -> incl (Anything :: ps) (q :: qs).
Proof.
  intros IH Hp Hq En Hcap H. apply outcome_bind_returns in H as ([it' n'] & E & H).
  destruct (skip_zero_spec _ _ _ _ _ _ _ Hq En E) as (zs & q' & qs' & Eq & Hzs & Hq' & En' & _). rewrite Eq.
  apply outcome_bind_returns in H as (m & Em & H). pose proof (at_cons _ _ _ _ Hq' En') as Sq'.
  apply (proj1 (multiplicity_reads tokens h N fuel) _ _ _ Sq') in Em as ->.
  destruct (decide (mult_kind q' = One)) as [Hm|]; [|done].
  apply incl_any; [|done|done|by apply (advance_reads fuel pi it' Anything ps q' qs')].
  intros ->. by injection Eq as <- _.
Qed.
Lemma token_reads fuel types pn q qn ts : shown (TokenMatch types) pn -> shown q qn -> is_cap q = false ->
  only_tokens tokens fuel h qn = Returns ts -> ts <> [] -> tokens_subset_of_node tokens h ts pn = Returns true ->
  paired (TokenMatch types) q.
Proof.
  intros Sp Sq Hcap E Hne H. apply (proj1 (only_tokens_reads tokens h N fuel) _ _ _ Sq) in E as ->.
  apply paired_token; [done..|]. apply subset_elem. pose proof (shown_type _ _ _ _ _ Sp) as Tp.
  unfold tokens_subset_of_node, token_matching in H. rewrite Tp in H. cbn [kind_type] in H. rewrite_tests H.
  destruct Sp as [(_ & _ & Hts) _]. rewrite (nodes_tokens tokens h N _ _ Hts) in H. by injection H as ->.
Qed.
Lemma children_reads fuel p1 p2 q1 q2 pn qn (k : outcome bool) : reads fuel ->
  shown (Children p1 p2) pn -> shown (Children q1 q2) qn ->
  (b ← (g1 ← pattern_field h pn Group; g2 ← pattern_field h qn Group; includes fuel g1 g2);
   if negb b then Returns false
   else b ← (g1 ← pattern_field h pn reified.Children; g2 ← pattern_field h qn reified.Children; includes fuel g1 g2);
        if (b : bool) then k else Returns false) = Returns true ->
  paired (Children p1 p2) (Children q1 q2) /\ k = Returns true.
Proof.
  intros IH [(_ & Tp & a1 & a2 & Ca & Ga1 & Ga2) _] [(_ & Tq & b1 & b2 & Cb & Gb1 & Gb2) _].
  rewrite (field_at h pn reified.Children Group 0 a1), (field_at h pn reified.Children reified.Children 1 a2),
    (field_at h qn reified.Children Group 0 b1), (field_at h qn reified.Children reified.Children 1 b2)
    by first [done|vm_compute; reflexivity|lia|by rewrite ?Ca, ?Cb].
  cbn [mbind outcome_bind]. intros ([] & H1 & H)%outcome_bind_returns; [|done]. cbn [negb] in H.
  apply outcome_bind_returns in H as ([] & H2 & H); [|done].
  split; [apply paired_children; by eapply includes_reads|done].
Qed.

Ltac open_cap H := match type of H with (if is_cap ?q then _ else _) = _ => destruct (is_cap q) eqn:Hcap;
  [destruct q; try discriminate Hcap; match goal with Hq : at_kinds _ (Cap _ _ :: _), E : stacked_deref _ _ = _, IH : reads _ |- _ =>
     destruct (at_push _ _ _ _ _ Hq E) as (g & Eg & Hg); rewrite Eg in H; cbn [mbind outcome_bind] in H;
     apply incl_cap_r; eapply IH; [eassumption|exact Hg|exact H] end|] end.
Ltac skip_one H := match type of H with (if transparent ?q then _ else _) = _ => destruct (transparent q) eqn:Ht;
  [let it := fresh "it" in let E := fresh "E" in apply outcome_bind_returns in H as (it & E & H); apply incl_skip; [exact Ht|];
   match goal with Hq : at_kinds ?qi (q :: _), IH : reads _ |- _ => eapply IH; [eassumption|exact (at_next _ _ _ _ Hq E)|exact H] end|] end.
Lemma loop_reads : forall fuel, reads fuel.
Proof.
  induction fuel as [|fuel IH]; [done|]. intros pi qi ps qs Hp Hq. cbn [includes_loop].
  destruct pi as [|f1 st1].
  { intros _. rewrite (at_end _ Hp). constructor. }
  destruct qi as [|f2 st2]; [done|]. set (pi := f1 :: st1) in *. set (qi := f2 :: st2) in *.
  intros (pn & Epn & (qn & Eqn & H)%outcome_bind_returns)%outcome_bind_returns.
  destruct ps as [|p ps]; [by apply at_nil in Hp|]. destruct qs as [|q qs]; [by apply at_nil in Hq|].
  pose proof (at_cons _ _ _ _ Hp Epn) as Sp. pose proof (at_cons _ _ _ _ Hq Eqn) as Sq.
  pose proof (shown_type _ _ _ _ _ Sp) as Tp. pose proof (shown_type _ _ _ _ _ Sq) as Tq.
  pose proof (advance_reads fuel pi qi p ps q qs IH Hp Hq) as Hadv. cbv zeta in H. rewrite Tp, Tq in H.
  change (pi ← stacked_next h pi; qi ← stacked_next h qi; includes_loop tokens fuel h pi qi) with (advance fuel pi qi) in H.
  destruct p as [name p1| |types|type regex|p1|p1|p1|l p1 p2|types|types| | |p1 p2|p1|p1|action p1]; cbn [kind_type] in *;
    rewrite_tests H; rewrite ?cap_type, ?transparent_type in H; try open_cap H; try skip_one H; try match type of H with Returns false = Returns true => done end.
  - destruct (at_push _ _ _ _ _ Hp Epn) as (g & Eg & Hg). rewrite Eg in H. cbn [mbind outcome_bind] in H.
    apply incl_cap_l. by apply (IH _ _ _ _ Hg Hq).
  - by apply (any_reads fuel pi qi ps q qs qn).
  - apply outcome_bind_returns in H as (us & E & H). destruct us as [|u us]; [done|].
    apply outcome_bind_returns in H as ([] & E' & H); [|done].
    apply incl_pair; [by apply (token_reads fuel types pn q qn (u :: us))|by apply Hadv].
  - destruct (token_eqb (kind_type q) reified.Opt) eqn:E; [|done]. apply kind_type_opt in E as [q1 ->].
    destruct (equivalent_reads fuel p1 q1 pn qn reified.Opt (advance fuel pi qi)) as (I1 & I2 & Ha);
      [done|done|done|vm_compute; reflexivity|by destruct Sp as [(_ & _ & ?) _]|by destruct Sq as [(_ & _ & ?) _]|exact H|].
    apply incl_pair; [by apply paired_opt|by apply Hadv].
  - destruct (token_eqb (kind_type q) reified.Rep) eqn:E; [|done]. apply kind_type_rep in E as [q1 ->].
    destruct (equivalent_reads fuel p1 q1 pn qn reified.Rep (advance fuel pi qi)) as (I1 & I2 & Ha);
      [done|done|done|vm_compute; reflexivity|by destruct Sp as [(_ & _ & ?) _]|by destruct Sq as [(_ & _ & ?) _]|exact H|].
    apply incl_pair; [by apply paired_rep|by apply Hadv].
  - destruct (token_eqb (kind_type q) _) eqn:E; [|done].
    apply kind_type_inside_star in E as [us ->]. apply outcome_bind_returns in H as ([] & E & H); [|done].
    destruct Sp as [(_ & _ & Hts) _]. destruct Sq as [(_ & _ & Hus) _]. apply (nodes_subset_reads _ _ _ _ _ Hus Hts) in E.
    apply incl_pair; [by apply paired_inside_star, subset_elem|by apply Hadv].
  - destruct (token_eqb (kind_type q) _) eqn:E; [|done].
    apply kind_type_inside in E as [us ->]. apply outcome_bind_returns in H as ([] & E & H); [|done].
    destruct Sp as [(_ & _ & Hts) _]. destruct Sq as [(_ & _ & Hus) _]. apply (nodes_subset_reads _ _ _ _ _ Hus Hts) in E.
    apply incl_pair; [by apply paired_inside, subset_elem|by apply Hadv].
  - destruct (bool_decide_reflect (qn = pn)) as [->|]; [|done].
    rewrite Tp in Tq. symmetry in Tq. apply kind_type_first in Tq as ->.
    apply incl_pair; [by apply paired_first|by apply Hadv].
  - destruct (bool_decide_reflect (qn = pn)) as [->|]; [|done].
    rewrite Tp in Tq. symmetry in Tq. apply kind_type_last in Tq as ->.
    apply incl_pair; [by apply paired_last|by apply Hadv].
  - destruct (token_eqb (kind_type q) reified.Children) eqn:E; [|done]. apply kind_type_children in E as (q1 & q2 & ->).
    apply (children_reads fuel p1 p2 q1 q2 pn qn (advance fuel pi qi) IH Sp Sq) in H as [Hc H].
    apply incl_pair; [done|by apply Hadv].
Qed.
End Loop.

(** * Fuel *)

(** Only the classes an iterator skips anyway match no node. *)
Fixpoint no_lookahead (p : PatternDef) : bool :=
  let '(Pat k c) := p in
  (negb (bool_decide (mult_kind k = Zero)) || transparent k || is_cap k)
  && match k with
     | Cap _ q | Opt q | Rep q | Not q | Pred q | NegPred q | Action _ q => no_lookahead q
     | Choice _ q r | Children q r => no_lookahead q && no_lookahead r
     | _ => true
     end
  && match c with Some c => no_lookahead c | None => true end.
Definition kind_plain (k : PatternKind) : bool := no_lookahead (Pat k None).
Definition total (ks : list PatternKind) : nat := foldr (fun k n => ksize k + n)%nat O ks.

Lemma no_lookahead_chain p : no_lookahead p = forallb kind_plain (chain p).
Proof.
  induction p as [k c _ Hc] using pattern_ind. cbn [chain forallb]. unfold kind_plain at 1. cbn [no_lookahead].
  rewrite andb_true_r. f_equal. destruct c as [c|]; [apply Hc|done].
Qed.
Lemma total_chain p : total (chain p) = psize p.
Proof.
  induction p as [k c _ Hc] using pattern_ind. unfold total in *. cbn [chain foldr]. unfold ksize at 1. cbn [psize].
  destruct c as [c|]; [rewrite Hc; lia|cbn [foldr]; lia].
Qed.
Lemma total_app ks ls : total (ks ++ ls) = (total ks + total ls)%nat.
Proof. induction ks as [|k ks IH]; [done|]. cbn [app total foldr] in *. unfold total in *. lia. Qed.
Lemma total_elem k ks : k ∈ ks -> (ksize k <= total ks)%nat.
Proof. induction 1; cbn [total foldr]; [|unfold total in *]; lia. Qed.
Lemma ksize_inside k : (ksize k = 1 + match k with
  | Cap _ q | Opt q | Rep q | Not q | Pred q | NegPred q | Action _ q => psize q
  | Choice _ q r | Children q r => psize q + psize r
  | _ => 0 end)%nat.
Proof. unfold ksize. cbn [psize]. by destruct k; rewrite Nat.add_0_r. Qed.

Section Fuel.
Context (tokens : Registry) (h : heap) (N : Node -> Prop).
Abbreviation shown := (shown tokens h N).
Abbreviation shows := (shows tokens h N).
Abbreviation group_node := (group_node h N).

Lemma sum_returns (mult : Node -> outcome Multiplicity) ns sum : Forall (fun n => exists m, mult n = Returns m) ns ->
  exists m, foldl (fun sum child => sum ← sum; m ← mult child; Returns (add_multiplicity sum m)) (Returns sum) ns = Returns m.
Proof.
  intros H. revert sum. induction H as [|n ns (m & E) _ IH]; intros sum; cbn [foldl]; [eauto|].
  cbn [mbind outcome_bind]. rewrite E. apply IH.
Qed.
Lemma chain_nodes fuel q ns (P : Node -> Prop) : Forall2 shown (chain q) ns -> (2 * psize q <= fuel)%nat ->
  (forall k n, shown k n -> (2 * ksize k <= fuel)%nat -> P n) -> Forall P ns.
Proof.
  intros Hs Hf HP. rewrite <-total_chain in Hf. induction Hs as [|k n ks ns H _ IH]; [constructor|].
  unfold total in *. cbn [foldr] in Hf. constructor; [apply (HP k n H); lia|apply IH; lia].
Qed.

Lemma multiplicity_returns : forall fuel,
  (forall k n, shown k n -> (2 * ksize k <= fuel)%nat -> exists m, multiplicity fuel h n = Returns m)
  /\ (forall q g, group_node g (shows q) -> (2 * psize q < fuel)%nat -> exists m, multiplicity fuel h g = Returns m).
Proof.
  induction fuel as [|fuel [IHk IHg]]; [split; [intros k n _; rewrite ksize_inside; lia|intros; lia]|]. split.
  - intros k n [(_ & Et & Hk) _]. rewrite ksize_inside. cbn [multiplicity]. rewrite Et.
    destruct k as [name q| |types|type regex|q|q|q|l q r|types|types| | |q r|q|q|action q]; cbn [kind_type] in *; tests; intros Hf;
      try (by eexists).
    + destruct Hk as (g & t & Hc & Hg & _). field. apply (IHg q); [done|lia].
    + destruct Hk as (g1 & g2 & Hc & Hg1 & Hg2). rewrite (field_at h n reified.Choice reified.First 0 g1), (field_at h n reified.Choice reified.Last 1 g2)
        by first [done|vm_compute; reflexivity|lia|by rewrite Hc].
      cbn [mbind outcome_bind]. destruct (IHg q g1) as [x ->]; [done|lia|]. destruct (IHg r g2) as [y ->]; [done|lia|]. by eexists.
    + destruct Hk as (g1 & g2 & Hc & Hg & _). field. apply (IHg q); [done|lia].
    + destruct Hk as (g & Hc & Hg). field. apply (IHg q); [done|lia].
  - intros q g Hg Hf. apply group_chain in Hg as [Et Hg]. cbn [multiplicity]. rewrite Et. tests. apply sum_returns.
    eapply (chain_nodes fuel); [exact Hg|lia|exact IHk].
Qed.

Lemma group_returns mult only ns fd : Forall (fun n => (exists m, mult n = Returns m) /\ exists ts, only n = Returns ts) ns ->
  exists ts, group_tokens mult only ns fd = Returns ts.
Proof.
  intros H. revert fd. induction H as [|n ns ((m & Em) & ts & Et) _ IH]; intros fd; cbn [group_tokens]; [eauto|].
  rewrite Em. cbn [mbind outcome_bind]. destruct (decide _); [apply IH|]. destruct (_ && _); [|eauto]. rewrite Et. apply IH.
Qed.
Lemma only_tokens_returns : forall fuel k n, shown k n -> (2 * ksize k <= fuel)%nat -> exists ts, only_tokens tokens fuel h n = Returns ts.
Proof.
  induction fuel as [|fuel IH]; [intros k n _; rewrite ksize_inside; lia|]. intros k n Hk. rewrite ksize_inside. intros Hf.
  assert (Hg : forall q g, group_node g (shows q) -> (2 * psize q <= fuel)%nat ->
    exists ts, group_tokens (multiplicity fuel h) (only_tokens tokens fuel h) (children_of h g) [] = Returns ts).
  { intros q g [_ Hq]%group_chain Hs. apply group_returns. eapply (chain_nodes fuel); [exact Hq|done|].
    intros k' n' H1 H2. split; [by apply (proj1 (multiplicity_returns fuel) k')|by apply (IH k')]. }
  destruct Hk as [(_ & Et & Hk) _]. cbn [only_tokens].
  destruct k as [name q| |types|type regex|q|q|q|l q r|types|types| | |q r|q|q|action q]; cbn [kind_type] in *;
    rewrite Et; tests; cbn [mbind outcome_bind]; cbv zeta; rewrite ?Et; tests; try (by eexists).
  - destruct Hk as (g & t & Hc & Hq & _). field. pose proof (group_chain _ _ _ _ _ Hq) as [Eg _]. rewrite Eg. tests. apply (Hg q); [done|lia].
  - rewrite (nodes_tokens tokens h N _ _ Hk). by eexists.
  - destruct Hk as (t & r & Hc & [_ Et'] & _). field. rewrite Et'. by eexists.
  - destruct Hk as (g1 & g2 & Hc & Hq & _). field. pose proof (group_chain _ _ _ _ _ Hq) as [Eg _]. rewrite Eg. tests. apply (Hg q); [done|lia].
Qed.
End Fuel.

Section Answers.
Context (tokens : Registry) (h : heap) (N : Node -> Prop).
Abbreviation shown := (shown tokens h N).
Abbreviation shows := (shows tokens h N).
Abbreviation group_node := (group_node h N).
Abbreviation at_kinds := (at_kinds tokens h N).

Lemma next_returns it : it <> [] -> exists it', stacked_next h it = Returns it'.
Proof.
  induction it as [|[n i] st IH]; [done|]. intros _. cbn [stacked_next]. destruct (_ =? _)%nat; [|by eexists].
  destruct st as [|f st]; [by eexists|by apply IH].
Qed.
Lemma at_deref it k ks : at_kinds it (k :: ks) -> exists n, stacked_deref h it = Returns n /\ shown k n.
Proof.
  intros Hat. destruct (at_nonempty _ _ _ _ _ _ Hat) as ([n i] & st & ->). pose proof (proj1 Hat) as Hv.
  destruct (rest_cons h n i st Hv) as (x & Hx & _). assert (E : stacked_deref h ((n, i) :: st) = Returns x) by (cbn [stacked_deref]; by rewrite Hx).
  exists x. split; [done|]. by eapply at_cons.
Qed.

Definition small (fuel : nat) (ps qs : list PatternKind) : Prop :=
  forallb kind_plain ps = true /\ forallb kind_plain qs = true /\ (2 * (total ps + total qs) < fuel)%nat.
(** The loop returns with fuel for two groups. *)
Definition answers (fuel : nat) : Prop := forall pi qi ps qs, at_kinds pi ps -> at_kinds qi qs -> small fuel ps qs ->
  exists b, includes_loop tokens fuel h pi qi = Returns b.

Lemma includes_answers fuel p q g1 g2 : answers fuel -> group_node g1 (shows p) -> group_node g2 (shows q) ->
  small fuel (chain p) (chain q) -> exists b, includes tokens h fuel g1 g2 = Returns b.
Proof.
  intros IH H1 H2 Hs. unfold includes. destruct (_ || _); [by eexists|]. by apply (IH _ _ (chain p) (chain q)); [apply at_group..|].
Qed.
Lemma advance_answers fuel pi qi p ps q qs : answers fuel -> at_kinds pi (p :: ps) -> at_kinds qi (q :: qs) ->
  small (S fuel) (p :: ps) (q :: qs) -> exists b, advance tokens h fuel pi qi = Returns b.
Proof.
  intros IH Hp Hq (H1 & H2 & Hf). unfold advance. cbn [forallb] in H1, H2. apply andb_prop in H1 as [_ H1], H2 as [_ H2].
  destruct (at_nonempty _ _ _ _ _ _ Hp) as (f1 & st1 & E1), (at_nonempty _ _ _ _ _ _ Hq) as (f2 & st2 & E2).
  destruct (next_returns pi) as [a Ea]; [by rewrite E1|]. destruct (next_returns qi) as [b Eb]; [by rewrite E2|].
  rewrite Ea, Eb. cbn [mbind outcome_bind]. apply (IH a b ps qs).
  - by eapply at_next.
  - by eapply at_next.
  - split_and!; try done. unfold total in *. cbn [foldr] in Hf. pose proof (ksize_inside p). pose proof (ksize_inside q). lia.
Qed.
Lemma equivalent_answers fuel p q n1 n2 t (k : outcome bool) : answers fuel -> (exists b, k = Returns b) ->
  type_of h n1 = t -> type_of h n2 = t -> wf_index reified.pattern_wf t Group = 0 ->
  one_group h N n1 (shows p) -> one_group h N n2 (shows q) -> small fuel (chain p) (chain q) ->
  exists b, (b ← (g1 ← pattern_field h n1 Group; g2 ← pattern_field h n2 Group;
        b ← includes tokens h fuel g1 g2; if negb b then Returns false else includes tokens h fuel g2 g1);
      if (b : bool) then k else Returns false) = Returns b.
Proof.
  intros IH Hk E1 E2 Ei (g1 & C1 & G1) (g2 & C2 & G2) Hs.
  rewrite (field_at h n1 t Group 0 g1), (field_at h n2 t Group 0 g2) by first [done|lia|by rewrite ?C1, ?C2].
  cbn [mbind outcome_bind]. destruct (includes_answers fuel p q g1 g2) as [[] ->]; try done; cbn [mbind outcome_bind negb]; [|by eexists].
  destruct (includes_answers fuel q p g2 g1) as [[] ->]; try done; [|by eexists].
  destruct Hs as (? & ? & ?). split_and!; [done..|lia].
Qed.

Lemma subset_answers n1 n2 ts us : Forall2 (token_node tokens h N) (children_of h n1) ts ->
  Forall2 (token_node tokens h N) (children_of h n2) us -> token_matching h n1 = true -> token_matching h n2 = true ->
  exists b, nodes_subset tokens h n1 n2 = Returns b.
Proof.
  intros H1 H2 E1 E2. unfold nodes_subset. rewrite E1, E2. cbn [negb orb].
  rewrite (nodes_tokens tokens h N _ _ H1), (nodes_tokens tokens h N _ _ H2). by eexists.
Qed.
Lemma children_answers fuel p1 p2 q1 q2 pn qn (k : outcome bool) : answers fuel -> (exists b, k = Returns b) ->
  shown (Children p1 p2) pn -> shown (Children q1 q2) qn -> small fuel (chain p1) (chain q1) -> small fuel (chain p2) (chain q2) ->
  exists b, (b ← (g1 ← pattern_field h pn Group; g2 ← pattern_field h qn Group; includes tokens h fuel g1 g2);
   if negb b then Returns false
   else b ← (g1 ← pattern_field h pn reified.Children; g2 ← pattern_field h qn reified.Children; includes tokens h fuel g1 g2);
        if (b : bool) then k else Returns false) = Returns b.
Proof.
  intros IH Hk [(_ & Tp & a1 & a2 & Ca & Ga1 & Ga2) _] [(_ & Tq & b1 & b2 & Cb & Gb1 & Gb2) _] S1 S2.
  rewrite (field_at h pn reified.Children Group 0 a1), (field_at h pn reified.Children reified.Children 1 a2),
    (field_at h qn reified.Children Group 0 b1), (field_at h qn reified.Children reified.Children 1 b2)
    by first [done|vm_compute; reflexivity|lia|by rewrite ?Ca, ?Cb].
  cbn [mbind outcome_bind]. destruct (includes_answers fuel p1 q1 a1 b1) as [[] ->]; try done; cbn [mbind outcome_bind negb]; [|by eexists].
  destruct (includes_answers fuel p2 q2 a2 b2) as [[] ->]; try done. by eexists.
Qed.

Lemma small_cons fuel p ps q qs : small fuel (p :: ps) (q :: qs) ->
  kind_plain p = true /\ kind_plain q = true /\ forallb kind_plain ps = true /\ forallb kind_plain qs = true
  /\ (2 * (ksize p + total ps + (ksize q + total qs)) < fuel)%nat.
Proof. intros (H1 & H2 & Hf). cbn [forallb] in *. apply andb_prop in H1 as [? ?], H2 as [? ?]. by split_and!. Qed.
Lemma plain_inside k : kind_plain k = true ->
  match k with
  | Cap _ q | Opt q | Rep q | Not q | Pred q | NegPred q | Action _ q => forallb kind_plain (chain q) = true
  | Choice _ q r | Children q r => forallb kind_plain (chain q) = true /\ forallb kind_plain (chain r) = true
  | _ => True
  end.
Proof.
  unfold kind_plain. cbn [no_lookahead]. rewrite andb_true_r, andb_true_iff. intros [_ H].
  destruct k; rewrite <-?no_lookahead_chain; try done. all: by apply andb_prop in H.
Qed.
Lemma plain_not_zero k : kind_plain k = true -> transparent k = false -> is_cap k = false -> mult_kind k <> Zero.
Proof.
  unfold kind_plain. cbn [no_lookahead]. intros H Ht Hc E. rewrite Ht, Hc, (bool_decide_eq_true_2 _ E) in H. done.
Qed.
Ltac show_goal := match goal with |- ?G => idtac G end.
Lemma any_answers fuel pi qi p ps q qs n : at_kinds qi (q :: qs) -> stacked_deref h qi = Returns n ->
  mult_kind q <> Zero -> (2 * ksize q < fuel)%nat -> (exists b, advance tokens h fuel pi qi = Returns b) ->
  small (S fuel) (p :: ps) (q :: qs) ->
  exists b, ('(qi, n) ← skip_zero fuel h qi n; m ← multiplicity fuel h n;
    if decide (m = One) then advance tokens h fuel pi qi else Returns false) = Returns b.
Proof.
  intros Hq En Hz Hf Ha Hs. pose proof (at_cons _ _ _ _ _ _ _ Hq En) as Sq. destruct fuel as [|fuel]; [lia|].
  destruct (proj1 (multiplicity_returns tokens h N fuel) q n Sq ltac:(lia)) as [m Em].
  destruct (proj1 (multiplicity_returns tokens h N (S fuel)) q n Sq ltac:(lia)) as [m' Em'].
  cbn [skip_zero]. rewrite Em. cbn [mbind outcome_bind].
  rewrite decide_False by (by rewrite (proj1 (multiplicity_reads tokens h N fuel) _ _ _ Sq Em)).
  cbn [mbind outcome_bind]. rewrite Em'. cbn [mbind outcome_bind]. destruct (decide _); [done|by eexists].
Qed.

Lemma loop_answers : forall fuel, answers fuel.
Proof.
  induction fuel as [|fuel IH]; [intros ? ? ? ? _ _ (_ & _ & Hf); lia|]. intros pi qi ps qs Hp Hq Hs. cbn [includes_loop].
  destruct pi as [|f1 st1]; [by eexists|]. destruct qi as [|f2 st2]; [by eexists|].
  set (pi := f1 :: st1) in *. set (qi := f2 :: st2) in *.
  destruct ps as [|p ps]; [by apply at_nil in Hp|]. destruct qs as [|q qs]; [by apply at_nil in Hq|].
  destruct (at_deref _ _ _ Hp) as (pn & Epn & Sp), (at_deref _ _ _ Hq) as (qn & Eqn & Sq). rewrite Epn, Eqn.
  pose proof (shown_type _ _ _ _ _ Sp) as Tp. pose proof (shown_type _ _ _ _ _ Sq) as Tq.
  pose proof (advance_answers fuel pi qi p ps q qs IH Hp Hq Hs) as Hadv. cbn [mbind outcome_bind]. cbv zeta. rewrite Tp, Tq.
  change (pi ← stacked_next h pi; qi ← stacked_next h qi; includes_loop tokens fuel h pi qi) with (advance tokens h fuel pi qi).
  destruct (small_cons _ _ _ _ _ Hs) as (Pp & Pq & Pps & Pqs & Hf).
  pose proof (plain_inside p Pp) as Ip. pose proof (plain_inside q Pq) as Iq.
  pose proof (ksize_inside p) as Kp. pose proof (ksize_inside q) as Kq.
  destruct p as [name p1| |types|type regex|p1|p1|p1|l p1 p2|types|types| | |p1 p2|p1|p1|action p1]; cbn [kind_type] in *;
    tests; rewrite ?cap_type, ?transparent_type.
  { destruct (at_push _ _ _ _ _ _ _ _ Hp Epn) as (g & -> & Hg). cbn [mbind outcome_bind].
    apply (IH _ _ _ _ Hg Hq). split_and!; [by rewrite forallb_app, Ip|by cbn [forallb]; rewrite Pq|].
    rewrite total_app, total_chain. unfold total in *. cbn [foldr] in *. lia. }
  all: destruct (is_cap q) eqn:Hc; [destruct q; try discriminate Hc; destruct (at_push _ _ _ _ _ _ _ _ Hq Eqn) as (g & -> & Hg);
    cbn [mbind outcome_bind]; apply (IH _ _ _ _ Hp Hg); split_and!; [by cbn [forallb]; rewrite Pp|by rewrite forallb_app, Iq|];
    rewrite total_app, total_chain; unfold total in *; cbn [foldr] in *; lia|].
  all: try match goal with |- context [if transparent ?k then _ else _] => destruct (transparent k) eqn:Ht;
    [destruct (next_returns qi) as [it Eit]; [done|]; rewrite Eit; cbn [mbind outcome_bind];
     apply (IH _ _ _ _ Hp (at_next _ _ _ _ _ _ _ Hq Eit)); split_and!; [by cbn [forallb]; rewrite Pp|done|unfold total in *; cbn [foldr] in *; lia]|] end.
  all: try match goal with |- exists b, Returns false = _ => by eexists end.
  - apply (any_answers fuel pi qi Anything ps q qs qn); try done; [by apply plain_not_zero|clear Kq; lia].
  - destruct (only_tokens_returns tokens h N fuel q qn Sq ltac:(lia)) as [us ->]. cbn [mbind outcome_bind].
    destruct us as [|u us]; [by eexists|]. unfold tokens_subset_of_node, token_matching. rewrite Tp. tests.
    destruct Sp as [(_ & _ & Hts) _]. rewrite (nodes_tokens tokens h N _ _ Hts). cbn [mbind outcome_bind].
    destruct (tokens_are_subset _ _); [done|by eexists].
  - destruct (token_eqb (kind_type q) _) eqn:E; [apply kind_type_opt in E as [q1 ->]|by eexists].
    apply (equivalent_answers fuel p1 q1 pn qn _ _ IH Hadv Tp Tq); [vm_compute; reflexivity|by destruct Sp as [(_ & _ & ?) _]|by destruct Sq as [(_ & _ & ?) _]|].
    split_and!; [done|done|rewrite !total_chain; lia].
  - destruct (token_eqb (kind_type q) _) eqn:E; [apply kind_type_rep in E as [q1 ->]|by eexists].
    apply (equivalent_answers fuel p1 q1 pn qn _ _ IH Hadv Tp Tq); [vm_compute; reflexivity|by destruct Sp as [(_ & _ & ?) _]|by destruct Sq as [(_ & _ & ?) _]|].
    split_and!; [done|done|rewrite !total_chain; lia].
  - destruct (token_eqb (kind_type q) _) eqn:E; [apply kind_type_inside_star in E as [us ->]|by eexists].
    destruct Sp as [(_ & _ & Hts) _]. destruct Sq as [(_ & _ & Hus) _].
    destruct (subset_answers _ _ _ _ Hus Hts) as [[] ->]; [unfold token_matching; rewrite Tq; vm_compute; reflexivity
      |unfold token_matching; rewrite Tp; vm_compute; reflexivity|done|by eexists].
  - destruct (token_eqb (kind_type q) _) eqn:E; [apply kind_type_inside in E as [us ->]|by eexists].
    destruct Sp as [(_ & _ & Hts) _]. destruct Sq as [(_ & _ & Hus) _].
    destruct (subset_answers _ _ _ _ Hus Hts) as [[] ->]; [unfold token_matching; rewrite Tq; vm_compute; reflexivity
      |unfold token_matching; rewrite Tp; vm_compute; reflexivity|done|by eexists].
  - destruct (bool_decide _); [done|by eexists].
  - destruct (bool_decide _); [done|by eexists].
  - destruct (token_eqb (kind_type q) _) eqn:E; [apply kind_type_children in E as (q1 & q2 & ->)|by eexists].
    destruct Ip as [? ?], Iq as [? ?].
    apply (children_answers fuel p1 p2 q1 q2 pn qn _ IH Hadv Sp Sq); split_and!; try done; rewrite !total_chain; lia.
Qed.
End Answers.

(** * What [reify] builds *)

(** A node's type, children and location *)
Definition look (h : heap) (n : Node) : Token * list Node * Location := (type_of h n, children_of h n, location_of h n).
Definition made (h h' : heap) (n : Node) : Prop := (n ∉ dom h) /\ (n ∈ dom h').
(** New nodes only, and new children at most for [p] *)
Definition adds (p : option Node) (h h' : heap) : Prop :=
  dom h ⊆ dom h' /\ forall n, n ∈ dom h -> Some n <> p -> look h' n = look h n.

Lemma adds_refl p h : adds p h h.
Proof. by split. Qed.
Lemma adds_trans p h1 h2 h3 : adds p h1 h2 -> adds p h2 h3 -> adds p h1 h3.
Proof. intros [D1 A1] [D2 A2]. split; [by etransitivity|]. intros n Hn Hp. rewrite A2, A1 by set_solver. done. Qed.
Lemma adds_fresh p n h1 h2 h3 : adds p h1 h2 -> n ∉ dom h1 -> adds (Some n) h2 h3 -> adds p h1 h3.
Proof.
  intros [D1 A1] Hn [D2 A2]. split; [by etransitivity|]. intros m Hm Hp. rewrite A2, A1 by set_solver. done.
Qed.
Lemma adds_any p h h' : adds None h h' -> adds p h h'.
Proof. intros [D A]. split; [done|]. intros n Hn _. by apply A. Qed.

Lemma look_alter f h n m : (forall d, type_ (f d) = type_ d /\ children (f d) = children d /\ location_ (f d) = location_ d) ->
  look (alter f n h) m = look h m /\ dom (alter f n h) = dom h.
Proof.
  intros Hf. split; [|by rewrite dom_alter_L]. unfold look, type_of, children_of, location_of, node_at.
  rewrite lookup_alter. case_decide as E; [rewrite E|done]. destruct (h !! m) as [d|]; [|done]. cbn. by destruct (Hf d) as (-> & -> & ->).
Qed.
Lemma look_flags fuel test set h c n : look (add_flag_loop fuel test set h c) n = look h n
  /\ dom (add_flag_loop fuel test set h c) = dom h.
Proof.
  revert h c. induction fuel as [|fuel IH]; intros h [c|]; try done. cbn [add_flag_loop]. destruct (test _); [done|].
  destruct (IH (alter (with_flags set) c h) (parent_of h c)) as [-> ->]. by apply look_alter.
Qed.
Lemma look_adopt h this n m : look (adopt h this n) m = look h m /\ dom (adopt h this n) = dom h.
Proof.
  unfold adopt. destruct (look_alter (with_parent (Some this)) h n m) as [<- <-]; [done|].
  unfold add_flags. destruct (_ || _); [apply look_flags|]. destruct (_ || _); [apply look_flags|done].
Qed.
Lemma push_look h p n m : p ∈ dom h -> let h' := push_back h p (Some n) in
  dom h' = dom h /\ look h' m = (if decide (m = p) then (type_of h p, children_of h p ++ [n], location_of h p) else look h m).
Proof.
  intros Hp. cbn [push_back]. destruct (look_adopt (alter (with_children (fun c => c ++ [n])) p h) p n m) as [-> ->].
  split; [by rewrite dom_alter_L|]. unfold look, type_of, children_of, location_of, node_at.
  rewrite lookup_alter. apply elem_of_dom in Hp as [d Hd]. case_decide as E.
  - subst m. rewrite decide_True by done. by rewrite Hd.
  - by rewrite decide_False.
Qed.
Lemma create_look h t l n h' m : create h t l = (n, h') -> (n ∉ dom h) /\ dom h' = {[n]} ∪ dom h
  /\ look h' m = (if decide (m = n) then (t, [], l) else look h m).
Proof.
  unfold create. intros [= <- <-]. split; [apply is_fresh|]. split; [by rewrite dom_insert_L|].
  unfold look, type_of, children_of, location_of, node_at. case_decide as E; [rewrite E, lookup_insert_eq; done|].
  by rewrite lookup_insert_ne.
Qed.

(** An allocated node stays allocated; a new one was not; a node that got no child looks the same. *)
Ltac in_dom := solve [repeat first [assumption|match goal with D : dom _ ⊆ dom ?b |- _ ∈ dom ?b => apply D end]].
Ltac unmade := match goal with M : ?n ∉ dom _ |- False => solve [apply M; in_dom] end.
Ltac other := first [discriminate|let X := fresh in intros [= X]; first [congruence|subst; unmade]].
Ltac is_made := split; [intros ?; unmade|in_dom].
Ltac stays A := rewrite A; [|in_dom|other].

(** ** Names *)

Lemma text_name_bytes s : BuildAst.text_name (bytes s) = s.
Proof. induction s as [|c s IH]; [done|]. cbn [bytes BuildAst.text_name]. by rewrite N2Z.id, Ascii.ascii_N_embedding, IH. Qed.

Section Reified.
Context (id : positive) (tokens : Registry).

(** [find_token] finds the token by its name. *)
Definition known (t : Token) : Prop := token_map tokens !! name t = Some t /\ Z.of_nat (length (bytes (name t))) < npos.

Lemma text_token h n t l : known t -> look h n = (reified.Token, l, location_of_string id (bytes (name t))) ->
  token_of_node tokens h n = Returns t.
Proof.
  intros [Ht Hl] [= _ _ E]. unfold token_of_node, node_view. rewrite E, JsonSpec.location_string_ok by done.
  cbn [mbind outcome_bind]. unfold find_token. by rewrite text_name_bytes, Ht.
Qed.

(** ** Trees stay *)

Lemma token_stable h h' (N N' : Node -> Prop) n t : (forall n, N n -> N' n /\ look h' n = look h n) ->
  token_node tokens h N n t -> token_node tokens h' N' n t.
Proof.
  intros HN [Hn E]. destruct (HN n Hn) as [Hn' [= _ _ El]]. split; [done|]. unfold token_of_node, node_view in *. by rewrite El.
Qed.
Lemma shows_ext h h' (N N' : Node -> Prop) : (forall n, N n -> N' n /\ look h' n = look h n) ->
  forall p ns, shows tokens h N p ns -> shows tokens h' N' p ns.
Proof.
  intros HN.
  assert (Ht : forall n t, token_node tokens h N n t -> token_node tokens h' N' n t) by (intros ? ?; by apply token_stable).
  assert (Hg : forall g (inner inner' : list Node -> Prop), (forall ns, inner ns -> inner' ns) -> group_node h N g inner -> group_node h' N' g inner').
  { intros g i1 i2 Hi (Hn & E & H). destruct (HN g Hn) as [Hn' [= E1 E2 _]]. split; [done|]. rewrite E1, E2. by split; [|apply Hi]. }
  induction p as [k c Hk Hc] using pattern_ind. intros [|n ns]; cbn [shows]; [done|]. intros ((Hn & Et & H) & Hcont).
  destruct (HN n Hn) as [Hn' [= E1 E2 _]]. rewrite E1. split; [|destruct c as [c|]; [by apply Hc|done]].
  split; [done|]. split; [done|]. unfold one_group, two_groups in *. rewrite E2.
  destruct k as [name q| |types|type regex|q|q|q|l q r|types|types| | |q r|q|q|action q]; cbn [kind_all] in Hk; try done;
    try (destruct H as (g & Eg & H); exists g; split; [done|by eapply Hg]);
    try (eapply Forall2_impl; [exact H|done]);
    try (destruct H as (g1 & g2 & Eg & H1 & H2); destruct Hk; exists g1, g2; split_and!; [done|by eapply Hg|by eapply Hg]).
  - destruct H as (g & t & Eg & H1 & H2). exists g, t. split_and!; [done|by eapply Hg|by apply Ht].
  - destruct H as (t & r & Eg & H1 & H2). exists t, r. split_and!; [done|by apply Ht|by apply HN].
Qed.

(** ** The parts *)

(** New nodes, which show what [Q] says, become the last children of [p]. *)
Definition grafts (p : Node) (h h' : heap) (Q : heap -> (Node -> Prop) -> list Node -> Prop) : Prop :=
  adds (Some p) h h' /\ exists ns, look h' p = (type_of h p, children_of h p ++ ns, location_of h p) /\ Q h' (made h h') ns.
Definition appends (f : Node -> heap -> heap) (p : PatternDef) : Prop := forall parent h, parent ∈ dom h ->
  grafts parent h (f parent h) (fun h' N => shows tokens h' N p).
Definition builds (b : heap -> Node * heap) (k : PatternKind) : Prop := forall h n h', b h = (n, h') ->
  adds None h h' /\ shown tokens h' (made h h') k n.

#[local] Arguments push_back : simpl never.

Lemma created h t l n h' : create h t l = (n, h') -> adds None h h' /\ made h h' n /\ look h' n = (t, [], l).
Proof.
  intros E. pose proof (fun m => create_look _ _ _ _ _ m E) as H. destruct (H n) as (Hn & Hd & Hl).
  rewrite decide_True in Hl by done. split_and!; [|split; set_solver|done].
  split; [set_solver|]. intros m Hm _. destruct (H m) as (_ & _ & ->). rewrite decide_False; [done|]. by intros ->.
Qed.
Lemma pushed h p n : p ∈ dom h -> let h' := push_back h p (Some n) in
  adds (Some p) h h' /\ dom h' = dom h /\ look h' p = (type_of h p, children_of h p ++ [n], location_of h p).
Proof.
  intros Hp. pose proof (fun m => push_look h p n m Hp) as H. cbv zeta in *. destruct (H p) as [Hd Hl]. rewrite decide_True in Hl by done.
  split_and!; [|done|done]. split; [by rewrite Hd|]. intros m Hm Hne. destruct (H m) as [_ ->]. rewrite decide_False; [done|]. by intros ->.
Qed.
Lemma look_stays h h' p n x : adds p h h' -> n ∈ dom h -> Some n <> p -> look h n = x -> look h' n = x.
Proof. intros [_ A] Hn Hp <-. by apply A. Qed.
Lemma made_mono p h1 h2 h3 h4 n : adds p h1 h2 -> adds p h3 h4 -> made h2 h3 n -> made h1 h4 n.
Proof. intros [D1 _] [D2 _] [A1 A2]. split; set_solver. Qed.

(** A node with one group *)
Lemma group_pushed inner q h n : n ∈ dom h -> appends inner q ->
  let '(g, h1) := create_token h Group in
  grafts n h (push_back (inner g h1) n (Some g)) (fun h' N ns => exists g, ns = [g] /\ group_node h' N g (shows tokens h' N q)).
Proof.
  intros Hn Hi. destruct (create_token h Group) as [g h1] eqn:E1.
  destruct (created _ _ _ _ _ E1) as (A1 & [Hg Hg1] & L1). destruct A1 as [D1 A1].
  destruct (Hi g h1 Hg1) as ([D2 A2] & ns & L2 & Hns). set (h2 := inner g h1) in *.
  assert (Hn2 : n ∈ dom h2) by set_solver. assert (Hng : n <> g) by (by intros ->).
  destruct (pushed h2 n g Hn2) as ([D3 A3] & Hd & L3). set (h3 := push_back h2 n (Some g)) in *.
  assert (Ln : look h2 n = look h n) by (rewrite A2 by (try set_solver; congruence); by apply A1).
  split.
  - split; [set_solver|]. intros m Hm Hne. rewrite A3 by first [in_dom|done]. stays A2. by stays A1.
  - exists [g]. split; [rewrite L3; by injection Ln as -> -> ->|]. exists g. split; [done|].
    assert (Lg : look h3 g = look h2 g) by (apply A3; [set_solver|congruence]).
    rewrite L2 in Lg. injection L1 as E2 E3 E4. rewrite E2, E3 in Lg. injection Lg as T3 C3 _.
    split; [split; set_solver|]. rewrite T3, C3. split; [done|]. cbn [app].
    eapply shows_ext; [|exact Hns]. intros m [M1 M2]. split; [split; set_solver|]. apply A3; [done|]. intros [= ->]. set_solver.
Qed.

Definition stable (Q : heap -> (Node -> Prop) -> list Node -> Prop) : Prop := forall h h' (N N' : Node -> Prop) ns,
  (forall n, N n -> N' n /\ look h' n = look h n) -> Q h N ns -> Q h' N' ns.

Lemma grafts_app p h1 h2 h3 Q1 Q2 : p ∈ dom h1 -> stable Q1 -> stable Q2 -> grafts p h1 h2 Q1 -> grafts p h2 h3 Q2 ->
  grafts p h1 h3 (fun h N ns => exists ns1 ns2, ns = ns1 ++ ns2 /\ Q1 h N ns1 /\ Q2 h N ns2).
Proof.
  intros Hp S1 S2 ([D1 A1] & ns1 & L1 & H1) ([D2 A2] & ns2 & L2 & H2).
  split; [by eapply adds_trans|]. exists (ns1 ++ ns2). injection L1 as T1 C1 E1.
  split; [rewrite L2, T1, C1, E1; by rewrite app_assoc|]. exists ns1, ns2. split_and!; [done| |].
  - eapply S1; [|exact H1]. intros m [M1 M2]. split; [split; set_solver|]. apply A2; [done|]. by intros [= ->].
  - eapply S2; [|exact H2]. intros m [M1 M2]. split; [split; set_solver|done].
Qed.
Lemma grafts_weaken p h h' (Q Q' : heap -> (Node -> Prop) -> list Node -> Prop) :
  (forall h N ns, Q h N ns -> Q' h N ns) -> grafts p h h' Q -> grafts p h h' Q'.
Proof. intros HQ (A & ns & L & H). split; [done|]. exists ns. split; [done|by apply HQ]. Qed.

Lemma token_stables types : stable (fun h' N ns => Forall2 (token_node tokens h' N) ns types).
Proof. intros ? ? ? ? ? HN H. eapply Forall2_impl; [exact H|]. intros. by eapply token_stable. Qed.

(** A new node is pushed. *)
Lemma new_pushed p h h1 n (Q : heap -> (Node -> Prop) -> list Node -> Prop) : p ∈ dom h -> stable Q -> adds None h h1 ->
  Q h1 (made h h1) [n] -> grafts p h (push_back h1 p (Some n)) Q.
Proof.
  intros Hp HS [D1 A1] HQ. assert (Hp1 : p ∈ dom h1) by set_solver. destruct (pushed h1 p n Hp1) as ([D2 A2] & Hd & L2).
  cbv zeta in *. pose proof (A1 p Hp ltac:(done)) as [= T1 C1 E1]. split.
  - split; [set_solver|]. intros m Hm Hne. rewrite A2, A1; try done; set_solver.
  - exists [n]. split; [by rewrite L2, T1, C1, E1|]. eapply HS; [|exact HQ]. intros m [M1 M2].
    split; [split; set_solver|]. apply A2; [done|]. by intros [= ->].
Qed.

Lemma tokens_pushed types : Forall known types -> forall p h, p ∈ dom h ->
  grafts p h (push_tokens id h p types) (fun h' N ns => Forall2 (token_node tokens h' N) ns types).
Proof.
  induction 1 as [|t types Ht _ IH]; intros p h Hp.
  - split; [apply adds_refl|]. exists []. rewrite app_nil_r. by split.
  - unfold push_tokens. cbn [foldl]. destruct (text_node id h reified.Token (bytes (name t))) as [n h1] eqn:E1.
    destruct (created _ _ _ _ _ E1) as (A1 & M1 & L1).
    assert (G1 : grafts p h (push_back h1 p (Some n)) (fun h' N ns => Forall2 (token_node tokens h' N) ns [t])).
    { apply new_pushed; [done|apply token_stables|done|].
      constructor; [|constructor]. split; [done|]. by eapply text_token. }
    assert (Hp2 : p ∈ dom (push_back h1 p (Some n))) by (destruct G1 as [[? _] _]; set_solver).
    eapply grafts_weaken; [|exact (grafts_app _ _ _ _ _ _ Hp (token_stables [t]) (token_stables types) G1 (IH _ _ Hp2))].
    intros h' N ns (ns1 & ns2 & -> & H1 & H2). change (t :: types) with ([t] ++ types). by apply Forall2_app.
Qed.

Lemma shows_stable p : stable (fun h N ns => shows tokens h N p ns).
Proof. intros h h' N N' ns HN. by apply shows_ext. Qed.
Lemma groups_stable q : stable (fun h N ns => exists g, ns = [g] /\ group_node h N g (shows tokens h N q)).
Proof.
  intros h h' N N' ns HN (g & -> & (Hn & E & H)). exists g. split; [done|]. destruct (HN g Hn) as [Hn' [= E1 E2 _]].
  split; [done|]. rewrite E1, E2. split; [done|]. by eapply shows_ext.
Qed.

Lemma one_group_stays h h' (N N' : Node -> Prop) n q : (forall n, N n -> N' n /\ look h' n = look h n) -> children_of h' n = children_of h n ->
  one_group h N n (shows tokens h N q) -> one_group h' N' n (shows tokens h' N' q).
Proof.
  intros HN E (g & C & Hn & T & H). exists g. destruct (HN g Hn) as [Hn' [= E1 E2 _]]. split; [by rewrite E|].
  split; [done|]. rewrite E1, E2. split; [done|]. by eapply shows_ext.
Qed.

(** ** The nodes of the classes *)

Lemma node_with type h n h1 h2 Q : create_token h type = (n, h1) -> stable Q -> grafts n h1 h2 Q ->
  adds None h h2 /\ made h h2 n /\ exists ns, look h2 n = (type, ns, null_location) /\ Q h2 (made h h2) ns.
Proof.
  intros E HS ([D2 A2] & ns & L2 & H). destruct (created _ _ _ _ _ E) as ([D1 A1] & [M1 M1'] & [= T1 C1 E1]).
  split_and!.
  - split; [set_solver|]. intros m Hm Hne. rewrite A2, A1; try done; [set_solver|]. by intros [= ->].
  - split; set_solver.
  - exists ns. rewrite L2, T1, C1, E1. split; [done|]. eapply HS; [|exact H]. intros m [M2 M3]. split; [split; set_solver|done].
Qed.

Lemma with_group_made type inner q h n h' : appends inner q -> with_group type inner h = (n, h') ->
  adds None h h' /\ made h h' n /\ type_of h' n = type /\ one_group h' (made h h') n (shows tokens h' (made h h') q).
Proof.
  intros Hi. unfold with_group. destruct (create_token h type) as [n1 h1] eqn:E1. intros E.
  assert (Hn : n1 ∈ dom h1) by apply (created _ _ _ _ _ E1).
  pose proof (group_pushed inner q h1 n1 Hn Hi) as G. destruct (create_token h1 Group) as [g h2]. injection E as <- <-.
  destruct (node_with _ _ _ _ _ _ E1 (groups_stable q) G) as (A & M & ns & [= T C _] & (g' & -> & Hg)).
  split_and!; try done. by exists g'.
Qed.
Lemma with_tokens_made type types h n h' : Forall known types -> with_tokens id type types h = (n, h') ->
  adds None h h' /\ made h h' n /\ type_of h' n = type /\ Forall2 (token_node tokens h' (made h h')) (children_of h' n) types.
Proof.
  intros Hk. unfold with_tokens. destruct (create_token h type) as [n1 h1] eqn:E1. intros [= <- <-].
  assert (Hn : n1 ∈ dom h1) by apply (created _ _ _ _ _ E1).
  destruct (node_with _ _ _ _ _ _ E1 (token_stables types) (tokens_pushed types Hk n1 h1 Hn)) as (A & M & ns & [= T C _] & H).
  split_and!; try done. by rewrite C.
Qed.
Lemma with_two_groups_made type inner1 inner2 q r h n h' : appends inner1 q -> appends inner2 r ->
  with_two_groups type inner1 inner2 h = (n, h') ->
  adds None h h' /\ made h h' n /\ type_of h' n = type
  /\ two_groups h' (made h h') n (shows tokens h' (made h h') q) (shows tokens h' (made h h') r).
Proof.
  intros H1 H2. unfold with_two_groups. destruct (create_token h type) as [n1 h1] eqn:E1.
  destruct (create_token h1 Group) as [g1 h2] eqn:E2. destruct (create_token h2 Group) as [g2 h3] eqn:E3.
  destruct (created _ _ _ _ _ E1) as ([D1 A1] & [M1 M1'] & L1), (created _ _ _ _ _ E2) as ([D2 A2] & [M2 M2'] & L2),
    (created _ _ _ _ _ E3) as ([D3 A3] & [M3 M3'] & L3).
  destruct (H1 g1 h3 ltac:(in_dom)) as ([D4 A4] & ns1 & L4 & S4). set (h4 := inner1 g1 h3) in *.
  destruct (H2 g2 h4 ltac:(in_dom)) as ([D5 A5] & ns2 & L5 & S5). set (h5 := inner2 g2 h4) in *.
  destruct (pushed h5 n1 g1 ltac:(in_dom)) as ([D6 A6] & Hd6 & L6). set (h6 := push_back h5 n1 (Some g1)) in *.
  destruct (pushed h6 n1 g2 ltac:(in_dom)) as ([D7 A7] & Hd7 & L7). set (h7 := push_back h6 n1 (Some g2)) in *.
  intros [= <- <-].
  assert (Hng1 : n1 <> g1) by (intros ->; unmade). assert (Hng2 : n1 <> g2) by (intros ->; unmade). assert (Hgg : g1 <> g2) by (intros ->; unmade).
  assert (Ln : look h5 n1 = (type, [], null_location)) by (stays A5; stays A4; stays A3; by stays A2).
  assert (Lg1 : look h7 g1 = (Group, ns1, null_location)).
  { stays A7. stays A6. stays A5. rewrite L4. assert (E : look h3 g1 = look h2 g1) by (by stays A3). rewrite L2 in E. by injection E as -> -> ->. }
  assert (Lg2 : look h7 g2 = (Group, ns2, null_location)).
  { stays A7. stays A6. rewrite L5. assert (E : look h4 g2 = look h3 g2) by (by stays A4). rewrite L3 in E. by injection E as -> -> ->. }
  injection Ln as Tn Cn En. injection L6 as T6 C6 N6. injection L7 as T7 C7 N7. injection Lg1 as T1 C1 _. injection Lg2 as T2 C2 _.
  split_and!.
  - split; [by do 6 (etransitivity; [eassumption|])|]. intros m Hm _. stays A7. stays A6. stays A5. stays A4. stays A3. stays A2. by stays A1.
  - is_made.
  - by rewrite T7, T6.
  - exists g1, g2. split; [by rewrite C7, C6, Cn|]. split; (split; [is_made|]; split; [done|]).
    + rewrite C1. eapply shows_ext; [|exact S4]. intros m [X1 X2]. split; [is_made|]. stays A7. stays A6. by stays A5.
    + rewrite C2. eapply shows_ext; [|exact S5]. intros m [X1 X2]. split; [is_made|]. stays A7. by stays A6.
Qed.

(** The tokens of a pattern *)
Fixpoint all_known (p : PatternDef) : Prop :=
  let '(Pat k c) := p in
  match k with
  | Cap name q => known name /\ all_known q
  | TokenMatch types | InsideStar types | Inside types => Forall known types
  | RegexMatch type _ => known type
  | Opt q | Rep q | Not q | Pred q | NegPred q | Action _ q => all_known q
  | Choice _ q r | Children q r => all_known q /\ all_known r
  | _ => True
  end /\ match c with None => True | Some c => all_known c end.

Lemma created_with type h n h' : create_token h type = (n, h') -> adds None h h' /\ made h h' n /\ type_of h' n = type.
Proof. intros E. destruct (created _ _ _ _ _ E) as (A & M & [= T _ _]). by split_and!. Qed.

Lemma app_stable Q1 Q2 : stable Q1 -> stable Q2 -> stable (fun h N ns => exists ns1 ns2, ns = ns1 ++ ns2 /\ Q1 h N ns1 /\ Q2 h N ns2).
Proof.
  intros S1 S2 ? ? ? ? ? HN (ns1 & ns2 & -> & X1 & X2). exists ns1, ns2. split_and!; [done|by eapply S1|by eapply S2].
Qed.
Lemma node_with_both type h n h1 h2 h3 Q1 Q2 : create_token h type = (n, h1) -> stable Q1 -> stable Q2 ->
  grafts n h1 h2 Q1 -> (n ∈ dom h2 -> grafts n h2 h3 Q2) ->
  adds None h h3 /\ made h h3 n /\ type_of h3 n = type
  /\ exists ns1 ns2, children_of h3 n = ns1 ++ ns2 /\ Q1 h3 (made h h3) ns1 /\ Q2 h3 (made h h3) ns2.
Proof.
  intros E S1 S2 G1 G2. assert (Hn : n ∈ dom h1) by apply (created _ _ _ _ _ E).
  assert (Hn2 : n ∈ dom h2) by (destruct G1 as [[? _] _]; set_solver).
  pose proof (grafts_app _ _ _ _ _ _ Hn S1 S2 G1 (G2 Hn2)) as G.
  destruct (node_with _ _ _ _ _ _ E (app_stable Q1 Q2 S1 S2) G) as (A & M & ns & [= T C _] & (ns1 & ns2 & -> & H1 & H2)).
  split_and!; try done. by exists ns1, ns2.
Qed.

Lemma reify_cap_builds name inner q : known name -> appends inner q -> builds (reify_cap id name inner) (Cap name q).
Proof.
  intros Hk Hi h n h'. unfold reify_cap, with_group. destruct (create_token h reified.Cap) as [n1 h1] eqn:E1. intros E.
  assert (Hn : n1 ∈ dom h1) by apply (created _ _ _ _ _ E1).
  pose proof (group_pushed inner q h1 n1 Hn Hi) as G. destruct (create_token h1 Group) as [g h2]. injection E as <- <-.
  destruct (node_with_both _ _ _ _ _ _ _ _ E1 (groups_stable q) (token_stables [name]) G
    (tokens_pushed [name] ltac:(by constructor) n1 _)) as (A & M & T & ns1 & ns2 & C & (g' & -> & Hg) & Ht). split; [done|].
  split; [|done]. split; [done|]. split; [done|]. inversion Ht as [|t ? ns3 ? Ht1 Ht2]; subst. inversion Ht2; subst. by exists g', t.
Qed.
Lemma reify_regex_builds type regex : known type -> builds (reify_regex_match id type regex) (RegexMatch type regex).
Proof.
  intros Hk h n h'. unfold reify_regex_match, with_tokens. destruct (create_token h reified.RegexMatch) as [n1 h1] eqn:E1.
  assert (Hn : n1 ∈ dom h1) by apply (created _ _ _ _ _ E1).
  pose proof (tokens_pushed [type] ltac:(by constructor) n1 h1 Hn) as G. set (h2 := push_tokens id h1 n1 [type]) in *.
  destruct (text_node id h2 reified.Regex (pattern_ regex)) as [r h3] eqn:E3. intros [= <- <-].
  destruct (created _ _ _ _ _ E3) as (A3 & M3 & _).
  set (Q := fun (_ : heap) (N : Node -> Prop) ns => exists r, ns = [r] /\ N r).
  assert (SQ : stable Q) by (intros ? ? ? ? ? HN (x & -> & Hx); exists x; split; [done|by apply HN]).
  destruct (node_with_both _ _ _ _ _ _ _ Q E1 (token_stables [type]) SQ G
    (fun Hn => new_pushed n1 h2 h3 r Q Hn SQ A3 (ex_intro _ r (conj eq_refl M3)))) as (A & M & T & ns1 & ns2 & C & Ht & (x & -> & Hx)).
  split; [done|]. split; [|done]. split; [done|]. split; [done|].
  inversion Ht as [|t ? ns3 ? Ht1 Ht2]; subst. inversion Ht2; subst. by exists t, x.
Qed.
Lemma reify_children_builds inner1 inner2 q r : appends inner1 q -> appends inner2 r ->
  builds (reify_children inner1 inner2) (Children q r).
Proof.
  intros Hq Hr h n h'. unfold reify_children, with_group. destruct (create_token h reified.Children) as [n1 h1] eqn:E1. intros E.
  assert (Hn : n1 ∈ dom h1) by apply (created _ _ _ _ _ E1).
  pose proof (group_pushed inner1 q h1 n1 Hn Hq) as G. destruct (create_token h1 Group) as [g h2].
  set (h3 := push_back (inner1 g h2) n1 (Some g)) in *.
  pose proof (fun Hn2 => group_pushed inner2 r h3 n1 Hn2 Hr) as G2. destruct (create_token h3 Group) as [g2 h4].
  injection E as <- <-.
  destruct (node_with_both _ _ _ _ _ _ _ _ E1 (groups_stable q) (groups_stable r) G G2)
    as (A & M & T & ns1 & ns2 & C & (x & -> & Hx) & (y & -> & Hy)).
  split; [done|]. split; [|done]. split; [done|]. split; [done|]. by exists x, y.
Qed.

(** [reify] appends the tree of the pattern. *)
Lemma reify_appends p : all_known p -> appends (reify id p) p.
Proof.
  induction p as [k c Hk Hc] using pattern_ind. intros [Hkk Hkc] parent h Hp. cbn [reify].
  match goal with |- context [let '(_, _) := ?b in _] => set (node := b) end.
  assert (Hb : forall n h', node = (n, h') -> adds None h h' /\ shown tokens h' (made h h') k n).
  { subst node. clear Hc Hkc Hp parent. intros n h'.
    destruct k as [name q| |types|type regex|q|q|q|l q r|types|types| | |q r|q|q|action q]; cbn [kind_all] in *; intros E.
    1: by eapply reify_cap_builds; [apply Hkk|apply Hk, Hkk|].
    2,8,9: destruct (with_tokens_made _ _ _ _ _ Hkk E) as (A & M & T & H).
    all: try (destruct (created_with _ _ _ _ E) as (A & M & T)).
    all: try (destruct (with_group_made _ _ _ _ _ _ (Hk Hkk) E) as (A & M & T & H)).
    all: try (split; [exact A|]; split; [split; [exact M|]; split; [exact T|]; done|reflexivity]).
    - by eapply reify_regex_builds.
    - destruct Hk as [Hk1 Hk2], Hkk as [K1 K2].
      destruct (with_two_groups_made _ _ _ _ _ _ _ _ (Hk1 K1) (Hk2 K2) E) as (A & M & T & H). by split; [|split].
    - destruct Hk as [Hk1 Hk2], Hkk as [K1 K2]. by apply (reify_children_builds (reify id q) (reify id r) q r (Hk1 K1) (Hk2 K2)). }
  destruct node as [n h1]. destruct (Hb n h1 eq_refl) as [A HS].
  pose proof (new_pushed parent h h1 n (fun h N ns => shows tokens h N (Pat k None) ns) Hp (shows_stable _) A HS) as G.
  destruct c as [c|]; [|exact G]. specialize (Hc Hkc parent (push_back h1 parent (Some n))).
  pose proof (grafts_app _ _ _ _ _ _ Hp (shows_stable _) (shows_stable c) G (Hc ltac:(destruct G as [[? _] _]; set_solver))) as G2.
  eapply grafts_weaken; [|exact G2]. intros h' N ns (ns1 & ns2 & -> & H1 & H2).
  apply shows_chain. apply shows_chain in H1, H2. cbn [chain] in *. change (k :: chain c) with ([k] ++ chain c). by apply Forall2_app.
Qed.

(** [Pattern::reify] makes a tree with the group of the pattern. *)
Lemma reify_pattern_made p h top h' : all_known (pattern p) -> reify_pattern id p h = (top, h') ->
  adds None h h' /\ made h h' top /\ type_of h' top = Token.Top
  /\ one_group h' (made h h') top (shows tokens h' (made h h') (pattern p)).
Proof.
  intros Hk. unfold reify_pattern. destruct (create_token h Token.Top) as [n h1] eqn:E1.
  destruct (create_token h1 Group) as [g h2] eqn:E2. intros [= <- <-].
  destruct (created _ _ _ _ _ E1) as ([D1 A1] & [M1 M1'] & L1), (created _ _ _ _ _ E2) as ([D2 A2] & [M2 M2'] & L2).
  destruct (pushed h2 n g ltac:(in_dom)) as ([D3 A3] & Hd3 & L3). set (h3 := push_back h2 n (Some g)) in *.
  destruct (reify_appends (pattern p) Hk g h3 ltac:(in_dom)) as ([D4 A4] & ns & L4 & H). set (h4 := reify id (pattern p) g h3) in *.
  assert (Hng : n <> g) by (by intros ->).
  assert (Ln : look h4 n = (Token.Top, [g], null_location)).
  { stays A4. rewrite L3. pose proof (A2 n M1' ltac:(done)) as E. rewrite L1 in E. by injection E as -> -> ->. }
  pose proof (A3 g M2' ltac:(congruence)) as E. rewrite L2 in E. injection E as T3 C3 _.
  injection L4 as T4 C4 _. rewrite T3 in T4. rewrite C3 in C4. injection Ln as Tn Cn _.
  split_and!; [|is_made|done|].
  - split; [set_solver|]. intros m Hm _. stays A4. stays A3. stays A2. by stays A1.
  - exists g. split; [done|]. split; [split; set_solver|]. split; [done|]. rewrite C4.
    eapply shows_ext; [|exact H]. intros m [X1 X2]. split; [split; set_solver|done].
Qed.
End Reified.

(** * Unreachable patterns *)

(** Wherever the second pattern matches, the first one does. *)
Definition hides (p q : Pattern) : Prop := forall fuel h parent it m j mq,
  pat_match fuel h (pattern q) parent it m = Returns (true, (j, mq)) ->
  exists i mp, pat_match fuel h (pattern p) parent it m = Returns (true, (i, mp)).

Lemma matched_position fuel h p parent it m j mp : last_ends p = true ->
  pat_match fuel h p parent it m = Returns (true, (j, mp)) -> seqs fuel h (chain p) parent it = Returns (Some j).
Proof. intros Hl E. by rewrite <-pos_chain, <-(position_matches fuel h p Hl parent it m), E. Qed.
Lemma position_matched fuel h p parent it m j : last_ends p = true -> seqs fuel h (chain p) parent it = Returns (Some j) ->
  exists mp, pat_match fuel h p parent it m = Returns (true, (j, mp)).
Proof.
  intros Hl E. rewrite <-pos_chain, <-(position_matches fuel h p Hl parent it m) in E. unfold position in E.
  destruct (pat_match fuel h p parent it m) as [[[] [i mp]]| |]; try done. injection E as ->. by exists mp.
Qed.
Lemma incl_hides p q : last_ends (pattern p) = true -> last_ends (pattern q) = true ->
  parents_one (pattern p) = true -> parents_one (pattern q) = true -> incl (chain (pattern p)) (chain (pattern q)) -> hides p q.
Proof.
  intros L1 L2 P1 P2 Hi fuel h parent it m j mq Hm. apply matched_position in Hm; [|done].
  rewrite parents_one_chain in P1, P2. destruct (incl_sound fuel h _ _ Hi P1 P2 _ _ _ Hm) as [i E]. exists i. by apply position_matched.
Qed.

Section Unreachable.
Context (id : positive) (tokens : Registry).

(** The pattern of a rule: its tokens have their names, [Last] ends its chains, and what stands
    before [<<] is one node. *)
Definition rule_accepted (r : Rule) : Prop := all_known tokens (pattern (rule_pattern r))
  /\ last_ends (pattern (rule_pattern r)) = true /\ parents_one (pattern (rule_pattern r)) = true.

(** A tree of the pattern of a rule *)
Definition rule_tree (h : heap) (r : Rule) (t : Node) : Prop := exists N g, pattern_field h t Group = Returns g
  /\ group_node h N g (shows tokens h N (pattern (rule_pattern r))).

Lemma reify_rules_made : forall rules h ts h', Forall rule_accepted rules -> reify_rules id rules h = (ts, h') ->
  adds None h h' /\ Forall2 (fun r t => made h h' t /\ type_of h' t = Token.Top
    /\ one_group h' (made h h') t (shows tokens h' (made h h') (pattern (rule_pattern r)))) rules ts.
Proof.
  induction rules as [|r rules IH]; intros h ts h' Hr; cbn [reify_rules]; [intros [= <- <-]; split; [apply adds_refl|constructor]|].
  apply Forall_cons in Hr as [(Hk & _) Hr]. destruct (reify_pattern id (rule_pattern r) h) as [t h1] eqn:E1.
  destruct (reify_rules id rules h1) as [ts1 h2] eqn:E2. intros [= <- <-].
  destruct (reify_pattern_made id tokens _ _ _ _ Hk E1) as ([D1 A1] & M1 & T1 & O1). destruct (IH _ _ _ Hr E2) as ([D2 A2] & F2).
  assert (HN : forall n, made h h1 n -> made h h2 n /\ look h2 n = look h1 n).
  { intros n [X1 X2]. split; [is_made|by stays A2]. }
  split; [by eapply adds_trans|]. constructor.
  - destruct (HN t M1) as [Mt [= Et Ec _]]. split; [done|]. split; [by rewrite Et|]. by eapply one_group_stays.
  - eapply Forall2_impl; [exact F2|]. intros r' t' ([X1 X2] & T & O). split; [is_made|]. split; [done|].
    eapply one_group_stays; [|done|exact O]. intros n [Y1 Y2]. split; [is_made|done].
Qed.
Lemma rule_trees rules h ts h' : Forall rule_accepted rules -> reify_rules id rules h = (ts, h') -> Forall2 (rule_tree h') rules ts.
Proof.
  intros Hr E. apply reify_rules_made in E as [_ F]; [|done]. eapply Forall2_impl; [exact F|].
  intros r t (_ & T & g & Cg & Hg). exists (made h h'), g. split; [|done].
  by eapply field_at; [exact T|vm_compute; reflexivity|lia|rewrite Cg].
Qed.

(** ** The pairs that are reported *)

Section Reports.
Context (fuel : nat) (pass : PassDef) (h : heap).

Definition shadowed (prefix pattern : Node) : Prop := exists g1 g2,
  pattern_field h prefix Group = Returns g1 /\ pattern_field h pattern Group = Returns g2
  /\ includes_prefix tokens fuel h g1 g2 = Returns true.
Definition about (prefix : Node) (patterns : list Node) (c : Complaint) : Prop := exists j pattern s t,
  patterns !! j = Some pattern /\ shadowed prefix pattern /\ c = Unreachable (pass_name pass) s t.

Lemma about_later prefix p patterns c : about prefix patterns c -> about prefix (p :: patterns) c.
Proof. intros (j & q & s & t & Hj & H). by exists (S j), q, s, t. Qed.
Lemma check_prefix_spec prefix : forall patterns ret cs ret' cs',
  check_prefix fuel tokens pass prefix patterns ret cs h = Returns (ret', cs') ->
  exists new, cs' = cs ++ new /\ ret' = (match new with [] => ret | _ => 1 end) /\ Forall (about prefix patterns) new.
Proof.
  induction patterns as [|p patterns IH]; intros ret cs ret' cs'; cbn [check_prefix].
  { intros [= <- <-]. exists []. by rewrite app_nil_r. }
  intros (g1 & E1 & (g2 & E2 & (b & Eb & H)%outcome_bind_returns)%outcome_bind_returns)%outcome_bind_returns. destruct b.
  - apply outcome_bind_returns in H as (s & _ & H). apply outcome_bind_returns in H as (t & _ & H).
    apply IH in H as (new & -> & -> & Hn). exists (Unreachable (pass_name pass) s t :: new). split_and!.
    + by rewrite <-app_assoc.
    + by destruct new.
    + constructor; [exists O, p, s, t; split; [done|split; [by exists g1, g2|done]]|].
      eapply Forall_impl; [exact Hn|]. apply about_later.
  - apply IH in H as (new & -> & -> & Hn). exists new. split_and!; [done|done|]. eapply Forall_impl; [exact Hn|]. apply about_later.
Qed.

Definition about_pair (patterns : list Node) (c : Complaint) : Prop := exists i j prefix pattern s t,
  (i < j)%nat /\ patterns !! i = Some prefix /\ patterns !! j = Some pattern /\ shadowed prefix pattern
  /\ c = Unreachable (pass_name pass) s t.
Lemma check_reachable_spec : forall patterns ret cs ret' cs',
  check_reachable fuel tokens pass patterns ret cs h = Returns (ret', cs') ->
  exists new, cs' = cs ++ new /\ ret' = (match new with [] => ret | _ => 1 end) /\ Forall (about_pair patterns) new.
Proof.
  induction patterns as [|p patterns IH]; intros ret cs ret' cs'; cbn [check_reachable].
  { intros [= <- <-]. exists []. by rewrite app_nil_r. }
  intros ([r1 c1] & E1 & H)%outcome_bind_returns. apply check_prefix_spec in E1 as (new1 & -> & -> & H1).
  apply IH in H as (new2 & -> & -> & H2). exists (new1 ++ new2). split_and!.
  - by rewrite app_assoc.
  - by destruct new1, new2.
  - apply Forall_app. split; eapply Forall_impl; try eassumption.
    + intros c (j & q & s & t & Hj & H). exists O, (S j), p, q, s, t. split_and!; [lia|done|done|apply H|apply H].
    + intros c (i & j & a & b & s & t & Hlt & Ha & Hb & H). exists (S i), (S j), a, b, s, t. split_and!; [lia|done|done|apply H|apply H].
Qed.
End Reports.

Lemma rule_tree_group h r t : rule_tree h r t -> exists g, pattern_field h t Group = Returns g
  /\ group_node h (fun _ => True) g (shows tokens h (fun _ => True) (pattern (rule_pattern r))).
Proof.
  intros (M & g & E & (Hn & T & H)). exists g. split; [done|]. split; [done|]. split; [done|]. eapply shows_ext; [|exact H]. done.
Qed.

Definition consumes_by (m : Multiplicity) (p : Pattern) : Prop := forall fuel h parent it mt j mp,
  pat_match fuel h (pattern p) parent it mt = Returns (true, (j, mp)) ->
  match m with Zero => j = it | One => j = S it | Unknown => True end.

Lemma shadowed_hides fuel h r1 r2 t1 t2 : rule_accepted r1 -> rule_accepted r2 -> rule_tree h r1 t1 -> rule_tree h r2 t2 ->
  shadowed fuel h t1 t2 -> hides (rule_pattern r1) (rule_pattern r2).
Proof.
  intros (_ & L1 & P1) (_ & L2 & P2) (g1 & E1 & G1)%rule_tree_group (g2 & E2 & G2)%rule_tree_group (x1 & x2 & F1 & F2 & H).
  rewrite E1 in F1. rewrite E2 in F2. injection F1 as <-. injection F2 as <-.
  apply incl_hides; try done. by eapply includes_reads; [apply loop_reads|exact G1|exact G2|exact H].
Qed.
Lemma tree_answers fuel h r1 r2 t1 t2 : rule_tree h r1 t1 -> rule_tree h r2 t2 ->
  no_lookahead (pattern (rule_pattern r1)) = true -> no_lookahead (pattern (rule_pattern r2)) = true ->
  (2 * (psize (pattern (rule_pattern r1)) + psize (pattern (rule_pattern r2))) < fuel)%nat ->
  exists b, (g1 ← pattern_field h t1 Group; g2 ← pattern_field h t2 Group; includes_prefix tokens fuel h g1 g2) = Returns b.
Proof.
  intros (g1 & E1 & G1)%rule_tree_group (g2 & E2 & G2)%rule_tree_group L1 L2 Hf. rewrite E1, E2. cbn [mbind outcome_bind].
  rewrite no_lookahead_chain in L1, L2.
  eapply includes_answers; [apply loop_answers|exact G1|exact G2|]. split_and!; [done|done|by rewrite !total_chain].
Qed.
Lemma tree_multiplicity fuel h r t : rule_accepted r -> rule_tree h r t -> exists g, pattern_field h t Group = Returns g
  /\ ((2 * psize (pattern (rule_pattern r)) < fuel)%nat -> exists m, multiplicity fuel h g = Returns m /\ consumes_by m (rule_pattern r)).
Proof.
  intros (_ & L & _) (g & E & G)%rule_tree_group. exists g. split; [done|]. intros Hf.
  destruct (proj2 (multiplicity_returns tokens h _ fuel) _ g G Hf) as [m Em]. exists m. split; [done|].
  apply (proj2 (multiplicity_reads tokens h _ fuel) _ _ _ G) in Em as ->.
  intros n h' parent it mt j mp Hm. apply matched_position in Hm; [|done]. rewrite <-pos_chain in Hm. apply mult_sound in Hm.
  destruct (mult_of _); [done|apply Hm|done].
Qed.

(** C14: Of the rules of a pass, reified in order: [multiplicity], with fuel, says how many nodes every
    match of the pattern consumes; [includes_prefix] answers, with fuel, for any two patterns without
    predicates; [check_reachable] answers 1 exactly when it reports something, and what it reports are
    pairs of an earlier and a later rule of which the earlier pattern matches wherever the later one does.
    The rules are of patterns that [check_pattern] accepts ([rule_accepted]: the tokens are those the checker knows
    by their names, [Last] ends what it is part of, and what is before a [<<] is a pattern of one node);
    [check] puts error nodes in the place of the others before it looks for unreachable rules, and of
    trees with them a pair could be reported of which the later rule is reached. *)
Theorem unreachable_sound fuel pass h ts h' : Forall rule_accepted (rules_ pass) ->
  reify_patterns id pass h = (ts, h') ->
  Forall2 (fun r t => exists g, pattern_field h' t Group = Returns g
      /\ ((2 * psize (pattern (rule_pattern r)) < fuel)%nat ->
           exists m, multiplicity fuel h' g = Returns m /\ consumes_by m (rule_pattern r))) (rules_ pass) ts
  /\ (forall r1 r2 t1 t2 i j, rules_ pass !! i = Some r1 -> rules_ pass !! j = Some r2 -> ts !! i = Some t1 -> ts !! j = Some t2 ->
      no_lookahead (pattern (rule_pattern r1)) = true -> no_lookahead (pattern (rule_pattern r2)) = true ->
      (2 * (psize (pattern (rule_pattern r1)) + psize (pattern (rule_pattern r2))) < fuel)%nat ->
      exists b, (g1 ← pattern_field h' t1 Group; g2 ← pattern_field h' t2 Group; includes_prefix tokens fuel h' g1 g2) = Returns b)
  /\ (forall ret cs, check_reachable fuel tokens pass ts 0 [] h' = Returns (ret, cs) ->
      ret = (match cs with [] => 0 | _ => 1 end)
      /\ Forall (fun c => exists i j r1 r2 s t, (i < j)%nat /\ rules_ pass !! i = Some r1 /\ rules_ pass !! j = Some r2
           /\ c = Unreachable (pass_name pass) s t /\ hides (rule_pattern r1) (rule_pattern r2)) cs).
Proof.
  intros Hr E. pose proof (rule_trees _ _ _ _ Hr E) as Ht. split_and!.
  - apply Forall2_same_length_lookup_2; [by eapply Forall2_length|]. intros i r t Hi Hj.
    apply tree_multiplicity; [by eapply Forall_lookup_1|by eapply Forall2_lookup_lr].
  - intros r1 r2 t1 t2 i j H1 H2 T1 T2. apply tree_answers; by eapply Forall2_lookup_lr.
  - intros ret cs H. apply check_reachable_spec in H as (new & -> & -> & Hn). split; [by destruct new|].
    eapply Forall_impl; [exact Hn|]. intros c (i & j & t1 & t2 & s & t & Hlt & H1 & H2 & Hs & ->).
    destruct (Forall2_lookup_r _ _ _ _ _ Ht H1) as (r1 & R1 & T1). destruct (Forall2_lookup_r _ _ _ _ _ Ht H2) as (r2 & R2 & T2).
    exists i, j, r1, r2, s, t. split_and!; try done.
    eapply shadowed_hides; [by eapply Forall_lookup_1|by eapply Forall_lookup_1|exact T1|exact T2|exact Hs].
Qed.
End Unreachable.

(** * Runs of the checker *)

Module Sample.
(** The tokens of a program, after the built-in ones and those of reified patterns *)
Definition A : Token := builtin 31 "a" flag_print.
Definition B : Token := builtin 32 "b" flag_print.
Definition K : Token := builtin 33 "k" 0.
Definition reified_tokens : list Token :=
  [reified.Token; reified.Regex; reified.Any; reified.TokenMatch; reified.RegexMatch; reified.Cap; reified.Opt; reified.Rep;
   reified.Not; reified.Choice; reified.Children; reified.First; reified.Last; reified.Inside; reified.InsideStar;
   reified.Pred; reified.NegPred; reified.Action].
Definition tokens : Registry :=
  match define_tokens empty_registry ((fun d => (name d, fl d)) <$> builtin_tokens ++ reified_tokens ++ [A; B; K]) with
  | Returns (_, r) => r
  | _ => empty_registry
  end.

Definition keep : Effect := fun _ _ h => no_change h.
Definition pass_of (patterns : list Pattern) : PassDef := new_pass "sample" empty_wf dir_topdown ((fun p => mkRule p keep) <$> patterns).
Definition defined (p : outcome Pattern) : Pattern := match p with Returns p => p | _ => Any end.
Definition dir : OutDir := mkOutDir false false (fun _ => false) [].
(** [check] of one pass with these patterns: the result and what is reported *)
Definition run_check (patterns : list Pattern) : outcome (Z * list Complaint) :=
  '(ret, complaints, _, _) ← check 1 40 tokens (fun _ _ => new_match) (new_checker [pass_of patterns] empty_wf) initial_contexts ∅ dir;
  Returns (ret, complaints).

Definition ab : Pattern := defined (pattern_seq (T [A]) (T [B])).
(** The second of two rules is hidden by the first, and that is reported. *)
Example hidden_found : run_check [T [A; B]; pattern_cap K ab]
  = Returns (1, [Unreachable "sample" (bytes "(T(a) * T(b))[k]") (bytes "T(a, b)")]).
Proof. vm_compute. reflexivity. Qed.
Example reachable_passes : run_check [ab; T [A; B]] = Returns (0, []).
Proof. vm_compute. reflexivity. Qed.

(** ** What is missed *)

(** Two patterns that begin with [Start] are compared by the addresses of their nodes: a rule that is
    written twice is not reported. *)
Definition at_start : Pattern := defined (pattern_seq Start (T [A])).
Lemma identical_start_not_found : run_check [at_start; at_start] = Returns (0, []) /\ hides at_start at_start.
Proof. split; [vm_compute; reflexivity|]. intros fuel h parent it m j mq H. by exists j, mq. Qed.

(** The loop below [Any] goes on from the end of the other pattern. *)
Definition not_before : Pattern := defined (pattern_neg_pred (T [A])).
Lemma any_end_undefined : run_check [Any; not_before] = Undefined.
Proof. vm_compute. reflexivity. Qed.

(** A regular expression on an internal token is not reported, the token alone is. *)
Lemma regex_internal_not_found : run_check [T_regex Lift (bytes "x")] = Returns (0, [])
  /\ exists s errors, run_check [T [Lift]] = Returns (1, [BadPattern "sample" s errors]).
Proof. split; [vm_compute; reflexivity|]. do 2 eexists. vm_compute. reflexivity. Qed.

(** A pattern after [End] is not reported when a capture holds the [End]. *)
Definition after_end : Pattern := defined (pattern_seq (pattern_cap K (defined (pattern_seq (T [A]) End_))) (T [B])).
Lemma after_end_not_found : run_check [after_end] = Returns (0, []).
Proof. vm_compute. reflexivity. Qed.

(** A repetition of what may match nothing is not reported unless it always does. *)
Definition empty_turns : Pattern := defined (pattern_rep (pattern_opt (T [A]))).
Lemma empty_turns_not_found : run_check [empty_turns] = Returns (0, []).
Proof. vm_compute. reflexivity. Qed.
End Sample.

(** The hypotheses hold for the rules [T(A, B)] and [(T(A) * T(B))[K]], of which the second is reported. *)
Example unreachable_sound_witness : exists ts h' s t,
  reify_patterns 1 (Sample.pass_of [T [Sample.A; Sample.B]; pattern_cap Sample.K Sample.ab]) ∅ = (ts, h')
  /\ check_reachable 40 Sample.tokens (Sample.pass_of [T [Sample.A; Sample.B]; pattern_cap Sample.K Sample.ab]) ts 0 [] h'
     = Returns (1, [Unreachable "sample" s t])
  /\ hides (T [Sample.A; Sample.B]) (pattern_cap Sample.K Sample.ab).
Proof.
  set (pass := Sample.pass_of _). destruct (reify_patterns 1 pass ∅) as [ts h'] eqn:E.
  assert (Hr : Forall (rule_accepted Sample.tokens) (rules_ pass)).
  { repeat constructor; vm_compute; reflexivity. }
  destruct (unreachable_sound 1 Sample.tokens 40 pass ∅ ts h' Hr E) as (_ & _ & H).
  assert (Hc : check_reachable 40 Sample.tokens pass ts 0 [] h'
    = Returns (1, [Unreachable "sample" (bytes "(T(a) * T(b))[k]") (bytes "T(a, b)")])).
  { vm_compute in E. injection E as <- <-. vm_compute. reflexivity. }
  destruct (H _ _ Hc) as (_ & (i & j & r1 & r2 & s & t & Hlt & H1 & H2 & _ & Hh)%Forall_inv).
  exists ts, h', (bytes "(T(a) * T(b))[k]"), (bytes "T(a, b)"). split; [done|]. split; [exact Hc|].
  clear - Hlt H1 H2 Hh. destruct j as [|[|j]]; [inversion Hlt| |discriminate H2]. destruct i as [|i]; [|inversion Hlt; lia].
  apply (f_equal (default r1)) in H1. apply (f_equal (default r2)) in H2. cbn in H1, H2. by subst r1 r2.
Defined.
